(* ===== verification/_CoqProject ===== *)
-Q . S2P
Prelude.v
BitPack.v
BitStream.v
Codec.v
IntCodecs.v
Rle.v
Gorilla.v
OpenAddr.v
Varlena.v
Dict.v
Fsst.v
Alp.v
Chunk.v
BitSet.v
Bloom.v
Compress.v
FsstPolicy.v
Encdesc.v
Flush.v
NativeRead.v
Value.v
ZoneMap.v
Catalog.v
GroupSkip.v
Storage.v
FreeSpace.v
Reclaim.v
RowGroup.v
Scan.v
ScanRows.v
ScanLoad.v
ScanSkip.v
ScanGroup.v
ScanTable.v
ScanWritten.v
WriteRows.v
WriteCatalog.v
Insert.v
InsertScan.v
DeleteVector.v
DeleteXact.v
Thrift.v
ParquetCodec.v
ParquetLevels.v
ParquetTypes.v
ParquetValues.v
ParquetPage.v
ParquetRows.v
ParquetMeta.v
ParquetFile.v
ParquetReadSafe.v
ParquetSkip.v
ParquetWrite.v
ParquetRoundtrip.v
Jsonb.v
Puffin.v
Avro.v
AvroSafe.v
AvroRead.v
AvroFile.v
IcebergPath.v
IcebergMeta.v
IcebergWalk.v
IcebergScan.v
IcebergDeletes.v
