(* ===== verification/Prelude.v ===== *)
(** * pgColumnar in Rocq

    pgColumnar is a PostgreSQL extension that stores tables by column.  A write
    buffers rows, cuts them into row groups of column chunks, encodes and
    compresses every chunk vector by vector, places the bytes in the relation
    file and records them in catalog tables; a scan reads the catalog, leaves out
    what statistics and predicates exclude, reads and decodes the rest and drops
    deleted rows.  Tables can be exported to and imported from Parquet files.

    ** The files

    Base
    - [Prelude]: machine integers, the outcome type [res], loops, bit lemmas,
      little-endian bytes, checked memory access, tactics and hint databases.

    Encodings ([columnar_encoding.c])
    - [BitPack], [BitStream]: bit packing and bit streams, with the per-bit
      reference routines of the self-test.
    - [Codec], [IntCodecs], [Rle], [Gorilla], [Dict], [Fsst], [Alp]: one codec
      each, encoder and decoder.  [OpenAddr] is the hash probing they share,
      [Varlena] the value headers ([columnar.h]).
    - [Chunk]: the choice of an encoding, [PgColumnarEncodeChunk] and
      [PgColumnarDecodeChunk].
    - [Compress]: block compression ([columnar_compression.c]); pglz, lz4 and
      zstd are parameters with their documented laws.
    - [FsstPolicy]: when the writer keeps a symbol table.
    - [Encdesc]: the encoding descriptor ([columnar_encdesc.h]).

    Column chunks, statistics
    - [Flush]: [flush_one_column] of [columnar_write_state.c] (the bytes; the
      zone maps and bloom rows of the same loop are in [ZoneMap], [GroupSkip]).
    - [NativeRead]: the reader's chunk decoding ([columnar_reader.c]).
    - [Value], [ZoneMap], [GroupSkip], [BitSet], [Bloom]: values, zone maps,
      bloom filters, and the reader's tests on them.

    Storage
    - [Storage]: metapage, reservations, logical reads and writes
      ([columnar_storage.c]).
    - [FreeSpace], [Reclaim]: free ranges, reuse, retirement, truncation
      ([columnar_metadata.c], [columnar_vacuum.c], [columnar_write_state.c]), as
      a transition system with commits, rollbacks and failures.

    Tables
    - [Catalog]: the catalog tables of row groups.
    - [RowGroup]: [PgColumnarWriteRow] and [flush_row_group].
    - [Scan]: the row producer of [columnar_reader.c]; [ScanRows], [ScanLoad],
      [ScanSkip], [ScanGroup], [ScanTable], [ScanWritten] prove it in layers
      (a row, a group's bytes, the skip flags, a group, a table, a table with
      written groups).
    - [WriteRows], [WriteCatalog], [Insert], [InsertScan]: the writer's
      invariant, what it leaves in the catalog, and insert followed by scan.
    - [DeleteVector], [DeleteXact]: delete marks
      ([columnar_delete_vector.c]) and the transaction callbacks
      ([columnar_tableam.c]).

    Parquet ([columnar_thrift.c], [columnar_parquet_codec.c],
    [columnar_parquet.c], [columnar_parquet_reader.c])
    - [Thrift]: reader and writer of the compact protocol.
    - [ParquetCodec]: the Snappy decoder and the decompression of a page.
    - [ParquetLevels]: definition and repetition levels, dictionary indices.
    - [ParquetTypes]: the leaves of a column's type and the plan that binds a
      leaf to a column.
    - [ParquetValues]: values to and from their physical form, statistics.
    - [ParquetPage]: pages and column chunks.
    - [ParquetRows]: rows to entries ([shred_top]) and back.
    - [ParquetMeta]: the footer.
    - [ParquetFile]: export of a table and import of a file.
    - [ParquetReadSafe], [ParquetWrite], [ParquetRoundtrip]: the import of
      hostile files, what the export writes, and export followed by import.
    - [ParquetSkip]: reads by field id that leave out the ordinals of deleted
      rows, as an Iceberg scan makes them.

    Iceberg files ([columnar_puffin.c], [columnar_avro.c])
    - [Jsonb]: the server's JSON values as the readers see them.
    - [Puffin]: deletion vectors, that is 64-bit roaring bitmaps in Puffin files.
    - [Avro]: object container files, their schema tree, manifests and manifest
      lists; [AvroSafe] reads hostile files, [AvroRead] and [AvroFile] read what a
      conforming writer wrote.
    - [IcebergPath]: schemes, equality and containment of paths
      ([columnar_iceberg.c], [columnar_objstore.c]); [IcebergMeta]: what is taken
      from a table's metadata document; [IcebergWalk]: the walk from the current
      snapshot to its live entries; [IcebergScan]: deletes and the scan
      ([PgColumnarIcebergScanCore]); [IcebergDeletes]: what a scan returns.

    ** What the theorems show

    - Round trips: every codec, the chunk encoding, block compression, the
      descriptor and a column chunk from flush to load give back what was
      written; inserted rows come back from a scan in order, with the row
      numbers their inserts returned.  Both need columns that are variable-length
      or 1, 2, 4 or 8 bytes wide, since the decoder refuses run-length encoding of
      any other width ([wide_rle_unreadable]), and full stripes within 2^29 bytes.
    - Refinement: a table refines a list of rows under any sequence of inserts
      and flushes and any scan with predicates, filter, restriction and deletes;
      deletes under subtransactions refine a set with savepoints.
    - Safety: decoders fed with arbitrary bytes end with an error or a result
      and touch no memory they do not own; skipping by statistics loses no row
      that satisfies the predicates; space reclamation never hands out bytes a
      snapshot can still read.
    - Equivalence: optimised bit packing, dictionary hashing and range search
      against their plain definitions.
    - Parquet: rows exported to a file come back from its import in order; the
      import of arbitrary bytes ends with an error or rows; the exported row
      groups stay within their bounds; each layer (Thrift values, levels, Snappy,
      values, decimals, statistics, types) has its own theorem.
    - Iceberg files: a deletion vector is read as the positions of its bitmap and a
      manifest list as the projection of its records, whatever else the files
      hold; hostile files end with an error or a bounded result; the display of a
      decimal is its value.
    - Iceberg tables: a scan, through the modelled Parquet reader, returns exactly
      the rows that the table's deletes leave, in order; which delete applies is
      stated on the manifests' entries, apart from the code's tests; a file is opened only inside the table's location, and a
      remote one exactly when no decoding of its key leaves it.

    - Behaviour that differs from the comments or the intent is stated as
      theorems too (the findings of the manifest).

    ** Conventions and bounds

    Bytes are integers in [list Z].  [res] has four outcomes: [Ok], [Err] (an
    [ereport(ERROR)] or a refusal), [Oob] (an access outside the buffer) and
    [Fuel].  A loop that is not structural takes fuel computed from its input
    (the bytes left, the rows left, the table size); that the fuel is enough is
    part of each theorem, which never has [Fuel] as an outcome.  Fixed-width
    integers are wrapped where the code can leave the range.

    Assumed of the platform: little-endian, [-fwrapv], IEEE doubles without
    excess precision, a build without assertions.  [qsort] is a stable merge sort
    over the code's comparator.  Memory contexts matter only through the limit on
    one allocation; the 1 GB limit of a StringInfo is modelled in the
    Parquet files only, and there not for the buffer of a page's levels, which takes
    at most two bits a level.

    ** Not modelled

    - Locks, WAL, buffer management and concurrency: transactions run one after
      the other, and an abort takes the catalog back.  Catalog tables are lists
      of rows read by key; heap tuples and snapshots are not modelled.
    - In the writer: the parallel flush workers, projections, column extents,
      sketch registers and the storage row.  In the reader: the fetch by row
      number and the fold accessors; the executor's qual is a pure function.
    - In space reclamation a row group has at least one stored byte.
    - During the deletes of a transaction the row groups stay the same; row and
      chunk group locks and the allocation of the block that collects a group's
      rows are not modelled.
    - Planner and executor nodes, index and foreign-data glue, the object store
      and Iceberg clients and the SQL-callable self-tests, which drive the
      server's interfaces.
    - Around Parquet files: the lookups of types and their output functions
      (parameters with their documented laws), the cache of text output, opening
      of files and objects, patterns over file names, the SQL functions that
      describe a file, pushdown and partitions of the foreign-data wrapper and
      the parallel export.  A recursive reader has the stack depth as its bound
      and reports an error beyond it; the round trip needs five levels.  It also
      assumes that the leaves of a table fit an allocation and that the byte cap
      is below its maximum, or at it with arrays of at most 2047 elements: with
      more, the exporter writes groups that the importer refuses.
    - Around Avro and Puffin files: the JSON parser, numeric conversions, raw
      inflate, crc32, the printing of floats and the check of UTF-8 (parameters,
      with zlib's documented laws: what a raw deflate stream inflates to, in
      whatever pieces, is the class [DeflateStreams]), the read of a file and the SQL functions that
      print a manifest.
    - Around Iceberg tables: the foreign-data wrapper with its partition maps and
      filter (a parameter of the scan), the REST catalog, decompression of a
      metadata document and reads of files (parameters), the opening of a
      Parquet file or object (a parameter, [ParquetObjects]), the
      operators and hash functions of types (an interface whose one law is that
      equal values hash alike), and limits of allocations. *)

From Stdlib Require Export ZArith Lia String.
From stdpp Require Export base numbers list option.
From Stdlib Require Import Btauto.

#[global] Open Scope Z_scope.

(** ** Machine integers *)

Definition u8 (z : Z) : Z := z mod 2 ^ 8.
Definition u16 (z : Z) : Z := z mod 2 ^ 16.
Definition u32 (z : Z) : Z := z mod 2 ^ 32.
Definition u64 (z : Z) : Z := z mod 2 ^ 64.
Definition s16 (z : Z) : Z := (z + 2 ^ 15) mod 2 ^ 16 - 2 ^ 15.
Definition s32 (z : Z) : Z := (z + 2 ^ 31) mod 2 ^ 32 - 2 ^ 31.
Definition s64 (z : Z) : Z := (z + 2 ^ 63) mod 2 ^ 64 - 2 ^ 63.

Lemma s32_small z : 0 <= z < 2 ^ 31 -> s32 z = z.
Proof. intros. unfold s32. rewrite Z.mod_small; lia. Qed.

Lemma u64_small z : 0 <= z < 2 ^ 64 -> u64 z = z.
Proof. apply Z.mod_small. Qed.
Lemma u32_small z : 0 <= z < 2 ^ 32 -> u32 z = z.
Proof. apply Z.mod_small. Qed.

(** ** Outcomes *)

Inductive res (A : Type) : Type :=
| Ok (a : A)
| Err (msg : string)
| Oob
| Fuel.
Arguments Ok {A} _.
Arguments Err {A} _.
Arguments Oob {A}.
Arguments Fuel {A}.

#[export] Instance res_ret : MRet res := fun A a => Ok a.
#[export] Instance res_bind : MBind res := fun A B f r =>
  match r with
  | Ok a => f a
  | Err m => Err m
  | Oob => Oob
  | Fuel => Fuel
  end.

(** Continuing a run that returned; as an equation, so that the kernel does not
    compare the two sides by running them. *)
Lemma bind_Ok {A B} (a : A) (k : A -> res B) : (Ok a ≫= k) = k a.
Proof. done. Qed.

(** [safe P r]: the run [r] ends, does not touch memory it does not own, and
    when it returns a value the value satisfies [P].  An [ereport(ERROR)] is a
    safe end. *)
Definition safe {A} (P : A -> Prop) (r : res A) : Prop :=
  match r with
  | Ok a => P a
  | Err _ => True
  | Oob => False
  | Fuel => False
  end.

Lemma safe_bind {A B} (P : A -> Prop) (Q : B -> Prop) (r : res A) (k : A -> res B) :
  safe P r -> (forall a, P a -> safe Q (k a)) -> safe Q (r ≫= k).
Proof. destruct r; simpl; auto. Qed.

Lemma safe_mono {A} (P Q : A -> Prop) (r : res A) :
  safe P r -> (forall a, P a -> Q a) -> safe Q r.
Proof. destruct r; simpl; auto. Qed.

Lemma safe_Ok_inv {A} (P : A -> Prop) (r : res A) a :
  safe P r -> r = Ok a -> P a.
Proof. intros H ->. exact H. Qed.

(** ** Loops: [for (i = lo; i < hi; i++)] over a state *)

Fixpoint for_loop {S} (n : nat) (i : Z) (body : Z -> S -> res S) (s : S) : res S :=
  match n with
  | O => Ok s
  | Datatypes.S n' => s' ← body i s; for_loop n' (i + 1) body s'
  end.

Definition forZ {S} (lo hi : Z) (body : Z -> S -> res S) (s : S) : res S :=
  for_loop (Z.to_nat (hi - lo)) lo body s.

Lemma for_loop_ext {S} (n : nat) (lo : Z) (f g : Z -> S -> res S) (s : S) :
  (forall i st, f i st = g i st) -> for_loop n lo f s = for_loop n lo g s.
Proof.
  intros H. revert lo s. induction n as [|n IH]; intros lo s; cbn [for_loop]; [done|].
  rewrite H. by destruct (g lo s); cbn [mbind res_bind].
Qed.

Lemma forZ_ext {S} (lo hi : Z) (f g : Z -> S -> res S) (s : S) :
  (forall i st, f i st = g i st) -> forZ lo hi f s = forZ lo hi g s.
Proof. apply for_loop_ext. Qed.

Section Loops.
Context {S : Type} (I : Z -> S -> Prop) (body : Z -> S -> res S).

Lemma for_loop_Ok (n : nat) (lo : Z) (s : S) :
  (forall i st, lo <= i < lo + Z.of_nat n -> I i st ->
     exists st', body i st = Ok st' /\ I (i + 1) st') ->
  I lo s ->
  exists s', for_loop n lo body s = Ok s' /\ I (lo + Z.of_nat n) s'.
Proof.
  revert lo s. induction n as [|n IH]; intros lo s Hb HI; cbn [for_loop].
  - exists s. split; [done|]. rewrite Z.add_0_r. exact HI.
  - destruct (Hb lo s) as (s1 & -> & HI1); [lia|done|]. simpl.
    destruct (IH (lo + 1) s1) as (s' & -> & HI'); [|done|].
    + intros i st Hi. apply Hb. lia.
    + exists s'. split; [done|].
      replace (lo + Z.of_nat (Datatypes.S n)) with (lo + 1 + Z.of_nat n) by lia.
      exact HI'.
Qed.

Lemma forZ_Ok (lo hi : Z) (s : S) :
  lo <= hi ->
  (forall i st, lo <= i < hi -> I i st ->
     exists st', body i st = Ok st' /\ I (i + 1) st') ->
  I lo s ->
  exists s', forZ lo hi body s = Ok s' /\ I hi s'.
Proof.
  intros Hle Hb HI. unfold forZ.
  destruct (for_loop_Ok (Z.to_nat (hi - lo)) lo s) as (s' & -> & HI'); [|done|].
  - intros i st Hi. apply Hb. lia.
  - exists s'. split; [done|].
    replace hi with (lo + Z.of_nat (Z.to_nat (hi - lo))) by lia. exact HI'.
Qed.

Lemma for_loop_safe (n : nat) (lo : Z) (s : S) :
  (forall i st, lo <= i < lo + Z.of_nat n -> I i st -> safe (I (i + 1)) (body i st)) ->
  I lo s ->
  safe (I (lo + Z.of_nat n)) (for_loop n lo body s).
Proof.
  revert lo s. induction n as [|n IH]; intros lo s Hb HI; cbn [for_loop].
  - rewrite Z.add_0_r. exact HI.
  - eapply safe_bind; [apply Hb; [lia|done]|].
    intros st HI1.
    replace (lo + Z.of_nat (Datatypes.S n)) with (lo + 1 + Z.of_nat n) by lia.
    apply IH; [|done]. intros i st' Hi. apply Hb. lia.
Qed.

Lemma forZ_safe (lo hi : Z) (s : S) :
  lo <= hi ->
  (forall i st, lo <= i < hi -> I i st -> safe (I (i + 1)) (body i st)) ->
  I lo s ->
  safe (I hi) (forZ lo hi body s).
Proof.
  intros Hle Hb HI. unfold forZ.
  replace hi with (lo + Z.of_nat (Z.to_nat (hi - lo))) at 1 by lia.
  apply for_loop_safe; [|done]. intros i st Hi. apply Hb. lia.
Qed.
End Loops.

(** ** Bits of integers *)

Create Rewrite HintDb zbits.
Create HintDb pgc.

Lemma testbit_mod_pow2 (a n i : Z) :
  0 <= n -> Z.testbit (a mod 2 ^ n) i = (i <? n) && Z.testbit a i.
Proof.
  intros Hn. destruct (Z.ltb_spec i 0).
  { rewrite !Z.testbit_neg_r by lia. by rewrite Bool.andb_false_r. }
  destruct (Z.ltb_spec i n).
  - by rewrite Z.mod_pow2_bits_low by lia.
  - by rewrite Z.mod_pow2_bits_high by lia.
Qed.

Lemma testbit_shiftr (a n i : Z) :
  Z.testbit (Z.shiftr a n) i = (0 <=? i) && Z.testbit a (i + n).
Proof.
  destruct (Z.leb_spec 0 i).
  - by rewrite Z.shiftr_spec by lia.
  - by rewrite Z.testbit_neg_r by lia.
Qed.

Lemma testbit_div_pow2 (a n i : Z) :
  0 <= n -> Z.testbit (a / 2 ^ n) i = (0 <=? i) && Z.testbit a (i + n).
Proof. intros. rewrite <- Z.shiftr_div_pow2 by done. apply testbit_shiftr. Qed.

Lemma testbit_shiftl (a n i : Z) :
  0 <= n -> Z.testbit (Z.shiftl a n) i = Z.testbit a (i - n).
Proof.
  intros. destruct (Z.ltb_spec i 0).
  - by rewrite !Z.testbit_neg_r by lia.
  - by apply Z.shiftl_spec.
Qed.

Lemma testbit_mul_pow2 (a n i : Z) :
  0 <= n -> Z.testbit (a * 2 ^ n) i = Z.testbit a (i - n).
Proof. intros. rewrite <- Z.shiftl_mul_pow2 by done. by apply testbit_shiftl. Qed.

Lemma testbit_ones (n i : Z) :
  0 <= n -> Z.testbit (Z.ones n) i = (0 <=? i) && (i <? n).
Proof.
  intros. destruct (Z.leb_spec 0 i), (Z.ltb_spec i n); simpl.
  - by rewrite Z.ones_spec_low by lia.
  - by rewrite Z.ones_spec_high by lia.
  - by rewrite Z.testbit_neg_r by lia.
  - by rewrite Z.testbit_neg_r by lia.
Qed.

Lemma testbit_small (a n i : Z) :
  0 <= a < 2 ^ n -> n <= i -> Z.testbit a i = false.
Proof.
  intros Ha Hi. destruct (Z.ltb_spec n 0).
  - rewrite Z.pow_neg_r in Ha by lia. lia.
  - rewrite <- (Z.mod_small a (2 ^ n)) by done.
    by apply Z.mod_pow2_bits_high.
Qed.

Lemma testbit_one (i : Z) : Z.testbit 1 i = (i =? 0).
Proof.
  destruct (Z.eqb_spec i 0) as [->|]; [done|].
  destruct (Z.ltb_spec i 0); [by rewrite Z.testbit_neg_r by lia|].
  apply (testbit_small _ 1); lia.
Qed.

#[export] Hint Rewrite Z.land_spec Z.lor_spec Z.lxor_spec Z.bits_0
  Z.add_0_r Z.sub_0_r testbit_one testbit_shiftr : zbits.
#[export] Hint Rewrite testbit_mod_pow2 testbit_div_pow2 testbit_mul_pow2
  testbit_shiftl testbit_ones using lia : zbits.

(** Decide every comparison in the goal, dropping the impossible branches, and
    normalise the bits above or below the range of a value. *)
Ltac zbits_split :=
  repeat match goal with
    | |- context [?a <? ?b] =>
        destruct (Z.ltb_spec a b); try (exfalso; lia)
    | |- context [?a <=? ?b] =>
        destruct (Z.leb_spec a b); try (exfalso; lia)
    | |- context [?a =? ?b] =>
        destruct (Z.eqb_spec a b); try (exfalso; lia)
    end.

Ltac zbits_bounds :=
  repeat match goal with
    | |- context [Z.testbit ?a ?i] => rewrite (Z.testbit_neg_r a i) by lia
    | H : 0 <= ?a < 2 ^ ?n |- context [Z.testbit ?a ?i] =>
        rewrite (testbit_small a n i H) by lia
    end.

(** Equal bit indices written differently become the same term. *)
Ltac zbits_index :=
  repeat match goal with
    | |- context [Z.testbit ?a ?i] =>
        match goal with
        | |- context [Z.testbit a ?j] =>
            tryif constr_eq i j then fail else replace j with i by lia
        end
    end.

Ltac zbits_bool :=
  repeat match goal with |- context [Z.testbit ?a ?i] => destruct (Z.testbit a i) end.

Ltac zbits_goal :=
  autorewrite with zbits; zbits_split; zbits_bounds; zbits_index;
  simpl; try done; zbits_bool; try done.

Ltac zbits := apply Z.bits_inj'; intros ?i ?Hi; zbits_goal.

Lemma land_ones_mod (a n : Z) : 0 <= n -> Z.land a (2 ^ n - 1) = a mod 2 ^ n.
Proof. intros. rewrite <- Z.land_ones by lia. by rewrite Z.ones_equiv. Qed.

Lemma lor_add (a b n : Z) :
  0 <= n -> 0 <= a < 2 ^ n -> Z.lor a (b * 2 ^ n) = a + b * 2 ^ n.
Proof.
  intros Hn Ha.
  assert (Hd : Z.land a (b * 2 ^ n) = 0).
  { apply Z.bits_inj'; intros i Hi. autorewrite with zbits.
    destruct (Z.ltb_spec i n); zbits_bounds; by rewrite ?Bool.andb_false_r. }
  by rewrite Z.add_nocarry_lxor, Z.lxor_lor.
Qed.

Lemma pow2_pos (n : Z) : 0 <= n -> 0 < 2 ^ n.
Proof. apply Z.pow_pos_nonneg. lia. Qed.

Lemma mod_pow2_bound (a n : Z) : 0 <= n -> 0 <= a mod 2 ^ n < 2 ^ n.
Proof. intros. by apply Z.mod_pos_bound, pow2_pos. Qed.

Lemma shiftl_bound (a n m : Z) :
  0 <= n -> 0 <= m -> 0 <= a < 2 ^ n -> 0 <= Z.shiftl a m < 2 ^ (n + m).
Proof.
  intros Hn Hm Ha. rewrite Z.shiftl_mul_pow2 by done.
  rewrite Z.pow_add_r by done. pose proof (pow2_pos m Hm). nia.
Qed.

Lemma lor_bound (a b n : Z) :
  0 <= n -> 0 <= a < 2 ^ n -> 0 <= b < 2 ^ n -> 0 <= Z.lor a b < 2 ^ n.
Proof.
  intros Hn Ha Hb.
  replace (Z.lor a b) with (Z.lor a b mod 2 ^ n); [by apply mod_pow2_bound|].
  zbits.
Qed.

Lemma Forall_weaken {A} (P Q : A -> Prop) (l : list A) :
  Forall P l -> (forall x, P x -> Q x) -> Forall Q l.
Proof. intros H HPQ. induction H; constructor; auto. Qed.

(** ** Bytes and little-endian integers *)

Definition byte_ok (b : Z) : Prop := 0 <= b < 2 ^ 8.
Definition bytes_ok (bs : list Z) : Prop := Forall byte_ok bs.

#[export] Instance byte_ok_dec (b : Z) : Decision (byte_ok b).
Proof. unfold byte_ok. apply _. Defined.
#[export] Instance bytes_ok_dec (bs : list Z) : Decision (bytes_ok bs).
Proof. unfold bytes_ok. apply _. Defined.

Definition zlen {A} (l : list A) : Z := Z.of_nat (length l).

Lemma zlen_nonneg {A} (l : list A) : 0 <= zlen l.
Proof. unfold zlen. lia. Qed.

Lemma zlen_app {A} (l k : list A) : zlen (l ++ k) = zlen l + zlen k.
Proof. unfold zlen. rewrite length_app. lia. Qed.

(** The unsigned integer a run of bytes holds on a little-endian host: what
    [memcpy(&v, p, n)] into a zeroed integer leaves in it. *)
Fixpoint le_uint (bs : list Z) : Z :=
  match bs with
  | [] => 0
  | b :: r => b + 2 ^ 8 * le_uint r
  end.

(** The low [n] bytes of an integer in memory order: [memcpy(p, &v, n)]. *)
Fixpoint le_bytes (n : nat) (z : Z) : list Z :=
  match n with
  | O => []
  | S n' => z mod 2 ^ 8 :: le_bytes n' (z / 2 ^ 8)
  end.

Lemma length_le_bytes n z : length (le_bytes n z) = n.
Proof. revert z. induction n; simpl; intros; auto. Qed.

Lemma zlen_le_bytes n z : zlen (le_bytes n z) = Z.of_nat n.
Proof. unfold zlen. by rewrite length_le_bytes. Qed.

Lemma le_bytes_ok n z : bytes_ok (le_bytes n z).
Proof.
  revert z. induction n; simpl; intros; constructor; [|apply IHn].
  by apply mod_pow2_bound.
Qed.

Lemma le_uint_bound bs : bytes_ok bs -> 0 <= le_uint bs < 2 ^ (8 * zlen bs).
Proof.
  unfold zlen. induction 1 as [|b r Hb Hr IH]; simpl le_uint; [simpl; lia|].
  unfold byte_ok in Hb. simpl length. rewrite Nat2Z.inj_succ.
  replace (8 * Z.succ (Z.of_nat (length r))) with (8 + 8 * Z.of_nat (length r)) by lia.
  rewrite Z.pow_add_r by lia. lia.
Qed.

Lemma le_uint_le_bytes n z : le_uint (le_bytes n z) = z mod 2 ^ (8 * Z.of_nat n).
Proof.
  revert z. induction n as [|n IH]; intros z; simpl le_bytes; simpl le_uint.
  - simpl. by rewrite Z.mod_1_r.
  - rewrite IH, Nat2Z.inj_succ.
    replace (8 * Z.succ (Z.of_nat n)) with (8 + 8 * Z.of_nat n) by lia.
    rewrite Z.pow_add_r by lia.
    rewrite Z.rem_mul_r by (pose proof (pow2_pos (8 * Z.of_nat n)); lia). done.
Qed.

Lemma le_uint_le_bytes_id n z :
  0 <= z < 2 ^ (8 * Z.of_nat n) -> le_uint (le_bytes n z) = z.
Proof. intros. rewrite le_uint_le_bytes. by apply Z.mod_small. Qed.

Lemma le_bytes_le_uint bs : bytes_ok bs -> le_bytes (length bs) (le_uint bs) = bs.
Proof.
  induction 1 as [|b r Hb Hr IH]; cbn [le_uint le_bytes length]; [done|].
  unfold byte_ok in Hb.
  rewrite (Z.mul_comm (2 ^ 8)), Z.mod_add, Z.div_add by lia.
  rewrite Z.mod_small, Z.div_small, Z.add_0_l by lia. by rewrite IH.
Qed.

Lemma le_uint_inj bs bs' :
  bytes_ok bs -> bytes_ok bs' -> length bs = length bs' ->
  le_uint bs = le_uint bs' -> bs = bs'.
Proof.
  intros H1 H2 Hl Hv.
  rewrite <- (le_bytes_le_uint bs), <- (le_bytes_le_uint bs') by done.
  by rewrite Hl, Hv.
Qed.

Lemma le_uint_app bs bs' :
  le_uint (bs ++ bs') = le_uint bs + 2 ^ (8 * zlen bs) * le_uint bs'.
Proof.
  unfold zlen. induction bs as [|b r IH]; simpl le_uint; simpl app; [simpl; lia|].
  simpl le_uint. rewrite IH. simpl length. rewrite Nat2Z.inj_succ.
  replace (8 * Z.succ (Z.of_nat (length r))) with (8 + 8 * Z.of_nat (length r)) by lia.
  rewrite Z.pow_add_r by lia. lia.
Qed.

Lemma le_uint_drop bs (n : nat) :
  bytes_ok bs -> le_uint (drop n bs) = le_uint bs / 2 ^ (8 * Z.of_nat n).
Proof.
  revert n. induction bs as [|b r IH]; intros n Hb.
  - rewrite drop_nil. simpl. rewrite Z.div_0_l; [done|].
    pose proof (pow2_pos (8 * Z.of_nat n)). lia.
  - inversion_clear Hb as [|? ? Hb1 Hr]. unfold byte_ok in Hb1. destruct n as [|n].
    + simpl drop. simpl Z.of_nat. rewrite Z.mul_0_r, Z.pow_0_r, Z.div_1_r. done.
    + simpl drop. rewrite IH, Nat2Z.inj_succ by done.
      replace (8 * Z.succ (Z.of_nat n)) with (8 + 8 * Z.of_nat n) by lia.
      rewrite Z.pow_add_r by lia.
      rewrite <- Z.div_div by (try apply pow2_pos; lia). f_equal.
      cbn [le_uint].
      rewrite (Z.mul_comm (2 ^ 8)), Z.div_add, Z.div_small by lia. lia.
Qed.

Lemma le_uint_take bs (n : nat) :
  bytes_ok bs -> le_uint (take n bs) = le_uint bs mod 2 ^ (8 * Z.of_nat n).
Proof.
  intros Hb. destruct (decide (n <= length bs)%nat) as [Hn|Hn].
  - rewrite <- (take_drop n bs) at 2. rewrite le_uint_app.
    assert (Hl : zlen (take n bs) = Z.of_nat n)
      by (unfold zlen; rewrite length_take; lia).
    rewrite Hl, Z.mul_comm, Z.mod_add by (pose proof (pow2_pos (8 * Z.of_nat n)); lia).
    rewrite Z.mod_small; [done|]. rewrite <- Hl.
    apply le_uint_bound. by apply Forall_take.
  - rewrite take_ge by lia. rewrite Z.mod_small; [done|].
    pose proof (le_uint_bound bs Hb) as [H1 H2]. split; [done|].
    eapply Z.lt_le_trans; [exact H2|]. apply Z.pow_le_mono_r; unfold zlen; lia.
Qed.

(** [nthZ bs i] is byte [i]; it is only used where [i] is in range. *)
Definition nthZ (bs : list Z) (i : Z) : Z := nth (Z.to_nat i) bs 0.

Lemma le_uint_byte bs i :
  bytes_ok bs -> 0 <= i ->
  nthZ bs i = (le_uint bs / 2 ^ (8 * i)) mod 2 ^ 8.
Proof.
  intros Hb Hi. unfold nthZ.
  pose proof (le_uint_drop bs (Z.to_nat i) Hb) as Hd.
  rewrite Z2Nat.id in Hd by done. rewrite <- Hd. clear Hd.
  destruct (decide (Z.to_nat i < length bs)%nat) as [Hlt|Hge].
  - destruct (lookup_lt_is_Some_2 bs _ Hlt) as [b Hl].
    rewrite (nth_lookup_Some _ _ _ _ Hl).
    rewrite (drop_S _ _ _ Hl). cbn [le_uint].
    rewrite (Z.mul_comm (2 ^ 8)), Z.mod_add by lia. rewrite Z.mod_small; [done|].
    by apply (Forall_lookup_1 _ _ _ _ Hb Hl).
  - rewrite nth_overflow by lia. rewrite drop_ge by lia. done.
Qed.

Lemma le_uint_testbit bs i :
  bytes_ok bs -> 0 <= i ->
  Z.testbit (le_uint bs) i = Z.testbit (nthZ bs (i / 8)) (i mod 8).
Proof.
  intros Hb Hi. pose proof (Z.mod_pos_bound i 8 ltac:(lia)).
  rewrite le_uint_byte by (try done; apply Z.div_pos; lia).
  assert (0 <= i / 8) by (apply Z.div_pos; lia).
  autorewrite with zbits.
  rewrite (proj2 (Z.ltb_lt _ _)), (proj2 (Z.leb_le _ _)) by lia. simpl. f_equal.
  rewrite (Z.div_mod i 8) at 1 by lia. lia.
Qed.

Lemma le_uint_insert bs (p : nat) v :
  (p < length bs)%nat ->
  le_uint (<[p := v]> bs) = le_uint bs + 2 ^ (8 * Z.of_nat p) * (v - nth p bs 0).
Proof.
  revert p. induction bs as [|b r IH]; intros p Hp; [simpl in Hp; lia|].
  destruct p as [|p].
  - cbn [list_insert insert le_uint nth]. simpl Z.of_nat. rewrite Z.mul_0_r, Z.pow_0_r. lia.
  - change (<[S p:=v]> (b :: r)) with (b :: <[p:=v]> r).
    cbn [le_uint nth]. rewrite IH by (simpl in Hp; lia).
    rewrite Nat2Z.inj_succ.
    replace (8 * Z.succ (Z.of_nat p)) with (8 + 8 * Z.of_nat p) by lia.
    rewrite Z.pow_add_r by lia. lia.
Qed.

(** [buf[p] |= v] sets the bits of [v] at bit offset [8 * p] of the buffer. *)
Lemma le_uint_or_at bs p v :
  bytes_ok bs -> 0 <= p < zlen bs -> byte_ok v ->
  le_uint (<[Z.to_nat p := Z.lor (nthZ bs p) v]> bs)
  = Z.lor (le_uint bs) (Z.shiftl v (8 * p)).
Proof.
  intros Hb Hp Hv. unfold zlen in Hp.
  rewrite le_uint_insert by lia. rewrite Z2Nat.id by lia.
  fold (nthZ bs p).
  set (X := le_uint bs). set (c := nthZ bs p).
  assert (Hc : c = (X / 2 ^ (8 * p)) mod 2 ^ 8) by (apply le_uint_byte; [done|lia]).
  set (lo := X mod 2 ^ (8 * p)).
  set (hi := X / 2 ^ (8 * p + 8)).
  assert (HX : X = lo + (c + hi * 2 ^ 8) * 2 ^ (8 * p)).
  { rewrite (Z.div_mod X (2 ^ (8 * p))) at 1 by (pose proof (pow2_pos (8 * p)); lia).
    fold lo. rewrite Z.add_comm. f_equal. rewrite Z.mul_comm. f_equal.
    rewrite (Z.div_mod (X / 2 ^ (8 * p)) (2 ^ 8)) at 1 by lia.
    rewrite <- Hc. unfold hi. rewrite Z.pow_add_r by lia.
    rewrite <- Z.div_div by (try apply pow2_pos; lia). lia. }
  assert (Hc' : 0 <= c < 2 ^ 8) by (rewrite Hc; apply mod_pow2_bound; lia).
  assert (Hlo : 0 <= lo < 2 ^ (8 * p)) by (apply mod_pow2_bound; lia).
  assert (Hor : 0 <= Z.lor c v < 2 ^ 8) by (apply lor_bound; unfold byte_ok in Hv; lia).
  transitivity (lo + (Z.lor c v + hi * 2 ^ 8) * 2 ^ (8 * p)); [lia|].
  rewrite HX. rewrite <- !lor_add by lia.
  clearbody lo hi c. unfold byte_ok in Hv. clear - Hp Hc' Hlo Hv Hor.
  apply Z.bits_inj'; intros i Hi. autorewrite with zbits.
  destruct (Z.ltb_spec i (8 * p)); zbits_goal.
Qed.

(** ** Memory: a buffer is the list of its bytes; every access is checked *)

(** A byte of an allocated buffer that nothing has stored to yet. *)
Definition poison : Z := -1.

(** PostgreSQL's documented limit on one allocation: a request above it raises
    an error instead of returning. *)
Definition MaxAllocSize : Z := 1073741823.

Definition MemoryContextAlloc (sz : Z) : res (list Z) :=
  if MaxAllocSize <? sz then Err "invalid memory alloc request size"
  else Ok (replicate (Z.to_nat sz) poison).

(** [memcpy(dest, b + off, n)] *)
Definition rd (b : list Z) (off n : Z) : res (list Z) :=
  if (0 <=? off) && (0 <=? n) && (off + n <=? zlen b)
  then Ok (take (Z.to_nat n) (drop (Z.to_nat off) b)) else Oob.

(** [b[i]] *)
Definition rd1 (b : list Z) (i : Z) : res Z :=
  if (0 <=? i) && (i <? zlen b) then Ok (nthZ b i) else Oob.

(** [memcpy(b + off, data, length data)] *)
Definition wr (b : list Z) (off : Z) (data : list Z) : res (list Z) :=
  if (0 <=? off) && (off + zlen data <=? zlen b)
  then Ok (take (Z.to_nat off) b ++ data ++ drop (Z.to_nat (off + zlen data)) b)
  else Oob.

(** [b[i] = v] *)
Definition wr1 (b : list Z) (i v : Z) : res (list Z) :=
  if (0 <=? i) && (i <? zlen b) then Ok (<[Z.to_nat i := v]> b) else Oob.

Ltac div_bounds a b :=
  pose proof (Z.div_mod a b ltac:(lia)); pose proof (Z.mod_pos_bound a b ltac:(lia)).

Ltac bool_true :=
  repeat match goal with
    | |- context [?a <=? ?b] => rewrite (proj2 (Z.leb_le a b)) by lia
    | |- context [?a <? ?b] => rewrite (proj2 (Z.ltb_lt a b)) by lia
    end.

Lemma rd_Ok b off n :
  0 <= off -> 0 <= n -> off + n <= zlen b ->
  rd b off n = Ok (take (Z.to_nat n) (drop (Z.to_nat off) b)).
Proof. intros. unfold rd. by bool_true. Qed.

Lemma rd1_Ok b i : 0 <= i < zlen b -> rd1 b i = Ok (nthZ b i).
Proof. intros. unfold rd1. by bool_true. Qed.

Lemma wr_Ok b off data :
  0 <= off -> off + zlen data <= zlen b ->
  wr b off data = Ok (take (Z.to_nat off) b ++ data ++ drop (Z.to_nat (off + zlen data)) b).
Proof. intros. unfold wr. by bool_true. Qed.

Lemma wr1_Ok b i v : 0 <= i < zlen b -> wr1 b i v = Ok (<[Z.to_nat i := v]> b).
Proof. intros. unfold wr1. by bool_true. Qed.

Lemma MemoryContextAlloc_Ok sz :
  sz <= MaxAllocSize -> MemoryContextAlloc sz = Ok (replicate (Z.to_nat sz) poison).
Proof.
  intros. unfold MemoryContextAlloc. destruct (Z.ltb_spec MaxAllocSize sz); [lia|done].
Qed.

Lemma nthZ_ok b i : bytes_ok b -> byte_ok (nthZ b i).
Proof.
  intros Hb. unfold nthZ. destruct (b !! Z.to_nat i) as [x|] eqn:E.
  - rewrite (nth_lookup_Some _ _ _ _ E). by apply (Forall_lookup_1 _ _ _ _ Hb E).
  - rewrite nth_overflow by (by apply lookup_ge_None). unfold byte_ok. lia.
Qed.

Lemma nthZ_insert (l : list Z) i j x :
  0 <= i < zlen l -> 0 <= j ->
  nthZ (<[Z.to_nat i := x]> l) j = if decide (j = i) then x else nthZ l j.
Proof.
  intros Hi Hj. unfold nthZ, zlen in *. rewrite !nth_lookup. destruct (decide (j = i)) as [->|Hne].
  - by rewrite list_lookup_insert_eq by lia.
  - by rewrite list_lookup_insert_ne by lia.
Qed.

Lemma bytes_ok_sub b off n : bytes_ok b -> bytes_ok (take n (drop off b)).
Proof. intros. by apply Forall_take, Forall_drop. Qed.

Lemma zlen_sub {A} (b : list A) off n :
  0 <= off -> 0 <= n -> off + n <= zlen b ->
  zlen (take (Z.to_nat n) (drop (Z.to_nat off) b)) = n.
Proof. unfold zlen. intros. rewrite length_take, length_drop. lia. Qed.

(** The integer a checked read of [n] bytes at [off] gives. *)
Lemma le_uint_sub b off n :
  bytes_ok b -> 0 <= off -> 0 <= n ->
  le_uint (take (Z.to_nat n) (drop (Z.to_nat off) b))
  = (le_uint b / 2 ^ (8 * off)) mod 2 ^ (8 * n).
Proof.
  intros Hb Ho Hn. rewrite le_uint_take by (by apply Forall_drop).
  rewrite le_uint_drop by done. by rewrite !Z2Nat.id by done.
Qed.

Lemma zlen_nil {A} : zlen (@nil A) = 0.
Proof. done. Qed.

Lemma zlen_cons {A} (a : A) l : zlen (a :: l) = 1 + zlen l.
Proof. unfold zlen. simpl. lia. Qed.

(** Lengths of buffers put together field by field. *)
Ltac zlens :=
  rewrite ?zlen_app, ?zlen_cons, ?zlen_le_bytes in *;
  repeat match goal with |- context [zlen (@nil ?T)] => rewrite (@zlen_nil T) end; lia.

(** Reading a field out of a buffer laid out as consecutive fields. *)
Lemma rd_middle pre b post : rd (pre ++ b ++ post) (zlen pre) (zlen b) = Ok b.
Proof.
  pose proof (zlen_nonneg pre). pose proof (zlen_nonneg b). pose proof (zlen_nonneg post).
  rewrite rd_Ok by (rewrite ?zlen_app; lia). f_equal. unfold zlen. rewrite !Nat2Z.id.
  by rewrite drop_app_length, take_app_length.
Qed.

Lemma rd_at pre b post off n :
  off = zlen pre -> n = zlen b -> rd (pre ++ b ++ post) off n = Ok b.
Proof. intros -> ->. apply rd_middle. Qed.

Lemma rd_skip pre l off n : 0 <= off -> 0 <= n -> rd (pre ++ l) (zlen pre + off) n = rd l off n.
Proof.
  intros Ho Hn. unfold rd. rewrite zlen_app. pose proof (zlen_nonneg pre).
  assert (Hb : (zlen pre + off + n <=? zlen pre + zlen l) = (off + n <=? zlen l)).
  { destruct (Z.leb_spec (zlen pre + off + n) (zlen pre + zlen l)), (Z.leb_spec (off + n) (zlen l)); lia || done. }
  rewrite Hb, (proj2 (Z.leb_le 0 (zlen pre + off))), (proj2 (Z.leb_le 0 off)) by lia.
  replace (Z.to_nat (zlen pre + off)) with (length pre + Z.to_nat off)%nat by (unfold zlen; lia).
  by rewrite <- drop_drop, drop_app_length.
Qed.

Lemma nthZ_app (a b : list Z) i : 0 <= i -> nthZ (a ++ b) i = if i <? zlen a then nthZ a i else nthZ b (i - zlen a).
Proof.
  intros Hi. unfold nthZ, zlen. destruct (Z.ltb_spec i (Z.of_nat (length a))).
  - by rewrite app_nth1 by lia.
  - rewrite app_nth2 by lia. f_equal. lia.
Qed.

Lemma nthZ_eq (a b : list Z) : zlen a = zlen b -> (forall i, 0 <= i < zlen a -> nthZ a i = nthZ b i) -> a = b.
Proof.
  unfold zlen, nthZ. intros Hl H. apply list.list_eq. intros i. destruct (decide (i < length a)%nat) as [Hi|Hi].
  - specialize (H (Z.of_nat i) ltac:(lia)). rewrite Nat2Z.id in H.
    destruct (lookup_lt_is_Some_2 a i Hi) as [x Hx]. destruct (lookup_lt_is_Some_2 b i ltac:(lia)) as [y Hy].
    rewrite !nth_lookup, Hx, Hy in H. cbn in H. by rewrite Hx, Hy, H.
  - by rewrite !lookup_ge_None_2 by lia.
Qed.

#[export] Hint Resolve zlen_nonneg le_bytes_ok bytes_ok_sub nthZ_ok
  Forall_nil_2 Forall_app_2 Forall_take Forall_drop : pgc.

(** [pnstrdup]: a copy of bytes as a string, which ends at the first zero byte. *)
Fixpoint pnstrdup (bs : list Z) : list Z := match bs with [] => [] | b :: bs => if b =? 0 then [] else b :: pnstrdup bs end.

Lemma concat_single {A B} (g : A -> B) l : concat (map (fun x => [g x]) l) = map g l.
Proof. induction l as [|x l IH]; cbn; [done|]. by rewrite IH. Qed.
