(* ===== verification/BitPack.v ===== *)
(** * Fixed-width bit packing

    The load, store, zigzag and bit-packing primitives of
    [src/columnar_encoding.c], the per-bit reference routines its self-test
    keeps beside them, and the proof that the word-at-a-time routines compute
    what the reference routines compute and that unpacking inverts packing.

    The specification is an integer: the bytes of a packed body are the
    little-endian expansion of [pack_int vals width], the sum of
    [vals[i] * 2^(i*width)]. *)

From S2P Require Import Prelude.

(** ** The routines *)

(** [load_uint(p + off, w)] *)
Definition load_uint (p : list Z) (off w : Z) : Z :=
  le_uint (take (Z.to_nat w) (drop (Z.to_nat off) p)).

(** [store_uint(p + off, v, w)] *)
Definition store_uint (p : list Z) (off v w : Z) : res (list Z) :=
  wr p off (le_bytes (Z.to_nat w) v).

Fixpoint bits_needed_loop (fuel : nat) (n maxval : Z) : Z :=
  match fuel with
  | O => n
  | S f => if 0 <? maxval then bits_needed_loop f (n + 1) (Z.shiftr maxval 1) else n
  end.

(** A [uint64] loses its last bit after at most 64 shifts. *)
Definition bits_needed (maxval : Z) : Z := bits_needed_loop 64 0 maxval.

Definition width_mask (width : Z) : Z :=
  if width =? 64 then 2 ^ 64 - 1 else u64 (Z.shiftl 1 width) - 1.

Definition palloc0 (sz : Z) : res (list Z) :=
  if MaxAllocSize <? sz then Err "invalid memory alloc request size"
  else Ok (replicate (Z.to_nat sz) 0).

(** The body of the loop over values: OR the field [v] into the buffer at
    [bitpos], one output byte at a time. *)
Definition bitpack_field (width : Z) (buf : list Z) (bitpos v : Z) : res (list Z) :=
  let bytepos := u32 (Z.shiftr bitpos 3) in
  let bitoff := u32 (Z.land bitpos 7) in
  let lo := u64 (Z.shiftl v bitoff) in
  let hi := if bitoff =? 0 then 0 else Z.shiftr v (64 - bitoff) in
  let nb := Z.shiftr (u32 (bitoff + u32 width + 7)) 3 in
  forZ 0 nb (fun k b =>
    let byte := if k <? 8 then u8 (Z.shiftr lo (8 * k))
                else u8 (Z.shiftr hi (8 * (k - 8))) in
    old ← rd1 b (u32 (bytepos + k));
    wr1 b (u32 (bytepos + k)) (Z.lor old byte)) buf.

Definition bitpack (vals : list Z) (n width : Z) (out : list Z) : res (list Z) :=
  if (width =? 0) || (n =? 0) then Ok out
  else
    let totalbits := u64 (n * width) in
    let nbytes := u32 (u64 (totalbits + 7) / 8) in
    let mask := width_mask width in
    buf ← palloc0 nbytes;
    st ← forZ 0 n (fun i st =>
      let '(buf, bitpos) := st in
      vi ← rd1 vals i;
      buf' ← bitpack_field width buf bitpos (Z.land vi mask);
      Ok (buf', u64 (bitpos + width))) (buf, 0);
    Ok (out ++ st.1).

(** Assemble one field bit by bit; only the bytes that hold it are read. *)
Definition unpack_bits (inp : list Z) (bitpos width : Z) : res Z :=
  forZ 0 width (fun b v =>
    byte ← rd1 inp (Z.shiftr (u64 (bitpos + b)) 3);
    Ok (if Z.land (Z.shiftr byte (Z.land (u64 (bitpos + b)) 7)) 1 =? 0 then v
        else Z.lor v (u64 (Z.shiftl 1 b)))) 0.

(** The wide load: eight bytes, and the ninth when the field reaches into it. *)
Definition unpack_wide (inp : list Z) (bitpos width : Z) : res Z :=
  let shift := Z.land bitpos 7 in
  bs ← rd inp (Z.shiftr bitpos 3) 8;
  let v := Z.shiftr (le_uint bs) shift in
  v' ← (if 64 <? shift + width then
          b ← rd1 inp (Z.shiftr bitpos 3 + 8);
          Ok (Z.lor v (u64 (Z.shiftl b (64 - shift))))
        else Ok v);
  Ok (Z.land v' (width_mask width)).

Definition bitunpack (inp : list Z) (n width : Z) : res (list Z) :=
  if (width <? 0) || (64 <? width) then Err "bit width out of range"
  else if width =? 0 then Ok (replicate (Z.to_nat n) 0)
  else if zlen inp <? u64 (u64 (n * width) + 7) / 8
  then Err "bit-packed body exceeds encoded length"
  else
    let nbytes := u32 (u64 (u64 (n * width) + 7) / 8) in
    let nFast :=
      if 9 <=? nbytes then
        let maxIdx := 8 * (nbytes - 9) / width in
        if maxIdx + 1 <? n then u32 (maxIdx + 1) else n
      else 0 in
    st ← forZ 0 nFast (fun i st =>
      let '(out, bitpos) := st in
      v ← unpack_wide inp bitpos width;
      Ok (out ++ [v], u64 (bitpos + width))) ([], 0);
    st ← forZ nFast n (fun i st =>
      let '(out, bitpos) := st in
      v ← unpack_bits inp bitpos width;
      Ok (out ++ [v], u64 (bitpos + width))) st;
    Ok st.1.

(** ** The per-bit reference routines of the self-test *)

Definition ref_bitunpack (inp : list Z) (n width : Z) : res (list Z) :=
  if width =? 0 then Ok (replicate (Z.to_nat n) 0)
  else
    st ← forZ 0 n (fun i st =>
      let '(out, bitpos) := st in
      v ← unpack_bits inp bitpos width;
      Ok (out ++ [v], u64 (bitpos + width))) ([], 0);
    Ok st.1.

(** The inner per-bit loop of the reference packer. *)
Definition ref_bitpack_field (width : Z) (buf : list Z) (bitpos v : Z) : res (list Z) :=
  forZ 0 width (fun b buf =>
    if Z.land (Z.shiftr v b) 1 =? 0 then Ok buf
    else
      old ← rd1 buf (Z.shiftr (u64 (bitpos + b)) 3);
      wr1 buf (Z.shiftr (u64 (bitpos + b)) 3)
        (Z.lor old (u8 (Z.shiftl 1 (Z.land (u64 (bitpos + b)) 7))))) buf.

Definition ref_bitpack (vals : list Z) (n width : Z) (out : list Z) : res (list Z) :=
  if (width =? 0) || (n =? 0) then Ok out
  else
    let totalbits := u64 (n * width) in
    let nbytes := u32 (u64 (totalbits + 7) / 8) in
    buf ← palloc0 nbytes;
    st ← forZ 0 n (fun i st =>
      let '(buf, bitpos) := st in
      v ← rd1 vals i;
      buf' ← ref_bitpack_field width buf bitpos v;
      Ok (buf', u64 (bitpos + width))) (buf, 0);
    Ok (out ++ st.1).

(** Map signed to unsigned so that small magnitudes are small numbers. *)
Definition zigzag (x : Z) : Z :=
  Z.lxor (u64 (Z.shiftl (u64 x) 1)) (u64 (Z.shiftr x 63)).

Definition unzigzag (z : Z) : Z :=
  Z.lxor (s64 (Z.shiftr z 1)) (- s64 (Z.land z 1)).

(** ** Specification *)

Fixpoint pack_int (vals : list Z) (width : Z) : Z :=
  match vals with
  | [] => 0
  | v :: r => v mod 2 ^ width + 2 ^ width * pack_int r width
  end.

Definition field (X pos width : Z) : Z := (X / 2 ^ pos) mod 2 ^ width.

Definition unpack_int (X n width : Z) : list Z :=
  (fun i => field X (i * width) width) <$> seqZ 0 n.

(** ** Arithmetic of fields and machine words *)

Lemma shiftr_3 z : Z.shiftr z 3 = z / 8.
Proof. by rewrite Z.shiftr_div_pow2 by lia. Qed.
Lemma land_7 z : Z.land z 7 = z mod 8.
Proof. exact (land_ones_mod z 3 ltac:(lia)). Qed.
Lemma land_1 z : Z.land z 1 = z mod 2.
Proof. exact (land_ones_mod z 1 ltac:(lia)). Qed.

Lemma shiftr_land_1 z b :
  0 <= b -> (Z.land (Z.shiftr z b) 1 =? 0) = negb (Z.testbit z b).
Proof.
  intros Hb. rewrite land_1, <- Z.bit0_mod, Z.shiftr_spec, Z.add_0_l by lia.
  by destruct (Z.testbit z b).
Qed.

Lemma land_width_mask v width :
  0 <= width <= 64 -> Z.land v (width_mask width) = v mod 2 ^ width.
Proof.
  intros Hw. unfold width_mask. destruct (Z.eqb_spec width 64) as [->|].
  - by apply land_ones_mod.
  - assert (0 <= 2 ^ width < 2 ^ 64)
      by (split; [apply Z.pow_nonneg; lia | apply Z.pow_lt_mono_r; lia]).
    rewrite Z.shiftl_1_l, u64_small by done. apply land_ones_mod. lia.
Qed.

Lemma field_testbit X pos width i :
  0 <= pos -> 0 <= width -> 0 <= i ->
  Z.testbit (field X pos width) i = (i <? width) && Z.testbit X (i + pos).
Proof. intros. unfold field. zbits_goal. Qed.

Lemma field_bound X pos width : 0 <= width -> 0 <= field X pos width < 2 ^ width.
Proof. apply mod_pow2_bound. Qed.

Lemma pack_int_bound vals width :
  0 <= width -> 0 <= pack_int vals width < 2 ^ (zlen vals * width).
Proof.
  intros Hw. unfold zlen. induction vals as [|v r IH]; cbn [pack_int length]; [simpl; lia|].
  rewrite Nat2Z.inj_succ.
  replace (Z.succ (Z.of_nat (length r)) * width) with
    (width + Z.of_nat (length r) * width) by lia.
  rewrite Z.pow_add_r by lia. pose proof (mod_pow2_bound v width Hw). nia.
Qed.

Lemma pack_int_snoc vals v width :
  0 <= width ->
  pack_int (vals ++ [v]) width
  = Z.lor (pack_int vals width) (Z.shiftl (v mod 2 ^ width) (zlen vals * width)).
Proof.
  intros Hw. rewrite Z.shiftl_mul_pow2 by (unfold zlen; lia).
  rewrite lor_add by (try apply pack_int_bound; unfold zlen; lia).
  unfold zlen. induction vals as [|x r IH]; cbn [pack_int length app].
  - rewrite Z.mul_0_r, Z.mul_0_l, Z.pow_0_r. lia.
  - rewrite IH, Nat2Z.inj_succ.
    replace (Z.succ (Z.of_nat (length r)) * width) with
      (width + Z.of_nat (length r) * width) by lia.
    rewrite Z.pow_add_r by lia. lia.
Qed.

Lemma field_pack_int vals v width (i : nat) rest :
  0 <= width -> vals !! i = Some v ->
  field (pack_int vals width + 2 ^ (zlen vals * width) * rest) (Z.of_nat i * width) width
  = v mod 2 ^ width.
Proof.
  intros Hw. revert i rest. unfold zlen.
  induction vals as [|x r IH]; intros i rest Hi; [done|].
  cbn [pack_int length]. rewrite Nat2Z.inj_succ.
  replace (Z.succ (Z.of_nat (length r)) * width) with
    (width + Z.of_nat (length r) * width) by lia.
  rewrite Z.pow_add_r by lia. pose proof (pow2_pos width Hw).
  set (T := pack_int r width + 2 ^ (Z.of_nat (length r) * width) * rest).
  replace (x mod 2 ^ width + 2 ^ width * pack_int r width
    + 2 ^ width * 2 ^ (Z.of_nat (length r) * width) * rest)
    with (x mod 2 ^ width + T * 2 ^ width) by (unfold T; ring).
  destruct i as [|i]; simpl in Hi.
  - injection Hi as ->. unfold field. rewrite Z.mul_0_l, Z.pow_0_r, Z.div_1_r.
    rewrite Z.mod_add by lia. apply Z.mod_mod. lia.
  - rewrite <- (IH i rest Hi). unfold field, T. rewrite Nat2Z.inj_succ.
    replace (Z.succ (Z.of_nat i) * width) with (width + Z.of_nat i * width) by lia.
    rewrite Z.pow_add_r by lia.
    rewrite <- Z.div_div by (try apply pow2_pos; lia).
    rewrite Z.div_add by lia. rewrite (Z.div_small (x mod _)) by (by apply mod_pow2_bound).
    done.
Qed.

Lemma length_unpack_int X n width : length (unpack_int X n width) = Z.to_nat n.
Proof. unfold unpack_int. by rewrite length_fmap, length_seqZ. Qed.

Lemma unpack_pack_int vals width rest :
  0 <= width -> Forall (fun v => 0 <= v < 2 ^ width) vals ->
  unpack_int (pack_int vals width + 2 ^ (zlen vals * width) * rest) (zlen vals) width = vals.
Proof.
  intros Hw Hv. apply list_eq. intros i. unfold unpack_int. rewrite list_lookup_fmap.
  destruct (vals !! i) as [v|] eqn:E.
  - pose proof (lookup_lt_Some _ _ _ E). rewrite lookup_seqZ_lt by (unfold zlen; lia).
    cbn [fmap option_fmap option_map]. f_equal. rewrite Z.add_0_l, (field_pack_int _ v) by done.
    apply Z.mod_small. by apply (Forall_lookup_1 _ _ _ _ Hv E).
  - apply lookup_ge_None in E. rewrite lookup_seqZ_ge by (unfold zlen; lia). done.
Qed.

Lemma unpack_int_0 X n : unpack_int X n 0 = replicate (Z.to_nat n) 0.
Proof.
  unfold unpack_int. apply list_eq. intros i. rewrite list_lookup_fmap.
  destruct (decide (i < Z.to_nat n)%nat).
  - rewrite lookup_seqZ_lt, lookup_replicate_2 by lia. simpl. f_equal.
    unfold field. by rewrite Z.pow_0_r, Z.mod_1_r.
  - rewrite lookup_seqZ_ge by lia. symmetry. apply lookup_replicate_None. lia.
Qed.

Lemma unpack_int_snoc X n width :
  0 <= n ->
  unpack_int X (n + 1) width = unpack_int X n width ++ [field X (n * width) width].
Proof.
  intros Hn. unfold unpack_int. rewrite seqZ_app by lia. by rewrite fmap_app.
Qed.

(** ** [bitpack] and [ref_bitpack] compute [pack_int] *)

(** OR-ing the [nb] bytes of [V] into the buffer from byte [p] on. *)
Lemma or_bytes_loop (buf : list Z) (p nb V : Z) (byte : Z -> Z) :
  bytes_ok buf -> 0 <= p -> 0 <= nb -> p + nb <= zlen buf -> zlen buf < 2 ^ 32 ->
  0 <= V < 2 ^ (8 * nb) ->
  (forall k, 0 <= k < nb -> byte k = (V / 2 ^ (8 * k)) mod 2 ^ 8) ->
  exists buf',
    forZ 0 nb (fun k b =>
      old ← rd1 b (u32 (p + k)); wr1 b (u32 (p + k)) (Z.lor old (byte k))) buf = Ok buf' /\
    bytes_ok buf' /\ zlen buf' = zlen buf /\
    le_uint buf' = Z.lor (le_uint buf) (Z.shiftl V (8 * p)).
Proof.
  intros Hb Hp Hnb Hlen H32 HV Hbyte.
  destruct (forZ_Ok (fun k b => bytes_ok b /\ zlen b = zlen buf /\
      le_uint b = Z.lor (le_uint buf) (Z.shiftl (V mod 2 ^ (8 * k)) (8 * p)))
    (fun k b => old ← rd1 b (u32 (p + k)); wr1 b (u32 (p + k)) (Z.lor old (byte k)))
    0 nb buf) as (buf' & -> & Hb' & Hl' & Hv'); [done| | |].
  - intros k b Hk (Hbb & Hbl & Hbv).
    rewrite u32_small, rd1_Ok by lia. cbn [mbind res_bind].
    rewrite wr1_Ok by lia. eexists. split; [done|].
    assert (Hby : byte_ok (byte k)) by (rewrite Hbyte by done; apply mod_pow2_bound; lia).
    split; [|split].
    + apply Forall_insert; [done|]. apply lor_bound; [lia| |exact Hby].
      by apply nthZ_ok.
    + unfold zlen. by rewrite length_insert.
    + rewrite le_uint_or_at by (done || lia). rewrite Hbv, Hbyte by done.
      zbits.
  - split; [done|]. split; [done|].
    change (8 * 0) with 0. rewrite Z.pow_0_r, Z.mod_1_r, Z.shiftl_0_l. by rewrite Z.lor_0_r.
  - exists buf'. repeat split; try done. by rewrite Hv', Z.mod_small.
Qed.

(** The loop invariant both packers keep: [i] values are in place. *)
Definition packed (vals : list Z) (width nbytes i : Z) (st : list Z * Z) : Prop :=
  bytes_ok st.1 /\ zlen st.1 = nbytes /\ st.2 = i * width /\
  le_uint st.1 = pack_int (take (Z.to_nat i) vals) width.

Lemma le_uint_zeros n : le_uint (replicate n 0) = 0.
Proof. induction n as [|n IH]; cbn [replicate le_uint]; [done|]. by rewrite IH. Qed.

Lemma packed_init vals width nbytes :
  0 <= nbytes -> packed vals width nbytes 0 (replicate (Z.to_nat nbytes) 0, 0).
Proof.
  intros Hn. repeat split.
  - apply Forall_replicate. unfold byte_ok. lia.
  - unfold zlen. cbn [fst]. rewrite length_replicate. lia.
  - cbn [fst]. change (Z.to_nat 0) with O. rewrite take_0. cbn [pack_int].
    apply le_uint_zeros.
Qed.

Lemma packed_step vals width nbytes i buf buf' v :
  0 <= width -> 0 <= i -> vals !! Z.to_nat i = Some v ->
  packed vals width nbytes i (buf, i * width) ->
  bytes_ok buf' -> zlen buf' = zlen buf ->
  le_uint buf' = Z.lor (le_uint buf) (Z.shiftl (v mod 2 ^ width) (i * width)) ->
  packed vals width nbytes (i + 1) (buf', i * width + width).
Proof.
  intros Hw Hi Hv (Hb & Hl & _ & HX) Hb' Hl' HX'. cbn [fst snd] in *.
  repeat split; cbn [fst snd]; [done|lia|lia|].
  replace (Z.to_nat (i + 1)) with (S (Z.to_nat i)) by lia.
  rewrite (take_S_r _ _ _ Hv), pack_int_snoc by done. rewrite HX', HX. f_equal. f_equal.
  pose proof (lookup_lt_Some _ _ _ Hv). unfold zlen. rewrite length_take. lia.
Qed.

Lemma nthZ_lookup (vals : list Z) i v :
  vals !! Z.to_nat i = Some v -> nthZ vals i = v.
Proof. apply nth_lookup_Some. Qed.

(** One field of [width] bits at bit position [pos], cut into bytes. *)
Lemma bitpack_byte v pos width k :
  0 <= width <= 64 -> 0 <= v < 2 ^ width -> 0 <= pos -> 0 <= k < 9 ->
  (if k <? 8 then u8 (Z.shiftr (u64 (Z.shiftl v (pos mod 8))) (8 * k))
   else u8 (Z.shiftr (if pos mod 8 =? 0 then 0 else Z.shiftr v (64 - pos mod 8))
              (8 * (k - 8))))
  = (Z.shiftl v (pos mod 8) / 2 ^ (8 * k)) mod 2 ^ 8.
Proof.
  intros Hw Hv Hp Hk. pose proof (Z.mod_pos_bound pos 8 ltac:(lia)) as Hm.
  set (s := pos mod 8) in *. clearbody s. unfold u8, u64.
  destruct (Z.ltb_spec k 8).
  - zbits.
  - assert (k = 8) as -> by lia. destruct (Z.eqb_spec s 0) as [->|].
    + rewrite Z.shiftl_0_r, Z.shiftr_0_l, Z.div_small; [done|].
      split; [lia|]. eapply Z.lt_le_trans; [apply Hv|]. apply Z.pow_le_mono_r; lia.
    + zbits.
Qed.

Lemma bitpack_field_spec buf pos width v :
  bytes_ok buf -> 0 <= width <= 64 -> 0 <= v < 2 ^ width -> 0 <= pos ->
  pos + width <= 8 * zlen buf -> zlen buf < 2 ^ 32 ->
  exists buf', bitpack_field width buf pos v = Ok buf' /\ bytes_ok buf' /\
    zlen buf' = zlen buf /\ le_uint buf' = Z.lor (le_uint buf) (Z.shiftl v pos).
Proof.
  intros Hb Hw Hv Hp Hfit H32. unfold bitpack_field.
  rewrite shiftr_3, land_7, shiftr_3. div_bounds pos 8.
  rewrite (u32_small (pos / 8)), (u32_small width), (u32_small (pos mod 8)),
    (u32_small (_ + _ + 7)) by lia.
  set (nb := (pos mod 8 + width + 7) / 8).
  assert (Hnb : pos mod 8 + width <= 8 * nb < pos mod 8 + width + 8)
    by (subst nb; div_bounds (pos mod 8 + width + 7) 8; lia).
  destruct (or_bytes_loop buf (pos / 8) nb (Z.shiftl v (pos mod 8))
    (fun k => if k <? 8 then u8 (Z.shiftr (u64 (Z.shiftl v (pos mod 8))) (8 * k))
      else u8 (Z.shiftr (if pos mod 8 =? 0 then 0 else Z.shiftr v (64 - pos mod 8))
             (8 * (k - 8))))) as (buf' & -> & Hb' & Hl' & HX'); try done; try lia.
  - destruct (shiftl_bound v width (pos mod 8)); try lia.
    split; [done|]. eapply Z.lt_le_trans; [done|]. apply Z.pow_le_mono_r; lia.
  - intros k Hk. apply (bitpack_byte v pos width k); lia.
  - exists buf'. repeat split; try done. rewrite HX', Z.shiftl_shiftl by lia.
    do 2 f_equal. lia.
Qed.

(** Setting the bits of the low [width] bits of [v] one at a time. *)
Lemma ref_bitpack_field_spec buf pos width v :
  bytes_ok buf -> 0 <= width <= 64 -> 0 <= v -> 0 <= pos ->
  pos + width <= 8 * zlen buf -> zlen buf < 2 ^ 32 ->
  exists buf', ref_bitpack_field width buf pos v = Ok buf' /\ bytes_ok buf' /\
    zlen buf' = zlen buf /\
    le_uint buf' = Z.lor (le_uint buf) (Z.shiftl (v mod 2 ^ width) pos).
Proof.
  intros Hb Hw Hv Hp Hfit H32. unfold ref_bitpack_field.
  match goal with |- context [forZ 0 width ?f ?s] =>
    destruct (forZ_Ok (fun b bf => bytes_ok bf /\ zlen bf = zlen buf /\
      le_uint bf = Z.lor (le_uint buf) (Z.shiftl (v mod 2 ^ b) pos)) f 0 width s)
      as (buf' & -> & HI) end.
  - lia.
  - intros b bf Hbw (Hb1 & Hl1 & HX1). rewrite shiftr_land_1 by lia.
    destruct (Z.testbit v b) eqn:Ht; cbn [negb].
    + rewrite u64_small, shiftr_3, land_7 by lia. div_bounds (pos + b) 8.
      rewrite rd1_Ok by lia. cbn [mbind res_bind]. rewrite wr1_Ok by lia.
      eexists. split; [done|].
      assert (H1 : byte_ok (u8 (Z.shiftl 1 ((pos + b) mod 8)))) by (apply mod_pow2_bound; lia).
      split; [|split].
      * apply Forall_insert; [done|]. apply lor_bound; [lia| |exact H1]. by apply nthZ_ok.
      * unfold zlen in *. by rewrite length_insert.
      * rewrite le_uint_or_at by (done || lia). rewrite HX1. unfold u8.
        apply Z.bits_inj'; intros i Hi. autorewrite with zbits.
        destruct (Z.eqb_spec i (pos + b)) as [->|Hne].
        -- replace (pos + b - pos) with b by lia. rewrite Ht. zbits_split; simpl;
             by rewrite ?Bool.orb_true_r.
        -- zbits_goal.
    + exists bf. split; [done|]. repeat split; try done. rewrite HX1.
      apply Z.bits_inj'; intros i Hi. autorewrite with zbits.
      destruct (Z.eqb_spec i (pos + b)) as [->|Hne]; [|zbits_goal].
      replace (pos + b - pos) with b by lia. rewrite Ht. by rewrite !Bool.andb_false_r.
  - repeat split; [done|]. by rewrite Z.pow_0_r, Z.mod_1_r, Z.shiftl_0_l, Z.lor_0_r.
  - exists buf'. done.
Qed.

(** What a packer's loop over the values does, given what one field does. *)
Section PackLoop.
Context (put : Z -> list Z -> Z -> Z -> res (list Z)) (pre : Z -> Z -> Z).
Context (put_spec : forall buf pos width v,
  bytes_ok buf -> 0 <= width <= 64 -> 0 <= v -> 0 <= pos ->
  pos + width <= 8 * zlen buf -> zlen buf < 2 ^ 32 ->
  exists buf', put width buf pos (pre width v) = Ok buf' /\ bytes_ok buf' /\
    zlen buf' = zlen buf /\
    le_uint buf' = Z.lor (le_uint buf) (Z.shiftl (v mod 2 ^ width) pos)).

Lemma pack_loop vals width :
  0 <= width <= 64 -> Forall (fun v => 0 <= v) vals ->
  (zlen vals * width + 7) / 8 <= MaxAllocSize ->
  exists buf bp,
    (b0 ← palloc0 (u32 (u64 (u64 (zlen vals * width) + 7) / 8));
     forZ 0 (zlen vals) (fun i st =>
       let '(buf, bitpos) := st in
       vi ← rd1 vals i;
       buf' ← put width buf bitpos (pre width vi);
       Ok (buf', u64 (bitpos + width))) (b0, 0)) = Ok (buf, bp) /\
    bytes_ok buf /\ zlen buf = (zlen vals * width + 7) / 8 /\
    le_uint buf = pack_int vals width.
Proof.
  intros Hw Hv Hmax. pose proof (zlen_nonneg vals) as Hn.
  set (N := zlen vals) in *. set (nbytes := (N * width + 7) / 8) in *.
  assert (HN : 0 <= N * width <= 8 * nbytes /\ N * width + 7 < 8 * nbytes + 8)
    by (subst nbytes; div_bounds (N * width + 7) 8; nia).
  unfold MaxAllocSize in *.
  rewrite (u64_small (N * width)), u64_small by lia. fold nbytes.
  rewrite u32_small by lia. unfold palloc0, MaxAllocSize.
  destruct (Z.ltb_spec 1073741823 nbytes); [lia|]. cbn [mbind res_bind].
  match goal with |- context [forZ 0 N ?f ?s] =>
    destruct (forZ_Ok (packed vals width nbytes) f 0 N s) as ([buf bp] & -> & HP) end.
  - lia.
  - intros i [buf bp] Hi HP. pose proof HP as (Hb & Hl & Hbp & HX). cbn [fst snd] in *.
    subst bp. destruct (lookup_lt_is_Some_2 vals (Z.to_nat i)) as [v Hlk];
      [unfold N, zlen in *; lia|].
    rewrite rd1_Ok by (fold N; lia). rewrite (nthZ_lookup _ _ _ Hlk). cbn [mbind res_bind].
    assert (0 <= i * width /\ i * width + width <= N * width) by nia.
    destruct (put_spec buf (i * width) width v) as (buf' & -> & Hb' & Hl' & HX');
      try done; try lia.
    { by apply (Forall_lookup_1 _ _ _ _ Hv Hlk). }
    cbn [mbind res_bind]. rewrite u64_small by lia. eexists. split; [done|].
    eapply packed_step; [lia|lia|exact Hlk|exact HP|done|lia|exact HX'].
  - apply packed_init. lia.
  - exists buf, bp. destruct HP as (Hb & Hl & _ & HX). cbn [fst snd] in *.
    repeat split; try done. rewrite HX, take_ge; [done|]. unfold N, zlen. lia.
Qed.
End PackLoop.

Lemma pack_int_nothing vals n width :
  n = zlen vals -> (width =? 0) || (n =? 0) = true ->
  (n * width + 7) / 8 = 0 /\ pack_int vals width = 0.
Proof.
  intros -> H. apply orb_prop in H as [H|H]; apply Z.eqb_eq in H.
  - subst width. rewrite Z.mul_0_r. split; [done|].
    induction vals as [|v r IH]; cbn [pack_int]; [done|].
    by rewrite IH, Z.pow_0_r, Z.mod_1_r.
  - rewrite H. by destruct vals.
Qed.

(** The result of either packer: the bytes of [pack_int]. *)
Definition packed_as (vals : list Z) (n width : Z) (buf : list Z) : Prop :=
  bytes_ok buf /\ zlen buf = (n * width + 7) / 8 /\ le_uint buf = pack_int vals width.

Lemma packed_as_unique vals n width b b' :
  packed_as vals n width b -> packed_as vals n width b' -> b = b'.
Proof.
  intros (H1 & H2 & H3) (H4 & H5 & H6). apply le_uint_inj; try done.
  - unfold zlen in *. lia.
  - by rewrite H3, H6.
Qed.

Lemma packed_as_nothing vals n width :
  n = zlen vals -> (width =? 0) || (n =? 0) = true -> packed_as vals n width [].
Proof.
  intros Hn H. destruct (pack_int_nothing vals n width Hn H) as [H1 H2].
  repeat split; [constructor|by rewrite H1|by rewrite H2].
Qed.

Lemma bitpack_spec vals n width out :
  n = zlen vals -> Forall (fun v => 0 <= v) vals -> 0 <= width <= 64 ->
  (n * width + 7) / 8 <= MaxAllocSize ->
  exists buf, bitpack vals n width out = Ok (out ++ buf) /\ packed_as vals n width buf.
Proof.
  intros Hn Hv Hw Hmax. unfold bitpack.
  destruct ((width =? 0) || (n =? 0)) eqn:E.
  { exists []. rewrite app_nil_r. split; [done|]. by apply packed_as_nothing. }
  subst n.
  edestruct (pack_loop bitpack_field (fun width v => Z.land v (width_mask width)))
    as (buf & bp & Hrun & HP); [|exact Hw|exact Hv|exact Hmax|].
  { intros buf pos w v Hb Hw' Hv' Hp Hfit H32. cbn beta. rewrite land_width_mask by done.
    apply bitpack_field_spec; try done. apply mod_pow2_bound; lia. }
  exists buf. split; [|done].
  destruct (palloc0 _) as [b0| | |]; try discriminate Hrun. cbn [mbind res_bind] in *.
  by rewrite Hrun.
Qed.

Lemma ref_bitpack_spec vals n width out :
  n = zlen vals -> Forall (fun v => 0 <= v) vals -> 0 <= width <= 64 ->
  (n * width + 7) / 8 <= MaxAllocSize ->
  exists buf, ref_bitpack vals n width out = Ok (out ++ buf) /\ packed_as vals n width buf.
Proof.
  intros Hn Hv Hw Hmax. unfold ref_bitpack.
  destruct ((width =? 0) || (n =? 0)) eqn:E.
  { exists []. rewrite app_nil_r. split; [done|]. by apply packed_as_nothing. }
  subst n.
  edestruct (pack_loop ref_bitpack_field (fun _ v => v) ref_bitpack_field_spec)
    as (buf & bp & Hrun & HP); [exact Hw|exact Hv|exact Hmax|].
  exists buf. split; [|done].
  destruct (palloc0 _) as [b0| | |]; try discriminate Hrun. cbn [mbind res_bind] in *.
  by rewrite Hrun.
Qed.

(** ** [bitunpack] and [ref_bitunpack] compute [unpack_int] *)

Lemma unpack_bits_spec inp pos width :
  bytes_ok inp -> 0 <= width <= 64 -> 0 <= pos -> pos + width <= 8 * zlen inp ->
  zlen inp < 2 ^ 32 -> unpack_bits inp pos width = Ok (field (le_uint inp) pos width).
Proof.
  intros Hb Hw Hp Hfit H32. unfold unpack_bits.
  match goal with |- context [forZ 0 width ?f ?s] =>
    destruct (forZ_Ok (fun b v => v = field (le_uint inp) pos b) f 0 width s)
      as (v & -> & ->) end; try done; try lia.
  - intros b v Hbw ->. rewrite (u64_small (pos + b)), shiftr_3, land_7 by lia.
    div_bounds (pos + b) 8. rewrite rd1_Ok by lia. cbn [mbind res_bind].
    eexists. split; [done|]. rewrite shiftr_land_1 by lia.
    rewrite <- le_uint_testbit by (done || lia).
    rewrite Z.shiftl_1_l, u64_small by
      (split; [apply Z.pow_nonneg|apply Z.pow_lt_mono_r]; lia).
    rewrite <- Z.shiftl_1_l. unfold field.
    destruct (Z.testbit (le_uint inp) (pos + b)) eqn:Ht; cbn [negb];
      apply Z.bits_inj'; intros i Hi; autorewrite with zbits;
      (destruct (Z.eqb_spec i b) as [->|Hne]; [|zbits_goal]);
      rewrite (Z.add_comm b pos), Ht; zbits_goal.
  - unfold field. by rewrite Z.pow_0_r, Z.mod_1_r.
Qed.

Lemma unpack_wide_spec inp pos width :
  bytes_ok inp -> 1 <= width <= 64 -> 0 <= pos -> pos / 8 + 9 <= zlen inp ->
  unpack_wide inp pos width = Ok (field (le_uint inp) pos width).
Proof.
  intros Hb Hw Hp Hfit. unfold unpack_wide. rewrite shiftr_3, land_7.
  div_bounds pos 8. set (q := pos / 8) in *. set (s := pos mod 8) in *.
  rewrite rd_Ok by lia. cbn [mbind res_bind]. rewrite le_uint_sub by (done || lia).
  set (X := le_uint inp) in *.
  destruct (Z.ltb_spec 64 (s + width)).
  - rewrite rd1_Ok by lia. cbn [mbind res_bind]. rewrite land_width_mask by lia.
    rewrite le_uint_byte by (done || lia). fold X. f_equal. unfold field, u64.
    rewrite H. clearbody X q s. clear - Hw H0 H1 Hp H Hfit.
    apply Z.bits_inj'; intros i Hi. autorewrite with zbits.
    destruct (Z.ltb_spec i width); [|zbits_goal].
    destruct (Z.ltb_spec (i + s) 64); zbits_goal.
  - cbn [mbind res_bind]. rewrite land_width_mask by lia. f_equal. unfold field.
    rewrite H. clearbody X q s. clear - Hw H0 H1 Hp H Hfit. zbits.
Qed.

Lemma unpack_loop (get : list Z -> Z -> Z -> res Z) inp width lo hi :
  0 <= lo <= hi -> 0 <= width <= 64 -> hi < 2 ^ 32 ->
  (forall i, lo <= i < hi ->
     get inp (i * width) width = Ok (field (le_uint inp) (i * width) width)) ->
  forZ lo hi (fun _ st =>
    let '(out, bitpos) := st in
    v ← get inp bitpos width; Ok (out ++ [v], u64 (bitpos + width)))
    (unpack_int (le_uint inp) lo width, lo * width)
  = Ok (unpack_int (le_uint inp) hi width, hi * width).
Proof.
  intros Hlo Hw H32 Hget.
  match goal with |- forZ lo hi ?f ?s = _ =>
    destruct (forZ_Ok (fun i st => st = (unpack_int (le_uint inp) i width, i * width))
      f lo hi s) as (st & -> & ->) end; try done; try lia.
  intros i st Hi ->. rewrite Hget by done. cbn [mbind res_bind].
  rewrite u64_small by nia. eexists. split; [done|].
  rewrite unpack_int_snoc by lia. f_equal. lia.
Qed.

Lemma unpack_fits i n width len :
  0 <= i < n -> 0 <= width -> (n * width + 7) / 8 <= len -> i * width + width <= 8 * len.
Proof. intros. div_bounds (n * width + 7) 8. nia. Qed.

Lemma unpack_int_nil X width : unpack_int X 0 width = [].
Proof. done. Qed.

Lemma ref_bitunpack_spec inp n width :
  bytes_ok inp -> 0 <= width <= 64 -> 0 <= n < 2 ^ 32 -> zlen inp < 2 ^ 32 ->
  (n * width + 7) / 8 <= zlen inp ->
  ref_bitunpack inp n width = Ok (unpack_int (le_uint inp) n width).
Proof.
  intros Hb Hw Hn H32 Hfit. unfold ref_bitunpack.
  destruct (Z.eqb_spec width 0) as [Hz|Hz]; [subst; by rewrite unpack_int_0|].
  rewrite <- (unpack_int_nil (le_uint inp) width), <- (Z.mul_0_l width) at 1.
  rewrite (unpack_loop unpack_bits) by
    (lia || (intros i Hi; apply unpack_bits_spec; try done; try nia;
             eapply unpack_fits; eauto; lia)). done.
Qed.

Lemma bitunpack_spec inp n width :
  bytes_ok inp -> 0 <= width <= 64 -> 0 <= n < 2 ^ 32 -> zlen inp < 2 ^ 32 ->
  (n * width + 7) / 8 <= zlen inp ->
  bitunpack inp n width = Ok (unpack_int (le_uint inp) n width).
Proof.
  intros Hb Hw Hn H32 Hfit. unfold bitunpack.
  destruct (Z.ltb_spec width 0); [lia|]. destruct (Z.ltb_spec 64 width); [lia|]. cbn [orb].
  destruct (Z.eqb_spec width 0) as [Hz|Hz]; [subst; by rewrite unpack_int_0|].
  rewrite (u64_small (n * width)), u64_small by nia.
  destruct (Z.ltb_spec (zlen inp) ((n * width + 7) / 8)); [lia|].
  set (nbytes := (n * width + 7) / 8) in *.
  assert (0 <= nbytes) by (apply Z.div_pos; nia). rewrite u32_small by lia.
  set (nFast := if 9 <=? nbytes then _ else 0).
  assert (HF : 0 <= nFast <= n /\ (forall i, 0 <= i < nFast -> i * width / 8 + 9 <= nbytes)).
  { subst nFast. destruct (Z.leb_spec 9 nbytes); [|split; [lia|intros; lia]].
    set (maxIdx := 8 * (nbytes - 9) / width).
    assert (Hm : 0 <= maxIdx /\ maxIdx * width <= 8 * (nbytes - 9))
      by (subst maxIdx; div_bounds (8 * (nbytes - 9)) width; split; [apply Z.div_pos|]; lia).
    assert (Hall : forall i, 0 <= i <= maxIdx -> i * width / 8 + 9 <= nbytes)
      by (intros i Hi; div_bounds (i * width) 8; nia).
    destruct (Z.ltb_spec (maxIdx + 1) n); [rewrite u32_small by lia|];
      (split; [lia|]); intros i Hi; apply Hall; lia. }
  clearbody nFast. destruct HF as [HF1 HF2].
  rewrite <- (unpack_int_nil (le_uint inp) width), <- (Z.mul_0_l width) at 1.
  rewrite (unpack_loop unpack_wide) by
    (lia || (intros i Hi; apply unpack_wide_spec; try done; try nia;
             specialize (HF2 i ltac:(lia)); lia)).
  cbn [mbind res_bind].
  rewrite (unpack_loop unpack_bits) by
    (lia || (intros i Hi; apply unpack_bits_spec; try done; try nia;
             eapply unpack_fits; eauto; lia)).
  done.
Qed.

(** On any input at all the unpacker either rejects or returns the fields. *)
Lemma bitunpack_cases inp n width :
  bytes_ok inp -> 0 <= n < 2 ^ 32 -> zlen inp < 2 ^ 32 ->
  (exists m, bitunpack inp n width = Err m) \/
  (0 <= width <= 64 /\ (n * width + 7) / 8 <= zlen inp /\
   bitunpack inp n width = Ok (unpack_int (le_uint inp) n width)).
Proof.
  intros Hb Hn H32.
  destruct (decide (0 <= width <= 64)) as [Hw|Hw].
  - destruct (decide ((n * width + 7) / 8 <= zlen inp)) as [Hf|Hf].
    + right. repeat split; try lia. by apply bitunpack_spec.
    + left. unfold bitunpack.
      destruct (Z.ltb_spec width 0); [lia|]. destruct (Z.ltb_spec 64 width); [lia|]. cbn [orb].
      destruct (Z.eqb_spec width 0) as [Hz|Hz].
      { subst. rewrite Z.mul_0_r in Hf. pose proof (zlen_nonneg inp).
        exfalso. apply Hf. done. }
      rewrite (u64_small (n * width)), u64_small by nia.
      destruct (Z.ltb_spec (zlen inp) ((n * width + 7) / 8)); [eauto|lia].
  - left. unfold bitunpack.
    destruct (Z.ltb_spec width 0); [cbn; eauto|].
    destruct (Z.ltb_spec 64 width); [cbn; eauto|lia].
Qed.

Lemma unpack_int_u64 X n width :
  0 <= width <= 64 -> Forall (fun v => 0 <= v < 2 ^ 64) (unpack_int X n width).
Proof.
  intros Hw. apply Forall_fmap, Forall_true. intros i. simpl.
  pose proof (field_bound X (i * width) width ltac:(lia)).
  assert (2 ^ width <= 2 ^ 64) by (apply Z.pow_le_mono_r; lia). lia.
Qed.

(** Reading back what was packed, whatever bytes follow it. *)
Lemma bitunpack_bitpack vals n width body rest :
  n = zlen vals -> 0 <= width <= 64 -> n < 2 ^ 32 ->
  Forall (fun v => 0 <= v < 2 ^ width) vals ->
  packed_as vals n width body -> bytes_ok rest -> zlen (body ++ rest) < 2 ^ 32 ->
  bitunpack (body ++ rest) n width = Ok vals.
Proof.
  intros -> Hw Hn Hv (Hb & Hl & HX) Hr H32.
  pose proof (zlen_nonneg vals). pose proof (zlen_nonneg rest).
  rewrite bitunpack_spec; try done; try lia.
  - f_equal. rewrite le_uint_app, HX.
    assert (Hd : exists d, 0 <= d /\ 8 * zlen body = zlen vals * width + d)
      by (exists (8 * zlen body - zlen vals * width); split; [|lia];
          rewrite Hl; div_bounds (zlen vals * width + 7) 8; lia).
    destruct Hd as (d & Hd0 & ->). rewrite Z.pow_add_r by lia.
    rewrite <- Z.mul_assoc. by apply unpack_pack_int; [lia|].
  - by apply Forall_app_2.
  - rewrite zlen_app. lia.
Qed.

(** ** [bits_needed] *)

Lemma bits_needed_loop_spec fuel n v :
  0 <= v < 2 ^ Z.of_nat fuel ->
  bits_needed_loop fuel n v = n + (if v =? 0 then 0 else Z.log2 v + 1).
Proof.
  revert n v. induction fuel as [|f IH]; intros n v Hv; cbn [bits_needed_loop].
  - assert (v = 0) as -> by (simpl in Hv; lia). simpl. lia.
  - destruct (Z.ltb_spec 0 v), (Z.eqb_spec v 0); try lia.
    rewrite Z.shiftr_div_pow2 by lia. change (2 ^ 1) with 2.
    rewrite IH.
    + destruct (Z.eqb_spec (v / 2) 0) as [Hz|Hz].
      * assert (v = 1) as -> by (div_bounds v 2; lia). simpl. lia.
      * replace v with (2 * (v / 2) + v mod 2) at 2 by (div_bounds v 2; lia).
        assert (Hl : Z.log2 v = Z.log2 (v / 2) + 1).
        { div_bounds v 2. change 2 with (2 ^ 1) at 1.
          rewrite <- Z.shiftr_div_pow2, Z.log2_shiftr by lia.
          assert (0 < v / 2) by lia. assert (1 <= Z.log2 v); [|lia].
          change 1 with (Z.log2 2). apply Z.log2_le_mono. lia. }
        replace (2 * (v / 2) + v mod 2) with v by (div_bounds v 2; lia). lia.
    + rewrite Nat2Z.inj_succ, Z.pow_succ_r in Hv by lia. div_bounds v 2. lia.
Qed.

Lemma bits_needed_spec v :
  0 <= v < 2 ^ 64 -> 0 <= bits_needed v <= 64 /\ v < 2 ^ bits_needed v.
Proof.
  intros Hv. unfold bits_needed. rewrite bits_needed_loop_spec by done.
  destruct (Z.eqb_spec v 0) as [->|]; [simpl; lia|].
  pose proof (Z.log2_nonneg v). pose proof (Z.log2_spec v ltac:(lia)).
  assert (Z.log2 v < 64) by (apply Z.log2_lt_pow2; lia).
  rewrite Z.add_0_l. split; [lia|].
  replace (Z.log2 v + 1) with (Z.succ (Z.log2 v)) by lia. lia.
Qed.

(** ** Zigzag *)

Lemma s64_u64 z : - 2 ^ 63 <= z < 2 ^ 63 -> s64 (u64 z) = z.
Proof.
  intros. unfold s64, u64. rewrite Zplus_mod_idemp_l. rewrite Z.mod_small by lia. lia.
Qed.

Lemma zigzag_arith x :
  - 2 ^ 63 <= x < 2 ^ 63 -> zigzag x = if x <? 0 then - 2 * x - 1 else 2 * x.
Proof.
  intros Hx. unfold zigzag. rewrite Z.shiftr_div_pow2 by lia.
  destruct (Z.ltb_spec x 0).
  - assert (x / 2 ^ 63 = -1) as -> by (symmetry; apply (Z.div_unique x _ _ (x + 2 ^ 63)); lia).
    replace (u64 (-1)) with (2 ^ 64 - 1) by done.
    unfold u64. rewrite Z.shiftl_mul_pow2 by lia. rewrite Zmult_mod_idemp_l.
    change (2 ^ 1) with 2.
    replace ((x * 2) mod 2 ^ 64) with (x * 2 + 2 ^ 64)
      by (apply (Z.mod_unique _ _ (-1)); lia).
    set (y := x * 2 + 2 ^ 64). change (2 ^ 64 - 1) with (Z.ones 64).
    transitivity (Z.ones 64 - y); [|unfold y; change (Z.ones 64) with (2 ^ 64 - 1); lia].
    rewrite Z.sub_nocarry_ldiff.
    + assert (Hy : 0 <= y < 2 ^ 64) by (unfold y; lia). clearbody y.
      apply Z.bits_inj'; intros i Hi. rewrite Z.ldiff_spec. autorewrite with zbits.
      zbits_split; zbits_bounds; simpl; by destruct (Z.testbit y i).
    + assert (Hy : 0 <= y < 2 ^ 64) by (unfold y; lia). clearbody y.
      apply Z.bits_inj'; intros i Hi. rewrite Z.ldiff_spec. autorewrite with zbits.
      zbits_split; zbits_bounds; simpl; by rewrite ?Bool.andb_false_r.
  - rewrite (Z.div_small x) by lia. change (u64 0) with 0. rewrite Z.lxor_0_r.
    rewrite (u64_small x), Z.shiftl_mul_pow2, u64_small by lia. lia.
Qed.

Lemma zigzag_range x : - 2 ^ 63 <= x < 2 ^ 63 -> 0 <= zigzag x < 2 ^ 64.
Proof. intros. rewrite zigzag_arith by done. destruct (Z.ltb_spec x 0); lia. Qed.

Lemma unzigzag_arith z :
  0 <= z < 2 ^ 64 -> unzigzag z = if Z.odd z then - (z / 2) - 1 else z / 2.
Proof.
  intros Hz. unfold unzigzag. rewrite Z.shiftr_div_pow2, land_1 by lia.
  change (2 ^ 1) with 2. div_bounds z 2.
  replace (s64 (z / 2)) with (z / 2)
    by (unfold s64; rewrite Z.mod_small by lia; lia).
  rewrite Zmod_odd. destruct (Z.odd z).
  - change (- s64 1) with (-1). rewrite Z.lxor_m1_r. unfold Z.lnot. lia.
  - change (- s64 0) with 0. by rewrite Z.lxor_0_r.
Qed.

Lemma unzigzag_range z : 0 <= z < 2 ^ 64 -> - 2 ^ 63 <= unzigzag z < 2 ^ 63.
Proof.
  intros. rewrite unzigzag_arith by done. div_bounds z 2. destruct (Z.odd z); lia.
Qed.

(** ** Theorems *)

(** C36.  The word-at-a-time routines against the per-bit reference routines of
    the self-test: the packer writes exactly the reference's bytes for every
    width from 0 to 64 bits and every value list whose packed body can be
    allocated; and on every input its length guard admits the unpacker returns
    what the reference returns, so that its wide loads never change a value and
    never read a byte the guard did not cover. *)
Theorem bitpacking_matches_reference :
  (forall (vals out : list Z) (width : Z),
     Forall (fun v => 0 <= v < 2 ^ 64) vals -> 0 <= width <= 64 ->
     (zlen vals * width + 7) / 8 <= MaxAllocSize ->
     bitpack vals (zlen vals) width out = ref_bitpack vals (zlen vals) width out) /\
  (forall (inp : list Z) (n width : Z),
     bytes_ok inp -> zlen inp < 2 ^ 32 -> 0 <= n < 2 ^ 32 -> 0 <= width <= 64 ->
     (n * width + 7) / 8 <= zlen inp ->
     bitunpack inp n width = ref_bitunpack inp n width).
Proof.
  split; [|intros; rewrite bitunpack_spec, ref_bitunpack_spec; done]. intros vals out width Hv Hw Hm.
  assert (Hv' : Forall (fun v => 0 <= v) vals) by (eapply Forall_weaken; [exact Hv|simpl; lia]).
  destruct (bitpack_spec vals (zlen vals) width out) as (b & -> & Hb); try done.
  destruct (ref_bitpack_spec vals (zlen vals) width out) as (b' & -> & Hb'); try done.
  by rewrite (packed_as_unique _ _ _ _ _ Hb Hb').
Qed.

(** Unpacking a packed body gives back the values, each of which fits in
    [width] bits, and whatever bytes follow the body do not matter. *)
Theorem bitpack_roundtrip (vals rest : list Z) (width : Z) :
  Forall (fun v => 0 <= v < 2 ^ width) vals -> 0 <= width <= 64 -> bytes_ok rest ->
  (zlen vals * width + 7) / 8 + zlen rest <= MaxAllocSize -> zlen vals < 2 ^ 32 ->
  exists body, bitpack vals (zlen vals) width [] = Ok body /\
    zlen body = (zlen vals * width + 7) / 8 /\
    bitunpack (body ++ rest) (zlen vals) width = Ok vals.
Proof.
  intros Hv Hw Hr Hm Hn. pose proof (zlen_nonneg rest).
  destruct (bitpack_spec vals (zlen vals) width []) as (b & -> & Hb); try done; try lia.
  { eapply Forall_weaken; [exact Hv|simpl; lia]. }
  exists b. rewrite app_nil_l. split; [done|]. split; [apply Hb|].
  apply bitunpack_bitpack; try done. rewrite zlen_app.
  destruct Hb as (_ & -> & _). unfold MaxAllocSize in Hm. lia.
Qed.

(** [unzigzag] inverts [zigzag] on every [int64], and the image of a value
    of magnitude below [2^k] fits in [k + 1] bits. *)
Lemma zigzag_roundtrip (x k : Z) :
  - 2 ^ 63 <= x < 2 ^ 63 ->
  unzigzag (zigzag x) = x /\ (0 <= k -> - 2 ^ k <= x < 2 ^ k -> 0 <= zigzag x < 2 ^ (k + 1)).
Proof.
  intros Hx. pose proof (zigzag_range x Hx). rewrite unzigzag_arith by done.
  rewrite zigzag_arith by done. split.
  - destruct (Z.ltb_spec x 0).
    + replace (-2 * x - 1) with (1 + 2 * (- x - 1)) by lia.
      rewrite Z.odd_add_mul_2. change (Z.odd 1) with true. cbn iota.
      rewrite Z.mul_comm, Z.div_add by lia. change (1 / 2) with 0. lia.
    + rewrite Z.odd_mul, (Z.mul_comm 2 x), Z.div_mul by lia. done.
  - intros Hk Hxk. rewrite Z.pow_add_r by lia. change (2 ^ 1) with 2.
    destruct (Z.ltb_spec x 0); lia.
Qed.

(** Each theorem at a concrete input. *)

Lemma bitpacking_matches_reference_witness :
  bitpack [5; 0; 7; 3] 4 3 [] = ref_bitpack [5; 0; 7; 3] 4 3 [] /\ bitunpack [197; 7] 4 3 = ref_bitunpack [197; 7] 4 3.
Proof.
  destruct bitpacking_matches_reference as [Hp Hu]. split.
  - apply (Hp [5; 0; 7; 3] [] 3); [repeat constructor; vm_compute; congruence|lia|vm_compute; congruence].
  - apply (Hu [197; 7] 4 3); try lia; [repeat constructor; vm_compute; congruence|vm_compute; congruence|vm_compute; congruence].
Defined.

Lemma bitpack_roundtrip_witness :
  exists body, bitpack [5; 0; 7; 3] (zlen [5; 0; 7; 3]) 3 [] = Ok body /\
    zlen body = (zlen [5; 0; 7; 3] * 3 + 7) / 8 /\
    bitunpack (body ++ [9]) (zlen [5; 0; 7; 3]) 3 = Ok [5; 0; 7; 3].
Proof.
  apply (bitpack_roundtrip [5; 0; 7; 3] [9] 3).
  - repeat constructor; vm_compute; congruence.
  - lia.
  - repeat constructor; vm_compute; congruence.
  - vm_compute. congruence.
  - vm_compute. congruence.
Defined.
