(* ===== verification/BitStream.v ===== *)
(** * The streaming bit writer and reader

    [BitWriter] and [BitReader] of [src/columnar_encoding.c], the windowed
    zero counts [clz_in] and [ctz_in], and the per-bit reference routines the
    self-test keeps for them.  A writer is specified by two numbers, the count
    of bits written and the integer they spell least-significant first; a
    reader returns bit fields of the integer its bytes spell. *)

From S2P Require Import Prelude BitPack.

(** What PostgreSQL's [port/pg_bitutils.h] documents of the two bit scans: the
    0-based position of the highest, and of the lowest, set bit of a non-zero
    [uint64]. *)
Class PgBitutils : Type := {
  pg_leftmost_one_pos64 : Z -> Z;
  pg_rightmost_one_pos64 : Z -> Z;
  pg_leftmost_one_pos64_spec : forall x, 0 < x < 2 ^ 64 ->
    0 <= pg_leftmost_one_pos64 x < 64 /\
    Z.testbit x (pg_leftmost_one_pos64 x) = true /\
    forall j, pg_leftmost_one_pos64 x < j -> Z.testbit x j = false;
  pg_rightmost_one_pos64_spec : forall x, 0 < x < 2 ^ 64 ->
    0 <= pg_rightmost_one_pos64 x < 64 /\
    Z.testbit x (pg_rightmost_one_pos64 x) = true /\
    forall j, j < pg_rightmost_one_pos64 x -> Z.testbit x j = false
}.

(** ** The writer *)

Record BitWriter := mkBW { bw_buf : list Z; bw_cur : Z; bw_nbits : Z }.

Definition bw_init : BitWriter := mkBW [] 0 0.

(** [while (have >= 8) { append acc & 0xff; acc >>= 8; have -= 8; }] *)
Fixpoint bw_drain (fuel : nat) (buf : list Z) (acc have : Z) : list Z * Z * Z :=
  match fuel with
  | O => (buf, acc, have)
  | S f => if 8 <=? have
           then bw_drain f (buf ++ [Z.land acc 255]) (Z.shiftr acc 8) (have - 8)
           else (buf, acc, have)
  end.

Fixpoint bw_put_loop (fuel : nat) (bw : BitWriter) (v bits : Z) : BitWriter :=
  match fuel with
  | O => bw
  | S f =>
      if 0 <? bits then
        let take := if bits <? 57 then bits else 57 in
        let chunk := Z.land v (u64 (Z.shiftl 1 take) - 1) in
        let acc := Z.lor (bw_cur bw) (u64 (Z.shiftl chunk (bw_nbits bw))) in
        let have := bw_nbits bw + take in
        let '(buf, acc, have) := bw_drain (Z.to_nat have) (bw_buf bw) acc have in
        bw_put_loop f (mkBW buf (u8 (Z.land acc 255)) have) (Z.shiftr v take) (bits - take)
      else bw
  end.

(** Every round takes at least one bit, so [bits] rounds are enough. *)
Definition bw_put (bw : BitWriter) (v bits : Z) : BitWriter :=
  if bits <=? 0 then bw
  else
    let v := if bits <? 64 then Z.land v (u64 (Z.shiftl 1 bits) - 1) else v in
    bw_put_loop (Z.to_nat bits) bw v bits.

Definition bw_flush (bw : BitWriter) : BitWriter :=
  if 0 <? bw_nbits bw then mkBW (bw_buf bw ++ [bw_cur bw]) 0 0 else bw.

(** The per-bit reference writer. *)
Fixpoint ref_bw_put_loop (n : nat) (bw : BitWriter) (v i : Z) : BitWriter :=
  match n with
  | O => bw
  | S n' =>
      let cur := if Z.land (Z.shiftr v i) 1 =? 0 then bw_cur bw
                 else Z.lor (bw_cur bw) (u8 (Z.shiftl 1 (bw_nbits bw))) in
      let nbits := bw_nbits bw + 1 in
      let bw' := if nbits =? 8 then mkBW (bw_buf bw ++ [cur]) 0 0
                 else mkBW (bw_buf bw) cur nbits in
      ref_bw_put_loop n' bw' v (i + 1)
  end.

Definition ref_bw_put (bw : BitWriter) (v bits : Z) : BitWriter :=
  ref_bw_put_loop (Z.to_nat bits) bw v 0.

(** ** The reader *)

Record BitReader := mkBR { br_data : list Z; br_nbits : Z; br_bitpos : Z }.

Definition br_init (data : list Z) (nbytes : Z) : BitReader := mkBR data (nbytes * 8) 0.

Definition br_get (br : BitReader) (bits : Z) : res (Z * BitReader) :=
  if (bits <? 0) || (64 <? bits) then Err "bit field width out of range"
  else if br_nbits br <? u64 (br_bitpos br + bits)
  then Err "bit reader ran past encoded length"
  else
    v ← unpack_bits (br_data br) (br_bitpos br) bits;
    Ok (v, mkBR (br_data br) (br_nbits br) (u64 (br_bitpos br + bits))).

(** ** Zero counts within a window *)

Section ZeroCounts.
Context `{PgBitutils}.

Definition clz_in (x total : Z) : Z :=
  if x =? 0 then total else (total - 1) - pg_leftmost_one_pos64 x.

Definition ctz_in (x : Z) : Z :=
  if x =? 0 then 0 else pg_rightmost_one_pos64 x.
End ZeroCounts.

(** [while (n < total && ((x >> (total - 1 - n)) & 1) == 0) n++;] *)
Fixpoint ref_clz_loop (fuel : nat) (x total n : Z) : Z :=
  match fuel with
  | O => n
  | S f => if (n <? total) && (Z.land (Z.shiftr x (total - 1 - n)) 1 =? 0)
           then ref_clz_loop f x total (n + 1) else n
  end.
Definition ref_clz_in (x total : Z) : Z := ref_clz_loop (Z.to_nat total) x total 0.

(** [while (n < 64 && ((x >> n) & 1) == 0) n++;] *)
Fixpoint ref_ctz_loop (fuel : nat) (x n : Z) : Z :=
  match fuel with
  | O => n
  | S f => if (n <? 64) && (Z.land (Z.shiftr x n) 1 =? 0)
           then ref_ctz_loop f x (n + 1) else n
  end.
Definition ref_ctz_in (x : Z) : Z := ref_ctz_loop 64 x 0.

(** ** The writer's abstraction *)

Definition bw_total (bw : BitWriter) : Z := 8 * zlen (bw_buf bw) + bw_nbits bw.
Definition bw_val (bw : BitWriter) : Z :=
  le_uint (bw_buf bw) + bw_cur bw * 2 ^ (8 * zlen (bw_buf bw)).

Definition bw_wf (bw : BitWriter) : Prop :=
  bytes_ok (bw_buf bw) /\ 0 <= bw_nbits bw < 8 /\ 0 <= bw_cur bw < 2 ^ bw_nbits bw.

Lemma bw_init_wf : bw_wf bw_init /\ bw_total bw_init = 0 /\ bw_val bw_init = 0.
Proof. repeat split; simpl; try lia. constructor. Qed.

Lemma bw_total_nonneg bw : bw_wf bw -> 0 <= bw_total bw.
Proof. intros (_ & ? & _). unfold bw_total. pose proof (zlen_nonneg (bw_buf bw)). lia. Qed.

Lemma bw_val_bound bw : bw_wf bw -> 0 <= bw_val bw < 2 ^ bw_total bw.
Proof.
  intros (Hb & Hn & Hc). unfold bw_val, bw_total.
  pose proof (le_uint_bound _ Hb). pose proof (zlen_nonneg (bw_buf bw)).
  rewrite Z.pow_add_r by lia. nia.
Qed.

(** A well-formed writer is determined by its two numbers. *)
Lemma bw_ext bw bw' :
  bw_wf bw -> bw_wf bw' -> bw_total bw = bw_total bw' -> bw_val bw = bw_val bw' -> bw = bw'.
Proof.
  destruct bw as [b c n], bw' as [b' c' n']. unfold bw_wf, bw_total, bw_val. cbn.
  intros (Hb & Hn & Hc) (Hb' & Hn' & Hc') Ht Hv.
  assert (Hl : zlen b = zlen b') by lia. assert (n = n') as -> by lia.
  pose proof (le_uint_bound _ Hb). pose proof (le_uint_bound _ Hb'). rewrite Hl in *.
  pose proof (zlen_nonneg b'). pose proof (pow2_pos (8 * zlen b') ltac:(lia)).
  assert (c = c') as -> by nia.
  f_equal. apply le_uint_inj; try done; [unfold zlen in *; lia|lia].
Qed.

Lemma bw_flush_spec bw :
  bw_wf bw ->
  bytes_ok (bw_buf (bw_flush bw)) /\ zlen (bw_buf (bw_flush bw)) = (bw_total bw + 7) / 8 /\
  le_uint (bw_buf (bw_flush bw)) = bw_val bw.
Proof.
  destruct bw as [b c n]. unfold bw_wf, bw_total, bw_val, bw_flush. cbn.
  intros (Hb & Hn & Hc). pose proof (zlen_nonneg b).
  destruct (Z.ltb_spec 0 n); cbn.
  - assert (2 ^ n < 2 ^ 8) by (apply Z.pow_lt_mono_r; lia). repeat split.
    + apply Forall_app_2; [done|]. repeat constructor; lia.
    + rewrite zlen_app. change (zlen [c]) with 1.
      apply (Z.div_unique _ _ _ (n - 1)); lia.
    + rewrite le_uint_app. cbn [le_uint]. lia.
  - assert (n = 0) as -> by lia. assert (c = 0) as -> by (simpl in Hc; lia).
    repeat split; [done| |lia]. apply (Z.div_unique _ _ _ 7); lia.
Qed.

Lemma land_255 z : Z.land z 255 = z mod 2 ^ 8.
Proof. exact (land_ones_mod z 8 ltac:(lia)). Qed.

Lemma bw_drain_spec fuel buf acc have :
  bytes_ok buf -> 0 <= have -> (Z.to_nat have <= fuel)%nat -> 0 <= acc < 2 ^ have ->
  exists buf' acc' have',
    bw_drain fuel buf acc have = (buf', acc', have') /\ bytes_ok buf' /\
    0 <= have' < 8 /\ 0 <= acc' < 2 ^ have' /\
    8 * zlen buf' + have' = 8 * zlen buf + have /\
    le_uint buf' + acc' * 2 ^ (8 * zlen buf') = le_uint buf + acc * 2 ^ (8 * zlen buf).
Proof.
  revert buf acc have. induction fuel as [|f IH]; intros buf acc have Hb Hh Hf Ha.
  - assert (have = 0) as -> by lia. simpl. exists buf, acc, 0. repeat split; try done; lia.
  - cbn [bw_drain]. destruct (Z.leb_spec 8 have).
    + rewrite land_255, Z.shiftr_div_pow2 by lia.
      pose proof (mod_pow2_bound acc 8 ltac:(lia)). pose proof (zlen_nonneg buf).
      assert (Ha' : 0 <= acc / 2 ^ 8 < 2 ^ (have - 8)).
      { split; [apply Z.div_pos; lia|]. apply Z.div_lt_upper_bound; [lia|].
        rewrite <- Z.pow_add_r by lia. replace (8 + (have - 8)) with have by lia. lia. }
      destruct (IH (buf ++ [acc mod 2 ^ 8]) (acc / 2 ^ 8) (have - 8))
        as (b' & a' & h' & -> & Hb' & Hh' & Ha'' & Hlen & Hval); try done; try lia.
      { apply Forall_app_2; [done|]. repeat constructor; lia. }
      rewrite zlen_app in Hlen, Hval. change (zlen [acc mod 2 ^ 8]) with 1 in *.
      exists b', a', h'. repeat split; try done; try lia.
      rewrite Hval, le_uint_app. cbn [le_uint].
      replace (8 * (zlen buf + 1)) with (8 * zlen buf + 8) by lia.
      rewrite Z.pow_add_r by lia.
      rewrite (Z.div_mod acc (2 ^ 8)) at 3 by lia. ring.
    + exists buf, acc, have. repeat split; try done; lia.
Qed.

(** One round appends the low [take] bits of [v]. *)
Lemma bw_put_loop_spec fuel bw v bits :
  bw_wf bw -> 0 <= bits <= 64 -> (Z.to_nat bits <= fuel)%nat -> 0 <= v < 2 ^ bits ->
  bw_wf (bw_put_loop fuel bw v bits) /\
  bw_total (bw_put_loop fuel bw v bits) = bw_total bw + bits /\
  bw_val (bw_put_loop fuel bw v bits) = bw_val bw + v * 2 ^ bw_total bw.
Proof.
  revert bw v bits. induction fuel as [|f IH]; intros bw v bits Hwf Hbits Hf Hv.
  { assert (bits = 0) as -> by lia. assert (v = 0) as -> by (simpl in Hv; lia).
    simpl. repeat split; try apply Hwf; lia. }
  cbn [bw_put_loop]. destruct (Z.ltb_spec 0 bits).
  2:{ assert (bits = 0) as -> by lia. assert (v = 0) as -> by (simpl in Hv; lia).
      repeat split; try apply Hwf; lia. }
  destruct bw as [b c n]. pose proof Hwf as (Hb & Hn & Hc). cbn in Hb, Hn, Hc. cbn [bw_cur bw_nbits bw_buf].
  set (t := if bits <? 57 then bits else 57).
  assert (Ht : 0 < t <= bits /\ t <= 57) by (unfold t; destruct (Z.ltb_spec bits 57); lia).
  clearbody t.
  assert (0 < 2 ^ t < 2 ^ 64) by (split; [apply pow2_pos|apply Z.pow_lt_mono_r]; lia).
  rewrite Z.shiftl_1_l, (u64_small (2 ^ t)), land_ones_mod by lia.
  set (ch := v mod 2 ^ t). pose proof (mod_pow2_bound v t ltac:(lia)) as Hch. fold ch in Hch.
  pose proof (shiftl_bound ch t n ltac:(lia) ltac:(lia) Hch) as Hsh.
  assert (2 ^ (t + n) <= 2 ^ 64) by (apply Z.pow_le_mono_r; lia).
  rewrite (u64_small (Z.shiftl ch n)) by lia. rewrite Z.shiftl_mul_pow2 in * by lia.
  rewrite lor_add by lia.
  destruct (bw_drain_spec (Z.to_nat (n + t)) b (c + ch * 2 ^ n) (n + t))
    as (b' & a' & h' & -> & Hb' & Hh' & Ha' & Hlen & Hval); try done; try lia.
  { rewrite Z.pow_add_r by lia. nia. }
  assert (2 ^ h' <= 2 ^ 8) by (apply Z.pow_le_mono_r; lia).
  unfold u8. rewrite land_255, !(Z.mod_small a') by lia.
  destruct (IH (mkBW b' a' h') (Z.shiftr v t) (bits - t)) as (Hwf' & Htot & Hvl); try lia.
  { repeat split; cbn; try done; lia. }
  { rewrite Z.shiftr_div_pow2 by lia. split; [apply Z.div_pos; lia|].
    apply Z.div_lt_upper_bound; [lia|]. rewrite <- Z.pow_add_r by lia.
    replace (t + (bits - t)) with bits by lia. lia. }
  split; [done|]. rewrite Htot, Hvl. unfold bw_total, bw_val in *. cbn [bw_buf bw_cur bw_nbits] in *.
  split; [lia|]. rewrite Hlen, Hval, Z.shiftr_div_pow2 by lia. pose proof (zlen_nonneg b).
  rewrite !Z.pow_add_r by lia.
  rewrite (Z.div_mod v (2 ^ t)) at 2 by lia. fold ch. ring.
Qed.

(** [bw_put] appends the low [bits] bits of [v] after the bits already there. *)
Lemma bw_put_spec bw v bits :
  bw_wf bw -> 0 <= v < 2 ^ 64 -> 0 <= bits <= 64 ->
  bw_wf (bw_put bw v bits) /\ bw_total (bw_put bw v bits) = bw_total bw + bits /\
  bw_val (bw_put bw v bits) = bw_val bw + (v mod 2 ^ bits) * 2 ^ bw_total bw.
Proof.
  intros Hwf Hv Hbits. unfold bw_put. destruct (Z.leb_spec bits 0).
  { assert (bits = 0) as -> by lia. rewrite Z.pow_0_r, Z.mod_1_r.
    repeat split; try apply Hwf; lia. }
  assert (Hm : (if bits <? 64 then Z.land v (u64 (Z.shiftl 1 bits) - 1) else v) = v mod 2 ^ bits).
  { destruct (Z.ltb_spec bits 64).
    - assert (0 <= 2 ^ bits < 2 ^ 64)
        by (split; [apply Z.pow_nonneg; lia|apply Z.pow_lt_mono_r; lia]).
      rewrite Z.shiftl_1_l, u64_small, land_ones_mod by lia. done.
    - assert (bits = 64) as -> by lia. by rewrite Z.mod_small. }
  cbv zeta. rewrite Hm. apply bw_put_loop_spec; try done.
  apply mod_pow2_bound. lia.
Qed.

Lemma ref_bw_put_loop_spec n bw v i :
  bw_wf bw -> 0 <= i ->
  bw_wf (ref_bw_put_loop n bw v i) /\
  bw_total (ref_bw_put_loop n bw v i) = bw_total bw + Z.of_nat n /\
  bw_val (ref_bw_put_loop n bw v i)
  = bw_val bw + (v / 2 ^ i) mod 2 ^ Z.of_nat n * 2 ^ bw_total bw.
Proof.
  revert bw i. induction n as [|n IH]; intros bw i Hwf Hi.
  { simpl. rewrite Z.mod_1_r. repeat split; try apply Hwf; lia. }
  cbn [ref_bw_put_loop]. rewrite shiftr_land_1 by done.
  destruct bw as [b c k]. pose proof Hwf as (Hb & Hk & Hc). cbn in Hb, Hk, Hc.
  cbn [bw_cur bw_nbits bw_buf].
  set (bit := Z.b2z (Z.testbit v i)).
  set (c' := if negb (Z.testbit v i) then c else Z.lor c (u8 (Z.shiftl 1 k))).
  assert (Hc' : c' = c + bit * 2 ^ k).
  { unfold c', bit. destruct (Z.testbit v i); cbn [negb Z.b2z]; [|lia].
    assert (2 ^ k < 2 ^ 8) by (apply Z.pow_lt_mono_r; lia).
    rewrite Z.shiftl_1_l. unfold u8. rewrite Z.mod_small by (pose proof (pow2_pos k); lia).
    rewrite <- (Z.mul_1_l (2 ^ k)) at 1. apply lor_add; lia. }
  clearbody c'. subst c'.
  assert (Hbit : 0 <= bit <= 1) by (unfold bit; destruct (Z.testbit v i); simpl; lia).
  set (bw' := if k + 1 =? 8 then _ else _).
  assert (Hbw : bw_wf bw' /\ bw_total bw' = bw_total (mkBW b c k) + 1 /\
      bw_val bw' = bw_val (mkBW b c k) + bit * 2 ^ bw_total (mkBW b c k)).
  { unfold bw', bw_wf, bw_total, bw_val. pose proof (zlen_nonneg b).
    destruct (Z.eqb_spec (k + 1) 8) as [Hk8|Hk8]; cbn.
    - assert (k = 7) as -> by lia. change (2 ^ 7) with 128 in *. repeat split; try lia.
      + apply Forall_app_2; [done|]. repeat constructor; lia.
      + rewrite zlen_app. change (zlen [_]) with 1. lia.
      + rewrite le_uint_app. cbn [le_uint]. rewrite Z.pow_add_r by lia.
        change (2 ^ 7) with 128. lia.
    - repeat split; try done; try lia.
      + rewrite Z.pow_add_r by lia. change (2 ^ 1) with 2. nia.
      + rewrite Z.pow_add_r by lia. ring. }
  clearbody bw'. destruct Hbw as (Hwf' & Ht' & Hv').
  destruct (IH bw' (i + 1) Hwf' ltac:(lia)) as (Hwf'' & Ht'' & Hv'').
  split; [done|]. rewrite Ht'', Hv'', Ht', Hv'. split; [lia|].
  set (T := bw_total (mkBW b c k)) in *.
  assert (0 <= T) by (apply bw_total_nonneg; done).
  rewrite Nat2Z.inj_succ, !Z.pow_add_r, Z.pow_succ_r by lia.
  rewrite <- Z.div_div by (try apply pow2_pos; lia).
  change (2 ^ 1) with 2.
  rewrite Z.rem_mul_r by (pose proof (pow2_pos (Z.of_nat n)); lia).
  rewrite <- Z.bit0_mod, Z.div_pow2_bits, Z.add_0_l by lia. fold bit. ring.
Qed.

Lemma ref_bw_put_spec bw v bits :
  bw_wf bw -> 0 <= bits ->
  bw_wf (ref_bw_put bw v bits) /\ bw_total (ref_bw_put bw v bits) = bw_total bw + bits /\
  bw_val (ref_bw_put bw v bits) = bw_val bw + (v mod 2 ^ bits) * 2 ^ bw_total bw.
Proof.
  intros Hwf Hb. unfold ref_bw_put.
  destruct (ref_bw_put_loop_spec (Z.to_nat bits) bw v 0 Hwf ltac:(lia)) as (H1 & H2 & H3).
  rewrite Z2Nat.id in H2, H3 by done. rewrite Z.pow_0_r, Z.div_1_r in H3. done.
Qed.

(** ** The reader *)

Definition br_wf (br : BitReader) : Prop :=
  bytes_ok (br_data br) /\ br_nbits br = 8 * zlen (br_data br) /\
  zlen (br_data br) < 2 ^ 32 /\ 0 <= br_bitpos br <= br_nbits br.

Lemma br_init_wf data :
  bytes_ok data -> zlen data < 2 ^ 32 -> br_wf (br_init data (zlen data)).
Proof.
  intros. unfold br_wf, br_init. cbn. pose proof (zlen_nonneg data).
  repeat split; try done; lia.
Qed.

Lemma br_get_Ok br bits :
  br_wf br -> 0 <= bits <= 64 -> br_bitpos br + bits <= br_nbits br ->
  br_get br bits = Ok (field (le_uint (br_data br)) (br_bitpos br) bits,
    mkBR (br_data br) (br_nbits br) (br_bitpos br + bits)).
Proof.
  intros (Hb & Hn & H32 & Hp) Hbits Hfit. unfold br_get.
  destruct (Z.ltb_spec bits 0); [lia|]. destruct (Z.ltb_spec 64 bits); [lia|]. cbn [orb].
  rewrite u64_small by lia. destruct (Z.ltb_spec (br_nbits br) (br_bitpos br + bits)); [lia|].
  rewrite unpack_bits_spec by (done || lia). done.
Qed.

Lemma br_get_safe br bits :
  br_wf br ->
  safe (fun r => br_wf r.2 /\ 0 <= bits <= 64 /\ br_data r.2 = br_data br /\
      br_nbits r.2 = br_nbits br /\ br_bitpos r.2 = br_bitpos br + bits /\
      r.1 = field (le_uint (br_data br)) (br_bitpos br) bits) (br_get br bits).
Proof.
  intros Hwf. pose proof Hwf as (Hb & Hn & H32 & Hp).
  destruct (decide (0 <= bits <= 64)) as [Hbits|Hbits].
  - destruct (decide (br_bitpos br + bits <= br_nbits br)) as [Hf|Hf].
    + rewrite br_get_Ok by done. cbn. repeat split; cbn; try done; lia.
    + unfold br_get. destruct (Z.ltb_spec bits 0); [lia|].
      destruct (Z.ltb_spec 64 bits); [lia|]. cbn [orb].
      rewrite u64_small by lia.
      by destruct (Z.ltb_spec (br_nbits br) (br_bitpos br + bits)); [|lia].
  - unfold br_get. destruct (Z.ltb_spec bits 0); [done|].
    destruct (Z.ltb_spec 64 bits); [done|lia].
Qed.

(** ** Zero counts *)

Lemma ref_clz_loop_spec fuel x total p n :
  0 <= p < total -> Z.testbit x p = true ->
  (forall j, p < j < total -> Z.testbit x j = false) ->
  0 <= n <= total - 1 - p -> total - n <= Z.of_nat fuel ->
  ref_clz_loop fuel x total n = total - 1 - p.
Proof.
  intros Hp Hset Hclr. revert n. induction fuel as [|f IH]; intros n Hn Hf; [lia|].
  cbn [ref_clz_loop]. rewrite shiftr_land_1 by lia.
  destruct (Z.ltb_spec n total); [|lia]. cbn [andb].
  destruct (decide (n = total - 1 - p)) as [->|Hne].
  - replace (total - 1 - (total - 1 - p)) with p by lia. by rewrite Hset.
  - rewrite Hclr by lia. cbn [negb]. apply IH; lia.
Qed.

Lemma ref_clz_zero fuel total n :
  0 <= n <= total -> total - n <= Z.of_nat fuel -> ref_clz_loop fuel 0 total n = total.
Proof.
  revert n. induction fuel as [|f IH]; intros n Hn Hf; cbn [ref_clz_loop]; [lia|].
  destruct (Z.ltb_spec n total); cbn [andb]; [|lia].
  rewrite Z.shiftr_0_l, Z.land_0_l. cbn. apply IH; lia.
Qed.

Lemma ref_ctz_loop_spec fuel x p n :
  0 <= p < 64 -> Z.testbit x p = true -> (forall j, j < p -> Z.testbit x j = false) ->
  0 <= n <= p -> 64 - n <= Z.of_nat fuel -> ref_ctz_loop fuel x n = p.
Proof.
  intros Hp Hset Hclr. revert n. induction fuel as [|f IH]; intros n Hn Hf; [lia|].
  cbn [ref_ctz_loop]. rewrite shiftr_land_1 by lia.
  destruct (Z.ltb_spec n 64); [|lia]. cbn [andb].
  destruct (decide (n = p)) as [->|Hne].
  - by rewrite Hset.
  - rewrite Hclr by lia. cbn [negb]. apply IH; lia.
Qed.

(** The significant window of a non-zero value: the bits between its leading
    and trailing zeros. *)
Lemma window `{PgBitutils} x total :
  0 < x < 2 ^ total -> 0 < total <= 64 ->
  let lz := clz_in x total in
  let tz := ctz_in x in
  0 <= lz /\ 0 <= tz /\ 1 <= total - lz - tz /\
  x = Z.shiftr x tz * 2 ^ tz /\ 0 <= Z.shiftr x tz < 2 ^ (total - lz - tz).
Proof.
  intros Hx Ht. assert (2 ^ total <= 2 ^ 64) by (apply Z.pow_le_mono_r; lia).
  unfold clz_in, ctz_in. destruct (Z.eqb_spec x 0); [lia|]. cbv zeta.
  destruct (pg_leftmost_one_pos64_spec x) as (Hl & Hl1 & Hl2); [lia|].
  destruct (pg_rightmost_one_pos64_spec x) as (Hr & Hr1 & Hr2); [lia|].
  set (L := pg_leftmost_one_pos64 x) in *. set (R := pg_rightmost_one_pos64 x) in *.
  assert (HLt : L < total).
  { destruct (Z.ltb_spec L total); [done|].
    rewrite (testbit_small x total) in Hl1 by lia. done. }
  assert (HRL : R <= L).
  { destruct (Z.leb_spec R L); [done|]. rewrite Hl2 in Hr1 by lia. done. }
  assert (Hxl : 0 <= x < 2 ^ (L + 1)).
  { split; [lia|]. replace x with (x mod 2 ^ (L + 1)); [apply mod_pow2_bound; lia|].
    apply Z.bits_inj'; intros i Hi. autorewrite with zbits.
    destruct (Z.ltb_spec i (L + 1)); [done|]. by rewrite Hl2 by lia. }
  repeat split; try lia.
  - apply Z.bits_inj'; intros i Hi. autorewrite with zbits.
    destruct (Z.ltb_spec i R).
    + rewrite Hr2 by lia. by destruct (Z.leb_spec 0 (i - R)); [lia|].
    + destruct (Z.leb_spec 0 (i - R)); [|lia]. simpl. f_equal. lia.
  - rewrite Z.shiftr_div_pow2 by lia. apply Z.div_pos; [lia|]. apply pow2_pos. lia.
  - rewrite Z.shiftr_div_pow2 by lia. apply Z.div_lt_upper_bound; [apply pow2_pos; lia|].
    rewrite <- Z.pow_add_r by lia. replace (R + (total - (total - 1 - L) - R)) with (L + 1) by lia.
    lia.
Qed.

(** ** Theorems *)

(** The batched bit writer, which merges up to 57 bits at a time into a
    64-bit accumulator, leaves exactly the writer state (bytes emitted, carried
    bits and their count) that the per-bit reference writer leaves, from any
    well-formed state and for any field of up to 64 bits. *)
Theorem bw_put_matches_reference (bw : BitWriter) (v bits : Z) :
  bw_wf bw -> 0 <= v < 2 ^ 64 -> 0 <= bits <= 64 ->
  bw_wf (bw_put bw v bits) /\ bw_put bw v bits = ref_bw_put bw v bits.
Proof.
  intros Hwf Hv Hb.
  destruct (bw_put_spec bw v bits) as (H1 & H2 & H3); try done.
  destruct (ref_bw_put_spec bw v bits) as (H4 & H5 & H6); try done; [lia|].
  split; [done|]. apply bw_ext; try done; [by rewrite H2, H5|by rewrite H3, H6].
Qed.

(** The bit-scan based zero counts agree with the reference loops: [clz_in]
    on every value of the window, zero included, and [ctz_in] on every non-zero
    value, with the documented answer 0 for zero. *)
Theorem zero_counts_match_reference `{PgBitutils} (x total : Z) :
  0 < total <= 64 -> 0 <= x < 2 ^ total ->
  clz_in x total = ref_clz_in x total /\
  ctz_in x = (if x =? 0 then 0 else ref_ctz_in x).
Proof.
  intros Ht Hx. assert (2 ^ total <= 2 ^ 64) by (apply Z.pow_le_mono_r; lia).
  unfold clz_in, ctz_in, ref_clz_in, ref_ctz_in. destruct (Z.eqb_spec x 0) as [->|Hx0].
  { split; [|done]. rewrite ref_clz_zero; lia. }
  destruct (pg_leftmost_one_pos64_spec x) as (Hl & Hl1 & Hl2); [lia|].
  destruct (pg_rightmost_one_pos64_spec x) as (Hr & Hr1 & Hr2); [lia|].
  assert (HLt : pg_leftmost_one_pos64 x < total).
  { destruct (Z.ltb_spec (pg_leftmost_one_pos64 x) total); [done|].
    rewrite (testbit_small x total) in Hl1 by lia. done. }
  split.
  - symmetry. apply ref_clz_loop_spec; try done; try lia. intros j Hj. apply Hl2. lia.
  - symmetry. apply ref_ctz_loop_spec; try done; lia.
Qed.

(** An implementation of the bit scans, so that closed examples evaluate. *)
Program Definition pg_bitutils_scan : PgBitutils := {|
  pg_leftmost_one_pos64 := Z.log2;
  pg_rightmost_one_pos64 := ref_ctz_in
|}.
Next Obligation.
  intros x Hx. pose proof (Z.log2_nonneg x). split; [split; [lia|]|split].
  - apply Z.log2_lt_pow2; lia.
  - apply Z.bit_log2. lia.
  - intros j Hj. apply Z.bits_above_log2; lia.
Qed.
Next Obligation.
  intros x Hx.
  assert (Hex : exists p, 0 <= p < 64 /\ Z.testbit x p = true /\
    forall j, j < p -> Z.testbit x j = false).
  { pose proof (Z.log2_nonneg x) as H0.
    assert (Hbnd : Z.log2 x < 64) by (apply Z.log2_lt_pow2; lia).
    pose proof (Z.bit_log2 x ltac:(lia)) as Hset.
    revert Hbnd Hset. pattern (Z.log2 x). apply Zlt_0_ind; [|done].
    intros p IH Hp Hbnd Hset.
    destruct (decide (Forall (fun j => Z.testbit x j = false) (seqZ 0 p))) as [Hall|Hnot].
    - exists p. repeat split; try done. intros j Hj.
      destruct (Z.ltb_spec j 0); [by apply Z.testbit_neg_r|].
      rewrite Forall_forall in Hall. apply Hall, list_elem_of_In, elem_of_seqZ. lia.
    - apply not_Forall_Exists in Hnot; [|apply _].
      apply Exists_exists in Hnot as (j & Hj & Hne).
      apply list_elem_of_In, elem_of_seqZ in Hj.
      apply (IH j); try lia. by destruct (Z.testbit x j) eqn:?. }
  destruct Hex as (p & Hp & Hset & Hclr).
  assert (Heq : ref_ctz_in x = p)
    by (unfold ref_ctz_in; apply ref_ctz_loop_spec; try done; lia).
  by rewrite Heq.
Qed.

Lemma bw_put_matches_reference_witness :
  bw_wf (bw_put bw_init 300 9) /\ bw_put bw_init 300 9 = ref_bw_put bw_init 300 9.
Proof.
  apply (bw_put_matches_reference bw_init 300 9); [|lia|lia].
  repeat split; try (vm_compute; congruence); constructor.
Defined.

Section Example_zero_counts_match_reference.
#[local] Existing Instance pg_bitutils_scan.

Lemma zero_counts_match_reference_witness :
clz_in 40 16 = ref_clz_in 40 16 /\ ctz_in 40 = (if 40 =? 0 then 0 else ref_ctz_in 40).
Proof. apply (zero_counts_match_reference 40 16); lia. Defined.
End Example_zero_counts_match_reference.
