(* ===== verification/Codec.v ===== *)
(** * What the value-stream codecs share

    The output cursor of a decoder, the fixed-width view of a raw value
    stream, and the two contracts every encoder/decoder pair is proved
    against: [codec_roundtrip] (encoding then decoding restores the stream)
    and [decode_safe] (any bytes at all decode to a full stream of
    initialised bytes or to an error, never to an out-of-bounds access). *)

From S2P Require Import Prelude BitPack.

(** ** The output cursor *)

(** [buf] has [total] bytes, the first of which are [pre]. *)
Definition filled (total : Z) (buf pre : list Z) : Prop :=
  zlen buf = total /\ exists rest, buf = pre ++ rest.

Lemma filled_init sz : 0 <= sz -> filled sz (replicate (Z.to_nat sz) poison) [].
Proof.
  intros. split; [unfold zlen; rewrite length_replicate; lia|].
  by exists (replicate (Z.to_nat sz) poison).
Qed.

Lemma filled_le total buf pre : filled total buf pre -> zlen pre <= total.
Proof.
  intros (Hl & r & ->). rewrite zlen_app in Hl. pose proof (zlen_nonneg r). lia.
Qed.

Lemma wr_filled total buf pre data :
  filled total buf pre -> zlen pre + zlen data <= total ->
  exists buf', wr buf (zlen pre) data = Ok buf' /\ filled total buf' (pre ++ data).
Proof.
  intros (Hl & r & ->) Hfit. pose proof (zlen_nonneg pre). pose proof (zlen_nonneg data).
  rewrite wr_Ok by lia. eexists. split; [done|].
  rewrite zlen_app in Hl.
  replace (Z.to_nat (zlen pre)) with (length pre) by (unfold zlen; lia).
  rewrite take_app_length.
  split.
  - rewrite !zlen_app. unfold zlen in *. rewrite length_drop, length_app. lia.
  - rewrite app_assoc. by eexists.
Qed.

Lemma filled_done total buf pre :
  filled total buf pre -> zlen pre = total -> buf = pre.
Proof.
  intros (Hl & r & ->) Hp. rewrite zlen_app in Hl.
  assert (r = []) as -> by (destruct r; [done|unfold zlen in *; simpl in *; lia]).
  apply app_nil_r.
Qed.

(** The buffer every decoder starts with, and what it hands back: the caller
    reads [rawLen] bytes of a buffer that is one byte long for an empty
    stream. *)
Definition alloc_raw (rawLen : Z) : res (list Z) :=
  MemoryContextAlloc (if 0 <? rawLen then rawLen else 1).

Lemma alloc_raw_Ok rawLen :
  0 <= rawLen <= MaxAllocSize ->
  exists buf sz, alloc_raw rawLen = Ok buf /\ filled sz buf [] /\ rawLen <= sz /\
    (0 < rawLen -> sz = rawLen).
Proof.
  intros Hr. unfold alloc_raw. destruct (Z.ltb_spec 0 rawLen).
  - rewrite MemoryContextAlloc_Ok by lia. do 2 eexists.
    split; [done|]. split; [by apply filled_init; lia|]. lia.
  - rewrite MemoryContextAlloc_Ok by (unfold MaxAllocSize; lia). do 2 eexists.
    split; [done|]. split; [by apply filled_init; lia|]. lia.
Qed.

Lemma alloc_raw_safe rawLen :
  0 <= rawLen ->
  safe (fun buf => exists sz, filled sz buf [] /\ rawLen <= sz <= Z.max 1 rawLen /\
    rawLen <= MaxAllocSize) (alloc_raw rawLen).
Proof.
  intros Hr. unfold alloc_raw, MemoryContextAlloc. destruct (Z.ltb_spec 0 rawLen).
  - destruct (Z.ltb_spec MaxAllocSize rawLen); simpl; [done|].
    exists rawLen. split; [by apply filled_init|]. lia.
  - simpl. exists 1. split; [by apply (filled_init 1)|]. unfold MaxAllocSize. lia.
Qed.

Lemma filled_take total buf pre n :
  filled total buf pre -> zlen pre = n -> take (Z.to_nat n) buf = pre.
Proof.
  intros (_ & r & ->) <-. unfold zlen. rewrite Nat2Z.id. apply take_app_length.
Qed.

(** [palloc(sz)] where only the size limit matters. *)
Definition palloc (sz : Z) : res unit :=
  if MaxAllocSize <? sz then Err "invalid memory alloc request size" else Ok tt.

Lemma palloc_Ok sz : sz <= MaxAllocSize -> palloc sz = Ok tt.
Proof. intros. unfold palloc. by destruct (Z.ltb_spec MaxAllocSize sz); [lia|]. Qed.

Lemma palloc_cases sz : palloc sz = Ok tt \/ exists m, palloc sz = Err m.
Proof. unfold palloc. destruct (MaxAllocSize <? sz); eauto. Qed.

(** ** Fixed-width streams *)

(** The values [load_uint(raw + i * w, w)] for [i < n]. *)
Definition load_vals (raw : list Z) (n w : Z) : list Z :=
  (fun i => load_uint raw (i * w) w) <$> seqZ 0 n.

(** The stream that stores each value in [w] bytes. *)
Definition store_vals (vals : list Z) (w : Z) : list Z :=
  concat (le_bytes (Z.to_nat w) <$> vals).

Lemma zlen_load_vals raw n w : 0 <= n -> zlen (load_vals raw n w) = n.
Proof. intros. unfold load_vals, zlen. rewrite length_fmap, length_seqZ. lia. Qed.

Lemma store_vals_snoc vals v w :
  store_vals (vals ++ [v]) w = store_vals vals w ++ le_bytes (Z.to_nat w) v.
Proof. unfold store_vals. rewrite fmap_app, concat_app. simpl. by rewrite app_nil_r. Qed.

Lemma zlen_store_vals vals w : 0 <= w -> zlen (store_vals vals w) = zlen vals * w.
Proof.
  intros Hw. induction vals as [|v r IH] using rev_ind; [done|].
  rewrite store_vals_snoc, !zlen_app, IH, zlen_le_bytes. change (zlen [v]) with 1. lia.
Qed.

Lemma store_vals_ok vals w : bytes_ok (store_vals vals w).
Proof.
  induction vals as [|v r IH] using rev_ind; [constructor|].
  rewrite store_vals_snoc. apply Forall_app_2; [done|apply le_bytes_ok].
Qed.

Lemma load_vals_snoc raw n w :
  0 <= n -> load_vals raw (n + 1) w = load_vals raw n w ++ [load_uint raw (n * w) w].
Proof. intros. unfold load_vals. rewrite seqZ_app by lia. by rewrite fmap_app. Qed.

(** Loading a stream's values and storing them back is the identity. *)
Lemma store_load_prefix raw n w :
  bytes_ok raw -> 0 < w -> 0 <= n -> n * w <= zlen raw ->
  store_vals (load_vals raw n w) w = take (Z.to_nat (n * w)) raw.
Proof.
  intros Hb Hw Hn. pattern n. apply natlike_ind; [| |done].
  - intros _. by rewrite Z.mul_0_l.
  - intros k Hk IH Hle. replace (Z.succ k) with (k + 1) in * by lia.
    rewrite load_vals_snoc, store_vals_snoc, IH by lia.
    replace (Z.to_nat ((k + 1) * w)) with (Z.to_nat (k * w) + Z.to_nat w)%nat by lia.
    unfold load_uint.
    replace (Z.to_nat w) with (length (take (Z.to_nat w) (drop (Z.to_nat (k * w)) raw))) at 1
      by (rewrite length_take, length_drop; unfold zlen in *; lia).
    rewrite le_bytes_le_uint by (by apply bytes_ok_sub).
    apply list_eq. intros i.
    destruct (decide (i < Z.to_nat (k * w))%nat).
    + rewrite lookup_app_l by (rewrite length_take; unfold zlen in *; lia).
      by rewrite !lookup_take_lt by lia.
    + rewrite lookup_app_r by (rewrite length_take; unfold zlen in *; lia).
      rewrite length_take.
      replace (Z.to_nat (k * w) `min` length raw)%nat with (Z.to_nat (k * w))
        by (unfold zlen in *; lia).
      destruct (decide (i < Z.to_nat (k * w) + Z.to_nat w)%nat).
      * rewrite !lookup_take_lt, lookup_drop by lia. f_equal. lia.
      * by rewrite !lookup_take_ge by lia.
Qed.

Lemma store_load_vals raw n w :
  bytes_ok raw -> 0 < w -> 0 <= n -> n * w = zlen raw ->
  store_vals (load_vals raw n w) w = raw.
Proof.
  intros. rewrite store_load_prefix by (done || lia). apply take_ge. unfold zlen in *. lia.
Qed.

Lemma load_uint_bound raw off w :
  bytes_ok raw -> 0 <= w -> 0 <= load_uint raw off w < 2 ^ (8 * w).
Proof.
  intros Hb Hw. unfold load_uint. pose proof (le_uint_bound _ (bytes_ok_sub raw (Z.to_nat off) (Z.to_nat w) Hb)) as H.
  split; [lia|]. eapply Z.lt_le_trans; [apply H|]. apply Z.pow_le_mono_r; [lia|].
  unfold zlen. rewrite length_take. lia.
Qed.

Lemma load_vals_bound raw n w :
  bytes_ok raw -> 0 <= w -> Forall (fun v => 0 <= v < 2 ^ (8 * w)) (load_vals raw n w).
Proof.
  intros Hb Hw. apply Forall_fmap, Forall_true. intros i. by apply load_uint_bound.
Qed.

(** A loop that stores value [i] of [vals] at offset [i * w]. *)
Lemma store_uint_filled total buf vals v w :
  0 <= w -> filled total buf (store_vals vals w) -> (zlen vals + 1) * w <= total ->
  exists buf', store_uint buf (zlen vals * w) v w = Ok buf' /\
    filled total buf' (store_vals (vals ++ [v]) w).
Proof.
  intros Hw Hf Hfit. unfold store_uint. rewrite store_vals_snoc.
  rewrite <- zlen_store_vals by done. apply wr_filled; [done|].
  rewrite zlen_store_vals, zlen_le_bytes by done. lia.
Qed.

(** ** The column a stream belongs to *)

(** The fields of PostgreSQL's [Form_pg_attribute] the codecs look at. *)
Record Form_pg_attribute := mkAtt { attbyval : bool; attlen : Z; atttypid : Z }.

(** PostgreSQL's fixed type identifiers of [float4] and [float8]. *)
Definition FLOAT4OID : Z := 700.
Definition FLOAT8OID : Z := 701.

Definition is_packable_int (att : Form_pg_attribute) : bool :=
  attbyval att && negb (atttypid att =? FLOAT4OID) && negb (atttypid att =? FLOAT8OID) &&
  ((attlen att =? 1) || (attlen att =? 2) || (attlen att =? 4) || (attlen att =? 8)).

Definition is_gorilla_float (att : Form_pg_attribute) : bool :=
  attbyval att && ((atttypid att =? FLOAT4OID) || (atttypid att =? FLOAT8OID)).

(** ** The contracts *)

(** The encoder runs to completion; when it produces an encoding, the encoding
    is bytes, is shorter than the stream, and decodes to the stream. *)
Definition codec_roundtrip (decode : list Z -> res (list Z)) (raw : list Z)
    (r : res (option (list Z))) : Prop :=
  exists o, r = Ok o /\
    match o with
    | None => True
    | Some enc => bytes_ok enc /\ zlen enc < zlen raw /\ decode enc = Ok raw
    end.

(** A decoder run on bytes it did not write: it ends with an error or with
    exactly [rawLen] initialised bytes. *)
Definition decode_safe (rawLen : Z) (r : res (list Z)) : Prop :=
  safe (fun raw => bytes_ok raw /\ zlen raw = rawLen) r.
