(* ===== verification/IntCodecs.v ===== *)
(** * Frame of reference, delta and delta-of-delta

    [encode_for]/[decode_for], [encode_delta]/[decode_delta] and
    [encode_dod]/[decode_dod] of [src/columnar_encoding.c]: a header, a base
    value, and a bit-packed body of offsets, zigzag first differences or
    zigzag second differences.  Differences are taken in [int64] with
    wrap-around, as the server's [-fwrapv] build takes them, so every stream
    of [w]-byte values round-trips, not only those whose differences fit. *)

From S2P Require Import Prelude BitPack Codec.

(** ** Definitions *)

Definition fold_min (v0 : Z) (l : list Z) : Z :=
  fold_left (fun m v => if v <? m then v else m) l v0.
Definition fold_max (l : list Z) : Z :=
  fold_left (fun m v => if m <? v then v else m) l 0.

(** [if ((uint32) buf.len >= rawLen) return false;] *)
Definition keep_if_smaller (buf : list Z) (rawLen : Z) : option (list Z) :=
  if rawLen <=? u32 (zlen buf) then None else Some buf.

Definition encode_for (raw : list Z) (rawLen w n : Z) : res (option (list Z)) :=
  _ ← palloc (8 * n);
  match load_vals raw n w with
  | [] => Oob
  | v0 :: rest =>
      let minv := fold_min v0 rest in
      let offs := (fun v => u64 (v - minv)) <$> (v0 :: rest) in
      let width := bits_needed (fold_max offs) in
      buf ← bitpack offs n width ([u8 w; u8 width] ++ le_bytes 8 minv);
      Ok (keep_if_smaller buf rawLen)
  end.

(** [w != 1 && w != 2 && w != 4 && w != 8] *)
Definition bad_width (w : Z) : bool :=
  negb (w =? 1) && negb (w =? 2) && negb (w =? 4) && negb (w =? 8).

Definition decode_for (enc : list Z) (n rawLen : Z) : res (list Z) :=
  raw ← alloc_raw rawLen;
  if zlen enc <? 10 then Err "FOR header truncated"
  else
    w ← rd1 enc 0;
    width ← rd1 enc 1;
    if bad_width w then Err "FOR element width invalid"
    else if negb (n * w =? rawLen) then Err "FOR raw length mismatch"
    else
      mb ← rd enc 2 8;
      let minv := le_uint mb in
      _ ← palloc (8 * (if 0 <? n then n else 1));
      vals ← bitunpack (drop 10 enc) n width;
      raw ← forZ 0 n (fun i raw =>
        v ← rd1 vals i; store_uint raw (i * w) (u64 (v + minv)) w) raw;
      Ok (take (Z.to_nat rawLen) raw).

(** [zigzag((int64) vals[i] - (int64) vals[i - 1])] for [i >= 1] *)
Fixpoint deltas_of (prev : Z) (l : list Z) : list Z :=
  match l with
  | [] => []
  | v :: r => zigzag (s64 (s64 v - s64 prev)) :: deltas_of v r
  end.

Definition encode_delta (raw : list Z) (rawLen w n : Z) : res (option (list Z)) :=
  _ ← palloc (8 * n);
  match load_vals raw n w with
  | [] => Oob
  | base :: rest =>
      _ ← palloc (8 * (if 1 <? n then n - 1 else 1));
      let deltas := deltas_of base rest in
      let width := bits_needed (fold_max deltas) in
      let buf := [u8 w; u8 width] ++ le_bytes 8 base in
      buf ← (if 1 <? n then bitpack deltas (n - 1) width buf else Ok buf);
      Ok (keep_if_smaller buf rawLen)
  end.

Definition decode_delta (enc : list Z) (n rawLen : Z) : res (list Z) :=
  raw ← alloc_raw rawLen;
  if zlen enc <? 10 then Err "DELTA header truncated"
  else
    w ← rd1 enc 0;
    width ← rd1 enc 1;
    if bad_width w then Err "DELTA element width invalid"
    else if negb (n * w =? rawLen) then Err "DELTA raw length mismatch"
    else
      bb ← rd enc 2 8;
      let base := le_uint bb in
      _ ← palloc (8 * (if 1 <? n then n - 1 else 1));
      deltas ← (if 1 <? n then bitunpack (drop 10 enc) (n - 1) width else Ok []);
      raw ← (if 0 <? n then store_uint raw 0 base w else Ok raw);
      st ← forZ 1 n (fun i st =>
        let '(raw, cur) := st in
        d ← rd1 deltas (i - 1);
        let cur := u64 (s64 cur + unzigzag d) in
        raw ← store_uint raw (i * w) cur w;
        Ok (raw, cur)) (raw, base);
      Ok (take (Z.to_nat rawLen) st.1).

(** [zigzag(d[i] - d[i - 1])] for [i >= 2], [d[i] = vals[i] - vals[i - 1]] *)
Fixpoint dods_of (p2 p1 : Z) (l : list Z) : list Z :=
  match l with
  | [] => []
  | v :: r =>
      zigzag (s64 (s64 (s64 v - s64 p1) - s64 (s64 p1 - s64 p2))) :: dods_of p1 v r
  end.

Definition encode_dod (raw : list Z) (rawLen w n : Z) : res (option (list Z)) :=
  _ ← palloc (8 * n);
  match load_vals raw n w with
  | [] => Oob
  | base :: rest =>
      let firstDelta := match rest with v1 :: _ => s64 (s64 v1 - s64 base) | [] => 0 end in
      _ ← palloc (8 * (if 2 <? n then n - 2 else 1));
      let dods := match rest with v1 :: rest' => dods_of base v1 rest' | [] => [] end in
      let width := bits_needed (fold_max dods) in
      let buf := [u8 w; u8 width] ++ le_bytes 8 base ++ le_bytes 8 firstDelta in
      buf ← (if 2 <? n then bitpack dods (n - 2) width buf else Ok buf);
      Ok (keep_if_smaller buf rawLen)
  end.

Definition decode_dod (enc : list Z) (n rawLen : Z) : res (list Z) :=
  raw ← alloc_raw rawLen;
  if zlen enc <? 18 then Err "DOD header truncated"
  else
    w ← rd1 enc 0;
    width ← rd1 enc 1;
    if bad_width w then Err "DOD element width invalid"
    else if negb (n * w =? rawLen) then Err "DOD raw length mismatch"
    else
      bb ← rd enc 2 8;
      fb ← rd enc 10 8;
      let base := le_uint bb in
      let firstDelta := s64 (le_uint fb) in
      _ ← palloc (8 * (if 2 <? n then n - 2 else 1));
      dods ← (if 2 <? n then bitunpack (drop 18 enc) (n - 2) width else Ok []);
      raw ← (if 0 <? n then store_uint raw 0 base w else Ok raw);
      st ← forZ 1 n (fun i st =>
        let '(raw, (cur, delta)) := st in
        delta ← (if 2 <=? i then dd ← rd1 dods (i - 2); Ok (s64 (delta + unzigzag dd))
                 else Ok delta);
        let cur := u64 (s64 cur + delta) in
        raw ← store_uint raw (i * w) cur w;
        Ok (raw, (cur, delta))) (raw, (base, firstDelta));
      Ok (take (Z.to_nat rawLen) st.1).

(** ** Lemmas *)

Lemma fold_min_le l : forall v0, fold_min v0 l <= v0 /\ Forall (fun v => fold_min v0 l <= v) l.
Proof.
  unfold fold_min. induction l as [|x r IH]; intros v0; simpl; [split; [lia|constructor]|].
  destruct (IH (if x <? v0 then x else v0)) as [H1 H2].
  destruct (Z.ltb_spec x v0); split; try lia; constructor; try done; lia.
Qed.

Lemma fold_min_in l : forall v0, In (fold_min v0 l) (v0 :: l).
Proof.
  unfold fold_min. induction l as [|x r IH]; intros v0; simpl; [by left|].
  destruct (IH (if x <? v0 then x else v0)) as [H|H]; [|by right; right].
  rewrite <- H. destruct (x <? v0); [right; by left|by left].
Qed.

Lemma fold_max_ge l :
  Forall (fun v => 0 <= v < 2 ^ 64) l ->
  0 <= fold_max l < 2 ^ 64 /\ Forall (fun v => v <= fold_max l) l.
Proof.
  unfold fold_max. intros Hl.
  enough (H : forall m, 0 <= m < 2 ^ 64 ->
    m <= fold_left (fun m v => if m <? v then v else m) l m < 2 ^ 64 /\
    Forall (fun v => v <= fold_left (fun m v => if m <? v then v else m) l m) l).
  { destruct (H 0 ltac:(lia)). split; [lia|done]. }
  induction Hl as [|x r Hx Hr IH]; intros m Hm; simpl; [split; [lia|constructor]|].
  destruct (IH (if m <? x then x else m)) as [H1 H2]; [destruct (m <? x); lia|].
  destruct (Z.ltb_spec m x); split; try lia; constructor; try done; lia.
Qed.

(** Emitting packed values after a header, and reading them back whatever
    bytes follow. *)
Lemma pack_emit_rest zs hdr :
  Forall (fun v => 0 <= v < 2 ^ 64) zs -> bytes_ok hdr -> 8 * zlen zs <= MaxAllocSize ->
  let width := bits_needed (fold_max zs) in
  0 <= width <= 64 /\
  exists body, bitpack zs (zlen zs) width hdr = Ok (hdr ++ body) /\
    bytes_ok (hdr ++ body) /\ zlen body = (zlen zs * width + 7) / 8 /\
    zlen body <= MaxAllocSize /\
    forall rest, bytes_ok rest -> zlen (body ++ rest) < 2 ^ 32 ->
      bitunpack (body ++ rest) (zlen zs) width = Ok zs.
Proof.
  intros Hz Hh Hm width. destruct (fold_max_ge zs Hz) as [Hmx Hle].
  destruct (bits_needed_spec _ Hmx) as [Hw Hlt]. fold width in Hw, Hlt.
  split; [done|]. pose proof (zlen_nonneg zs).
  assert (Hsz : (zlen zs * width + 7) / 8 <= MaxAllocSize).
  { unfold MaxAllocSize in *. div_bounds (zlen zs * width + 7) 8. nia. }
  destruct (bitpack_spec zs (zlen zs) width hdr) as (body & Hp & HP); try done.
  { eapply Forall_weaken; [exact Hz|simpl; lia]. }
  exists body. pose proof HP as (Hb & Hl & _). split; [done|]. split; [by apply Forall_app_2|].
  split; [done|]. split; [by rewrite Hl|]. intros rest Hr Hlr.
  apply bitunpack_bitpack; try done.
  - unfold MaxAllocSize in Hm. lia.
  - apply Forall_forall. intros x Hx. rewrite Forall_forall in Hz, Hle.
    specialize (Hz x Hx). specialize (Hle x Hx). simpl in *. lia.
Qed.

Lemma pack_emit zs hdr :
  Forall (fun v => 0 <= v < 2 ^ 64) zs -> bytes_ok hdr -> 8 * zlen zs <= MaxAllocSize ->
  let width := bits_needed (fold_max zs) in
  0 <= width <= 64 /\
  exists body, bitpack zs (zlen zs) width hdr = Ok (hdr ++ body) /\
    bytes_ok (hdr ++ body) /\ zlen body = (zlen zs * width + 7) / 8 /\
    zlen body <= MaxAllocSize /\
    bitunpack body (zlen zs) width = Ok zs.
Proof.
  intros Hz Hh Hm width. destruct (pack_emit_rest zs hdr Hz Hh Hm) as (Hw & body & Hp & Hb & Hl & Hlm & Hun).
  split; [done|]. exists body. repeat split; try done.
  rewrite <- (app_nil_r body) at 1. apply Hun; [constructor|].
  rewrite app_nil_r. unfold MaxAllocSize in Hlm. lia.
Qed.

Lemma width_cases w : bad_width w = false -> w = 1 \/ w = 2 \/ w = 4 \/ w = 8.
Proof.
  unfold bad_width. intros H.
  destruct (Z.eqb_spec w 1), (Z.eqb_spec w 2), (Z.eqb_spec w 4), (Z.eqb_spec w 8);
    simpl in H; try discriminate; lia.
Qed.

Lemma u64_bound z : 0 <= u64 z < 2 ^ 64.
Proof. apply mod_pow2_bound. lia. Qed.

Lemma s64_range z : - 2 ^ 63 <= s64 z < 2 ^ 63.
Proof. unfold s64. pose proof (mod_pow2_bound (z + 2 ^ 63) 64). lia. Qed.

(** Congruence modulo [2^64] is what [u64] and [s64] preserve. *)
Lemma s64_eqm z : exists k, s64 z = z + k * 2 ^ 64.
Proof.
  unfold s64. exists (- ((z + 2 ^ 63) / 2 ^ 64)).
  pose proof (Z.div_mod (z + 2 ^ 63) (2 ^ 64) ltac:(lia)). lia.
Qed.

Lemma u64_eqm z k : u64 (z + k * 2 ^ 64) = u64 z.
Proof. unfold u64. by rewrite Z.mod_add by lia. Qed.

Lemma s64_eqm' z k : s64 (z + k * 2 ^ 64) = s64 z.
Proof.
  unfold s64. replace (z + k * 2 ^ 64 + 2 ^ 63) with (z + 2 ^ 63 + k * 2 ^ 64) by lia.
  by rewrite Z.mod_add by lia.
Qed.

(** A value is its predecessor plus the wrapped difference. *)
Lemma delta_restore a b :
  0 <= b < 2 ^ 64 -> u64 (s64 a + s64 (s64 b - s64 a)) = b.
Proof.
  intros Hb. destruct (s64_eqm a) as [i Hi], (s64_eqm b) as [j Hj].
  destruct (s64_eqm (s64 b - s64 a)) as [k Hk]. rewrite Hk, Hi, Hj.
  replace (a + i * 2 ^ 64 + (b + j * 2 ^ 64 - (a + i * 2 ^ 64) + k * 2 ^ 64))
    with (b + (j + k) * 2 ^ 64) by lia.
  rewrite u64_eqm. by apply u64_small.
Qed.

(** A difference is its predecessor plus the wrapped second difference. *)
Lemma dod_restore d d' : s64 (s64 d + s64 (s64 d' - s64 d)) = s64 d'.
Proof.
  destruct (s64_eqm d) as [i Hi], (s64_eqm (s64 d' - s64 d)) as [k Hk].
  destruct (s64_eqm d') as [j Hj]. rewrite Hk, Hi, Hj.
  replace (d + i * 2 ^ 64 + (d' + j * 2 ^ 64 - (d + i * 2 ^ 64) + k * 2 ^ 64))
    with (d' + (j + k) * 2 ^ 64) by lia.
  by rewrite s64_eqm', <- Hj.
Qed.

Lemma deltas_of_u64 p l : Forall (fun v => 0 <= v < 2 ^ 64) (deltas_of p l).
Proof.
  revert p. induction l as [|v r IH]; intros p; simpl; constructor; [|done].
  apply zigzag_range, s64_range.
Qed.

Lemma dods_of_u64 p q l : Forall (fun v => 0 <= v < 2 ^ 64) (dods_of p q l).
Proof.
  revert p q. induction l as [|v r IH]; intros p q; simpl; constructor; [|done].
  apply zigzag_range, s64_range.
Qed.

Lemma length_deltas_of p l : length (deltas_of p l) = length l.
Proof. revert p. induction l; intros; simpl; auto. Qed.
Lemma length_dods_of p q l : length (dods_of p q l) = length l.
Proof. revert p q. induction l; intros; simpl; auto. Qed.

Lemma nthZ_deltas p l (i : nat) :
  (i < length l)%nat ->
  nth i (deltas_of p l) 0 = zigzag (s64 (s64 (nth i l 0) - s64 (nth i (p :: l) 0))).
Proof.
  revert p i. induction l as [|v r IH]; intros p i Hi; [simpl in Hi; lia|].
  destruct i as [|i]; [done|]. simpl in Hi. simpl. rewrite IH by lia. done.
Qed.

Lemma nthZ_dods p q l (i : nat) :
  (i < length l)%nat ->
  nth i (dods_of p q l) 0
  = zigzag (s64 (s64 (s64 (nth i l 0) - s64 (nth i (q :: l) 0))
                 - s64 (s64 (nth i (q :: l) 0) - s64 (nth i (p :: q :: l) 0)))).
Proof.
  revert p q i. induction l as [|v r IH]; intros p q i Hi; [simpl in Hi; lia|].
  destruct i as [|i]; [done|]. simpl in Hi. simpl. rewrite IH by lia. done.
Qed.

(** ** Headers *)

Lemma hdr10 w width base body :
  byte_ok w -> byte_ok width -> 0 <= base < 2 ^ 64 ->
  let enc := ([u8 w; u8 width] ++ le_bytes 8 base) ++ body in
  zlen enc = 10 + zlen body /\ rd1 enc 0 = Ok w /\ rd1 enc 1 = Ok width /\
  rd enc 2 8 = Ok (le_bytes 8 base) /\ drop 10 enc = body.
Proof.
  intros Hw Hwd Hb enc. unfold byte_ok in *. pose proof (zlen_nonneg body).
  assert (Hz : zlen enc = 10 + zlen body).
  { unfold enc. rewrite !zlen_app, zlen_le_bytes. change (zlen [u8 w; u8 width]) with 2. lia. }
  split; [done|]. split; [|split; [|split]].
  - rewrite rd1_Ok by lia. change (nthZ enc 0) with (u8 w). f_equal. by apply Z.mod_small.
  - rewrite rd1_Ok by lia. change (nthZ enc 1) with (u8 width). f_equal. by apply Z.mod_small.
  - unfold enc. rewrite <- app_assoc. apply (rd_middle [u8 w; u8 width] (le_bytes 8 base) body).
  - done.
Qed.

Lemma hdr18 w width base fd body :
  byte_ok w -> byte_ok width -> 0 <= base < 2 ^ 64 ->
  let enc := ([u8 w; u8 width] ++ le_bytes 8 base ++ le_bytes 8 fd) ++ body in
  zlen enc = 18 + zlen body /\ rd1 enc 0 = Ok w /\ rd1 enc 1 = Ok width /\
  rd enc 2 8 = Ok (le_bytes 8 base) /\ rd enc 10 8 = Ok (le_bytes 8 fd) /\
  drop 18 enc = body.
Proof.
  intros Hw Hwd Hb enc. unfold byte_ok in *. pose proof (zlen_nonneg body).
  assert (Hz : zlen enc = 18 + zlen body).
  { unfold enc. rewrite !zlen_app, !zlen_le_bytes. change (zlen [u8 w; u8 width]) with 2. lia. }
  split; [done|]. split; [|split; [|split; [|split]]].
  - rewrite rd1_Ok by lia. change (nthZ enc 0) with (u8 w). f_equal. by apply Z.mod_small.
  - rewrite rd1_Ok by lia. change (nthZ enc 1) with (u8 width). f_equal. by apply Z.mod_small.
  - unfold enc. rewrite <- !app_assoc.
    apply (rd_middle [u8 w; u8 width] (le_bytes 8 base) (le_bytes 8 fd ++ body)).
  - unfold enc. rewrite <- !app_assoc, (app_assoc _ (le_bytes 8 base)).
    exact (rd_middle ([u8 w; u8 width] ++ le_bytes 8 base) (le_bytes 8 fd) body).
  - done.
Qed.

Lemma keep_if_smaller_spec buf rawLen :
  zlen buf < 2 ^ 32 ->
  keep_if_smaller buf rawLen = if rawLen <=? zlen buf then None else Some buf.
Proof.
  intros. unfold keep_if_smaller. rewrite u32_small; [done|].
  pose proof (zlen_nonneg buf). lia.
Qed.

(** The hypotheses under which the integer codecs are called: [n > 0] values
    of [w] bytes, few enough for [palloc(sizeof(uint64) * n)]. *)
Definition int_stream (raw : list Z) (w n : Z) : Prop :=
  bytes_ok raw /\ bad_width w = false /\ 0 < n /\ n * w = zlen raw /\ 8 * n <= MaxAllocSize.

Section IntStream.
Context (raw : list Z) (w n : Z) (Hs : int_stream raw w n).

Lemma int_stream_w : 1 <= w <= 8.
Proof using Hs. destruct Hs as (_ & Hw & _). apply width_cases in Hw. lia. Qed.

Lemma int_stream_alloc : 0 < zlen raw <= MaxAllocSize.
Proof using Hs.
  pose proof int_stream_w. destruct Hs as (_ & _ & Hn & <- & Hm). nia.
Qed.

Lemma int_stream_vals :
  Forall (fun v => 0 <= v < 2 ^ 64) (load_vals raw n w) /\
  zlen (load_vals raw n w) = n /\ store_vals (load_vals raw n w) w = raw.
Proof using Hs.
  pose proof int_stream_w. destruct Hs as (Hb & _ & Hn & Hl & _). split; [|split].
  - eapply Forall_weaken; [apply load_vals_bound; [done|lia]|].
    intros v Hv. simpl in Hv. assert (2 ^ (8 * w) <= 2 ^ 64) by (apply Z.pow_le_mono_r; lia).
    lia.
  - apply zlen_load_vals. lia.
  - apply store_load_vals; try done; lia.
Qed.

Lemma int_stream_split :
  exists v0 rest, load_vals raw n w = v0 :: rest /\ zlen rest = n - 1 /\
    0 <= v0 < 2 ^ 64 /\ Forall (fun v => 0 <= v < 2 ^ 64) rest.
Proof using Hs.
  destruct int_stream_vals as (Hf & Hl & _). destruct Hs as (_ & _ & Hn & _).
  destruct (load_vals raw n w) as [|v0 rest] eqn:E; [unfold zlen in Hl; simpl in Hl; lia|].
  exists v0, rest. inversion_clear Hf. repeat split; try done; try lia.
  unfold zlen in *. simpl in Hl. lia.
Qed.
End IntStream.

(** Storing value [i] of the stream after the first [i] of them. *)
Lemma store_next vals w i buf :
  0 <= w -> 0 <= i < zlen vals ->
  filled (zlen vals * w) buf (store_vals (take (Z.to_nat i) vals) w) ->
  exists buf', store_uint buf (i * w) (nthZ vals i) w = Ok buf' /\
    filled (zlen vals * w) buf' (store_vals (take (Z.to_nat (i + 1)) vals) w).
Proof.
  intros Hw Hi Hf.
  destruct (lookup_lt_is_Some_2 vals (Z.to_nat i)) as [v Hv]; [unfold zlen in *; lia|].
  assert (Hti : zlen (take (Z.to_nat i) vals) = i)
    by (unfold zlen in *; rewrite length_take; lia).
  destruct (store_uint_filled (zlen vals * w) buf (take (Z.to_nat i) vals) v w)
    as (b' & Hst & Hf'); try done; [rewrite Hti; nia|].
  rewrite Hti in Hst. rewrite (nthZ_lookup _ _ _ Hv). exists b'. split; [done|].
  replace (Z.to_nat (i + 1)) with (S (Z.to_nat i)) by lia.
  by rewrite (take_S_r _ _ _ Hv).
Qed.

Lemma filled_all vals w n buf :
  0 <= w -> n = zlen vals ->
  filled (zlen vals * w) buf (store_vals (take (Z.to_nat n) vals) w) -> buf = store_vals vals w.
Proof.
  intros Hw -> Hf. rewrite take_ge in Hf by (unfold zlen; lia).
  apply (filled_done _ _ _ Hf). by apply zlen_store_vals.
Qed.

(** The decoders' loop: when step [i] produces value [i], the buffer ends up
    holding the stream of the values. *)
Lemma decode_loop {S} (P : Z -> S -> Prop) (step : Z -> S -> res (Z * S)) (vals : list Z)
    (w lo : Z) (buf : list Z) (s : S) :
  0 <= w -> 0 <= lo <= zlen vals ->
  filled (zlen vals * w) buf (store_vals (take (Z.to_nat lo) vals) w) -> P lo s ->
  (forall i s, lo <= i < zlen vals -> P i s ->
     exists s', step i s = Ok (nthZ vals i, s') /\ P (i + 1) s') ->
  exists s',
    forZ lo (zlen vals) (fun i st =>
      r ← step i st.2; raw ← store_uint st.1 (i * w) r.1 w; Ok (raw, r.2)) (buf, s)
    = Ok (store_vals vals w, s').
Proof.
  intros Hw Hlo Hf HP Hstep.
  match goal with |- context [forZ lo ?h ?f ?a] =>
    destruct (forZ_Ok (fun i st => filled (zlen vals * w) st.1
        (store_vals (take (Z.to_nat i) vals) w) /\ P i st.2) f lo h a)
      as ([b' s'] & -> & Hf' & _) end; try done; try lia.
  - intros i [b st] Hi [Hfi HPi]. cbn [fst snd] in *.
    destruct (Hstep i st Hi HPi) as (st' & -> & HP'). cbn [mbind res_bind fst snd].
    destruct (store_next vals w i b) as (b' & -> & Hf'); [done|lia|done|].
    cbn [mbind res_bind]. eauto.
  - exists s'. by rewrite <- (filled_all vals w (zlen vals) b').
Qed.

Lemma decode_loop_simple (f : Z -> res Z) (vals : list Z) (w : Z) (buf : list Z) :
  0 <= w -> filled (zlen vals * w) buf [] ->
  (forall i, 0 <= i < zlen vals -> f i = Ok (nthZ vals i)) ->
  forZ 0 (zlen vals) (fun i raw => v ← f i; store_uint raw (i * w) v w) buf
  = Ok (store_vals vals w).
Proof.
  intros Hw Hf Hstep. pose proof (zlen_nonneg vals).
  match goal with |- context [forZ 0 ?h ?g ?a] =>
    destruct (forZ_Ok (fun i b => filled (zlen vals * w) b
        (store_vals (take (Z.to_nat i) vals) w)) g 0 h a) as (b' & -> & Hf') end; try done.
  - intros i b Hi Hfi. rewrite Hstep by done. cbn [mbind res_bind].
    by apply store_next.
  - by rewrite <- (filled_all vals w (zlen vals) b').
Qed.

(** ** FOR *)

Lemma alloc_raw_stream raw w n :
  int_stream raw w n ->
  exists buf, alloc_raw (zlen raw) = Ok buf /\ filled (n * w) buf [].
Proof.
  intros Hs. pose proof (int_stream_alloc _ _ _ Hs).
  destruct (alloc_raw_Ok (zlen raw)) as (buf & sz & -> & Hf & _ & Hsz); [lia|].
  rewrite Hsz in Hf by lia. exists buf. split; [done|].
  by destruct Hs as (_ & _ & _ & -> & _).
Qed.

(** Number of bytes [encode_for] emits before it compares with the raw size. *)
Definition for_size (raw : list Z) (w n : Z) : Z :=
  match load_vals raw n w with
  | [] => 0
  | v0 :: rest =>
      let offs := (fun v => u64 (v - fold_min v0 rest)) <$> (v0 :: rest) in
      10 + (n * bits_needed (fold_max offs) + 7) / 8
  end.

Lemma decode_for_body raw w n width minv body offs :
  int_stream raw w n -> 0 <= width <= 64 -> 0 <= minv < 2 ^ 64 ->
  offs = (fun v => u64 (v - minv)) <$> load_vals raw n w ->
  bitunpack body n width = Ok offs ->
  decode_for (([u8 w; u8 width] ++ le_bytes 8 minv) ++ body) n (zlen raw) = Ok raw.
Proof.
  intros Hs Hwd Hm -> Hun. pose proof (int_stream_w _ _ _ Hs) as Hw.
  destruct (int_stream_vals _ _ _ Hs) as (Hv & Hvl & Hst).
  pose proof Hs as (_ & Hbw & Hn & Hl & Hal). unfold decode_for.
  destruct (alloc_raw_stream _ _ _ Hs) as (buf & -> & Hf). cbn [mbind res_bind].
  destruct (hdr10 w width minv body) as (Hz & -> & -> & -> & ->);
    [unfold byte_ok; lia|unfold byte_ok; lia|done|].
  pose proof (zlen_nonneg body). rewrite Hz.
  destruct (Z.ltb_spec (10 + zlen body) 10); [lia|]. cbn [mbind res_bind].
  rewrite Hbw, Hl, Z.eqb_refl. cbn [negb].
  rewrite palloc_Ok, Hun by (destruct (Z.ltb_spec 0 n); lia). cbn [mbind res_bind].
  rewrite le_uint_le_bytes_id by (simpl; lia).
  set (vals := load_vals raw n w) in *. rewrite <- Hvl in Hf |- *.
  rewrite (forZ_ext _ _ _ (fun i raw =>
    v ← (o ← rd1 ((fun v => u64 (v - minv)) <$> vals) i; Ok (u64 (o + minv)));
    store_uint raw (i * w) v w))
    by (intros i st; by destruct (rd1 _ i)).
  assert (Hstep : forall i, 0 <= i < zlen vals ->
    (o ← rd1 ((fun v => u64 (v - minv)) <$> vals) i; Ok (u64 (o + minv))) = Ok (nthZ vals i)).
  { intros i Hi. destruct (lookup_lt_is_Some_2 vals (Z.to_nat i)) as [v Hlk];
      [unfold zlen in *; lia|].
    rewrite rd1_Ok by (unfold zlen in *; rewrite length_fmap; lia). cbn [mbind res_bind].
    rewrite (nthZ_lookup _ _ _ Hlk), (nthZ_lookup _ i (u64 (v - minv)))
      by (by rewrite list_lookup_fmap, Hlk). f_equal.
    unfold u64. rewrite Zplus_mod_idemp_l, Z.sub_add.
    apply Z.mod_small, (Forall_lookup_1 _ _ _ _ Hv Hlk). }
  rewrite (decode_loop_simple _ vals w buf ltac:(lia) Hf Hstep).
  cbn [mbind res_bind]. rewrite Hst. f_equal. apply take_ge. unfold zlen. lia.
Qed.

(** Shared by the three codecs: what [keep_if_smaller] leaves. *)
Lemma keep_roundtrip decode raw enc :
  bytes_ok enc -> zlen enc < 2 ^ 32 -> decode enc = Ok raw ->
  codec_roundtrip decode raw (Ok (keep_if_smaller enc (zlen raw))) /\
  (keep_if_smaller enc (zlen raw) = None <-> zlen raw <= zlen enc).
Proof.
  intros Hb Hl Hd. rewrite keep_if_smaller_spec by done.
  destruct (Z.leb_spec (zlen raw) (zlen enc)); split.
  - by eexists.
  - done.
  - eexists. split; [done|]. repeat split; try done; lia.
  - split; [done|lia].
Qed.

Lemma encode_for_spec raw w n :
  int_stream raw w n ->
  exists o, encode_for raw (zlen raw) w n = Ok o /\
    codec_roundtrip (fun enc => decode_for enc n (zlen raw)) raw (Ok o) /\
    (o = None <-> zlen raw <= for_size raw w n).
Proof.
  intros Hs. pose proof (int_stream_w _ _ _ Hs) as Hw.
  destruct (int_stream_split _ _ _ Hs) as (v0 & rest & Hlv & Hlr & Hv0 & Hvr).
  destruct (int_stream_vals _ _ _ Hs) as (Hv & Hvl & _).
  pose proof Hs as (_ & _ & Hn & _ & Hal).
  unfold encode_for, for_size. rewrite palloc_Ok by lia. cbn [mbind res_bind].
  rewrite Hlv in *. set (minv := fold_min v0 rest) in *.
  assert (Hmin : 0 <= minv < 2 ^ 64).
  { rewrite Forall_forall in Hv. apply (Hv minv), fold_min_in. }
  set (offs := (fun v => u64 (v - minv)) <$> v0 :: rest) in *.
  assert (Hol : zlen offs = n) by (unfold offs, zlen in *; rewrite length_fmap; lia).
  assert (Hou : Forall (fun v => 0 <= v < 2 ^ 64) offs)
    by (apply Forall_fmap, Forall_true; intros; apply u64_bound).
  set (width := bits_needed (fold_max offs)) in *.
  destruct (pack_emit offs ([u8 w; u8 width] ++ le_bytes 8 minv)) as (Hwd & body & Hp & Hb & Hlb & Hlm & Hun);
    [done| |lia|].
  { apply Forall_app_2; [repeat constructor; apply mod_pow2_bound; lia|apply le_bytes_ok]. }
  fold width in Hwd, Hp, Hlb, Hun. rewrite Hol in *. rewrite Hp. cbn [mbind res_bind].
  eexists. split; [done|].
  destruct (keep_roundtrip (fun enc => decode_for enc n (zlen raw)) raw
    (([u8 w; u8 width] ++ le_bytes 8 minv) ++ body)) as [Hr Hk].
  - done.
  - rewrite !zlen_app, zlen_le_bytes. change (zlen [_; _]) with 2. unfold MaxAllocSize in *. lia.
  - apply (decode_for_body raw w n width minv body offs); try done. by rewrite Hlv.
  - split; [done|]. rewrite Hk, !zlen_app, zlen_le_bytes, Hlb. change (zlen [_; _]) with 2.
    replace (2 + Z.of_nat 8) with 10 by lia. done.
Qed.

(** ** DELTA *)

(** Number of bytes [encode_delta] emits before it compares with the raw size. *)
Definition delta_size (raw : list Z) (w n : Z) : Z :=
  match load_vals raw n w with
  | [] => 0
  | base :: rest => 10 + ((n - 1) * bits_needed (fold_max (deltas_of base rest)) + 7) / 8
  end.

Lemma unzigzag_zigzag x : - 2 ^ 63 <= x < 2 ^ 63 -> unzigzag (zigzag x) = x.
Proof.
  intros Hx. rewrite unzigzag_arith by (by apply zigzag_range). rewrite zigzag_arith by done.
  destruct (Z.ltb_spec x 0).
  - replace (-2 * x - 1) with (1 + 2 * (- x - 1)) by lia.
    rewrite Z.odd_add_mul_2. change (Z.odd 1) with true. cbn iota.
    rewrite Z.mul_comm, Z.div_add by lia. change (1 / 2) with 0. lia.
  - rewrite Z.odd_mul, (Z.mul_comm 2 x), Z.div_mul by lia. done.
Qed.

Lemma nthZ_cons v l i : 1 <= i -> nthZ (v :: l) i = nthZ l (i - 1).
Proof.
  intros. unfold nthZ. replace (Z.to_nat i) with (S (Z.to_nat (i - 1))) by lia. done.
Qed.

Lemma nthZ_Forall P l i : Forall P l -> 0 <= i < zlen l -> P (nthZ l i).
Proof.
  intros Hl Hi. destruct (lookup_lt_is_Some_2 l (Z.to_nat i)) as [v Hv];
    [unfold zlen in *; lia|].
  rewrite (nthZ_lookup _ _ _ Hv). by apply (Forall_lookup_1 _ _ _ _ Hl Hv).
Qed.

(** The step that rebuilds value [i] from its predecessor. *)
Lemma delta_step base rest i :
  Forall (fun v => 0 <= v < 2 ^ 64) rest -> 1 <= i <= zlen rest ->
  rd1 (deltas_of base rest) (i - 1)
  = Ok (zigzag (s64 (s64 (nthZ (base :: rest) i) - s64 (nthZ (base :: rest) (i - 1))))) /\
  u64 (s64 (nthZ (base :: rest) (i - 1))
       + unzigzag (zigzag (s64 (s64 (nthZ (base :: rest) i) - s64 (nthZ (base :: rest) (i - 1))))))
  = nthZ (base :: rest) i.
Proof.
  intros Hr Hi. split.
  - rewrite rd1_Ok by (unfold zlen in *; rewrite length_deltas_of; lia). f_equal.
    rewrite (nthZ_cons base rest i) by lia. unfold nthZ.
    apply nthZ_deltas. unfold zlen in Hi. lia.
  - rewrite unzigzag_zigzag by apply s64_range. apply delta_restore.
    rewrite nthZ_cons by lia. apply (nthZ_Forall (fun v => 0 <= v < 2 ^ 64)); [done|lia].
Qed.

Lemma store_first v0 rest w buf :
  0 <= w -> filled (zlen (v0 :: rest) * w) buf [] ->
  exists buf', store_uint buf 0 v0 w = Ok buf' /\
    filled (zlen (v0 :: rest) * w) buf' (store_vals (take (Z.to_nat 1) (v0 :: rest)) w).
Proof.
  intros Hw Hf. apply (store_next (v0 :: rest) w 0); [done| |done].
  unfold zlen. simpl. lia.
Qed.

(** What the three decoders do with the first [store_uint] and the header. *)
Lemma stream_cons raw w n v0 rest :
  int_stream raw w n -> load_vals raw n w = v0 :: rest ->
  zlen (v0 :: rest) = n /\ zlen rest = n - 1 /\ store_vals (v0 :: rest) w = raw /\
  Forall (fun v => 0 <= v < 2 ^ 64) rest /\ 0 <= v0 < 2 ^ 64.
Proof.
  intros Hs Hlv. destruct (int_stream_vals _ _ _ Hs) as (Hv & Hvl & Hst).
  rewrite Hlv in *. inversion_clear Hv. repeat split; try done; try lia.
  unfold zlen in *. simpl in Hvl. lia.
Qed.

Lemma decode_delta_body raw w n width base rest body deltas :
  int_stream raw w n -> 0 <= width <= 64 -> load_vals raw n w = base :: rest ->
  deltas = deltas_of base rest ->
  (1 < n -> bitunpack body (n - 1) width = Ok deltas) ->
  decode_delta (([u8 w; u8 width] ++ le_bytes 8 base) ++ body) n (zlen raw) = Ok raw.
Proof.
  intros Hs Hwd Hlv -> Hun. pose proof (int_stream_w _ _ _ Hs) as Hw.
  destruct (stream_cons _ _ _ _ _ Hs Hlv) as (Hvl & Hrl & Hst & Hvr & Hv0).
  pose proof Hs as (_ & Hbw & Hn & Hl & Hal). unfold decode_delta.
  destruct (alloc_raw_stream _ _ _ Hs) as (buf & -> & Hf). cbn [mbind res_bind].
  destruct (hdr10 w width base body) as (Hz & -> & -> & -> & ->);
    [unfold byte_ok; lia|unfold byte_ok; lia|done|].
  pose proof (zlen_nonneg body). rewrite Hz.
  destruct (Z.ltb_spec (10 + zlen body) 10); [lia|]. cbn [mbind res_bind].
  rewrite Hbw, Hl, Z.eqb_refl. cbn [negb].
  rewrite palloc_Ok by (destruct (Z.ltb_spec 1 n); lia). cbn [mbind res_bind].
  rewrite le_uint_le_bytes_id by (simpl; lia).
  assert (Hd : (if 1 <? n then bitunpack body (n - 1) width else Ok []) = Ok (deltas_of base rest)).
  { destruct (Z.ltb_spec 1 n); [by apply Hun|].
    destruct rest; [done|unfold zlen in Hrl; simpl in Hrl; lia]. }
  rewrite Hd. cbn [mbind res_bind]. destruct (Z.ltb_spec 0 n); [|lia].
  rewrite <- Hvl in Hf. destruct (store_first base rest w buf) as (b1 & -> & Hf1); [lia|done|].
  cbn [mbind res_bind]. rewrite <- Hvl.
  rewrite (forZ_ext _ _ _ (fun i st =>
    r ← (d ← rd1 (deltas_of base rest) (i - 1);
         Ok (u64 (s64 st.2 + unzigzag d), u64 (s64 st.2 + unzigzag d)));
    raw ← store_uint st.1 (i * w) r.1 w; Ok (raw, r.2)))
    by (intros i [? ?]; by destruct (rd1 _ _)).
  edestruct (decode_loop (fun i c => c = nthZ (base :: rest) (i - 1))
    (fun i c => d ← rd1 (deltas_of base rest) (i - 1);
       Ok (u64 (s64 c + unzigzag d), u64 (s64 c + unzigzag d))) (base :: rest) w 1 b1 base)
    as (s' & ->); try done; try lia.
  - intros i c Hi ->. destruct (delta_step base rest i) as [-> Hr]; [done|lia|].
    cbn [mbind res_bind]. rewrite Hr. eexists. split; [done|].
    f_equal. lia.
  - cbn [mbind res_bind fst]. rewrite Hst. f_equal. apply take_ge. unfold zlen. lia.
Qed.

Lemma encode_delta_spec raw w n :
  int_stream raw w n ->
  exists o, encode_delta raw (zlen raw) w n = Ok o /\
    codec_roundtrip (fun enc => decode_delta enc n (zlen raw)) raw (Ok o) /\
    (o = None <-> zlen raw <= delta_size raw w n).
Proof.
  intros Hs. pose proof (int_stream_w _ _ _ Hs) as Hw.
  destruct (int_stream_split _ _ _ Hs) as (v0 & rest & Hlv & Hlr & Hv0 & Hvr).
  pose proof Hs as (_ & _ & Hn & _ & Hal).
  unfold encode_delta, delta_size. rewrite (palloc_Ok (8 * n)) by lia. cbn [mbind res_bind].
  rewrite Hlv. rewrite palloc_Ok by (destruct (Z.ltb_spec 1 n); lia). cbn [mbind res_bind].
  set (ds := deltas_of v0 rest) in *. set (width := bits_needed (fold_max ds)) in *.
  assert (Hdl : zlen ds = n - 1) by (unfold ds, zlen in *; rewrite length_deltas_of; lia).
  destruct (pack_emit ds ([u8 w; u8 width] ++ le_bytes 8 v0)) as (Hwd & body & Hp & Hb & Hlb & Hlm & Hun);
    [apply deltas_of_u64| |lia|].
  { apply Forall_app_2; [repeat constructor; apply mod_pow2_bound; lia|apply le_bytes_ok]. }
  fold width in Hwd, Hp, Hlb, Hun. rewrite Hdl in *.
  set (hdr := [u8 w; u8 width] ++ le_bytes 8 v0) in *.
  assert (He : (if 1 <? n then bitpack ds (n - 1) width hdr else Ok hdr) = Ok (hdr ++ body)).
  { destruct (Z.ltb_spec 1 n); [done|]. assert (n = 1) as -> by lia.
    rewrite Z.sub_diag, Z.mul_0_l in Hlb. change ((0 + 7) / 8) with 0 in Hlb.
    destruct body; [by rewrite app_nil_r|]. unfold zlen in Hlb. simpl in Hlb. lia. }
  rewrite He. cbn [mbind res_bind]. eexists. split; [done|].
  destruct (keep_roundtrip (fun enc => decode_delta enc n (zlen raw)) raw (hdr ++ body)) as [Hr Hk].
  - done.
  - unfold hdr. rewrite !zlen_app, zlen_le_bytes. change (zlen [_; _]) with 2. unfold MaxAllocSize in *. lia.
  - by apply (decode_delta_body raw w n width v0 rest body ds).
  - split; [done|]. unfold hdr in *. rewrite Hk, !zlen_app, zlen_le_bytes, Hlb. change (zlen [_; _]) with 2.
    replace (2 + Z.of_nat 8) with 10 by lia. done.
Qed.

(** ** DOD *)

(** Number of bytes [encode_dod] emits before it compares with the raw size. *)
Definition dod_size (raw : list Z) (w n : Z) : Z :=
  match load_vals raw n w with
  | base :: v1 :: rest => 18 + ((n - 2) * bits_needed (fold_max (dods_of base v1 rest)) + 7) / 8
  | _ => 18
  end.

Definition first_delta (l : list Z) : Z :=
  match l with base :: v1 :: _ => s64 (s64 v1 - s64 base) | _ => 0 end.
Definition dods_list (l : list Z) : list Z :=
  match l with base :: v1 :: rest => dods_of base v1 rest | _ => [] end.

(** The state of the DOD decoder before it produces value [i]. *)
Definition dod_state (vals : list Z) (i : Z) (st : Z * Z) : Prop :=
  st.1 = nthZ vals (i - 1) /\
  st.2 = (if i =? 1 then first_delta vals else s64 (s64 (nthZ vals (i - 1)) - s64 (nthZ vals (i - 2)))).

Lemma s64_idem z : s64 (s64 z) = s64 z.
Proof. unfold s64. by rewrite Z.sub_add, Zmod_mod. Qed.

Lemma dod_step vals i st :
  Forall (fun v => 0 <= v < 2 ^ 64) vals -> 1 <= i < zlen vals -> dod_state vals i st ->
  exists d,
    (if 2 <=? i then dd ← rd1 (dods_list vals) (i - 2); Ok (s64 (st.2 + unzigzag dd)) else Ok st.2)
    = Ok d /\ u64 (s64 st.1 + d) = nthZ vals i /\ dod_state vals (i + 1) (nthZ vals i, d).
Proof.
  intros Hv Hi [H1 H2]. destruct st as [c dl]. cbn [fst snd] in *. subst c.
  destruct vals as [|base [|v1 rest]]; [unfold zlen in Hi; simpl in Hi; lia..|].
  set (vals := base :: v1 :: rest) in *. pose proof (nthZ_Forall _ vals i Hv ltac:(lia)) as Hb.
  exists (s64 (s64 (nthZ vals i) - s64 (nthZ vals (i - 1)))).
  assert (Hst : dod_state vals (i + 1) (nthZ vals i, s64 (s64 (nthZ vals i) - s64 (nthZ vals (i - 1))))).
  { split; cbn [fst snd]; [f_equal; lia|]. destruct (Z.eqb_spec (i + 1) 1); [lia|].
    by replace (i + 1 - 1) with i by lia; replace (i + 1 - 2) with (i - 1) by lia. }
  split; [|split; [by apply delta_restore|done]].
  destruct (Z.leb_spec 2 i) as [H2i|H2i].
  - destruct (Z.eqb_spec i 1); [lia|]. subst dl.
    rewrite rd1_Ok
      by (unfold vals, zlen in *; cbn [dods_list]; rewrite length_dods_of; simpl in Hi; lia).
    cbn [mbind res_bind]. f_equal.
    assert (Hd : nthZ (dods_list vals) (i - 2)
      = zigzag (s64 (s64 (s64 (nthZ vals i) - s64 (nthZ vals (i - 1)))
          - s64 (s64 (nthZ vals (i - 1)) - s64 (nthZ vals (i - 2)))))).
    { unfold vals. cbn [dods_list]. unfold nthZ. rewrite nthZ_dods by (unfold vals, zlen in Hi; simpl in Hi; lia).
      replace (Z.to_nat i) with (S (S (Z.to_nat (i - 2)))) by lia.
      replace (Z.to_nat (i - 1)) with (S (Z.to_nat (i - 2))) by lia. done. }
    rewrite Hd, unzigzag_zigzag by apply s64_range.
    set (d0 := s64 (nthZ vals (i - 1)) - s64 (nthZ vals (i - 2))).
    set (d1 := s64 (nthZ vals i) - s64 (nthZ vals (i - 1))). apply dod_restore.
  - assert (i = 1) as -> by lia. subst dl. done.
Qed.

Lemma decode_dod_body raw w n width base rest body dods :
  int_stream raw w n -> 0 <= width <= 64 -> load_vals raw n w = base :: rest ->
  dods = dods_list (base :: rest) ->
  (2 < n -> bitunpack body (n - 2) width = Ok dods) ->
  decode_dod (([u8 w; u8 width] ++ le_bytes 8 base ++ le_bytes 8 (first_delta (base :: rest)))
              ++ body) n (zlen raw) = Ok raw.
Proof.
  intros Hs Hwd Hlv -> Hun. pose proof (int_stream_w _ _ _ Hs) as Hw.
  destruct (stream_cons _ _ _ _ _ Hs Hlv) as (Hvl & Hrl & Hst & Hvr & Hv0).
  pose proof Hs as (_ & Hbw & Hn & Hl & Hal). unfold decode_dod.
  destruct (alloc_raw_stream _ _ _ Hs) as (buf & -> & Hf). cbn [mbind res_bind].
  destruct (hdr18 w width base (first_delta (base :: rest)) body) as (Hz & -> & -> & -> & -> & ->);
    [unfold byte_ok; lia|unfold byte_ok; lia|done|].
  pose proof (zlen_nonneg body). rewrite Hz.
  destruct (Z.ltb_spec (18 + zlen body) 18); [lia|]. cbn [mbind res_bind].
  rewrite Hbw, Hl, Z.eqb_refl. cbn [negb].
  rewrite palloc_Ok by (destruct (Z.ltb_spec 2 n); lia). cbn [mbind res_bind].
  rewrite le_uint_le_bytes_id by (simpl; lia).
  assert (Hfd : s64 (le_uint (le_bytes 8 (first_delta (base :: rest)))) = first_delta (base :: rest)).
  { rewrite le_uint_le_bytes. change (2 ^ (8 * Z.of_nat 8)) with (2 ^ 64). fold (u64 (first_delta (base :: rest))).
    apply s64_u64. destruct rest; [simpl; lia|apply s64_range]. }
  rewrite Hfd.
  assert (Hd : (if 2 <? n then bitunpack body (n - 2) width else Ok []) = Ok (dods_list (base :: rest))).
  { destruct (Z.ltb_spec 2 n); [by apply Hun|].
    destruct rest as [|v1 [|]]; [done|done|unfold zlen in Hrl; simpl in Hrl; lia]. }
  rewrite Hd. cbn [mbind res_bind]. destruct (Z.ltb_spec 0 n); [|lia].
  rewrite <- Hvl in Hf. destruct (store_first base rest w buf) as (b1 & -> & Hf1); [lia|done|].
  cbn [mbind res_bind]. rewrite <- Hvl.
  set (step := fun i (st : Z * Z) =>
    d ← (if 2 <=? i then dd ← rd1 (dods_list (base :: rest)) (i - 2); Ok (s64 (st.2 + unzigzag dd))
         else Ok st.2);
    Ok (u64 (s64 st.1 + d), (u64 (s64 st.1 + d), d))).
  rewrite (forZ_ext _ _ _ (fun i st =>
    r ← step i st.2; raw ← store_uint st.1 (i * w) r.1 w; Ok (raw, r.2)))
    by (intros i [? [? ?]]; unfold step; cbn [fst snd]; by destruct (if 2 <=? i then _ else _)).
  edestruct (decode_loop (dod_state (base :: rest)) step (base :: rest) w 1 b1
    (base, first_delta (base :: rest))) as (s' & ->); try done; try lia.
  - intros i st Hi Hd1. destruct (dod_step (base :: rest) i st) as (d & Hdd & Hu & Hds); [by constructor|lia|done|].
    unfold step. rewrite Hdd. cbn [mbind res_bind]. rewrite Hu. eauto.
  - cbn [mbind res_bind fst]. rewrite Hst. f_equal. apply take_ge. unfold zlen. lia.
Qed.

Lemma encode_dod_spec raw w n :
  int_stream raw w n ->
  exists o, encode_dod raw (zlen raw) w n = Ok o /\
    codec_roundtrip (fun enc => decode_dod enc n (zlen raw)) raw (Ok o) /\
    (o = None <-> zlen raw <= dod_size raw w n).
Proof.
  intros Hs. pose proof (int_stream_w _ _ _ Hs) as Hw.
  destruct (int_stream_split _ _ _ Hs) as (v0 & rest & Hlv & Hlr & Hv0 & Hvr).
  pose proof Hs as (_ & _ & Hn & _ & Hal).
  unfold encode_dod, dod_size. rewrite (palloc_Ok (8 * n)) by lia. cbn [mbind res_bind].
  rewrite Hlv. rewrite palloc_Ok by (destruct (Z.ltb_spec 2 n); lia). cbn [mbind res_bind].
  fold (first_delta (v0 :: rest)). fold (dods_list (v0 :: rest)).
  set (ds := dods_list (v0 :: rest)) in *. set (width := bits_needed (fold_max ds)) in *.
  assert (Hdl : zlen ds = Z.max 0 (n - 2)).
  { unfold ds, zlen in *. destruct rest as [|v1 r]; simpl in *; [lia|]. rewrite length_dods_of. lia. }
  set (hdr := [u8 w; u8 width] ++ le_bytes 8 v0 ++ le_bytes 8 (first_delta (v0 :: rest))) in *.
  assert (Hhl : zlen hdr = 18) by (unfold hdr; rewrite !zlen_app, !zlen_le_bytes; done).
  destruct (pack_emit ds hdr) as (Hwd & body & Hp & Hb & Hlb & Hlm & Hun); [| |lia|].
  { unfold ds, dods_list. destruct rest; [constructor|apply dods_of_u64]. }
  { apply Forall_app_2; [repeat constructor; apply mod_pow2_bound; lia|].
    apply Forall_app_2; apply le_bytes_ok. }
  fold width in Hwd, Hp, Hlb, Hun. rewrite Hdl in *.
  assert (He : (if 2 <? n then bitpack ds (n - 2) width hdr else Ok hdr) = Ok (hdr ++ body)).
  { destruct (Z.ltb_spec 2 n); [by rewrite Z.max_r in Hp by lia|].
    rewrite Z.max_l, Z.mul_0_l in Hlb by lia. change ((0 + 7) / 8) with 0 in Hlb.
    destruct body; [by rewrite app_nil_r|]. unfold zlen in Hlb. simpl in Hlb. lia. }
  rewrite He. cbn [mbind res_bind]. eexists. split; [done|].
  destruct (keep_roundtrip (fun enc => decode_dod enc n (zlen raw)) raw (hdr ++ body)) as [Hr Hk].
  - done.
  - rewrite zlen_app, Hhl. unfold MaxAllocSize in *. lia.
  - apply (decode_dod_body raw w n width v0 rest body ds); try done.
    intros. by rewrite Z.max_r in Hun by lia.
  - split; [done|]. rewrite Hk, zlen_app, Hlb, Hhl. unfold zlen in Hlr.
    destruct rest as [|v1 r]; simpl in Hlr.
    + rewrite Z.max_l, Z.mul_0_l by lia. done.
    + by rewrite Z.max_r by lia.
Qed.

(** ** The decoders on arbitrary bytes *)

(** A decoding loop over any input: as long as a step is safe, the buffer is
    filled value by value. *)
Lemma decode_loop_safe {S} (P : S -> Prop) (step : Z -> S -> res (Z * S)) (w lo n sz : Z)
    (buf : list Z) (vals0 : list Z) (s : S) :
  0 <= w -> 0 <= lo <= n -> n * w <= sz -> zlen vals0 = lo ->
  filled sz buf (store_vals vals0 w) -> P s ->
  (forall i s, lo <= i < n -> P s -> safe (fun r => P r.2) (step i s)) ->
  safe (fun st => exists vals, zlen vals = n /\ filled sz st.1 (store_vals vals w))
    (forZ lo n (fun i st =>
      r ← step i st.2; raw ← store_uint st.1 (i * w) r.1 w; Ok (raw, r.2)) (buf, s)).
Proof.
  intros Hw Hlo Hsz Hv0 Hf HP Hstep.
  eapply safe_mono; [apply (forZ_safe (fun i st => (exists vals, zlen vals = i /\
    filled sz st.1 (store_vals vals w)) /\ P st.2))|]; [lia| | |].
  - intros i [b st] Hi [(vals & Hl & Hfi) HPi]. cbn [fst snd] in *.
    eapply safe_bind; [by apply Hstep|]. intros [v s'] HP'. cbn [fst snd] in *.
    destruct (store_uint_filled sz b vals v w) as (b' & Hst & Hf'); [done|done|nia|].
    rewrite Hl in Hst. rewrite Hst. cbn. split; [|done].
    exists (vals ++ [v]). split; [rewrite zlen_app; change (zlen [v]) with 1; lia|done].
  - eauto.
  - intros st [H _]. exact H.
Qed.

Lemma decoded_safe rawLen w n sz vals buf :
  0 <= w -> n * w = rawLen -> zlen vals = n -> filled sz buf (store_vals vals w) ->
  decode_safe rawLen (Ok (take (Z.to_nat rawLen) buf)).
Proof.
  intros Hw Hn Hl Hf. simpl. rewrite (filled_take _ _ _ _ Hf) by (rewrite zlen_store_vals; lia).
  split; [apply store_vals_ok|]. rewrite zlen_store_vals by done. lia.
Qed.

(** What a decoder knows once its header checks passed. *)
Definition enc_ok (enc : list Z) (n rawLen : Z) : Prop :=
  bytes_ok enc /\ zlen enc < 2 ^ 32 /\ 0 <= n < 2 ^ 32 /\ 0 <= rawLen < 2 ^ 32.

Lemma body_unpack_safe (enc : list Z) (k : nat) n width :
  bytes_ok enc -> zlen enc < 2 ^ 32 -> 0 <= n < 2 ^ 32 ->
  safe (fun vals => zlen vals = n /\ Forall (fun v => 0 <= v < 2 ^ 64) vals)
    (bitunpack (drop k enc) n width).
Proof.
  intros Hb Hz Hn.
  destruct (bitunpack_cases (drop k enc) n width) as [[m ->]|(Hw & _ & ->)];
    [by apply Forall_drop|done|unfold zlen in *; rewrite length_drop; lia|done|].
  simpl. split; [|by apply unpack_int_u64].
  unfold zlen. rewrite length_unpack_int. lia.
Qed.

(** Peel one guard or one safe action off the front of a decoder. *)
Ltac safe_guard :=
  match goal with
  | |- safe _ (if ?c then Err _ else _) => destruct c eqn:?; [exact I|]
  | |- safe _ (rd1 _ _ ≫= _) => rewrite rd1_Ok by lia; cbn [mbind res_bind]
  | |- safe _ (rd _ _ _ ≫= _) => rewrite rd_Ok by lia; cbn [mbind res_bind]
  | |- safe _ (palloc ?s ≫= _) =>
      destruct (palloc_cases s) as [->|[? ->]]; [|exact I]; cbn [mbind res_bind]
  end.

Lemma negb_eqb_false a b : negb (a =? b) = false -> a = b.
Proof. destruct (Z.eqb_spec a b); [done|discriminate]. Qed.

(** The loop without a carried value. *)
Lemma decode_loop_simple_safe (f : Z -> res Z) (w n sz : Z) (buf : list Z) :
  0 <= w -> 0 <= n -> n * w <= sz -> filled sz buf [] ->
  (forall i, 0 <= i < n -> safe (fun _ => True) (f i)) ->
  safe (fun b => exists vals, zlen vals = n /\ filled sz b (store_vals vals w))
    (forZ 0 n (fun i raw => v ← f i; store_uint raw (i * w) v w) buf).
Proof.
  intros Hw Hn Hsz Hf Hstep.
  apply (forZ_safe (fun i b => exists vals, zlen vals = i /\ filled sz b (store_vals vals w)));
    [done| |by exists []].
  intros i b Hi (vals & Hl & Hfi). eapply safe_bind; [by apply Hstep|]. intros v _.
  destruct (store_uint_filled sz b vals v w) as (b' & Hst & Hf'); [done|done|nia|].
  rewrite Hl in Hst. rewrite Hst. exists (vals ++ [v]).
  split; [rewrite zlen_app; change (zlen [v]) with 1; lia|done].
Qed.

Lemma decode_for_safe enc n rawLen :
  enc_ok enc n rawLen -> decode_safe rawLen (decode_for enc n rawLen).
Proof.
  intros (Hb & Hz & Hn & Hr). unfold decode_for, decode_safe.
  eapply safe_bind; [by apply alloc_raw_safe; lia|]. intros buf (sz & Hf & Hsz & _).
  safe_guard. apply Z.ltb_ge in Heqb. do 4 safe_guard.
  apply width_cases in Heqb0. apply negb_eqb_false in Heqb1. do 2 safe_guard.
  eapply safe_bind; [by apply body_unpack_safe|]. intros vals [Hvl _].
  set (w := nthZ enc 0) in *.
  match goal with |- context [forZ 0 n (fun i raw => v ← rd1 vals i; store_uint raw _ (u64 (v + ?m)) w) buf] =>
    rewrite (forZ_ext 0 n _ (fun i raw => x ← (v ← rd1 vals i; Ok (u64 (v + m)));
      store_uint raw (i * w) x w)) by (intros i st; by destruct (rd1 vals i)) end.
  eapply safe_bind; [apply (decode_loop_simple_safe _ w n sz); try lia; try done|].
  - intros i Hi. by rewrite rd1_Ok by lia.
  - intros b (vs & Hl & Hfb). apply (decoded_safe rawLen w n sz vs); try done; lia.
Qed.

Lemma opt_unpack_safe (c : bool) (enc : list Z) (k : nat) n width :
  (c = true -> 0 <= n) -> bytes_ok enc -> zlen enc < 2 ^ 32 -> n < 2 ^ 32 ->
  safe (fun vals => c = true -> zlen vals = n) (if c then bitunpack (drop k enc) n width else Ok []).
Proof.
  intros Hc Hb Hz Hn. destruct c; [|done].
  eapply safe_mono; [apply body_unpack_safe; try done|].
  - by split; [apply Hc|].
  - by intros vals [Hl _].
Qed.

Lemma store_first_safe (n w sz v : Z) (buf : list Z) :
  0 <= w -> n * w <= sz -> filled sz buf [] -> 0 <= n ->
  safe (fun b => exists vals, zlen vals = Z.min n 1 /\ filled sz b (store_vals vals w))
    (if 0 <? n then store_uint buf 0 v w else Ok buf).
Proof.
  intros Hw Hsz Hf Hn. destruct (Z.ltb_spec 0 n).
  - destruct (store_uint_filled sz buf [] v w) as (b' & Hst & Hf'); [done|done| |].
    { change (zlen []) with 0. nia. }
    change (zlen [] * w) with 0 in Hst. rewrite Hst. exists [v].
    rewrite Z.min_r by lia. done.
  - exists []. rewrite Z.min_l by lia. assert (n = 0) as -> by lia. done.
Qed.

Lemma decode_delta_safe enc n rawLen :
  enc_ok enc n rawLen -> decode_safe rawLen (decode_delta enc n rawLen).
Proof.
  intros (Hb & Hz & Hn & Hr). unfold decode_delta, decode_safe.
  eapply safe_bind; [by apply alloc_raw_safe; lia|]. intros buf (sz & Hf & Hsz & _).
  safe_guard. apply Z.ltb_ge in Heqb. do 4 safe_guard.
  apply width_cases in Heqb0. apply negb_eqb_false in Heqb1. do 2 safe_guard.
  eapply safe_bind; [apply opt_unpack_safe; try done; lia|]. intros ds Hdl. cbn beta in Hdl.
  set (w := nthZ enc 0) in *.
  eapply safe_bind; [apply (store_first_safe n w sz); try done; lia|].
  intros b0 (vals & Hvl & Hf0).
  match goal with |- context [(b0, ?b)] => set (base := b) end.
  rewrite (forZ_ext 1 n _ (fun i st =>
    r ← (d ← rd1 ds (i - 1); Ok (u64 (s64 st.2 + unzigzag d), u64 (s64 st.2 + unzigzag d)));
    raw ← store_uint st.1 (i * w) r.1 w; Ok (raw, r.2)))
    by (intros i [? ?]; by destruct (rd1 ds (i - 1))).
  destruct (decide (n = 0)) as [->|Hn0].
  { cbn. apply (decoded_safe rawLen w 0 sz vals); try done; lia. }
  eapply safe_bind; [apply (decode_loop_safe (fun _ => True) (fun i c => d ← rd1 ds (i - 1);
    Ok (u64 (s64 c + unzigzag d), u64 (s64 c + unzigzag d))) w 1 n sz b0 vals); try done; try lia|].
  - intros i c Hi _. rewrite rd1_Ok by (rewrite Hdl; [lia|apply Z.ltb_lt; lia]). done.
  - intros [b c] (vs & Hl & Hfb). apply (decoded_safe rawLen w n sz vs); try done; lia.
Qed.

Lemma decode_dod_safe enc n rawLen :
  enc_ok enc n rawLen -> decode_safe rawLen (decode_dod enc n rawLen).
Proof.
  intros (Hb & Hz & Hn & Hr). unfold decode_dod, decode_safe.
  eapply safe_bind; [by apply alloc_raw_safe; lia|]. intros buf (sz & Hf & Hsz & _).
  safe_guard. apply Z.ltb_ge in Heqb. do 4 safe_guard.
  apply width_cases in Heqb0. apply negb_eqb_false in Heqb1. do 3 safe_guard.
  eapply safe_bind; [apply opt_unpack_safe; try done; lia|]. intros ds Hdl. cbn beta in Hdl.
  set (w := nthZ enc 0) in *.
  eapply safe_bind; [apply (store_first_safe n w sz); try done; lia|].
  intros b0 (vals & Hvl & Hf0).
  match goal with |- context [(b0, ?b)] => set (base := b) end.
  set (step := fun i (st : Z * Z) =>
    d ← (if 2 <=? i then dd ← rd1 ds (i - 2); Ok (s64 (st.2 + unzigzag dd)) else Ok st.2);
    Ok (u64 (s64 st.1 + d), (u64 (s64 st.1 + d), d))).
  rewrite (forZ_ext 1 n _ (fun i st =>
    r ← step i st.2; raw ← store_uint st.1 (i * w) r.1 w; Ok (raw, r.2)))
    by (intros i [? [? ?]]; unfold step; cbn [fst snd]; by destruct (if 2 <=? i then _ else _)).
  destruct (decide (n = 0)) as [->|Hn0].
  { cbn. apply (decoded_safe rawLen w 0 sz vals); try done; lia. }
  eapply safe_bind; [apply (decode_loop_safe (fun _ => True) step w 1 n sz b0 vals); try done; try lia|].
  - intros i c Hi _. unfold step. destruct (Z.leb_spec 2 i); [|done].
    rewrite rd1_Ok by (rewrite Hdl; [lia|apply Z.ltb_lt; lia]). done.
  - intros [b c] (vs & Hl & Hfb). apply (decoded_safe rawLen w n sz vs); try done; lia.
Qed.

(** ** Theorems *)

(** The integer codecs, frame of reference, delta and delta of delta, on
    every stream of 1, 2, 4 or 8 byte values (differences are taken with
    wrap-around): encoding never fails, it gives up exactly when its output
    would not be smaller than the stream, and otherwise its output decodes to
    the very same bytes. *)
Theorem int_codecs_roundtrip (raw : list Z) (w n : Z) :
  int_stream raw w n ->
  (codec_roundtrip (fun enc => decode_for enc n (zlen raw)) raw (encode_for raw (zlen raw) w n) /\
   (encode_for raw (zlen raw) w n = Ok None <-> zlen raw <= for_size raw w n)) /\
  (codec_roundtrip (fun enc => decode_delta enc n (zlen raw)) raw (encode_delta raw (zlen raw) w n) /\
   (encode_delta raw (zlen raw) w n = Ok None <-> zlen raw <= delta_size raw w n)) /\
  (codec_roundtrip (fun enc => decode_dod enc n (zlen raw)) raw (encode_dod raw (zlen raw) w n) /\
   (encode_dod raw (zlen raw) w n = Ok None <-> zlen raw <= dod_size raw w n)).
Proof.
  intros Hs. destruct (encode_for_spec raw w n Hs) as (o & -> & Hr & Hk).
  destruct (encode_delta_spec raw w n Hs) as (o2 & -> & Hr2 & Hk2).
  destruct (encode_dod_spec raw w n Hs) as (o3 & -> & Hr3 & Hk3).
  split; [|split]; (split; [done|]); [rewrite <- Hk|rewrite <- Hk2|rewrite <- Hk3]; split; congruence.
Qed.

Lemma int_codecs_roundtrip_witness :
  let raw := store_vals [0; 2 ^ 64 - 1; 2 ^ 63; 5] 8 in
  codec_roundtrip (fun enc => decode_delta enc 4 32) raw (encode_delta raw 32 8 4) /\
  (encode_delta raw 32 8 4 = Ok None <-> 32 <= delta_size raw 8 4).
Proof.
  intros raw. apply (int_codecs_roundtrip raw 8 4).
  unfold int_stream. split; [apply store_vals_ok|]. repeat split; vm_compute; congruence.
Defined.
