(* ===== verification/Rle.v ===== *)
(** * Run-length encoding and the run iterator

    [encode_rle]/[decode_rle] and [PgColumnarBlockReaderInit]/
    [PgColumnarBlockNextRun] of [src/columnar_encoding.c].  Both walk a stream
    of fixed-width values run by run; the specification is the list of runs,
    [(count, value)] pairs, and the stream they expand to. *)

From S2P Require Import Prelude BitPack Codec.

(** ** Definitions *)

(** [while (pos + run < n && memcmp(raw + (pos + run) * w, raw + pos * w, w) == 0)
    run++;]  [pos + run] stays at most [n], so it does not wrap. *)
Fixpoint run_loop (fuel : nat) (raw : list Z) (w n pos run : Z) : res Z :=
  match fuel with
  | O => Fuel
  | S f =>
      if pos + run <? n then
        a ← rd raw ((pos + run) * w) w;
        v ← rd raw (pos * w) w;
        if decide (a = v) then run_loop f raw w n pos (run + 1) else Ok run
      else Ok run
  end.

Definition find_run (raw : list Z) (w n pos : Z) : res Z :=
  run_loop (S (Z.to_nat (n - pos))) raw w n pos 1.

Fixpoint encode_rle_loop (fuel : nat) (raw : list Z) (rawLen w n i : Z) (buf : list Z)
    : res (option (list Z)) :=
  match fuel with
  | O => Fuel
  | S f =>
      if i <? n then
        run ← find_run raw w n i;
        val ← rd raw (i * w) w;
        let buf := buf ++ le_bytes 4 run ++ val in
        if rawLen <=? u32 (zlen buf) then Ok None
        else encode_rle_loop f raw rawLen w n (u32 (i + run)) buf
      else Ok (Some buf)
  end.

Definition encode_rle (raw : list Z) (rawLen w n : Z) : res (option (list Z)) :=
  encode_rle_loop (S (Z.to_nat n)) raw rawLen w n 0 [].

(** [while (run-- > 0 && produced < n) { memcpy(raw + produced * w, p, w); produced++; }] *)
Fixpoint rle_copy (fuel : nat) (val : list Z) (w n run produced : Z) (raw : list Z)
    : res (list Z * Z) :=
  match fuel with
  | O => Fuel
  | S f =>
      if (0 <? run) && (produced <? n) then
        raw ← wr raw (produced * w) val;
        rle_copy f val w n (run - 1) (u32 (produced + 1)) raw
      else Ok (raw, produced)
  end.

Fixpoint decode_rle_loop (fuel : nat) (enc : list Z) (w n p produced : Z) (raw : list Z)
    : res (list Z) :=
  match fuel with
  | O => Fuel
  | S f =>
      if produced <? n then
        if zlen enc <? p + 4 then Err "RLE run header past encoded length"
        else
          rb ← rd enc p 4;
          let run := le_uint rb in
          let p := p + 4 in
          if zlen enc <? p + w then Err "RLE run value past encoded length"
          else
            val ← rd enc p w;
            st ← rle_copy (S (Z.to_nat (n - produced))) val w n run produced raw;
            decode_rle_loop f enc w n (p + w) st.2 st.1
      else Ok raw
  end.

(** Every round of the outer loop consumes at least four bytes of [enc]. *)
Definition decode_rle (enc : list Z) (w n rawLen : Z) : res (list Z) :=
  raw ← alloc_raw rawLen;
  raw ← decode_rle_loop (S (S (length enc))) enc w n 0 0 raw;
  Ok (take (Z.to_nat rawLen) raw).

(** ** The run iterator *)

Record PgColumnarBlockReader := mkBlock {
  blk_raw : list Z; blk_valueCount : Z; blk_width : Z; blk_pos : Z
}.

Definition PgColumnarBlockReaderInit (raw : list Z) (valueCount width : Z)
    : PgColumnarBlockReader := mkBlock raw valueCount width 0.

(** [None] is the C function's [false]; [Some (v, run, br')] its [true] with
    [*valBytes], [*runLen] and the advanced reader. *)
Definition PgColumnarBlockNextRun (br : PgColumnarBlockReader)
    : res (option (list Z * Z * PgColumnarBlockReader)) :=
  if blk_valueCount br <=? blk_pos br then Ok None
  else
    run ← find_run (blk_raw br) (blk_width br) (blk_valueCount br) (blk_pos br);
    v ← rd (blk_raw br) (blk_pos br * blk_width br) (blk_width br);
    Ok (Some (v, run, mkBlock (blk_raw br) (blk_valueCount br) (blk_width br)
                        (blk_pos br + run))).

(** [while (PgColumnarBlockNextRun(&br, &v, &run)) ...]: the runs a consumer sees. *)
Fixpoint block_runs (fuel : nat) (br : PgColumnarBlockReader) : res (list (Z * list Z)) :=
  match fuel with
  | O => Fuel
  | S f =>
      r ← PgColumnarBlockNextRun br;
      match r with
      | None => Ok []
      | Some (v, run, br') => rs ← block_runs f br'; Ok ((run, v) :: rs)
      end
  end.

(** ** Specification: lists of runs *)

Definition run_expand (r : Z * list Z) : list Z := concat (replicate (Z.to_nat r.1) r.2).
Definition runs_expand (rs : list (Z * list Z)) : list Z := concat (run_expand <$> rs).
Definition runs_bytes (rs : list (Z * list Z)) : list Z :=
  concat ((fun r => le_bytes 4 r.1 ++ r.2) <$> rs).
Definition runs_count (rs : list (Z * list Z)) : Z := foldr (fun r acc => r.1 + acc) 0 rs.

(** No run can be extended: neighbours carry different values. *)
Fixpoint maximal (rs : list (Z * list Z)) : Prop :=
  match rs with
  | r :: ((r' :: _) as rest) => r.2 <> r'.2 /\ maximal rest
  | _ => True
  end.

Definition run_ok (w : Z) (r : Z * list Z) : Prop :=
  1 <= r.1 < 2 ^ 32 /\ zlen r.2 = w.

(** ** Lemmas *)

(** Value [i] of the stream, as bytes. *)
Definition blk (raw : list Z) (w i : Z) : list Z :=
  take (Z.to_nat w) (drop (Z.to_nat (i * w)) raw).

Section Stream.
Context (raw : list Z) (w n : Z) (Hw : 1 <= w) (Hn : n * w <= zlen raw).

Lemma rd_blk i : 0 <= i < n -> rd raw (i * w) w = Ok (blk raw w i).
Proof using Hw Hn. intros. apply rd_Ok; nia. Qed.

Lemma zlen_blk i : 0 <= i < n -> zlen (blk raw w i) = w.
Proof using Hw Hn. intros. apply zlen_sub; nia. Qed.

Lemma run_loop_spec fuel pos run :
  0 <= pos -> 1 <= run <= n - pos -> (Z.to_nat (n - pos - run) < fuel)%nat ->
  (forall k, 0 <= k < run -> blk raw w (pos + k) = blk raw w pos) ->
  exists r, run_loop fuel raw w n pos run = Ok r /\ 1 <= r <= n - pos /\
    (forall k, 0 <= k < r -> blk raw w (pos + k) = blk raw w pos) /\
    (pos + r < n -> blk raw w (pos + r) <> blk raw w pos).
Proof using Hw Hn.
  intros Hp. revert run. induction fuel as [|f IH]; intros run Hr Hf Hk; [lia|].
  cbn [run_loop]. destruct (Z.ltb_spec (pos + run) n).
  - rewrite !rd_blk by lia. cbn [mbind res_bind].
    destruct (decide (blk raw w (pos + run) = blk raw w pos)) as [He|Hne].
    + apply IH; [lia|lia|]. intros k Hk1. destruct (decide (k = run)) as [->|]; [done|].
      apply Hk. lia.
    + exists run. repeat split; try done; lia.
  - exists run. repeat split; try done; lia.
Qed.

Lemma find_run_spec pos :
  0 <= pos < n ->
  exists r, find_run raw w n pos = Ok r /\ 1 <= r <= n - pos /\
    (forall k, 0 <= k < r -> blk raw w (pos + k) = blk raw w pos) /\
    (pos + r < n -> blk raw w (pos + r) <> blk raw w pos).
Proof using Hw Hn.
  intros Hp. apply run_loop_spec; try lia.
  intros k Hk. f_equal. lia.
Qed.

(** Bytes [a*w .. b*w) of the stream. *)
Definition span (a b : Z) : list Z :=
  take (Z.to_nat ((b - a) * w)) (drop (Z.to_nat (a * w)) raw).

Lemma span_split a b c :
  0 <= a <= b -> b <= c -> span a c = span a b ++ span b c.
Proof using Hw.
  intros Hab Hbc. unfold span.
  replace (Z.to_nat (b * w)) with (Z.to_nat (a * w) + Z.to_nat ((b - a) * w))%nat by nia.
  rewrite <- drop_drop, take_take_drop. f_equal. nia.
Qed.

Lemma span_one a : 0 <= a -> span a (a + 1) = blk raw w a.
Proof using. intros. unfold span, blk. do 2 f_equal. lia. Qed.

Lemma span_run pos r :
  0 <= pos -> 0 <= r -> (forall k, 0 <= k < r -> blk raw w (pos + k) = blk raw w pos) ->
  span pos (pos + r) = run_expand (r, blk raw w pos).
Proof using Hw.
  intros Hp Hr. pattern r. apply natlike_ind; [| |done].
  - intros _. unfold span. by replace ((pos + 0 - pos) * w) with 0 by lia.
  - intros k Hk IH Hall. rewrite (span_split pos (pos + k)) by lia.
    rewrite IH by (try lia; intros; apply Hall; lia).
    replace (pos + Z.succ k) with (pos + k + 1) by lia. rewrite span_one, Hall by lia.
    unfold run_expand. cbn [fst snd].
    replace (Z.to_nat (Z.succ k)) with (Z.to_nat k + 1)%nat by lia.
    rewrite replicate_add, concat_app. simpl. by rewrite app_nil_r.
Qed.
End Stream.

Lemma runs_expand_snoc rs r : runs_expand (rs ++ [r]) = runs_expand rs ++ run_expand r.
Proof. unfold runs_expand. rewrite fmap_app, concat_app. simpl. by rewrite app_nil_r. Qed.
Lemma runs_bytes_snoc rs r : runs_bytes (rs ++ [r]) = runs_bytes rs ++ le_bytes 4 r.1 ++ r.2.
Proof. unfold runs_bytes. rewrite fmap_app, concat_app. simpl. by rewrite app_nil_r. Qed.
Lemma runs_count_app rs rs' : runs_count (rs ++ rs') = runs_count rs + runs_count rs'.
Proof. unfold runs_count. induction rs as [|r rs IH]; simpl; lia. Qed.

(** The encoder's loop: the buffer holds the runs of the values before [i]. *)
Lemma encode_rle_loop_spec raw w n fuel i buf rs :
  1 <= w -> n * w = zlen raw -> zlen raw < 2 ^ 30 -> bytes_ok raw ->
  0 <= i <= n -> (Z.to_nat (n - i) < fuel)%nat ->
  buf = runs_bytes rs -> zlen buf <= zlen raw + 8 ->
  runs_expand rs = span raw w 0 i -> runs_count rs = i -> Forall (run_ok w) rs ->
  Forall (fun r => bytes_ok r.2) rs ->
  (i = n -> 0 < n -> zlen buf < zlen raw) ->
  exists o, encode_rle_loop fuel raw (zlen raw) w n i buf = Ok o /\
    forall enc, o = Some enc -> exists rs, enc = runs_bytes rs /\ runs_expand rs = raw /\
      runs_count rs = n /\ Forall (run_ok w) rs /\ Forall (fun r => bytes_ok r.2) rs /\
      (0 < n -> zlen enc < zlen raw).
Proof.
  intros Hw Hn H31 Hb. revert i buf rs.
  induction fuel as [|f IH]; intros i buf rs Hi Hf Hbuf Hbl Hexp Hcnt Hok Hby Hend; [lia|].
  cbn [encode_rle_loop]. destruct (Z.ltb_spec i n).
  - destruct (find_run_spec raw w n Hw ltac:(lia) i) as (r & -> & Hr & Hall & _); [lia|].
    cbn [mbind res_bind]. rewrite (rd_blk raw w n) by lia. cbn [mbind res_bind].
    set (buf' := buf ++ le_bytes 4 r ++ blk raw w i).
    assert (Hw8 : w <= zlen raw) by nia.
    assert (Hl : zlen buf' = zlen buf + 4 + w).
    { unfold buf'. rewrite !zlen_app, zlen_le_bytes, (zlen_blk raw w n) by lia. lia. }
    pose proof (zlen_nonneg buf). rewrite (u32_small (zlen buf')) by lia.
    destruct (Z.leb_spec (zlen raw) (zlen buf')); [by eexists|].
    assert (Hir : 0 <= i + r < 2 ^ 32) by nia. rewrite u32_small by done.
    apply (IH (i + r) buf' (rs ++ [(r, blk raw w i)])); try lia.
    + by rewrite runs_bytes_snoc, <- Hbuf.
    + rewrite runs_expand_snoc, Hexp, (span_split raw w Hw 0 i (i + r)) by lia.
      f_equal. symmetry. apply span_run; try done; lia.
    + rewrite runs_count_app, Hcnt. cbn. lia.
    + apply Forall_app_2; [done|]. repeat constructor; cbn; try lia.
      by apply (zlen_blk raw w n); lia.
    + apply Forall_app_2; [done|]. repeat constructor. by apply bytes_ok_sub.
  - assert (i = n) as -> by lia. eexists. split; [done|]. intros enc [= <-].
    exists rs. repeat split; try done; [|by apply Hend].
    rewrite Hexp. unfold span. rewrite Z.sub_0_r, Hn. change (Z.to_nat (0 * w)) with 0%nat.
    rewrite drop_0. apply take_ge. unfold zlen. lia.
Qed.

Lemma zlen_concat_replicate (k : nat) (v : list Z) :
  zlen (concat (replicate k v)) = Z.of_nat k * zlen v.
Proof.
  induction k as [|k IH]; [done|]. cbn [replicate concat]. rewrite zlen_app, IH. lia.
Qed.

Lemma zlen_run_expand w r : run_ok w r -> zlen (run_expand r) = r.1 * w.
Proof.
  intros [H1 H2]. unfold run_expand. rewrite zlen_concat_replicate, H2. lia.
Qed.

Lemma zlen_runs_expand w rs : Forall (run_ok w) rs -> zlen (runs_expand rs) = runs_count rs * w.
Proof.
  induction 1 as [|r rs Hr Hrs IH]; [done|].
  change (runs_expand (r :: rs)) with (run_expand r ++ runs_expand rs).
  rewrite zlen_app, IH, (zlen_run_expand w) by done. cbn [runs_count foldr].
  fold (runs_count rs). lia.
Qed.

Lemma runs_count_nonneg w rs : Forall (run_ok w) rs -> 0 <= runs_count rs.
Proof. induction 1 as [|r rs [Hr _] Hrs IH]; cbn [runs_count foldr]; [lia|]. fold (runs_count rs). lia. Qed.

(** Copying one run: the output grows by [min run (n - produced)] values. *)
Lemma rle_copy_spec fuel val w n run produced buf pre :
  zlen val = w -> 1 <= w -> n < 2 ^ 32 -> 0 <= produced <= n -> 0 <= run ->
  (Z.to_nat (n - produced) < fuel)%nat ->
  filled (n * w) buf pre -> zlen pre = produced * w ->
  let k := Z.min run (n - produced) in
  exists buf', rle_copy fuel val w n run produced buf = Ok (buf', produced + k) /\
    filled (n * w) buf' (pre ++ concat (replicate (Z.to_nat k) val)).
Proof.
  intros Hv Hw Hn. revert run produced buf pre.
  induction fuel as [|f IH]; intros run produced buf pre Hp Hr Hf Hfill Hpre k; [lia|].
  cbn [rle_copy]. destruct (Z.ltb_spec 0 run), (Z.ltb_spec produced n); cbn [andb].
  - rewrite <- Hpre. destruct (wr_filled (n * w) buf pre val) as (b1 & -> & Hf1); [done|nia|].
    cbn [mbind res_bind]. rewrite u32_small by lia.
    destruct (IH (run - 1) (produced + 1) b1 (pre ++ val)) as (b2 & -> & Hf2);
      try done; try lia; [rewrite zlen_app; lia|].
    exists b2. split; [do 2 f_equal; lia|].
    replace (Z.to_nat k) with (S (Z.to_nat (Z.min (run - 1) (n - (produced + 1))))) by lia.
    cbn [replicate concat]. by rewrite app_assoc.
  - exists buf. replace k with 0 by lia. rewrite Z.add_0_r, app_nil_r. done.
  - exists buf. replace k with 0 by lia. rewrite Z.add_0_r, app_nil_r. done.
  - exists buf. replace k with 0 by lia. rewrite Z.add_0_r, app_nil_r. done.
Qed.

(** The decoder's loop on runs it is given in full. *)
Lemma decode_rle_loop_spec w n fuel done todo buf :
  1 <= w -> n < 2 ^ 32 -> Forall (run_ok w) done -> Forall (run_ok w) todo ->
  runs_count done + runs_count todo = n -> (length todo < fuel)%nat ->
  filled (n * w) buf (runs_expand done) ->
  decode_rle_loop fuel (runs_bytes (done ++ todo)) w n (zlen (runs_bytes done)) (runs_count done) buf
  = Ok (runs_expand (done ++ todo)).
Proof.
  intros Hw Hn. revert fuel done buf.
  induction todo as [|r todo IH]; intros fuel done buf Hd Ht Hc Hfu Hf;
    (destruct fuel as [|fuel]; [simpl in Hfu; lia|]); cbn [decode_rle_loop];
    pose proof (runs_count_nonneg w done Hd).
  - change (runs_count []) with 0 in Hc. destruct (Z.ltb_spec (runs_count done) n); [lia|].
    rewrite app_nil_r. f_equal. apply (filled_done _ _ _ Hf).
    rewrite (zlen_runs_expand w) by done. f_equal. lia.
  - inversion_clear Ht as [|? ? Hr Ht']. pose proof Hr as [Hr1 Hr2].
    change (runs_count (r :: todo)) with (r.1 + runs_count todo) in Hc.
    pose proof (runs_count_nonneg w todo Ht').
    destruct (Z.ltb_spec (runs_count done) n); [|lia].
    assert (Henc : runs_bytes (done ++ r :: todo)
      = runs_bytes done ++ le_bytes 4 r.1 ++ (r.2 ++ runs_bytes todo)).
    { unfold runs_bytes. rewrite fmap_app, concat_app. cbn [fmap list_fmap concat]. by rewrite <- app_assoc. }
    assert (Hz : zlen (runs_bytes (done ++ r :: todo)) = zlen (runs_bytes done) + 4 + w + zlen (runs_bytes todo)).
    { rewrite Henc, !zlen_app, zlen_le_bytes. lia. }
    pose proof (zlen_nonneg (runs_bytes todo)). rewrite Hz.
    destruct (Z.ltb_spec (zlen (runs_bytes done) + 4 + w + zlen (runs_bytes todo)) (zlen (runs_bytes done) + 4)); [lia|].
    rewrite Henc, (rd_at (runs_bytes done) (le_bytes 4 r.1) _ (zlen (runs_bytes done)) 4) by done.
    cbn [mbind res_bind].
    destruct (Z.ltb_spec (zlen (runs_bytes done) + 4 + w + zlen (runs_bytes todo)) (zlen (runs_bytes done) + 4 + w)); [lia|].
    rewrite app_assoc, (rd_at (runs_bytes done ++ le_bytes 4 r.1) r.2)
      by (rewrite ?zlen_app, ?zlen_le_bytes; lia).
    cbn [mbind res_bind]. rewrite le_uint_le_bytes_id by (simpl; lia).
    edestruct (rle_copy_spec (S (Z.to_nat (n - runs_count done))) r.2 w n r.1 (runs_count done) buf
      (runs_expand done)) as (b' & -> & Hf'); try done; try lia; [by rewrite (zlen_runs_expand w)|].
    cbn [mbind res_bind fst snd].
    replace (Z.min r.1 (n - runs_count done)) with r.1 in * by lia.
    rewrite <- app_assoc, <- Henc.
    specialize (IH fuel (done ++ [r]) b').
    rewrite runs_bytes_snoc, !zlen_app, zlen_le_bytes, Hr2 in IH.
    rewrite runs_count_app, <- app_assoc in IH. cbn [runs_count foldr app] in IH.
    replace (zlen (runs_bytes done) + (Z.of_nat 4 + w)) with (zlen (runs_bytes done) + 4 + w) in IH by lia.
    rewrite Z.add_0_r in IH. apply IH; try done; try lia.
    + by apply Forall_app_2; [|constructor].
    + simpl in Hfu. lia.
    + by rewrite runs_expand_snoc.
Qed.

Lemma length_runs_le rs : (length rs <= length (runs_bytes rs))%nat.
Proof.
  induction rs as [|r rs IH]; [done|].
  change (runs_bytes (r :: rs)) with ((le_bytes 4 r.1 ++ r.2) ++ runs_bytes rs).
  rewrite !length_app, length_le_bytes. simpl. lia.
Qed.

Lemma encode_rle_spec raw w n :
  1 <= w -> 0 < n -> n * w = zlen raw -> zlen raw <= MaxAllocSize -> bytes_ok raw ->
  codec_roundtrip (fun enc => decode_rle enc w n (zlen raw)) raw (encode_rle raw (zlen raw) w n).
Proof.
  intros Hw Hn Hl Hm Hb. unfold MaxAllocSize in Hm. unfold encode_rle.
  destruct (encode_rle_loop_spec raw w n (S (Z.to_nat n)) 0 [] []) as (o & -> & Ho);
    try done; try lia; try apply List.Forall_nil;
    [pose proof (zlen_nonneg raw); change (zlen []) with 0; lia|].
  exists o. split; [done|]. destruct o as [enc|]; [|done].
  destruct (Ho enc eq_refl) as (rs & Henc & Hexp & Hc & Hok & Hby & Hlt).
  split; [|split; [by apply Hlt|]].
  - rewrite Henc. clear -Hby. induction Hby as [|r rs Hr Hrs IH]; [constructor|].
    change (runs_bytes (r :: rs)) with ((le_bytes 4 r.1 ++ r.2) ++ runs_bytes rs).
    apply Forall_app_2; [|done]. apply Forall_app_2; [apply le_bytes_ok|done].
  - unfold decode_rle.
    destruct (alloc_raw_Ok (zlen raw)) as (buf & sz & -> & Hf & _ & Hsz);
      [unfold MaxAllocSize; nia|].
    rewrite Hsz in Hf by nia. cbn [mbind res_bind].
    pose proof (decode_rle_loop_spec w n (S (S (length enc))) [] rs buf) as Hd.
    rewrite Henc. cbn [app] in Hd.
    change (runs_count []) with 0 in Hd. change (zlen (runs_bytes [])) with 0 in Hd.
    pose proof (length_runs_le rs). rewrite <- Henc in *.
    rewrite Hd; try done; try nia; try apply List.Forall_nil; try (by rewrite Hl).
    cbn [mbind res_bind]. rewrite Hexp. f_equal. apply take_ge. unfold zlen. lia.
Qed.

(** ** The decoder on arbitrary bytes *)

Lemma decode_rle_loop_safe enc w n fuel p produced buf pre :
  bytes_ok enc -> 1 <= w -> n < 2 ^ 32 -> 0 <= p <= zlen enc -> 0 <= produced <= n ->
  zlen enc - p < Z.of_nat fuel ->
  filled (n * w) buf pre -> zlen pre = produced * w -> bytes_ok pre ->
  safe (fun raw => bytes_ok raw /\ zlen raw = n * w) (decode_rle_loop fuel enc w n p produced buf).
Proof.
  intros Hb Hw Hn. revert p produced buf pre.
  induction fuel as [|f IH]; intros p produced buf pre Hp Hpr Hfu Hf Hl Hpb; [lia|].
  cbn [decode_rle_loop]. destruct (Z.ltb_spec produced n).
  - destruct (Z.ltb_spec (zlen enc) (p + 4)); [done|].
    rewrite (rd_Ok enc p 4) by lia. cbn [mbind res_bind].
    destruct (Z.ltb_spec (zlen enc) (p + 4 + w)); [done|].
    rewrite (rd_Ok enc (p + 4) w) by lia. cbn [mbind res_bind].
    match goal with |- context [rle_copy _ ?v w n ?r] => set (val := v); set (run := r) end.
    assert (0 <= run) by (apply le_uint_bound; by apply bytes_ok_sub).
    destruct (rle_copy_spec (S (Z.to_nat (n - produced))) val w n run produced buf pre)
      as (b' & -> & Hf'); try done; try lia; [apply zlen_sub; lia|].
    cbn [mbind res_bind fst snd]. set (k := Z.min run (n - produced)) in *.
    eapply IH; try done; try lia.
    + rewrite zlen_app, zlen_concat_replicate. unfold val. rewrite zlen_sub by lia. lia.
    + apply Forall_app_2; [done|]. apply Forall_concat, Forall_replicate. by apply bytes_ok_sub.
  - assert (produced = n) by lia. subst. rewrite (filled_done _ _ _ Hf) by done. done.
Qed.

Lemma decode_rle_safe enc w n rawLen :
  bytes_ok enc -> 1 <= w -> 0 <= n < 2 ^ 32 -> n * w = rawLen ->
  decode_safe rawLen (decode_rle enc w n rawLen).
Proof.
  intros Hb Hw Hn Hr. unfold decode_rle, decode_safe.
  eapply safe_bind; [by apply alloc_raw_safe; nia|]. intros buf (sz & Hf & Hsz & _).
  destruct (decide (n = 0)) as [->|Hn0].
  { assert (rawLen = 0) as -> by lia. cbn. repeat constructor. }
  assert (sz = n * w) as -> by nia. rewrite <- Hr.
  eapply safe_bind; [apply (decode_rle_loop_safe enc w n _ 0 0 buf []); try done; try lia|].
  - pose proof (zlen_nonneg enc). lia.
  - unfold zlen. lia.
  - constructor.
  - intros raw [Hrb Hrl]. simpl. rewrite take_ge by (unfold zlen in Hrl; lia). done.
Qed.

(** ** The iterator *)

Lemma maximal_cons r rs :
  (forall r', head rs = Some r' -> r.2 <> r'.2) -> maximal rs -> maximal (r :: rs).
Proof. destruct rs as [|r' rs]; [done|]. intros H Hm. split; [by apply H|done]. Qed.

Lemma block_runs_spec raw w n fuel pos :
  1 <= w -> n * w <= zlen raw -> 0 <= pos <= n -> (Z.to_nat (n - pos) < fuel)%nat ->
  exists rs, block_runs fuel (mkBlock raw n w pos) = Ok rs /\
    runs_expand rs = span raw w pos n /\ runs_count rs = n - pos /\
    Forall (fun r => 1 <= r.1 /\ zlen r.2 = w) rs /\ maximal rs /\
    (forall r, head rs = Some r -> r.2 = blk raw w pos).
Proof.
  intros Hw Hn. revert pos. induction fuel as [|f IH]; intros pos Hp Hf; [lia|].
  cbn [block_runs]. unfold PgColumnarBlockNextRun. cbn [blk_raw blk_valueCount blk_width blk_pos].
  destruct (Z.leb_spec n pos).
  - exists []. assert (pos = n) as -> by lia. cbn. repeat split; try done; try lia.
    unfold span. replace ((n - n) * w) with 0 by lia. done.
  - destruct (find_run_spec raw w n Hw Hn pos) as (r & -> & Hr & Hall & Hmax); [lia|].
    cbn [mbind res_bind]. rewrite (rd_blk raw w n) by lia. cbn [mbind res_bind].
    destruct (IH (pos + r)) as (rs & -> & He & Hc & Hok & Hm & Hh); [lia|lia|].
    cbn [mbind res_bind]. exists ((r, blk raw w pos) :: rs). split; [done|].
    repeat split; cbn [fst snd].
    + rewrite (span_split raw w Hw pos (pos + r)) by lia.
      rewrite (span_run raw w Hw) by (done || lia). by rewrite <- He.
    + cbn [runs_count foldr fst]. fold (runs_count rs). lia.
    + constructor; [|done]. cbn [fst snd]. split; [lia|]. by apply (zlen_blk raw w n); lia.
    + apply maximal_cons; [|done]. intros r' Hr'. cbn [snd]. rewrite (Hh _ Hr').
      assert (pos + r < n) as Hlt.
      { destruct (decide (pos + r < n)); [done|]. destruct rs as [|x rs]; [done|].
        exfalso. inversion Hok as [|? ? [Hx _] Hxs]; subst.
        assert (0 <= runs_count rs).
        { clear -Hxs. induction Hxs as [|y ys [Hy _] _ IHy]; cbn [runs_count foldr]; [lia|].
          fold (runs_count ys). lia. }
        cbn [runs_count foldr] in Hc. fold (runs_count rs) in Hc. lia. }
      specialize (Hmax Hlt). congruence.
    + by intros ? [= <-].
Qed.

(** ** Theorems *)

(** Run-length encoding of any fixed-width stream (values of any width
    [w >= 1]) either gives up or produces fewer bytes than the stream, which
    decode to the stream. *)
Theorem rle_roundtrip (raw : list Z) (w n : Z) :
  1 <= w -> 0 < n -> n * w = zlen raw -> zlen raw <= MaxAllocSize -> bytes_ok raw ->
  codec_roundtrip (fun enc => decode_rle enc w n (zlen raw)) raw (encode_rle raw (zlen raw) w n).
Proof. apply encode_rle_spec. Qed.

Lemma rle_roundtrip_witness :
  let raw := [7; 0; 7; 0; 7; 0; 7; 0; 7; 0; 9; 1; 9; 1; 9; 1; 9; 1] in
  encode_rle raw 18 2 9 = Ok (Some [5; 0; 0; 0; 7; 0; 4; 0; 0; 0; 9; 1]) /\
  codec_roundtrip (fun enc => decode_rle enc 2 9 18) raw (encode_rle raw 18 2 9).
Proof.
  intros raw. split; [by vm_compute|].
  apply (rle_roundtrip raw 2 9); [lia|lia|done|vm_compute; congruence|].
  apply (bool_decide_unpack _). vm_compute. exact I.
Defined.

(** The run iterator, driven to its end over a stream of [n] values,
    visits the stream exactly: the runs it reports expand to the stream's
    bytes in order, their lengths are positive and add up to [n], and they are
    maximal (two neighbouring runs never carry the same value), so a consumer
    that aggregates once per run sees every value exactly once. *)
Theorem block_runs_partition (raw : list Z) (w n : Z) :
  1 <= w -> 0 <= n -> n * w = zlen raw ->
  exists rs, block_runs (S (Z.to_nat n)) (PgColumnarBlockReaderInit raw n w) = Ok rs /\
    runs_expand rs = raw /\ runs_count rs = n /\
    Forall (fun r => 1 <= r.1 /\ zlen r.2 = w) rs /\ maximal rs.
Proof.
  intros Hw Hn Hl. unfold PgColumnarBlockReaderInit.
  destruct (block_runs_spec raw w n (S (Z.to_nat n)) 0) as (rs & -> & He & Hc & Hok & Hm & _);
    try lia.
  exists rs. repeat split; try done; [|lia].
  rewrite He. unfold span. rewrite Z.sub_0_r, Hl. change (Z.to_nat (0 * w)) with 0%nat.
  rewrite drop_0. apply take_ge. unfold zlen. lia.
Qed.

Lemma block_runs_partition_witness :
  let raw := [1; 1; 1; 5; 5; 1] in
  exists rs, block_runs 7 (PgColumnarBlockReaderInit raw 6 1) = Ok rs /\
    runs_expand rs = raw /\ runs_count rs = 6 /\
    Forall (fun r => 1 <= r.1 /\ zlen r.2 = 1) rs /\ maximal rs.
Proof. intros raw. apply (block_runs_partition raw 1 6); [lia|lia|done]. Defined.
