(* ===== verification/Gorilla.v ===== *)
(** * Gorilla: XOR against the previous value

    [encode_gorilla]/[decode_gorilla] of [src/columnar_encoding.c], for the
    bit patterns of [float4] and [float8] columns.  The codec never looks at
    the values as floats: it is exact on every bit pattern, NaNs included. *)

From S2P Require Import Prelude BitPack BitStream Codec IntCodecs.

(** ** Definitions *)

(** [int field = (w == 8) ? 6 : 5] *)
Definition gorilla_field (w : Z) : Z := if w =? 8 then 6 else 5.

Section Encode.
Context `{PgBitutils}.

(** The body of the encoder's loop: write [v] given its predecessor. *)
Definition gorilla_put (w prev v : Z) (bw : BitWriter) : BitWriter :=
  let total := w * 8 in
  let x := Z.lxor v prev in
  if x =? 0 then bw_put bw 0 1
  else
    let lz := clz_in x total in
    let tz := ctz_in x in
    let mlen := total - lz - tz in
    let bw := bw_put bw 1 1 in
    let bw := bw_put bw (u64 lz) (gorilla_field w) in
    let bw := bw_put bw (u64 (mlen - 1)) (gorilla_field w) in
    bw_put bw (Z.shiftr x tz) mlen.

Definition encode_gorilla (raw : list Z) (rawLen w n : Z) : res (option (list Z)) :=
  match load_vals raw n w with
  | [] => Oob
  | v0 :: rest =>
      let st := fold_left (fun st v => (gorilla_put w st.2 v st.1, v)) rest
                  (bw_put bw_init v0 (w * 8), v0) in
      Ok (keep_if_smaller (bw_buf (bw_flush st.1)) rawLen)
  end.
End Encode.

(** The body of the decoder's loop: read the next value given its predecessor. *)
Definition gorilla_get (w : Z) (br : BitReader) (prev : Z) : res (Z * BitReader) :=
  let total := w * 8 in
  '(c, br) ← br_get br 1;
  if c =? 0 then Ok (prev, br)
  else
    '(lz, br) ← br_get br (gorilla_field w);
    '(m, br) ← br_get br (gorilla_field w);
    let mlen := m + 1 in
    let tz := total - lz - mlen in
    if (lz <? 0) || (mlen <? 1) || (total <? mlen) || (tz <? 0)
    then Err "GORILLA XOR field out of range"
    else
      '(meaningful, br) ← br_get br mlen;
      Ok (Z.lxor prev (u64 (Z.shiftl meaningful tz)), br).

Definition decode_gorilla (enc : list Z) (w n rawLen : Z) : res (list Z) :=
  raw ← alloc_raw rawLen;
  '(prev, br) ← br_get (br_init enc (zlen enc)) (w * 8);
  raw ← (if 0 <? n then store_uint raw 0 prev w else Ok raw);
  st ← forZ 1 n (fun i st =>
    let '(raw, (br, prev)) := st in
    '(v, br) ← gorilla_get w br prev;
    raw ← store_uint raw (i * w) v w;
    Ok (raw, (br, v))) (raw, (br, prev));
  Ok (take (Z.to_nat rawLen) st.1).

(** ** Writing and reading back bit fields *)

(** The bits [bw] has written are the low bits of [F]. *)
Definition written (F : Z) (bw : BitWriter) : Prop :=
  bw_wf bw /\ F mod 2 ^ bw_total bw = bw_val bw.

Lemma written_put F bw v bits :
  0 <= F -> bw_wf bw -> 0 <= v < 2 ^ 64 -> 0 <= bits <= 64 -> written F (bw_put bw v bits) ->
  written F bw /\ bw_total (bw_put bw v bits) = bw_total bw + bits /\
  field F (bw_total bw) bits = v mod 2 ^ bits.
Proof.
  intros HF Hwf Hv Hb [_ HW]. destruct (bw_put_spec bw v bits Hwf Hv Hb) as (Hwf' & Ht & Hvl).
  rewrite Ht, Hvl in HW. pose proof (bw_total_nonneg bw Hwf). pose proof (bw_val_bound bw Hwf).
  rewrite Z.pow_add_r in HW by lia.
  pose proof (pow2_pos (bw_total bw) ltac:(lia)). pose proof (pow2_pos bits ltac:(lia)).
  rewrite Z.rem_mul_r in HW by lia.
  pose proof (mod_pow2_bound F (bw_total bw) ltac:(lia)).
  assert (HX : F mod 2 ^ bw_total bw = bw_val bw /\ (F / 2 ^ bw_total bw) mod 2 ^ bits = v mod 2 ^ bits).
  { set (q := (F / 2 ^ bw_total bw) mod 2 ^ bits) in *. set (r := F mod 2 ^ bw_total bw) in *.
    destruct (Z.div_mod_unique (2 ^ bw_total bw) q (v mod 2 ^ bits) r (bw_val bw)); lia. }
  destruct HX. repeat split; try apply Hwf; done.
Qed.

(** A stream [D] that holds everything [bw] wrote, and the reader standing
    where the writer stood. *)
Definition holds (D : list Z) (bw : BitWriter) : Prop :=
  written (le_uint D) bw /\ bw_total bw <= 8 * zlen D.
Definition reader_at (D : list Z) (bw : BitWriter) : BitReader :=
  mkBR D (zlen D * 8) (bw_total bw).

Lemma holds_put D bw v bits :
  bytes_ok D -> bw_wf bw -> 0 <= v < 2 ^ 64 -> 0 <= bits <= 64 -> holds D (bw_put bw v bits) ->
  holds D bw.
Proof.
  intros HD Hwf Hv Hb [HW Hl]. pose proof (le_uint_bound D HD).
  destruct (written_put (le_uint D) bw v bits ltac:(lia) Hwf Hv Hb HW) as (HW' & Ht & _).
  split; [done|lia].
Qed.

Lemma br_get_written D bw v bits :
  bytes_ok D -> zlen D < 2 ^ 32 -> bw_wf bw -> 0 <= v < 2 ^ 64 -> 0 <= bits <= 64 ->
  holds D (bw_put bw v bits) ->
  br_get (reader_at D bw) bits = Ok (v mod 2 ^ bits, reader_at D (bw_put bw v bits)).
Proof.
  intros HD H32 Hwf Hv Hb [HW Hl]. pose proof (le_uint_bound D HD).
  destruct (written_put (le_uint D) bw v bits ltac:(lia) Hwf Hv Hb HW) as (_ & Ht & Hf).
  pose proof (bw_total_nonneg bw Hwf).
  rewrite br_get_Ok; [|repeat split; cbn; try done; lia|done|cbn; lia].
  unfold reader_at. cbn [br_data br_nbits br_bitpos]. by rewrite Hf, <- Ht.
Qed.

(** ** One value *)

Section Value.
Context `{PgBitutils}.

Lemma gorilla_field_range w : bad_width w = false -> 5 <= gorilla_field w <= 6 /\ w * 8 <= 2 ^ gorilla_field w.
Proof.
  intros Hw. unfold gorilla_field. apply width_cases in Hw.
  destruct (Z.eqb_spec w 8) as [->|Hn]; simpl; lia.
Qed.

(** What [gorilla_put] needs of a pair of values of [w] bytes. *)
Lemma gorilla_window w prev v :
  bad_width w = false -> 0 <= prev < 2 ^ (8 * w) -> 0 <= v < 2 ^ (8 * w) -> Z.lxor v prev <> 0 ->
  let x := Z.lxor v prev in
  let lz := clz_in x (w * 8) in let tz := ctz_in x in let mlen := w * 8 - lz - tz in
  0 <= x < 2 ^ (w * 8) /\ 0 <= lz < w * 8 /\ 0 <= tz /\ 1 <= mlen <= w * 8 /\
  0 <= Z.shiftr x tz < 2 ^ mlen /\ Z.shiftl (Z.shiftr x tz) tz = x /\ v = Z.lxor prev x.
Proof.
  intros Hw Hp Hv Hx. pose proof (width_cases w Hw) as Hwc. cbv zeta.
  assert (Hxr : 0 <= Z.lxor v prev < 2 ^ (w * 8)).
  { rewrite (Z.mul_comm w).
    replace (Z.lxor v prev) with (Z.lxor v prev mod 2 ^ (8 * w)); [apply mod_pow2_bound; lia|].
    zbits. }
  destruct (window (Z.lxor v prev) (w * 8)) as (H1 & H2 & H3 & H4 & H5); [lia|lia|].
  repeat split; try lia.
  - rewrite Z.shiftl_mul_pow2 by done. by rewrite <- H4.
  - by rewrite (Z.lxor_comm v), <- Z.lxor_assoc, Z.lxor_nilpotent, Z.lxor_0_l.
Qed.

Lemma gorilla_put_wf w prev v bw :
  bad_width w = false -> 0 <= prev < 2 ^ (8 * w) -> 0 <= v < 2 ^ (8 * w) -> bw_wf bw ->
  bw_wf (gorilla_put w prev v bw) /\
  bw_total bw <= bw_total (gorilla_put w prev v bw) <= bw_total bw + 77.
Proof.
  intros Hw Hp Hv Hwf. unfold gorilla_put. destruct (Z.eqb_spec (Z.lxor v prev) 0) as [Hx|Hx].
  { destruct (bw_put_spec bw 0 1 Hwf) as (? & -> & _); [lia|lia|]. split; [done|lia]. }
  destruct (gorilla_window w prev v Hw Hp Hv Hx) as (Hxr & Hlz & Htz & Hml & Hsh & _).
  destruct (gorilla_field_range w Hw) as [Hf _]. pose proof (width_cases w Hw) as Hwc.
  set (lz := clz_in _ _) in *. set (tz := ctz_in _) in *. set (ml := w * 8 - lz - tz) in *.
  assert (2 ^ ml <= 2 ^ 64) by (apply Z.pow_le_mono_r; lia).
  destruct (bw_put_spec bw 1 1 Hwf) as (W1 & T1 & _); [lia|lia|].
  destruct (bw_put_spec _ (u64 lz) (gorilla_field w) W1) as (W2 & T2 & _); [apply u64_bound|lia|].
  destruct (bw_put_spec _ (u64 (ml - 1)) (gorilla_field w) W2) as (W3 & T3 & _); [apply u64_bound|lia|].
  destruct (bw_put_spec _ (Z.shiftr (Z.lxor v prev) tz) ml W3) as (W4 & T4 & _); [lia|lia|].
  split; [done|]. lia.
Qed.

(** Reading back one value. *)
Lemma gorilla_get_put w prev v bw D :
  bad_width w = false -> 0 <= prev < 2 ^ (8 * w) -> 0 <= v < 2 ^ (8 * w) ->
  bytes_ok D -> zlen D < 2 ^ 32 -> bw_wf bw -> holds D (gorilla_put w prev v bw) ->
  holds D bw /\
  gorilla_get w (reader_at D bw) prev = Ok (v, reader_at D (gorilla_put w prev v bw)).
Proof.
  intros Hw Hp Hv HD H32 Hwf. unfold gorilla_put, gorilla_get.
  destruct (Z.eqb_spec (Z.lxor v prev) 0) as [Hx|Hx]; intros Hh.
  { split; [by apply (holds_put D bw 0 1); try lia|].
    rewrite (br_get_written D bw 0 1) by (done || lia). cbn.
    by apply Z.lxor_eq in Hx as ->. }
  destruct (gorilla_window w prev v Hw Hp Hv Hx) as (Hxr & Hlz & Htz & Hml & Hsh & Hback & Hveq).
  destruct (gorilla_field_range w Hw) as [Hf Hfw]. pose proof (width_cases w Hw) as Hwc.
  set (lz := clz_in _ _) in *. set (tz := ctz_in _) in *. set (ml := w * 8 - lz - tz) in *.
  set (x := Z.lxor v prev) in *. set (f := gorilla_field w) in *.
  assert (2 ^ ml <= 2 ^ 64) by (apply Z.pow_le_mono_r; lia).
  assert (2 ^ (w * 8) <= 2 ^ 64) by (apply Z.pow_le_mono_r; lia).
  rewrite (u64_small lz), (u64_small (ml - 1)) in * by lia.
  destruct (bw_put_spec bw 1 1 Hwf) as (W1 & _); [lia|lia|].
  destruct (bw_put_spec _ lz f W1) as (W2 & _); [lia|lia|].
  destruct (bw_put_spec _ (ml - 1) f W2) as (W3 & _); [lia|lia|].
  pose proof (holds_put D _ (Z.shiftr x tz) ml HD W3 ltac:(lia) ltac:(lia) Hh) as Hh3.
  pose proof (holds_put D _ (ml - 1) f HD W2 ltac:(lia) ltac:(lia) Hh3) as Hh2.
  pose proof (holds_put D _ lz f HD W1 ltac:(lia) ltac:(lia) Hh2) as Hh1.
  split; [apply (holds_put D bw 1 1); try done; lia|].
  rewrite (br_get_written D bw 1 1) by (done || lia). cbn [mbind res_bind].
  change (1 mod 2 ^ 1 =? 0) with false. cbn iota.
  rewrite (br_get_written D _ lz f) by (done || lia). cbn [mbind res_bind].
  rewrite (br_get_written D _ (ml - 1) f) by (done || lia). cbn [mbind res_bind].
  rewrite (Z.mod_small lz), (Z.mod_small (ml - 1)) by lia.
  replace (ml - 1 + 1) with ml by lia. replace (w * 8 - lz - ml) with tz by lia.
  destruct (Z.ltb_spec lz 0); [lia|]. destruct (Z.ltb_spec ml 1); [lia|].
  destruct (Z.ltb_spec (w * 8) ml); [lia|]. destruct (Z.ltb_spec tz 0); [lia|]. cbn [orb].
  rewrite (br_get_written D _ (Z.shiftr x tz) ml) by (done || lia). cbn [mbind res_bind].
  rewrite (Z.mod_small (Z.shiftr x tz)), Hback, u64_small by lia. by rewrite <- Hveq.
Qed.
End Value.

(** ** The stream *)

Section StreamProofs.
Context `{PgBitutils}.

Definition puts (w v0 : Z) (l : list Z) : BitWriter * Z :=
  fold_left (fun st v => (gorilla_put w st.2 v st.1, v)) l (bw_put bw_init v0 (w * 8), v0).

Lemma puts_snoc w v0 l v :
  puts w v0 (l ++ [v]) = (gorilla_put w (puts w v0 l).2 v (puts w v0 l).1, v).
Proof. unfold puts. by rewrite fold_left_app. Qed.

Lemma puts_last w v0 l : (puts w v0 l).2 = List.last (v0 :: l) 0.
Proof.
  destruct l as [|v l] using rev_ind; [done|]. rewrite puts_snoc.
  change (v0 :: l ++ [v]) with ((v0 :: l) ++ [v]). by rewrite last_last.
Qed.

Context (w v0 : Z) (Hw : bad_width w = false) (Hv0 : 0 <= v0 < 2 ^ (8 * w)).

Lemma last_range l :
  Forall (fun v => 0 <= v < 2 ^ (8 * w)) l -> 0 <= (puts w v0 l).2 < 2 ^ (8 * w).
Proof using Hv0.
  intros Hl. rewrite puts_last. destruct l as [|v l] using rev_ind; [done|].
  change (v0 :: l ++ [v]) with ((v0 :: l) ++ [v]). rewrite last_last.
  apply Forall_app in Hl as [_ Hl]. by inversion Hl.
Qed.

Lemma puts_wf l :
  Forall (fun v => 0 <= v < 2 ^ (8 * w)) l ->
  bw_wf (puts w v0 l).1 /\ w * 8 <= bw_total (puts w v0 l).1 <= 64 + 77 * zlen l.
Proof using Hw Hv0.
  pose proof (width_cases w Hw) as Hwc.
  assert (2 ^ (8 * w) <= 2 ^ 64) by (apply Z.pow_le_mono_r; lia).
  induction l as [|v l IH] using rev_ind; intros Hl.
  - destruct bw_init_wf as (Hi & Ht & _). cbn [puts fold_left fst].
    destruct (bw_put_spec bw_init v0 (w * 8) Hi) as (Hwf & Htt & _); [lia|lia|].
    unfold puts. cbn [fold_left fst]. rewrite Htt, Ht. change (zlen []) with 0.
    split; [done|]. lia.
  - apply Forall_app in Hl as [Hl Hv]. inversion_clear Hv as [|? ? Hv1 _].
    destruct (IH Hl) as [Hwf Ht]. rewrite puts_snoc, zlen_app. cbn [fst].
    change (zlen [v]) with 1.
    destruct (gorilla_put_wf w (puts w v0 l).2 v _ Hw (last_range l Hl) Hv1 Hwf) as [Hwf' Ht'].
    split; [done|]. lia.
Qed.

Lemma holds_prefix D l l' :
  bytes_ok D -> zlen D < 2 ^ 32 -> Forall (fun v => 0 <= v < 2 ^ (8 * w)) (l ++ l') ->
  holds D (puts w v0 (l ++ l')).1 -> holds D (puts w v0 l).1.
Proof using Hw Hv0.
  intros HD H32. induction l' as [|v l' IH] using rev_ind; intros Hl Hh.
  - by rewrite app_nil_r in Hh.
  - rewrite app_assoc in Hh, Hl. rewrite puts_snoc in Hh. apply Forall_app in Hl as [Hl Hv].
    inversion_clear Hv as [|? ? Hv1 _]. apply IH; [done|].
    destruct (puts_wf _ Hl) as [Hwf _].
    by destruct (gorilla_get_put w _ v _ D Hw (last_range _ Hl) Hv1 HD H32 Hwf Hh).
Qed.

(** Reading value [i] of a stream that holds them all. *)
Lemma gorilla_get_at D rest i :
  bytes_ok D -> zlen D < 2 ^ 32 -> Forall (fun v => 0 <= v < 2 ^ (8 * w)) rest ->
  holds D (puts w v0 rest).1 -> 0 <= i < zlen rest ->
  gorilla_get w (reader_at D (puts w v0 (take (Z.to_nat i) rest)).1)
    (puts w v0 (take (Z.to_nat i) rest)).2
  = Ok (nthZ rest i, reader_at D (puts w v0 (take (Z.to_nat (i + 1)) rest)).1) /\
  (puts w v0 (take (Z.to_nat (i + 1)) rest)).2 = nthZ rest i.
Proof using Hw Hv0.
  intros HD H32 Hl Hh Hi.
  destruct (lookup_lt_is_Some_2 rest (Z.to_nat i)) as [v Hv]; [unfold zlen in Hi; lia|].
  rewrite (nthZ_lookup _ _ _ Hv). replace (Z.to_nat (i + 1)) with (S (Z.to_nat i)) by lia.
  rewrite (take_S_r _ _ _ Hv), puts_snoc. cbn [fst snd]. split; [|done].
  set (l := take (Z.to_nat i) rest).
  assert (Hll : Forall (fun v => 0 <= v < 2 ^ (8 * w)) l) by (by apply Forall_take).
  assert (Hv1 : 0 <= v < 2 ^ (8 * w)) by (exact (Forall_lookup_1 _ _ _ _ Hl Hv)).
  destruct (puts_wf l Hll) as [Hwf _].
  apply (gorilla_get_put w _ v _ D Hw (last_range _ Hll) Hv1 HD H32 Hwf).
  change (gorilla_put w (puts w v0 l).2 v (puts w v0 l).1)
    with (gorilla_put w (puts w v0 l).2 v (puts w v0 l).1, v).1.
  rewrite <- puts_snoc. unfold l. rewrite <- (take_S_r _ _ _ Hv).
  apply (holds_prefix D _ (drop (S (Z.to_nat i)) rest)); try done; by rewrite take_drop.
Qed.

Lemma holds_flush l :
  Forall (fun v => 0 <= v < 2 ^ (8 * w)) l ->
  let D := bw_buf (bw_flush (puts w v0 l).1) in
  bytes_ok D /\ holds D (puts w v0 l).1 /\ zlen D <= 9 + 10 * zlen l.
Proof using Hw Hv0.
  intros Hl D. destruct (puts_wf l Hl) as [Hwf Ht].
  destruct (bw_flush_spec _ Hwf) as (HD & HlD & HvD). fold D in HD, HlD, HvD.
  pose proof (zlen_nonneg l).
  pose proof (bw_val_bound _ Hwf). div_bounds (bw_total (puts w v0 l).1 + 7) 8.
  split; [done|]. split; [|lia]. split; [|lia]. split; [done|]. rewrite HvD.
  by apply Z.mod_small.
Qed.
End StreamProofs.

(** The decoder's loop body in the shape the shared loop lemmas take. *)
Definition gorilla_step (w : Z) (i : Z) (st : BitReader * Z) : res (Z * (BitReader * Z)) :=
  r ← gorilla_get w st.1 st.2; Ok (r.1, (r.2, r.1)).

Lemma gorilla_step_eq w i st :
  (let '(raw, (br, prev)) := st in
   '(v, br) ← gorilla_get w br prev; raw ← store_uint raw (i * w) v w; Ok (raw, (br, v)))
  = (r ← gorilla_step w i st.2; raw ← store_uint st.1 (i * w) r.1 w; Ok (raw, r.2)).
Proof.
  destruct st as [raw [br prev]]. unfold gorilla_step. cbn [fst snd].
  by destruct (gorilla_get w br prev) as [[v br']| | |].
Qed.

Lemma encode_gorilla_spec `{PgBitutils} raw w n :
  int_stream raw w n ->
  codec_roundtrip (fun enc => decode_gorilla enc w n (zlen raw)) raw (encode_gorilla raw (zlen raw) w n).
Proof.
  intros Hs. pose proof (int_stream_w _ _ _ Hs) as Hw.
  destruct (int_stream_split _ _ _ Hs) as (v0 & rest & Hlv & Hlr & _ & _).
  destruct (stream_cons _ _ _ _ _ Hs Hlv) as (Hvl & _ & Hst & _ & _).
  pose proof Hs as (Hb & Hbw & Hn & Hl & Hal).
  pose proof (load_vals_bound raw n w Hb ltac:(lia)) as Hv. rewrite Hlv in Hv.
  inversion_clear Hv as [|? ? Hv0 Hvr].
  unfold encode_gorilla. rewrite Hlv. fold (puts w v0 rest).
  destruct (holds_flush w v0 Hbw Hv0 rest Hvr) as (HD & Hh & HlD).
  set (D := bw_buf (bw_flush (puts w v0 rest).1)) in *.
  assert (H32 : zlen D < 2 ^ 32) by (unfold MaxAllocSize in Hal; lia).
  apply keep_roundtrip; [done|unfold MaxAllocSize in *; lia|].
  unfold decode_gorilla. destruct (alloc_raw_stream _ _ _ Hs) as (buf & -> & Hf).
  cbn [mbind res_bind].
  pose proof (holds_prefix w v0 Hbw Hv0 D [] rest HD H32 Hvr Hh) as H0.
  assert (2 ^ (8 * w) <= 2 ^ 64) by (apply Z.pow_le_mono_r; lia).
  change (br_init D (zlen D)) with (reader_at D bw_init).
  rewrite (br_get_written D bw_init v0 (w * 8)) by (done || apply bw_init_wf || lia).
  rewrite (Z.mul_comm w 8), (Z.mod_small v0), (Z.mul_comm 8 w) by lia.
  cbn [mbind res_bind]. destruct (Z.ltb_spec 0 n); [|lia].
  rewrite <- Hvl in Hf. destruct (store_first v0 rest w buf) as (b1 & -> & Hf1); [lia|done|].
  cbn [mbind res_bind]. rewrite <- Hvl.
  rewrite (forZ_ext _ _ _ _ _ (gorilla_step_eq w)).
  edestruct (decode_loop (fun i st => st = (reader_at D (puts w v0 (take (Z.to_nat (i - 1)) rest)).1,
      (puts w v0 (take (Z.to_nat (i - 1)) rest)).2)) (gorilla_step w) (v0 :: rest) w 1 b1)
    as (s' & ->); [lia|lia|done|done| |].
  - intros i st Hi ->. unfold gorilla_step. cbn [fst snd].
    destruct (gorilla_get_at w v0 Hbw Hv0 D rest (i - 1)) as [-> Hlast]; try done; [lia|].
    cbn [mbind res_bind fst snd]. rewrite nthZ_cons by lia. eexists. split; [done|].
    replace (i + 1 - 1) with (i - 1 + 1) by lia. by rewrite Hlast.
  - cbn [mbind res_bind fst]. rewrite Hst. f_equal. apply take_ge. unfold zlen. lia.
Qed.

(** ** The decoder on arbitrary bytes *)

Lemma gorilla_get_safe w br prev :
  bad_width w = false -> br_wf br -> safe (fun r => br_wf r.2) (gorilla_get w br prev).
Proof.
  intros Hw Hbr. destruct (gorilla_field_range w Hw) as [Hf _]. unfold gorilla_get.
  eapply safe_bind; [by apply br_get_safe|]. intros [c br1] (H1 & _). cbn [fst snd] in *.
  destruct (c =? 0); [done|].
  eapply safe_bind; [by apply br_get_safe|]. intros [lz br2] (H2 & _). cbn [fst snd] in *.
  eapply safe_bind; [by apply br_get_safe|]. intros [m br3] (H3 & _). cbn [fst snd] in *.
  match goal with |- context [if ?c then _ else _] => destruct c end; [done|].
  eapply safe_bind; [by apply br_get_safe|]. intros [mm br4] (H4 & _). done.
Qed.

Lemma decode_gorilla_safe enc w n rawLen :
  bytes_ok enc -> zlen enc < 2 ^ 32 -> bad_width w = false -> 0 <= n < 2 ^ 32 -> n * w = rawLen ->
  decode_safe rawLen (decode_gorilla enc w n rawLen).
Proof.
  intros Hb Hz Hbw Hn Hr. pose proof (width_cases w Hbw) as Hwc. unfold decode_gorilla, decode_safe.
  eapply safe_bind; [by apply alloc_raw_safe; lia|]. intros buf (sz & Hf & Hsz & _).
  eapply safe_bind; [by apply br_get_safe, br_init_wf|]. intros [v br] (Hbr & _). cbn [fst snd] in *.
  eapply safe_bind; [apply (store_first_safe n w sz); try done; lia|].
  intros b0 (vals & Hvl & Hf0).
  rewrite (forZ_ext _ _ _ _ _ (gorilla_step_eq w)).
  destruct (decide (n = 0)) as [->|Hn0].
  { cbn. apply (decoded_safe rawLen w 0 sz vals); try done; lia. }
  eapply safe_bind; [apply (decode_loop_safe (fun st => br_wf st.1) (gorilla_step w) w 1 n sz b0 vals);
    try done; try lia|].
  - intros i [br' p'] Hi Hbr'. unfold gorilla_step. cbn [fst snd] in *.
    eapply safe_bind; [by apply gorilla_get_safe|]. by intros [v' br''].
  - intros [b c] (vs & Hl & Hfb). apply (decoded_safe rawLen w n sz vs); try done; lia.
Qed.

(** ** Theorems *)

(** Gorilla encoding of a stream of 4 or 8 byte values (or any width the
    decoder admits) never fails, and what it keeps is shorter than the stream
    and decodes to exactly its bit patterns. *)
Theorem gorilla_roundtrip `{PgBitutils} (raw : list Z) (w n : Z) :
  int_stream raw w n ->
  codec_roundtrip (fun enc => decode_gorilla enc w n (zlen raw)) raw
    (encode_gorilla raw (zlen raw) w n).
Proof. apply encode_gorilla_spec. Qed.

Section Example_gorilla_roundtrip_witness.
#[local] Existing Instance pg_bitutils_scan.

Lemma gorilla_roundtrip_witness :
let raw := store_vals [1067282596; 1067282596; 1067282600; 1067282596] 4 in
(exists enc, encode_gorilla raw 16 4 4 = Ok (Some enc)) /\
codec_roundtrip (fun enc => decode_gorilla enc 4 4 16) raw (encode_gorilla raw 16 4 4).
Proof.
intros raw. split; [vm_compute; eauto|]. apply (gorilla_roundtrip raw 4 4).
unfold int_stream. split; [apply store_vals_ok|]. repeat split; vm_compute; congruence.
Defined.
End Example_gorilla_roundtrip_witness.
