(* ===== verification/OpenAddr.v ===== *)
(** * Linear probing

    The open-addressing search that [encode_dict], [fsst_lookup_build],
    [fsst_lookup_find], [fsst_count_add] and [PgColumnarFsstDictWins] of
    [src/columnar_encoding.c] all contain: start at a hashed slot, step by one
    modulo a power of two, stop at an empty slot or at the key.  The tables
    differ in what a slot holds; here a table is a partial map from slots to
    keys, and the invariant is that every key can be reached from its hash
    through occupied slots. *)

From S2P Require Import Prelude.

Inductive slot_state := Empty | Hit | Next.

(** [for (;;) { test slot s; s = (s + 1) & mask; }], with the slot it stopped
    at and whether the slot held the key. *)
Fixpoint probe (fuel : nat) (mask s : Z) (test : Z -> res slot_state) : res (Z * bool) :=
  match fuel with
  | O => Fuel
  | S f =>
      t ← test s;
      match t with
      | Empty => Ok (s, false)
      | Hit => Ok (s, true)
      | Next => probe f mask (Z.land (s + 1) mask) test
      end
  end.

Section OpenAddressing.
Context {K : Type} `{EqDecision K} (hash : K -> Z) (bits : Z) (Hbits : 0 <= bits).

Definition cap : Z := 2 ^ bits.
(** The slot [j] steps after the hash of [k]. *)
Definition walk (k : K) (j : Z) : Z := (hash k + j) mod cap.

(** Slot [s] is reached from [k]'s hash through occupied slots. *)
Definition reached (key : Z -> option K) (k : K) (s : Z) : Prop :=
  exists j, 0 <= j < cap /\ walk k j = s /\ forall i, 0 <= i < j -> key (walk k i) <> None.

Definition oa_inv (key : Z -> option K) : Prop :=
  forall s k, 0 <= s < cap -> key s = Some k -> reached key k s.

Definition slot_test (key : Z -> option K) (k : K) (s : Z) : slot_state :=
  match key s with
  | None => Empty
  | Some k' => if decide (k' = k) then Hit else Next
  end.

Lemma cap_pos : 0 < cap.
Proof using Hbits. by apply pow2_pos. Qed.

Lemma walk_range k j : 0 <= walk k j < cap.
Proof using Hbits. apply Z.mod_pos_bound, cap_pos. Qed.

Lemma walk_next k j : Z.land (walk k j + 1) (cap - 1) = walk k (j + 1).
Proof using Hbits.
  unfold cap, walk. rewrite land_ones_mod by done.
  rewrite Zplus_mod_idemp_l. f_equal. lia.
Qed.

(** The walk visits every slot. *)
Lemma walk_surj k s : 0 <= s < cap -> exists j, 0 <= j < cap /\ walk k j = s.
Proof using Hbits.
  intros Hs. pose proof cap_pos. exists ((s - hash k) mod cap).
  split; [apply Z.mod_pos_bound; lia|]. unfold walk.
  rewrite Zplus_mod_idemp_r. replace (hash k + (s - hash k)) with s by lia.
  by apply Z.mod_small.
Qed.

Lemma walk_inj k i j : 0 <= i < cap -> 0 <= j < cap -> walk k i = walk k j -> i = j.
Proof using Hbits.
  intros Hi Hj He. unfold walk in He. pose proof cap_pos.
  assert (Hd : (i - j) mod cap = 0).
  { replace (i - j) with ((hash k + i) - (hash k + j)) by lia.
    rewrite Zminus_mod, He, Z.sub_diag. apply Z.mod_0_l. lia. }
  apply Z.mod_divide in Hd as [q Hq]; [|lia]. assert (q = 0) as -> by nia. lia.
Qed.

(** The probe stops before it has gone round, at the first slot of the walk
    that is empty or that [hit] accepts. *)
Lemma probe_walk (key : Z -> option K) (k : K) (hit : K -> bool) (test : Z -> res slot_state)
    (fuel : nat) (j e : Z) :
  (forall s, 0 <= s < cap -> test s = Ok (match key s with
     | None => Empty | Some k' => if hit k' then Hit else Next end)) ->
  0 <= j <= e -> e < cap -> key (walk k e) = None ->
  (forall i, 0 <= i < j -> exists k', key (walk k i) = Some k' /\ hit k' = false) ->
  (Z.to_nat (e - j) < fuel)%nat ->
  exists i b, probe fuel (cap - 1) (walk k j) test = Ok (walk k i, b) /\ 0 <= i <= e /\
    (forall i', 0 <= i' < i -> exists k', key (walk k i') = Some k' /\ hit k' = false) /\
    if b then exists k', key (walk k i) = Some k' /\ hit k' = true else key (walk k i) = None.
Proof using Hbits.
  intros Htest Hj Hec Hemp. revert j Hj. induction fuel as [|f IH]; intros j Hj Hocc Hf; [lia|].
  cbn [probe]. rewrite Htest by apply walk_range. cbn [mbind res_bind].
  destruct (key (walk k j)) as [k'|] eqn:Hk; [destruct (hit k') eqn:Hh|].
  - exists j, true. repeat split; try done; try lia; eauto.
  - assert (j <> e) by congruence. rewrite walk_next. apply IH; [lia| |lia].
    intros i Hi. destruct (decide (i = j)) as [->|]; [eauto|]. apply Hocc. lia.
  - exists j, false. repeat split; try done; lia.
Qed.

Lemma hash_start k : Z.land (hash k) (cap - 1) = walk k 0.
Proof using Hbits. unfold walk, cap. rewrite land_ones_mod by done. f_equal. lia. Qed.

(** Searching for a key. *)
Lemma probe_spec (key : Z -> option K) (k : K) (test : Z -> res slot_state) (fuel : nat) :
  (forall s, 0 <= s < cap -> test s = Ok (slot_test key k s)) ->
  oa_inv key -> (exists e, 0 <= e < cap /\ key e = None) -> (Z.to_nat cap <= fuel)%nat ->
  exists s b, probe fuel (cap - 1) (Z.land (hash k) (cap - 1)) test = Ok (s, b) /\
    0 <= s < cap /\
    if b then key s = Some k
    else key s = None /\ reached key k s /\ forall s', 0 <= s' < cap -> key s' <> Some k.
Proof using Hbits.
  intros Htest Hinv (e & He & Hemp) Hf. destruct (walk_surj k e He) as (je & Hje & Hw).
  rewrite hash_start.
  destruct (probe_walk key k (fun k' => bool_decide (k' = k)) test fuel 0 je)
    as (i & b & -> & Hi & Hocc & Hk); [|lia|lia|by rewrite Hw|intros; lia|lia|].
  { intros s Hs. rewrite Htest by done. unfold slot_test. destruct (key s) as [k'|]; [|done].
    by destruct (decide (k' = k)) as [->|Hne];
      [rewrite bool_decide_true by done|rewrite bool_decide_false by done]. }
  exists (walk k i), b. split; [done|]. split; [apply walk_range|].
  destruct b; [by destruct Hk as (k' & -> & ->%bool_decide_eq_true)|].
  split; [done|]. split.
  - exists i. repeat split; try lia. intros i' Hi'. destruct (Hocc i' Hi') as (k' & -> & _). done.
  - intros s' Hs' Heq. destruct (Hinv s' k Hs' Heq) as (j & Hj & Hwj & Hpath).
    destruct (Z.lt_trichotomy i j) as [Hlt|[->|Hgt]].
    + destruct (Hpath i); [lia|done].
    + rewrite Hwj in Hk. congruence.
    + destruct (Hocc j) as (k' & Hk' & Hne%bool_decide_eq_false); [lia|].
      rewrite Hwj, Heq in Hk'. congruence.
Qed.

(** Searching for a free slot, whatever keys are on the way. *)
Lemma probe_free (key : Z -> option K) (k : K) (test : Z -> res slot_state) (fuel : nat) :
  (forall s, 0 <= s < cap -> test s = Ok (match key s with None => Empty | Some _ => Next end)) ->
  (exists e, 0 <= e < cap /\ key e = None) -> (Z.to_nat cap <= fuel)%nat ->
  exists s, probe fuel (cap - 1) (Z.land (hash k) (cap - 1)) test = Ok (s, false) /\
    0 <= s < cap /\ key s = None /\ reached key k s.
Proof using Hbits.
  intros Htest (e & He & Hemp) Hf. destruct (walk_surj k e He) as (je & Hje & Hw).
  rewrite hash_start.
  destruct (probe_walk key k (fun _ => false) test fuel 0 je)
    as (i & b & -> & Hi & Hocc & Hk); [|lia|lia|by rewrite Hw|intros; lia|lia|].
  { intros s Hs. rewrite Htest by done. by destruct (key s). }
  destruct b; [by destruct Hk as (? & _ & ?)|].
  exists (walk k i). split; [done|]. split; [apply walk_range|]. split; [done|].
  exists i. repeat split; try lia. intros i' Hi'. destruct (Hocc i' Hi') as (k' & -> & _). done.
Qed.

(** Storing a key at an empty slot its walk reaches keeps the invariant. *)
Lemma oa_inv_insert (key key' : Z -> option K) (k : K) (s : Z) :
  oa_inv key -> reached key k s -> key s = None ->
  (forall s', 0 <= s' < cap -> key' s' = if decide (s' = s) then Some k else key s') ->
  oa_inv key'.
Proof using Hbits.
  intros Hinv Hr Hemp Hk' s0 k0 Hs0 Hs.
  assert (Hmono : forall s', 0 <= s' < cap -> key s' <> None -> key' s' <> None).
  { intros s' Hs' Hn. rewrite Hk' by done. by destruct (decide (s' = s)). }
  rewrite Hk' in Hs by done.
  assert (Hlift : forall k1 s1, reached key k1 s1 -> reached key' k1 s1).
  { intros k1 s1 (j & Hj & Hw & Hp). exists j. repeat split; try done; try lia.
    intros i Hi. apply Hmono; [apply walk_range|by apply Hp]. }
  destruct (decide (s0 = s)) as [->|Hne].
  - injection Hs as <-. by apply Hlift.
  - by apply Hlift, Hinv.
Qed.

Lemma oa_inv_empty (key : Z -> option K) :
  (forall s, 0 <= s < cap -> key s = None) -> oa_inv key.
Proof. intros H s k Hs Hk. rewrite H in Hk by done. done. Qed.
End OpenAddressing.

(** ** Counting occupied slots *)

Section Occupancy.
Context {A : Type} (P : A -> Prop) `{forall x, Decision (P x)}.

Lemma filter_lt_hole (l : list A) :
  (length (filter P l) < length l)%nat -> exists i x, l !! i = Some x /\ ~ P x.
Proof using.
  induction l as [|x l IH]; simpl; [lia|]. rewrite filter_cons.
  destruct (decide (P x)) as [Hp|Hp]; simpl; intros Hl.
  - destruct IH as (i & y & Hy & Hn); [lia|]. by exists (S i), y.
  - by exists 0%nat, x.
Qed.

Lemma filter_insert_new (l : list A) (i : nat) (x y : A) :
  l !! i = Some x -> ~ P x -> P y ->
  length (filter P (<[i := y]> l)) = S (length (filter P l)).
Proof using.
  intros Hl Hx Hy. revert i Hl. induction l as [|z l IH]; intros i Hl; [done|].
  destruct i as [|i]; simpl in *.
  - injection Hl as ->. rewrite !filter_cons. rewrite decide_True, decide_False by done. done.
  - rewrite !filter_cons. destruct (decide (P z)); simpl; by rewrite IH.
Qed.

Lemma filter_none (n : nat) (x : A) : ~ P x -> filter P (replicate n x) = [].
Proof using.
  intros Hx. induction n as [|n IH]; [done|]. cbn [replicate]. by rewrite filter_cons_False.
Qed.
End Occupancy.
