(* ===== verification/Varlena.v ===== *)
(** * Varlena headers in a packed value stream

    [PgColumnarVarSizeAnyUnaligned] and its bounded variant, from
    [src/columnar.h], over the header layout PostgreSQL's [varatt.h] documents
    for a little-endian host; and the values of a column as the encoders see
    them: [attlen] bytes each, or self-delimited varlenas. *)

From S2P Require Import Prelude BitPack Codec.

(** The size of an external (TOAST pointer) datum is computed by PostgreSQL from
    its tag byte; no value of a native stream has one. *)
Class VarattExternal : Type := VARSIZE_EXTERNAL : list Z -> res Z.

Definition VARATT_IS_1B (b : Z) : bool := Z.land b 1 =? 1.
Definition VARATT_IS_1B_E (b : Z) : bool := b =? 1.

(** A pointer into a buffer is the buffer's bytes from there on. *)
Definition PgColumnarVarSizeAnyUnaligned `{VarattExternal} (p : list Z) : res Z :=
  b ← rd1 p 0;
  if VARATT_IS_1B b || VARATT_IS_1B_E b then
    if VARATT_IS_1B_E b then VARSIZE_EXTERNAL p
    else Ok (Z.land (Z.shiftr b 1) 127)
  else
    hb ← rd p 0 4;
    Ok (Z.land (Z.shiftr (le_uint hb) 2) (2 ^ 30 - 1)).

(** [p] holds the bytes up to [end]. *)
Definition PgColumnarVarSizeAnyUnalignedBounded `{VarattExternal} (p : list Z) : res Z :=
  if zlen p <=? 0 then Err "varlena value starts at or past the value stream end"
  else
    b ← rd1 p 0;
    if VARATT_IS_1B_E b then Err "external TOAST pointer in a native value stream"
    else if negb (VARATT_IS_1B b) && (zlen p <? 4)
    then Err "varlena header runs past the value stream end"
    else
      len ← PgColumnarVarSizeAnyUnaligned p;
      if (len <? 1) || (zlen p <? len)
      then Err "varlena value length runs past the value stream end"
      else Ok len.

(** ** Values *)

(** A whole inline varlena: its header states its own length. *)
Definition inline_varlena (v : list Z) : bool :=
  match v with
  | [] => false
  | b :: _ =>
      if VARATT_IS_1B b
      then negb (VARATT_IS_1B_E b) && (Z.land (Z.shiftr b 1) 127 =? zlen v)
      else (4 <=? zlen v) &&
           (Z.land (Z.shiftr (le_uint (take 4 v)) 2) (2 ^ 30 - 1) =? zlen v)
  end.

(** A value of a column: [attlen] bytes, or one inline varlena. *)
Definition value_ok (att : Form_pg_attribute) (v : list Z) : Prop :=
  bytes_ok v /\
  if 0 <? attlen att then zlen v = attlen att
  else attlen att = -1 /\ inline_varlena v = true.

(** [(w > 0) ? w : PgColumnarVarSizeAnyUnaligned(p)] *)
Definition value_len `{VarattExternal} (att : Form_pg_attribute) (p : list Z) : res Z :=
  if 0 <? attlen att then Ok (attlen att) else PgColumnarVarSizeAnyUnaligned p.

Lemma rd1_head b l : rd1 (b :: l) 0 = Ok b.
Proof. rewrite rd1_Ok; [done|]. unfold zlen. simpl. lia. Qed.

Lemma inline_varlena_size `{VarattExternal} v rest :
  inline_varlena v = true -> PgColumnarVarSizeAnyUnaligned (v ++ rest) = Ok (zlen v).
Proof.
  unfold inline_varlena, PgColumnarVarSizeAnyUnaligned.
  destruct v as [|b v]; [done|]. rewrite <- app_comm_cons, rd1_head. cbn [mbind res_bind].
  destruct (VARATT_IS_1B b) eqn:E1; cbn [orb].
  - intros [H1 H2]%andb_true_iff. apply negb_true_iff in H1. rewrite H1.
    apply Z.eqb_eq in H2. by rewrite H2.
  - assert (VARATT_IS_1B_E b = false) as ->.
    { unfold VARATT_IS_1B, VARATT_IS_1B_E in *. destruct (Z.eqb_spec b 1) as [->|]; done. }
    intros [H1 H2]%andb_true_iff. apply Z.leb_le in H1. apply Z.eqb_eq in H2.
    change (b :: v ++ rest) with ((b :: v) ++ rest).
    rewrite rd_Ok by (rewrite ?zlen_app; pose proof (zlen_nonneg rest); lia).
    cbn [mbind res_bind]. change (Z.to_nat 0) with 0%nat. rewrite drop_0.
    change (Z.to_nat 4) with 4%nat. rewrite take_app_le by (unfold zlen in H1; lia).
    by rewrite H2.
Qed.

Lemma value_len_app `{VarattExternal} att v rest :
  value_ok att v -> value_len att (v ++ rest) = Ok (zlen v).
Proof.
  intros [_ Hv]. unfold value_len. destruct (0 <? attlen att); [by rewrite Hv|].
  apply inline_varlena_size, Hv.
Qed.

Lemma value_ok_pos att v : value_ok att v -> 1 <= zlen v.
Proof.
  intros [_ Hv]. destruct (Z.ltb_spec 0 (attlen att)); [lia|]. destruct Hv as [_ Hv].
  destruct v; [done|]. unfold zlen. simpl. lia.
Qed.

(** The bounded read stays inside the stream. *)
Lemma bounded_safe `{VarattExternal} p :
  bytes_ok p -> safe (fun len => 1 <= len <= zlen p) (PgColumnarVarSizeAnyUnalignedBounded p).
Proof.
  intros Hp. unfold PgColumnarVarSizeAnyUnalignedBounded. destruct (Z.leb_spec (zlen p) 0); [done|].
  rewrite rd1_Ok by lia. cbn [mbind res_bind]. set (b := nthZ p 0).
  destruct (VARATT_IS_1B_E b) eqn:EE; [done|].
  unfold PgColumnarVarSizeAnyUnaligned. rewrite rd1_Ok by lia. cbn [mbind res_bind]. fold b.
  rewrite EE, orb_false_r. destruct (VARATT_IS_1B b) eqn:E1; cbn [negb andb].
  + cbn [mbind res_bind]. destruct (_ || _) eqn:Ec; [done|].
    apply orb_false_iff in Ec as [?%Z.ltb_ge ?%Z.ltb_ge]. simpl. lia.
  + destruct (Z.ltb_spec (zlen p) 4); [done|]. rewrite rd_Ok by lia. cbn [mbind res_bind].
    destruct (_ || _) eqn:Ec; [done|].
    apply orb_false_iff in Ec as [?%Z.ltb_ge ?%Z.ltb_ge]. simpl. lia.
Qed.

(** It accepts every inline value that fits. *)
Lemma bounded_inline `{VarattExternal} v rest :
  inline_varlena v = true -> PgColumnarVarSizeAnyUnalignedBounded (v ++ rest) = Ok (zlen v).
Proof.
  intros Hv. unfold PgColumnarVarSizeAnyUnalignedBounded.
  rewrite inline_varlena_size by done. destruct v as [|b v]; [done|].
  assert (1 <= zlen (b :: v)) by (unfold zlen; simpl; lia).
  rewrite zlen_app. pose proof (zlen_nonneg rest).
  destruct (Z.leb_spec (zlen (b :: v) + zlen rest) 0); [lia|].
  rewrite <- app_comm_cons, rd1_head. cbn [mbind res_bind].
  assert (Hx : VARATT_IS_1B_E b = false /\ (VARATT_IS_1B b = true \/ 4 <= zlen (b :: v))).
  { cbn [inline_varlena] in Hv. destruct (VARATT_IS_1B b) eqn:E1.
    - apply andb_true_iff in Hv as [Hv _]. apply negb_true_iff in Hv. auto.
    - apply andb_true_iff in Hv as [Hv%Z.leb_le _]. split; [|auto].
      unfold VARATT_IS_1B, VARATT_IS_1B_E in *. destruct (Z.eqb_spec b 1) as [->|]; done. }
  destruct Hx as [-> Hx].
  assert (negb (VARATT_IS_1B b) && (zlen (b :: v) + zlen rest <? 4) = false) as ->.
  { destruct Hx as [->|Hx]; [done|]. rewrite (proj2 (Z.ltb_ge _ _)) by lia. apply andb_false_r. }
  destruct (Z.ltb_spec (zlen (b :: v)) 1); [lia|].
  destruct (Z.ltb_spec (zlen (b :: v) + zlen rest) (zlen (b :: v))); [lia|]. done.
Qed.

(** The bounded header read, on any bytes at all: it never reads past the
    end of the stream, and the length it returns lies within the stream; it
    never consults an external pointer; and it accepts every well-formed inline
    value that fits, with that value's length. *)
Theorem varsize_bounded_safe `{VarattExternal} (p : list Z) :
  bytes_ok p ->
  safe (fun len => 1 <= len <= zlen p) (PgColumnarVarSizeAnyUnalignedBounded p) /\
  (forall v rest, p = v ++ rest -> inline_varlena v = true ->
     PgColumnarVarSizeAnyUnalignedBounded p = Ok (zlen v)).
Proof. intros Hp. split; [by apply bounded_safe|]. intros v rest -> Hv. by apply bounded_inline. Qed.

(** An instance for evaluation: a stream with an external pointer is not read. *)
Definition varatt_external_none : VarattExternal := fun _ => Err "external datum".

Section Example_varsize_bounded_safe_witness.
#[local] Existing Instance varatt_external_none.

Lemma varsize_bounded_safe_witness :
let p := [11; 104; 101; 108; 108; 7; 1; 2] in
safe (fun len => 1 <= len <= 8) (PgColumnarVarSizeAnyUnalignedBounded p) /\
(forall v rest, p = v ++ rest -> inline_varlena v = true ->
   PgColumnarVarSizeAnyUnalignedBounded p = Ok (zlen v)).
Proof.
intros p. apply (varsize_bounded_safe p).
apply (bool_decide_unpack _). vm_compute. exact I.
Defined.
End Example_varsize_bounded_safe_witness.
