(* ===== verification/Dict.v ===== *)
(** * Dictionary encoding

    [encode_dict]/[decode_dict] of [src/columnar_encoding.c]: the distinct
    values in first-seen order, found through an open-addressing hash, then one
    bit-packed code per value.  The reference is the linear build: search the
    dictionary so far, append when absent. *)

From S2P Require Import Prelude BitPack Codec IntCodecs OpenAddr Varlena.

(** ** Definitions *)

Definition DICT_MAX_DISTINCT : Z := 1024.
Definition DICT_HASH_SLOTS : Z := 2048.

Definition pgcolumnar_fnv1a (p : list Z) : Z :=
  fold_left (fun h b => u64 (Z.lxor h b * 1099511628211)) p 1469598103934665603.

(** The encoder's locals: the hash slots, the dictionary ([distOff[j]],
    [distLen[j]] for [j < nd]), the codes so far and the cursor. *)
Record dict_st := mkDict {
  hslot : list Z; distOff : list Z; distLen : list Z; codes : list Z; dpos : Z
}.

Definition dict_init : dict_st := mkDict (replicate 2048 0) [] [] [] 0.

Section EncodeDict.
Context `{VarattExternal}.

(** One slot of the probe for the value [vp] of [vlen] bytes. *)
Definition dict_test (raw : list Z) (st : dict_st) (vp : list Z) (vlen s : Z) : res slot_state :=
  entry ← rd1 (hslot st) s;
  if entry =? 0 then Ok Empty
  else
    dl ← rd1 (distLen st) (entry - 1);
    if dl =? vlen then
      off ← rd1 (distOff st) (entry - 1);
      a ← rd raw off vlen;
      Ok (if decide (a = vp) then Hit else Next)
    else Ok Next.

(** One round of the loop over the values; [None] is [return false]. *)
Definition dict_step (raw : list Z) (att : Form_pg_attribute) (st : dict_st)
    : res (option dict_st) :=
  let pos := dpos st in
  vlen ← value_len att (drop (Z.to_nat pos) raw);
  vp ← rd raw pos vlen;
  let h := pgcolumnar_fnv1a vp in
  r ← probe (Z.to_nat DICT_HASH_SLOTS) (DICT_HASH_SLOTS - 1) (u32 (Z.land h (DICT_HASH_SLOTS - 1)))
        (dict_test raw st vp vlen);
  let '(s, found) := r in
  let nd := zlen (distOff st) in
  if (found : bool) then
    entry ← rd1 (hslot st) s;
    Ok (Some (mkDict (hslot st) (distOff st) (distLen st) (codes st ++ [entry - 1])
                (u32 (pos + vlen))))
  else if DICT_MAX_DISTINCT <=? nd then Ok None
  else
    hs ← wr1 (hslot st) s (nd + 1);
    Ok (Some (mkDict hs (distOff st ++ [pos]) (distLen st ++ [vlen]) (codes st ++ [nd])
                (u32 (pos + vlen)))).

Fixpoint dict_scan (n : nat) (raw : list Z) (att : Form_pg_attribute) (st : dict_st)
    : res (option dict_st) :=
  match n with
  | O => Ok (Some st)
  | S n' =>
      o ← dict_step raw att st;
      match o with
      | None => Ok None
      | Some st' => dict_scan n' raw att st'
      end
  end.

(** One dictionary entry as it is written. *)
Definition dict_entry (att : Form_pg_attribute) (v : list Z) : list Z :=
  if 0 <? attlen att then v else le_bytes 4 (zlen v) ++ v.

Definition encode_dict (raw : list Z) (rawLen : Z) (att : Form_pg_attribute) (n : Z)
    : res (option (list Z)) :=
  _ ← palloc (4 * n);
  o ← dict_scan (Z.to_nat n) raw att dict_init;
  match o with
  | None => Ok None
  | Some st =>
      let nd := zlen (distOff st) in
      let codeWidth := bits_needed (if 0 <? nd then nd - 1 else 0) in
      buf ← forZ 0 nd (fun j buf =>
        off ← rd1 (distOff st) j;
        len ← (if 0 <? attlen att then Ok (attlen att) else rd1 (distLen st) j);
        v ← rd raw off len;
        Ok (buf ++ dict_entry att v)) (le_bytes 4 nd);
      _ ← palloc (8 * n);
      buf ← bitpack (codes st) n codeWidth (buf ++ [u8 codeWidth]);
      Ok (keep_if_smaller buf rawLen)
  end.
End EncodeDict.

(** One dictionary entry parsed: its offset and length in [enc]. *)
Definition dict_parse (enc : list Z) (w p : Z) : res (Z * Z) :=
  if 0 <? w then
    if zlen enc <? p + w then Err "DICT fixed entry past encoded length"
    else Ok (p, w)
  else if zlen enc <? p + 4 then Err "DICT varlen header past encoded length"
  else
    lb ← rd enc p 4;
    let len := le_uint lb in
    let p := p + 4 in
    if u32 (zlen enc - p) <? len then Err "DICT varlen entry past encoded length"
    else Ok (p, len).

Definition decode_dict (enc : list Z) (att : Form_pg_attribute) (n rawLen : Z) : res (list Z) :=
  raw ← alloc_raw rawLen;
  if zlen enc <? 4 then Err "DICT header truncated"
  else
    ndb ← rd enc 0 4;
    let nd := le_uint ndb in
    _ ← palloc (8 * (if 0 <? nd then nd else 1));
    _ ← palloc (4 * (if 0 <? nd then nd else 1));
    st ← forZ 0 nd (fun j st =>
      let '(ents, p) := st in
      e ← dict_parse enc (attlen att) p;
      Ok (ents ++ [e], e.1 + e.2)) ([], 4);
    let '(ents, p) := (st : list (Z * Z) * Z) in
    if zlen enc <? p + 1 then Err "DICT code width past encoded length"
    else
      codeWidth ← rd1 enc p;
      let p := p + 1 in
      _ ← palloc (8 * (if 0 <? n then n else 1));
      codes ← bitunpack (drop (Z.to_nat p) enc) n codeWidth;
      st ← forZ 0 n (fun i st =>
        let '(raw, pos) := st in
        c ← rd1 codes i;
        let code := u32 c in
        if nd <=? code then Err "DICT code out of range"
        else
          match ents !! Z.to_nat code with
          | None => Oob
          | Some (dptr, dlen) =>
              if u32 (rawLen - pos) <? dlen then Err "DICT output exceeds raw length"
              else
                v ← rd enc dptr dlen;
                raw ← wr raw pos v;
                Ok (raw, u32 (pos + dlen))
          end) (raw, 0);
      if negb (st.2 =? rawLen) then Err "DICT output length does not match raw length"
      else Ok (take (Z.to_nat rawLen) st.1).

(** ** The linear build *)

(** First-seen order: a value already in the dictionary gets its code, a new
    one is appended.  [None] once a 1025th value would be needed. *)
Definition linear_step (st : list (list Z) * list Z) (v : list Z)
    : option (list (list Z) * list Z) :=
  let '(ds, cs) := st in
  match list_find (eq v) ds with
  | Some (j, _) => Some (ds, cs ++ [Z.of_nat j])
  | None => if DICT_MAX_DISTINCT <=? zlen ds then None
            else Some (ds ++ [v], cs ++ [zlen ds])
  end.

Fixpoint linear_build (st : list (list Z) * list Z) (vals : list (list Z))
    : option (list (list Z) * list Z) :=
  match vals with
  | [] => Some st
  | v :: r => match linear_step st v with None => None | Some st' => linear_build st' r end
  end.

(** What a dictionary and its codes serialise to. *)
Definition dict_serialize (att : Form_pg_attribute) (ds : list (list Z)) (cs : list Z) (n : Z)
    : res (list Z) :=
  let codeWidth := bits_needed (if 0 <? zlen ds then zlen ds - 1 else 0) in
  bitpack cs n codeWidth
    ((le_bytes 4 (zlen ds) ++ concat (dict_entry att <$> ds)) ++ [u8 codeWidth]).

Definition encode_dict_linear (att : Form_pg_attribute) (vals : list (list Z)) (rawLen : Z)
    : res (option (list Z)) :=
  match linear_build ([], []) vals with
  | None => Ok None
  | Some (ds, cs) =>
      buf ← dict_serialize att ds cs (zlen vals);
      Ok (keep_if_smaller buf rawLen)
  end.

(** ** The hash build is the linear build *)

Lemma fnv1a_range p : 0 <= pgcolumnar_fnv1a p < 2 ^ 64.
Proof.
  unfold pgcolumnar_fnv1a. destruct p as [|b p] using rev_ind; [simpl; lia|].
  rewrite fold_left_app. simpl. apply mod_pow2_bound. lia.
Qed.

(** What slot [s] of the hash stands for. *)
Definition slot_key (hs : list Z) (ds : list (list Z)) (s : Z) : option (list Z) :=
  if nthZ hs s =? 0 then None else ds !! Z.to_nat (nthZ hs s - 1).

(** The C state [st] represents the linear dictionary [ds] with codes [cs] after
    reading [pre]. *)
Record dict_rep (raw pre : list Z) (ds : list (list Z)) (cs : list Z) (st : dict_st) : Prop := {
  dr_pos : dpos st = zlen pre;
  dr_codes : codes st = cs;
  dr_len : distLen st = zlen <$> ds;
  dr_offl : zlen (distOff st) = zlen ds;
  dr_off : forall j v, ds !! j = Some v ->
    exists off, distOff st !! j = Some off /\ rd raw off (zlen v) = Ok v;
  dr_nodup : NoDup ds;
  dr_nd : zlen ds <= DICT_MAX_DISTINCT;
  dr_hs : length (hslot st) = 2048%nat;
  dr_entry : Forall (fun e => 0 <= e <= zlen ds) (hslot st);
  dr_count : length (filter (fun e => e <> 0) (hslot st)) = length ds;
  dr_inv : oa_inv pgcolumnar_fnv1a 11 (slot_key (hslot st) ds);
  dr_in : forall j v, ds !! j = Some v -> exists s, 0 <= s < 2048 /\ nthZ (hslot st) s = Z.of_nat j + 1
}.

Lemma nthZ_lookup_Some (l : list Z) i : 0 <= i < zlen l -> l !! Z.to_nat i = Some (nthZ l i).
Proof.
  intros Hi. destruct (lookup_lt_is_Some_2 l (Z.to_nat i)) as [v Hv]; [unfold zlen in Hi; lia|].
  by rewrite (nthZ_lookup _ _ _ Hv).
Qed.

Lemma rd1_lookup (l : list Z) (j : nat) i v : l !! j = Some v -> i = Z.of_nat j -> rd1 l i = Ok v.
Proof.
  intros Hl ->. pose proof (lookup_lt_Some _ _ _ Hl). rewrite rd1_Ok by (unfold zlen; lia).
  f_equal. apply nthZ_lookup. by rewrite Nat2Z.id.
Qed.

Lemma cap_11 : cap 11 = 2048.
Proof. done. Qed.

Lemma dict_mask : DICT_HASH_SLOTS - 1 = cap 11 - 1.
Proof. done. Qed.

Section Rep.
Context (raw : list Z).

Lemma dict_rep_init : dict_rep raw [] [] [] dict_init.
Proof.
  split; cbn [dict_init dpos codes distLen distOff hslot]; try done.
  - constructor.
  - apply Forall_replicate. change (zlen []) with 0. lia.
  - apply oa_inv_empty. intros s Hs. unfold slot_key, nthZ.
    assert (nth (Z.to_nat s) (replicate 2048 0) 0 = 0) as ->; [|done].
    destruct (nth_in_or_default (Z.to_nat s) (replicate 2048 0) 0) as [Hin|Hd]; [|done].
    by apply list_elem_of_In, elem_of_replicate in Hin as [? _].
Qed.

Context (pre : list Z) (ds : list (list Z)) (cs : list Z) (st : dict_st)
        (HR : dict_rep raw pre ds cs st).

(** An occupied slot names a dictionary entry. *)
Lemma slot_entry s :
  0 <= s < 2048 -> nthZ (hslot st) s <> 0 ->
  exists v, ds !! Z.to_nat (nthZ (hslot st) s - 1) = Some v /\ 1 <= nthZ (hslot st) s <= zlen ds.
Proof using HR.
  intros Hs Hne. assert (Hl : hslot st !! Z.to_nat s = Some (nthZ (hslot st) s)).
  { apply nthZ_lookup_Some. unfold zlen. rewrite (dr_hs _ _ _ _ _ HR). lia. }
  pose proof (Forall_lookup_1 _ _ _ _ (dr_entry _ _ _ _ _ HR) Hl) as He. cbn beta in He.
  destruct (lookup_lt_is_Some_2 ds (Z.to_nat (nthZ (hslot st) s - 1))) as [v Hv];
    [unfold zlen in *; lia|].
  exists v. split; [done|lia].
Qed.

Lemma dict_test_spec vp s :
  0 <= s < 2048 ->
  dict_test raw st vp (zlen vp) s = Ok (slot_test (slot_key (hslot st) ds) vp s).
Proof using HR.
  intros Hs. unfold dict_test, slot_test, slot_key.
  rewrite rd1_Ok by (unfold zlen; rewrite (dr_hs _ _ _ _ _ HR); lia). cbn [mbind res_bind].
  destruct (Z.eqb_spec (nthZ (hslot st) s) 0) as [He|He]; [done|].
  destruct (slot_entry s Hs He) as (v & Hv & He1). rewrite Hv.
  destruct (dr_off _ _ _ _ _ HR _ _ Hv) as (off & Hoff & Hrd).
  rewrite (rd1_lookup (distLen st) (Z.to_nat (nthZ (hslot st) s - 1)) _ (zlen v))
    by (try (rewrite (dr_len _ _ _ _ _ HR), list_lookup_fmap, Hv); done || lia).
  cbn [mbind res_bind]. destruct (Z.eqb_spec (zlen v) (zlen vp)) as [Hl|Hl].
  - rewrite (rd1_lookup (distOff st) _ _ _ Hoff) by lia. cbn [mbind res_bind].
    rewrite <- Hl, Hrd. cbn [mbind res_bind]. done.
  - rewrite decide_False by congruence. done.
Qed.

Lemma hslot_hole : exists e, 0 <= e < cap 11 /\ slot_key (hslot st) ds e = None.
Proof using HR.
  destruct (filter_lt_hole (fun e => e <> 0) (hslot st)) as (i & x & Hx & Hn).
  - rewrite (dr_count _ _ _ _ _ HR), (dr_hs _ _ _ _ _ HR).
    pose proof (dr_nd _ _ _ _ _ HR). unfold DICT_MAX_DISTINCT, zlen in *. lia.
  - pose proof (lookup_lt_Some _ _ _ Hx). rewrite (dr_hs _ _ _ _ _ HR) in *.
    exists (Z.of_nat i). rewrite cap_11. split; [lia|]. unfold slot_key.
    rewrite (nthZ_lookup _ _ x) by (by rewrite Nat2Z.id).
    destruct (Z.eqb_spec x 0); [done|]. by destruct Hn.
Qed.

(** A value that no slot stands for is not in the dictionary. *)
Lemma slot_key_absent v :
  (forall s, 0 <= s < cap 11 -> slot_key (hslot st) ds s <> Some v) -> list_find (eq v) ds = None.
Proof using HR.
  intros Hab. apply list_find_None. apply Forall_lookup. intros j x Hj ->.
  destruct (dr_in _ _ _ _ _ HR j x Hj) as (s & Hs & He).
  apply (Hab s); [by rewrite cap_11|]. unfold slot_key. rewrite He.
  destruct (Z.eqb_spec (Z.of_nat j + 1) 0); [lia|].
  by replace (Z.to_nat (Z.of_nat j + 1 - 1)) with j by lia.
Qed.

Lemma slot_key_found v s :
  0 <= s < 2048 -> slot_key (hslot st) ds s = Some v ->
  list_find (eq v) ds = Some (Z.to_nat (nthZ (hslot st) s - 1), v) /\ 1 <= nthZ (hslot st) s.
Proof using HR.
  intros Hs. unfold slot_key. destruct (Z.eqb_spec (nthZ (hslot st) s) 0) as [|Hne]; [done|].
  intros Hv. destruct (slot_entry s Hs Hne) as (_ & _ & He). split; [|lia].
  apply list_find_Some. split; [done|]. split; [done|]. intros j y Hj Hlt <-.
  pose proof (proj1 (NoDup_alt _) (dr_nodup _ _ _ _ _ HR) _ _ _ Hj Hv). lia.
Qed.
End Rep.

(** Adding a new value keeps the representation. *)
Lemma dict_rep_add raw pre rest ds cs st v s :
  dict_rep raw pre ds cs st -> raw = pre ++ v ++ rest ->
  0 <= s < 2048 -> slot_key (hslot st) ds s = None ->
  reached pgcolumnar_fnv1a 11 (slot_key (hslot st) ds) v s ->
  list_find (eq v) ds = None -> zlen ds < DICT_MAX_DISTINCT ->
  dict_rep raw (pre ++ v) (ds ++ [v]) (cs ++ [zlen ds])
    (mkDict (<[Z.to_nat s := zlen ds + 1]> (hslot st)) (distOff st ++ [zlen pre])
       (distLen st ++ [zlen v]) (codes st ++ [zlen ds]) (zlen pre + zlen v)).
Proof.
  intros HR Hraw Hs Hempty Hreach Hnew Hnd.
  assert (Hhl : zlen (hslot st) = 2048) by (unfold zlen; rewrite (dr_hs _ _ _ _ _ HR); done).
  assert (He0 : nthZ (hslot st) s = 0).
  { destruct (decide (nthZ (hslot st) s = 0)) as [|Hne]; [done|].
    destruct (slot_entry raw pre ds cs st HR s Hs Hne) as (x & Hx & _).
    unfold slot_key in Hempty. destruct (Z.eqb_spec (nthZ (hslot st) s) 0); congruence. }
  pose proof (zlen_nonneg ds).
  assert (Hkey : forall s', 0 <= s' < cap 11 ->
    slot_key (<[Z.to_nat s := zlen ds + 1]> (hslot st)) (ds ++ [v]) s'
    = if decide (s' = s) then Some v else slot_key (hslot st) ds s').
  { intros s' Hs'. rewrite cap_11 in Hs'. unfold slot_key. rewrite nthZ_insert by lia.
    destruct (decide (s' = s)) as [->|Hne].
    - destruct (Z.eqb_spec (zlen ds + 1) 0); [lia|].
      replace (Z.to_nat (zlen ds + 1 - 1)) with (length ds) by (unfold zlen; lia).
      by apply list_lookup_middle.
    - destruct (Z.eqb_spec (nthZ (hslot st) s') 0) as [|Hn0]; [done|].
      destruct (slot_entry raw pre ds cs st HR s' Hs' Hn0) as (x & Hx & _).
      rewrite Hx. by apply lookup_app_l_Some. }
  assert (Hsl : hslot st !! Z.to_nat s = Some 0) by (rewrite <- He0; apply nthZ_lookup_Some; lia).
  destruct HR. split; cbn [dpos codes distLen distOff hslot].
  - by rewrite zlen_app.
  - by rewrite dr_codes0.
  - by rewrite dr_len0, fmap_app.
  - rewrite !zlen_app, dr_offl0. done.
  - intros j x Hj. apply lookup_app_Some in Hj as [Hj|[Hle Hj]].
    + destruct (dr_off0 j x Hj) as (off & Ho & Hr). exists off.
      split; [by apply lookup_app_l_Some|done].
    + destruct (j - length ds)%nat as [|k] eqn:Ek; [|done]. injection Hj as <-.
      assert (j = length ds) as -> by lia. exists (zlen pre). split.
      * apply list_lookup_middle. unfold zlen in dr_offl0. lia.
      * subst raw. pose proof (zlen_nonneg pre). pose proof (zlen_nonneg v). pose proof (zlen_nonneg rest).
        rewrite rd_Ok by (rewrite ?zlen_app; lia). f_equal. unfold zlen. rewrite !Nat2Z.id.
        by rewrite drop_app_length, take_app_length.
  - apply list.NoDup_app. split; [done|]. split; [|apply NoDup_singleton].
    intros x Hx Hin. apply list_elem_of_singleton in Hin as ->.
    apply list_find_None in Hnew. rewrite Forall_forall in Hnew.
    apply (Hnew v); [by apply list_elem_of_In|done].
  - rewrite zlen_app. change (zlen [v]) with 1. lia.
  - by rewrite length_insert.
  - apply Forall_insert; [|rewrite zlen_app; change (zlen [v]) with 1; lia].
    eapply Forall_weaken; [exact dr_entry0|]. intros e He. cbn beta in *.
    rewrite zlen_app. change (zlen [v]) with 1. lia.
  - rewrite (filter_insert_new _ _ _ 0) by (done || lia). rewrite length_app, dr_count0. simpl. lia.
  - eapply oa_inv_insert; [lia|exact dr_inv0|exact Hreach|exact Hempty|exact Hkey].
  - intros j x Hj. apply lookup_app_Some in Hj as [Hj|[Hle Hj]].
    + destruct (dr_in0 j x Hj) as (s' & Hs' & Hn). exists s'. split; [done|].
      rewrite nthZ_insert by lia. rewrite decide_False; [done|]. intros ->. lia.
    + destruct (j - length ds)%nat as [|k] eqn:Ek; [|done].
      exists s. split; [done|]. rewrite nthZ_insert by lia. rewrite decide_True by done.
      unfold zlen. lia.
Qed.

Section HashIsLinear.
Context `{VarattExternal}.

Lemma dict_step_spec raw pre rest ds cs st att v :
  dict_rep raw pre ds cs st -> raw = pre ++ v ++ rest -> value_ok att v -> zlen raw < 2 ^ 32 ->
  match linear_step (ds, cs) v with
  | None => dict_step raw att st = Ok None
  | Some (ds', cs') =>
      exists st', dict_step raw att st = Ok (Some st') /\ dict_rep raw (pre ++ v) ds' cs' st'
  end.
Proof.
  intros HR Hraw Hv H32. unfold dict_step. rewrite (dr_pos _ _ _ _ _ HR).
  pose proof (zlen_nonneg pre). pose proof (value_ok_pos _ _ Hv). pose proof (zlen_nonneg rest).
  assert (Hz : zlen raw = zlen pre + (zlen v + zlen rest)) by (by rewrite Hraw, !zlen_app).
  assert (drop (Z.to_nat (zlen pre)) raw = v ++ rest) as ->.
  { rewrite Hraw. unfold zlen. rewrite Nat2Z.id. apply drop_app_length. }
  rewrite value_len_app by done. cbn [mbind res_bind].
  assert (Hrd : rd raw (zlen pre) (zlen v) = Ok v).
  { rewrite rd_Ok by lia. f_equal. rewrite Hraw. unfold zlen. rewrite !Nat2Z.id.
    by rewrite drop_app_length, take_app_length. }
  rewrite Hrd, bind_Ok. cbv zeta.
  replace (DICT_HASH_SLOTS - 1) with (cap 11 - 1) by (symmetry; exact dict_mask). pose proof (fnv1a_range v).
  rewrite (u32_small (Z.land _ _)).
  2:{ unfold cap. rewrite land_ones_mod by lia. pose proof (mod_pow2_bound (pgcolumnar_fnv1a v) 11). lia. }
  destruct (probe_spec pgcolumnar_fnv1a 11 ltac:(lia) (slot_key (hslot st) ds) v
    (dict_test raw st v (zlen v)) (Z.to_nat DICT_HASH_SLOTS)) as (s & b & -> & Hs & Hb).
  { intros s Hs. by apply (dict_test_spec raw pre ds cs). }
  { apply (dr_inv _ _ _ _ _ HR). }
  { by apply (hslot_hole raw pre ds cs). }
  { done. }
  rewrite cap_11 in Hs. cbn [mbind res_bind]. unfold linear_step.
  rewrite (u32_small (zlen pre + zlen v)) by lia.
  assert (Hhl : zlen (hslot st) = 2048) by (unfold zlen; rewrite (dr_hs _ _ _ _ _ HR); done).
  destruct b.
  - destruct (slot_key_found raw pre ds cs st HR v s Hs Hb) as [-> He].
    rewrite rd1_Ok by lia. cbn [mbind res_bind]. eexists. split; [done|].
    destruct HR. split; cbn [dpos codes distLen distOff hslot]; try done.
    + by rewrite zlen_app.
    + rewrite dr_codes0. do 2 f_equal. lia.
  - destruct Hb as (Hemp & Hreach & Hab).
    pose proof (slot_key_absent raw pre ds cs st HR v Hab) as Hnew.
    rewrite Hnew, (dr_offl _ _ _ _ _ HR).
    destruct (Z.leb_spec DICT_MAX_DISTINCT (zlen ds)) as [Hmax|Hmax]; [done|].
    rewrite wr1_Ok by lia. cbn [mbind res_bind]. eexists. split; [done|].
    by apply (dict_rep_add raw pre rest ds cs st v s).
Qed.

Lemma dict_scan_spec raw att vals pre ds cs st :
  dict_rep raw pre ds cs st -> raw = pre ++ concat vals -> Forall (value_ok att) vals ->
  zlen raw < 2 ^ 32 ->
  match linear_build (ds, cs) vals with
  | None => dict_scan (length vals) raw att st = Ok None
  | Some (ds', cs') =>
      exists st', dict_scan (length vals) raw att st = Ok (Some st') /\ dict_rep raw raw ds' cs' st'
  end.
Proof.
  intros HR Hraw Hv H32. revert pre ds cs st HR Hraw.
  induction Hv as [|v vals Hv Hvs IH]; intros pre ds cs st HR Hraw.
  - cbn. exists st. split; [done|]. cbn in Hraw. rewrite app_nil_r in Hraw. by rewrite <- Hraw in HR.
  - cbn [linear_build dict_scan length]. cbn [concat] in Hraw.
    pose proof (dict_step_spec raw pre (concat vals) ds cs st att v HR Hraw Hv H32) as Hstep.
    destruct (linear_step (ds, cs) v) as [[ds' cs']|].
    + destruct Hstep as (st' & -> & HR'). cbn [mbind res_bind].
      apply (IH (pre ++ v)); [done|]. by rewrite <- app_assoc.
    + by rewrite Hstep.
Qed.

(** The entry loop writes the dictionary. *)
Lemma dict_entries_loop raw pre ds cs st att buf0 :
  dict_rep raw pre ds cs st -> Forall (value_ok att) ds ->
  forZ 0 (zlen ds) (fun j buf =>
    off ← rd1 (distOff st) j;
    len ← (if 0 <? attlen att then Ok (attlen att) else rd1 (distLen st) j);
    v ← rd raw off len;
    Ok (buf ++ dict_entry att v)) buf0
  = Ok (buf0 ++ concat (dict_entry att <$> ds)).
Proof.
  intros HR Hds. pose proof (zlen_nonneg ds).
  match goal with |- forZ 0 _ ?f _ = _ =>
    destruct (forZ_Ok (fun j buf => buf = buf0 ++ concat (dict_entry att <$> take (Z.to_nat j) ds))
      f 0 (zlen ds) buf0) as (b & -> & Hb) end.
  - done.
  - intros j buf Hj ->.
    destruct (lookup_lt_is_Some_2 ds (Z.to_nat j)) as [v Hv]; [unfold zlen in Hj; lia|].
    destruct (dr_off _ _ _ _ _ HR _ _ Hv) as (off & Hoff & Hrd).
    rewrite (rd1_lookup _ _ _ _ Hoff) by lia. cbn [mbind res_bind].
    assert ((if 0 <? attlen att then Ok (attlen att) else rd1 (distLen st) j) = Ok (zlen v)) as ->.
    { destruct (Forall_lookup_1 _ _ _ _ Hds Hv) as [_ Hvo].
      destruct (0 <? attlen att); [by rewrite Hvo|].
      apply (rd1_lookup _ (Z.to_nat j)); [|lia].
      by rewrite (dr_len _ _ _ _ _ HR), list_lookup_fmap, Hv. }
    cbn [mbind res_bind]. rewrite Hrd. cbn [mbind res_bind]. eexists. split; [done|].
    replace (Z.to_nat (j + 1)) with (S (Z.to_nat j)) by lia.
    rewrite (take_S_r _ _ _ Hv), fmap_app, concat_app. cbn. by rewrite app_nil_r, app_assoc.
  - cbn. by rewrite app_nil_r.
  - subst b. rewrite take_ge by (unfold zlen; lia). done.
Qed.
End HashIsLinear.

(** What the linear build keeps true. *)
Record linear_inv (att : Form_pg_attribute) (seen ds : list (list Z)) (cs : list Z) : Prop := {
  li_ds : Forall (value_ok att) ds;
  li_nd : zlen ds <= DICT_MAX_DISTINCT;
  li_len : zlen cs = zlen seen;
  li_codes : Forall2 (fun c v => 0 <= c /\ ds !! Z.to_nat c = Some v) cs seen
}.

Lemma linear_step_inv att seen ds cs v ds' cs' :
  linear_inv att seen ds cs -> value_ok att v -> linear_step (ds, cs) v = Some (ds', cs') ->
  linear_inv att (seen ++ [v]) ds' cs'.
Proof.
  intros [Hd Hn Hl Hc] Hv. unfold linear_step.
  destruct (list_find (eq v) ds) as [[j x]|] eqn:Ef.
  - apply list_find_Some in Ef as (Hj & <- & _). intros [= <- <-]. split; try done.
    + rewrite !zlen_app. by rewrite Hl.
    + apply Forall2_app; [done|]. constructor; [|constructor]. rewrite Nat2Z.id. split; [lia|done].
  - destruct (Z.leb_spec DICT_MAX_DISTINCT (zlen ds)); [done|]. intros [= <- <-].
    pose proof (zlen_nonneg ds). split.
    + apply Forall_app_2; [done|]. by constructor.
    + rewrite zlen_app. change (zlen [v]) with 1. lia.
    + rewrite !zlen_app. by rewrite Hl.
    + apply Forall2_app.
      * eapply list.Forall2_impl; [exact Hc|]. intros c x [Hc0 Hcx]. split; [done|].
        by apply lookup_app_l_Some.
      * constructor; [|constructor]. split; [lia|].
        replace (Z.to_nat (zlen ds)) with (length ds) by (unfold zlen; lia).
        by apply list_lookup_middle.
Qed.

Lemma linear_build_inv att vals seen ds cs ds' cs' :
  linear_inv att seen ds cs -> Forall (value_ok att) vals ->
  linear_build (ds, cs) vals = Some (ds', cs') -> linear_inv att (seen ++ vals) ds' cs'.
Proof.
  intros Hi Hv. revert seen ds cs Hi. induction Hv as [|v vals Hv Hvs IH]; intros seen ds cs Hi Hb.
  - cbn in Hb. injection Hb as <- <-. by rewrite app_nil_r.
  - cbn [linear_build] in Hb. destruct (linear_step (ds, cs) v) as [[ds1 cs1]|] eqn:Es; [|done].
    replace (seen ++ v :: vals) with ((seen ++ [v]) ++ vals) by (by rewrite <- app_assoc).
    apply (IH _ ds1 cs1); [|done]. by apply (linear_step_inv att seen ds cs v).
Qed.

Lemma linear_inv_nil att : linear_inv att [] [] [].
Proof. split; try constructor; try done. Qed.

(** A column's value stream: one or more values end to end. *)
Definition value_stream (att : Form_pg_attribute) (raw : list Z) (vals : list (list Z)) : Prop :=
  raw = concat vals /\ Forall (value_ok att) vals /\ 0 < zlen vals /\
  zlen raw <= MaxAllocSize /\ 8 * zlen vals <= MaxAllocSize.

Lemma value_stream_pos att raw vals : value_stream att raw vals -> 0 < zlen raw.
Proof.
  intros (-> & Hv & Hn & _). destruct Hv as [|v vals Hv _]; [done|]. cbn [concat].
  rewrite zlen_app. pose proof (value_ok_pos _ _ Hv). pose proof (zlen_nonneg (concat vals)). lia.
Qed.

Lemma encode_dict_is_linear `{VarattExternal} att raw vals :
  value_stream att raw vals ->
  encode_dict raw (zlen raw) att (zlen vals) = encode_dict_linear att vals (zlen raw).
Proof.
  intros (Hraw & Hv & _ & Hm & Hn). unfold encode_dict, encode_dict_linear.
  pose proof (zlen_nonneg vals). rewrite (palloc_Ok (4 * zlen vals)) by lia. cbn [mbind res_bind].
  replace (Z.to_nat (zlen vals)) with (length vals) by (unfold zlen; lia).
  pose proof (dict_scan_spec raw att vals [] [] [] dict_init (dict_rep_init raw) Hraw Hv
    ltac:(unfold MaxAllocSize in Hm; lia)) as Hs.
  destruct (linear_build ([], []) vals) as [[ds cs]|] eqn:Eb.
  - destruct Hs as (st & -> & HR). cbn [mbind res_bind].
    pose proof (linear_build_inv att vals [] [] [] ds cs (linear_inv_nil att) Hv Eb) as [Hd _ _ _].
    rewrite (dr_offl _ _ _ _ _ HR), (dict_entries_loop raw raw ds cs st att) by done.
    cbn [mbind res_bind]. rewrite palloc_Ok by lia. cbn [mbind res_bind].
    rewrite (dr_codes _ _ _ _ _ HR). done.
  - by rewrite Hs.
Qed.

(** ** Decoding *)

(** [e] points at the bytes of [v] in [enc]. *)
Definition points_to (enc : list Z) (e : Z * Z) (v : list Z) : Prop :=
  e.2 = zlen v /\ rd enc e.1 e.2 = Ok v.

Lemma dict_parse_entry att A v B :
  value_ok att v -> zlen (A ++ dict_entry att v ++ B) < 2 ^ 32 ->
  exists e, dict_parse (A ++ dict_entry att v ++ B) (attlen att) (zlen A) = Ok e /\
    points_to (A ++ dict_entry att v ++ B) e v /\ e.1 + e.2 = zlen A + zlen (dict_entry att v).
Proof.
  intros Hv H32. pose proof (zlen_nonneg A). pose proof (zlen_nonneg B). pose proof (zlen_nonneg v).
  pose proof Hv as [_ Hv']. unfold dict_parse, dict_entry in *.
  destruct (Z.ltb_spec 0 (attlen att)).
  - rewrite !zlen_app, Hv'. destruct (Z.ltb_spec (zlen A + (attlen att + zlen B)) (zlen A + attlen att)); [lia|].
    eexists. split; [done|]. split; [|done]. split; [done|]. cbn [fst snd]. rewrite <- Hv'. apply rd_middle.
  - rewrite <- app_assoc in *. rewrite !zlen_app, zlen_le_bytes in *.
    destruct (Z.ltb_spec (zlen A + (Z.of_nat 4 + (zlen v + zlen B))) (zlen A + 4)); [lia|].
    rewrite (rd_middle A (le_bytes 4 (zlen v)) (v ++ B) : rd _ (zlen A) 4 = _). cbn [mbind res_bind].
    rewrite le_uint_le_bytes_id by (simpl; lia). rewrite u32_small by lia.
    destruct (Z.ltb_spec (zlen A + (Z.of_nat 4 + (zlen v + zlen B)) - (zlen A + 4)) (zlen v)); [lia|].
    eexists. split; [done|]. split; [|cbn; lia]. split; [done|]. cbn [fst snd].
    rewrite app_assoc. replace (zlen A + 4) with (zlen (A ++ le_bytes 4 (zlen v)))
      by (rewrite zlen_app, zlen_le_bytes; lia). apply rd_middle.
Qed.

Lemma dict_parse_loop att hdr ds tail :
  let enc := hdr ++ concat (dict_entry att <$> ds) ++ tail in
  Forall (value_ok att) ds -> zlen enc < 2 ^ 32 ->
  exists ents,
    forZ 0 (zlen ds) (fun j st =>
      let '(ents, p) := st in
      e ← dict_parse enc (attlen att) p;
      Ok (ents ++ [e], e.1 + e.2)) ([], zlen hdr)
    = Ok (ents, zlen hdr + zlen (concat (dict_entry att <$> ds))) /\
    Forall2 (points_to enc) ents ds.
Proof.
  intros enc Hds H32. pose proof (zlen_nonneg ds).
  match goal with |- context [forZ 0 _ ?f _] =>
    destruct (forZ_Ok (fun j (st : list (Z * Z) * Z) =>
      st.2 = zlen hdr + zlen (concat (dict_entry att <$> take (Z.to_nat j) ds)) /\
      Forall2 (points_to enc) st.1 (take (Z.to_nat j) ds)) f 0 (zlen ds) ([], zlen hdr))
      as ([ents p] & -> & Hp & He) end.
  - done.
  - intros j [ents p] Hj [Hpj He]. cbn [fst snd] in *. subst p.
    destruct (lookup_lt_is_Some_2 ds (Z.to_nat j)) as [v Hv]; [unfold zlen in Hj; lia|].
    assert (Henc : enc = (hdr ++ concat (dict_entry att <$> take (Z.to_nat j) ds)) ++ dict_entry att v
      ++ (concat (dict_entry att <$> drop (S (Z.to_nat j)) ds) ++ tail)).
    { unfold enc. rewrite <- (take_drop_middle ds _ v Hv) at 1.
      rewrite fmap_app, concat_app. cbn [fmap list_fmap concat]. by rewrite <- !app_assoc. }
    destruct (dict_parse_entry att (hdr ++ concat (dict_entry att <$> take (Z.to_nat j) ds)) v
      (concat (dict_entry att <$> drop (S (Z.to_nat j)) ds) ++ tail)) as (e & Hpe & Hpt & Hnext).
    + by apply (Forall_lookup_1 _ _ _ _ Hds Hv).
    + by rewrite <- Henc.
    + rewrite <- Henc, zlen_app in Hpe. rewrite <- Henc in Hpt. rewrite Hpe. cbn [mbind res_bind].
      eexists. split; [done|]. cbn [fst snd]. replace (Z.to_nat (j + 1)) with (S (Z.to_nat j)) by lia.
      rewrite (take_S_r _ _ _ Hv). split.
      * rewrite fmap_app, concat_app. cbn [fmap list_fmap concat]. rewrite app_nil_r, !zlen_app in *. lia.
      * apply Forall2_app; [done|]. by constructor.
  - split; [symmetry; apply Z.add_0_r|constructor].
  - cbn [fst snd] in *. rewrite take_ge in Hp, He by (unfold zlen; lia). subst p. eauto.
Qed.

(** The output loop: one dictionary value per code. *)
Lemma dict_output_loop enc ents ds cs vals buf :
  Forall2 (points_to enc) ents ds -> zlen (concat vals) < 2 ^ 32 -> zlen ds < 2 ^ 32 ->
  Forall2 (fun c v => 0 <= c /\ ds !! Z.to_nat c = Some v) cs vals ->
  filled (zlen (concat vals)) buf [] ->
  forZ 0 (zlen vals) (fun i st =>
    let '(raw, pos) := st in
    c ← rd1 cs i;
    let code := u32 c in
    if zlen ds <=? code then Err "DICT code out of range"
    else
      match ents !! Z.to_nat code with
      | None => Oob
      | Some (dptr, dlen) =>
          if u32 (zlen (concat vals) - pos) <? dlen then Err "DICT output exceeds raw length"
          else
            v ← rd enc dptr dlen;
            raw ← wr raw pos v;
            Ok (raw, u32 (pos + dlen))
      end) (buf, 0)
  = Ok (concat vals, zlen (concat vals)).
Proof.
  intros He H32 Hd32 Hc Hf. pose proof (zlen_nonneg vals).
  match goal with |- forZ 0 _ ?f _ = _ =>
    destruct (forZ_Ok (fun i (st : list Z * Z) =>
      filled (zlen (concat vals)) st.1 (concat (take (Z.to_nat i) vals)) /\
      st.2 = zlen (concat (take (Z.to_nat i) vals))) f 0 (zlen vals) (buf, 0))
      as ([b p] & -> & Hfb & Hp) end.
  - done.
  - intros i [b p] Hi [Hfi Hpi]. cbn [fst snd] in *. subst p.
    destruct (lookup_lt_is_Some_2 vals (Z.to_nat i)) as [v Hv]; [unfold zlen in Hi; lia|].
    destruct (Forall2_lookup_r _ _ _ _ _ Hc Hv) as (c & Hci & Hc0 & Hcv).
    rewrite (rd1_lookup _ _ _ _ Hci) by lia. cbn [mbind res_bind].
    pose proof (lookup_lt_Some _ _ _ Hcv) as Hlt.
    assert (Hcz : 0 <= c < zlen ds) by (unfold zlen; lia).
    rewrite (u32_small c) by lia. destruct (Z.leb_spec (zlen ds) c); [lia|].
    destruct (Forall2_lookup_r _ _ _ _ _ He Hcv) as ([dp dl] & -> & Hl & Hrd).
    cbn [fst snd] in Hl, Hrd. subst dl.
    replace (Z.to_nat (i + 1)) with (S (Z.to_nat i)) by lia.
    rewrite (take_S_r _ _ _ Hv), concat_app. cbn [concat]. rewrite app_nil_r.
    set (pre := concat (take (Z.to_nat i) vals)) in *.
    assert (Hfit : zlen pre + zlen v <= zlen (concat vals)).
    { rewrite <- (take_drop_middle vals _ v Hv) at 1. rewrite concat_app. cbn [concat].
      rewrite !zlen_app. fold pre. pose proof (zlen_nonneg (concat (drop (S (Z.to_nat i)) vals))). lia. }
    pose proof (zlen_nonneg pre). pose proof (zlen_nonneg v).
    rewrite (u32_small (_ - _)) by lia.
    destruct (Z.ltb_spec (zlen (concat vals) - zlen pre) (zlen v)); [lia|].
    rewrite Hrd. cbn [mbind res_bind].
    destruct (wr_filled _ b pre v Hfi) as (b' & -> & Hf'); [lia|]. cbn [mbind res_bind].
    eexists. split; [done|]. cbn [fst snd]. rewrite u32_small, zlen_app by lia. done.
  - done.
  - cbn [fst snd] in *. rewrite take_ge in Hfb, Hp by (unfold zlen; lia). subst p.
    by rewrite (filled_done _ _ _ Hfb).
Qed.

Lemma concat_dict_entry_le att ds :
  Forall (value_ok att) ds -> zlen (concat (dict_entry att <$> ds)) <= 4 * zlen ds + zlen (concat ds).
Proof.
  induction 1 as [|v ds Hv Hds IH]; [done|]. cbn [fmap list_fmap concat]. rewrite !zlen_app.
  assert (zlen (dict_entry att v) <= 4 + zlen v).
  { unfold dict_entry. destruct (0 <? attlen att); [lia|]. rewrite zlen_app, zlen_le_bytes. lia. }
  change (zlen (v :: ds)) with (zlen ([v] ++ ds)). rewrite zlen_app. change (zlen [v]) with 1. lia.
Qed.

Lemma dict_entries_ok att ds : Forall (value_ok att) ds -> bytes_ok (concat (dict_entry att <$> ds)).
Proof.
  induction 1 as [|v ds [Hv _] Hds IH]; [constructor|]. cbn [fmap list_fmap concat].
  apply Forall_app_2; [|done]. unfold dict_entry. destruct (0 <? attlen att); [done|].
  apply Forall_app_2; [apply le_bytes_ok|done].
Qed.

(** The dictionary's values take no more room than the stream: they are a
    sublist of it. *)
Lemma linear_build_room ds cs vals ds' cs' :
  linear_build (ds, cs) vals = Some (ds', cs') ->
  zlen (concat ds') <= zlen (concat ds) + zlen (concat vals).
Proof.
  revert ds cs. induction vals as [|v vals IH]; intros ds cs Hb; cbn [linear_build] in Hb.
  - injection Hb as <- <-. pose proof (zlen_nonneg (concat ([] : list (list Z)))). lia.
  - destruct (linear_step (ds, cs) v) as [[d1 c1]|] eqn:Es; [|done].
    specialize (IH _ _ Hb). cbn [concat]. rewrite zlen_app. pose proof (zlen_nonneg v).
    unfold linear_step in Es. destruct (list_find (eq v) ds) as [[j x]|].
    + injection Es as <- <-. lia.
    + destruct (_ <=? _); [done|]. injection Es as <- <-.
      rewrite concat_app, zlen_app in IH. cbn [concat] in IH. rewrite app_nil_r in IH. lia.
Qed.

Lemma dict_width_bound (ds : list (list Z)) :
  zlen ds <= DICT_MAX_DISTINCT ->
  let cw := bits_needed (if 0 <? zlen ds then zlen ds - 1 else 0) in
  0 <= cw <= 64 /\ forall c, 0 <= c < zlen ds -> 0 <= c < 2 ^ cw.
Proof.
  intros Hn. pose proof (zlen_nonneg ds). unfold DICT_MAX_DISTINCT in Hn. cbv zeta.
  destruct (bits_needed_spec (if 0 <? zlen ds then zlen ds - 1 else 0)) as [Hw Hlt].
  { destruct (Z.ltb_spec 0 (zlen ds)); lia. }
  split; [done|]. intros c Hc. destruct (Z.ltb_spec 0 (zlen ds)); lia.
Qed.

Lemma decode_dict_linear att raw vals ds cs :
  value_stream att raw vals -> linear_build ([], []) vals = Some (ds, cs) ->
  exists buf, dict_serialize att ds cs (zlen vals) = Ok buf /\ bytes_ok buf /\
    zlen buf < 2 ^ 32 /\ decode_dict buf att (zlen vals) (zlen raw) = Ok raw.
Proof.
  intros Hvs Hb. pose proof (value_stream_pos _ _ _ Hvs) as Hpos.
  destruct Hvs as (Hraw & Hv & _ & Hm & Hn). pose proof (zlen_nonneg vals).
  pose proof (linear_build_inv att vals [] [] [] ds cs (linear_inv_nil att) Hv Hb) as [Hds Hnd Hcl Hc].
  cbn [app] in Hcl, Hc. pose proof (zlen_nonneg ds).
  pose proof (linear_build_room _ _ _ _ _ Hb) as Hroom. change (zlen (concat [])) with 0 in Hroom.
  pose proof (concat_dict_entry_le att ds Hds) as Hent. rewrite <- Hraw in Hroom.
  destruct (dict_width_bound ds Hnd) as [Hcw Hcb].
  unfold dict_serialize. set (cw := bits_needed _) in *.
  set (E := concat (dict_entry att <$> ds)) in *. unfold MaxAllocSize, DICT_MAX_DISTINCT in *.
  assert (Hsz : (zlen vals * cw + 7) / 8 <= 1073741823) by (div_bounds (zlen vals * cw + 7) 8; nia).
  assert (Hcs : Forall (fun c => 0 <= c < 2 ^ cw) cs).
  { apply Forall_lookup. intros i c Hci. destruct (Forall2_lookup_l _ _ _ _ _ Hc Hci) as (v & _ & Hc0 & Hcv).
    pose proof (lookup_lt_Some _ _ _ Hcv). apply Hcb. unfold zlen. lia. }
  destruct (bitpack_spec cs (zlen vals) cw ((le_bytes 4 (zlen ds) ++ E) ++ [u8 cw]))
    as (body & -> & HP); try done.
  { eapply Forall_weaken; [exact Hcs|]. simpl. lia. }
  pose proof HP as (Hbb & Hbl & _).
  set (buf := ((le_bytes 4 (zlen ds) ++ E) ++ [u8 cw]) ++ body).
  assert (Hbuf : buf = le_bytes 4 (zlen ds) ++ E ++ [u8 cw] ++ body) by (unfold buf; by rewrite <- !app_assoc).
  assert (Hbz : zlen buf = 4 + (zlen E + (1 + zlen body)))
    by (rewrite Hbuf, !zlen_app, zlen_le_bytes; done).
  exists buf. split; [done|]. split.
  { rewrite Hbuf. repeat apply Forall_app_2; try done; [apply le_bytes_ok|by apply dict_entries_ok|].
    constructor; [|constructor]. apply mod_pow2_bound. lia. }
  pose proof (zlen_nonneg E). pose proof (zlen_nonneg body). split; [lia|]. unfold decode_dict.
  destruct (alloc_raw_Ok (zlen raw)) as (rb & sz & -> & Hf & Hsz1 & Hrsz);
    [unfold MaxAllocSize; pose proof (zlen_nonneg raw); lia|].
  cbn [mbind res_bind]. destruct (Z.ltb_spec (zlen buf) 4); [lia|].
  assert (Hrd4 : rd buf 0 4 = Ok (le_bytes 4 (zlen ds)))
    by (rewrite Hbuf; exact (rd_middle [] (le_bytes 4 (zlen ds)) (E ++ [u8 cw] ++ body))).
  rewrite Hrd4, bind_Ok, le_uint_le_bytes_id by (simpl; lia).
  rewrite !palloc_Ok by (unfold MaxAllocSize; destruct (Z.ltb_spec 0 (zlen ds)), (Z.ltb_spec 0 (zlen vals)); lia).
  rewrite !bind_Ok.
  destruct (dict_parse_loop att (le_bytes 4 (zlen ds)) ds ([u8 cw] ++ body)) as (ents & Hloop & Hents);
    [done|fold E; rewrite <- Hbuf; lia|].
  fold E in Hloop, Hents. rewrite <- Hbuf in Hloop, Hents. rewrite zlen_le_bytes in Hloop.
  change (Z.of_nat 4) with 4 in Hloop. rewrite Hloop, bind_Ok.
  destruct (Z.ltb_spec (zlen buf) (4 + zlen E + 1)); [lia|].
  assert (Hw8 : u8 cw = cw) by (apply Z.mod_small; lia).
  assert (Hrw : rd1 buf (4 + zlen E) = Ok cw).
  { rewrite rd1_Ok by (pose proof (zlen_nonneg E); pose proof (zlen_nonneg body); lia). f_equal. transitivity (u8 cw); [|done].
    apply nthZ_lookup. rewrite Hbuf, app_assoc. apply list_lookup_middle.
    rewrite length_app, length_le_bytes. unfold zlen. lia. }
  rewrite Hrw, !bind_Ok.
  assert (Hdrop : drop (Z.to_nat (4 + zlen E + 1)) buf = body).
  { rewrite Hbuf, app_assoc, app_assoc. rewrite drop_app_length'; [done|].
    rewrite !length_app, length_le_bytes. unfold zlen. simpl. lia. }
  rewrite Hdrop, <- (app_nil_r body), (bitunpack_bitpack cs (zlen vals) cw body []), bind_Ok; try done;
    [|lia|constructor|rewrite app_nil_r; lia].
  assert (Hfr : filled (zlen (concat vals)) rb []).
  { by rewrite <- Hraw, <- (Hrsz Hpos). }
  assert (Hout := dict_output_loop buf ents ds cs vals rb Hents ltac:(rewrite <- Hraw; lia)
    ltac:(lia) Hc Hfr).
  cbv zeta in Hout. rewrite Hraw, Hout, bind_Ok. cbn [fst snd]. rewrite Z.eqb_refl. cbn [negb]. f_equal.
  apply take_ge. unfold zlen. lia.
Qed.

Lemma encode_dict_spec `{VarattExternal} att raw vals :
  value_stream att raw vals ->
  codec_roundtrip (fun enc => decode_dict enc att (zlen vals) (zlen raw)) raw
    (encode_dict raw (zlen raw) att (zlen vals)).
Proof.
  intros Hvs. rewrite encode_dict_is_linear by done. unfold encode_dict_linear.
  destruct (linear_build ([], []) vals) as [[ds cs]|] eqn:Eb; [|by eexists].
  destruct (decode_dict_linear att raw vals ds cs Hvs Eb) as (buf & -> & Hb & Hl & Hd).
  rewrite bind_Ok. by apply keep_roundtrip.
Qed.

(** ** The decoder on arbitrary bytes *)

Definition entry_in (enc : list Z) (e : Z * Z) : Prop :=
  0 <= e.1 /\ 0 <= e.2 /\ e.1 + e.2 <= zlen enc.

Lemma dict_parse_safe enc w p :
  bytes_ok enc -> zlen enc < 2 ^ 32 -> 0 <= p <= zlen enc ->
  safe (fun e => entry_in enc e) (dict_parse enc w p).
Proof.
  intros Hb H32 Hp. unfold dict_parse, entry_in. destruct (Z.ltb_spec 0 w).
  - destruct (Z.ltb_spec (zlen enc) (p + w)); simpl; [done|lia].
  - destruct (Z.ltb_spec (zlen enc) (p + 4)); [done|]. rewrite rd_Ok by lia. cbn [mbind res_bind].
    rewrite u32_small by lia.
    match goal with |- context [le_uint ?b] => pose proof (le_uint_bound b (bytes_ok_sub _ _ _ Hb)) end.
    destruct (_ <? _) eqn:E; [done|]. apply Z.ltb_ge in E. simpl. lia.
Qed.

Lemma dict_parse_loop_safe enc w nd :
  bytes_ok enc -> 4 <= zlen enc < 2 ^ 32 -> 0 <= nd ->
  safe (fun st => zlen st.1 = nd /\ Forall (entry_in enc) st.1 /\ 0 <= st.2 <= zlen enc)
    (forZ 0 nd (fun j st =>
      let '(ents, p) := st in
      e ← dict_parse enc w p;
      Ok (ents ++ [e], e.1 + e.2)) ([], 4)).
Proof.
  intros Hb H32 Hnd.
  apply (forZ_safe (fun j (st : list (Z * Z) * Z) =>
    zlen st.1 = j /\ Forall (entry_in enc) st.1 /\ 0 <= st.2 <= zlen enc)); [done| |].
  - intros j [ents p] Hj (Hl & He & Hp). cbn [fst snd] in *.
    eapply safe_bind; [apply dict_parse_safe; try done; lia|]. intros e Hein.
    cbn. rewrite zlen_app. change (zlen [e]) with 1. split; [lia|]. split.
    + apply Forall_app_2; [done|]. by constructor.
    + unfold entry_in in Hein. lia.
  - cbn. split; [done|]. split; [constructor|lia].
Qed.

Lemma decode_dict_safe enc att n rawLen :
  enc_ok enc n rawLen -> decode_safe rawLen (decode_dict enc att n rawLen).
Proof.
  intros (Hb & Hz & Hn & Hr). unfold decode_dict, decode_safe.
  eapply safe_bind; [by apply alloc_raw_safe; lia|]. intros buf (sz & Hf & Hsz & _).
  safe_guard. apply Z.ltb_ge in Heqb. safe_guard.
  match goal with |- context [le_uint ?b] => set (ndb := b) end.
  pose proof (le_uint_bound ndb (bytes_ok_sub _ _ _ Hb)) as Hnd.
  assert (Hndz : zlen ndb = 4) by (apply zlen_sub; lia). rewrite Hndz in Hnd.
  set (nd := le_uint ndb) in *. cbv zeta. do 2 safe_guard.
  eapply safe_bind; [by apply dict_parse_loop_safe; try done; lia|].
  intros [ents p] (Hel & Hents & Hp). cbn [fst snd] in *.
  destruct (Z.ltb_spec (zlen enc) (p + 1)) as [|Hp1]; [done|]. do 2 safe_guard.
  eapply safe_bind; [by apply body_unpack_safe|]. intros cds [Hcl Hcu].
  eapply safe_bind.
  - apply (forZ_safe (fun i (st : list Z * Z) => exists pre,
      filled sz st.1 pre /\ bytes_ok pre /\ zlen pre = st.2 /\ 0 <= st.2 <= rawLen)); [lia| |].
    + intros i [b pos] Hi (pre & Hfi & Hpb & Hpl & Hpos). cbn [fst snd] in *.
      rewrite rd1_Ok by lia. cbn [mbind res_bind]. cbv zeta.
      set (c := u32 (nthZ cds i)).
      assert (Hc : 0 <= c) by (apply mod_pow2_bound; lia).
      destruct (Z.leb_spec nd c); [done|].
      destruct (lookup_lt_is_Some_2 ents (Z.to_nat c)) as [[dp dl] He]; [unfold zlen in *; lia|].
      rewrite He. pose proof (Forall_lookup_1 _ _ _ _ Hents He) as (H1 & H2 & H3). cbn [fst snd] in *.
      rewrite (u32_small (rawLen - pos)) by lia.
      destruct (Z.ltb_spec (rawLen - pos) dl); [done|].
      rewrite rd_Ok by lia. cbn [mbind res_bind].
      set (v := take (Z.to_nat dl) (drop (Z.to_nat dp) enc)).
      assert (Hv : zlen v = dl) by (apply zlen_sub; lia).
      rewrite <- Hpl. destruct (wr_filled sz b pre v Hfi) as (b' & -> & Hf'); [lia|].
      cbn [mbind res_bind safe fst snd]. rewrite u32_small by lia.
      exists (pre ++ v). rewrite zlen_app. repeat split; try done; try lia; try apply Hf'.
      apply Forall_app_2; [done|]. by apply bytes_ok_sub.
    + exists []. cbn. repeat split; try done; try lia; try apply Hf. constructor.
  - intros [b pos] (pre & Hfb & Hpb & Hpl & Hpos). cbn [fst snd] in *.
    destruct (Z.eqb_spec pos rawLen) as [Heq|]; [|done]. cbn [negb safe].
    rewrite (filled_take _ _ _ _ Hfb) by lia. split; [done|lia].
Qed.

(** ** Theorems *)

(** The open-addressing build of the dictionary gives byte for byte what
    the quadratic first-seen build gives: the same encoding, and the same
    decision to give up (more than 1024 distinct values, or nothing saved).
    The probe loop always stops. *)
Theorem dict_hash_is_linear `{VarattExternal} (att : Form_pg_attribute) (raw : list Z)
    (vals : list (list Z)) :
  value_stream att raw vals ->
  encode_dict raw (zlen raw) att (zlen vals) = encode_dict_linear att vals (zlen raw).
Proof. apply encode_dict_is_linear. Qed.

Section Example_dict_hash_is_linear_witness.
#[local] Existing Instance varatt_external_none.

Lemma dict_hash_is_linear_witness :
let att := mkAtt false (-1) 25 in
let vals := [[9; 97; 98; 99]; [5; 120]; [9; 97; 98; 99]; [9; 97; 98; 99]; [5; 120];
             [9; 97; 98; 99]; [9; 97; 98; 99]; [9; 97; 98; 99]; [9; 97; 98; 99]] in
encode_dict (concat vals) 32 att 9 = encode_dict_linear att vals 32 /\
encode_dict_linear att vals 32
= Ok (Some [2; 0; 0; 0; 4; 0; 0; 0; 9; 97; 98; 99; 2; 0; 0; 0; 5; 120; 1; 18; 0]).
Proof.
intros att vals. split; [|by vm_compute]. apply (dict_hash_is_linear att (concat vals) vals).
split; [done|]. split; [|repeat split; vm_compute; congruence].
unfold vals. repeat constructor; vm_compute; congruence.
Defined.
End Example_dict_hash_is_linear_witness.

(** Dictionary encoding of any fixed-width or inline-varlena stream
    either gives up or produces fewer bytes, which decode to the stream. *)
Theorem dict_roundtrip `{VarattExternal} (att : Form_pg_attribute) (raw : list Z)
    (vals : list (list Z)) :
  value_stream att raw vals ->
  codec_roundtrip (fun enc => decode_dict enc att (zlen vals) (zlen raw)) raw
    (encode_dict raw (zlen raw) att (zlen vals)).
Proof. apply encode_dict_spec. Qed.

Section Example_dict_roundtrip_witness.
#[local] Existing Instance varatt_external_none.

Lemma dict_roundtrip_witness :
let att := mkAtt false 16 2950 in
let vals := replicate 3 (replicate 16 7) ++ replicate 5 (replicate 16 8) in
codec_roundtrip (fun enc => decode_dict enc att 8 128) (concat vals)
  (encode_dict (concat vals) 128 att 8).
Proof.
intros att vals. apply (dict_roundtrip att (concat vals) vals).
split; [done|]. split; [|repeat split; vm_compute; congruence].
unfold vals. repeat constructor; vm_compute; congruence.
Defined.
End Example_dict_roundtrip_witness.
