(* ===== verification/Fsst.v ===== *)
(** * FSST: static symbol tables for strings

    The FSST codec of [src/columnar_encoding.c]: the serialized symbol table
    and its parser, the open-addressed symbol lookup and longest match, the
    code stream encoder and decoder, the table builder that counts candidates
    in a bounded hash, and the distinct-count gate in front of it. *)

From stdpp Require Import sorting.
From S2P Require Import Prelude BitPack Codec IntCodecs OpenAddr Varlena Dict.

(** ** Symbol tables *)

Definition FSST_MAX_SYMBOLS : Z := 255.
Definition FSST_ESCAPE : Z := 255.
Definition FSST_MAX_SYMLEN : Z := 8.
Definition FSST_MIN_RAWLEN : Z := 64.
Definition FSST_DECODE_SLACK : Z := 8.
Definition FSST_ROUNDS : Z := 4.
Definition FSST_SAMPLE_CAP : Z := 262144.
Definition FSST_COUNT_SLOTS : Z := Z.shiftl 1 17.

(** Symbol [i] is [symLen[i]] bytes, packed low byte first in [symVal[i]];
    [nSym] is the length of the list. *)
Record FsstSym := mkSym { symVal : Z; symLen : Z }.
Abbreviation FsstTable := (list FsstSym).

#[export] Instance FsstSym_eq_dec : EqDecision FsstSym.
Proof. solve_decision. Defined.

Definition sym_ok (s : FsstSym) : Prop :=
  1 <= symLen s <= FSST_MAX_SYMLEN /\ 0 <= symVal s < 2 ^ (8 * symLen s).

Definition sym_bytes (s : FsstSym) : list Z := le_bytes (Z.to_nat (symLen s)) (symVal s).

Definition fsst_serialize_table (t : FsstTable) : list Z :=
  u8 (zlen t) :: concat ((fun s => u8 (symLen s) :: le_bytes (Z.to_nat (symLen s)) (symVal s)) <$> t).

(** The loop both parsers run over the symbols; [p] is the bytes up to [end]. *)
Fixpoint fsst_parse_symbols (nSym : nat) (p : list Z) (t : FsstTable) : res FsstTable :=
  match nSym with
  | O => Ok t
  | S k =>
      match p with
      | [] => Err "FSST shared table symbol length past end"
      | L :: p =>
          if (L <? 1) || (FSST_MAX_SYMLEN <? L) then Err "FSST shared table symbol length invalid"
          else if u32 (zlen p) <? L then Err "FSST shared table symbol bytes past end"
          else
            vb ← rd p 0 L;
            fsst_parse_symbols k (drop (Z.to_nat L) p) (t ++ [mkSym (le_uint vb) L])
      end
  end.

Definition fsst_deserialize_table (p : list Z) : res FsstTable :=
  match p with
  | [] => Err "FSST shared table truncated"
  | nSym :: p =>
      if FSST_MAX_SYMBOLS <? nSym then Err "FSST shared table symbol count out of range"
      else fsst_parse_symbols (Z.to_nat nSym) p []
  end.

(** ** Lookup *)

Definition fsst_hash (val len : Z) : Z :=
  let h := u64 (val * 11400714819323198485) in
  let h := Z.lxor h (u64 (len * 1099511628211)) in
  let h := Z.lxor h (Z.shiftr h 29) in
  u32 h.

(** [code[slot]] is -1 when the slot is empty; [keyVal] and [keyLen] of an empty
    slot are whatever [palloc] returned. *)
Record FsstLookup := mkLk { keyVal : list Z; keyLen : list Z; lcode : list Z; lmask : Z }.

(** [while (cap < nSym * 4 + 4) cap <<= 1] *)
Fixpoint fsst_cap (fuel : nat) (c want : Z) : Z :=
  match fuel with
  | O => c
  | S f => if c <? want then fsst_cap f (u32 (Z.shiftl c 1)) want else c
  end.

Definition fsst_lookup_insert (lk : FsstLookup) (s : Z) (sym : FsstSym) : res FsstLookup :=
  r ← probe (Z.to_nat (lmask lk + 1)) (lmask lk)
        (Z.land (fsst_hash (symVal sym) (symLen sym)) (lmask lk))
        (fun slot => c ← rd1 (lcode lk) slot; Ok (if c =? -1 then Empty else Next));
  code ← wr1 (lcode lk) r.1 s;
  kv ← wr1 (keyVal lk) r.1 (symVal sym);
  kl ← wr1 (keyLen lk) r.1 (symLen sym);
  Ok (mkLk kv kl code (lmask lk)).

Fixpoint fsst_lookup_fill (lk : FsstLookup) (s : Z) (t : FsstTable) : res FsstLookup :=
  match t with
  | [] => Ok lk
  | sym :: r => lk ← fsst_lookup_insert lk s sym; fsst_lookup_fill lk (s + 1) r
  end.

(** At most 255 symbols, so the capacity doubles at most once from 512. *)
Definition fsst_lookup_build (t : FsstTable) : res FsstLookup :=
  let c := fsst_cap 32 512 (zlen t * 4 + 4) in
  let blank := replicate (Z.to_nat c) poison in
  fsst_lookup_fill (mkLk blank blank (replicate (Z.to_nat c) (-1)) (c - 1)) 0 t.

Definition fsst_lookup_find (lk : FsstLookup) (val len : Z) : res Z :=
  r ← probe (Z.to_nat (lmask lk + 1)) (lmask lk) (Z.land (fsst_hash val len) (lmask lk))
        (fun slot =>
           c ← rd1 (lcode lk) slot;
           if c =? -1 then Ok Empty
           else
             kv ← rd1 (keyVal lk) slot;
             kl ← rd1 (keyLen lk) slot;
             Ok (if (kv =? val) && (kl =? len) then Hit else Next));
  if (r.2 : bool) then rd1 (lcode lk) r.1 else Ok (-1).

(** [for (L = maxL; L >= 1; L--)]; [Some (c, L)] is a match, [None] is -1. *)
Fixpoint fsst_match_from (lk : FsstLookup) (p : list Z) (L : nat) : res (option (Z * Z)) :=
  match L with
  | O => Ok None
  | S L' =>
      vb ← rd p 0 (Z.of_nat L);
      c ← fsst_lookup_find lk (le_uint vb) (Z.of_nat L);
      if 0 <=? c then Ok (Some (c, Z.of_nat L)) else fsst_match_from lk p L'
  end.

(** [p] is the bytes remaining. *)
Definition fsst_longest_match (lk : FsstLookup) (p : list Z) (remaining : Z)
    : res (option (Z * Z)) :=
  let maxL := if remaining <? FSST_MAX_SYMLEN then remaining else FSST_MAX_SYMLEN in
  fsst_match_from lk p (Z.to_nat maxL).

(** ** The code stream *)

Fixpoint fsst_encode_loop (fuel : nat) (lk : FsstLookup) (raw : list Z) (rawLen pos : Z)
    (buf : list Z) : res (option (list Z)) :=
  match fuel with
  | O => Fuel
  | S f =>
      if pos <? rawLen then
        m ← fsst_longest_match lk (drop (Z.to_nat pos) raw) (rawLen - pos);
        st ← (match m with
              | Some (c, L) => Ok (buf ++ [u8 c], u32 (pos + L))
              | None => b ← rd1 raw pos; Ok (buf ++ [FSST_ESCAPE; b], u32 (pos + 1))
              end);
        let '(buf, pos) := (st : list Z * Z) in
        if rawLen <=? u32 (zlen buf) then Ok None
        else fsst_encode_loop f lk raw rawLen pos buf
      else Ok (keep_if_smaller buf rawLen)
  end.

Definition encode_fsst_shared (raw : list Z) (rawLen : Z) (table : list Z)
    : res (option (list Z)) :=
  if rawLen <? FSST_MIN_RAWLEN then Ok None
  else
    t ← fsst_deserialize_table table;
    if zlen t =? 0 then Ok None
    else
      lk ← fsst_lookup_build t;
      fsst_encode_loop (S (Z.to_nat rawLen)) lk raw rawLen 0 [].

(** One round of the decode loop per code; [p] is the encoded bytes left. *)
Fixpoint fsst_decode_loop (fuel : nat) (t : FsstTable) (rawLen : Z) (p : list Z)
    (raw : list Z) (outPos : Z) : res (list Z * Z) :=
  match fuel with
  | O => Fuel
  | S f =>
      match p with
      | [] => Ok (raw, outPos)
      | c :: p =>
          if c =? FSST_ESCAPE then
            match p with
            | [] => Err "FSST escape at encoded length"
            | b :: p =>
                if rawLen <=? outPos then Err "FSST output exceeds raw length"
                else
                  raw ← wr1 raw outPos b;
                  fsst_decode_loop f t rawLen p raw (u32 (outPos + 1))
            end
          else if zlen t <=? c then Err "FSST code out of range"
          else
            match t !! Z.to_nat c with
            | None => Oob
            | Some s =>
                if u32 (rawLen - outPos) <? symLen s then Err "FSST output exceeds raw length"
                else
                  raw ← wr raw outPos (le_bytes 8 (symVal s));
                  fsst_decode_loop f t rawLen p raw (u32 (outPos + symLen s))
            end
      end
  end.

Definition decode_fsst_shared (enc table : list Z) (rawLen : Z) : res (list Z) :=
  raw ← MemoryContextAlloc (u32 ((if 0 <? rawLen then rawLen else 1) + FSST_DECODE_SLACK));
  match table with
  | [] => Err "FSST shared table missing"
  | nSym :: tp =>
      if FSST_MAX_SYMBOLS <? nSym then Err "FSST shared table symbol count out of range"
      else
        t ← fsst_parse_symbols (Z.to_nat nSym) tp [];
        st ← fsst_decode_loop (S (length enc)) t rawLen enc raw 0;
        if negb (st.2 =? rawLen) then Err "FSST output length does not match raw length"
        else Ok (take (Z.to_nat rawLen) st.1)
  end.

(** ** Building a table *)

(** A counter cell; [memset] leaves it unused. *)
Record FsstCount := mkCnt { cval : Z; ccount : Z; clen : Z; cused : bool }.
Definition cnt_blank : FsstCount := mkCnt 0 0 0 false.

Definition fsst_count_add (tbl : list FsstCount) (mask nUsed val len gain : Z)
    : res (list FsstCount * Z) :=
  r ← probe (Z.to_nat (mask + 1)) mask (Z.land (fsst_hash val len) mask)
        (fun slot =>
           match tbl !! Z.to_nat slot with
           | None => Oob
           | Some c =>
               Ok (if cused c then
                     if (cval c =? val) && (clen c =? len) then Hit else Next
                   else Empty)
           end);
  if (r.2 : bool) then
    match tbl !! Z.to_nat r.1 with
    | None => Oob
    | Some c =>
        Ok (<[Z.to_nat r.1 := mkCnt (cval c) (u32 (ccount c + gain)) (clen c) true]> tbl, nUsed)
    end
  else if (mask + 1) - (mask + 1) / 4 <=? nUsed then Ok (tbl, nUsed)
  else Ok (<[Z.to_nat r.1 := mkCnt val gain len true]> tbl, nUsed + 1).

(** Candidates are cells taken out of the table. *)
Definition fsst_cand_cmp (x y : FsstCount) : Z :=
  if negb (ccount x =? ccount y) then (if ccount y <? ccount x then -1 else 1)
  else if negb (clen x =? clen y) then (if clen y <? clen x then -1 else 1)
  else if negb (cval x =? cval y) then (if cval x <? cval y then -1 else 1)
  else 0.

(** [qsort] by that comparison. *)
Definition cand_le (x y : FsstCount) : Prop := fsst_cand_cmp x y <= 0.
#[export] Instance cand_le_dec (x y : FsstCount) : Decision (cand_le x y).
Proof. unfold cand_le. apply _. Defined.
Definition fsst_sort (l : list FsstCount) : list FsstCount := merge_sort cand_le l.

(** The state of one counting pass over the sample. *)
Record count_st := mkCount {
  cpos : Z; cprevVal : Z; cprevLen : Z; ctbl : list FsstCount; cnUsed : Z
}.

Fixpoint fsst_count_loop (fuel : nat) (lk : FsstLookup) (cur : FsstTable) (corpus : list Z)
    (sampleLen mask : Z) (st : count_st) : res count_st :=
  match fuel with
  | O => Fuel
  | S f =>
      if cpos st <? sampleLen then
        m ← fsst_longest_match lk (drop (Z.to_nat (cpos st)) corpus) (sampleLen - cpos st);
        e ← (match m with
             | Some (c, L) =>
                 match cur !! Z.to_nat c with
                 | None => Oob
                 | Some s => Ok (s, L)
                 end
             | None => b ← rd1 corpus (cpos st); Ok (mkSym b 1, 1)
             end);
        let '(s, L) := (e : FsstSym * Z) in
        let val := symVal s in
        let len := symLen s in
        r ← fsst_count_add (ctbl st) mask (cnUsed st) val len len;
        r ← (if (0 <? cprevLen st) && (cprevLen st + len <=? FSST_MAX_SYMLEN) then
               let catVal := Z.lor (cprevVal st) (u64 (Z.shiftl val (cprevLen st * 8))) in
               let catLen := u8 (cprevLen st + len) in
               fsst_count_add r.1 mask r.2 catVal catLen catLen
             else Ok r);
        fsst_count_loop f lk cur corpus sampleLen mask
          (mkCount (u32 (cpos st + L)) val len r.1 r.2)
      else Ok st
  end.

(** One round: count with the current table, keep the best candidates.  [None]
    is the [break] when nothing was counted. *)
Definition fsst_round (corpus : list Z) (sampleLen slots : Z) (cur : FsstTable)
    : res (option FsstTable) :=
  lk ← fsst_lookup_build cur;
  st ← fsst_count_loop (S (Z.to_nat sampleLen)) lk cur corpus sampleLen (slots - 1)
         (mkCount 0 0 0 (replicate (Z.to_nat slots) cnt_blank) 0);
  let cands := filter (fun c => cused c = true) (ctbl st) in
  if zlen cands =? 0 then Ok None
  else
    Ok (Some ((fun c => mkSym (cval c) (clen c)) <$>
                take (Z.to_nat FSST_MAX_SYMBOLS) (fsst_sort cands))).

Fixpoint fsst_rounds (n : nat) (corpus : list Z) (sampleLen slots : Z) (cur : FsstTable)
    : res FsstTable :=
  match n with
  | O => Ok cur
  | S n' =>
      o ← fsst_round corpus sampleLen slots cur;
      match o with
      | None => Ok []
      | Some next => fsst_rounds n' corpus sampleLen slots next
      end
  end.

(** [while (slots < sampleLen * 2 && slots < FSST_COUNT_SLOTS) slots <<= 1] *)
Fixpoint fsst_slots (fuel : nat) (slots want : Z) : Z :=
  match fuel with
  | O => slots
  | S f =>
      if (slots <? want) && (slots <? FSST_COUNT_SLOTS)
      then fsst_slots f (u32 (Z.shiftl slots 1)) want else slots
  end.

Definition build_fsst_table (corpus : list Z) (corpusLen : Z) : res FsstTable :=
  let sampleLen := if corpusLen <? FSST_SAMPLE_CAP then corpusLen else FSST_SAMPLE_CAP in
  let slots := fsst_slots 32 4096 (u32 (sampleLen * 2)) in
  fsst_rounds (Z.to_nat FSST_ROUNDS) corpus sampleLen slots [].

(** [None] is [return false]. *)
Definition PgColumnarFsstBuildChunkTable (corpus : list Z) (corpusLen : Z)
    (att : Form_pg_attribute) : res (option (list Z)) :=
  if negb (attlen att =? -1) then Ok None
  else if corpusLen <? FSST_MIN_RAWLEN then Ok None
  else
    t ← build_fsst_table corpus corpusLen;
    if zlen t =? 0 then Ok None else Ok (Some (fsst_serialize_table t)).

(** ** The distinct-count gate *)

Definition FSST_CARD_SLOTS : Z := 4096.

(** [used[s]] and [slot[s]] as one list of optional hashes. *)
Fixpoint dict_wins_loop `{VarattExternal} (fuel : nat) (corpus : list Z) (corpusLen pos distinct : Z)
    (slots : list (option Z)) : res bool :=
  match fuel with
  | O => Fuel
  | S f =>
      if pos <? corpusLen then
        vlen ← PgColumnarVarSizeAnyUnaligned (drop (Z.to_nat pos) corpus);
        if (vlen =? 0) || (corpusLen <? u32 (pos + vlen)) then Ok false
        else
          vp ← rd corpus pos vlen;
          let h := pgcolumnar_fnv1a vp in
          r ← probe (Z.to_nat FSST_CARD_SLOTS) (FSST_CARD_SLOTS - 1)
                (u32 (Z.land h (FSST_CARD_SLOTS - 1)))
                (fun s => match slots !! Z.to_nat s with
                          | None => Oob
                          | Some None => Ok Empty
                          | Some (Some h') => Ok (if h' =? h then Hit else Next)
                          end);
          if (r.2 : bool) then
            dict_wins_loop f corpus corpusLen (u32 (pos + vlen)) distinct slots
          else if DICT_MAX_DISTINCT <? distinct + 1 then Ok false
          else
            dict_wins_loop f corpus corpusLen (u32 (pos + vlen)) (distinct + 1)
              (<[Z.to_nat r.1 := Some h]> slots)
      else Ok true
  end.

Definition PgColumnarFsstDictWins `{VarattExternal} (corpus : list Z) (corpusLen : Z) : res bool :=
  dict_wins_loop (S (Z.to_nat corpusLen)) corpus corpusLen 0 0
    (replicate (Z.to_nat FSST_CARD_SLOTS) None).

(** ** The lookup finds the symbols of the table *)

Definition lk_key (lk : FsstLookup) (s : Z) : option (Z * Z) :=
  if nthZ (lcode lk) s =? -1 then None else Some (nthZ (keyVal lk) s, nthZ (keyLen lk) s).
Definition khash (k : Z * Z) : Z := fsst_hash k.1 k.2.

Record lk_rep (bits : Z) (t : FsstTable) (lk : FsstLookup) : Prop := {
  lr_bits : 0 <= bits;
  lr_mask : lmask lk = cap bits - 1;
  lr_lcode : zlen (lcode lk) = cap bits;
  lr_lval : zlen (keyVal lk) = cap bits;
  lr_llen : zlen (keyLen lk) = cap bits;
  lr_code : forall s, 0 <= s < cap bits -> nthZ (lcode lk) s <> -1 ->
    0 <= nthZ (lcode lk) s /\
    t !! Z.to_nat (nthZ (lcode lk) s) = Some (mkSym (nthZ (keyVal lk) s) (nthZ (keyLen lk) s));
  lr_count : length (filter (fun c => c <> -1) (lcode lk)) = length t;
  lr_inv : oa_inv khash bits (lk_key lk);
  lr_all : forall j sym, t !! j = Some sym ->
    exists s, 0 <= s < cap bits /\ nthZ (lcode lk) s = Z.of_nat j
}.

Section Lookup.
Context (bits : Z) (t : FsstTable) (lk : FsstLookup) (HR : lk_rep bits t lk)
        (Hroom : zlen t < cap bits).

Lemma lk_hole : exists e, 0 <= e < cap bits /\ lk_key lk e = None.
Proof using HR Hroom.
  destruct HR. destruct (filter_lt_hole (fun c => c <> -1) (lcode lk)) as (i & x & Hx & Hn).
  - rewrite lr_count0. unfold zlen in *. lia.
  - pose proof (lookup_lt_Some _ _ _ Hx). exists (Z.of_nat i). split; [unfold zlen in *; lia|].
    unfold lk_key. rewrite (nthZ_lookup _ _ x) by (by rewrite Nat2Z.id).
    destruct (Z.eqb_spec x (-1)); [done|]. by destruct Hn.
Qed.

Lemma lk_key_insert s sym s' :
  0 <= s < cap bits -> 0 <= s' ->
  lk_key (mkLk (<[Z.to_nat s := symVal sym]> (keyVal lk)) (<[Z.to_nat s := symLen sym]> (keyLen lk))
            (<[Z.to_nat s := zlen t]> (lcode lk)) (lmask lk)) s'
  = if decide (s' = s) then Some (symVal sym, symLen sym) else lk_key lk s'.
Proof using HR.
  intros Hs Hs'. pose proof (zlen_nonneg t). unfold lk_key. cbn [lcode keyVal keyLen].
  rewrite !nthZ_insert by (rewrite ?(lr_lcode _ _ _ HR), ?(lr_lval _ _ _ HR), ?(lr_llen _ _ _ HR); lia).
  destruct (decide (s' = s)); [|done]. by destruct (Z.eqb_spec (zlen t) (-1)); [lia|].
Qed.

Lemma fsst_lookup_insert_spec sym :
  exists lk', fsst_lookup_insert lk (zlen t) sym = Ok lk' /\ lk_rep bits (t ++ [sym]) lk'.
Proof using HR Hroom.
  pose proof (zlen_nonneg t). unfold fsst_lookup_insert. rewrite (lr_mask _ _ _ HR).
  replace (cap bits - 1 + 1) with (cap bits) by lia.
  edestruct (probe_free khash bits (lr_bits _ _ _ HR) (lk_key lk) (symVal sym, symLen sym))
    as (s & Hp & Hs & Hemp & Hreach).
  2:{ apply lk_hole. }
  2:{ reflexivity. }
  2:{ unfold khash in Hp. cbn [fst snd] in Hp. rewrite Hp, bind_Ok. cbn [fst snd].
      rewrite (wr1_Ok (lcode lk)), bind_Ok by (rewrite (lr_lcode _ _ _ HR); lia).
      rewrite (wr1_Ok (keyVal lk)), bind_Ok by (rewrite (lr_lval _ _ _ HR); lia).
      rewrite (wr1_Ok (keyLen lk)), bind_Ok by (rewrite (lr_llen _ _ _ HR); lia).
      eexists. split; [done|]. rewrite <- (lr_mask _ _ _ HR).
      pose proof (lk_key_insert s sym) as Hkey.
      assert (Hm1 : nthZ (lcode lk) s = -1).
      { unfold lk_key in Hemp. by destruct (Z.eqb_spec (nthZ (lcode lk) s) (-1)). }
      pose proof HR as [? ? ? ? ? Hcode Hcnt Hinv Hall].
      split; cbn [lcode keyVal keyLen lmask]; try done; try (unfold zlen in *; rewrite length_insert; done).
      - intros s' Hs'. rewrite !nthZ_insert by lia. destruct (decide (s' = s)) as [->|Hne].
        + intros _. split; [done|]. replace (Z.to_nat (zlen t)) with (length t) by (unfold zlen; lia).
          destruct sym. by apply list_lookup_middle.
        + intros Hn. destruct (Hcode s' Hs' Hn) as [Hc0 Hc1]. split; [done|]. by apply lookup_app_l_Some.
      - assert (Hsl : lcode lk !! Z.to_nat s = Some (-1)).
        { rewrite <- Hm1. apply nthZ_lookup_Some. lia. }
        rewrite (filter_insert_new _ _ _ (-1)) by (done || lia). rewrite length_app, Hcnt. simpl. lia.
      - eapply (oa_inv_insert khash bits); try done. intros s' Hs'. by apply Hkey; lia.
      - intros j x Hj. apply lookup_app_Some in Hj as [Hj|[Hle Hj]].
        + destruct (Hall j x Hj) as (s' & Hs' & Hn). exists s'. split; [done|].
          rewrite nthZ_insert by lia. rewrite decide_False; [done|]. intros ->. lia.
        + destruct (j - length t)%nat eqn:Ej; [|done]. exists s. split; [done|].
          rewrite nthZ_insert by lia. rewrite decide_True by done. unfold zlen. lia. }
  intros s Hs. cbn beta. rewrite rd1_Ok by (rewrite (lr_lcode _ _ _ HR); lia). cbn [mbind res_bind].
  unfold lk_key. by destruct (nthZ (lcode lk) s =? -1).
Qed.

(** A found code is the code of a symbol with that value and length; -1 means
    the table has none. *)
Lemma fsst_lookup_find_spec val len :
  exists c, fsst_lookup_find lk val len = Ok c /\
    ((0 <= c /\ t !! Z.to_nat c = Some (mkSym val len)) \/
     (c = -1 /\ forall j, t !! j <> Some (mkSym val len))).
Proof using HR Hroom.
  unfold fsst_lookup_find. rewrite (lr_mask _ _ _ HR).
  replace (cap bits - 1 + 1) with (cap bits) by lia.
  edestruct (probe_spec khash bits (lr_bits _ _ _ HR) (lk_key lk) (val, len))
    as (s & b & Hp & Hs & Hb).
  2:{ apply (lr_inv _ _ _ HR). }
  2:{ apply lk_hole. }
  2:{ reflexivity. }
  2:{ unfold khash in Hp. cbn [fst snd] in Hp. rewrite Hp, bind_Ok. cbn [fst snd]. destruct b.
      - unfold lk_key in Hb. destruct (Z.eqb_spec (nthZ (lcode lk) s) (-1)) as [|Hne]; [done|].
        injection Hb as <- <-. rewrite rd1_Ok by (rewrite (lr_lcode _ _ _ HR); lia).
        eexists. split; [done|]. left. by apply (lr_code _ _ _ HR).
      - destruct Hb as (_ & _ & Hno). eexists. split; [done|]. right. split; [done|].
        intros j Hj. destruct (lr_all _ _ _ HR j _ Hj) as (s' & Hs' & Hc).
        apply (Hno s' Hs'). unfold lk_key. rewrite Hc.
        destruct (Z.eqb_spec (Z.of_nat j) (-1)); [lia|].
        destruct (lr_code _ _ _ HR s' Hs') as [_ Ht]; [lia|]. rewrite Hc, Nat2Z.id, Hj in Ht.
        by injection Ht as <- <-. }
  intros s Hs. cbn beta. rewrite (rd1_Ok (lcode lk)) by (rewrite (lr_lcode _ _ _ HR); lia). cbn [mbind res_bind].
  unfold slot_test, lk_key. destruct (nthZ (lcode lk) s =? -1); [done|].
  rewrite !rd1_Ok by (rewrite ?(lr_lval _ _ _ HR), ?(lr_llen _ _ _ HR); lia). cbn [mbind res_bind].
  destruct (Z.eqb_spec (nthZ (keyVal lk) s) val) as [->|Hv]; cbn [andb].
  - destruct (Z.eqb_spec (nthZ (keyLen lk) s) len) as [->|Hl].
    + by rewrite decide_True.
    + rewrite decide_False; [done|]. congruence.
  - rewrite decide_False; [done|]. congruence.
Qed.

Lemma sym_bytes_take (p : list Z) (L : nat) :
  bytes_ok p -> (L <= length p)%nat -> sym_bytes (mkSym (le_uint (take L p)) (Z.of_nat L)) = take L p.
Proof using.
  intros Hp HL. unfold sym_bytes. cbn [symVal symLen]. rewrite Nat2Z.id.
  replace L with (length (take L p)) at 1 by (rewrite length_take; lia).
  apply le_bytes_le_uint. by apply Forall_take.
Qed.

(** The result is a symbol that is a prefix of [p], and no longer symbol of
    at most [L] bytes is. *)
Lemma fsst_match_from_spec (p : list Z) (L : nat) :
  bytes_ok p -> (L <= length p)%nat -> Forall sym_ok t ->
  exists o, fsst_match_from lk p L = Ok o /\
    match o with
    | Some (c, l) => exists s, 0 <= c /\ t !! Z.to_nat c = Some s /\ symLen s = l /\ 1 <= l <= Z.of_nat L /\
        sym_bytes s = take (Z.to_nat l) p /\
        forall s', s' ∈ t -> l < symLen s' <= Z.of_nat L -> sym_bytes s' <> take (Z.to_nat (symLen s')) p
    | None => forall s', s' ∈ t -> symLen s' <= Z.of_nat L -> sym_bytes s' <> take (Z.to_nat (symLen s')) p
    end.
Proof using HR Hroom.
  intros Hp HL Ht. induction L as [|L IH]; cbn [fsst_match_from].
  - eexists. split; [done|]. intros s' Hs' Hl. rewrite Forall_forall in Ht.
    specialize (Ht s' (proj1 (list_elem_of_In _ _) Hs')) as [Hk _]. lia.
  - rewrite rd_Ok by (unfold zlen; lia). rewrite bind_Ok. change (Z.to_nat 0) with 0%nat.
    rewrite drop_0, Nat2Z.id.
    destruct (fsst_lookup_find_spec (le_uint (take (S L) p)) (Z.of_nat (S L))) as (c & -> & Hc).
    rewrite bind_Ok. destruct Hc as [[Hc0 Hc]|[-> Hno]].
    + destruct (Z.leb_spec 0 c); [|lia]. eexists. split; [done|]. cbn beta iota.
      exists (mkSym (le_uint (take (S L) p)) (Z.of_nat (S L))). rewrite Nat2Z.id.
      repeat split; try done; try lia. by apply sym_bytes_take.
    + destruct (Z.leb_spec 0 (-1)); [lia|].
      assert (HS : forall s', s' ∈ t -> symLen s' = Z.of_nat (S L) ->
        sym_bytes s' <> take (Z.to_nat (symLen s')) p).
      { intros s' Hs' Hl He. apply list_elem_of_lookup in Hs' as Hs2. destruct Hs2 as [j Hj].
        apply (Hno j). etransitivity; [exact Hj|]. f_equal. destruct s' as [v l]. cbn [symLen symVal] in *. subst l.
        f_equal. rewrite Nat2Z.id in He. rewrite <- He. unfold sym_bytes. cbn [symLen symVal].
        symmetry. apply le_uint_le_bytes_id.
        pose proof (Forall_lookup_1 _ _ _ _ Ht Hj) as [_ Hv]. cbn [symLen symVal] in Hv.
        rewrite Nat2Z.id. done. }
      destruct IH as (o & -> & Ho); [lia|]. exists o. split; [done|].
      destruct o as [[c l]|].
      * destruct Ho as (s & H0 & Hs & Hsl & Hl & Hb & Hno'). exists s.
        repeat split; try done; try lia. intros s' Hs' Hl'.
        destruct (decide (symLen s' = Z.of_nat (S L))); [by apply HS|]. apply Hno'; [done|lia].
      * intros s' Hs' Hl'. destruct (decide (symLen s' = Z.of_nat (S L))); [by apply HS|].
        apply Ho; [done|lia].
Qed.
End Lookup.

Lemma nthZ_replicate n (x : Z) i : 0 <= i < Z.of_nat n -> nthZ (replicate n x) i = x.
Proof. intros. apply nthZ_lookup, lookup_replicate_2. lia. Qed.

Lemma lk_rep_blank bits :
  0 <= bits ->
  let blank := replicate (Z.to_nat (cap bits)) poison in
  lk_rep bits [] (mkLk blank blank (replicate (Z.to_nat (cap bits)) (-1)) (cap bits - 1)).
Proof.
  intros Hb blank. pose proof (cap_pos bits Hb).
  assert (Hn : forall s, 0 <= s < cap bits -> nthZ (replicate (Z.to_nat (cap bits)) (-1)) s = -1)
    by (intros s Hs; apply nthZ_replicate; lia).
  split; cbn [lcode keyVal keyLen lmask]; try done;
    try (unfold blank, zlen; rewrite length_replicate; lia).
  - intros s Hs Hne. by rewrite Hn in Hne.
  - rewrite filter_none; [done|lia].
  - apply oa_inv_empty. intros s Hs. unfold lk_key. cbn [lcode]. by rewrite Hn.
Qed.

Lemma fsst_lookup_fill_spec bits done lk todo :
  lk_rep bits done lk -> zlen (done ++ todo) < cap bits ->
  exists lk', fsst_lookup_fill lk (zlen done) todo = Ok lk' /\ lk_rep bits (done ++ todo) lk'.
Proof.
  revert done lk. induction todo as [|sym todo IH]; intros dn lk HR Hroom.
  - exists lk. rewrite app_nil_r. done.
  - cbn [fsst_lookup_fill]. rewrite zlen_app in Hroom.
    change (zlen (sym :: todo)) with (zlen ([sym] ++ todo)) in Hroom. rewrite zlen_app in Hroom.
    change (zlen [sym]) with 1 in Hroom. pose proof (zlen_nonneg todo).
    destruct (fsst_lookup_insert_spec bits dn lk HR ltac:(lia) sym) as (lk1 & -> & HR1).
    rewrite bind_Ok. replace (zlen dn + 1) with (zlen (dn ++ [sym])) by (by rewrite zlen_app).
    replace (dn ++ sym :: todo) with ((dn ++ [sym]) ++ todo) by (by rewrite <- app_assoc).
    apply IH; [done|]. rewrite !zlen_app. change (zlen [sym]) with 1. lia.
Qed.

Lemma fsst_lookup_build_spec t :
  zlen t <= 255 -> exists bits lk, fsst_lookup_build t = Ok lk /\ lk_rep bits t lk /\ zlen t < cap bits.
Proof.
  intros Ht. pose proof (zlen_nonneg t). unfold fsst_lookup_build.
  assert (Hc : exists bits, 9 <= bits /\ fsst_cap 32 512 (zlen t * 4 + 4) = cap bits).
  { cbn [fsst_cap]. destruct (Z.ltb_spec 512 (zlen t * 4 + 4)); [|by exists 9].
    change (u32 (Z.shiftl 512 1)) with 1024.
    destruct (Z.ltb_spec 1024 (zlen t * 4 + 4)); [lia|by exists 10]. }
  destruct Hc as (bits & Hb & ->). cbv zeta.
  assert (cap 9 <= cap bits) by (apply Z.pow_le_mono_r; lia). change (cap 9) with 512 in *.
  destruct (fsst_lookup_fill_spec bits [] _ t (lk_rep_blank bits ltac:(lia))) as (lk & Hf & HR);
    [cbn [app]; lia|].
  exists bits, lk. split; [done|]. split; [done|lia].
Qed.

(** ** The serialized table *)

Lemma fsst_parse_safe n p t :
  bytes_ok p -> zlen p < 2 ^ 32 -> Forall sym_ok t ->
  safe (fun t' => Forall sym_ok t' /\ length t' = (length t + n)%nat) (fsst_parse_symbols n p t).
Proof.
  revert p t. induction n as [|n IH]; intros p t Hp H32 Ht; cbn [fsst_parse_symbols].
  - simpl. split; [done|lia].
  - destruct p as [|L p]; [done|]. inversion_clear Hp as [|? ? HL Hp'].
    assert (Hz : zlen (L :: p) = 1 + zlen p) by (unfold zlen; simpl; lia). rewrite Hz in H32.
    pose proof (zlen_nonneg p). unfold FSST_MAX_SYMLEN.
    destruct (Z.ltb_spec L 1); [done|]. destruct (Z.ltb_spec 8 L); [done|]. cbn [orb].
    rewrite u32_small by lia. destruct (Z.ltb_spec (zlen p) L); [done|].
    rewrite rd_Ok by lia. rewrite bind_Ok. change (Z.to_nat 0) with 0%nat. rewrite drop_0.
    eapply safe_mono; [apply IH|].
    + by apply Forall_drop.
    + unfold zlen in *. rewrite length_drop. lia.
    + apply Forall_app_2; [done|]. constructor; [|constructor]. split; cbn [symLen symVal].
      * unfold FSST_MAX_SYMLEN. lia.
      * pose proof (le_uint_bound (take (Z.to_nat L) p) ltac:(by apply Forall_take)) as Hb.
        assert (Hlt : zlen (take (Z.to_nat L) p) = L) by (unfold zlen in *; rewrite length_take; lia).
        by rewrite Hlt in Hb.
    + cbn beta. intros t' [Ha Hb]. split; [done|]. rewrite Hb, length_app. simpl. lia.
Qed.

Lemma fsst_parse_serialized t done rest :
  Forall sym_ok t -> zlen (concat ((fun s => u8 (symLen s) :: sym_bytes s) <$> t) ++ rest) < 2 ^ 32 ->
  fsst_parse_symbols (length t) (concat ((fun s => u8 (symLen s) :: sym_bytes s) <$> t) ++ rest) done
  = Ok (done ++ t).
Proof.
  intros Ht. revert done. induction Ht as [|s t [Hl Hv] Ht IH]; intros dn H32.
  - cbn. by rewrite app_nil_r.
  - cbn [length fmap list_fmap concat app fsst_parse_symbols] in *. rewrite <- app_assoc in *.
    fold (fmap (M := list) (fun s => u8 (symLen s) :: sym_bytes s) t) in *.
    set (R := concat ((fun s => u8 (symLen s) :: sym_bytes s) <$> t) ++ rest) in *.
    unfold FSST_MAX_SYMLEN in *.
    assert (Hu : u8 (symLen s) = symLen s) by (apply Z.mod_small; lia). rewrite Hu in *.
    destruct (Z.ltb_spec (symLen s) 1); [lia|]. destruct (Z.ltb_spec 8 (symLen s)); [lia|]. cbn [orb].
    assert (Hsb : zlen (sym_bytes s) = symLen s) by (unfold sym_bytes; rewrite zlen_le_bytes; lia).
    assert (Hz : zlen (symLen s :: sym_bytes s ++ R) = 1 + zlen (sym_bytes s ++ R)) by (unfold zlen; simpl; lia).
    rewrite Hz in H32. pose proof (zlen_nonneg (sym_bytes s ++ R)).
    rewrite u32_small by lia. pose proof (zlen_nonneg R). rewrite zlen_app, Hsb in *.
    destruct (Z.ltb_spec (symLen s + zlen R) (symLen s)); [lia|].
    assert (Hrd : rd (sym_bytes s ++ R) 0 (symLen s) = Ok (sym_bytes s))
      by (rewrite <- Hsb; exact (rd_middle [] (sym_bytes s) R)).
    rewrite Hrd, bind_Ok.
    assert (Hd : drop (Z.to_nat (symLen s)) (sym_bytes s ++ R) = R).
    { rewrite <- Hsb. unfold zlen. rewrite Nat2Z.id. apply drop_app_length. }
    rewrite Hd. assert (Hsv : le_uint (sym_bytes s) = symVal s).
    { unfold sym_bytes. apply le_uint_le_bytes_id. rewrite Z2Nat.id by lia. done. }
    rewrite Hsv, IH by lia. rewrite <- app_assoc. by destruct s.
Qed.

Lemma fsst_serialized_len t :
  Forall sym_ok t -> zlen (concat ((fun s => u8 (symLen s) :: sym_bytes s) <$> t)) <= 9 * zlen t.
Proof.
  induction 1 as [|s t [Hl _] Ht IH]; [done|]. cbn [fmap list_fmap concat].
  rewrite zlen_app. fold (fmap (M := list) (fun s => u8 (symLen s) :: sym_bytes s) t).
  unfold FSST_MAX_SYMLEN in Hl. assert (zlen (u8 (symLen s) :: sym_bytes s) = 1 + symLen s).
  { unfold zlen, sym_bytes. simpl. rewrite length_le_bytes. lia. }
  change (zlen (s :: t)) with (zlen ([s] ++ t)). rewrite (zlen_app [s] t). change (zlen [s]) with 1. lia.
Qed.

Lemma fsst_table_roundtrip_lemma t :
  Forall sym_ok t -> zlen t <= 255 -> fsst_deserialize_table (fsst_serialize_table t) = Ok t.
Proof.
  intros Ht Hn. pose proof (zlen_nonneg t). pose proof (fsst_serialized_len t Ht) as Hl.
  unfold fsst_deserialize_table, fsst_serialize_table.
  assert (Hu : u8 (zlen t) = zlen t) by (apply Z.mod_small; lia). rewrite Hu.
  unfold FSST_MAX_SYMBOLS. destruct (Z.ltb_spec 255 (zlen t)); [lia|].
  replace (Z.to_nat (zlen t)) with (length t) by (unfold zlen; lia).
  rewrite <- (app_nil_r (concat _)). apply (fsst_parse_serialized t [] []); [done|].
  rewrite app_nil_r. lia.
Qed.

(** ** Encoding and decoding a code stream *)

(** What a code stream stands for. *)
Inductive fsst_stream (t : FsstTable) : list Z -> list Z -> Prop :=
| stream_nil : fsst_stream t [] []
| stream_sym c s codes out :
    0 <= c < FSST_ESCAPE -> t !! Z.to_nat c = Some s ->
    fsst_stream t codes out -> fsst_stream t (codes ++ [c]) (out ++ sym_bytes s)
| stream_escape b codes out :
    byte_ok b -> fsst_stream t codes out -> fsst_stream t (codes ++ [FSST_ESCAPE; b]) (out ++ [b]).

Lemma fsst_stream_bytes t codes out : fsst_stream t codes out -> bytes_ok codes.
Proof.
  induction 1 as [|c s codes out Hc _ _ IH|b codes out Hb _ IH]; [constructor| |];
    (apply Forall_app_2; [done|]); repeat constructor; unfold FSST_ESCAPE in *;
    unfold byte_ok in *; lia.
Qed.

Lemma fsst_encode_loop_spec bits t lk fuel raw pos buf :
  lk_rep bits t lk -> zlen t < cap bits -> Forall sym_ok t -> zlen t <= 255 -> bytes_ok raw ->
  zlen raw < 2 ^ 32 - 2 ->
  0 <= pos <= zlen raw -> zlen raw - pos < Z.of_nat fuel ->
  fsst_stream t buf (take (Z.to_nat pos) raw) -> zlen buf <= zlen raw ->
  exists o, fsst_encode_loop fuel lk raw (zlen raw) pos buf = Ok o /\
    forall enc, o = Some enc -> fsst_stream t enc raw /\ zlen enc < zlen raw.
Proof.
  intros HR Hroom Ht H255 Hraw H32. revert pos buf.
  induction fuel as [|f IH]; intros pos buf Hpos Hf Hst Hbl; [lia|]. cbn [fsst_encode_loop].
  destruct (Z.ltb_spec pos (zlen raw)).
  2:{ assert (pos = zlen raw) as -> by lia. rewrite keep_if_smaller_spec by lia.
      destruct (Z.leb_spec (zlen raw) (zlen buf)); eexists; (split; [done|]); [done|].
      intros enc [= <-]. split; [|lia].
      rewrite take_ge in Hst by (unfold zlen; lia). done. }
  unfold fsst_longest_match, FSST_MAX_SYMLEN. cbv zeta.
  set (maxL := if _ <? 8 then _ else _).
  assert (HmaxL : 1 <= maxL <= zlen raw - pos /\ maxL <= 8).
  { unfold maxL. destruct (Z.ltb_spec (zlen raw - pos) 8); lia. }
  assert (Hrem : length (drop (Z.to_nat pos) raw) = Z.to_nat (zlen raw - pos))
    by (unfold zlen in *; rewrite length_drop; lia).
  destruct (fsst_match_from_spec bits t lk HR Hroom (drop (Z.to_nat pos) raw) (Z.to_nat maxL))
    as (o & -> & Ho); [by apply Forall_drop|lia|done|].
  rewrite bind_Ok. destruct o as [[c l]|].
  - destruct Ho as (s & Hc0 & Hs & Hsl & Hl & Hsb & _). rewrite bind_Ok.
    pose proof (lookup_lt_Some _ _ _ Hs) as Hlt. unfold zlen in H255.
    assert (Hu : u8 c = c) by (apply Z.mod_small; lia). rewrite Hu.
    rewrite (u32_small (pos + l)) by lia. rewrite zlen_app. change (zlen [c]) with 1.
    pose proof (zlen_nonneg buf). rewrite u32_small by lia.
    destruct (Z.leb_spec (zlen raw) (zlen buf + 1)); [by eexists|].
    apply IH; try lia.
    + replace (take (Z.to_nat (pos + l)) raw) with (take (Z.to_nat pos) raw ++ sym_bytes s).
      * apply stream_sym; try done. unfold FSST_ESCAPE. lia.
      * rewrite Hsb. replace (Z.to_nat (pos + l)) with (Z.to_nat pos + Z.to_nat l)%nat by lia.
        apply take_take_drop.
    + rewrite zlen_app. change (zlen [c]) with 1. lia.
  - rewrite rd1_Ok by lia. rewrite !bind_Ok. rewrite (u32_small (pos + 1)) by lia.
    rewrite zlen_app. change (zlen [FSST_ESCAPE; nthZ raw pos]) with 2.
    pose proof (zlen_nonneg buf). rewrite u32_small by lia.
    destruct (Z.leb_spec (zlen raw) (zlen buf + 2)); [by eexists|].
    apply IH; try lia.
    + replace (Z.to_nat (pos + 1)) with (S (Z.to_nat pos)) by lia.
      rewrite (take_S_r _ _ (nthZ raw pos)) by (apply nthZ_lookup_Some; lia).
      apply stream_escape; [by apply nthZ_ok|done].
    + rewrite zlen_app. change (zlen [FSST_ESCAPE; nthZ raw pos]) with 2. lia.
Qed.

(** The decode loop over one more code, and over a whole stream. *)
Definition fsst_run (t : FsstTable) (rawLen : Z) (p raw : list Z) (pos : Z) : res (list Z * Z) :=
  fsst_decode_loop (S (length p)) t rawLen p raw pos.

Lemma fsst_decode_fuel t rawLen p raw pos f f' :
  (length p < f)%nat -> (length p < f')%nat ->
  fsst_decode_loop f t rawLen p raw pos = fsst_decode_loop f' t rawLen p raw pos.
Proof.
  revert f' p raw pos. induction f as [|f IH]; intros f' p raw pos Hf Hf'; [lia|].
  destruct f' as [|f']; [lia|]. cbn [fsst_decode_loop].
  destruct p as [|c p]; [done|]. simpl in Hf, Hf'.
  destruct (c =? FSST_ESCAPE).
  - destruct p as [|b p]; [done|]. simpl in Hf, Hf'. destruct (rawLen <=? pos); [done|].
    destruct (wr1 raw pos b); cbn [mbind res_bind]; try done. apply IH; lia.
  - destruct (zlen t <=? c); [done|]. destruct (t !! Z.to_nat c) as [s|]; [|done].
    destruct (_ <? _); [done|]. destruct (wr raw pos _); cbn [mbind res_bind]; try done. apply IH; lia.
Qed.

(** Writing eight bytes where only the first [symLen] count. *)
Lemma wr_symbol sz raw pre s :
  sym_ok s -> filled sz raw pre -> zlen pre + 8 <= sz ->
  exists raw', wr raw (zlen pre) (le_bytes 8 (symVal s)) = Ok raw' /\ filled sz raw' (pre ++ sym_bytes s).
Proof.
  intros [Hl Hv] Hf Hfit.
  destruct (wr_filled sz raw pre (le_bytes 8 (symVal s)) Hf) as (raw' & -> & Hf');
    [rewrite zlen_le_bytes; lia|].
  exists raw'. split; [done|]. destruct Hf' as [Hz (r & Hr)]. split; [done|].
  assert (Hpre : exists tl, le_bytes 8 (symVal s) = sym_bytes s ++ tl).
  { unfold sym_bytes. exists (drop (Z.to_nat (symLen s)) (le_bytes 8 (symVal s))).
    rewrite <- (take_drop (Z.to_nat (symLen s)) (le_bytes 8 (symVal s))) at 1. f_equal.
    unfold FSST_MAX_SYMLEN in Hl.
    apply le_uint_inj; [apply Forall_take, le_bytes_ok|apply le_bytes_ok| |].
    - rewrite length_take, !length_le_bytes. lia.
    - rewrite le_uint_take by apply le_bytes_ok. rewrite !le_uint_le_bytes, Z2Nat.id by lia.
      assert (2 ^ (8 * symLen s) <= 2 ^ (8 * Z.of_nat 8)) by (apply Z.pow_le_mono_r; lia).
      rewrite (Z.mod_small (symVal s) (2 ^ (8 * Z.of_nat 8))) by lia. done. }
  destruct Hpre as [tl Htl]. exists (tl ++ r). rewrite Hr, Htl. by rewrite <- !app_assoc.
Qed.

Lemma fsst_run_escape t rawLen b rest raw raw' pos :
  pos < rawLen -> wr1 raw pos b = Ok raw' ->
  fsst_run t rawLen (FSST_ESCAPE :: b :: rest) raw pos = fsst_run t rawLen rest raw' (u32 (pos + 1)).
Proof.
  intros Hp Hw. unfold fsst_run. set (n := length (FSST_ESCAPE :: b :: rest)).
  assert (Hn : n = S (S (length rest))) by done. clearbody n. set (R := fsst_decode_loop (S (length rest)) _ _ _ _ _). cbn [fsst_decode_loop].
  destruct (Z.eqb_spec FSST_ESCAPE FSST_ESCAPE); [|done]. unfold R.
  destruct (Z.leb_spec rawLen pos); [lia|]. rewrite Hw, bind_Ok. apply fsst_decode_fuel; lia.
Qed.

Lemma wr1_filled sz raw pre b :
  filled sz raw pre -> zlen pre + 1 <= sz ->
  exists raw', wr1 raw (zlen pre) b = Ok raw' /\ filled sz raw' (pre ++ [b]).
Proof.
  intros Hf Hl. pose proof (zlen_nonneg pre).
  destruct (wr_filled sz raw pre [b] Hf Hl) as (r2 & Hw & Hf2).
  exists r2. split; [|done]. rewrite <- Hw. destruct Hf as [Hz _]. unfold wr1, wr.
  change (zlen [b]) with 1. bool_true. cbn [andb]. f_equal.
  replace (Z.to_nat (zlen pre + 1)) with (S (Z.to_nat (zlen pre))) by lia.
  rewrite insert_take_drop by (unfold zlen in *; lia). done.
Qed.

Lemma fsst_decode_stream t rawLen sz codes out :
  fsst_stream t codes out -> Forall sym_ok t -> rawLen + 8 <= sz -> rawLen < 2 ^ 32 ->
  forall rest raw, filled sz raw [] -> zlen out <= rawLen ->
  exists raw', fsst_run t rawLen (codes ++ rest) raw 0 = fsst_run t rawLen rest raw' (zlen out) /\
    filled sz raw' out.
Proof.
  intros Hst Ht Hsz H32. induction Hst as [|c s codes out Hc Hs _ IH|b codes out Hb _ IH];
    intros rest raw Hf Hout.
  - exists raw. done.
  - rewrite zlen_app in Hout. pose proof (Forall_lookup_1 _ _ _ _ Ht Hs) as Hsok.
    pose proof Hsok as [Hl Hv]. unfold FSST_MAX_SYMLEN, FSST_ESCAPE in *.
    assert (Hsb : zlen (sym_bytes s) = symLen s) by (unfold sym_bytes; rewrite zlen_le_bytes; lia).
    destruct (IH ([c] ++ rest) raw Hf) as (r1 & Hrun & Hf1); [lia|].
    rewrite <- app_assoc, Hrun. pose proof (zlen_nonneg out).
    destruct (wr_symbol sz r1 out s Hsok Hf1) as (r2 & Hw & Hf2); [lia|].
    exists r2. split; [|done]. unfold fsst_run at 1. cbn [app length fsst_decode_loop].
    destruct (Z.eqb_spec c FSST_ESCAPE); [unfold FSST_ESCAPE in *; lia|].
    pose proof (lookup_lt_Some _ _ _ Hs). destruct (Z.leb_spec (zlen t) c); [unfold zlen in *; lia|].
    rewrite Hs, u32_small by lia. destruct (Z.ltb_spec (rawLen - zlen out) (symLen s)); [lia|].
    rewrite Hw, bind_Ok, u32_small, zlen_app, Hsb by lia. done.
  - rewrite zlen_app in Hout. change (zlen [b]) with 1 in Hout.
    destruct (IH ([FSST_ESCAPE; b] ++ rest) raw Hf) as (r1 & Hrun & Hf1); [lia|].
    rewrite <- app_assoc, Hrun. pose proof (zlen_nonneg out).
    destruct (wr1_filled sz r1 out b Hf1) as (r2 & Hw & Hf2); [lia|].
    exists r2. split; [|done]. cbn [app].
    rewrite (fsst_run_escape _ _ _ _ _ r2) by (done || lia).
    rewrite u32_small, zlen_app by lia. done.
Qed.

Lemma fsst_deserialize_inv table t :
  bytes_ok table -> zlen table < 2 ^ 32 -> fsst_deserialize_table table = Ok t ->
  Forall sym_ok t /\ zlen t <= 255 /\
  exists n tp, table = n :: tp /\ n <= 255 /\ fsst_parse_symbols (Z.to_nat n) tp [] = Ok t.
Proof.
  intros Hb H32 Hd. unfold fsst_deserialize_table in Hd. destruct table as [|n tp]; [done|].
  unfold FSST_MAX_SYMBOLS in Hd. destruct (Z.ltb_spec 255 n); [done|].
  inversion_clear Hb as [|? ? Hn Htp]. unfold byte_ok in Hn.
  pose proof (fsst_parse_safe (Z.to_nat n) tp [] Htp) as Hs. rewrite Hd in Hs.
  destruct Hs as [Hok Hl]; [unfold zlen in *; simpl in H32; lia|constructor|].
  split; [done|]. split; [unfold zlen; simpl in Hl; lia|]. eauto.
Qed.

(** A decoder run over a stream of the table's codes gives the stream's bytes. *)
Lemma decode_fsst_stream table t enc raw :
  bytes_ok table -> zlen table < 2 ^ 32 -> fsst_deserialize_table table = Ok t ->
  fsst_stream t enc raw -> 0 < zlen raw -> zlen raw + 8 <= MaxAllocSize ->
  decode_fsst_shared enc table (zlen raw) = Ok raw.
Proof.
  intros Hb H32 Hd Hst Hpos Hm. unfold MaxAllocSize in Hm.
  destruct (fsst_deserialize_inv table t Hb H32 Hd) as (Ht & Hn & n & tp & -> & Hn255 & Hp).
  unfold decode_fsst_shared, FSST_DECODE_SLACK. destruct (Z.ltb_spec 0 (zlen raw)); [|lia].
  rewrite u32_small, MemoryContextAlloc_Ok, bind_Ok by (unfold MaxAllocSize; lia).
  unfold FSST_MAX_SYMBOLS. destruct (Z.ltb_spec 255 n); [lia|]. rewrite Hp, bind_Ok.
  destruct (fsst_decode_stream t (zlen raw) (zlen raw + 8) enc raw Hst Ht ltac:(lia) ltac:(lia) []
    (replicate (Z.to_nat (zlen raw + 8)) poison)) as (r' & Hrun & Hf); [by apply filled_init; lia|lia|].
  rewrite app_nil_r in Hrun. unfold fsst_run in Hrun. rewrite Hrun. cbn [length fsst_decode_loop].
  rewrite bind_Ok. cbn [fst snd]. rewrite Z.eqb_refl. cbn [negb]. f_equal.
  by apply (filled_take _ _ _ _ Hf).
Qed.

Lemma encode_fsst_spec raw table t :
  bytes_ok raw -> zlen raw + 8 <= MaxAllocSize -> bytes_ok table -> zlen table < 2 ^ 32 ->
  fsst_deserialize_table table = Ok t ->
  codec_roundtrip (fun enc => decode_fsst_shared enc table (zlen raw)) raw
    (encode_fsst_shared raw (zlen raw) table).
Proof.
  intros Hraw Hm Hb H32 Hd. unfold encode_fsst_shared, FSST_MIN_RAWLEN.
  destruct (Z.ltb_spec (zlen raw) 64); [by eexists|]. rewrite Hd, bind_Ok.
  destruct (zlen t =? 0); [by eexists|].
  destruct (fsst_deserialize_inv table t Hb H32 Hd) as (Ht & Hn & _).
  destruct (fsst_lookup_build_spec t Hn) as (bits & lk & -> & HR & Hroom). rewrite bind_Ok.
  unfold MaxAllocSize in Hm.
  destruct (fsst_encode_loop_spec bits t lk (S (Z.to_nat (zlen raw))) raw 0 [] HR Hroom Ht Hn Hraw)
    as (o & -> & Ho); try lia; try constructor; try (unfold zlen; simpl; lia).
  exists o. split; [done|]. destruct o as [enc|]; [|done].
  destruct (Ho enc eq_refl) as [Hst Hlt]. split; [by eapply fsst_stream_bytes|]. split; [done|].
  apply (decode_fsst_stream table t); try done; lia.
Qed.

(** ** The decoder on arbitrary bytes *)

Lemma sym_bytes_ok s : bytes_ok (sym_bytes s).
Proof. apply le_bytes_ok. Qed.

Lemma fsst_decode_loop_safe t rawLen sz fuel p raw pre :
  Forall sym_ok t -> rawLen + 8 <= sz -> rawLen < 2 ^ 32 -> bytes_ok p -> bytes_ok pre ->
  (length p < fuel)%nat -> filled sz raw pre -> zlen pre <= rawLen ->
  safe (fun st => exists out, filled sz st.1 out /\ bytes_ok out /\ zlen out = st.2)
    (fsst_decode_loop fuel t rawLen p raw (zlen pre)).
Proof.
  intros Ht Hsz H32. revert p raw pre.
  induction fuel as [|f IH]; intros p raw pre Hp Hpre Hfu Hf Hl; [lia|]. cbn [fsst_decode_loop].
  pose proof (zlen_nonneg pre). destruct p as [|c p]; [simpl; eauto|]. simpl in Hfu.
  inversion_clear Hp as [|? ? Hc Hp'].
  destruct (c =? FSST_ESCAPE).
  - destruct p as [|b p]; [done|]. inversion_clear Hp' as [|? ? Hb Hp'']. simpl in Hfu.
    destruct (Z.leb_spec rawLen (zlen pre)); [done|].
    destruct (wr1_filled sz raw pre b Hf) as (r2 & Hw & Hf2); [lia|].
    rewrite Hw, bind_Ok, u32_small by lia.
    replace (zlen pre + 1) with (zlen (pre ++ [b])) by (by rewrite zlen_app).
    apply IH; try done; try lia.
    + apply Forall_app_2; [done|]. by constructor.
    + rewrite zlen_app. change (zlen [b]) with 1. lia.
  - destruct (Z.leb_spec (zlen t) c); [done|]. unfold byte_ok in Hc.
    destruct (lookup_lt_is_Some_2 t (Z.to_nat c)) as [s Hs]; [unfold zlen in *; lia|]. rewrite Hs.
    pose proof (Forall_lookup_1 _ _ _ _ Ht Hs) as Hsok. pose proof Hsok as [Hsl _].
    unfold FSST_MAX_SYMLEN in Hsl. rewrite u32_small by lia.
    destruct (Z.ltb_spec (rawLen - zlen pre) (symLen s)); [done|].
    destruct (wr_symbol sz raw pre s Hsok Hf) as (r2 & -> & Hf2); [lia|].
    rewrite bind_Ok, u32_small by lia.
    assert (Hsb : zlen (sym_bytes s) = symLen s) by (unfold sym_bytes; rewrite zlen_le_bytes; lia).
    replace (zlen pre + symLen s) with (zlen (pre ++ sym_bytes s)) by (rewrite zlen_app; lia).
    apply IH; try done; try lia.
    + apply Forall_app_2; [done|apply sym_bytes_ok].
    + rewrite zlen_app. lia.
Qed.

Lemma decode_fsst_safe enc table rawLen :
  bytes_ok enc -> bytes_ok table -> zlen table < 2 ^ 32 -> 0 <= rawLen < 2 ^ 32 - 8 ->
  decode_safe rawLen (decode_fsst_shared enc table rawLen).
Proof.
  intros Hb Htb H32 Hr. unfold decode_fsst_shared, decode_safe, FSST_DECODE_SLACK.
  rewrite u32_small by (destruct (Z.ltb_spec 0 rawLen); lia).
  unfold MemoryContextAlloc. destruct (_ <? _); [done|]. rewrite bind_Ok.
  set (sz := (if 0 <? rawLen then rawLen else 1) + 8).
  assert (Hsz : rawLen + 8 <= sz) by (unfold sz; destruct (Z.ltb_spec 0 rawLen); lia).
  destruct table as [|n tp]; [done|]. inversion_clear Htb as [|? ? Hn Htp].
  unfold FSST_MAX_SYMBOLS. destruct (Z.ltb_spec 255 n); [done|].
  eapply safe_bind; [apply fsst_parse_safe; [done|unfold zlen in *; simpl in H32; lia|constructor]|].
  intros t [Ht _].
  eapply safe_bind; [apply (fsst_decode_loop_safe t rawLen sz _ enc _ []); try done; try lia|].
  - constructor.
  - apply filled_init. lia.
  - unfold zlen; simpl; lia.
  - intros [r pos] (out & Hf & Ho & Hz). cbn [fst snd] in *.
    destruct (Z.eqb_spec pos rawLen) as [->|]; [|done]. cbn [negb safe].
    rewrite (filled_take _ _ _ _ Hf) by done. done.
Qed.

(** ** The builder *)

Definition cnt_key (tbl : list FsstCount) (s : Z) : option (Z * Z) :=
  match tbl !! Z.to_nat s with
  | Some c => if cused c then Some (cval c, clen c) else None
  | None => None
  end.

Definition cnt_ok (c : FsstCount) : Prop := cused c = true -> sym_ok (mkSym (cval c) (clen c)).

Record cnt_rep (bits : Z) (tbl : list FsstCount) (nUsed : Z) : Prop := {
  cr_bits : 2 <= bits;
  cr_len : zlen tbl = cap bits;
  cr_ok : Forall cnt_ok tbl;
  cr_used : Z.of_nat (length (filter (fun c => cused c = true) tbl)) = nUsed;
  cr_max : nUsed <= cap bits - cap bits / 4;
  cr_inv : oa_inv khash bits (cnt_key tbl)
}.

Lemma cnt_rep_blank bits :
  2 <= bits -> cnt_rep bits (replicate (Z.to_nat (cap bits)) cnt_blank) 0.
Proof.
  intros Hb. pose proof (cap_pos bits ltac:(lia)). div_bounds (cap bits) 4.
  split; try done; try lia.
  - unfold zlen. rewrite length_replicate. lia.
  - apply Forall_replicate. done.
  - by rewrite filter_none.
  - apply oa_inv_empty. intros s Hs. unfold cnt_key. rewrite lookup_replicate_2 by lia. done.
Qed.

Section Counting.
Context (bits : Z) (tbl : list FsstCount) (nUsed : Z) (HR : cnt_rep bits tbl nUsed).

Lemma cnt_lookup s : 0 <= s < cap bits -> exists c, tbl !! Z.to_nat s = Some c.
Proof using HR.
  intros Hs. apply lookup_lt_is_Some_2. pose proof (cr_len _ _ _ HR). unfold zlen in *. lia.
Qed.

(** The load limit leaves an empty slot, so the probe stops. *)
Lemma cnt_hole : exists e, 0 <= e < cap bits /\ cnt_key tbl e = None.
Proof using HR.
  assert (Hb : 2 <= bits) by apply (cr_bits _ _ _ HR).
  assert (H4 : 4 <= cap bits) by (apply (Z.pow_le_mono_r 2 2); lia).
  destruct (filter_lt_hole (fun c => cused c = true) tbl) as (i & c & Hc & Hn).
  - pose proof (cr_used _ _ _ HR). pose proof (cr_max _ _ _ HR). pose proof (cr_len _ _ _ HR).
    div_bounds (cap bits) 4. unfold zlen in *. lia.
  - exists (Z.of_nat i). pose proof (lookup_lt_Some _ _ _ Hc). pose proof (cr_len _ _ _ HR).
    split; [unfold zlen in *; lia|]. unfold cnt_key. rewrite Nat2Z.id, Hc.
    by destruct (cused c).
Qed.

Lemma cnt_key_insert s c s' :
  0 <= s < cap bits -> 0 <= s' ->
  cnt_key (<[Z.to_nat s := c]> tbl) s'
  = if decide (s' = s) then (if cused c then Some (cval c, clen c) else None) else cnt_key tbl s'.
Proof using HR.
  intros Hs Hs'. unfold cnt_key. destruct (decide (s' = s)) as [->|Hne].
  - rewrite list_lookup_insert_eq; [done|]. pose proof (cr_len _ _ _ HR). unfold zlen in *. lia.
  - by rewrite list_lookup_insert_ne by lia.
Qed.

(** Bumping a counter of a key already there. *)
Lemma cnt_rep_bump s c count :
  0 <= s < cap bits -> tbl !! Z.to_nat s = Some c -> cused c = true ->
  cnt_rep bits (<[Z.to_nat s := mkCnt (cval c) count (clen c) true]> tbl) nUsed.
Proof using HR.
  intros Hs Hc Hu. pose proof HR as [? ? Hok Hcnt ? Hinv]. split; try done.
  - unfold zlen in *. by rewrite length_insert.
  - apply Forall_insert; [done|]. intros _. by apply (Forall_lookup_1 _ _ _ _ Hok Hc).
  - rewrite <- Hcnt. f_equal. rewrite <- (list_insert_id tbl (Z.to_nat s) c Hc) at 2.
    clear -Hc Hu. revert Hc. generalize (Z.to_nat s) as i. induction tbl as [|z l IH]; intros i Hi; [done|].
    destruct i as [|i]; simpl in *.
    + injection Hi as ->. by rewrite !filter_cons_True.
    + rewrite !filter_cons. destruct (decide (cused z = true)); simpl; by rewrite (IH i).
  - intros s0 k Hs0 Hk. rewrite cnt_key_insert in Hk by lia.
    assert (Hsame : forall s', 0 <= s' < cap bits ->
      cnt_key (<[Z.to_nat s := mkCnt (cval c) count (clen c) true]> tbl) s' = cnt_key tbl s').
    { intros s' Hs'. rewrite cnt_key_insert by lia. destruct (decide (s' = s)) as [->|]; [|done].
      unfold cnt_key. rewrite Hc, Hu. done. }
    assert (Hk' : cnt_key tbl s0 = Some k).
    { rewrite <- Hsame by done. by rewrite cnt_key_insert by lia. }
    destruct (Hinv s0 k Hs0 Hk') as (j & Hj & Hw & Hp). exists j. repeat split; try done; try lia.
    intros i Hi. rewrite Hsame by (apply walk_range; lia). by apply Hp.
Qed.

(** Storing a new key, while there is room. *)
Lemma cnt_rep_add s sym gain :
  0 <= s < cap bits -> cnt_key tbl s = None -> sym_ok sym ->
  reached khash bits (cnt_key tbl) (symVal sym, symLen sym) s ->
  nUsed < cap bits - cap bits / 4 ->
  cnt_rep bits (<[Z.to_nat s := mkCnt (symVal sym) gain (symLen sym) true]> tbl) (nUsed + 1).
Proof using HR.
  intros Hs Hemp Hok' Hreach Hmax. pose proof HR as [? ? Hok Hcnt ? Hinv].
  destruct (cnt_lookup s Hs) as [c Hc].
  assert (Hu : cused c = false) by (unfold cnt_key in Hemp; rewrite Hc in Hemp; by destruct (cused c)).
  split; try done; try lia.
  - unfold zlen in *. by rewrite length_insert.
  - apply Forall_insert; [done|]. intros _. by destruct sym.
  - rewrite (filter_insert_new _ _ _ c) by (done || congruence). lia.
  - eapply (oa_inv_insert khash bits); [lia|exact Hinv|exact Hreach|exact Hemp|].
    intros s' Hs'. rewrite cnt_key_insert by lia. cbn [cused cval clen]. done.
Qed.

Lemma fsst_count_add_spec sym gain :
  sym_ok sym ->
  exists tbl' nUsed', fsst_count_add tbl (cap bits - 1) nUsed (symVal sym) (symLen sym) gain
    = Ok (tbl', nUsed') /\ cnt_rep bits tbl' nUsed'.
Proof using HR.
  intros Hsym. assert (Hb : 2 <= bits) by apply (cr_bits _ _ _ HR). unfold fsst_count_add.
  replace (cap bits - 1 + 1) with (cap bits) by lia.
  edestruct (probe_spec khash bits ltac:(lia) (cnt_key tbl) (symVal sym, symLen sym))
    as (s & b & Hp & Hs & Hbk).
  2:{ apply (cr_inv _ _ _ HR). }
  2:{ apply cnt_hole. }
  2:{ reflexivity. }
  2:{ unfold khash in Hp. cbn [fst snd] in Hp. rewrite Hp, bind_Ok. cbn [fst snd].
      destruct (cnt_lookup s Hs) as [c Hc]. destruct b.
      - rewrite Hc. do 2 eexists. split; [done|]. apply cnt_rep_bump; try done.
        unfold cnt_key in Hbk. rewrite Hc in Hbk. by destruct (cused c).
      - destruct Hbk as (Hemp & Hreach & _).
        destruct (Z.leb_spec (cap bits - cap bits / 4) nUsed); [eauto|].
        do 2 eexists. split; [done|]. by apply cnt_rep_add. }
  intros s Hs. cbn beta. destruct (cnt_lookup s Hs) as [c Hc]. rewrite Hc.
  unfold slot_test, cnt_key. rewrite Hc. destruct (cused c); [|done]. f_equal.
  destruct (Z.eqb_spec (cval c) (symVal sym)) as [->|Hv]; cbn [andb].
  - destruct (Z.eqb_spec (clen c) (symLen sym)) as [->|Hl].
    + by rewrite decide_True.
    + rewrite decide_False; [done|]. congruence.
  - rewrite decide_False; [done|]. congruence.
Qed.
End Counting.

Lemma cat_sym_ok pv pl s :
  sym_ok (mkSym pv pl) -> sym_ok s -> pl + symLen s <= FSST_MAX_SYMLEN ->
  sym_ok (mkSym (Z.lor pv (u64 (Z.shiftl (symVal s) (pl * 8)))) (u8 (pl + symLen s))).
Proof.
  intros [Hl1 Hv1] [Hl2 Hv2] Hsum. cbn [symVal symLen] in *. unfold FSST_MAX_SYMLEN in *.
  split; cbn [symVal symLen]; unfold u8; rewrite (Z.mod_small (pl + symLen s)) by lia; [unfold FSST_MAX_SYMLEN; lia|].
  assert (Hsh : 0 <= Z.shiftl (symVal s) (pl * 8) < 2 ^ (8 * (pl + symLen s))).
  { replace (8 * (pl + symLen s)) with (8 * symLen s + pl * 8) by lia. apply shiftl_bound; lia. }
  assert (2 ^ (8 * (pl + symLen s)) <= 2 ^ 64) by (apply Z.pow_le_mono_r; lia).
  rewrite u64_small by lia. apply lor_bound; [lia| |done].
  split; [lia|]. eapply Z.lt_le_trans; [apply Hv1|]. apply Z.pow_le_mono_r; lia.
Qed.

Definition prev_ok (pv pl : Z) : Prop := pl = 0 \/ sym_ok (mkSym pv pl).

Lemma fsst_count_loop_spec lbits lk cur bits corpus sampleLen fuel st :
  lk_rep lbits cur lk -> zlen cur < cap lbits -> Forall sym_ok cur -> bytes_ok corpus ->
  sampleLen <= zlen corpus -> sampleLen < 2 ^ 31 ->
  cnt_rep bits (ctbl st) (cnUsed st) -> 0 <= cpos st <= sampleLen ->
  prev_ok (cprevVal st) (cprevLen st) -> sampleLen - cpos st < Z.of_nat fuel ->
  exists st', fsst_count_loop fuel lk cur corpus sampleLen (cap bits - 1) st = Ok st' /\
    cnt_rep bits (ctbl st') (cnUsed st').
Proof.
  intros HR Hroom Hcur Hcb Hsl H31. revert st.
  induction fuel as [|f IH]; intros st HC Hpos Hprev Hf; [lia|]. cbn [fsst_count_loop].
  destruct (Z.ltb_spec (cpos st) sampleLen); [|eauto].
  unfold fsst_longest_match. cbv zeta.
  set (maxL := if sampleLen - cpos st <? FSST_MAX_SYMLEN then _ else _).
  assert (HmaxL : 1 <= maxL <= sampleLen - cpos st /\ maxL <= 8).
  { unfold maxL, FSST_MAX_SYMLEN. destruct (Z.ltb_spec (sampleLen - cpos st) 8); lia. }
  destruct (fsst_match_from_spec lbits cur lk HR Hroom (drop (Z.to_nat (cpos st)) corpus) (Z.to_nat maxL))
    as (o & -> & Ho); [by apply Forall_drop|rewrite length_drop; unfold zlen in *; lia|done|].
  rewrite bind_Ok.
  assert (He : exists s L, (match o with
      | Some (c, L) => match cur !! Z.to_nat c with None => Oob | Some s => Ok (s, L) end
      | None => b ← rd1 corpus (cpos st); Ok (mkSym b 1, 1) end) = Ok (s, L) /\
      sym_ok s /\ 1 <= L <= maxL).
  { destruct o as [[c l]|].
    - destruct Ho as (s & _ & Hs & _ & Hl & _). rewrite Hs. exists s, l. split; [done|].
      split; [by apply (Forall_lookup_1 _ _ _ _ Hcur Hs)|lia].
    - rewrite rd1_Ok by lia. exists (mkSym (nthZ corpus (cpos st)) 1), 1. split; [done|].
      split; [|lia]. split; cbn [symVal symLen]; [unfold FSST_MAX_SYMLEN; lia|]. by apply nthZ_ok. }
  destruct He as (s & L & -> & Hs & HL). rewrite bind_Ok.
  destruct (fsst_count_add_spec bits _ _ HC s (symLen s) Hs) as (tbl1 & n1 & -> & HC1).
  rewrite bind_Ok. cbn [fst snd].
  assert (Hcat : exists tbl2 n2, (if (0 <? cprevLen st) && (cprevLen st + symLen s <=? FSST_MAX_SYMLEN)
      then fsst_count_add tbl1 (cap bits - 1) n1
             (Z.lor (cprevVal st) (u64 (Z.shiftl (symVal s) (cprevLen st * 8))))
             (u8 (cprevLen st + symLen s)) (u8 (cprevLen st + symLen s))
      else Ok (tbl1, n1)) = Ok (tbl2, n2) /\ cnt_rep bits tbl2 n2).
  { destruct (Z.ltb_spec 0 (cprevLen st)); cbn [andb]; [|eauto].
    destruct (Z.leb_spec (cprevLen st + symLen s) FSST_MAX_SYMLEN); [|eauto].
    destruct Hprev as [|Hprev]; [lia|].
    exact (fsst_count_add_spec bits _ _ HC1 _ _ (cat_sym_ok _ _ _ Hprev Hs ltac:(lia))). }
  destruct Hcat as (tbl2 & n2 & -> & HC2). rewrite bind_Ok. cbn [fst snd].
  apply IH; cbn [ctbl cnUsed cpos cprevVal cprevLen]; rewrite ?u32_small by lia; try done; try lia.
  right. by destruct s.
Qed.

Lemma fsst_round_spec corpus sampleLen bits cur :
  bytes_ok corpus -> 0 <= sampleLen <= zlen corpus -> sampleLen < 2 ^ 31 -> 2 <= bits ->
  Forall sym_ok cur -> zlen cur <= 255 ->
  exists o, fsst_round corpus sampleLen (cap bits) cur = Ok o /\
    forall next, o = Some next -> Forall sym_ok next /\ zlen next <= 255.
Proof.
  intros Hcb Hsl H31 Hb Hcur H255. unfold fsst_round.
  destruct (fsst_lookup_build_spec cur H255) as (lbits & lk & -> & HR & Hroom). rewrite bind_Ok.
  destruct (fsst_count_loop_spec lbits lk cur bits corpus sampleLen (S (Z.to_nat sampleLen))
    (mkCount 0 0 0 (replicate (Z.to_nat (cap bits)) cnt_blank) 0)) as (st & -> & HC);
    cbn [ctbl cnUsed cpos cprevVal cprevLen]; try done; try lia.
  { by apply cnt_rep_blank. } { by left. }
  rewrite bind_Ok. cbv zeta. destruct (_ =? 0); eexists; (split; [done|]); [done|].
  intros next [= <-]. split.
  - apply Forall_fmap, Forall_take. apply Forall_forall. intros c Hc.
    apply list_elem_of_In in Hc. unfold fsst_sort in Hc. rewrite merge_sort_Permutation in Hc.
    apply list_elem_of_filter in Hc as [Hu Hc]. apply list_elem_of_lookup in Hc as [i Hi].
    by apply (Forall_lookup_1 _ _ _ _ (cr_ok _ _ _ HC) Hi).
  - unfold zlen. rewrite length_fmap, length_take. unfold FSST_MAX_SYMBOLS. lia.
Qed.

Lemma fsst_slots_pow2 fuel slots want :
  (exists bits, 2 <= bits <= 30 /\ slots = cap bits) ->
  exists bits, 2 <= bits /\ fsst_slots fuel slots want = cap bits.
Proof.
  revert slots. induction fuel as [|f IH]; intros slots (bits & Hb & ->); cbn [fsst_slots].
  - exists bits. split; [lia|done].
  - destruct (_ && _) eqn:E; [|exists bits; split; [lia|done]].
    apply andb_true_iff in E as [_ Hlt%Z.ltb_lt].
    assert (bits < 17) by (apply (Z.pow_lt_mono_r_iff 2); [lia|lia|exact Hlt]).
    apply IH. exists (bits + 1). split; [lia|].
    rewrite Z.shiftl_mul_pow2 by lia. unfold cap. rewrite <- Z.pow_add_r by lia. apply u32_small.
    split; [apply Z.pow_nonneg; lia|]. apply Z.pow_lt_mono_r; lia.
Qed.

Lemma build_fsst_table_spec corpus :
  bytes_ok corpus ->
  exists t, build_fsst_table corpus (zlen corpus) = Ok t /\ Forall sym_ok t /\ zlen t <= 255.
Proof.
  intros Hcb. unfold build_fsst_table, FSST_SAMPLE_CAP. cbv zeta.
  set (sl := if _ <? 262144 then _ else _). pose proof (zlen_nonneg corpus).
  assert (Hsl : 0 <= sl <= zlen corpus /\ sl <= 262144)
    by (unfold sl; destruct (Z.ltb_spec (zlen corpus) 262144); lia).
  destruct (fsst_slots_pow2 32 4096 (u32 (sl * 2))) as (bits & Hb & ->);
    [exists 12; split; [lia|done]|].
  generalize (Z.to_nat FSST_ROUNDS) as n.
  enough (Hgen : forall n cur, Forall sym_ok cur -> zlen cur <= 255 ->
    exists t, fsst_rounds n corpus sl (cap bits) cur = Ok t /\ Forall sym_ok t /\ zlen t <= 255).
  { intros n. apply Hgen; [constructor|unfold zlen; simpl; lia]. }
  induction n as [|n IH]; intros cur Hcur H255; cbn [fsst_rounds]; [eauto|].
  destruct (fsst_round_spec corpus sl bits cur) as (o & -> & Ho); try done; try lia.
  rewrite bind_Ok. destruct o as [next|].
  - destruct (Ho next eq_refl). by apply IH.
  - exists []. split; [done|]. split; [constructor|unfold zlen; simpl; lia].
Qed.

(** ** Theorems *)

(** C37.  The hashed longest-match search returns what a scan of the whole
    table would: a symbol that is a prefix of the remaining bytes with no
    longer such symbol in the table, or nothing when no symbol matches. *)
Theorem fsst_longest_match_correct (t : FsstTable) (p : list Z) :
  Forall sym_ok t -> zlen t <= FSST_MAX_SYMBOLS -> bytes_ok p ->
  exists lk o, fsst_lookup_build t = Ok lk /\ fsst_longest_match lk p (zlen p) = Ok o /\
    match o with
    | Some (c, l) => exists s, 0 <= c /\ t !! Z.to_nat c = Some s /\ symLen s = l /\
        sym_bytes s = take (Z.to_nat l) p /\
        forall s', s' ∈ t -> symLen s' <= zlen p -> sym_bytes s' = take (Z.to_nat (symLen s')) p ->
          symLen s' <= l
    | None => forall s', s' ∈ t -> symLen s' <= zlen p -> sym_bytes s' <> take (Z.to_nat (symLen s')) p
    end.
Proof.
  intros Ht H255 Hp. destruct (fsst_lookup_build_spec t H255) as (bits & lk & Hb & HR & Hroom).
  pose proof (zlen_nonneg p). unfold fsst_longest_match. cbv zeta.
  set (maxL := if zlen p <? FSST_MAX_SYMLEN then _ else _).
  assert (HmaxL : maxL = Z.min (zlen p) 8)
    by (unfold maxL, FSST_MAX_SYMLEN; destruct (Z.ltb_spec (zlen p) 8); lia).
  destruct (fsst_match_from_spec bits t lk HR Hroom p (Z.to_nat maxL)) as (o & Ho & Hs);
    [done|unfold zlen in *; lia|done|].
  exists lk, o. split; [done|]. split; [done|].
  assert (Hlen : forall s', s' ∈ t -> symLen s' <= 8).
  { intros s' Hin. rewrite Forall_forall in Ht.
    destruct (Ht s' (proj1 (list_elem_of_In _ _) Hin)) as [Hl _]. unfold FSST_MAX_SYMLEN in Hl. lia. }
  destruct o as [[c l]|].
  - destruct Hs as (s & Hc & Hs & Hsl & Hl & Hsb & Hno). exists s. repeat split; try done.
    intros s' Hin Hfit Heq. destruct (Z.leb_spec (symLen s') l); [done|].
    exfalso. apply (Hno s' Hin); [|done]. specialize (Hlen s' Hin). lia.
  - intros s' Hin Hfit. apply Hs; [done|]. specialize (Hlen s' Hin). lia.
Qed.

Lemma fsst_longest_match_correct_witness :
  exists lk o, fsst_lookup_build [mkSym 97 1; mkSym 25185 2; mkSym 98 1] = Ok lk /\
    fsst_longest_match lk [97; 98; 99] 3 = Ok o /\
    match o with
    | Some (c, l) => exists s, 0 <= c /\ [mkSym 97 1; mkSym 25185 2; mkSym 98 1] !! Z.to_nat c = Some s /\
        symLen s = l /\ sym_bytes s = take (Z.to_nat l) [97; 98; 99] /\
        forall s', s' ∈ [mkSym 97 1; mkSym 25185 2; mkSym 98 1] -> symLen s' <= 3 ->
          sym_bytes s' = take (Z.to_nat (symLen s')) [97; 98; 99] -> symLen s' <= l
    | None => forall s', s' ∈ [mkSym 97 1; mkSym 25185 2; mkSym 98 1] -> symLen s' <= 3 ->
        sym_bytes s' <> take (Z.to_nat (symLen s')) [97; 98; 99]
    end.
Proof.
  apply (fsst_longest_match_correct [mkSym 97 1; mkSym 25185 2; mkSym 98 1] [97; 98; 99]).
  - repeat constructor; vm_compute; congruence.
  - vm_compute. congruence.
  - repeat constructor; vm_compute; congruence.
Defined.

Lemma fsst_serialize_ok t : Forall sym_ok t -> zlen t <= 255 ->
  bytes_ok (fsst_serialize_table t) /\ zlen (fsst_serialize_table t) < 2 ^ 32.
Proof.
  intros Ht H255. unfold fsst_serialize_table. split.
  - constructor; [apply mod_pow2_bound; lia|].
    apply Forall_concat, Forall_fmap, Forall_true. intros s. constructor; [apply mod_pow2_bound; lia|].
    apply le_bytes_ok.
  - pose proof (fsst_serialized_len t Ht) as Hl. unfold sym_bytes in Hl. unfold zlen in *. simpl. lia.
Qed.

(** Whatever the builder hands the writer is a table the reader parses. *)
Lemma build_chunk_table_spec corpus att :
  bytes_ok corpus ->
  exists o, PgColumnarFsstBuildChunkTable corpus (zlen corpus) att = Ok o /\
    forall table, o = Some table -> bytes_ok table /\ 0 < zlen table < 2 ^ 32 /\
      exists t, fsst_deserialize_table table = Ok t /\ Forall sym_ok t /\ 0 < zlen t <= FSST_MAX_SYMBOLS.
Proof.
  intros Hc. unfold PgColumnarFsstBuildChunkTable.
  destruct (negb _); [by eexists|]. destruct (_ <? _); [by eexists|].
  destruct (build_fsst_table_spec corpus Hc) as (t & -> & Ht & H255). rewrite bind_Ok.
  destruct (Z.eqb_spec (zlen t) 0); [by eexists|]. eexists. split; [done|]. intros table [= <-].
  destruct (fsst_serialize_ok t Ht H255) as [Hb Hl]. split; [done|]. split.
  { split; [unfold fsst_serialize_table, zlen; simpl; lia|done]. }
  exists t. split; [by apply fsst_table_roundtrip_lemma|]. pose proof (zlen_nonneg t).
  unfold FSST_MAX_SYMBOLS. split; [done|lia].
Qed.

(** C33.  FSST end to end.  The table builder ends on every corpus and hands
    back, when it hands back anything, bytes that parse to a table of at most
    255 symbols of 1 to 8 bytes; and any vector encoded against such bytes
    decodes to the vector's bytes. *)
Theorem fsst_chunk_roundtrip (corpus raw : list Z) (att : Form_pg_attribute) :
  bytes_ok corpus -> bytes_ok raw -> zlen raw + FSST_DECODE_SLACK <= MaxAllocSize ->
  exists o, PgColumnarFsstBuildChunkTable corpus (zlen corpus) att = Ok o /\
    forall table, o = Some table ->
      (exists t, fsst_deserialize_table table = Ok t /\ Forall sym_ok t /\ 0 < zlen t <= FSST_MAX_SYMBOLS) /\
      codec_roundtrip (fun enc => decode_fsst_shared enc table (zlen raw)) raw
        (encode_fsst_shared raw (zlen raw) table).
Proof.
  intros Hc Hr Hm. destruct (build_chunk_table_spec corpus att Hc) as (o & -> & Ho).
  eexists. split; [done|]. intros table ->. destruct (Ho table eq_refl) as (Hb & Hl & t & Ht & Hs).
  split; [by exists t|]. apply (encode_fsst_spec raw _ t); try done. lia.
Qed.

Lemma fsst_chunk_roundtrip_witness :
  let v := replicate 70 101 in
  exists o, PgColumnarFsstBuildChunkTable v 70 (mkAtt false (-1) 25) = Ok o /\
    forall table, o = Some table ->
      (exists t, fsst_deserialize_table table = Ok t /\ Forall sym_ok t /\ 0 < zlen t <= FSST_MAX_SYMBOLS) /\
      codec_roundtrip (fun enc => decode_fsst_shared enc table 70) v (encode_fsst_shared v 70 table).
Proof.
  intros v. apply (fsst_chunk_roundtrip v v (mkAtt false (-1) 25)).
  - apply Forall_replicate. vm_compute. split; congruence.
  - apply Forall_replicate. vm_compute. split; congruence.
  - vm_compute. congruence.
Defined.

(** C38.  The headroom added to the output allocation is computed in 32 bits: for
    every stored raw length within eight of [2^32], every shared table that
    parses and every code stream that starts with a symbol of it, the decoder
    allocates less than eight bytes and writes eight at the first symbol, out of
    bounds. *)
Theorem fsst_decode_slack_wraps rawLen nSym tp t c enc : 2 ^ 32 - FSST_DECODE_SLACK <= rawLen < 2 ^ 32 -> 0 <= nSym <= FSST_MAX_SYMBOLS -> bytes_ok tp -> zlen tp < 2 ^ 32 ->
  fsst_parse_symbols (Z.to_nat nSym) tp [] = Ok t -> 0 <= c < zlen t -> decode_fsst_shared (c :: enc) (nSym :: tp) rawLen = Oob.
Proof.
  unfold FSST_DECODE_SLACK, FSST_MAX_SYMBOLS. intros Hr Hn Hb Hl Et Hc. pose proof (fsst_parse_safe (Z.to_nat nSym) tp [] Hb Hl ltac:(constructor)) as Hs. rewrite Et in Hs. destruct Hs as [Hok Hlen]. cbn [length Nat.add] in Hlen.
  unfold decode_fsst_shared, MemoryContextAlloc, FSST_DECODE_SLACK, FSST_MAX_SYMBOLS. rewrite (proj2 (Z.ltb_lt 0 rawLen)) by lia. assert (Eu : u32 (rawLen + 8) = rawLen + 8 - 2 ^ 32) by (unfold u32; rewrite <- (Z.mod_unique (rawLen + 8) (2 ^ 32) 1 (rawLen + 8 - 2 ^ 32)); lia).
  rewrite Eu, (proj2 (Z.ltb_ge MaxAllocSize _)), bind_Ok, (proj2 (Z.ltb_ge 255 nSym)), Et, bind_Ok by (unfold MaxAllocSize; lia). cbn [fsst_decode_loop length]. unfold FSST_ESCAPE.
  assert (Hz : zlen t <= 255) by (unfold zlen; lia). rewrite (proj2 (Z.eqb_neq c 255)), (proj2 (Z.leb_gt (zlen t) c)) by lia.
  destruct (lookup_lt_is_Some_2 t (Z.to_nat c)) as [sy Es]; [unfold zlen in Hc; lia|]. rewrite Es. pose proof (proj1 (Forall_lookup _ _) Hok _ _ Es) as [Hsl _]. unfold FSST_MAX_SYMLEN in Hsl.
  rewrite u32_small, (proj2 (Z.ltb_ge (rawLen - 0) _)) by lia. unfold wr. assert (Hz8 : zlen (le_bytes 8 (symVal sy)) = 8) by (unfold zlen; by rewrite length_le_bytes). rewrite Hz8.
  assert (Hrep : zlen (replicate (Z.to_nat (rawLen + 8 - 2 ^ 32)) poison) = rawLen + 8 - 2 ^ 32) by (unfold zlen; rewrite length_replicate; lia). rewrite Hrep, (proj2 (Z.leb_gt (0 + 8) _)) by lia. done.
Qed.

Lemma fsst_decode_slack_wraps_witness : decode_fsst_shared [0; 0] [1; 1; 65] (2 ^ 32 - 3) = Oob.
Proof.
  apply (fsst_decode_slack_wraps (2 ^ 32 - 3) 1 [1; 65] [mkSym 65 1] 0 [0]); [vm_compute; split; congruence|vm_compute; split; congruence|repeat constructor; lia|vm_compute; reflexivity|vm_compute; reflexivity|vm_compute; split; congruence].
Defined.
