(* ===== verification/Alp.v ===== *)
(** * ALP: floats that are decimals

    [alp_try], [encode_alp] and [decode_alp] of [src/columnar_encoding.c].
    The C arithmetic is IEEE-754 double arithmetic, rounded to nearest even
    after every operation; it is modelled by the Standard Library's executable
    specification of binary floating point ([SpecFloat]).  What makes the codec
    lossless is that the encoder replays the decoder's arithmetic and keeps a
    value only if the bytes agree, so the proofs use no property of floats. *)

From Stdlib Require Import Floats.SpecFloat.
From S2P Require Import Prelude BitPack Codec IntCodecs.

(** ** Doubles and floats *)

(** A bit pattern with [mw] mantissa bits and [ew] exponent bits. *)
Definition sf_of_bits (mw ew bits : Z) : spec_float :=
  let s := Z.testbit bits (mw + ew) in
  let ex := (bits / 2 ^ mw) mod 2 ^ ew in
  let m := bits mod 2 ^ mw in
  let emin := 3 - 2 ^ (ew - 1) - (mw + 1) in
  if ex =? 0 then match m with Zpos p => S754_finite s p emin | _ => S754_zero s end
  else if ex =? 2 ^ ew - 1 then (if m =? 0 then S754_infinity s else S754_nan)
  else match m + 2 ^ mw with Zpos p => S754_finite s p (emin + ex - 1) | _ => S754_nan end.

Definition sign_bit (mw ew : Z) (s : bool) : Z := if s then 2 ^ (mw + ew) else 0.

Definition bits_of_sf (mw ew : Z) (x : spec_float) : Z :=
  let emin := 3 - 2 ^ (ew - 1) - (mw + 1) in
  match x with
  | S754_zero s => sign_bit mw ew s
  | S754_infinity s => sign_bit mw ew s + (2 ^ ew - 1) * 2 ^ mw
  | S754_nan => (2 ^ ew - 1) * 2 ^ mw + 2 ^ (mw - 1)
  | S754_finite s p e =>
      sign_bit mw ew s +
      (if Zpos p <? 2 ^ mw then Zpos p else (e - emin + 1) * 2 ^ mw + (Zpos p - 2 ^ mw))
  end.

Definition dmul : spec_float -> spec_float -> spec_float := SFmul 53 1024.
Definition ddiv : spec_float -> spec_float -> spec_float := SFdiv 53 1024.
Definition dadd : spec_float -> spec_float -> spec_float := SFadd 53 1024.
Definition dle (x y : spec_float) : bool :=
  match SFcompare x y with Some Lt | Some Eq => true | _ => false end.
Definition dlt (x y : spec_float) : bool :=
  match SFcompare x y with Some Lt => true | _ => false end.

(** [(double) i] for an integer, and conversions between the two formats. *)
Definition d_of_int (i : Z) : spec_float := binary_normalize 53 1024 i 0 false.
Definition sf_convert (prec emax : Z) (x : spec_float) : spec_float :=
  match x with
  | S754_finite s p e => binary_normalize prec emax (if s then Zneg p else Zpos p) e s
  | _ => x
  end.

(** [memcpy] of a [w]-byte value into a [double], and of a [double] back. *)
Definition d_load (w : Z) (vp : list Z) : spec_float :=
  if w =? 8 then sf_of_bits 52 11 (le_uint vp)
  else sf_convert 53 1024 (sf_of_bits 23 8 (le_uint vp)).
Definition d_store (w : Z) (x : spec_float) : list Z :=
  if w =? 8 then le_bytes 8 (bits_of_sf 52 11 x)
  else le_bytes 4 (bits_of_sf 23 8 (sf_convert 24 128 x)).

Definition d_isfinite (x : spec_float) : bool :=
  match x with S754_zero _ | S754_finite _ _ _ => true | _ => false end.

(** Round half away from zero. *)
Definition llround (x : spec_float) : Z :=
  match x with
  | S754_finite s p e =>
      let r := if 0 <=? e then Zpos p * 2 ^ e else (Zpos p + 2 ^ (- e - 1)) / 2 ^ (- e) in
      if s then - r else r
  | _ => 0
  end.

(** [alp_F10[e]] is exact; [alp_IF10[e]] is the double nearest to [10^-e]. *)
Definition ALP_MAX_EXP : Z := 18.
Definition alp_F10 (e : Z) : spec_float := d_of_int (10 ^ e).
Definition alp_IF10 (e : Z) : spec_float := ddiv (d_of_int 1) (alp_F10 e).

(** ** The codec *)

(** [rec = (double) enc * alp_F10[f] * alp_IF10[e]], stored in [w] bytes. *)
Definition alp_rec (w e f enc : Z) : list Z :=
  d_store w (dmul (dmul (d_of_int enc) (alp_F10 f)) (alp_IF10 e)).

(** [None] is [return false]. *)
Definition alp_try (vp : list Z) (w e f : Z) : option Z :=
  let d := d_load w vp in
  if negb (d_isfinite d) then None
  else
    let scaled := dmul (dmul d (alp_F10 e)) (alp_IF10 f) in
    if dle (d_of_int 9000000000000000000) scaled || dle scaled (d_of_int (-9000000000000000000))
    then None
    else
      let enc := s64 (llround scaled) in
      if decide (alp_rec w e f enc = vp) then Some enc else None.

(** The sampling pass for one [(e, f)]: [(sEnc, sExc, range)], the range as
    [None] while [first]. *)
Fixpoint alp_sample (fuel : nat) (raw : list Z) (w n step e f k : Z)
    (st : Z * Z * option (Z * Z)) : res (Z * Z * option (Z * Z)) :=
  match fuel with
  | O => Fuel
  | S fu =>
      if k <? n then
        vp ← rd raw (k * w) w;
        let '(sEnc, sExc, rng) := st in
        let st' :=
          match alp_try vp w e f with
          | Some enc =>
              (sEnc + 1, sExc,
               match rng with
               | None => Some (enc, enc)
               | Some (mn, mx) => Some (if enc <? mn then enc else mn, if mx <? enc then enc else mx)
               end)
          | None => (sEnc, sExc + 1, rng)
          end in
        alp_sample fu raw w n step e f (k + step) st'
      else Ok st
  end.

(** [(double) n * bits / 8.0 + (double) sExc / (double) (sEnc + sExc) * (double) n
    * (double) (sizeof(uint32) + w)] *)
Definition alp_cost (n bits sEnc sExc w : Z) : spec_float :=
  dadd (ddiv (dmul (d_of_int n) (d_of_int bits)) (d_of_int 8))
       (dmul (dmul (ddiv (d_of_int sExc) (d_of_int (sEnc + sExc))) (d_of_int n)) (d_of_int (4 + w))).

(** The best [(cost, e, f)] so far; [None] is [bestCost = -1]. *)
Definition alp_choose (raw : list Z) (w n step : Z) : res (option (spec_float * Z * Z)) :=
  forZ 0 (ALP_MAX_EXP + 1) (fun e best =>
    forZ 0 (e + 1) (fun f best =>
      st ← alp_sample (S (Z.to_nat n)) raw w n step e f 0 (0, 0, None);
      let '(sEnc, sExc, rng) := (st : Z * Z * option (Z * Z)) in
      match rng with
      | None => Ok best
      | Some (mn, mx) =>
          let cost := alp_cost n (bits_needed (u64 (mx - mn))) sEnc sExc w in
          match best with
          | None => Ok (Some (cost, e, f))
          | Some (bc, _, _) => Ok (if dlt cost bc then Some (cost, e, f) else best)
          end
      end) best) None.

(** [encVals[i]], with [None] for [isExc[i]]. *)
Definition alp_encode_all (vps : list (list Z)) (w e f : Z) : list (option Z) :=
  (fun vp => alp_try vp w e f) <$> vps.

(** [forBase]: the least encoded integer; [None] when [!haveEnc]. *)
Definition alp_for_base (encs : list (option Z)) : option Z :=
  fold_left (fun acc o =>
    match o, acc with
    | Some enc, Some b => Some (if enc <? b then enc else b)
    | Some enc, None => Some enc
    | None, _ => acc
    end) encs None.

(** The exception records in position order. *)
Fixpoint alp_exceptions (i : Z) (encs : list (option Z)) (vps : list (list Z)) : list Z :=
  match encs, vps with
  | o :: encs', vp :: vps' =>
      (match o with None => le_bytes 4 i ++ vp | Some _ => [] end) ++ alp_exceptions (i + 1) encs' vps'
  | _, _ => []
  end.

(** The values [raw + i * w] for [i < n]. *)
Definition blocks (raw : list Z) (n w : Z) : list (list Z) :=
  (fun i => take (Z.to_nat w) (drop (Z.to_nat (i * w)) raw)) <$> seqZ 0 n.

Definition encode_alp (raw : list Z) (rawLen : Z) (att : Form_pg_attribute) (n : Z)
    : res (option (list Z)) :=
  let w := attlen att in
  let sample := if n <? 64 then n else 64 in
  let step := if 0 <? sample then n / sample else 1 in
  let step := if step =? 0 then 1 else step in
  best ← alp_choose raw w n step;
  match best with
  | None => Ok None
  | Some (_, bestE, bestF) =>
      _ ← palloc (8 * n);
      _ ← palloc n;
      if zlen raw <? n * w then Oob
      else
        let vps := blocks raw n w in
        let encs := alp_encode_all vps w bestE bestF in
        let nExc := zlen (filter (fun o => o = None) encs) in
        match alp_for_base encs with
        | None => Ok None
        | Some forBase =>
            _ ← palloc (8 * n);
            let offs := (fun o => match o with None => 0 | Some enc => u64 (enc - forBase) end) <$> encs in
            let intWidth := bits_needed (fold_max offs) in
            let hdr := [u8 bestE; u8 bestF; u8 intWidth; 0] ++ le_bytes 8 forBase ++ le_bytes 4 nExc in
            buf ← bitpack offs n intWidth hdr;
            Ok (keep_if_smaller (buf ++ alp_exceptions 0 encs vps) rawLen)
        end
  end.

Definition decode_alp (enc : list Z) (w n rawLen : Z) : res (list Z) :=
  raw ← alloc_raw rawLen;
  if negb (w =? 4) && negb (w =? 8) then Err "ALP on a non-float column"
  else if negb (n * w =? rawLen) then Err "ALP raw length does not match value count"
  else if zlen enc <? 16 then Err "ALP header truncated"
  else
    e ← rd1 enc 0;
    f ← rd1 enc 1;
    intWidth ← rd1 enc 2;
    fb ← rd enc 4 8;
    xb ← rd enc 12 4;
    let forBase := s64 (le_uint fb) in
    let nExc := le_uint xb in
    if (ALP_MAX_EXP <? e) || (e <? f) then Err "ALP exponent out of range"
    else if 64 <? intWidth then Err "ALP bit width out of range"
    else
      let packedBytes := u32 (u64 (u64 (n * intWidth) + 7) / 8) in
      if u32 (zlen enc - 16) <? packedBytes then Err "ALP offsets past encoded length"
      else
        _ ← palloc (8 * (if 0 <? n then n else 1));
        offs ← bitunpack (drop 16 enc) n intWidth;
        raw ← forZ 0 n (fun i raw =>
          o ← rd1 offs i;
          wr raw (i * w) (alp_rec w e f (s64 (forBase + s64 o)))) raw;
        st ← forZ 0 nExc (fun i st =>
          let '(raw, p) := st in
          if zlen enc <? p + 4 + w then Err "ALP exception past encoded length"
          else
            pb ← rd enc p 4;
            let pos := le_uint pb in
            if n <=? pos then Err "ALP exception position out of range"
            else
              v ← rd enc (p + 4) w;
              raw ← wr raw (pos * w) v;
              Ok (raw, p + 4 + w)) (raw, 16 + packedBytes);
        Ok (take (Z.to_nat rawLen) st.1).

(** ** Choosing the exponents *)

Lemma d_store_len w x : w = 4 \/ w = 8 -> zlen (d_store w x) = w /\ bytes_ok (d_store w x).
Proof.
  intros Hw. unfold d_store. destruct (Z.eqb_spec w 8) as [->|];
    (split; [rewrite zlen_le_bytes; lia|apply le_bytes_ok]).
Qed.

Lemma alp_try_exact vp w e f enc :
  alp_try vp w e f = Some enc -> alp_rec w e f enc = vp /\ - 2 ^ 63 <= enc < 2 ^ 63.
Proof.
  unfold alp_try. destruct (negb _); [done|]. cbv zeta. destruct (_ || _); [done|].
  destruct (decide _) as [He|]; [|done]. intros [= <-]. split; [done|apply s64_range].
Qed.

Lemma alp_sample_Ok raw w n step e f fuel k st :
  0 < w -> n * w <= zlen raw -> 1 <= step -> 0 <= k -> Z.max 0 (n - k) < Z.of_nat fuel ->
  exists st', alp_sample fuel raw w n step e f k st = Ok st'.
Proof.
  intros Hw Hn Hs. revert k st. induction fuel as [|fu IH]; intros k st Hk Hf; cbn [alp_sample].
  - lia.
  - destruct (Z.ltb_spec k n); [|eauto]. rewrite rd_Ok by nia. rewrite bind_Ok.
    destruct st as [[sEnc sExc] rng]. apply IH; lia.
Qed.

Definition chosen_ok (o : option (spec_float * Z * Z)) : Prop :=
  match o with None => True | Some (_, e, f) => 0 <= f <= e /\ e <= ALP_MAX_EXP end.

Lemma alp_choose_Ok raw w n step :
  0 < w -> 0 <= n -> n * w <= zlen raw -> 1 <= step ->
  exists o, alp_choose raw w n step = Ok o /\ chosen_ok o.
Proof.
  intros Hw Hn0 Hn Hs. unfold alp_choose, ALP_MAX_EXP at 1.
  apply (forZ_Ok (fun _ o => chosen_ok o)); [lia| |done].
  intros e o He Ho. apply (forZ_Ok (fun _ o => chosen_ok o)); [lia| |done].
  intros f b Hf Hb.
  destruct (alp_sample_Ok raw w n step e f (S (Z.to_nat n)) 0 (0, 0, None)) as (st & ->); try lia.
  rewrite bind_Ok. destruct st as [[sEnc sExc] rng].
  assert (Hnew : forall c, chosen_ok (Some (c, e, f))) by (intros c; unfold chosen_ok, ALP_MAX_EXP; lia).
  destruct rng as [[mn mx]|]; [|eauto]. cbv zeta.
  destruct b as [[[bc be] bf]|]; [|eauto]. destruct (dlt _ _); eauto.
Qed.

(** ** Blocks *)

Lemma length_blocks raw n w : length (blocks raw n w) = Z.to_nat n.
Proof. unfold blocks. by rewrite length_fmap, length_seqZ. Qed.

Lemma blocks_len raw n w :
  0 < w -> 0 <= n -> n * w <= zlen raw -> Forall (fun v => zlen v = w) (blocks raw n w).
Proof.
  intros Hw Hn0 Hn. apply Forall_forall. intros v Hv. apply list_elem_of_In in Hv.
  apply list_elem_of_fmap in Hv as (i & -> & Hi%elem_of_seqZ). apply zlen_sub; nia.
Qed.

Lemma concat_blocks_prefix raw n w :
  0 < w -> 0 <= n -> n * w <= zlen raw -> concat (blocks raw n w) = take (Z.to_nat (n * w)) raw.
Proof.
  intros Hw Hn. pattern n. apply natlike_ind; [| |done].
  - intros _. by rewrite Z.mul_0_l.
  - intros k Hk IH Hle. unfold blocks in *. replace (Z.succ k) with (k + 1) in * by lia.
    rewrite seqZ_app by lia. rewrite fmap_app, concat_app, IH by lia.
    replace (Z.to_nat ((k + 1) * w)) with (Z.to_nat (k * w) + Z.to_nat w)%nat by lia.
    rewrite <- take_take_drop. f_equal. exact (app_nil_r _).
Qed.

Lemma zlen_concat_blocks (bl : list (list Z)) w :
  Forall (fun v => zlen v = w) bl -> zlen (concat bl) = zlen bl * w.
Proof.
  induction 1 as [|v bl Hv Hbl IH]; [done|]. cbn [concat]. rewrite zlen_app, IH, Hv.
  change (zlen (v :: bl)) with (zlen ([v] ++ bl)). rewrite zlen_app. change (zlen [v]) with 1. lia.
Qed.

(** Overwriting block [length done]. *)
Lemma wr_block done (old new : list Z) rest w :
  Forall (fun v => zlen v = w) done -> zlen old = w -> zlen new = w -> 0 <= w ->
  wr (concat done ++ old ++ rest) (zlen done * w) new = Ok (concat done ++ new ++ rest).
Proof.
  intros Hd Ho Hn Hw. pose proof (zlen_concat_blocks done w Hd) as Hz.
  pose proof (zlen_nonneg done). pose proof (zlen_nonneg rest).
  rewrite wr_Ok by (rewrite ?zlen_app; nia). rewrite <- Hz. f_equal.
  replace (Z.to_nat (zlen (concat done))) with (length (concat done)) by (unfold zlen; lia).
  rewrite take_app_length. do 2 f_equal. rewrite app_assoc. apply drop_app_length'.
  rewrite length_app. unfold zlen in *. lia.
Qed.

(** ** Round trip *)

Lemma alp_offset_restore enc base :
  - 2 ^ 63 <= enc < 2 ^ 63 -> s64 (base + s64 (u64 (enc - base))) = enc.
Proof.
  intros He. destruct (s64_eqm (u64 (enc - base))) as [k Hk].
  destruct (s64_eqm (base + s64 (u64 (enc - base)))) as [j Hj].
  assert (Hu : exists l, u64 (enc - base) = enc - base + l * 2 ^ 64).
  { unfold u64. exists (- ((enc - base) / 2 ^ 64)). pose proof (Z.div_mod (enc - base) (2 ^ 64) ltac:(lia)). lia. }
  destruct Hu as [l Hl]. rewrite Hk, Hl.
  replace (base + (enc - base + l * 2 ^ 64 + k * 2 ^ 64)) with (enc + (l + k) * 2 ^ 64) by lia.
  rewrite s64_eqm'. unfold s64. rewrite Z.mod_small by lia. lia.
Qed.

(** The first pass writes one block per offset. *)
Lemma alp_fill_loop (g : Z -> list Z) (offs : list Z) w buf :
  0 <= w -> (forall o, zlen (g o) = w) -> filled (zlen offs * w) buf [] ->
  forZ 0 (zlen offs) (fun i raw => o ← rd1 offs i; wr raw (i * w) (g o)) buf
  = Ok (concat (g <$> offs)).
Proof.
  intros Hw Hg Hf. pose proof (zlen_nonneg offs).
  assert (Hlen : forall l, zlen (concat (g <$> l)) = zlen l * w).
  { intros l. rewrite (zlen_concat_blocks _ w); [unfold zlen; by rewrite length_fmap|].
    apply Forall_fmap, Forall_true. intros x. apply Hg. }
  match goal with |- forZ 0 _ ?h _ = _ =>
    destruct (forZ_Ok (fun i b => filled (zlen offs * w) b (concat (g <$> take (Z.to_nat i) offs)))
      h 0 (zlen offs) buf) as (b & -> & Hb) end; try done.
  - intros i b Hi Hfi.
    destruct (lookup_lt_is_Some_2 offs (Z.to_nat i)) as [o Ho]; [unfold zlen in Hi; lia|].
    rewrite rd1_Ok, (nthZ_lookup _ _ _ Ho), bind_Ok by lia.
    assert (Hti : zlen (take (Z.to_nat i) offs) = i) by (unfold zlen in *; rewrite length_take; lia).
    destruct (wr_filled _ b _ (g o) Hfi) as (b' & Hw' & Hf').
    { rewrite Hlen, Hti, Hg. nia. }
    rewrite Hlen, Hti in Hw'. exists b'. split; [done|].
    replace (Z.to_nat (i + 1)) with (S (Z.to_nat i)) by lia.
    rewrite (take_S_r _ _ _ Ho), fmap_app, concat_app. cbn. by rewrite app_nil_r.
  - rewrite take_ge in Hb by (unfold zlen; lia). by rewrite (filled_done _ _ _ Hb).
Qed.

(** What the decoder does with one exception record. *)
Definition alp_patch (enc : list Z) (w n : Z) (st : list Z * Z) : res (list Z * Z) :=
  let '(raw, p) := st in
  if zlen enc <? p + 4 + w then Err "ALP exception past encoded length"
  else
    pb ← rd enc p 4;
    let pos := le_uint pb in
    if n <=? pos then Err "ALP exception position out of range"
    else
      v ← rd enc (p + 4) w;
      raw ← wr raw (pos * w) v;
      Ok (raw, p + 4 + w).

(** The patch loop turns the decoded blocks into the original ones: at every
    position the encoder did not flag, the block is already right. *)
Lemma alp_patch_loop w n encs : forall dn vps recs pre k,
  0 < w -> n < 2 ^ 32 -> zlen dn + zlen vps = n ->
  Forall (fun v => zlen v = w) dn -> Forall (fun v => zlen v = w) vps ->
  Forall (fun v => zlen v = w) recs ->
  length vps = length encs -> length recs = length encs ->
  (forall i vp, vps !! i = Some vp -> encs !! i <> Some None -> recs !! i = Some vp) ->
  let exc := alp_exceptions (zlen dn) encs vps in
  for_loop (length (filter (fun o => o = None) encs)) k (fun _ => alp_patch (pre ++ exc) w n)
    (concat dn ++ concat recs, zlen pre)
  = Ok (concat dn ++ concat vps, zlen pre + zlen exc).
Proof.
  induction encs as [|o encs IH]; intros dn vps recs pre k Hw Hn Hc Hd Hv Hr Hlv Hlr Hok exc.
  - destruct vps; [|done]. destruct recs; [|done]. cbn. do 2 f_equal. unfold zlen. simpl. lia.
  - destruct vps as [|vp vps]; [done|]. destruct recs as [|rc recs]; [done|].
    inversion_clear Hv as [|? ? Hvp Hvs]. inversion_clear Hr as [|? ? Hrc Hrs].
    assert (Hdz : zlen (dn ++ [vp]) = zlen dn + 1) by (by rewrite zlen_app).
    assert (Hvz : zlen (vp :: vps) = 1 + zlen vps) by (unfold zlen; simpl; lia).
    pose proof (zlen_nonneg dn). pose proof (zlen_nonneg vps). pose proof (zlen_nonneg pre).
    assert (Hdn : Forall (fun v => zlen v = w) (dn ++ [vp])) by (apply Forall_app_2; [done|by constructor]).
    assert (Hok' : forall i x, vps !! i = Some x -> encs !! i <> Some None -> recs !! i = Some x)
      by (intros i x Hi He; exact (Hok (S i) x Hi He)).
    assert (Hcv : concat (dn ++ [vp]) = concat dn ++ vp) by (rewrite concat_app; cbn; by rewrite app_nil_r).
    specialize (IH (dn ++ [vp]) vps recs). rewrite Hdz, Hcv in IH. simpl in Hlv, Hlr.
    unfold exc in *. cbn [alp_exceptions concat]. destruct o as [enc|].
    + assert (rc = vp) as ->.
      { pose proof (Hok 0%nat vp eq_refl ltac:(done)) as Hz0. by injection Hz0. }
      rewrite filter_cons_False by done. cbn [app].
      specialize (IH pre k). rewrite <- !app_assoc in IH. apply IH; try done; try lia; by injection Hlv || by injection Hlr.
    + rewrite filter_cons_True by done. cbn [length for_loop].
      set (E' := alp_exceptions (zlen dn + 1) encs vps) in *.
      assert (Hz : zlen (pre ++ (le_bytes 4 (zlen dn) ++ vp) ++ E') = zlen pre + 4 + w + zlen E')
        by (rewrite !zlen_app, zlen_le_bytes; lia).
      pose proof (zlen_nonneg E').
      assert (Hr1 : rd (pre ++ (le_bytes 4 (zlen dn) ++ vp) ++ E') (zlen pre) 4 = Ok (le_bytes 4 (zlen dn))).
      { rewrite <- (Z.add_0_r (zlen pre)), rd_skip by lia. rewrite <- app_assoc.
        exact (rd_middle [] (le_bytes 4 (zlen dn)) (vp ++ E')). }
      assert (Hr2 : rd (pre ++ (le_bytes 4 (zlen dn) ++ vp) ++ E') (zlen pre + 4) w = Ok vp).
      { rewrite rd_skip by lia. rewrite <- app_assoc, <- Hvp.
        exact (rd_middle (le_bytes 4 (zlen dn)) vp E'). }
      assert (Hstep : alp_patch (pre ++ (le_bytes 4 (zlen dn) ++ vp) ++ E') w n
        (concat dn ++ rc ++ concat recs, zlen pre) = Ok (concat dn ++ vp ++ concat recs, zlen pre + 4 + w)).
      { unfold alp_patch. rewrite Hz.
        destruct (Z.ltb_spec (zlen pre + 4 + w + zlen E') (zlen pre + 4 + w)); [lia|].
        rewrite Hr1, bind_Ok, le_uint_le_bytes_id by (simpl; lia). cbv zeta.
        destruct (Z.leb_spec n (zlen dn)); [lia|]. rewrite Hr2, bind_Ok.
        by rewrite (wr_block dn rc vp (concat recs) w) by (done || lia). }
      rewrite Hstep, bind_Ok. clear Hstep Hr1 Hr2.
      specialize (IH (pre ++ le_bytes 4 (zlen dn) ++ vp) (k + 1)).
      rewrite <- (app_assoc pre), <- !(app_assoc (concat dn)) in IH.
      replace (zlen (pre ++ le_bytes 4 (zlen dn) ++ vp)) with (zlen pre + 4 + w) in IH
        by (rewrite !zlen_app, zlen_le_bytes; lia).
      rewrite IH; try done; try lia; try (by injection Hlv); try (by injection Hlr).
      do 2 f_equal. rewrite !zlen_app, zlen_le_bytes. lia.
Qed.

Lemma alp_patch_eq enc w n nExc st :
  forZ 0 nExc (fun i st =>
    let '(raw, p) := st in
    if zlen enc <? p + 4 + w then Err "ALP exception past encoded length"
    else
      pb ← rd enc p 4;
      let pos := le_uint pb in
      if n <=? pos then Err "ALP exception position out of range"
      else
        v ← rd enc (p + 4) w;
        raw ← wr raw (pos * w) v;
        Ok (raw, p + 4 + w)) st
  = forZ 0 nExc (fun _ => alp_patch enc w n) st.
Proof. apply forZ_ext. by intros i [raw p]. Qed.

Lemma alp_for_base_range encs base :
  Forall (fun o => match o with Some enc => - 2 ^ 63 <= enc < 2 ^ 63 | None => True end) encs ->
  alp_for_base encs = Some base -> - 2 ^ 63 <= base < 2 ^ 63.
Proof.
  unfold alp_for_base. intros He.
  enough (H : forall acc, (match acc with Some b => - 2 ^ 63 <= b < 2 ^ 63 | None => True end) ->
    fold_left (fun acc o => match o, acc with
      | Some enc, Some b => Some (if enc <? b then enc else b)
      | Some enc, None => Some enc | None, _ => acc end) encs acc = Some base ->
    - 2 ^ 63 <= base < 2 ^ 63) by (intros Hb; by apply (H None)).
  induction He as [|o encs Ho _ IH]; intros acc Ha Hb; cbn [fold_left] in Hb.
  - by subst acc.
  - eapply IH; [|exact Hb]. destruct o as [enc|], acc as [b|]; try done. by destruct (enc <? b).
Qed.

Lemma alp_header e f iw base nExc tail :
  byte_ok e -> byte_ok f -> byte_ok iw -> 0 <= nExc < 2 ^ 32 -> - 2 ^ 63 <= base < 2 ^ 63 ->
  let enc := ([u8 e; u8 f; u8 iw; 0] ++ le_bytes 8 base ++ le_bytes 4 nExc) ++ tail in
  zlen enc = 16 + zlen tail /\ rd1 enc 0 = Ok e /\ rd1 enc 1 = Ok f /\ rd1 enc 2 = Ok iw /\
  rd enc 4 8 = Ok (le_bytes 8 base) /\ rd enc 12 4 = Ok (le_bytes 4 nExc) /\ drop 16 enc = tail /\
  s64 (le_uint (le_bytes 8 base)) = base /\ le_uint (le_bytes 4 nExc) = nExc.
Proof.
  intros He Hf Hi Hx Hb enc. unfold byte_ok in *. pose proof (zlen_nonneg tail).
  assert (Hz : zlen enc = 16 + zlen tail).
  { unfold enc. rewrite !zlen_app, !zlen_le_bytes. change (zlen [_; _; _; _]) with 4. lia. }
  split; [done|]. do 3 (split; [rewrite rd1_Ok by lia; f_equal; apply Z.mod_small; lia|]).
  split; [|split; [|split; [|split]]].
  - unfold enc. rewrite <- !app_assoc.
    exact (rd_middle [u8 e; u8 f; u8 iw; 0] (le_bytes 8 base) (le_bytes 4 nExc ++ tail)).
  - unfold enc. rewrite <- !app_assoc, (app_assoc _ (le_bytes 8 base)).
    exact (rd_middle ([u8 e; u8 f; u8 iw; 0] ++ le_bytes 8 base) (le_bytes 4 nExc) tail).
  - done.
  - rewrite le_uint_le_bytes. by apply s64_u64.
  - by apply le_uint_le_bytes_id.
Qed.

Lemma alp_exceptions_ok i encs vps w :
  Forall bytes_ok vps -> Forall (fun v => zlen v = w) vps -> length vps = length encs -> 0 <= w ->
  bytes_ok (alp_exceptions i encs vps) /\
  zlen (alp_exceptions i encs vps) = (4 + w) * zlen (filter (fun o => o = None) encs).
Proof.
  intros Hb Hl Hlen Hw. revert i vps Hb Hl Hlen.
  induction encs as [|o encs IH]; intros i vps Hb Hl Hlen; cbn [alp_exceptions].
  - split; [constructor|]. unfold zlen. simpl. lia.
  - destruct vps as [|vp vps]; [done|]. inversion_clear Hb. inversion_clear Hl as [|? ? Hz Hl'].
    destruct (IH (i + 1) vps) as [Ho Hzz]; try done; [by injection Hlen|]. destruct o as [enc|].
    + rewrite filter_cons_False by done. done.
    + rewrite filter_cons_True by done. split.
      * repeat apply Forall_app_2; try done. apply le_bytes_ok.
      * rewrite !zlen_app, Hzz, zlen_le_bytes, Hz. unfold zlen. simpl length. lia.
Qed.

(** Decoding what the encoder emits, whatever exponents it chose. *)
Lemma decode_alp_encoded raw w n e f base body :
  int_stream raw w n -> w = 4 \/ w = 8 -> 0 <= f <= e -> e <= ALP_MAX_EXP ->
  let vps := blocks raw n w in
  let encs := alp_encode_all vps w e f in
  let nExc := zlen (filter (fun o => o = None) encs) in
  let offs := (fun o => match o with None => 0 | Some enc => u64 (enc - base) end) <$> encs in
  let iw := bits_needed (fold_max offs) in
  let exc := alp_exceptions 0 encs vps in
  - 2 ^ 63 <= base < 2 ^ 63 -> 0 <= iw <= 64 ->
  zlen body = (n * iw + 7) / 8 -> bitunpack (body ++ exc) n iw = Ok offs ->
  zlen body + zlen exc < 2 ^ 32 - 16 ->
  decode_alp ((([u8 e; u8 f; u8 iw; 0] ++ le_bytes 8 base ++ le_bytes 4 nExc) ++ body) ++ exc) w n (zlen raw)
  = Ok raw.
Proof.
  intros Hs Hw Hf He vps encs nExc offs iw exc Hbase Hiw Hbl Hun H32. unfold ALP_MAX_EXP in He.
  pose proof Hs as (Hb & Hbw & Hn & Hl & Hal).
  assert (Hvl : length vps = Z.to_nat n) by apply length_blocks.
  assert (Hel : length encs = Z.to_nat n) by (unfold encs, alp_encode_all; by rewrite length_fmap).
  assert (Hol : zlen offs = n) by (unfold offs, zlen; rewrite length_fmap, Hel; lia).
  unfold MaxAllocSize in Hal.
  assert (Hx : 0 <= nExc < 2 ^ 32).
  { unfold nExc, zlen. pose proof (length_filter (fun o => o = None) encs). lia. }
  rewrite <- app_assoc.
  destruct (alp_header e f iw base nExc (body ++ exc)) as (Hz & H0 & H1 & H2 & H4 & H12 & Hd & Hfb & Hxb);
    try (unfold byte_ok; lia); try done.
  set (enc := ([u8 e; u8 f; u8 iw; 0] ++ le_bytes 8 base ++ le_bytes 4 nExc) ++ body ++ exc) in *.
  unfold decode_alp. destruct (alloc_raw_stream _ _ _ Hs) as (buf & -> & Hfl). rewrite bind_Ok.
  assert (negb (w =? 4) && negb (w =? 8) = false) as -> by (destruct Hw as [-> | ->]; done).
  rewrite Hl, Z.eqb_refl. cbn [negb]. rewrite zlen_app in Hz.
  pose proof (zlen_nonneg body). pose proof (zlen_nonneg exc).
  destruct (Z.ltb_spec (zlen enc) 16); [lia|].
  rewrite H0, bind_Ok, H1, bind_Ok, H2, bind_Ok, H4, bind_Ok, H12, bind_Ok, Hfb, Hxb. cbv zeta.
  unfold ALP_MAX_EXP. destruct (Z.ltb_spec 18 e); [lia|]. destruct (Z.ltb_spec e f); [lia|]. cbn [orb].
  destruct (Z.ltb_spec 64 iw); [lia|].
  assert (Hpb : u32 (u64 (u64 (n * iw) + 7) / 8) = zlen body).
  { rewrite (u64_small (n * iw)), u64_small by nia. rewrite <- Hbl. apply u32_small. lia. }
  rewrite Hpb, (u32_small (zlen enc - 16)) by lia.
  destruct (Z.ltb_spec (zlen enc - 16) (zlen body)); [lia|].
  rewrite palloc_Ok, bind_Ok by (unfold MaxAllocSize; destruct (Z.ltb_spec 0 n); lia).
  rewrite Hd, Hun, bind_Ok. rewrite <- Hol in Hfl.
  pose proof (alp_fill_loop (fun o => alp_rec w e f (s64 (base + s64 o))) offs w buf ltac:(lia)
    (fun o => proj1 (d_store_len w _ Hw)) Hfl) as Hfill.
  rewrite Hol in Hfill. cbn beta in Hfill. rewrite Hfill, bind_Ok, alp_patch_eq.
  set (recs := (fun o => alp_rec w e f (s64 (base + s64 o))) <$> offs).
  assert (Hencl : enc = (([u8 e; u8 f; u8 iw; 0] ++ le_bytes 8 base ++ le_bytes 4 nExc) ++ body) ++ exc)
    by (unfold enc; by rewrite <- app_assoc).
  pose proof (alp_patch_loop w n encs [] vps recs
    (([u8 e; u8 f; u8 iw; 0] ++ le_bytes 8 base ++ le_bytes 4 nExc) ++ body) 0) as Hp.
  cbv zeta in Hp. fold exc in Hp. change (zlen []) with 0 in Hp. change (alp_exceptions 0 encs vps) with exc in Hp.
  rewrite <- Hencl in Hp.
  assert (Hpz : zlen (([u8 e; u8 f; u8 iw; 0] ++ le_bytes 8 base ++ le_bytes 4 nExc) ++ body) = 16 + zlen body).
  { rewrite !zlen_app, !zlen_le_bytes. change (zlen [_; _; _; _]) with 4. lia. }
  rewrite Hpz in Hp. cbn [concat app] in Hp. unfold forZ. rewrite Z.sub_0_r.
  replace (Z.to_nat nExc) with (length (filter (fun o => o = None) encs)) by (unfold nExc, zlen; lia).
  rewrite Hp.
  - rewrite bind_Ok. cbn [fst]. f_equal. unfold vps.
    rewrite concat_blocks_prefix by lia. rewrite Hl. unfold zlen. rewrite Nat2Z.id, take_take, Nat.min_id.
    apply take_ge. lia.
  - lia.
  - lia.
  - unfold zlen. rewrite Hvl. lia.
  - constructor.
  - unfold vps. apply blocks_len; lia.
  - apply Forall_fmap, Forall_true. intros o. apply (proj1 (d_store_len w _ Hw)).
  - by rewrite Hvl, Hel.
  - unfold recs, offs. by rewrite !length_fmap.
  - intros i vp Hi Hne. unfold recs, offs. rewrite !list_lookup_fmap. unfold encs, alp_encode_all in *.
    rewrite list_lookup_fmap, Hi in Hne |- *. cbn [fmap option_fmap option_map] in *.
    destruct (alp_try vp w e f) as [v|] eqn:Et; [|done]. f_equal.
    destruct (alp_try_exact _ _ _ _ _ Et) as [Hrec Hvr]. by rewrite alp_offset_restore.
Qed.

Lemma encode_alp_spec raw att n :
  int_stream raw (attlen att) n -> attlen att = 4 \/ attlen att = 8 ->
  codec_roundtrip (fun enc => decode_alp enc (attlen att) n (zlen raw)) raw
    (encode_alp raw (zlen raw) att n).
Proof.
  intros Hs Hw. set (w := attlen att) in *. pose proof Hs as (Hb & Hbw & Hn & Hl & Hal).
  unfold encode_alp. fold w. cbv zeta.
  set (sample := if n <? 64 then n else 64). set (step0 := if 0 <? sample then n / sample else 1).
  set (step := if step0 =? 0 then 1 else step0).
  assert (Hstep : 1 <= step).
  { unfold step, step0, sample. destruct (Z.ltb_spec n 64).
    - destruct (Z.ltb_spec 0 n); [|lia]. rewrite Z.div_same by lia. done.
    - destruct (Z.ltb_spec 0 64); [|lia]. destruct (Z.eqb_spec (n / 64) 0); [lia|].
      div_bounds n 64. lia. }
  destruct (alp_choose_Ok raw w n step) as (o & -> & Ho); try lia. rewrite bind_Ok.
  destruct o as [[[cost e] f]|]; [|by eexists]. destruct Ho as [Hf He].
  rewrite !palloc_Ok by (unfold MaxAllocSize in *; lia). rewrite !bind_Ok.
  destruct (Z.ltb_spec (zlen raw) (n * w)); [lia|].
  set (vps := blocks raw n w). set (encs := alp_encode_all vps w e f).
  destruct (alp_for_base encs) as [base|] eqn:Eb; [|by eexists].
  rewrite bind_Ok.
  set (offs := (fun o => match o with None => 0 | Some enc => u64 (enc - base) end) <$> encs).
  assert (Hvl : length vps = Z.to_nat n) by apply length_blocks.
  assert (Hel : length encs = Z.to_nat n) by (unfold encs, alp_encode_all; by rewrite length_fmap).
  assert (Hol : zlen offs = n) by (unfold offs, zlen; rewrite length_fmap, Hel; lia).
  assert (Hou : Forall (fun v => 0 <= v < 2 ^ 64) offs).
  { apply Forall_fmap, Forall_true. intros [x|]; [apply u64_bound|simpl; lia]. }
  assert (Hbr : - 2 ^ 63 <= base < 2 ^ 63).
  { apply (alp_for_base_range encs); [|done]. apply Forall_fmap, Forall_true. intros vp. cbn.
    destruct (alp_try vp w e f) eqn:Et; [|done]. by apply alp_try_exact in Et as [_ ?]. }
  set (iw := bits_needed (fold_max offs)). set (nExc := zlen (filter _ encs)).
  set (hdr := [u8 e; u8 f; u8 iw; 0] ++ le_bytes 8 base ++ le_bytes 4 nExc).
  set (exc := alp_exceptions 0 encs vps).
  assert (Hvw : Forall (fun v => zlen v = w) vps) by (apply blocks_len; lia).
  destruct (alp_exceptions_ok 0 encs vps w) as [Hxo Hxl]; try done; try lia.
  { apply Forall_fmap, Forall_true. intros i. by apply bytes_ok_sub. }
  fold exc in Hxo, Hxl. fold nExc in Hxl.
  assert (HnE : 0 <= nExc <= n).
  { unfold nExc, zlen. pose proof (length_filter (fun o => o = None) encs). lia. }
  unfold MaxAllocSize in Hal.
  destruct (pack_emit_rest offs hdr Hou) as (Hiw & body & Hp & Hpb & Hlb & Hlm & Hun).
  { repeat apply Forall_app_2; try apply le_bytes_ok.
    repeat (apply List.Forall_cons; [first [apply mod_pow2_bound; lia|unfold byte_ok; lia]|]). constructor. }
  { rewrite Hol. unfold MaxAllocSize. lia. }
  fold iw in Hiw, Hp, Hlb, Hun. rewrite Hol in *. rewrite Hp, bind_Ok.
  assert (Hhl : zlen hdr = 16).
  { unfold hdr. rewrite !zlen_app, !zlen_le_bytes. done. }
  assert (Hbb : bytes_ok body) by (apply Forall_app in Hpb; apply Hpb).
  unfold MaxAllocSize in Hlm.
  assert (Hsum : zlen body + zlen exc < 2 ^ 32 - 16) by (rewrite Hxl; destruct Hw as [Hw|Hw]; rewrite Hw; lia).
  apply keep_roundtrip.
  - by apply Forall_app_2.
  - rewrite !zlen_app, Hhl. lia.
  - apply (decode_alp_encoded raw w n e f base body); try done.
    apply (Hun exc); [done|]. rewrite zlen_app. lia.
Qed.

(** ** The decoder on arbitrary bytes *)

(** A buffer all of whose bytes are initialised. *)
Lemma wr_bytes_ok buf off data :
  bytes_ok buf -> bytes_ok data -> 0 <= off -> off + zlen data <= zlen buf ->
  exists buf', wr buf off data = Ok buf' /\ bytes_ok buf' /\ zlen buf' = zlen buf.
Proof.
  intros Hb Hd Ho Hl. rewrite wr_Ok by lia. eexists. split; [done|].
  pose proof (zlen_nonneg data). split.
  - repeat apply Forall_app_2; [by apply Forall_take|done|by apply Forall_drop].
  - unfold zlen in *. rewrite !length_app, length_take, length_drop. lia.
Qed.

Lemma alp_patch_safe enc w n sz st :
  bytes_ok enc -> 0 < w -> n * w <= sz ->
  (0 < n -> bytes_ok st.1) -> zlen st.1 = sz -> 0 <= st.2 ->
  safe (fun st' => (0 < n -> bytes_ok st'.1) /\ zlen st'.1 = sz /\ 0 <= st'.2) (alp_patch enc w n st).
Proof.
  intros He Hw Hn Hb Hz Hp. destruct st as [raw p]. cbn [fst snd] in *. unfold alp_patch.
  destruct (Z.ltb_spec (zlen enc) (p + 4 + w)); [done|].
  rewrite (rd_Ok enc p 4), bind_Ok by lia. cbv zeta.
  set (pos := le_uint _). assert (0 <= pos) by (apply le_uint_bound; by apply bytes_ok_sub).
  destruct (Z.leb_spec n pos); [done|]. rewrite rd_Ok, bind_Ok by lia.
  set (v := take (Z.to_nat w) (drop (Z.to_nat (p + 4)) enc)).
  assert (Hv : zlen v = w) by (apply zlen_sub; lia).
  destruct (wr_bytes_ok raw (pos * w) v) as (r' & -> & Hr & Hrz); [apply Hb; lia|by apply bytes_ok_sub|nia|nia|].
  rewrite bind_Ok. cbn. split; [done|]. split; lia.
Qed.

Lemma decode_alp_safe enc w n rawLen :
  enc_ok enc n rawLen -> decode_safe rawLen (decode_alp enc w n rawLen).
Proof.
  intros (Hb & Hz & Hn & Hr). unfold decode_alp, decode_safe.
  eapply safe_bind; [by apply alloc_raw_safe; lia|]. intros buf (sz & Hf & Hsz & _).
  destruct (negb (w =? 4) && negb (w =? 8)) eqn:Ew; [done|].
  assert (Hw : w = 4 \/ w = 8).
  { destruct (Z.eqb_spec w 4); [by left|]. destruct (Z.eqb_spec w 8); [by right|done]. }
  destruct (Z.eqb_spec (n * w) rawLen) as [Hnw|]; [|done]. cbn [negb].
  destruct (Z.ltb_spec (zlen enc) 16); [done|].
  rewrite (rd1_Ok enc 0), bind_Ok, (rd1_Ok enc 1), bind_Ok, (rd1_Ok enc 2), bind_Ok by lia.
  rewrite (rd_Ok enc 4 8), bind_Ok, (rd_Ok enc 12 4), bind_Ok by lia. cbv zeta.
  destruct (_ || _); [done|]. destruct (_ <? _); [done|]. destruct (_ <? _) eqn:Epb; [done|].
  destruct (palloc_cases (8 * (if 0 <? n then n else 1))) as [->|[? ->]]; [|done]. rewrite bind_Ok.
  eapply safe_bind; [by apply body_unpack_safe|]. intros offs [Hol _].
  match goal with |- context [alp_rec w ?e ?f (s64 (?b + _))] =>
    set (g := fun o => alp_rec w e f (s64 (b + s64 o))) end.
  assert (Hfill : exists r, forZ 0 n (fun i raw => o ← rd1 offs i; wr raw (i * w) (g o)) buf = Ok r /\
    (0 < n -> bytes_ok r) /\ zlen r = sz).
  { destruct (decide (n = 0)) as [->|Hn0].
    - exists buf. split; [done|]. split; [lia|apply Hf].
    - assert (sz = n * w) as -> by lia. rewrite <- Hol in Hf |- *.
      rewrite (alp_fill_loop g offs w buf) by (done || lia || (intros; apply (proj1 (d_store_len w _ Hw)))).
      eexists. split; [done|]. split.
      + intros _. apply Forall_concat, Forall_fmap, Forall_true. intros o. apply (proj2 (d_store_len w _ Hw)).
      + rewrite (zlen_concat_blocks _ w); [unfold zlen; by rewrite length_fmap|].
        apply Forall_fmap, Forall_true. intros o. apply (proj1 (d_store_len w _ Hw)). }
  destruct Hfill as (r & Hfill & Hrb & Hrz). unfold g in Hfill. cbn beta in Hfill. rewrite Hfill, bind_Ok.
  rewrite alp_patch_eq. eapply safe_bind.
  - apply (forZ_safe (fun _ st => (0 < n -> bytes_ok st.1) /\ zlen st.1 = sz /\ 0 <= st.2)).
    + apply le_uint_bound. by apply bytes_ok_sub.
    + intros i st _ (H1 & H2 & H3). apply alp_patch_safe; try done; lia.
    + cbn. split; [done|]. split; [done|]. pose proof (mod_pow2_bound (u64 (u64 (n * nthZ enc 2) + 7) / 8) 32). unfold u32. lia.
  - intros [r' p'] (H1 & H2 & _). cbn [fst snd] in *. cbn [safe].
    destruct (decide (n = 0)) as [->|Hn0].
    + assert (rawLen = 0) as -> by lia. split; [constructor|done].
    + split; [apply Forall_take, H1; lia|]. unfold zlen in *. rewrite length_take. lia.
Qed.

(** ** Theorem *)

(** C34.  ALP is lossless on every stream of 4 or 8 byte values: whatever
    exponents the sampling chose, a value either reconstructs byte for byte
    from its decimal integer or is carried as an exception, so what is kept
    decodes to the stream, bit pattern by bit pattern. *)
Theorem alp_roundtrip (raw : list Z) (att : Form_pg_attribute) (n : Z) :
  int_stream raw (attlen att) n -> attlen att = 4 \/ attlen att = 8 ->
  codec_roundtrip (fun enc => decode_alp enc (attlen att) n (zlen raw)) raw
    (encode_alp raw (zlen raw) att n).
Proof. apply encode_alp_spec. Qed.

(** 1.1, 2.35, 1.1, 2.35, NaN, 1.1 as doubles. *)
Lemma alp_roundtrip_witness :
  let raw := store_vals [4607632778762754458; 4612474148362177741; 4607632778762754458;
                         4612474148362177741; 9221120237041090560; 4607632778762754458] 8 in
  (exists enc, encode_alp raw 48 (mkAtt true 8 FLOAT8OID) 6 = Ok (Some enc) /\ zlen enc = 34) /\
  codec_roundtrip (fun enc => decode_alp enc 8 6 48) raw (encode_alp raw 48 (mkAtt true 8 FLOAT8OID) 6).
Proof.
  intros raw. split; [eexists; split; [vm_compute; reflexivity|reflexivity]|].
  apply (alp_roundtrip raw (mkAtt true 8 FLOAT8OID) 6); [|by right].
  unfold int_stream. split; [apply store_vals_ok|]. repeat split; vm_compute; congruence.
Defined.
