(* ===== verification/Chunk.v ===== *)
(** * Choosing and reversing an encoding

    [build_sample], [PgColumnarEncodeChunk] and [PgColumnarDecodeChunk] of
    [src/columnar_encoding.c]: the candidates a column admits, the windowed
    sample that ranks them, the smallest result that wins, and the checked
    dispatch that reverses whatever code was recorded. *)

From S2P Require Import Prelude BitPack BitStream Codec IntCodecs Rle.
From S2P Require Import Gorilla OpenAddr Varlena Dict Fsst Alp.

(** ** Encoding codes *)

Definition COLUMNAR_ENCODING_NONE : Z := 0.
Definition COLUMNAR_ENCODING_RLE : Z := 1.
Definition COLUMNAR_ENCODING_FOR : Z := 2.
Definition COLUMNAR_ENCODING_DELTA : Z := 3.
Definition COLUMNAR_ENCODING_GORILLA : Z := 4.
Definition COLUMNAR_ENCODING_DOD : Z := 5.
Definition COLUMNAR_ENCODING_DICT : Z := 6.
Definition COLUMNAR_ENCODING_ALP : Z := 7.
Definition COLUMNAR_ENCODING_FSST : Z := 8.

Definition PgColumnarEncodingName (encodingType : Z) : string :=
  if encodingType =? COLUMNAR_ENCODING_NONE then "none"
  else if encodingType =? COLUMNAR_ENCODING_RLE then "rle"
  else if encodingType =? COLUMNAR_ENCODING_FOR then "for"
  else if encodingType =? COLUMNAR_ENCODING_DELTA then "delta"
  else if encodingType =? COLUMNAR_ENCODING_GORILLA then "gorilla"
  else if encodingType =? COLUMNAR_ENCODING_DOD then "dod"
  else if encodingType =? COLUMNAR_ENCODING_DICT then "dict"
  else if encodingType =? COLUMNAR_ENCODING_ALP then "alp"
  else if encodingType =? COLUMNAR_ENCODING_FSST then "fsst"
  else "unknown".

(** ** The sample *)

Definition ENCODE_SAMPLE_WINDOW : Z := 64.
Definition ENCODE_SAMPLE_MIN : Z := 128.

(** [None] is [return NULL]; [Some (sample, sampleN)] otherwise. *)
Definition build_sample (raw : list Z) (w n want : Z) : res (option (list Z * Z)) :=
  if (want =? 0) || (n <=? want) then Ok None
  else
    let win := if want <? ENCODE_SAMPLE_WINDOW then want else ENCODE_SAMPLE_WINDOW in
    let nwin := want / win in
    if (nwin <? 2) || (n <=? win) then Ok None
    else
      _ ← palloc (nwin * win * w);
      st ← forZ 0 nwin (fun i st =>
        let '(sample, taken) := st in
        let start := (i * (n - win)) / (nwin - 1) in
        b ← rd raw (start * w) (win * w);
        Ok (sample ++ b, u32 (taken + win))) ([], 0);
      Ok (Some st).

Section EncodeChunk.
Context `{PgBitutils} `{VarattExternal}.

(** One encoder applied to a stream. *)
Definition run_encoder (code : Z) (raw : list Z) (rawLen : Z) (att : Form_pg_attribute) (n : Z)
    : res (option (list Z)) :=
  let w := attlen att in
  if code =? COLUMNAR_ENCODING_RLE then encode_rle raw rawLen w n
  else if code =? COLUMNAR_ENCODING_FOR then encode_for raw rawLen w n
  else if code =? COLUMNAR_ENCODING_DELTA then encode_delta raw rawLen w n
  else if code =? COLUMNAR_ENCODING_DOD then encode_dod raw rawLen w n
  else if code =? COLUMNAR_ENCODING_GORILLA then encode_gorilla raw rawLen w n
  else if code =? COLUMNAR_ENCODING_ALP then encode_alp raw rawLen att n
  else if code =? COLUMNAR_ENCODING_DICT then encode_dict raw rawLen att n
  else Ok None.

(** The fixed-width candidates, in the order they are tried. *)
Definition fixed_candidates (att : Form_pg_attribute) : list Z :=
  [COLUMNAR_ENCODING_RLE]
  ++ (if is_packable_int att
      then [COLUMNAR_ENCODING_FOR; COLUMNAR_ENCODING_DELTA; COLUMNAR_ENCODING_DOD] else [])
  ++ (if is_gorilla_float att then [COLUMNAR_ENCODING_GORILLA; COLUMNAR_ENCODING_ALP] else []).

(** [cand[0], best[0], cand[1], best[1]] and the [SAMPLE_TRY] update. *)
Record ranking := mkRank { cand0 : Z; best0 : Z; cand1 : Z; best1 : Z }.

Definition sample_update (code len : Z) (r : ranking) : ranking :=
  if len <? best0 r then mkRank code len (cand0 r) (best0 r)
  else if len <? best1 r then mkRank (cand0 r) (best0 r) code len
  else r.

Fixpoint sample_rank (codes : list Z) (sample : list Z) (sampleRawLen : Z)
    (att : Form_pg_attribute) (sampleN : Z) (r : ranking) : res ranking :=
  match codes with
  | [] => Ok r
  | code :: codes' =>
      o ← run_encoder code sample sampleRawLen att sampleN;
      sample_rank codes' sample sampleRawLen att sampleN
        (match o with None => r | Some buf => sample_update code (zlen buf) r end)
  end.

(** [bestCode], [bestBuf] and [bestLen]. *)
Record choice := mkChoice { bestCode : Z; bestBuf : option (list Z); bestLen : Z }.

(** [if (encode(...) && len < bestLen) { bestCode = code; ... }] *)
Definition keep_best (code : Z) (o : option (list Z)) (ch : choice) : choice :=
  match o with
  | None => ch
  | Some buf => if zlen buf <? bestLen ch then mkChoice code (Some buf) (zlen buf) else ch
  end.

Fixpoint apply_candidates (codes : list Z) (raw : list Z) (rawLen : Z)
    (att : Form_pg_attribute) (n : Z) (ch : choice) : res choice :=
  match codes with
  | [] => Ok ch
  | code :: codes' =>
      o ← run_encoder code raw rawLen att n;
      apply_candidates codes' raw rawLen att n (keep_best code o ch)
  end.

(** [*out = bestBuf ? bestBuf : raw; *outLen = bestLen; return bestCode;] *)
Definition finish (raw : list Z) (ch : choice) : Z * list Z :=
  (bestCode ch, match bestBuf ch with None => raw | Some b => b end).

(** Every applicable encoding measured on the whole chunk. *)
Definition encode_exhaustive (raw : list Z) (rawLen : Z) (att : Form_pg_attribute) (n : Z)
    (fsstTable : option (list Z)) : res (Z * list Z) :=
  let w := attlen att in
  let ch0 := mkChoice COLUMNAR_ENCODING_NONE None rawLen in
  ch ← (if 0 <? w then apply_candidates (fixed_candidates att) raw rawLen att n ch0 else Ok ch0);
  ch ← (if (0 <? w) || (w =? -1)
        then apply_candidates [COLUMNAR_ENCODING_DICT] raw rawLen att n ch else Ok ch);
  ch ← (match fsstTable with
        | Some table =>
            if (w =? -1) && (rawLen - rawLen / 4 <? bestLen ch) then
              o ← encode_fsst_shared raw rawLen table;
              Ok (keep_best COLUMNAR_ENCODING_FSST o ch)
            else Ok ch
        | None => Ok ch
        end);
  Ok (finish raw ch).

Definition PgColumnarEncodeChunk (encoding_sample_rows : Z) (raw : list Z) (rawLen : Z)
    (att : Form_pg_attribute) (valueCount : Z) (fsstTable : option (list Z))
    : res (Z * list Z) :=
  let w := attlen att in
  let n := u32 valueCount in
  if (rawLen =? 0) || (n =? 0) then Ok (COLUMNAR_ENCODING_NONE, raw)
  else
    s ← (if (0 <? w) && (ENCODE_SAMPLE_MIN <=? encoding_sample_rows)
         then build_sample raw w n (u32 encoding_sample_rows) else Ok None);
    match (s : option (list Z * Z)) with
    | Some (sample, sampleN) =>
        let sampleRawLen := u32 (sampleN * w) in
        r ← sample_rank (fixed_candidates att ++ [COLUMNAR_ENCODING_DICT]) sample sampleRawLen
              att sampleN
              (mkRank COLUMNAR_ENCODING_NONE sampleRawLen COLUMNAR_ENCODING_NONE sampleRawLen);
        ch ← apply_candidates
               (filter (fun c => c <> COLUMNAR_ENCODING_NONE) [cand0 r; cand1 r])
               raw rawLen att n (mkChoice COLUMNAR_ENCODING_NONE None rawLen);
        Ok (finish raw ch)
    | None => encode_exhaustive raw rawLen att n fsstTable
    end.
End EncodeChunk.

(** ** Decoding *)

(** [attlen != 1 && attlen != 2 && attlen != 4 && attlen != 8], then the raw
    length check. *)
Definition check_fixed (att : Form_pg_attribute) (n rawLen : Z) : res unit :=
  if bad_width (attlen att) then Err "fixed-width encoding on a non-fixed-width column"
  else if negb (n * u32 (attlen att) =? rawLen) then Err "raw length does not match value count"
  else Ok tt.

Definition check_alp (att : Form_pg_attribute) (n rawLen : Z) : res unit :=
  if negb (attlen att =? 4) && negb (attlen att =? 8) then Err "ALP on a non-float column"
  else if negb (n * u32 (attlen att) =? rawLen) then Err "raw length does not match value count"
  else Ok tt.

Definition decode_dispatch (enc : list Z) (encodingType : Z) (att : Form_pg_attribute)
    (n rawLen : Z) (fsstTable : option (list Z)) : res (list Z) :=
  if encodingType =? COLUMNAR_ENCODING_NONE then Ok enc
  else if encodingType =? COLUMNAR_ENCODING_RLE then decode_rle enc (attlen att) n rawLen
  else if encodingType =? COLUMNAR_ENCODING_FOR then decode_for enc n rawLen
  else if encodingType =? COLUMNAR_ENCODING_DELTA then decode_delta enc n rawLen
  else if encodingType =? COLUMNAR_ENCODING_GORILLA then decode_gorilla enc (attlen att) n rawLen
  else if encodingType =? COLUMNAR_ENCODING_DOD then decode_dod enc n rawLen
  else if encodingType =? COLUMNAR_ENCODING_ALP then decode_alp enc (attlen att) n rawLen
  else if encodingType =? COLUMNAR_ENCODING_DICT then decode_dict enc att n rawLen
  else if encodingType =? COLUMNAR_ENCODING_FSST then
    match fsstTable with
    | None => Err "FSST vector without a chunk-shared table"
    | Some table =>
        if zlen table =? 0 then Err "FSST vector without a chunk-shared table"
        else decode_fsst_shared enc table rawLen
    end
  else Err "unknown value encoding type".

Definition PgColumnarDecodeChunk (enc : list Z) (encodingType : Z) (att : Form_pg_attribute)
    (valueCount rawLen : Z) (fsstTable : option (list Z)) : res (list Z) :=
  let n := u32 valueCount in
  if 2 ^ 32 - 1 <? valueCount then Err "value count too large"
  else
    _ ← (if (encodingType =? COLUMNAR_ENCODING_RLE) || (encodingType =? COLUMNAR_ENCODING_FOR)
            || (encodingType =? COLUMNAR_ENCODING_DELTA) || (encodingType =? COLUMNAR_ENCODING_GORILLA)
            || (encodingType =? COLUMNAR_ENCODING_DOD) then check_fixed att n rawLen
         else if encodingType =? COLUMNAR_ENCODING_ALP then check_alp att n rawLen
         else if encodingType =? COLUMNAR_ENCODING_NONE then
           (if negb (zlen enc =? rawLen) then Err "uncompressed length mismatch" else Ok tt)
         else Ok tt);
    decode_dispatch enc encodingType att n rawLen fsstTable.

(** ** Streams a column can hold *)

(** What PostgreSQL's catalog guarantees of a column: a pass-by-value type is
    1, 2, 4 or 8 bytes, [float4] and [float8] are 4 and 8; other lengths are
    positive, or -1 for varlena. *)
Definition att_ok (att : Form_pg_attribute) : Prop :=
  (attbyval att = true -> bad_width (attlen att) = false) /\
  (atttypid att = FLOAT4OID -> attlen att = 4) /\
  (atttypid att = FLOAT8OID -> attlen att = 8) /\
  (0 < attlen att < 2 ^ 15 \/ attlen att = -1).

Lemma packable_width att : is_packable_int att = true -> bad_width (attlen att) = false.
Proof.
  unfold is_packable_int, bad_width. intros [_ H]%andb_true_iff.
  destruct (attlen att =? 1), (attlen att =? 2), (attlen att =? 4), (attlen att =? 8); done.
Qed.

Lemma gorilla_width att :
  att_ok att -> is_gorilla_float att = true -> attlen att = 4 \/ attlen att = 8.
Proof.
  intros (_ & H4 & H8 & _) [_ H]%andb_true_iff.
  apply orb_true_iff in H as [H|H]; apply Z.eqb_eq in H; auto.
Qed.

(** A fixed-width stream of [n] values. *)
Definition fixed_stream (raw : list Z) (w n : Z) : Prop :=
  bytes_ok raw /\ 0 < w < 2 ^ 15 /\ 0 < n /\ n * w = zlen raw /\
  8 * n <= MaxAllocSize /\ zlen raw <= MaxAllocSize.

Lemma fixed_value_stream att raw n :
  fixed_stream raw (attlen att) n -> value_stream att raw (blocks raw n (attlen att)).
Proof.
  intros (Hb & Hw & Hn & Hl & Hm & Hr). split; [|split; [|split; [|split]]]; try done.
  - rewrite concat_blocks_prefix by lia. symmetry. apply take_ge. unfold zlen in *. lia.
  - pose proof (blocks_len raw n (attlen att) ltac:(lia) ltac:(lia) ltac:(lia)) as Hbl.
    apply Forall_forall. intros v Hv. rewrite Forall_forall in Hbl. split.
    + apply list_elem_of_In in Hv. apply list_elem_of_fmap in Hv as (i & -> & _). by apply bytes_ok_sub.
    + destruct (Z.ltb_spec 0 (attlen att)); [|lia]. by apply Hbl.
  - unfold zlen. rewrite length_blocks. lia.
  - unfold zlen. rewrite length_blocks. lia.
Qed.

Lemma value_stream_fixed att raw vals :
  0 < attlen att < 2 ^ 15 -> value_stream att raw vals -> fixed_stream raw (attlen att) (zlen vals).
Proof.
  intros Hw (-> & Hv & Hn & Hr & Hm). assert (Hfw : Forall (fun v => zlen v = attlen att) vals).
  { eapply Forall_weaken; [exact Hv|]. intros v [_ H]. by destruct (Z.ltb_spec 0 (attlen att)); [|lia]. }
  split; [|split; [done|split; [done|split; [|split; done]]]].
  - apply Forall_concat. eapply Forall_weaken; [exact Hv|]. by intros v [H _].
  - symmetry. by apply zlen_concat_blocks.
Qed.

(** ** Every candidate round-trips *)

Section Candidates.
Context `{PgBitutils} `{VarattExternal} (att : Form_pg_attribute) (Hatt : att_ok att).

(** What the decoder dispatch makes of [code]. *)
Definition decodes (raw : list Z) (n : Z) (table : option (list Z)) (code : Z) (enc : list Z) : Prop :=
  decode_dispatch enc code att n (zlen raw) table = Ok raw.

Lemma run_encoder_spec code raw n table :
  fixed_stream raw (attlen att) n ->
  code ∈ fixed_candidates att ++ [COLUMNAR_ENCODING_DICT] ->
  exists o, run_encoder code raw (zlen raw) att n = Ok o /\
    forall enc, o = Some enc -> bytes_ok enc /\ zlen enc < zlen raw /\ decodes raw n table code enc.
Proof using Hatt.
  intros Hs Hin. pose proof Hs as (Hb & Hw & Hn & Hl & Hm & Hr).
  assert (Hint : bad_width (attlen att) = false -> int_stream raw (attlen att) n)
    by (intros; repeat split; try done; lia).
  assert (Hgoal : codec_roundtrip (fun enc => decode_dispatch enc code att n (zlen raw) table) raw
    (run_encoder code raw (zlen raw) att n)).
  { unfold fixed_candidates in Hin. rewrite !elem_of_app, list_elem_of_singleton in Hin.
    destruct Hin as [[-> | [Hin|Hin]]|Hin].
    - by apply encode_rle_spec; try lia.
    - destruct (is_packable_int att) eqn:Ep; [|by apply elem_of_nil in Hin].
      pose proof (Hint (packable_width att Ep)) as Hi.
      rewrite !elem_of_cons, elem_of_nil in Hin. destruct Hin as [->|[->|[->|Hf]]]; [| | |done].
      + destruct (encode_for_spec raw _ n Hi) as (o & Ho & Hrt & _).
        change (codec_roundtrip (fun enc => decode_for enc n (zlen raw)) raw (encode_for raw (zlen raw) (attlen att) n)).
        by rewrite Ho.
      + destruct (encode_delta_spec raw _ n Hi) as (o & Ho & Hrt & _).
        change (codec_roundtrip (fun enc => decode_delta enc n (zlen raw)) raw (encode_delta raw (zlen raw) (attlen att) n)).
        by rewrite Ho.
      + destruct (encode_dod_spec raw _ n Hi) as (o & Ho & Hrt & _).
        change (codec_roundtrip (fun enc => decode_dod enc n (zlen raw)) raw (encode_dod raw (zlen raw) (attlen att) n)).
        by rewrite Ho.
    - destruct (is_gorilla_float att) eqn:Eg; [|by apply elem_of_nil in Hin].
      pose proof (gorilla_width att Hatt Eg) as Hw48.
      assert (Hi : int_stream raw (attlen att) n) by (apply Hint; destruct Hw48 as [-> | ->]; done).
      rewrite !elem_of_cons, elem_of_nil in Hin. destruct Hin as [->|[->|Hf]]; [| |done].
      + by apply encode_gorilla_spec.
      + by apply encode_alp_spec.
    - apply list_elem_of_singleton in Hin as ->.
      pose proof (encode_dict_spec att raw _ (fixed_value_stream att raw n Hs)) as Hd.
      assert (Hz : zlen (blocks raw n (attlen att)) = n) by (unfold zlen; rewrite length_blocks; lia).
      rewrite Hz in Hd. exact Hd. }
  destruct Hgoal as (o & -> & Ho). exists o. split; [done|]. by intros enc ->.
Qed.

(** The codes the selection can return besides NONE. *)
Definition code_allowed (code : Z) : Prop :=
  (0 < attlen att /\ code ∈ fixed_candidates att) \/
  code = COLUMNAR_ENCODING_DICT \/ code = COLUMNAR_ENCODING_FSST.

Lemma candidate_allowed code :
  0 < attlen att -> code ∈ fixed_candidates att ++ [COLUMNAR_ENCODING_DICT] -> code_allowed code.
Proof using.
  intros Hw [Hc|Hc]%elem_of_app; [by left|]. apply list_elem_of_singleton in Hc. right. by left.
Qed.

(** The running best: nothing kept yet, or a shorter encoding that decodes. *)
Definition choice_ok (raw : list Z) (n : Z) (table : option (list Z)) (ch : choice) : Prop :=
  match bestBuf ch with
  | None => bestCode ch = COLUMNAR_ENCODING_NONE /\ bestLen ch = zlen raw
  | Some b => code_allowed (bestCode ch) /\ bytes_ok b /\ bestLen ch = zlen b /\ zlen b < zlen raw /\
      decodes raw n table (bestCode ch) b
  end.

Lemma keep_best_ok raw n table code o ch :
  choice_ok raw n table ch -> code_allowed code ->
  (forall enc, o = Some enc -> bytes_ok enc /\ zlen enc < zlen raw /\ decodes raw n table code enc) ->
  choice_ok raw n table (keep_best code o ch) /\ bestLen (keep_best code o ch) <= bestLen ch.
Proof using.
  intros Hch Hal Ho. destruct o as [enc|]; cbn [keep_best]; [|split; [done|lia]].
  destruct (Ho enc eq_refl) as (H1 & H2 & H3).
  destruct (Z.ltb_spec (zlen enc) (bestLen ch)); [|split; [done|lia]].
  split; [|cbn; lia]. unfold choice_ok. cbn. done.
Qed.

Lemma apply_candidates_spec codes raw n table ch :
  fixed_stream raw (attlen att) n ->
  (forall c, c ∈ codes -> c ∈ fixed_candidates att ++ [COLUMNAR_ENCODING_DICT]) ->
  choice_ok raw n table ch ->
  exists ch', apply_candidates codes raw (zlen raw) att n ch = Ok ch' /\ choice_ok raw n table ch'.
Proof using Hatt.
  intros Hs. revert ch. induction codes as [|c codes IH]; intros ch Hin Hch; cbn [apply_candidates]; [eauto|].
  destruct (run_encoder_spec c raw n table Hs) as (o & -> & Ho); [apply Hin; by left|].
  rewrite bind_Ok. apply IH; [intros x Hx; apply Hin; by right|].
  apply keep_best_ok; try done. apply candidate_allowed; [|apply Hin; by left].
  destruct Hs as (_ & ? & _). lia.
Qed.

Definition rank_ok (r : ranking) : Prop :=
  forall c, c = cand0 r \/ c = cand1 r -> c <> COLUMNAR_ENCODING_NONE ->
    c ∈ fixed_candidates att ++ [COLUMNAR_ENCODING_DICT].

Lemma sample_rank_spec codes sample m r :
  fixed_stream sample (attlen att) m ->
  (forall c, c ∈ codes -> c ∈ fixed_candidates att ++ [COLUMNAR_ENCODING_DICT]) -> rank_ok r ->
  exists r', sample_rank codes sample (zlen sample) att m r = Ok r' /\ rank_ok r'.
Proof using Hatt.
  intros Hs. revert r. induction codes as [|c codes IH]; intros r Hin Hr; cbn [sample_rank]; [eauto|].
  destruct (run_encoder_spec c sample m None Hs) as (o & -> & _); [apply Hin; by left|].
  rewrite bind_Ok. apply IH; [intros x Hx; apply Hin; by right|].
  destruct o as [buf|]; [|done]. unfold sample_update.
  assert (Hc : c ∈ fixed_candidates att ++ [COLUMNAR_ENCODING_DICT]) by (apply Hin; by left).
  destruct (_ <? _); [|destruct (_ <? _); [|done]]; intros x [-> | ->] Hx; cbn in *; auto; apply Hr; auto.
Qed.
End Candidates.

(** ** The sample is a stream of the column's values *)

Lemma build_sample_spec raw w n want :
  fixed_stream raw w n -> 0 <= want < 2 ^ 32 ->
  exists o, build_sample raw w n want = Ok o /\
    forall sample m, o = Some (sample, m) -> fixed_stream sample w m.
Proof.
  intros (Hb & Hw & Hn & Hl & Hm & Hr) Hwant. unfold build_sample, ENCODE_SAMPLE_WINDOW.
  destruct (Z.eqb_spec want 0); [by eexists|]. destruct (Z.leb_spec n want); [by eexists|]. cbn [orb].
  cbv zeta. set (win := if want <? 64 then want else 64).
  assert (Hwin : 1 <= win <= 64 /\ win <= want) by (unfold win; destruct (Z.ltb_spec want 64); lia).
  div_bounds want win. set (nwin := want / win) in *.
  destruct (Z.ltb_spec nwin 2); [by eexists|]. destruct (Z.leb_spec n win); [by eexists|]. cbn [orb].
  unfold MaxAllocSize in *.
  rewrite palloc_Ok, bind_Ok by (unfold MaxAllocSize; nia).
  match goal with |- context [forZ 0 nwin ?f ?s] =>
    destruct (forZ_Ok (fun i (st : list Z * Z) => bytes_ok st.1 /\ zlen st.1 = i * win * w /\
      st.2 = i * win) f 0 nwin s) as ([sample m] & -> & Hsb & Hsl & Hsm) end.
  - lia.
  - intros i [sample taken] Hi (Hsb & Hsl & Hst). cbn [fst snd] in *. subst taken.
    set (start := i * (n - win) / (nwin - 1)).
    assert (Hstart : 0 <= start <= n - win).
    { unfold start. split; [apply Z.div_pos; nia|]. apply Z.div_le_upper_bound; nia. }
    rewrite rd_Ok, bind_Ok by nia. eexists. split; [done|]. cbn [fst snd]. split; [|split].
    + apply Forall_app_2; [done|]. by apply bytes_ok_sub.
    + rewrite zlen_app, zlen_sub by nia. nia.
    + rewrite u32_small; nia.
  - cbn. repeat split; try done. constructor.
  - rewrite bind_Ok. eexists. split; [done|]. intros sample' m' [= <- <-]. cbn [fst snd] in *.
    unfold fixed_stream, MaxAllocSize. repeat split; try done; try nia.
Qed.

Section ChunkRoundtrip.
Context `{PgBitutils} `{VarattExternal}.

(** A chunk the encoder is called on: [n] values of the column, and a shared
    table that parses when there is one. *)
Definition chunk_ok (att : Form_pg_attribute) (raw : list Z) (vals : list (list Z))
    (table : option (list Z)) : Prop :=
  att_ok att /\ value_stream att raw vals /\ zlen raw + FSST_DECODE_SLACK <= MaxAllocSize /\
  match table with
  | None => True
  | Some tb => bytes_ok tb /\ zlen tb < 2 ^ 32 /\ exists t, fsst_deserialize_table tb = Ok t
  end.

Lemma encode_exhaustive_spec att raw vals table :
  chunk_ok att raw vals table ->
  exists ch, encode_exhaustive raw (zlen raw) att (zlen vals) table = Ok (finish raw ch) /\
    choice_ok att raw (zlen vals) table ch.
Proof.
  intros (Hatt & Hvs & Hslack & Htab). unfold encode_exhaustive. cbv zeta.
  set (ch0 := mkChoice COLUMNAR_ENCODING_NONE None (zlen raw)).
  assert (Hch0 : choice_ok att raw (zlen vals) table ch0) by done.
  assert (H1 : exists ch1, (if 0 <? attlen att then apply_candidates (fixed_candidates att) raw (zlen raw) att (zlen vals) ch0 else Ok ch0) = Ok ch1 /\ choice_ok att raw (zlen vals) table ch1).
  { pose proof Hatt as (_ & _ & _ & Hal). destruct (Z.ltb_spec 0 (attlen att)); [|eauto].
    apply apply_candidates_spec; try done.
    - apply (value_stream_fixed att raw vals); [lia|done].
    - intros c Hc. apply elem_of_app. by left. }
  destruct H1 as (ch1 & -> & Hch1). rewrite bind_Ok.
  assert (H2 : exists ch2, (if (0 <? attlen att) || (attlen att =? -1) then apply_candidates [COLUMNAR_ENCODING_DICT] raw (zlen raw) att (zlen vals) ch1 else Ok ch1) = Ok ch2 /\ choice_ok att raw (zlen vals) table ch2).
  { destruct (_ || _); [|eauto]. cbn [apply_candidates].
    destruct (encode_dict_spec att raw vals Hvs) as (o & Ho & Hd).
    change (run_encoder COLUMNAR_ENCODING_DICT raw (zlen raw) att (zlen vals))
      with (encode_dict raw (zlen raw) att (zlen vals)).
    rewrite Ho, bind_Ok. eexists. split; [done|]. apply keep_best_ok; [done|right; by left|]. by intros enc ->. }
  destruct H2 as (ch2 & -> & Hch2). rewrite bind_Ok.
  destruct table as [tb|]; [|rewrite bind_Ok; eauto].
  destruct (_ && _); [|rewrite bind_Ok; eauto].
  destruct Htab as (Htb & H32 & t & Ht).
  destruct (encode_fsst_spec raw tb t) as (o & -> & Ho); try done.
  { destruct Hvs as (-> & Hv & _). apply Forall_concat. eapply Forall_weaken; [exact Hv|]. by intros v [Hv1 _]. }
  rewrite !bind_Ok. eexists. split; [done|]. apply keep_best_ok; [done|right; by right|]. intros enc ->.
  destruct Ho as (Ho1 & Ho2 & Ho3). split; [done|]. split; [done|]. unfold decodes, decode_dispatch.
  cbn. destruct (Z.eqb_spec (zlen tb) 0); [|done].
  destruct tb; [done|]. unfold zlen in *. simpl in *. lia.
Qed.

(** What the caller gets: the raw bytes under NONE, or a strictly shorter
    encoding that the dispatch reverses. *)
Lemma encode_chunk_spec sample_rows att raw vals table :
  0 <= sample_rows < 2 ^ 31 -> chunk_ok att raw vals table ->
  exists ch, PgColumnarEncodeChunk sample_rows raw (zlen raw) att (zlen vals) table
    = Ok (finish raw ch) /\ choice_ok att raw (zlen vals) table ch.
Proof.
  intros Hsr Hck. pose proof Hck as (Hatt & Hvs & _).
  pose proof (value_stream_pos _ _ _ Hvs) as Hpos. pose proof Hvs as (_ & _ & Hn & _ & Hm).
  unfold MaxAllocSize in Hm. unfold PgColumnarEncodeChunk. rewrite (u32_small (zlen vals)) by lia.
  destruct (Z.eqb_spec (zlen raw) 0); [lia|]. destruct (Z.eqb_spec (zlen vals) 0); [lia|]. cbn [orb].
  destruct ((0 <? attlen att) && _) eqn:Es.
  2:{ rewrite bind_Ok. by apply encode_exhaustive_spec. }
  apply andb_true_iff in Es as [Hw%Z.ltb_lt _].
  assert (Hfs : fixed_stream raw (attlen att) (zlen vals)).
  { apply value_stream_fixed; [|done]. destruct Hatt as (_ & _ & _ & Hal). lia. }
  destruct (build_sample_spec raw (attlen att) (zlen vals) (u32 sample_rows) Hfs) as (o & -> & Ho);
    [apply mod_pow2_bound; lia|].
  rewrite bind_Ok. destruct o as [[sample m]|]; [|by apply encode_exhaustive_spec].
  pose proof (Ho sample m eq_refl) as Hss. pose proof Hss as (_ & _ & _ & Hsl & _ & Hsm).
  assert (Hsz : u32 (m * attlen att) = zlen sample)
    by (rewrite Hsl; apply u32_small; unfold MaxAllocSize in Hsm; pose proof (zlen_nonneg sample); lia).
  rewrite Hsz.
  destruct (sample_rank_spec att Hatt (fixed_candidates att ++ [COLUMNAR_ENCODING_DICT]) sample m
    (mkRank COLUMNAR_ENCODING_NONE (zlen sample) COLUMNAR_ENCODING_NONE (zlen sample)) Hss)
    as (r & -> & Hr); [done|intros c [-> | ->]; done|].
  rewrite bind_Ok.
  destruct (apply_candidates_spec att Hatt (filter (fun c => c <> COLUMNAR_ENCODING_NONE) [cand0 r; cand1 r])
    raw (zlen vals) table (mkChoice COLUMNAR_ENCODING_NONE None (zlen raw)) Hfs) as (ch & -> & Hch).
  - intros c [Hc Hin]%list_elem_of_filter. rewrite !elem_of_cons, elem_of_nil in Hin.
    apply Hr; [|done]. destruct Hin as [?|[?|?]]; [by left|by right|done].
  - done.
  - rewrite bind_Ok. eauto.
Qed.
End ChunkRoundtrip.

(** ** From the dispatch to the checked decoder *)

Definition rle_too_wide (att : Form_pg_attribute) (code : Z) : bool :=
  (code =? COLUMNAR_ENCODING_RLE) && bad_width (attlen att).

Lemma check_fixed_Ok att n rawLen :
  bad_width (attlen att) = false -> n * attlen att = rawLen -> check_fixed att n rawLen = Ok tt.
Proof.
  intros Hbw Hn. unfold check_fixed. rewrite Hbw. apply width_cases in Hbw.
  rewrite u32_small by lia. rewrite Hn, Z.eqb_refl. done.
Qed.

Lemma check_alp_Ok att n rawLen :
  attlen att = 4 \/ attlen att = 8 -> n * attlen att = rawLen -> check_alp att n rawLen = Ok tt.
Proof.
  intros Hw Hn. unfold check_alp. rewrite u32_small, Hn, Z.eqb_refl by lia.
  by destruct Hw as [-> | ->].
Qed.

(** Decide the comparisons between encoding codes. *)
Ltac eval_codes :=
  cbv [COLUMNAR_ENCODING_NONE COLUMNAR_ENCODING_RLE COLUMNAR_ENCODING_FOR COLUMNAR_ENCODING_DELTA
       COLUMNAR_ENCODING_GORILLA COLUMNAR_ENCODING_DOD COLUMNAR_ENCODING_DICT COLUMNAR_ENCODING_ALP
       COLUMNAR_ENCODING_FSST Z.eqb Pos.eqb orb andb].

Lemma decode_chunk_dispatch att raw vals table code enc :
  att_ok att -> value_stream att raw vals -> code_allowed att code ->
  decode_dispatch enc code att (zlen vals) (zlen raw) table = Ok raw ->
  PgColumnarDecodeChunk enc code att (zlen vals) (zlen raw) table
  = if rle_too_wide att code then Err "fixed-width encoding on a non-fixed-width column" else Ok raw.
Proof.
  intros Hatt Hvs Hal Hd. pose proof Hvs as (_ & _ & Hn & _ & Hm). unfold MaxAllocSize in Hm.
  unfold PgColumnarDecodeChunk, rle_too_wide. rewrite u32_small by lia.
  destruct (Z.ltb_spec (2 ^ 32 - 1) (zlen vals)); [lia|].
  destruct Hal as [[Hw Hc]|[-> | ->]].
  - assert (Hmul : zlen vals * attlen att = zlen raw).
    { destruct (value_stream_fixed att raw vals) as (_ & _ & _ & Hl & _); try done.
      destruct Hatt as (_ & _ & _ & Ha). lia. }
    unfold fixed_candidates in Hc. rewrite !elem_of_app, list_elem_of_singleton in Hc.
    destruct Hc as [-> | [Hc|Hc]].
    + eval_codes. destruct (bad_width (attlen att)) eqn:Eb.
      * unfold check_fixed. by rewrite Eb.
      * rewrite check_fixed_Ok by done. by rewrite bind_Ok.
    + destruct (is_packable_int att) eqn:Ep; [|by apply elem_of_nil in Hc].
      rewrite !elem_of_cons, elem_of_nil in Hc.
      destruct Hc as [-> | [-> | [-> | Hf]]]; [| | |done];
        eval_codes; (rewrite check_fixed_Ok by (done || by apply packable_width)); by rewrite bind_Ok.
    + destruct (is_gorilla_float att) eqn:Eg; [|by apply elem_of_nil in Hc].
      pose proof (gorilla_width att Hatt Eg) as Hw48.
      rewrite !elem_of_cons, elem_of_nil in Hc. destruct Hc as [-> | [-> | Hf]]; [| |done].
      * eval_codes. rewrite check_fixed_Ok by (done || destruct Hw48 as [-> | ->]; done).
        by rewrite bind_Ok.
      * eval_codes. rewrite check_alp_Ok by done. by rewrite bind_Ok.
  - eval_codes. by rewrite bind_Ok.
  - eval_codes. by rewrite bind_Ok.
Qed.

(** Encoding a chunk and decoding it, by cases on the choice that was kept. *)
Lemma encode_decode_chunk `{PgBitutils} `{VarattExternal} (sample_rows : Z) (att : Form_pg_attribute)
    (raw : list Z) (vals : list (list Z)) (table : option (list Z)) :
  0 <= sample_rows < 2 ^ 31 -> chunk_ok att raw vals table ->
  exists code enc, (code_allowed att code \/ code = COLUMNAR_ENCODING_NONE) /\
    PgColumnarEncodeChunk sample_rows raw (zlen raw) att (zlen vals) table = Ok (code, enc) /\
    bytes_ok enc /\
    (if code =? COLUMNAR_ENCODING_NONE then enc = raw else zlen enc < zlen raw) /\
    PgColumnarDecodeChunk enc code att (zlen vals) (zlen raw) table
    = if rle_too_wide att code then Err "fixed-width encoding on a non-fixed-width column" else Ok raw.
Proof.
  intros Hsr Hck. destruct (encode_chunk_spec sample_rows att raw vals table Hsr Hck) as (ch & Hch & Hok).
  destruct Hck as (Hatt & Hvs & _). unfold finish in Hch.
  pose proof Hvs as (Hraw & Hv & Hn & _ & Hm). unfold MaxAllocSize in Hm.
  unfold choice_ok in Hok. destruct (bestBuf ch) as [b|].
  - destruct Hok as (Hal & Hb & _ & Hlt & Hd). do 2 eexists. split; [by left|]. split; [exact Hch|]. split; [done|]. split.
    + destruct (Z.eqb_spec (bestCode ch) COLUMNAR_ENCODING_NONE) as [He|]; [|done].
      unfold decodes, decode_dispatch in Hd. rewrite He in Hd. cbn in Hd. injection Hd as ->. lia.
    + by apply decode_chunk_dispatch.
  - destruct Hok as [Hc _]. rewrite Hc in Hch. exists COLUMNAR_ENCODING_NONE, raw. split; [by right|]. split; [exact Hch|]. split.
    { subst raw. apply Forall_concat. eapply Forall_weaken; [exact Hv|]. by intros v [Hv1 _]. }
    split; [done|]. unfold PgColumnarDecodeChunk, rle_too_wide. cbn [Z.eqb COLUMNAR_ENCODING_NONE andb orb].
    destruct (Z.ltb_spec (2 ^ 32 - 1) (zlen vals)); [lia|]. cbn. by rewrite Z.eqb_refl.
Qed.

Lemma decode_chunk_safe_lemma (enc : list Z) (encodingType : Z) (att : Form_pg_attribute)
    (valueCount rawLen : Z) (table : option (list Z)) :
  bytes_ok enc -> zlen enc < 2 ^ 32 -> 0 <= valueCount < 2 ^ 64 ->
  0 <= rawLen < 2 ^ 32 - FSST_DECODE_SLACK ->
  match table with None => True | Some tb => bytes_ok tb /\ zlen tb < 2 ^ 32 end ->
  decode_safe rawLen (PgColumnarDecodeChunk enc encodingType att valueCount rawLen table).
Proof.
  intros Hb Hz Hv Hr Ht. unfold FSST_DECODE_SLACK in Hr. unfold PgColumnarDecodeChunk.
  destruct (Z.ltb_spec (2 ^ 32 - 1) valueCount); [done|]. rewrite u32_small by lia.
  assert (He : enc_ok enc valueCount rawLen) by (repeat split; try done; lia).
  unfold decode_dispatch.
  destruct (Z.eqb_spec encodingType COLUMNAR_ENCODING_RLE) as [->|H1].
  { eval_codes. unfold check_fixed. destruct (bad_width (attlen att)) eqn:Ew; [done|].
    pose proof (width_cases _ Ew). rewrite u32_small by lia.
    destruct (Z.eqb_spec (valueCount * attlen att) rawLen); [|done]. cbn [negb]. rewrite bind_Ok.
    apply decode_rle_safe; try done; lia. }
  destruct (Z.eqb_spec encodingType COLUMNAR_ENCODING_FOR) as [->|H2].
  { eval_codes. unfold check_fixed. destruct (bad_width (attlen att)); [done|].
    destruct (negb _); [done|]. by apply decode_for_safe. }
  destruct (Z.eqb_spec encodingType COLUMNAR_ENCODING_DELTA) as [->|H3].
  { eval_codes. unfold check_fixed. destruct (bad_width (attlen att)); [done|].
    destruct (negb _); [done|]. by apply decode_delta_safe. }
  destruct (Z.eqb_spec encodingType COLUMNAR_ENCODING_GORILLA) as [->|H4].
  { eval_codes. unfold check_fixed. destruct (bad_width (attlen att)) eqn:Ew; [done|].
    pose proof (width_cases _ Ew). rewrite u32_small by lia.
    destruct (Z.eqb_spec (valueCount * attlen att) rawLen); [|done]. cbn [negb]. rewrite bind_Ok.
    apply decode_gorilla_safe; try done; lia. }
  destruct (Z.eqb_spec encodingType COLUMNAR_ENCODING_DOD) as [->|H5].
  { eval_codes. unfold check_fixed. destruct (bad_width (attlen att)); [done|].
    destruct (negb _); [done|]. by apply decode_dod_safe. }
  cbn [orb].
  destruct (Z.eqb_spec encodingType COLUMNAR_ENCODING_ALP) as [->|H6].
  { eval_codes. unfold check_alp. destruct (_ && _); [done|]. destruct (negb _); [done|].
    by apply decode_alp_safe. }
  destruct (Z.eqb_spec encodingType COLUMNAR_ENCODING_NONE) as [->|H7].
  { destruct (Z.eqb_spec (zlen enc) rawLen); done. }
  rewrite bind_Ok.
  destruct (encodingType =? COLUMNAR_ENCODING_DICT); [by apply decode_dict_safe|].
  destruct (encodingType =? COLUMNAR_ENCODING_FSST); [|done].
  destruct table as [tb|]; [|done]. destruct (zlen tb =? 0); [done|].
  destruct Ht. apply decode_fsst_safe; try done; lia.
Qed.

(** ** Theorems *)

(** C24.  End to end for one chunk.  For every column, every stream of its values
    and any sampling setting, encoding succeeds, never returns more bytes than
    the stream, returns the stream itself under NONE and strictly fewer bytes
    under any other code; and the decoder gives back exactly the stream,
    except that a run-length encoded column whose width is not 1, 2, 4 or 8 is
    refused by the decoder's width check. *)
Theorem chunk_roundtrip `{PgBitutils} `{VarattExternal} (sample_rows : Z) (att : Form_pg_attribute)
    (raw : list Z) (vals : list (list Z)) (table : option (list Z)) :
  0 <= sample_rows < 2 ^ 31 -> chunk_ok att raw vals table ->
  exists code enc,
    PgColumnarEncodeChunk sample_rows raw (zlen raw) att (zlen vals) table = Ok (code, enc) /\
    bytes_ok enc /\
    (if code =? COLUMNAR_ENCODING_NONE then enc = raw else zlen enc < zlen raw) /\
    PgColumnarDecodeChunk enc code att (zlen vals) (zlen raw) table
    = if rle_too_wide att code then Err "fixed-width encoding on a non-fixed-width column" else Ok raw.
Proof.
  intros Hsr Hck. destruct (encode_decode_chunk sample_rows att raw vals table Hsr Hck)
    as (code & enc & _ & Henc). by exists code, enc.
Qed.

Section Example_chunk_roundtrip_witness.
#[local] Existing Instance pg_bitutils_scan.
#[local] Existing Instance varatt_external_none.

Lemma chunk_roundtrip_witness :
let att := mkAtt true 4 23 in
let vals := le_bytes 4 <$> (replicate 50 7 ++ replicate 50 9) in
let raw := concat vals in
exists code enc,
  PgColumnarEncodeChunk 2048 raw (zlen raw) att (zlen vals) None = Ok (code, enc) /\
  bytes_ok enc /\
  (if code =? COLUMNAR_ENCODING_NONE then enc = raw else zlen enc < zlen raw) /\
  PgColumnarDecodeChunk enc code att (zlen vals) (zlen raw) None
  = if rle_too_wide att code then Err "fixed-width encoding on a non-fixed-width column" else Ok raw.
Proof.
intros att vals raw. apply (chunk_roundtrip 2048 att raw vals None); [lia|].
split; [|split; [|split; [vm_compute; congruence|exact I]]].
- unfold att_ok, FLOAT4OID, FLOAT8OID. cbn. repeat split; try done; try lia.
- unfold value_stream. split; [reflexivity|]. split; [|repeat split; vm_compute; congruence].
  apply Forall_fmap, Forall_true. intros z. split; [apply le_bytes_ok|reflexivity].
Defined.
End Example_chunk_roundtrip_witness.

(** C31.  A run-length encoded column of any width other than 1, 2, 4 or 8 bytes
    cannot be read back: whenever the encoder chooses RLE for it the decoder
    raises an error.  It does choose it: a [uuid] column (16 bytes) whose rows
    are all equal is 20 bytes run-length encoded and 21 with a dictionary. *)
Theorem wide_rle_unreadable `{PgBitutils} `{VarattExternal} :
  (forall att enc n rawLen table, bad_width (attlen att) = true -> 0 <= n < 2 ^ 32 ->
     exists m, PgColumnarDecodeChunk enc COLUMNAR_ENCODING_RLE att n rawLen table = Err m) /\
  (let uuid := mkAtt false 16 2950 in
   let raw := concat (replicate 8 (replicate 16 171)) in
   PgColumnarEncodeChunk 2048 raw 128 uuid 8 None
   = Ok (COLUMNAR_ENCODING_RLE, [8; 0; 0; 0] ++ replicate 16 171)).
Proof.
  split; [|by vm_compute].
  intros att enc n rawLen table Hb Hn. unfold PgColumnarDecodeChunk, check_fixed.
  destruct (Z.ltb_spec (2 ^ 32 - 1) n); [lia|]. rewrite Hb. eval_codes. eexists. reflexivity.
Qed.

(** C25.  The decoder on bytes nobody vouches for.  For any encoded bytes, any
    code, any column, any value count and any shared table, the decoder ends
    with an error or with exactly [rawLen] initialised bytes; it never reads
    or writes outside its buffers and never runs forever.  (The bound on
    [rawLen] is the one [fsst_decode_slack_wraps] shows to be needed.) *)
Theorem decode_chunk_safe (enc : list Z) (encodingType : Z) (att : Form_pg_attribute)
    (valueCount rawLen : Z) (table : option (list Z)) :
  bytes_ok enc -> zlen enc < 2 ^ 32 -> 0 <= valueCount < 2 ^ 64 ->
  0 <= rawLen < 2 ^ 32 - FSST_DECODE_SLACK ->
  match table with None => True | Some tb => bytes_ok tb /\ zlen tb < 2 ^ 32 end ->
  decode_safe rawLen (PgColumnarDecodeChunk enc encodingType att valueCount rawLen table).
Proof. apply decode_chunk_safe_lemma. Qed.

Lemma decode_chunk_safe_witness :
  decode_safe 8 (PgColumnarDecodeChunk [200; 1; 9] COLUMNAR_ENCODING_DICT (mkAtt false (-1) 25) 3 8 None).
Proof.
  apply decode_chunk_safe; try exact I; try (vm_compute; intuition congruence).
  repeat constructor; vm_compute; congruence.
Defined.

(** The gate in front of the table build does not leave storage unchanged:
    ten distinct strings that share a prefix are few enough for the gate to
    report that the dictionary wins and skip the build, the vector is then
    stored raw, while with the table the builder would have produced it
    encodes to an eighth of its size. *)
Theorem fsst_gate_changes_storage `{PgBitutils} `{VarattExternal} :
  let url := [104; 116; 116; 112; 58; 47; 47; 119; 119; 119; 46; 101; 120; 97; 109; 112; 108; 101;
              46; 99; 111; 109; 47] in
  let vals := (fun c => 51 :: url ++ [c]) <$> [97; 98; 99; 100; 101; 102; 103; 104; 105; 106] in
  let raw := concat vals in
  let att := mkAtt false (-1) 25 in
  PgColumnarFsstDictWins raw 250 = Ok true /\
  PgColumnarEncodeChunk 2048 raw 250 att 10 None = Ok (COLUMNAR_ENCODING_NONE, raw) /\
  exists table enc, PgColumnarFsstBuildChunkTable raw 250 att = Ok (Some table) /\
    PgColumnarEncodeChunk 2048 raw 250 att 10 (Some table) = Ok (COLUMNAR_ENCODING_FSST, enc) /\
    zlen enc = 32.
Proof.
  cbv zeta. split; [by vm_compute|]. split; [by vm_compute|].
  eexists _, _. split; [vm_compute; reflexivity|]. split; [vm_compute; reflexivity|].
  reflexivity.
Qed.
