(* ===== verification/BitSet.v ===== *)
(** * Bitmaps in byte arrays

    The layout shared by validity bitmaps, delete vectors and bloom filters:
    bit [pos] is bit [pos & 7] of byte [pos >> 3]. *)

From S2P Require Import Prelude.

(** [bits[pos >> 3] |= (uint8) (1 << (pos & 7))] *)
Definition set_bit (bits : list Z) (pos : Z) : res (list Z) :=
  b ← rd1 bits (Z.shiftr pos 3);
  wr1 bits (Z.shiftr pos 3) (Z.lor b (u8 (Z.shiftl 1 (Z.land pos 7)))).

(** [(bits[pos >> 3] >> (pos & 7)) & 1] *)
Definition get_bit (bits : list Z) (pos : Z) : res bool :=
  b ← rd1 bits (Z.shiftr pos 3);
  Ok (negb (Z.land (Z.shiftr b (Z.land pos 7)) 1 =? 0)).

(** Bit [pos], where the array is long enough. *)
Definition bit_set (bits : list Z) (pos : Z) : bool :=
  Z.testbit (nthZ bits (Z.shiftr pos 3)) (Z.land pos 7).

Lemma land_le_r (a b : Z) : 0 <= a -> 0 <= b -> Z.land a b <= b.
Proof.
  intros Ha Hb. rewrite <- (Z2N.id a), <- (Z2N.id b), <- N2Z.inj_land by done.
  apply N2Z.inj_le, N.land_le_r.
Qed.

Lemma pos_byte pos nbits bytes :
  0 <= pos < nbits -> nbits <= 8 * bytes -> 0 <= Z.shiftr pos 3 < bytes.
Proof.
  intros. rewrite Z.shiftr_div_pow2 by lia. change (2 ^ 3) with 8. div_bounds pos 8. lia.
Qed.

Lemma pos_bit pos : 0 <= Z.land pos 7 < 8.
Proof. change 7 with (2 ^ 3 - 1). rewrite land_ones_mod by lia. apply (mod_pow2_bound pos 3). lia. Qed.

(** A position is its byte and its bit. *)
Lemma pos_split p q : Z.shiftr p 3 = Z.shiftr q 3 -> Z.land p 7 = Z.land q 7 -> p = q.
Proof.
  change 7 with (2 ^ 3 - 1). rewrite !land_ones_mod, !Z.shiftr_div_pow2 by lia. change (2 ^ 3) with 8.
  intros. div_bounds p 8. div_bounds q 8. lia.
Qed.

Lemma land1_testbit b i : 0 <= i -> (Z.land (Z.shiftr b i) 1 =? 0) = negb (Z.testbit b i).
Proof.
  intros Hi. rewrite (land_ones_mod _ 1) by lia. rewrite <- Z.bit0_mod, Z.shiftr_spec by lia.
  rewrite Z.add_0_l. by destruct (Z.testbit b i).
Qed.

Lemma get_bit_Ok bits pos :
  0 <= pos < 8 * zlen bits -> get_bit bits pos = Ok (bit_set bits pos).
Proof.
  intros Hp. unfold get_bit. rewrite rd1_Ok, bind_Ok by (by eapply pos_byte).
  rewrite land1_testbit, negb_involutive by (pose proof (pos_bit pos); lia). done.
Qed.

Lemma testbit_or_bit b k i :
  0 <= k < 8 -> 0 <= i < 8 ->
  Z.testbit (Z.lor b (u8 (Z.shiftl 1 k))) i = Z.testbit b i || (i =? k).
Proof.
  intros Hk Hi. unfold u8. rewrite Z.lor_spec, Z.mod_pow2_bits_low, Z.shiftl_1_l, Z.pow2_bits_eqb by lia.
  by rewrite (Z.eqb_sym k).
Qed.

(** Setting a bit sets that bit and no other. *)
Lemma set_bit_spec bits pos :
  bytes_ok bits -> 0 <= pos < 8 * zlen bits ->
  exists bits', set_bit bits pos = Ok bits' /\ bytes_ok bits' /\ zlen bits' = zlen bits /\
    forall p, 0 <= p -> bit_set bits' p = bit_set bits p || (p =? pos).
Proof.
  intros Hb Hp. pose proof (pos_byte pos _ _ Hp ltac:(reflexivity)) as Hq. pose proof (pos_bit pos) as Hm.
  unfold set_bit. rewrite rd1_Ok, bind_Ok, wr1_Ok by done.
  eexists. split; [done|]. split.
  { apply Forall_insert; [done|]. apply lor_bound; [lia|by apply nthZ_ok|apply mod_pow2_bound; lia]. }
  split; [unfold zlen; by rewrite length_insert|].
  intros p Hp0. unfold bit_set. rewrite nthZ_insert by (done || by apply Z.shiftr_nonneg).
  pose proof (pos_bit p). destruct (decide (Z.shiftr p 3 = Z.shiftr pos 3)) as [He|Hne].
  - rewrite testbit_or_bit, He by done. f_equal.
    destruct (Z.eqb_spec (Z.land p 7) (Z.land pos 7)) as [He'|Hne'], (Z.eqb_spec p pos) as [->|]; try done.
    by pose proof (pos_split p pos He He').
  - destruct (Z.eqb_spec p pos) as [->|]; [done|]. by rewrite orb_false_r.
Qed.

Lemma bit_set_zeros n p : bit_set (replicate n 0) p = false.
Proof.
  unfold bit_set, nthZ. rewrite nth_lookup. destruct (replicate n 0 !! _) as [x|] eqn:E; [|apply Z.testbit_0_l].
  apply lookup_replicate in E as [-> _]. apply Z.testbit_0_l.
Qed.

Lemma bit_set_ones n p : 0 <= p < 8 * Z.of_nat n -> bit_set (replicate n 255) p = true.
Proof.
  intros Hp. unfold bit_set, nthZ. rewrite nth_lookup, lookup_replicate_2.
  - change 255 with (Z.ones 8). apply Z.ones_spec_low. pose proof (pos_bit p). cbn. lia.
  - pose proof (pos_byte p _ (Z.of_nat n) Hp ltac:(lia)). lia.
Qed.

Lemma land_bit x k : 0 <= k -> (Z.land x (Z.shiftl 1 k) =? 0) = negb (Z.testbit x k).
Proof.
  intros Hk. destruct (Z.testbit x k) eqn:E.
  - apply Z.eqb_neq. intros H0. assert (Z.testbit (Z.land x (Z.shiftl 1 k)) k = false) by (by rewrite H0, Z.testbit_0_l).
    rewrite Z.land_spec, E, Z.shiftl_1_l, Z.pow2_bits_true in H; done.
  - apply Z.eqb_eq, Z.bits_inj'. intros n Hn. rewrite Z.land_spec, Z.testbit_0_l, Z.shiftl_1_l, Z.pow2_bits_eqb by lia.
    destruct (Z.eqb_spec k n) as [<-|]; [by rewrite E|by rewrite andb_false_r].
Qed.
