(* ===== verification/Bloom.v ===== *)
(** * Per-chunk bloom filters

    [columnar_bloom.c]: building a filter over the hashes of a column chunk's
    values and probing it for an equality predicate.  A probe that answers
    "absent" lets the reader skip the whole row group, so the property that
    matters is that no value of the chunk is ever reported absent; and the
    filter read back from the catalog is untrusted, so the probe must stay
    inside its bytes whatever the header says.

    PostgreSQL's hyperLogLog, which only sizes the filter, is a parameter. *)

From S2P Require Import Prelude BitSet.
From Stdlib Require Import QArith Qround.
#[local] Open Scope Z_scope.

(** [estimateHyperLogLog] after adding every hash: a finite double. *)
Class HyperLogLog : Type := estimateHyperLogLog : list Z -> Q.

Definition BLOOM_BITS_PER_VALUE : Z := 10.
Definition BLOOM_K : Z := 6.
Definition BLOOM_MIN_BITS : Z := 64.
Definition BLOOM_MAX_BITS : Z := Z.shiftl 1 21.

(** [p] doubles from 64 to at most 2^21, so sixteen steps always suffice. *)
Fixpoint next_pow2_loop (fuel : nat) (p x : Z) : res Z :=
  match fuel with
  | O => Fuel
  | S fuel' =>
      if (p <? x) && (p <? BLOOM_MAX_BITS) then next_pow2_loop fuel' (u32 (Z.shiftl p 1)) x else Ok p
  end.

Definition next_pow2 (x : Z) : res Z := next_pow2_loop 16 BLOOM_MIN_BITS x.

Definition bloom_distinct_estimate `{HyperLogLog} (hashes : list Z) (n : Z) : Z :=
  let est := estimateHyperLogLog hashes in
  let est := if negb (Qle_bool 1 est) then 1%Q else est in
  let est := if negb (Qle_bool est (inject_Z n)) then inject_Z n else est in
  u32 (Qfloor est).

Definition bloom_hashes (h : Z) : Z * Z :=
  (h, Z.lor (Z.lor (Z.shiftr h 16) (u32 (Z.shiftl h 16))) 1).

Definition bloom_pos (h1 h2 j nbits : Z) : Z :=
  Z.land (u32 (h1 + u32 (j * h2))) (u32 (nbits - 1)).

Fixpoint bloom_fill (hashes : list Z) (nbits : Z) (bits : list Z) : res (list Z) :=
  match hashes with
  | [] => Ok bits
  | h :: rest =>
      let '(h1, h2) := bloom_hashes h in
      bits' ← forZ 0 BLOOM_K (fun j bits => set_bit bits (bloom_pos h1 h2 j nbits)) bits;
      bloom_fill rest nbits bits'
  end.

Definition PgColumnarBloomBuild `{HyperLogLog} (hashes : list Z) : res (option (list Z)) :=
  let n := zlen hashes in
  if n <? 64 then Ok None
  else
    let d := bloom_distinct_estimate hashes n in
    if BLOOM_MAX_BITS <? d * BLOOM_BITS_PER_VALUE then Ok None
    else
      nbits ← next_pow2 (u32 (d * BLOOM_BITS_PER_VALUE));
      let nbytes := nbits / 8 in
      let header := le_bytes 4 nbits ++ [BLOOM_K] in
      bits ← bloom_fill hashes nbits (replicate (Z.to_nat nbytes) 0);
      Ok (Some (header ++ bits)).

(** The probe's loop: [true] when all [k] bits are set. *)
Fixpoint bloom_test (k : nat) (j h1 h2 nbits : Z) (bits : list Z) : res bool :=
  match k with
  | O => Ok true
  | S k' =>
      let pos := bloom_pos h1 h2 j nbits in
      b ← rd1 bits (Z.shiftr pos 3);
      if Z.land (Z.shiftr b (Z.land pos 7)) 1 =? 0 then Ok false
      else bloom_test k' (j + 1) h1 h2 nbits bits
  end.

Definition PgColumnarBloomProbe (bloom : list Z) (hash : Z) : res bool :=
  if zlen bloom <? 5 then Ok true
  else
    nb ← rd bloom 0 4;
    let nbits := le_uint nb in
    k ← rd1 bloom 4;
    let bits := drop 5 bloom in
    if (nbits =? 0) || negb (Z.land nbits (u32 (nbits - 1)) =? 0) then Ok true
    else if zlen bloom <? 5 + (nbits + 7) / 8 then Ok true
    else
      let '(h1, h2) := bloom_hashes hash in
      bloom_test (Z.to_nat k) 0 h1 h2 nbits bits.

(** ** Positions *)

Lemma bloom_pos_bound h1 h2 j nbits :
  0 < nbits < 2 ^ 32 -> 0 <= bloom_pos h1 h2 j nbits < nbits.
Proof.
  intros Hn. unfold bloom_pos, u32.
  rewrite (Z.mod_small (nbits - 1)) by lia.
  pose proof (mod_pow2_bound (h1 + (j * h2) mod 2 ^ 32) 32 ltac:(lia)).
  split; [apply Z.land_nonneg; lia|].
  pose proof (land_le_r ((h1 + (j * h2) mod 2 ^ 32) mod 2 ^ 32) (nbits - 1)). lia.
Qed.

(** Every bit the value [h] needs is set. *)
Definition present (nbits : Z) (bits : list Z) (h : Z) : Prop :=
  forall j, 0 <= j < BLOOM_K ->
    bit_set bits (bloom_pos (bloom_hashes h).1 (bloom_hashes h).2 j nbits) = true.

Lemma bloom_fill_spec nbits hashes bits :
  0 < nbits < 2 ^ 32 -> bytes_ok bits -> nbits <= 8 * zlen bits ->
  exists bits', bloom_fill hashes nbits bits = Ok bits' /\ bytes_ok bits' /\ zlen bits' = zlen bits /\
    (forall p, 0 <= p -> bit_set bits p = true -> bit_set bits' p = true) /\
    Forall (present nbits bits') hashes.
Proof.
  intros Hn. revert bits. induction hashes as [|h hashes IH]; intros bits Hb Hl; cbn [bloom_fill].
  { eexists. repeat split; try done. }
  unfold bloom_hashes at 1. set (h2 := Z.lor _ 1).
  destruct (forZ_Ok (fun j b => bytes_ok b /\ zlen b = zlen bits /\
      (forall p, 0 <= p -> bit_set bits p = true -> bit_set b p = true) /\
      (forall i, 0 <= i < j -> bit_set b (bloom_pos h h2 i nbits) = true))
    (fun j b => set_bit b (bloom_pos h h2 j nbits)) 0 BLOOM_K bits) as (b1 & -> & Hb1 & Hl1 & Hk1 & Hs1).
  - done.
  - intros j b Hj (H1 & H2 & H3 & H4).
    pose proof (bloom_pos_bound h h2 j nbits Hn).
    destruct (set_bit_spec b (bloom_pos h h2 j nbits)) as (b' & -> & H5 & H6 & H7); [done|lia|].
    eexists. split; [done|]. split; [done|]. split; [lia|]. split.
    + intros p Hp0 Hp. by rewrite H7, H3.
    + intros i Hi. pose proof (bloom_pos_bound h h2 i nbits Hn). rewrite H7 by lia.
      destruct (decide (i = j)) as [->|]; [by rewrite Z.eqb_refl, orb_true_r|]. rewrite H4 by lia. done.
  - repeat split; try done. intros i Hi. lia.
  - rewrite bind_Ok. destruct (IH b1 Hb1) as (b2 & -> & Hb2 & Hl2 & Hk2 & Hp2); [by rewrite Hl1|].
    eexists. split; [done|]. split; [done|]. split; [lia|]. split; [auto|].
    constructor; [|done]. intros j Hj. apply Hk2; [apply bloom_pos_bound; lia|]. by apply Hs1.
Qed.

(** The size is a power of two between the bounds. *)
Lemma next_pow2_spec x :
  exists e, 6 <= e <= 21 /\ next_pow2 x = Ok (2 ^ e).
Proof.
  unfold next_pow2, BLOOM_MIN_BITS.
  assert (H : forall fuel e, 6 <= e <= 21 -> (Z.of_nat fuel > 21 - e) ->
    exists e', 6 <= e' <= 21 /\ next_pow2_loop fuel (2 ^ e) x = Ok (2 ^ e')).
  { intros fuel. induction fuel as [|fuel IH]; intros e He Hf; [lia|]. cbn [next_pow2_loop].
    destruct (Z.ltb_spec (2 ^ e) BLOOM_MAX_BITS) as [Hlt|]; [|rewrite andb_false_r; eauto].
    destruct (2 ^ e <? x); [|eauto]. cbn [andb].
    change BLOOM_MAX_BITS with (2 ^ 21) in Hlt. apply Z.pow_lt_mono_r_iff in Hlt; [|lia|lia].
    replace (u32 (Z.shiftl (2 ^ e) 1)) with (2 ^ (e + 1)).
    - apply IH; lia.
    - rewrite Z.shiftl_mul_pow2 by lia. rewrite Z.pow_add_r by lia. unfold u32. rewrite Z.mod_small; [done|].
      rewrite <- Z.pow_add_r by lia. split; [lia|]. apply Z.pow_lt_mono_r; lia. }
  apply (H 16%nat 6); lia.
Qed.

Lemma bloom_test_present nbits bits h1 h2 k j :
  0 < nbits < 2 ^ 32 -> nbits <= 8 * zlen bits ->
  (forall i, j <= i < j + Z.of_nat k -> bit_set bits (bloom_pos h1 h2 i nbits) = true) ->
  bloom_test k j h1 h2 nbits bits = Ok true.
Proof.
  intros Hn Hl. revert j. induction k as [|k IH]; intros j Hs; cbn [bloom_test]; [done|].
  pose proof (bloom_pos_bound h1 h2 j nbits Hn) as Hp.
  rewrite rd1_Ok, bind_Ok by (by eapply pos_byte).
  specialize (Hs j ltac:(lia)) as Hj. unfold bit_set in Hj. pose proof (pos_bit (bloom_pos h1 h2 j nbits)) as Hm.
  rewrite land1_testbit, Hj by lia. cbn [negb]. apply IH. intros i Hi. apply Hs. lia.
Qed.

Lemma bloom_test_total nbits bits h1 h2 k j :
  0 < nbits < 2 ^ 32 -> nbits <= 8 * zlen bits ->
  exists b, bloom_test k j h1 h2 nbits bits = Ok b.
Proof.
  intros Hn Hl. revert j. induction k as [|k IH]; intros j; cbn [bloom_test]; [eauto|].
  rewrite rd1_Ok, bind_Ok by (eapply pos_byte; [by apply bloom_pos_bound|done]).
  destruct (_ =? 0); [eauto|apply IH].
Qed.

(** A probe finds the header it expects and tests the filter's bits. *)
Lemma probe_layout e bits h :
  6 <= e <= 21 -> zlen bits = 2 ^ e / 8 ->
  PgColumnarBloomProbe (le_bytes 4 (2 ^ e) ++ [BLOOM_K] ++ bits) h
  = bloom_test (Z.to_nat BLOOM_K) 0 (bloom_hashes h).1 (bloom_hashes h).2 (2 ^ e) bits.
Proof.
  intros He Hl. assert (Hpow : 2 ^ 6 <= 2 ^ e <= 2 ^ 21) by (split; apply Z.pow_le_mono_r; lia).
  assert (Hz : zlen (le_bytes 4 (2 ^ e) ++ [BLOOM_K] ++ bits) = 5 + zlen bits)
    by (rewrite !zlen_app, zlen_le_bytes; change (zlen [BLOOM_K]) with 1; lia).
  pose proof (zlen_nonneg bits). unfold PgColumnarBloomProbe. rewrite Hz.
  destruct (Z.ltb_spec (5 + zlen bits) 5); [lia|].
  rewrite rd_Ok, bind_Ok by (rewrite ?Hz; lia).
  change (drop (Z.to_nat 0) (le_bytes 4 (2 ^ e) ++ [BLOOM_K] ++ bits))
    with (le_bytes 4 (2 ^ e) ++ [BLOOM_K] ++ bits).
  rewrite take_app_le by (rewrite length_le_bytes; lia).
  rewrite (take_ge (le_bytes 4 (2 ^ e))) by (rewrite length_le_bytes; lia).
  rewrite le_uint_le_bytes_id by lia.
  rewrite rd1_Ok, bind_Ok by (rewrite ?Hz; lia).
  change (nthZ (le_bytes 4 (2 ^ e) ++ [BLOOM_K] ++ bits) 4) with BLOOM_K.
  change (drop 5 (le_bytes 4 (2 ^ e) ++ [BLOOM_K] ++ bits)) with bits.
  unfold u32. rewrite (Z.mod_small (2 ^ e - 1)), land_ones_mod, Z.mod_same by lia.
  destruct (Z.eqb_spec (2 ^ e) 0); [lia|]. cbn [orb negb Z.eqb].
  destruct (Z.ltb_spec (5 + zlen bits) (5 + (2 ^ e + 7) / 8)); [|done].
  div_bounds (2 ^ e + 7) 8. div_bounds (2 ^ e) 8.
  assert (E8 : 2 ^ e = 2 ^ (e - 3) * 8) by (change 8 with (2 ^ 3); rewrite <- Z.pow_add_r by lia; f_equal; lia).
  lia.
Qed.

(** Building ends; the filter it produces holds every hash. *)
Lemma bloom_build_spec `{HyperLogLog} (hashes : list Z) :
  exists o, PgColumnarBloomBuild hashes = Ok o /\
    forall bloom, o = Some bloom ->
      bytes_ok bloom /\ forall h, h ∈ hashes -> PgColumnarBloomProbe bloom h = Ok true.
Proof.
  unfold PgColumnarBloomBuild. destruct (_ <? 64); [by eexists|]. destruct (_ <? _); [by eexists|].
  destruct (next_pow2_spec (u32 (bloom_distinct_estimate hashes (zlen hashes) * BLOOM_BITS_PER_VALUE)))
    as (e & He & ->). rewrite bind_Ok.
  assert (Hpow : 2 ^ 6 <= 2 ^ e <= 2 ^ 21) by (split; apply Z.pow_le_mono_r; lia).
  assert (He8 : 2 ^ e = 8 * (2 ^ e / 8)).
  { replace (2 ^ e) with (2 ^ (e - 3) * 8) by (change 8 with (2 ^ 3); rewrite <- Z.pow_add_r by lia; f_equal; lia).
    rewrite Z.div_mul by lia. lia. }
  destruct (bloom_fill_spec (2 ^ e) hashes (replicate (Z.to_nat (2 ^ e / 8)) 0))
    as (bits & -> & Hb & Hl & _ & Hp).
  - lia.
  - apply Forall_replicate. done.
  - unfold zlen. rewrite length_replicate. lia.
  - rewrite bind_Ok. eexists. split; [done|]. intros bloom Ho. apply (inj Some) in Ho as <-.
    split; [rewrite <- app_assoc; apply Forall_app; split; [apply le_bytes_ok|constructor; done]|]. intros h Hin.
    unfold zlen in Hl at 2. rewrite length_replicate in Hl.
    rewrite <- app_assoc, probe_layout by lia. apply bloom_test_present; [lia|lia|].
    intros i Hi. rewrite Forall_forall in Hp. apply (Hp h); [by apply list_elem_of_In|].
    unfold BLOOM_K in *. lia.
Qed.

(** A probe ends on any filter bytes. *)
Lemma bloom_probe_total bloom hash : bytes_ok bloom -> exists b, PgColumnarBloomProbe bloom hash = Ok b.
Proof.
  intros Hb. unfold PgColumnarBloomProbe. destruct (Z.ltb_spec (zlen bloom) 5); [eauto|].
  rewrite rd_Ok, bind_Ok by lia. rewrite rd1_Ok, bind_Ok by lia.
  set (nb := le_uint _).
  assert (Hnb : 0 <= nb < 2 ^ 32).
  { unfold nb. pose proof (le_uint_bound _ (bytes_ok_sub bloom (Z.to_nat 0) (Z.to_nat 4) Hb)) as Hx.
    rewrite zlen_sub in Hx by (unfold zlen in *; lia). apply Hx. }
  destruct (Z.eqb_spec nb 0); [eauto|]. cbn [orb]. destruct (negb _); [eauto|].
  destruct (Z.ltb_spec (zlen bloom) (5 + (nb + 7) / 8)); [eauto|]. cbn [bloom_hashes].
  apply bloom_test_total; [lia|]. div_bounds (nb + 7) 8. unfold zlen in *. rewrite length_drop. lia.
Qed.

(** ** Theorems *)

(** No false negatives: building ends, and whatever filter it produces
    answers "may be present" for every hash the filter was built over,
    however far off the distinct-count estimate that sized it is. *)
Theorem bloom_no_false_negative `{HyperLogLog} (hashes : list Z) :
  exists o, PgColumnarBloomBuild hashes = Ok o /\
    forall bloom h, o = Some bloom -> h ∈ hashes -> PgColumnarBloomProbe bloom h = Ok true.
Proof.
  destruct (bloom_build_spec hashes) as (o & Ho & Hp). exists o. split; [done|].
  intros bloom h Hb. by apply Hp.
Qed.

(** A persisted filter is untrusted: on any bytes and any hash the probe
    ends with an answer, reading only bytes of the filter. *)
Theorem bloom_probe_safe (bloom : list Z) (hash : Z) :
  bytes_ok bloom -> exists b, PgColumnarBloomProbe bloom hash = Ok b.
Proof. apply bloom_probe_total. Qed.

Lemma bloom_probe_safe_witness :
  exists b, PgColumnarBloomProbe [0; 0; 0; 128; 6; 255] 77 = Ok b.
Proof.
  apply bloom_probe_safe. repeat constructor; vm_compute; congruence.
Defined.
