(* ===== verification/Compress.v ===== *)
(** * Block compression of value streams

    [columnar_compression.c]: the codec dispatch that compresses a whole
    encoded region before it is stored and reverses it on read.  The codecs
    themselves (PostgreSQL's pglz, and liblz4 and libzstd when the build has
    them) are parameters; [BlockCodecLaws] states what their documentation
    promises.  What the code adds is the policy (never store more bytes than
    the input, fall back to the input when a codec is missing, declines or
    fails) and the length checks on the way back. *)

From S2P Require Import Prelude BitPack Codec.

Definition COLUMNAR_COMPRESSION_NONE : Z := 0.
Definition COLUMNAR_COMPRESSION_PGLZ : Z := 1.
Definition COLUMNAR_COMPRESSION_LZ4 : Z := 2.
Definition COLUMNAR_COMPRESSION_ZSTD : Z := 3.

Definition INT32_MAX : Z := 2 ^ 31 - 1.

(** The third-party codecs.  A compressor returns the bytes it wrote to a
    destination of the given capacity, or [None] for its failure code; a
    decompressor is told the source length and the destination capacity. *)
Class BlockCodecs : Type := {
  HAVE_LIBLZ4 : bool;
  HAVE_LIBZSTD : bool;
  LZ4_MAX_INPUT_SIZE : Z;
  PGLZ_MAX_OUTPUT : Z -> Z;
  pglz_compress : list Z -> option (list Z);
  pglz_decompress : list Z -> Z -> Z -> option (list Z);
  LZ4_compressBound : Z -> Z;
  LZ4_compress_default : list Z -> Z -> option (list Z);
  LZ4_decompress_safe : list Z -> Z -> Z -> option (list Z);
  ZSTD_compressBound : Z -> option Z;
  ZSTD_compress : list Z -> Z -> Z -> option (list Z);
  ZSTD_decompress : list Z -> Z -> Z -> option (list Z)
}.

(** What the libraries document: a compressed block restores its input, a
    decompressor never writes past the capacity it was given, and the
    destination sizes the macros ask for stay close to the input's. *)
Class BlockCodecLaws (C : BlockCodecs) : Prop := {
  pglz_bytes : forall raw c, bytes_ok raw -> pglz_compress raw = Some c -> bytes_ok c;
  pglz_inverse : forall raw c, bytes_ok raw -> pglz_compress raw = Some c ->
    pglz_decompress c (zlen c) (zlen raw) = Some raw;
  pglz_capacity : forall c n cap out, pglz_decompress c n cap = Some out ->
    bytes_ok out /\ zlen out <= cap;
  pglz_bound : forall n, 0 <= n -> PGLZ_MAX_OUTPUT n <= n + n / 255 + 64;
  lz4_bytes : forall raw cap c, bytes_ok raw -> LZ4_compress_default raw cap = Some c -> bytes_ok c;
  lz4_inverse : forall raw cap c, bytes_ok raw -> LZ4_compress_default raw cap = Some c ->
    LZ4_decompress_safe c (zlen c) (zlen raw) = Some raw;
  lz4_capacity : forall c n cap out, LZ4_decompress_safe c n cap = Some out ->
    bytes_ok out /\ zlen out <= cap;
  lz4_bound : forall n, 0 <= n -> LZ4_compressBound n <= n + n / 255 + 64;
  zstd_bytes : forall raw cap lvl c, bytes_ok raw -> ZSTD_compress raw cap lvl = Some c -> bytes_ok c;
  zstd_inverse : forall raw cap lvl c, bytes_ok raw -> ZSTD_compress raw cap lvl = Some c ->
    ZSTD_decompress c (zlen c) (zlen raw) = Some raw;
  zstd_capacity : forall c n cap out, ZSTD_decompress c n cap = Some out ->
    bytes_ok out /\ zlen out <= cap;
  zstd_bound : forall n b, 0 <= n -> ZSTD_compressBound n = Some b -> b <= n + n / 255 + 64
}.

(** A compressed stream as the caller receives it. *)
Record compressed := mkComp { outData : list Z; usedType : Z; usedLevel : Z }.

Section Codecs.
Context `{BlockCodecs}.

Definition try_pglz (raw : list Z) (rawLen : Z) : option (list Z) :=
  if (rawLen =? 0) || (INT32_MAX <? rawLen) then None
  else
    match pglz_compress raw with
    | None => None
    | Some c => if rawLen <=? zlen c then None else Some c
    end.

Definition try_lz4 (raw : list Z) (rawLen destCap : Z) : option (list Z) :=
  if (rawLen =? 0) || (u32 LZ4_MAX_INPUT_SIZE <? rawLen) then None
  else
    match LZ4_compress_default raw destCap with
    | None => None
    | Some c => if rawLen <=? zlen c then None else Some c
    end.

Definition try_zstd (raw : list Z) (rawLen destCap level : Z) : option (list Z) :=
  if rawLen =? 0 then None
  else
    match ZSTD_compress raw destCap level with
    | None => None
    | Some c => if (rawLen <=? zlen c) || (INT32_MAX <? zlen c) then None else Some c
    end.

(** One arm of the switch: the codec's output, if it ran and helped. *)
Definition run_codec (raw : list Z) (rawLen requestedType level : Z) : res (option compressed) :=
  if requestedType =? COLUMNAR_COMPRESSION_PGLZ then
    _ ← palloc (PGLZ_MAX_OUTPUT rawLen);
    Ok ((fun c => mkComp c COLUMNAR_COMPRESSION_PGLZ 0) <$> try_pglz raw rawLen)
  else if requestedType =? COLUMNAR_COMPRESSION_LZ4 then
    if HAVE_LIBLZ4 then
      let cap := LZ4_compressBound (s32 rawLen) in
      if 0 <? cap then
        _ ← palloc cap;
        Ok ((fun c => mkComp c COLUMNAR_COMPRESSION_LZ4 0) <$> try_lz4 raw rawLen cap)
      else Ok None
    else Ok None
  else if requestedType =? COLUMNAR_COMPRESSION_ZSTD then
    if HAVE_LIBZSTD then
      match ZSTD_compressBound rawLen with
      | None => Ok None
      | Some cap =>
          _ ← palloc cap;
          Ok ((fun c => mkComp c COLUMNAR_COMPRESSION_ZSTD level) <$> try_zstd raw rawLen cap level)
      end
    else Ok None
  else Ok None.

Definition PgColumnarCompressValueStream (raw : list Z) (rawLen requestedType level : Z)
    : res compressed :=
  if rawLen =? 0 then Ok (mkComp [] COLUMNAR_COMPRESSION_NONE 0)
  else
    o ← run_codec raw rawLen requestedType level;
    match o with
    | Some c => Ok c
    | None =>
        _ ← palloc rawLen;
        data ← rd raw 0 rawLen;
        Ok (mkComp data COLUMNAR_COMPRESSION_NONE 0)
    end.

(** The codec's bytes in the destination buffer, or the error that follows a
    length other than [rawLen]. *)
Definition expect_len (o : option (list Z)) (rawLen : Z) (msg : string) : res (list Z) :=
  match o with
  | Some out => if zlen out =? rawLen then Ok out else Err msg
  | None => Err msg
  end.

Definition PgColumnarDecompressValueStream (comp : list Z) (compLen compressionType rawLen : Z)
    : res (list Z) :=
  if rawLen =? 0 then Ok []
  else
    _ ← palloc rawLen;
    if compressionType =? COLUMNAR_COMPRESSION_NONE then
      if negb (compLen =? rawLen) then Err "columnar: uncompressed stream length does not match expected"
      else rd comp 0 rawLen
    else if compressionType =? COLUMNAR_COMPRESSION_PGLZ then
      expect_len (pglz_decompress comp (s32 compLen) (s32 rawLen)) rawLen
        "columnar: pglz decompression produced the wrong length"
    else if compressionType =? COLUMNAR_COMPRESSION_LZ4 then
      if HAVE_LIBLZ4 then
        expect_len (LZ4_decompress_safe comp (s32 compLen) (s32 rawLen)) rawLen
          "columnar: lz4 decompression produced the wrong length"
      else Err "columnar: this build was compiled without lz4 support, but a chunk requires it"
    else if compressionType =? COLUMNAR_COMPRESSION_ZSTD then
      if HAVE_LIBZSTD then
        expect_len (ZSTD_decompress comp compLen rawLen) rawLen
          "columnar: zstd decompression failed or produced the wrong length"
      else Err "columnar: this build was compiled without zstd support, but a chunk requires it"
    else Err "columnar: unknown compression type".
End Codecs.

(** The size below which no destination buffer exceeds the allocation limit. *)
Definition compressible (n : Z) : Prop := 0 <= n /\ n + n / 255 + 64 <= MaxAllocSize.

Lemma compressible_le n m : 0 <= m <= n -> compressible n -> compressible m.
Proof.
  intros Hm [H1 H2]. split; [lia|]. pose proof (Z.div_le_mono m n 255 ltac:(lia) ltac:(lia)). lia.
Qed.

Section CodecProofs.
Context `{HL : BlockCodecLaws}.

Lemma try_pglz_Some raw c :
  try_pglz raw (zlen raw) = Some c -> pglz_compress raw = Some c /\ zlen c < zlen raw.
Proof using.
  unfold try_pglz. destruct (_ || _); [done|]. destruct (pglz_compress raw) as [c'|]; [|done].
  destruct (Z.leb_spec (zlen raw) (zlen c')); [done|]. by intros [= ->].
Qed.

Lemma try_lz4_Some raw cap c :
  try_lz4 raw (zlen raw) cap = Some c -> LZ4_compress_default raw cap = Some c /\ zlen c < zlen raw.
Proof using.
  unfold try_lz4. destruct (_ || _); [done|]. destruct (LZ4_compress_default raw cap) as [c'|]; [|done].
  destruct (Z.leb_spec (zlen raw) (zlen c')); [done|]. by intros [= ->].
Qed.

Lemma try_zstd_Some raw cap lvl c :
  try_zstd raw (zlen raw) cap lvl = Some c -> ZSTD_compress raw cap lvl = Some c /\ zlen c < zlen raw.
Proof using.
  unfold try_zstd. destruct (_ =? _); [done|]. destruct (ZSTD_compress raw cap lvl) as [c'|]; [|done].
  destruct (Z.leb_spec (zlen raw) (zlen c')); [done|]. destruct (_ <? _); [done|]. by intros [= ->].
Qed.

(** A stored stream: no longer than the input, tagged NONE exactly when it is
    the input, and restored by the decompressor. *)
Definition stored_ok (raw : list Z) (c : compressed) : Prop :=
  bytes_ok (outData c) /\
  (if usedType c =? COLUMNAR_COMPRESSION_NONE then outData c = raw
   else zlen (outData c) < zlen raw) /\
  PgColumnarDecompressValueStream (outData c) (zlen (outData c)) (usedType c) (zlen raw) = Ok raw.

Lemma expect_len_Ok raw msg : expect_len (Some raw) (zlen raw) msg = Ok raw.
Proof using. unfold expect_len. by rewrite Z.eqb_refl. Qed.

Lemma run_codec_spec raw requestedType level :
  bytes_ok raw -> zlen raw <> 0 -> compressible (zlen raw) ->
  exists o, run_codec raw (zlen raw) requestedType level = Ok o /\
    forall c, o = Some c -> stored_ok raw c.
Proof using HL.
  intros Hb Hz [H0 Hc]. unfold MaxAllocSize in Hc. assert (Hsz : 0 <= zlen raw / 255) by (apply Z.div_pos; lia).
  unfold run_codec. destruct (Z.eqb_spec requestedType COLUMNAR_COMPRESSION_PGLZ).
  { pose proof (pglz_bound (zlen raw) H0). rewrite palloc_Ok, bind_Ok by (unfold MaxAllocSize; lia).
    eexists. split; [done|]. intros c Ho. apply fmap_Some in Ho as (d & Hd & ->).
    apply try_pglz_Some in Hd as [Hd Hl]. split; [by eapply pglz_bytes|]. split; [done|].
    unfold PgColumnarDecompressValueStream. cbn [outData usedType].
    destruct (Z.eqb_spec (zlen raw) 0); [done|]. rewrite palloc_Ok, bind_Ok by (unfold MaxAllocSize; lia).
    cbn [Z.eqb COLUMNAR_COMPRESSION_NONE COLUMNAR_COMPRESSION_PGLZ Pos.eqb].
    rewrite !s32_small by (pose proof (zlen_nonneg d); lia).
    rewrite (pglz_inverse raw d) by done. apply expect_len_Ok. }
  destruct (Z.eqb_spec requestedType COLUMNAR_COMPRESSION_LZ4).
  { destruct HAVE_LIBLZ4 eqn:Eh; [|by eexists]. rewrite s32_small by lia.
    destruct (0 <? _); [|by eexists].
    pose proof (lz4_bound (zlen raw) H0). rewrite palloc_Ok, bind_Ok by (unfold MaxAllocSize; lia).
    eexists. split; [done|]. intros c Ho. apply fmap_Some in Ho as (d & Hd & ->).
    apply try_lz4_Some in Hd as [Hd Hl]. split; [by eapply lz4_bytes|]. split; [done|].
    unfold PgColumnarDecompressValueStream. cbn [outData usedType]. rewrite Eh.
    destruct (Z.eqb_spec (zlen raw) 0); [done|]. rewrite palloc_Ok, bind_Ok by (unfold MaxAllocSize; lia).
    cbn [Z.eqb COLUMNAR_COMPRESSION_NONE COLUMNAR_COMPRESSION_PGLZ COLUMNAR_COMPRESSION_LZ4 Pos.eqb].
    rewrite !s32_small by (pose proof (zlen_nonneg d); lia).
    erewrite (lz4_inverse raw) by done. apply expect_len_Ok. }
  destruct (Z.eqb_spec requestedType COLUMNAR_COMPRESSION_ZSTD); [|by eexists].
  destruct HAVE_LIBZSTD eqn:Eh; [|by eexists].
  destruct (ZSTD_compressBound (zlen raw)) as [cap|] eqn:Ec; [|by eexists].
  pose proof (zstd_bound (zlen raw) cap H0 Ec). rewrite palloc_Ok, bind_Ok by (unfold MaxAllocSize; lia).
  eexists. split; [done|]. intros c Ho. apply fmap_Some in Ho as (d & Hd & ->).
  apply try_zstd_Some in Hd as [Hd Hl]. split; [by eapply zstd_bytes|]. split; [done|].
  unfold PgColumnarDecompressValueStream. cbn [outData usedType]. rewrite Eh.
  destruct (Z.eqb_spec (zlen raw) 0); [done|]. rewrite palloc_Ok, bind_Ok by (unfold MaxAllocSize; lia).
  cbn [Z.eqb COLUMNAR_COMPRESSION_NONE COLUMNAR_COMPRESSION_PGLZ COLUMNAR_COMPRESSION_LZ4 COLUMNAR_COMPRESSION_ZSTD Pos.eqb].
  erewrite (zstd_inverse raw) by done. apply expect_len_Ok.
Qed.

Lemma compress_spec raw requestedType level :
  bytes_ok raw -> compressible (zlen raw) ->
  exists c, PgColumnarCompressValueStream raw (zlen raw) requestedType level = Ok c /\ stored_ok raw c.
Proof using HL.
  intros Hb Hc. unfold PgColumnarCompressValueStream. destruct (Z.eqb_spec (zlen raw) 0) as [Hz|Hz].
  - assert (raw = []) as -> by (destruct raw; [done|unfold zlen in Hz; simpl in Hz; lia]).
    eexists. split; [done|]. split; [constructor|]. done.
  - destruct (run_codec_spec raw requestedType level Hb Hz Hc) as (o & -> & Ho). rewrite bind_Ok.
    destruct o as [c|]; [exists c; split; [done|by apply Ho]|].
    destruct Hc as [H0 Hc]. assert (0 <= zlen raw / 255) by (apply Z.div_pos; lia).
    rewrite palloc_Ok, bind_Ok by lia. rewrite rd_Ok, bind_Ok by lia.
    change (drop (Z.to_nat 0) raw) with raw. rewrite take_ge by (unfold zlen; lia).
    eexists. split; [done|]. split; [done|]. split; [done|].
    unfold PgColumnarDecompressValueStream. cbn [outData usedType].
    destruct (Z.eqb_spec (zlen raw) 0); [done|]. rewrite palloc_Ok, bind_Ok by lia.
    cbn [Z.eqb COLUMNAR_COMPRESSION_NONE]. rewrite Z.eqb_refl. cbn [negb]. rewrite rd_Ok by lia.
    change (drop (Z.to_nat 0) raw) with raw. by rewrite take_ge by (unfold zlen; lia).
Qed.

Lemma decompress_safe_lemma comp t rawLen :
  bytes_ok comp ->
  decode_safe rawLen (PgColumnarDecompressValueStream comp (zlen comp) t rawLen).
Proof using HL.
  intros Hb. unfold PgColumnarDecompressValueStream, decode_safe.
  destruct (Z.eqb_spec rawLen 0) as [->|Hz]; [split; [constructor|done]|].
  destruct (palloc_cases rawLen) as [-> | [m ->]]; [|done]. rewrite bind_Ok.
  assert (He : forall o msg, (forall out, o = Some out -> bytes_ok out) ->
    safe (fun raw => bytes_ok raw /\ zlen raw = rawLen) (expect_len o rawLen msg)).
  { intros [out|] msg Ho; cbn; [|done]. destruct (Z.eqb_spec (zlen out) rawLen); [|done].
    split; [by apply Ho|done]. }
  destruct (t =? COLUMNAR_COMPRESSION_NONE).
  { destruct (Z.eqb_spec (zlen comp) rawLen) as [<-|]; [|done]. cbn [negb].
    rewrite rd_Ok by (pose proof (zlen_nonneg comp); lia).
    change (drop (Z.to_nat 0) comp) with comp. by rewrite take_ge by (unfold zlen; lia). }
  destruct (t =? COLUMNAR_COMPRESSION_PGLZ).
  { apply He. intros out Ho. by apply pglz_capacity in Ho as []. }
  destruct (t =? COLUMNAR_COMPRESSION_LZ4).
  { destruct HAVE_LIBLZ4; [|done]. apply He. intros out Ho. by apply lz4_capacity in Ho as []. }
  destruct (t =? COLUMNAR_COMPRESSION_ZSTD); [|done].
  destruct HAVE_LIBZSTD; [|done]. apply He. intros out Ho. by apply zstd_capacity in Ho as [].
Qed.
End CodecProofs.

(** A codec to run the dispatch on: a stream of one repeated byte becomes that
    byte, and the destination size gives the length back. *)
Definition run_compress (raw : list Z) : option (list Z) :=
  match raw with
  | b :: _ => if decide (Forall (fun x => x = b) raw) then Some [b] else None
  | [] => None
  end.

Definition run_decompress (c : list Z) (n cap : Z) : option (list Z) :=
  match c with
  | [b] => if decide (byte_ok b /\ 0 <= cap) then Some (replicate (Z.to_nat cap) b) else None
  | _ => None
  end.

Definition run_codecs : BlockCodecs := {|
  HAVE_LIBLZ4 := true; HAVE_LIBZSTD := false; LZ4_MAX_INPUT_SIZE := 2113929216;
  PGLZ_MAX_OUTPUT := fun n => n + 4; pglz_compress := run_compress; pglz_decompress := run_decompress;
  LZ4_compressBound := fun n => if n <? 0 then 0 else n + n / 255 + 16;
  LZ4_compress_default := fun raw _ => run_compress raw; LZ4_decompress_safe := run_decompress;
  ZSTD_compressBound := fun _ => None; ZSTD_compress := fun _ _ _ => None;
  ZSTD_decompress := fun _ _ _ => None |}.

Lemma run_inverse raw c :
  bytes_ok raw -> run_compress raw = Some c ->
  bytes_ok c /\ run_decompress c (zlen c) (zlen raw) = Some raw.
Proof.
  unfold run_compress, run_decompress. destruct raw as [|b r]; [done|]. intros Hb.
  destruct (decide _) as [Hall|]; [|done]. intros [= <-].
  inversion Hb as [|x l Hx Hl]; subst. split; [by constructor|].
  rewrite decide_True by (split; [done|apply zlen_nonneg]). f_equal.
  unfold zlen. rewrite Nat2Z.id. apply replicate_as_Forall_2; [done|].
  eapply Forall_weaken; [exact Hall|]. by intros x ->.
Qed.

Lemma run_capacity c n cap out :
  run_decompress c n cap = Some out -> bytes_ok out /\ zlen out <= cap.
Proof.
  unfold run_decompress. destruct c as [|b [|]]; try done. destruct (decide _) as [[Hb Hc]|]; [|done].
  intros [= <-]. split; [by apply Forall_replicate|]. unfold zlen. rewrite length_replicate. lia.
Qed.

Lemma run_codecs_laws : BlockCodecLaws run_codecs.
Proof.
  split; cbn; try done.
  - intros raw c Hb Hc. by apply (run_inverse raw c).
  - intros raw c Hb Hc. by apply (run_inverse raw c).
  - apply run_capacity.
  - intros n Hn. pose proof (Z.div_pos n 255 Hn ltac:(lia)). lia.
  - intros raw cap c Hb Hc. by apply (run_inverse raw c).
  - intros raw cap c Hb Hc. by apply (run_inverse raw c).
  - apply run_capacity.
  - intros n Hn. destruct (Z.ltb_spec n 0); lia.
Qed.

(** ** Theorems *)

(** Block compression loses nothing and never grows a stream: for every
    requested codec and level, compressing returns bytes no longer than the
    input, which are the input itself when the stream is tagged NONE and
    strictly fewer bytes otherwise, and decompressing them under the codec
    recorded for them restores the input. *)
Theorem compress_roundtrip `{BlockCodecLaws} (raw : list Z) (requestedType level : Z) :
  bytes_ok raw -> compressible (zlen raw) ->
  exists c, PgColumnarCompressValueStream raw (zlen raw) requestedType level = Ok c /\
    bytes_ok (outData c) /\
    (if usedType c =? COLUMNAR_COMPRESSION_NONE then outData c = raw
     else zlen (outData c) < zlen raw) /\
    PgColumnarDecompressValueStream (outData c) (zlen (outData c)) (usedType c) (zlen raw) = Ok raw.
Proof. apply compress_spec. Qed.

Section Example_compress_roundtrip_witness.
#[local] Existing Instance run_codecs.
#[local] Existing Instance run_codecs_laws.

Lemma compress_roundtrip_witness :
exists c, PgColumnarCompressValueStream [7; 7; 7; 7] (zlen [7; 7; 7; 7]) COLUMNAR_COMPRESSION_LZ4 3 = Ok c /\
  bytes_ok (outData c) /\
  (if usedType c =? COLUMNAR_COMPRESSION_NONE then outData c = [7; 7; 7; 7]
   else zlen (outData c) < zlen [7; 7; 7; 7]) /\
  PgColumnarDecompressValueStream (outData c) (zlen (outData c)) (usedType c) (zlen [7; 7; 7; 7])
  = Ok [7; 7; 7; 7].
Proof.
apply (compress_roundtrip [7; 7; 7; 7] COLUMNAR_COMPRESSION_LZ4 3).
- repeat constructor; vm_compute; congruence.
- split; vm_compute; congruence.
Defined.
End Example_compress_roundtrip_witness.

(** Decompressing bytes nobody vouches for: an unknown or missing codec,
    a decoder failure or any length other than the one expected is an error;
    otherwise the result is exactly [rawLen] bytes. *)
Theorem decompress_safe `{BlockCodecLaws} (comp : list Z) (compressionType rawLen : Z) :
  bytes_ok comp ->
  decode_safe rawLen (PgColumnarDecompressValueStream comp (zlen comp) compressionType rawLen).
Proof. apply decompress_safe_lemma. Qed.

Section Example_decompress_safe_witness.
#[local] Existing Instance run_codecs.
#[local] Existing Instance run_codecs_laws.

Lemma decompress_safe_witness :
decode_safe 9 (PgColumnarDecompressValueStream [1; 2] (zlen [1; 2]) COLUMNAR_COMPRESSION_ZSTD 9).
Proof. apply (decompress_safe [1; 2]). repeat constructor; vm_compute; congruence. Defined.
End Example_decompress_safe_witness.
