(* ===== verification/FsstPolicy.v ===== *)
(** * When a column chunk gets a symbol table

    The two questions the writer asks before it commits a varlena column chunk
    to FSST: [PgColumnarFsstDictWins] (few enough distinct values for a
    dictionary, so do not build a table) and [PgColumnarFsstHelpsCompressed]
    (does the table still pay after the block codec).  The first is shown to
    count distinct value hashes exactly; the second to decide on compressed
    sizes with the table charged to FSST. *)

From S2P Require Import Prelude BitPack Codec OpenAddr Varlena Dict Fsst Compress.

(** ** The distinct probe *)

Definition gate_key (slots : list (option Z)) (s : Z) : option Z :=
  match slots !! Z.to_nat s with Some (Some h) => Some h | _ => None end.

Definition filled_slot (o : option Z) : Prop := o <> None.
#[local] Instance filled_slot_dec o : Decision (filled_slot o).
Proof. unfold filled_slot. apply _. Defined.

(** The table holds exactly the hashes [ds]. *)
Record gate_rep (ds : list Z) (slots : list (option Z)) : Prop := {
  gr_len : zlen slots = cap 12;
  gr_count : length (filter filled_slot slots) = length ds;
  gr_max : zlen ds <= DICT_MAX_DISTINCT;
  gr_inv : oa_inv id 12 (gate_key slots);
  gr_mem : forall h, h ∈ ds <-> exists s, 0 <= s < cap 12 /\ gate_key slots s = Some h
}.

Definition add_hash (ds : list Z) (h : Z) : list Z := if decide (h ∈ ds) then ds else h :: ds.

Lemma gate_rep_init : gate_rep [] (replicate (Z.to_nat FSST_CARD_SLOTS) None).
Proof.
  assert (Hk : forall s, gate_key (replicate (Z.to_nat FSST_CARD_SLOTS) None) s = None).
  { intros s. unfold gate_key. destruct (_ !! _) as [o|] eqn:E; [|done].
    apply lookup_replicate in E as [-> _]. done. }
  split.
  - unfold zlen. by rewrite length_replicate.
  - rewrite filter_none; [done|]. unfold filled_slot. by intros [].
  - done.
  - apply oa_inv_empty. intros s _. apply Hk.
  - intros h. rewrite elem_of_nil. split; [done|]. intros (s & _ & Hs). by rewrite Hk in Hs.
Qed.

Section Gate.
Context (ds : list Z) (slots : list (option Z)) (HR : gate_rep ds slots).

Lemma gate_hole : exists e, 0 <= e < cap 12 /\ gate_key slots e = None.
Proof using HR.
  destruct (filter_lt_hole filled_slot slots) as (i & o & Ho & Hn).
  - rewrite (gr_count _ _ HR). pose proof (gr_max _ _ HR). pose proof (gr_len _ _ HR).
    unfold DICT_MAX_DISTINCT, zlen, cap in *. lia.
  - exists (Z.of_nat i). pose proof (lookup_lt_Some _ _ _ Ho). pose proof (gr_len _ _ HR).
    split; [unfold zlen in *; lia|]. unfold gate_key. rewrite Nat2Z.id, Ho.
    destruct o; [|done]. by destruct Hn.
Qed.

Lemma gate_key_insert s h s' :
  0 <= s < cap 12 -> 0 <= s' ->
  gate_key (<[Z.to_nat s := Some h]> slots) s' = if decide (s' = s) then Some h else gate_key slots s'.
Proof using HR.
  intros Hs Hs'. unfold gate_key. pose proof (gr_len _ _ HR). unfold zlen in *.
  destruct (decide (s' = s)) as [->|]; [by rewrite list_lookup_insert_eq by lia|].
  by rewrite list_lookup_insert_ne by lia.
Qed.

Lemma gate_add s h :
  0 <= s < cap 12 -> gate_key slots s = None -> reached id 12 (gate_key slots) h s ->
  zlen ds < DICT_MAX_DISTINCT -> gate_rep (h :: ds) (<[Z.to_nat s := Some h]> slots).
Proof using HR.
  intros Hs Hemp Hr Hmax. pose proof HR as [Hl Hc _ Hinv Hm]. split.
  - unfold zlen in *. by rewrite length_insert.
  - destruct (lookup_lt_is_Some_2 slots (Z.to_nat s)) as [o Ho]; [unfold zlen in *; lia|].
    rewrite (filter_insert_new filled_slot _ _ o); [simpl; by rewrite Hc|done| |done].
    unfold gate_key in Hemp. rewrite Ho in Hemp. unfold filled_slot. destruct o; [done|]. by intros [].
  - unfold zlen in *. simpl. lia.
  - eapply (oa_inv_insert id 12); [lia|exact Hinv|exact Hr|exact Hemp|].
    intros s' Hs'. apply gate_key_insert; lia.
  - intros h'. rewrite elem_of_cons, Hm. split.
    + intros [->|(s' & Hs' & Hk)].
      * exists s. split; [done|]. rewrite gate_key_insert by lia. by rewrite decide_True.
      * exists s'. split; [done|]. rewrite gate_key_insert by lia. destruct (decide (s' = s)) as [->|]; congruence.
    + intros (s' & Hs' & Hk). rewrite gate_key_insert in Hk by lia.
      destruct (decide (s' = s)); [left; congruence|right; eauto].
Qed.
End Gate.

Lemma add_hash_le hs ds : zlen ds <= zlen (foldl add_hash ds hs).
Proof.
  revert ds. induction hs as [|h hs IH]; intros ds; simpl; [lia|].
  etrans; [|apply IH]. unfold add_hash. destruct (decide _); [lia|]. unfold zlen. simpl. lia.
Qed.

Lemma gate_probe_start h : u32 (Z.land h (FSST_CARD_SLOTS - 1)) = Z.land (id h) (cap 12 - 1).
Proof.
  unfold FSST_CARD_SLOTS, cap, u32, id. change (4096 - 1) with (2 ^ 12 - 1). rewrite land_ones_mod by lia.
  apply Z.mod_small. pose proof (mod_pow2_bound h 12 ltac:(lia)). lia.
Qed.

Lemma dict_wins_loop_spec `{VarattExternal} att vals : forall fuel pre ds slots,
  attlen att = -1 -> Forall (value_ok att) vals -> zlen (pre ++ concat vals) < 2 ^ 31 ->
  gate_rep ds slots -> (length vals < fuel)%nat ->
  dict_wins_loop fuel (pre ++ concat vals) (zlen (pre ++ concat vals)) (zlen pre) (zlen ds) slots
  = Ok (zlen (foldl add_hash ds (pgcolumnar_fnv1a <$> vals)) <=? DICT_MAX_DISTINCT).
Proof.
  induction vals as [|v vals IH]; intros fuel pre ds slots Ha Hv Hz HR Hf;
    (destruct fuel as [|fuel]; [simpl in Hf; lia|]); cbn [dict_wins_loop concat].
  { rewrite app_nil_r. destruct (Z.ltb_spec (zlen pre) (zlen pre)); [lia|]. simpl.
    by rewrite (proj2 (Z.leb_le _ _) (gr_max _ _ HR)). }
  inversion Hv as [|? ? Hv1 Hv2]; subst. pose proof (value_ok_pos _ _ Hv1) as Hpos.
  cbn [concat] in Hz. rewrite !zlen_app in Hz. pose proof (zlen_nonneg (concat vals)). pose proof (zlen_nonneg pre).
  destruct (Z.ltb_spec (zlen pre) (zlen (pre ++ v ++ concat vals))) as [_|Hbad];
    [|rewrite !zlen_app in Hbad; lia].
  assert (Hiv : inline_varlena v = true).
  { destruct Hv1 as [_ Hv1]. rewrite Ha in Hv1. by destruct Hv1. }
  replace (drop (Z.to_nat (zlen pre)) (pre ++ v ++ concat vals)) with (v ++ concat vals)
    by (unfold zlen; by rewrite Nat2Z.id, drop_app_length).
  rewrite inline_varlena_size, bind_Ok by done.
  destruct (Z.eqb_spec (zlen v) 0); [lia|]. cbn [orb].
  unfold u32 at 1. rewrite Z.mod_small by lia. rewrite !zlen_app.
  destruct (Z.ltb_spec (zlen pre + (zlen v + zlen (concat vals))) (zlen pre + zlen v)); [lia|].
  rewrite rd_middle, bind_Ok. set (h := pgcolumnar_fnv1a v). rewrite gate_probe_start.
  destruct (probe_spec id 12 ltac:(lia) (gate_key slots) h
    (fun s => match slots !! Z.to_nat s with
              | None => Oob | Some None => Ok Empty
              | Some (Some h') => Ok (if h' =? h then Hit else Next) end)
    (Z.to_nat FSST_CARD_SLOTS)) as (s & b & Hp & Hs & Hb).
  - intros s Hs. unfold slot_test, gate_key. pose proof (gr_len _ _ HR). unfold zlen in *.
    destruct (lookup_lt_is_Some_2 slots (Z.to_nat s)) as [o Ho]; [lia|]. rewrite Ho.
    destruct o as [h'|]; [|done]. f_equal. destruct (Z.eqb_spec h' h); by destruct (decide (h' = h)).
  - apply (gr_inv _ _ HR).
  - by apply (gate_hole ds).
  - done.
  - change (FSST_CARD_SLOTS - 1) with (cap 12 - 1). rewrite Hp, bind_Ok. cbn [fst snd].
    unfold u32. rewrite Z.mod_small by lia.
    assert (Hmem : h ∈ ds <-> b = true).
    { rewrite (gr_mem _ _ HR). destruct b; split; try done.
      - intros _. by exists s.
      - intros (s' & Hs' & Hk). by destruct Hb as (_ & _ & Hno), (Hno s' Hs'). }
    cbn [foldl fmap list_fmap]. unfold add_hash at 2.
    rewrite (app_assoc pre v), <- !zlen_app, (app_assoc pre v). destruct b.
    + rewrite decide_True by (by apply Hmem).
      apply IH; try done; [rewrite !zlen_app; lia|simpl in Hf; lia].
    + rewrite decide_False by (intros Hin; apply Hmem in Hin; done).
      destruct Hb as (Hemp & Hr & _). fold h.
      replace (zlen ds + 1) with (zlen (h :: ds)) by (unfold zlen; simpl; lia).
      destruct (Z.ltb_spec DICT_MAX_DISTINCT (zlen (h :: ds))) as [Hgt|Hle].
      * symmetry. f_equal. apply Z.leb_gt. eapply Z.lt_le_trans; [exact Hgt|apply add_hash_le].
      * apply IH; try done; [rewrite !zlen_app; lia| |simpl in Hf; lia].
        apply (gate_add _ _ HR); try done. unfold zlen in *. simpl in Hle. lia.
Qed.

Lemma add_hash_set hs ds :
  NoDup ds -> NoDup (foldl add_hash ds hs) /\ forall h, h ∈ foldl add_hash ds hs <-> h ∈ ds \/ h ∈ hs.
Proof.
  revert ds. induction hs as [|h hs IH]; intros ds Hd; simpl.
  { split; [done|]. intros h. rewrite elem_of_nil. intuition (subst; tauto). }
  unfold add_hash at 2 4. destruct (decide (h ∈ ds)) as [Hin|Hn].
  - destruct (IH ds Hd) as [H1 H2]. split; [done|]. intros h'. rewrite H2, elem_of_cons. intuition (subst; tauto).
  - destruct (IH (h :: ds)) as [H1 H2]; [by constructor|]. split; [done|]. intros h'. rewrite H2, !elem_of_cons. intuition (subst; tauto).
Qed.

Lemma add_hash_dups hs : zlen (foldl add_hash [] hs) = zlen (remove_dups hs).
Proof.
  destruct (add_hash_set hs []) as [H1 H2]; [constructor|].
  unfold zlen. f_equal. apply Permutation_length, NoDup_Permutation; [done|apply NoDup_remove_dups|].
  intros h. rewrite H2, elem_of_remove_dups, elem_of_nil. intuition (subst; tauto).
Qed.

Lemma length_concat_vals att vals : Forall (value_ok att) vals -> zlen vals <= zlen (concat vals).
Proof.
  induction 1 as [|v vals Hv _ IH]; [done|]. cbn [concat]. rewrite zlen_app. pose proof (value_ok_pos _ _ Hv).
  unfold zlen in *. simpl. lia.
Qed.

Lemma dict_wins_spec `{VarattExternal} att vals :
  attlen att = -1 -> Forall (value_ok att) vals -> zlen (concat vals) < 2 ^ 31 ->
  PgColumnarFsstDictWins (concat vals) (zlen (concat vals))
  = Ok (zlen (remove_dups (pgcolumnar_fnv1a <$> vals)) <=? DICT_MAX_DISTINCT).
Proof.
  intros Ha Hv Hz. unfold PgColumnarFsstDictWins. rewrite <- add_hash_dups.
  apply (dict_wins_loop_spec att vals _ [] []); try done.
  - apply gate_rep_init.
  - pose proof (length_concat_vals att vals Hv). unfold zlen in *. lia.
Qed.

(** ** The verdict on compressed sizes *)

Section Verdict.
Context `{BlockCodecs} (fsst_min_gain_percent : Z).

Definition PgColumnarFsstHelpsCompressed (corpus : list Z) (corpusLen : Z) (table : list Z)
    (compressionType compressionLevel : Z) : res bool :=
  if compressionType =? COLUMNAR_COMPRESSION_NONE then Ok true
  else
    o ← encode_fsst_shared corpus corpusLen table;
    match o with
    | None => Ok false
    | Some codes =>
        plain ← PgColumnarCompressValueStream corpus corpusLen compressionType compressionLevel;
        comp ← PgColumnarCompressValueStream codes (zlen codes) compressionType compressionLevel;
        Ok (u64 ((zlen (outData comp) + zlen table) * 100)
            <? u64 (zlen (outData plain) * u64 (100 - fsst_min_gain_percent)))
    end.
End Verdict.

Section VerdictProofs.
Context `{HL : BlockCodecLaws} (gain : Z) (Hgain : 0 <= gain <= 99).

(** The question is always answered. *)
Lemma helps_compressed_spec corpus table t ctype level :
  bytes_ok corpus -> compressible (zlen corpus) -> bytes_ok table -> zlen table < 2 ^ 32 ->
  fsst_deserialize_table table = Ok t ->
  exists b, PgColumnarFsstHelpsCompressed gain corpus (zlen corpus) table ctype level = Ok b /\
    (b = true -> ctype <> COLUMNAR_COMPRESSION_NONE ->
     exists codes plain comp,
       encode_fsst_shared corpus (zlen corpus) table = Ok (Some codes) /\
       PgColumnarCompressValueStream corpus (zlen corpus) ctype level = Ok plain /\
       PgColumnarCompressValueStream codes (zlen codes) ctype level = Ok comp /\
       zlen (outData comp) + zlen table < zlen (outData plain)).
Proof using HL Hgain.
  intros Hb Hc Htb H32 Ht. unfold PgColumnarFsstHelpsCompressed.
  destruct (Z.eqb_spec ctype COLUMNAR_COMPRESSION_NONE) as [->|Hne]; [by eexists|].
  pose proof Hc as [Hc0 Hc1]. unfold MaxAllocSize in Hc1.
  assert (0 <= zlen corpus / 255) by (apply Z.div_pos; lia).
  destruct (encode_fsst_spec corpus table t) as (o & -> & Ho); try done; [unfold MaxAllocSize; lia|].
  rewrite bind_Ok. destruct o as [codes|]; [|by eexists]. destruct Ho as (Hcb & Hlt & _).
  destruct (compress_spec corpus ctype level Hb Hc) as (plain & Hp & _ & Hpl & _). rewrite Hp, bind_Ok.
  destruct (compress_spec codes ctype level Hcb) as (comp & Hq & _ & Hql & _).
  { eapply compressible_le; [|exact Hc]. pose proof (zlen_nonneg codes). lia. }
  rewrite Hq, bind_Ok. eexists. split; [done|]. intros Hlt64%Z.ltb_lt _.
  exists codes, plain, comp. split; [done|]. split; [done|]. split; [done|].
  assert (Hp' : 0 <= zlen (outData plain) < 2 ^ 30).
  { pose proof (zlen_nonneg (outData plain)). destruct (_ =? _) in Hpl; [rewrite Hpl in *|]; lia. }
  assert (Hq' : 0 <= zlen (outData comp) < 2 ^ 30).
  { pose proof (zlen_nonneg (outData comp)). destruct (_ =? _) in Hql; [rewrite Hql in *|]; lia. }
  pose proof (zlen_nonneg table). unfold u64 in Hlt64.
  rewrite (Z.mod_small (100 - gain)) in Hlt64 by lia.
  rewrite !Z.mod_small in Hlt64 by nia. nia.
Qed.
End VerdictProofs.

(** ** Theorems *)

(** The distinct value hashes of a corpus. *)
Definition distinct_hashes (vals : list (list Z)) : list Z := remove_dups (pgcolumnar_fnv1a <$> vals).

(** The gate in front of the table build counts exactly: on any corpus of
    inline varlena values it ends, and it answers "the dictionary wins" if and
    only if the values have at most 1024 distinct hashes. *)
Theorem dict_gate_counts_distinct `{VarattExternal} (att : Form_pg_attribute) (vals : list (list Z)) :
  attlen att = -1 -> Forall (value_ok att) vals -> zlen (concat vals) < 2 ^ 31 ->
  PgColumnarFsstDictWins (concat vals) (zlen (concat vals))
  = Ok (zlen (distinct_hashes vals) <=? 1024).
Proof. apply dict_wins_spec. Qed.

Section Example_dict_gate_counts_distinct_witness.
#[local] Existing Instance varatt_external_none.

Lemma dict_gate_counts_distinct_witness :
let vals := [[7; 97; 98]; [5; 97]; [7; 97; 98]] in
PgColumnarFsstDictWins (concat vals) (zlen (concat vals))
= Ok (zlen (distinct_hashes vals) <=? 1024).
Proof.
intros vals. apply (dict_gate_counts_distinct (mkAtt false (-1) 25) vals).
- reflexivity.
- repeat constructor; vm_compute; congruence.
- vm_compute. reflexivity.
Defined.
End Example_dict_gate_counts_distinct_witness.

(** A kept table pays for itself: over any corpus that compresses, the
    verdict is always reached without error, and when a block codec is
    configured and the verdict is to keep FSST, the compressed codes together
    with the symbol table are strictly smaller than the compressed text. *)
Theorem fsst_verdict_saves `{BlockCodecLaws} (gain : Z) (corpus table : list Z) (t : FsstTable)
    (ctype level : Z) :
  0 <= gain <= 99 ->
  bytes_ok corpus -> compressible (zlen corpus) -> bytes_ok table -> zlen table < 2 ^ 32 ->
  fsst_deserialize_table table = Ok t ->
  exists b, PgColumnarFsstHelpsCompressed gain corpus (zlen corpus) table ctype level = Ok b /\
    (b = true -> ctype <> COLUMNAR_COMPRESSION_NONE ->
     exists codes plain comp,
       encode_fsst_shared corpus (zlen corpus) table = Ok (Some codes) /\
       PgColumnarCompressValueStream corpus (zlen corpus) ctype level = Ok plain /\
       PgColumnarCompressValueStream codes (zlen codes) ctype level = Ok comp /\
       zlen (outData comp) + zlen table < zlen (outData plain)).
Proof. intros Hg. by apply helps_compressed_spec. Qed.

Section Example_fsst_verdict_saves_witness.
#[local] Existing Instance run_codecs.
#[local] Existing Instance run_codecs_laws.

Lemma fsst_verdict_saves_witness :
let corpus := concat (replicate 20 [97; 98; 99; 100]) in
let table := [1; 4; 97; 98; 99; 100] in
exists b, PgColumnarFsstHelpsCompressed 5 corpus (zlen corpus) table COLUMNAR_COMPRESSION_LZ4 1 = Ok b /\
  (b = true -> COLUMNAR_COMPRESSION_LZ4 <> COLUMNAR_COMPRESSION_NONE ->
   exists codes plain comp,
     encode_fsst_shared corpus (zlen corpus) table = Ok (Some codes) /\
     PgColumnarCompressValueStream corpus (zlen corpus) COLUMNAR_COMPRESSION_LZ4 1 = Ok plain /\
     PgColumnarCompressValueStream codes (zlen codes) COLUMNAR_COMPRESSION_LZ4 1 = Ok comp /\
     zlen (outData comp) + zlen table < zlen (outData plain)).
Proof.
intros corpus table. apply (fsst_verdict_saves 5 corpus table [mkSym 1684234849 4]).
- lia.
- repeat constructor; vm_compute; congruence.
- split; vm_compute; congruence.
- repeat constructor; vm_compute; congruence.
- vm_compute. congruence.
- vm_compute. reflexivity.
Defined.
End Example_fsst_verdict_saves_witness.
