(* ===== verification/Encdesc.v ===== *)
(** * The encoding descriptor

    [columnar_encdesc.h]: the bytes that tell a reader how each 1024-value
    vector of a column chunk was encoded.  Header (version, flags, vector
    count), one 13-byte entry per vector, then the chunk-shared FSST table
    behind its length. *)

From S2P Require Import Prelude BitPack Codec.

Definition COLUMNAR_NATIVE_ENCDESC_BASELINE : Z := 0.
Definition COLUMNAR_NATIVE_ENCDESC_VERSION : Z := 3.
Definition COLUMNAR_NATIVE_ENCDESC_MIN_READABLE : Z := 2.
Definition COLUMNAR_ENCDESC_FLAG_NO_VALIDITY : Z := 1.
Definition COLUMNAR_NATIVE_ENCDESC_HEADER_LEN : Z := 6.
Definition COLUMNAR_NATIVE_ENCDESC_ENTRY_LEN : Z := 13.
Definition COLUMNAR_NATIVE_ENCDESC_SHARED_LEN_BYTES : Z := 4.

Record PgColumnarEncdescEntry := mkEntry { etype : Z; evalueCount : Z; erawLen : Z; eencLen : Z }.

Definition PgColumnarEncdescPutHeaderFlags (desc : list Z) (vectorCount flags : Z) : list Z :=
  desc ++ [COLUMNAR_NATIVE_ENCDESC_VERSION] ++ [u8 flags] ++ le_bytes 4 vectorCount.

Definition PgColumnarEncdescPutEntry (desc : list Z) (e : PgColumnarEncdescEntry) : list Z :=
  desc ++ [u8 (etype e)] ++ le_bytes 4 (evalueCount e) ++ le_bytes 4 (erawLen e) ++ le_bytes 4 (eencLen e).

Definition PgColumnarEncdescVersionSupported (desc : list Z) : res bool :=
  v ← rd1 desc 0;
  Ok ((COLUMNAR_NATIVE_ENCDESC_MIN_READABLE <=? v) && (v <=? COLUMNAR_NATIVE_ENCDESC_VERSION)).

(** [desc == NULL] is [None]. *)
Definition PgColumnarEncdescOmitsValidity (desc : option (list Z)) : res bool :=
  match desc with
  | None => Ok false
  | Some desc =>
      if zlen desc <? COLUMNAR_NATIVE_ENCDESC_HEADER_LEN then Ok false
      else
        v ← rd1 desc 0;
        if v =? COLUMNAR_NATIVE_ENCDESC_BASELINE then Ok false
        else
          f ← rd1 desc 1;
          Ok (negb (Z.land f COLUMNAR_ENCDESC_FLAG_NO_VALIDITY =? 0))
  end.

(** [memcpy(&x, desc + off, sizeof(uint32))] *)
Definition rd_u32 (desc : list Z) (off : Z) : res Z := b ← rd desc off 4; Ok (le_uint b).

Definition PgColumnarEncdescReadVectorCount (desc : list Z) : res Z := rd_u32 desc 2.

Definition PgColumnarEncdescReadEntry (desc : list Z) (dp : Z) : res (PgColumnarEncdescEntry * Z) :=
  t ← rd1 desc dp;
  vc ← rd_u32 desc (dp + 1);
  rl ← rd_u32 desc (dp + 5);
  el ← rd_u32 desc (dp + 9);
  Ok (mkEntry t vc rl el, dp + COLUMNAR_NATIVE_ENCDESC_ENTRY_LEN).

Definition PgColumnarEncdescTotalValueCount (desc : option (list Z)) : res Z :=
  match desc with
  | None => Ok (-1)
  | Some desc =>
      if zlen desc <? COLUMNAR_NATIVE_ENCDESC_HEADER_LEN then Ok (-1)
      else
        vectorCount ← PgColumnarEncdescReadVectorCount desc;
        let entriesEnd := COLUMNAR_NATIVE_ENCDESC_HEADER_LEN
                          + vectorCount * COLUMNAR_NATIVE_ENCDESC_ENTRY_LEN in
        if zlen desc <? entriesEnd then Ok (-1)
        else
          total ← forZ 0 vectorCount (fun i total =>
            vc ← rd_u32 desc (COLUMNAR_NATIVE_ENCDESC_HEADER_LEN
                              + i * COLUMNAR_NATIVE_ENCDESC_ENTRY_LEN + 1);
            Ok (u64 (total + vc))) 0;
          Ok (s64 total)
  end.

(** ** The layout *)

Definition entry_ok (e : PgColumnarEncdescEntry) : Prop :=
  byte_ok (etype e) /\ 0 <= evalueCount e < 2 ^ 32 /\ 0 <= erawLen e < 2 ^ 32 /\ 0 <= eencLen e < 2 ^ 32.

Definition entry_bytes (e : PgColumnarEncdescEntry) : list Z := PgColumnarEncdescPutEntry [] e.

(** A whole descriptor, as the writer appends it. *)
Definition encdesc (flags : Z) (es : list PgColumnarEncdescEntry) (table : list Z) : list Z :=
  PgColumnarEncdescPutHeaderFlags [] (zlen es) flags ++ concat (entry_bytes <$> es)
  ++ le_bytes 4 (zlen table) ++ table.

Lemma put_entry_app desc e : PgColumnarEncdescPutEntry desc e = desc ++ entry_bytes e.
Proof. done. Qed.

Lemma zlen_entry_bytes e : zlen (entry_bytes e) = 13.
Proof. done. Qed.

Lemma zlen_entries es : zlen (concat (entry_bytes <$> es)) = 13 * zlen es.
Proof.
  induction es as [|e es IH]; [done|]. cbn [fmap list_fmap concat]. rewrite zlen_app, IH.
  change (zlen (entry_bytes e)) with 13. unfold zlen. simpl. lia.
Qed.

Lemma zlen_header vc flags : zlen (PgColumnarEncdescPutHeaderFlags [] vc flags) = 6.
Proof. done. Qed.

Lemma encdesc_len flags es table : zlen (encdesc flags es table) = 6 + 13 * zlen es + 4 + zlen table.
Proof.
  unfold encdesc. rewrite !zlen_app, zlen_entries, zlen_le_bytes, zlen_header. lia.
Qed.

Lemma entry_bytes_ok e : bytes_ok (entry_bytes e).
Proof.
  unfold entry_bytes, PgColumnarEncdescPutEntry. cbn [app].
  constructor; [apply mod_pow2_bound; lia|]. repeat apply Forall_app_2; apply le_bytes_ok.
Qed.

Lemma encdesc_ok flags es table : bytes_ok table -> bytes_ok (encdesc flags es table).
Proof.
  intros Ht. unfold encdesc. apply Forall_app_2.
  - unfold PgColumnarEncdescPutHeaderFlags. cbn [app].
    constructor; [done|]. constructor; [apply mod_pow2_bound; lia|]. apply le_bytes_ok.
  - repeat apply Forall_app_2; try done; [|apply le_bytes_ok].
    apply Forall_concat, Forall_fmap, Forall_true. intros e. apply entry_bytes_ok.
Qed.

(** ** Reading the layout back *)

(** A 32-bit field in the middle of a buffer. *)
Lemma rd_u32_at pre v post off :
  off = zlen pre -> 0 <= v < 2 ^ 32 -> rd_u32 (pre ++ le_bytes 4 v ++ post) off = Ok v.
Proof.
  intros -> Hv. unfold rd_u32. rewrite (rd_at pre (le_bytes 4 v) post) by (done || by rewrite zlen_le_bytes).
  rewrite bind_Ok, le_uint_le_bytes_id by (change (8 * Z.of_nat 4) with 32; lia). done.
Qed.

Lemma rd1_at pre b post off : off = zlen pre -> rd1 (pre ++ b :: post) off = Ok b.
Proof.
  intros ->. pose proof (zlen_nonneg pre). rewrite rd1_Ok.
  - unfold nthZ, zlen. rewrite Nat2Z.id, nth_middle. done.
  - rewrite zlen_app. unfold zlen. simpl. lia.
Qed.

Lemma read_entry_at pre e post :
  entry_ok e ->
  PgColumnarEncdescReadEntry (pre ++ entry_bytes e ++ post) (zlen pre) = Ok (e, zlen pre + 13).
Proof.
  intros (H1 & H2 & H3 & H4). unfold PgColumnarEncdescReadEntry, entry_bytes, PgColumnarEncdescPutEntry.
  cbn [app]. rewrite rd1_at, bind_Ok by done. unfold u8. rewrite (Z.mod_small _ (2 ^ 8)) by apply H1.
  set (t := etype e).
  replace (pre ++ t :: (le_bytes 4 (evalueCount e) ++ le_bytes 4 (erawLen e) ++ le_bytes 4 (eencLen e)) ++ post)
    with ((pre ++ [t]) ++ le_bytes 4 (evalueCount e) ++ (le_bytes 4 (erawLen e) ++ le_bytes 4 (eencLen e) ++ post))
    by (by rewrite <- !app_assoc).
  rewrite (rd_u32_at _ (evalueCount e) _ (zlen pre + 1)), bind_Ok by (done || zlens).
  rewrite (app_assoc (pre ++ [t])).
  rewrite (rd_u32_at _ (erawLen e) _ (zlen pre + 5)), bind_Ok by (done || zlens).
  rewrite (app_assoc _ (le_bytes 4 (erawLen e))).
  rewrite (rd_u32_at _ (eencLen e) _ (zlen pre + 9)), bind_Ok by (done || zlens).
  by destruct e.
Qed.

Lemma sum_values_bound l :
  Forall entry_ok l -> 0 <= foldr Z.add 0 (evalueCount <$> l) <= zlen l * 2 ^ 32.
Proof.
  induction 1 as [|e l (_ & He & _) _ IH]; [done|]. cbn. unfold zlen in *. simpl length. lia.
Qed.

Section Fields.
Context (flags : Z) (es : list PgColumnarEncdescEntry) (table : list Z).
Context (Hes : Forall entry_ok es) (Hn : zlen es < 2 ^ 32) (Htab : zlen table < 2 ^ 32).

Lemma encdesc_version : PgColumnarEncdescVersionSupported (encdesc flags es table) = Ok true.
Proof using. done. Qed.

Lemma encdesc_vector_count : PgColumnarEncdescReadVectorCount (encdesc flags es table) = Ok (zlen es).
Proof using Hn.
  unfold PgColumnarEncdescReadVectorCount, encdesc, PgColumnarEncdescPutHeaderFlags. cbn [app].
  change (?a :: ?b :: le_bytes 4 (zlen es) ++ ?r) with ([a; b] ++ le_bytes 4 (zlen es) ++ r).
  apply rd_u32_at; [done|]. pose proof (zlen_nonneg es). lia.
Qed.

(** The descriptor around entry [i]. *)
Lemma encdesc_split i e :
  es !! i = Some e ->
  exists pre post, encdesc flags es table = pre ++ entry_bytes e ++ post /\ zlen pre = 6 + 13 * Z.of_nat i.
Proof using.
  intros Hi. pose proof (take_drop_middle es i e Hi) as Hs. pose proof (lookup_lt_Some _ _ _ Hi).
  exists (PgColumnarEncdescPutHeaderFlags [] (zlen es) flags ++ concat (entry_bytes <$> take i es)),
    (concat (entry_bytes <$> drop (S i) es) ++ le_bytes 4 (zlen table) ++ table).
  split.
  - unfold encdesc. rewrite <- Hs at 2. rewrite fmap_app, concat_app. cbn [fmap list_fmap concat].
    by rewrite <- !app_assoc.
  - rewrite zlen_app, zlen_header, zlen_entries. unfold zlen. rewrite length_take. lia.
Qed.

Lemma encdesc_entry i e :
  es !! i = Some e ->
  PgColumnarEncdescReadEntry (encdesc flags es table) (6 + 13 * Z.of_nat i)
  = Ok (e, 6 + 13 * Z.of_nat (S i)).
Proof using Hes.
  intros Hi. destruct (encdesc_split i e Hi) as (pre & post & -> & Hpre). rewrite <- Hpre.
  rewrite read_entry_at by (by apply (Forall_lookup_1 _ _ _ _ Hes Hi)). f_equal. f_equal. lia.
Qed.

Lemma encdesc_shared_len :
  rd_u32 (encdesc flags es table) (6 + zlen es * 13) = Ok (zlen table).
Proof using Htab.
  unfold encdesc. rewrite app_assoc. apply rd_u32_at.
  - rewrite zlen_app, zlen_header, zlen_entries. lia.
  - pose proof (zlen_nonneg table). lia.
Qed.

Lemma encdesc_table : drop (Z.to_nat (6 + zlen es * 13 + 4)) (encdesc flags es table) = table.
Proof using.
  unfold encdesc. rewrite (app_assoc _ (le_bytes 4 (zlen table))), app_assoc.
  replace (Z.to_nat (6 + zlen es * 13 + 4)) with
    (length (PgColumnarEncdescPutHeaderFlags [] (zlen es) flags ++ concat (entry_bytes <$> es) ++ le_bytes 4 (zlen table))).
  - apply drop_app_length.
  - apply Nat2Z.inj. change (Z.of_nat (length ?l)) with (zlen l).
    rewrite !zlen_app, zlen_header, zlen_entries, zlen_le_bytes. pose proof (zlen_nonneg es). lia.
Qed.

Lemma encdesc_omits :
  byte_ok flags ->
  PgColumnarEncdescOmitsValidity (Some (encdesc flags es table)) = Ok (Z.testbit flags 0).
Proof using.
  intros Hf. unfold PgColumnarEncdescOmitsValidity. rewrite encdesc_len.
  pose proof (zlen_nonneg es). pose proof (zlen_nonneg table). unfold COLUMNAR_NATIVE_ENCDESC_HEADER_LEN.
  destruct (Z.ltb_spec (6 + 13 * zlen es + 4 + zlen table) 6); [lia|].
  rewrite (rd1_Ok _ 0), (rd1_Ok _ 1) by (rewrite encdesc_len; lia). rewrite !bind_Ok.
  change (nthZ (encdesc flags es table) 0) with 3. change (nthZ (encdesc flags es table) 1) with (u8 flags).
  cbn [COLUMNAR_NATIVE_ENCDESC_BASELINE Z.eqb].
  unfold u8, COLUMNAR_ENCDESC_FLAG_NO_VALIDITY. rewrite (Z.mod_small flags) by apply Hf.
  f_equal. change 1 with (2 ^ 1 - 1). rewrite land_ones_mod by lia. rewrite <- Z.bit0_mod.
  by destruct (Z.testbit flags 0).
Qed.

Lemma encdesc_total :
  PgColumnarEncdescTotalValueCount (Some (encdesc flags es table))
  = Ok (s64 (u64 (foldr Z.add 0 (evalueCount <$> es)))).
Proof using Hes Hn.
  unfold PgColumnarEncdescTotalValueCount. rewrite encdesc_vector_count, encdesc_len.
  pose proof (zlen_nonneg es). pose proof (zlen_nonneg table).
  unfold COLUMNAR_NATIVE_ENCDESC_HEADER_LEN, COLUMNAR_NATIVE_ENCDESC_ENTRY_LEN.
  destruct (Z.ltb_spec (6 + 13 * zlen es + 4 + zlen table) 6); [lia|]. rewrite bind_Ok.
  destruct (Z.ltb_spec (6 + 13 * zlen es + 4 + zlen table) (6 + zlen es * 13)); [lia|].
  match goal with |- context [forZ 0 _ ?f 0] =>
    destruct (forZ_Ok (fun i t => t = u64 (foldr Z.add 0 (evalueCount <$> take (Z.to_nat i) es)))
      f 0 (zlen es) 0) as (t & -> & ->) end.
  - done.
  - intros i t Hi ->. destruct (lookup_lt_is_Some_2 es (Z.to_nat i)) as [e He]; [unfold zlen in *; lia|].
    destruct (encdesc_split _ _ He) as (pre & post & -> & Hpre).
    pose proof (Forall_lookup_1 _ _ _ _ Hes He) as (_ & Hv & _).
    unfold entry_bytes, PgColumnarEncdescPutEntry. cbn [app]. rewrite <- !app_assoc.
    replace (pre ++ u8 (etype e) :: le_bytes 4 (evalueCount e) ++ le_bytes 4 (erawLen e) ++ le_bytes 4 (eencLen e) ++ post)
      with ((pre ++ [u8 (etype e)]) ++ le_bytes 4 (evalueCount e) ++ (le_bytes 4 (erawLen e) ++ le_bytes 4 (eencLen e) ++ post))
      by (by rewrite <- app_assoc).
    rewrite rd_u32_at by (done || zlens). rewrite bind_Ok. eexists. split; [done|].
    replace (Z.to_nat (i + 1)) with (S (Z.to_nat i)) by lia.
    rewrite (take_S_r _ _ _ He), fmap_app, foldr_app. cbn. unfold u64.
    rewrite Zplus_mod_idemp_l. f_equal.
    assert (Hfold : forall l x, foldr Z.add (x + 0) l = foldr Z.add 0 l + x).
    { intros l x. induction l as [|y l IHl]; cbn; [lia|]. rewrite IHl. lia. }
    rewrite Hfold. done.
  - done.
  - rewrite bind_Ok, take_ge by (unfold zlen; lia). done.
Qed.
End Fields.

(** The walk over the entries stays inside the descriptor. *)
Lemma total_value_count_safe desc :
  match desc with None => True | Some d => bytes_ok d end ->
  exists t, PgColumnarEncdescTotalValueCount desc = Ok t.
Proof.
  destruct desc as [d|]; [|by eexists]. intros Hb. unfold PgColumnarEncdescTotalValueCount.
  unfold COLUMNAR_NATIVE_ENCDESC_HEADER_LEN, COLUMNAR_NATIVE_ENCDESC_ENTRY_LEN.
  destruct (Z.ltb_spec (zlen d) 6); [by eexists|].
  unfold PgColumnarEncdescReadVectorCount, rd_u32. rewrite (rd_Ok d 2 4) by lia. rewrite !bind_Ok.
  set (vc := le_uint _).
  assert (Hvc : 0 <= vc) by (apply le_uint_bound, bytes_ok_sub, Hb).
  destruct (Z.ltb_spec (zlen d) (6 + vc * 13)); [by eexists|].
  match goal with |- context [forZ 0 vc ?f 0] =>
    destruct (forZ_Ok (fun _ _ => True) f 0 vc 0) as (t & -> & _) end; try done; [|by eexists].
  intros i st Hi _. rewrite rd_Ok by lia. by eexists.
Qed.

(** ** Theorems *)

(** The descriptor round-trips field by field: whatever entries, flags and
    shared table the writer appends, the readers find a supported version, the
    same vector count, every entry at its stride, the total of the value
    counts, the no-validity flag and the table. *)
Theorem encdesc_roundtrip (flags : Z) (es : list PgColumnarEncdescEntry) (table : list Z) :
  byte_ok flags -> Forall entry_ok es -> zlen es < 2 ^ 31 -> zlen table < 2 ^ 32 ->
  let desc := encdesc flags es table in
  PgColumnarEncdescVersionSupported desc = Ok true /\
  PgColumnarEncdescReadVectorCount desc = Ok (zlen es) /\
  (forall i e, es !! i = Some e ->
     PgColumnarEncdescReadEntry desc (6 + 13 * Z.of_nat i) = Ok (e, 6 + 13 * Z.of_nat (S i))) /\
  PgColumnarEncdescTotalValueCount (Some desc) = Ok (foldr Z.add 0 (evalueCount <$> es)) /\
  PgColumnarEncdescOmitsValidity (Some desc) = Ok (Z.testbit flags 0) /\
  rd desc (6 + zlen es * 13 + 4) (zlen table) = Ok table.
Proof.
  intros Hf Hes Hn Ht desc. pose proof (zlen_nonneg es). pose proof (zlen_nonneg table).
  split; [done|]. split; [apply encdesc_vector_count; lia|]. split; [by apply encdesc_entry|].
  split; [|split; [by apply encdesc_omits|]].
  - unfold desc. rewrite encdesc_total by (done || lia). f_equal.
    pose proof (sum_values_bound es Hes). unfold s64, u64. set (t := foldr _ _ _) in *.
    rewrite (Z.mod_small t) by lia. rewrite Z.mod_small by lia. lia.
  - rewrite rd_Ok by (unfold desc; rewrite ?encdesc_len; lia). unfold desc. rewrite encdesc_table.
    by rewrite take_ge by (unfold zlen; lia).
Qed.

Lemma encdesc_roundtrip_witness :
  let es := [mkEntry 2 1024 4096 700; mkEntry 0 9 36 36] in
  let desc := encdesc 1 es [1; 1; 97] in
  PgColumnarEncdescVersionSupported desc = Ok true /\
  PgColumnarEncdescReadVectorCount desc = Ok (zlen es) /\
  (forall i e, es !! i = Some e ->
     PgColumnarEncdescReadEntry desc (6 + 13 * Z.of_nat i) = Ok (e, 6 + 13 * Z.of_nat (S i))) /\
  PgColumnarEncdescTotalValueCount (Some desc) = Ok (foldr Z.add 0 (evalueCount <$> es)) /\
  PgColumnarEncdescOmitsValidity (Some desc) = Ok (Z.testbit 1 0) /\
  rd desc (6 + zlen es * 13 + 4) (zlen [1; 1; 97]) = Ok [1; 1; 97].
Proof.
  intros es. apply (encdesc_roundtrip 1 es [1; 1; 97]); [done| |done|done].
  repeat constructor; vm_compute; congruence.
Defined.
