(* ===== verification/Flush.v ===== *)
(** * Writing a column chunk

    [flush_one_column] of [columnar_write_state.c], for the bytes it stores:
    the validity bitmap (or the flag that there is none), the chunk-shared
    FSST table and the cached verdict on it, each vector encoded with its
    descriptor entry, the block codec over the whole encoded region, and the
    choice between the encoded and the unencoded region once both are
    compressed.  The zone-map rows and the bloom filter the same function
    returns beside the chunk are not part of this file. *)

From S2P Require Import Prelude BitPack BitStream Codec IntCodecs Varlena Dict.
From S2P Require Import Fsst Chunk BitSet Compress FsstPolicy Encdesc.

(** One column's streams within one chunk group, and the group's row count. *)
Record ColumnChunkBuffer := mkCol { valueStream : list Z; existsStream : list Z; valueCount : Z }.
Record ChunkGroupBuffer := mkGroup { rowCount : Z; column : ColumnChunkBuffer }.

Definition COLUMNAR_ENCODE_EFFORT_FAST : Z := 1.
Definition COLUMNAR_FSST_UNKNOWN : Z := 0.
Definition COLUMNAR_FSST_HELPS : Z := 1.
Definition COLUMNAR_FSST_HURTS : Z := 2.
Definition COLUMNAR_FSST_DECIDE_CAP : Z := 4 * 1024 * 1024.

(** The settings the flush reads. *)
Record settings := mkSettings {
  fsst_verdict_reuse : Z;
  fsst_min_gain_percent : Z;
  encoding_sample_rows : Z;
  post_codec_encoding_choice : bool
}.

(** The cached verdict of the column definition. *)
Record verdict := mkVerdict { fsstVerdict : Z; fsstVerdictAge : Z }.

Record FlushColumnResult := mkFlush {
  fchunk : list Z; fdescriptor : list Z; fblockCodec : Z
}.

(** ** The validity bitmap *)

(** [for (i = 0; i < group->rowCount; i++, rowIdx++)] *)
Definition flush_group_validity (g : ChunkGroupBuffer) (st : list Z * Z * Z) : res (list Z * Z * Z) :=
  forZ 0 (rowCount g) (fun i st =>
    let '(validity, rowIdx, presentCount) := st in
    b ← rd1 (existsStream (column g)) i;
    if negb (b =? 0) then
      validity ← set_bit validity rowIdx;
      Ok (validity, rowIdx + 1, presentCount + 1)
    else Ok (validity, rowIdx + 1, presentCount)) st.

Fixpoint flush_validity (groups : list ChunkGroupBuffer) (st : list Z * Z * Z) : res (list Z * Z * Z) :=
  match groups with
  | [] => Ok st
  | g :: rest => st ← flush_group_validity g st; flush_validity rest st
  end.

(** ** The chunk-shared table *)

(** The corpus and the length of its training prefix. *)
Fixpoint gather_corpus (groups : list ChunkGroupBuffer) (corpus : list Z) (sampleLen : Z)
    : list Z * Z :=
  match groups with
  | [] => (corpus, sampleLen)
  | g :: rest =>
      let corpus := corpus ++ valueStream (column g) in
      let sampleLen := if (sampleLen =? 0) && (262144 <=? zlen corpus) then zlen corpus else sampleLen in
      if COLUMNAR_FSST_DECIDE_CAP <=? zlen corpus then (corpus, sampleLen)
      else gather_corpus rest corpus sampleLen
  end.

Section Flush.
Context `{PgBitutils} `{VarattExternal} `{BlockCodecs}.
Context (cfg : settings) (att : Form_pg_attribute).

Definition flush_fsst_table (groups : list ChunkGroupBuffer) (encodeEffort : Z)
    (compressionType compressionLevel : Z) (def : verdict) : res (option (list Z) * verdict) :=
  if negb (attlen att =? -1) then Ok (None, def)
  else
    let '(corpus, sampleLen0) := gather_corpus groups [] 0 in
    let sampleLen := if sampleLen0 =? 0 then zlen corpus else sampleLen0 in
    let reuseVerdict := (0 <? fsst_verdict_reuse cfg)
                        && negb (fsstVerdict def =? COLUMNAR_FSST_UNKNOWN)
                        && (fsstVerdictAge def <? fsst_verdict_reuse cfg) in
    let reuseHurts := reuseVerdict && (fsstVerdict def =? COLUMNAR_FSST_HURTS) in
    fsstTable ←
      (if (0 <? zlen corpus) && negb (encodeEffort =? COLUMNAR_ENCODE_EFFORT_FAST) && negb reuseHurts
       then
         wins ← PgColumnarFsstDictWins corpus (zlen corpus);
         if (wins : bool) then Ok None
         else PgColumnarFsstBuildChunkTable (take (Z.to_nat sampleLen) corpus) sampleLen att
       else Ok None);
    match (fsstTable : option (list Z)) with
    | Some table =>
        if reuseVerdict then
          let def := mkVerdict (fsstVerdict def) (fsstVerdictAge def + 1) in
          Ok (if fsstVerdict def =? COLUMNAR_FSST_HELPS then Some table else None, def)
        else
          helps ← PgColumnarFsstHelpsCompressed (fsst_min_gain_percent cfg) corpus (zlen corpus)
                    table compressionType compressionLevel;
          let def := mkVerdict (if (helps : bool) then COLUMNAR_FSST_HELPS else COLUMNAR_FSST_HURTS) 0 in
          Ok (if helps then Some table else None, def)
    | None =>
        if reuseHurts then Ok (None, mkVerdict (fsstVerdict def) (fsstVerdictAge def + 1))
        else Ok (None, def)
    end.

(** ** The vectors *)

(** [encoded], [desc], [rawRegion] and [rawDesc] after the loop. *)
Record regions := mkRegions {
  rencoded : list Z; rdesc : list Z; rrawRegion : list Z; rrawDesc : list Z
}.

Fixpoint flush_vectors (groups : list ChunkGroupBuffer) (table : option (list Z)) (st : regions)
    : res regions :=
  match groups with
  | [] => Ok st
  | g :: rest =>
      let col := column g in
      let len := zlen (valueStream col) in
      ' (encType, enc) ← PgColumnarEncodeChunk (encoding_sample_rows cfg) (valueStream col) len att
                          (valueCount col) table;
      let st := mkRegions
        (rencoded st ++ enc)
        (PgColumnarEncdescPutEntry (rdesc st)
           (mkEntry (u8 encType) (u32 (valueCount col)) (u32 len) (zlen enc)))
        (if post_codec_encoding_choice cfg then rrawRegion st ++ valueStream col else rrawRegion st)
        (if post_codec_encoding_choice cfg
         then PgColumnarEncdescPutEntry (rrawDesc st)
                (mkEntry COLUMNAR_ENCODING_NONE (u32 (valueCount col)) (u32 len) (u32 len))
         else rrawDesc st) in
      flush_vectors rest table st
  end.

(** ** The block codec *)

(** The stored value region, its descriptor and its codec. *)
Definition flush_block_codec (st : regions) (compressionType compressionLevel : Z)
    : res (list Z * list Z * Z) :=
  if negb (compressionType =? COLUMNAR_COMPRESSION_NONE) && (0 <? zlen (rencoded st)) then
    c ← PgColumnarCompressValueStream (rencoded st) (zlen (rencoded st)) compressionType compressionLevel;
    let '(finalData, blockCodec) :=
      if negb (usedType c =? COLUMNAR_COMPRESSION_NONE) then (outData c, usedType c)
      else (rencoded st, COLUMNAR_COMPRESSION_NONE) in
    if post_codec_encoding_choice cfg && (zlen (rencoded st) <? zlen (rrawRegion st)) then
      rc ← PgColumnarCompressValueStream (rrawRegion st) (zlen (rrawRegion st)) compressionType
             compressionLevel;
      let rawFinalLen := if negb (usedType rc =? COLUMNAR_COMPRESSION_NONE)
                         then zlen (outData rc) else zlen (rrawRegion st) in
      if rawFinalLen <? zlen finalData then
        Ok (if negb (usedType rc =? COLUMNAR_COMPRESSION_NONE)
            then (outData rc, rrawDesc st, usedType rc)
            else (rrawRegion st, rrawDesc st, COLUMNAR_COMPRESSION_NONE))
      else Ok (finalData, rdesc st, blockCodec)
    else Ok (finalData, rdesc st, blockCodec)
  else Ok (rencoded st, rdesc st, COLUMNAR_COMPRESSION_NONE).

(** ** The column chunk *)

(** [generated] is [att->attgenerated == 'v']: a virtual generated column
    stores no chunk at all. *)
Definition flush_one_column (generated : bool) (groups : list ChunkGroupBuffer) (def : verdict)
    (rowCount validityBytes : Z) (encodeEffort compressionType compressionLevel : Z)
    : res (option FlushColumnResult * verdict) :=
  if generated then Ok (None, def) else
  ' (validity, _, presentCount) ←
     flush_validity groups (replicate (Z.to_nat validityBytes) 0, 0, 0);
  let '(descFlags, chunk) :=
    if presentCount =? rowCount then (COLUMNAR_ENCDESC_FLAG_NO_VALIDITY, [])
    else (0, validity) in
  let vectorCount := zlen groups in
  let desc := PgColumnarEncdescPutHeaderFlags [] vectorCount descFlags in
  ' (table, def) ← flush_fsst_table groups encodeEffort compressionType compressionLevel def;
  st ← flush_vectors groups table (mkRegions [] desc [] desc);
  let fsstTable := match table with Some t => t | None => [] end in
  let st := mkRegions (rencoded st) (rdesc st ++ le_bytes 4 (zlen fsstTable) ++ fsstTable)
              (rrawRegion st) (rrawDesc st ++ le_bytes 4 0) in
  ' (finalData, desc, blockCodec) ← flush_block_codec st compressionType compressionLevel;
  Ok (Some (mkFlush (chunk ++ finalData) desc blockCodec), def).
End Flush.

(** ** What a buffered column looks like *)

(** [n] values of the column in one stream. *)
Definition stream_ok (att : Form_pg_attribute) (vs : list Z) (n : Z) : Prop :=
  exists vals, vs = concat vals /\ n = zlen vals /\ Forall (value_ok att) vals /\
    zlen vs + FSST_DECODE_SLACK <= MaxAllocSize /\ 8 * n <= MaxAllocSize.

Definition group_ok (att : Form_pg_attribute) (g : ChunkGroupBuffer) : Prop :=
  rowCount g = zlen (existsStream (column g)) /\
  stream_ok att (valueStream (column g)) (valueCount (column g)) /\
  valueCount (column g) = zlen (filter (fun b => b <> 0) (existsStream (column g))).

(** The rows of the whole row group, one flag byte each. *)
Definition all_exists (groups : list ChunkGroupBuffer) : list Z :=
  concat ((fun g => existsStream (column g)) <$> groups).

Definition streams (groups : list ChunkGroupBuffer) : list (list Z) :=
  (fun g => valueStream (column g)) <$> groups.

(** ** The bitmap records exactly the present rows *)

(** [validity] after the rows [ex]. *)
Definition validity_rep (bytes : Z) (ex : list Z) (st : list Z * Z * Z) : Prop :=
  let '(validity, rowIdx, presentCount) := st in
  bytes_ok validity /\ zlen validity = bytes /\ rowIdx = zlen ex /\
  presentCount = zlen (filter (fun b => b <> 0) ex) /\
  forall p, 0 <= p -> bit_set validity p = match ex !! Z.to_nat p with Some b => negb (b =? 0) | None => false end.

Lemma lookup_snoc_Z (ex : list Z) b p :
  0 <= p -> (ex ++ [b]) !! Z.to_nat p = if p =? zlen ex then Some b else ex !! Z.to_nat p.
Proof.
  intros Hp. unfold zlen. destruct (Z.eqb_spec p (Z.of_nat (length ex))) as [->|Hne].
  - rewrite Nat2Z.id. by rewrite list_lookup_middle.
  - destruct (decide (Z.to_nat p < length ex)%nat).
    + by rewrite lookup_app_l by lia.
    + rewrite !lookup_ge_None_2; [done|lia|]. rewrite length_app. simpl. lia.
Qed.

Lemma validity_rep_row bytes ex b st :
  validity_rep bytes ex st -> zlen ex < 8 * bytes ->
  exists st', (let '(validity, rowIdx, presentCount) := st in
     if negb (b =? 0) then
       validity ← set_bit validity rowIdx;
       Ok (validity, rowIdx + 1, presentCount + 1)
     else Ok (validity, rowIdx + 1, presentCount)) = Ok st' /\
    validity_rep bytes (ex ++ [b]) st'.
Proof.
  destruct st as [[validity rowIdx] present]. intros (Hb & Hl & -> & -> & Hbits) Hfit.
  pose proof (zlen_nonneg ex).
  destruct (Z.eqb_spec b 0) as [->|Hb0]; cbn [negb].
  - eexists. split; [done|]. split; [done|]. split; [done|]. split; [zlens|]. split.
    + rewrite list.filter_app, filter_cons_False, filter_nil, app_nil_r by lia. done.
    + intros p Hp. rewrite Hbits, lookup_snoc_Z by done.
      destruct (Z.eqb_spec p (zlen ex)) as [->|]; [|done].
      by rewrite lookup_ge_None_2 by (unfold zlen; lia).
  - destruct (set_bit_spec validity (zlen ex)) as (v' & -> & Hb' & Hl' & Hs); [done|lia|].
    rewrite bind_Ok. eexists. split; [done|]. split; [done|]. split; [lia|]. split; [zlens|]. split.
    + rewrite list.filter_app, filter_cons_True, filter_nil by done. zlens.
    + intros p Hp. rewrite Hs, Hbits, lookup_snoc_Z by done.
      destruct (Z.eqb_spec p (zlen ex)) as [->|]; [|by rewrite orb_false_r].
      rewrite orb_true_r. by destruct (Z.eqb_spec b 0).
Qed.

Lemma flush_group_validity_spec bytes ex g st :
  rowCount g = zlen (existsStream (column g)) -> validity_rep bytes ex st ->
  zlen ex + rowCount g <= 8 * bytes ->
  exists st', flush_group_validity g st = Ok st' /\ validity_rep bytes (ex ++ existsStream (column g)) st'.
Proof.
  intros Hn Hst Hfit. unfold flush_group_validity. set (es := existsStream (column g)) in *.
  match goal with |- context [forZ 0 _ ?f st] =>
    destruct (forZ_Ok (fun i s => validity_rep bytes (ex ++ take (Z.to_nat i) es) s) f 0 (rowCount g) st)
      as (st' & Hf & Hr) end.
  - rewrite Hn. apply zlen_nonneg.
  - intros i s Hi Hs. destruct (lookup_lt_is_Some_2 es (Z.to_nat i)) as [b Hb]; [unfold zlen in *; lia|].
    destruct (validity_rep_row bytes _ b s Hs) as (s' & Hrow & Hs').
    { rewrite zlen_app. unfold zlen in *. rewrite length_take. lia. }
    exists s'. split.
    + rewrite <- Hrow. destruct s as [[? ?] ?]. rewrite rd1_Ok, bind_Ok by lia.
      unfold nthZ. rewrite (nth_lookup_Some _ _ _ _ Hb). done.
    + replace (Z.to_nat (i + 1)) with (S (Z.to_nat i)) by lia. rewrite (take_S_r _ _ _ Hb).
      by rewrite app_assoc.
  - cbn. by rewrite app_nil_r.
  - exists st'. split; [exact Hf|]. rewrite take_ge in Hr by (unfold zlen in *; lia). done.
Qed.

Lemma flush_validity_spec att bytes groups : forall ex st,
  Forall (group_ok att) groups -> validity_rep bytes ex st ->
  zlen ex + zlen (all_exists groups) <= 8 * bytes ->
  exists st', flush_validity groups st = Ok st' /\ validity_rep bytes (ex ++ all_exists groups) st'.
Proof.
  induction groups as [|g groups IH]; intros ex st Hg Hst Hfit; cbn [flush_validity].
  { exists st. split; [done|]. cbn. by rewrite app_nil_r. }
  inversion Hg as [|? ? (Hn & _) Hg']; subst. unfold all_exists in *. cbn [fmap list_fmap concat] in *.
  rewrite zlen_app in Hfit. set (rest := concat _) in *. pose proof (zlen_nonneg rest).
  destruct (flush_group_validity_spec bytes ex g st Hn Hst) as (st1 & -> & Hst1); [lia|].
  rewrite bind_Ok. destruct (IH _ st1 Hg' Hst1) as (st2 & -> & Hst2); [rewrite zlen_app; lia|].
  exists st2. split; [done|]. by rewrite <- app_assoc in Hst2.
Qed.

Lemma validity_rep_init bytes : 0 <= bytes -> validity_rep bytes [] (replicate (Z.to_nat bytes) 0, 0, 0).
Proof.
  intros Hb. split; [by apply Forall_replicate|]. split; [unfold zlen; rewrite length_replicate; lia|].
  split; [done|]. split; [done|]. intros p _. by rewrite bit_set_zeros, lookup_nil.
Qed.

(** ** What the descriptor says about the stored region *)

Definition table_ok (table : option (list Z)) : Prop :=
  match table with
  | None => True
  | Some tb => bytes_ok tb /\ 0 < zlen tb < 2 ^ 32 /\ exists t, fsst_deserialize_table tb = Ok t
  end.

Definition table_bytes (table : option (list Z)) : list Z :=
  match table with Some t => t | None => [] end.

(** Entry [e] describes the encoding [enc] of group [g]'s stream. *)
Definition vec_ok (att : Form_pg_attribute) (table : option (list Z)) (g : ChunkGroupBuffer)
    (v : PgColumnarEncdescEntry * list Z) : Prop :=
  let vs := valueStream (column g) in
  entry_ok v.1 /\ evalueCount v.1 = valueCount (column g) /\ erawLen v.1 = zlen vs /\
  eencLen v.1 = zlen v.2 /\ bytes_ok v.2 /\ bytes_ok vs /\ zlen v.2 <= zlen vs /\
  (0 < zlen vs ->
   PgColumnarDecodeChunk v.2 (etype v.1) att (evalueCount v.1) (erawLen v.1) table = Ok vs).

(** [desc] is the descriptor of [region], which holds the groups' streams. *)
Definition described (att : Form_pg_attribute) (flags : Z) (groups : list ChunkGroupBuffer)
    (desc region : list Z) : Prop :=
  exists vecs table, table_ok table /\ Forall2 (vec_ok att table) groups vecs /\
    desc = encdesc flags vecs.*1 (table_bytes table) /\ region = concat vecs.*2.

(** The columns the decoder accepts whatever encoding was chosen: varlena, or a
    width its fixed-width decoders take. *)
Definition readable_width (att : Form_pg_attribute) : Prop :=
  attlen att = -1 \/ bad_width (attlen att) = false.

Lemma code_small att code : code_allowed att code \/ code = COLUMNAR_ENCODING_NONE -> byte_ok code.
Proof.
  intros [[[_ Hc]|[-> | ->]] | ->]; try done. unfold fixed_candidates in Hc.
  rewrite !elem_of_app, list_elem_of_singleton in Hc. destruct Hc as [-> | [Hc|Hc]]; [done| |].
  - destruct (is_packable_int att); [|by apply elem_of_nil in Hc].
    rewrite !elem_of_cons, elem_of_nil in Hc. by destruct Hc as [-> | [-> | [-> | []]]].
  - destruct (is_gorilla_float att); [|by apply elem_of_nil in Hc].
    rewrite !elem_of_cons, elem_of_nil in Hc. by destruct Hc as [-> | [-> | []]].
Qed.

Lemma stream_bytes att vs n : stream_ok att vs n -> bytes_ok vs.
Proof.
  intros (vals & -> & _ & Hv & _). apply Forall_concat. eapply Forall_weaken; [exact Hv|]. by intros v [].
Qed.

(** Storing a stream as it is. *)
Lemma decode_none att vs n table :
  0 <= n < 2 ^ 32 -> PgColumnarDecodeChunk vs COLUMNAR_ENCODING_NONE att n (zlen vs) table = Ok vs.
Proof.
  intros Hn. unfold PgColumnarDecodeChunk. destruct (Z.ltb_spec (2 ^ 32 - 1) n); [lia|].
  rewrite (Z.eqb_refl (zlen vs)). done.
Qed.

Section VectorProofs.
Context `{PgBitutils} `{VarattExternal}.
Context (cfg : settings) (att : Form_pg_attribute).
Context (Hatt : att_ok att) (Hw : readable_width att) (Hsr : 0 <= encoding_sample_rows cfg < 2 ^ 31).

Lemma encode_vector_spec g table :
  group_ok att g -> table_ok table ->
  exists code enc,
    PgColumnarEncodeChunk (encoding_sample_rows cfg) (valueStream (column g)) (zlen (valueStream (column g)))
      att (valueCount (column g)) table = Ok (code, enc) /\
    vec_ok att table g (mkEntry (u8 code) (u32 (valueCount (column g)))
      (u32 (zlen (valueStream (column g)))) (zlen enc), enc).
Proof using Hatt Hw Hsr.
  intros (_ & Hs & _) Ht. unfold vec_ok. cbn [fst snd etype evalueCount erawLen eencLen]. set (vs := valueStream (column g)) in *. set (n := valueCount (column g)) in *.
  pose proof (stream_bytes _ _ _ Hs) as Hvb. destruct Hs as (vals & Hvs & Hn & Hv & Hm & H8).
  unfold FSST_DECODE_SLACK, MaxAllocSize in *. pose proof (zlen_nonneg vals). pose proof (zlen_nonneg vs).
  rewrite !u32_small by lia.
  destruct vals as [|v vals].
  { rewrite Hn, Hvs. exists COLUMNAR_ENCODING_NONE, []. split; [done|]. repeat split; try done; constructor. }
  destruct (encode_decode_chunk (encoding_sample_rows cfg) att vs (v :: vals) table Hsr)
    as (code & enc & Hal & He & Heb & Hel & Hd).
  { split; [done|]. split.
    - split; [done|]. split; [done|]. unfold MaxAllocSize. rewrite zlen_cons in *.
      pose proof (zlen_nonneg vals). lia.
    - unfold FSST_DECODE_SLACK, MaxAllocSize. split; [lia|]. destruct table; [|done].
      destruct Ht as (? & ? & ?). done || (repeat split; try done; lia). }
  rewrite Hn. exists code, enc. split; [exact He|].
  pose proof (code_small att code Hal) as Hcode. unfold u8. rewrite (Z.mod_small code) by apply Hcode.
  assert (Hlen : zlen enc <= zlen vs) by (destruct (_ =? _) in Hel; [rewrite Hel|]; lia).
  assert (Hrle : rle_too_wide att code = false).
  { unfold rle_too_wide. destruct Hw as [Ha | ->]; [|apply andb_false_r].
    destruct Hal as [[[Hpos _]|[-> | ->]] | ->]; [lia|done..]. }
  rewrite Hrle in Hd. pose proof (zlen_nonneg enc). unfold entry_ok. cbn [etype evalueCount erawLen eencLen].
  split; [split; [done|lia]|]. repeat (split; [done|]). intros _. exact Hd.
Qed.

Definition raw_vec (g : ChunkGroupBuffer) : PgColumnarEncdescEntry * list Z :=
  let len := zlen (valueStream (column g)) in
  (mkEntry COLUMNAR_ENCODING_NONE (u32 (valueCount (column g))) (u32 len) (u32 len), valueStream (column g)).

Lemma raw_vec_ok g : group_ok att g -> vec_ok att None g (raw_vec g).
Proof using.
  intros (_ & Hs & _). pose proof (stream_bytes _ _ _ Hs) as Hvb.
  destruct Hs as (vals & _ & Hn & _ & Hm & H8). unfold FSST_DECODE_SLACK, MaxAllocSize in *.
  pose proof (zlen_nonneg vals). pose proof (zlen_nonneg (valueStream (column g))).
  unfold vec_ok, raw_vec, entry_ok. cbn [fst snd etype evalueCount erawLen eencLen].
  rewrite !u32_small by lia. split; [split; [done|lia]|]. repeat (split; [done|]).
  intros _. apply decode_none. lia.
Qed.

Lemma flush_vectors_spec table groups : forall st,
  Forall (group_ok att) groups -> table_ok table ->
  exists vecs, Forall2 (vec_ok att table) groups vecs /\
    flush_vectors cfg att groups table st = Ok (mkRegions
      (rencoded st ++ concat vecs.*2)
      (rdesc st ++ concat (entry_bytes <$> vecs.*1))
      (if post_codec_encoding_choice cfg then rrawRegion st ++ concat (raw_vec <$> groups).*2
       else rrawRegion st)
      (if post_codec_encoding_choice cfg then rrawDesc st ++ concat (entry_bytes <$> (raw_vec <$> groups).*1)
       else rrawDesc st)).
Proof using Hatt Hw Hsr.
  induction groups as [|g groups IH]; intros st Hg Ht; cbn [flush_vectors].
  { exists []. split; [constructor|]. cbn. rewrite !app_nil_r. destruct st. by destruct (post_codec_encoding_choice cfg). }
  inversion Hg as [|? ? Hg1 Hg2]; subst.
  destruct (encode_vector_spec g table Hg1 Ht) as (code & enc & -> & Hv). rewrite bind_Ok.
  match goal with |- context [flush_vectors cfg att groups table ?st'] =>
    destruct (IH st' Hg2 Ht) as (vecs & Hvs & ->) end.
  eexists (_ :: vecs). split; [by constructor|]. cbn [rencoded rdesc rrawRegion rrawDesc fmap list_fmap concat fst snd].
  rewrite !put_entry_app, <- !app_assoc. cbn [raw_vec fst snd].
  by destruct (post_codec_encoding_choice cfg); rewrite <- ?app_assoc.
Qed.
End VectorProofs.

(** ** The table decision *)

Lemma gather_corpus_spec att groups : forall corpus sampleLen,
  Forall (group_ok att) groups -> (exists vals, corpus = concat vals /\ Forall (value_ok att) vals) ->
  0 <= sampleLen <= zlen corpus ->
  let r := gather_corpus groups corpus sampleLen in
  (exists vals, r.1 = concat vals /\ Forall (value_ok att) vals) /\
  0 <= r.2 <= zlen r.1 /\ zlen r.1 <= zlen corpus + zlen (concat (streams groups)).
Proof.
  induction groups as [|g groups IH]; intros corpus sampleLen Hg Hc Hs r; unfold r; clear r.
  { cbn [gather_corpus fst snd]. split; [done|]. split; [done|]. change (zlen (concat (streams []))) with 0. lia. }
  inversion Hg as [|? ? (_ & (vs & Hvs & _ & Hv & _) & _) Hg2]; subst. destruct Hc as (vals & -> & Hvals).
  set (vs1 := valueStream (column g)) in *.
  assert (Hc : exists l, concat vals ++ vs1 = concat l /\ Forall (value_ok att) l).
  { exists (vals ++ vs). rewrite concat_app, Hvs. split; [done|]. by apply Forall_app_2. }
  cbn [gather_corpus]. fold vs1. unfold streams. cbn [fmap list_fmap concat]. fold vs1.
  rewrite (zlen_app vs1). fold (streams groups). pose proof (zlen_nonneg (concat (streams groups))) as Hpos.
  pose proof (zlen_nonneg vs1). pose proof (zlen_nonneg (concat vals)).
  set (sl := if _ && _ then _ else _).
  assert (Hsl : 0 <= sl <= zlen (concat vals ++ vs1)).
  { unfold sl. destruct (_ && _); rewrite zlen_app; lia. }
  destruct (COLUMNAR_FSST_DECIDE_CAP <=? _).
  - cbn [fst snd]. split; [done|]. split; [done|]. rewrite zlen_app. lia.
  - destruct (IH (concat vals ++ vs1) sl Hg2 Hc Hsl) as (H1 & H2 & H3).
    split; [done|]. split; [done|]. rewrite zlen_app in H3. lia.
Qed.

Section TableProofs.
Context `{PgBitutils} `{VarattExternal} `{HL : BlockCodecLaws}.
Context (cfg : settings) (att : Form_pg_attribute) (Hgain : 0 <= fsst_min_gain_percent cfg <= 99).

Lemma flush_fsst_table_spec groups effort ctype level def :
  Forall (group_ok att) groups -> compressible (zlen (concat (streams groups))) ->
  exists table def', flush_fsst_table cfg att groups effort ctype level def = Ok (table, def') /\
    table_ok table.
Proof using HL Hgain.
  intros Hg Hsz. unfold flush_fsst_table. destruct (Z.eqb_spec (attlen att) (-1)) as [Ha|]; cbn [negb]; [|by do 2 eexists].
  destruct (gather_corpus_spec att groups [] 0 Hg) as ((vals & Hc & Hv) & Hs & Hl).
  { exists []. by split; [|constructor]. }
  { done. }
  destruct (gather_corpus groups [] 0) as [corpus s0]. cbn [fst snd] in *. rewrite zlen_nil, Z.add_0_l in Hl.
  assert (Hcs : compressible (zlen corpus)).
  { eapply compressible_le; [|exact Hsz]. pose proof (zlen_nonneg corpus). lia. }
  pose proof Hcs as [_ Hcs']. unfold MaxAllocSize in Hcs'.
  assert (0 <= zlen corpus / 255) by (apply Z.div_pos; lia).
  assert (Hcb : bytes_ok corpus).
  { rewrite Hc. apply Forall_concat. eapply Forall_weaken; [exact Hv|]. by intros v []. }
  set (sl := if s0 =? 0 then _ else _).
  assert (Hsl : 0 <= sl <= zlen corpus) by (unfold sl; destruct (_ =? _); lia).
  cbv zeta. set (reuse := (0 <? _) && _ && _). set (hurts := reuse && _).
  assert (Hbuild : exists o, (if (0 <? zlen corpus) && negb (effort =? COLUMNAR_ENCODE_EFFORT_FAST) && negb hurts
     then wins ← PgColumnarFsstDictWins corpus (zlen corpus);
       if (wins : bool) then Ok None
       else PgColumnarFsstBuildChunkTable (take (Z.to_nat sl) corpus) sl att
     else Ok None) = Ok o /\ table_ok o).
  { destruct ((0 <? zlen corpus) && _ && _); [|by eexists].
    rewrite Hc, (dict_wins_spec att vals), bind_Ok by (done || rewrite <- Hc; lia). rewrite <- Hc.
    destruct (_ <=? _); [by eexists|].
    destruct (build_chunk_table_spec (take (Z.to_nat sl) corpus) att) as (o & Ho & Hto); [by apply Forall_take|].
    replace (zlen (take (Z.to_nat sl) corpus)) with sl in Ho
      by (unfold zlen in *; rewrite length_take; lia).
    exists o. split; [exact Ho|]. destruct o as [t|]; [|done].
    destruct (Hto t eq_refl) as (Hq1 & Hq2 & t' & Hq3 & _). split; [done|]. split; [done|]. by exists t'. }
  destruct Hbuild as (o & -> & Hto). rewrite bind_Ok.
  destruct o as [table|]; [|by destruct hurts; do 2 eexists].
  destruct reuse; [do 2 eexists; split; [done|]; by case_match|].
  destruct Hto as (Htb & Htl & t & Ht).
  destruct (helps_compressed_spec (fsst_min_gain_percent cfg) Hgain corpus table t ctype level)
    as (b & -> & _); try done; [lia|].
  rewrite bind_Ok. do 2 eexists. split; [done|]. destruct b; [|done]. split; [done|]. split; [done|]. by exists t.
Qed.
End TableProofs.

(** ** The stored region *)

(** [data] under [codec] is the stored form of [region]. *)
Definition stored_as `{BlockCodecs} (region data : list Z) (codec : Z) : Prop :=
  bytes_ok data /\
  if codec =? COLUMNAR_COMPRESSION_NONE then data = region
  else zlen data < zlen region /\
    PgColumnarDecompressValueStream data (zlen data) codec (zlen region) = Ok region.

Lemma described_len att flags groups desc region :
  described att flags groups desc region -> zlen region <= zlen (concat (streams groups)).
Proof.
  intros (vecs & table & _ & Hv & _ & ->). unfold streams.
  induction Hv as [|g v groups vecs (_ & _ & _ & _ & _ & _ & Hle & _) _ IH]; [done|].
  cbn [fmap list_fmap concat]. rewrite !zlen_app. lia.
Qed.

Lemma described_bytes att flags groups desc region :
  described att flags groups desc region -> bytes_ok region.
Proof.
  intros (vecs & table & _ & Hv & _ & ->). apply Forall_concat, Forall_fmap.
  induction Hv as [|g v groups vecs (_ & _ & _ & _ & Hb & _) _ IH]; by constructor.
Qed.

Section CodecChoice.
Context `{HL : BlockCodecLaws} (cfg : settings) (att : Form_pg_attribute).

(** Compressing one candidate region, as the two calls of the flush do. *)
Lemma candidate_spec region ctype level :
  bytes_ok region -> compressible (zlen region) ->
  exists c, PgColumnarCompressValueStream region (zlen region) ctype level = Ok c /\
    let data := if negb (usedType c =? COLUMNAR_COMPRESSION_NONE) then outData c else region in
    stored_as region data (usedType c) /\ zlen data <= zlen region.
Proof using HL.
  intros Hb Hc. destruct (compress_spec region ctype level Hb Hc) as (c & -> & Hcb & Hl & Hd).
  exists c. split; [done|]. unfold stored_as. destruct (usedType c =? COLUMNAR_COMPRESSION_NONE); cbn [negb].
  - split; [done|]. lia.
  - split; [done|]. lia.
Qed.

Lemma flush_block_codec_spec flags groups st ctype level :
  described att flags groups (rdesc st) (rencoded st) ->
  (post_codec_encoding_choice cfg = true -> described att flags groups (rrawDesc st) (rrawRegion st)) ->
  compressible (zlen (concat (streams groups))) ->
  exists data desc codec region, flush_block_codec cfg st ctype level = Ok (data, desc, codec) /\
    described att flags groups desc region /\ stored_as region data codec /\
    zlen data <= zlen (rencoded st).
Proof using HL.
  intros Hd Hrd Hsz. unfold flush_block_codec.
  pose proof (described_bytes _ _ _ _ _ Hd) as Hb. pose proof (described_len _ _ _ _ _ Hd) as Hl.
  destruct (_ && _).
  2:{ exists (rencoded st), (rdesc st), COLUMNAR_COMPRESSION_NONE, (rencoded st).
      split; [done|]. split; [done|]. by split; [split|]. }
  destruct (candidate_spec (rencoded st) ctype level Hb) as (c & -> & Hs & Hle).
  { eapply compressible_le; [|exact Hsz]. pose proof (zlen_nonneg (rencoded st)). lia. }
  rewrite bind_Ok. cbv zeta in Hs, Hle.
  set (fin := if negb (usedType c =? COLUMNAR_COMPRESSION_NONE) then outData c else rencoded st) in *.
  assert (Hfin : (if negb (usedType c =? COLUMNAR_COMPRESSION_NONE) then (outData c, usedType c)
            else (rencoded st, COLUMNAR_COMPRESSION_NONE)) = (fin, usedType c)).
  { unfold fin. by destruct (Z.eqb_spec (usedType c) COLUMNAR_COMPRESSION_NONE) as [->|]. }
  rewrite Hfin. clearbody fin.
  destruct (post_codec_encoding_choice cfg && _) eqn:Ep.
  2:{ exists fin, (rdesc st), (usedType c), (rencoded st). done. }
  apply andb_true_iff in Ep as [Ep _]. specialize (Hrd Ep).
  pose proof (described_bytes _ _ _ _ _ Hrd) as Hrb. pose proof (described_len _ _ _ _ _ Hrd) as Hrl.
  destruct (candidate_spec (rrawRegion st) ctype level Hrb) as (rc & -> & Hrs & Hrle).
  { eapply compressible_le; [|exact Hsz]. pose proof (zlen_nonneg (rrawRegion st)). lia. }
  rewrite bind_Ok. cbv zeta in Hrs, Hrle |- *.
  destruct (Z.ltb_spec (if negb (usedType rc =? COLUMNAR_COMPRESSION_NONE) then zlen (outData rc)
    else zlen (rrawRegion st)) (zlen fin)) as [Hlt|].
  2:{ exists fin, (rdesc st), (usedType c), (rencoded st). done. }
  set (rfin := if negb (usedType rc =? COLUMNAR_COMPRESSION_NONE) then outData rc else rrawRegion st) in *.
  exists rfin, (rrawDesc st), (usedType rc), (rrawRegion st). split.
  - unfold rfin. by destruct (Z.eqb_spec (usedType rc) COLUMNAR_COMPRESSION_NONE) as [->|].
  - split; [done|]. split; [done|]. unfold rfin. destruct (usedType rc =? _); cbn [negb] in *; lia.
Qed.
End CodecChoice.

(** ** The whole flush *)

Lemma raw_described att groups flags :
  Forall (group_ok att) groups ->
  described att flags groups
    (PgColumnarEncdescPutHeaderFlags [] (zlen groups) flags
     ++ concat (entry_bytes <$> (raw_vec <$> groups).*1) ++ le_bytes 4 0)
    (concat (raw_vec <$> groups).*2).
Proof.
  intros Hg. exists (raw_vec <$> groups), None. split; [done|]. split.
  { apply Forall2_fmap_r, Forall_Forall2_diag. eapply Forall_weaken; [exact Hg|]. apply raw_vec_ok. }
  split; [|done]. unfold encdesc. cbn [table_bytes]. rewrite app_nil_r.
  replace (zlen (raw_vec <$> groups).*1) with (zlen groups) by (unfold zlen; by rewrite !length_fmap).
  done.
Qed.

Section FlushProof.
Context `{PgBitutils} `{VarattExternal} `{HL : BlockCodecLaws}.
Context (cfg : settings) (att : Form_pg_attribute).
Context (Hatt : att_ok att) (Hw : readable_width att) (Hsr : 0 <= encoding_sample_rows cfg < 2 ^ 31)
  (Hgain : 0 <= fsst_min_gain_percent cfg <= 99).

(** The bitmap stored in front of the values, when there is one. *)
Definition validity_stored (ex : list Z) (bytes : Z) (vbytes : list Z) : Prop :=
  if zlen (filter (fun b => b <> 0) ex) =? zlen ex then vbytes = []
  else bytes_ok vbytes /\ zlen vbytes = bytes /\
    forall p, 0 <= p ->
      bit_set vbytes p = match ex !! Z.to_nat p with Some b => negb (b =? 0) | None => false end.

Definition no_validity_flag (ex : list Z) : Z :=
  if zlen (filter (fun b => b <> 0) ex) =? zlen ex then COLUMNAR_ENCDESC_FLAG_NO_VALIDITY else 0.

Lemma flush_one_column_spec groups def bytes effort ctype level :
  Forall (group_ok att) groups -> compressible (zlen (concat (streams groups))) ->
  0 <= bytes -> zlen (all_exists groups) <= 8 * bytes ->
  exists vbytes data desc codec region def',
    flush_one_column cfg att false groups def (zlen (all_exists groups)) bytes effort ctype level
    = Ok (Some (mkFlush (vbytes ++ data) desc codec), def') /\
    validity_stored (all_exists groups) bytes vbytes /\
    described att (no_validity_flag (all_exists groups)) groups desc region /\
    stored_as region data codec /\ zlen data <= zlen (concat (streams groups)).
Proof using Hatt Hw Hsr Hgain HL.
  intros Hg Hsz Hby Hrows. unfold flush_one_column.
  destruct (flush_validity_spec att bytes groups [] _ Hg (validity_rep_init bytes Hby))
    as ([[validity rowIdx] present] & -> & Hvb & Hvl & _ & Hpc & Hbits); [rewrite zlen_nil; lia|].
  rewrite bind_Ok. cbn [app] in *. set (ex := all_exists groups) in *.
  set (vbytes := if present =? zlen ex then [] else validity).
  assert (Hsel : (if present =? zlen ex then (COLUMNAR_ENCDESC_FLAG_NO_VALIDITY, [])
      else (0, validity)) = (no_validity_flag ex, vbytes)).
  { unfold no_validity_flag, vbytes. rewrite <- Hpc. by destruct (present =? zlen ex). }
  rewrite Hsel. set (flags := no_validity_flag ex).
  destruct (flush_fsst_table_spec cfg att Hgain groups effort ctype level def Hg Hsz)
    as (table & def' & -> & Htab).
  rewrite bind_Ok. cbv zeta. set (hdr := PgColumnarEncdescPutHeaderFlags [] (zlen groups) flags).
  destruct (flush_vectors_spec cfg att Hatt Hw Hsr table groups (mkRegions [] hdr [] hdr) Hg Htab)
    as (vecs & Hvecs & ->).
  rewrite bind_Ok. cbn [rencoded rdesc rrawRegion rrawDesc app].
  match goal with |- context [flush_block_codec cfg ?st ctype level] =>
    destruct (flush_block_codec_spec cfg att flags groups st ctype level)
      as (data & desc & codec & region & -> & Hd & Hs & Hl) end.
  - cbn [rdesc rencoded]. exists vecs, table. split; [done|]. split; [done|]. split; [|done].
    unfold encdesc. replace (zlen vecs.*1) with (zlen groups)
      by (unfold zlen; rewrite length_fmap; f_equal; by eapply Forall2_length).
    by rewrite <- !app_assoc.
  - cbn [rrawDesc rrawRegion]. intros ->. rewrite <- app_assoc. by apply raw_described.
  - done.
  - rewrite bind_Ok. exists vbytes, data, desc, codec, region, def'. split; [done|]. split; [|split; [done|]].
    + unfold validity_stored, vbytes. rewrite <- Hpc. by destruct (present =? zlen ex).
    + split; [done|]. cbn [rencoded] in Hl. etrans; [exact Hl|].
      apply (described_len att flags groups (encdesc flags vecs.*1 (table_bytes table))).
      by exists vecs, table.
Qed.
End FlushProof.
