(* ===== verification/NativeRead.v ===== *)
(** * Reading a column chunk

    [columnar_reader.c]: [pgcolumnar_native_decode_chunk] (the descriptor's
    entries drive the block codec and the per-vector decoders into one raw
    buffer) and the per-chunk part of the group load around it (the chunk's
    place in the row group, its validity bitmap or the synthesized one, the
    baseline layout).  Together with [Flush] this gives the end-to-end
    statement for a column chunk: what a scan sees is what the writer
    buffered. *)

From S2P Require Import Prelude BitPack BitStream Codec IntCodecs Varlena Dict.
From S2P Require Import Fsst Chunk BitSet Compress Encdesc Flush.

(** ** Decoding the value region *)

(** The entries' walk: [encTotal] and [rawTotal]. *)
Definition first_pass (desc : list Z) (vectorCount : Z) : res (Z * Z * Z) :=
  forZ 0 vectorCount (fun _ st =>
    let '(dp, encTotal, rawTotal) := st in
    ' (e, dp) ← PgColumnarEncdescReadEntry desc dp;
    Ok (dp, u64 (encTotal + eencLen e), u64 (rawTotal + erawLen e)))
  (COLUMNAR_NATIVE_ENCDESC_HEADER_LEN, 0, 0).

(** The decode loop's state. *)
Record decode_st := mkDec {
  ddp : Z; dencCursor : Z; drawCursor : Z; drawBuf : list Z; dvecRawLen : list Z; ddecoded : Z
}.

Definition decode_vector (att : Form_pg_attribute) (desc encRegion : list Z) (table : option (list Z))
    (skipVec : option (Z -> bool)) (v : Z) (st : decode_st) : res decode_st :=
  ' (e, dp) ← PgColumnarEncdescReadEntry desc (ddp st);
  let skip := match skipVec with Some f => f v | None => false end in
  let vecRawLen := dvecRawLen st ++ [erawLen e] in
  let encCursor := dencCursor st + eencLen e in
  if 0 <? erawLen e then
    if skip then
      Ok (mkDec dp encCursor (drawCursor st + erawLen e) (drawBuf st) vecRawLen (ddecoded st))
    else
      enc ← rd encRegion (dencCursor st) (eencLen e);
      rawVec ← PgColumnarDecodeChunk enc (etype e) att (evalueCount e) (erawLen e) table;
      data ← rd rawVec 0 (erawLen e);
      rawBuf ← wr (drawBuf st) (drawCursor st) data;
      Ok (mkDec dp encCursor (drawCursor st + erawLen e) rawBuf vecRawLen (ddecoded st + 1))
  else
    Ok (mkDec dp encCursor (drawCursor st) (drawBuf st) vecRawLen
          (if skip then ddecoded st else ddecoded st + 1)).

(** The raw buffer, the per-vector raw lengths, the vectors decoded and the
    total raw length.  A skipped vector leaves its bytes unwritten. *)
Record decoded := mkDecoded {
  rawBuf : list Z; vecRawLen : list Z; decodedCount : Z; rawTotal : Z
}.

Definition pgcolumnar_native_decode_chunk `{BlockCodecs} (att : Form_pg_attribute) (values desc : list Z)
    (blockCodec : Z) (skipVec : option (Z -> bool)) : res decoded :=
  if zlen desc <? COLUMNAR_NATIVE_ENCDESC_HEADER_LEN
  then Err "pgcolumnar: unrecognized native encoding descriptor"
  else
  supported ← PgColumnarEncdescVersionSupported desc;
  if negb (supported : bool) then Err "pgcolumnar: unrecognized native encoding descriptor"
  else
  vectorCount ← PgColumnarEncdescReadVectorCount desc;
  let entriesEnd := COLUMNAR_NATIVE_ENCDESC_HEADER_LEN
                    + vectorCount * COLUMNAR_NATIVE_ENCDESC_ENTRY_LEN in
  if zlen desc <? entriesEnd + COLUMNAR_NATIVE_ENCDESC_SHARED_LEN_BYTES
  then Err "pgcolumnar: native encoding descriptor length mismatch"
  else
  sharedTableLen ← rd_u32 desc entriesEnd;
  if negb (zlen desc =? entriesEnd + COLUMNAR_NATIVE_ENCDESC_SHARED_LEN_BYTES + sharedTableLen)
  then Err "pgcolumnar: native encoding descriptor length mismatch"
  else
  sharedTable ← (if 0 <? sharedTableLen
                 then b ← rd desc (entriesEnd + COLUMNAR_NATIVE_ENCDESC_SHARED_LEN_BYTES) sharedTableLen;
                      Ok (Some b)
                 else Ok None);
  ' (_, encTotal, rawTotal) ← first_pass desc vectorCount;
  encRegion ← (if negb (blockCodec =? COLUMNAR_COMPRESSION_NONE)
               then PgColumnarDecompressValueStream values (zlen values) blockCodec (u32 encTotal)
               else if negb (zlen values =? encTotal)
                    then Err "pgcolumnar: native chunk length does not match descriptor"
                    else Ok values);
  rawBuf ← MemoryContextAlloc (if 0 <? rawTotal then rawTotal else 1);
  _ ← palloc (4 * (if 0 <? vectorCount then vectorCount else 1));
  st ← forZ 0 vectorCount (decode_vector att desc encRegion sharedTable skipVec)
         (mkDec COLUMNAR_NATIVE_ENCDESC_HEADER_LEN 0 0 rawBuf [] 0);
  Ok (mkDecoded (drawBuf st) (dvecRawLen st) (ddecoded st) rawTotal).

(** ** The chunk in its row group *)

Record NativeColumnChunkMetadata := mkChunk {
  pageOffset : Z; pageLength : Z; encodingDescriptor : list Z; blockCodec : Z
}.
Record NativeRowGroupMetadata := mkRowGroup { fileOffset : Z; byteLength : Z; rgRowCount : Z }.

Definition pgcolumnar_chunk_validity_bytes (cc : NativeColumnChunkMetadata) (validityBytes : Z) : res Z :=
  omits ← PgColumnarEncdescOmitsValidity (Some (encodingDescriptor cc));
  Ok (if (omits : bool) then 0 else validityBytes).

Definition pgcolumnar_chunk_value_bytes (pageLength validityBytes : Z) : res Z :=
  let validityBytes := if validityBytes <? 0 then 0 else validityBytes in
  if pageLength <? validityBytes
  then Err "columnar chunk has a validity bitmap longer than the chunk"
  else
    let vbytes := pageLength - validityBytes in
    if 2 ^ 32 - 1 <? vbytes then Err "columnar chunk is too large to decode"
    else Ok (u32 vbytes).

(** Where a scan finds a column's presence bits: at an offset of the group's
    buffer, or in the synthesized all-ones array. *)
Inductive validity_src :=
| Stored (base : Z)
| AllPresent (bits : list Z).

(** The value stream: a slice of the group's buffer (the baseline layout), or a
    decoded buffer. *)
Inductive value_src :=
| InBuffer (from until : Z)
| Decoded (d : decoded).

Definition native_load_chunk `{BlockCodecs} (att : Form_pg_attribute) (rg : NativeRowGroupMetadata)
    (cc : NativeColumnChunkMetadata) (nativeBuffer : list Z) (skipVec : option (Z -> bool))
    : res (validity_src * value_src) :=
  let validityBytes := s32 (u64 (rgRowCount rg + 7) / 8) in
  if (byteLength rg <? pageLength cc) || (pageOffset cc <? fileOffset rg)
     || (byteLength rg - pageLength cc <? pageOffset cc - fileOffset rg)
  then Err "columnar chunk lies outside row group"
  else
  let base := pageOffset cc - fileOffset rg in
  chunkValidityBytes ← pgcolumnar_chunk_validity_bytes cc validityBytes;
  validity ← (if 0 <? chunkValidityBytes then Ok (Stored base)
              else
                accounted ← PgColumnarEncdescTotalValueCount (Some (encodingDescriptor cc));
                if (accounted <? 0) || negb (u64 accounted =? rgRowCount rg)
                then Err "columnar chunk claims no nulls but does not account for every row of row group"
                else
                  let need := u64 (rgRowCount rg + 7) / 8 in
                  if MaxAllocSize <? need then Err "columnar row group declares an implausible row count"
                  else Ok (AllPresent (replicate (Z.to_nat (if 0 <? need then need else 1)) 255)));
  baseline ← (if zlen (encodingDescriptor cc) =? 1
              then v ← rd1 (encodingDescriptor cc) 0; Ok (v =? COLUMNAR_NATIVE_ENCDESC_BASELINE)
              else Ok false);
  if (baseline : bool)
  then Ok (validity, InBuffer (base + chunkValidityBytes) (base + pageLength cc))
  else
    len ← pgcolumnar_chunk_value_bytes (pageLength cc) chunkValidityBytes;
    values ← rd nativeBuffer (base + chunkValidityBytes) len;
    d ← pgcolumnar_native_decode_chunk att values (encodingDescriptor cc) (blockCodec cc) skipVec;
    Ok (validity, Decoded d).

(** [(rs->nativeValidity[col][r >> 3] >> (r & 7)) & 1] *)
Definition row_present (nativeBuffer : list Z) (v : validity_src) (r : Z) : res bool :=
  match v with
  | Stored base =>
      b ← rd1 nativeBuffer (base + Z.shiftr r 3);
      Ok (negb (Z.land (Z.shiftr b (Z.land r 7)) 1 =? 0))
  | AllPresent bits => get_bit bits r
  end.

(** ** Decoding what the writer described *)

(** The streams a scan sees: skipped vectors are holes. *)
Definition visible (skipVec : option (Z -> bool)) (groups : list ChunkGroupBuffer) : list (list Z) :=
  imap (fun i g => if match skipVec with Some f => f (Z.of_nat i) | None => false end
                   then replicate (length (valueStream (column g))) poison
                   else valueStream (column g)) groups.

Lemma wr_blank pre n data :
  (length data <= n)%nat ->
  wr (pre ++ replicate n poison) (zlen pre) data = Ok ((pre ++ data) ++ replicate (n - length data) poison).
Proof.
  intros Hn. unfold zlen. rewrite wr_Ok.
  - f_equal. unfold zlen. rewrite Nat2Z.id, take_app_length, <- app_assoc. do 2 f_equal.
    replace (Z.to_nat (Z.of_nat (length pre) + Z.of_nat (length data))) with (length pre + length data)%nat by lia.
    by rewrite drop_app_add, drop_replicate.
  - lia.
  - unfold zlen. rewrite length_app, length_replicate. lia.
Qed.

Definition sumZ (l : list Z) : Z := foldr Z.add 0 l.

Lemma sumZ_app l k : sumZ (l ++ k) = sumZ l + sumZ k.
Proof. unfold sumZ. induction l as [|x l IH]; cbn; [done|]. rewrite IH. lia. Qed.

(** [desc] holds the entries [es] at their strides. *)
Definition holds_entries (desc : list Z) (es : list PgColumnarEncdescEntry) : Prop :=
  Forall entry_ok es /\
  forall i e, es !! i = Some e ->
    PgColumnarEncdescReadEntry desc (6 + 13 * Z.of_nat i) = Ok (e, 6 + 13 * Z.of_nat (S i)).

Lemma first_pass_entries desc es :
  holds_entries desc es ->
  first_pass desc (zlen es)
  = Ok (6 + 13 * zlen es, u64 (sumZ (eencLen <$> es)), u64 (sumZ (erawLen <$> es))).
Proof.
  intros [_ Hes]. unfold first_pass, COLUMNAR_NATIVE_ENCDESC_HEADER_LEN.
  match goal with |- forZ 0 _ ?f ?s = _ =>
    destruct (forZ_Ok (fun i (st : Z * Z * Z) => st = (6 + 13 * i,
      u64 (sumZ (eencLen <$> take (Z.to_nat i) es)), u64 (sumZ (erawLen <$> take (Z.to_nat i) es))))
      f 0 (zlen es) s) as (st & Hf & ->) end.
  - apply zlen_nonneg.
  - intros i st Hi ->. destruct (lookup_lt_is_Some_2 es (Z.to_nat i)) as [e He]; [unfold zlen in *; lia|].
    pose proof (Hes _ _ He) as Hr. rewrite Z2Nat.id in Hr by lia.
    rewrite Hr, bind_Ok. eexists. split; [done|].
    replace (Z.to_nat (i + 1)) with (S (Z.to_nat i)) by lia. rewrite (take_S_r _ _ _ He), !fmap_app, !sumZ_app.
    unfold u64. rewrite !Zplus_mod_idemp_l. cbn. rewrite !Z.add_0_r. do 3 f_equal. lia.
  - done.
  - rewrite Hf. by rewrite !take_ge by (unfold zlen; lia).
Qed.

Section Described.
Context (att : Form_pg_attribute) (table : option (list Z)).

Lemma vecs_entries_ok groups vecs : Forall2 (vec_ok att table) groups vecs -> Forall entry_ok vecs.*1.
Proof using.
  induction 1 as [|g v gs vs (He & _) _ IH]; [apply Forall_nil_2|].
  cbn [fmap list_fmap]. by constructor.
Qed.

Lemma vecs_enc_sum groups vecs :
  Forall2 (vec_ok att table) groups vecs -> sumZ (eencLen <$> vecs.*1) = zlen (concat vecs.*2).
Proof using.
  unfold sumZ. induction 1 as [|g v gs vs (_ & _ & _ & He & _) _ IH]; [done|].
  cbn [fmap list_fmap concat foldr]. rewrite zlen_app, He. unfold fmap in *. lia.
Qed.

Lemma vecs_raw_sum groups vecs :
  Forall2 (vec_ok att table) groups vecs -> sumZ (erawLen <$> vecs.*1) = zlen (concat (streams groups)).
Proof using.
  unfold sumZ, streams. induction 1 as [|g v gs vs (_ & _ & He & _) _ IH]; [done|].
  cbn [fmap list_fmap concat foldr]. rewrite zlen_app, He. unfold fmap in *. lia.
Qed.

Lemma vecs_count groups vecs : Forall2 (vec_ok att table) groups vecs -> zlen vecs.*1 = zlen groups.
Proof using. intros H. unfold zlen. rewrite length_fmap. f_equal. symmetry. by eapply Forall2_length. Qed.
End Described.

Section DecodeDescribed.
Context (att : Form_pg_attribute) (flags : Z) (groups : list ChunkGroupBuffer)
  (vecs : list (PgColumnarEncdescEntry * list Z)) (table : option (list Z)) (skipVec : option (Z -> bool)).
Context (Hvecs : Forall2 (vec_ok att table) groups vecs).

Let desc := encdesc flags vecs.*1 (table_bytes table).
Let region := concat vecs.*2.
Let outs := visible skipVec groups.
Let skipped (v : Z) := match skipVec with Some f => f v | None => false end.

Lemma outs_lookup i g :
  groups !! i = Some g ->
  outs !! i = Some (if skipped (Z.of_nat i) then replicate (length (valueStream (column g))) poison
                    else valueStream (column g)).
Proof using. intros Hi. unfold outs, visible. by rewrite list_lookup_imap, Hi. Qed.

Lemma outs_len : zlen (concat outs) = zlen (concat (streams groups)).
Proof using.
  unfold outs, streams. assert (H : forall (f : nat -> bool) gs,
    zlen (concat (imap (fun i g => if f i then replicate (length (valueStream (column g))) poison
      else valueStream (column g)) gs)) = zlen (concat ((fun g => valueStream (column g)) <$> gs))).
  { intros f gs. revert f. induction gs as [|g gs IH]; intros f; [done|]. cbn [imap fmap list_fmap concat].
    rewrite !zlen_app. f_equal; [unfold zlen; destruct (f 0%nat); by rewrite ?length_replicate|].
    apply (IH (f ∘ S)). }
  apply (H (fun i => skipped (Z.of_nat i)) groups).
Qed.

Lemma take_outs i o : outs !! i = Some o -> concat (take (S i) outs) = concat (take i outs) ++ o.
Proof using. intros Ho. rewrite (take_S_r _ _ _ Ho), concat_app. cbn. by rewrite app_nil_r. Qed.

Lemma region_split i v :
  vecs !! i = Some v ->
  exists post, region = concat (take i vecs.*2) ++ v.2 ++ post.
Proof using.
  intros Hi. unfold region. exists (concat (drop (S i) vecs.*2)).
  assert (H2 : vecs.*2 !! i = Some v.2) by (by rewrite list_lookup_fmap, Hi).
  rewrite <- (take_drop_middle _ _ _ H2) at 1. rewrite concat_app. done.
Qed.

Definition loop_rep (total : nat) (i : Z) (st : decode_st) : Prop :=
  let n := Z.to_nat i in
  ddp st = 6 + 13 * i /\ dencCursor st = zlen (concat (take n vecs.*2)) /\
  drawCursor st = zlen (concat (take n outs)) /\
  drawBuf st = concat (take n outs) ++ replicate (total - length (concat (take n outs))) poison /\
  dvecRawLen st = erawLen <$> take n vecs.*1 /\
  ddecoded st = zlen (filter (fun v => skipped v = false) (seqZ 0 i)).

Lemma decode_vector_spec total i st :
  (length (concat outs) <= total)%nat -> 0 <= i < zlen groups -> loop_rep total i st ->
  exists st', decode_vector att desc region table skipVec i st = Ok st' /\ loop_rep total (i + 1) st'.
Proof using Hvecs.
  intros Htot Hi (H1 & H2 & H3 & H4 & H5 & H6).
  destruct (lookup_lt_is_Some_2 groups (Z.to_nat i)) as [g Hg]; [unfold zlen in *; lia|].
  destruct (Forall2_lookup_l _ _ _ _ _ Hvecs Hg) as (v & Hv & Hvok).
  pose proof Hvok as (He & Hvc & Hrl & Hel & Hvb & Hsb & _ & Hdec).
  assert (Hv1 : vecs.*1 !! Z.to_nat i = Some v.1) by (by rewrite list_lookup_fmap, Hv).
  assert (Hv2 : vecs.*2 !! Z.to_nat i = Some v.2) by (by rewrite list_lookup_fmap, Hv).
  pose proof (outs_lookup _ _ Hg) as Ho. rewrite Z2Nat.id in Ho by lia. set (o := if skipped i then _ else _) in Ho.
  assert (Hol : zlen o = erawLen v.1).
  { rewrite Hrl. unfold o, zlen. destruct (skipped i); by rewrite ?length_replicate. }
  pose proof (encdesc_entry flags vecs.*1 (table_bytes table) (vecs_entries_ok _ _ _ _ Hvecs) _ _ Hv1) as Hr.
  rewrite Z2Nat.id in Hr by lia. fold desc in Hr.
  assert (Hfit : (length (concat (take (Z.to_nat i) outs)) + length o <= total)%nat).
  { rewrite <- (take_drop (S (Z.to_nat i)) outs), concat_app, length_app, (take_outs _ _ Ho), length_app in Htot. lia. }
  assert (Hstep : forall buf dec,
    buf = concat (take (S (Z.to_nat i)) outs) ++ replicate (total - length (concat (take (S (Z.to_nat i)) outs))) poison ->
    dec = (if skipped i then ddecoded st else ddecoded st + 1) ->
    loop_rep total (i + 1) (mkDec (6 + 13 * Z.of_nat (S (Z.to_nat i))) (dencCursor st + eencLen v.1)
      (drawCursor st + erawLen v.1) buf (dvecRawLen st ++ [erawLen v.1]) dec)).
  { intros buf dec -> ->. unfold loop_rep. replace (Z.to_nat (i + 1)) with (S (Z.to_nat i)) by lia.
    cbn [ddp dencCursor drawCursor drawBuf dvecRawLen ddecoded].
    split; [lia|]. split. { rewrite (take_S_r _ _ _ Hv2), concat_app, zlen_app, H2, Hel. cbn. rewrite app_nil_r. done. }
    split. { rewrite (take_outs _ _ Ho), zlen_app, H3, Hol. done. }
    split; [done|]. split. { by rewrite H5, (take_S_r _ _ _ Hv1), fmap_app. }
    rewrite seqZ_app, list.filter_app by lia. change (seqZ (0 + i) 1) with [0 + i]. rewrite Z.add_0_l.
    rewrite zlen_app, H6. destruct (skipped i) eqn:Es.
    - rewrite filter_cons_False by congruence. unfold zlen. simpl. lia.
    - rewrite filter_cons_True by done. unfold zlen. simpl. lia. }
  unfold decode_vector. rewrite H1, Hr, bind_Ok. fold (skipped i).
  destruct (Z.ltb_spec 0 (erawLen v.1)) as [Hpos|Hz].
  - destruct (skipped i) eqn:Es.
    + eexists. split; [done|]. apply Hstep; [|done]. rewrite H4, (take_outs _ _ Ho).
      unfold o. rewrite <- app_assoc. f_equal.
      rewrite <- replicate_add. f_equal. unfold o in Hfit. rewrite length_replicate in Hfit.
      rewrite length_app, length_replicate. lia.
    + destruct (region_split _ _ Hv) as (post & ->).
      rewrite H2, (rd_at _ v.2 post), bind_Ok by done. rewrite Hdec, bind_Ok by lia.
      rewrite rd_Ok, bind_Ok by lia. change (drop (Z.to_nat 0) ?l) with l.
      rewrite (take_ge (valueStream (column g))) by (rewrite Hrl; unfold zlen; lia).
      rewrite H3, H4, wr_blank, bind_Ok by (unfold o in Hfit; lia).
      eexists. split; [done|]. rewrite <- H3, <- H2. apply Hstep; [|done]. rewrite (take_outs _ _ Ho). unfold o.
      rewrite length_app. do 2 f_equal. lia.
  - eexists. split; [done|]. pose proof (zlen_nonneg o).
    assert (Hr0 : erawLen v.1 = 0) by lia. rewrite <- (Z.add_0_r (drawCursor st)), <- Hr0. apply Hstep; [|done].
    assert (o = []) as Ho0 by (destruct o; [done|unfold zlen in *; simpl in *; lia]).
    rewrite Ho0 in Ho. by rewrite (take_outs _ _ Ho), app_nil_r.
Qed.
End DecodeDescribed.

(** The header and trailer checks, and the first pass, on a descriptor of the
    writer: only the region and the decode loop remain. *)
Lemma native_decode_encdesc `{BlockCodecs} att values flags es table codec skipVec :
  Forall entry_ok es -> zlen es < 2 ^ 32 -> zlen (table_bytes table) < 2 ^ 32 ->
  (table = None \/ 0 < zlen (table_bytes table)) ->
  let desc := encdesc flags es (table_bytes table) in
  let encTotal := u64 (sumZ (eencLen <$> es)) in
  let rawTotal := u64 (sumZ (erawLen <$> es)) in
  pgcolumnar_native_decode_chunk att values desc codec skipVec
  = (encRegion ← (if negb (codec =? COLUMNAR_COMPRESSION_NONE)
                  then PgColumnarDecompressValueStream values (zlen values) codec (u32 encTotal)
                  else if negb (zlen values =? encTotal)
                       then Err "pgcolumnar: native chunk length does not match descriptor"
                       else Ok values);
     rawBuf ← MemoryContextAlloc (if 0 <? rawTotal then rawTotal else 1);
     _ ← palloc (4 * (if 0 <? zlen es then zlen es else 1));
     st ← forZ 0 (zlen es) (decode_vector att desc encRegion table skipVec)
            (mkDec COLUMNAR_NATIVE_ENCDESC_HEADER_LEN 0 0 rawBuf [] 0);
     Ok (mkDecoded (drawBuf st) (dvecRawLen st) (ddecoded st) rawTotal)).
Proof.
  intros Hes Hn Ht Htab desc encTotal rawTotal. unfold pgcolumnar_native_decode_chunk.
  pose proof (zlen_nonneg es). pose proof (zlen_nonneg (table_bytes table)).
  pose proof (encdesc_len flags es (table_bytes table)) as Hlen. fold desc in Hlen. rewrite !Hlen.
  unfold COLUMNAR_NATIVE_ENCDESC_HEADER_LEN, COLUMNAR_NATIVE_ENCDESC_ENTRY_LEN, COLUMNAR_NATIVE_ENCDESC_SHARED_LEN_BYTES.
  destruct (Z.ltb_spec (6 + 13 * zlen es + 4 + zlen (table_bytes table)) 6); [lia|].
  pose proof (encdesc_version flags es (table_bytes table)) as Hver. fold desc in Hver. rewrite Hver, bind_Ok.
  pose proof (encdesc_vector_count flags es (table_bytes table) Hn) as Hvc. fold desc in Hvc.
  cbn [negb]. rewrite Hvc, bind_Ok.
  destruct (Z.ltb_spec (6 + 13 * zlen es + 4 + zlen (table_bytes table)) (6 + zlen es * 13 + 4)); [lia|].
  pose proof (encdesc_shared_len flags es (table_bytes table) Ht) as Hsl. fold desc in Hsl. rewrite Hsl, bind_Ok.
  destruct (Z.eqb_spec (6 + 13 * zlen es + 4 + zlen (table_bytes table)) (6 + zlen es * 13 + 4 + zlen (table_bytes table))); [|lia].
  cbn [negb].
  assert (Hst : (if 0 <? zlen (table_bytes table)
      then b ← rd desc (6 + zlen es * 13 + 4) (zlen (table_bytes table)); Ok (Some b) else Ok None) = Ok table).
  { destruct table as [tb|]; [|done]. destruct Htab as [|Hp]; [done|]. cbn [table_bytes] in *.
    destruct (Z.ltb_spec 0 (zlen tb)); [|lia].
    rewrite rd_Ok, bind_Ok by lia. unfold desc. rewrite encdesc_table.
    by rewrite take_ge by (unfold zlen; lia). }
  rewrite Hst, bind_Ok. rewrite (first_pass_entries desc es), bind_Ok; [done|].
  split; [done|by apply encdesc_entry].
Qed.

Lemma table_ok_bytes table :
  table_ok table -> zlen (table_bytes table) < 2 ^ 32 /\ (table = None \/ 0 < zlen (table_bytes table)).
Proof.
  destruct table as [tb|]; [|intros _; split; [done|by left]]. intros (_ & Hl & _). cbn. split; [lia|right; lia].
Qed.

Lemma visible_lens groups vecs att table :
  Forall2 (vec_ok att table) groups vecs -> (erawLen <$> vecs.*1) = zlen <$> streams groups.
Proof.
  unfold streams. induction 1 as [|g v gs vs (_ & _ & Hrl & _) _ IH]; [done|].
  cbn [fmap list_fmap]. rewrite Hrl. f_equal. exact IH.
Qed.

Section DecodeStored.
Context `{BlockCodecs} (att : Form_pg_attribute) (skipVec : option (Z -> bool)).

Lemma native_decode_described flags groups desc region data codec :
  described att flags groups desc region -> stored_as region data codec ->
  compressible (zlen (concat (streams groups))) -> 4 * zlen groups <= MaxAllocSize ->
  exists d, pgcolumnar_native_decode_chunk att data desc codec skipVec = Ok d /\
    take (Z.to_nat (rawTotal d)) (rawBuf d) = concat (visible skipVec groups) /\
    rawTotal d = zlen (concat (streams groups)) /\
    vecRawLen d = zlen <$> streams groups /\
    decodedCount d = zlen (filter (fun v => match skipVec with Some f => f v | None => false end = false)
                             (seqZ 0 (zlen groups))).
Proof using.
  intros Hd Hst Hsz H4. pose proof (described_len _ _ _ _ _ Hd) as Hrl.
  destruct Hd as (vecs & table & Htab & Hvecs & -> & Hreg). destruct (table_ok_bytes table Htab) as [Ht1 Ht2].
  destruct Hsz as [_ Hsz]. unfold MaxAllocSize in Hsz, H4.
  assert (0 <= zlen (concat (streams groups)) / 255) by (apply Z.div_pos; [apply zlen_nonneg|lia]).
  pose proof (zlen_nonneg region). pose proof (zlen_nonneg groups).
  rewrite native_decode_encdesc; try done.
  2:{ by eapply vecs_entries_ok. }
  2:{ rewrite (vecs_count _ _ _ _ Hvecs). lia. }
  rewrite (vecs_enc_sum _ _ _ _ Hvecs), (vecs_raw_sum _ _ _ _ Hvecs), (vecs_count _ _ _ _ Hvecs), <- Hreg.
  set (total := zlen (concat (streams groups))) in *.
  unfold u64. rewrite !(Z.mod_small _ (2 ^ 64)) by lia. rewrite u32_small by lia.
  assert (Hregion : (if negb (codec =? COLUMNAR_COMPRESSION_NONE)
      then PgColumnarDecompressValueStream data (zlen data) codec (zlen region)
      else if negb (zlen data =? zlen region)
           then Err "pgcolumnar: native chunk length does not match descriptor"
           else Ok data) = Ok region).
  { destruct Hst as [_ Hst]. destruct (codec =? COLUMNAR_COMPRESSION_NONE); cbn [negb]; [|apply Hst].
    rewrite Hst, Z.eqb_refl. done. }
  rewrite Hregion, bind_Ok.
  rewrite MemoryContextAlloc_Ok, bind_Ok by (unfold MaxAllocSize; destruct (0 <? total); lia).
  rewrite palloc_Ok, bind_Ok by (unfold MaxAllocSize; destruct (0 <? zlen groups); lia).
  set (sz := Z.to_nat (if 0 <? total then total else 1)).
  assert (Hvis : length (concat (visible skipVec groups)) = Z.to_nat total).
  { pose proof (outs_len groups skipVec) as Ho. fold total in Ho. unfold zlen in Ho at 1. lia. }
  assert (Htot : (length (concat (visible skipVec groups)) <= sz)%nat).
  { rewrite Hvis. unfold sz. destruct (Z.ltb_spec 0 total); lia. }
  destruct (forZ_Ok (loop_rep groups vecs skipVec sz)
    (decode_vector att (encdesc flags vecs.*1 (table_bytes table)) region table skipVec) 0 (zlen groups)
    (mkDec COLUMNAR_NATIVE_ENCDESC_HEADER_LEN 0 0 (replicate sz poison) [] 0))
    as (st & -> & _ & _ & _ & Hbuf & Hlens & Hcnt).
  - done.
  - intros i st Hi Hrep. rewrite Hreg. by apply decode_vector_spec.
  - unfold loop_rep. cbn. rewrite Nat.sub_0_r. done.
  - rewrite bind_Ok. eexists. split; [done|]. cbn [rawTotal rawBuf vecRawLen decodedCount].
    rewrite Hbuf, Hlens, Hcnt.
    rewrite (take_ge (visible skipVec groups)) by (unfold visible; rewrite length_imap; unfold zlen; lia).
    split; [|split; [done|split; [|done]]].
    + rewrite take_app_le by lia. by rewrite take_ge by lia.
    + rewrite take_ge by (pose proof (vecs_count _ _ _ _ Hvecs); unfold zlen in *; lia).
      by eapply visible_lens.
Qed.
End DecodeStored.

(** ** The group load on a written chunk *)

Lemma rd1_skip pre l i : 0 <= i -> rd1 (pre ++ l) (zlen pre + i) = rd1 l i.
Proof.
  intros Hi. pose proof (zlen_nonneg pre). unfold rd1, nthZ. rewrite zlen_app.
  destruct (Z.ltb_spec i (zlen l)), (Z.ltb_spec (zlen pre + i) (zlen pre + zlen l)); try lia.
  - rewrite !(proj2 (Z.leb_le 0 _)) by lia. cbn [andb]. f_equal.
    rewrite app_nth2 by (unfold zlen in *; lia). f_equal. unfold zlen in *. lia.
  - by rewrite !andb_false_r.
Qed.

Lemma rd1_prefix l post i : 0 <= i < zlen l -> rd1 (l ++ post) i = rd1 l i.
Proof.
  intros Hi. pose proof (zlen_nonneg post). rewrite !rd1_Ok by (rewrite ?zlen_app; lia). f_equal. unfold nthZ.
  apply app_nth1. unfold zlen in *. lia.
Qed.

Lemma bitmap_bytes n : 0 <= n <= 8 * MaxAllocSize ->
  s32 (u64 (n + 7) / 8) = (n + 7) / 8 /\ u64 (n + 7) / 8 = (n + 7) / 8 /\
  0 <= (n + 7) / 8 <= MaxAllocSize /\ n <= 8 * ((n + 7) / 8).
Proof.
  unfold MaxAllocSize. intros Hn. unfold u64. rewrite Z.mod_small by lia. div_bounds (n + 7) 8.
  rewrite s32_small by lia. lia.
Qed.

Lemma sum_counts att groups vecs table :
  Forall (group_ok att) groups -> Forall2 (vec_ok att table) groups vecs ->
  foldr Z.add 0 (evalueCount <$> vecs.*1) = zlen (filter (fun b => b <> 0) (all_exists groups)).
Proof.
  intros Hg Hv. revert Hg. unfold all_exists. induction Hv as [|g v gs vs (_ & Hvc & _) _ IH]; intros Hg; [done|].
  inversion Hg as [|? ? (_ & _ & Hcnt) Hg']; subst. cbn [fmap list_fmap concat foldr].
  rewrite list.filter_app, zlen_app, Hvc, Hcnt. specialize (IH Hg'). unfold fmap in *. lia.
Qed.

Section DescribedFields.
Context (att : Form_pg_attribute) (groups : list ChunkGroupBuffer) (desc region : list Z).

Lemma load_omits ex :
  described att (no_validity_flag ex) groups desc region ->
  PgColumnarEncdescOmitsValidity (Some desc) = Ok (zlen (filter (fun b => b <> 0) ex) =? zlen ex).
Proof using.
  intros (vecs & table & _ & _ & -> & _). unfold no_validity_flag.
  rewrite encdesc_omits; by destruct (_ =? _).
Qed.

Lemma load_accounted flags :
  Forall (group_ok att) groups -> zlen groups < 2 ^ 28 -> zlen (all_exists groups) <= 8 * MaxAllocSize ->
  described att flags groups desc region ->
  PgColumnarEncdescTotalValueCount (Some desc) = Ok (zlen (filter (fun b => b <> 0) (all_exists groups))).
Proof using.
  intros Hg Hn Hrows (vecs & table & _ & Hv & -> & _). set (ex := all_exists groups) in *.
  rewrite encdesc_total; [|by eapply vecs_entries_ok|rewrite (vecs_count _ _ _ _ Hv); lia].
  rewrite (sum_counts _ _ _ _ Hg Hv). fold ex. f_equal.
  assert (0 <= zlen (filter (fun b => b <> 0) ex) <= zlen ex)
    by (split; [apply zlen_nonneg|unfold zlen; apply inj_le, length_filter]).
  unfold s64, u64, MaxAllocSize in *. rewrite (Z.mod_small (zlen _)) by lia. rewrite Z.mod_small by lia. lia.
Qed.

Lemma not_baseline flags : described att flags groups desc region -> (zlen desc =? 1) = false.
Proof using.
  intros (vecs & table & _ & _ & -> & _). rewrite encdesc_len.
  pose proof (zlen_nonneg vecs.*1). pose proof (zlen_nonneg (table_bytes table)). apply Z.eqb_neq. lia.
Qed.
End DescribedFields.

Section LoadProof.
Context `{BlockCodecs} (att : Form_pg_attribute) (skipVec : option (Z -> bool)).
Context (groups : list ChunkGroupBuffer) (vbytes data desc region : list Z) (codec : Z).

Let ex := all_exists groups.
Let bytes := (zlen ex + 7) / 8.

Context (Hg : Forall (group_ok att) groups) (Hn : zlen groups < 2 ^ 28) (Hrows : zlen ex <= 8 * MaxAllocSize).
Context (Hsz : compressible (zlen (concat (streams groups)))).
Context (Hval : validity_stored ex bytes vbytes)
  (Hdesc : described att (no_validity_flag ex) groups desc region)
  (Hst : stored_as region data codec) (Hdl : zlen data <= zlen (concat (streams groups))).

(** The chunk as it lies in the row group's bytes. *)
Context (pre post : list Z) (off blen : Z) (Hblen : zlen pre + zlen (vbytes ++ data) <= blen).

Let buffer := pre ++ (vbytes ++ data) ++ post.
Let cc := mkChunk (off + zlen pre) (zlen (vbytes ++ data)) desc codec.
Let rg := mkRowGroup off blen (zlen ex).

(** Once the bitmap's place is known the rest of the load is the decode. *)
Lemma load_values (v : validity_src) :
  exists d, (values ← rd buffer (zlen pre + zlen vbytes) (zlen data);
     d ← pgcolumnar_native_decode_chunk att values desc codec skipVec;
     Ok (v, Decoded d)) = Ok (v, Decoded d) /\
    take (Z.to_nat (rawTotal d)) (rawBuf d) = concat (visible skipVec groups) /\
    rawTotal d = zlen (concat (streams groups)) /\
    vecRawLen d = zlen <$> streams groups.
Proof using Hdesc Hst Hsz Hn.
  unfold buffer. rewrite <- app_assoc, app_assoc, (rd_at (pre ++ vbytes) data post), bind_Ok by (done || by rewrite zlen_app).
  destruct (native_decode_described att skipVec _ groups desc region data codec Hdesc Hst Hsz)
    as (d & -> & H1 & H2 & H3 & _); [unfold MaxAllocSize; lia|].
  rewrite bind_Ok. by exists d.
Qed.

Lemma native_load_chunk_spec :
  exists v d, native_load_chunk att rg cc buffer skipVec = Ok (v, Decoded d) /\
    (forall r b, ex !! Z.to_nat r = Some b -> 0 <= r -> row_present buffer v r = Ok (negb (b =? 0))) /\
    take (Z.to_nat (rawTotal d)) (rawBuf d) = concat (visible skipVec groups) /\
    rawTotal d = zlen (concat (streams groups)) /\
    vecRawLen d = zlen <$> streams groups.
Proof using Hdesc Hst Hsz Hn Hg Hrows Hval Hdl Hblen.
  destruct (bitmap_bytes (zlen ex)) as (Hb1 & Hb2 & Hb3 & Hb4); [split; [apply zlen_nonneg|done]|].
  fold bytes in Hb1, Hb2, Hb3, Hb4. unfold native_load_chunk, rg, cc.
  cbn [rgRowCount byteLength fileOffset pageLength pageOffset encodingDescriptor blockCodec].
  rewrite Hb1, Hb2.
  pose proof (zlen_nonneg pre). pose proof (zlen_nonneg (vbytes ++ data)).
  destruct (Z.ltb_spec blen (zlen (vbytes ++ data))); [lia|].
  destruct (Z.ltb_spec (off + zlen pre) off); [lia|].
  destruct (Z.ltb_spec (blen - zlen (vbytes ++ data)) (off + zlen pre - off)); [lia|]. cbn [orb].
  replace (off + zlen pre - off) with (zlen pre) by lia.
  unfold pgcolumnar_chunk_validity_bytes. cbn [encodingDescriptor]. 
  rewrite (load_omits att groups desc region ex Hdesc), !bind_Ok, (not_baseline _ _ _ _ _ Hdesc).
  destruct Hsz as [_ Hm]. unfold MaxAllocSize in Hm, Hb3, Hrows.
  assert (0 <= zlen (concat (streams groups)) / 255) by (apply Z.div_pos; [apply zlen_nonneg|lia]).
  pose proof (zlen_nonneg data). unfold validity_stored in Hval.
  assert (Hvb : forall k, k = zlen vbytes -> pgcolumnar_chunk_value_bytes (zlen (vbytes ++ data)) k = Ok (zlen data)).
  { intros k ->. unfold pgcolumnar_chunk_value_bytes. rewrite zlen_app. pose proof (zlen_nonneg vbytes).
    destruct (Z.ltb_spec (zlen vbytes) 0); [lia|]. destruct (Z.ltb_spec (zlen vbytes + zlen data) (zlen vbytes)); [lia|].
    destruct (Z.ltb_spec (2 ^ 32 - 1) (zlen vbytes + zlen data - zlen vbytes)); [lia|]. rewrite u32_small by lia. f_equal. lia. }
  destruct (Z.eqb_spec (zlen (filter (fun b => b <> 0) ex)) (zlen ex)) as [Hall|Hnot].
  - pose proof (load_accounted att groups desc region _ Hg Hn Hrows Hdesc) as Hacc. fold ex in Hacc.
    rewrite Hacc, !bind_Ok, Hall. cbn [Z.ltb Z.compare].
    pose proof (zlen_nonneg ex) as Hex0. destruct (Z.ltb_spec (zlen ex) 0); [lia|]. cbn [orb].
    unfold u64. rewrite Z.mod_small, Z.eqb_refl by lia. cbn [negb].
    destruct (Z.ltb_spec MaxAllocSize bytes) as [Hbig|]; [unfold MaxAllocSize in Hbig; lia|]. rewrite !bind_Ok.
    rewrite (Hvb 0), bind_Ok by (by rewrite Hval).
    destruct (load_values (AllPresent (replicate (Z.to_nat (if 0 <? bytes then bytes else 1)) 255))) as (d & Hd & Hrest).
    replace (zlen vbytes) with 0 in Hd by (by rewrite Hval). rewrite Hd. eexists _, d. split; [done|]. split; [|exact Hrest].
    intros r b Hb Hr. pose proof (lookup_lt_Some _ _ _ Hb). cbn [row_present].
    assert (Hrn : r < zlen ex) by (unfold zlen; lia).
    destruct (Z.ltb_spec 0 bytes); [|lia].
    rewrite get_bit_Ok by (unfold zlen at 1; rewrite length_replicate; lia). rewrite bit_set_ones by lia.
    f_equal. destruct (Z.eqb_spec b 0) as [Hz|]; [|done]. apply list_elem_of_lookup_2 in Hb.
    pose proof (length_filter_lt (fun b => b <> 0) ex b Hb (fun Hc => Hc Hz)). unfold zlen in Hall. lia.
  - destruct Hval as (Hvby & Hvl & Hbits).
    assert (Hpos : 0 < bytes).
    { pose proof (zlen_nonneg ex). destruct (decide (zlen ex = 0)) as [He|]; [|lia].
      destruct Hnot. destruct ex; [done|]. unfold zlen in He. simpl in He. lia. }
    destruct (Z.ltb_spec 0 bytes); [|lia]. rewrite !bind_Ok, (Hvb bytes), bind_Ok by done.
    destruct (load_values (Stored (zlen pre))) as (d & Hd & Hrest). rewrite Hvl in Hd. rewrite Hd.
    eexists _, d. split; [done|]. split; [|exact Hrest].
    intros r b Hb Hr. pose proof (lookup_lt_Some _ _ _ Hb). cbn [row_present].
    assert (Hrn : r < zlen ex) by (unfold zlen; lia).
    pose proof (get_bit_Ok vbytes r ltac:(lia)) as Hget. unfold get_bit in Hget.
    pose proof (pos_byte r _ (zlen vbytes) (conj Hr Hrn) ltac:(lia)).
    unfold buffer. rewrite rd1_skip, <- app_assoc, rd1_prefix by lia.
    rewrite Hget, Hbits, Hb by lia. done.
Qed.
End LoadProof.

(** ** Descriptors nobody vouches for *)

Lemma rd_u32_total desc off :
  bytes_ok desc -> 0 <= off -> off + 4 <= zlen desc ->
  exists v, rd_u32 desc off = Ok v /\ 0 <= v < 2 ^ 32.
Proof.
  intros Hb Ho Hl. unfold rd_u32. rewrite rd_Ok, bind_Ok by lia. eexists. split; [done|].
  pose proof (le_uint_bound _ (bytes_ok_sub desc (Z.to_nat off) (Z.to_nat 4) Hb)) as Hx.
  rewrite zlen_sub in Hx by lia. exact Hx.
Qed.

Lemma read_entry_total desc dp :
  bytes_ok desc -> 0 <= dp -> dp + 13 <= zlen desc ->
  exists e, PgColumnarEncdescReadEntry desc dp = Ok (e, dp + 13) /\ entry_ok e.
Proof.
  intros Hb Hd Hl. unfold PgColumnarEncdescReadEntry. rewrite (rd1_Ok desc dp), bind_Ok by lia.
  destruct (rd_u32_total desc (dp + 1)) as (a & -> & Ha); [done|lia|lia|].
  destruct (rd_u32_total desc (dp + 5)) as (b & -> & Hbb); [done|lia|lia|].
  destruct (rd_u32_total desc (dp + 9)) as (c & -> & Hc); [done|lia|lia|].
  rewrite !bind_Ok. eexists. split; [done|]. split; [by apply nthZ_ok|done].
Qed.

(** Any descriptor long enough holds as many entries as it claims. *)
Lemma entries_exist desc (n : nat) :
  bytes_ok desc -> 6 + 13 * Z.of_nat n <= zlen desc ->
  exists es, length es = n /\ holds_entries desc es.
Proof.
  intros Hb. induction n as [|n IH]; intros Hl.
  { exists []. split; [done|]. split; [constructor|]. intros i e Hi. by rewrite lookup_nil in Hi. }
  destruct IH as (es & Hn & Hok & Hes); [lia|].
  destruct (read_entry_total desc (6 + 13 * Z.of_nat n)) as (e & He & Heo); [done|lia|lia|].
  exists (es ++ [e]). split; [rewrite length_app; simpl; lia|]. split; [apply Forall_app_2; [done|by constructor]|].
  intros i e' Hi. apply lookup_app_Some in Hi as [Hi|[Hge Hi]]; [by apply Hes|].
  destruct (i - length es)%nat as [|k] eqn:Ek; [|done].
  injection Hi as <-. replace i with n by lia. rewrite He. f_equal. f_equal. lia.
Qed.

Lemma sumZ_nonneg l : Forall (fun z => 0 <= z) l -> 0 <= sumZ l.
Proof. unfold sumZ. induction 1 as [|x l Hx _ IH]; cbn; lia. Qed.

Lemma sumZ_step (l : list Z) i x :
  Forall (fun z => 0 <= z) l -> l !! i = Some x ->
  0 <= sumZ (take i l) /\ sumZ (take i l) + x <= sumZ l /\ sumZ (take (S i) l) = sumZ (take i l) + x.
Proof.
  intros Hl Hi. split; [by apply sumZ_nonneg, Forall_take|]. split.
  - rewrite <- (take_drop_middle l i x Hi) at 2. rewrite sumZ_app. cbn. fold (sumZ (drop (S i) l)).
    pose proof (sumZ_nonneg (drop (S i) l) ltac:(by apply Forall_drop)). lia.
  - rewrite (take_S_r _ _ _ Hi), sumZ_app. cbn. lia.
Qed.

Lemma entries_nonneg es :
  Forall entry_ok es ->
  Forall (fun z => 0 <= z < 2 ^ 32) (eencLen <$> es) /\ Forall (fun z => 0 <= z < 2 ^ 32) (erawLen <$> es).
Proof.
  induction 1 as [|e es (_ & _ & H1 & H2) _ [IH1 IH2]]; [by split; constructor|].
  cbn [fmap list_fmap]. by split; constructor.
Qed.

Lemma sumZ_bound l : Forall (fun z => 0 <= z < 2 ^ 32) l -> 0 <= sumZ l <= zlen l * 2 ^ 32.
Proof. unfold sumZ. induction 1 as [|x l Hx _ IH]; [done|]. rewrite zlen_cons. cbn [foldr]. lia. Qed.

Section DecodeSafe.
Context (att : Form_pg_attribute) (desc region : list Z) (table : option (list Z))
  (skipVec : option (Z -> bool)) (es : list PgColumnarEncdescEntry) (sz : Z).
Context (Hes : holds_entries desc es) (Hreg : bytes_ok region) (Hrl : zlen region < 2 ^ 32)
  (Htab : match table with None => True | Some tb => bytes_ok tb /\ zlen tb < 2 ^ 32 end)
  (Hfit : sumZ (eencLen <$> es) <= zlen region)
  (Hsz : sumZ (erawLen <$> es) <= sz <= MaxAllocSize).

Definition safe_rep (i : Z) (st : decode_st) : Prop :=
  let n := Z.to_nat i in
  ddp st = 6 + 13 * i /\ dencCursor st = sumZ (take n (eencLen <$> es)) /\
  drawCursor st = sumZ (take n (erawLen <$> es)) /\ zlen (drawBuf st) = sz /\
  dvecRawLen st = take n (erawLen <$> es) /\
  (skipVec = None -> bytes_ok (take (Z.to_nat (drawCursor st)) (drawBuf st))).

Lemma decode_vector_safe i st :
  0 <= i < zlen es -> safe_rep i st ->
  safe (safe_rep (i + 1)) (decode_vector att desc region table skipVec i st).
Proof using Hes Hreg Hrl Htab Hfit Hsz.
  intros Hi (H1 & H2 & H3 & H4 & H5 & H6). destruct Hes as [Hok Hread].
  destruct (lookup_lt_is_Some_2 es (Z.to_nat i)) as [e He]; [unfold zlen in *; lia|].
  pose proof (Hread _ _ He) as Hr. rewrite Z2Nat.id in Hr by lia.
  pose proof (Forall_lookup_1 _ _ _ _ Hok He) as (Ht & Hvc & Hrw & Hen).
  destruct (entries_nonneg es Hok) as [Hn1 Hn2].
  destruct (sumZ_step (eencLen <$> es) (Z.to_nat i) (eencLen e)) as (Ha1 & Ha2 & Ha3).
  { eapply Forall_weaken; [exact Hn1|]. intros; simpl in *; lia. }
  { by rewrite list_lookup_fmap, He. }
  destruct (sumZ_step (erawLen <$> es) (Z.to_nat i) (erawLen e)) as (Hb1 & Hb2 & Hb3).
  { eapply Forall_weaken; [exact Hn2|]. intros; simpl in *; lia. }
  { by rewrite list_lookup_fmap, He. }
  assert (Htk : take (Z.to_nat i) (erawLen <$> es) ++ [erawLen e] = take (Z.to_nat (i + 1)) (erawLen <$> es)).
  { replace (Z.to_nat (i + 1)) with (S (Z.to_nat i)) by lia. symmetry. apply take_S_r.
    by rewrite list_lookup_fmap, He. }
  assert (Hstep : forall buf rc dec, zlen buf = sz -> rc = drawCursor st + erawLen e ->
    (skipVec = None -> bytes_ok (take (Z.to_nat rc) buf)) ->
    safe_rep (i + 1) (mkDec (6 + 13 * Z.of_nat (S (Z.to_nat i))) (dencCursor st + eencLen e) rc buf
      (dvecRawLen st ++ [erawLen e]) dec)).
  { intros buf rc dec Hbl -> Hbok. unfold safe_rep. cbn [ddp dencCursor drawCursor drawBuf dvecRawLen].
    rewrite H2, H5, Htk. replace (Z.to_nat (i + 1)) with (S (Z.to_nat i)) by lia.
    rewrite Ha3, Hb3, <- H3. repeat split; try done; lia. }
  unfold decode_vector. rewrite H1, Hr, bind_Ok. unfold MaxAllocSize in Hsz.
  destruct (Z.ltb_spec 0 (erawLen e)) as [Hpos|Hz].
  - destruct skipVec as [f|] eqn:Ek; [destruct (f i); [by apply Hstep|]|];
      (rewrite rd_Ok, bind_Ok by lia; eapply safe_bind;
        [apply decode_chunk_safe_lemma; [by apply bytes_ok_sub|rewrite zlen_sub; lia|lia|unfold FSST_DECODE_SLACK; lia|done]|];
       intros rawVec [Hvb Hvl]; rewrite rd_Ok, bind_Ok by lia;
       change (drop (Z.to_nat 0) rawVec) with rawVec; rewrite take_ge by (unfold zlen in *; lia);
       rewrite wr_Ok, bind_Ok by lia; apply Hstep; [|done|]).
    + rewrite !zlen_app. unfold zlen in *. rewrite length_take, length_drop. lia.
    + done.
    + rewrite !zlen_app. unfold zlen in *. rewrite length_take, length_drop. lia.
    + intros _. rewrite app_assoc, take_app_le.
      * apply Forall_take, Forall_app_2; [by apply H6|done].
      * rewrite length_app, length_take. unfold zlen in *. lia.
  - apply Hstep; [done|lia|done].
Qed.
End DecodeSafe.

(** The total the entries declare fits the 32 bits the block codec is told. *)
Definition total_fits (desc : list Z) : Prop :=
  forall vc dp encTotal rawTotal,
    PgColumnarEncdescReadVectorCount desc = Ok vc -> first_pass desc vc = Ok (dp, encTotal, rawTotal) ->
    encTotal < 2 ^ 32.

Definition decoded_ok (skipVec : option (Z -> bool)) (d : decoded) : Prop :=
  0 <= rawTotal d <= zlen (rawBuf d) /\ sumZ (vecRawLen d) = rawTotal d /\
  (skipVec = None -> bytes_ok (take (Z.to_nat (rawTotal d)) (rawBuf d))).

Section NativeSafe.
Context `{HL : BlockCodecLaws} (att : Form_pg_attribute) (skipVec : option (Z -> bool)).

(** After the header checks and the first pass: the region, the buffers, the loop. *)
Lemma decode_region_safe desc values codec table es :
  bytes_ok values -> zlen values < 2 ^ 32 -> holds_entries desc es -> zlen es < 2 ^ 31 ->
  match table with None => True | Some tb => bytes_ok tb /\ zlen tb < 2 ^ 32 end ->
  (codec = COLUMNAR_COMPRESSION_NONE \/ sumZ (eencLen <$> es) < 2 ^ 32) ->
  safe (decoded_ok skipVec)
    (encRegion ← (if negb (codec =? COLUMNAR_COMPRESSION_NONE)
        then PgColumnarDecompressValueStream values (zlen values) codec (u32 (sumZ (eencLen <$> es)))
        else if negb (zlen values =? sumZ (eencLen <$> es))
             then Err "pgcolumnar: native chunk length does not match descriptor"
             else Ok values);
     rawBuf ← MemoryContextAlloc (if 0 <? sumZ (erawLen <$> es) then sumZ (erawLen <$> es) else 1);
     _ ← palloc (4 * (if 0 <? zlen es then zlen es else 1));
     st ← forZ 0 (zlen es) (decode_vector att desc encRegion table skipVec)
            (mkDec COLUMNAR_NATIVE_ENCDESC_HEADER_LEN 0 0 rawBuf [] 0);
     Ok (mkDecoded (drawBuf st) (dvecRawLen st) (ddecoded st) (sumZ (erawLen <$> es)))).
Proof using HL.
  intros Hvb Hvl Hes Hn Htab Hfit. destruct (entries_nonneg es (proj1 Hes)) as [Hn1 Hn2].
  pose proof (sumZ_bound _ Hn1) as Hs1. pose proof (sumZ_bound _ Hn2) as Hs2.
  set (encTotal := sumZ (eencLen <$> es)) in *. set (rawT := sumZ (erawLen <$> es)) in *.
  eapply (safe_bind (fun region => bytes_ok region /\ zlen region = encTotal /\ zlen region < 2 ^ 32)).
  { destruct (Z.eqb_spec codec COLUMNAR_COMPRESSION_NONE) as [Hc|Hc]; cbn [negb].
    - destruct (Z.eqb_spec (zlen values) encTotal); cbn [negb]; [|done]. cbn. split; [done|]. lia.
    - destruct Hfit as [|Hfit]; [done|]. rewrite u32_small by lia.
      eapply safe_mono; [by apply decompress_safe_lemma|]. intros region [? ?]. split; [done|]. lia. }
  intros region (Hrb & Hrl & Hr32). unfold MemoryContextAlloc.
  destruct (Z.ltb_spec MaxAllocSize (if 0 <? rawT then rawT else 1)) as [|Hmax]; [done|]. rewrite bind_Ok.
  destruct (palloc_cases (4 * (if 0 <? zlen es then zlen es else 1))) as [-> | [m ->]]; [|done]. rewrite bind_Ok.
  set (sz := if 0 <? rawT then rawT else 1) in *.
  assert (Hsz : rawT <= sz /\ 0 <= sz) by (unfold sz; destruct (Z.ltb_spec 0 rawT); lia).
  eapply safe_bind.
  { apply (forZ_safe (safe_rep skipVec es sz)).
    - apply zlen_nonneg.
    - intros i st Hi Hst. apply (decode_vector_safe att desc region table skipVec es sz); try done.
      + fold encTotal. lia.
      + fold rawT. lia.
    - split; [done|]. split; [done|]. split; [done|]. cbn [drawBuf drawCursor dvecRawLen].
      split; [unfold zlen; rewrite length_replicate; lia|]. split; [done|]. intros _. constructor. }
  intros st (_ & _ & H3 & H4 & H5 & H6).
  assert (Hall : take (Z.to_nat (zlen es)) (erawLen <$> es) = erawLen <$> es)
    by (apply take_ge; rewrite length_fmap; unfold zlen; lia).
  rewrite Hall in H3, H5. fold rawT in H3. unfold decoded_ok.
  cbn [safe rawTotal rawBuf vecRawLen]. rewrite H3 in H6. rewrite H5. split; [lia|]. done.
Qed.

Lemma native_decode_safe_lemma values desc codec :
  bytes_ok values -> zlen values < 2 ^ 32 -> bytes_ok desc -> zlen desc < 2 ^ 32 ->
  (codec = COLUMNAR_COMPRESSION_NONE \/ total_fits desc) ->
  safe (decoded_ok skipVec) (pgcolumnar_native_decode_chunk att values desc codec skipVec).
Proof using HL.
  intros Hvb Hvl Hdb Hdl Hfit. unfold pgcolumnar_native_decode_chunk.
  unfold COLUMNAR_NATIVE_ENCDESC_HEADER_LEN, COLUMNAR_NATIVE_ENCDESC_ENTRY_LEN, COLUMNAR_NATIVE_ENCDESC_SHARED_LEN_BYTES.
  destruct (Z.ltb_spec (zlen desc) 6); [done|].
  unfold PgColumnarEncdescVersionSupported. rewrite (rd1_Ok desc 0) by lia. rewrite !bind_Ok.
  destruct (negb _); [done|].
  destruct (rd_u32_total desc 2) as (vc & Hvc & Hvcr); [done|lia|lia|].
  unfold PgColumnarEncdescReadVectorCount. rewrite Hvc, bind_Ok.
  destruct (Z.ltb_spec (zlen desc) (6 + vc * 13 + 4)); [done|].
  destruct (rd_u32_total desc (6 + vc * 13)) as (stl & -> & Hstl); [done|lia|lia|]. rewrite bind_Ok.
  destruct (Z.eqb_spec (zlen desc) (6 + vc * 13 + 4 + stl)) as [Hlen|]; [|done]. cbn [negb].
  assert (Hst : exists table, (if 0 <? stl then b ← rd desc (6 + vc * 13 + 4) stl; Ok (Some b) else Ok None) = Ok table
    /\ match table with None => True | Some tb => bytes_ok tb /\ zlen tb < 2 ^ 32 end).
  { destruct (0 <? stl); [|by eexists]. rewrite rd_Ok, bind_Ok by lia. eexists. split; [done|].
    split; [by apply bytes_ok_sub|]. rewrite zlen_sub; lia. }
  destruct Hst as (table & -> & Htab). rewrite bind_Ok.
  destruct (entries_exist desc (Z.to_nat vc)) as (es & Hen & Hes); [done|lia|].
  assert (Hez : zlen es = vc) by (unfold zlen; lia). rewrite <- Hez in *.
  destruct (entries_nonneg es (proj1 Hes)) as [Hn1 Hn2].
  pose proof (sumZ_bound _ Hn1) as Hs1. pose proof (sumZ_bound _ Hn2) as Hs2.
  assert (Hzz : zlen (eencLen <$> es) = zlen es /\ zlen (erawLen <$> es) = zlen es)
    by (unfold zlen; by rewrite !length_fmap).
  pose proof (first_pass_entries desc es Hes) as Hfp. rewrite Hfp, bind_Ok.
  assert (Hu1 : u64 (sumZ (eencLen <$> es)) = sumZ (eencLen <$> es)) by (apply Z.mod_small; lia).
  assert (Hu2 : u64 (sumZ (erawLen <$> es)) = sumZ (erawLen <$> es)) by (apply Z.mod_small; lia).
  rewrite Hu1, Hu2. apply decode_region_safe; try done; [lia|].
  destruct Hfit as [Hc|Hfit]; [by left|right]. rewrite <- Hu1. by eapply Hfit.
Qed.
End NativeSafe.

(** ** Theorems *)

(** C10.  End to end for a column chunk.  Take any chunk groups of a column
    whose width the run-length decoder accepts (variable, 1, 2, 4 or 8 bytes),
    with at most 2^28 vectors and a value stream that the compressors' buffers
    can hold ([compressible]: below the limit of an allocation), flush them under any settings, codec and
    cached verdict, and place the resulting chunk anywhere inside a row
    group's bytes.  The flush succeeds; the group load accepts the chunk; every
    row reads as present or null exactly as it was buffered; and the value
    stream it produces is the concatenation of the buffered streams, with
    holes of the right length exactly at the vectors the scan asked to skip. *)
Theorem column_chunk_roundtrip `{PgBitutils} `{VarattExternal} `{BlockCodecLaws}
    (cfg : settings) (att : Form_pg_attribute) (groups : list ChunkGroupBuffer) (def : verdict)
    (effort ctype level : Z) (pre post : list Z) (off : Z) (skipVec : option (Z -> bool)) :
  att_ok att -> readable_width att ->
  0 <= encoding_sample_rows cfg < 2 ^ 31 -> 0 <= fsst_min_gain_percent cfg <= 99 ->
  Forall (group_ok att) groups -> zlen groups < 2 ^ 28 ->
  compressible (zlen (concat (streams groups))) -> zlen (all_exists groups) <= 8 * MaxAllocSize ->
  let rows := zlen (all_exists groups) in
  exists chunk desc codec def',
    flush_one_column cfg att false groups def rows ((rows + 7) / 8) effort ctype level
    = Ok (Some (mkFlush chunk desc codec), def') /\
    let buffer := pre ++ chunk ++ post in
    exists v d,
      native_load_chunk att (mkRowGroup off (zlen buffer) rows)
        (mkChunk (off + zlen pre) (zlen chunk) desc codec) buffer skipVec = Ok (v, Decoded d) /\
      (forall r b, all_exists groups !! Z.to_nat r = Some b -> 0 <= r ->
         row_present buffer v r = Ok (negb (b =? 0))) /\
      take (Z.to_nat (rawTotal d)) (rawBuf d) = concat (visible skipVec groups) /\
      rawTotal d = zlen (concat (streams groups)) /\
      vecRawLen d = zlen <$> streams groups.
Proof.
  intros Hatt Hw Hsr Hgain Hg Hn Hsz Hrows rows.
  destruct (bitmap_bytes rows) as (_ & _ & Hb3 & Hb4); [split; [apply zlen_nonneg|done]|].
  destruct (flush_one_column_spec cfg att Hatt Hw Hsr Hgain groups def ((rows + 7) / 8) effort ctype level)
    as (vbytes & data & desc & codec & region & def' & Hf & Hval & Hd & Hst & Hdl); try done; [lia|].
  exists (vbytes ++ data), desc, codec, def'. split; [exact Hf|].
  apply (native_load_chunk_spec att skipVec groups vbytes data desc region codec); try done.
  rewrite !zlen_app. pose proof (zlen_nonneg post). lia.
Qed.

Section Example_column_chunk_roundtrip.
#[local] Existing Instance pg_bitutils_scan.
#[local] Existing Instance varatt_external_none.
#[local] Existing Instance run_codecs.
#[local] Existing Instance run_codecs_laws.

Lemma column_chunk_roundtrip_witness :
let cfg := mkSettings 16 5 2048 true in
let att := mkAtt true 4 23 in
let groups := [mkGroup 3 (mkCol [1; 0; 0; 0; 2; 0; 0; 0] [1; 0; 1] 2); mkGroup 1 (mkCol [9; 0; 0; 0] [1] 1)] in
let rows := zlen (all_exists groups) in
let skipVec := Some (fun v => v =? 1) in
exists chunk desc codec def',
  flush_one_column cfg att false groups (mkVerdict 0 0) rows ((rows + 7) / 8) 0 COLUMNAR_COMPRESSION_LZ4 1
  = Ok (Some (mkFlush chunk desc codec), def') /\
  let buffer := [1; 2] ++ chunk ++ [3] in
  exists v d,
    native_load_chunk att (mkRowGroup 8192 (zlen buffer) rows)
      (mkChunk (8192 + zlen [1; 2]) (zlen chunk) desc codec) buffer skipVec = Ok (v, Decoded d) /\
    (forall r b, all_exists groups !! Z.to_nat r = Some b -> 0 <= r ->
       row_present buffer v r = Ok (negb (b =? 0))) /\
    take (Z.to_nat (rawTotal d)) (rawBuf d) = concat (visible skipVec groups) /\
    rawTotal d = zlen (concat (streams groups)) /\
    vecRawLen d = zlen <$> streams groups.
Proof.
intros cfg att groups rows skipVec.
apply (column_chunk_roundtrip cfg att groups (mkVerdict 0 0) 0 COLUMNAR_COMPRESSION_LZ4 1 [1; 2] [3] 8192 skipVec).
- unfold att_ok, FLOAT4OID, FLOAT8OID. cbn. repeat split; try done; try lia.
- right. reflexivity.
- cbn. lia.
- cbn. lia.
- constructor; [|constructor; [|constructor]].
  + split; [reflexivity|]. split; [|reflexivity]. exists [[1; 0; 0; 0]; [2; 0; 0; 0]].
    repeat split; try reflexivity; try (vm_compute; congruence); repeat constructor; vm_compute; congruence.
  + split; [reflexivity|]. split; [|reflexivity]. exists [[9; 0; 0; 0]].
    repeat split; try reflexivity; try (vm_compute; congruence); repeat constructor; vm_compute; congruence.
- vm_compute. reflexivity.
- split; vm_compute; congruence.
- vm_compute. congruence.
Defined.
End Example_column_chunk_roundtrip.

(** C30.  Decoding a chunk nobody vouches for: whatever the stored bytes, the
    descriptor, the codec and the vectors to skip, the decoder ends with an
    error or with a buffer whose vectors tile it exactly and, when nothing was
    skipped, are fully initialised; no read or write leaves a buffer.  For a
    compressed chunk this needs the descriptor's encoded lengths to add up to
    less than 2^32, which nothing checks (see the next theorem). *)
Theorem native_decode_safe `{BlockCodecLaws} (att : Form_pg_attribute) (values desc : list Z) (codec : Z)
    (skipVec : option (Z -> bool)) :
  bytes_ok values -> zlen values < 2 ^ 32 -> bytes_ok desc -> zlen desc < 2 ^ 32 ->
  (codec = COLUMNAR_COMPRESSION_NONE \/ total_fits desc) ->
  safe (decoded_ok skipVec) (pgcolumnar_native_decode_chunk att values desc codec skipVec).
Proof. apply native_decode_safe_lemma. Qed.

Section Example_native_decode_safe.
#[local] Existing Instance run_codecs.
#[local] Existing Instance run_codecs_laws.

Lemma native_decode_safe_witness :
safe (decoded_ok None)
  (pgcolumnar_native_decode_chunk (mkAtt true 4 23) [1; 2; 3] [3; 0; 1; 0; 0; 0; 2; 9; 9] 0 None).
Proof.
apply (native_decode_safe (mkAtt true 4 23) [1; 2; 3] [3; 0; 1; 0; 0; 0; 2; 9; 9] 0 None).
- repeat constructor; vm_compute; congruence.
- reflexivity.
- repeat constructor; vm_compute; congruence.
- reflexivity.
- left. reflexivity.
Defined.
End Example_native_decode_safe.

(** C32.  The descriptor's lengths are summed in 64 bits and handed to the block
    codec in 32: a descriptor of two vectors, the first empty and 2^32 - 1
    bytes long, passes every check of a compressed chunk, and the second
    vector is then read 4 GB past the end of the two decompressed bytes. *)
Theorem native_decode_total_truncates `{BlockCodecs} (att : Form_pg_attribute) (values : list Z) (x y : Z) :
  PgColumnarDecompressValueStream values (zlen values) COLUMNAR_COMPRESSION_PGLZ 2 = Ok [x; y] ->
  pgcolumnar_native_decode_chunk att values
    (encdesc 0 [mkEntry 0 0 0 (2 ^ 32 - 1); mkEntry 0 3 3 3] []) COLUMNAR_COMPRESSION_PGLZ None = Oob.
Proof.
  intros Hd. rewrite (native_decode_encdesc att values 0 _ None);
    [|repeat constructor; vm_compute; congruence|done|done|by left].
  change (u32 (u64 (sumZ (eencLen <$> [mkEntry 0 0 0 (2 ^ 32 - 1); mkEntry 0 3 3 3])))) with 2.
  cbn [negb Z.eqb COLUMNAR_COMPRESSION_PGLZ COLUMNAR_COMPRESSION_NONE]. rewrite Hd, bind_Ok. vm_compute. reflexivity.
Qed.

Section Example_native_decode_total_truncates.
#[local] Existing Instance run_codecs.

Lemma native_decode_total_truncates_witness :
pgcolumnar_native_decode_chunk (mkAtt true 4 23) [5]
  (encdesc 0 [mkEntry 0 0 0 (2 ^ 32 - 1); mkEntry 0 3 3 3] []) COLUMNAR_COMPRESSION_PGLZ None = Oob.
Proof. apply (native_decode_total_truncates (mkAtt true 4 23) [5] 5 5). vm_compute. reflexivity. Defined.
End Example_native_decode_total_truncates.

(** The scan computes the bitmap's length from the row count in 32 bits, so
    a row group whose catalog row count is 2^35 + 8 passes every check with a
    one-byte bitmap: the load of a stored bitmap succeeds, and the presence
    bit of row 64, which the row group claims to have, lies outside the
    group's bytes. *)
Theorem scan_row_count_truncates `{BlockCodecs} (att : Form_pg_attribute) :
  let desc := encdesc 0 [mkEntry COLUMNAR_ENCODING_NONE 1 4 4] [] in
  let buffer := [1; 7; 0; 0; 0] in
  let rg := mkRowGroup 0 5 (2 ^ 35 + 8) in
  exists d,
    native_load_chunk att rg (mkChunk 0 5 desc COLUMNAR_COMPRESSION_NONE) buffer None
    = Ok (Stored 0, Decoded d) /\
    row_present buffer (Stored 0) 0 = Ok true /\ 64 < rgRowCount rg /\
    row_present buffer (Stored 0) 64 = Oob.
Proof.
  intros desc buffer rg. eexists. split; [vm_compute; reflexivity|]. by vm_compute.
Qed.
