(* ===== verification/Value.v ===== *)
(** * Values of a column stream

    [PgColumnarEncodeValue], [PgColumnarDecodeValue] and
    [pgcolumnar_skip_value] of [columnar_reader.c]: one datum in and out of a
    packed value stream.  A datum is a machine word for a by-value type and the
    bytes it points at otherwise.  PostgreSQL's [store_att_byval]/[fetch_att]
    and [pg_detoast_datum] are parameters, with what their documentation says
    of them in [TupMacsLaws]. *)

From S2P Require Import Prelude BitPack Codec Varlena.

Inductive Datum :=
| ByVal (word : Z)
| ByRef (bytes : list Z).

#[export] Instance Datum_eq_dec : EqDecision Datum.
Proof. solve_decision. Defined.

Class TupMacs : Type := {
  store_att_byval : Z -> Z -> res (list Z);
  fetch_att : list Z -> Z -> res Z;
  pg_detoast_datum : list Z -> list Z
}.

(** A by-value word as the server forms it: sign-extended from its width. *)
Definition byval_word (len w : Z) : Prop :=
  (len = 1 \/ len = 2 \/ len = 4 \/ len = 8) /\
  exists s, - 2 ^ (8 * len - 1) <= s < 2 ^ (8 * len - 1) /\ w = u64 s.

(** An inline, uncompressed varlena with a full four-byte header. *)
Definition flat_varlena (v : list Z) : bool :=
  match v with
  | b :: _ => (Z.land b 3 =? 0) && inline_varlena v
  | [] => false
  end.

(** [varlena_datum] holds of the bytes of a datum of a varlena type, however it
    is packaged. *)
Class TupMacsLaws `{TupMacs} : Type := {
  varlena_datum : list Z -> Prop;
  fetch_store : forall len w, byval_word len w ->
    exists b, store_att_byval w len = Ok b /\ zlen b = len /\ bytes_ok b /\ fetch_att b len = Ok w;
  detoast_flat : forall v, varlena_datum v ->
    bytes_ok (pg_detoast_datum v) /\ flat_varlena (pg_detoast_datum v) = true;
  detoast_same : forall v, flat_varlena v = true -> pg_detoast_datum v = v;
  flat_datum : forall v, bytes_ok v -> flat_varlena v = true -> varlena_datum v
}.

(** [VARSIZE] of a datum with a four-byte header. *)
Definition VARSIZE (p : list Z) : res Z :=
  hb ← rd p 0 4; Ok (Z.land (Z.shiftr (le_uint hb) 2) (2 ^ 30 - 1)).

Section Codec.
Context `{TupMacs} `{VarattExternal}.

Definition PgColumnarEncodeValueByLen (buf : list Z) (byval : bool) (len : Z) (value : Datum) : res (list Z) :=
  match byval, value with
  | true, ByVal w =>
      tmp ← store_att_byval w len;
      b ← rd tmp 0 len;
      Ok (buf ++ b)
  | false, ByRef p =>
      if 0 <? len then b ← rd p 0 len; Ok (buf ++ b)
      else if len =? -1 then
        let detoasted := pg_detoast_datum p in
        n ← VARSIZE detoasted;
        b ← rd detoasted 0 n;
        Ok (buf ++ b)
      else Err "columnar phase 1 does not support column type with attlen"
  | _, _ => Oob
  end.

Definition PgColumnarEncodeValue (buf : list Z) (att : Form_pg_attribute) (value : Datum) : res (list Z) :=
  PgColumnarEncodeValueByLen buf (attbyval att) (attlen att) value.

(** [p] is the stream from the cursor to its end; the second result is how far
    the cursor moves. *)
Definition PgColumnarDecodeValueByLen (byval : bool) (len : Z) (p : list Z) : res (Datum * Z) :=
  if byval then
    if zlen p <? len then Err "pgcolumnar: fixed-length value runs past the value stream end"
    else b ← rd p 0 len; w ← fetch_att b len; Ok (ByVal w, len)
  else if 0 <? len then
    if zlen p <? len then Err "pgcolumnar: fixed-length value runs past the value stream end"
    else _ ← MemoryContextAlloc len; b ← rd p 0 len; Ok (ByRef b, len)
  else
    n ← PgColumnarVarSizeAnyUnalignedBounded p;
    _ ← MemoryContextAlloc n;
    b ← rd p 0 n;
    Ok (ByRef b, n).

Definition PgColumnarDecodeValue (att : Form_pg_attribute) (p : list Z) : res (Datum * Z) :=
  PgColumnarDecodeValueByLen (attbyval att) (attlen att) p.

Definition pgcolumnar_skip_value (att : Form_pg_attribute) (p : list Z) : res Z :=
  if attbyval att || (0 <? attlen att) then
    if zlen p <? attlen att then Err "pgcolumnar: fixed-length value runs past the value stream end"
    else Ok (attlen att)
  else PgColumnarVarSizeAnyUnalignedBounded p.

End Codec.

(** A datum of a type with this storage. *)
Definition datum_ok `{TupMacsLaws} (byval : bool) (len : Z) (v : Datum) : Prop :=
  match byval, v with
  | true, ByVal w => byval_word len w
  | false, ByRef p =>
      if 0 <? len then bytes_ok p /\ zlen p = len /\ len <= MaxAllocSize
      else len = -1 /\ varlena_datum p /\ zlen (pg_detoast_datum p) <= MaxAllocSize
  | _, _ => False
  end.

(** The datum a reader builds for it: the same, less its TOAST packaging. *)
Definition stored_datum `{TupMacs} (len : Z) (v : Datum) : Datum :=
  match v with
  | ByRef p => if len =? -1 then ByRef (pg_detoast_datum p) else v
  | ByVal _ => v
  end.

Lemma flat_varlena_inline v :
  flat_varlena v = true -> inline_varlena v = true /\ 4 <= zlen v /\ VARSIZE v = Ok (zlen v).
Proof.
  destruct v as [|b v]; [done|]. unfold flat_varlena. intros [Hb%Z.eqb_eq Hi]%andb_true_iff. split; [done|].
  assert (Hb1 : VARATT_IS_1B b = false).
  { unfold VARATT_IS_1B. apply Z.eqb_neq. intros E. assert (Z.testbit (Z.land b 3) 0 = false) by (by rewrite Hb).
    assert (Z.testbit (Z.land b 1) 0 = true) by (by rewrite E). rewrite Z.land_spec in *. by destruct (Z.testbit b 0). }
  cbn [inline_varlena] in Hi. rewrite Hb1 in Hi.
  apply andb_true_iff in Hi as [H4%Z.leb_le Hl%Z.eqb_eq]. split; [done|].
  unfold VARSIZE. rewrite rd_Ok, bind_Ok by lia. f_equal. exact Hl.
Qed.

Lemma rd_all (b : list Z) : rd b 0 (zlen b) = Ok b.
Proof.
  pose proof (zlen_nonneg b). rewrite rd_Ok by lia. rewrite drop_0, take_ge; [done|]. unfold zlen. lia.
Qed.

Section CodecProofs.
Context `{TupMacsLaws} `{VarattExternal}.

(** Encoding appends a value of the stream; decoding and skipping that value
    move the cursor past exactly those bytes. *)
Lemma encode_decode_value byval len v rest buf :
  datum_ok byval len v ->
  exists b, PgColumnarEncodeValueByLen buf byval len v = Ok (buf ++ b) /\ bytes_ok b /\
    (if 0 <? len then zlen b = len else len = -1 /\ inline_varlena b = true) /\
    PgColumnarDecodeValueByLen byval len (b ++ rest) = Ok (stored_datum len v, zlen b).
Proof.
  intros Hv. pose proof (zlen_nonneg rest).
  destruct byval, v as [w|p]; try done; cbn [datum_ok] in Hv;
    cbn [PgColumnarEncodeValueByLen stored_datum].
  - pose proof Hv as [Hlen _]. destruct (fetch_store len w Hv) as (b & Hs & Hb & Hok & Hf).
    assert (0 < len) by lia.
    exists b. rewrite Hs, bind_Ok. rewrite <- Hb at 1. rewrite rd_all, bind_Ok.
    repeat split; try done; [by destruct (Z.ltb_spec 0 len); [|lia]|].
    unfold PgColumnarDecodeValueByLen. rewrite zlen_app, (proj2 (Z.ltb_ge _ _)) by lia.
    rewrite (rd_at [] b rest), bind_Ok by done. by rewrite Hf, bind_Ok, Hb.
  - destruct (Z.ltb_spec 0 len) as [Hpos|Hneg].
    + destruct Hv as (Hok & Hlen & Hmax). exists p. rewrite <- Hlen at 1. rewrite rd_all, bind_Ok.
      repeat split; try done. unfold PgColumnarDecodeValueByLen.
      destruct (Z.ltb_spec 0 len); [|lia]. rewrite zlen_app, (proj2 (Z.ltb_ge _ _)) by lia.
      rewrite MemoryContextAlloc_Ok, bind_Ok by lia. rewrite (rd_at [] p rest), bind_Ok by done.
      rewrite (proj2 (Z.eqb_neq len (-1))) by lia. by rewrite Hlen.
    + destruct Hv as (-> & Hp & Hmax). destruct (detoast_flat p Hp) as [Hok' Hflat].
      destruct (flat_varlena_inline _ Hflat) as (Hin & H4 & HV). set (d := pg_detoast_datum p) in *.
      exists d. change (-1 =? -1) with true. cbv iota. rewrite HV, bind_Ok, rd_all, bind_Ok.
      repeat split; try done. unfold PgColumnarDecodeValueByLen. change (0 <? -1) with false. cbv iota.
      rewrite bounded_inline, bind_Ok by done. rewrite MemoryContextAlloc_Ok, bind_Ok by lia.
      by rewrite (rd_at [] d rest), bind_Ok.
Qed.

(** Detoasting twice is detoasting once. *)
Lemma stored_datum_ok byval len v : datum_ok byval len v -> datum_ok byval len (stored_datum len v).
Proof.
  destruct byval, v as [w|p]; try done. cbn [stored_datum datum_ok]. destruct (Z.ltb_spec 0 len).
  - intros Hv. rewrite (proj2 (Z.eqb_neq len (-1))) by lia. cbn [datum_ok].
    by destruct (Z.ltb_spec 0 len); [|lia].
  - intros (-> & Hp & Hmax). destruct (detoast_flat p Hp) as [Hok Hflat]. change (-1 =? -1) with true.
    cbv iota. rewrite (detoast_same (pg_detoast_datum p)) by done.
    repeat split; [|done]. by apply flat_datum.
Qed.

Lemma stored_datum_idem byval len v :
  datum_ok byval len v -> stored_datum len (stored_datum len v) = stored_datum len v.
Proof.
  destruct byval, v as [w|p]; try done. cbn [stored_datum datum_ok]. destruct (Z.ltb_spec 0 len).
  - intros _. rewrite (proj2 (Z.eqb_neq len (-1))) by lia. cbn [stored_datum].
    by rewrite (proj2 (Z.eqb_neq len (-1))) by lia.
  - intros (-> & Hp & _). change (-1 =? -1) with true. cbv iota. cbn [stored_datum].
    change (-1 =? -1) with true. cbv iota. destruct (detoast_flat p Hp) as [_ Hf]. by rewrite detoast_same.
Qed.

(** [b] is what the stream holds for the datum [v]: whatever follows, decoding
    gives the datum and skipping moves as far. *)
Definition encodes (att : Form_pg_attribute) (v : Datum) (b : list Z) : Prop :=
  value_ok att b /\
  forall rest, PgColumnarDecodeValue att (b ++ rest) = Ok (stored_datum (attlen att) v, zlen b) /\
    pgcolumnar_skip_value att (b ++ rest) = Ok (zlen b).

Lemma skip_encoded byval len typ b rest :
  (byval = true -> 0 < len) ->
  (if 0 <? len then zlen b = len else len = -1 /\ inline_varlena b = true) ->
  pgcolumnar_skip_value (mkAtt byval len typ) (b ++ rest) = Ok (zlen b).
Proof.
  intros Hb Hl. unfold pgcolumnar_skip_value. cbn [attbyval attlen]. pose proof (zlen_nonneg rest).
  destruct (Z.ltb_spec 0 len).
  - rewrite orb_true_r, zlen_app, (proj2 (Z.ltb_ge _ _)) by lia. by rewrite Hl.
  - destruct byval; [specialize (Hb eq_refl); lia|]. apply bounded_inline, Hl.
Qed.

(** Writing a datum in its stored form appends an encoding of it. *)
Lemma encode_stored att v buf :
  datum_ok (attbyval att) (attlen att) v ->
  exists b, PgColumnarEncodeValue buf att (stored_datum (attlen att) v) = Ok (buf ++ b) /\ encodes att v b.
Proof.
  intros Hv. pose proof (stored_datum_ok _ _ _ Hv) as Hs. pose proof (stored_datum_idem _ _ _ Hv) as Hi.
  destruct (encode_decode_value _ _ _ [] buf Hs) as (b & He & Hb & Hl & _). exists b. split; [done|].
  split; [done|]. intros rest. split.
  - destruct (encode_decode_value _ _ _ rest buf Hs) as (b' & He' & _ & _ & Hd).
    rewrite He in He'. injection He' as He'%(inj (app buf)). subst b'. by rewrite Hi in Hd.
  - destruct att as [byval len typ]. apply skip_encoded; [|done]. intros ->. cbn in Hv.
    destruct v; [|done]. destruct Hv as [[ | [ | [ | ]]] _]; lia.
Qed.
End CodecProofs.

(** ** An instance for evaluation *)

(** Words in little-endian order, sign-extended when fetched; every value is
    already flat. *)
Definition tupmacs_le : TupMacs := {|
  store_att_byval := fun w len => Ok (le_bytes (Z.to_nat len) w);
  fetch_att := fun b len => Ok (u64 ((le_uint b + 2 ^ (8 * len - 1)) mod 2 ^ (8 * len) - 2 ^ (8 * len - 1)));
  pg_detoast_datum := fun v => v
|}.

Lemma fetch_store_le len w :
  byval_word len w ->
  let b := le_bytes (Z.to_nat len) w in
  zlen b = len /\ bytes_ok b /\
  u64 ((le_uint b + 2 ^ (8 * len - 1)) mod 2 ^ (8 * len) - 2 ^ (8 * len - 1)) = w.
Proof.
  intros [Hlen (s & Hs & ->)] b. assert (0 < len <= 8) by lia. unfold b.
  rewrite zlen_le_bytes, Z2Nat.id by lia. split; [done|]. split; [apply le_bytes_ok|].
  rewrite le_uint_le_bytes. unfold u64. rewrite Z2Nat.id by lia.
  assert (Hmod : (s mod 2 ^ 64) mod 2 ^ (8 * len) = s mod 2 ^ (8 * len)).
  { apply Z.mod_mod_divide. exists (2 ^ (64 - 8 * len)). rewrite <- Z.pow_add_r by lia. f_equal. lia. }
  rewrite Hmod, Zplus_mod_idemp_l. rewrite (Z.mod_small (s + _)); [by rewrite Z.add_simpl_r|].
  replace (2 ^ (8 * len)) with (2 * 2 ^ (8 * len - 1)) by (rewrite <- Z.pow_succ_r; [f_equal; lia|lia]). lia.
Qed.

Lemma tupmacs_le_laws : @TupMacsLaws tupmacs_le.
Proof.
  refine (@Build_TupMacsLaws tupmacs_le (fun v => bytes_ok v /\ flat_varlena v = true) _ _ _ _).
  - intros len w Hw. destruct (fetch_store_le len w Hw) as (Hl & Hb & He).
    eexists. split; [reflexivity|]. repeat split; [done..|]. cbn. by rewrite He.
  - done.
  - done.
  - done.
Defined.
