(* ===== verification/ZoneMap.v ===== *)
(** * Zone maps

    The statistics a writer keeps beside a column chunk and the tests a reader
    makes against them.  Writer: the running minimum, maximum, sum and greatest
    range upper bound of a chunk group's values, accumulated one value at a
    time by [PgColumnarWriteRow] and folded into per-vector and whole-chunk
    zone maps by [flush_one_column] ([columnar_write_state.c]).  Reader:
    [native_zone_excludes], [native_range_excludes] and
    [native_value_satisfies] ([columnar_reader.c]), whose "excluded" lets a
    scan skip a vector or a whole row group.

    Comparison, hash and range functions are the server's (FmgrInfo); they are
    fields of the column definition and of the predicate. *)

From S2P Require Import Prelude BitPack Codec IntCodecs Varlena Flush Value.

(** [FunctionCall2Coll] of a btree comparison support function. *)
Definition cmp_fn := Datum -> Datum -> Z.

Record RangeBound := mkBound { bval : Datum; infinite : bool; inclusive : bool }.

(** What [range_deserialize] returns: lower bound, upper bound, emptiness. *)
Definition range_fn := Datum -> RangeBound * RangeBound * bool.

Inductive PgColumnarFastCmp :=
| COLUMNAR_FASTCMP_NONE | COLUMNAR_FASTCMP_I16 | COLUMNAR_FASTCMP_I32 | COLUMNAR_FASTCMP_I64.

Record PgColumnarColumnDef := mkDef {
  orderable : bool; cmpFn : cmp_fn; fastCmp : PgColumnarFastCmp;
  isRange : bool; range_deserialize : range_fn; elemCmpFn : cmp_fn; elemByVal : bool; elemLen : Z;
  summableInt : bool; bloomable : bool; hashFn : Datum -> Z
}.

(** [hasMaxUpper], [upperUnbounded] and [maxUpper]: nothing seen, a bound, or a
    value unbounded above (the bound is then never read). *)
Inductive max_upper (A : Type) :=
| NoUpper
| Upper (v : A)
| Unbounded.
Arguments NoUpper {A}. Arguments Upper {A}. Arguments Unbounded {A}.

(** The rest of [ColumnChunkBuffer]: [hasMinMax] with [minValue] and [maxValue],
    the greatest upper bound, the sum, the hashes. *)
Record ColumnStats := mkStats {
  streams_of : ColumnChunkBuffer;
  minMax : option (Datum * Datum);
  maxUpper : max_upper Datum;
  sum : Z;
  hashBuf : list Z
}.

Definition stats_init : ColumnStats := mkStats (mkCol [] [] 0) None NoUpper 0 [].

Definition INT2OID : Z := 21.

(** A datum used as a by-value word. *)
Definition datum_word (d : Datum) : res Z :=
  match d with ByVal w => Ok w | ByRef _ => Oob end.

Definition cmp3 (x y : Z) : Z := if x <? y then -1 else if y <? x then 1 else 0.

Definition pgcolumnar_cmp_value (def : PgColumnarColumnDef) (a b : Datum) : res Z :=
  match fastCmp def with
  | COLUMNAR_FASTCMP_I16 => x ← datum_word a; y ← datum_word b; Ok (cmp3 (s16 x) (s16 y))
  | COLUMNAR_FASTCMP_I32 => x ← datum_word a; y ← datum_word b; Ok (cmp3 (s32 x) (s32 y))
  | COLUMNAR_FASTCMP_I64 => x ← datum_word a; y ← datum_word b; Ok (cmp3 (s64 x) (s64 y))
  | COLUMNAR_FASTCMP_NONE => Ok (cmpFn def a b)
  end.

(** ** Accumulating one value *)

Definition min_max_step (def : PgColumnarColumnDef) (v : Datum) (mm : option (Datum * Datum))
    : res (option (Datum * Datum)) :=
  match mm with
  | None => Ok (Some (v, v))
  | Some (mn, mx) =>
      cmpMax ← pgcolumnar_cmp_value def v mx;
      if 0 <? cmpMax then Ok (Some (mn, v))
      else
        cmpMin ← pgcolumnar_cmp_value def v mn;
        if cmpMin <? 0 then Ok (Some (v, mx)) else Ok (Some (mn, mx))
  end.

Definition max_upper_step (def : PgColumnarColumnDef) (v : Datum) (mu : max_upper Datum)
    : max_upper Datum :=
  let '(_, rupper, rempty) := range_deserialize def v in
  if (rempty : bool) then mu
  else if infinite rupper then Unbounded
  else match mu with
       | Unbounded => Unbounded
       | NoUpper => Upper (bval rupper)
       | Upper u => if 0 <? elemCmpFn def (bval rupper) u then Upper (bval rupper) else mu
       end.

Section WriteValue.
Context `{TupMacs} `{VarattExternal}.

(** One column of [PgColumnarWriteRow]. *)
Definition write_value (def : PgColumnarColumnDef) (att : Form_pg_attribute) (col : ColumnStats)
    (value : option Datum) : res ColumnStats :=
  let s := streams_of col in
  match value with
  | None =>
      Ok (mkStats (mkCol (valueStream s) (existsStream s ++ [0]) (valueCount s))
            (minMax col) (maxUpper col) (sum col) (hashBuf col))
  | Some value =>
      v ← (if attlen att =? -1
           then match value with ByRef p => Ok (ByRef (pg_detoast_datum p)) | ByVal _ => Oob end
           else Ok value);
      stream ← PgColumnarEncodeValue (valueStream s) att v;
      sum' ← (if summableInt def
              then w ← datum_word v;
                   Ok (s64 (sum col + (if atttypid att =? INT2OID then s16 w else s32 w)))
              else Ok (sum col));
      mm ← (if orderable def then min_max_step def v (minMax col) else Ok (minMax col));
      Ok (mkStats (mkCol stream (existsStream s ++ [1]) (u64 (valueCount s + 1)))
            mm
            (if isRange def then max_upper_step def v (maxUpper col) else maxUpper col)
            sum'
            (if bloomable def then hashBuf col ++ [u32 (hashFn def v)] else hashBuf col))
  end.

Fixpoint write_values (def : PgColumnarColumnDef) (att : Form_pg_attribute) (col : ColumnStats)
    (values : list (option Datum)) : res ColumnStats :=
  match values with
  | [] => Ok col
  | v :: rest => col ← write_value def att col v; write_values def att col rest
  end.

(** ** Zone maps of a flush *)

Record NativeZoneMapMetadata := mkZone {
  zoneMinMax : option (list Z * list Z);
  zoneSum : option Z;
  zoneValueCount : Z; zoneNullCount : Z;
  zoneMaxUpper : max_upper (list Z)
}.

(** A chunk group as the flush sees it: its row count and the column's buffer. *)
Definition stats_group : Type := Z * ColumnStats.

(** The encoded bounds of a zone map. *)
Definition zone_bounds (att : Form_pg_attribute) (mm : option (Datum * Datum))
    : res (option (list Z * list Z)) :=
  match mm with
  | None => Ok None
  | Some (mn, mx) =>
      a ← PgColumnarEncodeValue [] att mn;
      b ← PgColumnarEncodeValue [] att mx;
      Ok (Some (a, b))
  end.

Definition zone_upper (def : PgColumnarColumnDef) (mu : max_upper Datum) : res (max_upper (list Z)) :=
  match mu with
  | NoUpper => Ok NoUpper
  | Unbounded => Ok Unbounded
  | Upper v => b ← PgColumnarEncodeValueByLen [] (elemByVal def) (elemLen def) v; Ok (Upper b)
  end.

Definition make_zone (def : PgColumnarColumnDef) (att : Form_pg_attribute) (rows : Z) (count : Z)
    (total : Z) (mm : option (Datum * Datum)) (mu : max_upper Datum) : res NativeZoneMapMetadata :=
  bounds ← zone_bounds att mm;
  upper ← zone_upper def mu;
  Ok (mkZone bounds (if summableInt def && (0 <? count) then Some total else None)
        count (u64 (rows - count)) upper).

(** The per-vector zone map. *)
Definition vector_zone (def : PgColumnarColumnDef) (att : Form_pg_attribute) (g : stats_group)
    : res NativeZoneMapMetadata :=
  make_zone def att g.1 (valueCount (streams_of g.2)) (sum g.2) (minMax g.2) (maxUpper g.2).

(** The running whole-chunk values of the flush loop. *)
Record chunk_fold := mkFold {
  chunkMinMax : option (Datum * Datum);
  chunkMaxUpper : max_upper Datum;
  chunkValueCount : Z;
  chunkSum : Z
}.

Definition fold_min_max (def : PgColumnarColumnDef) (mm acc : option (Datum * Datum))
    : option (Datum * Datum) :=
  match mm, acc with
  | None, _ => acc
  | Some _, None => mm
  | Some (mn, mx), Some (cmn, cmx) =>
      Some (if cmpFn def mn cmn <? 0 then mn else cmn, if 0 <? cmpFn def mx cmx then mx else cmx)
  end.

Definition fold_max_upper (def : PgColumnarColumnDef) (mu acc : max_upper Datum) : max_upper Datum :=
  match mu, acc with
  | NoUpper, _ => acc
  | _, NoUpper => mu
  | Unbounded, _ => Unbounded
  | Upper _, Unbounded => Unbounded
  | Upper v, Upper u => if 0 <? elemCmpFn def v u then Upper v else acc
  end.

Definition chunk_fold_step (def : PgColumnarColumnDef) (g : stats_group) (acc : chunk_fold) : chunk_fold :=
  mkFold (fold_min_max def (minMax g.2) (chunkMinMax acc))
    (fold_max_upper def (maxUpper g.2) (chunkMaxUpper acc))
    (u64 (chunkValueCount acc + valueCount (streams_of g.2)))
    (s64 (chunkSum acc + sum g.2)).

Definition chunk_folded (def : PgColumnarColumnDef) (groups : list stats_group) : chunk_fold :=
  fold_left (fun acc g => chunk_fold_step def g acc) groups (mkFold None NoUpper 0 0).

(** Vector zone maps in order, then the whole-chunk one (vector index -1). *)
Definition flush_zone_rows (def : PgColumnarColumnDef) (att : Form_pg_attribute) (rowCount : Z)
    (groups : list stats_group) : res (list NativeZoneMapMetadata * NativeZoneMapMetadata) :=
  vectors ← mapM (vector_zone def att) groups;
  let c := chunk_folded def groups in
  chunk ← make_zone def att rowCount (chunkValueCount c) (chunkSum c) (chunkMinMax c) (chunkMaxUpper c);
  Ok (vectors, chunk).
End WriteValue.

(** ** Predicates of a scan *)

Definition BTLessStrategyNumber : Z := 1.
Definition BTLessEqualStrategyNumber : Z := 2.
Definition BTEqualStrategyNumber : Z := 3.
Definition BTGreaterEqualStrategyNumber : Z := 4.
Definition BTGreaterStrategyNumber : Z := 5.

Inductive range_kind := PGC_RANGE_OVERLAP | PGC_RANGE_CONTAINS_ELEM | PGC_RANGE_OTHER.

Record SkipPredicate := mkPred {
  attidx : Z;
  strategy : Z; compareValue : Datum; pcmpFn : cmp_fn;
  searchArray : bool; arrayValues : list Datum;
  hasHash : bool; phashFn : Datum -> Z; runtimeFilter : bool;
  rangePred : bool; rangeKind : range_kind;
  probeLower : RangeBound; probeUpper : RangeBound; probeElem : Datum;
  pelemCmpFn : cmp_fn; pelemByVal : bool; pelemLen : Z; prange_deserialize : range_fn
}.

Definition native_value_satisfies (pred : SkipPredicate) (val : Datum) : bool :=
  if rangePred pred then true
  else if searchArray pred
  then existsb (fun a => pcmpFn pred val a =? 0) (arrayValues pred)
  else
    let c := pcmpFn pred val (compareValue pred) in
    if strategy pred =? BTLessStrategyNumber then c <? 0
    else if strategy pred =? BTLessEqualStrategyNumber then c <=? 0
    else if strategy pred =? BTEqualStrategyNumber then c =? 0
    else if strategy pred =? BTGreaterEqualStrategyNumber then 0 <=? c
    else if strategy pred =? BTGreaterStrategyNumber then 0 <? c
    else true.

Section Excludes.
Context `{TupMacs} `{VarattExternal}.

Definition native_range_excludes (pred : SkipPredicate) (att : Form_pg_attribute)
    (z : option NativeZoneMapMetadata) : res bool :=
  match z with
  | None => Ok false
  | Some z =>
    match zoneMinMax z with
    | None => Ok false
    | Some (mn, _) =>
      let stored := match zoneMaxUpper z with
                    | Upper b => if 0 <? zlen b then Some b else None
                    | _ => None
                    end in
      ' (minv, _) ← PgColumnarDecodeValue att mn;
      let '(unitLower, _, unitEmpty) := prange_deserialize pred minv in
      if (unitEmpty : bool) then Ok false
      else
        upper ← (match stored with
                 | None => Ok None
                 | Some b =>
                     ' (u, _) ← PgColumnarDecodeValueByLen (pelemByVal pred) (pelemLen pred) b;
                     Ok (Some u)
                 end);
        match rangeKind pred with
        | PGC_RANGE_OVERLAP =>
            let ends_before :=
              match upper with
              | Some u =>
                  negb (infinite (probeLower pred)) &&
                  (let c := pelemCmpFn pred u (bval (probeLower pred)) in
                   (c <? 0) || ((c =? 0) && negb (inclusive (probeLower pred))))
              | None => false
              end in
            let starts_after :=
              negb (infinite unitLower) && negb (infinite (probeUpper pred)) &&
              (let c := pelemCmpFn pred (bval unitLower) (bval (probeUpper pred)) in
               (0 <? c) || ((c =? 0) && negb (inclusive unitLower && inclusive (probeUpper pred)))) in
            Ok (ends_before || starts_after)
        | PGC_RANGE_CONTAINS_ELEM =>
            let past := match upper with
                        | Some u => pelemCmpFn pred u (probeElem pred) <? 0
                        | None => false
                        end in
            let before := negb (infinite unitLower) &&
                          (0 <? pelemCmpFn pred (bval unitLower) (probeElem pred)) in
            Ok (past || before)
        | PGC_RANGE_OTHER => Ok false
        end
    end
  end.

Definition native_zone_excludes (pred : SkipPredicate) (att : Form_pg_attribute)
    (z : option NativeZoneMapMetadata) : res bool :=
  if rangePred pred then native_range_excludes pred att z
  else
    match z with
    | None => Ok false
    | Some z =>
      match zoneMinMax z with
      | None => Ok false
      | Some (mn, mx) =>
        ' (minv, _) ← PgColumnarDecodeValue att mn;
        ' (maxv, _) ← PgColumnarDecodeValue att mx;
        if searchArray pred
        then Ok (negb (existsb (fun a => (pcmpFn pred minv a <=? 0) && (0 <=? pcmpFn pred maxv a))
                         (arrayValues pred)))
        else
          let c1 := pcmpFn pred minv (compareValue pred) in
          let c2 := pcmpFn pred maxv (compareValue pred) in
          Ok (if strategy pred =? BTLessStrategyNumber then 0 <=? c1
              else if strategy pred =? BTLessEqualStrategyNumber then 0 <? c1
              else if strategy pred =? BTEqualStrategyNumber then (0 <? c1) || (c2 <? 0)
              else if strategy pred =? BTGreaterEqualStrategyNumber then c2 <? 0
              else if strategy pred =? BTGreaterStrategyNumber then c2 <=? 0
              else false)
      end
    end.
End Excludes.

(** ** What the comparison functions promise *)

(** A btree support function orders the values of its type. *)
Record btree_order (dom : Datum -> Prop) (cmp : cmp_fn) : Prop := {
  cmp_refl : forall a, dom a -> cmp a a = 0;
  cmp_flip : forall a b, dom a -> dom b -> 0 <= cmp a b <-> cmp b a <= 0;
  cmp_trans : forall a b c, dom a -> dom b -> dom c -> cmp a b <= 0 -> cmp b c <= 0 -> cmp a c <= 0
}.

(** The direct integer comparisons give the support function's answer. *)
Definition fast_matches (dom : Datum -> Prop) (def : PgColumnarColumnDef) : Prop :=
  let agrees (conv : Z -> Z) :=
    forall a, dom a -> exists x, a = ByVal x /\
      forall b y, dom b -> b = ByVal y -> Z.sgn (cmpFn def a b) = Z.sgn (conv x - conv y) in
  match fastCmp def with
  | COLUMNAR_FASTCMP_NONE => True
  | COLUMNAR_FASTCMP_I16 => agrees s16
  | COLUMNAR_FASTCMP_I32 => agrees s32
  | COLUMNAR_FASTCMP_I64 => agrees s64
  end.

(** Across types of one operator family: comparing with a constant respects the
    column's own order. *)
Definition same_family (dom : Datum -> Prop) (cmp pcmp : cmp_fn) : Prop :=
  forall a b c, dom a -> dom b -> cmp a b <= 0 ->
    (pcmp b c <= 0 -> pcmp a c <= 0) /\ (0 <= pcmp a c -> 0 <= pcmp b c).

(** ** The accumulators bound the values *)

(** [mm] bounds every value of [vs], and is one of them at each end. *)
Definition bounds_of (dom : Datum -> Prop) (cmp : cmp_fn) (mm : option (Datum * Datum)) (vs : list Datum) : Prop :=
  match mm with
  | None => vs = []
  | Some (mn, mx) =>
      dom mn /\ dom mx /\ mn ∈ vs /\ mx ∈ vs /\
      Forall (fun v => cmp mn v <= 0 /\ cmp v mx <= 0) vs
  end.

Section Order.
Context (dom : Datum -> Prop) (def : PgColumnarColumnDef).
Context (Hord : btree_order dom (cmpFn def)) (Hfast : fast_matches dom def).

Lemma cmp3_sgn x y : cmp3 x y = Z.sgn (x - y).
Proof.
  unfold cmp3. destruct (Z.ltb_spec x y); [|destruct (Z.ltb_spec y x)]; symmetry.
  - apply Z.sgn_neg. lia.
  - apply Z.sgn_pos. lia.
  - replace (x - y) with 0 by lia. done.
Qed.

Lemma cmp_value_sgn a b :
  dom a -> dom b -> exists c, pgcolumnar_cmp_value def a b = Ok c /\ Z.sgn c = Z.sgn (cmpFn def a b).
Proof.
  intros Ha Hb. unfold pgcolumnar_cmp_value. unfold fast_matches in Hfast.
  destruct (fastCmp def); [by eexists| | |];
    destruct (Hfast a Ha) as (x & -> & Hx); destruct (Hfast b Hb) as (y & -> & _);
    cbn [datum_word]; rewrite !bind_Ok; eexists; (split; [done|]);
    by rewrite cmp3_sgn, (Hx _ y Hb eq_refl), Z.sgn_sgn.
Qed.

Lemma sgn_le0 c d : Z.sgn c = Z.sgn d -> (c <= 0 <-> d <= 0) /\ (0 <= c <-> 0 <= d).
Proof. destruct (Z.sgn_spec c) as [[? ->]|[[? ->]|[? ->]]], (Z.sgn_spec d) as [[? ->]|[[? ->]|[? ->]]]; lia. Qed.

(** Extending a bounded list by a value at or beyond one end, or between. *)
Lemma bounds_snoc mn mx vs v mn' mx' :
  bounds_of dom (cmpFn def) (Some (mn, mx)) vs -> Forall dom vs -> dom v ->
  cmpFn def mn' mn <= 0 -> cmpFn def mx mx' <= 0 -> cmpFn def mn' v <= 0 -> cmpFn def v mx' <= 0 ->
  (mn' = mn \/ mn' = v) -> (mx' = mx \/ mx' = v) ->
  bounds_of dom (cmpFn def) (Some (mn', mx')) (vs ++ [v]).
Proof.
  intros (Hmn & Hmx & Imn & Imx & Hall) Hvs Hv H1 H2 H3 H4 Emn Emx.
  assert (Dmn : dom mn') by (by destruct Emn as [->| ->]).
  assert (Dmx : dom mx') by (by destruct Emx as [->| ->]).
  cbn. rewrite !elem_of_app, !list_elem_of_singleton.
  repeat split; [done..|destruct Emn as [->| ->]; auto|destruct Emx as [->| ->]; auto|].
  rewrite Forall_app, Forall_singleton. split; [|done].
  rewrite list.Forall_forall in Hall, Hvs |- *. intros x Hx. destruct (Hall x Hx).
  split; [apply (cmp_trans _ _ Hord _ mn)|apply (cmp_trans _ _ Hord _ mx)]; auto.
Qed.

(** One step of the running minimum and maximum. *)
Lemma min_max_step_spec mm vs v :
  bounds_of dom (cmpFn def) mm vs -> Forall dom vs -> dom v ->
  exists mm', min_max_step def v mm = Ok mm' /\ bounds_of dom (cmpFn def) mm' (vs ++ [v]).
Proof.
  intros Hb Hvs Hv. pose proof (cmp_refl _ _ Hord v Hv) as Hrefl.
  destruct mm as [[mn mx]|]; cbn [min_max_step].
  - pose proof Hb as (Hmn & Hmx & Imn & Imx & Hall). rewrite list.Forall_forall in Hall.
    pose proof (cmp_refl _ _ Hord _ Hmn). pose proof (cmp_refl _ _ Hord _ Hmx).
    destruct (cmp_value_sgn v mx Hv Hmx) as (c & -> & [Hc1 Hc2]%sgn_le0). rewrite bind_Ok.
    destruct (Z.ltb_spec 0 c) as [Hgt|Hle].
    + assert (cmpFn def mx v <= 0) by (apply (cmp_flip _ _ Hord); [done..|lia]).
      eexists. split; [done|]. apply (bounds_snoc mn mx); auto; try lia.
      apply (cmp_trans _ _ Hord _ mx); auto. by destruct (Hall _ Imn).
    + destruct (cmp_value_sgn v mn Hv Hmn) as (d & -> & [Hd1 Hd2]%sgn_le0). rewrite bind_Ok.
      destruct (Z.ltb_spec d 0); eexists; (split; [done|]); apply (bounds_snoc mn mx); auto; try lia.
      apply (cmp_flip _ _ Hord); [done..|lia].
  - rewrite Hb. eexists. split; [done|]. cbn. rewrite list_elem_of_singleton. repeat split; try done.
    rewrite Forall_singleton. lia.
Qed.

(** Folding the bounds of one chunk group into the chunk's. *)
Lemma fold_min_max_spec mm acc vs ws :
  bounds_of dom (cmpFn def) mm vs -> bounds_of dom (cmpFn def) acc ws -> Forall dom vs -> Forall dom ws ->
  bounds_of dom (cmpFn def) (fold_min_max def mm acc) (ws ++ vs).
Proof.
  intros Hm Ha Hvs Hws. destruct mm as [[mn mx]|]; [|by rewrite Hm, app_nil_r].
  destruct acc as [[cn cx]|]; [|by rewrite Ha]. cbn [fold_min_max].
  destruct Hm as (Hmn & Hmx & Imn & Imx & Hall), Ha as (Hcn & Hcx & Icn & Icx & Hall').
  rewrite list.Forall_forall in Hall, Hall', Hvs, Hws. unfold bounds_of. rewrite !elem_of_app.
  assert (Hn : forall a, dom a -> cmpFn def a a <= 0) by (intros a Ha; rewrite (cmp_refl _ _ Hord a Ha); lia).
  assert (Emn : let n := if cmpFn def mn cn <? 0 then mn else cn in
    dom n /\ (n ∈ ws \/ n ∈ vs) /\ cmpFn def n mn <= 0 /\ cmpFn def n cn <= 0).
  { destruct (Z.ltb_spec (cmpFn def mn cn) 0); cbn; repeat split; auto; [lia|].
    apply (cmp_flip _ _ Hord); auto. }
  assert (Emx : let x := if 0 <? cmpFn def mx cx then mx else cx in
    dom x /\ (x ∈ ws \/ x ∈ vs) /\ cmpFn def mx x <= 0 /\ cmpFn def cx x <= 0).
  { destruct (Z.ltb_spec 0 (cmpFn def mx cx)); cbn; repeat split; auto.
    apply (cmp_flip _ _ Hord); auto. lia. }
  cbn in Emn, Emx. destruct Emn as (D1 & I1 & N1 & N2), Emx as (D2 & I2 & X1 & X2).
  repeat split; try done. apply list.Forall_forall. intros v [Hv|Hv]%elem_of_app.
  - destruct (Hall' v Hv).
    split; [apply (cmp_trans _ _ Hord _ cn)|apply (cmp_trans _ _ Hord _ cx)]; auto.
  - destruct (Hall v Hv).
    split; [apply (cmp_trans _ _ Hord _ mn)|apply (cmp_trans _ _ Hord _ mx)]; auto.
Qed.
End Order.

(** ** Ranges *)

(** The order of a range's bounds: a lower bound is at most another. *)
Definition lower_le (ecmp : cmp_fn) (a b : RangeBound) : Prop :=
  infinite a = true \/
  (infinite a = false /\ infinite b = false /\
   (ecmp (bval a) (bval b) < 0 \/ (ecmp (bval a) (bval b) = 0 /\ (inclusive a = true \/ inclusive b = false)))).

(** What a range type's deserializer and btree order promise: bounds are values
    of the element type, an empty range sorts before any other, and otherwise
    the order is by lower bound first. *)
Record range_order (dom edom : Datum -> Prop) (cmp ecmp : cmp_fn) (rd : range_fn) : Prop := {
  range_lower_elem : forall r lo hi, dom r -> rd r = (lo, hi, false) -> infinite lo = false -> edom (bval lo);
  range_upper_elem : forall r lo hi, dom r -> rd r = (lo, hi, false) -> infinite hi = false -> edom (bval hi);
  range_empty_first : forall a b lo hi, dom a -> dom b -> rd b = (lo, hi, true) -> cmp a b <= 0 ->
    exists lo' hi', rd a = (lo', hi', true);
  range_lower_first : forall a b lo hi lo' hi', dom a -> dom b ->
    rd a = (lo, hi, false) -> rd b = (lo', hi', false) -> cmp a b <= 0 -> lower_le ecmp lo lo'
}.

(** [mu] is at least every upper bound of the non-empty ranges of [vs]. *)
Definition upper_of (edom : Datum -> Prop) (ecmp : cmp_fn) (rd : range_fn) (mu : max_upper Datum)
    (vs : list Datum) : Prop :=
  match mu with
  | NoUpper => Forall (fun v => (rd v).2 = true) vs
  | Unbounded => True
  | Upper u => edom u /\ Forall (fun v => (rd v).2 = false ->
      infinite (rd v).1.2 = false /\ edom (bval (rd v).1.2) /\ ecmp (bval (rd v).1.2) u <= 0) vs
  end.

Section RangeFold.
Context (dom edom : Datum -> Prop) (def : PgColumnarColumnDef).
Context (Heord : btree_order edom (elemCmpFn def)).
Context (Hrange : range_order dom edom (cmpFn def) (elemCmpFn def) (range_deserialize def)).
Let up := upper_of edom (elemCmpFn def) (range_deserialize def).

Lemma upper_weaken u u' vs : up (Upper u) vs -> edom u' -> elemCmpFn def u u' <= 0 -> up (Upper u') vs.
Proof using Heord.
  intros [Hu Hall] Hu' Hle. split; [done|]. eapply list.Forall_impl; [exact Hall|]. intros v Hv He.
  destruct (Hv He) as (Hf & Hd & Hc). repeat split; try done. by apply (cmp_trans _ _ Heord _ u).
Qed.

Lemma upper_empties u vs : edom u -> up NoUpper vs -> up (Upper u) vs.
Proof using.
  intros Hu Hall. split; [done|]. eapply list.Forall_impl; [exact Hall|]. intros v Hv He. congruence.
Qed.

Lemma upper_snoc mu vs v :
  up mu vs -> up mu [v] -> up mu (vs ++ [v]).
Proof using.
  destruct mu as [|u|]; [|intros [Hu H1] [_ H2]|done].
  - intros H1 H2. by apply Forall_app.
  - split; [done|]. by apply Forall_app.
Qed.

Lemma max_upper_step_spec mu vs v :
  up mu vs -> dom v -> up (max_upper_step def v mu) (vs ++ [v]).
Proof using Heord Hrange.
  intros Hu Hv. unfold max_upper_step. destruct (range_deserialize def v) as [[lo hi] e] eqn:E.
  destruct e.
  - apply upper_snoc; [done|]. destruct mu as [|u|]; [| |done].
    + apply Forall_singleton. by rewrite E.
    + split; [apply Hu|]. apply Forall_singleton. rewrite E. done.
  - destruct (infinite hi) eqn:Ei; [by destruct mu|].
    pose proof (range_upper_elem _ _ _ _ _ Hrange v lo hi Hv E Ei) as Hhi.
    assert (Hone : forall u, edom u -> elemCmpFn def (bval hi) u <= 0 -> up (Upper u) [v]).
    { intros u Hue Hle. split; [done|]. apply Forall_singleton. rewrite E. done. }
    assert (Hrefl : elemCmpFn def (bval hi) (bval hi) <= 0) by (by rewrite (cmp_refl _ _ Heord)).
    destruct mu as [|u|]; [| |done].
    + apply upper_snoc; [by apply upper_empties|by apply Hone].
    + pose proof Hu as [Hud _]. destruct (Z.ltb_spec 0 (elemCmpFn def (bval hi) u)) as [Hgt|Hle].
      * apply upper_snoc; [|by apply Hone]. apply (upper_weaken u); [done..|].
        apply (cmp_flip _ _ Heord); [done..|lia].
      * apply upper_snoc; [done|by apply Hone].
Qed.

Lemma fold_max_upper_spec mu acc vs ws :
  up mu vs -> up acc ws -> up (fold_max_upper def mu acc) (ws ++ vs).
Proof using Heord.
  assert (Happ : forall m xs ys, up m xs -> up m ys -> up m (xs ++ ys)).
  { intros [|u|] xs ys; [intros; by apply Forall_app|intros [Hu H1] [_ H2]; split; [done|by apply Forall_app]|done]. }
  intros Hm Ha. destruct mu as [|v|], acc as [|u|]; cbn [fold_max_upper]; try done; try by apply Happ.
  - apply Happ; [done|]. by apply upper_empties; [apply Ha|].
  - apply Happ; [|done]. by apply upper_empties; [apply Hm|].
  - pose proof Hm as [Hv _]. pose proof Ha as [Hu _].
    destruct (Z.ltb_spec 0 (elemCmpFn def v u)) as [Hgt|Hle]; apply Happ; try done.
    + apply (upper_weaken u); [done..|]. apply (cmp_flip _ _ Heord); [done..|lia].
    + by apply (upper_weaken v).
Qed.
End RangeFold.

(** ** What a column buffer holds after writing rows *)

(** The non-null values, and the datums a reader will build for them. *)
Definition present (values : list (option Datum)) : list Datum := omap id values.
Definition stored_values `{TupMacs} (att : Form_pg_attribute) (values : list (option Datum)) : list Datum :=
  stored_datum (attlen att) <$> present values.

(** The integers of an [int2] or [int4] column. *)
Definition int_value (att : Form_pg_attribute) (v : Datum) : Z :=
  match v with ByVal w => if atttypid att =? INT2OID then s16 w else s32 w | ByRef _ => 0 end.

(** The laws of the server functions a column definition carries. *)
Record def_laws `{TupMacsLaws} (dom edom : Datum -> Prop) (def : PgColumnarColumnDef) : Prop := {
  dl_order : orderable def = true -> btree_order dom (cmpFn def) /\ fast_matches dom def;
  dl_elem : isRange def = true -> btree_order edom (elemCmpFn def) /\
    range_order dom edom (cmpFn def) (elemCmpFn def) (range_deserialize def);
  dl_elem_storage : forall u, isRange def = true -> edom u ->
    datum_ok (elemByVal def) (elemLen def) u /\ stored_datum (elemLen def) u = u
}.

(** A value the column's type admits. *)
Definition admits `{TupMacsLaws} (dom : Datum -> Prop) (def : PgColumnarColumnDef) (att : Form_pg_attribute)
    (v : Datum) : Prop :=
  datum_ok (attbyval att) (attlen att) v /\ dom (stored_datum (attlen att) v) /\
  (summableInt def = true -> attbyval att = true).

Record stats_ok `{TupMacsLaws} `{VarattExternal} (dom edom : Datum -> Prop) (def : PgColumnarColumnDef)
    (att : Form_pg_attribute) (values : list (option Datum)) (col : ColumnStats) : Prop := {
  so_exists : existsStream (streams_of col) = (fun o => match o with Some _ => 1 | None => 0 end) <$> values;
  so_values : exists bs, valueStream (streams_of col) = concat bs /\ Forall2 (encodes att) (present values) bs;
  so_count : valueCount (streams_of col) = u64 (zlen (present values));
  so_min_max : orderable def = true -> bounds_of dom (cmpFn def) (minMax col) (stored_values att values);
  so_unordered : orderable def = false -> minMax col = None;
  so_upper : isRange def = true ->
    upper_of edom (elemCmpFn def) (range_deserialize def) (maxUpper col) (stored_values att values);
  so_norange : isRange def = false -> maxUpper col = NoUpper;
  so_sum : summableInt def = true ->
    sum col = s64 (foldr Z.add 0 (int_value att <$> stored_values att values));
  so_hash : bloomable def = true -> hashBuf col = (u32 ∘ hashFn def) <$> stored_values att values
}.

Section Written.
Context `{TupMacsLaws} `{VarattExternal}.
Context (dom edom : Datum -> Prop) (def : PgColumnarColumnDef) (att : Form_pg_attribute).
Context (Hlaws : def_laws dom edom def).

Lemma stats_init_ok : stats_ok dom edom def att [] stats_init.
Proof using.
  split; try done; [by exists []|intros; apply Forall_nil_2].
Qed.

Lemma present_snoc values v : present (values ++ [v]) = present values ++ match v with Some d => [d] | None => [] end.
Proof using. unfold present. rewrite omap_app. by destruct v. Qed.

Lemma stored_snoc values v :
  stored_values att (values ++ [Some v]) = stored_values att values ++ [stored_datum (attlen att) v].
Proof using. unfold stored_values. by rewrite present_snoc, fmap_app. Qed.

Lemma stored_snoc_null values : stored_values att (values ++ [None]) = stored_values att values.
Proof using. unfold stored_values. by rewrite present_snoc, app_nil_r. Qed.

(** The flattened value the writer works on is the stored datum. *)
Lemma write_flat v :
  datum_ok (attbyval att) (attlen att) v ->
  (if attlen att =? -1
   then match v with ByRef p => Ok (ByRef (pg_detoast_datum p)) | ByVal _ => Oob end
   else Ok v) = Ok (stored_datum (attlen att) v).
Proof using.
  intros Hv. unfold stored_datum. destruct (Z.eqb_spec (attlen att) (-1)) as [E|E].
  - destruct v; [|done]. rewrite E in Hv. destruct (attbyval att); [|done]. destruct Hv as [[ | [ | [ | ]]] _]; lia.
  - by destruct v.
Qed.

Lemma stored_dom values : Forall (admits dom def att) (present values) -> Forall dom (stored_values att values).
Proof using. intros Ha. unfold stored_values. apply Forall_fmap. eapply list.Forall_impl; [exact Ha|]. by intros v (_ & ? & _). Qed.

Lemma sum_snoc t l x : t = s64 (foldr Z.add 0 l) -> s64 (t + x) = s64 (foldr Z.add 0 (l ++ [x])).
Proof using.
  intros ->. assert (E : foldr Z.add 0 (l ++ [x]) = foldr Z.add 0 l + x).
  { induction l as [|y l IH]; cbn; [lia|]. rewrite IH. lia. }
  rewrite E. destruct (s64_eqm (foldr Z.add 0 l)) as [k ->].
  rewrite <- (s64_eqm' (foldr Z.add 0 l + x) k). f_equal. lia.
Qed.

Lemma write_value_spec values col v :
  stats_ok dom edom def att values col -> Forall (admits dom def att) (present values) ->
  match v with Some d => admits dom def att d | None => True end ->
  exists col', write_value def att col v = Ok col' /\ stats_ok dom edom def att (values ++ [v]) col'.
Proof using Hlaws.
  intros [He (bs & Hv & Hbs) Hc Hmm Hno Hup Hnr Hs Hh] Hall Hadm. destruct v as [v|].
  - destruct Hadm as (Hok & Hdom & Hsum). cbn [write_value]. rewrite write_flat, bind_Ok by done.
    destruct (encode_stored att v (valueStream (streams_of col)) Hok) as (b & -> & Hb). rewrite bind_Ok.
    set (sv := stored_datum (attlen att) v) in *.
    assert (Hsm : exists s', (if summableInt def
        then w ← datum_word sv; Ok (s64 (sum col + (if atttypid att =? INT2OID then s16 w else s32 w)))
        else Ok (sum col)) = Ok s' /\ (summableInt def = true ->
        s' = s64 (foldr Z.add 0 (int_value att <$> stored_values att (values ++ [Some v]))))).
    { destruct (summableInt def); [|by eexists]. rewrite Hsum in Hok by done. destruct v as [w|]; [|done].
      change sv with (ByVal w). cbn [datum_word]. rewrite bind_Ok. eexists. split; [done|]. intros _.
      rewrite stored_snoc, fmap_app. apply sum_snoc. by apply Hs. }
    destruct Hsm as (s' & -> & Hs'). rewrite bind_Ok.
    assert (Hmx : exists mm, (if orderable def then min_max_step def sv (minMax col) else Ok (minMax col)) = Ok mm /\
      (orderable def = true -> bounds_of dom (cmpFn def) mm (stored_values att (values ++ [Some v]))) /\
      (orderable def = false -> mm = None)).
    { destruct (orderable def) eqn:Eo; [|exists (minMax col); repeat split; [discriminate|auto]].
      destruct (dl_order _ _ _ Hlaws Eo) as [Ho Hf].
      destruct (min_max_step_spec dom def Ho Hf (minMax col) _ sv (Hmm eq_refl) (stored_dom _ Hall) Hdom)
        as (mm & -> & Hb'). exists mm. rewrite stored_snoc. done. }
    destruct Hmx as (mm & -> & Hmm' & Hno'). rewrite bind_Ok. eexists. split; [done|].
    split; cbn [streams_of valueStream existsStream valueCount minMax maxUpper sum hashBuf]; try done.
    + by rewrite He, fmap_app.
    + exists (bs ++ [b]). rewrite concat_app, Hv, present_snoc. cbn. rewrite app_nil_r. split; [done|].
      apply Forall2_app; [done|]. by apply Forall2_cons; [|apply Forall2_nil].
    + rewrite Hc, present_snoc, zlen_app. unfold u64. by rewrite Zplus_mod_idemp_l.
    + intros Er. rewrite Er, stored_snoc. destruct (dl_elem _ _ _ Hlaws Er) as [Ho Hr].
      apply (max_upper_step_spec dom edom); auto.
    + intros Er. rewrite Er. by apply Hnr.
    + intros Eb. rewrite Eb, stored_snoc, fmap_app, Hh by done. done.
  - cbn [write_value]. eexists. split; [done|].
    split; cbn [streams_of valueStream existsStream valueCount minMax maxUpper sum hashBuf];
      rewrite ?stored_snoc_null, ?present_snoc, ?app_nil_r; try done; [by rewrite He, fmap_app|].
    by exists bs.
Qed.

Lemma write_values_spec values col pre :
  stats_ok dom edom def att pre col -> Forall (admits dom def att) (present (pre ++ values)) ->
  exists col', write_values def att col values = Ok col' /\ stats_ok dom edom def att (pre ++ values) col'.
Proof using Hlaws.
  revert col pre. induction values as [|v values IH]; intros col pre Hs Hall.
  - eexists. by rewrite app_nil_r.
  - cbn [write_values]. assert (Hpre : present (pre ++ v :: values) = present pre ++ present (v :: values))
      by apply omap_app. rewrite Hpre, Forall_app in Hall. destruct Hall as [Hp Hv].
    destruct (write_value_spec pre col v Hs Hp) as (col1 & -> & Hs1).
    { destruct v as [d|]; [|done]. cbn in Hv. by inversion Hv. }
    rewrite bind_Ok. destruct (IH col1 (pre ++ [v]) Hs1) as (col' & -> & Hs'); [|by exists col'; rewrite <- app_assoc in Hs'].
    rewrite <- app_assoc. cbn [app]. rewrite Hpre. by apply Forall_app.
Qed.
End Written.

(** ** Skipping is sound *)

(** A range ends before a lower bound. *)
Definition ends_before (ecmp : cmp_fn) (hi lo : RangeBound) : bool :=
  negb (infinite hi) && negb (infinite lo) &&
  ((ecmp (bval hi) (bval lo) <? 0) ||
   ((ecmp (bval hi) (bval lo) =? 0) && negb (inclusive hi && inclusive lo))).

(** A range starts after an upper bound. *)
Definition starts_after (ecmp : cmp_fn) (lo hi : RangeBound) : bool :=
  negb (infinite lo) && negb (infinite hi) &&
  ((0 <? ecmp (bval lo) (bval hi)) ||
   ((ecmp (bval lo) (bval hi) =? 0) && negb (inclusive lo && inclusive hi))).

(** The operator the predicate stands for, on one value: the btree operators,
    [&&] and [@>] of ranges. *)
Definition pred_holds (pred : SkipPredicate) (v : Datum) : bool :=
  if rangePred pred then
    let '(lo, hi, e) := prange_deserialize pred v in
    if (e : bool) then false
    else match rangeKind pred with
         | PGC_RANGE_OVERLAP =>
             negb (ends_before (pelemCmpFn pred) hi (probeLower pred)) &&
             negb (starts_after (pelemCmpFn pred) lo (probeUpper pred))
         | PGC_RANGE_CONTAINS_ELEM =>
             negb (ends_before (pelemCmpFn pred) hi (mkBound (probeElem pred) false true)) &&
             negb (starts_after (pelemCmpFn pred) lo (mkBound (probeElem pred) false true))
         | PGC_RANGE_OTHER => true
         end
  else native_value_satisfies pred v.

(** A predicate built for the column: its comparison is of the column type's
    family; a range predicate carries the column's own range functions and
    probes with values of the element type. *)
Record pred_for (dom edom : Datum -> Prop) (def : PgColumnarColumnDef) (pred : SkipPredicate) : Prop := {
  pf_order : rangePred pred = false -> same_family dom (cmpFn def) (pcmpFn pred);
  pf_range : rangePred pred = true ->
    isRange def = true /\ orderable def = true /\ prange_deserialize pred = range_deserialize def /\
    pelemCmpFn pred = elemCmpFn def /\ pelemByVal pred = elemByVal def /\ pelemLen pred = elemLen def /\
    (infinite (probeLower pred) = false -> edom (bval (probeLower pred))) /\
    (infinite (probeUpper pred) = false -> edom (bval (probeUpper pred))) /\ edom (probeElem pred)
}.

Section Strict.
Context (edom : Datum -> Prop) (ecmp : cmp_fn) (Ho : btree_order edom ecmp).

Lemma cmp_le_lt a b c : edom a -> edom b -> edom c -> ecmp a b <= 0 -> ecmp b c < 0 -> ecmp a c < 0.
Proof.
  intros Ha Hb Hc Hab Hbc. destruct (Z.lt_ge_cases (ecmp a c) 0) as [|Hge]; [done|].
  apply (cmp_flip _ _ Ho) in Hge; [|done..].
  pose proof (cmp_trans _ _ Ho c a b Hc Ha Hb Hge Hab) as Hcb. apply (cmp_flip _ _ Ho) in Hcb; [|done..]. lia.
Qed.

Lemma cmp_le_gt a b c : edom a -> edom b -> edom c -> ecmp a b <= 0 -> 0 < ecmp a c -> 0 < ecmp b c.
Proof.
  intros Ha Hb Hc Hab Hac. destruct (Z.lt_ge_cases 0 (ecmp b c)) as [|Hle]; [done|].
  pose proof (cmp_trans _ _ Ho a b c Ha Hb Hc Hab Hle). lia.
Qed.

(** An upper bound at most [u] ends before any bound [u] ends before. *)
Lemma ends_before_le hi u lo :
  infinite hi = false -> edom (bval hi) -> edom u -> edom (bval lo) -> infinite lo = false ->
  ecmp (bval hi) u <= 0 ->
  (ecmp u (bval lo) <? 0) || ((ecmp u (bval lo) =? 0) && negb (inclusive lo)) = true ->
  ends_before ecmp hi lo = true.
Proof.
  intros Hf Hh Hu Hl Hfl Hle Hc. unfold ends_before. rewrite Hf, Hfl. cbn.
  apply orb_true_iff in Hc as [Hc%Z.ltb_lt|[Hc%Z.eqb_eq Hi]%andb_true_iff].
  - rewrite (proj2 (Z.ltb_lt _ _)); [done|]. by apply (cmp_le_lt _ u).
  - assert (ecmp (bval hi) (bval lo) <= 0) by (apply (cmp_trans _ _ Ho _ u); auto; lia).
    destruct (Z.ltb_spec (ecmp (bval hi) (bval lo)) 0); [done|].
    rewrite (proj2 (Z.eqb_eq _ _)) by lia. cbn. apply negb_true_iff in Hi. by rewrite Hi, andb_false_r.
Qed.

(** A lower bound at least [l] starts after any bound [l] starts after. *)
Lemma starts_after_le l lo hi :
  (infinite l = false -> edom (bval l)) -> (infinite lo = false -> edom (bval lo)) ->
  (infinite hi = false -> edom (bval hi)) ->
  lower_le ecmp l lo -> starts_after ecmp l hi = true -> starts_after ecmp lo hi = true.
Proof.
  intros Hl Hlo Hhi Hle. unfold starts_after. intros [[Fl%negb_true_iff Fh%negb_true_iff]%andb_true_iff Hc]%andb_true_iff.
  destruct Hle as [Hi|(_ & Flo & Hle)]; [congruence|]. rewrite Flo, Fh. cbn.
  specialize (Hl Fl). specialize (Hlo Flo). specialize (Hhi Fh).
  assert (Hle' : ecmp (bval l) (bval lo) <= 0) by lia.
  apply orb_true_iff in Hc as [Hc%Z.ltb_lt|[Hc%Z.eqb_eq Hi%negb_true_iff]%andb_true_iff].
  - rewrite (proj2 (Z.ltb_lt _ _)); [done|]. by apply (cmp_le_gt (bval l)).
  - destruct (Z.ltb_spec 0 (ecmp (bval lo) (bval hi))) as [|Hle2]; [done|].
    assert (Hge : 0 <= ecmp (bval lo) (bval hi)).
    { destruct (Z.lt_ge_cases (ecmp (bval lo) (bval hi)) 0) as [Hlt|]; [|done].
      pose proof (cmp_le_lt _ _ _ Hl Hlo Hhi Hle' Hlt). lia. }
    rewrite (proj2 (Z.eqb_eq _ _)) by lia. cbn. apply negb_true_iff.
    destruct Hle as [Hlt|[_ [Hli|Hli]]].
    + assert (Hhl : ecmp (bval hi) (bval l) <= 0) by (apply (cmp_flip _ _ Ho); auto; lia).
      assert (Hbad : ecmp (bval lo) (bval l) <= 0) by (apply (cmp_trans _ _ Ho _ (bval hi)); auto; lia).
      apply (cmp_flip _ _ Ho) in Hbad; [lia|done..].
    + rewrite Hli in Hi. cbn in Hi. by rewrite Hi, andb_false_r.
    + by rewrite Hli.
Qed.
End Strict.

(** A zone map describes the values [vs]. *)
Record zone_for `{TupMacsLaws} `{VarattExternal} (dom edom : Datum -> Prop) (def : PgColumnarColumnDef)
    (att : Form_pg_attribute) (vs : list Datum) (z : NativeZoneMapMetadata) : Prop := {
  zf_bounds :
    match zoneMinMax z with
    | None => orderable def = true -> vs = []
    | Some (a, b) => exists mn mx k l,
        PgColumnarDecodeValue att a = Ok (mn, k) /\ PgColumnarDecodeValue att b = Ok (mx, l) /\
        orderable def = true /\ bounds_of dom (cmpFn def) (Some (mn, mx)) vs
    end;
  zf_upper : isRange def = true ->
    match zoneMaxUpper z with
    | NoUpper => upper_of edom (elemCmpFn def) (range_deserialize def) NoUpper vs
    | Unbounded => True
    | Upper b => 0 < zlen b /\ exists u k,
        PgColumnarDecodeValueByLen (elemByVal def) (elemLen def) b = Ok (u, k) /\
        upper_of edom (elemCmpFn def) (range_deserialize def) (Upper u) vs
    end;
  zf_norange : isRange def = false -> zoneMaxUpper z = NoUpper
}.

Section Zones.
Context `{TupMacsLaws} `{VarattExternal}.
Context (dom edom : Datum -> Prop) (def : PgColumnarColumnDef) (att : Form_pg_attribute).
Context (Hlaws : def_laws dom edom def).

(** The values of a column, in the form a reader sees them. *)
Let stored_as (v : Datum) : Prop :=
  exists d, v = stored_datum (attlen att) d /\ datum_ok (attbyval att) (attlen att) d.

Lemma encode_bound v : stored_as v ->
  exists b k, PgColumnarEncodeValue [] att v = Ok b /\ PgColumnarDecodeValue att b = Ok (v, k).
Proof using.
  intros (d & -> & Hd). destruct (encode_stored att d [] Hd) as (b & He & _ & Hdec).
  exists b, (zlen b). split; [done|]. destruct (Hdec []) as [Hx _]. by rewrite app_nil_r in Hx.
Qed.

Lemma encode_elem u : isRange def = true -> edom u ->
  exists b k, PgColumnarEncodeValueByLen [] (elemByVal def) (elemLen def) u = Ok b /\ 0 < zlen b /\
    PgColumnarDecodeValueByLen (elemByVal def) (elemLen def) b = Ok (u, k).
Proof using Hlaws.
  intros Hr Hu. destruct (dl_elem_storage _ _ _ Hlaws u Hr Hu) as [Hok Hs].
  destruct (encode_decode_value _ _ _ [] [] Hok) as (b & He & _ & Hl & Hd). exists b, (zlen b).
  split; [done|]. rewrite app_nil_r, Hs in Hd. split; [|done].
  destruct (Z.ltb_spec 0 (elemLen def)); [lia|]. destruct Hl as [_ Hl]. destruct b; [done|].
  rewrite zlen_cons. pose proof (zlen_nonneg b). lia.
Qed.

Lemma make_zone_spec rows count total mm mu vs :
  (orderable def = true -> bounds_of dom (cmpFn def) mm vs) -> (orderable def = false -> mm = None) ->
  (isRange def = true -> upper_of edom (elemCmpFn def) (range_deserialize def) mu vs) ->
  (isRange def = false -> mu = NoUpper) -> Forall stored_as vs ->
  exists z, make_zone def att rows count total mm mu = Ok z /\ zone_for dom edom def att vs z /\
    zoneValueCount z = count /\ zoneNullCount z = u64 (rows - count) /\
    zoneSum z = (if summableInt def && (0 <? count) then Some total else None).
Proof using Hlaws.
  intros Hb Hnb Hu Hnu Hvs. rewrite list.Forall_forall in Hvs. unfold make_zone.
  assert (Hzb : exists zb, zone_bounds att mm = Ok zb /\
    match zb with
    | None => orderable def = true -> vs = []
    | Some (a, b) => exists mn mx k l,
        PgColumnarDecodeValue att a = Ok (mn, k) /\ PgColumnarDecodeValue att b = Ok (mx, l) /\
        orderable def = true /\ bounds_of dom (cmpFn def) (Some (mn, mx)) vs
    end).
  { destruct mm as [[mn mx]|]; cbn [zone_bounds]; [|by exists None].
    destruct (orderable def) eqn:Eo; [|by specialize (Hnb eq_refl)].
    pose proof (Hb eq_refl) as (_ & _ & Imn & Imx & _).
    destruct (encode_bound mn (Hvs _ Imn)) as (a & k & -> & Ha).
    destruct (encode_bound mx (Hvs _ Imx)) as (b & l & -> & Hb'). rewrite !bind_Ok.
    exists (Some (a, b)). split; [done|]. exists mn, mx, k, l. do 3 (split; [done|]). by apply Hb. }
  destruct Hzb as (zb & -> & Hzb). rewrite bind_Ok.
  assert (Hzu : exists zu, zone_upper def mu = Ok zu /\ (isRange def = true ->
    match zu with
    | NoUpper => upper_of edom (elemCmpFn def) (range_deserialize def) NoUpper vs
    | Unbounded => True
    | Upper b => 0 < zlen b /\ exists u k,
        PgColumnarDecodeValueByLen (elemByVal def) (elemLen def) b = Ok (u, k) /\
        upper_of edom (elemCmpFn def) (range_deserialize def) (Upper u) vs
    end) /\ (isRange def = false -> zu = NoUpper)).
  { destruct mu as [|u|]; cbn [zone_upper]; [by exists NoUpper| |exists Unbounded; do 2 (split; [done|]); intros E; by specialize (Hnu E)].
    destruct (isRange def) eqn:Er; [|by specialize (Hnu eq_refl)].
    pose proof (Hu eq_refl) as [Hue _]. destruct (encode_elem u Er Hue) as (b & k & -> & Hl & Hd).
    rewrite bind_Ok. exists (Upper b). split; [done|]. split; [|done]. intros _. split; [done|]. exists u, k. split; [done|].
    by apply Hu. }
  destruct Hzu as (zu & -> & Hzu & Hzn). rewrite bind_Ok. eexists. split; [done|]. by repeat split.
Qed.

Context (pred : SkipPredicate) (Hpred : pred_for dom edom def pred).

(** A range predicate never excludes a unit that holds a matching range. *)
Lemma range_excludes_spec vs z :
  rangePred pred = true -> zone_for dom edom def att vs z -> Forall dom vs ->
  exists b, native_range_excludes pred att (Some z) = Ok b /\
    (b = true -> Forall (fun v => pred_holds pred v = false) vs).
Proof using Hlaws Hpred.
  intros Hr [Hb Hu _] Hdom. destruct (pf_range _ _ _ _ Hpred Hr) as (Eir & Eo & Erd & Ecmp & Ebv & Elen & Pl & Pu & Pe).
  destruct (dl_elem _ _ _ Hlaws Eir) as [Heo Hro]. specialize (Hu Eir).
  unfold native_range_excludes, pred_holds. rewrite Hr, Erd, Ecmp, Ebv, Elen.
  destruct (zoneMinMax z) as [[a b]|]; [|by exists false].
  destruct Hb as (mn & mx & k & l & -> & _ & _ & Hbd). rewrite bind_Ok.
  destruct Hbd as (Dmn & _ & Imn & _ & Hall).
  destruct (range_deserialize def mn) as [[ul uh] [|]] eqn:Emn; [by exists false|].
  set (stored := match zoneMaxUpper z with Upper b => if 0 <? zlen b then Some b else None | _ => None end).
  assert (Hup : exists uo, (match stored with
      | None => Ok None
      | Some b => ' (u, _) ← PgColumnarDecodeValueByLen (elemByVal def) (elemLen def) b; Ok (Some u)
      end) = Ok uo /\ match uo with None => True
      | Some u => upper_of edom (elemCmpFn def) (range_deserialize def) (Upper u) vs end).
  { unfold stored. destruct (zoneMaxUpper z) as [|ub|]; [by exists None| |by exists None].
    destruct Hu as (Hl & u & k' & Hd & Hu). rewrite (proj2 (Z.ltb_lt _ _)) by done.
    rewrite Hd, bind_Ok. by exists (Some u). }
  destruct Hup as (uo & -> & Huo). rewrite bind_Ok.
  (* every value is non-empty, starts no earlier than [mn], ends no later than the bound *)
  assert (Hval : forall v, v ∈ vs -> exists lo hi, range_deserialize def v = (lo, hi, false) /\
    lower_le (elemCmpFn def) ul lo /\ (infinite lo = false -> edom (bval lo)) /\
    match uo with None => True | Some u =>
      edom u /\ infinite hi = false /\ edom (bval hi) /\ elemCmpFn def (bval hi) u <= 0 end).
  { intros v Hv. rewrite list.Forall_forall in Hall, Hdom. destruct (Hall v Hv) as [Hle _].
    destruct (range_deserialize def v) as [[lo hi] [|]] eqn:Ev.
    - destruct (range_empty_first _ _ _ _ _ Hro mn v lo hi) as (? & ? & E); auto. congruence.
    - exists lo, hi. split; [done|]. split; [by apply (range_lower_first _ _ _ _ _ Hro mn v ul uh lo hi); auto|].
      split; [by apply (range_lower_elem _ _ _ _ _ Hro v lo hi); auto|].
      destruct uo as [u|]; [|done]. destruct Huo as [Hue Huo]. rewrite list.Forall_forall in Huo.
      specialize (Huo v Hv). rewrite Ev in Huo. split; [done|]. by apply Huo. }
  assert (Hul : infinite ul = false -> edom (bval ul)) by (by apply (range_lower_elem _ _ _ _ _ Hro mn ul uh); auto).
  destruct (rangeKind pred); [| |by exists false]; eexists; (split; [done|]);
    intros Hex; apply list.Forall_forall; intros v Hv; destruct (Hval v Hv) as (lo & hi & -> & Hlo & Elo & Hhi);
    apply andb_false_iff; apply orb_true_iff in Hex as [Hex|Hex].
  - left. apply negb_false_iff. destruct uo as [u|]; [|done]. destruct Hhi as (Hue & Hf & Eh & Hle).
    apply andb_true_iff in Hex as [Hf'%negb_true_iff Hex].
    apply (ends_before_le edom _ Heo _ u); auto.
  - right. apply negb_false_iff. apply (starts_after_le edom _ Heo ul); auto.
  - left. apply negb_false_iff. destruct uo as [u|]; [|done]. destruct Hhi as (Hue & Hf & Eh & Hle).
    apply (ends_before_le edom _ Heo _ u); auto. cbn. by rewrite Hex.
  - right. apply negb_false_iff. apply (starts_after_le edom _ Heo ul); auto.
    unfold starts_after. cbn. apply andb_true_iff in Hex as [-> ->]. done.
Qed.

(** No zone map excludes a unit that holds a matching value. *)
Lemma zone_excludes_spec vs z :
  zone_for dom edom def att vs z -> Forall dom vs ->
  exists b, native_zone_excludes pred att (Some z) = Ok b /\
    (b = true -> Forall (fun v => pred_holds pred v = false) vs).
Proof using Hlaws Hpred.
  intros Hz Hdom. unfold native_zone_excludes. destruct (rangePred pred) eqn:Er.
  { by apply range_excludes_spec. }
  pose proof (zf_bounds _ _ _ _ _ _ Hz) as Hb. destruct (zoneMinMax z) as [[a b]|]; [|by exists false].
  destruct Hb as (mn & mx & k & l & -> & -> & _ & Dmn & Dmx & _ & _ & Hall). rewrite !bind_Ok.
  pose proof (pf_order _ _ _ _ Hpred Er) as Hfam. unfold pred_holds, native_value_satisfies. rewrite Er.
  assert (Hv : forall v c, v ∈ vs ->
    ((pcmpFn pred v c <= 0 -> pcmpFn pred mn c <= 0) /\ (0 <= pcmpFn pred mn c -> 0 <= pcmpFn pred v c)) /\
    ((pcmpFn pred mx c <= 0 -> pcmpFn pred v c <= 0) /\ (0 <= pcmpFn pred v c -> 0 <= pcmpFn pred mx c))).
  { intros v c Hv. rewrite list.Forall_forall in Hall, Hdom. destruct (Hall v Hv).
    split; refine (Hfam _ _ c _ _ _); auto. }
  destruct (searchArray pred) eqn:Ea.
  - eexists. split; [done|]. intros Hex%negb_true_iff. apply list.Forall_forall. intros v Hvs.
    apply not_true_iff_false. intros (c & Hc & E%Z.eqb_eq)%existsb_exists.
    apply not_true_iff_false in Hex. apply Hex. apply existsb_exists. exists c. split; [done|].
    destruct (Hv v c Hvs) as [[Q1 _] [_ Q2]]. rewrite andb_true_iff, !Z.leb_le. lia.
  - eexists. split; [done|]. intros Hex. apply list.Forall_forall. intros v Hvs.
    destruct (Hv v (compareValue pred) Hvs) as [[Q1 Q2] [Q3 Q4]].
    set (c := pcmpFn pred v (compareValue pred)) in *. set (c1 := pcmpFn pred mn _) in *. set (c2 := pcmpFn pred mx _) in *.
    repeat (case_match; [|]); rewrite ?orb_true_iff, ?Z.leb_le, ?Z.ltb_lt in Hex;
      rewrite ?Z.ltb_ge, ?Z.leb_gt, ?Z.eqb_neq; (lia || done).
Qed.
End Zones.

(** ** The zone maps of a flushed column *)

Section FlushZones.
Context `{TupMacsLaws} `{VarattExternal}.
Context (dom edom : Datum -> Prop) (def : PgColumnarColumnDef) (att : Form_pg_attribute).
Context (Hlaws : def_laws dom edom def).

(** The chunk groups of a column: the rows written and the buffer they left. *)
Let written (values : list (option Datum)) (g : stats_group) : Prop :=
  stats_ok dom edom def att values g.2 /\ Forall (admits dom def att) (present values).

Record fold_ok (vs : list Datum) (f : chunk_fold) : Prop := {
  fo_min_max : orderable def = true -> bounds_of dom (cmpFn def) (chunkMinMax f) vs;
  fo_unordered : orderable def = false -> chunkMinMax f = None;
  fo_upper : isRange def = true -> upper_of edom (elemCmpFn def) (range_deserialize def) (chunkMaxUpper f) vs;
  fo_norange : isRange def = false -> chunkMaxUpper f = NoUpper;
  fo_count : chunkValueCount f = u64 (zlen vs);
  fo_sum : summableInt def = true -> chunkSum f = s64 (foldr Z.add 0 (int_value att <$> vs))
}.

Lemma sum_app l k : foldr Z.add 0 (l ++ k) = foldr Z.add 0 l + foldr Z.add 0 k.
Proof using. induction l as [|x l IH]; cbn; [done|]. rewrite IH. lia. Qed.

Lemma chunk_fold_step_spec values g vs acc :
  written values g -> fold_ok vs acc -> Forall dom vs ->
  fold_ok (vs ++ stored_values att values) (chunk_fold_step def g acc).
Proof using Hlaws.
  intros [[He Hv Hc Hmm Hno Hup Hnr Hs Hh] Ha] [Fm Fn Fu Fr Fc Fs] Hvs. pose proof (stored_dom dom def att _ Ha) as Hd.
  split; cbn [chunkMinMax chunkMaxUpper chunkValueCount chunkSum chunk_fold_step].
  - intros Eo. destruct (dl_order _ _ _ Hlaws Eo) as [Ho _]. apply fold_min_max_spec; auto.
  - intros Eo. by rewrite Hno, Fn.
  - intros Er. destruct (dl_elem _ _ _ Hlaws Er) as [Ho _]. apply (fold_max_upper_spec edom); auto.
  - intros Er. by rewrite Hnr, Fr.
  - rewrite Fc, Hc, zlen_app. unfold u64, stored_values. rewrite <- Zplus_mod. f_equal. f_equal.
    unfold zlen. by rewrite length_fmap.
  - intros Es. rewrite Fs, Hs, fmap_app, sum_app by done.
    set (a := foldr Z.add 0 (int_value att <$> vs)).
    set (b := foldr Z.add 0 (int_value att <$> stored_values att values)).
    destruct (s64_eqm a) as [k ->], (s64_eqm b) as [l ->].
    rewrite <- (s64_eqm' (a + b) (k + l)). f_equal. lia.
Qed.

Lemma chunk_folded_spec valuess groups :
  Forall2 written valuess groups -> fold_ok (concat (stored_values att <$> valuess)) (chunk_folded def groups).
Proof using Hlaws.
  intros Hw. unfold chunk_folded.
  assert (Hgen : forall vs acc, fold_ok vs acc -> Forall dom vs ->
    fold_ok (vs ++ concat (stored_values att <$> valuess))
      (fold_left (fun acc g => chunk_fold_step def g acc) groups acc)).
  { induction Hw as [|values g valuess groups Hg Hw IH]; intros vs acc Hf Hd; cbn; [by rewrite app_nil_r|].
    rewrite app_assoc. apply IH; [by apply chunk_fold_step_spec|].
    apply Forall_app. split; [done|]. apply (stored_dom dom def att), Hg. }
  apply (Hgen [] (mkFold None NoUpper 0 0)); [|done]. split; try done. intros _. by apply Forall_nil_2.
Qed.

Lemma stored_as_values values :
  Forall (admits dom def att) (present values) ->
  Forall (fun v => exists d, v = stored_datum (attlen att) d /\ datum_ok (attbyval att) (attlen att) d)
    (stored_values att values).
Proof using.
  intros Ha. unfold stored_values. apply Forall_fmap. eapply list.Forall_impl; [exact Ha|].
  intros v (Hv & _). by exists v.
Qed.

Lemma vector_zone_spec values g :
  written values g -> exists z, vector_zone def att g = Ok z /\
    zone_for dom edom def att (stored_values att values) z /\
    zoneValueCount z = u64 (zlen (present values)) /\
    zoneNullCount z = u64 (g.1 - u64 (zlen (present values))).
Proof using Hlaws.
  intros [[He Hv Hc Hmm Hno Hup Hnr Hs Hh] Ha]. unfold vector_zone.
  destruct (make_zone_spec dom edom def att Hlaws g.1 (valueCount (streams_of g.2)) (sum g.2) (minMax g.2)
    (maxUpper g.2) (stored_values att values)) as (z & -> & Hz & Hvc & Hnc & _); auto using stored_as_values.
  exists z. rewrite Hvc, Hnc, Hc. done.
Qed.

Lemma mapM_vector_zones valuess groups :
  Forall2 written valuess groups ->
  exists zs, mapM (vector_zone def att) groups = Ok zs /\
    Forall2 (fun values z => zone_for dom edom def att (stored_values att values) z) valuess zs.
Proof using Hlaws.
  induction 1 as [|values g valuess groups Hg Hw (zs & IH & Hzs)]; [by exists []|].
  destruct (vector_zone_spec values g Hg) as (z & Hz & Hfor & _). exists (z :: zs). cbn [mapM].
  rewrite Hz, bind_Ok, IH, bind_Ok. split; [done|]. by constructor.
Qed.

Lemma flush_zone_rows_spec valuess groups rows :
  Forall2 written valuess groups ->
  exists zs z, flush_zone_rows def att rows groups = Ok (zs, z) /\
    Forall2 (fun values z => zone_for dom edom def att (stored_values att values) z) valuess zs /\
    zone_for dom edom def att (concat (stored_values att <$> valuess)) z.
Proof using Hlaws.
  intros Hw. unfold flush_zone_rows. destruct (mapM_vector_zones _ _ Hw) as (zs & -> & Hzs). rewrite bind_Ok.
  destruct (chunk_folded_spec _ _ Hw) as [Fm Fn Fu Fr Fc Fs]. set (f := chunk_folded def groups) in *.
  destruct (make_zone_spec dom edom def att Hlaws rows (chunkValueCount f) (chunkSum f) (chunkMinMax f)
    (chunkMaxUpper f) (concat (stored_values att <$> valuess))) as (z & -> & Hz & _); auto.
  { apply Forall_concat, Forall_fmap. clear -Hw. induction Hw as [|values g vs gs Hg Hw IH]; constructor; [|done].
    apply stored_as_values, Hg. }
  rewrite bind_Ok. exists zs, z. done.
Qed.

(** Writing a column's rows, chunk group by chunk group. *)
Lemma write_groups valuess :
  Forall (Forall (admits dom def att)) (present <$> valuess) ->
  exists cols, mapM (write_values def att stats_init) valuess = Ok cols /\
    length cols = length valuess /\ Forall2 written valuess (zip (zlen <$> valuess) cols).
Proof using Hlaws.
  induction valuess as [|values valuess IH]; intros Ha; [by exists []|].
  cbn in Ha. inversion Ha as [|? ? Hv Hvs]; subst. destruct (IH Hvs) as (cols & IHm & Hlen & Hw).
  destruct (write_values_spec dom edom def att Hlaws values stats_init [] (stats_init_ok _ _ _ _) Hv) as (c & Hc & Hs).
  exists (c :: cols). cbn [mapM]. rewrite Hc, bind_Ok, IHm, bind_Ok. split; [done|]. split; [by cbn; rewrite Hlen|]. constructor; done.
Qed.
End FlushZones.

(** C13.  Zone-map skipping loses no row.  Write any rows of a column chunk group
    by chunk group and flush them: if a vector's zone map excludes a predicate
    then no value of that vector satisfies it, and if the chunk's excludes it
    then no value of the whole chunk does; a test never fails.  This holds for
    the btree comparisons with a constant of any type of the operator family,
    for [= ANY], and for the overlap and containment operators of ranges,
    whose least lower and greatest upper bounds are kept without inclusivity. *)
Theorem zone_skip_sound `{TupMacsLaws} `{VarattExternal} (dom edom : Datum -> Prop)
    (def : PgColumnarColumnDef) (att : Form_pg_attribute) (pred : SkipPredicate)
    (valuess : list (list (option Datum))) (rows : Z) :
  def_laws dom edom def -> pred_for dom edom def pred ->
  Forall (Forall (admits dom def att)) (present <$> valuess) ->
  exists cols vectors chunk,
    mapM (write_values def att stats_init) valuess = Ok cols /\
    flush_zone_rows def att rows (zip (zlen <$> valuess) cols) = Ok (vectors, chunk) /\
    length vectors = length valuess /\
    (forall i values z, valuess !! i = Some values -> vectors !! i = Some z ->
       exists b, native_zone_excludes pred att (Some z) = Ok b /\
         (b = true -> Forall (fun v => pred_holds pred v = false) (stored_values att values))) /\
    exists b, native_zone_excludes pred att (Some chunk) = Ok b /\
      (b = true -> Forall (Forall (fun v => pred_holds pred v = false)) (stored_values att <$> valuess)).
Proof.
  intros Hlaws Hpred Ha. destruct (write_groups dom edom def att Hlaws valuess Ha) as (cols & Hm & _ & Hw).
  destruct (flush_zone_rows_spec dom edom def att Hlaws valuess _ rows Hw) as (zs & z & Hf & Hzs & Hz).
  assert (Hdom : Forall (Forall dom) (stored_values att <$> valuess)).
  { rewrite Forall_fmap in Ha |- *. eapply list.Forall_impl; [exact Ha|]. intros vs. apply stored_dom. }
  exists cols, zs, z. do 2 (split; [done|]). split; [by symmetry; eapply Forall2_length|]. split.
  - intros i values zi Hi Hzi. apply (zone_excludes_spec dom edom def att Hlaws pred Hpred).
    + exact (Forall2_lookup_lr _ _ _ _ _ _ Hzs Hi Hzi).
    + rewrite Forall_fmap in Hdom. exact (Forall_lookup_1 _ _ _ _ Hdom Hi).
  - destruct (zone_excludes_spec dom edom def att Hlaws pred Hpred _ _ Hz) as (b & Hb & Hex).
    { by apply Forall_concat. }
    exists b. split; [done|]. intros Hbt. apply Forall_concat. by apply Hex.
Qed.

(** ** An integer column, for evaluation *)

Definition int4_dom (d : Datum) : Prop := exists s, - 2 ^ 31 <= s < 2 ^ 31 /\ d = ByVal (u64 s).
Definition int4_cmp (a b : Datum) : Z :=
  match a, b with
  | ByVal x, ByVal y => cmp3 (s32 x) (s32 y)
  | ByVal _, ByRef _ => 1
  | ByRef _, _ => -1
  end.
Definition no_bound : RangeBound := mkBound (ByVal 0) true false.
Definition int4_def : PgColumnarColumnDef :=
  mkDef true int4_cmp COLUMNAR_FASTCMP_I32 false (fun _ => (no_bound, no_bound, true)) int4_cmp true 4
    true true (fun d => match d with ByVal w => u32 (u32 w * 2654435761) | ByRef _ => 0 end).
Definition int4_att : Form_pg_attribute := mkAtt true 4 23.
Definition int4_pred (op c : Z) : SkipPredicate :=
  mkPred 0 op (ByVal (u64 c)) int4_cmp false [] true (hashFn int4_def) false false PGC_RANGE_OTHER
    no_bound no_bound (ByVal 0) int4_cmp true 4 (range_deserialize int4_def).

Lemma cmp3_le x y : cmp3 x y <= 0 <-> x <= y.
Proof. unfold cmp3. destruct (Z.ltb_spec x y), (Z.ltb_spec y x); lia. Qed.

Lemma cmp3_ge x y : 0 <= cmp3 x y <-> y <= x.
Proof. unfold cmp3. destruct (Z.ltb_spec x y), (Z.ltb_spec y x); lia. Qed.

Section Int4.
#[local] Existing Instance tupmacs_le.
#[local] Existing Instance tupmacs_le_laws.
#[local] Existing Instance varatt_external_none.

Lemma int4_laws : def_laws int4_dom (fun _ => False) int4_def.
Proof.
  split; [|done|done]. intros _. split.
  - split.
    + intros a (s & _ & ->). cbn. unfold cmp3. by rewrite Z.ltb_irrefl.
    + intros a b (s & _ & ->) (t & _ & ->). cbn. rewrite cmp3_ge, cmp3_le. done.
    + intros a b c (s & _ & ->) (t & _ & ->) (u & _ & ->). cbn. rewrite !cmp3_le. lia.
  - intros a (s & _ & ->). exists (u64 s). split; [done|]. intros b y (t & _ & ->) [= <-].
    cbn. by rewrite cmp3_sgn, Z.sgn_sgn.
Qed.

Lemma int4_pred_for op c : pred_for int4_dom (fun _ => False) int4_def (int4_pred op c).
Proof.
  split; [|done]. intros _ a b [w|p] (s & _ & ->) (t & _ & ->); cbn; [|done].
  rewrite !cmp3_le, !cmp3_ge. lia.
Qed.

Lemma int4_admits s : - 2 ^ 31 <= s < 2 ^ 31 -> admits int4_dom int4_def int4_att (ByVal (u64 s)).
Proof.
  intros Hs. split; [|split; [|done]].
  - split; [auto|]. exists s. split; [|done]. change (8 * attlen int4_att - 1) with 31. lia.
  - by exists s.
Qed.

Lemma zone_skip_sound_witness :
  let valuess := [[Some (ByVal 5); None; Some (ByVal 12)]; [Some (ByVal 100)]] in
  exists cols vectors chunk,
    mapM (write_values int4_def int4_att stats_init) valuess = Ok cols /\
    flush_zone_rows int4_def int4_att 4 (zip (zlen <$> valuess) cols) = Ok (vectors, chunk) /\
    length vectors = length valuess /\
    (forall i values z, valuess !! i = Some values -> vectors !! i = Some z ->
       exists b, native_zone_excludes (int4_pred BTGreaterStrategyNumber 50) int4_att (Some z) = Ok b /\
         (b = true -> Forall (fun v => pred_holds (int4_pred BTGreaterStrategyNumber 50) v = false)
                        (stored_values int4_att values))) /\
    exists b, native_zone_excludes (int4_pred BTGreaterStrategyNumber 50) int4_att (Some chunk) = Ok b /\
      (b = true -> Forall (Forall (fun v => pred_holds (int4_pred BTGreaterStrategyNumber 50) v = false))
                     (stored_values int4_att <$> valuess)).
Proof.
  intros valuess.
  apply (zone_skip_sound int4_dom (fun _ => False) int4_def int4_att (int4_pred BTGreaterStrategyNumber 50) valuess 4).
  - exact int4_laws.
  - apply int4_pred_for.
  - repeat constructor; (apply (int4_admits 5) || apply (int4_admits 12) || apply (int4_admits 100)); lia.
Defined.
End Int4.

(** The first vector is excluded, the second and the chunk are not. *)
Example zone_skip_example :
  let _ := tupmacs_le in let _ := varatt_external_none in
  let valuess := [[Some (ByVal 5); None; Some (ByVal 12)]; [Some (ByVal 100)]] in
  (cols ← mapM (write_values int4_def int4_att stats_init) valuess;
   ' (vectors, chunk) ← flush_zone_rows int4_def int4_att 4 (zip (zlen <$> valuess) cols);
   mapM (fun z => native_zone_excludes (int4_pred BTGreaterStrategyNumber 50) int4_att (Some z)) (vectors ++ [chunk]))
  = Ok [true; false; false].
Proof. vm_compute. reflexivity. Qed.
