(* ===== verification/Catalog.v ===== *)
(** * The catalog rows of a row group

    The part of [columnar_metadata.c] that stores and reads back what describes
    a row group's data: the [column_chunk], [zone_map], [bloom] and
    [delete_vector] tables.  A table is the list of the rows a snapshot sees;
    inserting checks the table's unique index, and an index scan returns the
    rows of its key in key order. *)

From stdpp Require Import sorting.
From S2P Require Import Prelude Encdesc Flush NativeRead Value ZoneMap.

(** ** Index scans *)

(** The rows an index scan with these keys returns, ordered by the rest of the
    key. *)
Section IndexScan.
Context {A : Type} (ord : A -> Z).

Definition key_le (a b : A) : Prop := ord a <= ord b.

#[global] Instance key_le_dec a b : Decision (key_le a b).
Proof. unfold key_le. apply _. Defined.

Definition index_scan (P : A -> Prop) `{!forall x, Decision (P x)} (rows : list A) : list A :=
  merge_sort key_le (filter P rows).

#[global] Instance key_le_trans : Transitive key_le.
Proof. intros a b c. unfold key_le. lia. Qed.

#[global] Instance key_le_total : Total key_le.
Proof. intros a b. unfold key_le. lia. Qed.

Lemma sorted_run_lt (run : list A) i j x y :
  StronglySorted Z.lt (ord <$> run) -> (i < j)%nat -> run !! i = Some x -> run !! j = Some y -> ord x < ord y.
Proof.
  revert i j. induction run as [|a run IH]; intros i j Hs Hij Hi Hj; [done|].
  rewrite fmap_cons in Hs. apply StronglySorted_inv in Hs as [Hs Ha]. destruct j as [|j]; [lia|]. cbn in Hj.
  destruct i as [|i]; [|apply (IH i j); [done|lia|done..]].
  injection Hi as <-. rewrite Forall_fmap, list.Forall_forall in Ha. apply (Ha y).
  by eapply list_elem_of_lookup_2.
Qed.

(** The rows found, in strictly increasing key order, are what the scan returns. *)
Lemma index_scan_run (P : A -> Prop) `{!forall x, Decision (P x)} rows run :
  Permutation (filter P rows) run -> StronglySorted Z.lt (ord <$> run) -> index_scan P rows = run.
Proof.
  intros Hf Hs. unfold index_scan. apply (StronglySorted_unique_strong key_le).
  - intros x y Hx Hy Hxy Hyx. rewrite merge_sort_Permutation, Hf in Hx. unfold key_le in *.
    apply list_elem_of_lookup in Hx as [i Hi]. apply list_elem_of_lookup in Hy as [j Hj].
    destruct (decide (i = j)) as [->|Hne]; [congruence|]. exfalso.
    destruct (decide (i < j)%nat).
    + pose proof (sorted_run_lt run i j x y Hs). intuition lia.
    + assert (j < i)%nat by lia. pose proof (sorted_run_lt run j i y x Hs). intuition lia.
  - apply StronglySorted_merge_sort; apply _.
  - clear Hf P H. induction run as [|a run IH]; [constructor|].
    rewrite fmap_cons in Hs. apply StronglySorted_inv in Hs as [Hs Ha].
    constructor; [by apply IH|]. rewrite Forall_fmap in Ha. eapply list.Forall_impl; [exact Ha|].
    intros b Hb. unfold key_le. cbn in Hb. lia.
  - by rewrite merge_sort_Permutation.
Qed.
End IndexScan.
Arguments index_scan {A} ord P {_} rows.

(** ** Tables *)

(** [valueCount] of a chunk is its row group's row count. *)
Record ColumnChunkRow := mkChunkRow {
  cr_storageId : Z; cr_groupNumber : Z; cr_columnIndex : Z; cr_valueCount : Z;
  cr_chunk : NativeColumnChunkMetadata
}.

(** A [zone_map] tuple: the bounds and the upper-bound summary are nullable, a
    zero-length summary stands for "unbounded above". *)
Record ZoneMapTuple := mkZoneTuple {
  zt_storageId : Z; zt_groupNumber : Z; zt_columnIndex : Z; zt_vectorIndex : Z;
  zt_minimum : option (list Z); zt_maximum : option (list Z); zt_sum : option Z;
  zt_valueCount : Z; zt_nullCount : Z; zt_maxUpper : option (list Z)
}.

Record BloomRow := mkBloomRow {
  bl_storageId : Z; bl_groupNumber : Z; bl_columnIndex : Z; bl_filter : list Z
}.

Record DeleteVectorRow := mkDvRow {
  dv_storageId : Z; dv_groupNumber : Z; dv_bitmap : option (list Z); dv_deletedCount : Z
}.

Record GroupTables := mkTables {
  t_column_chunk : list ColumnChunkRow;
  t_zone_map : list ZoneMapTuple;
  t_bloom : list BloomRow;
  t_delete_vector : list DeleteVectorRow
}.

(** ** Inserting *)

Definition cr_key (r : ColumnChunkRow) : Z * Z * Z := (cr_storageId r, cr_groupNumber r, cr_columnIndex r).
Definition zt_key (r : ZoneMapTuple) : Z * Z * Z * Z :=
  (zt_storageId r, zt_groupNumber r, zt_columnIndex r, zt_vectorIndex r).
Definition bl_key (r : BloomRow) : Z * Z * Z := (bl_storageId r, bl_groupNumber r, bl_columnIndex r).

Definition table_insert {A K} `{EqDecision K} (key : A -> K) (rows : list A) (row : A) : res (list A) :=
  if bool_decide (key row ∈ key <$> rows) then Err "duplicate key value violates unique constraint"
  else Ok (rows ++ [row]).

Definition PgColumnarInsertColumnChunkRow (rows : list ColumnChunkRow)
    (storageId groupNumber columnIndex valueCount : Z) (cc : NativeColumnChunkMetadata)
    : res (list ColumnChunkRow) :=
  table_insert cr_key rows (mkChunkRow storageId groupNumber (s16 columnIndex) valueCount cc).

(** The tuple of a zone map. *)
Definition zone_tuple (storageId groupNumber columnIndex vectorIndex : Z) (z : NativeZoneMapMetadata)
    : ZoneMapTuple :=
  mkZoneTuple storageId groupNumber (s16 columnIndex) (s32 vectorIndex)
    (fst <$> zoneMinMax z) (snd <$> zoneMinMax z) (zoneSum z) (zoneValueCount z) (zoneNullCount z)
    (match zoneMaxUpper z with NoUpper => None | Unbounded => Some [] | Upper b => Some b end).

Definition PgColumnarInsertZoneMapRow (rows : list ZoneMapTuple)
    (storageId groupNumber columnIndex vectorIndex : Z) (z : NativeZoneMapMetadata)
    : res (list ZoneMapTuple) :=
  table_insert zt_key rows (zone_tuple storageId groupNumber columnIndex vectorIndex z).

Definition PgColumnarInsertBloomRow (rows : list BloomRow)
    (storageId groupNumber columnIndex : Z) (filter : list Z) : res (list BloomRow) :=
  table_insert bl_key rows (mkBloomRow storageId groupNumber (s16 columnIndex) filter).

(** ** Reading *)

Definition PgColumnarReadColumnChunkList (rows : list ColumnChunkRow) (storageId groupNumber : Z)
    : list ColumnChunkRow :=
  index_scan cr_columnIndex (fun r => cr_storageId r = storageId /\ cr_groupNumber r = groupNumber) rows.

Definition zonemap_from_tuple (t : ZoneMapTuple) : NativeZoneMapMetadata :=
  mkZone (match zt_minimum t, zt_maximum t with Some mn, Some mx => Some (mn, mx) | _, _ => None end)
    (zt_sum t) (zt_valueCount t) (zt_nullCount t)
    (match zt_maxUpper t with
     | None => NoUpper
     | Some b => if 0 <? zlen b then Upper b else Unbounded
     end).

(** The order of [zone_map_pkey] below (storage, group): column, then vector.
    Vector indexes are [int4], column indexes [int2]. *)
Definition zt_order (t : ZoneMapTuple) : Z := zt_columnIndex t * 2 ^ 33 + zt_vectorIndex t.

(** A vector's zone map with its column and its vector. *)
Definition zone_entry : Type := Z * Z * NativeZoneMapMetadata.
Definition zone_entry_of (t : ZoneMapTuple) : zone_entry :=
  (zt_columnIndex t, zt_vectorIndex t, zonemap_from_tuple t).

Definition PgColumnarReadZoneMapVectors (rows : list ZoneMapTuple) (storageId groupNumber : Z)
    : list zone_entry :=
  zone_entry_of <$> filter (fun t => 0 <= zt_vectorIndex t)
    (index_scan zt_order (fun t => zt_storageId t = storageId /\ zt_groupNumber t = groupNumber) rows).

Definition PgColumnarReadZoneMapVectorsForColumn (rows : list ZoneMapTuple)
    (storageId groupNumber columnIndex : Z) : list zone_entry :=
  zone_entry_of <$> filter (fun t => 0 <= zt_vectorIndex t)
    (index_scan zt_order (fun t => zt_storageId t = storageId /\ zt_groupNumber t = groupNumber
                                   /\ zt_columnIndex t = s16 columnIndex) rows).

Definition PgColumnarReadZoneMapForColumn (rows : list ZoneMapTuple)
    (storageId groupNumber columnIndex : Z) : option NativeZoneMapMetadata :=
  match filter (fun t => zt_vectorIndex t = -1)
          (index_scan zt_order (fun t => zt_storageId t = storageId /\ zt_groupNumber t = groupNumber
                                         /\ zt_columnIndex t = s16 columnIndex) rows) with
  | t :: _ => Some (zonemap_from_tuple t)
  | [] => None
  end.

Definition PgColumnarReadBloomForColumn (rows : list BloomRow) (storageId groupNumber columnIndex : Z)
    : option (list Z) :=
  match filter (fun r => bl_storageId r = storageId /\ bl_groupNumber r = groupNumber
                         /\ bl_columnIndex r = s16 columnIndex) rows with
  | r :: _ => Some (bl_filter r)
  | [] => None
  end.

Definition PgColumnarReadDeleteVectorList (rows : list DeleteVectorRow) (storageId groupNumber : Z)
    : list DeleteVectorRow :=
  filter (fun r => dv_storageId r = storageId /\ dv_groupNumber r = groupNumber) rows.
