(* ===== verification/GroupSkip.v ===== *)
(** * Skipping a whole row group

    [pgcolumnar_native_group_can_match] of [columnar_reader.c]: every
    pushed-down predicate is tried against the whole-chunk zone map of its
    column and, for an equality, against the chunk's bloom filter; the first
    that excludes the group ends the search.
    [pgcolumnar_predicate_excluded] then moves that predicate one place
    forward, which must not change any answer.  With the bloom filter
    [flush_one_column] builds ([columnar_write_state.c]).

    The catalog reads are parameters: what the reader finds for a column of the
    group. *)

From S2P Require Import Prelude BitPack Codec Varlena Flush Bloom Value ZoneMap.

(** The bloom filter of a flushed column chunk. *)
Definition flush_bloom_row `{HyperLogLog} (def : PgColumnarColumnDef) (cols : list ColumnStats)
    : res (option (list Z)) :=
  if bloomable def then
    let hashes := concat (hashBuf <$> cols) in
    if 0 <? zlen hashes then PgColumnarBloomBuild hashes else Ok None
  else Ok None.

(** The reader's evaluation order and its counters. *)
Record order_st := mkOrder { predOrder : list Z; excludes : list Z; runtimeGroupsRemoved : Z }.

Definition pred_at (preds : list SkipPredicate) (i : Z) : res SkipPredicate :=
  match preds !! Z.to_nat i with Some p => Ok p | None => Oob end.

Definition pgcolumnar_predicate_excluded (preds : list SkipPredicate) (st : order_st) (oi : Z) : res order_st :=
  here ← rd1 (predOrder st) oi;
  pred ← pred_at preds here;
  n ← rd1 (excludes st) here;
  ex ← wr1 (excludes st) here (u64 (n + 1));
  let removed := if runtimeFilter pred then u64 (runtimeGroupsRemoved st + 1) else runtimeGroupsRemoved st in
  if oi =? 0 then Ok (mkOrder (predOrder st) ex removed)
  else
    ahead ← rd1 (predOrder st) (oi - 1);
    apred ← pred_at preds ahead;
    if searchArray pred && negb (searchArray apred) then Ok (mkOrder (predOrder st) ex removed)
    else
      na ← rd1 ex ahead;
      nh ← rd1 ex here;
      if na <? nh then
        o ← wr1 (predOrder st) (oi - 1) here;
        o ← wr1 o oi ahead;
        Ok (mkOrder o ex removed)
      else Ok (mkOrder (predOrder st) ex removed).

Section CanMatch.
Context `{TupMacs} `{VarattExternal}.
Context (enable_bloom_filter : bool) (atts : list Form_pg_attribute).
Context (zone_of : Z -> option NativeZoneMapMetadata) (bloom_of : Z -> option (list Z)).

(** Some probe value may be in the filter. *)
Fixpoint bloom_may_match (hash : Datum -> Z) (filter : list Z) (probes : list Datum) : res bool :=
  match probes with
  | [] => Ok false
  | p :: rest =>
      b ← PgColumnarBloomProbe filter (u32 (hash p));
      if (b : bool) then Ok true else bloom_may_match hash filter rest
  end.

(** One turn of the loop: does this predicate exclude the group? *)
Definition predicate_excludes (pred : SkipPredicate) : res bool :=
  match atts !! Z.to_nat (attidx pred) with
  | None => Oob
  | Some att =>
      z ← native_zone_excludes pred att (zone_of (attidx pred));
      if (z : bool) then Ok true
      else if (strategy pred =? BTEqualStrategyNumber) && enable_bloom_filter && hasHash pred then
        match bloom_of (attidx pred) with
        | None => Ok false
        | Some filter =>
            m ← bloom_may_match (phashFn pred) filter
                  (if searchArray pred then arrayValues pred else [compareValue pred]);
            Ok (negb m)
        end
      else Ok false
  end.

Fixpoint can_match_loop (preds : list SkipPredicate) (rest : list Z) (oi : Z) (st : order_st)
    : res (bool * order_st) :=
  match rest with
  | [] => Ok (true, st)
  | p :: rest =>
      pred ← pred_at preds p;
      e ← predicate_excludes pred;
      if (e : bool) then st ← pgcolumnar_predicate_excluded preds st oi; Ok (false, st)
      else can_match_loop preds rest (oi + 1) st
  end.

Definition pgcolumnar_native_group_can_match (preds : list SkipPredicate) (st : order_st)
    : res (bool * order_st) :=
  if zlen preds =? 0 then Ok (true, st) else can_match_loop preds (predOrder st) 0 st.
End CanMatch.

(** ** The order of evaluation *)

(** [predOrder] is a permutation of the predicates' indices. *)
Definition order_ok (preds : list SkipPredicate) (st : order_st) : Prop :=
  Permutation (predOrder st) (seqZ 0 (zlen preds)) /\ zlen (excludes st) = zlen preds.

Lemma order_range preds st i : order_ok preds st -> i ∈ predOrder st -> 0 <= i < zlen preds.
Proof. intros [Hp _] Hi. rewrite Hp in Hi. apply elem_of_seqZ in Hi. lia. Qed.

Lemma pred_at_Ok preds i : 0 <= i < zlen preds -> exists p, pred_at preds i = Ok p /\ p ∈ preds.
Proof.
  intros Hi. destruct (lookup_lt_is_Some_2 preds (Z.to_nat i)) as [p Hp]; [unfold zlen in Hi; lia|].
  exists p. unfold pred_at. rewrite Hp. split; [done|]. by eapply list_elem_of_lookup_2.
Qed.

Lemma rd1_elem (l : list Z) i : 0 <= i < zlen l -> exists x, rd1 l i = Ok x /\ l !! Z.to_nat i = Some x.
Proof.
  intros Hi. rewrite rd1_Ok by done. eexists. split; [done|]. unfold nthZ.
  destruct (l !! Z.to_nat i) as [x|] eqn:E; [by rewrite (nth_lookup_Some _ _ _ _ E)|].
  apply lookup_ge_None in E. unfold zlen in Hi. lia.
Qed.

(** Swapping two neighbours permutes the list. *)
Lemma swap_perm (l : list Z) i a b :
  l !! i = Some a -> l !! S i = Some b -> Permutation (<[S i := a]> (<[i := b]> l)) l.
Proof.
  intros Ha Hb. rewrite <- (take_drop_middle l i a Ha) at 1.
  assert (Hlen : length (take i l) = i) by (rewrite length_take; apply lookup_lt_Some in Ha; lia).
  assert (Hd : drop (S i) l = b :: drop (S (S i)) l) by (by apply drop_S).
  rewrite Hd, insert_app_r_alt by lia. rewrite Hlen, Nat.sub_diag. cbn.
  rewrite insert_app_r_alt by lia. rewrite Hlen, Nat.sub_succ_l, Nat.sub_diag by lia. cbn.
  rewrite <- (take_drop_middle l i a Ha) at 3. rewrite Hd. apply Permutation_app_head, Permutation_swap.
Qed.

Lemma predicate_excluded_ok preds st oi :
  order_ok preds st -> 0 <= oi < zlen (predOrder st) ->
  exists st', pgcolumnar_predicate_excluded preds st oi = Ok st' /\ order_ok preds st'.
Proof.
  intros Hord Hoi. pose proof Hord as [Hp Hl].
  destruct (rd1_elem _ _ Hoi) as (here & Hr & Hh).
  pose proof (order_range _ _ here Hord (list_elem_of_lookup_2 _ _ _ Hh)) as Hrange.
  destruct (pred_at_Ok _ _ Hrange) as (pred & Hpa & _).
  unfold pgcolumnar_predicate_excluded. rewrite Hr, bind_Ok, Hpa, bind_Ok.
  rewrite (rd1_Ok (excludes st) here), bind_Ok by lia. rewrite (wr1_Ok (excludes st) here), bind_Ok by lia.
  set (ex := <[_ := _]> (excludes st)). assert (Hex : zlen ex = zlen preds) by (unfold ex, zlen; by rewrite length_insert).
  destruct (Z.eqb_spec oi 0); [eexists; split; [done|]; by split|].
  destruct (rd1_elem (predOrder st) (oi - 1)) as (ahead & Hr' & Ha); [lia|].
  pose proof (order_range _ _ ahead Hord (list_elem_of_lookup_2 _ _ _ Ha)) as Hrange'.
  destruct (pred_at_Ok _ _ Hrange') as (apred & Hpa' & _). rewrite Hr', bind_Ok, Hpa', bind_Ok.
  destruct (_ && _); [eexists; split; [done|]; by split|].
  rewrite (rd1_Ok ex ahead), bind_Ok by lia. rewrite (rd1_Ok ex here), bind_Ok by lia.
  destruct (_ <? _); [|eexists; split; [done|]; by split].
  rewrite (wr1_Ok (predOrder st) (oi - 1)), bind_Ok by lia.
  rewrite wr1_Ok, bind_Ok by (unfold zlen in *; rewrite ?length_insert; lia).
  eexists. split; [done|]. split; [|done]. cbn [predOrder]. etrans; [|exact Hp].
  replace (Z.to_nat oi) with (S (Z.to_nat (oi - 1))) by lia. apply swap_perm; [done|].
  by replace (S (Z.to_nat (oi - 1))) with (Z.to_nat oi) by lia.
Qed.

(** ** The decision *)

Section Decision.
Context `{TupMacs} `{VarattExternal}.
Context (enable : bool) (atts : list Form_pg_attribute).
Context (zone_of : Z -> option NativeZoneMapMetadata) (bloom_of : Z -> option (list Z)).
Let excl := predicate_excludes enable atts zone_of bloom_of.

(** When every test answers, the group matches unless some predicate excludes
    it, in whatever order they are tried. *)
Lemma can_match_loop_spec preds rest oi st (f : SkipPredicate -> bool) :
  order_ok preds st -> (forall p, p ∈ preds -> excl p = Ok (f p)) ->
  predOrder st = take (Z.to_nat oi) (predOrder st) ++ rest -> 0 <= oi ->
  exists st', can_match_loop enable atts zone_of bloom_of preds rest oi st
    = Ok (forallb (fun i => match preds !! Z.to_nat i with Some p => negb (f p) | None => true end) rest, st') /\
    order_ok preds st'.
Proof.
  intros Hord Hf. revert oi. induction rest as [|i rest IH]; intros oi Hsplit Hoi; cbn [can_match_loop forallb].
  { by exists st. }
  assert (Hoi' : 0 <= oi < zlen (predOrder st)).
  { unfold zlen. rewrite Hsplit, length_app. cbn. rewrite length_take.
    assert (length (take (Z.to_nat oi) (predOrder st)) <= length (predOrder st))%nat by (rewrite length_take; lia).
    assert (Hl := f_equal length Hsplit). rewrite length_app, length_take in Hl. cbn in Hl. lia. }
  assert (Hin : i ∈ predOrder st) by (rewrite Hsplit; apply elem_of_app; right; apply list_elem_of_here).
  destruct (pred_at_Ok preds i (order_range _ _ _ Hord Hin)) as (p & Hp & Hpin).
  rewrite Hp, bind_Ok. fold (excl p). rewrite (Hf p Hpin), bind_Ok.
  unfold pred_at in Hp. destruct (preds !! Z.to_nat i) as [q|]; [|done]. injection Hp as ->.
  destruct (f p); cbn [negb andb].
  - destruct (predicate_excluded_ok preds st oi Hord Hoi') as (st' & -> & Hst'). rewrite bind_Ok. by exists st'.
  - apply IH; [|lia]. rewrite Hsplit at 1. replace (Z.to_nat (oi + 1)) with (S (Z.to_nat oi)) by lia.
    rewrite (take_S_r _ _ i); [by rewrite <- app_assoc|]. rewrite Hsplit, lookup_app_r by (rewrite length_take; lia).
    rewrite length_take. replace (_ - _)%nat with 0%nat by (unfold zlen in Hoi'; lia). done.
Qed.

Lemma forallb_perm {A} (f : A -> bool) l k : Permutation l k -> forallb f l = forallb f k.
Proof. induction 1; cbn; [done|by f_equal|by rewrite !andb_assoc, (andb_comm (f y))|by etrans]. Qed.

Lemma forallb_indices preds (f : SkipPredicate -> bool) :
  forallb (fun i => match preds !! Z.to_nat i with Some p => f p | None => true end) (seqZ 0 (zlen preds))
  = forallb f preds.
Proof.
  apply eq_true_iff_eq. rewrite !forallb_forall. split.
  - intros Hall p (i & Hi)%list_elem_of_In%list_elem_of_lookup_1.
    specialize (Hall (Z.of_nat i)). rewrite Nat2Z.id, Hi in Hall. apply Hall, list_elem_of_In, elem_of_seqZ.
    apply lookup_lt_Some in Hi. unfold zlen. lia.
  - intros Hall i _. destruct (preds !! Z.to_nat i) as [p|] eqn:E; [|done].
    apply Hall, list_elem_of_In. by eapply list_elem_of_lookup_2.
Qed.

(** The answer does not depend on the order, and the order stays a permutation. *)
Lemma group_can_match_spec preds st (f : SkipPredicate -> bool) :
  order_ok preds st -> (forall p, p ∈ preds -> excl p = Ok (f p)) ->
  exists st', pgcolumnar_native_group_can_match enable atts zone_of bloom_of preds st
    = Ok (forallb (fun p => negb (f p)) preds, st') /\ order_ok preds st'.
Proof.
  intros Hord Hf. unfold pgcolumnar_native_group_can_match.
  destruct (Z.eqb_spec (zlen preds) 0) as [Hz|].
  { destruct preds; [by exists st|]. rewrite zlen_cons in Hz. pose proof (zlen_nonneg preds). lia. }
  destruct (can_match_loop_spec preds (predOrder st) 0 st f Hord Hf) as (st' & -> & Hst'); [done..|].
  exists st'. split; [|done]. do 2 f_equal. destruct Hord as [Hp _].
  rewrite (forallb_perm _ _ _ Hp). apply (forallb_indices preds (fun p => negb (f p))).
Qed.
End Decision.

Lemma forallb_negb_false {A} (f : A -> bool) l :
  forallb (fun x => negb (f x)) l = false -> exists x, x ∈ l /\ f x = true.
Proof.
  induction l as [|x l IH]; cbn [forallb]; [done|]. destruct (f x) eqn:E.
  - intros _. exists x. split; [apply list_elem_of_here|done].
  - intros (y & Hy & Hf)%IH. exists y. split; [by apply list_elem_of_further|done].
Qed.

(** ** Skipping a group loses no row *)

(** A column of the row group: its definition, the values its type admits, and
    its rows, chunk group by chunk group. *)
Record column := mkColumn {
  cdef : PgColumnarColumnDef; catt : Form_pg_attribute;
  cdom : Datum -> Prop; cedom : Datum -> Prop;
  cgroups : list (list (option Datum))
}.

Section Sound.
Context `{TupMacsLaws} `{VarattExternal} `{HyperLogLog}.

Definition column_ok (col : column) : Prop :=
  def_laws (cdom col) (cedom col) (cdef col) /\
  Forall (Forall (admits (cdom col) (cdef col) (catt col))) (present <$> cgroups col).

(** What the flush of the column leaves in the catalog. *)
Definition catalog_of (rows : Z) (col : column) (z : NativeZoneMapMetadata) (bloom : option (list Z)) : Prop :=
  exists cols vectors,
    mapM (write_values (cdef col) (catt col) stats_init) (cgroups col) = Ok cols /\
    flush_zone_rows (cdef col) (catt col) rows (zip (zlen <$> cgroups col) cols) = Ok (vectors, z) /\
    flush_bloom_row (cdef col) cols = Ok bloom.

(** Equal values hash alike: the writer's hash and the probe's are of one hash
    family. *)
Definition hash_for (col : column) (pred : SkipPredicate) : Prop :=
  hasHash pred = true -> rangePred pred = false /\
    forall v c, cdom col v -> pcmpFn pred v c = 0 -> hashFn (cdef col) v = phashFn pred c.

(** The predicate holds of no row of the column. *)
Definition holds_nowhere (pred : SkipPredicate) (col : column) : Prop :=
  Forall (Forall (fun v => pred_holds pred v = false)) (stored_values (catt col) <$> cgroups col).

Lemma bloom_may_match_spec (hash : Datum -> Z) (filter hashes : list Z) (probes : list Datum) :
  bytes_ok filter -> (forall h, h ∈ hashes -> PgColumnarBloomProbe filter h = Ok true) ->
  exists b, bloom_may_match hash filter probes = Ok b /\
    (b = false -> forall p, p ∈ probes -> u32 (hash p) ∉ hashes).
Proof using.
  intros Hb Hh. induction probes as [|p probes (b & IH & Hno)]; cbn [bloom_may_match].
  { exists false. split; [done|]. intros _ p Hp. by apply not_elem_of_nil in Hp. }
  destruct (bloom_probe_total filter (u32 (hash p)) Hb) as [x Hx]. rewrite Hx, bind_Ok.
  destruct x; [by exists true|]. exists b. split; [done|]. intros Hf q [->|Hq]%elem_of_cons; [|by apply Hno].
  intros Hin. rewrite (Hh _ Hin) in Hx. done.
Qed.

(** The hashes a flushed column chunk's filter is built over. *)
Lemma written_hashes col rows z bloom :
  column_ok col -> catalog_of rows col z bloom ->
  zone_for (cdom col) (cedom col) (cdef col) (catt col) (concat (stored_values (catt col) <$> cgroups col)) z /\
  forall filter, bloom = Some filter -> bytes_ok filter /\
    forall v, v ∈ concat (stored_values (catt col) <$> cgroups col) ->
      PgColumnarBloomProbe filter (u32 (hashFn (cdef col) v)) = Ok true.
Proof using.
  intros [Hlaws Ha] (cols & vectors & Hm & Hf & Hbl).
  destruct (write_groups _ _ _ _ Hlaws _ Ha) as (cols' & Hm' & Hlen & Hw). rewrite Hm in Hm'. injection Hm' as <-.
  destruct (flush_zone_rows_spec _ _ _ _ Hlaws _ _ rows Hw) as (zs & z' & Hf' & _ & Hz).
  rewrite Hf in Hf'. injection Hf' as <- <-. split; [done|]. intros filter ->.
  unfold flush_bloom_row in Hbl. destruct (bloomable (cdef col)) eqn:Eb; [|done].
  destruct (0 <? zlen _); [|done].
  destruct (bloom_build_spec (concat (hashBuf <$> cols))) as (o & Ho & Hp). rewrite Hbl in Ho. injection Ho as <-.
  destruct (Hp filter eq_refl) as [Hok Hin]. split; [done|]. intros v Hv. apply Hin.
  assert (Hh : concat (hashBuf <$> cols) = (u32 ∘ hashFn (cdef col)) <$> concat (stored_values (catt col) <$> cgroups col)).
  { clear -Hw Hlen Eb. revert Hlen Hw. generalize (cgroups col) as gs. intros gs. revert cols.
    induction gs as [|g gs IH]; intros [|c cols] Hlen Hw; try done. injection Hlen as Hlen.
    apply Forall2_cons_1 in Hw as [[Hs _] Hw].
    change (hashBuf c ++ concat (hashBuf <$> cols) = (u32 ∘ hashFn (cdef col)) <$>
      (stored_values (catt col) g ++ concat (stored_values (catt col) <$> gs))).
    rewrite fmap_app, <- (IH cols Hlen Hw). f_equal. by apply (so_hash _ _ _ _ _ _ Hs). }
  rewrite Hh. apply (list_elem_of_fmap_2 (u32 ∘ hashFn (cdef col))). done.
Qed.

Lemma predicate_excludes_spec enable columns zone_of bloom_of rows col pred z bloom :
  column_ok col -> catalog_of rows col z bloom ->
  columns !! Z.to_nat (attidx pred) = Some col ->
  pred_for (cdom col) (cedom col) (cdef col) pred -> hash_for col pred ->
  zone_of (attidx pred) = None \/ zone_of (attidx pred) = Some z ->
  bloom_of (attidx pred) = None \/ bloom_of (attidx pred) = bloom ->
  exists b, predicate_excludes enable (catt <$> columns) zone_of bloom_of pred = Ok b /\
    (b = true -> holds_nowhere pred col).
Proof using.
  intros Hcol Hcat Hi Hpred Hhash Hz Hb. pose proof Hcol as [Hlaws Ha].
  destruct (written_hashes _ _ _ _ Hcol Hcat) as [Hzone Hbloom].
  assert (Hdom : Forall (cdom col) (concat (stored_values (catt col) <$> cgroups col))).
  { apply Forall_concat. rewrite Forall_fmap in Ha |- *. eapply list.Forall_impl; [exact Ha|]. intros vs. apply stored_dom. }
  unfold predicate_excludes. rewrite list_lookup_fmap, Hi. cbn [fmap option_fmap option_map].
  assert (Hzx : exists b, native_zone_excludes pred (catt col) (zone_of (attidx pred)) = Ok b /\
    (b = true -> holds_nowhere pred col)).
  { destruct Hz as [-> | ->].
    - exists false. split; [|done]. unfold native_zone_excludes. by destruct (rangePred pred).
    - destruct (zone_excludes_spec _ _ _ _ Hlaws pred Hpred _ _ Hzone Hdom) as (b & Hb' & Hx). exists b.
      split; [done|]. intros Hbt. apply Forall_concat. by apply Hx. }
  destruct Hzx as (zb & -> & Hzx). rewrite bind_Ok. destruct zb; [by exists true|].
  destruct (_ && _) eqn:Econd; [|by exists false].
  apply andb_true_iff in Econd as [[Estrat%Z.eqb_eq _]%andb_true_iff Ehash].
  destruct (bloom_of (attidx pred)) as [filter|]; [|by exists false]. destruct Hb as [Hb|<-]; [done|].
  destruct (Hbloom filter eq_refl) as [Hfok Hfin]. destruct (Hhash Ehash) as [Enr Hheq].
  set (probes := if searchArray pred then _ else _).
  destruct (bloom_may_match_spec (phashFn pred) filter
    ((u32 ∘ hashFn (cdef col)) <$> concat (stored_values (catt col) <$> cgroups col)) probes)
    as (m & -> & Hno); [done| |].
  { intros h (v & -> & Hv)%list_elem_of_fmap_1. by apply Hfin. }
  rewrite bind_Ok. exists (negb m). split; [done|]. intros Hm%negb_true_iff. apply Forall_concat.
  apply list.Forall_forall. intros v Hv. specialize (Hno Hm).
  rewrite list.Forall_forall in Hdom.
  assert (Hne : forall c, c ∈ probes -> pcmpFn pred v c <> 0).
  { intros c Hc E. apply (Hno c Hc). rewrite <- (Hheq v c); auto. apply (list_elem_of_fmap_2 (u32 ∘ hashFn (cdef col))). done. }
  unfold pred_holds, native_value_satisfies. rewrite Enr. unfold probes in Hne. destruct (searchArray pred).
  - apply not_true_iff_false. intros (c & Hc & E%Z.eqb_eq)%existsb_exists. by apply (Hne c); [apply list_elem_of_In|].
  - rewrite Estrat. cbn. apply Z.eqb_neq, Hne, list_elem_of_here.
Qed.
End Sound.

(** C12.  Skipping a row group loses no row.  Take a row group whose columns were
    written and flushed, with the zone maps and bloom filters of that flush in
    the catalog (or missing from it), and any set of pushed-down predicates:
    the test always answers; when it says the group cannot match, some
    predicate holds of no row of its column, so no row satisfies the
    conjunction; and neither the answer nor its later use depends on the order
    in which the predicates are tried, which the test itself rearranges. *)
Theorem group_skip_sound `{TupMacsLaws} `{VarattExternal} `{HyperLogLog} (enable_bloom_filter : bool)
    (columns : list column) (preds : list SkipPredicate)
    (zone_of : Z -> option NativeZoneMapMetadata) (bloom_of : Z -> option (list Z)) (rows : Z) :
  Forall column_ok columns ->
  (forall p, p ∈ preds -> exists col z bloom,
     columns !! Z.to_nat (attidx p) = Some col /\
     pred_for (cdom col) (cedom col) (cdef col) p /\ hash_for col p /\
     catalog_of rows col z bloom /\
     (zone_of (attidx p) = None \/ zone_of (attidx p) = Some z) /\
     (bloom_of (attidx p) = None \/ bloom_of (attidx p) = bloom)) ->
  exists b,
    (b = false -> exists p col, p ∈ preds /\ columns !! Z.to_nat (attidx p) = Some col /\ holds_nowhere p col) /\
    forall st, order_ok preds st -> exists st',
      pgcolumnar_native_group_can_match enable_bloom_filter (catt <$> columns) zone_of bloom_of preds st
      = Ok (b, st') /\ order_ok preds st'.
Proof.
  intros Hcols Hpreds.
  set (excl := predicate_excludes enable_bloom_filter (catt <$> columns) zone_of bloom_of).
  set (f p := match excl p with Ok b => b | _ => false end).
  assert (Hex : forall p, p ∈ preds -> excl p = Ok (f p) /\
    (f p = true -> exists col, columns !! Z.to_nat (attidx p) = Some col /\ holds_nowhere p col)).
  { intros p Hp. destruct (Hpreds p Hp) as (col & z & bloom & Hi & Hfor & Hhash & Hcat & Hz & Hb).
    destruct (predicate_excludes_spec enable_bloom_filter columns zone_of bloom_of rows col p z bloom)
      as (b & Hb' & Hx); try done; [exact (Forall_lookup_1 _ _ _ _ Hcols Hi)|].
    unfold f, excl. rewrite Hb'. split; [done|]. intros ->. exists col. auto. }
  exists (forallb (fun p => negb (f p)) preds). split.
  - intros (p & Hp & Hfp)%forallb_negb_false.
    destruct (Hex p Hp) as [_ Hh]. destruct (Hh Hfp) as (col & Hi & Hn). by exists p, col.
  - intros st' Hst'. apply group_can_match_spec; [done|]. intros p Hp. by apply Hex.
Qed.

(** ** An integer column, for evaluation *)

Section Int4Group.
#[local] Existing Instance tupmacs_le.
#[local] Existing Instance tupmacs_le_laws.
#[local] Existing Instance varatt_external_none.

(** The distinct count itself. *)
Definition exact_count : HyperLogLog := fun hashes => QArith_base.inject_Z (zlen (remove_dups hashes)).
#[local] Existing Instance exact_count.

(** The even numbers up to 126, in two chunk groups. *)
Definition int4_column : column :=
  mkColumn int4_def int4_att int4_dom (fun _ => False)
    [(fun i => Some (ByVal (2 * i))) <$> seqZ 0 40; (fun i => Some (ByVal (2 * i))) <$> seqZ 40 24].

Definition int4_catalog : option (NativeZoneMapMetadata * option (list Z)) :=
  match (cols ← mapM (write_values int4_def int4_att stats_init) (cgroups int4_column);
         ' (_, z) ← flush_zone_rows int4_def int4_att 64 (zip (zlen <$> cgroups int4_column) cols);
         b ← flush_bloom_row int4_def cols;
         Ok (z, b)) with
  | Ok r => Some r
  | _ => None
  end.

Lemma int4_column_ok : column_ok int4_column.
Proof.
  split; [exact int4_laws|]. unfold int4_column, cgroups, present.
  assert (Hrow : forall a n, 0 <= a -> a + n <= 64 ->
    Forall (admits int4_dom int4_def int4_att) (omap id ((fun i => Some (ByVal (2 * i))) <$> seqZ a n))).
  { intros a n Ha Hn. apply list.Forall_forall. intros v (o & Ho & Hv)%list_elem_of_omap.
    apply list_elem_of_fmap_1 in Ho as (i & -> & Hi%elem_of_seqZ). injection Hv as <-.
    assert (E : 2 * i = u64 (2 * i)) by (unfold u64; rewrite Z.mod_small; lia). rewrite E.
    apply int4_admits. lia. }
  constructor; [apply Hrow; lia|]. constructor; [apply Hrow; lia|]. apply Forall_nil_2.
Qed.

Lemma int4_hash_eq x y : cmp3 (s32 x) (s32 y) = 0 -> u32 x = u32 y.
Proof.
  rewrite cmp3_sgn, Z.sgn_null_iff. unfold s32, u32. intros E.
  assert (E' : (x + 2 ^ 31) mod 2 ^ 32 = (y + 2 ^ 31) mod 2 ^ 32) by lia.
  replace x with (x + 2 ^ 31 - 2 ^ 31) by lia. replace y with (y + 2 ^ 31 - 2 ^ 31) by lia.
  by rewrite (Zminus_mod (x + 2 ^ 31)), (Zminus_mod (y + 2 ^ 31)), E'.
Qed.

(** An odd number is within the bounds but not in the filter. *)
Example int4_group_skipped :
  pgcolumnar_native_group_can_match true [int4_att] (fun _ => fst <$> int4_catalog)
    (fun _ => p ← int4_catalog; snd p) [int4_pred BTEqualStrategyNumber 7] (mkOrder [0] [0] 0)
  = Ok (false, mkOrder [0] [1] 0).
Proof. vm_compute. reflexivity. Qed.

Lemma group_skip_sound_witness :
  exists b,
    (b = false -> exists p col, p ∈ [int4_pred BTEqualStrategyNumber 7] /\
       [int4_column] !! Z.to_nat (attidx p) = Some col /\ holds_nowhere p col) /\
    forall st, order_ok [int4_pred BTEqualStrategyNumber 7] st -> exists st',
      pgcolumnar_native_group_can_match true (catt <$> [int4_column]) (fun _ => fst <$> int4_catalog)
        (fun _ => p ← int4_catalog; snd p) [int4_pred BTEqualStrategyNumber 7] st
      = Ok (b, st') /\ order_ok [int4_pred BTEqualStrategyNumber 7] st'.
Proof.
  apply (group_skip_sound true [int4_column] [int4_pred BTEqualStrategyNumber 7]
    (fun _ => fst <$> int4_catalog) (fun _ => p ← int4_catalog; snd p) 64).
  - constructor; [exact int4_column_ok|apply Forall_nil_2].
  - intros p ->%list_elem_of_singleton. exists int4_column. eexists _, _. split; [reflexivity|].
    split; [apply int4_pred_for|]. split.
    { intros _. split; [reflexivity|]. intros v c (s & Hs & ->) E. destruct c as [w|]; [|done].
      cbn. by rewrite (int4_hash_eq _ _ E). }
    split; [eexists _, _; split; [vm_compute; reflexivity|split; vm_compute; reflexivity]|].
    split; right; vm_compute; reflexivity.
Defined.
End Int4Group.
