(* ===== verification/Storage.v ===== *)
(** * Relation storage

    [columnar_storage.c]: the metapage with its reservation counters, the
    mapping of logical byte offsets onto pages, reading and writing logical
    ranges (with the read-stream variant of the read), truncation, and the row
    number to item pointer mapping.  A main fork is its list of pages; block 0
    is the metapage.  Buffer locks and WAL are not modelled: each operation
    runs under the lock that serializes it.

    The page size is the server's build-time choice and a parameter. *)

From S2P Require Import Prelude.

Class PageLayout : Type := { BLCKSZ : Z; SizeOfPageHeaderData : Z; MaxHeapTuplesPerPage : Z }.

Class PageLayoutLaws `{PageLayout} : Prop := {
  header_pos : 0 < SizeOfPageHeaderData;
  page_fits : SizeOfPageHeaderData < BLCKSZ;
  page_small : BLCKSZ <= 2 ^ 15;
  tuples_pos : 0 < MaxHeapTuplesPerPage;
  tuples_fit : MaxHeapTuplesPerPage < 2 ^ 16 - 1
}.

Definition COLUMNAR_METAPAGE_BLOCKNO : Z := 0.
Definition COLUMNAR_EMPTY_BLOCKNO : Z := 1.
Definition COLUMNAR_VERSION_MAJOR : Z := 2.
Definition COLUMNAR_VERSION_MINOR : Z := 2.
Definition COLUMNAR_FIRST_ROW_NUMBER : Z := 1.
Definition InvalidBlockNumber : Z := 2 ^ 32 - 1.

Record PgColumnarMetapage := mkMeta {
  versionMajor : Z; versionMinor : Z; storageId : Z;
  reservedStripeId : Z; reservedRowNumber : Z; reservedOffset : Z; unloggedReset : bool
}.

(** A page: the metapage's structure, or data bytes after the page header. *)
Inductive page :=
| MetaPage (m : PgColumnarMetapage)
| DataPage (pd_lower : Z) (contents : list Z).

Section Storage.
Context `{PageLayout}.

Definition COLUMNAR_BYTES_PER_PAGE : Z := BLCKSZ - SizeOfPageHeaderData.
Definition COLUMNAR_FIRST_LOGICAL_OFFSET : Z := 2 * COLUMNAR_BYTES_PER_PAGE.
Definition COLUMNAR_PAGE_ROUND_UP (n : Z) : Z :=
  u64 (u64 (n + COLUMNAR_BYTES_PER_PAGE - 1) / COLUMNAR_BYTES_PER_PAGE * COLUMNAR_BYTES_PER_PAGE).
Definition COLUMNAR_VALID_ITEMPOINTER_OFFSETS : Z := MaxHeapTuplesPerPage.

(** [PageInit]: a zeroed page. *)
Definition PageInit : page :=
  DataPage SizeOfPageHeaderData (replicate (Z.to_nat COLUMNAR_BYTES_PER_PAGE) 0).

Definition PgColumnarWriteNewMetapage (sid : Z) : list page :=
  [MetaPage (mkMeta COLUMNAR_VERSION_MAJOR COLUMNAR_VERSION_MINOR sid 1
               COLUMNAR_FIRST_ROW_NUMBER COLUMNAR_FIRST_LOGICAL_OFFSET false);
   PageInit].

(** ** The metapage *)

Definition metapage (rel : list page) : res PgColumnarMetapage :=
  match rel !! 0%nat with
  | Some (MetaPage m) => Ok m
  | Some (DataPage _ _) => Oob
  | None => Err "could not read block 0"
  end.

Definition set_metapage (rel : list page) (m : PgColumnarMetapage) : list page := <[0%nat := MetaPage m]> rel.

Definition PgColumnarReadMetapage (rel : list page) : res PgColumnarMetapage :=
  m ← metapage rel;
  if versionMajor m =? COLUMNAR_VERSION_MAJOR then Ok m
  else Err "unsupported columnar format version".

Definition PgColumnarStorageId (rel : list page) : res Z :=
  m ← PgColumnarReadMetapage rel; Ok (storageId m).

Definition PgColumnarReserveRowNumbers (rel : list page) (rowCount : Z) : res (list page * (Z * Z)) :=
  m ← metapage rel;
  Ok (set_metapage rel (mkMeta (versionMajor m) (versionMinor m) (storageId m)
        (u64 (reservedStripeId m + 1)) (u64 (reservedRowNumber m + rowCount)) (reservedOffset m)
        (unloggedReset m)),
      (reservedStripeId m, reservedRowNumber m)).

Definition with_offset (m : PgColumnarMetapage) (off : Z) : PgColumnarMetapage :=
  mkMeta (versionMajor m) (versionMinor m) (storageId m) (reservedStripeId m) (reservedRowNumber m) off
    (unloggedReset m).

Definition PgColumnarReserveOffset (rel : list page) (dataLength : Z) : res (list page * Z) :=
  m ← metapage rel;
  let alignedOffset := u64 (u64 (reservedOffset m + COLUMNAR_BYTES_PER_PAGE - 1)
                            / COLUMNAR_BYTES_PER_PAGE * COLUMNAR_BYTES_PER_PAGE) in
  Ok (set_metapage rel (with_offset m (u64 (alignedOffset + dataLength))), alignedOffset).

Definition PgColumnarAdvanceReservedOffset (rel : list page) (addBytes : Z) : res (list page) :=
  m ← metapage rel; Ok (set_metapage rel (with_offset m (u64 (reservedOffset m + addBytes)))).

Definition PgColumnarDebugSetMetapageVersion (rel : list page) (major minor : Z) : res (list page) :=
  m ← metapage rel;
  Ok (set_metapage rel (mkMeta major minor (storageId m) (reservedStripeId m) (reservedRowNumber m)
        (reservedOffset m) (unloggedReset m))).

Definition PgColumnarSetReservedOffset (rel : list page) (newOffset : Z) : res (list page) :=
  m ← metapage rel; Ok (set_metapage rel (with_offset m newOffset)).

Definition PgColumnarResetMetapage (rel : list page) : res (list page) :=
  m ← metapage rel;
  Ok (set_metapage rel (mkMeta (versionMajor m) (versionMinor m) (storageId m) 1
        COLUMNAR_FIRST_ROW_NUMBER COLUMNAR_FIRST_LOGICAL_OFFSET (unloggedReset m))).

Definition PgColumnarTruncateMainFork (rel : list page) (newnblocks : Z) : list page :=
  if zlen rel <=? newnblocks then rel else take (Z.to_nat newnblocks) rel.

(** ** Logical data *)

(** Extending with empty pages until the fork has [blockno] blocks. *)
Fixpoint fill_gap (fuel : nat) (rel : list page) (nblocks blockno : Z) : res (list page * Z) :=
  match fuel with
  | O => Fuel
  | S f => if nblocks <? blockno then fill_gap f (rel ++ [PageInit]) (u32 (nblocks + 1)) blockno
           else Ok (rel, nblocks)
  end.

(** [memcpy(page + SizeOfPageHeaderData + pageOffset, src, n)] into a fresh page. *)
Definition fresh_page (pageOffset : Z) (src : list Z) : res page :=
  c ← wr (replicate (Z.to_nat COLUMNAR_BYTES_PER_PAGE) 0) pageOffset src;
  Ok (DataPage (SizeOfPageHeaderData + pageOffset + zlen src) c).

Fixpoint write_loop (fuel : nat) (rel : list page) (nblocks L : Z) (src : list Z) : res (list page) :=
  match fuel with
  | O => Fuel
  | S f =>
      if 0 <? zlen src then
        let blockno := u32 (L / COLUMNAR_BYTES_PER_PAGE) in
        let pageOffset := u32 (L mod COLUMNAR_BYTES_PER_PAGE) in
        let n := u32 (Z.min (u64 (COLUMNAR_BYTES_PER_PAGE - pageOffset)) (zlen src)) in
        st ← (if blockno <? nblocks then Ok (rel, nblocks)
              else
                ' (rel, nblocks) ← fill_gap (S (Z.to_nat (blockno - nblocks))) rel nblocks blockno;
                let newblock := zlen rel in
                if negb (newblock =? blockno) then Err "columnar: unexpected block while writing stripe"
                else Ok (rel ++ [PageInit], u32 (blockno + 1)));
        let '(rel, nblocks) := (st : list page * Z) in
        chunk ← rd src 0 n;
        p ← fresh_page pageOffset chunk;
        write_loop f (<[Z.to_nat blockno := p]> rel) nblocks (u64 (L + n)) (drop (Z.to_nat n) src)
      else Ok rel
  end.

Definition PgColumnarWriteLogicalData (rel : list page) (logicalOffset : Z) (data : list Z) : res (list page) :=
  write_loop (S (length data)) rel (u32 (zlen rel)) logicalOffset data.

(** The [n] bytes of a page from [pageOffset] on. *)
Definition page_bytes (p : page) (pageOffset n : Z) : res (list Z) :=
  match p with DataPage _ c => rd c pageOffset n | MetaPage _ => Oob end.

Definition ReadBuffer (rel : list page) (blockno : Z) : res page :=
  match rel !! Z.to_nat blockno with Some p => Ok p | None => Err "could not read block" end.

(** The synchronous path. *)
Fixpoint read_loop (fuel : nat) (rel : list page) (L remaining : Z) : res (list Z) :=
  match fuel with
  | O => Fuel
  | S f =>
      if 0 <? remaining then
        let blockno := u32 (L / COLUMNAR_BYTES_PER_PAGE) in
        let pageOffset := u32 (L mod COLUMNAR_BYTES_PER_PAGE) in
        let n := u32 (Z.min (u64 (COLUMNAR_BYTES_PER_PAGE - pageOffset)) remaining) in
        p ← ReadBuffer rel blockno;
        b ← page_bytes p pageOffset n;
        rest ← read_loop f rel (u64 (L + n)) (remaining - n);
        Ok (b ++ rest)
      else Ok []
  end.

(** The read stream: its callback hands out the blocks of the range. *)
Definition pgcolumnar_read_stream_next (range : Z * Z) : Z * (Z * Z) :=
  let '(next, last) := range in
  if last <? next then (InvalidBlockNumber, range) else (next, (u32 (next + 1), last)).

Fixpoint stream_loop (fuel : nat) (rel : list page) (range : Z * Z) (L remaining : Z) : res (list Z) :=
  match fuel with
  | O => Fuel
  | S f =>
      if 0 <? remaining then
        let pageOffset := u32 (L mod COLUMNAR_BYTES_PER_PAGE) in
        let n := u32 (Z.min (u64 (COLUMNAR_BYTES_PER_PAGE - pageOffset)) remaining) in
        let '(blockno, range) := pgcolumnar_read_stream_next range in
        if blockno =? InvalidBlockNumber then Err "columnar: read stream ended before the requested range"
        else
          p ← ReadBuffer rel blockno;
          b ← page_bytes p pageOffset n;
          rest ← stream_loop f rel range (u64 (L + n)) (remaining - n);
          Ok (b ++ rest)
      else Ok []
  end.

Definition PgColumnarReadLogicalData (enable_read_stream : bool) (rel : list page) (logicalOffset length : Z)
    : res (list Z) :=
  if length =? 0 then Ok []
  else if enable_read_stream
  then stream_loop (S (Z.to_nat length)) rel
         (u32 (logicalOffset / COLUMNAR_BYTES_PER_PAGE),
          u32 (u64 (logicalOffset + length - 1) / COLUMNAR_BYTES_PER_PAGE)) logicalOffset length
  else read_loop (S (Z.to_nat length)) rel logicalOffset length.

(** ** Row numbers and item pointers *)

Record ItemPointer := mkTid { ip_blkid : Z; ip_posid : Z }.

Definition PgColumnarRowNumberToItemPointer (rowNumber : Z) : ItemPointer :=
  mkTid (u32 (rowNumber / COLUMNAR_VALID_ITEMPOINTER_OFFSETS))
        (u16 (rowNumber mod COLUMNAR_VALID_ITEMPOINTER_OFFSETS + 1)).

Definition pgcolumnar_row_tid (rowNumber : Z) : res ItemPointer :=
  if rowNumber <? 1 then Err "row number is out of range"
  else Ok (PgColumnarRowNumberToItemPointer (u64 rowNumber)).

Definition PgColumnarItemPointerToRowNumber (tid : ItemPointer) : Z :=
  u64 (ip_blkid tid * COLUMNAR_VALID_ITEMPOINTER_OFFSETS + (ip_posid tid - 1)).
End Storage.

(** ** The logical byte array *)

Section Logical.
Context `{PageLayoutLaws}.
Local Abbreviation bpp := COLUMNAR_BYTES_PER_PAGE.

Lemma bpp_bounds : 0 < COLUMNAR_BYTES_PER_PAGE < 2 ^ 15.
Proof. unfold COLUMNAR_BYTES_PER_PAGE. pose proof header_pos. pose proof page_fits. pose proof page_small. lia. Qed.

Lemma bpp_mod L : 0 <= L mod bpp < bpp.
Proof. apply Z.mod_pos_bound, bpp_bounds. Qed.

Lemma bpp_div L : L = bpp * (L / bpp) + L mod bpp.
Proof. apply Z.div_mod. pose proof bpp_bounds. lia. Qed.

(** The byte at a logical offset. *)
Definition logical (rel : list page) (L : Z) : option Z :=
  match rel !! Z.to_nat (L / bpp) with
  | Some (DataPage _ c) => c !! Z.to_nat (L mod bpp)
  | _ => None
  end.

(** [bs] is what the fork holds from [L] on. *)
Definition holds_at (rel : list page) (L : Z) (bs : list Z) : Prop :=
  forall j b, bs !! j = Some b -> logical rel (L + Z.of_nat j) = Some b.

Lemma page_split L j : 0 <= j -> L mod bpp + j < bpp -> (L + j) / bpp = L / bpp /\ (L + j) mod bpp = L mod bpp + j.
Proof.
  intros Hj Hlt. pose proof bpp_bounds. pose proof (bpp_mod L). pose proof (bpp_div L) as Hd.
  assert (E : L + j = bpp * (L / bpp) + (L mod bpp + j)) by lia. split.
  - symmetry. apply (Z.div_unique _ _ _ (L mod bpp + j)); lia.
  - symmetry. apply (Z.mod_unique _ _ (L / bpp)); lia.
Qed.

(** What one turn of a read loop takes from its page. *)
Lemma page_chunk rel L bs n :
  0 <= L -> holds_at rel L bs -> 0 < n <= zlen bs -> L mod bpp + n <= bpp ->
  exists p, rel !! Z.to_nat (L / bpp) = Some p /\ page_bytes p (L mod bpp) n = Ok (take (Z.to_nat n) bs).
Proof.
  intros HL Hh Hn Hfit. pose proof bpp_bounds. pose proof (bpp_mod L).
  assert (Hj : forall j, (j < Z.to_nat n)%nat -> exists b lo c, bs !! j = Some b /\
    rel !! Z.to_nat (L / bpp) = Some (DataPage lo c) /\ c !! (Z.to_nat (L mod bpp) + j)%nat = Some b).
  { intros j Hj. destruct (lookup_lt_is_Some_2 bs j) as [b Hb]; [unfold zlen in Hn; lia|].
    specialize (Hh j b Hb). unfold logical in Hh. destruct (page_split L (Z.of_nat j)) as [Ed Em]; [lia..|].
    rewrite Ed, Em in Hh. destruct (rel !! _) as [[|lo c]|]; [done| |done].
    exists b, lo, c. repeat split; try done. rewrite <- Hh. f_equal. lia. }
  destruct (Hj 0%nat) as (_ & lo & c & _ & Hp & _); [lia|]. exists (DataPage lo c). split; [done|]. cbn [page_bytes].
  assert (Hlen : L mod bpp + n <= zlen c).
  { destruct (Hj (Z.to_nat n - 1)%nat) as (b & lo' & c' & _ & Hp' & Hc); [lia|].
    rewrite Hp in Hp'. injection Hp' as <- <-. apply lookup_lt_Some in Hc. unfold zlen. lia. }
  rewrite rd_Ok by lia. f_equal. apply list_eq. intros j. destruct (decide (j < Z.to_nat n)%nat) as [Hlt|Hge].
  - rewrite !lookup_take_lt, lookup_drop by done. destruct (Hj j Hlt) as (b & lo' & c' & Hb & Hp' & Hc).
    rewrite Hp in Hp'. injection Hp' as <- <-. by rewrite Hb, Hc.
  - by rewrite !lookup_take_ge by lia.
Qed.

Lemma holds_drop rel L bs n :
  0 <= n <= zlen bs -> holds_at rel L bs -> holds_at rel (L + n) (drop (Z.to_nat n) bs).
Proof.
  intros Hn Hh j b Hj. rewrite lookup_drop in Hj. specialize (Hh _ _ Hj).
  replace (L + n + Z.of_nat j) with (L + Z.of_nat (Z.to_nat n + j)) by lia. done.
Qed.

(** The amount a read or write loop moves at a time. *)
Lemma chunk_size L len :
  0 <= L -> 0 < len ->
  let po := u32 (L mod bpp) in let n := u32 (Z.min (u64 (bpp - po)) len) in
  po = L mod bpp /\ n = Z.min (bpp - L mod bpp) len /\ 0 < n <= len /\ L mod bpp + n <= bpp.
Proof.
  intros HL Hlen po n. pose proof bpp_bounds. pose proof (bpp_mod L).
  assert (Hpo : po = L mod bpp) by (unfold po, u32; apply Z.mod_small; lia).
  assert (Hn : n = Z.min (bpp - L mod bpp) len).
  { unfold n. rewrite Hpo. unfold u64, u32. rewrite (Z.mod_small (bpp - _)) by lia. apply Z.mod_small. lia. }
  split; [done|]. rewrite Hn. split; [done|]. lia.
Qed.

Lemma block_small L : 0 <= L < 2 ^ 32 * bpp -> u32 (L / bpp) = L / bpp.
Proof.
  intros HL. pose proof bpp_bounds. unfold u32. apply Z.mod_small. split; [apply Z.div_pos; lia|].
  apply Z.div_lt_upper_bound; lia.
Qed.

Lemma read_loop_holds fuel rel L bs :
  holds_at rel L bs -> 0 <= L -> L + zlen bs <= (2 ^ 32 - 1) * bpp -> (length bs < fuel)%nat ->
  read_loop fuel rel L (zlen bs) = Ok bs.
Proof.
  revert L bs. induction fuel as [|fuel IH]; intros L bs Hh HL Hmax Hf; [lia|]. cbn [read_loop].
  destruct (Z.ltb_spec 0 (zlen bs)) as [Hpos|Hz]; [|destruct bs; [done|rewrite zlen_cons in Hz; pose proof (zlen_nonneg bs); lia]].
  pose proof bpp_bounds. 
  destruct (chunk_size L (zlen bs) HL Hpos) as (Epo & En & Hn & Hfit).  cbv zeta in *.
  rewrite Epo in *. set (n := u32 (Z.min (u64 (bpp - L mod bpp)) (zlen bs))) in *.
  rewrite block_small by (lia).
  destruct (page_chunk rel L bs n HL Hh Hn Hfit) as (p & Hp & Hb).
  unfold ReadBuffer. rewrite Hp, bind_Ok, Hb, bind_Ok.
  assert (Hu : u64 (L + n) = L + n) by (unfold u64; apply Z.mod_small; lia).
  rewrite Hu. replace (zlen bs - n) with (zlen (drop (Z.to_nat n) bs)) by (unfold zlen in *; rewrite length_drop; lia).
  rewrite IH, bind_Ok; [by rewrite take_drop| |lia| |].
  - apply holds_drop; [lia|done].
  - unfold zlen in *. rewrite length_drop. lia.
  - rewrite length_drop. unfold zlen in *. lia.
Qed.

Lemma next_page L len :
  0 <= L -> bpp - L mod bpp < len -> (L + (bpp - L mod bpp)) / bpp = L / bpp + 1 /\ (L + (bpp - L mod bpp)) mod bpp = 0.
Proof.
  intros HL Hlt. pose proof bpp_bounds. pose proof (bpp_div L) as Hd. split.
  - symmetry. apply (Z.div_unique _ _ _ 0); lia.
  - symmetry. apply (Z.mod_unique _ _ (L / bpp + 1)); lia.
Qed.

(** The read stream hands the loop the block the synchronous loop asks for. *)
Lemma stream_loop_sync fuel rel L len :
  0 <= L -> 0 < len -> L + len <= (2 ^ 32 - 1) * bpp ->
  stream_loop fuel rel (L / bpp, (L + len - 1) / bpp) L len = read_loop fuel rel L len.
Proof.
  revert L len. induction fuel as [|fuel IH]; intros L len HL Hlen Hmax; [done|]. cbn [stream_loop read_loop].
  destruct (Z.ltb_spec 0 len) as [_|?]; [|lia]. pose proof bpp_bounds. pose proof (bpp_mod L).
  destruct (chunk_size L len HL Hlen) as (Epo & En & Hn & Hfit). cbv zeta in *.
  rewrite Epo in *. rewrite En in *. set (n := Z.min (bpp - L mod bpp) len) in *.
  assert (Hblk : 0 <= L / bpp < 2 ^ 32 - 1) by (split; [apply Z.div_pos; lia|apply Z.div_lt_upper_bound; lia]).
  unfold pgcolumnar_read_stream_next.
  destruct (Z.ltb_spec ((L + len - 1) / bpp) (L / bpp)) as [Hlt|_].
  { pose proof (Z.div_le_mono L (L + len - 1) bpp). lia. }
  unfold InvalidBlockNumber. destruct (Z.eqb_spec (L / bpp) (2 ^ 32 - 1)) as [?|_]; [lia|].
  rewrite !u32_small, (u64_small (L + n)) by lia.
  destruct (ReadBuffer rel (L / bpp)) as [p| | |]; try done. rewrite !bind_Ok.
  destruct (page_bytes p (L mod bpp) n) as [b| | |]; try done. rewrite !bind_Ok.
  destruct (Z.eq_dec (len - n) 0) as [Hz|Hz]; [rewrite Hz; by destruct fuel|].
  assert (n = bpp - L mod bpp) as Hnn by (unfold n in *; lia).
  destruct (next_page L len) as [Ed _]; [lia..|]. rewrite <- Hnn in Ed. rewrite <- Ed.
  replace (L + len - 1) with (L + n + (len - n) - 1) by lia. rewrite IH by lia. done.
Qed.

(** A read depends on the blocks of its range only. *)
Lemma read_loop_agree fuel rel rel' L len :
  0 <= L -> L + len <= (2 ^ 32 - 1) * bpp ->
  (forall k, L / bpp <= k <= (L + len - 1) / bpp -> rel' !! Z.to_nat k = rel !! Z.to_nat k) ->
  read_loop fuel rel' L len = read_loop fuel rel L len.
Proof.
  revert L len. induction fuel as [|fuel IH]; intros L len HL Hmax Hk; [done|]. cbn [read_loop].
  destruct (Z.ltb_spec 0 len) as [Hlen|?]; [|done]. pose proof bpp_bounds. pose proof (bpp_mod L).
  destruct (chunk_size L len HL Hlen) as (Epo & En & Hn & Hfit). cbv zeta in *.
  rewrite Epo in *. rewrite En in *. set (n := Z.min (bpp - L mod bpp) len) in *.
  rewrite block_small, (u64_small (L + n)) by lia. unfold ReadBuffer. rewrite Hk.
  2:{ split; [lia|]. apply Z.div_le_mono; lia. }
  destruct (rel !! Z.to_nat (L / bpp)) as [p|]; [|done]. rewrite !bind_Ok.
  destruct (page_bytes p (L mod bpp) n) as [b| | |]; try done. rewrite !bind_Ok.
  rewrite IH; [done|lia|lia|]. intros k Hkk. apply Hk. split.
  - transitivity ((L + n) / bpp); [apply Z.div_le_mono; lia|lia].
  - replace (L + len - 1) with (L + n + (len - n) - 1) by lia. lia.
Qed.

Lemma ReadLogicalData_sync s rel L len :
  0 <= L -> 0 <= len -> L + len <= (2 ^ 32 - 1) * bpp ->
  PgColumnarReadLogicalData s rel L len = read_loop (S (Z.to_nat len)) rel L len.
Proof.
  intros HL Hlen Hmax. pose proof bpp_bounds. unfold PgColumnarReadLogicalData.
  destruct (Z.eqb_spec len 0) as [->|Hnz]; [done|]. destruct s; [|done].
  rewrite (u64_small (L + len - 1)), !block_small by lia. apply stream_loop_sync; lia.
Qed.

Lemma ReadLogicalData_holds s rel L bs :
  0 <= L -> L + zlen bs <= (2 ^ 32 - 1) * bpp -> holds_at rel L bs ->
  PgColumnarReadLogicalData s rel L (zlen bs) = Ok bs.
Proof.
  intros HL Hmax Hh. pose proof (zlen_nonneg bs). rewrite ReadLogicalData_sync by lia.
  apply read_loop_holds; [done..|]. unfold zlen. lia.
Qed.

(** ** Writing *)

Lemma fill_gap_spec fuel rel b :
  zlen rel <= b < 2 ^ 32 -> b - zlen rel < Z.of_nat fuel ->
  fill_gap fuel rel (zlen rel) b = Ok (rel ++ replicate (Z.to_nat (b - zlen rel)) PageInit, b).
Proof.
  revert rel. induction fuel as [|fuel IH]; intros rel Hb Hf; [lia|]. cbn [fill_gap].
  destruct (Z.ltb_spec (zlen rel) b) as [Hlt|Hge].
  - rewrite u32_small by (pose proof (zlen_nonneg rel); lia).
    assert (E : zlen (rel ++ [PageInit]) = zlen rel + 1) by (rewrite zlen_app; done).
    rewrite <- E, IH by lia. rewrite E, <- app_assoc. do 2 f_equal.
    replace (Z.to_nat (b - zlen rel)) with (S (Z.to_nat (b - (zlen rel + 1)))) by lia. done.
  - replace b with (zlen rel) by lia. rewrite Z.sub_diag. by rewrite app_nil_r.
Qed.

(** The fork after the block [b] was made to exist: the old blocks, then empty ones. *)
Definition grown (rel : list page) (b : Z) : list page :=
  rel ++ replicate (Z.to_nat (b + 1 - zlen rel)) PageInit.

Lemma zlen_grown rel b : zlen (grown rel b) = Z.max (zlen rel) (b + 1).
Proof. unfold grown. rewrite zlen_app. unfold zlen. rewrite length_replicate. lia. Qed.

Lemma lookup_grown rel b k : (k < length rel)%nat -> grown rel b !! k = rel !! k.
Proof. intros Hk. unfold grown. by rewrite lookup_app_l. Qed.

(** The page one turn of the write loop leaves. *)
Definition chunk_page (c : list Z) : page :=
  DataPage (SizeOfPageHeaderData + zlen c) (c ++ replicate (Z.to_nat bpp - length c) 0).

Lemma fresh_chunk_page c : zlen c <= bpp -> fresh_page 0 c = Ok (chunk_page c).
Proof.
  intros Hc. pose proof bpp_bounds. unfold fresh_page, chunk_page. rewrite wr_Ok.
  - rewrite bind_Ok, Z.add_0_r. cbn [Z.to_nat take app]. rewrite drop_replicate. unfold zlen.
    rewrite Z2Nat.inj_0, Z.add_0_l, Nat2Z.id. done.
  - lia.
  - unfold zlen in *. rewrite length_replicate. lia.
Qed.

Record write_post (rel : list page) (b : Z) (src : list Z) (rel' : list page) : Prop := {
  wp_len : zlen rel <= zlen rel';
  wp_max : zlen rel' <= Z.max (zlen rel) ((b * bpp + zlen src + bpp - 1) / bpp);
  wp_data : holds_at rel' (b * bpp) src;
  wp_frame : forall k, 0 <= k < zlen rel -> k < b \/ b * bpp + zlen src <= k * bpp ->
    rel' !! Z.to_nat k = rel !! Z.to_nat k
}.

(** One turn of the write loop at a page boundary. *)
Lemma write_turn f rel b src :
  0 <= b -> src <> [] -> b * bpp + zlen src <= (2 ^ 32 - 1) * bpp -> zlen rel < 2 ^ 32 ->
  let n := Z.to_nat (Z.min bpp (zlen src)) in
  write_loop (S f) rel (zlen rel) (b * bpp) src =
  write_loop f (<[Z.to_nat b := chunk_page (take n src)]> (grown rel b)) (zlen (grown rel b))
    (b * bpp + Z.of_nat n) (drop n src).
Proof.
  intros Hb Hne Hmax Hrel n. pose proof bpp_bounds as Hbpp. cbn [write_loop].
  assert (Hpos : 0 < zlen src) by (destruct src; [done|rewrite zlen_cons; pose proof (zlen_nonneg src); lia]).
  destruct (Z.ltb_spec 0 (zlen src)) as [_|?]; [|lia].
  assert (Hb32 : b < 2 ^ 32 - 1) by nia.
  rewrite Z.mod_mul, Z.div_mul by lia.
  rewrite (u32_small b), (u32_small 0), Z.sub_0_r, (u64_small bpp) by lia.
  rewrite (u32_small (Z.min _ _)) by lia.
  assert (Est : (if b <? zlen rel then Ok (rel, zlen rel)
     else ' (rel0, _) ← fill_gap (S (Z.to_nat (b - zlen rel))) rel (zlen rel) b;
          (if negb (zlen rel0 =? b) then Err "columnar: unexpected block while writing stripe"
           else Ok (rel0 ++ [PageInit], u32 (b + 1)))) = Ok (grown rel b, zlen (grown rel b))).
  { rewrite zlen_grown. unfold grown. destruct (Z.ltb_spec b (zlen rel)) as [Hlt|Hge].
    - replace (Z.to_nat (b + 1 - zlen rel)) with 0%nat by lia. rewrite app_nil_r. do 2 f_equal. lia.
    - rewrite fill_gap_spec by lia. rewrite bind_Ok. pose proof (zlen_nonneg rel).
      assert (E : zlen (rel ++ replicate (Z.to_nat (b - zlen rel)) PageInit) = b)
        by (rewrite zlen_app; unfold zlen; rewrite length_replicate; unfold zlen in *; lia).
      rewrite E, Z.eqb_refl, u32_small by lia. cbn [negb]. rewrite <- app_assoc, <- replicate_S_end.
      do 2 f_equal; [do 2 f_equal; lia|lia]. }
  rewrite Est, bind_Ok. rewrite (rd_Ok src 0), bind_Ok by lia. cbn [Z.to_nat drop].
  rewrite fresh_chunk_page, bind_Ok by (unfold zlen in *; rewrite length_take; lia).
  rewrite u64_small by nia. unfold n. rewrite Z2Nat.id by lia. done.
Qed.

Lemma logical_chunk rel b c j x :
  0 <= b < zlen rel -> zlen c <= bpp -> c !! j = Some x ->
  logical (<[Z.to_nat b := chunk_page c]> rel) (b * bpp + Z.of_nat j) = Some x.
Proof.
  intros Hb Hc Hj. pose proof bpp_bounds. pose proof (lookup_lt_Some _ _ _ Hj) as Hlt.
  assert (Z.of_nat j < bpp) by (unfold zlen in Hc; lia). unfold logical.
  rewrite Z.div_add_l, Z.div_small, Z.add_0_r by lia.
  rewrite (Z.add_comm (b * bpp)), Z.mod_add, Z.mod_small by lia.
  rewrite list_lookup_insert_eq by (unfold zlen in Hb; lia). unfold chunk_page. rewrite Nat2Z.id.
  by rewrite lookup_app_l.
Qed.

Lemma write_loop_spec fuel rel b src :
  0 <= b -> b * bpp + zlen src <= (2 ^ 32 - 1) * bpp -> zlen rel < 2 ^ 32 -> (length src < fuel)%nat ->
  exists rel', write_loop fuel rel (zlen rel) (b * bpp) src = Ok rel' /\ write_post rel b src rel'.
Proof.
  revert rel b src. induction fuel as [|f IH]; intros rel b src Hb Hmax Hrel Hf; [lia|].
  pose proof bpp_bounds as Hbpp. destruct (decide (src = [])) as [->|Hne].
  { exists rel. split; [done|]. split; [lia|lia|intros j x Hj; done|done]. }
  assert (Hpos : 0 < zlen src) by (destruct src; [done|rewrite zlen_cons; pose proof (zlen_nonneg src); lia]).
  assert (Hb32 : b < 2 ^ 32 - 1) by nia.
  rewrite write_turn by done. cbv zeta.
  set (n := Z.to_nat (Z.min bpp (zlen src))). set (c := take n src).
  set (rel1 := <[Z.to_nat b := chunk_page c]> (grown rel b)).
  assert (Hl1 : zlen rel1 = Z.max (zlen rel) (b + 1)) by (unfold rel1, zlen; rewrite length_insert; apply zlen_grown).
  assert (Hc : zlen c = Z.of_nat n) by (unfold c, zlen; rewrite length_take; unfold n, zlen; lia).
  assert (Hframe1 : forall k, 0 <= k < zlen rel -> k <> b -> rel1 !! Z.to_nat k = rel !! Z.to_nat k).
  { intros k Hk Hkb. unfold rel1. rewrite list_lookup_insert_ne by lia. apply lookup_grown. unfold zlen in Hk. lia. }
  assert (Hchunk : forall j x, c !! j = Some x -> logical rel1 (b * bpp + Z.of_nat j) = Some x).
  { intros j x Hj. unfold rel1. apply logical_chunk; [rewrite zlen_grown; lia|unfold n in Hc; lia|done]. }
  replace (zlen (grown rel b)) with (zlen rel1) by (rewrite Hl1; symmetry; apply zlen_grown).
  destruct (Z.le_gt_cases (zlen src) bpp) as [Hlast|Hmore].
  - exists rel1. assert (n = length src) as En by (unfold n, zlen in *; lia).
    rewrite drop_ge by lia. split; [destruct f; [lia|done]|]. split.
    + lia.
    + rewrite Hl1. apply Z.max_le_compat_l. apply Z.div_le_lower_bound; lia.
    + intros j x Hj. apply Hchunk. unfold c. rewrite En, firstn_all. done.
    + intros k Hk Hor. apply Hframe1; [done|]. nia.
  - assert (Z.of_nat n = bpp) as En by (unfold n; lia).
    rewrite En. replace (b * bpp + bpp) with ((b + 1) * bpp) by lia.
    assert (Hd : zlen (drop n src) = zlen src - bpp) by (unfold zlen in *; rewrite length_drop; lia).
    destruct (IH rel1 (b + 1) (drop n src)) as (rel' & -> & [Hlen Hmx Hdata Hfr]); [lia..| |].
    { rewrite length_drop. unfold zlen in *; lia. }
    exists rel'. split; [done|]. split.
    + lia.
    + replace ((b + 1) * bpp + zlen (drop n src) + bpp - 1) with (b * bpp + zlen src + bpp - 1) in Hmx by lia.
      assert (b + 1 <= (b * bpp + zlen src + bpp - 1) / bpp) by (apply Z.div_le_lower_bound; lia). lia.
    + intros j x Hj. destruct (decide (j < n)%nat) as [Hjn|Hjn].
      * assert (Hx : c !! j = Some x) by (unfold c; by rewrite lookup_take_lt).
        specialize (Hchunk j x Hx). unfold logical in *.
        assert (Ed : (b * bpp + Z.of_nat j) / bpp = b) by (symmetry; apply (Z.div_unique _ _ _ (Z.of_nat j)); lia).
        rewrite Ed in *. rewrite Hfr by lia. exact Hchunk.
      * replace (b * bpp + Z.of_nat j) with ((b + 1) * bpp + Z.of_nat (j - n)) by lia. apply Hdata.
        rewrite lookup_drop. rewrite <- Hj. f_equal. lia.
    + intros k Hk Hor. rewrite Hfr by nia. apply Hframe1; [done|]. nia.
Qed.

Lemma WriteLogicalData_spec rel off data :
  0 <= off -> off mod bpp = 0 -> off + zlen data <= (2 ^ 32 - 1) * bpp -> zlen rel < 2 ^ 32 ->
  exists rel', PgColumnarWriteLogicalData rel off data = Ok rel' /\ write_post rel (off / bpp) data rel'.
Proof.
  intros Hoff Hal Hmax Hrel. pose proof bpp_bounds. pose proof (bpp_div off) as Hd. pose proof (zlen_nonneg rel).
  unfold PgColumnarWriteLogicalData. rewrite u32_small by lia.
  assert (E : off / bpp * bpp = off) by lia.
  destruct (write_loop_spec (S (length data)) rel (off / bpp) data) as (rel' & Hw & Hp);
    [apply Z.div_pos; lia|lia|done|lia|].
  exists rel'. split; [|done]. by rewrite E in Hw.
Qed.

Lemma holds_sub rel L bs lo n :
  0 <= lo -> 0 <= n -> lo + n <= zlen bs -> holds_at rel L bs ->
  holds_at rel (L + lo) (take (Z.to_nat n) (drop (Z.to_nat lo) bs)).
Proof.
  intros Hlo Hn Hle Hh j b Hj. apply lookup_take_Some in Hj as [Hj Hlt]. eapply holds_drop in Hh; [by apply Hh|lia].
Qed.

(** A fork whose metapage stays in place under a write of data pages. *)
Lemma write_keeps_metapage rel b data rel' :
  0 < b -> 0 < zlen rel -> write_post rel b data rel' -> metapage rel' = metapage rel.
Proof. intros Hb Hrel [_ _ _ Hf]. unfold metapage. change 0%nat with (Z.to_nat 0). rewrite Hf by lia. done. Qed.

(** C14.  Relation storage keeps what is written: writing data at a page aligned
    logical offset succeeds; then every part of it reads back as it was
    written, and every range of the file that shares no page with it reads as
    it did before, in both cases through the read stream and through the
    synchronous loop; the metapage is untouched.  The fork may be shorter than
    the offset: the gap is filled. *)
Theorem logical_write_read rel off data :
  0 < zlen rel < 2 ^ 32 -> bpp <= off -> off mod bpp = 0 -> off + zlen data <= (2 ^ 32 - 1) * bpp ->
  exists rel', PgColumnarWriteLogicalData rel off data = Ok rel' /\
    (forall s lo n, 0 <= lo -> 0 <= n -> lo + n <= zlen data ->
       PgColumnarReadLogicalData s rel' (off + lo) n = Ok (take (Z.to_nat n) (drop (Z.to_nat lo) data))) /\
    (forall s s' L n, 0 <= L -> 0 <= n -> L + n <= zlen rel * bpp ->
       L + n <= off \/ off + zlen data <= L / bpp * bpp ->
       L + n <= (2 ^ 32 - 1) * bpp ->
       PgColumnarReadLogicalData s rel' L n = PgColumnarReadLogicalData s' rel L n) /\
    metapage rel' = metapage rel.
Proof.
  intros Hrel Hoff Hal Hmax. pose proof bpp_bounds.
  destruct (WriteLogicalData_spec rel off data) as (rel' & Hw & Hpost); [lia|done|lia|lia|].
  pose proof (bpp_div off) as Hd.
  exists rel'. split; [done|]. split; [|split].
  - intros s lo n Hlo Hn Hle. destruct Hpost as [_ _ Hdata _].
    replace (off / bpp * bpp) with off in Hdata by lia.
    pose proof (holds_sub _ _ _ _ _ Hlo Hn Hle Hdata) as Hh.
    assert (E : zlen (take (Z.to_nat n) (drop (Z.to_nat lo) data)) = n)
      by (unfold zlen in *; rewrite length_take, length_drop; lia).
    rewrite <- E at 1. apply ReadLogicalData_holds; [lia|lia|done].
  - intros s s' L n HL Hn Hin Hdis HLmax. rewrite !ReadLogicalData_sync by lia.
    apply read_loop_agree; [done..|]. intros k Hk. apply (wp_frame _ _ _ _ Hpost).
    + split; [transitivity (L / bpp); [apply Z.div_pos; lia|lia]|].
      destruct Hk as [_ Hk]. eapply Z.le_lt_trans; [exact Hk|]. apply Z.div_lt_upper_bound; lia.
    + destruct Hdis as [Hlo|Hhi].
      * left. eapply Z.le_lt_trans; [apply Hk|]. apply Z.div_lt_upper_bound; lia.
      * right. transitivity (L / bpp * bpp); [lia|]. apply Z.mul_le_mono_nonneg_r; lia.
  - apply (write_keeps_metapage rel (off / bpp) data); [|lia|done].
    apply Z.div_str_pos. lia.
Qed.

(** Row numbers and item pointers: as long as the row number's block fits a
    block number, the item pointer's offset is a valid one and the mapping back
    returns the row number. *)
Theorem row_number_tid rowNumber :
  0 <= rowNumber < 2 ^ 32 * MaxHeapTuplesPerPage ->
  let tid := PgColumnarRowNumberToItemPointer rowNumber in
  1 <= ip_posid tid <= MaxHeapTuplesPerPage /\ PgColumnarItemPointerToRowNumber tid = rowNumber.
Proof.
  intros Hr tid. pose proof tuples_pos. pose proof tuples_fit.
  pose proof (Z.mod_pos_bound rowNumber MaxHeapTuplesPerPage tuples_pos) as Hm.
  assert (Hd : rowNumber = MaxHeapTuplesPerPage * (rowNumber / MaxHeapTuplesPerPage)
                           + rowNumber mod MaxHeapTuplesPerPage) by (apply Z.div_mod; lia).
  assert (Hq : 0 <= rowNumber / MaxHeapTuplesPerPage < 2 ^ 32)
    by (split; [apply Z.div_pos; lia|apply Z.div_lt_upper_bound; lia]).
  unfold tid, PgColumnarItemPointerToRowNumber, PgColumnarRowNumberToItemPointer, COLUMNAR_VALID_ITEMPOINTER_OFFSETS.
  cbn [ip_blkid ip_posid]. rewrite u32_small by lia. unfold u16. rewrite (Z.mod_small (_ + 1)) by lia.
  split; [lia|]. rewrite u64_small; nia.
Qed.
End Logical.

(** ** Witnesses: 64-byte pages with a 24-byte header *)

Definition small_pages : PageLayout := {| BLCKSZ := 64; SizeOfPageHeaderData := 24; MaxHeapTuplesPerPage := 291 |}.

Definition small_pages_laws : @PageLayoutLaws small_pages.
Proof. by split. Defined.

Section Witnesses.
#[local] Existing Instance small_pages.
#[local] Existing Instance small_pages_laws.

Lemma logical_write_read_witness :
  exists rel', PgColumnarWriteLogicalData (PgColumnarWriteNewMetapage 7) 80 (seqZ 0 100) = Ok rel' /\
    PgColumnarReadLogicalData true rel' 115 30 = Ok (seqZ 35 30).
Proof.
  destruct (logical_write_read (PgColumnarWriteNewMetapage 7) 80 (seqZ 0 100)) as (rel' & Hw & Hr & _);
    [split; reflexivity|vm_compute; discriminate|reflexivity|vm_compute; discriminate|].
  exists rel'. split; [exact Hw|]. apply (Hr true 35 30); vm_compute; discriminate.
Defined.

Lemma row_number_tid_witness :
  PgColumnarRowNumberToItemPointer 1000 = mkTid 3 128 /\ PgColumnarItemPointerToRowNumber (mkTid 3 128) = 1000.
Proof.
  split; [reflexivity|]. change (mkTid 3 128) with (PgColumnarRowNumberToItemPointer 1000).
  apply (row_number_tid 1000). split; [discriminate|reflexivity].
Defined.
End Witnesses.
