(* ===== verification/FreeSpace.v ===== *)
(** * Row groups and the free list

    The part of [columnar_metadata.c] that decides where row groups live: the
    [row_group] and [free_space] catalog tables, retiring a group
    ([PgColumnarRetireGroup]), recording and coalescing freed ranges
    ([record_free_space]), handing a freed range out again
    ([PgColumnarAllocateFreeSpace]), the reconciliation against live groups
    ([PgColumnarReconcileFreeList]) and the no-overlap check; with the
    placement step of [flush_row_group] (columnar_write_state.c) and the
    physical end truncation of columnar_vacuum.c, which use them together with
    the relation storage of Storage.v.

    A catalog table is the list of its rows in the order of its primary key's
    index, which is the order the scans read it in; a row's tid is its key. *)

From stdpp Require Import sorting.
From S2P Require Import Prelude.
From S2P Require Import Storage.

(** ** Transaction ids *)

Definition FirstNormalTransactionId : Z := 3.
Definition TransactionIdIsNormal (xid : Z) : bool := FirstNormalTransactionId <=? xid.
Definition TransactionIdPrecedes (id1 id2 : Z) : bool :=
  if negb (TransactionIdIsNormal id1) || negb (TransactionIdIsNormal id2) then id1 <? id2
  else s32 (id1 - id2) <? 0.

(** ** Catalog rows *)

Record NativeRowGroupMetadata := mkRowGroup {
  rg_storageId : Z; rg_groupNumber : Z; rg_fileOffset : Z;
  rg_rowCount : Z; rg_byteLength : Z; rg_firstRowNumber : Z
}.

Record FreeSpaceRow := mkFree {
  fs_storage_id : Z; fs_file_offset : Z; fs_byte_length : Z; fs_freed_xid : Z
}.

(** A row of one of the tables keyed by row group first; its other columns do
    not matter here. *)
Record GroupRow := mkGroupRow { gr_storage_id : Z; gr_group_number : Z; gr_rest : list Z }.

Record Catalog := mkCatalog {
  row_group : list NativeRowGroupMetadata;
  free_space : list FreeSpaceRow;
  delete_vector : list GroupRow;
  column_chunk : list GroupRow;
  zone_map : list GroupRow;
  bloom : list GroupRow;
  sketch : option (list GroupRow);
  group_memo : list Z;
  extent_recompute : list Z
}.

Definition with_free_space (cat : Catalog) (fs : list FreeSpaceRow) : Catalog :=
  mkCatalog (row_group cat) fs (delete_vector cat) (column_chunk cat) (zone_map cat) (bloom cat)
    (sketch cat) (group_memo cat) (extent_recompute cat).

Definition with_row_group (cat : Catalog) (rgs : list NativeRowGroupMetadata) : Catalog :=
  mkCatalog rgs (free_space cat) (delete_vector cat) (column_chunk cat) (zone_map cat) (bloom cat)
    (sketch cat) (group_memo cat) (extent_recompute cat).

Section FreeSpace.
Context `{PageLayout}.

(** ** Row groups *)

Definition rg_key (rg : NativeRowGroupMetadata) : Z * Z := (rg_storageId rg, rg_groupNumber rg).

Definition PgColumnarInsertRowGroupRow (rgs : list NativeRowGroupMetadata) (rg : NativeRowGroupMetadata)
    : res (list NativeRowGroupMetadata) :=
  if bool_decide (rg_key rg ∈ rg_key <$> rgs) then Err "duplicate key value violates unique constraint"
  else Ok (rgs ++ [rg]).

Definition row_group_le (a b : NativeRowGroupMetadata) : Prop := rg_groupNumber a <= rg_groupNumber b.

#[export] Instance row_group_le_dec a b : Decision (row_group_le a b).
Proof. unfold row_group_le. apply _. Defined.

Definition PgColumnarReadRowGroupList (rgs : list NativeRowGroupMetadata) (storageId : Z)
    : list NativeRowGroupMetadata :=
  merge_sort row_group_le (filter (fun rg => rg_storageId rg = storageId) rgs).

Definition read_row_group_range (rgs : list NativeRowGroupMetadata) (storageId groupNumber : Z)
    : option (Z * Z) :=
  match filter (fun rg => rg_key rg = (storageId, groupNumber)) rgs with
  | rg :: _ => Some (rg_fileOffset rg, rg_byteLength rg)
  | [] => None
  end.

(** [delete_group_rows], on a child table and on [row_group] itself. *)
Definition delete_group_rows (rows : list GroupRow) (storageId groupNumber : Z) : list GroupRow :=
  filter (fun r => ~ (gr_storage_id r = storageId /\ gr_group_number r = groupNumber)) rows.

Definition delete_row_group_rows (rgs : list NativeRowGroupMetadata) (storageId groupNumber : Z)
    : list NativeRowGroupMetadata :=
  filter (fun rg => rg_key rg <> (storageId, groupNumber)) rgs.

(** ** The free list *)

(** Inserting into the primary key's index [(storage_id, file_offset)]. *)
Fixpoint index_insert (row : FreeSpaceRow) (fs : list FreeSpaceRow) : list FreeSpaceRow :=
  match fs with
  | [] => [row]
  | r :: rest =>
      if (fs_storage_id row <? fs_storage_id r)
         || ((fs_storage_id row =? fs_storage_id r) && (fs_file_offset row <? fs_file_offset r))
      then row :: fs else r :: index_insert row rest
  end.

Definition fs_key (r : FreeSpaceRow) : Z * Z := (fs_storage_id r, fs_file_offset r).

Definition insert_free_space_row (fs : list FreeSpaceRow) (storageId fileOffset byteLength freedXid : Z)
    : res (list FreeSpaceRow) :=
  let row := mkFree storageId fileOffset byteLength freedXid in
  if bool_decide (fs_key row ∈ fs_key <$> fs) then Err "duplicate key value violates unique constraint"
  else Ok (index_insert row fs).

(** The rows a scan on [storage_id] reads. *)
Definition fs_scan (fs : list FreeSpaceRow) (storageId : Z) : list FreeSpaceRow :=
  filter (fun r => fs_storage_id r = storageId) fs.

Definition delete_tids (fs : list FreeSpaceRow) (tids : list (Z * Z)) : list FreeSpaceRow :=
  filter (fun r => ~ (fs_key r ∈ tids)) fs.

(** One row of the coalescing scan: the accumulated offset and length, and the
    tids to delete, at most two. *)
Definition merge_step (freedXid origOff origEnd : Z) (st : Z * Z * list (Z * Z)) (r : FreeSpaceRow)
    : Z * Z * list (Z * Z) :=
  let '(off, len, mergeTids) := st in
  let noff := fs_file_offset r in
  let nlen := fs_byte_length r in
  if (fs_freed_xid r =? freedXid) && ((u64 (noff + nlen) =? origOff) || (noff =? origEnd))
  then (Z.min off noff, u64 (len + nlen), if zlen mergeTids <? 2 then mergeTids ++ [fs_key r] else mergeTids)
  else st.

Definition record_free_space (reclaim_coalesce : bool) (freedXid : Z) (fs : list FreeSpaceRow)
    (storageId fileOffset byteLength : Z) : res (list FreeSpaceRow) :=
  let off := fileOffset in
  let len := COLUMNAR_PAGE_ROUND_UP byteLength in
  let origOff := off in
  let origEnd := u64 (off + len) in
  if reclaim_coalesce then
    let '(off, len, mergeTids) := foldl (merge_step freedXid origOff origEnd) (off, len, []) (fs_scan fs storageId) in
    insert_free_space_row (delete_tids fs mergeTids) storageId off len freedXid
  else insert_free_space_row fs storageId off len freedXid.

Definition PgColumnarRetireGroup (reclaim_coalesce : bool) (xid : Z) (cat : Catalog) (storageId groupNumber : Z)
    : res Catalog :=
  let range := read_row_group_range (row_group cat) storageId groupNumber in
  let del := fun rows => delete_group_rows rows storageId groupNumber in
  let cat' := mkCatalog (delete_row_group_rows (row_group cat) storageId groupNumber) (free_space cat)
                (del (delete_vector cat)) (del (column_chunk cat)) (del (zone_map cat)) (del (bloom cat))
                (del <$> sketch cat) [] 
                (if bool_decide (storageId ∈ extent_recompute cat) then extent_recompute cat
                 else storageId :: extent_recompute cat) in
  match range with
  | Some (fileOffset, byteLength) =>
      if 0 <? byteLength then
        fs ← record_free_space reclaim_coalesce xid (free_space cat') storageId fileOffset byteLength;
        Ok (with_free_space cat' fs)
      else Ok cat'
  | None => Ok cat'
  end.

(** The best fit so far, over one scanned row. *)
Definition best_step (dataLength oldestXmin : Z) (best : option FreeSpaceRow) (r : FreeSpaceRow)
    : option FreeSpaceRow :=
  if fs_byte_length r <? dataLength then best
  else if TransactionIdIsNormal (fs_freed_xid r) && negb (TransactionIdPrecedes (fs_freed_xid r) oldestXmin)
  then best
  else match best with
       | None => Some r
       | Some b => if fs_byte_length r <? fs_byte_length b then Some r else best
       end.

Definition PgColumnarAllocateFreeSpace (reclaim_coalesce : bool) (fs : list FreeSpaceRow)
    (storageId dataLength oldestXmin : Z) : res (list FreeSpaceRow * option Z) :=
  match foldl (best_step dataLength oldestXmin) None (fs_scan fs storageId) with
  | None => Ok (fs, None)
  | Some best =>
      let fs := delete_tids fs [fs_key best] in
      let allocLen := COLUMNAR_PAGE_ROUND_UP dataLength in
      fs ← (if reclaim_coalesce && (allocLen <? fs_byte_length best)
            then insert_free_space_row fs storageId (u64 (fs_file_offset best + allocLen))
                   (u64 (fs_byte_length best - allocLen)) (fs_freed_xid best)
            else Ok fs);
      Ok (fs, Some (fs_file_offset best))
  end.

Definition PgColumnarTrailingFreeSpaceSafe (fs : list FreeSpaceRow) (storageId liveEnd oldestXmin : Z) : bool :=
  forallb (fun r => (fs_file_offset r <? liveEnd)
                    || negb (TransactionIdIsNormal (fs_freed_xid r)
                             && negb (TransactionIdPrecedes (fs_freed_xid r) oldestXmin)))
    (fs_scan fs storageId).

Definition PgColumnarDeleteFreeSpaceAtOrAbove (fs : list FreeSpaceRow) (storageId liveEnd : Z)
    : list FreeSpaceRow :=
  delete_tids fs (fs_key <$> filter (fun r => liveEnd <= fs_file_offset r) (fs_scan fs storageId)).

(** ** Live footprints *)

Record FootRange := mkFoot { fr_off : Z; fr_end : Z }.

Definition collect_footprints (rgs : list NativeRowGroupMetadata) (storageId : Z) : list FootRange :=
  (fun rg => mkFoot (rg_fileOffset rg) (u64 (rg_fileOffset rg + COLUMNAR_PAGE_ROUND_UP (rg_byteLength rg))))
    <$> filter (fun rg => rg_byteLength rg <> 0) (PgColumnarReadRowGroupList rgs storageId).

Definition footrange_le (a b : FootRange) : Prop := fr_off a <= fr_off b.

#[export] Instance footrange_le_dec a b : Decision (footrange_le a b).
Proof. unfold footrange_le. apply _. Defined.

(** The binary search for the count of footprints that start below [end]. *)
Fixpoint count_below (fuel : nat) (end_ : Z) (foots : list FootRange) (lo hi : Z) : res Z :=
  match fuel with
  | O => Fuel
  | S f =>
      if lo <? hi then
        let mid := (lo + hi) / 2 in
        match foots !! Z.to_nat mid with
        | Some ft => if fr_off ft <? end_ then count_below f end_ foots (mid + 1) hi
                     else count_below f end_ foots lo mid
        | None => Oob
        end
      else Ok lo
  end.

Definition range_overlaps_footprint (start end_ : Z) (foots : list FootRange) : res bool :=
  lo ← count_below (S (length foots)) end_ foots 0 (zlen foots);
  if 0 <? lo then
    match foots !! Z.to_nat (lo - 1) with
    | Some ft => Ok (start <? fr_end ft)
    | None => Oob
    end
  else Ok false.

(** The tids of the rows of one storage that overlap a live footprint. *)
Fixpoint stale_tids (foots : list FootRange) (rows : list FreeSpaceRow) : res (list (Z * Z)) :=
  match rows with
  | [] => Ok []
  | r :: rest =>
      o ← range_overlaps_footprint (fs_file_offset r) (u64 (fs_file_offset r + fs_byte_length r)) foots;
      tids ← stale_tids foots rest;
      Ok (if o : bool then fs_key r :: tids else tids)
  end.

(** [storages]: the base storage and its projections' other ones. *)
Definition PgColumnarReconcileFreeList (cat : Catalog) (storages : list Z) : res Catalog :=
  let foots := merge_sort footrange_le (storages ≫= collect_footprints (row_group cat)) in
  tids ← stale_tids foots (storages ≫= fs_scan (free_space cat));
  Ok (with_free_space cat (delete_tids (free_space cat) tids)).

(** The check of assert-enabled builds. *)
Definition reclaim_ranges (cat : Catalog) (storageId : Z) : list (Z * Z) :=
  ((fun rg => (rg_fileOffset rg, COLUMNAR_PAGE_ROUND_UP (rg_byteLength rg)))
     <$> filter (fun rg => rg_byteLength rg <> 0) (filter (fun rg => rg_storageId rg = storageId) (row_group cat)))
  ++ ((fun r => (fs_file_offset r, fs_byte_length r))
     <$> filter (fun r => fs_byte_length r <> 0) (fs_scan (free_space cat) storageId)).

Definition reclaim_range_le (a b : Z * Z) : Prop := a.1 <= b.1.

#[export] Instance reclaim_range_le_dec a b : Decision (reclaim_range_le a b).
Proof. unfold reclaim_range_le. apply _. Defined.

Fixpoint check_adjacent (ranges : list (Z * Z)) : res unit :=
  match ranges with
  | a :: ((b :: _) as rest) =>
      if b.1 <? u64 (a.1 + a.2) then Err "columnar reclaim: overlapping ranges" else check_adjacent rest
  | _ => Ok tt
  end.

Definition PgColumnarCheckFreeSpaceNoOverlap (cat : Catalog) (storageId : Z) : res unit :=
  check_adjacent (merge_sort reclaim_range_le (reclaim_ranges cat storageId)).

(** ** Placing a row group: the reservation and the write of [flush_row_group] *)

(** [locked]: this backend holds ShareUpdateExclusiveLock on the relation. *)
Definition flush_place (reclaim_coalesce locked : bool) (rel : list page) (fs : list FreeSpaceRow)
    (oldestXmin : Z) (data : list Z) : res (list page * list FreeSpaceRow * Z) :=
  let dataLength := zlen data in
  ' (fs, reused) ← (if (0 <? dataLength) && locked
                    then sid ← PgColumnarStorageId rel;
                         PgColumnarAllocateFreeSpace reclaim_coalesce fs sid dataLength oldestXmin
                    else Ok (fs, None));
  ' (rel, fileOffset) ← match reused with
                        | Some off => Ok (rel, off)
                        | None => PgColumnarReserveOffset rel dataLength
                        end;
  rel ← (if 0 <? dataLength then PgColumnarWriteLogicalData rel fileOffset data else Ok rel);
  Ok (rel, fs, fileOffset).

(** The placement followed by the group's [row_group] row. *)
Definition flush_row_group_rows (reclaim_coalesce locked : bool) (rel : list page) (cat : Catalog)
    (oldestXmin storageId groupNumber rowCount firstRowNumber : Z) (data : list Z)
    : res (list page * Catalog * NativeRowGroupMetadata) :=
  ' (rel, fs, fileOffset) ← flush_place reclaim_coalesce locked rel (free_space cat) oldestXmin data;
  let rg := mkRowGroup storageId groupNumber fileOffset rowCount (zlen data) firstRowNumber in
  rgs ← PgColumnarInsertRowGroupRow (row_group cat) rg;
  Ok (rel, with_row_group (with_free_space cat fs) rgs, rg).

(** ** Physical end truncation *)

Definition group_end (rg : NativeRowGroupMetadata) : Z :=
  u64 (rg_fileOffset rg + COLUMNAR_PAGE_ROUND_UP (rg_byteLength rg)).

Definition live_end (rgs : list NativeRowGroupMetadata) (storages : list Z) : Z :=
  foldl (fun liveEnd rg => if liveEnd <? group_end rg then group_end rg else liveEnd)
    COLUMNAR_FIRST_LOGICAL_OFFSET (storages ≫= PgColumnarReadRowGroupList rgs).

Definition purge_above (fs : list FreeSpaceRow) (storages : list Z) (limit : Z) : list FreeSpaceRow :=
  foldl (fun fs sid => PgColumnarDeleteFreeSpaceAtOrAbove fs sid limit) fs storages.

(** What truncation decides before it touches the file: the reconciled catalog
    and, when the tail can go, the catalog without the trailing free rows and
    the end of live data. *)
Definition end_truncation_plan (rel : list page) (cat : Catalog) (storages : list Z) (oldestXmin : Z)
    : res (Catalog * option (Catalog * Z)) :=
  meta ← PgColumnarReadMetapage rel;
  let highwater := reservedOffset meta in
  cat ← PgColumnarReconcileFreeList (with_free_space cat (purge_above (free_space cat) storages highwater)) storages;
  let liveEnd := live_end (row_group cat) storages in
  let truncBlock := u32 (liveEnd / COLUMNAR_BYTES_PER_PAGE) in
  if u32 (zlen rel) <=? truncBlock then Ok (cat, None)
  else if negb (forallb (fun sid => PgColumnarTrailingFreeSpaceSafe (free_space cat) sid liveEnd oldestXmin) storages)
  then Ok (cat, None)
  else Ok (cat, Some (with_free_space cat (purge_above (free_space cat) storages liveEnd), liveEnd)).

Definition pgcolumnar_do_end_truncation (rel : list page) (cat : Catalog) (storages : list Z) (oldestXmin : Z)
    : res (list page * Catalog * Z) :=
  ' (cat, plan) ← end_truncation_plan rel cat storages oldestXmin;
  match plan with
  | None => Ok (rel, cat, 0)
  | Some (cat, liveEnd) =>
      let truncBlock := u32 (liveEnd / COLUMNAR_BYTES_PER_PAGE) in
      let rel' := PgColumnarTruncateMainFork rel truncBlock in
      rel' ← PgColumnarSetReservedOffset rel' liveEnd;
      Ok (rel', cat, zlen rel - truncBlock)
  end.
End FreeSpace.

(** ** Pages of a range *)

Section Pages.
Context `{PageLayoutLaws}.
Local Abbreviation bpp := COLUMNAR_BYTES_PER_PAGE.

(** The number of pages [len] bytes take from a page boundary on. *)
Definition npg (len : Z) : Z := (len + bpp - 1) / bpp.

(** The pages of the range of [len] bytes at [off]. *)
Definition pgs (off len : Z) : list Z := seqZ (off / bpp) (npg len).

Definition aligned (z : Z) : Prop := z mod bpp = 0.

#[export] Instance aligned_dec z : Decision (aligned z).
Proof. unfold aligned. apply _. Defined.

(** The largest file a block number can address. *)
Definition file_limit : Z := (2 ^ 32 - 1) * bpp.

Lemma file_limit_u64 : file_limit + 2 * bpp < 2 ^ 62.
Proof. pose proof bpp_bounds. unfold file_limit. lia. Qed.

Lemma npg_mul k : npg (k * bpp) = k.
Proof.
  pose proof bpp_bounds. unfold npg. replace (k * bpp + bpp - 1) with (k * bpp + (bpp - 1)) by lia.
  rewrite Z.div_add_l, Z.div_small by lia. lia.
Qed.

Lemma aligned_mul z : aligned z -> z = z / bpp * bpp.
Proof. intros Ha. pose proof (bpp_div z). unfold aligned in Ha. lia. Qed.

Lemma mul_aligned k : aligned (k * bpp).
Proof. apply Z.mod_mul. pose proof bpp_bounds. lia. Qed.

Lemma npg_aligned z : aligned z -> npg z = z / bpp.
Proof. intros Ha. rewrite (aligned_mul z Ha) at 1. apply npg_mul. Qed.

Lemma npg_bound len : npg len * bpp - bpp < len <= npg len * bpp.
Proof.
  unfold npg. pose proof bpp_bounds. pose proof (bpp_div (len + bpp - 1)) as Hd.
  pose proof (bpp_mod (len + bpp - 1)). lia.
Qed.

Lemma npg_mono a b : a <= b -> npg a <= npg b.
Proof. intros Hab. apply Z.div_le_mono; [apply bpp_bounds|lia]. Qed.

Lemma npg_nonneg len : 0 <= len -> 0 <= npg len.
Proof. intros Hl. rewrite <- (npg_mul 0). apply npg_mono. lia. Qed.

Lemma npg_pos len : 0 < len -> 0 < npg len.
Proof. intros Hl. pose proof (npg_bound len). pose proof bpp_bounds. nia. Qed.

Lemma npg_add k len : npg (k * bpp + len) = k + npg len.
Proof.
  unfold npg. replace (k * bpp + len + bpp - 1) with (k * bpp + (len + bpp - 1)) by lia.
  apply Z.div_add_l. pose proof bpp_bounds. lia.
Qed.

Lemma round_up_npg n : 0 <= n <= file_limit -> COLUMNAR_PAGE_ROUND_UP n = npg n * bpp.
Proof.
  intros Hn. pose proof bpp_bounds. pose proof file_limit_u64. pose proof (npg_bound n). pose proof (npg_nonneg n).
  unfold COLUMNAR_PAGE_ROUND_UP. rewrite (u64_small (n + _ - 1)) by lia. fold (npg n).
  apply u64_small. lia.
Qed.

Lemma pgs_split off a b :
  aligned off -> aligned a -> 0 <= off -> 0 <= a -> 0 <= b -> pgs off (a + b) = pgs off a ++ pgs (off + a) b.
Proof.
  intros Ho Ha Ho0 Ha0 Hb0. pose proof bpp_bounds. unfold pgs. rewrite (aligned_mul a Ha), npg_add, npg_mul.
  assert (E : (off + a / bpp * bpp) / bpp = off / bpp + a / bpp) by (rewrite Z.div_add by lia; lia).
  rewrite E. pose proof (Z.div_pos a bpp). pose proof (npg_nonneg b). rewrite seqZ_app by lia. done.
Qed.

Lemma elem_of_pgs off len k : k ∈ pgs off len <-> off / bpp <= k < off / bpp + npg len.
Proof. apply elem_of_seqZ. Qed.

Lemma pgs_nil off : pgs off 0 = [].
Proof. unfold pgs. by rewrite (npg_mul 0 : npg 0 = 0). Qed.

Lemma byte_page {A} off (d : list A) j :
  aligned off -> (j < length d)%nat -> (off + Z.of_nat j) / bpp ∈ pgs off (zlen d).
Proof.
  intros Ha Hj. pose proof bpp_bounds. apply elem_of_pgs. pose proof (aligned_mul off Ha) as E.
  replace (off + Z.of_nat j) with (off / bpp * bpp + Z.of_nat j) by lia.
  rewrite Z.div_add_l by lia. pose proof (Z.div_pos (Z.of_nat j) bpp). split; [lia|].
  apply Zplus_lt_compat_l, Z.div_lt_upper_bound; [lia|]. pose proof (npg_bound (zlen d)). unfold zlen in *. lia.
Qed.

(** What a fork holds survives a write to other pages. *)
Lemma write_keeps rel b src rel' off d :
  write_post rel b src rel' -> aligned off -> 0 <= off -> holds_at rel off d ->
  (forall k, k ∈ pgs off (zlen d) -> k ∈ pgs (b * bpp) (zlen src) -> False) ->
  holds_at rel' off d.
Proof.
  intros [_ _ _ Hf] Ha Ho Hh Hdis j x Hj. specialize (Hh j x Hj). unfold logical in *.
  pose proof bpp_bounds. pose proof (lookup_lt_Some _ _ _ Hj) as Hlt.
  set (k := (off + Z.of_nat j) / bpp) in *.
  assert (Hk : k ∈ pgs off (zlen d)) by (by apply byte_page).
  destruct (rel !! Z.to_nat k) as [p|] eqn:Hp; [|done]. rewrite Hf; [by rewrite Hp| |].
  - assert (0 <= k) by (apply Z.div_pos; lia). apply lookup_lt_Some in Hp. unfold zlen. lia.
  - pose proof (Hdis k Hk) as Hd. rewrite elem_of_pgs, Z.div_mul in Hd by lia.
    pose proof (npg_bound (zlen src)).
    destruct (Z.lt_ge_cases k b); [by left|right]. assert (b + npg (zlen src) <= k) by lia. nia.
Qed.

Lemma take_keeps rel n off d :
  aligned off -> 0 <= off -> holds_at rel off d -> (forall k, k ∈ pgs off (zlen d) -> k < n) ->
  holds_at (take (Z.to_nat n) rel) off d.
Proof.
  intros Ha Ho Hh Hlt j x Hj. specialize (Hh j x Hj). unfold logical in *. pose proof bpp_bounds.
  pose proof (lookup_lt_Some _ _ _ Hj) as Hjl. set (k := (off + Z.of_nat j) / bpp) in *.
  assert (Hk : k ∈ pgs off (zlen d)) by (by apply byte_page).
  specialize (Hlt k Hk). assert (0 <= k) by (apply Z.div_pos; lia). rewrite lookup_take_lt by lia. done.
Qed.
End Pages.

(** ** Lists of owners *)

(** No element belongs to two members of a list whose parts are duplicate free. *)
Lemma bind_owner {A B} (f : A -> list B) (l : list A) x y k :
  NoDup (l ≫= f) -> x ∈ l -> y ∈ l -> k ∈ f x -> k ∈ f y -> x = y.
Proof.
  intros Hnd Hx Hy Hkx Hky. induction l as [|z l IH]; [by apply elem_of_nil in Hx|].
  cbn in Hnd. apply list.NoDup_app in Hnd as (_ & Hz & Hl).
  apply elem_of_cons in Hx as [->|Hx]; apply elem_of_cons in Hy as [->|Hy]; [done| | |by apply IH].
  - exfalso. apply (Hz k Hkx). apply list_elem_of_bind. eauto.
  - exfalso. apply (Hz k Hky). apply list_elem_of_bind. eauto.
Qed.

Lemma filter_ext_in {A} (P Q : A -> Prop) `{!forall x, Decision (P x), !forall x, Decision (Q x)} (l : list A) :
  (forall x, x ∈ l -> P x <-> Q x) -> filter P l = filter Q l.
Proof.
  induction l as [|x l IH]; intros Hpq; [done|]. rewrite !filter_cons.
  rewrite IH by (intros y Hy; apply Hpq; by right).
  assert (P x <-> Q x) by (apply Hpq; left). repeat case_decide; tauto.
Qed.

Lemma filter_all {A} (P : A -> Prop) `{!forall x, Decision (P x)} (l : list A) :
  (forall x, x ∈ l -> P x) -> filter P l = l.
Proof.
  induction l as [|x l IH]; intros Hp; [done|]. rewrite filter_cons_True by (apply Hp; left).
  f_equal. apply IH. intros y Hy. apply Hp. by right.
Qed.

Lemma filter_nothing {A} (P : A -> Prop) `{!forall x, Decision (P x)} (l : list A) :
  (forall x, x ∈ l -> ~ P x) -> filter P l = [].
Proof.
  induction l as [|x l IH]; intros Hp; [done|]. rewrite filter_cons_False by (apply Hp; left).
  apply IH. intros y Hy. apply Hp. by right.
Qed.

(** ** What the operations do to the pages *)

Section Ops.
Context `{PageLayoutLaws}.
Local Abbreviation bpp := COLUMNAR_BYTES_PER_PAGE.

Definition rg_pages (rg : NativeRowGroupMetadata) : list Z := pgs (rg_fileOffset rg) (rg_byteLength rg).
Definition fs_pages (r : FreeSpaceRow) : list Z := pgs (fs_file_offset r) (fs_byte_length r).
Definition free_pages (fs : list FreeSpaceRow) : list Z := fs ≫= fs_pages.
Definition live_pages (rgs : list NativeRowGroupMetadata) : list Z := rgs ≫= rg_pages.

Record row_ok (r : FreeSpaceRow) : Prop := {
  ro_off : aligned (fs_file_offset r);
  ro_len : aligned (fs_byte_length r);
  ro_low : 0 <= fs_file_offset r;
  ro_pos : 0 < fs_byte_length r;
  ro_high : fs_file_offset r + fs_byte_length r <= file_limit
}.

Lemma first_page off len : 0 < len -> off / bpp ∈ pgs off len.
Proof. intros Hl. apply elem_of_pgs. pose proof (npg_pos len Hl). lia. Qed.

Lemma same_row fs a b :
  Forall row_ok fs -> NoDup (free_pages fs) -> a ∈ fs -> b ∈ fs -> fs_file_offset a = fs_file_offset b -> a = b.
Proof.
  intros Hok Hnd Ha Hb E. rewrite list.Forall_forall in Hok. apply (bind_owner fs_pages fs a b (fs_file_offset a / bpp)); try done.
  - apply first_page, (Hok a Ha).
  - rewrite E. apply first_page, (Hok b Hb).
Qed.

Lemma index_insert_perm row fs : index_insert row fs ≡ₚ row :: fs.
Proof.
  induction fs as [|r fs IH]; cbn [index_insert]; [done|].
  destruct (_ || _); [done|]. rewrite IH. apply Permutation_swap.
Qed.

(** A row whose pages are nobody's is inserted. *)
Lemma insert_free_space_row_spec fs sid off len xid :
  Forall row_ok fs -> row_ok (mkFree sid off len xid) -> NoDup (pgs off len ++ free_pages fs) ->
  exists fs', insert_free_space_row fs sid off len xid = Ok fs' /\ fs' ≡ₚ mkFree sid off len xid :: fs.
Proof.
  intros Hok Hrow Hnd. unfold insert_free_space_row. rewrite bool_decide_false.
  - exists (index_insert (mkFree sid off len xid) fs). split; [done|]. apply index_insert_perm.
  - intros Hin. apply list_elem_of_fmap in Hin as (r & E & Hr). injection E as _ E.
    apply list.NoDup_app in Hnd as (_ & Hd & _). apply (Hd (off / bpp)).
    + apply first_page, Hrow.
    + apply list_elem_of_bind. exists r. split; [|done]. unfold fs_pages. rewrite E.
      rewrite list.Forall_forall in Hok. apply first_page, (Hok r Hr).
Qed.

Definition adjacent (xid origOff origEnd : Z) (r : FreeSpaceRow) : Prop :=
  fs_freed_xid r = xid /\ (fs_file_offset r + fs_byte_length r = origOff \/ fs_file_offset r = origEnd).

#[export] Instance adjacent_dec xid origOff origEnd r : Decision (adjacent xid origOff origEnd r).
Proof. unfold adjacent. apply _. Defined.

(** The scan adds up the adjacent rows only. *)
Lemma merge_fold xid origOff origEnd rows st :
  Forall row_ok rows ->
  foldl (merge_step xid origOff origEnd) st rows =
  foldl (fun '(off, len, tids) r => (Z.min off (fs_file_offset r), u64 (len + fs_byte_length r),
                                     if zlen tids <? 2 then tids ++ [fs_key r] else tids))
    st (filter (adjacent xid origOff origEnd) rows).
Proof.
  intros Hok. revert st. induction Hok as [|r rows Hr Hrows IH]; intros [[off len] tids]; [done|].
  pose proof file_limit_u64. cbn [foldl]. rewrite IH. unfold merge_step at 1.
  rewrite (u64_small (_ + _)) by (destruct Hr; pose proof bpp_bounds; lia).
  rewrite filter_cons. unfold adjacent at 2.
  destruct (Z.eqb_spec (fs_freed_xid r) xid), (Z.eqb_spec (fs_file_offset r + fs_byte_length r) origOff),
    (Z.eqb_spec (fs_file_offset r) origEnd); cbn [andb orb]; case_decide; try done; exfalso; tauto.
Qed.

Lemma last_page r : row_ok r -> (fs_file_offset r + fs_byte_length r) / bpp - 1 ∈ fs_pages r.
Proof.
  intros [Ha Hl _ Hp _]. pose proof bpp_bounds. apply elem_of_pgs. rewrite (npg_aligned _ Hl).
  pose proof (aligned_mul _ Hl) as El. pose proof (npg_pos _ Hp) as Hpos. rewrite (npg_aligned _ Hl) in Hpos.
  rewrite El, Z.div_add, Z.div_mul by lia. lia.
Qed.

Definition pair_ok (off len : Z) : Prop :=
  aligned off /\ aligned len /\ 0 <= off /\ 0 < len /\ off + len <= file_limit.

(** A range and an adjacent row make one range of both their pages. *)
Lemma join_left off len r :
  pair_ok off len -> row_ok r -> fs_file_offset r + fs_byte_length r = off ->
  Z.min off (fs_file_offset r) = fs_file_offset r /\ u64 (len + fs_byte_length r) = len + fs_byte_length r /\
  pair_ok (fs_file_offset r) (len + fs_byte_length r) /\
  pgs (fs_file_offset r) (len + fs_byte_length r) = fs_pages r ++ pgs off len.
Proof.
  intros (Ho & Hl & Ho0 & Hl0 & Hle) [Ra Rl R0 Rp Rh] E. pose proof file_limit_u64. pose proof bpp_bounds.
  split; [lia|]. split; [apply u64_small; lia|]. split.
  - repeat split; try done; try lia. unfold aligned in *. rewrite Z.add_mod, Hl, Rl by lia. done.
  - rewrite Z.add_comm, pgs_split by (done || lia). by rewrite E.
Qed.

Lemma join_right off len r :
  pair_ok off len -> row_ok r -> fs_file_offset r = off + len ->
  Z.min off (fs_file_offset r) = off /\ u64 (len + fs_byte_length r) = len + fs_byte_length r /\
  pair_ok off (len + fs_byte_length r) /\
  pgs off (len + fs_byte_length r) = pgs off len ++ fs_pages r.
Proof.
  intros (Ho & Hl & Ho0 & Hl0 & Hle) [Ra Rl R0 Rp Rh] E. pose proof file_limit_u64. pose proof bpp_bounds.
  split; [lia|]. split; [apply u64_small; lia|]. split.
  - repeat split; try done; try lia. unfold aligned in *. rewrite Z.add_mod, Hl, Rl by lia. done.
  - rewrite pgs_split by (done || lia). unfold fs_pages. by rewrite E.
Qed.

(** Two different rows are not neighbours of a range on the same side. *)
Lemma sides_differ a b l :
  row_ok a -> row_ok b -> NoDup (free_pages (a :: b :: l)) ->
  fs_file_offset a <> fs_file_offset b /\
  fs_file_offset a + fs_byte_length a <> fs_file_offset b + fs_byte_length b.
Proof.
  intros Ha Hb Hnd. cbn in Hnd. apply list.NoDup_app in Hnd as (_ & Hd & _).
  assert (Hd' : forall k, k ∈ fs_pages a -> k ∈ fs_pages b -> False).
  { intros k Hk Hk'. apply (Hd k Hk). apply elem_of_app. by left. }
  split; intros E.
  - apply (Hd' (fs_file_offset a / bpp)); [apply first_page, Ha|rewrite E; apply first_page, Hb].
  - apply (Hd' _ (last_page a Ha)). rewrite E. apply (last_page b Hb).
Qed.

(** Coalescing: the adjacent rows, two at most, and the freed range become one range. *)
Lemma coalesce_spec off len M xid :
  pair_ok off len -> Forall row_ok M -> Forall (adjacent xid off (off + len)) M -> NoDup (free_pages M) ->
  exists o n,
    foldl (fun '(off, len, tids) r => (Z.min off (fs_file_offset r), u64 (len + fs_byte_length r),
                                       if zlen tids <? 2 then tids ++ [fs_key r] else tids)) (off, len, []) M
      = (o, n, fs_key <$> M) /\
    pair_ok o n /\ pgs o n ≡ₚ pgs off len ++ free_pages M.
Proof.
  intros Hp Hok Hadj Hnd. destruct M as [|a [|b [|c M]]].
  - exists off, len. split; [done|]. split; [done|]. cbn. by rewrite app_nil_r.
  - apply Forall_inv in Hok as Ha. apply Forall_inv in Hadj as [_ [El|Er]]; cbn [foldl fmap list_fmap].
    + destruct (join_left off len a Hp Ha El) as (-> & -> & Hp' & Ep). do 2 eexists. split; [done|]. split; [done|].
      rewrite Ep. cbn. rewrite app_nil_r. apply Permutation_app_comm.
    + destruct (join_right off len a Hp Ha Er) as (-> & -> & Hp' & Ep). do 2 eexists. split; [done|]. split; [done|].
      rewrite Ep. cbn. by rewrite app_nil_r.
  - inversion_clear Hok as [|? ? Ha Hok']. inversion_clear Hok' as [|? ? Hb _].
    inversion_clear Hadj as [|? ? [_ Sa] Hadj']. inversion_clear Hadj' as [|? ? [_ Sb] _].
    destruct (sides_differ a b [] Ha Hb Hnd) as [D1 D2]. cbn [foldl fmap list_fmap].
    destruct Sa as [La|Ra], Sb as [Lb|Rb]; try lia.
    + destruct (join_left off len a Hp Ha La) as (-> & -> & Hp' & Ep).
      destruct (join_right _ _ b Hp' Hb) as (-> & -> & Hp2 & Ep2); [lia|]. do 2 eexists. split; [done|]. split; [done|].
      rewrite Ep2, Ep. cbn. rewrite app_nil_r, app_assoc. f_equiv. apply Permutation_app_comm.
    + destruct (join_right off len a Hp Ha Ra) as (-> & -> & Hp' & Ep).
      destruct (join_left _ _ b Hp' Hb) as (-> & -> & Hp2 & Ep2); [lia|]. do 2 eexists. split; [done|]. split; [done|].
      rewrite Ep2, Ep. cbn. rewrite app_nil_r, (Permutation_app_comm (fs_pages b)). by rewrite <- app_assoc.
  - exfalso. inversion_clear Hok as [|? ? Ha Hok']. inversion_clear Hok' as [|? ? Hb Hok''].
    apply Forall_inv in Hok'' as Hc.
    inversion_clear Hadj as [|? ? [_ Sa] Hadj']. inversion_clear Hadj' as [|? ? [_ Sb] Hadj''].
    apply Forall_inv in Hadj'' as [_ Sc].
    destruct (sides_differ a b _ Ha Hb Hnd). 
    assert (Hbc : NoDup (free_pages (b :: c :: M))) by (cbn in Hnd; by apply list.NoDup_app in Hnd as (_ & _ & ?)).
    destruct (sides_differ b c _ Hb Hc Hbc).
    assert (Hac : NoDup (free_pages (a :: c :: b :: M))).
    { assert (E : a :: c :: b :: M ≡ₚ a :: b :: c :: M) by (f_equiv; apply Permutation_swap).
      unfold free_pages in *. by rewrite E. }
    destruct (sides_differ a c _ Ha Hc Hac). lia.
Qed.

(** Deleting rows by their tids removes exactly those rows. *)
Lemma delete_tids_filter fs (P : FreeSpaceRow -> Prop) `{!forall r, Decision (P r)} :
  Forall row_ok fs -> NoDup (free_pages fs) ->
  delete_tids fs (fs_key <$> filter P fs) = filter (fun r => ~ P r) fs.
Proof.
  intros Hok Hnd. apply filter_ext_in. intros r Hr. apply not_iff_compat. split.
  - intros (m & E & Hm)%list_elem_of_fmap. apply list_elem_of_filter in Hm as [HP Hm].
    assert (r = m) as -> by (apply (same_row fs); try done; by injection E). done.
  - intros HP. apply list_elem_of_fmap. exists r. split; [done|]. by apply list_elem_of_filter.
Qed.

Lemma scan_filter fs sid (P : FreeSpaceRow -> Prop) `{!forall r, Decision (P r)} :
  filter P (fs_scan fs sid) = filter (fun r => P r /\ fs_storage_id r = sid) fs.
Proof. unfold fs_scan. by rewrite list_filter_filter. Qed.

Lemma free_pages_split fs (P : FreeSpaceRow -> Prop) `{!forall r, Decision (P r)} :
  free_pages fs ≡ₚ free_pages (filter P fs) ++ free_pages (filter (fun r => ~ P r) fs).
Proof. unfold free_pages. by rewrite <- bind_app, filter_app_complement. Qed.

Record freed (fs : list FreeSpaceRow) (xid off len : Z) (fs' : list FreeSpaceRow) : Prop := {
  fr_ok : Forall row_ok fs';
  fr_pages : free_pages fs' ≡ₚ pgs off len ++ free_pages fs;
  fr_old : forall r, r ∈ fs -> exists r', r' ∈ fs' /\ fs_freed_xid r' = fs_freed_xid r /\
             fs_storage_id r' = fs_storage_id r /\ fs_pages r ⊆ fs_pages r';
  fr_new : exists r', r' ∈ fs' /\ fs_freed_xid r' = xid /\ pgs off len ⊆ fs_pages r'
}.

Lemma row_ok_filter fs (P : FreeSpaceRow -> Prop) `{!forall r, Decision (P r)} :
  Forall row_ok fs -> Forall row_ok (filter P fs).
Proof. rewrite !list.Forall_forall. intros Hok r Hr. apply list_elem_of_filter in Hr as [_ Hr]. by apply Hok. Qed.

(** Replacing the rows of [P] by one row that has their pages and the freed ones. *)
Lemma freed_by_insert fs (P : FreeSpaceRow -> Prop) `{!forall r, Decision (P r)} sid xid off len o n :
  Forall row_ok fs -> NoDup (pgs off len ++ free_pages fs) -> pair_ok o n ->
  pgs o n ≡ₚ pgs off len ++ free_pages (filter P fs) ->
  (forall r, P r -> fs_freed_xid r = xid /\ fs_storage_id r = sid) ->
  exists fs', insert_free_space_row (filter (fun r => ~ P r) fs) sid o n xid = Ok fs' /\ freed fs xid off len fs' /\
    (forall r, r ∈ fs' -> fs_storage_id r = sid \/ exists r0, r0 ∈ fs /\ fs_storage_id r = fs_storage_id r0).
Proof.
  intros Hok Hnd Hp Epg HP. pose proof (free_pages_split fs P) as Hsplit.
  assert (Hall : pgs o n ++ free_pages (filter (fun r => ~ P r) fs) ≡ₚ pgs off len ++ free_pages fs).
  { rewrite Epg, Hsplit. by rewrite <- app_assoc. }
  assert (Hrow : row_ok (mkFree sid o n xid)) by (destruct Hp as (? & ? & ? & ? & ?); by split).
  destruct (insert_free_space_row_spec (filter (fun r => ~ P r) fs) sid o n xid) as (fs' & Hins & Eperm);
    [by apply row_ok_filter|done|by rewrite Hall|].
  exists fs'. split; [done|]. assert (Hnew : mkFree sid o n xid ∈ fs') by (rewrite Eperm; left). split; [split|].
  - rewrite Eperm. constructor; [done|by apply row_ok_filter].
  - unfold free_pages in *. rewrite Eperm. cbn. exact Hall.
  - intros r Hr. destruct (decide (P r)) as [Pr|Pr].
    + exists (mkFree sid o n xid). destruct (HP r Pr) as [Ex Es]. repeat split; try done.
      intros k Hk. unfold fs_pages. cbn. rewrite Epg. apply elem_of_app. right. apply list_elem_of_bind.
      exists r. split; [done|]. by apply list_elem_of_filter.
    + exists r. repeat split; try done. rewrite Eperm. right. by apply list_elem_of_filter.
  - exists (mkFree sid o n xid). repeat split; try done. intros k Hk. unfold fs_pages. cbn. rewrite Epg.
    apply elem_of_app. by left.
  - intros r Hr. rewrite Eperm in Hr. apply elem_of_cons in Hr as [->|Hr]; [by left|right].
    apply list_elem_of_filter in Hr as [_ Hr]. eauto.
Qed.

Lemma record_free_space_spec coalesce xid fs sid off len :
  Forall row_ok fs -> NoDup (pgs off len ++ free_pages fs) ->
  aligned off -> 0 <= off -> 0 < len -> off + npg len * bpp <= file_limit ->
  exists fs', record_free_space coalesce xid fs sid off len = Ok fs' /\ freed fs xid off len fs' /\
    (forall r, r ∈ fs' -> fs_storage_id r = sid \/ exists r0, r0 ∈ fs /\ fs_storage_id r = fs_storage_id r0).
Proof.
  intros Hok Hnd Ha H0' Hlen Hlim. pose proof bpp_bounds. pose proof file_limit_u64. pose proof (npg_bound len) as Hb.
  pose proof (npg_pos len Hlen). unfold record_free_space. rewrite round_up_npg by lia.
  set (L := npg len * bpp) in *. assert (Hp : pair_ok off L) by (repeat split; try done; try lia; apply mul_aligned).
  assert (EL : pgs off len = pgs off L) by (unfold pgs, L; by rewrite npg_mul).
  rewrite (u64_small (off + L)) by lia. destruct coalesce.
  - rewrite merge_fold by (apply row_ok_filter; done). rewrite scan_filter.
    set (P := fun r => adjacent xid off (off + L) r /\ fs_storage_id r = sid).
    assert (HnF : NoDup (free_pages fs)) by (by apply list.NoDup_app in Hnd as (_ & _ & ?)).
    destruct (coalesce_spec off L (filter P fs) xid) as (o & n & Efold & Hp' & Epg); [done|by apply row_ok_filter| | |].
    { apply list.Forall_forall. intros r Hr. by apply list_elem_of_filter in Hr as [[? _] _]. }
    { rewrite (free_pages_split fs P) in HnF. by apply list.NoDup_app in HnF as (? & _ & _). }
    rewrite Efold, delete_tids_filter by done.
    apply freed_by_insert; [done..|by rewrite EL|]. intros r [[? _] ?]. done.
  - destruct (freed_by_insert fs (fun _ => False) sid xid off len off L) as (fs' & Hins & Hfr & Hst); [done..| |done|].
    { replace (filter (fun _ => False) fs) with (@nil FreeSpaceRow) by (clear; by induction fs).
      cbn. by rewrite app_nil_r, EL. }
    rewrite filter_all in Hins by auto. eauto.
Qed.

(** ** Handing out a range *)

Definition reusable (dataLength oldestXmin : Z) (r : FreeSpaceRow) : Prop :=
  dataLength <= fs_byte_length r /\
  TransactionIdIsNormal (fs_freed_xid r) && negb (TransactionIdPrecedes (fs_freed_xid r) oldestXmin) = false.

Lemma best_fold dataLength oldestXmin rows best :
  match best with Some b => reusable dataLength oldestXmin b | None => True end ->
  match foldl (best_step dataLength oldestXmin) best rows with
  | Some b => reusable dataLength oldestXmin b /\ (b ∈ rows \/ best = Some b)
  | None => best = None /\ Forall (fun r => ~ reusable dataLength oldestXmin r) rows
  end.
Proof.
  revert best. induction rows as [|r rows IH]; intros best Hbest.
  { cbn. destruct best; [by auto|by split]. }
  cbn [foldl]. assert (Hstep : let b' := best_step dataLength oldestXmin best r in
    match b' with Some b => reusable dataLength oldestXmin b /\ (b = r \/ best = Some b)
    | None => best = None /\ ~ reusable dataLength oldestXmin r end).
  { unfold best_step, reusable in *. destruct (Z.ltb_spec (fs_byte_length r) dataLength).
    { destruct best; [by auto|]. split; [done|]. lia. }
    destruct (_ && _) eqn:E. { destruct best; [by auto|]. split; [done|]. by intros [_ ?]. }
    destruct best as [b|]; [|by auto]. destruct (_ <? _); auto. }
  specialize (IH (best_step dataLength oldestXmin best r)).
  destruct (best_step dataLength oldestXmin best r) as [b'|] eqn:Eb; cbv zeta in Hstep.
  - specialize (IH (proj1 Hstep)). destruct (foldl _ _ rows) as [b|]; [|by destruct IH].
    destruct IH as [Hb [Hin|E]]; (split; [done|]); [left; by right|]. injection E as ->.
    destruct Hstep as [_ [->|?]]; [left; left|by right].
  - specialize (IH I). destruct Hstep as [-> Hn]. destruct (foldl _ _ rows) as [b|].
    + destruct IH as [Hb [Hin|?]]; [|done]. split; [done|]. left. by right.
    + split; [done|]. constructor; [done|apply IH].
Qed.

Lemma delete_one fs best :
  Forall row_ok fs -> NoDup (free_pages fs) -> best ∈ fs -> best :: delete_tids fs [fs_key best] ≡ₚ fs.
Proof.
  intros Hok Hnd Hin. destruct (proj1 (elem_of_Permutation fs best) Hin) as [fs0 E].
  assert (Hd : delete_tids fs [fs_key best] ≡ₚ fs0).
  { unfold delete_tids. rewrite E, filter_cons_False by (intros Hn; apply Hn; left).
    rewrite filter_all; [done|]. intros r Hr Hk. apply list_elem_of_singleton in Hk. injection Hk as _ Hk.
    unfold free_pages in Hnd. rewrite E in Hnd. cbn in Hnd. apply list.NoDup_app in Hnd as (_ & Hd & _).
    rewrite list.Forall_forall in Hok. apply (Hd (fs_file_offset best / bpp)); [apply first_page, (Hok best Hin)|].
    apply list_elem_of_bind. exists r. split; [|done]. rewrite <- Hk. apply first_page, (Hok r). rewrite E. by right. }
  by rewrite Hd, E.
Qed.

Record allotted (fs : list FreeSpaceRow) (sid dl ox off : Z) (best : FreeSpaceRow) (fs' : list FreeSpaceRow) : Prop := {
  al_best : best ∈ fs;
  al_fit : reusable dl ox best;
  al_off : off = fs_file_offset best;
  al_ok : Forall row_ok fs';
  al_pages : exists leak, free_pages fs ≡ₚ pgs off dl ++ free_pages fs' ++ leak;
  al_in : pgs off dl ⊆ fs_pages best;
  al_rest : forall r, r ∈ fs -> r = best \/ r ∈ fs';
  al_storage : forall r, r ∈ fs' -> exists r0, r0 ∈ fs /\ fs_storage_id r = fs_storage_id r0
}.

(** The page aligned part of a range the data takes, and what is left of it. *)
Lemma cut_range r dl :
  row_ok r -> 0 < dl <= fs_byte_length r ->
  npg dl * bpp <= fs_byte_length r /\
  fs_pages r = pgs (fs_file_offset r) dl ++ pgs (fs_file_offset r + npg dl * bpp) (fs_byte_length r - npg dl * bpp).
Proof.
  intros [Ra Rl R0 Rp Rh] Hd. pose proof bpp_bounds. pose proof (npg_pos dl).
  assert (Hle : npg dl * bpp <= fs_byte_length r).
  { rewrite (aligned_mul _ Rl), <- (npg_aligned _ Rl). apply Z.mul_le_mono_nonneg_r; [lia|]. apply npg_mono. lia. }
  split; [done|]. unfold fs_pages.
  replace (fs_byte_length r) with (npg dl * bpp + (fs_byte_length r - npg dl * bpp)) at 1 by lia.
  rewrite pgs_split by (done || lia || apply mul_aligned). f_equal. unfold pgs. by rewrite npg_mul.
Qed.

Lemma allocate_spec coalesce fs sid dl ox :
  Forall row_ok fs -> NoDup (free_pages fs) -> 0 < dl <= file_limit ->
  (exists fs' off best, PgColumnarAllocateFreeSpace coalesce fs sid dl ox = Ok (fs', Some off) /\
     allotted fs sid dl ox off best fs') \/
  PgColumnarAllocateFreeSpace coalesce fs sid dl ox = Ok (fs, None).
Proof.
  intros Hok Hnd Hdl. pose proof bpp_bounds. pose proof file_limit_u64. unfold PgColumnarAllocateFreeSpace.
  pose proof (best_fold dl ox (fs_scan fs sid) None I) as Hbest.
  destruct (foldl _ None _) as [best|]; [left|by right]. destruct Hbest as [Hfit [Hin|?]]; [|done].
  apply list_elem_of_filter in Hin as [Hsid Hin]. pose proof (delete_one fs best Hok Hnd Hin) as E1.
  assert (Hrb : row_ok best) by (rewrite list.Forall_forall in Hok; by apply Hok).
  destruct (cut_range best dl Hrb) as [Hle Hcut]; [split; [lia|apply Hfit]|].
  rewrite round_up_npg by lia. pose proof (npg_pos dl) as Hnp. set (A := npg dl * bpp) in *.
  set (fs1 := delete_tids fs [fs_key best]) in *.
  assert (Hok1 : Forall row_ok fs1) by (rewrite <- E1 in Hok; by inversion_clear Hok).
  assert (Epg : free_pages fs ≡ₚ fs_pages best ++ free_pages fs1) by (unfold free_pages; by rewrite <- E1).
  assert (Hrest : forall r, r ∈ fs -> r = best \/ r ∈ fs1) by (intros r; by rewrite <- E1, elem_of_cons).
  assert (Hst1 : forall r, r ∈ fs1 -> r ∈ fs) by (intros r Hr; rewrite <- E1; by right).
  destruct (coalesce && (A <? fs_byte_length best)) eqn:Esplit.
  - apply andb_true_iff in Esplit as [_ Hlt]. apply Z.ltb_lt in Hlt. destruct Hrb as [Ra Rl R0 Rp Rh].
    rewrite !u64_small by lia. set (nrow := mkFree sid (fs_file_offset best + A) (fs_byte_length best - A) (fs_freed_xid best)).
    assert (Hnrow : row_ok nrow).
    { pose proof (mul_aligned (npg dl)) as HA. fold A in HA. unfold aligned in *. split; cbn; unfold aligned; try lia.
      - rewrite Z.add_mod, Ra, HA by lia. done.
      - rewrite Zminus_mod, Rl, HA. done. }
    destruct (insert_free_space_row_spec fs1 sid (fs_file_offset best + A) (fs_byte_length best - A) (fs_freed_xid best))
      as (fs' & -> & Eperm); [done|done| |].
    { rewrite Epg, Hcut, <- app_assoc in Hnd. by apply list.NoDup_app in Hnd as (_ & _ & ?). }
    rewrite bind_Ok. exists fs', (fs_file_offset best), best. split; [done|]. split; try done.
    + rewrite Eperm. by constructor.
    + exists []. rewrite app_nil_r, Epg, Hcut, <- app_assoc. f_equiv. unfold free_pages. rewrite Eperm. done.
    + rewrite Hcut. intros k Hk. apply elem_of_app. by left.
    + intros r Hr. destruct (Hrest r Hr); [by left|right]. rewrite Eperm. by right.
    + intros r Hr. rewrite Eperm in Hr. apply elem_of_cons in Hr as [->|Hr]; [exists best; by auto|]. exists r. auto.
  - rewrite bind_Ok. exists fs1, (fs_file_offset best), best. split; [done|]. split; try done.
    + exists (pgs (fs_file_offset best + A) (fs_byte_length best - A)).
      rewrite Epg, Hcut, <- app_assoc. f_equiv. apply Permutation_app_comm.
    + rewrite Hcut. intros k Hk. apply elem_of_app. by left.
    + intros r Hr. exists r. auto.
Qed.
End Ops.

(** ** Reconciliation *)

Section Reconcile.

Definition sorted_foots (foots : list FootRange) : Prop :=
  forall i j a b, (i <= j)%nat -> foots !! i = Some a -> foots !! j = Some b -> fr_off a <= fr_off b.

(** Footprints one after the other, as live groups are laid out. *)
Definition tiled (foots : list FootRange) : Prop :=
  Forall (fun f => fr_off f < fr_end f) foots /\
  forall i j a b, (i < j)%nat -> foots !! i = Some a -> foots !! j = Some b -> fr_end a <= fr_off b.

Lemma tiled_sorted foots : tiled foots -> sorted_foots foots.
Proof.
  intros [Hpos Ht] i j a b Hij Ha Hb. destruct (decide (i = j)) as [->|Hne]; [rewrite Ha in Hb; injection Hb as ->; lia|].
  pose proof (Forall_lookup_1 _ _ _ _ Hpos Ha). specialize (Ht i j a b ltac:(lia) Ha Hb). cbn in *. lia.
Qed.

(** The binary search returns the number of footprints that start below. *)
Lemma count_below_spec fuel end_ foots lo hi :
  sorted_foots foots -> 0 <= lo <= hi -> hi <= zlen foots -> hi - lo < Z.of_nat fuel ->
  (forall i f, Z.of_nat i < lo -> foots !! i = Some f -> fr_off f < end_) ->
  (forall i f, hi <= Z.of_nat i -> foots !! i = Some f -> end_ <= fr_off f) ->
  exists c, count_below fuel end_ foots lo hi = Ok c /\ 0 <= c <= zlen foots /\
    (forall i f, foots !! i = Some f -> fr_off f < end_ <-> Z.of_nat i < c).
Proof.
  intros Hs. revert lo hi. induction fuel as [|fuel IH]; intros lo hi Hlo Hhi Hf Hl Hh; [lia|]. cbn [count_below].
  destruct (Z.ltb_spec lo hi) as [Hlt|Hge].
  - assert (Hm : lo <= (lo + hi) / 2 < hi) by (split; [apply Z.div_le_lower_bound; lia|apply Z.div_lt_upper_bound; lia]).
    set (mid := (lo + hi) / 2) in *.
    destruct (lookup_lt_is_Some_2 foots (Z.to_nat mid)) as [ft Hft]; [unfold zlen in Hhi; lia|]. rewrite Hft.
    destruct (Z.ltb_spec (fr_off ft) end_).
    + apply IH; [lia..| |done]. intros i f Hi Hif. assert (Hle : (i <= Z.to_nat mid)%nat) by lia.
      pose proof (Hs _ _ _ _ Hle Hif Hft). lia.
    + apply IH; [lia..|done|]. intros i f Hi Hif. assert (Hle : (Z.to_nat mid <= i)%nat) by lia.
      pose proof (Hs _ _ _ _ Hle Hft Hif). lia.
  - exists lo. split; [done|]. split; [lia|]. intros i f Hif. split.
    + intros Ho. destruct (Z.lt_ge_cases (Z.of_nat i) lo); [done|]. assert (hi <= Z.of_nat i) as Hi by lia.
      specialize (Hh i f Hi Hif). lia.
    + intros Hi. by apply (Hl i f).
Qed.

Definition overlaps (start end_ : Z) (f : FootRange) : bool := (fr_off f <? end_) && (start <? fr_end f).

Lemma range_overlaps_total start end_ foots :
  sorted_foots foots ->
  exists b, range_overlaps_footprint start end_ foots = Ok b /\
    (b = true -> exists f, f ∈ foots /\ fr_off f < end_ /\ start < fr_end f) /\
    (tiled foots -> b = existsb (overlaps start end_) foots).
Proof.
  intros Hs. unfold range_overlaps_footprint.
  destruct (count_below_spec (S (length foots)) end_ foots 0 (zlen foots)) as (c & -> & Hc & Hiff);
    [done|pose proof (zlen_nonneg foots); lia|lia|unfold zlen; lia|lia| |].
  { intros i f Hi Hif. apply lookup_lt_Some in Hif. unfold zlen in Hi. lia. }
  rewrite bind_Ok. destruct (Z.ltb_spec 0 c) as [Hpos|Hz].
  - destruct (lookup_lt_is_Some_2 foots (Z.to_nat (c - 1))) as [ft Hft]; [unfold zlen in Hc; lia|]. rewrite Hft.
    assert (Hend : fr_off ft < end_) by (apply (Hiff _ _ Hft); lia).
    exists (start <? fr_end ft). split; [done|]. split.
    + intros Hb. apply Z.ltb_lt in Hb. exists ft. split; [by eapply list_elem_of_lookup_2|done].
    + intros [Hpf Ht]. apply eq_true_iff_eq. rewrite existsb_exists. split.
      * intros Hb. exists ft. apply list_elem_of_lookup_2, list_elem_of_In in Hft. unfold overlaps. split; [done|].
        rewrite Hb. by apply Z.ltb_lt in Hend as ->.
      * intros (f & Hin & Ho). apply andb_true_iff in Ho as [Ho1 Ho2]. apply Z.ltb_lt in Ho1, Ho2. apply Z.ltb_lt.
        apply list_elem_of_In, list_elem_of_lookup_1 in Hin as [i Hi]. apply (Hiff _ _ Hi) in Ho1.
        destruct (decide (i = Z.to_nat (c - 1))) as [->|Hne]; [rewrite Hft in Hi; injection Hi as ->; done|].
        assert (Hlt : (i < Z.to_nat (c - 1))%nat) by lia. pose proof (Ht _ _ _ _ Hlt Hi Hft).
        pose proof (Forall_lookup_1 _ _ _ _ Hpf Hft). cbn in *. lia.
  - exists false. split; [done|]. split; [done|]. intros _. symmetry. apply not_true_is_false. rewrite existsb_exists.
    intros (f & Hin & Ho). apply andb_true_iff in Ho as [Ho1 _]. apply Z.ltb_lt in Ho1.
    apply list_elem_of_In, list_elem_of_lookup_1 in Hin as [i Hi]. apply (Hiff _ _ Hi) in Ho1. lia.
Qed.

(** The binary search of the reconciliation decides overlap: on footprints
    laid out one after the other it returns whether some footprint overlaps the
    range, as a scan of all of them would. *)
Theorem range_overlaps_reference start end_ foots :
  tiled foots ->
  range_overlaps_footprint start end_ foots = Ok (existsb (overlaps start end_) foots).
Proof.
  intros Ht. destruct (range_overlaps_total start end_ foots (tiled_sorted _ Ht)) as (b & -> & _ & ->); done.
Qed.

Lemma range_overlaps_reference_witness :
  let foots := [mkFoot 80 120; mkFoot 120 200; mkFoot 240 280] in
  range_overlaps_footprint 200 240 foots = Ok false /\ range_overlaps_footprint 160 240 foots = Ok true.
Proof.
  intros foots. assert (Ht : tiled foots).
  { split; [repeat constructor|]. intros [|[|[|i]]] [|[|[|j]]] a b Hij Ha Hb; try lia; try discriminate;
      injection Ha as <-; injection Hb as <-; cbn; lia. }
  split; [rewrite (range_overlaps_reference 200 240 foots Ht)|rewrite (range_overlaps_reference 160 240 foots Ht)];
    reflexivity.
Defined.
End Reconcile.
