(* ===== verification/Reclaim.v ===== *)
(** * Space reclaim as a transition system

    The operations of FreeSpace.v run against one relation file, in
    transactions that commit or roll back: row groups are flushed (appended, or
    placed in reused space), retired, reconciled, and the file is truncated.
    The catalog is transactional; the file and its metapage are not.  The
    invariant says who owns which page, and gives: what was written for a row
    group is what is read, as long as any snapshot can read the group. *)

From stdpp Require Import sorting relations.
From S2P Require Import Prelude.
From S2P Require Import Storage.
From S2P Require Import FreeSpace.

Section CatalogInvariant.
Context `{PageLayoutLaws}.
Context (storages : list Z).
Local Abbreviation bpp := COLUMNAR_BYTES_PER_PAGE.

Record rg_ok (rg : NativeRowGroupMetadata) : Prop := {
  go_off : aligned (rg_fileOffset rg);
  go_low : 0 <= rg_fileOffset rg;
  go_len : 0 < rg_byteLength rg;
  go_high : rg_fileOffset rg + npg (rg_byteLength rg) * bpp <= file_limit;
  go_storage : rg_storageId rg ∈ storages
}.

Definition owned (cat : Catalog) : list Z := live_pages (row_group cat) ++ free_pages (free_space cat).

(** [hw] is the metapage's reserved offset. *)
Record cat_ok (hw : Z) (cat : Catalog) : Prop := {
  co_groups : Forall rg_ok (row_group cat);
  co_keys : NoDup (rg_key <$> row_group cat);
  co_rows : Forall row_ok (free_space cat);
  co_storage : forall r, r ∈ free_space cat -> fs_storage_id r ∈ storages;
  co_nodup : NoDup (owned cat);
  co_range : forall k, k ∈ owned cat -> 2 <= k < npg hw
}.

Lemma cat_ok_free hw cat : cat_ok hw cat -> NoDup (free_pages (free_space cat)).
Proof. intros Hc. apply co_nodup in Hc. by apply list.NoDup_app in Hc as (_ & _ & ?). Qed.

Lemma cat_ok_mono hw hw' cat : npg hw <= npg hw' -> cat_ok hw cat -> cat_ok hw' cat.
Proof. intros Hle [H1 H2 H3 H4 H5 H6]. split; try done. intros k Hk. specialize (H6 k Hk). lia. Qed.

Lemma with_free_space_id cat : with_free_space cat (free_space cat) = cat.
Proof. by destruct cat. Qed.

(** Two ranges that overlap share a page. *)
Lemma overlap_page off len off' len' :
  aligned off -> aligned off' -> 0 < len -> 0 < len' ->
  off < off' + npg len' * bpp -> off' < off + npg len * bpp ->
  exists k, k ∈ pgs off len /\ k ∈ pgs off' len'.
Proof.
  intros Ha Ha' Hl Hl' H1 H2. pose proof bpp_bounds. pose proof (npg_pos len Hl). pose proof (npg_pos len' Hl').
  rewrite (aligned_mul _ Ha), (aligned_mul _ Ha') in H1, H2.
  exists (Z.max (off / bpp) (off' / bpp)). rewrite !elem_of_pgs. nia.
Qed.

(** A free row overlaps no live group. *)
Lemma live_free_apart hw cat rg r :
  cat_ok hw cat -> rg ∈ row_group cat -> r ∈ free_space cat ->
  ~ (rg_fileOffset rg < fs_file_offset r + fs_byte_length r /\
     fs_file_offset r < rg_fileOffset rg + npg (rg_byteLength rg) * bpp).
Proof.
  intros Hc Hrg Hr [H1 H2].
  assert (Hg : rg_ok rg) by (apply co_groups in Hc; rewrite list.Forall_forall in Hc; by apply Hc).
  assert (Hrow : row_ok r) by (apply co_rows in Hc; rewrite list.Forall_forall in Hc; by apply Hc).
  destruct Hg as [Ga G0 Gl _ _], Hrow as [Ra Rl R0 Rp _].
  rewrite (aligned_mul _ Rl), <- (npg_aligned _ Rl) in H1.
  destruct (overlap_page _ _ _ _ Ga Ra Gl Rp H1 H2) as (k & K1 & K2).
  apply co_nodup in Hc. apply list.NoDup_app in Hc as (_ & Hd & _).
  apply (Hd k); apply list_elem_of_bind; eauto.
Qed.

Lemma group_end_npg rg : rg_ok rg -> group_end rg = rg_fileOffset rg + npg (rg_byteLength rg) * bpp.
Proof.
  intros [Ga G0 Gl Gh _]. pose proof file_limit_u64. pose proof (npg_bound (rg_byteLength rg)). pose proof bpp_bounds.
  pose proof (npg_pos _ Gl). unfold group_end. rewrite round_up_npg by lia. apply u64_small. lia.
Qed.

Lemma sorted_lookup {A} (R : relation A) (l : list A) i j a b :
  Transitive R -> Reflexive R -> StronglySorted R l -> (i <= j)%nat -> l !! i = Some a -> l !! j = Some b -> R a b.
Proof.
  intros Ht Hr Hs. revert i j. induction Hs as [|x l Hs IH Hx]; intros i j Hij Ha Hb; [done|].
  destruct i as [|i], j as [|j]; cbn in *; try lia.
  - injection Ha as ->. injection Hb as ->. reflexivity.
  - injection Ha as ->. by apply (Forall_lookup_1 _ _ _ _ Hx Hb).
  - apply (IH i j); [lia|done..].
Qed.

Lemma foots_sorted l : sorted_foots (merge_sort footrange_le l).
Proof.
  intros i j a b. apply (sorted_lookup footrange_le); [intros ? ? ?; unfold footrange_le; lia|intros ?; unfold footrange_le; lia|].
  apply StronglySorted_merge_sort; [intros ? ? ?; unfold footrange_le; lia|intros ? ?; unfold footrange_le; lia].
Qed.

Lemma elem_of_row_group_list rgs sid rg : rg ∈ PgColumnarReadRowGroupList rgs sid <-> rg ∈ rgs /\ rg_storageId rg = sid.
Proof. unfold PgColumnarReadRowGroupList. rewrite merge_sort_Permutation, list_elem_of_filter. tauto. Qed.

(** On a catalog that owns every page once, reconciliation finds nothing stale. *)
Lemma reconcile_noop hw cat : cat_ok hw cat -> PgColumnarReconcileFreeList cat storages = Ok cat.
Proof.
  intros Hc. unfold PgColumnarReconcileFreeList.
  set (foots := merge_sort footrange_le (storages ≫= collect_footprints (row_group cat))).
  assert (Hst : forall rows, (forall r, r ∈ rows -> r ∈ free_space cat) -> stale_tids foots rows = Ok []).
  { induction rows as [|r rows IH]; intros Hin; [done|]. cbn [stale_tids].
    destruct (range_overlaps_total (fs_file_offset r) (u64 (fs_file_offset r + fs_byte_length r)) foots)
      as (b & -> & Hb & _); [apply foots_sorted|]. rewrite bind_Ok, IH, bind_Ok by (intros; apply Hin; by right).
    destruct b; [exfalso|done]. destruct (Hb eq_refl) as (f & Hf & H1 & H2).
    assert (Hr : r ∈ free_space cat) by (apply Hin; left).
    assert (Hrow : row_ok r) by (apply co_rows in Hc; rewrite list.Forall_forall in Hc; by apply Hc).
    pose proof file_limit_u64. pose proof bpp_bounds. rewrite u64_small in H1 by (destruct Hrow; lia).
    unfold foots in Hf. rewrite merge_sort_Permutation in Hf. apply list_elem_of_bind in Hf as (sid & Hf & _).
    apply list_elem_of_fmap in Hf as (rg & -> & Hrg). apply list_elem_of_filter in Hrg as [_ Hrg].
    apply elem_of_row_group_list in Hrg as [Hrg _].
    assert (Hg : rg_ok rg) by (apply co_groups in Hc; rewrite list.Forall_forall in Hc; by apply Hc).
    cbn in H1, H2. fold (group_end rg) in H2. rewrite group_end_npg in H2 by done.
    by apply (live_free_apart _ _ _ _ Hc Hrg Hr). }
  rewrite Hst, bind_Ok.
  - unfold delete_tids. rewrite filter_all; [by rewrite with_free_space_id|]. intros r _ Hn. by apply elem_of_nil in Hn.
  - intros r Hr. apply list_elem_of_bind in Hr as (sid & Hr & _). by apply list_elem_of_filter in Hr as [_ ?].
Qed.

(** ** Truncation *)

Lemma delete_above_filter fs sid limit :
  Forall row_ok fs -> NoDup (free_pages fs) ->
  PgColumnarDeleteFreeSpaceAtOrAbove fs sid limit
  = filter (fun r => ~ (limit <= fs_file_offset r /\ fs_storage_id r = sid)) fs.
Proof.
  intros Hok Hnd. unfold PgColumnarDeleteFreeSpaceAtOrAbove. rewrite scan_filter.
  by apply delete_tids_filter.
Qed.

Lemma free_pages_filter fs (P : FreeSpaceRow -> Prop) `{!forall r, Decision (P r)} :
  NoDup (free_pages fs) -> NoDup (free_pages (filter P fs)).
Proof. rewrite (free_pages_split fs P) at 1. intros Hn. by apply list.NoDup_app in Hn as (? & _ & _). Qed.

Lemma purge_filter fs sids limit :
  Forall row_ok fs -> NoDup (free_pages fs) ->
  purge_above fs sids limit = filter (fun r => ~ (limit <= fs_file_offset r /\ fs_storage_id r ∈ sids)) fs.
Proof.
  revert fs. induction sids as [|sid sids IH]; intros fs Hok Hnd.
  - cbn. rewrite filter_all; [done|]. intros r _ [_ Hn]. by apply elem_of_nil in Hn.
  - unfold purge_above. cbn [foldl]. fold (purge_above (PgColumnarDeleteFreeSpaceAtOrAbove fs sid limit) sids limit).
    rewrite delete_above_filter, IH by (done || by apply row_ok_filter || by apply free_pages_filter).
    rewrite list_filter_filter. apply filter_ext_in. intros r _. rewrite elem_of_cons. tauto.
Qed.

Lemma live_end_fold l z :
  let m := foldl (fun liveEnd rg => if liveEnd <? group_end rg then group_end rg else liveEnd) z l in
  z <= m /\ Forall (fun rg => group_end rg <= m) l /\ (m = z \/ exists rg, rg ∈ l /\ m = group_end rg).
Proof.
  revert z. induction l as [|rg l IH]; intros z; cbn [foldl]; [split; [lia|]; split; [constructor|by left]|].
  destruct (IH (if z <? group_end rg then group_end rg else z)) as (Hz & Hall & Hor). cbv zeta in *.
  destruct (Z.ltb_spec z (group_end rg)); (split; [lia|]; split; [constructor; [lia|done]|]).
  - right. destruct Hor as [->|(rg' & Hin & ->)]; [exists rg; split; [left|done]|exists rg'; split; [by right|done]].
  - destruct Hor as [->|(rg' & Hin & ->)]; [by left|right]. exists rg'. split; [by right|done].
Qed.

Record live_end_post (cat : Catalog) (z : Z) : Prop := {
  le_aligned : aligned z;
  le_low : 2 * bpp <= z;
  le_high : z <= file_limit;
  le_live : forall rg k, rg ∈ row_group cat -> k ∈ rg_pages rg -> k < z / bpp;
  (* a free row below the end lies below it as a whole *)
  le_free : forall r k, r ∈ free_space cat -> fs_file_offset r < z -> k ∈ fs_pages r -> k < z / bpp
}.

Lemma live_end_spec hw cat : cat_ok hw cat -> live_end_post cat (live_end (row_group cat) storages).
Proof.
  intros Hc. pose proof bpp_bounds. destruct (live_end_fold (storages ≫= PgColumnarReadRowGroupList (row_group cat))
    COLUMNAR_FIRST_LOGICAL_OFFSET) as (Hz & Hall & Hor). fold (live_end (row_group cat) storages) in *. cbv zeta in *.
  set (z := live_end (row_group cat) storages) in *. unfold COLUMNAR_FIRST_LOGICAL_OFFSET in *.
  pose proof (co_groups _ _ Hc) as Hgs. rewrite list.Forall_forall in Hgs, Hall.
  pose proof (co_rows _ _ Hc) as Hrs. rewrite list.Forall_forall in Hrs.
  assert (Hend : forall rg, rg ∈ row_group cat -> rg_fileOffset rg / bpp + npg (rg_byteLength rg) <= z / bpp).
  { intros rg Hrg. pose proof (Hgs rg Hrg) as Hg. assert (Hle : group_end rg <= z).
    { apply Hall, list_elem_of_bind. exists (rg_storageId rg). split; [by apply elem_of_row_group_list|apply Hg]. }
    rewrite group_end_npg in Hle by done. destruct Hg as [Ga _ _ _ _].
    rewrite (aligned_mul _ Ga), <- Z.mul_add_distr_r in Hle. apply Z.div_le_lower_bound; lia. }
  assert (Hcase : z = 2 * bpp \/ exists rg, rg ∈ row_group cat /\
            z = (rg_fileOffset rg / bpp + npg (rg_byteLength rg)) * bpp).
  { destruct Hor as [->|(rg & Hin & ->)]; [by left|right]. apply list_elem_of_bind in Hin as (sid & Hin & _).
    apply elem_of_row_group_list in Hin as [Hin _]. exists rg. split; [done|]. rewrite group_end_npg by auto.
    pose proof (aligned_mul _ (go_off _ (Hgs rg Hin))). lia. }
  split.
  - destruct Hcase as [->|(rg & _ & ->)]; apply mul_aligned.
  - lia.
  - destruct Hcase as [->|(rg & Hin & E)]; [unfold file_limit; lia|]. destruct (Hgs rg Hin) as [Ga _ _ Gh _].
    pose proof (aligned_mul _ Ga). lia.
  - intros rg k Hrg Hk. apply elem_of_pgs in Hk. specialize (Hend rg Hrg). lia.
  - intros r k Hr Hlt Hk. apply elem_of_pgs in Hk. destruct (Hrs r Hr) as [Ra Rl R0 Rp _].
    destruct (Z.lt_ge_cases k (z / bpp)) as [|Hge]; [done|exfalso].
    pose proof (aligned_mul _ Ra) as Er. destruct Hcase as [Ez|(rg & Hin & Ez)].
    + assert (fs_file_offset r / bpp ∈ owned cat) as Ho
        by (apply elem_of_app; right; apply list_elem_of_bind; exists r; split; [by apply first_page|done]).
      apply (co_range _ _ Hc) in Ho. nia.
    + destruct (Hgs rg Hin) as [Ga _ Gl _ _]. pose proof (npg_pos _ Gl).
      rewrite Ez, Z.div_mul in Hge by lia.
      set (e := rg_fileOffset rg / bpp + npg (rg_byteLength rg)) in *. assert (fs_file_offset r / bpp < e) by nia.
      pose proof (co_nodup _ _ Hc) as Hnd. apply list.NoDup_app in Hnd as (_ & Hd & _).
      apply (Hd (e - 1)); apply list_elem_of_bind; [exists rg|exists r]; (split; [|done]); apply elem_of_pgs; lia.
Qed.

(** A purge of the rows from an offset on. *)
Lemma purge_elem hw cat limit r :
  cat_ok hw cat ->
  r ∈ purge_above (free_space cat) storages limit <-> r ∈ free_space cat /\ fs_file_offset r < limit.
Proof.
  intros Hc. rewrite purge_filter; [|apply (co_rows _ _ Hc)|apply (cat_ok_free _ _ Hc)].
  rewrite list_elem_of_filter. split.
  - intros [Hn Hr]. split; [done|]. pose proof (co_storage _ _ Hc r Hr). destruct (Z.lt_ge_cases (fs_file_offset r) limit); [done|tauto].
  - intros [Hr Hlt]. split; [|done]. lia.
Qed.

(** Freed ranges lie below the reserved offset. *)
Lemma purge_highwater_noop hw cat : cat_ok hw cat -> purge_above (free_space cat) storages hw = free_space cat.
Proof.
  intros Hc. rewrite purge_filter; [|apply (co_rows _ _ Hc)|apply (cat_ok_free _ _ Hc)]. apply filter_all.
  intros r Hr [Hle _]. pose proof (co_rows _ _ Hc) as Hrs. rewrite list.Forall_forall in Hrs. destruct (Hrs r Hr) as [Ra _ _ Rp _].
  assert (Ho : fs_file_offset r / bpp ∈ owned cat)
    by (apply elem_of_app; right; apply list_elem_of_bind; exists r; split; [by apply first_page|done]).
  apply (co_range _ _ Hc) in Ho. pose proof (npg_bound hw). pose proof bpp_bounds. pose proof (aligned_mul _ Ra). nia.
Qed.

(** The catalog after truncation, against the lowered reserved offset. *)
Lemma truncated_cat_ok hw cat z :
  cat_ok hw cat -> z = live_end (row_group cat) storages ->
  cat_ok z (with_free_space cat (purge_above (free_space cat) storages z)).
Proof.
  intros Hc ->. pose proof (live_end_spec hw cat Hc) as [Za Zl Zh Zlive Zfree].
  set (z := live_end (row_group cat) storages) in *.
  set (P := fun r => ~ (z <= fs_file_offset r /\ fs_storage_id r ∈ storages)).
  assert (Epur : purge_above (free_space cat) storages z = filter P (free_space cat))
    by (apply purge_filter; [apply (co_rows _ _ Hc)|apply (cat_ok_free _ _ Hc)]).
  pose proof Hc as [C1 C2 C3 C4 C5 C6]. split; cbn; try done.
  - rewrite Epur. by apply row_ok_filter.
  - intros r Hr. apply (purge_elem hw) in Hr as [Hr _]; [by apply C4|done].
  - unfold owned in *. cbn. rewrite Epur. rewrite (free_pages_split (free_space cat) P), app_assoc in C5.
    by apply list.NoDup_app in C5 as (? & _ & _).
  - intros k Hk. rewrite npg_aligned by done. unfold owned in Hk. cbn in Hk. apply elem_of_app in Hk as [Hk|Hk].
    + split; [apply C6, elem_of_app; by left|]. apply list_elem_of_bind in Hk as (rg & Hk & Hrg). by apply (Zlive rg).
    + apply list_elem_of_bind in Hk as (r & Hk & Hr). apply (purge_elem hw) in Hr as [Hr Hlt]; [|done].
      split; [|by apply (Zfree r)]. apply C6, elem_of_app. right. apply list_elem_of_bind. eauto.
Qed.

(** ** The no-overlap check *)

Lemma NoDup_filter_bind {A B} (f : A -> list B) (P : A -> Prop) `{!forall x, Decision (P x)} (l : list A) :
  NoDup (l ≫= f) -> NoDup (filter P l ≫= f).
Proof.
  intros Hn. rewrite <- (filter_app_complement P l), bind_app in Hn. by apply list.NoDup_app in Hn as (? & _ & _).
Qed.

Definition range_ok (p : Z * Z) : Prop := aligned p.1 /\ aligned p.2 /\ 0 <= p.1 /\ 0 < p.2 /\ p.1 + p.2 <= file_limit.

Lemma reclaim_ranges_pages hw cat sid :
  cat_ok hw cat ->
  Forall range_ok (reclaim_ranges cat sid) /\ NoDup (reclaim_ranges cat sid ≫= (fun p => pgs p.1 p.2)).
Proof.
  intros Hc. pose proof bpp_bounds. pose proof Hc as [C1 _ C3 _ C5 _]. rewrite list.Forall_forall in C1. rewrite list.Forall_forall in C3.
  unfold reclaim_ranges. rewrite !list_filter_filter. set (gs := filter _ (row_group cat)). unfold fs_scan.
  rewrite list_filter_filter. set (rs := filter _ (free_space cat)).
  assert (Hgs : forall rg, rg ∈ gs -> rg ∈ row_group cat) by (intros rg Hg; by apply list_elem_of_filter in Hg as [_ ?]).
  assert (Hrs : forall r, r ∈ rs -> r ∈ free_space cat) by (intros r Hr; by apply list_elem_of_filter in Hr as [_ ?]).
  assert (Eg : forall rg, rg ∈ gs -> COLUMNAR_PAGE_ROUND_UP (rg_byteLength rg) = npg (rg_byteLength rg) * bpp).
  { intros rg Hg. destruct (C1 rg (Hgs rg Hg)) as [_ G0 Gl Gh _]. apply round_up_npg.
    pose proof (npg_bound (rg_byteLength rg)). lia. }
  split.
  - apply Forall_app. split; apply Forall_fmap, list.Forall_forall.
    + intros rg Hg. cbn. rewrite Eg by done. destruct (C1 rg (Hgs rg Hg)) as [Ga G0 Gl Gh _].
      pose proof (npg_pos _ Gl). repeat split; try done; cbn; try lia. apply mul_aligned.
    + intros r Hr. destruct (C3 r (Hrs r Hr)) as [Ra Rl R0 Rp Rh]. by repeat split.
  - rewrite bind_app. apply list.NoDup_app in C5 as (N1 & Nd & N2).
    assert (E1 : ((fun rg => (rg_fileOffset rg, COLUMNAR_PAGE_ROUND_UP (rg_byteLength rg))) <$> gs) ≫= (fun p => pgs p.1 p.2)
                 = gs ≫= rg_pages).
    { clear -Eg H0. induction gs as [|rg gs IH]; [done|]. cbn. rewrite IH by (intros; apply Eg; by right).
      f_equal. unfold rg_pages, pgs. rewrite Eg by left. by rewrite npg_mul. }
    assert (E2 : ((fun r => (fs_file_offset r, fs_byte_length r)) <$> rs) ≫= (fun p => pgs p.1 p.2) = rs ≫= fs_pages)
      by (clear; induction rs as [|r rs IH]; [done|]; cbn; by rewrite IH).
    rewrite E1, E2. apply list.NoDup_app. split; [by apply NoDup_filter_bind|]. split; [|by apply NoDup_filter_bind].
    intros k (rg & Hk & Hg)%list_elem_of_bind (r & Hk' & Hr)%list_elem_of_bind.
    apply (Nd k); apply list_elem_of_bind; eauto.
Qed.

Lemma check_adjacent_ok l :
  StronglySorted reclaim_range_le l -> Forall range_ok l -> NoDup (l ≫= (fun p => pgs p.1 p.2)) ->
  check_adjacent l = Ok tt.
Proof.
  pose proof file_limit_u64. pose proof bpp_bounds.
  intros Hs. induction Hs as [|a l Hs IH Ha]; intros Hok Hnd; [done|]. destruct l as [|b l]; [done|].
  inversion_clear Hok as [|? ? Hra Hok']. apply Forall_inv in Hok' as Hrb. apply Forall_inv in Ha as Hab.
  unfold reclaim_range_le in Hab. cbn [check_adjacent].
  destruct Hra as (Aa & Al & A0 & Ap & Ah), Hrb as (Ba & Bl & B0 & Bp & Bh).
  rewrite u64_small by lia. destruct (Z.ltb_spec b.1 (a.1 + a.2)) as [Hlt|_].
  - exfalso. destruct (overlap_page a.1 a.2 b.1 b.2) as (k & K1 & K2); try done.
    + pose proof (npg_pos _ Bp). nia.
    + rewrite (npg_aligned _ Al). by rewrite <- (aligned_mul _ Al).
    + cbn in Hnd. apply list.NoDup_app in Hnd as (_ & Hd & _). apply (Hd k K1). apply elem_of_app. by left.
  - apply IH; [done|]. cbn in Hnd. by apply list.NoDup_app in Hnd as (_ & _ & ?).
Qed.

Lemma check_no_overlap hw cat sid : cat_ok hw cat -> PgColumnarCheckFreeSpaceNoOverlap cat sid = Ok tt.
Proof.
  intros Hc. destruct (reclaim_ranges_pages hw cat sid Hc) as [Hok Hnd]. unfold PgColumnarCheckFreeSpaceNoOverlap.
  apply check_adjacent_ok; [|by rewrite merge_sort_Permutation|].
  - apply StronglySorted_merge_sort; [intros ? ? ?; unfold reclaim_range_le; lia|intros ? ?; unfold reclaim_range_le; lia].
  - assert (E : merge_sort reclaim_range_le (reclaim_ranges cat sid) ≡ₚ reclaim_ranges cat sid)
      by apply merge_sort_Permutation. by rewrite E.
Qed.

(** ** Retiring a group *)

Lemma retire_missing coalesce xid cat sid gno :
  (sid, gno) ∉ rg_key <$> row_group cat ->
  exists cat', PgColumnarRetireGroup coalesce xid cat sid gno = Ok cat' /\
    row_group cat' = row_group cat /\ free_space cat' = free_space cat.
Proof.
  intros Hn. unfold PgColumnarRetireGroup, read_row_group_range.
  assert (Hf : filter (fun rg => rg_key rg = (sid, gno)) (row_group cat) = []).
  { apply filter_nothing. intros rg Hrg E. apply Hn. rewrite <- E.
    apply list_elem_of_fmap. eauto. }
  rewrite Hf. eexists. split; [done|]. cbn. split; [|done]. unfold delete_row_group_rows. apply filter_all.
  intros rg Hrg E. apply Hn. rewrite <- E. apply list_elem_of_fmap. eauto.
Qed.

Lemma key_filter (rgs : list NativeRowGroupMetadata) rg :
  NoDup (rg_key <$> rgs) -> rg ∈ rgs ->
  filter (fun rg' => rg_key rg' = rg_key rg) rgs = [rg].
Proof.
  induction rgs as [|x rgs IH]; intros Hnd Hin; [by apply elem_of_nil in Hin|]. cbn in Hnd.
  apply list.NoDup_cons in Hnd as [Hx Hnd]. apply elem_of_cons in Hin as [->|Hin].
  - rewrite filter_cons_True by done. f_equal. apply filter_nothing. intros y Hy E.
    apply Hx. rewrite <- E. apply list_elem_of_fmap. eauto.
  - rewrite filter_cons_False; [by apply IH|]. intros E. apply Hx. rewrite E. apply list_elem_of_fmap. eauto.
Qed.

Lemma retire_spec hw coalesce xid cat rg :
  cat_ok hw cat -> rg ∈ row_group cat ->
  exists cat', PgColumnarRetireGroup coalesce xid cat (rg_storageId rg) (rg_groupNumber rg) = Ok cat' /\
    cat_ok hw cat' /\
    row_group cat' = filter (fun rg' => rg_key rg' <> rg_key rg) (row_group cat) /\
    freed (free_space cat) xid (rg_fileOffset rg) (rg_byteLength rg) (free_space cat').
Proof.
  intros Hc Hrg. pose proof Hc as [C1 C2 C3 C4 C5 C6]. pose proof C1 as C1'. rewrite list.Forall_forall in C1'.
  destruct (C1' rg Hrg) as [Ga G0 Gl Gh Gs]. unfold PgColumnarRetireGroup, read_row_group_range.
  fold (rg_key rg). rewrite (key_filter _ _ C2 Hrg). cbv zeta. destruct (Z.ltb_spec 0 (rg_byteLength rg)) as [_|?]; [|lia].
  cbn [free_space].
  assert (Elive : live_pages (row_group cat) ≡ₚ rg_pages rg ++
                  live_pages (filter (fun rg' => rg_key rg' <> rg_key rg) (row_group cat))).
  { unfold live_pages. rewrite <- (filter_app_complement (fun rg' => rg_key rg' = rg_key rg) (row_group cat)) at 1.
    rewrite bind_app, key_filter by done. cbn. by rewrite app_nil_r. }
  set (rest := filter (fun rg' => rg_key rg' <> rg_key rg) (row_group cat)) in *.
  assert (Hown : owned cat ≡ₚ live_pages rest ++ (rg_pages rg ++ free_pages (free_space cat))).
  { unfold owned. rewrite Elive, (Permutation_app_comm (rg_pages rg)). by rewrite <- app_assoc. }
  destruct (record_free_space_spec coalesce xid (free_space cat) (rg_storageId rg) (rg_fileOffset rg) (rg_byteLength rg))
    as (fs' & -> & Hfr & Hst); try done.
  { rewrite Hown in C5. by apply list.NoDup_app in C5 as (_ & _ & ?). }
  rewrite bind_Ok. eexists. split; [done|]. cbn. split; [|done]. pose proof Hfr as [F1 F2 _ _].
  assert (Hown' : live_pages rest ++ free_pages fs' ≡ₚ owned cat) by (by rewrite Hown, F2).
  split; cbn; try done.
  - apply list.Forall_forall. intros rg' Hin. apply list_elem_of_filter in Hin as [_ Hin]. by apply C1'.
  - unfold delete_row_group_rows. fold (rg_key rg). clear -C2. induction (row_group cat) as [|x l IH]; [constructor|].
    cbn in C2. apply list.NoDup_cons in C2 as [Hx Hl]. rewrite filter_cons. case_decide; [|by apply IH]. cbn.
    apply list.NoDup_cons. split; [|by apply IH]. intros (y & E & Hy)%list_elem_of_fmap. apply Hx. rewrite E.
    apply list_elem_of_filter in Hy as [_ Hy]. apply list_elem_of_fmap. eauto.
  - intros r Hr. destruct (Hst r Hr) as [->|(r0 & Hr0 & ->)]; [done|by apply C4].
  - change (NoDup (live_pages rest ++ free_pages fs')). by rewrite Hown'.
  - intros k. change (k ∈ live_pages rest ++ free_pages fs' -> 2 <= k < npg hw). rewrite Hown'. apply C6.
Qed.
End CatalogInvariant.

(** ** Placing a row group *)

Section Place.
Context `{PageLayoutLaws}.
Context (storages : list Z).
Local Abbreviation bpp := COLUMNAR_BYTES_PER_PAGE.

(** A relation file: its metapage and the space it has reserved. *)
Record fork_ok (rel : list page) (m : PgColumnarMetapage) : Prop := {
  fo_meta : metapage rel = Ok m;
  fo_version : versionMajor m = COLUMNAR_VERSION_MAJOR;
  fo_blocks : zlen rel < 2 ^ 32;
  fo_low : 2 * bpp <= reservedOffset m;
  fo_high : reservedOffset m <= file_limit
}.

Lemma metapage_blocks rel m : metapage rel = Ok m -> 0 < zlen rel.
Proof. destruct rel; [done|]. intros _. rewrite zlen_cons. pose proof (zlen_nonneg rel). lia. Qed.

Lemma set_metapage_read rel m m' : metapage rel = Ok m -> metapage (set_metapage rel m') = Ok m'.
Proof. by destruct rel. Qed.

Lemma zlen_set_metapage rel m : zlen (set_metapage rel m) = zlen rel.
Proof. unfold set_metapage, zlen. by rewrite length_insert. Qed.

Lemma set_metapage_keeps rel m off d :
  aligned off -> bpp <= off -> holds_at rel off d -> holds_at (set_metapage rel m) off d.
Proof.
  intros Ha Ho Hh j x Hj. specialize (Hh j x Hj). unfold logical, set_metapage in *. pose proof bpp_bounds.
  rewrite list_lookup_insert_ne; [done|]. assert (1 <= (off + Z.of_nat j) / bpp) by (apply Z.div_le_lower_bound; lia). lia.
Qed.

Lemma npg_limit n : n <= file_limit -> npg n * bpp <= file_limit.
Proof.
  intros Hn. unfold file_limit in *. apply Z.mul_le_mono_nonneg_r; [pose proof bpp_bounds; lia|].
  rewrite <- (npg_mul (2 ^ 32 - 1)). by apply npg_mono.
Qed.

(** Where a group was placed: its pages are its own, its data is in the file,
    and nothing else a page of another owner holds has changed. *)
Record placed (rel : list page) (m : PgColumnarMetapage) (data : list Z) (off : Z) (rel' : list page)
    (m' : PgColumnarMetapage) : Prop := {
  pl_fork : fork_ok rel' m';
  pl_id : storageId m' = storageId m;
  pl_hw : npg (reservedOffset m) <= npg (reservedOffset m');
  pl_aligned : aligned off;
  pl_low : 2 * bpp <= off;
  pl_high : off + npg (zlen data) * bpp <= npg (reservedOffset m') * bpp;
  pl_data : holds_at rel' off data;
  pl_frame : forall o d, aligned o -> bpp <= o -> holds_at rel o d ->
    (forall k, k ∈ pgs o (zlen d) -> k ∈ pgs off (zlen data) -> False) -> holds_at rel' o d
}.

(** The write at a range that ends below the reserved offset. *)
Lemma place_write rel m data off :
  fork_ok rel m -> data <> [] -> aligned off -> 2 * bpp <= off ->
  off + npg (zlen data) * bpp <= npg (reservedOffset m) * bpp ->
  exists rel', PgColumnarWriteLogicalData rel off data = Ok rel' /\ placed rel m data off rel' m.
Proof.
  intros [F1 F2 F3 F4 F5] Hne Ha Hlow Hhigh. pose proof bpp_bounds. pose proof (npg_limit _ F5).
  pose proof (npg_bound (zlen data)) as Hb. pose proof (aligned_mul _ Ha) as Eo. unfold file_limit in *.
  destruct (WriteLogicalData_spec rel off data) as (rel' & Hw & Hpost); [lia|done|lia|done|].
  exists rel'. split; [done|]. assert (0 < off / bpp) by (apply Z.div_str_pos; lia).
  split; try done.
  - split; try done.
    + rewrite (write_keeps_metapage rel (off / bpp) data); [done|done|by eapply metapage_blocks|done].
    + pose proof (wp_max _ _ _ _ Hpost) as Hm. fold (npg (off / bpp * bpp + zlen data)) in Hm.
      rewrite npg_add in Hm. nia.
  - pose proof (wp_data _ _ _ _ Hpost) as Hd. by rewrite <- Eo in Hd.
  - intros o d Hao Ho Hh Hdis. apply (write_keeps rel (off / bpp) data rel'); try done; [lia|].
    intros k K1 K2. apply (Hdis k K1). by rewrite <- Eo in K2.
Qed.

(** Appending: the pages from the reserved offset on. *)
Lemma place_append rel m data :
  fork_ok rel m -> data <> [] -> npg (reservedOffset m) * bpp + zlen data <= file_limit ->
  exists rel1 rel' m', let off := npg (reservedOffset m) * bpp in
    PgColumnarReserveOffset rel (zlen data) = Ok (rel1, off) /\
    PgColumnarWriteLogicalData rel1 off data = Ok rel' /\ placed rel m data off rel' m' /\
    npg (reservedOffset m') = npg (reservedOffset m) + npg (zlen data).
Proof.
  intros Hfork Hne Hfit. pose proof Hfork as [F1 F2 F3 F4 F5]. pose proof bpp_bounds. pose proof file_limit_u64.
  pose proof (npg_bound (reservedOffset m)). pose proof (zlen_nonneg data).
  set (hw := reservedOffset m) in *. set (off := npg hw * bpp) in *.
  set (m' := with_offset m (off + zlen data)). set (rel1 := set_metapage rel m').
  assert (Hres : PgColumnarReserveOffset rel (zlen data) = Ok (rel1, off)).
  { unfold PgColumnarReserveOffset. rewrite F1, bind_Ok. fold hw. rewrite (u64_small (hw + bpp - 1)) by lia.
    fold (npg hw). fold off. cbv zeta. rewrite (u64_small off) by lia. rewrite u64_small by lia. done. }
  assert (Hhw' : npg (reservedOffset m') = npg hw + npg (zlen data)) by (cbn; apply npg_add).
  assert (Hf1 : fork_ok rel1 m').
  { split; try done; [by eapply set_metapage_read|unfold rel1; by rewrite zlen_set_metapage|cbn; lia]. }
  destruct (place_write rel1 m' data off Hf1 Hne) as (rel' & Hw & Hp); [apply mul_aligned|lia|rewrite Hhw'; lia|].
  exists rel1, rel', m'. cbv zeta. split; [done|]. split; [done|]. split; [|done].
  destruct Hp as [P1 P2 P3 P4 P5 P6 P7 P8]. split; try done.
  - fold hw. rewrite Hhw'. pose proof (npg_nonneg (zlen data)). lia.
  - intros o d Ho Hlow Hh Hdis. apply P8; try done. by apply set_metapage_keeps.
Qed.

(** The catalog's side of a placement. *)
Record placed_cat (cat : Catalog) (hw' ox off len : Z) (fs' : list FreeSpaceRow) : Prop := {
  pc_rows : Forall row_ok fs';
  pc_storage : forall r, r ∈ fs' -> fs_storage_id r ∈ storages;
  pc_nodup : NoDup (live_pages (row_group cat) ++ pgs off len ++ free_pages fs');
  pc_range : forall k, k ∈ live_pages (row_group cat) ++ pgs off len ++ free_pages fs' -> 2 <= k < npg hw';
  pc_rest : forall r, r ∈ free_space cat -> ~ reusable len ox r -> r ∈ fs'
}.

Lemma placed_cat_append cat hw hw' ox len :
  cat_ok storages hw cat -> 2 <= npg hw -> npg hw' = npg hw + npg len -> 0 < len ->
  placed_cat cat hw' ox (npg hw * bpp) len (free_space cat).
Proof.
  intros [C1 C2 C3 C4 C5 C6] H2 Ehw Hlen. pose proof (npg_pos len Hlen). pose proof bpp_bounds.
  assert (Hpg : forall k, k ∈ pgs (npg hw * bpp) len <-> npg hw <= k < npg hw').
  { intros k. rewrite elem_of_pgs, Z.div_mul by lia. lia. }
  assert (E : live_pages (row_group cat) ++ pgs (npg hw * bpp) len ++ free_pages (free_space cat)
              ≡ₚ pgs (npg hw * bpp) len ++ owned cat).
  { unfold owned. rewrite !app_assoc. f_equiv. apply Permutation_app_comm. }
  split; try done.
  - rewrite E. apply list.NoDup_app. split; [apply NoDup_seqZ|]. split; [|done].
    intros k Hk Ho. apply Hpg in Hk. apply C6 in Ho. lia.
  - intros k. rewrite E, elem_of_app, Hpg. intros [Hk|Hk]; [lia|]. apply C6 in Hk. lia.
Qed.

Lemma placed_cat_reuse cat hw ox len sid off best fs' :
  cat_ok storages hw cat -> allotted (free_space cat) sid len ox off best fs' ->
  placed_cat cat hw ox off len fs'.
Proof.
  intros Hc [A1 A2 A3 A4 [leak A5] A6 A7 A8]. pose proof Hc as [C1 C2 C3 C4 C5 C6].
  assert (E : owned cat ≡ₚ (live_pages (row_group cat) ++ pgs off len ++ free_pages fs') ++ leak).
  { unfold owned. rewrite A5. by rewrite !app_assoc. }
  split; try done.
  - intros r Hr. destruct (A8 r Hr) as (r0 & Hr0 & ->). by apply C4.
  - rewrite E in C5. by apply list.NoDup_app in C5 as (? & _ & _).
  - intros k Hk. apply C6. rewrite E. apply elem_of_app. by left.
  - intros r Hr Hn. destruct (A7 r Hr) as [->|?]; done.
Qed.

Lemma flush_place_spec coalesce locked rel m cat ox data :
  fork_ok rel m -> cat_ok storages (reservedOffset m) cat -> data <> [] ->
  npg (reservedOffset m) * bpp + zlen data <= file_limit ->
  exists rel' fs' off m', flush_place coalesce locked rel (free_space cat) ox data = Ok (rel', fs', off) /\
    placed rel m data off rel' m' /\ placed_cat cat (reservedOffset m') ox off (zlen data) fs'.
Proof.
  intros Hf Hc Hne Hfit. pose proof bpp_bounds. pose proof (npg_bound (reservedOffset m)).
  assert (Hpos : 0 < zlen data) by (destruct data; [done|rewrite zlen_cons; pose proof (zlen_nonneg data); lia]).
  pose proof Hf as [F1 F2 F3 F4 F5]. unfold flush_place. destruct (Z.ltb_spec 0 (zlen data)) as [_|?]; [|lia].
  assert (Happ : exists rel' fs' off m',
    (' (rel1, fileOffset) ← PgColumnarReserveOffset rel (zlen data);
     rel2 ← PgColumnarWriteLogicalData rel1 fileOffset data; Ok (rel2, free_space cat, fileOffset)) = Ok (rel', fs', off) /\
    placed rel m data off rel' m' /\ placed_cat cat (reservedOffset m') ox off (zlen data) fs').
  { destruct (place_append rel m data Hf Hne Hfit) as (rel1 & rel' & m' & Hres & Hw & Hp & Ehw). cbv zeta in *.
    exists rel', (free_space cat), (npg (reservedOffset m) * bpp), m'.
    rewrite Hres, bind_Ok, Hw, bind_Ok. split; [done|]. split; [done|].
    apply (placed_cat_append cat (reservedOffset m)); try done. rewrite <- (npg_mul 2). apply npg_mono. lia. }
  destruct locked; cbn [andb]; [|rewrite bind_Ok; exact Happ].
  unfold PgColumnarStorageId, PgColumnarReadMetapage. rewrite F1, bind_Ok, F2. cbn [Z.eqb Pos.eqb COLUMNAR_VERSION_MAJOR].
  rewrite !bind_Ok.
  destruct (allocate_spec coalesce (free_space cat) (storageId m) (zlen data) ox) as [(fs' & off & best & Hal & Hall)|Hal];
    [apply Hc|by eapply cat_ok_free|lia| |]; rewrite Hal, bind_Ok; [|exact Happ]. rewrite bind_Ok.
  pose proof (co_rows _ _ _ Hc) as Hrows. rewrite list.Forall_forall in Hrows.
  destruct (Hrows best (al_best _ _ _ _ _ _ _ Hall)) as [Ra Rl R0 Rp Rh]. pose proof (al_off _ _ _ _ _ _ _ Hall) as Eoff.
  pose proof (placed_cat_reuse _ _ _ _ _ _ _ _ Hc Hall) as Hpc. pose proof (npg_pos _ Hpos).
  assert (Hin : forall k, k ∈ pgs off (zlen data) -> 2 <= k < npg (reservedOffset m))
    by (intros k Hk; apply (pc_range _ _ _ _ _ _ Hpc); rewrite !elem_of_app; auto).
  rewrite <- Eoff in Ra. pose proof (aligned_mul _ Ra) as Ea.
  destruct (place_write rel m data off Hf Hne Ra) as (rel' & -> & Hp).
  - pose proof (Hin (off / bpp) (first_page _ _ Hpos)). nia.
  - assert (Hl : off / bpp + npg (zlen data) - 1 ∈ pgs off (zlen data)) by (apply elem_of_pgs; lia).
    apply Hin in Hl. nia.
  - rewrite bind_Ok. exists rel', fs', off, m. done.
Qed.

(** The placed group's row joins the catalog. *)
Lemma insert_group_ok cat hw' ox off fs' sid gno rc frn len :
  cat_ok storages hw' cat -> placed_cat cat hw' ox off len fs' -> sid ∈ storages ->
  let rg := mkRowGroup sid gno off rc len frn in
  aligned off -> 0 <= off -> 0 < len -> off + npg len * bpp <= file_limit ->
  (sid, gno) ∉ rg_key <$> row_group cat ->
  cat_ok storages hw' (with_row_group (with_free_space cat fs') (row_group cat ++ [rg])).
Proof.
  intros [C1 C2 C3 C4 C5 C6] [P1 P2 P3 P4 P5] Hsid rg Ha H0' Hl Hh Hk.
  assert (E : owned (with_row_group (with_free_space cat fs') (row_group cat ++ [rg]))
              = live_pages (row_group cat) ++ pgs off len ++ free_pages fs').
  { unfold owned, live_pages. cbn. rewrite bind_app, <- app_assoc. cbn. by rewrite app_nil_r. }
  split; try done.
  - cbn. apply Forall_app. split; [done|]. constructor; [|constructor]. by split.
  - cbn. rewrite fmap_app. apply list.NoDup_app. split; [done|]. split.
    + intros k Hin Hs. apply list_elem_of_singleton in Hs as ->. done.
    + apply NoDup_singleton.
  - by rewrite E.
  - intros k. rewrite E. apply P4.
Qed.
End Place.

(** ** The transition system *)

Section System.
Context `{PageLayoutLaws}.
Context (storages : list Z).
Local Abbreviation bpp := COLUMNAR_BYTES_PER_PAGE.

(** What the model keeps of a row group beside the catalog: the data it was
    written with, and the full transaction id that retired it. *)
Definition entry : Type := NativeRowGroupMetadata * list Z * option Z.

Record tables := mkTables { t_cat : Catalog; t_kept : list entry }.

(** The file, the catalog as the running transaction sees it, the catalog as
    committed, the running transaction's full id, and the oldest-xmin horizon:
    a snapshot may still read a group retired at or after it. *)
Record sys := mkSys { s_file : list page; s_cur : tables; s_com : tables; s_xid : Z; s_horizon : Z }.

Definition live_entry (e : entry) : option NativeRowGroupMetadata :=
  match e with (rg, _, None) => Some rg | _ => None end.

Definition retire_entry (key : Z * Z) (xid : Z) (e : entry) : entry :=
  match e with
  | (rg, d, None) => if bool_decide (rg_key rg = key) then (rg, d, Some xid) else e
  | _ => e
  end.

Definition normal_xid (x : Z) : Prop := TransactionIdIsNormal (u32 x) = true.

(** A snapshot may read the group. *)
Definition readable (horizon : Z) (retired : option Z) : Prop :=
  match retired with None => True | Some x => horizon <= x end.

Definition fits (file : list page) (len : Z) : Prop :=
  match metapage file with Ok m => npg (reservedOffset m) * bpp + len <= file_limit | _ => False end.

Inductive step (s : sys) : sys -> Prop :=
(* a row group is flushed, by an insert or (locked) by a rewrite that may reuse space *)
| step_flush coalesce locked sid gno rowCount firstRow data file' cat' rg :
    sid ∈ storages -> data <> [] -> fits (s_file s) (zlen data) ->
    flush_row_group_rows coalesce locked (s_file s) (t_cat (s_cur s)) (u32 (s_horizon s)) sid gno rowCount firstRow data
      = Ok (file', cat', rg) ->
    step s (mkSys file' (mkTables cat' (t_kept (s_cur s) ++ [(rg, data, None)])) (s_com s) (s_xid s) (s_horizon s))
(* the placement is done and the transaction fails before the row_group row exists *)
| step_flush_abort coalesce locked data file' fs' off xid' :
    data <> [] -> fits (s_file s) (zlen data) ->
    flush_place coalesce locked (s_file s) (free_space (t_cat (s_cur s))) (u32 (s_horizon s)) data = Ok (file', fs', off) ->
    s_xid s < xid' < s_horizon s + 2 ^ 31 -> normal_xid xid' ->
    step s (mkSys file' (s_com s) (s_com s) xid' (s_horizon s))
(* space is reserved and never written *)
| step_reserve len file' off :
    0 <= len -> fits (s_file s) len ->
    PgColumnarReserveOffset (s_file s) len = Ok (file', off) ->
    step s (mkSys file' (s_cur s) (s_com s) (s_xid s) (s_horizon s))
| step_retire coalesce sid gno cat' :
    PgColumnarRetireGroup coalesce (u32 (s_xid s)) (t_cat (s_cur s)) sid gno = Ok cat' ->
    step s (mkSys (s_file s) (mkTables cat' (retire_entry (sid, gno) (s_xid s) <$> t_kept (s_cur s)))
              (s_com s) (s_xid s) (s_horizon s))
| step_reconcile cat' :
    PgColumnarReconcileFreeList (t_cat (s_cur s)) storages = Ok cat' ->
    step s (mkSys (s_file s) (mkTables cat' (t_kept (s_cur s))) (s_com s) (s_xid s) (s_horizon s))
| step_commit xid' :
    s_xid s < xid' < s_horizon s + 2 ^ 31 -> normal_xid xid' ->
    step s (mkSys (s_file s) (s_cur s) (s_cur s) xid' (s_horizon s))
| step_abort xid' :
    s_xid s < xid' < s_horizon s + 2 ^ 31 -> normal_xid xid' ->
    step s (mkSys (s_file s) (s_com s) (s_com s) xid' (s_horizon s))
| step_horizon horizon' :
    s_horizon s <= horizon' <= s_xid s -> normal_xid horizon' ->
    step s (mkSys (s_file s) (s_cur s) (s_com s) (s_xid s) horizon')
(* end truncation runs outside a transaction block, and commits *)
| step_truncate file' cat' n :
    s_cur s = s_com s ->
    pgcolumnar_do_end_truncation (s_file s) (t_cat (s_cur s)) storages (u32 (s_horizon s)) = Ok (file', cat', n) ->
    step s (mkSys file' (mkTables cat' (t_kept (s_cur s))) (mkTables cat' (t_kept (s_cur s))) (s_xid s) (s_horizon s))
(* or fails after the file was shortened and before the reserved offset was lowered *)
| step_truncate_crash cat' cat'' liveEnd :
    s_cur s = s_com s ->
    end_truncation_plan (s_file s) (t_cat (s_cur s)) storages (u32 (s_horizon s)) = Ok (cat', Some (cat'', liveEnd)) ->
    step s (mkSys (PgColumnarTruncateMainFork (s_file s) (u32 (liveEnd / bpp))) (s_com s) (s_com s)
              (s_xid s) (s_horizon s)).

Definition empty_catalog : Catalog := mkCatalog [] [] [] [] [] [] (Some []) [] [].

Definition initial (base xid : Z) : sys :=
  mkSys (PgColumnarWriteNewMetapage base) (mkTables empty_catalog []) (mkTables empty_catalog []) xid xid.

Definition reachable (base xid : Z) : sys -> Prop := rtc step (initial base xid).

(** ** The invariant *)

Record tables_ok (hw horizon xid : Z) (T : tables) : Prop := {
  to_cat : cat_ok storages hw (t_cat T);
  to_live : row_group (t_cat T) = omap live_entry (t_kept T);
  to_entry : forall rg d o, (rg, d, o) ∈ t_kept T -> rg_ok storages rg /\ zlen d = rg_byteLength rg;
  to_dead : forall rg d x, (rg, d, Some x) ∈ t_kept T -> x <= xid /\ normal_xid x /\
    (horizon <= x -> exists r, r ∈ free_space (t_cat T) /\ fs_freed_xid r = u32 x /\ rg_pages rg ⊆ fs_pages r)
}.

Definition data_ok (file : list page) (horizon : Z) (T : tables) : Prop :=
  forall rg d o, (rg, d, o) ∈ t_kept T -> readable horizon o -> holds_at file (rg_fileOffset rg) d.

(** What was committed is still there, or was retired by the running transaction. *)
Definition linked (xid : Z) (com cur : tables) : Prop :=
  (forall rg d, (rg, d, None) ∈ t_kept com -> (rg, d, None) ∈ t_kept cur \/ (rg, d, Some xid) ∈ t_kept cur) /\
  (forall rg d x, (rg, d, Some x) ∈ t_kept com -> (rg, d, Some x) ∈ t_kept cur).

Definition xids_ok (horizon xid : Z) : Prop :=
  normal_xid xid /\ normal_xid horizon /\ horizon <= xid < horizon + 2 ^ 31.

Definition inv (s : sys) : Prop :=
  exists m, fork_ok (s_file s) m /\
    tables_ok (reservedOffset m) (s_horizon s) (s_xid s) (s_cur s) /\
    tables_ok (reservedOffset m) (s_horizon s) (s_xid s) (s_com s) /\
    data_ok (s_file s) (s_horizon s) (s_cur s) /\
    linked (s_xid s) (s_com s) (s_cur s) /\ xids_ok (s_horizon s) (s_xid s).

Lemma tables_ok_mono hw hw' h xid xid' T :
  npg hw <= npg hw' -> xid <= xid' -> tables_ok hw h xid T -> tables_ok hw' h xid' T.
Proof.
  intros Hhw Hx [T1 T2 T3 T4]. split; try done; [by eapply cat_ok_mono|].
  intros rg d x Hin. destruct (T4 rg d x Hin) as (? & ? & ?). split; [lia|done].
Qed.

(** A group retired at or after the horizon is not reusable. *)
Lemma not_precedes h xid x :
  xids_ok h xid -> normal_xid x -> h <= x <= xid ->
  TransactionIdIsNormal (u32 x) && negb (TransactionIdPrecedes (u32 x) (u32 h)) = true.
Proof.
  intros (_ & Nh & Hx) Nx Hr. unfold normal_xid in *. rewrite Nx. unfold TransactionIdPrecedes. rewrite Nx, Nh.
  cbn [negb orb andb]. destruct (Z.ltb_spec (s32 (u32 x - u32 h)) 0) as [Hlt|]; [exfalso|done].
  unfold s32, u32 in Hlt. rewrite Z.add_mod, Zminus_mod_idemp_l, Zminus_mod_idemp_r in Hlt by lia.
  rewrite <- Z.add_mod, (Z.mod_small (x - h + 2 ^ 31)) in Hlt by lia. lia.
Qed.

(** The pages of a group some snapshot may read: live, or under a row that is not reusable. *)
Lemma readable_pages hw h xid T rg d o :
  tables_ok hw h xid T -> xids_ok h xid -> (rg, d, o) ∈ t_kept T -> readable h o ->
  2 * bpp <= rg_fileOffset rg /\
  (rg_pages rg ⊆ live_pages (row_group (t_cat T)) \/
   exists r, r ∈ free_space (t_cat T) /\ rg_pages rg ⊆ fs_pages r /\
     TransactionIdIsNormal (fs_freed_xid r) && negb (TransactionIdPrecedes (fs_freed_xid r) (u32 h)) = true).
Proof.
  intros [T1 T2 T3 T4] Hxid Hin Hr. pose proof (T3 rg d o Hin) as [[Ga G0 Gl _ _] _]. pose proof bpp_bounds.
  assert (Hor : rg_pages rg ⊆ live_pages (row_group (t_cat T)) \/
    exists r, r ∈ free_space (t_cat T) /\ rg_pages rg ⊆ fs_pages r /\
     TransactionIdIsNormal (fs_freed_xid r) && negb (TransactionIdPrecedes (fs_freed_xid r) (u32 h)) = true).
  { destruct o as [x|]; [right|left].
    - destruct (T4 rg d x Hin) as (Hx & Nx & Hc). destruct (Hc Hr) as (r & Hrin & Ex & Hpg). exists r.
      split; [done|]. split; [done|]. rewrite Ex. by eapply not_precedes.
    - intros k Hk. apply list_elem_of_bind. exists rg. split; [done|]. rewrite T2. apply list_elem_of_omap.
      exists (rg, d, None). done. }
  split; [|done]. assert (Hown : rg_fileOffset rg / bpp ∈ owned (t_cat T)).
  { pose proof (first_page (rg_fileOffset rg) _ Gl) as Hk. apply elem_of_app.
    destruct Hor as [Hs|(r & Hrin & Hs & _)]; [left; by apply Hs|right]. apply list_elem_of_bind. exists r. split; [by apply Hs|done]. }
  apply (co_range _ _ _ T1) in Hown. pose proof (aligned_mul _ Ga). nia.
Qed.

(** A placement leaves the data of every readable group. *)
Lemma placed_data file m data off file' m' h xid T fs' :
  tables_ok (reservedOffset m) h xid T -> xids_ok h xid -> data_ok file h T -> placed file m data off file' m' ->
  placed_cat storages (t_cat T) (reservedOffset m') (u32 h) off (zlen data) fs' -> data_ok file' h T.
Proof.
  intros HT Hx Hd Hp Hpc rg d o Hin Hr. pose proof bpp_bounds.
  destruct (readable_pages _ _ _ _ _ _ _ HT Hx Hin Hr) as [Hlow Hor].
  destruct (to_entry _ _ _ _ HT rg d o Hin) as [[Ga _ _ _ _] El].
  apply (pl_frame _ _ _ _ _ _ Hp); [done|lia|by apply (Hd rg d o)|]. rewrite El. intros k K1 K2.
  pose proof (pc_nodup _ _ _ _ _ _ _ Hpc) as Hnd. apply list.NoDup_app in Hnd as (_ & Nl & Hnd).
  destruct Hor as [Hs|(r & Hrin & Hs & Hnr)].
  - apply (Nl k); [by apply Hs|]. apply elem_of_app. by left.
  - apply list.NoDup_app in Hnd as (_ & Nf & _). apply (Nf k K2). apply list_elem_of_bind. exists r.
    split; [by apply Hs|]. apply (pc_rest _ _ _ _ _ _ _ Hpc r Hrin). intros [_ Hre]. by rewrite Hnr in Hre.
Qed.

(** Dead groups keep a row that covers them when the rows that are not reusable stay. *)
Lemma placed_dead cat hw' off len fs' h xid x rg :
  placed_cat storages cat hw' (u32 h) off len fs' -> xids_ok h xid -> normal_xid x -> h <= x <= xid ->
  (exists r, r ∈ free_space cat /\ fs_freed_xid r = u32 x /\ rg_pages rg ⊆ fs_pages r) ->
  exists r, r ∈ fs' /\ fs_freed_xid r = u32 x /\ rg_pages rg ⊆ fs_pages r.
Proof.
  intros Hpc Hx Nx Hr (r & Hrin & Ex & Hs). exists r. split; [|done]. apply (pc_rest _ _ _ _ _ _ _ Hpc r Hrin).
  intros [_ Hre]. rewrite Ex in Hre. by rewrite (not_precedes h xid x) in Hre.
Qed.

Lemma fits_meta file len m : metapage file = Ok m -> fits file len -> npg (reservedOffset m) * bpp + len <= file_limit.
Proof. intros Hm. unfold fits. by rewrite Hm. Qed.

Lemma linked_data file h xid com cur :
  xids_ok h xid -> linked xid com cur -> data_ok file h cur -> data_ok file h com.
Proof.
  intros Hx [L1 L2] Hd rg d [x|] Hin Hr.
  - apply (Hd rg d (Some x)); [by apply L2|done].
  - destruct (L1 rg d Hin) as [Hc|Hc]; [by apply (Hd rg d None)|]. apply (Hd rg d (Some xid)); [done|].
    destruct Hx as (_ & _ & ?). cbn. lia.
Qed.

Lemma linked_refl xid T : linked xid T T.
Proof. split; auto. Qed.

Lemma flush_inv s coalesce locked sid gno rowCount firstRow data file' cat' rg :
  inv s -> sid ∈ storages -> data <> [] -> fits (s_file s) (zlen data) ->
  flush_row_group_rows coalesce locked (s_file s) (t_cat (s_cur s)) (u32 (s_horizon s)) sid gno rowCount firstRow data
    = Ok (file', cat', rg) ->
  inv (mkSys file' (mkTables cat' (t_kept (s_cur s) ++ [(rg, data, None)])) (s_com s) (s_xid s) (s_horizon s)).
Proof.
  intros (m & Hf & Hcur & Hcom & Hd & [L1 L2] & Hx) Hsid Hne Hfit Hfl. pose proof (fits_meta _ _ _ (fo_meta _ _ Hf) Hfit) as Hfit'.
  destruct (flush_place_spec storages coalesce locked (s_file s) m (t_cat (s_cur s)) (u32 (s_horizon s)) data)
    as (file1 & fs' & off & m' & Hpl & Hp & Hpc); [done|apply Hcur|done|done|].
  unfold flush_row_group_rows in Hfl. rewrite Hpl, bind_Ok in Hfl. unfold PgColumnarInsertRowGroupRow in Hfl.
  destruct (bool_decide _) eqn:Ek in Hfl; [done|]. rewrite bind_Ok in Hfl. injection Hfl as <- <- <-.
  apply bool_decide_eq_false in Ek. pose proof bpp_bounds.
  assert (Hpos : 0 < zlen data) by (destruct data; [done|rewrite zlen_cons; pose proof (zlen_nonneg data); lia]).
  pose proof (npg_limit _ (fo_high _ _ (pl_fork _ _ _ _ _ _ Hp))) as Hlim.
  pose proof Hp as [P1 P2 P3 P4 P5 P6 P7 P8].
  pose proof (placed_data _ _ _ _ _ _ _ _ _ _ Hcur Hx Hd Hp Hpc) as Hd'.
  assert (Hcur' : tables_ok (reservedOffset m') (s_horizon s) (s_xid s) (s_cur s))
    by (eapply tables_ok_mono; [exact P3|reflexivity|exact Hcur]).
  destruct Hcur' as [T1 T2 T3 T4]. exists m'. cbn [s_file s_cur s_com s_xid s_horizon].
  split; [done|]. split; [|split; [|split; [|split]]].
  - split; cbn [t_cat t_kept].
    + eapply insert_group_ok; try done; [lia|lia].
    + cbn. rewrite omap_app, T2. done.
    + intros rg d o [Hin|Hin]%elem_of_app; [by apply (T3 rg d o)|]. apply list_elem_of_singleton in Hin.
      injection Hin as -> -> ->. split; [|done]. split; try done; cbn; lia.
    + intros rg d x [Hin|Hin]%elem_of_app; [|apply list_elem_of_singleton in Hin; done].
      destruct (T4 rg d x Hin) as (Hxx & Nx & Hc). split; [done|]. split; [done|]. intros Hh.
      by eapply (placed_dead (t_cat (s_cur s))); [| |done|split|apply Hc].
  - eapply tables_ok_mono; [exact P3|reflexivity|exact Hcom].
  - intros rg d o [Hin|Hin]%elem_of_app Hr; [by apply (Hd' rg d o)|]. apply list_elem_of_singleton in Hin.
    injection Hin as -> -> ->. done.
  - split; cbn.
    + intros rg d Hin. destruct (L1 rg d Hin); [left|right]; apply elem_of_app; by left.
    + intros rg d x Hin. apply elem_of_app. left. by apply L2.
  - done.
Qed.

Lemma abort_inv_file s file' m m' xid' :
  fork_ok file' m' -> npg (reservedOffset m) <= npg (reservedOffset m') ->
  tables_ok (reservedOffset m) (s_horizon s) (s_xid s) (s_com s) -> xids_ok (s_horizon s) (s_xid s) ->
  data_ok file' (s_horizon s) (s_com s) -> s_xid s < xid' < s_horizon s + 2 ^ 31 -> normal_xid xid' ->
  inv (mkSys file' (s_com s) (s_com s) xid' (s_horizon s)).
Proof.
  intros Hf Hhw Hcom Hx Hd Hr Hn. exists m'. cbn. split; [done|].
  assert (tables_ok (reservedOffset m') (s_horizon s) xid' (s_com s)) by (eapply tables_ok_mono; [| |exact Hcom]; lia).
  do 2 (split; [done|]). split; [done|]. split; [apply linked_refl|]. destruct Hx as (_ & ? & ?). split; [done|]. split; [done|lia].
Qed.

Lemma flush_abort_inv s coalesce locked data file' fs' off xid' :
  inv s -> data <> [] -> fits (s_file s) (zlen data) ->
  flush_place coalesce locked (s_file s) (free_space (t_cat (s_cur s))) (u32 (s_horizon s)) data = Ok (file', fs', off) ->
  s_xid s < xid' < s_horizon s + 2 ^ 31 -> normal_xid xid' ->
  inv (mkSys file' (s_com s) (s_com s) xid' (s_horizon s)).
Proof.
  intros (m & Hf & Hcur & Hcom & Hd & Hl & Hx) Hne Hfit Hpl Hr Hn.
  destruct (flush_place_spec storages coalesce locked (s_file s) m (t_cat (s_cur s)) (u32 (s_horizon s)) data)
    as (file1 & fs1 & off1 & m' & Hpl1 & Hp & Hpc); [done|apply Hcur|done|by apply (fits_meta (s_file s)); [apply Hf|]|].
  rewrite Hpl in Hpl1. injection Hpl1 as <- <- <-.
  apply (abort_inv_file s file' m m'); try done; [apply Hp|apply Hp|].
  eapply linked_data; [exact Hx|exact Hl|]. by eapply placed_data.
Qed.

Lemma reserve_inv s len file' off :
  inv s -> 0 <= len -> fits (s_file s) len -> PgColumnarReserveOffset (s_file s) len = Ok (file', off) ->
  inv (mkSys file' (s_cur s) (s_com s) (s_xid s) (s_horizon s)).
Proof.
  intros (m & Hf & Hcur & Hcom & Hd & Hl & Hx) Hlen Hfit Hres. pose proof Hf as [F1 F2 F3 F4 F5].
  pose proof (fits_meta _ _ _ F1 Hfit) as Hfit'. pose proof bpp_bounds. pose proof file_limit_u64.
  pose proof (npg_bound (reservedOffset m)). unfold PgColumnarReserveOffset in Hres. rewrite F1, bind_Ok in Hres.
  rewrite (u64_small (reservedOffset m + bpp - 1)) in Hres by lia. fold (npg (reservedOffset m)) in Hres.
  cbv zeta in Hres. rewrite (u64_small (npg _ * bpp)), u64_small in Hres by lia. injection Hres as <- <-.
  set (m' := with_offset m (npg (reservedOffset m) * bpp + len)).
  assert (Hhw : npg (reservedOffset m) <= npg (reservedOffset m')).
  { cbn. rewrite npg_add. pose proof (npg_nonneg len Hlen). lia. }
  exists m'. cbn [s_file s_cur s_com s_xid s_horizon]. split.
  { split; try done; [by eapply set_metapage_read|by rewrite zlen_set_metapage|cbn; lia]. }
  do 2 (split; [by eapply tables_ok_mono; [exact Hhw|reflexivity|]|]). split; [|done]. intros rg d o Hin Hr.
  destruct (readable_pages _ _ _ _ _ _ _ Hcur Hx Hin Hr) as [Hlow _].
  destruct (to_entry _ _ _ _ Hcur rg d o Hin) as [[Ga _ _ _ _] _].
  apply set_metapage_keeps; [done|lia|]. by apply (Hd rg d o).
Qed.

(** Retiring a group number, whether or not there is such a group. *)
Lemma retire_any hw coalesce xid cat sid gno :
  cat_ok storages hw cat ->
  exists cat', PgColumnarRetireGroup coalesce xid cat sid gno = Ok cat' /\ cat_ok storages hw cat' /\
    row_group cat' = filter (fun rg => rg_key rg <> (sid, gno)) (row_group cat) /\
    (forall r, r ∈ free_space cat -> exists r', r' ∈ free_space cat' /\ fs_freed_xid r' = fs_freed_xid r /\ fs_pages r ⊆ fs_pages r') /\
    (forall rg, rg ∈ row_group cat -> rg_key rg = (sid, gno) ->
       exists r', r' ∈ free_space cat' /\ fs_freed_xid r' = xid /\ rg_pages rg ⊆ fs_pages r').
Proof.
  intros Hc. destruct (decide ((sid, gno) ∈ rg_key <$> row_group cat)) as [Hin|Hn].
  - apply list_elem_of_fmap in Hin as (rg & Ek & Hrg). injection Ek as -> ->.
    destruct (retire_spec storages hw coalesce xid cat rg Hc Hrg) as (cat' & Hr & Hc' & Erg & [F1 F2 F3 F4]).
    exists cat'. split; [done|]. split; [done|]. split; [done|]. split.
    + intros r Hr'. destruct (F3 r Hr') as (r' & ? & ? & _ & ?). eauto.
    + intros rg' Hrg' E. assert (rg' = rg) as ->; [|done].
      pose proof (key_filter _ _ (co_keys _ _ _ Hc) Hrg) as Hk. apply list_elem_of_singleton. rewrite <- Hk.
      by apply list_elem_of_filter.
  - destruct (retire_missing coalesce xid cat sid gno Hn) as (cat' & Hr & Erg & Efs). exists cat'. split; [done|].
    split; [|split; [|split]].
    + destruct Hc as [C1 C2 C3 C4 C5 C6]. unfold owned in *. split; unfold owned; rewrite ?Erg, ?Efs; done.
    + rewrite Erg, filter_all; [done|]. intros rg Hrg E. apply Hn. rewrite <- E. apply list_elem_of_fmap. eauto.
    + intros r Hr'. exists r. rewrite Efs. done.
    + intros rg Hrg E. exfalso. apply Hn. rewrite <- E. apply list_elem_of_fmap. eauto.
Qed.

Lemma live_retired key xid (kept : list entry) :
  omap live_entry (retire_entry key xid <$> kept) = filter (fun rg => rg_key rg <> key) (omap live_entry kept).
Proof.
  induction kept as [|[[rg d] [x|]] kept IH]; [done|exact IH|].
  change (omap live_entry (retire_entry key xid (rg, d, None) :: (retire_entry key xid <$> kept))
          = filter (fun rg => rg_key rg <> key) (rg :: omap live_entry kept)).
  rewrite filter_cons. cbn [retire_entry]. case_bool_decide; case_decide; try done. by rewrite <- IH.
Qed.

Lemma elem_of_retired key xid (kept : list entry) rg d o :
  (rg, d, o) ∈ retire_entry key xid <$> kept ->
  (rg, d, o) ∈ kept \/ (o = Some xid /\ (rg, d, None) ∈ kept /\ rg_key rg = key).
Proof.
  intros ([[rg' d'] [x|]] & E & Hin)%list_elem_of_fmap; cbn in E; [injection E as -> -> ->; by left|].
  case_bool_decide; injection E as -> -> ->; auto.
Qed.

Lemma retired_keeps key xid (kept : list entry) rg d o :
  (rg, d, o) ∈ kept -> (rg, d, o) ∈ retire_entry key xid <$> kept \/ (o = None /\ (rg, d, Some xid) ∈ retire_entry key xid <$> kept).
Proof.
  intros Hin. destruct (bool_decide (rg_key rg = key)) eqn:E, o as [x|].
  - left. apply list_elem_of_fmap. by exists (rg, d, Some x).
  - right. split; [done|]. apply list_elem_of_fmap. exists (rg, d, None). cbn. by rewrite E.
  - left. apply list_elem_of_fmap. by exists (rg, d, Some x).
  - left. apply list_elem_of_fmap. exists (rg, d, None). cbn. by rewrite E.
Qed.

Lemma retire_inv s coalesce sid gno cat' :
  inv s -> PgColumnarRetireGroup coalesce (u32 (s_xid s)) (t_cat (s_cur s)) sid gno = Ok cat' ->
  inv (mkSys (s_file s) (mkTables cat' (retire_entry (sid, gno) (s_xid s) <$> t_kept (s_cur s)))
         (s_com s) (s_xid s) (s_horizon s)).
Proof.
  intros (m & Hf & [T1 T2 T3 T4] & Hcom & Hd & [L1 L2] & Hx) Hret.
  destruct (retire_any _ coalesce (u32 (s_xid s)) _ sid gno T1) as (cat1 & Hret1 & Hc' & Erg & Hold & Hnew).
  rewrite Hret in Hret1. injection Hret1 as <-. pose proof Hx as (Nx & _ & Hxx).
  exists m. cbn [s_file s_cur s_com s_xid s_horizon]. split; [done|]. split; [|split; [done|split; [|split; [|done]]]].
  - split; cbn [t_cat t_kept].
    + done.
    + by rewrite Erg, live_retired, T2.
    + intros rg d o Hin. destruct (elem_of_retired _ _ _ _ _ _ Hin) as [Hi|(_ & Hi & _)]; by eapply T3.
    + intros rg d x Hin. destruct (elem_of_retired _ _ _ _ _ _ Hin) as [Hi|([= ->] & Hi & Ek)].
      * destruct (T4 rg d x Hi) as (? & ? & Hc). split; [done|]. split; [done|]. intros Hh.
        destruct (Hc Hh) as (r & Hr & Ex & Hs). destruct (Hold r Hr) as (r' & Hr' & Ex' & Hs'). exists r'.
        split; [done|]. split; [congruence|]. by transitivity (fs_pages r).
      * split; [lia|]. split; [done|]. intros _. apply Hnew; [|done]. rewrite T2. apply list_elem_of_omap. by exists (rg, d, None).
  - intros rg d o Hin Hr. cbn in Hin. destruct (elem_of_retired _ _ _ _ _ _ Hin) as [Hi|(_ & Hi & _)].
    + by apply (Hd rg d o).
    + by apply (Hd rg d None).
  - split; cbn.
    + intros rg d Hin. destruct (L1 rg d Hin) as [Hi|Hi];
        destruct (retired_keeps (sid, gno) (s_xid s) _ _ _ _ Hi) as [?|[? ?]]; auto; done.
    + intros rg d x Hin. destruct (retired_keeps (sid, gno) (s_xid s) _ _ _ _ (L2 rg d x Hin)) as [?|[? ?]]; done.
Qed.

Lemma horizon_inv s h' :
  inv s -> s_horizon s <= h' <= s_xid s -> normal_xid h' -> inv (mkSys (s_file s) (s_cur s) (s_com s) (s_xid s) h').
Proof.
  intros (m & Hf & Hcur & Hcom & Hd & Hl & Hx) Hh Hn. exists m. cbn.
  assert (Hmono : forall T, tables_ok (reservedOffset m) (s_horizon s) (s_xid s) T -> tables_ok (reservedOffset m) h' (s_xid s) T).
  { intros T [T1 T2 T3 T4]. split; try done. intros rg d x Hin. destruct (T4 rg d x Hin) as (? & ? & Hc).
    split; [done|]. split; [done|]. intros ?. apply Hc. lia. }
  split; [done|]. split; [by apply Hmono|]. split; [by apply Hmono|]. split.
  - intros rg d o Hin Hr. apply (Hd rg d o Hin). destruct o; cbn in *; lia.
  - split; [done|]. destruct Hx as (? & ? & ?). split; [done|]. split; [done|lia].
Qed.

(** ** Truncation in the system *)

Record plan_post (file : list page) (cat : Catalog) (h z : Z) : Prop := {
  pp_end : z = live_end (row_group cat) storages;
  pp_safe : forall sid, sid ∈ storages -> PgColumnarTrailingFreeSpaceSafe (free_space cat) sid z (u32 h) = true
}.

Lemma plan_spec file m cat h :
  fork_ok file m -> cat_ok storages (reservedOffset m) cat ->
  end_truncation_plan file cat storages (u32 h) = Ok (cat, None) \/
  exists z, end_truncation_plan file cat storages (u32 h)
              = Ok (cat, Some (with_free_space cat (purge_above (free_space cat) storages z), z)) /\ plan_post file cat h z.
Proof.
  intros [F1 F2 F3 F4 F5] Hc. unfold end_truncation_plan, PgColumnarReadMetapage. rewrite F1, bind_Ok, F2.
  cbn [Z.eqb Pos.eqb COLUMNAR_VERSION_MAJOR]. rewrite bind_Ok, purge_highwater_noop by done.
  rewrite with_free_space_id, (reconcile_noop storages (reservedOffset m)), bind_Ok by done.
  destruct (_ <=? _); [by left|]. destruct (forallb _ storages) eqn:Ef; [right|by left].
  eexists. split; [done|]. split; [done|]. intros sid Hs. rewrite forallb_forall in Ef. apply Ef. by apply list_elem_of_In.
Qed.

(** Readable data lies below the truncation point. *)
Lemma readable_below file m h xid T z rg d o :
  cat_ok storages (reservedOffset m) (t_cat T) -> tables_ok (reservedOffset m) h xid T -> xids_ok h xid ->
  plan_post file (t_cat T) h z -> (rg, d, o) ∈ t_kept T -> readable h o ->
  (forall k, k ∈ rg_pages rg -> k < z / bpp) /\
  (forall r, r ∈ free_space (t_cat T) ->
     TransactionIdIsNormal (fs_freed_xid r) && negb (TransactionIdPrecedes (fs_freed_xid r) (u32 h)) = true ->
     fs_file_offset r < z).
Proof.
  intros Hc HT Hx [Ez Hsafe] Hin Hr. pose proof (live_end_spec _ _ _ Hc) as [Za Zl Zh Zlive Zfree]. rewrite <- Ez in *.
  assert (Hbelow : forall r, r ∈ free_space (t_cat T) ->
     TransactionIdIsNormal (fs_freed_xid r) && negb (TransactionIdPrecedes (fs_freed_xid r) (u32 h)) = true ->
     fs_file_offset r < z).
  { intros r Hrin Hn. specialize (Hsafe _ (co_storage _ _ _ Hc r Hrin)). unfold PgColumnarTrailingFreeSpaceSafe in Hsafe.
    rewrite forallb_forall in Hsafe. specialize (Hsafe r). rewrite Hn in Hsafe. cbn [negb orb] in Hsafe.
    rewrite orb_false_r in Hsafe. apply Z.ltb_lt, Hsafe, list_elem_of_In, list_elem_of_filter. done. }
  split; [|done]. intros k Hk. destruct (readable_pages _ _ _ _ _ _ _ HT Hx Hin Hr) as [_ [Hs|(r & Hrin & Hs & Hn)]].
  - apply Hs, list_elem_of_bind in Hk as (rg' & Hk & Hrg). by apply (Zlive rg').
  - apply (Zfree r); auto.
Qed.

Lemma truncate_file_data file m h xid T z :
  fork_ok file m -> tables_ok (reservedOffset m) h xid T -> xids_ok h xid -> plan_post file (t_cat T) h z ->
  data_ok file h T ->
  fork_ok (PgColumnarTruncateMainFork file (u32 (z / bpp))) m /\
  data_ok (PgColumnarTruncateMainFork file (u32 (z / bpp))) h T.
Proof.
  intros Hf HT Hx Hplan Hd. pose proof Hf as [F1 F2 F3 F4 F5]. pose proof bpp_bounds. pose proof (to_cat _ _ _ _ HT) as Hc.
  pose proof (live_end_spec _ _ _ Hc) as [Za Zl Zh _ _]. rewrite <- (pp_end _ _ _ _ Hplan) in *.
  assert (Hz : 2 <= z / bpp) by (apply Z.div_le_lower_bound; lia).
  unfold file_limit in Zh. rewrite block_small by lia. unfold PgColumnarTruncateMainFork.
  destruct (_ <=? _); [done|]. split.
  - split; try done.
    + unfold metapage in *. rewrite lookup_take_lt by lia. done.
    + unfold zlen in *. rewrite length_take. lia.
  - intros rg d o Hin Hr. destruct (to_entry _ _ _ _ HT rg d o Hin) as [[Ga G0 _ _ _] El].
    apply take_keeps; [done|done|by apply (Hd rg d o)|]. rewrite El.
    by apply (readable_below file m h xid T z rg d o).
Qed.

Lemma truncate_crash_inv s cat' cat'' z :
  inv s -> s_cur s = s_com s ->
  end_truncation_plan (s_file s) (t_cat (s_cur s)) storages (u32 (s_horizon s)) = Ok (cat', Some (cat'', z)) ->
  inv (mkSys (PgColumnarTruncateMainFork (s_file s) (u32 (z / bpp))) (s_com s) (s_com s) (s_xid s) (s_horizon s)).
Proof.
  intros (m & Hf & Hcur & Hcom & Hd & Hl & Hx) Heq Hplan.
  destruct (plan_spec _ _ _ (s_horizon s) Hf (to_cat _ _ _ _ Hcur)) as [E|(z' & E & Hpp)]; rewrite E in Hplan; [done|].
  injection Hplan as <- <- <-. destruct (truncate_file_data _ _ _ _ _ _ Hf Hcur Hx Hpp Hd) as [Hf' Hd'].
  exists m. cbn. rewrite <- Heq. do 4 (split; [done|]). split; [apply linked_refl|done].
Qed.

Lemma truncate_inv s file' cat' n :
  inv s -> s_cur s = s_com s ->
  pgcolumnar_do_end_truncation (s_file s) (t_cat (s_cur s)) storages (u32 (s_horizon s)) = Ok (file', cat', n) ->
  inv (mkSys file' (mkTables cat' (t_kept (s_cur s))) (mkTables cat' (t_kept (s_cur s))) (s_xid s) (s_horizon s)).
Proof.
  intros (m & Hf & Hcur & Hcom & Hd & Hl & Hx) Heq Htr. unfold pgcolumnar_do_end_truncation in Htr.
  pose proof (to_cat _ _ _ _ Hcur) as Hc.
  destruct (plan_spec _ _ _ (s_horizon s) Hf Hc) as [E|(z & E & Hpp)]; rewrite E, bind_Ok in Htr.
  { injection Htr as <- <- <-. exists m. cbn. destruct (s_cur s) as [c k]. do 4 (split; [done|]).
    split; [apply linked_refl|done]. }
  destruct (truncate_file_data _ _ _ _ _ _ Hf Hcur Hx Hpp Hd) as [Hf' Hd'].
  set (file1 := PgColumnarTruncateMainFork (s_file s) (u32 (z / bpp))) in *.
  unfold PgColumnarSetReservedOffset in Htr. rewrite (fo_meta _ _ Hf'), !bind_Ok in Htr. injection Htr as <- <- <-.
  pose proof (live_end_spec _ _ _ Hc) as [Za Zl Zh _ _]. rewrite <- (pp_end _ _ _ _ Hpp) in *. pose proof bpp_bounds.
  exists (with_offset m z). cbn [s_file s_cur s_com s_xid s_horizon].
  assert (HT : tables_ok (reservedOffset (with_offset m z)) (s_horizon s) (s_xid s)
     (mkTables (with_free_space (t_cat (s_cur s)) (purge_above (free_space (t_cat (s_cur s))) storages z)) (t_kept (s_cur s)))).
  { pose proof Hcur as [T1 T2 T3 T4]. split; cbn [t_cat t_kept]; [|done|done|].
    - cbn. eapply truncated_cat_ok; [exact Hc|apply Hpp].
    - intros rg d x Hin. destruct (T4 rg d x Hin) as (Hxx & Nx & Hcov). split; [done|]. split; [done|]. intros Hh.
      destruct (Hcov Hh) as (r & Hr & Ex & Hs). exists r. split; [|done]. cbn. apply (purge_elem _ _ _ _ _ Hc). split; [done|].
      eapply (readable_below _ _ _ _ _ _ rg d (Some x) Hc Hcur Hx Hpp Hin Hh); [done|]. rewrite Ex. by eapply not_precedes. }
  split; [|split; [done|split; [done|split; [|split; [apply linked_refl|done]]]]].
  - pose proof Hf' as [F1 F2 F3 F4 F5]. split; try done; [by eapply set_metapage_read|by rewrite zlen_set_metapage].
  - intros rg d o Hin Hr. cbn in Hin. destruct (readable_pages _ _ _ _ _ _ _ Hcur Hx Hin Hr) as [Hlow _].
    destruct (to_entry _ _ _ _ Hcur rg d o Hin) as [[Ga _ _ _ _] _].
    apply set_metapage_keeps; [done|lia|]. by apply (Hd' rg d o).
Qed.

(** ** Reachable states *)

Lemma initial_inv base xid : normal_xid xid -> inv (initial base xid).
Proof.
  intros Hn. pose proof bpp_bounds. unfold initial, inv. cbn [s_file s_cur s_com s_xid s_horizon].
  set (m := mkMeta COLUMNAR_VERSION_MAJOR COLUMNAR_VERSION_MINOR base 1 COLUMNAR_FIRST_ROW_NUMBER COLUMNAR_FIRST_LOGICAL_OFFSET false).
  exists m. assert (HT : tables_ok (reservedOffset m) xid xid (mkTables empty_catalog [])).
  { split; cbn; try done; try (intros ? ? ? Hin; by apply elem_of_nil in Hin).
    split; [constructor..| |apply NoDup_nil_2|]; intros ? Hin; by apply elem_of_nil in Hin. }
  split.
  { split; [done..| |]; cbn [reservedOffset m]; unfold COLUMNAR_FIRST_LOGICAL_OFFSET, file_limit; lia. }
  do 2 (split; [done|]). split; [intros ? ? ? Hin; by apply elem_of_nil in Hin|]. split; [apply linked_refl|].
  split; [done|]. split; [done|lia].
Qed.

Lemma step_inv s s' : inv s -> step s s' -> inv s'.
Proof.
  intros Hi Hs. destruct Hs as [| | | | | | | | |].
  - by eapply flush_inv.
  - by eapply flush_abort_inv.
  - by eapply reserve_inv.
  - by eapply retire_inv.
  - destruct Hi as (m & Hf & Hcur & Hrest). rewrite (reconcile_noop _ _ _ (to_cat _ _ _ _ Hcur)) in H1. injection H1 as <-.
    exists m. cbn. destruct (s_cur s). done.
  - destruct Hi as (m & Hf & Hcur & Hcom & Hd & Hl & Hx). exists m. cbn. split; [done|].
    assert (tables_ok (reservedOffset m) (s_horizon s) xid' (s_cur s)) by (eapply tables_ok_mono; [| |exact Hcur]; lia).
    do 3 (split; [done|]). split; [apply linked_refl|]. destruct Hx as (_ & ? & ?). split; [done|]. split; [done|lia].
  - destruct Hi as (m & Hf & Hcur & Hcom & Hd & Hl & Hx). apply (abort_inv_file s (s_file s) m m); try done.
    by eapply linked_data.
  - by eapply horizon_inv.
  - by eapply truncate_inv.
  - by eapply truncate_crash_inv.
Qed.

Lemma reachable_inv base xid s : normal_xid xid -> reachable base xid s -> inv s.
Proof.
  intros Hn Hr. pose proof (initial_inv base xid Hn) as Hi. unfold reachable in Hr.
  induction Hr as [|s1 s2 s3 Hstep _ IH]; [done|]. apply IH. by eapply step_inv.
Qed.

(** C11.  Space reclaim never loses data.  In every state reachable by flushing
    row groups (appending, or reusing freed ranges), reserving, retiring with and
    without coalescing, reconciling, committing, rolling back, advancing the
    horizon and truncating the file (also when truncation fails after the file
    was shortened): the catalog lists exactly the groups that were written and
    not retired, the no-overlap check passes, and every group a snapshot may
    still read, live or retired at or after the horizon, in the running
    transaction's catalog and in the committed one, reads back from the file as
    the bytes it was written with. *)
Theorem reclaim_safe base xid s :
  normal_xid xid -> reachable base xid s ->
  forall T, T = s_cur s \/ T = s_com s ->
    row_group (t_cat T) = omap live_entry (t_kept T) /\
    (forall sid, PgColumnarCheckFreeSpaceNoOverlap (t_cat T) sid = Ok tt) /\
    (forall rg data retired stream, (rg, data, retired) ∈ t_kept T -> readable (s_horizon s) retired ->
       PgColumnarReadLogicalData stream (s_file s) (rg_fileOffset rg) (rg_byteLength rg) = Ok data).
Proof.
  intros Hn Hr T HTor. destruct (reachable_inv _ _ _ Hn Hr) as (m & Hf & Hcur & Hcom & Hd & Hl & Hx).
  assert (HT : tables_ok (reservedOffset m) (s_horizon s) (s_xid s) T) by (by destruct HTor as [->| ->]).
  assert (HdT : data_ok (s_file s) (s_horizon s) T) by (destruct HTor as [->| ->]; [done|by eapply linked_data]).
  split; [apply HT|]. split; [intros sid; by eapply check_no_overlap, HT|].
  intros rg data o stream Hin Hre. destruct (to_entry _ _ _ _ HT rg data o Hin) as [[Ga G0 Gl Gh _] El].
  rewrite <- El. apply ReadLogicalData_holds; [done| |by apply (HdT rg data o)].
  pose proof (npg_bound (rg_byteLength rg)). unfold file_limit in Gh. rewrite El. lia.
Qed.

(** C39.  Nothing gets stuck: in every reachable state a flush of a new group
    that fits the file returns, retiring any group number returns, truncation
    returns, and reconciliation returns the catalog as it was: no free range is
    stale, and no free row collides with the key of another. *)
Theorem reclaim_progress base xid s :
  normal_xid xid -> reachable base xid s ->
  (forall coalesce locked sid gno rowCount firstRow data,
     sid ∈ storages -> data <> [] -> fits (s_file s) (zlen data) -> (sid, gno) ∉ rg_key <$> row_group (t_cat (s_cur s)) ->
     exists r, flush_row_group_rows coalesce locked (s_file s) (t_cat (s_cur s)) (u32 (s_horizon s)) sid gno rowCount firstRow data = Ok r) /\
  (forall coalesce sid gno, exists cat', PgColumnarRetireGroup coalesce (u32 (s_xid s)) (t_cat (s_cur s)) sid gno = Ok cat') /\
  PgColumnarReconcileFreeList (t_cat (s_cur s)) storages = Ok (t_cat (s_cur s)) /\
  exists r, pgcolumnar_do_end_truncation (s_file s) (t_cat (s_cur s)) storages (u32 (s_horizon s)) = Ok r.
Proof.
  intros Hn Hr. destruct (reachable_inv _ _ _ Hn Hr) as (m & Hf & Hcur & _ & _ & _ & Hx).
  pose proof (to_cat _ _ _ _ Hcur) as Hc. split; [|split; [|split]].
  - intros coalesce locked sid gno rowCount firstRow data Hsid Hne Hfit Hk.
    destruct (flush_place_spec storages coalesce locked (s_file s) m (t_cat (s_cur s)) (u32 (s_horizon s)) data)
      as (file1 & fs' & off & m' & Hpl & _ & _); [done|done|done|by apply (fits_meta (s_file s)); [apply Hf|]|].
    unfold flush_row_group_rows. rewrite Hpl, bind_Ok. unfold PgColumnarInsertRowGroupRow. rewrite bool_decide_false by done.
    rewrite bind_Ok. eauto.
  - intros coalesce sid gno. destruct (retire_any _ coalesce (u32 (s_xid s)) _ sid gno Hc) as (cat' & ? & _). eauto.
  - by eapply reconcile_noop.
  - unfold pgcolumnar_do_end_truncation. destruct (plan_spec _ _ _ (s_horizon s) Hf Hc) as [->|(z & -> & Hpp)]; rewrite bind_Ok; [eauto|].
    unfold PgColumnarSetReservedOffset, PgColumnarTruncateMainFork. pose proof (live_end_spec _ _ _ Hc) as [_ Zl Zh _ _].
    rewrite <- (pp_end _ _ _ _ Hpp) in *. pose proof bpp_bounds. unfold file_limit in Zh. rewrite block_small by lia.
    assert (2 <= z / bpp) by (apply Z.div_le_lower_bound; lia).
    assert (Hm : metapage (if zlen (s_file s) <=? z / bpp then s_file s else take (Z.to_nat (z / bpp)) (s_file s)) = Ok m).
    { pose proof (fo_meta _ _ Hf) as Hm. destruct (_ <=? _); [done|]. unfold metapage in *. rewrite lookup_take_lt by lia. done. }
    rewrite Hm, !bind_Ok. eauto.
Qed.
End System.

(** ** Runs on pages of four bytes of data *)

Definition tiny_pages : PageLayout := {| BLCKSZ := 28; SizeOfPageHeaderData := 24; MaxHeapTuplesPerPage := 291 |}.

Definition tiny_pages_laws : @PageLayoutLaws tiny_pages.
Proof. by split. Defined.

Section Runs.
#[local] Existing Instance tiny_pages.
#[local] Existing Instance tiny_pages_laws.

Definition after_flush (s : sys) (locked : bool) (gno : Z) (data : list Z) : sys :=
  match flush_row_group_rows true locked (s_file s) (t_cat (s_cur s)) (u32 (s_horizon s)) 7 gno 5 (10 * gno) data with
  | Ok (file', cat', rg) =>
      mkSys file' (mkTables cat' (t_kept (s_cur s) ++ [(rg, data, None)])) (s_com s) (s_xid s) (s_horizon s)
  | _ => s
  end.

Definition after_retire (s : sys) (gno : Z) : sys :=
  match PgColumnarRetireGroup true (u32 (s_xid s)) (t_cat (s_cur s)) 7 gno with
  | Ok cat' => mkSys (s_file s) (mkTables cat' (retire_entry (7, gno) (s_xid s) <$> t_kept (s_cur s)))
                 (s_com s) (s_xid s) (s_horizon s)
  | _ => s
  end.

Definition after_commit (s : sys) : sys := mkSys (s_file s) (s_cur s) (s_cur s) (s_xid s + 1) (s_horizon s).

(** A group of one page and one of two are written; the second is retired, and
    the horizon passes; its first page is reused. *)
Definition run1 : sys := Eval vm_compute in after_flush (initial 7 100) false 1 [1; 1; 1; 1].
Definition run2 : sys := Eval vm_compute in after_flush run1 false 2 [2; 2; 2; 2; 2; 2; 2; 2].
Definition run3 : sys := Eval vm_compute in after_commit run2.
Definition run4 : sys := Eval vm_compute in after_retire run3 2.
Definition run5 : sys := Eval vm_compute in after_commit run4.
Definition run6 : sys := Eval vm_compute in mkSys (s_file run5) (s_cur run5) (s_com run5) (s_xid run5) 102.
Definition run7 : sys := Eval vm_compute in after_flush run6 true 3 [3; 3; 3].

Definition is_ok {A} (r : res A) : bool := match r with Ok _ => true | _ => false end.

Lemma step_after_flush s s' locked gno data :
  data <> [] -> fits (s_file s) (zlen data) ->
  is_ok (flush_row_group_rows true locked (s_file s) (t_cat (s_cur s)) (u32 (s_horizon s)) 7 gno 5 (10 * gno) data) = true ->
  s' = after_flush s locked gno data -> step [7] s s'.
Proof.
  intros Hne Hfit Hok ->. unfold after_flush. destruct (flush_row_group_rows _ _ _ _ _ _ _ _ _ _) as [[[f c] rg]| | |] eqn:E; try done.
  eapply step_flush; [left|done|done|exact E].
Qed.

Lemma step_after_retire s s' gno :
  is_ok (PgColumnarRetireGroup true (u32 (s_xid s)) (t_cat (s_cur s)) 7 gno) = true ->
  s' = after_retire s gno -> step [7] s s'.
Proof.
  intros Hok ->. unfold after_retire. destruct (PgColumnarRetireGroup _ _ _ _ _) as [c| | |] eqn:E; try done.
  by eapply step_retire.
Qed.

Lemma run6_reachable : reachable [7] 7 100 run6.
Proof.
  apply (rtc_l _ _ run1).
  { apply (step_after_flush _ _ false 1 [1; 1; 1; 1]); [discriminate|vm_compute; discriminate|vm_compute; reflexivity..]. }
  apply (rtc_l _ _ run2).
  { apply (step_after_flush _ _ false 2 [2; 2; 2; 2; 2; 2; 2; 2]); [discriminate|vm_compute; discriminate|vm_compute; reflexivity..]. }
  apply (rtc_l _ _ run3). { apply (step_commit _ run2 101); [split; reflexivity|reflexivity]. }
  apply (rtc_l _ _ run4). { apply (step_after_retire _ _ 2); vm_compute; reflexivity. }
  apply (rtc_l _ _ run5). { apply (step_commit _ run4 102); [split; reflexivity|reflexivity]. }
  apply (rtc_l _ _ run6). { apply (step_horizon _ run5 102); [split; vm_compute; discriminate|reflexivity]. }
  apply rtc_refl.
Qed.

Lemma run7_reachable : reachable [7] 7 100 run7.
Proof.
  eapply rtc_r; [apply run6_reachable|].
  apply (step_after_flush _ _ true 3 [3; 3; 3]); [discriminate|vm_compute; discriminate|vm_compute; reflexivity..].
Qed.

Lemma reclaim_safe_witness :
  row_group (t_cat (s_cur run7)) = [mkRowGroup 7 1 8 5 4 10; mkRowGroup 7 3 12 5 3 30] /\
  free_space (t_cat (s_cur run7)) = [mkFree 7 16 4 101] /\
  PgColumnarCheckFreeSpaceNoOverlap (t_cat (s_cur run7)) 7 = Ok tt.
Proof.
  split; [reflexivity|]. split; [reflexivity|].
  destruct (reclaim_safe [7] 7 100 run7 eq_refl run7_reachable (s_cur run7) (or_introl eq_refl)) as (_ & Hchk & _).
  apply Hchk.
Defined.

Lemma reclaim_progress_witness :
  PgColumnarReconcileFreeList (t_cat (s_cur run7)) [7] = Ok (t_cat (s_cur run7)).
Proof.
  destruct (reclaim_progress [7] 7 100 run7 eq_refl run7_reachable) as (_ & _ & Hrec & _). exact Hrec.
Defined.

(** The file as end truncation leaves it when it fails after lowering the
    reserved offset; the catalog rolls back. *)
Definition late_truncation_crash (file : list page) (cat : Catalog) (storages : list Z) (oldestXmin : Z) : res (list page) :=
  ' (file', _, _) ← pgcolumnar_do_end_truncation file cat storages oldestXmin; Ok file'.

Definition crashed : list page := Eval vm_compute in
  match late_truncation_crash (s_file run6) (t_cat (s_com run6)) [7] (u32 (s_horizon run6)) with Ok f => f | _ => [] end.

(** C40.  The window end truncation leaves open: from a reachable state, a
    failure after [PgColumnarSetReservedOffset] and before commit leaves a free
    row above the reserved offset.  Reconciliation keeps it, since no live group
    overlaps it yet; a rewrite then places a group there without moving the
    reserved offset, and the next append is placed on the same pages, so that the
    first group reads as the second. *)
Theorem late_truncation_crash_overlap :
  exists s file1 cat1 file2 cat2 rgA file3 cat3 rgB,
    let dataA := [5; 5; 5; 5] in let dataB := [6; 6; 6; 6] in
    reachable [7] 7 100 s /\ s_cur s = s_com s /\
    late_truncation_crash (s_file s) (t_cat (s_com s)) [7] (u32 (s_horizon s)) = Ok file1 /\
    PgColumnarReconcileFreeList (t_cat (s_com s)) [7] = Ok cat1 /\
    flush_row_group_rows true true file1 cat1 (u32 (s_horizon s)) 7 3 5 31 dataA = Ok (file2, cat2, rgA) /\
    flush_row_group_rows true false file2 cat2 (u32 (s_horizon s)) 7 4 5 41 dataB = Ok (file3, cat3, rgB) /\
    rgA ∈ row_group cat3 /\ rgB ∈ row_group cat3 /\ rg_fileOffset rgA = rg_fileOffset rgB /\
    PgColumnarReadLogicalData true file3 (rg_fileOffset rgA) (rg_byteLength rgA) = Ok dataB.
Proof.
  exists run6, crashed. do 7 eexists. cbv zeta. split; [apply run6_reachable|]. split; [reflexivity|].
  split; [vm_compute; reflexivity|]. split; [vm_compute; reflexivity|]. split; [vm_compute; reflexivity|].
  split; [vm_compute; reflexivity|]. split; [right; left|]. split; [right; right; left|]. split; reflexivity.
Qed.
End Runs.
