(* ===== verification/RowGroup.v ===== *)
(** * The writer: buffering rows and flushing row groups

    [PgColumnarWriteRow] and [flush_row_group] of [columnar_write_state.c]: a row
    is appended to the buffers of the current chunk group, a stripe is written
    out as one row group when it reaches its row limit or at a flush, with its
    column chunks in the file and its [row_group], [column_chunk], [zone_map] and
    [bloom] rows in the catalog.

    The columns are flushed in order in this backend.  The sketch registers, the
    buffered-fetch offsets, the projections' own write states, the column
    extents and the cached-plan invalidation do not touch the row group and are
    not part of the model. *)

From stdpp Require Import sorting.
From S2P Require Import Prelude BitStream Codec Varlena Compress Bloom Chunk Flush NativeRead Value ZoneMap Catalog GroupSkip Storage FreeSpace.

(** ** State *)

(** A column of the tuple descriptor with its definition. *)
Record write_column := mkWriteColumn {
  wc_att : Form_pg_attribute; wc_generated : bool; wc_def : PgColumnarColumnDef
}.

(** What a write state keeps for its life. *)
Record writer := mkWriter {
  w_columns : list write_column;
  w_storageId : Z;
  w_stripeRowLimit : Z; w_chunkGroupRowLimit : Z;
  w_encodeEffort : Z; w_compressionType : Z; w_compressionLevel : Z
}.

Record ChunkGroup := mkChunkGroup { cg_rowCount : Z; cg_columns : list ColumnStats }.

(** [currentGroup] is the last of [chunkGroups], NULL when there is none. *)
Record write_state := mkWriteState {
  ws_verdicts : list verdict;
  ws_chunkGroups : list ChunkGroup;
  ws_stripeRowCount : Z;
  ws_haveReservation : bool;
  ws_stripeId : Z;
  ws_stripeFirstRowNumber : Z;
  ws_reservedStripeIds : list Z
}.

(** The relation's file and the catalog tables of its row groups. *)
Record database := mkDb {
  db_rel : list page;
  db_row_group : list FreeSpace.NativeRowGroupMetadata;
  db_free_space : list FreeSpaceRow;
  db_tables : GroupTables
}.

Section Writer.
Context `{PageLayout} `{PgBitutils} `{VarattExternal} `{BlockCodecs} `{TupMacs} `{HyperLogLog}.
Context (cfg : settings) (w : writer).

(** Whether the backend holds the lock under which freed space may be reused, the
    setting that coalesces it, and the horizon it is checked against. *)
Context (locked reclaim_coalesce : bool) (oldestXmin : Z).

Definition reset_stripe (ws : write_state) : write_state :=
  mkWriteState (ws_verdicts ws) [] 0 false (ws_stripeId ws) (ws_stripeFirstRowNumber ws) (ws_reservedStripeIds ws).

Definition pgcolumnar_start_chunk_group (groups : list ChunkGroup) : list ChunkGroup :=
  groups ++ [mkChunkGroup 0 (replicate (length (w_columns w)) stats_init)].

(** ** Flushing *)

(** One column's share of a flush. *)
Record flushed := mkFlushedCol {
  fl_result : FlushColumnResult;
  fl_zones : list NativeZoneMapMetadata; fl_zone : NativeZoneMapMetadata;
  fl_bloom : option (list Z)
}.

(** The buffers of column [c], chunk group by chunk group. *)
Definition column_buffers (groups : list ChunkGroup) (c : nat) : res (list (Z * ColumnStats)) :=
  mapM (fun g => match cg_columns g !! c with Some col => Ok (cg_rowCount g, col) | None => Oob end) groups.

Definition flush_column (groups : list ChunkGroup) (rowCount validityBytes : Z) (c : nat) (wc : write_column)
    (def : verdict) : res (option flushed * verdict) :=
  bufs ← column_buffers groups c;
  ' (r, def) ← flush_one_column cfg (wc_att wc) (wc_generated wc)
                 ((fun b => mkGroup b.1 (streams_of b.2)) <$> bufs) def rowCount validityBytes
                 (w_encodeEffort w) (w_compressionType w) (w_compressionLevel w);
  match r with
  | None => Ok (None, def)
  | Some r =>
      ' (zones, zone) ← flush_zone_rows (wc_def wc) (wc_att wc) rowCount bufs;
      bl ← flush_bloom_row (wc_def wc) bufs.*2;
      Ok (Some (mkFlushedCol r zones zone bl), def)
  end.

(** [for (c = 0; c < natts; c++)] *)
Fixpoint flush_columns (groups : list ChunkGroup) (rowCount validityBytes : Z) (c : nat)
    (wcs : list write_column) (defs : list verdict) : res (list (option flushed) * list verdict) :=
  match wcs, defs with
  | [], _ => Ok ([], defs)
  | wc :: wcs, def :: defs =>
      ' (f, def) ← flush_column groups rowCount validityBytes c wc def;
      ' (fs, defs) ← flush_columns groups rowCount validityBytes (S c) wcs defs;
      Ok (f :: fs, def :: defs)
  | _, _ => Oob
  end.

Definition chunk_bytes (f : option flushed) : list Z := match f with Some f => fchunk (fl_result f) | None => [] end.

(** The loops over the columns that fill the catalog tables; [off] is the chunk's
    offset in the group. *)
Fixpoint insert_chunks (rows : list ColumnChunkRow) (gn rowCount fileOffset : Z) (c : nat) (off : Z)
    (fs : list (option flushed)) : res (list ColumnChunkRow) :=
  match fs with
  | [] => Ok rows
  | f :: fs =>
      rows ← match f with
             | None => Ok rows
             | Some f =>
                 let r := fl_result f in
                 PgColumnarInsertColumnChunkRow rows (w_storageId w) gn (Z.of_nat c) rowCount
                   (mkChunk (u64 (fileOffset + off)) (zlen (fchunk r)) (fdescriptor r) (fblockCodec r))
             end;
      insert_chunks rows gn rowCount fileOffset (S c) (off + zlen (chunk_bytes f)) fs
  end.

(** The zone maps of one column: its vectors', then the chunk's at index -1. *)
Definition zone_list (f : flushed) : list (Z * NativeZoneMapMetadata) :=
  imap (fun v z => (Z.of_nat v, z)) (fl_zones f) ++ [(-1, fl_zone f)].

Fixpoint insert_zone_list (rows : list ZoneMapTuple) (gn : Z) (c : nat) (zs : list (Z * NativeZoneMapMetadata))
    : res (list ZoneMapTuple) :=
  match zs with
  | [] => Ok rows
  | (v, z) :: zs =>
      rows ← PgColumnarInsertZoneMapRow rows (w_storageId w) gn (Z.of_nat c) v z;
      insert_zone_list rows gn c zs
  end.

Fixpoint insert_zones (rows : list ZoneMapTuple) (gn : Z) (c : nat) (fs : list (option flushed))
    : res (list ZoneMapTuple) :=
  match fs with
  | [] => Ok rows
  | f :: fs =>
      rows ← insert_zone_list rows gn c (match f with Some f => zone_list f | None => [] end);
      insert_zones rows gn (S c) fs
  end.

Fixpoint insert_blooms (rows : list BloomRow) (gn : Z) (c : nat) (fs : list (option flushed)) : res (list BloomRow) :=
  match fs with
  | [] => Ok rows
  | f :: fs =>
      rows ← match f ≫= fl_bloom with
             | Some b => PgColumnarInsertBloomRow rows (w_storageId w) gn (Z.of_nat c) b
             | None => Ok rows
             end;
      insert_blooms rows gn (S c) fs
  end.

Definition flush_row_group (keep : bool) (ws : write_state) (db : database)
    : res (write_state * database) :=
  let rowCount := ws_stripeRowCount ws in
  let gn := ws_stripeId ws in
  let validityBytes := s32 (u64 (rowCount + 7) / 8) in
  if rowCount =? 0 then Ok (ws, db)
  else
    ' (fs, verdicts) ← flush_columns (ws_chunkGroups ws) rowCount validityBytes 0 (w_columns w) (ws_verdicts ws);
    let data := concat (chunk_bytes <$> fs) in
    ' (rel, free, fileOffset) ← flush_place reclaim_coalesce locked (db_rel db) (db_free_space db) oldestXmin data;
    rgs ← PgColumnarInsertRowGroupRow (db_row_group db)
            (FreeSpace.mkRowGroup (w_storageId w) gn fileOffset rowCount (zlen data) (ws_stripeFirstRowNumber ws));
    let t := db_tables db in
    chunks ← insert_chunks (t_column_chunk t) gn rowCount fileOffset 0 0 fs;
    zones ← insert_zones (t_zone_map t) gn 0 fs;
    blooms ← insert_blooms (t_bloom t) gn 0 fs;
    let ws := mkWriteState verdicts (ws_chunkGroups ws) (ws_stripeRowCount ws) (ws_haveReservation ws)
                (ws_stripeId ws) (ws_stripeFirstRowNumber ws) (ws_reservedStripeIds ws) in
    Ok (if keep then ws else reset_stripe ws,
        mkDb rel rgs free (mkTables chunks zones blooms (t_delete_vector t))).

(** ** Writing a row *)

Fixpoint write_columns (wcs : list write_column) (bufs : list ColumnStats) (values : list (option Datum))
    : res (list ColumnStats) :=
  match wcs, bufs, values with
  | [], _, _ => Ok bufs
  | wc :: wcs, col :: bufs, v :: values =>
      col ← write_value (wc_def wc) (wc_att wc) col v;
      bufs ← write_columns wcs bufs values;
      Ok (col :: bufs)
  | _, _, _ => Oob
  end.

(** The stripe's id and row numbers, reserved with its first row. *)
Definition reserve_stripe (ws : write_state) (rel : list page) : res (write_state * list page) :=
  if ws_haveReservation ws then Ok (ws, rel)
  else
    ' (rel, (stripeId, firstRow)) ← PgColumnarReserveRowNumbers rel (w_stripeRowLimit w);
    Ok (mkWriteState (ws_verdicts ws) (ws_chunkGroups ws) (ws_stripeRowCount ws) true stripeId firstRow
          (ws_reservedStripeIds ws ++ [stripeId]), rel).

(** The chunk groups with one that has room at the end. *)
Definition open_group (groups : list ChunkGroup) : list ChunkGroup :=
  match list.last groups with
  | Some g => if w_chunkGroupRowLimit w <=? cg_rowCount g then pgcolumnar_start_chunk_group groups else groups
  | None => pgcolumnar_start_chunk_group groups
  end.

Definition append_row (groups : list ChunkGroup) (values : list (option Datum)) : res (list ChunkGroup) :=
  match list.last groups with
  | None => Oob
  | Some g =>
      cols ← write_columns (w_columns w) (cg_columns g) values;
      Ok (removelast groups ++ [mkChunkGroup (u64 (cg_rowCount g + 1)) cols])
  end.

Definition PgColumnarWriteRow (ws : write_state) (db : database) (values : list (option Datum))
    : res (Z * write_state * database) :=
  ' (ws, rel) ← reserve_stripe ws (db_rel db);
  let db := mkDb rel (db_row_group db) (db_free_space db) (db_tables db) in
  let rowNumber := u64 (ws_stripeFirstRowNumber ws + ws_stripeRowCount ws) in
  groups ← append_row (open_group (ws_chunkGroups ws)) values;
  let ws := mkWriteState (ws_verdicts ws) groups (u64 (ws_stripeRowCount ws + 1)) (ws_haveReservation ws)
              (ws_stripeId ws) (ws_stripeFirstRowNumber ws) (ws_reservedStripeIds ws) in
  if w_stripeRowLimit w <=? ws_stripeRowCount ws
  then ' (ws, db) ← flush_row_group false ws db; Ok (rowNumber, ws, db)
  else Ok (rowNumber, ws, db).
End Writer.
