(* ===== verification/Scan.v ===== *)
(** * The sequential scan

    The row producer of [columnar_reader.c]: claiming row groups
    ([pgcolumnar_next_group_index], the restriction set, the zone-map and bloom
    test), loading a group ([pgcolumnar_native_load_group]: the delete mask, the
    bytes of the projected columns, the per-vector skip flags from zone maps,
    the two decode passes with exact selection or the executor's qual between
    them) and producing its rows ([pgcolumnar_native_next_row], with late
    materialization and vectors stepped over).

    The read state's pointers into decoded buffers are cursors: a buffer, a
    position and an end.  A null pointer is [None].  The executor's qual is a
    pure function of the slot.  Memory contexts appear only as the limit on one
    allocation. *)

From stdpp Require Import sorting.
From S2P Require Import Prelude BitPack Codec Varlena BitSet Compress Encdesc Flush NativeRead.
From S2P Require Import Value ZoneMap Catalog GroupSkip Storage FreeSpace.

(** ** Delete masks *)

(** The mask is the bytes, or NULL. *)
Definition dv_row_deleted (mask : option (list Z)) (row : Z) : bool :=
  match mask with
  | None => false
  | Some m =>
      (Z.shiftr row 3 <? zlen m)
      && negb (Z.land (nthZ m (Z.shiftr row 3)) (Z.shiftl 1 (Z.land row 7)) =? 0)
  end.

(** [outMask[i] |= bitmap[i]] over the bytes both have. *)
Fixpoint or_bytes (mask bitmap : list Z) : list Z :=
  match mask, bitmap with
  | m :: mask, b :: bitmap => Z.lor m b :: or_bytes mask bitmap
  | _, _ => mask
  end.

Definition merge_mask_step (want : Z) (out : option (list Z)) (rm : DeleteVectorRow) : option (list Z) :=
  match dv_bitmap rm with
  | None | Some [] => out
  | Some bitmap =>
      let mask := match out with
                  | None => replicate (Z.to_nat want) 0
                  | Some m => m
                  end in
      Some (or_bytes mask bitmap)
  end.

Definition pgcolumnar_merge_delete_vectors (maskList : list DeleteVectorRow) (want : Z) : option (list Z) :=
  foldl (merge_mask_step want) None maskList.

(** ** What a scan is asked for *)

(** A column of the scan: whether it is projected, and its missing value. *)
Record scan_column := mkScanColumn {
  sc_att : Form_pg_attribute; sc_wanted : bool; sc_missing : option Datum
}.

(** The filtered interface: the columns the qual reads, and the qual over the
    slot's values. *)
Record row_filter := mkFilter { qualCols : list bool; qual : list (option Datum) -> bool }.

Record scan_plan := mkPlan {
  p_storageId : Z;
  p_columns : list scan_column;
  p_predicates : list SkipPredicate;
  p_restrictGroups : option (list Z);
  p_filter : option row_filter;
  p_emitDeleted : bool;
  p_deadHorizon : option (list DeleteVectorRow);
  p_enable_bloom_filter : bool;
  p_enable_read_stream : bool;
  p_qual_skipvec_min_payload_cols : Z
}.

(** The counters EXPLAIN reports; [nfiltered1] is the executor's count of rows
    removed by the filter. *)
Record scan_stats := mkScanStats {
  groupsRead : Z; groupsSkipped : Z; vectorsSkipped : Z; vectorsDecoded : Z;
  vectorDecodes : Z; vectorsRuledOutByValue : Z; rowsFilteredEarly : Z; nfiltered1 : Z
}.
Definition no_stats : scan_stats := mkScanStats 0 0 0 0 0 0 0 0.
Definition stats_add (a b : scan_stats) : scan_stats :=
  mkScanStats (u64 (groupsRead a + groupsRead b)) (u64 (groupsSkipped a + groupsSkipped b))
    (u64 (vectorsSkipped a + vectorsSkipped b)) (u64 (vectorsDecoded a + vectorsDecoded b))
    (u64 (vectorDecodes a + vectorDecodes b)) (u64 (vectorsRuledOutByValue a + vectorsRuledOutByValue b))
    (u64 (rowsFilteredEarly a + rowsFilteredEarly b)) (u64 (nfiltered1 a + nfiltered1 b)).

(** ** The loaded group *)

Record value_cursor := mkCursor { vbuf : list Z; vpos : Z; vend : Z }.

(** The bytes from the cursor to the end of its stream. *)
Definition stream_at (cur : value_cursor) : res (list Z) :=
  if vend cur <? vpos cur then Ok [] else rd (vbuf cur) (vpos cur) (vend cur - vpos cur).
Definition cursor_add (cur : value_cursor) (n : Z) : value_cursor :=
  mkCursor (vbuf cur) (vpos cur + n) (vend cur).

(** [nativeValidity[c]], [nativeValueCursor[c]] with [nativeValueEnd[c]], and
    [nativeVecRawLen[c]]. *)
Record loaded_column := mkLoaded {
  lc_validity : option validity_src; lc_cursor : option value_cursor; lc_vecRawLen : option (list Z)
}.
Definition not_loaded : loaded_column := mkLoaded None None None.
Definition with_cursor (lc : loaded_column) (cur : value_cursor) : loaded_column :=
  mkLoaded (lc_validity lc) (Some cur) (lc_vecRawLen lc).

Record group_state := mkGroupState {
  g_meta : FreeSpace.NativeRowGroupMetadata;
  g_buffer : list Z;
  g_cols : list loaded_column;
  g_skipVec : option (list bool);
  g_vecStart : option (list Z);
  g_vectorCount : Z;
  g_curVec : Z;
  g_deleteMask : option (list Z);
  g_deadMask : option (list Z);
  g_qualCounted : bool;
  g_rowInGroup : Z
}.

Section Columns.
Context `{TupMacs} `{VarattExternal}.

(** ** One column of the current row *)

Definition pgcolumnar_row_read_column (buffer : list Z) (rowInGroup : Z) (sc : scan_column)
    (lc : loaded_column) : res (option Datum * loaded_column) :=
  let att := sc_att sc in
  if negb (sc_wanted sc) then Ok (None, lc)
  else
    match lc_validity lc with
    | None => Ok (sc_missing sc, lc)
    | Some vbits =>
        present ← row_present buffer vbits rowInGroup;
        if (present : bool) then
          match lc_cursor lc with
          | None => Oob
          | Some cur =>
              p ← stream_at cur;
              ' (value, n) ← (if attbyval att then
                                if zlen p <? attlen att
                                then Err "pgcolumnar: fixed-length value runs past the value stream end"
                                else b ← rd p 0 (attlen att);
                                     w ← fetch_att b (attlen att);
                                     Ok (ByVal w, attlen att)
                              else PgColumnarDecodeValue att p);
              Ok (Some value, with_cursor lc (cursor_add cur n))
          end
        else Ok (None, lc)
    end.

Definition pgcolumnar_row_skip_column (buffer : list Z) (rowInGroup : Z) (sc : scan_column)
    (lc : loaded_column) : res (option Datum * loaded_column) :=
  if negb (sc_wanted sc) then Ok (None, lc)
  else
    match lc_validity lc with
    | None => Ok (None, lc)
    | Some vbits =>
        present ← row_present buffer vbits rowInGroup;
        if (present : bool) then
          match lc_cursor lc with
          | None => Oob
          | Some cur =>
              p ← stream_at cur;
              n ← pgcolumnar_skip_value (sc_att sc) p;
              Ok (None, with_cursor lc (cursor_add cur n))
          end
        else Ok (None, lc)
    end.

(** A loop over the columns of the row: the flag of each column (is it read by
    the qual), its value so far, its description and its cursor. *)
Fixpoint columns_pass
    (act : bool -> option Datum -> scan_column -> loaded_column -> res (option Datum * loaded_column))
    (flags : list bool) (vals : list (option Datum)) (scs : list scan_column) (lcs : list loaded_column)
    : res (list (option Datum) * list loaded_column) :=
  match scs with
  | [] => Ok ([], [])
  | sc :: scs =>
      match flags, vals, lcs with
      | q :: flags, v :: vals, lc :: lcs =>
          ' (v, lc) ← act q v sc lc;
          ' (vs, lcs) ← columns_pass act flags vals scs lcs;
          Ok (v :: vs, lc :: lcs)
      | _, _, _ => Oob
      end
  end.
End Columns.

(** ** Claiming a row group *)

(** Where the next index comes from: the scan's own counter, the custom scan's
    shared counter, or the table access method's. *)
Inductive group_counter :=
| RowGroupIndex (i : Z)
| ParallelCounter (i : Z)
| Nallocated (i : Z).

Definition pgcolumnar_next_group_index (ngroups : Z) (c : group_counter) : option Z * group_counter :=
  let '(gi, c) := match c with
                  | RowGroupIndex i => (u64 i, RowGroupIndex (s32 (i + 1)))
                  | ParallelCounter i => (i, ParallelCounter (u32 (i + 1)))
                  | Nallocated i => (i, Nallocated (u64 (i + 1)))
                  end in
  (if gi <? ngroups then Some gi else None, c).

Fixpoint restricted_search (fuel : nat) (groups : list Z) (groupNumber lo hi : Z) : res bool :=
  match fuel with
  | O => Fuel
  | S f =>
      if lo <=? hi then
        let mid := lo + (hi - lo) / 2 in
        g ← rd1 groups mid;
        if g =? groupNumber then Ok true
        else if g <? groupNumber then restricted_search f groups groupNumber (mid + 1) hi
        else restricted_search f groups groupNumber lo (mid - 1)
      else Ok false
  end.

Definition pgcolumnar_group_is_restricted_in (groups : list Z) (groupNumber : Z) : res bool :=
  restricted_search (S (length groups)) groups groupNumber 0 (zlen groups - 1).

Section Load.
Context `{BlockCodecs} `{TupMacs} `{VarattExternal}.
Context (plan : scan_plan) (tables : GroupTables).

Definition natts : Z := zlen (p_columns plan).

(** ** Which vectors can be skipped *)

Definition native_is_qual_column (col : Z) : bool :=
  existsb (fun p => attidx p =? col) (p_predicates plan)
  || ((zlen (p_predicates plan) =? 0) &&
      match p_filter plan with
      | Some f => (0 <=? col) && (col <? natts) && nth (Z.to_nat col) (qualCols f) false
      | None => false
      end).

(** An array indexed by vector, filled from zone map rows. *)
Definition fill_by_vector {A} (vecCount : Z) (init : A) (f : NativeZoneMapMetadata -> A)
    (zones : list zone_entry) : list A :=
  foldl (fun arr (e : zone_entry) =>
           let '(_, v, z) := e in
           if (0 <=? v) && (v <? vecCount) then <[Z.to_nat v := f z]> arr else arr)
    (replicate (Z.to_nat vecCount) init) zones.

(** The rows that give the vectors' row counts: those of the first predicate
    column that has any, or of the whole group. *)
Fixpoint span_zones (groupNumber : Z) (preds : list SkipPredicate) : list zone_entry :=
  match preds with
  | [] => PgColumnarReadZoneMapVectors (t_zone_map tables) (p_storageId plan) groupNumber
  | p :: preds =>
      let col := attidx p in
      if (col <? 0) || (natts <=? col) then span_zones groupNumber preds
      else
        match PgColumnarReadZoneMapVectorsForColumn (t_zone_map tables) (p_storageId plan) groupNumber col with
        | [] => span_zones groupNumber preds
        | cz => cz
        end
  end.

(** The first predicate whose column's zone map of the vector excludes it. *)
Fixpoint any_excludes (groupNumber vecCount v : Z) (preds : list SkipPredicate) : res bool :=
  match preds with
  | [] => Ok false
  | pred :: preds =>
      match (if attidx pred <? 0 then None else p_columns plan !! Z.to_nat (attidx pred)) with
      | None => Oob
      | Some sc =>
          let byVec := fill_by_vector vecCount None Some
                         (PgColumnarReadZoneMapVectorsForColumn (t_zone_map tables) (p_storageId plan)
                            groupNumber (attidx pred)) in
          e ← native_zone_excludes pred (sc_att sc) (nth (Z.to_nat v) byVec None);
          if (e : bool) then Ok true else any_excludes groupNumber vecCount v preds
      end
  end.

Fixpoint vec_starts (start : Z) (span : list Z) : list Z :=
  match span with
  | [] => [start]
  | n :: span => start :: vec_starts (u32 (start + n)) span
  end.

(** [nativeSkipVec] and [nativeVecStart]. *)
Definition pgcolumnar_native_build_skipvec (groupNumber vecCount : Z)
    : res (option (list bool) * option (list Z)) :=
  let preds := p_predicates plan in
  if vecCount <=? 0 then Ok (None, None)
  else if (zlen preds =? 0) && match p_filter plan with Some _ => false | None => true end
  then Ok (None, None)
  else
    match span_zones groupNumber preds with
    | [] => Ok (None, None)
    | zones =>
        let span := fill_by_vector vecCount 0
                      (fun z => u32 (u64 (zoneValueCount z + zoneNullCount z))) zones in
        skip ← mapM (fun v => any_excludes groupNumber vecCount v preds) (seqZ 0 vecCount);
        Ok (Some skip, Some (vec_starts 0 span))
    end.

(** ** Exact selection *)

(** Does some row of [n] rows from [r] on satisfy every predicate of the column? *)
Fixpoint refine_rows (n : nat) (buffer : list Z) (vbits : validity_src) (att : Form_pg_attribute)
    (mine : list SkipPredicate) (r : Z) (vecCur : value_cursor) : res bool :=
  match n with
  | O => Ok false
  | S n =>
      present ← row_present buffer vbits r;
      if negb (present : bool) then refine_rows n buffer vbits att mine (r + 1) vecCur
      else
        p ← stream_at vecCur;
        ' (val, k) ← PgColumnarDecodeValue att p;
        if forallb (fun q => native_value_satisfies q val) mine then Ok true
        else refine_rows n buffer vbits att mine (r + 1) (cursor_add vecCur k)
  end.

Fixpoint refine_vectors (vs : list Z) (vecStart vrl buffer : list Z) (vbits : validity_src)
    (att : Form_pg_attribute) (mine : list SkipPredicate) (cursor : value_cursor)
    (st : list bool * Z) : res (list bool * Z) :=
  match vs with
  | [] => Ok st
  | v :: vs =>
      r0 ← rd1 vecStart v;
      r1 ← rd1 vecStart (v + 1);
      len ← rd1 vrl v;
      let next := cursor_add cursor len in
      match st.1 !! Z.to_nat v with
      | None => Oob
      | Some true => refine_vectors vs vecStart vrl buffer vbits att mine next st
      | Some false =>
          any ← refine_rows (Z.to_nat (r1 - r0)) buffer vbits att mine r0 cursor;
          refine_vectors vs vecStart vrl buffer vbits att mine next
            (if (any : bool) then st else (<[Z.to_nat v := true]> st.1, u64 (st.2 + 1)))
      end
  end.

(** One pass per predicate column, at its first mention. *)
Fixpoint refine_columns (seen : list Z) (preds : list SkipPredicate) (vecCount : Z) (vecStart buffer : list Z)
    (lcs : list loaded_column) (st : list bool * Z) : res (list bool * Z) :=
  match preds with
  | [] => Ok st
  | p :: preds =>
      let col := attidx p in
      let rest := refine_columns (col :: seen) preds vecCount vecStart buffer lcs in
      if (col <? 0) || (natts <=? col) || bool_decide (col ∈ seen) then rest st
      else
        match p_columns plan !! Z.to_nat col, lcs !! Z.to_nat col with
        | Some sc, Some lc =>
            match lc_cursor lc, lc_vecRawLen lc, lc_validity lc with
            | Some cursor, Some vrl, Some vbits =>
                st ← refine_vectors (seqZ 0 vecCount) vecStart vrl buffer vbits (sc_att sc)
                       (List.filter (fun q => attidx q =? col) (p_predicates plan)) cursor st;
                rest st
            | _, _, _ => rest st
            end
        | _, _ => Oob
        end
  end.

(** The sharpened flags, and how many vectors it ruled out. *)
Definition pgcolumnar_native_refine_skipvec (skipVec : option (list bool)) (vecStart : option (list Z))
    (vecCount : Z) (buffer : list Z) (lcs : list loaded_column) : res (option (list bool) * Z) :=
  match skipVec, vecStart with
  | Some skip, Some starts =>
      if (zlen (p_predicates plan) =? 0) || (vecCount <=? 0) then Ok (skipVec, 0)
      else
        st ← refine_columns [] (p_predicates plan) vecCount starts buffer lcs (skip, 0);
        Ok (Some st.1, st.2)
  | _, _ => Ok (skipVec, 0)
  end.

(** ** The executor's qual between the passes *)

Definition pgcolumnar_native_payload_col_count : Z :=
  zlen (List.filter (fun c => match p_columns plan !! Z.to_nat c with
                              | Some sc => sc_wanted sc && negb (native_is_qual_column c)
                              | None => false
                              end) (seqZ 0 natts)).

(** Reading the qual's columns of one row. *)
Definition read_qual_columns (buffer : list Z) (r : Z) (lcs : list loaded_column)
    : res (list (option Datum) * list loaded_column) :=
  columns_pass (fun q _ sc lc => if (q : bool) then pgcolumnar_row_read_column buffer r sc lc else Ok (None, lc))
    (native_is_qual_column <$> seqZ 0 natts) (replicate (Z.to_nat natts) None) (p_columns plan) lcs.

(** [n] rows from [r] on: whether a live row passed, the live rows, the rejected
    ones. *)
Fixpoint qual_rows (n : nat) (f : row_filter) (buffer : list Z) (deleteMask : option (list Z)) (r : Z)
    (lcs : list loaded_column) (st : bool * Z * Z) : res (list loaded_column * (bool * Z * Z)) :=
  match n with
  | O => Ok (lcs, st)
  | S n =>
      ' (vals, lcs) ← read_qual_columns buffer r lcs;
      let '(anyPass, liveRows, rejected) := st in
      qual_rows n f buffer deleteMask (r + 1) lcs
        (if dv_row_deleted deleteMask r then st
         else if qual f vals then (true, u64 (liveRows + 1), rejected)
         else (anyPass, u64 (liveRows + 1), rejected + 1))
  end.

Fixpoint qual_vectors (vs : list Z) (f : row_filter) (vecStart buffer : list Z) (deleteMask : option (list Z))
    (lcs : list loaded_column) (skip : list bool) (stats : scan_stats) : res (list bool * scan_stats) :=
  match vs with
  | [] => Ok (skip, stats)
  | v :: vs =>
      r0 ← rd1 vecStart v;
      r1 ← rd1 vecStart (v + 1);
      ' (lcs, (anyPass, liveRows, rejected)) ←
        qual_rows (Z.to_nat (r1 - r0)) f buffer deleteMask r0 lcs (false, 0, 0);
      let stats := stats_add stats (mkScanStats 0 0 0 0 0 0 0 rejected) in
      if (anyPass : bool) then qual_vectors vs f vecStart buffer deleteMask lcs skip stats
      else qual_vectors vs f vecStart buffer deleteMask lcs (<[Z.to_nat v := true]> skip)
             (stats_add stats (mkScanStats 0 0 0 0 0 0 liveRows 0))
  end.

(** The flags and whether the group's rejects were counted here.  The cursors
    it walked are dropped: the caller keeps the ones it had. *)
Definition pgcolumnar_native_qual_skipvec (skipVec : option (list bool)) (vecStart : option (list Z))
    (vecCount : Z) (buffer : list Z) (deleteMask : option (list Z)) (lcs : list loaded_column)
    (stats : scan_stats) : res (option (list bool) * bool * scan_stats) :=
  match skipVec, vecStart, p_filter plan with
  | Some skip, Some starts, Some f =>
      if vecCount <=? 0 then Ok (skipVec, false, stats)
      else
        ' (skip, stats) ← qual_vectors (seqZ 0 vecCount) f starts buffer deleteMask lcs skip stats;
        Ok (Some skip, true, stats)
  | _, _, _ => Ok (skipVec, false, stats)
  end.
End Load.

(** ** Reading the group's bytes *)

(** A half-open span of the file. *)
Definition PgColumnarByteRange : Type := Z * Z.

Definition byte_range_le (a b : PgColumnarByteRange) : Prop := a.1 <= b.1.

#[export] Instance byte_range_le_dec a b : Decision (byte_range_le a b).
Proof. unfold byte_range_le. apply _. Defined.

Record range_scan := mkRangeScan { minStart : Z; maxEnd : Z; sawChunk : bool; ranges : list PgColumnarByteRange }.

(** One chunk of the loop that collects the projected ranges. *)
Definition range_step (cols : list scan_column) (rg : FreeSpace.NativeRowGroupMetadata) (cr : ColumnChunkRow)
    (st : range_scan) : res range_scan :=
  let cc := cr_chunk cr in
  let endOff := u64 (pageOffset cc + pageLength cc) in
  if (cr_columnIndex cr <? 0) || (zlen cols <=? cr_columnIndex cr) then Ok st
  else
    let st := if 0 <? pageLength cc
              then mkRangeScan (if pageOffset cc <? minStart st then pageOffset cc else minStart st)
                     (if maxEnd st <? endOff then endOff else maxEnd st) true (ranges st)
              else st in
    match cols !! Z.to_nat (cr_columnIndex cr) with
    | None => Oob
    | Some sc =>
        if negb (sc_wanted sc) || (pageLength cc =? 0) then Ok st
        else if (rg_byteLength rg <? pageLength cc) || (pageOffset cc <? rg_fileOffset rg)
                || (rg_byteLength rg - pageLength cc <? pageOffset cc - rg_fileOffset rg)
        then Err "columnar chunk lies outside row group"
        else Ok (mkRangeScan (minStart st) (maxEnd st) (sawChunk st) (ranges st ++ [(pageOffset cc, endOff)]))
    end.

Fixpoint range_loop (cols : list scan_column) (rg : FreeSpace.NativeRowGroupMetadata)
    (chunks : list ColumnChunkRow) (st : range_scan) : res range_scan :=
  match chunks with
  | [] => Ok st
  | cr :: chunks => st ← range_step cols rg cr st; range_loop cols rg chunks st
  end.

(** Ranges that touch or overlap become one read. *)
Fixpoint coalesce (cur : PgColumnarByteRange) (rest : list PgColumnarByteRange) : list PgColumnarByteRange :=
  match rest with
  | [] => [cur]
  | r :: rest =>
      if r.1 <=? cur.2 then coalesce (cur.1, if cur.2 <? r.2 then r.2 else cur.2) rest
      else cur :: coalesce r rest
  end.

Section ReadBytes.
Context `{PageLayout} (stream : bool) (rel : list page).

Fixpoint read_ranges (fileOffset : Z) (rs : list PgColumnarByteRange) (buffer : list Z) : res (list Z) :=
  match rs with
  | [] => Ok buffer
  | (start, end_) :: rs =>
      data ← PgColumnarReadLogicalData stream rel start (end_ - start);
      buffer ← wr buffer (start - fileOffset) data;
      read_ranges fileOffset rs buffer
  end.

Definition pgcolumnar_native_read_projected (cols : list scan_column)
    (rg : FreeSpace.NativeRowGroupMetadata) (chunks : list ColumnChunkRow) (buffer : list Z) : res (list Z) :=
  let groupEnd := u64 (rg_fileOffset rg + rg_byteLength rg) in
  match chunks with
  | [] => Ok buffer
  | _ =>
      st ← range_loop cols rg chunks (mkRangeScan groupEnd (rg_fileOffset rg) false []);
      if sawChunk st && (negb (maxEnd st =? groupEnd) || negb (minStart st =? rg_fileOffset rg))
      then Err "columnar row group is inconsistent with its column chunks"
      else
        match merge_sort byte_range_le (ranges st) with
        | [] => Ok buffer
        | r :: rest => read_ranges (rg_fileOffset rg) (coalesce r rest) buffer
        end
  end.

(** The reused group buffer, grown when it is too small, with the group's bytes
    or those of the projected columns read into it. *)
Definition read_group_bytes (cols : list scan_column) (rg : FreeSpace.NativeRowGroupMetadata)
    (chunks : list ColumnChunkRow) (mem : list Z) : res (list Z) :=
  let want := if 0 <? rg_byteLength rg then rg_byteLength rg else 1 in
  mem ← (if zlen mem <? want then MemoryContextAlloc want else Ok mem);
  if 0 <? rg_byteLength rg then
    if forallb sc_wanted cols
    then data ← PgColumnarReadLogicalData stream rel (rg_fileOffset rg) (rg_byteLength rg); wr mem 0 data
    else pgcolumnar_native_read_projected cols rg chunks mem
  else Ok mem.
End ReadBytes.

(** ** Loading a group *)

Record load_st := mkLoad {
  l_cols : list loaded_column; l_maxVec : Z; l_decoded : Z; l_pairs : Z; l_allDescriptor : bool
}.

Section LoadGroup.
Context `{PageLayout} `{BlockCodecs} `{TupMacs} `{VarattExternal}.
Context (plan : scan_plan) (tables : GroupTables) (rel : list page).

(** The chunk's descriptor says it has no per-vector structure. *)
Definition is_baseline (cc : NativeColumnChunkMetadata) : res bool :=
  if zlen (encodingDescriptor cc) =? 1
  then v ← rd1 (encodingDescriptor cc) 0; Ok (v =? COLUMNAR_NATIVE_ENCDESC_BASELINE)
  else Ok false.

(** The pre-pass over the projected chunks: the greatest vector count, and
    whether every one of them has a descriptor with vectors. *)
Fixpoint prepass (chunks : list ColumnChunkRow) (maxVecCount : Z) (allDescriptor : bool) : res (Z * bool) :=
  match chunks with
  | [] => Ok (maxVecCount, allDescriptor)
  | cr :: chunks =>
      let cc := cr_chunk cr in
      if (cr_columnIndex cr <? 0) || (natts plan <=? cr_columnIndex cr) then prepass chunks maxVecCount allDescriptor
      else
        match p_columns plan !! Z.to_nat (cr_columnIndex cr) with
        | None => Oob
        | Some sc =>
            if negb (sc_wanted sc) then prepass chunks maxVecCount allDescriptor
            else
              baseline ← is_baseline cc;
              if (baseline : bool) then prepass chunks maxVecCount false
              else if zlen (encodingDescriptor cc) <? COLUMNAR_NATIVE_ENCDESC_HEADER_LEN
              then prepass chunks maxVecCount false
              else
                supported ← PgColumnarEncdescVersionSupported (encodingDescriptor cc);
                if negb (supported : bool) then prepass chunks maxVecCount false
                else
                  vc ← PgColumnarEncdescReadVectorCount (encodingDescriptor cc);
                  prepass chunks (if maxVecCount <? s32 vc then s32 vc else maxVecCount) allDescriptor
        end
  end.

Definition chunk_group (rg : FreeSpace.NativeRowGroupMetadata) : NativeRead.NativeRowGroupMetadata :=
  NativeRead.mkRowGroup (rg_fileOffset rg) (rg_byteLength rg) (rg_rowCount rg).

(** The array the decoder indexes by vector. *)
Definition skip_flag (skipVec : option (list bool)) : option (Z -> bool) :=
  (fun skip v => nth (Z.to_nat v) skip false) <$> skipVec.

(** One chunk of a decode pass: pass 0 is the qual columns, pass 1 the rest. *)
Definition load_chunk_step (rg : FreeSpace.NativeRowGroupMetadata) (buffer : list Z)
    (skipVec : option (list bool)) (pass0 : bool) (cr : ColumnChunkRow) (st : load_st) : res load_st :=
  let col := cr_columnIndex cr in
  if (col <? 0) || (natts plan <=? col) then Ok st
  else if negb (eqb (native_is_qual_column plan col) pass0) then Ok st
  else
    match p_columns plan !! Z.to_nat col with
    | None => Oob
    | Some sc =>
        if negb (sc_wanted sc) then Ok st
        else
          ' (vbits, src) ← native_load_chunk (sc_att sc) (chunk_group rg) (cr_chunk cr) buffer (skip_flag skipVec);
          match src with
          | InBuffer from until =>
              Ok (mkLoad (<[Z.to_nat col := mkLoaded (Some vbits) (Some (mkCursor buffer from until)) None]> (l_cols st))
                    (l_maxVec st) (l_decoded st) (l_pairs st) false)
          | Decoded d =>
              let vcount := zlen (vecRawLen d) in
              Ok (mkLoad (<[Z.to_nat col := mkLoaded (Some vbits) (Some (mkCursor (rawBuf d) 0 (rawTotal d)))
                                              (Some (vecRawLen d))]> (l_cols st))
                    (if l_maxVec st <? vcount then vcount else l_maxVec st)
                    (if l_decoded st <? decodedCount d then decodedCount d else l_decoded st)
                    (u64 (l_pairs st + decodedCount d)) (l_allDescriptor st))
          end
    end.

Fixpoint load_pass (rg : FreeSpace.NativeRowGroupMetadata) (buffer : list Z)
    (skipVec : option (list bool)) (pass0 : bool) (chunks : list ColumnChunkRow) (st : load_st) : res load_st :=
  match chunks with
  | [] => Ok st
  | cr :: chunks =>
      st ← load_chunk_step rg buffer skipVec pass0 cr st;
      load_pass rg buffer skipVec pass0 chunks st
  end.

(** The group once it is claimed: the state the row producer starts from, and
    what the load adds to the counters. *)
Definition load_claimed_group (rg : FreeSpace.NativeRowGroupMetadata) (mem : list Z) (stats : scan_stats)
    : res (group_state * list Z * scan_stats) :=
  let sid := p_storageId plan in
  let gn := rg_groupNumber rg in
  let want := u32 (u64 (rg_rowCount rg + 7) / 8) in
  let deleteMask := pgcolumnar_merge_delete_vectors
                      (PgColumnarReadDeleteVectorList (t_delete_vector tables) sid gn) want in
  let deadMask := match p_deadHorizon plan, deleteMask with
                  | Some dead, Some _ =>
                      pgcolumnar_merge_delete_vectors (PgColumnarReadDeleteVectorList dead sid gn) want
                  | _, _ => None
                  end in
  let chunks := PgColumnarReadColumnChunkList (t_column_chunk tables) sid gn in
  mem ← read_group_bytes (p_enable_read_stream plan) rel (p_columns plan) rg chunks mem;
  ' (maxVecCount, allDescriptor) ← prepass chunks 0 (match chunks with [] => false | _ => true end);
  ' (skipVec, vecStart) ← (if (allDescriptor : bool)
                           then pgcolumnar_native_build_skipvec plan tables gn maxVecCount
                           else Ok (None, None));
  st ← load_pass rg mem skipVec true chunks
         (mkLoad (replicate (length (p_columns plan)) not_loaded) maxVecCount 0 0 allDescriptor);
  ' (refined, ruledOut) ← (if l_allDescriptor st
                           then pgcolumnar_native_refine_skipvec plan skipVec vecStart (l_maxVec st) mem (l_cols st)
                           else Ok (skipVec, 0));
  ' (refined, qualCounted, stats) ←
    (if l_allDescriptor st && (zlen (p_predicates plan) =? 0)
        && (p_qual_skipvec_min_payload_cols plan <=? pgcolumnar_native_payload_col_count plan)
     then pgcolumnar_native_qual_skipvec plan refined vecStart (l_maxVec st) mem deleteMask (l_cols st) stats
     else Ok (refined, false, stats));
  st ← load_pass rg mem refined false chunks st;
  let skipped := match refined with
                 | Some skip => if 0 <? maxVecCount then zlen (List.filter id skip) else 0
                 | None => 0
                 end in
  Ok (mkGroupState rg mem (l_cols st) refined vecStart maxVecCount 0 deleteMask deadMask qualCounted 0,
      mem,
      stats_add stats (mkScanStats 0 0 skipped (l_decoded st) (l_pairs st) ruledOut 0 0)).
End LoadGroup.

(** ** Producing rows *)

Record read_state := mkReadState {
  rs_rowGroupList : list FreeSpace.NativeRowGroupMetadata;
  rs_counter : group_counter;
  rs_order : order_st;
  rs_bufferMem : list Z;
  rs_group : option group_state;
  rs_exhausted : bool;
  rs_lastRowDeleted : bool;
  rs_stats : scan_stats
}.

(** One turn of the producer's loop. *)
Inductive turn :=
| Exhausted (rs : read_state)
| Again (rs : read_state)
| Row (rs : read_state) (rowNumber : Z) (values : list (option Datum)).

Definition with_group (rs : read_state) (g : group_state) : read_state :=
  mkReadState (rs_rowGroupList rs) (rs_counter rs) (rs_order rs) (rs_bufferMem rs) (Some g)
    (rs_exhausted rs) (rs_lastRowDeleted rs) (rs_stats rs).

Definition with_row (g : group_state) (cols : list loaded_column) (curVec rowInGroup : Z) : group_state :=
  mkGroupState (g_meta g) (g_buffer g) cols (g_skipVec g) (g_vecStart g) (g_vectorCount g) curVec
    (g_deleteMask g) (g_deadMask g) (g_qualCounted g) rowInGroup.

Section NextRow.
Context `{PageLayout} `{BlockCodecs} `{TupMacs} `{VarattExternal}.
Context (plan : scan_plan) (tables : GroupTables) (rel : list page).

(** The claim loop of [pgcolumnar_native_load_group]: the next group the
    restriction set and the zone maps do not rule out. *)
Fixpoint claim_group (fuel : nat) (rs : read_state)
    : res (option FreeSpace.NativeRowGroupMetadata * read_state) :=
  match fuel with
  | O => Fuel
  | S f =>
      let '(gi, counter) := pgcolumnar_next_group_index (zlen (rs_rowGroupList rs)) (rs_counter rs) in
      let rs := mkReadState (rs_rowGroupList rs) counter (rs_order rs) (rs_bufferMem rs) (rs_group rs)
                  (rs_exhausted rs) (rs_lastRowDeleted rs) (rs_stats rs) in
      match gi with
      | None => Ok (None, rs)
      | Some gi =>
          match rs_rowGroupList rs !! Z.to_nat gi with
          | None => Oob
          | Some rg =>
              inside ← (match p_restrictGroups plan with
                        | Some groups => pgcolumnar_group_is_restricted_in groups (rg_groupNumber rg)
                        | None => Ok true
                        end);
              ' (match_, order) ←
                (if negb (inside : bool) then Ok (false, rs_order rs)
                 else if 0 <? zlen (p_predicates plan)
                 then pgcolumnar_native_group_can_match (p_enable_bloom_filter plan)
                        (sc_att <$> p_columns plan)
                        (PgColumnarReadZoneMapForColumn (t_zone_map tables) (p_storageId plan) (rg_groupNumber rg))
                        (PgColumnarReadBloomForColumn (t_bloom tables) (p_storageId plan) (rg_groupNumber rg))
                        (p_predicates plan) (rs_order rs)
                 else Ok (true, rs_order rs));
              let stats := stats_add (rs_stats rs)
                             (if (match_ : bool) then mkScanStats 1 0 0 0 0 0 0 0 else mkScanStats 0 1 0 0 0 0 0 0) in
              let rs := mkReadState (rs_rowGroupList rs) (rs_counter rs) order (rs_bufferMem rs) (rs_group rs)
                          (rs_exhausted rs) (rs_lastRowDeleted rs) stats in
              if match_ then Ok (Some rg, rs) else claim_group f rs
          end
      end
  end.

Definition pgcolumnar_native_load_group (rs : read_state) : res (option group_state * read_state) :=
  ' (claimed, rs) ← claim_group (S (length (rs_rowGroupList rs))) rs;
  match claimed with
  | None => Ok (None, rs)
  | Some rg =>
      ' (g, mem, stats) ← load_claimed_group plan tables rel rg (rs_bufferMem rs) (rs_stats rs);
      Ok (Some g, mkReadState (rs_rowGroupList rs) (rs_counter rs) (rs_order rs) mem (Some g)
                    (rs_exhausted rs) (rs_lastRowDeleted rs) stats)
  end.

(** The vector that contains the row. *)
Fixpoint vector_of_row (fuel : nat) (vecStart : list Z) (vectorCount rowInGroup v : Z) : res Z :=
  match fuel with
  | O => Fuel
  | S f =>
      if v <? vectorCount then
        next ← rd1 vecStart (v + 1);
        if next <=? rowInGroup then vector_of_row f vecStart vectorCount rowInGroup (v + 1) else Ok v
      else Ok v
  end.

(** [Some g]: the group with the vector stepped over. *)
Definition pgcolumnar_native_skip_current_vector (g : group_state) (skip : list bool)
    : res (bool * group_state) :=
  match g_vecStart g with
  | None => Oob
  | Some vecStart =>
      v ← vector_of_row (S (Z.to_nat (g_vectorCount g - g_curVec g))) vecStart (g_vectorCount g)
            (g_rowInGroup g) (g_curVec g);
      let stay := with_row g (g_cols g) v (g_rowInGroup g) in
      if g_vectorCount g <=? v then Ok (false, stay)
      else
        match skip !! Z.to_nat v with
        | None => Oob
        | Some false => Ok (false, stay)
        | Some true =>
            start ← rd1 vecStart v;
            if negb (g_rowInGroup g =? start) then Ok (false, stay)
            else
              cols ← mapM (fun lc => match lc_cursor lc, lc_vecRawLen lc with
                                     | Some cur, Some vrl =>
                                         n ← rd1 vrl v; Ok (with_cursor lc (cursor_add cur n))
                                     | _, _ => Ok lc
                                     end) (g_cols g);
              next ← rd1 vecStart (v + 1);
              Ok (true, with_row g cols (v + 1) next)
        end
  end.

(** Building the row under a filter: the qual's columns, the qual, the rest.
    The third result is whether the row is kept; a counted rejection goes to
    the executor's counter. *)
Definition filtered_row (f : row_filter) (g : group_state) (deleted : bool)
    : res (list (option Datum) * list loaded_column * bool) :=
  let read := pgcolumnar_row_read_column (g_buffer g) (g_rowInGroup g) in
  let skip := pgcolumnar_row_skip_column (g_buffer g) (g_rowInGroup g) in
  let nulls := replicate (length (p_columns plan)) None in
  if deleted then
    ' (vals, lcs) ← columns_pass (fun _ _ => skip) (qualCols f) nulls (p_columns plan) (g_cols g);
    Ok (vals, lcs, true)
  else
    ' (vals, lcs) ← columns_pass (fun q _ sc lc => if (q : bool) then read sc lc else Ok (None, lc))
                      (qualCols f) nulls (p_columns plan) (g_cols g);
    let keep := qual f vals in
    ' (vals, lcs) ← columns_pass (fun q v sc lc => if (q : bool) then Ok (v, lc)
                                                   else if keep then read sc lc else skip sc lc)
                      (qualCols f) vals (p_columns plan) lcs;
    Ok (vals, lcs, keep).

Definition next_row_in_group (rs : read_state) (g : group_state) : res turn :=
  let deleted := dv_row_deleted (g_deleteMask g) (g_rowInGroup g) in
  let rowNumber := u64 (rg_firstRowNumber (g_meta g) + g_rowInGroup g) in
  let next lcs := with_row g lcs (g_curVec g) (u64 (g_rowInGroup g + 1)) in
  match p_filter plan with
  | Some f =>
      ' (vals, lcs, keep) ← filtered_row f g deleted;
      let rs := with_group rs (next lcs) in
      if deleted then Ok (Again rs)
      else if negb (keep : bool) then
        let counted := if g_qualCounted g then 0 else 1 in
        Ok (Again (mkReadState (rs_rowGroupList rs) (rs_counter rs) (rs_order rs) (rs_bufferMem rs) (rs_group rs)
                     (rs_exhausted rs) (rs_lastRowDeleted rs)
                     (stats_add (rs_stats rs) (mkScanStats 0 0 0 0 0 0 1 counted))))
      else Ok (Row rs rowNumber vals)
  | None =>
      ' (vals, lcs) ← columns_pass (fun _ _ => pgcolumnar_row_read_column (g_buffer g) (g_rowInGroup g))
                        (replicate (length (p_columns plan)) false) (replicate (length (p_columns plan)) None)
                        (p_columns plan) (g_cols g);
      let rs := with_group rs (next lcs) in
      if deleted && negb (p_emitDeleted plan) then Ok (Again rs)
      else if deleted && dv_row_deleted (g_deadMask g) (g_rowInGroup g) then Ok (Again rs)
      else Ok (Row (mkReadState (rs_rowGroupList rs) (rs_counter rs) (rs_order rs) (rs_bufferMem rs) (rs_group rs)
                      (rs_exhausted rs) deleted (rs_stats rs)) rowNumber vals)
  end.

(** The turn once a group is loaded: step over the vector or build the row. *)
Definition turn_loaded (rs : read_state) (g : group_state) : res turn :=
  match g_skipVec g with
  | Some skip =>
      ' (stepped, g) ← pgcolumnar_native_skip_current_vector g skip;
      if (stepped : bool) then Ok (Again (with_group rs g)) else next_row_in_group (with_group rs g) g
  | None => next_row_in_group rs g
  end.

Definition next_row_turn (rs : read_state) : res turn :=
  let need := match rs_group rs with
              | None => true
              | Some g => rg_rowCount (g_meta g) <=? g_rowInGroup g
              end in
  ' (loaded, rs) ← (if need then pgcolumnar_native_load_group rs else Ok (rs_group rs, rs));
  match loaded with
  | None => Ok (Exhausted (mkReadState (rs_rowGroupList rs) (rs_counter rs) (rs_order rs) (rs_bufferMem rs)
                             (rs_group rs) true (rs_lastRowDeleted rs) (rs_stats rs)))
  | Some g => turn_loaded rs g
  end.

(** [pgcolumnar_native_next_row]: turns until a row or the end. *)
Fixpoint pgcolumnar_native_next_row (fuel : nat) (rs : read_state)
    : res (option (Z * list (option Datum)) * read_state) :=
  match fuel with
  | O => Fuel
  | S f =>
      if rs_exhausted rs then Ok (None, rs)
      else
        t ← next_row_turn rs;
        match t with
        | Exhausted rs => Ok (None, rs)
        | Again rs => pgcolumnar_native_next_row f rs
        | Row rs n vals => Ok (Some (n, vals), rs)
        end
  end.

(** A caller that takes rows until there are none. *)
Fixpoint scan_rows (fuel : nat) (turns : nat) (rs : read_state)
    : res (list (Z * list (option Datum)) * read_state) :=
  match fuel with
  | O => Fuel
  | S f =>
      ' (row, rs) ← pgcolumnar_native_next_row turns rs;
      match row with
      | None => Ok ([], rs)
      | Some row => ' (rows, rs) ← scan_rows f turns rs; Ok (row :: rows, rs)
      end
  end.
End NextRow.
