(* ===== verification/ScanRows.v ===== *)
(** * What the row producer returns

    The row producer of [Scan] against a column-oriented image of the loaded
    row group: each column has, vector by vector, the cells the writer stored.
    Decoding may have left holes where a vector was ruled out; the producer
    never reads one, keeps every cursor aligned with the row, and returns the
    expected values of the rows it does not step over. *)

From stdpp Require Import sorting.
From S2P Require Import Prelude BitPack Codec Varlena BitSet Compress Encdesc Flush NativeRead.
From S2P Require Import Value ZoneMap Catalog GroupSkip Storage FreeSpace Scan.

(** ** Images *)

(** A row of a column as it is stored: the datum and its bytes, or null. *)
Definition cell : Type := option (Datum * list Z).
Definition cell_bytes (c : cell) : list Z := match c with Some (_, b) => b | None => [] end.
Definition vec_bytes (vec : list cell) : list Z := concat (cell_bytes <$> vec).

(** A column's vectors, or [None] when the group has no chunk for it. *)
Definition image : Type := option (list (list cell)).

Definition cell_at (vecs : list (list cell)) (v j : nat) : option cell := vecs !! v ≫= (fun vec => vec !! j).

Definition present_cell (c : cell) : bool := match c with Some _ => true | None => false end.

(** A vector the decoder left out is a hole of the same length. *)
Definition hole (h : bool) (b : list Z) : list Z := if h then replicate (length b) poison else b.

(** The stream from row [j] of vector [v] on, under the mask it was decoded with. *)
Definition later (m : nat -> bool) (vecs : list (list cell)) (v : nat) : list Z :=
  concat ((fun i => hole (m i) (vec_bytes (vecs !!! i))) <$> seq v (length vecs - v)).
Definition rest (m : nat -> bool) (vecs : list (list cell)) (v j : nat) : list Z :=
  hole (m v) (vec_bytes (drop j (vecs !!! v))) ++ later m vecs (S v).

(** The first row of each vector. *)
Definition vstart (lens : list nat) (v : nat) : Z := Z.of_nat (sum_list (take v lens)).

Lemma zlen_hole h b : zlen (hole h b) = zlen b.
Proof. unfold hole, zlen. destruct h; [by rewrite length_replicate|done]. Qed.

Lemma later_rest m vecs v : later m vecs v = rest m vecs v 0.
Proof.
  unfold later, rest. destruct (decide (v < length vecs)%nat) as [Hv|Hv].
  - replace (length vecs - v)%nat with (S (length vecs - S v)) by lia. done.
  - rewrite list_lookup_total_alt, lookup_ge_None_2 by lia.
    unfold later. replace (length vecs - v)%nat with 0%nat by lia. replace (length vecs - S v)%nat with 0%nat by lia.
    cbn. by destruct (m v).
Qed.

Lemma rest_end m vecs v vec : vecs !! v = Some vec -> rest m vecs v (length vec) = later m vecs (S v).
Proof.
  intros Hv. unfold rest. rewrite (list_lookup_total_correct _ _ _ Hv), drop_all. by destruct (m v).
Qed.

Lemma rest_cell m vecs v vec j c :
  m v = false -> vecs !! v = Some vec -> vec !! j = Some c -> rest m vecs v j = cell_bytes c ++ rest m vecs v (S j).
Proof.
  intros Hm Hv Hj. unfold rest. rewrite (list_lookup_total_correct _ _ _ Hv), Hm, (drop_S _ _ _ Hj).
  unfold vec_bytes. cbn [hole fmap list_fmap concat]. by rewrite <- app_assoc.
Qed.

Lemma rest_skip m vecs v vec :
  vecs !! v = Some vec -> drop (length (vec_bytes vec)) (rest m vecs v 0) = later m vecs (S v).
Proof.
  intros Hv. unfold rest. rewrite (list_lookup_total_correct _ _ _ Hv), drop_0.
  pose proof (zlen_hole (m v) (vec_bytes vec)) as Hl. unfold zlen in Hl. apply Nat2Z.inj in Hl.
  by rewrite <- Hl, drop_app_length.
Qed.

Lemma vstart_S lens v n : lens !! v = Some n -> vstart lens (S v) = vstart lens v + Z.of_nat n.
Proof.
  intros Hv. unfold vstart. rewrite (take_S_r _ _ _ Hv), sum_list_with_app. cbn. lia.
Qed.

Lemma vstart_nonneg lens v : 0 <= vstart lens v.
Proof. unfold vstart. lia. Qed.

Lemma vstart_le lens u v : (u <= v)%nat -> vstart lens u <= vstart lens v.
Proof.
  intros Hle. unfold vstart. rewrite <- (take_drop u (take v lens)), take_take, sum_list_with_app, Nat.min_l by done.
  lia.
Qed.

(** ** Cursors *)

Lemma stream_advance cur a b :
  stream_at cur = Ok (a ++ b) -> stream_at (cursor_add cur (zlen a)) = Ok b.
Proof.
  unfold stream_at, cursor_add. cbn [vbuf vpos vend].
  destruct (Z.ltb_spec (vend cur) (vpos cur)) as [Hlt|Hge].
  - intros [= E%eq_sym%app_eq_nil]. destruct E as [-> ->]. rewrite zlen_nil.
    by destruct (Z.ltb_spec (vend cur) (vpos cur + 0)); [|lia].
  - intros E. unfold rd in E. case_match eqn:Hc; [|done]. injection E as E.
    rewrite !andb_true_iff, !Z.leb_le in Hc. pose proof (zlen_nonneg a). pose proof (zlen_nonneg b).
    assert (Hlen : zlen (a ++ b) = vend cur - vpos cur).
    { rewrite <- E. unfold zlen in *. rewrite length_take, length_drop. lia. }
    rewrite zlen_app in Hlen.
    destruct (Z.ltb_spec (vend cur) (vpos cur + zlen a)); [lia|].
    rewrite rd_Ok by lia. f_equal.
    rewrite <- (drop_app_length a b), <- E.
    replace (Z.to_nat (vend cur - vpos cur)) with (length a + Z.to_nat (vend cur - (vpos cur + zlen a)))%nat
      by (unfold zlen in *; lia).
    rewrite <- take_drop_commute, drop_drop. f_equal. f_equal. unfold zlen. lia.
Qed.

Section Columns.
Context `{TupMacs} `{VarattExternal}.
Context (buffer : list Z) (lens : list nat).

Definition cell_ok (att : Form_pg_attribute) (c : cell) : Prop :=
  match c with Some (d, b) => encodes att d b | None => True end.

(** A loaded column chunk with its cursor at row [j] of vector [v]; [m] are the
    vectors it was decoded without. *)
Record chunk_inv (att : Form_pg_attribute) (lc : loaded_column) (vecs : list (list cell))
    (m : nat -> bool) (v j : nat) : Prop := {
  ci_cells : Forall (Forall (cell_ok att)) vecs;
  ci_lens : length <$> vecs = lens;
  ci_present : exists vbits, lc_validity lc = Some vbits /\
    forall u k vec c, vecs !! u = Some vec -> vec !! k = Some c ->
      row_present buffer vbits (vstart lens u + Z.of_nat k) = Ok (present_cell c);
  ci_vrl : lc_vecRawLen lc = Some ((zlen ∘ vec_bytes) <$> vecs);
  ci_stream : exists cur, lc_cursor lc = Some cur /\ stream_at cur = Ok (rest m vecs v j)
}.

Definition col_inv (m : nat -> bool) (v j : nat) (sc : scan_column) (lc : loaded_column) (img : image) : Prop :=
  match sc_wanted sc, img with
  | true, Some vecs => chunk_inv (sc_att sc) lc vecs m v j
  | _, _ => lc = not_loaded
  end.

(** The value the scan returns for a row of a column. *)
Definition expected (v j : nat) (sc : scan_column) (img : image) : option Datum :=
  match sc_wanted sc, img with
  | false, _ => None
  | true, None => sc_missing sc
  | true, Some vecs =>
      match cell_at vecs v j with
      | Some (Some (d, _)) => Some (stored_datum (attlen (sc_att sc)) d)
      | _ => None
      end
  end.

Lemma chunk_cell att lc vecs m v j n :
  chunk_inv att lc vecs m v j -> lens !! v = Some n -> (j < n)%nat ->
  exists vec c, vecs !! v = Some vec /\ vec !! j = Some c /\ cell_ok att c /\ length vec = n.
Proof.
  intros [Hc <- _ _ _] Hn Hj. rewrite list_lookup_fmap_Some in Hn. destruct Hn as (vec & -> & Hv).
  destruct (lookup_lt_is_Some_2 vec j Hj) as [c Hcj]. exists vec, c. repeat split; try done.
  exact (Forall_lookup_1 _ _ _ _ (Forall_lookup_1 _ _ _ _ Hc Hv) Hcj).
Qed.

Lemma chunk_step att lc vecs m v j n c (bs : list Z) cur :
  chunk_inv att lc vecs m v j -> m v = false -> lens !! v = Some n ->
  cell_at vecs v j = Some c ->
  lc_cursor lc = Some cur -> bs = cell_bytes c ->
  chunk_inv att (with_cursor lc (cursor_add cur (zlen bs))) vecs m v (S j) /\
  (c = None -> chunk_inv att lc vecs m v (S j)).
Proof.
  unfold cell_at. intros Hi Hm Hn Hc Hcur ->. destruct (vecs !! v) as [vec|] eqn:Hv; [|done]. cbn in Hc.
  destruct Hi as [H1 H2 (vbits & H3 & H3') H4 (cur' & H5 & H5')]. rewrite Hcur in H5. injection H5 as <-.
  rewrite (rest_cell m vecs v vec j c Hm Hv Hc) in H5'. split.
  - split; try done; [by exists vbits|]. eexists. split; [done|]. by apply stream_advance.
  - intros ->. split; try done; [by exists vbits|]. by exists cur.
Qed.

Lemma decode_fast att p :
  (if attbyval att then
     if zlen p <? attlen att then Err "pgcolumnar: fixed-length value runs past the value stream end"
     else b ← rd p 0 (attlen att); w ← fetch_att b (attlen att); Ok (ByVal w, attlen att)
   else PgColumnarDecodeValue att p) = PgColumnarDecodeValue att p.
Proof. unfold PgColumnarDecodeValue, PgColumnarDecodeValueByLen. by destruct (attbyval att). Qed.

(** Reading a column builds the row's value and leaves the cursor at the next
    row; stepping over it leaves the cursor there too. *)
Lemma read_column_spec m v j n sc lc img :
  col_inv m v j sc lc img -> m v = false -> lens !! v = Some n -> (j < n)%nat ->
  exists lc', pgcolumnar_row_read_column buffer (vstart lens v + Z.of_nat j) sc lc
    = Ok (expected v j sc img, lc') /\ col_inv m v (S j) sc lc' img.
Proof.
  unfold col_inv, expected, pgcolumnar_row_read_column. intros Hi Hm Hn Hj.
  destruct (sc_wanted sc); cbn [negb]; [|by exists lc].
  destruct img as [vecs|]; [|subst lc; by exists not_loaded].
  destruct (chunk_cell _ _ _ _ _ _ _ Hi Hn Hj) as (vec & c & Hv & Hc & Hok & _).
  pose proof Hi as [_ _ (vbits & Hvb & Hp) _ (cur & Hcur & Hst)].
  assert (He : cell_at vecs v j = Some c) by (unfold cell_at; by rewrite Hv).
  rewrite Hvb, (Hp v j vec c Hv Hc), bind_Ok, He.
  destruct (chunk_step _ _ _ _ _ _ _ c (cell_bytes c) cur Hi Hm Hn) as [H1 H2];
    [done..|].
  destruct c as [[d b]|]; cbn [present_cell cell_bytes] in *; [|exists lc; split; [done|by apply H2]].
  rewrite Hcur, Hst, bind_Ok, decode_fast, (rest_cell m vecs v vec j _ Hm Hv Hc). cbn [cell_bytes].
  destruct (proj2 Hok (rest m vecs v (S j))) as [-> _]. rewrite bind_Ok. by eexists.
Qed.

Lemma skip_column_spec m v j n sc lc img :
  col_inv m v j sc lc img -> m v = false -> lens !! v = Some n -> (j < n)%nat ->
  exists lc', pgcolumnar_row_skip_column buffer (vstart lens v + Z.of_nat j) sc lc
    = Ok (None, lc') /\ col_inv m v (S j) sc lc' img.
Proof.
  unfold col_inv, pgcolumnar_row_skip_column. intros Hi Hm Hn Hj.
  destruct (sc_wanted sc); cbn [negb]; [|by exists lc].
  destruct img as [vecs|]; [|subst lc; by exists not_loaded].
  destruct (chunk_cell _ _ _ _ _ _ _ Hi Hn Hj) as (vec & c & Hv & Hc & Hok & _).
  pose proof Hi as [_ _ (vbits & Hvb & Hp) _ (cur & Hcur & Hst)].
  rewrite Hvb, (Hp v j vec c Hv Hc), bind_Ok.
  destruct (chunk_step _ _ _ _ _ _ _ c (cell_bytes c) cur Hi Hm Hn) as [H1 H2];
    [unfold cell_at; by rewrite Hv|done|done|].
  destruct c as [[d b]|]; cbn [present_cell cell_bytes] in *; [|exists lc; split; [done|by apply H2]].
  rewrite Hcur, Hst, bind_Ok, (rest_cell m vecs v vec j _ Hm Hv Hc). cbn [cell_bytes].
  destruct (proj2 Hok (rest m vecs v (S j))) as [_ ->]. rewrite bind_Ok. by eexists.
Qed.

(** Moving by a vector's decoded length leaves the cursor at the next vector. *)
Lemma chunk_vector att lc vecs m v n :
  chunk_inv att lc vecs m v 0 -> lens !! v = Some n ->
  exists cur vrl k, lc_cursor lc = Some cur /\ lc_vecRawLen lc = Some vrl /\ rd1 vrl (Z.of_nat v) = Ok k /\
    chunk_inv att (with_cursor lc (cursor_add cur k)) vecs m (S v) 0.
Proof.
  intros [H1 H2 H3 H4 (cur & H5 & H6)] Hn. exists cur, ((zlen ∘ vec_bytes) <$> vecs).
  rewrite <- H2, list_lookup_fmap_Some in Hn. destruct Hn as (vec & -> & Hv). exists (zlen (vec_bytes vec)).
  do 2 (split; [done|]). split.
  { pose proof (lookup_lt_Some _ _ _ Hv). rewrite rd1_Ok by (unfold zlen; rewrite length_fmap; lia). f_equal.
    unfold nthZ. rewrite Nat2Z.id. apply nth_lookup_Some. by rewrite list_lookup_fmap, Hv. }
  split; try done. eexists. split; [done|].
  unfold rest in H6. rewrite (list_lookup_total_correct _ _ _ Hv), drop_0 in H6.
  rewrite <- (zlen_hole (m v)), <- later_rest. by apply stream_advance.
Qed.

(** A row past the end of its vector is the first of the next. *)
Lemma col_inv_next m v n sc lc img :
  lens !! v = Some n -> col_inv m v n sc lc img -> col_inv m (S v) 0 sc lc img.
Proof.
  intros Hn. unfold col_inv. destruct (sc_wanted sc); [|done]. destruct img as [vecs|]; [|done].
  intros [H1 H2 H3 H4 (cur & H5 & H6)]. split; try done. exists cur. split; [done|].
  rewrite <- H2, list_lookup_fmap_Some in Hn. destruct Hn as (vec & -> & Hv).
  by rewrite (rest_end m vecs v vec Hv), later_rest in H6.
Qed.
End Columns.

(** ** All columns of a row *)

Inductive cols_rel (R : bool -> scan_column -> loaded_column -> image -> Prop)
    : list bool -> list scan_column -> list loaded_column -> list image -> Prop :=
| cols_nil : cols_rel R [] [] [] []
| cols_cons q flags sc scs lc lcs img imgs :
    R q sc lc img -> cols_rel R flags scs lcs imgs ->
    cols_rel R (q :: flags) (sc :: scs) (lc :: lcs) (img :: imgs).

Lemma cols_rel_impl (R Q : bool -> scan_column -> loaded_column -> image -> Prop) flags scs lcs imgs :
  (forall q sc lc img, R q sc lc img -> Q q sc lc img) ->
  cols_rel R flags scs lcs imgs -> cols_rel Q flags scs lcs imgs.
Proof. intros Hi. induction 1; constructor; auto. Qed.

Lemma cols_rel_reflag (R : scan_column -> loaded_column -> image -> Prop) flags flags' scs lcs imgs :
  length flags' = length flags ->
  cols_rel (fun _ => R) flags scs lcs imgs -> cols_rel (fun _ => R) flags' scs lcs imgs.
Proof.
  intros Hl Hr. revert flags' Hl. induction Hr; intros [|q' flags'] [=]; constructor; auto.
Qed.

Lemma cols_rel_lengths R flags scs lcs imgs :
  cols_rel R flags scs lcs imgs ->
  length flags = length scs /\ length lcs = length scs /\ length imgs = length scs.
Proof. induction 1 as [|???????? _ _ (IH1 & IH2 & IH3)]; cbn; [done|]. by rewrite IH1, IH2, IH3. Qed.

(** What a loop over the columns computes. *)
Fixpoint pass_row (g : bool -> option Datum -> scan_column -> image -> option Datum)
    (flags : list bool) (vals : list (option Datum)) (scs : list scan_column) (imgs : list image)
    : list (option Datum) :=
  match flags, vals, scs, imgs with
  | q :: flags, v :: vals, sc :: scs, img :: imgs => g q v sc img :: pass_row g flags vals scs imgs
  | _, _, _, _ => []
  end.

Lemma columns_pass_spec (P Q : bool -> scan_column -> loaded_column -> image -> Prop) act g
    flags vals scs lcs imgs :
  cols_rel P flags scs lcs imgs -> length vals = length scs ->
  (forall q v sc lc img, P q sc lc img ->
     exists lc', act q v sc lc = Ok (g q v sc img, lc') /\ Q q sc lc' img) ->
  exists lcs', columns_pass act flags vals scs lcs = Ok (pass_row g flags vals scs imgs, lcs') /\
    cols_rel Q flags scs lcs' imgs.
Proof.
  intros Hp Hl Hact. revert vals Hl.
  induction Hp as [|q flags sc scs lc lcs img imgs Hc Hp IH]; intros vals Hl; [by eexists; split; [|constructor]|].
  destruct vals as [|v vals]; [done|]. injection Hl as Hl. cbn [columns_pass pass_row].
  destruct (Hact q v sc lc img Hc) as (lc' & -> & Hq). rewrite bind_Ok.
  destruct (IH vals Hl) as (lcs' & -> & Hqs). rewrite bind_Ok. eexists. split; [done|]. by constructor.
Qed.

(** The slot with only the qual's columns. *)
Definition masked (flags : list bool) (row : list (option Datum)) : list (option Datum) :=
  zip_with (fun (q : bool) v => if q then v else None) flags row.

Definition expected_row `{TupMacs} (v j : nat) (scs : list scan_column) (imgs : list image) : list (option Datum) :=
  zip_with (expected v j) scs imgs.

Section PassRows.
Context `{TupMacs} (v j : nat).

Lemma pass_row_all flags vals scs imgs :
  length flags = length scs -> length vals = length scs -> length imgs = length scs ->
  pass_row (fun _ _ => expected v j) flags vals scs imgs = expected_row v j scs imgs.
Proof.
  revert flags vals imgs. induction scs as [|sc scs IH]; intros [|q flags] [|x vals] [|img imgs] [=] [=] [=]; [done|].
  unfold expected_row. cbn. f_equal. by apply IH.
Qed.

Lemma pass_row_qual flags vals scs imgs :
  length flags = length scs -> length vals = length scs -> length imgs = length scs ->
  pass_row (fun (q : bool) _ sc img => if q then expected v j sc img else None) flags vals scs imgs
  = masked flags (expected_row v j scs imgs).
Proof.
  revert flags vals imgs. induction scs as [|sc scs IH]; intros [|q flags] [|x vals] [|img imgs] [=] [=] [=]; [done|].
  unfold expected_row, masked. cbn. f_equal. by apply IH.
Qed.

Lemma pass_row_rest flags scs imgs :
  length flags = length scs -> length imgs = length scs ->
  pass_row (fun (q : bool) x sc img => if q then x else expected v j sc img) flags
    (masked flags (expected_row v j scs imgs)) scs imgs = expected_row v j scs imgs.
Proof.
  revert flags imgs. induction scs as [|sc scs IH]; intros [|q flags] [|img imgs] [=] [=]; [done|].
  unfold expected_row, masked. cbn. f_equal; [by destruct q|]. by apply IH.
Qed.

Lemma length_expected_row scs imgs : length imgs = length scs -> length (expected_row v j scs imgs) = length scs.
Proof. intros Hl. unfold expected_row. rewrite length_zip_with. lia. Qed.

Lemma length_masked flags row : length flags = length row -> length (masked flags row) = length row.
Proof. intros Hl. unfold masked. rewrite length_zip_with. lia. Qed.
End PassRows.

(** ** The loaded group *)

(** A column decoded without (at most) the vectors of the final mask. *)
Definition col_at `{TupMacs} `{VarattExternal} (buffer : list Z) (lens : list nat) (skip : nat -> bool) (v j : nat)
    (sc : scan_column) (lc : loaded_column) (img : image) : Prop :=
  exists m, (forall u, m u = true -> skip u = true) /\ col_inv buffer lens m v j sc lc img.

(** Everything of the read state but the group, the last row's flag and the
    counters. *)
Definition same_scan (rs rs' : read_state) : Prop :=
  rs_rowGroupList rs' = rs_rowGroupList rs /\ rs_counter rs' = rs_counter rs /\ rs_order rs' = rs_order rs /\
  rs_bufferMem rs' = rs_bufferMem rs /\ rs_exhausted rs' = rs_exhausted rs.

Section Group.
Context `{TupMacs} `{VarattExternal}.
Context (plan : scan_plan) (rg : FreeSpace.NativeRowGroupMetadata) (buffer : list Z) (imgs : list image)
  (lens : list nat) (skip : nat -> bool) (skips : bool) (del dead : option (list Z)).

Let V := length lens.
Let scs := p_columns plan.

Record group_at (g : group_state) (v j : nat) : Prop := {
  ga_cols : cols_rel (fun _ => col_at buffer lens skip v j) (replicate (length scs) false) scs (g_cols g) imgs;
  ga_row : g_rowInGroup g = vstart lens v + Z.of_nat j;
  ga_meta : g_meta g = rg;
  ga_buffer : g_buffer g = buffer;
  ga_del : g_deleteMask g = del;
  ga_dead : g_deadMask g = dead;
  ga_skip : if skips
    then g_skipVec g = Some (skip <$> seq 0 V) /\ g_vecStart g = Some (vstart lens <$> seq 0 (S V)) /\
         g_vectorCount g = Z.of_nat V /\ 0 <= g_curVec g <= Z.of_nat v
    else g_skipVec g = None
}.

(** What becomes of a row the producer visits. *)
Definition row_out (v j : nat) : option (Z * list (option Datum)) :=
  let r := vstart lens v + Z.of_nat j in
  let row := expected_row v j scs imgs in
  let deleted := dv_row_deleted del r in
  let dropped := match p_filter plan with
                 | Some f => deleted || negb (qual f (masked (qualCols f) row))
                 | None => deleted && (negb (p_emitDeleted plan) || dv_row_deleted dead r)
                 end in
  if dropped then None else Some (u64 (rg_firstRowNumber rg + r), row).

Context (Hrows : vstart lens V = rg_rowCount rg) (Hmax : rg_rowCount rg < 2 ^ 32).
Context (Hflags : match p_filter plan with Some f => length (qualCols f) = length scs | None => True end).

Lemma col_at_false v j n sc lc img :
  col_at buffer lens skip v j sc lc img -> skip v = false -> lens !! v = Some n -> (j < n)%nat ->
  (exists lc', pgcolumnar_row_read_column buffer (vstart lens v + Z.of_nat j) sc lc
     = Ok (expected v j sc img, lc') /\ col_at buffer lens skip v (S j) sc lc' img) /\
  (exists lc', pgcolumnar_row_skip_column buffer (vstart lens v + Z.of_nat j) sc lc
     = Ok (None, lc') /\ col_at buffer lens skip v (S j) sc lc' img).
Proof using.
  intros (m & Hm & Hi) Hs Hn Hj. assert (Hmv : m v = false).
  { destruct (m v) eqn:E; [|done]. by rewrite (Hm v E) in Hs. }
  destruct (read_column_spec buffer lens m v j n sc lc img Hi Hmv Hn Hj) as (l1 & E1 & I1).
  destruct (skip_column_spec buffer lens m v j n sc lc img Hi Hmv Hn Hj) as (l2 & E2 & I2).
  split; eexists; (split; [done|]); by exists m.
Qed.

(** Building a row under a filter. *)
Lemma filtered_row_spec f g v j n :
  p_filter plan = Some f -> group_at g v j -> skip v = false -> lens !! v = Some n -> (j < n)%nat ->
  let deleted := dv_row_deleted del (vstart lens v + Z.of_nat j) in
  let row := expected_row v j scs imgs in
  exists vals lcs, filtered_row plan f g deleted
      = Ok (vals, lcs, deleted || qual f (masked (qualCols f) row)) /\
    (deleted = false -> qual f (masked (qualCols f) row) = true -> vals = row) /\
    cols_rel (fun _ => col_at buffer lens skip v (S j)) (replicate (length scs) false) scs lcs imgs.
Proof using Hflags.
  intros Ef [Hc Hr _ Hb _ _ _] Hs Hn Hj deleted row. unfold filtered_row. rewrite Hb, Hr. fold scs.
  rewrite Ef in Hflags. destruct (cols_rel_lengths _ _ _ _ _ Hc) as (L1 & L2 & L3).
  assert (Hq : cols_rel (fun _ => col_at buffer lens skip v j) (qualCols f) scs (g_cols g) imgs).
  { eapply cols_rel_reflag; [|exact Hc]. rewrite length_replicate. done. }
  assert (Hback : forall lcs, cols_rel (fun _ => col_at buffer lens skip v (S j)) (qualCols f) scs lcs imgs ->
    cols_rel (fun _ => col_at buffer lens skip v (S j)) (replicate (length scs) false) scs lcs imgs).
  { intros lcs. apply cols_rel_reflag. by rewrite length_replicate. }
  destruct deleted; cbn [orb].
  - destruct (columns_pass_spec _ (fun _ => col_at buffer lens skip v (S j))
      (fun _ _ => pgcolumnar_row_skip_column buffer (vstart lens v + Z.of_nat j)) (fun _ _ _ _ => None)
      (qualCols f) (replicate (length scs) None) scs (g_cols g) imgs Hq) as (lcs & -> & Hl).
    { apply length_replicate. }
    { intros q x sc lc img Hi. apply (col_at_false v j n sc lc img Hi Hs Hn Hj). }
    rewrite bind_Ok. eexists _, lcs. split; [done|]. split; [done|]. by apply Hback.
  - destruct (columns_pass_spec _
      (fun q sc lc img => if (q : bool) then col_at buffer lens skip v (S j) sc lc img else col_at buffer lens skip v j sc lc img)
      (fun q _ sc lc => if (q : bool) then pgcolumnar_row_read_column buffer (vstart lens v + Z.of_nat j) sc lc else Ok (None, lc))
      (fun (q : bool) _ sc img => if q then expected v j sc img else None)
      (qualCols f) (replicate (length scs) None) scs (g_cols g) imgs Hq) as (lcs & -> & Hl).
    { apply length_replicate. }
    { intros [] x sc lc img Hi; [|by exists lc]. apply (col_at_false v j n sc lc img Hi Hs Hn Hj). }
    rewrite bind_Ok, pass_row_qual by (rewrite ?length_replicate; done). fold row.
    set (keep := qual f _).
    destruct (columns_pass_spec _ (fun _ => col_at buffer lens skip v (S j))
      (fun q x sc lc => if (q : bool) then Ok (x, lc)
         else if keep then pgcolumnar_row_read_column buffer (vstart lens v + Z.of_nat j) sc lc
         else pgcolumnar_row_skip_column buffer (vstart lens v + Z.of_nat j) sc lc)
      (fun (q : bool) x sc img => if q then x else if keep then expected v j sc img else None)
      (qualCols f) (masked (qualCols f) row) scs lcs imgs Hl) as (lcs' & -> & Hl').
    { rewrite length_masked; [by apply length_expected_row|]. unfold row. rewrite length_expected_row by done. done. }
    { intros [] x sc lc img Hi; [by exists lc|].
      destruct (col_at_false v j n sc lc img Hi Hs Hn Hj) as [Ha Hb']. by destruct keep. }
    rewrite bind_Ok. eexists _, lcs'. split; [done|]. split; [|by apply Hback].
    intros _ Hk. subst keep. rewrite Hk. by apply pass_row_rest.
Qed.

Definition next_pos (v j n : nat) : nat * nat := if (S j <? n)%nat then (v, S j) else (S v, 0%nat).

Lemma vstart_row v j n : lens !! v = Some n -> (j < n)%nat ->
  0 <= vstart lens v + Z.of_nat j < rg_rowCount rg.
Proof using Hrows.
  intros Hn Hj. pose proof (vstart_nonneg lens v). rewrite <- Hrows.
  assert (vstart lens (S v) <= vstart lens V) by (apply vstart_le; apply lookup_lt_Some in Hn; unfold V; lia).
  rewrite (vstart_S _ _ _ Hn) in *. lia.
Qed.

Lemma group_next g lcs v j n cv :
  group_at g v j -> lens !! v = Some n -> (j < n)%nat -> 0 <= cv <= Z.of_nat v ->
  cols_rel (fun _ => col_at buffer lens skip v (S j)) (replicate (length scs) false) scs lcs imgs ->
  group_at (with_row g lcs cv (u64 (g_rowInGroup g + 1))) (next_pos v j n).1 (next_pos v j n).2.
Proof using Hrows Hmax.
  intros [Hc Hr Hm Hb Hd1 Hd2 Hs] Hn Hj Hcv Hl. pose proof (vstart_row v j n Hn Hj) as Hrow.
  assert (Er : u64 (g_rowInGroup g + 1) = vstart lens v + Z.of_nat (S j)) by (rewrite Hr, u64_small; lia).
  unfold next_pos. destruct (Nat.ltb_spec (S j) n); cbn [fst snd].
  - split; cbn; try done. destruct skips; [|done]. by destruct Hs as (? & ? & ? & _).
  - assert (S j = n) as <- by lia. split; cbn; try done.
    + eapply cols_rel_impl; [|exact Hl]. intros _ sc lc img (m & Hm' & Hi). exists m. split; [done|].
      by eapply col_inv_next.
    + rewrite Er, (vstart_S _ _ _ Hn). lia.
    + destruct skips; [|done]. destruct Hs as (? & ? & ? & _). repeat split; try done; lia.
Qed.

Lemma next_row_in_group_spec rs g v j n :
  group_at g v j -> skip v = false -> lens !! v = Some n -> (j < n)%nat -> 
  exists t rs' g', next_row_in_group plan rs g = Ok t /\
    t = match row_out v j with Some (num, row) => Row rs' num row | None => Again rs' end /\
    rs_group rs' = Some g' /\ group_at g' (next_pos v j n).1 (next_pos v j n).2 /\ same_scan rs rs'.
Proof using Hrows Hmax Hflags.
  intros Hg Hs Hn Hj. pose proof Hg as [Hc Hr Hm Hb Hd1 Hd2 Hsk]. unfold next_row_in_group, row_out.
  rewrite Hd1, Hd2, Hm.
  assert (Hcv : g_skipVec g = None \/ 0 <= g_curVec g <= Z.of_nat v).
  { destruct skips; [right; apply Hsk|by left]. }
  assert (Hnext : forall lcs, cols_rel (fun _ => col_at buffer lens skip v (S j)) (replicate (length scs) false) scs lcs imgs ->
    group_at (with_row g lcs (g_curVec g) (u64 (g_rowInGroup g + 1))) (next_pos v j n).1 (next_pos v j n).2).
  { intros lcs Hl. destruct skips eqn:Esk; [apply group_next; try done; apply Hsk|].
    destruct (group_next g lcs v j n 0 Hg Hn Hj ltac:(lia) Hl) as [F1 F2 F3 F4 F5 F6 F7].
    split; try done; cbn in *. rewrite Esk in *. done. }
  case_eq (p_filter plan); [intros f Ef|intros Ef].
  - destruct (filtered_row_spec f g v j n Ef Hg Hs Hn Hj) as (vals & lcs & Hf & Hv & Hl). rewrite Hr, Hf, bind_Ok.
    rewrite <- Hr. specialize (Hnext lcs Hl). rewrite Hr in *.
    set (deleted := dv_row_deleted _ _) in *. set (row := expected_row v j (p_columns plan) imgs) in *.
    set (keep := qual f _) in *.
    destruct deleted; cbn [orb]; [by eexists _, _, _|].
    destruct keep eqn:Ek; cbn [negb orb]; [|by eexists _, _, _].
    rewrite (Hv eq_refl eq_refl). by eexists _, _, _.
  - destruct (columns_pass_spec _ (fun _ => col_at buffer lens skip v (S j))
      (fun _ _ => pgcolumnar_row_read_column (g_buffer g) (g_rowInGroup g)) (fun _ _ => expected v j)
      (replicate (length scs) false) (replicate (length scs) None) scs (g_cols g) imgs Hc) as (lcs & Hp & Hl).
    { apply length_replicate. }
    { intros q x sc lc img Hi. rewrite Hb, Hr. apply (col_at_false v j n sc lc img Hi Hs Hn Hj). }
    fold scs. rewrite Hp, bind_Ok. destruct (cols_rel_lengths _ _ _ _ _ Hc) as (L1 & L2 & L3).
    rewrite pass_row_all by (rewrite ?length_replicate; done). specialize (Hnext lcs Hl). rewrite Hr in *.
    destruct (dv_row_deleted del _), (p_emitDeleted plan), (dv_row_deleted dead _); cbn [negb andb orb]; by eexists _, _, _.
Qed.

Context (Hnone : skips = false -> forall u, skip u = false).

Lemma rd1_starts u : (u <= V)%nat -> rd1 (vstart lens <$> seq 0 (S V)) (Z.of_nat u) = Ok (vstart lens u).
Proof using.
  intros Hu. rewrite rd1_Ok by (unfold zlen; rewrite length_fmap, length_seq; lia). f_equal.
  unfold nthZ. rewrite Nat2Z.id. apply nth_lookup_Some. rewrite list_lookup_fmap, lookup_seq_lt by lia. done.
Qed.

Lemma vector_of_row_spec (fuel cv v j n : nat) :
  lens !! v = Some n -> (j < n)%nat -> (cv <= v)%nat -> (v - cv < fuel)%nat ->
  vector_of_row fuel (vstart lens <$> seq 0 (S V)) (Z.of_nat V) (vstart lens v + Z.of_nat j) (Z.of_nat cv) = Ok (Z.of_nat v).
Proof using.
  intros Hn Hj. pose proof (lookup_lt_Some _ _ _ Hn) as Hlt. fold V in Hlt.
  revert cv. induction fuel as [|fuel IH]; intros cv Hcv Hf; [lia|]. cbn [vector_of_row].
  destruct (Z.ltb_spec (Z.of_nat cv) (Z.of_nat V)); [|lia].
  replace (Z.of_nat cv + 1) with (Z.of_nat (S cv)) by lia. rewrite rd1_starts, bind_Ok by lia.
  destruct (decide (cv = v)) as [->|Hne].
  - rewrite (vstart_S _ _ _ Hn). destruct (Z.leb_spec (vstart lens v + Z.of_nat n) (vstart lens v + Z.of_nat j)); [lia|done].
  - assert (vstart lens (S cv) <= vstart lens v) by (apply vstart_le; lia).
    destruct (Z.leb_spec (vstart lens (S cv)) (vstart lens v + Z.of_nat j)); [|lia]. apply IH; lia.
Qed.

(** Stepping over a vector moves every cursor to the next one. *)
Lemma step_columns flags cols cs ims v n :
  cols_rel (fun _ => col_at buffer lens skip v 0) flags cols cs ims ->
  lens !! v = Some n ->
  exists lcs, mapM (fun lc => match lc_cursor lc, lc_vecRawLen lc with
                              | Some cur, Some vrl =>
                                  k ← rd1 vrl (Z.of_nat v); Ok (with_cursor lc (cursor_add cur k))
                              | _, _ => Ok lc
                              end) cs = Ok lcs /\
    cols_rel (fun _ => col_at buffer lens skip (S v) 0) flags cols lcs ims.
Proof using.
  intros Hc Hn. induction Hc as [|q flags sc cols lc cs img ims (m & Hm & Hi) Hc (lcs' & IHm & IH)];
    [by exists []; split; [|constructor]|].
  assert (Hone : exists lc', match lc_cursor lc, lc_vecRawLen lc with
    | Some cur, Some vrl => k ← rd1 vrl (Z.of_nat v); Ok (with_cursor lc (cursor_add cur k))
    | _, _ => Ok lc end = Ok lc' /\ col_inv buffer lens m (S v) 0 sc lc' img).
  { unfold col_inv in *. destruct (sc_wanted sc); [|subst lc; by exists not_loaded].
    destruct img as [vecs|]; [|subst lc; by exists not_loaded].
    destruct (chunk_vector _ _ _ _ _ _ _ _ Hi Hn) as (cur & vrl & k & H5 & H4 & Hk & Hi').
    rewrite H5, H4, Hk, bind_Ok. by eexists. }
  destruct Hone as (lc' & E & Hi'). cbn [mapM]. rewrite E, bind_Ok, IHm, bind_Ok. eexists. split; [done|].
  constructor; [|done]. by exists m.
Qed.

Lemma skip_vector_spec g v j n :
  group_at g v j -> skips = true -> lens !! v = Some n -> (j < n)%nat -> (skip v = true -> j = 0%nat) ->
  exists g', pgcolumnar_native_skip_current_vector g (skip <$> seq 0 V) = Ok (skip v, g') /\
    if skip v then group_at g' (S v) 0 else group_at g' v j.
Proof using.
  intros [Hc Hr Hm Hb Hd1 Hd2 Hs] Esk Hn Hj Hfresh. rewrite Esk in Hs. destruct Hs as (S1 & S2 & S3 & S4).
  unfold pgcolumnar_native_skip_current_vector. rewrite S2, S3, Hr.
  pose proof (lookup_lt_Some _ _ _ Hn) as Hlt. fold V in Hlt.
  replace (g_curVec g) with (Z.of_nat (Z.to_nat (g_curVec g))) by lia.
  rewrite (vector_of_row_spec _ _ v j n), bind_Ok by (done || lia).
  destruct (Z.leb_spec (Z.of_nat V) (Z.of_nat v)); [lia|]. rewrite Nat2Z.id.
  rewrite list_lookup_fmap, lookup_seq_lt by lia. cbn [fmap option_fmap option_map Nat.add].
  destruct (skip v) eqn:Ev.
  - rewrite (Hfresh eq_refl) in *.
    rewrite rd1_starts, bind_Ok by lia. replace (vstart lens v + Z.of_nat 0) with (vstart lens v) by lia.
    rewrite Z.eqb_refl. cbn [negb]. destruct (step_columns _ _ _ _ v n Hc Hn) as (lcs & -> & Hl). rewrite bind_Ok.
    replace (Z.of_nat v + 1) with (Z.of_nat (S v)) by lia. rewrite rd1_starts, bind_Ok by lia.
    eexists. split; [done|]. split; cbn; try done; [lia|]. rewrite Esk. repeat split; (done || lia).
  - eexists. split; [done|]. split; cbn; try done. rewrite Esk. repeat split; (done || lia).
Qed.

(** One turn at a row of the group. *)
Lemma turn_loaded_spec rs g v j n :
  group_at g v j -> lens !! v = Some n -> (j < n)%nat -> (skip v = true -> j = 0%nat) ->
  exists rs' g', turn_loaded plan rs g
      = Ok (if skip v then Again rs'
            else match row_out v j with Some (num, row) => Row rs' num row | None => Again rs' end) /\
    rs_group rs' = Some g' /\ same_scan rs rs' /\
    (if skip v then group_at g' (S v) 0 else group_at g' (next_pos v j n).1 (next_pos v j n).2).
Proof using Hrows Hmax Hflags Hnone.
  intros Hg Hn Hj Hfresh. unfold turn_loaded. pose proof (ga_skip _ _ _ Hg) as Hs.
  assert (Hcase : skips = true \/ skips = false) by (by destruct skips; auto).
  destruct Hcase as [Esk|Esk]; rewrite Esk in Hs.
  - destruct Hs as (-> & _). destruct (skip_vector_spec g v j n Hg Esk Hn Hj Hfresh) as (g1 & -> & Hg1).
    rewrite bind_Ok. destruct (skip v) eqn:Ev; [by eexists _, _|].
    destruct (next_row_in_group_spec (with_group rs g1) g1 v j n Hg1 Ev Hn Hj)
      as (t & rs' & g' & -> & -> & Hr & Hg' & Hsame). exists rs', g'. done.
  - rewrite Hs. pose proof (Hnone Esk v) as Ev. rewrite Ev.
    destruct (next_row_in_group_spec rs g v j n Hg Ev Hn Hj) as (t & rs' & g' & -> & -> & Hr & Hg' & Hsame).
    by exists rs', g'.
Qed.
End Group.

(** ** Runs of the producer *)

Section Runs.
Context `{PageLayout} `{BlockCodecs} `{TupMacs} `{VarattExternal}.
Context (plan : scan_plan) (tables : GroupTables) (rel : list page).

(** Turns from one state to another and the rows they return. *)
Inductive runs : nat -> read_state -> list (Z * list (option Datum)) -> read_state -> Prop :=
| runs_refl rs : runs 0 rs [] rs
| runs_again rs rs1 k out rs' :
    rs_exhausted rs = false -> next_row_turn plan tables rel rs = Ok (Again rs1) ->
    runs k rs1 out rs' -> runs (S k) rs out rs'
| runs_row rs rs1 n row k out rs' :
    rs_exhausted rs = false -> next_row_turn plan tables rel rs = Ok (Row rs1 n row) ->
    runs k rs1 out rs' -> runs (S k) rs ((n, row) :: out) rs'.

Lemma runs_app k1 k2 rs1 rs2 rs3 out1 out2 :
  runs k1 rs1 out1 rs2 -> runs k2 rs2 out2 rs3 -> runs (k1 + k2) rs1 (out1 ++ out2) rs3.
Proof. induction 1; intros Hr; cbn; [done|by eapply runs_again; eauto|by eapply runs_row; eauto]. Qed.

(** The caller's loop over a run that ends. *)
Lemma next_row_runs k rs out rs' turns :
  runs k rs out rs' -> (k < turns)%nat -> rs_exhausted rs' = false ->
  (exists rs'', next_row_turn plan tables rel rs' = Ok (Exhausted rs'') /\ rs_exhausted rs'' = true) ->
  exists rs1, pgcolumnar_native_next_row plan tables rel turns rs = Ok (head out, rs1) /\
    match out with
    | [] => rs_exhausted rs1 = true
    | _ :: out => exists k1, (k1 < k)%nat /\ runs k1 rs1 out rs'
    end.
Proof.
  intros Hr. revert turns. induction Hr as [rs|rs rs1 k out rs' Hx Ht Hr IH|rs rs1 n row k out rs' Hx Ht Hr IH];
    intros turns Hk Hx' Hend; (destruct turns as [|turns]; [lia|]); cbn [pgcolumnar_native_next_row].
  - rewrite Hx'. destruct Hend as (rs'' & -> & Hex). rewrite bind_Ok. by exists rs''.
  - rewrite Hx, Ht, bind_Ok. destruct (IH turns ltac:(lia) Hx' Hend) as (rs2 & E & Hrest).
    exists rs2. split; [done|]. destruct out; [done|]. destruct Hrest as (k1 & ? & ?). exists k1. split; [lia|done].
  - rewrite Hx, Ht, bind_Ok. exists rs1. split; [done|]. exists k. split; [lia|done].
Qed.

Lemma scan_rows_runs k rs out rs' turns fuel :
  runs k rs out rs' -> (k < turns)%nat -> (length out < fuel)%nat -> rs_exhausted rs' = false ->
  (exists rs'', next_row_turn plan tables rel rs' = Ok (Exhausted rs'') /\ rs_exhausted rs'' = true) ->
  exists rs1, scan_rows plan tables rel fuel turns rs = Ok (out, rs1) /\ rs_exhausted rs1 = true.
Proof.
  revert k rs fuel. induction out as [|row out IH]; intros k rs fuel Hr Hk Hf Hx Hend;
    (destruct fuel as [|fuel]; [cbn in Hf; lia|]); cbn [scan_rows];
    destruct (next_row_runs k rs _ rs' turns Hr Hk Hx Hend) as (rs1 & -> & Hrest); rewrite bind_Ok; cbn [head].
  - by exists rs1.
  - destruct Hrest as (k1 & Hk1 & Hr1). cbn in Hf. destruct (IH k1 rs1 fuel Hr1 ltac:(lia) ltac:(lia) Hx Hend) as (rs2 & -> & He).
    rewrite bind_Ok. by exists rs2.
Qed.
End Runs.

(** ** A whole group *)

Section GroupRun.
Context `{PageLayout} `{BlockCodecs} `{TupMacs} `{VarattExternal}.
Context (plan : scan_plan) (tables : GroupTables) (rel : list page).
Context (rg : FreeSpace.NativeRowGroupMetadata) (buffer : list Z) (imgs : list image)
  (lens : list nat) (skip : nat -> bool) (skips : bool) (del dead : option (list Z)).

Let V := length lens.
Let at_ := group_at plan rg buffer imgs lens skip skips del dead.
Let out_at := row_out plan rg imgs lens del dead.

Context (Hrows : vstart lens V = rg_rowCount rg) (Hmax : rg_rowCount rg < 2 ^ 32).
Context (Hpos : Forall (fun n => (0 < n)%nat) lens).
Context (Hflags : match p_filter plan with Some f => length (qualCols f) = length (p_columns plan) | None => True end).
Context (Hnone : skips = false -> forall u, skip u = false).

(** The rows of the group the producer returns, from a position on. *)
Definition vec_out (v j : nat) : list (Z * list (option Datum)) :=
  if skip v then [] else omap (out_at v) (seq j (lens !!! v - j)).
Definition out_from (v j : nat) : list (Z * list (option Datum)) :=
  vec_out v j ++ concat ((fun u => vec_out u 0) <$> seq (S v) (V - S v)).

Lemma out_from_later v : concat ((fun u => vec_out u 0) <$> seq v (V - v)) = out_from v 0.
Proof using.
  unfold out_from. destruct (decide (v < V)%nat) as [Hv|Hv].
  - replace (V - v)%nat with (S (V - S v)) by lia. done.
  - replace (V - v)%nat with 0%nat by lia. replace (V - S v)%nat with 0%nat by lia.
    unfold vec_out. rewrite list_lookup_total_alt, lookup_ge_None_2 by lia. cbn. by destruct (skip v).
Qed.

Lemma out_from_skip v : skip v = true -> out_from v 0 = out_from (S v) 0.
Proof using. intros Hs. rewrite <- (out_from_later (S v)). unfold out_from at 1, vec_out at 1. by rewrite Hs. Qed.

Lemma out_from_row v j n : skip v = false -> lens !! v = Some n -> (j < n)%nat ->
  out_from v j = match out_at v j with Some r => [r] | None => [] end
                 ++ out_from (next_pos v j n).1 (next_pos v j n).2.
Proof using.
  intros Hs Hn Hj. unfold out_from at 1, vec_out at 1. rewrite Hs, (list_lookup_total_correct _ _ _ Hn).
  replace (n - j)%nat with (S (n - S j)) by lia.
  assert (Hv : omap (out_at v) (seq j (S (n - S j)))
    = match out_at v j with Some r => [r] | None => [] end ++ omap (out_at v) (seq (S j) (n - S j))).
  { cbn [seq]. cbn [omap list_omap]. by destruct (out_at v j). }
  rewrite Hv, <- app_assoc. f_equal.
  unfold next_pos. destruct (Nat.ltb_spec (S j) n); cbn [fst snd].
  - unfold out_from, vec_out. by rewrite Hs, (list_lookup_total_correct _ _ _ Hn).
  - replace (n - S j)%nat with 0%nat by lia. by rewrite <- out_from_later.
Qed.

(** With the group loaded and rows left, a turn is the turn of the group. *)
Lemma turn_resume rs g v j n :
  rs_group rs = Some g -> at_ g v j -> lens !! v = Some n -> (j < n)%nat ->
  next_row_turn plan tables rel rs = turn_loaded plan rs g.
Proof using Hrows.
  intros Hg Ha Hn Hj. unfold next_row_turn. rewrite Hg.
  rewrite (ga_meta _ _ _ _ _ _ _ _ _ _ _ _ Ha), (ga_row _ _ _ _ _ _ _ _ _ _ _ _ Ha).
  pose proof (vstart_row rg lens Hrows v j n Hn Hj).
  destruct (Z.leb_spec (rg_rowCount rg) (vstart lens v + Z.of_nat j)); [lia|]. by rewrite bind_Ok.
Qed.

Lemma same_scan_trans a b c : same_scan a b -> same_scan b c -> same_scan a c.
Proof using. unfold same_scan. intros (?&?&?&?&?) (?&?&?&?&?). repeat split; congruence. Qed.

(** The turns of a loaded group, the first of them taken apart: it may come
    straight from the load. *)
Lemma group_turns left : forall rs g v j n,
  at_ g v j -> lens !! v = Some n -> (j < n)%nat -> (skip v = true -> j = 0%nat) ->
  rg_rowCount rg - (vstart lens v + Z.of_nat j) <= Z.of_nat left -> rs_exhausted rs = false ->
  exists t rs1 k out rs' g', turn_loaded plan rs g = Ok t /\
    ((t = Again rs1 /\ out = out_from v j) \/
     (exists num row, t = Row rs1 num row /\ (num, row) :: out = out_from v j)) /\
    (k < left)%nat /\ runs plan tables rel k rs1 out rs' /\
    rs_group rs' = Some g' /\ at_ g' V 0 /\ same_scan rs rs'.
Proof using Hrows Hmax Hpos Hflags Hnone.
  induction left as [|left IH]; intros rs g v j n Ha Hn Hj Hfresh Hleft Hx;
    pose proof (vstart_row rg lens Hrows v j n Hn Hj) as Hrow; [lia|].
  pose proof (lookup_lt_Some _ _ _ Hn) as Hlt. fold V in Hlt.
  destruct (turn_loaded_spec plan rg buffer imgs lens skip skips del dead Hrows Hmax Hflags Hnone rs g v j n Ha Hn Hj Hfresh)
    as (rs1 & g1 & Ht & Hg1 & Hsame & Hat).
  set (p := if skip v then (S v, 0%nat) else next_pos v j n).
  assert (Hp : at_ g1 p.1 p.2) by (unfold p; by destruct (skip v)).
  assert (Hout : exists out, out = out_from p.1 p.2 /\
    ((skip v = true /\ out = out_from v j) \/
     (skip v = false /\ out_from v j = match out_at v j with Some r => [r] | None => [] end ++ out))).
  { eexists. split; [done|]. unfold p. destruct (skip v) eqn:Ev; [left|right]; (split; [done|]).
    - rewrite (Hfresh eq_refl). symmetry. by apply out_from_skip.
    - by apply out_from_row. }
  assert (Hvalid : (p.1 = V /\ p.2 = 0%nat) \/
    exists n', lens !! p.1 = Some n' /\ (p.2 < n')%nat /\ (skip p.1 = true -> p.2 = 0%nat) /\
      rg_rowCount rg - (vstart lens p.1 + Z.of_nat p.2) <= Z.of_nat left).
  { assert (Hstart : vstart lens v + Z.of_nat j + 1 <= vstart lens p.1 + Z.of_nat p.2 /\
      ((p.1 = v /\ p.2 = S j /\ (S j < n)%nat /\ skip v = false) \/ (p.1 = S v /\ p.2 = 0%nat))).
    { unfold p, next_pos. destruct (skip v) eqn:Ev; cbn [fst snd].
      - rewrite (vstart_S _ _ _ Hn), (Hfresh eq_refl) in *. split; [lia|by right].
      - destruct (Nat.ltb_spec (S j) n); cbn [fst snd]; [split; [lia|by left]|].
        rewrite (vstart_S _ _ _ Hn). split; [lia|by right]. }
    destruct Hstart as [Hs [(E1 & E2 & Hn' & Ev)|(E1 & E2)]]; rewrite E1, E2 in *.
    - right. exists n. rewrite Ev. repeat split; [done|lia|done|lia].
    - destruct (decide (S v = V)) as [->|Hne]; [by left|right].
      destruct (lookup_lt_is_Some_2 lens (S v)) as [n' Hn']; [fold V; lia|]. exists n'.
      repeat split; [done| |lia]. exact (Forall_lookup_1 _ _ _ _ Hpos Hn'). }
  assert (Hx1 : rs_exhausted rs1 = false) by (destruct Hsame as (_ & _ & _ & _ & ->); done).
  assert (Hrest : exists k rs' g', (k < S left)%nat /\ runs plan tables rel k rs1 (out_from p.1 p.2) rs' /\
    rs_group rs' = Some g' /\ at_ g' V 0 /\ same_scan rs1 rs').
  { destruct Hvalid as [(E1 & E2)|(n' & Hn' & Hj' & Hf' & Hl')].
    - rewrite E1, E2 in *. exists 0%nat, rs1, g1. split; [lia|]. split; [|split; [done|]; split; [exact Hp|by unfold same_scan]].
      rewrite <- out_from_later. replace (V - V)%nat with 0%nat by lia. apply runs_refl.
    - destruct (IH rs1 g1 p.1 p.2 n' Hp Hn' Hj' Hf' Hl' Hx1)
        as (t & rs2 & k & out & rs' & g' & Htl & Hcase & Hk & Hr & Hg' & Ha' & Hs').
      exists (S k), rs', g'. split; [lia|]. split; [|done].
      pose proof (turn_resume rs1 g1 p.1 p.2 n' Hg1 Hp Hn' Hj') as Hres. rewrite Htl in Hres.
      destruct Hcase as [(-> & <-)|(num & row & -> & <-)]; [by eapply runs_again|by eapply runs_row]. }
  destruct Hrest as (k & rs' & g' & Hk & Hr & Hg' & Ha' & Hs').
  destruct Hout as (out & -> & Hcase).
  eexists _, rs1, k, (out_from p.1 p.2), rs', g'. split; [exact Ht|]. split.
  - destruct Hcase as [(-> & ->)|(-> & ->)]; [by left|].
    change (row_out plan rg imgs lens del dead v j) with (out_at v j).
    destruct (out_at v j) as [[num row]|]; [right; by eexists _, _|by left].
  - do 4 (split; [done|]). by eapply same_scan_trans.
Qed.
End GroupRun.
