(* ===== verification/ScanLoad.v ===== *)
(** * Loading a stored row group

    [load_claimed_group] of [Scan] on a row group as the writer lays it out:
    the bytes of the projected columns reach the group buffer, every projected
    column is decoded in one of the two passes, and the vectors that were left
    out hold no row that satisfies the pushed-down predicates or passes the
    qual. *)

From stdpp Require Import sorting.
From S2P Require Import Prelude BitPack Codec Varlena BitSet Compress Encdesc Flush NativeRead.
From S2P Require Import Value ZoneMap Catalog GroupSkip Storage FreeSpace Scan ScanRows.

(** ** One stored chunk *)

(** The writer's buffer of a vector of cells. *)
Definition cell_flag (c : cell) : Z := if present_cell c then 1 else 0.
Definition cell_group (vec : list cell) : ChunkGroupBuffer :=
  mkGroup (zlen vec) (mkCol (vec_bytes vec) (cell_flag <$> vec) (zlen (filter (fun b => b <> 0) (cell_flag <$> vec)))).

Lemma streams_cells vecs : streams (cell_group <$> vecs) = vec_bytes <$> vecs.
Proof. unfold streams. rewrite <- list_fmap_compose. done. Qed.

Lemma exists_cells vecs : all_exists (cell_group <$> vecs) = cell_flag <$> concat vecs.
Proof.
  unfold all_exists. rewrite <- list_fmap_compose. induction vecs as [|vec vecs IH]; [done|].
  cbn. rewrite fmap_app. f_equal. exact IH.
Qed.

Lemma zlen_concat_cells (vecs : list (list cell)) : zlen (concat vecs) = vstart (length <$> vecs) (length vecs).
Proof.
  unfold vstart, zlen. f_equal. rewrite take_ge by (by rewrite length_fmap).
  induction vecs as [|vec vecs IH]; [done|]. cbn. rewrite length_app. by f_equal.
Qed.

Lemma lookup_concat_cells (vecs : list (list cell)) u vec k c :
  vecs !! u = Some vec -> vec !! k = Some c ->
  concat vecs !! Z.to_nat (vstart (length <$> vecs) u + Z.of_nat k) = Some c.
Proof.
  revert u. induction vecs as [|vec' vecs IH]; intros u Hu Hk; [done|]. destruct u as [|u].
  - injection Hu as ->. cbn. replace (Z.to_nat (vstart _ 0 + Z.of_nat k)) with k by (unfold vstart; cbn; lia).
    rewrite lookup_app_l; [done|]. by eapply lookup_lt_Some.
  - cbn in Hu. specialize (IH u Hu Hk). cbn [concat]. rewrite lookup_app_r.
    + rewrite <- IH. f_equal. unfold vstart. cbn. lia.
    + unfold vstart. cbn. lia.
Qed.

(** The chunk bytes, descriptor and codec store the column's vectors. *)
Definition chunk_stored `{BlockCodecs} (att : Form_pg_attribute) (vecs : list (list cell)) (r : FlushColumnResult)
    : Prop :=
  let groups := cell_group <$> vecs in
  let ex := all_exists groups in
  Forall (group_ok att) groups /\ zlen vecs < 2 ^ 28 /\ zlen ex <= 8 * MaxAllocSize /\
  compressible (zlen (concat (streams groups))) /\
  exists vbytes data region, fchunk r = vbytes ++ data /\
    validity_stored ex ((zlen ex + 7) / 8) vbytes /\
    described att (no_validity_flag ex) groups (fdescriptor r) region /\
    stored_as region data (fblockCodec r) /\ zlen data <= zlen (concat (streams groups)).

(** The decoder's mask as a function of the vector. *)
Definition mask_of (skipVec : option (list bool)) (v : nat) : bool :=
  match skipVec with Some skip => nth v skip false | None => false end.

Lemma visible_rest skipVec vecs :
  concat (visible (skip_flag skipVec) (cell_group <$> vecs)) = rest (mask_of skipVec) vecs 0 0.
Proof.
  rewrite <- later_rest. unfold later, visible. f_equal. apply list_eq. intros i.
  rewrite list_lookup_imap, !list_lookup_fmap, Nat.sub_0_r. destruct (vecs !! i) as [vec|] eqn:Hi.
  - rewrite lookup_seq_lt by (by eapply lookup_lt_Some). cbn.
    rewrite (list_lookup_total_correct _ _ _ Hi). unfold mask_of, skip_flag, hole.
    destruct skipVec as [skip|]; cbn; [|done]. by rewrite Nat2Z.id.
  - rewrite lookup_ge_None in Hi. rewrite lookup_seq_ge by lia. done.
Qed.

Section ChunkLoad.
Context `{BlockCodecs} `{TupMacs} `{VarattExternal}.

(** Loading the chunk from wherever it lies in the group's buffer gives a
    column at its first row. *)
Lemma chunk_load att vecs r pre post off blen skipVec :
  chunk_stored att vecs r -> Forall (Forall (cell_ok att)) vecs ->
  zlen pre + zlen (fchunk r) <= blen ->
  let buffer := pre ++ fchunk r ++ post in
  exists v d, native_load_chunk att
      (NativeRead.mkRowGroup off blen (zlen (concat vecs)))
      (mkChunk (off + zlen pre) (zlen (fchunk r)) (fdescriptor r) (fblockCodec r)) buffer (skip_flag skipVec)
    = Ok (v, Decoded d) /\ zlen (vecRawLen d) = zlen vecs /\
    chunk_inv buffer (length <$> vecs) att
      (mkLoaded (Some v) (Some (mkCursor (rawBuf d) 0 (rawTotal d))) (Some (vecRawLen d)))
      vecs (mask_of skipVec) 0 0.
Proof.
  intros (Hg & Hn & Hex & Hsz & vbytes & data & region & Hch & Hval & Hd & Hst & Hdl) Hcells Hblen buffer.
  subst buffer. rewrite Hch in *.
  destruct (native_load_chunk_spec att (skip_flag skipVec) (cell_group <$> vecs) vbytes data (fdescriptor r) region
    (fblockCodec r) Hg) with (pre := pre) (post := post) (off := off) (blen := blen)
    as (v & d & Hl & Hp & Hbuf & Htot & Hvrl); try done.
  { unfold zlen in *. by rewrite length_fmap. }
  rewrite exists_cells in Hl, Hp. rewrite visible_rest in Hbuf. rewrite streams_cells in Htot, Hvrl.
  assert (El : zlen (cell_flag <$> concat vecs) = zlen (concat vecs)) by (unfold zlen; by rewrite length_fmap).
  rewrite El in Hl. exists v, d. split; [exact Hl|].
  split; [rewrite Hvrl; unfold zlen; by rewrite !length_fmap|].
  split; try done.
  - exists v. split; [done|]. intros u k vec c Hu Hk. pose proof (vstart_nonneg (length <$> vecs) u).
    rewrite (Hp _ (cell_flag c)); [|rewrite list_lookup_fmap, (lookup_concat_cells vecs u vec k c Hu Hk); done|lia].
    f_equal. by destruct c.
  - cbn. rewrite Hvrl, <- list_fmap_compose. done.
  - eexists. split; [done|]. unfold stream_at. cbn [vend vpos vbuf].
    assert (Ht : zlen (rest (mask_of skipVec) vecs 0 0) = rawTotal d).
    { rewrite <- visible_rest, Htot. pose proof (outs_len (cell_group <$> vecs) (skip_flag skipVec)) as Ho.
      rewrite streams_cells in Ho. exact Ho. }
    pose proof (zlen_nonneg (concat (vec_bytes <$> vecs))).
    destruct (Z.ltb_spec (rawTotal d) 0); [lia|]. rewrite Z.sub_0_r, rd_Ok; [by rewrite drop_0, Hbuf|lia|lia|].
    rewrite <- Hbuf in Ht. unfold zlen in *. rewrite length_take in Ht. lia.
Qed.
End ChunkLoad.

(** ** The row group's bytes *)

Definition result_bytes (r : option FlushColumnResult) : list Z := match r with Some r => fchunk r | None => [] end.

(** The chunks back to back, in column order. *)
Definition group_data (results : list (option FlushColumnResult)) : list Z := concat (result_bytes <$> results).
Definition chunk_offset (results : list (option FlushColumnResult)) (c : nat) : Z := zlen (group_data (take c results)).

Definition chunk_row (sid gn rows fo : Z) (results : list (option FlushColumnResult)) (c : nat)
    (r : FlushColumnResult) : ColumnChunkRow :=
  mkChunkRow sid gn (Z.of_nat c) rows
    (mkChunk (fo + chunk_offset results c) (zlen (fchunk r)) (fdescriptor r) (fblockCodec r)).

Definition rows_at (sid gn rows fo : Z) (results : list (option FlushColumnResult)) (c : nat) : list ColumnChunkRow :=
  match results !! c with Some (Some r) => [chunk_row sid gn rows fo results c r] | _ => [] end.

(** The [column_chunk] rows of the group. *)
Definition layout (sid gn rows fo : Z) (results : list (option FlushColumnResult)) : list ColumnChunkRow :=
  concat (rows_at sid gn rows fo results <$> seq 0 (length results)).

Lemma group_data_app a b : group_data (a ++ b) = group_data a ++ group_data b.
Proof. unfold group_data. by rewrite fmap_app, concat_app. Qed.

Lemma chunk_offset_S results c o :
  results !! c = Some o -> chunk_offset results (S c) = chunk_offset results c + zlen (result_bytes o).
Proof.
  intros Hc. unfold chunk_offset. rewrite (take_S_r _ _ _ Hc), group_data_app, zlen_app. f_equal.
  unfold group_data. cbn. by rewrite app_nil_r.
Qed.

Lemma chunk_offset_all results : chunk_offset results (length results) = zlen (group_data results).
Proof. unfold chunk_offset. by rewrite take_ge. Qed.

Lemma chunk_offset_0 results : chunk_offset results 0 = 0.
Proof. done. Qed.

Lemma chunk_offset_nonneg results c : 0 <= chunk_offset results c.
Proof. apply zlen_nonneg. Qed.

Lemma chunk_offset_end results c o :
  results !! c = Some o -> chunk_offset results c + zlen (result_bytes o) <= zlen (group_data results).
Proof.
  intros Hc. rewrite <- (chunk_offset_S _ _ _ Hc). unfold chunk_offset.
  rewrite <- (take_drop (S c) results) at 2. rewrite group_data_app, zlen_app.
  pose proof (zlen_nonneg (group_data (drop (S c) results))). lia.
Qed.

Lemma group_data_chunk results c r :
  results !! c = Some (Some r) ->
  exists post, group_data results = group_data (take c results) ++ fchunk r ++ post.
Proof.
  intros Hc. exists (group_data (drop (S c) results)). rewrite <- (take_drop_middle results c _ Hc) at 1.
  rewrite group_data_app. f_equal.
Qed.

(** The buffer has the chunk of column [c] in its place. *)
Definition holds_chunk (results : list (option FlushColumnResult)) (buffer : list Z) (c : nat) : Prop :=
  forall r, results !! c = Some (Some r) ->
    exists pre post, buffer = pre ++ fchunk r ++ post /\ zlen pre = chunk_offset results c.

(** A buffer that agrees with the group's bytes where the chunk lies. *)
Lemma holds_chunk_agree results buffer c :
  zlen (group_data results) <= zlen buffer ->
  (forall r i, results !! c = Some (Some r) -> chunk_offset results c <= Z.of_nat i < chunk_offset results c + zlen (fchunk r) ->
     buffer !! i = group_data results !! i) ->
  holds_chunk results buffer c.
Proof.
  intros Hlen Hag r Hc. set (off := Z.to_nat (chunk_offset results c)).
  pose proof (chunk_offset_nonneg results c). pose proof (chunk_offset_end _ _ _ Hc) as Hend. cbn in Hend.
  pose proof (zlen_nonneg (fchunk r)).
  exists (take off buffer), (drop (off + length (fchunk r)) buffer). split.
  - rewrite <- (take_drop off buffer) at 1. f_equal.
    rewrite <- (take_drop (length (fchunk r)) (drop off buffer)) at 1. rewrite drop_drop. f_equal.
    destruct (group_data_chunk _ _ _ Hc) as (post & Hd).
    apply list_eq. intros i. destruct (decide (i < length (fchunk r))%nat) as [Hi|Hi].
    + rewrite lookup_take_lt, lookup_drop by done. rewrite (Hag r (off + i)%nat Hc) by (unfold off, zlen in *; lia).
      assert (E : length (group_data (take c results)) = off) by (unfold off, chunk_offset, zlen; lia).
      rewrite Hd, lookup_app_r by lia. rewrite E, lookup_app_l by lia. f_equal. lia.
    + rewrite lookup_take_ge by lia. rewrite lookup_ge_None_2; [done|lia].
  - unfold zlen in *. rewrite length_take. unfold off. lia.
Qed.

(** ** Projected reads *)

Section ReadRanges.
Context `{HPL : PageLayoutLaws} (stream : bool) (rel : list page) (fo : Z) (data : list Z).
Context (Hfo : 0 <= fo) (Hmax : fo + zlen data <= (2 ^ 32 - 1) * COLUMNAR_BYTES_PER_PAGE).
Context (Hfile : holds_at rel fo data).

Let inside (r : PgColumnarByteRange) : Prop := fo <= r.1 /\ r.1 <= r.2 /\ r.2 <= fo + zlen data.
Let covered (rs : list PgColumnarByteRange) (i : nat) : Prop :=
  exists r, r ∈ rs /\ r.1 <= fo + Z.of_nat i < r.2.

Lemma read_one s e : inside (s, e) ->
  PgColumnarReadLogicalData stream rel s (e - s)
  = Ok (take (Z.to_nat (e - s)) (drop (Z.to_nat (s - fo)) data)).
Proof using HPL Hfo Hmax Hfile.
  unfold inside. cbn. intros (H1 & H2 & H3). set (b := take _ _).
  assert (Hb : zlen b = e - s) by (unfold b, zlen in *; rewrite length_take, length_drop; lia).
  rewrite <- Hb. apply ReadLogicalData_holds; [lia|lia|].
  replace s with (fo + (s - fo)) by lia. apply holds_sub; [lia..|done].
Qed.

Lemma read_ranges_spec rs buffer :
  Forall inside rs -> zlen data <= zlen buffer ->
  exists buffer', read_ranges stream rel fo rs buffer = Ok buffer' /\ zlen buffer' = zlen buffer /\
    forall i, (i < length data)%nat -> covered rs i \/ buffer !! i = data !! i -> buffer' !! i = data !! i.
Proof using HPL Hfo Hmax Hfile.
  revert buffer. induction rs as [|[s e] rs IH]; intros buffer Hin Hlen; cbn [read_ranges].
  { exists buffer. split; [done|]. split; [done|]. intros i _ [(r & Hr & _)|He]; [by apply not_elem_of_nil in Hr|done]. }
  apply list.Forall_cons in Hin as [Hse Hin]. pose proof Hse as (H1 & H2 & H3). cbn in H1, H2, H3.
  rewrite read_one, bind_Ok by done. set (b := take _ _).
  assert (Hb : zlen b = e - s) by (unfold b, zlen in *; rewrite length_take, length_drop; lia).
  rewrite wr_Ok, bind_Ok by lia. set (buf := _ ++ b ++ _).
  assert (Hbuf : zlen buf = zlen buffer).
  { unfold buf. rewrite !zlen_app. unfold zlen in *. rewrite length_take, length_drop. lia. }
  assert (Hval : forall i, (i < length data)%nat ->
    buf !! i = if decide (s <= fo + Z.of_nat i < e) then data !! i else buffer !! i).
  { intros i Hi. unfold buf. assert (Hlt : length (take (Z.to_nat (s - fo)) buffer) = Z.to_nat (s - fo))
      by (rewrite length_take; unfold zlen in *; lia).
    destruct (decide (i < Z.to_nat (s - fo))%nat).
    { rewrite lookup_app_l, lookup_take_lt by lia. rewrite decide_False by lia. done. }
    rewrite lookup_app_r, Hlt by lia. destruct (decide (i < Z.to_nat (e - fo))%nat).
    { rewrite lookup_app_l by (unfold zlen in *; lia). rewrite decide_True by lia. unfold b.
      rewrite lookup_take_lt, lookup_drop by lia. f_equal. lia. }
    rewrite lookup_app_r by (unfold zlen in *; lia). rewrite decide_False by lia. rewrite lookup_drop. f_equal.
    unfold zlen in *. lia. }
  destruct (IH buf Hin) as (buffer' & -> & Hl' & Hv'); [lia|]. exists buffer'. split; [done|]. split; [lia|].
  intros i Hi Hc. apply Hv'; [done|]. rewrite Hval by done. destruct (decide _) as [|Hn]; [by right|].
  destruct Hc as [(r & [->|Hr]%elem_of_cons & Hri)|He]; [done|left; by exists r|by right].
Qed.

(** Coalescing keeps what sorted ranges cover. *)
Lemma coalesce_reads_spec cur rs :
  inside cur -> Forall inside rs -> StronglySorted byte_range_le (cur :: rs) ->
  Forall inside (coalesce cur rs) /\ forall i, covered (cur :: rs) i -> covered (coalesce cur rs) i.
Proof using.
  revert cur. induction rs as [|r rs IH]; intros cur Hcur Hin Hs; cbn [coalesce].
  { split; [by constructor|done]. }
  apply list.Forall_cons in Hin as [Hr Hin]. apply StronglySorted_inv in Hs as [Hs Hle].
  apply list.Forall_cons in Hle as [Hle Hles]. unfold byte_range_le in Hle.
  pose proof Hcur as (C1 & C2 & C3). pose proof Hr as (R1 & R2 & R3). destruct (Z.leb_spec r.1 cur.2).
  - set (m := (cur.1, if cur.2 <? r.2 then r.2 else cur.2)).
    assert (Hm : inside m) by (unfold inside, m; cbn; destruct (Z.ltb_spec cur.2 r.2); lia).
    destruct (IH m Hm Hin) as [I1 I2].
    { constructor; [by apply StronglySorted_inv in Hs as []|]. done. }
    split; [done|]. intros i (x & Hx & Hxi). apply I2. apply elem_of_cons in Hx as [->|Hx].
    { exists m. split; [apply list_elem_of_here|]. unfold m. cbn. destruct (Z.ltb_spec cur.2 r.2); lia. }
    apply elem_of_cons in Hx as [->|Hx]; [|exists x; split; [by apply list_elem_of_further|done]].
    exists m. split; [apply list_elem_of_here|]. unfold m. cbn. destruct (Z.ltb_spec cur.2 r.2); lia.
  - destruct (IH r Hr Hin Hs) as [I1 I2]. split; [by constructor|]. intros i (x & Hx & Hxi).
    apply elem_of_cons in Hx as [->|Hx]; [exists cur; split; [apply list_elem_of_here|done]|].
    destruct (I2 i) as (y & Hy & Hyi); [by exists x|]. exists y. split; [by apply list_elem_of_further|done].
Qed.
End ReadRanges.

(** ** The bytes of the projected columns reach the buffer *)

Section GroupBytes.
Context `{HPL : PageLayoutLaws} (stream : bool) (rel : list page) (cols : list scan_column)
  (rg : FreeSpace.NativeRowGroupMetadata) (sid gn rows : Z) (results : list (option FlushColumnResult)).

Let data := group_data results.
Let fo := rg_fileOffset rg.
Let rows_of := rows_at sid gn rows fo results.

Context (Hncols : length results = length cols) (Hblen : rg_byteLength rg = zlen data).
Context (Hfo : 0 <= fo) (Hmax : fo + zlen data <= (2 ^ 32 - 1) * COLUMNAR_BYTES_PER_PAGE).
Context (Hfile : holds_at rel fo data).

Lemma file_end_small : fo + zlen data < 2 ^ 64.
Proof using HPL Hmax. clear Hncols Hblen Hfo Hfile. pose proof header_pos. pose proof page_fits. pose proof page_small. unfold COLUMNAR_BYTES_PER_PAGE in Hmax. nia. Qed.

Definition chunk_range (c : nat) (r : FlushColumnResult) : PgColumnarByteRange :=
  (fo + chunk_offset results c, fo + chunk_offset results c + zlen (fchunk r)).

(** The span of every wanted chunk among the first [c] columns is collected. *)
Definition collected (c : nat) (rs : list PgColumnarByteRange) : Prop :=
  Forall (fun r => fo <= r.1 /\ r.1 <= r.2 /\ r.2 <= fo + zlen data) rs /\
  forall k r sc, (k < c)%nat -> results !! k = Some (Some r) -> cols !! k = Some sc -> sc_wanted sc = true ->
    0 < zlen (fchunk r) -> chunk_range k r ∈ rs.

Definition ranges_at (c : nat) (st : range_scan) : Prop :=
  minStart st = (if 0 <? chunk_offset results c then fo else fo + zlen data) /\
  maxEnd st = fo + chunk_offset results c /\ sawChunk st = (0 <? chunk_offset results c) /\
  collected c (ranges st).

Lemma range_step_spec c st o :
  ranges_at c st -> results !! c = Some o ->
  exists st', range_loop cols rg (rows_of c) st = Ok st' /\ ranges_at (S c) st'.
Proof using HPL Hncols Hblen Hfo Hmax.
  intros (Hmin & Hend & Hsaw & Hin & Hcov) Ho. unfold ranges_at, collected.
  rewrite (chunk_offset_S _ _ _ Ho). unfold rows_of, rows_at. rewrite Ho.
  pose proof (chunk_offset_nonneg results c) as H0. destruct o as [r|].
  2:{ exists st. cbn. rewrite Z.add_0_r. repeat (split; [done|]). intros k r sc Hk. destruct (decide (k = c)) as [->|]; [congruence|].
      apply Hcov. lia. }
  pose proof (chunk_offset_end _ _ _ Ho) as He. cbn [result_bytes] in *. fold data in He.
  pose proof (zlen_nonneg (fchunk r)). pose proof file_end_small.
  destruct (lookup_lt_is_Some_2 cols c) as [sc Hsc]; [rewrite <- Hncols; by eapply lookup_lt_Some|].
  assert (Hcn : Z.of_nat c < zlen cols) by (unfold zlen; apply lookup_lt_Some in Hsc; lia).
  cbn [range_loop]. unfold range_step, chunk_row. cbn [cr_columnIndex cr_chunk pageOffset pageLength].
  rewrite (proj2 (Z.ltb_ge (Z.of_nat c) 0)) by lia. rewrite (proj2 (Z.leb_gt (zlen cols) (Z.of_nat c))) by lia.
  cbn [orb]. rewrite Nat2Z.id, Hsc, u64_small by lia. fold fo.
  rewrite (proj2 (Z.ltb_ge (rg_byteLength rg) _)) by lia.
  rewrite (proj2 (Z.ltb_ge (fo + chunk_offset results c) fo)) by lia.
  rewrite (proj2 (Z.ltb_ge (rg_byteLength rg - _) (fo + chunk_offset results c - fo))) by lia. cbn [orb].
  assert (Hkeep : collected c (ranges st)) by done. clear Hin Hcov.
  assert (Hst : forall b rs, (b = true -> 0 < zlen (fchunk r) /\ sc_wanted sc = true /\ rs = ranges st ++ [chunk_range c r]) ->
    (b = false -> zlen (fchunk r) = 0 \/ sc_wanted sc = false) -> (b = false -> rs = ranges st) -> collected (S c) rs).
  { intros b rs Ht Hf Hrs. destruct Hkeep as [Hin Hcov]. split.
    - destruct b; [destruct (Ht eq_refl) as (? & ? & ->)|by rewrite Hrs]. apply Forall_app_2; [done|].
      apply Forall_singleton. unfold chunk_range. cbn. lia.
    - intros k r' sc' Hk Hr' Hsc' Hw Hpos. destruct (decide (k = c)) as [->|Hne].
      + rewrite Ho in Hr'. injection Hr' as <-. rewrite Hsc in Hsc'. injection Hsc' as <-.
        destruct b; [|destruct (Hf eq_refl); [lia|congruence]]. destruct (Ht eq_refl) as (_ & _ & ->).
        apply elem_of_app. right. by apply list_elem_of_singleton.
      + assert (chunk_range k r' ∈ ranges st) by (apply (Hcov k r' sc'); [lia|done..]).
        destruct b; [destruct (Ht eq_refl) as (? & ? & ->); apply elem_of_app; by left|by rewrite Hrs]. }
  destruct (Z.ltb_spec 0 (zlen (fchunk r))) as [Hp|Hp].
  - rewrite (proj2 (Z.eqb_neq (zlen (fchunk r)) 0)) by lia. rewrite orb_false_r.
    assert (Hmm : (if fo + chunk_offset results c <? minStart st then fo + chunk_offset results c else minStart st) = fo /\
      (if maxEnd st <? fo + chunk_offset results c + zlen (fchunk r) then fo + chunk_offset results c + zlen (fchunk r)
       else maxEnd st) = fo + chunk_offset results c + zlen (fchunk r)).
    { rewrite Hmin, Hend. split.
      - destruct (Z.ltb_spec 0 (chunk_offset results c));
        [destruct (Z.ltb_spec (fo + chunk_offset results c) fo)
        |destruct (Z.ltb_spec (fo + chunk_offset results c) (fo + zlen data))]; lia.
      - destruct (Z.ltb_spec (fo + chunk_offset results c) (fo + chunk_offset results c + zlen (fchunk r))); lia. }
    destruct Hmm as [-> ->]. rewrite (proj2 (Z.ltb_lt 0 (chunk_offset results c + zlen (fchunk r)))) by lia.
    destruct (sc_wanted sc) eqn:Ew; cbn [negb]; rewrite bind_Ok; cbn [minStart maxEnd sawChunk ranges];
      eexists; (split; [done|]); (split; [done|]); (split; [cbn; lia|]); (split; [done|]).
    + by apply (Hst true).
    + by apply (Hst false); auto.
  - assert (Hz : zlen (fchunk r) = 0) by lia. rewrite Hz. cbn [Z.eqb]. rewrite orb_true_r, bind_Ok, Z.add_0_r.
    eexists. split; [done|]. do 3 (split; [done|]). by apply (Hst false); auto.
Qed.

Lemma range_loop_app a b st :
  range_loop cols rg (a ++ b) st = (st ← range_loop cols rg a st; range_loop cols rg b st).
Proof using.
  revert st. induction a as [|cr a IH]; intros st; [done|]. cbn. destruct (range_step cols rg cr st); cbn; [apply IH|done..].
Qed.

Lemma range_loop_spec n : forall c st,
  ranges_at c st -> (c + n = length results)%nat ->
  exists st', range_loop cols rg (concat (rows_of <$> seq c n)) st = Ok st' /\ ranges_at (length results) st'.
Proof using HPL Hncols Hblen Hfo Hmax.
  induction n as [|n IH]; intros c st Hst Hn.
  { replace (length results) with c by lia. by exists st. }
  destruct (lookup_lt_is_Some_2 results c) as [o Ho]; [lia|].
  destruct (range_step_spec c st o Hst Ho) as (st1 & E & Hst1). cbn [seq fmap list_fmap concat].
  rewrite range_loop_app, E, bind_Ok. apply IH; [done|lia].
Qed.
Lemma read_projected_spec buffer :
  zlen data <= zlen buffer ->
  exists buffer', pgcolumnar_native_read_projected stream rel cols rg (layout sid gn rows fo results) buffer = Ok buffer' /\
    zlen buffer' = zlen buffer /\
    forall c sc, cols !! c = Some sc -> sc_wanted sc = true -> holds_chunk results buffer' c.
Proof using HPL Hncols Hblen Hfo Hmax Hfile.
  intros Hbuf. unfold pgcolumnar_native_read_projected. pose proof file_end_small. pose proof (zlen_nonneg data).
  fold fo. rewrite Hblen, u64_small by lia.
  assert (Hempty : forall buf, zlen data <= zlen buf ->
    (forall c r sc, results !! c = Some (Some r) -> cols !! c = Some sc -> sc_wanted sc = true -> fchunk r = []) ->
    forall c sc, cols !! c = Some sc -> sc_wanted sc = true -> holds_chunk results buf c).
  { intros buf Hl Hno c sc Hc Hw. apply holds_chunk_agree; [done|]. intros r i Hr Hi. rewrite (Hno c r sc) in Hi by done.
    rewrite zlen_nil in Hi. lia. }
  destruct (layout sid gn rows fo results) as [|cr chunks] eqn:El.
  { exists buffer. split; [done|]. split; [done|]. apply Hempty; [done|]. intros c r sc Hr _ _. exfalso.
    assert (Hin : chunk_row sid gn rows fo results c r ∈ layout sid gn rows fo results); [|rewrite El in Hin; by apply not_elem_of_nil in Hin].
    unfold layout. apply list_elem_of_In, in_concat. exists (rows_at sid gn rows fo results c).
    split; [|unfold rows_at; rewrite Hr; by left].
    apply list_elem_of_In, list_elem_of_fmap_2, elem_of_seq. pose proof (lookup_lt_Some _ _ _ Hr). lia. }
  rewrite <- El. clear cr chunks El.
  destruct (range_loop_spec (length results) 0 (mkRangeScan (fo + zlen data) fo false [])) as (st & E & Hmin & Hend & Hsaw & Hin & Hcov).
  { unfold ranges_at. rewrite chunk_offset_0. split; [done|]. split; [cbn; lia|]. split; [done|]. split; [apply Forall_nil_2|intros; lia]. }
  { done. }
  unfold layout. fold rows_of. rewrite E, bind_Ok. rewrite chunk_offset_all in *. fold data in Hmin, Hend, Hsaw.
  assert (Hok : sawChunk st && (negb (maxEnd st =? fo + zlen data) || negb (minStart st =? fo)) = false).
  { rewrite Hmin, Hend, Hsaw, Z.eqb_refl. destruct (0 <? zlen data); [|done]. by rewrite Z.eqb_refl. }
  rewrite Hok. pose proof (merge_sort_Permutation byte_range_le (ranges st)) as Hperm.
  pose proof (StronglySorted_merge_sort byte_range_le (ranges st)) as Hsorted.
  assert (Hwant : forall c r sc, results !! c = Some (Some r) -> cols !! c = Some sc -> sc_wanted sc = true ->
    0 < zlen (fchunk r) -> chunk_range c r ∈ merge_sort byte_range_le (ranges st)).
  { intros c r sc Hr Hc Hw Hp. rewrite Hperm. apply (Hcov c r sc); [|done..]. by eapply lookup_lt_Some. }
  rewrite <- Hperm in Hin. destruct (merge_sort byte_range_le (ranges st)) as [|r0 rs].
  { exists buffer. split; [done|]. split; [done|]. apply Hempty; [done|]. intros c r sc Hr Hc Hw.
    destruct (fchunk r) eqn:Er; [done|]. exfalso. eapply not_elem_of_nil, (Hwant c r sc); try done. by rewrite Er. }
  apply list.Forall_cons in Hin as [Hr0 Hin].
  destruct (coalesce_reads_spec fo data r0 rs Hr0 Hin) as [Hin' Hcov']; [apply Hsorted; apply _|].
  destruct (read_ranges_spec stream rel fo data Hfo Hmax Hfile (coalesce r0 rs) buffer Hin' Hbuf) as (buffer' & E' & Hl & Hv).
  exists buffer'. split; [done|]. split; [done|]. intros c sc Hc Hw. apply holds_chunk_agree; [fold data; lia|].
  intros r i Hr Hi. pose proof (chunk_offset_end _ _ _ Hr) as He. cbn [result_bytes] in He. fold data in He.
  apply Hv; [unfold zlen in *; lia|]. left. apply Hcov'. exists (chunk_range c r). split; [apply (Hwant c r sc); [done..|lia]|].
  unfold chunk_range. cbn. lia.
Qed.

Lemma read_group_bytes_spec mem :
  zlen data <= MaxAllocSize ->
  exists buffer, read_group_bytes stream rel cols rg (layout sid gn rows fo results) mem = Ok buffer /\
    zlen data <= zlen buffer /\
    forall c sc, cols !! c = Some sc -> sc_wanted sc = true -> holds_chunk results buffer c.
Proof using HPL Hncols Hblen Hfo Hmax Hfile.
  intros Hsize. unfold read_group_bytes. rewrite Hblen. pose proof (zlen_nonneg data).
  set (want := if 0 <? zlen data then zlen data else 1).
  assert (Hmem : exists mem', (if zlen mem <? want then MemoryContextAlloc want else Ok mem) = Ok mem' /\ zlen data <= zlen mem').
  { assert (zlen data <= want <= MaxAllocSize).
    { unfold want. destruct (Z.ltb_spec 0 (zlen data)); [lia|]. unfold MaxAllocSize in *. lia. }
    destruct (Z.ltb_spec (zlen mem) want); [|exists mem; split; [done|lia]].
    rewrite MemoryContextAlloc_Ok by lia. eexists. split; [done|]. unfold zlen in *. rewrite length_replicate. lia. }
  destruct Hmem as (mem' & -> & Hmem). rewrite bind_Ok. destruct (Z.ltb_spec 0 (zlen data)).
  - destruct (forallb sc_wanted cols).
    + fold fo. rewrite ReadLogicalData_holds, bind_Ok by done. rewrite wr_Ok by lia. eexists. split; [done|].
      split. { rewrite !zlen_app. pose proof (zlen_nonneg (take (Z.to_nat 0) mem')).
        pose proof (zlen_nonneg (drop (Z.to_nat (0 + zlen data)) mem')). lia. }
      intros c sc _ _ r Hr. destruct (group_data_chunk _ _ _ Hr) as (post & Hd).
      exists (group_data (take c results)), (post ++ drop (Z.to_nat (0 + zlen data)) mem').
      split; [|done]. cbn [Z.to_nat take app]. unfold data at 1. rewrite Hd. by rewrite <- !app_assoc.
    + destruct (read_projected_spec mem' Hmem) as (buffer & -> & Hl & Hh). exists buffer. split; [done|]. split; [lia|done].
  - exists mem'. split; [done|]. split; [lia|]. intros c sc Hc Hw. apply holds_chunk_agree; [done|].
    intros r i Hr Hi. pose proof (chunk_offset_end _ _ _ Hr) as He. cbn [result_bytes] in He. fold data in He.
    pose proof (chunk_offset_nonneg results c). lia.
Qed.
End GroupBytes.

(** ** The decode passes *)

Definition column_stored `{BlockCodecs} `{TupMacs} `{VarattExternal} (lens : list nat) (sc : scan_column)
    (o : option FlushColumnResult) (img : image) : Prop :=
  match o, img with
  | Some r, Some vecs =>
      chunk_stored (sc_att sc) vecs r /\ Forall (Forall (cell_ok (sc_att sc))) vecs /\ length <$> vecs = lens
  | None, None => True
  | _, _ => False
  end.

Lemma chunk_descriptor `{BlockCodecs} att vecs r pl po :
  chunk_stored att vecs r ->
  let cc := mkChunk pl po (fdescriptor r) (fblockCodec r) in
  is_baseline cc = Ok false /\ (zlen (fdescriptor r) <? COLUMNAR_NATIVE_ENCDESC_HEADER_LEN) = false /\
  PgColumnarEncdescVersionSupported (fdescriptor r) = Ok true /\
  PgColumnarEncdescReadVectorCount (fdescriptor r) = Ok (zlen vecs).
Proof.
  intros (_ & Hn & _ & _ & vbytes & data & region & _ & _ & (vecs' & table & _ & Hf & -> & _) & _ & _).
  assert (Hl : zlen vecs'.*1 = zlen vecs).
  { apply Forall2_length in Hf. unfold zlen. rewrite length_fmap, <- Hf. by rewrite length_fmap. }
  unfold is_baseline. cbn [encodingDescriptor]. rewrite encdesc_len.
  pose proof (zlen_nonneg vecs'.*1). pose proof (zlen_nonneg (table_bytes table)).
  unfold COLUMNAR_NATIVE_ENCDESC_HEADER_LEN.
  rewrite (proj2 (Z.eqb_neq (6 + 13 * zlen vecs'.*1 + 4 + zlen (table_bytes table)) 1)) by lia.
  rewrite (proj2 (Z.ltb_ge (6 + 13 * zlen vecs'.*1 + 4 + zlen (table_bytes table)) 6)) by lia.
  split; [done|]. split; [done|]. split; [done|]. rewrite encdesc_vector_count by lia. by rewrite Hl.
Qed.

Section Decode.
Context `{HPL : PageLayout} `{HBC : BlockCodecs} `{HTM : TupMacs} `{HVE : VarattExternal}.
Context (plan : scan_plan) (rg : FreeSpace.NativeRowGroupMetadata) (sid gn : Z)
  (results : list (option FlushColumnResult)) (imgs : list image) (lens : list nat) (buffer : list Z).

Let V := length lens.
Let fo := rg_fileOffset rg.
Let rows_of := rows_at sid gn (rg_rowCount rg) fo results.
Let ncols := length (p_columns plan).

Context (Hnres : length results = ncols) (Hnimg : length imgs = ncols).
Context (Hcols : forall c sc, p_columns plan !! c = Some sc ->
  exists o img, results !! c = Some o /\ imgs !! c = Some img /\ column_stored lens sc o img).
Context (Hrows : vstart lens V = rg_rowCount rg).
Context (HV : Z.of_nat V < 2 ^ 28).

(** A projected column whose chunk the group has. *)
Definition has_chunk (c : nat) : bool :=
  match p_columns plan !! c, results !! c with
  | Some sc, Some (Some _) => sc_wanted sc
  | _, _ => false
  end.

Lemma has_chunk_cases c :
  (has_chunk c = true /\ exists sc r vecs, p_columns plan !! c = Some sc /\ results !! c = Some (Some r) /\
     imgs !! c = Some (Some vecs) /\ sc_wanted sc = true /\ chunk_stored (sc_att sc) vecs r /\
     Forall (Forall (cell_ok (sc_att sc))) vecs /\ length <$> vecs = lens) \/
  (has_chunk c = false /\
     (rows_of c = [] \/ exists sc r, p_columns plan !! c = Some sc /\ sc_wanted sc = false /\
        rows_of c = [chunk_row sid gn (rg_rowCount rg) fo results c r])).
Proof using Hnres Hnimg Hcols.
  unfold has_chunk, rows_of, rows_at. destruct (p_columns plan !! c) as [sc|] eqn:Hc.
  2:{ right. split; [done|]. left. rewrite lookup_ge_None_2; [done|]. apply lookup_ge_None in Hc. unfold ncols in *. lia. }
  destruct (Hcols c sc Hc) as (o & img & Ho & Hi & Hs). rewrite Ho. destruct o as [r|]; [|right; split; [done|by left]].
  destruct img as [vecs|]; [|done]. destruct (sc_wanted sc) eqn:Ew.
  - left. split; [done|]. destruct Hs as (? & ? & ?). by exists sc, r, vecs.
  - right. split; [done|]. right. by exists sc, r.
Qed.

Lemma index_in_plan c sc : p_columns plan !! c = Some sc ->
  (Z.of_nat c <? 0) || (natts plan <=? Z.of_nat c) = false.
Proof using.
  intros Hc. clear - Hc. apply lookup_lt_Some in Hc. unfold natts, zlen. rewrite (proj2 (Z.ltb_ge _ _)) by lia.
  by rewrite (proj2 (Z.leb_gt _ _)) by lia.
Qed.

(** The pre-pass finds the vector count. *)
Lemma prepass_spec n : forall c acc all,
  (c + n = ncols)%nat -> acc = 0 \/ acc = Z.of_nat V ->
  prepass plan (concat (rows_of <$> seq c n)) acc all
  = Ok (if existsb has_chunk (seq c n) then Z.of_nat V else acc, all).
Proof using Hnres Hnimg Hcols Hrows HV.
  induction n as [|n IH]; intros c acc all Hn Hacc; [done|]. cbn [seq fmap list_fmap concat existsb].
  destruct (has_chunk_cases c) as [(-> & sc & r & vecs & Hc & Hr & Hi & Hw & Hst & _ & Hl)|(-> & Hnone)].
  - unfold rows_of at 1, rows_at. rewrite Hr. cbn [app prepass orb]. unfold chunk_row.
    cbn [cr_chunk cr_columnIndex]. rewrite (index_in_plan c sc Hc), Nat2Z.id, Hc, Hw. cbn [negb].
    destruct (chunk_descriptor (sc_att sc) vecs r (fo + chunk_offset results c) (zlen (fchunk r)) Hst) as (E1 & E2 & E3 & E4).
    rewrite E1, bind_Ok. cbn [encodingDescriptor]. rewrite E2, E3, bind_Ok. cbn [negb]. rewrite E4, bind_Ok.
    assert (Hv : zlen vecs = Z.of_nat V) by (unfold zlen, V; by rewrite <- Hl, length_fmap).
    rewrite Hv, s32_small by lia. rewrite IH; [|lia|].
    + assert (E : (if acc <? Z.of_nat V then Z.of_nat V else acc) = Z.of_nat V)
        by (destruct (Z.ltb_spec acc (Z.of_nat V)); lia).
      rewrite E. by destruct (existsb has_chunk (seq (S c) n)).
    + right. destruct (Z.ltb_spec acc (Z.of_nat V)); lia.
  - cbn [orb]. destruct Hnone as [->|(sc & r & Hc & Hw & ->)]; cbn [app]; [apply IH; [lia|done]|].
    cbn [prepass]. unfold chunk_row. cbn [cr_chunk cr_columnIndex].
    rewrite (index_in_plan c sc Hc), Nat2Z.id, Hc, Hw. cbn [negb]. apply IH; [lia|done].
Qed.
(** A column the pass decodes. *)
Definition in_pass (pass0 : bool) (c : nat) : bool :=
  has_chunk c && eqb (native_is_qual_column plan (Z.of_nat c)) pass0.

Definition loaded (skipVec : option (list bool)) (c : nat) (lc : loaded_column) : Prop :=
  exists sc vecs, p_columns plan !! c = Some sc /\ imgs !! c = Some (Some vecs) /\
    chunk_inv buffer lens (sc_att sc) lc vecs (mask_of skipVec) 0 0.

(** The columns after a pass over the chunks of columns [c] to [c + n]. *)
Definition passed (skipVec : option (list bool)) (pass0 : bool) (c n : nat) (st st' : load_st) : Prop :=
  (l_maxVec st' = l_maxVec st) /\ (l_allDescriptor st' = l_allDescriptor st) /\
  length (l_cols st') = length (l_cols st) /\
  (forall k, (k < c)%nat \/ in_pass pass0 k = false -> l_cols st' !! k = l_cols st !! k) /\
  (forall k, (c <= k < c + n)%nat -> in_pass pass0 k = true ->
     exists lc, l_cols st' !! k = Some lc /\ loaded skipVec k lc).

Context (Hblen : rg_byteLength rg = zlen (group_data results)) (Hbuf : zlen (group_data results) <= zlen buffer).
Context (Hheld : forall c sc, p_columns plan !! c = Some sc -> sc_wanted sc = true -> holds_chunk results buffer c).

Lemma load_one skipVec c sc r vecs :
  p_columns plan !! c = Some sc -> sc_wanted sc = true -> results !! c = Some (Some r) ->
  chunk_stored (sc_att sc) vecs r -> Forall (Forall (cell_ok (sc_att sc))) vecs -> length <$> vecs = lens ->
  exists v d, native_load_chunk (sc_att sc) (chunk_group rg)
      (mkChunk (fo + chunk_offset results c) (zlen (fchunk r)) (fdescriptor r) (fblockCodec r)) buffer (skip_flag skipVec)
    = Ok (v, Decoded d) /\ zlen (vecRawLen d) = Z.of_nat V /\
    chunk_inv buffer lens (sc_att sc) (mkLoaded (Some v) (Some (mkCursor (rawBuf d) 0 (rawTotal d))) (Some (vecRawLen d)))
      vecs (mask_of skipVec) 0 0.
Proof using Hnres Hnimg Hrows HV Hblen Hbuf Hheld.
  intros Hc Hw Hr Hst Hok Hl. destruct (Hheld c sc Hc Hw r Hr) as (pre & post & Eb & Hpre).
  pose proof (chunk_offset_end _ _ _ Hr) as He. cbn [result_bytes] in He.
  destruct (chunk_load (sc_att sc) vecs r pre post fo (rg_byteLength rg) skipVec Hst Hok) as (v & d & E & Hn & Hinv);
    [lia|]. rewrite <- Eb, zlen_concat_cells, Hl in *. rewrite Hpre in E.
  assert (Ev : length vecs = V) by (unfold V; by rewrite <- Hl, length_fmap). rewrite Ev, Hrows in E.
  exists v, d. split; [exact E|]. split; [|done]. rewrite Hn. unfold zlen. by rewrite Ev.
Qed.

Lemma load_pass_spec skipVec pass0 n : forall c st,
  (c + n = ncols)%nat -> length (l_cols st) = ncols ->
  (existsb has_chunk (seq c n) = true -> l_maxVec st = Z.of_nat V) ->
  exists st', load_pass plan rg buffer skipVec pass0 (concat (rows_of <$> seq c n)) st = Ok st' /\
    passed skipVec pass0 c n st st'.
Proof using Hnres Hnimg Hcols Hrows HV Hblen Hbuf Hheld.
  induction n as [|n IH]; intros c st Hn Hlen Hmv; cbn [seq fmap list_fmap concat].
  { exists st. split; [done|]. unfold passed. repeat (split; [done|]). intros k Hk. lia. }
  cbn [seq existsb] in Hmv.
  assert (Hskip : in_pass pass0 c = false -> exists st',
    load_pass plan rg buffer skipVec pass0 (concat (rows_of <$> seq (S c) n)) st = Ok st' /\ passed skipVec pass0 c (S n) st st').
  { intros Hno. destruct (IH (S c) st) as (st' & E & H1 & H2 & H3 & H4 & H5); [lia|done| |].
    { intros Hx. apply Hmv. rewrite Hx. by rewrite orb_true_r. }
    exists st'. split; [done|]. split; [done|]. split; [done|]. split; [done|]. split.
    - intros k Hk. apply H4. destruct Hk; [left; lia|by right].
    - intros k Hk Hin. apply H5; [|done]. destruct (decide (k = c)) as [->|]; [congruence|lia]. }
  destruct (has_chunk_cases c) as [(Hhas & sc & r & vecs & Hc & Hr & Hi & Hw & Hst & Hok & Hl)|(Hhas & Hnone)].
  - assert (Erow : rows_of c = [chunk_row sid gn (rg_rowCount rg) fo results c r]) by (unfold rows_of, rows_at; by rewrite Hr).
    rewrite Erow. cbn [app load_pass]. unfold load_chunk_step, chunk_row. cbn [cr_chunk cr_columnIndex].
    rewrite (index_in_plan c sc Hc), Nat2Z.id, Hc, Hw. cbn [negb].
    destruct (eqb (native_is_qual_column plan (Z.of_nat c)) pass0) eqn:Eq; cbn [negb].
    2:{ rewrite bind_Ok. apply Hskip. unfold in_pass. by rewrite Eq, andb_false_r. }
    destruct (load_one skipVec c sc r vecs Hc Hw Hr Hst Hok Hl) as (v & d & E & Hvl & Hinv).
    rewrite E, bind_Ok. cbv iota. rewrite Hvl, (Hmv ltac:(by rewrite Hhas)), Z.ltb_irrefl. rewrite bind_Ok.
    set (lc := mkLoaded _ _ _) in *. set (st1 := mkLoad _ _ _ _ _).
    destruct (IH (S c) st1) as (st' & E' & H1 & H2 & H3 & H4 & H5); [lia| | |].
    { unfold st1. cbn. by rewrite length_insert. }
    { done. }
    exists st'. split; [exact E'|]. split; [rewrite H1; unfold st1; cbn; symmetry; apply Hmv; by rewrite Hhas|].
    split; [by rewrite H2|]. split; [rewrite H3; unfold st1; cbn; by rewrite length_insert|].
    assert (Hcn : (c < length (l_cols st))%nat) by (apply lookup_lt_Some in Hc; unfold ncols in *; lia).
    assert (Hin : in_pass pass0 c = true) by (unfold in_pass; by rewrite Hhas, Eq). split.
    + intros k Hk. assert (k <> c) by (intros ->; destruct Hk; [lia|congruence]).
      rewrite H4 by (destruct Hk; [left; lia|by right]). unfold st1. cbn. by rewrite list_lookup_insert_ne.
    + intros k Hk Hkin. destruct (decide (k = c)) as [->|]; [|apply H5; [lia|done]].
      exists lc. rewrite H4 by (left; lia). unfold st1. cbn [l_cols]. rewrite list_lookup_insert_eq by done.
      split; [done|]. by exists sc, vecs.
  - destruct Hnone as [->|(sc & r & Hc & Hw & ->)]; cbn [app].
    { apply Hskip. unfold in_pass. by rewrite Hhas. }
    cbn [load_pass]. unfold load_chunk_step, chunk_row. cbn [cr_chunk cr_columnIndex].
    rewrite (index_in_plan c sc Hc), Nat2Z.id, Hc, Hw. cbn [negb].
    destruct (negb (eqb _ pass0)); rewrite bind_Ok; apply Hskip; unfold in_pass; by rewrite Hhas.
Qed.
End Decode.
