(* ===== verification/ScanSkip.v ===== *)
(** * The vectors a scan leaves out

    The three sources of skip flags of a row group: the zone maps of its vectors
    ([pgcolumnar_native_build_skipvec]), the predicates evaluated on the decoded
    values ([pgcolumnar_native_refine_skipvec]) and the executor's qual
    evaluated between the decode passes ([pgcolumnar_native_qual_skipvec]).
    Each flags only vectors none of whose rows the scan needs. *)

From stdpp Require Import sorting.
From S2P Require Import Prelude BitPack Codec Varlena BitSet Compress Encdesc Flush NativeRead.
From S2P Require Import Value ZoneMap Catalog GroupSkip Storage FreeSpace Scan ScanRows ScanLoad.

(** ** Arrays filled from zone map rows *)

Definition entry_vector (e : zone_entry) : Z := e.1.2.

Lemma fill_by_vector_lookup {A} (V : nat) (init : A) (f : NativeZoneMapMetadata -> A) zones :
  length (fill_by_vector (Z.of_nat V) init f zones) = V /\
  forall v, (v < V)%nat -> exists y, fill_by_vector (Z.of_nat V) init f zones !! v = Some y /\
    ((y = init /\ forall e, e ∈ zones -> entry_vector e <> Z.of_nat v) \/
     exists e, e ∈ zones /\ entry_vector e = Z.of_nat v /\ y = f e.2).
Proof.
  induction zones as [|e zones [IHl IH]] using rev_ind.
  { split; [unfold fill_by_vector; cbn; rewrite length_replicate; lia|]. intros v Hv. exists init.
    split; [apply lookup_replicate_2; lia|]. left. split; [done|]. intros e He. by apply not_elem_of_nil in He. }
  unfold fill_by_vector in *. rewrite foldl_app. cbn [foldl]. destruct e as [[c v'] z].
  set (arr := foldl _ _ zones) in *. destruct ((0 <=? v') && (v' <? Z.of_nat V)) eqn:Eb; (split; [by rewrite ?length_insert|]).
  - apply andb_true_iff in Eb as [E1%Z.leb_le E2%Z.ltb_lt]. intros v Hv. destruct (decide (v = Z.to_nat v')) as [->|Hne].
    + exists (f z). rewrite list_lookup_insert_eq by lia. split; [done|]. right. exists (c, v', z).
      split; [apply elem_of_app; right; by apply list_elem_of_singleton|]. split; [cbn; lia|done].
    + rewrite list_lookup_insert_ne by done. destruct (IH v Hv) as (y & Hy & [(Hi & Hno)|(e & He & Hx)]); exists y; (split; [done|]).
      * left. split; [done|]. intros e [He|He%list_elem_of_singleton]%elem_of_app; [by apply Hno|subst e; cbn; lia].
      * right. exists e. split; [apply elem_of_app; by left|done].
  - apply andb_false_iff in Eb. rewrite Z.leb_gt, Z.ltb_ge in Eb. intros v Hv.
    destruct (IH v Hv) as (y & Hy & [(Hi & Hno)|(e & He & Hx)]); exists y; (split; [done|]).
    * left. split; [done|]. intros e [He|He%list_elem_of_singleton]%elem_of_app; [by apply Hno|subst e; cbn; lia].
    * right. exists e. split; [apply elem_of_app; by left|done].
Qed.

(** The starts computed from the row counts. *)
Lemma vec_starts_spec (lens : list nat) start :
  0 <= start -> start + Z.of_nat (sum_list lens) < 2 ^ 32 ->
  vec_starts start (Z.of_nat <$> lens) = (fun v => start + vstart lens v) <$> seq 0 (S (length lens)).
Proof.
  revert start. induction lens as [|n lens IH]; intros start H0 Hmax; [cbn; f_equal; unfold vstart; cbn; lia|].
  cbn [fmap list_fmap vec_starts]. cbn in Hmax. rewrite u32_small by lia. change (seq 0 (S (length (n :: lens))))
    with (0%nat :: seq 1 (S (length lens))). rewrite fmap_cons. f_equal; [unfold vstart; cbn; lia|].
  rewrite <- fmap_S_seq, <- list_fmap_compose, IH by lia. apply list_fmap_ext. intros i v _.
  cbn. unfold vstart. cbn. lia.
Qed.

(** Flags computed vector by vector. *)
Lemma mapM_flags (f : Z -> res bool) (ok : nat -> Prop) n : forall a,
  (forall v, (a <= v < a + n)%nat -> exists b, f (Z.of_nat v) = Ok b /\ (b = true -> ok v)) ->
  exists bs, mapM f (Z.of_nat <$> seq a n) = Ok bs /\ length bs = n /\
    forall i, nth i bs false = true -> (i < n)%nat -> ok (a + i)%nat.
Proof.
  induction n as [|n IH]; intros a Hf.
  { exists []. split; [done|]. split; [done|]. intros i _ Hi. lia. }
  destruct (Hf a) as (b & Eb & Hb); [lia|].
  destruct (IH (S a)) as (bs & Ebs & Hl & Hok); [intros v Hv; apply Hf; lia|]. exists (b :: bs).
  cbn [seq fmap list_fmap mapM]. rewrite Eb, bind_Ok, Ebs, bind_Ok. split; [done|]. split; [cbn; lia|].
  intros [|i] Hi Hin; cbn in Hi; [rewrite Nat.add_0_r; by apply Hb|]. replace (a + S i)%nat with (S a + i)%nat by lia.
  apply Hok; [done|lia].
Qed.

Lemma seqZ_seq n : seqZ 0 (Z.of_nat n) = Z.of_nat <$> seq 0 n.
Proof. unfold seqZ. rewrite Nat2Z.id. apply list_fmap_ext. intros. lia. Qed.

(** ** Rows the predicates reject *)

Section Skip.
Context `{HTM : TupMacs} `{HVE : VarattExternal}.
Context (plan : scan_plan) (tables : GroupTables) (gn : Z) (imgs : list image) (lens : list nat) (buffer : list Z).

Let V := length lens.
Let preds := p_predicates plan.

(** The predicate on a row of the group.  A column the group does not have is
    not decided here. *)
Definition row_sat (v j : nat) (p : SkipPredicate) : bool :=
  match p_columns plan !! Z.to_nat (attidx p), imgs !! Z.to_nat (attidx p) with
  | Some sc, Some (Some vecs) =>
      match cell_at vecs v j with
      | Some (Some (d, _)) => pred_holds p (stored_datum (attlen (sc_att sc)) d)
      | Some None => false
      | None => true
      end
  | _, _ => true
  end.

Definition rejects (v : nat) : Prop :=
  forall j n, lens !! v = Some n -> (j < n)%nat -> exists p, p ∈ preds /\ row_sat v j p = false.

(** The values of a vector. *)
Definition vec_values (att : Form_pg_attribute) (vec : list cell) : list Datum :=
  omap (fun c : cell => (fun d => stored_datum (attlen att) d.1) <$> c) vec.

Context (Hpreds : forall p, p ∈ preds -> 0 <= attidx p < natts plan).
Context (Hpos : Forall (fun n => (0 < n)%nat) lens) (Hmax : Z.of_nat (sum_list lens) < 2 ^ 32).

(** The zone maps of a column's vectors: all of them or none, with the vectors'
    row counts, and decided soundly. *)
Definition counted (z : NativeZoneMapMetadata) (n : nat) : Prop :=
  u32 (u64 (zoneValueCount z + zoneNullCount z)) = Z.of_nat n.

Definition zones_cover (zs : list zone_entry) : Prop :=
  (forall e, e ∈ zs -> exists v n, entry_vector e = Z.of_nat v /\ lens !! v = Some n /\ counted e.2 n) /\
  (zs <> [] -> forall v, (v < V)%nat -> exists e, e ∈ zs /\ entry_vector e = Z.of_nat v).

Definition zone_decides (p : SkipPredicate) (e : zone_entry) : Prop :=
  exists sc vecs vec b, p_columns plan !! Z.to_nat (attidx p) = Some sc /\
    imgs !! Z.to_nat (attidx p) = Some (Some vecs) /\ vecs !! Z.to_nat (entry_vector e) = Some vec /\
    native_zone_excludes p (sc_att sc) (Some e.2) = Ok b /\
    (b = true -> Forall (fun d => pred_holds p d = false) (vec_values (sc_att sc) vec)).

Let zones_of (c : Z) := PgColumnarReadZoneMapVectorsForColumn (t_zone_map tables) (p_storageId plan) gn c.

Context (Hzcov : forall p, p ∈ preds -> zones_cover (zones_of (attidx p))).
Context (Hzall : zones_cover (PgColumnarReadZoneMapVectors (t_zone_map tables) (p_storageId plan) gn)).
Context (Hzdec : forall p e, p ∈ preds -> e ∈ zones_of (attidx p) -> zone_decides p e).

Lemma span_zones_cover ps : (forall p, p ∈ ps -> p ∈ preds) -> zones_cover (span_zones plan tables gn ps).
Proof using Hzcov Hzall.
  induction ps as [|p ps IH]; intros Hin; cbn [span_zones]; [done|].
  assert (IH' : zones_cover (span_zones plan tables gn ps)) by (apply IH; intros q Hq; apply Hin; by apply list_elem_of_further).
  destruct (_ || _); [done|]. specialize (Hzcov p (Hin p (list_elem_of_here _ _))). unfold zones_of in Hzcov.
  destruct (PgColumnarReadZoneMapVectorsForColumn _ _ _ _) eqn:E; [done|]. by rewrite <- E in *.
Qed.

Lemma span_lens zs :
  zones_cover zs -> zs <> [] ->
  fill_by_vector (Z.of_nat V) 0 (fun z => u32 (u64 (zoneValueCount z + zoneNullCount z))) zs = Z.of_nat <$> lens.
Proof using.
  intros [Hin Hall] Hne. set (f := fun z => _). destruct (fill_by_vector_lookup V 0 f zs) as [Hl Hlk].
  apply list_eq. intros v. destruct (decide (v < V)%nat) as [Hv|Hv].
  - destruct (Hlk v Hv) as (y & -> & [(_ & Hno)|(e & He & Hev & ->)]).
    + destruct (Hall Hne v Hv) as (e & He & Hev). by destruct (Hno e He).
    + destruct (Hin e He) as (v' & n & Hv' & Hn & Hc). rewrite Hev in Hv'. apply Nat2Z.inj in Hv' as <-.
      rewrite list_lookup_fmap, Hn. cbn. f_equal. exact Hc.
  - rewrite !lookup_ge_None_2; [done|rewrite length_fmap; fold V; lia|lia].
Qed.

(** A vector none of whose values satisfies the predicate. *)
Lemma values_reject p sc vecs vec v :
  p ∈ preds -> p_columns plan !! Z.to_nat (attidx p) = Some sc -> imgs !! Z.to_nat (attidx p) = Some (Some vecs) ->
  vecs !! v = Some vec -> length <$> vecs = lens ->
  Forall (fun d => pred_holds p d = false) (vec_values (sc_att sc) vec) -> rejects v.
Proof using.
  intros Hp Hc Hi Hv Hl Hall j n Hn Hj. exists p. split; [done|]. unfold row_sat. rewrite Hc, Hi. unfold cell_at. rewrite Hv. cbn.
  rewrite <- Hl, list_lookup_fmap, Hv in Hn. injection Hn as <-.
  destruct (lookup_lt_is_Some_2 vec j Hj) as [c Hcj]. rewrite Hcj. destruct c as [[d b]|]; [|done].
  rewrite list.Forall_forall in Hall. apply Hall, list_elem_of_omap. exists (Some (d, b)).
  split; [by eapply list_elem_of_lookup_2|done].
Qed.
Context (Himg : forall (c : nat) vecs, imgs !! c = Some (Some vecs) -> length <$> vecs = lens).

Lemma plan_column p : p ∈ preds -> exists sc, p_columns plan !! Z.to_nat (attidx p) = Some sc /\
  (if attidx p <? 0 then None else p_columns plan !! Z.to_nat (attidx p)) = Some sc.
Proof using Hpreds V.
  intros Hp. pose proof (Hpreds p Hp) as Hr. unfold natts, zlen in Hr.
  destruct (lookup_lt_is_Some_2 (p_columns plan) (Z.to_nat (attidx p))) as [sc Hsc]; [lia|].
  exists sc. rewrite (proj2 (Z.ltb_ge _ _)) by lia. done.
Qed.

(** The zone maps. *)
Lemma any_excludes_spec ps (v : nat) :
  (v < V)%nat -> (forall p, p ∈ ps -> p ∈ preds) ->
  exists b, any_excludes plan tables gn (Z.of_nat V) (Z.of_nat v) ps = Ok b /\ (b = true -> rejects v).
Proof using Hpreds Hzdec Himg.
  intros Hv. induction ps as [|p ps IH]; intros Hin; cbn [any_excludes]; [by exists false|].
  destruct IH as (b' & Eb & Hb'); [intros q Hq; apply Hin; by apply list_elem_of_further|].
  assert (Hp : p ∈ preds) by (apply Hin, list_elem_of_here).
  destruct (plan_column p Hp) as (sc & Hsc & ->). rewrite Nat2Z.id.
  destruct (fill_by_vector_lookup V None Some (zones_of (attidx p))) as [_ Hlk].
  destruct (Hlk v Hv) as (y & Hy & Hcase). unfold zones_of in Hy. rewrite (nth_lookup_Some _ _ _ _ Hy).
  destruct Hcase as [(-> & _)|(e & He & Hev & ->)].
  { assert (E : native_zone_excludes p (sc_att sc) None = Ok false) by (unfold native_zone_excludes; by destruct (rangePred p)).
    rewrite E, bind_Ok. by exists b'. }
  destruct (Hzdec p e Hp He) as (sc' & vecs & vec & b & Hc' & Hi & Hvec & E & Hsound).
  rewrite Hsc in Hc'. injection Hc' as <-. rewrite E, bind_Ok. destruct b; [|by exists b'].
  exists true. split; [done|]. intros _. rewrite Hev, Nat2Z.id in Hvec.
  by apply (values_reject p sc vecs vec v Hp Hsc Hi Hvec (Himg _ _ Hi)), Hsound.
Qed.

(** The skip flags of a group: none, or one per vector with the vectors' starts. *)
Definition flags_ok (ok : nat -> Prop) (skipVec : option (list bool)) (vecStart : option (list Z)) : Prop :=
  match skipVec with
  | None => True
  | Some skip => length skip = V /\ vecStart = Some (vstart lens <$> seq 0 (S V)) /\
      forall v, mask_of skipVec v = true -> (v < V)%nat -> ok v
  end.

Lemma build_skipvec_spec :
  exists skipVec vecStart, pgcolumnar_native_build_skipvec plan tables gn (Z.of_nat V) = Ok (skipVec, vecStart) /\
    flags_ok rejects skipVec vecStart.
Proof using Hpreds Hpos Hmax Hzcov Hzall Hzdec Himg.
  unfold pgcolumnar_native_build_skipvec. destruct (Z.leb_spec (Z.of_nat V) 0); [by exists None, None|].
  destruct (_ && _); [by exists None, None|]. fold preds.
  pose proof (span_zones_cover preds (fun _ Hp => Hp)) as Hcov.
  destruct (span_zones plan tables gn preds) as [|z zs] eqn:E; [by exists None, None|]. rewrite <- E in *.
  rewrite span_lens by (done || by rewrite E). rewrite seqZ_seq.
  destruct (mapM_flags (fun v => any_excludes plan tables gn (Z.of_nat V) v preds) rejects V 0) as (bs & -> & Hl & Hok).
  { intros v Hv. by apply any_excludes_spec; [lia|]. }
  rewrite bind_Ok. eexists _, _. split; [done|]. split; [done|]. rewrite vec_starts_spec by lia.
  split; [|intros v Hm Hv; apply (Hok v Hm Hv)]. f_equal. 
Qed.
(** ** Exact selection *)

(** The predicates of the column all hold of the cell. *)
Definition cell_passes (att : Form_pg_attribute) (mine : list SkipPredicate) (c : cell) : bool :=
  match c with
  | Some (d, _) => forallb (fun q => native_value_satisfies q (stored_datum (attlen att) d)) mine
  | None => false
  end.

Lemma refine_rows_spec att vecs vec m v mine k : forall j lc cur vbits,
  chunk_inv buffer lens att lc vecs m v j -> m v = false -> vecs !! v = Some vec -> (j + k = length vec)%nat ->
  lc_cursor lc = Some cur -> lc_validity lc = Some vbits ->
  refine_rows k buffer vbits att mine (vstart lens v + Z.of_nat j) cur = Ok (existsb (cell_passes att mine) (drop j vec)).
Proof using.
  induction k as [|k IH]; intros j lc cur vbits Hi Hm Hv Hk Hcur Hvb; cbn [refine_rows].
  { rewrite drop_ge by lia. done. }
  pose proof Hi as [H1 H2 (vbits' & H3 & Hp) _ (cur' & H5 & Hst)]. rewrite Hvb in H3. injection H3 as <-.
  rewrite Hcur in H5. injection H5 as <-.
  destruct (lookup_lt_is_Some_2 vec j) as [c Hc]; [lia|]. rewrite (drop_S vec c j Hc). cbn [existsb].
  assert (Hn : lens !! v = Some (length vec)) by (rewrite <- H2, list_lookup_fmap, Hv; done).
  assert (Hca : cell_at vecs v j = Some c) by (unfold cell_at; by rewrite Hv).
  assert (Hok : cell_ok att c) by exact (Forall_lookup_1 _ _ _ _ (Forall_lookup_1 _ _ _ _ H1 Hv) Hc).
  destruct (chunk_step buffer lens att lc vecs m v j _ c (cell_bytes c) cur Hi Hm Hn Hca Hcur eq_refl) as [Hnext Hnull].
  rewrite (Hp v j vec c Hv Hc), bind_Ok.
  replace (vstart lens v + Z.of_nat j + 1) with (vstart lens v + Z.of_nat (S j)) by lia.
  destruct c as [[d b]|]; cbn [present_cell negb cell_passes].
  - rewrite Hst, bind_Ok, (rest_cell m vecs v vec j _ Hm Hv Hc). cbn [cell_bytes] in *.
    destruct (proj2 Hok (rest m vecs v (S j))) as [-> _]. rewrite bind_Ok.
    destruct (forallb _ mine); [done|]. cbn [orb]. apply (IH (S j) (with_cursor lc (cursor_add cur (zlen b)))); try done. lia.
  - cbn [orb]. apply (IH (S j) lc); try done; [by apply Hnull|lia].
Qed.

(** A column's predicates reject a vector that has no cell passing them. *)
Lemma no_cell_rejects col sc vecs vec v :
  p_columns plan !! Z.to_nat col = Some sc -> imgs !! Z.to_nat col = Some (Some vecs) -> vecs !! v = Some vec ->
  existsb (cell_passes (sc_att sc) (List.filter (fun q => attidx q =? col) preds)) vec = false -> 
  (exists q, q ∈ preds /\ attidx q = col) -> rejects v.
Proof using Himg.
  intros Hc Hi Hv Hex (q0 & Hq0 & Eq0) j n Hn Hj. rewrite <- (Himg _ _ Hi), list_lookup_fmap, Hv in Hn. injection Hn as <-.
  destruct (lookup_lt_is_Some_2 vec j Hj) as [c Hcj].
  assert (Hno : cell_passes (sc_att sc) (List.filter (fun q => attidx q =? col) preds) c = false).
  { apply not_true_iff_false. intros Ht. apply not_true_iff_false in Hex. apply Hex, existsb_exists.
    exists c. split; [|done]. apply list_elem_of_In. by eapply list_elem_of_lookup_2. }
  assert (Hsat : forall q, attidx q = col -> row_sat v j q = match c with
    | Some (d, _) => pred_holds q (stored_datum (attlen (sc_att sc)) d) | None => false end).
  { intros q Eq. unfold row_sat. rewrite Eq, Hc, Hi. unfold cell_at. rewrite Hv. cbn. rewrite Hcj. by destruct c as [[d b]|]. }
  destruct c as [[d b]|]; [|exists q0; split; [done|by rewrite (Hsat q0 Eq0)]].
  cbn in Hno. assert (Hq : exists q, q ∈ List.filter (fun q => attidx q =? col) preds /\
    native_value_satisfies q (stored_datum (attlen (sc_att sc)) d) = false).
  { clear -Hno. induction (List.filter _ preds) as [|q l IH]; [done|]. cbn in Hno.
    destruct (native_value_satisfies q _) eqn:E; [|exists q; split; [apply list_elem_of_here|done]].
    destruct (IH Hno) as (q' & Hq' & E'). exists q'. split; [by apply list_elem_of_further|done]. }
  destruct Hq as (q & [Hin Eq%Z.eqb_eq]%list_elem_of_In%filter_In & Hf). exists q.
  split; [by apply list_elem_of_In|]. rewrite (Hsat q Eq). unfold pred_holds. 
  destruct (rangePred q) eqn:Er; [|done]. unfold native_value_satisfies in Hf. by rewrite Er in Hf.
Qed.

(** Flags that only grow and stay justified. *)
Definition refines (skip skip' : list bool) : Prop :=
  length skip' = length skip /\ (forall u, nth u skip false = true -> nth u skip' false = true) /\
  ((forall u, nth u skip false = true -> (u < V)%nat -> rejects u) ->
   forall u, nth u skip' false = true -> (u < V)%nat -> rejects u).

Lemma refines_refl skip : refines skip skip.
Proof using. done. Qed.

Lemma refines_trans a b c : refines a b -> refines b c -> refines a c.
Proof using. intros (? & ? & ?) (? & ? & ?). split; [congruence|]. split; auto. Qed.

Lemma nth_insert_true (skip : list bool) v u :
  nth u (<[v := true]> skip) false = true -> u = v \/ nth u skip false = true.
Proof using.
  rewrite !nth_lookup. destruct (decide (u = v)) as [->|]; [by left|]. rewrite list_lookup_insert_ne by done. by right.
Qed.

Lemma refines_insert skip v : rejects v -> refines skip (<[v := true]> skip).
Proof using.
  intros Hr. split; [by rewrite length_insert|]. split.
  - intros u Hu. rewrite nth_lookup in *. destruct (decide (u = v)) as [->|].
    + rewrite list_lookup_insert_eq; [done|]. destruct (skip !! v) eqn:E; [by eapply lookup_lt_Some|done].
    + by rewrite list_lookup_insert_ne.
  - intros Hall u Hu Hlt. destruct (nth_insert_true _ _ _ Hu) as [->|Hu']; auto.
Qed.

Lemma starts_at u : (u <= V)%nat -> rd1 (vstart lens <$> seq 0 (S V)) (Z.of_nat u) = Ok (vstart lens u).
Proof using. apply rd1_starts. Qed.

Lemma refine_vectors_spec col sc vecs m vbits vrl k : forall v lc cur st,
  p_columns plan !! Z.to_nat col = Some sc -> imgs !! Z.to_nat col = Some (Some vecs) ->
  (exists q, q ∈ preds /\ attidx q = col) ->
  chunk_inv buffer lens (sc_att sc) lc vecs m v 0 -> lc_cursor lc = Some cur -> lc_validity lc = Some vbits ->
  lc_vecRawLen lc = Some vrl -> (v + k = V)%nat -> length st.1 = V -> (forall u, m u = true -> nth u st.1 false = true) ->
  exists st', refine_vectors (Z.of_nat <$> seq v k) (vstart lens <$> seq 0 (S V)) vrl buffer vbits (sc_att sc)
      (List.filter (fun q => attidx q =? col) preds) cur st = Ok st' /\ refines st.1 st'.1.
Proof using Himg.
  induction k as [|k IH]; intros v lc cur st Hc Hi Hq Hinv Hcur Hvb Hvrl Hk Hl Hmono; cbn [seq fmap list_fmap refine_vectors].
  { exists st. split; [done|apply refines_refl]. }
  destruct (lookup_lt_is_Some_2 lens v) as [n Hn]; [fold V; lia|].
  rewrite starts_at, bind_Ok by lia. replace (Z.of_nat v + 1) with (Z.of_nat (S v)) by lia.
  rewrite starts_at, bind_Ok by lia.
  destruct (chunk_vector _ _ _ _ _ _ _ _ Hinv Hn) as (cur' & vrl' & len & H1 & H2 & E & Hnext).
  rewrite Hcur in H1. injection H1 as <-. rewrite Hvrl in H2. injection H2 as <-. rewrite E, bind_Ok, Nat2Z.id.
  destruct (lookup_lt_is_Some_2 st.1 v) as [f Hf]; [lia|]. rewrite Hf.
  assert (Hgo : forall st1, refines st.1 st1.1 -> exists st',
    refine_vectors (Z.of_nat <$> seq (S v) k) (vstart lens <$> seq 0 (S V)) vrl buffer vbits (sc_att sc)
      (List.filter (fun q => attidx q =? col) preds) (cursor_add cur len) st1 = Ok st' /\ refines st.1 st'.1).
  { intros st1 Hr. pose proof Hr as (Hl1 & Hm1 & _).
    destruct (IH (S v) (with_cursor lc (cursor_add cur len)) (cursor_add cur len) st1) as (st' & E' & Hr'); try done; [lia|lia|auto|].
    exists st'. split; [done|]. by eapply refines_trans. }
  destruct f; [apply Hgo, refines_refl|].
  assert (Hmv : m v = false).
  { destruct (m v) eqn:Em; [|done]. specialize (Hmono v Em). rewrite (nth_lookup_Some _ _ _ _ Hf) in Hmono. done. }
  pose proof (Himg _ _ Hi) as Hlens. pose proof Hn as Hn'. rewrite <- Hlens, list_lookup_fmap_Some in Hn'.
  destruct Hn' as (vec & -> & Hv).
  rewrite (vstart_S _ _ _ Hn). replace (Z.to_nat (vstart lens v + Z.of_nat (length vec) - vstart lens v)) with (length vec) by lia.
  pose proof (refine_rows_spec (sc_att sc) vecs vec m v (List.filter (fun q => attidx q =? col) preds) (length vec) 0 lc cur
    vbits Hinv Hmv Hv eq_refl Hcur Hvb) as Er. rewrite Z.add_0_r, drop_0 in Er. rewrite Er, bind_Ok.
  destruct (existsb _ vec) eqn:Ex; [apply Hgo, refines_refl|]. apply Hgo. cbn. apply refines_insert.
  by apply (no_cell_rejects col sc vecs vec v).
Qed.
(** The columns after the first pass, as far as the predicates go. *)
Context (lcs : list loaded_column) (m : nat -> bool).
Context (Hlcs : forall p, p ∈ preds -> exists lc, lcs !! Z.to_nat (attidx p) = Some lc /\
  (lc = not_loaded \/ exists sc vecs, p_columns plan !! Z.to_nat (attidx p) = Some sc /\
     imgs !! Z.to_nat (attidx p) = Some (Some vecs) /\ chunk_inv buffer lens (sc_att sc) lc vecs m 0 0)).

Lemma refine_columns_spec ps : forall seen st,
  (forall p, p ∈ ps -> p ∈ preds) -> length st.1 = V -> (forall u, m u = true -> nth u st.1 false = true) ->
  exists st', refine_columns plan seen ps (Z.of_nat V) (vstart lens <$> seq 0 (S V)) buffer lcs st = Ok st' /\
    refines st.1 st'.1.
Proof using Hpreds Himg Hlcs.
  induction ps as [|p ps IH]; intros seen st Hin Hl Hmono; cbn [refine_columns].
  { exists st. split; [done|apply refines_refl]. }
  assert (Hin' : forall q, q ∈ ps -> q ∈ preds) by (intros q Hq; apply Hin; by apply list_elem_of_further).
  destruct (_ || _); [by apply IH|]. assert (Hp : p ∈ preds) by (apply Hin, list_elem_of_here).
  destruct (plan_column p Hp) as (sc & Hsc & _). destruct (Hlcs p Hp) as (lc & Elc & Hlc). rewrite Hsc, Elc.
  destruct Hlc as [->|(sc' & vecs & Hsc' & Hi & Hinv)]; [by apply IH|]. rewrite Hsc in Hsc'. injection Hsc' as <-.
  pose proof Hinv as [_ _ (vbits & Hvb & _) Hvrl (cur & Hcur & _)]. rewrite Hcur, Hvrl, Hvb, seqZ_seq.
  destruct (refine_vectors_spec (attidx p) sc vecs m vbits ((zlen ∘ vec_bytes) <$> vecs) V 0 lc cur st Hsc Hi) as (st1 & E & Hr); try done.
  { by exists p. }
  fold preds. rewrite E, bind_Ok. pose proof Hr as (Hl1 & Hm1 & _).
  destruct (IH (attidx p :: seen) st1 Hin') as (st' & E' & Hr'); [congruence|auto|].
  exists st'. split; [done|]. by eapply refines_trans.
Qed.

Lemma refine_skipvec_spec skipVec vecStart (vc : Z) :
  flags_ok rejects skipVec vecStart -> m = mask_of skipVec -> (skipVec <> None -> vc = Z.of_nat V) ->
  exists refined n, pgcolumnar_native_refine_skipvec plan skipVec vecStart vc buffer lcs = Ok (refined, n) /\
    flags_ok rejects refined vecStart /\ (refined = None <-> skipVec = None) /\
    (forall u, mask_of skipVec u = true -> mask_of refined u = true) /\ (preds = [] -> refined = skipVec).
Proof using Hpreds Himg Hlcs.
  unfold flags_ok. intros Hf Em Hvc. unfold pgcolumnar_native_refine_skipvec. destruct skipVec as [skip|].
  2:{ by exists None, 0. }
  destruct Hf as (Hl & -> & Hok). rewrite (Hvc ltac:(done)). fold preds.
  destruct ((zlen preds =? 0) || (Z.of_nat V <=? 0)) eqn:Eb.
  { by exists (Some skip), 0. }
  destruct (refine_columns_spec preds [] (skip, 0)) as (st & -> & Hl' & Hmono & Hrej); try done.
  { intros u. by rewrite Em. }
  rewrite bind_Ok. exists (Some st.1), st.2. split; [done|]. cbn in *. split; [split; [congruence|split; [done|exact (Hrej Hok)]]|].
  split; [done|]. split; [done|]. intros E. rewrite E in Eb. done.
Qed.
End Skip.

(** ** The executor's qual between the passes *)

Section Qual.
Context `{HTM : TupMacs} `{HVE : VarattExternal}.
Context (plan : scan_plan) (imgs : list image) (lens : list nat) (buffer : list Z) (del : option (list Z)).
Context (f : row_filter) (m : nat -> bool).

Let V := length lens.
Let scs := p_columns plan.

(** No live row of the vector passes the qual. *)
Definition unneeded (v : nat) : Prop :=
  forall j n, lens !! v = Some n -> (j < n)%nat ->
    dv_row_deleted del (vstart lens v + Z.of_nat j) = true \/
    qual f (masked (qualCols f) (expected_row v j scs imgs)) = false.

(** The qual's columns at a row; the others are not loaded yet. *)
Definition qual_at (v j : nat) (q : bool) (sc : scan_column) (lc : loaded_column) (img : image) : Prop :=
  if q then col_inv buffer lens m v j sc lc img else True.

Context (Hnopred : p_predicates plan = []) (Hfilter : p_filter plan = Some f).
Context (Hflags : length (qualCols f) = length scs) (Hnimg : length imgs = length scs).
Context (Hm : forall v, (v < V)%nat -> m v = false).

Lemma qual_flags : native_is_qual_column plan <$> seqZ 0 (natts plan) = qualCols f.
Proof using Hnopred Hfilter Hflags Hnimg V.
  unfold natts, zlen. fold scs. rewrite seqZ_seq, <- list_fmap_compose, <- Hflags. apply list_eq. intros i.
  rewrite list_lookup_fmap. destruct (decide (i < length (qualCols f))%nat) as [Hi|Hi].
  - rewrite lookup_seq_lt by done. cbn. unfold native_is_qual_column. rewrite Hnopred, Hfilter. cbn.
    unfold natts, zlen. fold scs. rewrite <- Hflags. rewrite (proj2 (Z.leb_le 0 (Z.of_nat i))) by lia.
    rewrite (proj2 (Z.ltb_lt (Z.of_nat i) _)) by lia. cbn. rewrite Nat2Z.id.
    destruct (lookup_lt_is_Some_2 (qualCols f) i Hi) as [b Hb]. by rewrite Hb, (nth_lookup_Some _ _ _ _ Hb).
  - rewrite lookup_seq_ge by lia. by rewrite lookup_ge_None_2 by lia.
Qed.

Lemma read_qual_spec v j n lcs :
  cols_rel (qual_at v j) (qualCols f) scs lcs imgs -> lens !! v = Some n -> (j < n)%nat ->
  exists lcs', read_qual_columns plan buffer (vstart lens v + Z.of_nat j) lcs
    = Ok (masked (qualCols f) (expected_row v j scs imgs), lcs') /\
    cols_rel (qual_at v (S j)) (qualCols f) scs lcs' imgs.
Proof using Hnopred Hfilter Hflags Hnimg Hm.
  intros Hc Hn Hj. unfold read_qual_columns. rewrite qual_flags. fold scs.
  assert (Hmv : m v = false) by (apply Hm; by eapply lookup_lt_Some).
  destruct (columns_pass_spec (qual_at v j) (qual_at v (S j))
    (fun q _ sc lc => if (q : bool) then pgcolumnar_row_read_column buffer (vstart lens v + Z.of_nat j) sc lc else Ok (None, lc))
    (fun (q : bool) _ sc img => if q then expected v j sc img else None)
    (qualCols f) (replicate (Z.to_nat (natts plan)) None) scs lcs imgs Hc) as (lcs' & -> & Hc').
  { rewrite length_replicate. unfold natts, zlen. fold scs. lia. }
  { intros [|] x sc lc img Hq; cbn [qual_at] in *; [|by exists lc]. by eapply read_column_spec. }
  exists lcs'. split; [|done]. rewrite pass_row_qual; [done..| |done].
  rewrite length_replicate. unfold natts, zlen. fold scs. lia.
Qed.

Lemma qual_rows_spec v n k : forall j lcs st,
  cols_rel (qual_at v j) (qualCols f) scs lcs imgs -> lens !! v = Some n -> (j + k = n)%nat ->
  exists lcs' any live rej, qual_rows plan k f buffer del (vstart lens v + Z.of_nat j) lcs st = Ok (lcs', (any, live, rej)) /\
    cols_rel (qual_at (S v) 0) (qualCols f) scs lcs' imgs /\
    (any = false -> st.1.1 = false /\ forall j', (j <= j' < n)%nat ->
       dv_row_deleted del (vstart lens v + Z.of_nat j') = true \/
       qual f (masked (qualCols f) (expected_row v j' scs imgs)) = false).
Proof using Hnopred Hfilter Hflags Hnimg Hm.
  induction k as [|k IH]; intros j lcs st Hc Hn Hk; cbn [qual_rows].
  { destruct st as [[any live] rej]. exists lcs, any, live, rej. split; [done|]. split.
    - eapply cols_rel_impl; [|exact Hc]. intros [|] sc lc img; [|done]. replace j with n by lia. by apply col_inv_next.
    - intros ->. split; [done|]. intros j' Hj'. lia. }
  destruct (read_qual_spec v j n lcs Hc Hn) as (lcs1 & -> & Hc1); [lia|]. rewrite bind_Ok.
  destruct st as [[any0 live0] rej0]. set (vals := masked _ _). set (st1 := if dv_row_deleted del _ then _ else _).
  destruct (IH (S j) lcs1 st1 Hc1 Hn) as (lcs' & any & live & rej & E & Hc' & Hno); [lia|].
  replace (vstart lens v + Z.of_nat j + 1) with (vstart lens v + Z.of_nat (S j)) by lia. rewrite E.
  exists lcs', any, live, rej. split; [done|]. split; [done|]. intros Ha. destruct (Hno Ha) as [H1 H2].
  assert (Hj : any0 = false /\ (dv_row_deleted del (vstart lens v + Z.of_nat j) = true \/ qual f vals = false)).
  { unfold st1 in H1. destruct (dv_row_deleted del _) eqn:Ed; [split; [done|by left]|].
    destruct (qual f vals) eqn:Eq; [done|]. split; [done|by right]. }
  split; [apply Hj|]. intros j' Hj'. destruct (decide (j' = j)) as [->|]; [apply Hj|]. apply H2. lia.
Qed.

Lemma qual_vectors_spec k : forall v lcs skip stats,
  cols_rel (qual_at v 0) (qualCols f) scs lcs imgs -> (v + k = V)%nat -> length skip = V ->
  exists skip' stats', qual_vectors plan (Z.of_nat <$> seq v k) f (vstart lens <$> seq 0 (S V)) buffer del lcs skip stats
      = Ok (skip', stats') /\ length skip' = V /\
    (forall u, nth u skip false = true -> nth u skip' false = true) /\
    (forall u, nth u skip' false = true -> nth u skip false = true \/ unneeded u).
Proof using Hnopred Hfilter Hflags Hnimg Hm.
  induction k as [|k IH]; intros v lcs skip stats Hc Hk Hl; cbn [seq fmap list_fmap qual_vectors].
  { exists skip, stats. split; [done|]. split; [done|]. split; [done|]. by left. }
  destruct (lookup_lt_is_Some_2 lens v) as [n Hn]; [fold V; lia|].
  assert (Hst : forall u, (u <= V)%nat -> rd1 (vstart lens <$> seq 0 (S V)) (Z.of_nat u) = Ok (vstart lens u))
    by apply rd1_starts.
  rewrite Hst, bind_Ok by lia. replace (Z.of_nat v + 1) with (Z.of_nat (S v)) by lia. rewrite Hst, bind_Ok by lia.
  rewrite (vstart_S _ _ _ Hn). replace (Z.to_nat (vstart lens v + Z.of_nat n - vstart lens v)) with n by lia.
  destruct (qual_rows_spec v n n 0 lcs (false, 0, 0) Hc Hn eq_refl) as (lcs1 & any & live & rej & E & Hc1 & Hno).
  rewrite Z.add_0_r in E. rewrite E, bind_Ok. destruct any.
  - destruct (IH (S v) lcs1 skip (stats_add stats (mkScanStats 0 0 0 0 0 0 0 rej)) Hc1) as (skip' & stats' & E' & Hrest);
      [lia|done|]. by exists skip', stats'.
  - destruct (Hno eq_refl) as [_ Hun].
    edestruct (IH (S v) lcs1 (<[v := true]> skip)) as (skip' & stats' & E' & Hl' & Hm' & Hb'); [done|lia|by rewrite length_insert|].
    rewrite Nat2Z.id. rewrite E'. exists skip', stats'. split; [done|]. split; [done|].
    assert (Hgrow : forall u, nth u skip false = true -> nth u (<[v := true]> skip) false = true).
    { intros u Hu. rewrite nth_lookup in *. destruct (decide (u = v)) as [->|]; [|by rewrite list_lookup_insert_ne].
      rewrite list_lookup_insert_eq; [done|]. lia. }
    split; [intros u Hu; by apply Hm', Hgrow|]. intros u Hu. destruct (Hb' u Hu) as [Hu'|]; [|by right].
    destruct (nth_insert_true _ _ _ Hu') as [->|]; [right|by left]. intros j n' Hn' Hj.
    rewrite Hn in Hn'. injection Hn' as <-. apply Hun. lia.
Qed.
End Qual.
