(* ===== verification/ScanGroup.v ===== *)
(** * One row group through the scan

    [load_claimed_group] on a stored row group gives the state the row producer
    starts from ([group_at] of [ScanRows]), with every projected column decoded
    and the flags of the vectors it left out justified by the predicates or by
    the qual. *)

From stdpp Require Import sorting.
From S2P Require Import Prelude BitPack Codec Varlena BitSet Compress Encdesc Flush NativeRead.
From S2P Require Import Value ZoneMap Catalog GroupSkip Storage FreeSpace Scan ScanRows ScanLoad ScanSkip.

Lemma cols_rel_intro (R : bool -> scan_column -> loaded_column -> image -> Prop) flags scs lcs imgs :
  length flags = length scs -> length lcs = length scs -> length imgs = length scs ->
  (forall i q sc lc img, flags !! i = Some q -> scs !! i = Some sc -> lcs !! i = Some lc -> imgs !! i = Some img ->
     R q sc lc img) ->
  cols_rel R flags scs lcs imgs.
Proof.
  revert flags lcs imgs. induction scs as [|sc scs IH]; intros [|q flags] [|lc lcs] [|img imgs] [=] [=] [=] HR; constructor.
  - by apply (HR 0%nat).
  - apply IH; [done..|]. intros i. apply (HR (S i)).
Qed.

Lemma flags_list (skip : list bool) V : length skip = V -> skip = mask_of (Some skip) <$> seq 0 V.
Proof.
  intros Hl. apply list_eq. intros i. rewrite list_lookup_fmap. destruct (decide (i < V)%nat) as [Hi|Hi].
  - rewrite lookup_seq_lt by done. cbn. destruct (lookup_lt_is_Some_2 skip i) as [b Hb]; [lia|].
    by rewrite Hb, (nth_lookup_Some _ _ _ _ Hb).
  - rewrite lookup_seq_ge by lia. by rewrite lookup_ge_None_2 by lia.
Qed.

(** ** A stored row group *)

Section StoredGroup.
Context `{HPL : PageLayoutLaws} `{HBC : BlockCodecs} `{HTM : TupMacs} `{HVE : VarattExternal}.
Context (plan : scan_plan) (tables : GroupTables) (rel : list page).

(** The row group's chunks are in the file and in the catalog; its zone maps
    are those of its vectors. *)
Record group_stored (rg : FreeSpace.NativeRowGroupMetadata) (results : list (option FlushColumnResult))
    (imgs : list image) (lens : list nat) : Prop := {
  gs_results : length results = length (p_columns plan);
  gs_images : length imgs = length (p_columns plan);
  gs_columns : forall c sc, p_columns plan !! c = Some sc ->
    exists o img, results !! c = Some o /\ imgs !! c = Some img /\ column_stored lens sc o img;
  gs_rows : vstart lens (length lens) = rg_rowCount rg;
  gs_max : rg_rowCount rg < 2 ^ 32;
  gs_pos : Forall (fun n => (0 < n)%nat) lens;
  gs_vectors : 0 < Z.of_nat (length lens) < 2 ^ 28;
  gs_chunks : PgColumnarReadColumnChunkList (t_column_chunk tables) (p_storageId plan) (rg_groupNumber rg)
    = layout (p_storageId plan) (rg_groupNumber rg) (rg_rowCount rg) (rg_fileOffset rg) results;
  gs_length : rg_byteLength rg = zlen (group_data results);
  gs_offset : 0 <= rg_fileOffset rg;
  gs_end : rg_fileOffset rg + zlen (group_data results) <= (2 ^ 32 - 1) * COLUMNAR_BYTES_PER_PAGE;
  gs_file : holds_at rel (rg_fileOffset rg) (group_data results);
  gs_size : zlen (group_data results) <= MaxAllocSize;
  gs_cover : forall p, p ∈ p_predicates plan ->
    zones_cover lens (PgColumnarReadZoneMapVectorsForColumn (t_zone_map tables) (p_storageId plan)
                        (rg_groupNumber rg) (attidx p));
  gs_cover_all : zones_cover lens (PgColumnarReadZoneMapVectors (t_zone_map tables) (p_storageId plan) (rg_groupNumber rg));
  gs_decide : forall p e, p ∈ p_predicates plan ->
    e ∈ PgColumnarReadZoneMapVectorsForColumn (t_zone_map tables) (p_storageId plan) (rg_groupNumber rg) (attidx p) ->
    zone_decides plan imgs p e
}.

(** The scan's request is about columns of the table. *)
Record plan_ok : Prop := {
  po_preds : forall p, p ∈ p_predicates plan -> 0 <= attidx p < natts plan;
  po_filter : match p_filter plan with Some f => length (qualCols f) = length (p_columns plan) | None => True end
}.

(** The delete masks of the load. *)
Definition group_deletes (rg : FreeSpace.NativeRowGroupMetadata) : option (list Z) :=
  pgcolumnar_merge_delete_vectors
    (PgColumnarReadDeleteVectorList (t_delete_vector tables) (p_storageId plan) (rg_groupNumber rg))
    (u32 (u64 (rg_rowCount rg + 7) / 8)).
Definition group_dead (rg : FreeSpace.NativeRowGroupMetadata) : option (list Z) :=
  match p_deadHorizon plan, group_deletes rg with
  | Some dead, Some _ =>
      pgcolumnar_merge_delete_vectors (PgColumnarReadDeleteVectorList dead (p_storageId plan) (rg_groupNumber rg))
        (u32 (u64 (rg_rowCount rg + 7) / 8))
  | _, _ => None
  end.

Context (Hplan : plan_ok).
Context (rg : FreeSpace.NativeRowGroupMetadata) (results : list (option FlushColumnResult)) (imgs : list image)
  (lens : list nat).
Context (Hst : group_stored rg results imgs lens).

Let V := length lens.
Let ncols := length (p_columns plan).
Let scs := p_columns plan.
Let del := group_deletes rg.
Let has := has_chunk plan results.

(** A vector left out holds no row the caller asked for. *)
Definition passed_over (v : nat) : Prop :=
  forall j n, lens !! v = Some n -> (j < n)%nat ->
    (exists p, p ∈ p_predicates plan /\ row_sat plan imgs v j p = false) \/
    (exists f, p_filter plan = Some f /\
       (dv_row_deleted del (vstart lens v + Z.of_nat j) = true \/
        qual f (masked (qualCols f) (expected_row v j scs imgs)) = false)).

Lemma rejects_passed_over v : rejects plan imgs lens v -> passed_over v.
Proof using. intros Hr j n Hn Hj. left. by apply (Hr j n). Qed.

Lemma image_lens c vecs : imgs !! c = Some (Some vecs) -> length <$> vecs = lens.
Proof using Hst.
  intros Hi. destruct (lookup_lt_is_Some_2 (p_columns plan) c) as [sc Hsc].
  { rewrite <- (gs_images _ _ _ _ Hst). by eapply lookup_lt_Some. }
  destruct (gs_columns _ _ _ _ Hst c sc Hsc) as (o & img & _ & Hi' & Hs). pose proof (eq_trans (eq_sym Hi) Hi') as [= <-].
  destruct o; [|done]. by destruct Hs as (_ & _ & ?).
Qed.

(** A column the image has is one with a chunk, when it is projected. *)
Lemma column_cases c sc : scs !! c = Some sc ->
  (has c = true /\ sc_wanted sc = true /\ exists vecs, imgs !! c = Some (Some vecs)) \/
  (has c = false /\ (forall buffer m v j img, imgs !! c = Some img -> col_inv buffer lens m v j sc not_loaded img)).
Proof using Hst.
  intros Hc. destruct (gs_columns _ _ _ _ Hst c sc Hc) as (o & img & Ho & Hi & Hs).
  unfold has, has_chunk. fold scs. rewrite Hc, Ho. destruct (sc_wanted sc) eqn:Ew, o as [r|], img as [vecs|]; try done;
    try (left; by eauto); right; (split; [done|]); intros buffer m v j img' Hi'; unfold col_inv; rewrite Ew; try done.
  by pose proof (eq_trans (eq_sym Hi) Hi') as [= <-].
Qed.
Section Passes.
Context (buffer : list Z) (skipVec refined : option (list bool)) (st0 st1 st2 : load_st).
Context (H0 : l_cols st0 = replicate ncols not_loaded).
Context (H1 : passed plan results imgs lens buffer skipVec true 0 ncols st0 st1).
Context (H2 : passed plan results imgs lens buffer refined false 0 ncols st1 st2).

Lemma in_pass_qual c : native_is_qual_column plan (Z.of_nat c) = true -> in_pass plan results true c = has c.
Proof using. intros Hq. unfold in_pass. by rewrite Hq, andb_true_r. Qed.

(** After the first pass the qual's columns are decoded, and no other. *)
Lemma pass0_column c sc : scs !! c = Some sc -> native_is_qual_column plan (Z.of_nat c) = true ->
  exists lc, l_cols st1 !! c = Some lc /\
    ((has c = true /\ loaded plan imgs lens buffer skipVec c lc) \/ (has c = false /\ lc = not_loaded)).
Proof using H0 H1.
  intros Hc Hq. destruct H1 as (_ & _ & Hl & Hother & Hin). pose proof (lookup_lt_Some _ _ _ Hc) as Hlt. fold ncols in Hlt.
  destruct (has c) eqn:Eh.
  - destruct (Hin c) as (lc & Elc & Hlc); [unfold scs, ncols in *; lia|by rewrite in_pass_qual|]. exists lc. split; [done|]. by left.
  - exists not_loaded. rewrite Hother by (right; by rewrite in_pass_qual). rewrite H0. split; [|by right].
    apply lookup_replicate_2. exact Hlt.
Qed.

Lemma loaded_col_inv c sc lc img (sv : option (list bool)) :
  scs !! c = Some sc -> imgs !! c = Some img -> sc_wanted sc = true -> loaded plan imgs lens buffer sv c lc ->
  col_inv buffer lens (mask_of sv) 0 0 sc lc img.
Proof using.
  intros Hc Hi Hw (sc' & vecs & Hc' & Hi' & Hinv). fold scs in Hc'. rewrite Hc in Hc'. injection Hc' as <-.
  pose proof (eq_trans (eq_sym Hi') Hi) as [= <-]. unfold col_inv. by rewrite Hw.
Qed.

(** After both passes every column is ready, decoded without at most the
    vectors of the final flags. *)
Lemma pass1_columns :
  (forall u, mask_of skipVec u = true -> mask_of refined u = true) ->
  cols_rel (fun _ => col_at buffer lens (mask_of refined) 0 0) (replicate ncols false) scs (l_cols st2) imgs.
Proof using Hst H0 H1 H2.
  intros Hmono. pose proof H1 as (_ & _ & Hl1 & Ho1 & Hin1). pose proof H2 as (_ & _ & Hl2 & Ho2 & Hin2).
  apply cols_rel_intro; [apply length_replicate|rewrite Hl2, Hl1, H0; apply length_replicate|apply (gs_images _ _ _ _ Hst)|].
  intros i q sc lc img _ Hc Hlc Hi. pose proof (lookup_lt_Some _ _ _ Hc) as Hlt. fold ncols in Hlt. unfold col_at.
  destruct (column_cases i sc Hc) as [(Hh & Hw & _)|(Hh & Hnot)].
  - destruct (in_pass plan results false i) eqn:E1.
    + destruct (Hin2 i) as (lc' & Elc & Hld); [unfold scs, ncols in *; lia|done|]. rewrite Hlc in Elc. injection Elc as <-.
      exists (mask_of refined). split; [done|]. by eapply loaded_col_inv.
    + rewrite Ho2 in Hlc by (by right).
      destruct (Hin1 i) as (lc' & Elc & Hld); [unfold scs, ncols in *; lia| |].
      { unfold in_pass in *. fold has in E1 |- *. rewrite Hh in *. by destruct (native_is_qual_column plan (Z.of_nat i)). }
      rewrite Hlc in Elc. injection Elc as <-. exists (mask_of skipVec). split; [done|]. by eapply loaded_col_inv.
  - assert (Hno : forall b, in_pass plan results b i = false) by (intros b; unfold in_pass; fold has; by rewrite Hh).
    rewrite Ho2, Ho1, H0 in Hlc by (by right). apply lookup_replicate_1 in Hlc as [-> _].
    exists (mask_of skipVec). split; [done|]. by apply Hnot.
Qed.
End Passes.
(** The first flags, from the zone maps. *)
Lemma first_flags (all : bool) :
  let maxVec := if existsb has (seq 0 ncols) then Z.of_nat V else 0 in
  exists skipVec vecStart,
    (if all then pgcolumnar_native_build_skipvec plan tables (rg_groupNumber rg) maxVec else Ok (None, None))
    = Ok (skipVec, vecStart) /\
    flags_ok lens (rejects plan imgs lens) skipVec vecStart /\ (skipVec <> None -> maxVec = Z.of_nat V).
Proof using Hplan Hst.
  intros maxVec. destruct all; [|by exists None, None]. unfold maxVec. destruct (existsb has (seq 0 ncols)).
  2:{ by exists None, None. }
  pose proof Hst as [G1 G2 G3 G4 G5 G6 G7 G8 G9 G10 G11 G12 G13 G14 G15 G16]. destruct Hplan as [P1 P2].
  destruct (build_skipvec_spec plan tables (rg_groupNumber rg) imgs lens P1 G6) as (sv & vs & E & Hf); try done.
  { unfold vstart in G4. rewrite take_ge in G4 by done. lia. }
  { intros c vecs. apply image_lens. }
  by exists sv, vs.
Qed.

(** The predicates on the decoded values. *)
Lemma second_flags buffer skipVec vecStart st0 st1 (all : bool) :
  l_cols st0 = replicate ncols not_loaded -> passed plan results imgs lens buffer skipVec true 0 ncols st0 st1 ->
  flags_ok lens (rejects plan imgs lens) skipVec vecStart -> (skipVec <> None -> l_maxVec st1 = Z.of_nat V) ->
  exists refined n,
    (if all then pgcolumnar_native_refine_skipvec plan skipVec vecStart (l_maxVec st1) buffer (l_cols st1) else Ok (skipVec, 0))
    = Ok (refined, n) /\
    flags_ok lens (rejects plan imgs lens) refined vecStart /\ (refined = None <-> skipVec = None) /\
    (forall u, mask_of skipVec u = true -> mask_of refined u = true) /\
    (p_predicates plan = [] -> refined = skipVec).
Proof using Hplan Hst.
  intros H0 H1 Hf Hmv. destruct all; [|by exists skipVec, 0].
  destruct (refine_skipvec_spec plan imgs lens buffer (po_preds Hplan) (image_lens)  (l_cols st1) (mask_of skipVec))
    with (skipVec := skipVec) (vecStart := vecStart) (vc := l_maxVec st1) as (refined & n & E & Hr); try done.
  - intros p Hp. destruct (plan_column plan lens (po_preds Hplan) p Hp) as (sc & Hsc & _).
    pose proof (po_preds Hplan p Hp) as Hrange.
    destruct (pass0_column buffer skipVec st0 st1 H0 H1 (Z.to_nat (attidx p)) sc Hsc) as (lc & Elc & Hlc).
    { rewrite Z2Nat.id by lia. unfold native_is_qual_column. apply orb_true_iff. left. apply existsb_exists.
      exists p. split; [by apply list_elem_of_In|apply Z.eqb_refl]. }
    exists lc. split; [done|]. destruct Hlc as [(_ & sc' & vecs & ? & ? & ?)|(_ & ->)]; [right|by left]. by exists sc', vecs.
  - by exists refined, n.
Qed.

(** The qual between the passes. *)
Lemma third_flags buffer skipVec vecStart st0 st1 (go : bool) stats :
  l_cols st0 = replicate ncols not_loaded -> passed plan results imgs lens buffer skipVec true 0 ncols st0 st1 ->
  flags_ok lens (rejects plan imgs lens) skipVec vecStart -> (skipVec <> None -> l_maxVec st1 = Z.of_nat V) ->
  (go = true -> p_predicates plan = []) ->
  exists refined counted stats',
    (if go then pgcolumnar_native_qual_skipvec plan skipVec vecStart (l_maxVec st1) buffer del (l_cols st1) stats
     else Ok (skipVec, false, stats)) = Ok (refined, counted, stats') /\
    flags_ok lens passed_over refined vecStart /\ (refined = None <-> skipVec = None) /\
    (forall u, mask_of skipVec u = true -> mask_of refined u = true).
Proof using Hplan Hst.
  intros H0 H1 Hf Hmv Hgo.
  assert (Hsame : flags_ok lens passed_over skipVec vecStart).
  { unfold flags_ok in *. destruct skipVec as [skip|]; [|done]. destruct Hf as (? & ? & Hok). split; [done|]. split; [done|].
    intros v Hv Hlt. by apply rejects_passed_over, Hok. }
  destruct go; [|by exists skipVec, false, stats]. specialize (Hgo eq_refl). unfold pgcolumnar_native_qual_skipvec.
  destruct skipVec as [skip|]; [|by exists None, false, stats]. destruct Hf as (Hl & -> & Hok).
  case_eq (p_filter plan); [intros f Hfil|intros _; by exists (Some skip), false, stats].
  rewrite (Hmv ltac:(done)). destruct (Z.leb_spec (Z.of_nat V) 0); [by exists (Some skip), false, stats|].
  assert (Hnomask : forall v, (v < V)%nat -> mask_of (Some skip) v = false).
  { intros v Hv. destruct (mask_of (Some skip) v) eqn:Em; [|done]. exfalso.
    destruct (lookup_lt_is_Some_2 lens v Hv) as [n Hn]. pose proof (Forall_lookup_1 _ _ _ _ (gs_pos _ _ _ _ Hst) Hn).
    destruct (Hok v Em Hv 0%nat n Hn) as (p & Hp & _); [done|]. rewrite Hgo in Hp. by apply not_elem_of_nil in Hp. }
  pose proof (po_filter Hplan) as Hfl. rewrite Hfil in Hfl. pose proof (gs_images _ _ _ _ Hst) as Hni.
  destruct (qual_vectors_spec plan imgs lens buffer del f (mask_of (Some skip)) Hgo Hfil Hfl Hni Hnomask V 0 (l_cols st1) skip stats)
    as (skip' & stats' & E & Hl' & Hm & Hb); [|done|done|].
  { apply cols_rel_intro; [done|destruct H1 as (_ & _ & -> & _); rewrite H0; apply length_replicate|done|].
    intros i [|] sc lc img Hq Hc Hlc Hi; [|done]. unfold qual_at.
    pose proof (qual_flags plan imgs lens f Hgo Hfil Hfl Hni) as Hqf. rewrite <- Hqf in Hq.
    destruct (pass0_column buffer (Some skip) st0 st1 H0 H1 i sc Hc) as (lc' & Elc & Hlc').
    { rewrite list_lookup_fmap_Some in Hq. destruct Hq as (z & Hz1 & Hz). rewrite lookup_seqZ in Hz. by destruct Hz as [-> _]. }
    rewrite Hlc in Elc. injection Elc as <-. destruct (column_cases i sc Hc) as [(Hh & Hw & _)|(Hh & Hnot)].
    - destruct Hlc' as [(_ & Hld)|(Hh' & _)]; [|congruence]. by apply (loaded_col_inv buffer i).
    - destruct Hlc' as [(Hh' & _)|(_ & ->)]; [congruence|]. by apply Hnot. }
  rewrite seqZ_seq. fold V in E |- *. rewrite E, bind_Ok. exists (Some skip'), true, stats'. split; [done|]. split; [|done].
  split; [done|]. split; [done|]. intros v Hv Hlt. destruct (Hb v Hv) as [Hv'|Hun].
  - by apply rejects_passed_over, Hok.
  - intros j n Hn Hj. right. exists f. split; [done|]. by apply (Hun j n).
Qed.
(** ** The load *)

Lemma load_claimed_group_spec mem stats :
  exists g mem' stats' skip skips,
    load_claimed_group plan tables rel rg mem stats = Ok (g, mem', stats') /\
    group_at plan rg mem' imgs lens skip skips del (group_dead rg) g 0 0 /\
    (skips = false -> forall u, skip u = false) /\
    (forall v, skip v = true -> (v < V)%nat -> passed_over v).
Proof using Hplan Hst HPL.
  pose proof Hst as [G1 G2 G3 G4 G5 G6 [G7 G7'] G8 G9 G10 G11 G12 G13 _ _ _]. unfold load_claimed_group.
  rewrite G8. fold (group_deletes rg). fold (group_dead rg). fold del.
  destruct (read_group_bytes_spec (p_enable_read_stream plan) rel (p_columns plan) rg (p_storageId plan)
    (rg_groupNumber rg) (rg_rowCount rg) results G1 G9 G10 G11 G12 mem G13) as (buffer & -> & Hb & Hheld).
  rewrite bind_Ok. set (all := match layout _ _ _ _ _ with [] => false | _ => true end). clearbody all.
  unfold layout. rewrite G1. fold ncols.
  rewrite (prepass_spec plan rg (p_storageId plan) (rg_groupNumber rg) results imgs lens G1 G2 G3 G4 G7' ncols 0 0 all)
    by (by auto). rewrite bind_Ok. fold has V.
  destruct (first_flags all) as (skipVec & vecStart & E1 & Hf1 & Hmv). rewrite E1, bind_Ok.
  set (maxVec := if existsb has (seq 0 ncols) then Z.of_nat V else 0) in *.
  assert (Hmax : forall st, l_maxVec st = maxVec -> existsb has (seq 0 ncols) = true -> l_maxVec st = Z.of_nat V).
  { intros st -> Hx. unfold maxVec. by rewrite Hx. }
  set (st0 := mkLoad (replicate ncols not_loaded) maxVec 0 0 all).
  destruct (load_pass_spec plan rg (p_storageId plan) (rg_groupNumber rg) results imgs lens buffer G1 G2 G3 G4 G7' G9 Hb Hheld
    skipVec true ncols 0 st0) as (st1 & E2 & Hp1); [done|apply length_replicate|by apply Hmax|].
  fold ncols in E2. fold st0. rewrite E2, bind_Ok. pose proof Hp1 as (Hmv1 & Hall1 & Hlen1 & _).
  assert (Hmv' : skipVec <> None -> l_maxVec st1 = Z.of_nat V) by (intros Hn; rewrite Hmv1; by apply Hmv).
  destruct (second_flags buffer skipVec vecStart st0 st1 (l_allDescriptor st1) eq_refl Hp1 Hf1 Hmv')
    as (refined & ruled & E3 & Hf2 & Hnone2 & Hmono2 & Hsame2).
  rewrite E3, bind_Ok.
  set (go := l_allDescriptor st1 && (zlen (p_predicates plan) =? 0)
    && (p_qual_skipvec_min_payload_cols plan <=? pgcolumnar_native_payload_col_count plan)).
  assert (Hgo : go = true -> p_predicates plan = []).
  { unfold go. intros [[_ Hz%Z.eqb_eq]%andb_true_iff _]%andb_true_iff. by apply nil_length_inv, (Nat2Z.inj _ 0). }
  assert (Hthird : exists final counted stats',
    (if go then pgcolumnar_native_qual_skipvec plan refined vecStart (l_maxVec st1) buffer del (l_cols st1) stats
     else Ok (refined, false, stats)) = Ok (final, counted, stats') /\
    flags_ok lens passed_over final vecStart /\ (final = None <-> refined = None) /\
    (forall u, mask_of refined u = true -> mask_of final u = true)).
  { case_eq go; intros Eg.
    - rewrite (Hsame2 (Hgo Eg)). exact (third_flags buffer skipVec vecStart st0 st1 true stats eq_refl Hp1 Hf1 Hmv' (fun _ => Hgo Eg)).
    - exists refined, false, stats. split; [done|]. split; [|done]. unfold flags_ok in *. destruct refined as [skip|]; [|done].
      destruct Hf2 as (? & ? & Hok). split; [done|]. split; [done|]. intros v Hv Hlt. by apply rejects_passed_over, Hok. }
  destruct Hthird as (final & counted & stats' & E4 & Hf3 & Hnone3 & Hmono3). rewrite E4, bind_Ok.
  destruct (load_pass_spec plan rg (p_storageId plan) (rg_groupNumber rg) results imgs lens buffer G1 G2 G3 G4 G7' G9 Hb Hheld
    final false ncols 0 st1) as (st2 & E5 & Hp2); [done|rewrite Hlen1; apply length_replicate|by apply Hmax|].
  fold ncols in E5. rewrite E5, bind_Ok.
  pose proof (pass1_columns buffer skipVec final st0 st1 st2 eq_refl Hp1 Hp2 ltac:(auto)) as Hcols.
  eexists _, _, _, (mask_of final), (match final with Some _ => true | None => false end).
  split; [done|]. split; [|split].
  - split; cbn [g_cols g_rowInGroup g_meta g_buffer g_deleteMask g_deadMask g_skipVec g_vecStart g_vectorCount g_curVec]; try done.
    destruct final as [skip|]; [|done]. destruct Hf3 as (Hl & -> & _). split; [f_equal; by apply flags_list|].
    split; [done|]. split; [|lia]. apply Hmv. intros ->. destruct Hnone2 as [_ Hn2]. destruct Hnone3 as [_ Hn3].
    rewrite Hn2 in Hn3 by done. by specialize (Hn3 eq_refl).
  - by destruct final.
  - unfold flags_ok in Hf3. destruct final as [skip|]; [|done]. by destruct Hf3 as (_ & _ & Hok).
Qed.
End StoredGroup.
