(* ===== verification/ScanTable.v ===== *)
(** * A whole table through the scan

    The claim loop over the row groups, then the scan of every group it claims,
    up to the end of the table: the rows a caller gets are the stored rows that
    are visible to it, less rows that do not satisfy the pushed-down
    predicates. *)

From stdpp Require Import sorting.
From S2P Require Import Prelude BitPack Codec Varlena BitSet Compress Encdesc Flush NativeRead.
From S2P Require Import Value ZoneMap Catalog GroupSkip Storage FreeSpace Scan ScanRows ScanLoad ScanSkip ScanGroup.

(** ** The restriction set *)

Lemma sorted_lookup_le (l : list Z) i j a b :
  StronglySorted Z.le l -> (i <= j)%nat -> l !! i = Some a -> l !! j = Some b -> a <= b.
Proof.
  revert i j. induction l as [|x l IH]; intros i j Hs Hij Hi Hj; [done|]. apply StronglySorted_inv in Hs as [Hs Hx].
  destruct i as [|i], j as [|j]; cbn in *; [injection Hi as <-; injection Hj as <-; lia| |lia|].
  - injection Hi as <-. rewrite list.Forall_forall in Hx. apply Hx. by eapply list_elem_of_lookup_2.
  - apply (IH i j); [done|lia|done..].
Qed.

Lemma restricted_search_spec groups g : StronglySorted Z.le groups ->
  forall fuel lo hi, 0 <= lo <= hi + 1 -> hi < zlen groups -> hi - lo + 1 < Z.of_nat fuel ->
  (forall i, groups !! i = Some g -> lo <= Z.of_nat i <= hi) ->
  restricted_search fuel groups g lo hi = Ok (bool_decide (g ∈ groups)).
Proof.
  intros Hs fuel. induction fuel as [|fuel IH]; intros lo hi Hlo Hhi Hf Hin; [lia|].
  cbn [restricted_search]. destruct (Z.leb_spec lo hi) as [Hle|Hgt].
  2:{ rewrite bool_decide_false; [done|]. intros (i & Hi)%list_elem_of_lookup. specialize (Hin i Hi). lia. }
  set (mid := lo + (hi - lo) / 2).
  assert (Hmid : lo <= mid <= hi) by (unfold mid; div_bounds (hi - lo) 2; lia).
  destruct (lookup_lt_is_Some_2 groups (Z.to_nat mid)) as [x Hx]; [unfold zlen in *; lia|].
  rewrite rd1_Ok, bind_Ok by lia. unfold nthZ. rewrite (nth_lookup_Some _ _ _ _ Hx).
  destruct (Z.eqb_spec x g) as [->|Hne].
  { rewrite bool_decide_true; [done|]. by eapply list_elem_of_lookup_2. }
  destruct (Z.ltb_spec x g).
  - apply IH; [lia|lia|lia|]. intros i Hi. destruct (decide (Z.of_nat i <= mid)); [|specialize (Hin i Hi); lia].
    pose proof (sorted_lookup_le groups i (Z.to_nat mid) g x Hs ltac:(lia) Hi Hx). lia.
  - apply IH; [lia|lia|lia|]. intros i Hi. destruct (decide (mid <= Z.of_nat i)); [|specialize (Hin i Hi); lia].
    pose proof (sorted_lookup_le groups (Z.to_nat mid) i x g Hs ltac:(lia) Hx Hi). lia.
Qed.

Lemma group_is_restricted_in_spec groups g :
  StronglySorted Z.le groups -> pgcolumnar_group_is_restricted_in groups g = Ok (bool_decide (g ∈ groups)).
Proof.
  intros Hs. unfold pgcolumnar_group_is_restricted_in. apply restricted_search_spec; [done|unfold zlen; lia|lia|unfold zlen; lia|].
  intros i Hi. apply lookup_lt_Some in Hi. unfold zlen. lia.
Qed.

(** ** The counter *)

Definition counter_index (c : group_counter) : Z :=
  match c with RowGroupIndex i | ParallelCounter i | Nallocated i => i end.

Lemma next_group_index_spec n c :
  0 <= counter_index c < 2 ^ 31 - 1 ->
  exists c', pgcolumnar_next_group_index n c
    = (if counter_index c <? n then Some (counter_index c) else None, c') /\ counter_index c' = counter_index c + 1.
Proof.
  intros Hc. destruct c as [i|i|i]; cbn [counter_index] in *; unfold pgcolumnar_next_group_index.
  - rewrite u64_small by lia. eexists. split; [done|]. cbn. apply s32_small. lia.
  - eexists. split; [done|]. cbn. apply u32_small. lia.
  - eexists. split; [done|]. cbn. apply u64_small. lia.
Qed.

(** ** The rows of a group *)

Record table_group := mkTableGroup {
  tg_meta : FreeSpace.NativeRowGroupMetadata;
  tg_results : list (option FlushColumnResult);
  tg_images : list image;
  tg_lens : list nat
}.

Section Table.
Context `{HPL : PageLayoutLaws} `{HBC : BlockCodecs} `{HTM : TupMacs} `{HVE : VarattExternal}.
Context (plan : scan_plan) (tables : GroupTables) (rel : list page).

(** The row satisfies every pushed-down predicate. *)
Definition row_passes (row : Z * list (option Datum)) : bool :=
  forallb (fun p => match row.2 !! Z.to_nat (attidx p) with
                    | Some (Some d) => pred_holds p d
                    | _ => false
                    end) (p_predicates plan).

(** The rows of the group the caller may see, whatever is skipped. *)
Definition group_row (tg : table_group) (v j : nat) : option (Z * list (option Datum)) :=
  row_out plan (tg_meta tg) (tg_images tg) (tg_lens tg) (group_deletes plan tables (tg_meta tg))
    (group_dead plan tables (tg_meta tg)) v j.
Definition group_rows (tg : table_group) : list (Z * list (option Datum)) :=
  concat ((fun v => omap (group_row tg v) (seq 0 (tg_lens tg !!! v))) <$> seq 0 (length (tg_lens tg))).

(** The group is in the restriction set. *)
Definition admitted (tg : table_group) : bool :=
  match p_restrictGroups plan with
  | Some groups => bool_decide (rg_groupNumber (tg_meta tg) ∈ groups)
  | None => true
  end.

Definition table_rows (tgs : list table_group) : list (Z * list (option Datum)) :=
  concat ((fun tg => if admitted tg then group_rows tg else []) <$> tgs).

(** What is left of rows after skipping: a part of them, with all that satisfy
    the predicates. *)
Definition keeps (out full : list (Z * list (option Datum))) : Prop :=
  out `sublist_of` full /\ filter (fun r => row_passes r = true) out = filter (fun r => row_passes r = true) full.

Lemma keeps_refl l : keeps l l.
Proof using. done. Qed.

Lemma keeps_nil l : Forall (fun r => row_passes r = false) l -> keeps [] l.
Proof using.
  intros Hl. split; [apply sublist_nil_l|]. induction Hl as [|r l Hr _ IH]; [done|]. rewrite filter_cons, Hr. exact IH.
Qed.

Lemma keeps_app a b a' b' : keeps a a' -> keeps b b' -> keeps (a ++ b) (a' ++ b').
Proof using. intros [S1 E1] [S2 E2]. split; [by apply sublist_app|]. rewrite !list.filter_app. by f_equal. Qed.

Lemma keeps_concat {A} (f g : A -> list (Z * list (option Datum))) l :
  (forall x, x ∈ l -> keeps (f x) (g x)) -> keeps (concat (f <$> l)) (concat (g <$> l)).
Proof using.
  induction l as [|x l IH]; intros Hl; [apply keeps_refl|]. cbn. apply keeps_app; [apply Hl, list_elem_of_here|].
  apply IH. intros y Hy. apply Hl. by apply list_elem_of_further.
Qed.

Context (Hplan : plan_ok plan).
Context (Hproj : forall p sc, p ∈ p_predicates plan -> p_columns plan !! Z.to_nat (attidx p) = Some sc -> sc_wanted sc = true).

(** A row a predicate rejects is not one the caller asked for. *)
Lemma row_sat_passes tg v j p num row :
  p ∈ p_predicates plan -> row_sat plan (tg_images tg) v j p = false -> group_row tg v j = Some (num, row) ->
  row_passes (num, row) = false.
Proof using Hproj.
  intros Hp Hs Hrow. unfold group_row, row_out in Hrow. destruct (match p_filter plan with Some f => _ | None => _ end); [done|].
  injection Hrow as _ <-. apply not_true_iff_false. unfold row_passes. rewrite forallb_forall. intros Hall.
  specialize (Hall p (proj1 (list_elem_of_In _ _) Hp)). revert Hs Hall. unfold row_sat, expected_row. cbn [snd].
  rewrite lookup_zip_with. destruct (p_columns plan !! Z.to_nat (attidx p)) as [sc|] eqn:Hc; [|done].
  destruct (tg_images tg !! Z.to_nat (attidx p)) as [[vecs|]|]; [|done|done]. cbn. unfold expected. rewrite (Hproj p sc Hp Hc).
  destruct (cell_at vecs v j) as [[[d b]|]|]; [|done|done]. intros -> Hf. done.
Qed.

(** The rows of a scanned group. *)
Lemma out_from_keeps tg skip :
  (forall v, skip v = true -> (v < length (tg_lens tg))%nat -> passed_over plan tables (tg_meta tg) (tg_images tg) (tg_lens tg) v) ->
  keeps (out_from plan (tg_meta tg) (tg_images tg) (tg_lens tg) skip (group_deletes plan tables (tg_meta tg))
           (group_dead plan tables (tg_meta tg)) 0 0) (group_rows tg).
Proof using Hproj.
  intros Hskip. rewrite <- out_from_later, Nat.sub_0_r. apply keeps_concat.
  intros v [_ Hv]%elem_of_seq. unfold vec_out. fold (group_row tg). rewrite Nat.sub_0_r. destruct (skip v) eqn:Es; [|apply keeps_refl].
  apply keeps_nil, list.Forall_forall. intros [num row] (j & Hj%elem_of_seq & Hrow)%list_elem_of_omap.
  destruct (lookup_lt_is_Some_2 (tg_lens tg) v Hv) as [n Hn].
  rewrite (list_lookup_total_correct _ _ _ Hn) in Hj.
  destruct (Hskip v Es Hv j n Hn ltac:(lia)) as [(p & Hp & Hs)|(f & Hf & Hno)].
  - by eapply row_sat_passes.
  - exfalso. unfold group_row, row_out in Hrow. rewrite Hf in Hrow. destruct Hno as [E|E]; rewrite E in Hrow; [done|].
    cbn [negb] in Hrow. by rewrite orb_true_r in Hrow.
Qed.
(** ** Claiming a group *)

(** Each test of the zone maps and bloom filters answers, and excludes the group
    only when the predicate holds of none of its rows. *)
Definition group_decided (tg : table_group) : Prop :=
  forall p, p ∈ p_predicates plan -> exists b,
    predicate_excludes (p_enable_bloom_filter plan) (sc_att <$> p_columns plan)
      (PgColumnarReadZoneMapForColumn (t_zone_map tables) (p_storageId plan) (rg_groupNumber (tg_meta tg)))
      (PgColumnarReadBloomForColumn (t_bloom tables) (p_storageId plan) (rg_groupNumber (tg_meta tg))) p = Ok b /\
    (b = true -> forall v j n, tg_lens tg !! v = Some n -> (j < n)%nat -> row_sat plan (tg_images tg) v j p = false).

Context (Hrestrict : match p_restrictGroups plan with Some groups => StronglySorted Z.le groups | None => True end).

Let admitted_rows (tg : table_group) : list (Z * list (option Datum)) := if admitted tg then group_rows tg else [].

(** The claim's decision on one group. *)
Definition claim_test (rg : FreeSpace.NativeRowGroupMetadata) (order : order_st) : res (bool * order_st) :=
  inside ← (match p_restrictGroups plan with
            | Some groups => pgcolumnar_group_is_restricted_in groups (rg_groupNumber rg)
            | None => Ok true
            end);
  if negb (inside : bool) then Ok (false, order)
  else if 0 <? zlen (p_predicates plan)
  then pgcolumnar_native_group_can_match (p_enable_bloom_filter plan) (sc_att <$> p_columns plan)
         (PgColumnarReadZoneMapForColumn (t_zone_map tables) (p_storageId plan) (rg_groupNumber rg))
         (PgColumnarReadBloomForColumn (t_bloom tables) (p_storageId plan) (rg_groupNumber rg))
         (p_predicates plan) order
  else Ok (true, order).

Lemma claim_test_spec tg order :
  group_decided tg -> order_ok (p_predicates plan) order ->
  exists b order', claim_test (tg_meta tg) order = Ok (b, order') /\ order_ok (p_predicates plan) order' /\
    if b then admitted tg = true else keeps [] (admitted_rows tg).
Proof using Hproj Hrestrict.
  intros Hdec Hord. unfold claim_test, admitted_rows.
  assert (Hin : (match p_restrictGroups plan with
    | Some groups => pgcolumnar_group_is_restricted_in groups (rg_groupNumber (tg_meta tg))
    | None => Ok true end) = Ok (admitted tg)).
  { unfold admitted. destruct (p_restrictGroups plan); [by apply group_is_restricted_in_spec|done]. }
  rewrite Hin, bind_Ok. destruct (admitted tg); cbn [negb]; [|exists false, order; split; [done|]; split; [done|apply keeps_refl]].
  destruct (0 <? zlen (p_predicates plan)); [|by exists true, order].
  set (excl := predicate_excludes (p_enable_bloom_filter plan) (sc_att <$> p_columns plan)
    (PgColumnarReadZoneMapForColumn (t_zone_map tables) (p_storageId plan) (rg_groupNumber (tg_meta tg)))
    (PgColumnarReadBloomForColumn (t_bloom tables) (p_storageId plan) (rg_groupNumber (tg_meta tg)))).
  set (f p := match excl p with Ok b => b | _ => false end).
  assert (Hf : forall p, p ∈ p_predicates plan -> excl p = Ok (f p)).
  { intros p Hp. destruct (Hdec p Hp) as (b & E & _). unfold f, excl. by rewrite E. }
  destruct (group_can_match_spec _ _ _ _ _ order f Hord Hf) as (order' & -> & Hord').
  exists (forallb (fun p => negb (f p)) (p_predicates plan)), order'. split; [done|]. split; [done|].
  destruct (forallb _ _) eqn:Eb; [done|]. apply forallb_negb_false in Eb as (p & Hp & Ep).
  destruct (Hdec p Hp) as (b & E & Hno). assert (Hb : b = true) by (unfold f, excl in Ep; by rewrite E in Ep).
  apply keeps_nil, list.Forall_forall. intros [num row] Hrow.
  apply list_elem_of_In, in_concat in Hrow as (l & Hl & Hrow). apply list_elem_of_In in Hl, Hrow.
  apply list_elem_of_fmap_1 in Hl as (v & -> & [_ Hv]%elem_of_seq).
  apply list_elem_of_omap in Hrow as (j & Hj%elem_of_seq & Hrow).
  destruct (lookup_lt_is_Some_2 (tg_lens tg) v Hv) as [n Hn]. rewrite (list_lookup_total_correct _ _ _ Hn) in Hj.
  apply (row_sat_passes tg v j p num row Hp); [|done]. apply (Hno Hb v j n Hn). lia.
Qed.

Context (tgs : list table_group).
Context (Hdecided : Forall group_decided tgs) (Hcount : zlen tgs < 2 ^ 31 - 1).

(** The producer's state between groups: the counter at group [i]. *)
Record at_group (rs : read_state) (i : nat) : Prop := {
  ag_list : rs_rowGroupList rs = tg_meta <$> tgs;
  ag_counter : counter_index (rs_counter rs) = Z.of_nat i;
  ag_order : order_ok (p_predicates plan) (rs_order rs);
  ag_exhausted : rs_exhausted rs = false
}.

Lemma claim_group_spec rest : forall fuel rs i,
  at_group rs i -> drop i tgs = rest -> (i <= length tgs)%nat -> (length rest < fuel)%nat ->
  exists rs' c, claim_group plan tables fuel rs = Ok (c, rs') /\
    match c with
    | None => keeps [] (table_rows rest) /\ at_group rs' (S (length tgs))
    | Some rg => exists pre tg post, rest = pre ++ tg :: post /\ rg = tg_meta tg /\ admitted tg = true /\
        keeps [] (table_rows pre) /\ at_group rs' (i + S (length pre))
    end.
Proof using Hproj Hrestrict Hdecided Hcount.
  induction rest as [|tg rest IH]; intros fuel rs i [Hl Hc Hord Hx] Hd Hi Hf; (destruct fuel as [|fuel]; [cbn in Hf; lia|]);
    cbn [claim_group]; rewrite Hl.
  - assert (Ei : i = length tgs).
    { assert (length (drop i tgs) = 0%nat) as E by (by rewrite Hd). rewrite length_drop in E. lia. }
    destruct (next_group_index_spec (zlen (tg_meta <$> tgs)) (rs_counter rs)) as (c' & -> & Hc').
    { rewrite Hc. unfold zlen in Hcount. lia. }
    unfold zlen at 1. rewrite length_fmap, Hc, Ei, Z.ltb_irrefl. eexists _, None. split; [done|]. split; [apply keeps_refl|].
    split; cbn; try done. lia.
  - assert (Htg : tgs !! i = Some tg) by (rewrite <- (Nat.add_0_r i), <- lookup_drop, Hd; done).
    pose proof (lookup_lt_Some _ _ _ Htg) as Hlt.
    destruct (next_group_index_spec (zlen (tg_meta <$> tgs)) (rs_counter rs)) as (c' & -> & Hc').
    { rewrite Hc. unfold zlen in Hcount. lia. }
    unfold zlen at 1. rewrite length_fmap, Hc. rewrite (proj2 (Z.ltb_lt _ _)) by lia. cbn [rs_rowGroupList].
    rewrite Nat2Z.id, list_lookup_fmap, Htg. cbn [fmap option_fmap option_map rs_order rs_stats].
    destruct (claim_test_spec tg (rs_order rs)) as (b & order' & E & Hord' & Hb); [exact (Forall_lookup_1 _ _ _ _ Hdecided Htg)|done|].
    unfold claim_test in E. revert E.
    destruct (match p_restrictGroups plan with Some groups => _ | None => _ end) as [inside|?| |]; try done.
    rewrite !bind_Ok. intros E. rewrite E, bind_Ok. destruct b.
    + eexists _, (Some (tg_meta tg)). split; [done|]. exists [], tg, rest. repeat (split; [done || apply keeps_refl|]).
      split; cbn; try done. lia.
    + match goal with |- context [claim_group plan tables fuel ?r] => set (rs1 := r) end.
      destruct (IH fuel rs1 (S i)) as (rs' & c & E' & Hcase); [split; cbn; try done; lia| |lia|cbn in Hf; lia|].
      { by rewrite <- Nat.add_1_r, <- drop_drop, Hd. }
      exists rs', c. split; [exact E'|]. destruct c as [rg|].
      * destruct Hcase as (pre & tg' & post & -> & -> & Ha & Hk & Hat). exists (tg :: pre), tg', post.
        split; [done|]. split; [done|]. split; [done|]. split; [apply (keeps_app [] [] (admitted_rows tg)); done|].
        cbn [length]. replace (i + S (S (length pre)))%nat with (S i + S (length pre))%nat by lia. done.
      * destruct Hcase as [Hk Hat]. split; [|done]. apply (keeps_app [] [] (admitted_rows tg)); done.
Qed.
(** ** The whole run *)

Context (Hstored : Forall (fun tg => group_stored plan tables rel (tg_meta tg) (tg_results tg) (tg_images tg) (tg_lens tg)) tgs).

Definition total_rows (l : list table_group) : nat := sum_list ((fun tg => Z.to_nat (rg_rowCount (tg_meta tg))) <$> l).

(** No group is open, or the open one has no row left. *)
Definition needs_group (rs : read_state) : Prop :=
  match rs_group rs with None => True | Some g => rg_rowCount (g_meta g) <= g_rowInGroup g end.

Lemma turn_needs rs : needs_group rs ->
  next_row_turn plan tables rel rs
  = (' (loaded, rs) ← pgcolumnar_native_load_group plan tables rel rs;
     match loaded with
     | None => Ok (Exhausted (mkReadState (rs_rowGroupList rs) (rs_counter rs) (rs_order rs) (rs_bufferMem rs)
                                (rs_group rs) true (rs_lastRowDeleted rs) (rs_stats rs)))
     | Some g => turn_loaded plan rs g
     end).
Proof using.
  unfold needs_group, next_row_turn. destruct (rs_group rs); [|done]. intros Hle. by rewrite (proj2 (Z.leb_le _ _) Hle).
Qed.

(** The turns of one claimed group. *)
Lemma group_run tg rs :
  tg ∈ tgs -> rs_exhausted rs = false ->
  exists g mem stats, load_claimed_group plan tables rel (tg_meta tg) (rs_bufferMem rs) (rs_stats rs) = Ok (g, mem, stats) /\
    let rs0 := mkReadState (rs_rowGroupList rs) (rs_counter rs) (rs_order rs) mem (Some g) (rs_exhausted rs)
                 (rs_lastRowDeleted rs) stats in
    forall rs_start, rs_exhausted rs_start = false ->
      next_row_turn plan tables rel rs_start = turn_loaded plan rs0 g ->
      exists k out rs', runs plan tables rel k rs_start out rs' /\ (k <= Z.to_nat (rg_rowCount (tg_meta tg)))%nat /\
        keeps out (group_rows tg) /\ needs_group rs' /\ same_scan rs0 rs'.
Proof using Hplan Hproj Hstored HPL.
  intros Htg Hx. rewrite list.Forall_forall in Hstored. pose proof (Hstored tg Htg) as Hst.
  destruct (load_claimed_group_spec plan tables rel Hplan (tg_meta tg) (tg_results tg) (tg_images tg) (tg_lens tg) Hst
    (rs_bufferMem rs) (rs_stats rs)) as (g & mem & stats & skip & skips & E & Hat & Hnone & Hover).
  exists g, mem, stats. split; [done|]. intros rs0 rs_start Hxs Hturn.
  pose proof Hst as [_ _ _ G4 G5 G6 [G7 _] _ _ _ _ _ _ _ _ _].
  destruct (lookup_lt_is_Some_2 (tg_lens tg) 0) as [n Hn]; [lia|].
  pose proof (Forall_lookup_1 _ _ _ _ G6 Hn) as Hpos. cbn in Hpos.
  destruct (group_turns plan tables rel (tg_meta tg) mem (tg_images tg) (tg_lens tg) skip skips
    (group_deletes plan tables (tg_meta tg)) (group_dead plan tables (tg_meta tg)) G4 G5 G6 (po_filter _ Hplan) Hnone
    (Z.to_nat (rg_rowCount (tg_meta tg))) rs0 g 0 0 n Hat Hn Hpos ltac:(done))
    as (t & rs1 & k & out & rs' & g' & Et & Hcase & Hk & Hruns & Hg' & Hat' & Hsame).
  { pose proof (vstart_nonneg (tg_lens tg) (length (tg_lens tg))). unfold vstart at 1. cbn. lia. }
  { done. }
  assert (Hneeds : needs_group rs').
  { unfold needs_group. rewrite Hg'. destruct Hat' as [_ Hr Hm _ _ _ _]. rewrite Hm, Hr, G4. lia. }
  rewrite Et in Hturn. pose proof (out_from_keeps tg skip Hover) as Hkeep.
  destruct Hcase as [(-> & ->)|(num & row & -> & Eout)].
  - exists (S k), (out_from plan (tg_meta tg) (tg_images tg) (tg_lens tg) skip (group_deletes plan tables (tg_meta tg))
      (group_dead plan tables (tg_meta tg)) 0 0), rs'. split; [by eapply runs_again|]. split; [lia|done].
  - exists (S k), ((num, row) :: out), rs'. split; [by eapply runs_row|]. split; [lia|]. rewrite Eout. done.
Qed.

Lemma total_rows_app a b : total_rows (a ++ b) = (total_rows a + total_rows b)%nat.
Proof using. unfold total_rows. rewrite fmap_app. induction (fmap _ a); cbn; lia. Qed.

Lemma table_rows_app a b : table_rows (a ++ b) = table_rows a ++ table_rows b.
Proof using. unfold table_rows. by rewrite fmap_app, concat_app. Qed.

Lemma table_runs len : forall rest rs i,
  (length rest <= len)%nat -> at_group rs i -> needs_group rs -> drop i tgs = rest -> (i <= length tgs)%nat ->
  exists k out rs', runs plan tables rel k rs out rs' /\ (k <= total_rows rest)%nat /\ keeps out (table_rows rest) /\
    rs_exhausted rs' = false /\
    exists rs'', next_row_turn plan tables rel rs' = Ok (Exhausted rs'') /\ rs_exhausted rs'' = true.
Proof using Hplan Hproj Hrestrict Hdecided Hcount Hstored HPL.
  induction len as [|len IH]; intros rest rs i Hlen Hat Hneed Hd Hi; pose proof (turn_needs rs Hneed) as Eturn;
    unfold pgcolumnar_native_load_group in Eturn; rewrite (ag_list _ _ Hat), length_fmap in Eturn;
    (destruct (claim_group_spec rest (S (length tgs)) rs i Hat Hd Hi) as (rs1 & c & Ec & Hcase);
      [rewrite <- Hd, length_drop; lia|]); rewrite Ec, bind_Ok in Eturn; destruct c as [rg|].
  1,3: destruct Hcase as (pre & tg & post & Erest & -> & Hadm & Hpre & Hat1).
  - rewrite Erest, length_app in Hlen. cbn in Hlen. lia.
  - assert (Htg : tg ∈ tgs).
    { rewrite <- (take_drop i tgs), Hd, Erest. apply elem_of_app. right. apply elem_of_app. right. apply list_elem_of_here. }
    destruct (group_run tg rs1 Htg (ag_exhausted _ _ Hat1)) as (g & mem & stats & El & Hrun). rewrite El, bind_Ok in Eturn.
    rewrite bind_Ok in Eturn. destruct (Hrun rs (ag_exhausted _ _ Hat) Eturn) as (k1 & out1 & rs2 & R1 & Hk1 & K1 & Hn2 & Hsame).
    destruct Hsame as (S1 & S2 & S3 & S4 & S5). cbn in S1, S2, S3, S4, S5.
    assert (Hat2 : at_group rs2 (i + S (length pre))) by (destruct Hat1; split; congruence).
    assert (Hpost : drop (i + S (length pre)) tgs = post).
    { rewrite <- drop_drop, Hd, Erest. replace (pre ++ tg :: post) with ((pre ++ [tg]) ++ post) by (by rewrite <- app_assoc).
      replace (S (length pre)) with (length (pre ++ [tg])) by (rewrite length_app; cbn; lia). apply drop_app_length. }
    assert (Hll : length tgs = (i + length rest)%nat) by (rewrite <- (take_drop i tgs) at 1; rewrite length_app, Hd, length_take; lia).
    rewrite Erest, length_app in Hlen, Hll. cbn in Hlen, Hll.
    destruct (IH post rs2 (i + S (length pre))%nat) as (k2 & out2 & rs3 & R2 & Hk2 & K2 & Hx3 & Hend); [lia|done..|lia|].
    exists (k1 + k2)%nat, (out1 ++ out2), rs3. split; [by eapply runs_app|].
    assert (Etg : table_rows (tg :: post) = group_rows tg ++ table_rows post) by (unfold table_rows; cbn; by rewrite Hadm).
    rewrite Erest, table_rows_app, Etg, total_rows_app. split; [change (total_rows (tg :: post)) with
      (Z.to_nat (rg_rowCount (tg_meta tg)) + total_rows post)%nat; lia|].
    split; [|done]. apply (keeps_app [] (out1 ++ out2)); [done|]. by apply keeps_app.
  - destruct Hcase as [Hk Hat1]. rewrite bind_Ok in Eturn. exists 0%nat, [], rs. split; [apply runs_refl|].
    split; [lia|]. split; [done|]. split; [apply (ag_exhausted _ _ Hat)|]. by eexists.
  - destruct Hcase as [Hk Hat1]. rewrite bind_Ok in Eturn. exists 0%nat, [], rs. split; [apply runs_refl|].
    split; [lia|]. split; [done|]. split; [apply (ag_exhausted _ _ Hat)|]. by eexists.
Qed.

(** Every caller that takes rows until there are none gets them, in order. *)
Lemma scan_rows_spec rs fuel turns :
  at_group rs 0 -> needs_group rs -> (total_rows tgs < turns)%nat -> (length (table_rows tgs) < fuel)%nat ->
  exists out rs', scan_rows plan tables rel fuel turns rs = Ok (out, rs') /\ rs_exhausted rs' = true /\
    keeps out (table_rows tgs).
Proof using Hplan Hproj Hrestrict Hdecided Hcount Hstored HPL.
  intros Hat Hneed Ht Hf.
  destruct (table_runs (length tgs) tgs rs 0) as (k & out & rs' & Hr & Hk & Hkeep & Hx & Hend); [lia|done|done|done|lia|].
  destruct (scan_rows_runs plan tables rel k rs out rs' turns fuel Hr) as (rs1 & E & Hx1); [lia| |done|done|].
  { destruct Hkeep as [Hs _]. apply sublist_length in Hs. lia. }
  by exists out, rs1.
Qed.
End Table.
