(* ===== verification/ScanWritten.v ===== *)
(** * Scanning what the writer stored

    The state the writer leaves behind for a row group (the column chunks of
    [flush_one_column], the zone maps and bloom filters of the flush, in the
    catalog and in the file) is the stored row group the scan's theorems ask
    for. *)

From stdpp Require Import sorting.
From S2P Require Import Prelude BitPack BitStream Codec Varlena BitSet Bloom Compress Encdesc Chunk Fsst Flush NativeRead.
From S2P Require Import Value ZoneMap Catalog GroupSkip Storage FreeSpace Scan ScanRows ScanLoad ScanSkip ScanGroup ScanTable.

(** ** The cells of a column buffer *)

Definition cell_datum (c : cell) : option Datum := match c with Some (d, _) => Some d | None => None end.
Definition vec_datums (vec : list cell) : list (option Datum) := cell_datum <$> vec.

Lemma cells_of_values `{TupMacs} `{VarattExternal} att (values : list (option Datum)) bs :
  Forall2 (encodes att) (present values) bs ->
  exists vec : list cell, vec_datums vec = values /\ vec_bytes vec = concat bs /\ Forall (cell_ok att) vec.
Proof.
  revert bs. induction values as [|[d|] values IH]; intros bs Hb; cbn in Hb.
  - inversion Hb; subst. by exists [].
  - inversion Hb as [|? b ? bs' Hd Hb']; subst. destruct (IH bs' Hb') as (vec & <- & Hv & Hok).
    exists (Some (d, b) :: vec). split; [done|]. split; [|by constructor]. unfold vec_bytes in *. cbn. by rewrite Hv.
  - destruct (IH bs Hb) as (vec & <- & Hv & Hok). exists (None :: vec). split; [done|]. split; [done|]. by constructor.
Qed.

Lemma present_length values : (length (present values) <= length values)%nat.
Proof. induction values as [|[d|] values IH]; cbn; unfold present in *; lia. Qed.

Lemma vec_values_stored `{TupMacs} att (vec : list cell) : vec_values att vec = stored_values att (vec_datums vec).
Proof.
  unfold vec_values, stored_values, present. induction vec as [|[[d b]|] vec IH]; [done| |]; cbn; [by f_equal|exact IH].
Qed.

Lemma count_present (vec : list cell) :
  zlen (filter (fun b => b <> 0) (cell_flag <$> vec)) = zlen (present (vec_datums vec)).
Proof.
  unfold zlen. f_equal. induction vec as [|[[d b]|] vec IH]; [done| |]; cbn [fmap list_fmap].
  - rewrite filter_cons_True by done. cbn. by f_equal.
  - rewrite filter_cons_False by (by intros []). exact IH.
Qed.

Section WrittenColumn.
Context `{TupMacsLaws} `{VarattExternal}.
Context (dom edom : Datum -> Prop) (def : PgColumnarColumnDef) (att : Form_pg_attribute).

(** The sizes the server's allocator allows for one chunk group. *)
Definition stream_fits (col : ColumnStats) : Prop :=
  zlen (valueStream (streams_of col)) + FSST_DECODE_SLACK <= MaxAllocSize /\
  8 * valueCount (streams_of col) <= MaxAllocSize.

Lemma written_cells values col :
  stats_ok dom edom def att values col -> stream_fits col -> zlen values < 2 ^ 64 ->
  exists vec : list cell, vec_datums vec = values /\ Forall (cell_ok att) vec /\
    mkGroup (zlen values) (streams_of col) = cell_group vec /\ group_ok att (cell_group vec).
Proof.
  intros [He (bs & Hv & Hbs) Hc _ _ _ _ _ _] [Hf1 Hf2] Hlen.
  destruct (cells_of_values att values bs Hbs) as (vec & Hval & Hb & Hok).
  assert (Hp : 0 <= zlen (present values) < 2 ^ 64).
  { pose proof (zlen_nonneg (present values)). pose proof (present_length values). unfold zlen in *. lia. }
  rewrite u64_small in Hc by done.
  assert (Hex : existsStream (streams_of col) = cell_flag <$> vec).
  { rewrite He, <- Hval. unfold vec_datums. rewrite <- list_fmap_compose. apply list_fmap_ext. by intros i [[d b]|] _. }
  assert (Hn : zlen values = zlen vec) by (unfold zlen, vec_datums in *; by rewrite <- Hval, length_fmap).
  assert (Hcnt : valueCount (streams_of col) = zlen (filter (fun b => b <> 0) (cell_flag <$> vec))).
  { rewrite Hc, count_present. by rewrite Hval. }
  assert (Eg : mkGroup (zlen values) (streams_of col) = cell_group vec).
  { unfold cell_group. rewrite Hn. f_equal. destruct (streams_of col) as [vs es n]. cbn in *. by rewrite Hex, Hcnt, Hb, <- Hv. }
  exists vec. split; [done|]. split; [done|]. split; [done|]. rewrite <- Eg. split; [|split].
  - cbn. rewrite Hex. unfold zlen in *. rewrite length_fmap. exact Hn.
  - exists bs. cbn. split; [done|]. split; [rewrite Hc; apply Forall2_length in Hbs; unfold zlen; by rewrite Hbs|].
    split; [|done]. apply list.Forall_forall. intros b Hbin. apply list_elem_of_lookup in Hbin as [i Hi].
    destruct (Forall2_lookup_r _ _ _ _ _ Hbs Hi) as (d & _ & [Hvo _]). done.
  - cbn. by rewrite Hex.
Qed.
(** The buffers of a whole column. *)
Lemma stats_cells valuess : forall stats,
  length stats = length valuess ->
  Forall2 (fun values g => stats_ok dom edom def att values g.2 /\ Forall (admits dom def att) (present values))
    valuess (zip (zlen <$> valuess) stats) ->
  Forall stream_fits stats -> Z.of_nat (sum_list (length <$> valuess)) < 2 ^ 32 ->
  exists vecs : list (list cell), vec_datums <$> vecs = valuess /\ Forall (Forall (cell_ok att)) vecs /\
    zip_with mkGroup (zlen <$> valuess) (streams_of <$> stats) = cell_group <$> vecs /\
    Forall (group_ok att) (cell_group <$> vecs) /\ length <$> vecs = length <$> valuess.
Proof.
  induction valuess as [|values valuess IH]; intros [|col stats] Hl Hw Hfits Hmax; try done; [by exists []|].
  injection Hl as Hl. cbn in Hmax. apply Forall2_cons_1 in Hw as [[Hs _] Hw]. apply Forall_cons_1 in Hfits as [Hf Hfits].
  destruct (IH stats Hl Hw Hfits) as (vecs & E1 & E2 & E3 & E4 & E5); [lia|].
  destruct (written_cells values col Hs Hf) as (vec & V1 & V2 & V3 & V4); [unfold zlen; lia|].
  exists (vec :: vecs). cbn. rewrite E1, V1, E5, V3, E3. split; [done|]. split; [by constructor|]. split; [done|].
  split; [by constructor|]. f_equal. rewrite <- V1. unfold vec_datums. by rewrite length_fmap.
Qed.
End WrittenColumn.

(** ** A flushed column *)

Record flushed_column := mkFlushed {
  fc_col : GroupSkip.column; fc_stats : list ColumnStats; fc_result : FlushColumnResult;
  fc_zones : list NativeZoneMapMetadata; fc_zone : NativeZoneMapMetadata; fc_bloom : option (list Z)
}.

(** The column's buffers, chunk group by chunk group. *)
Definition column_groups (fc : flushed_column) : list ChunkGroupBuffer :=
  zip_with mkGroup (zlen <$> cgroups (fc_col fc)) (streams_of <$> fc_stats fc).

Section FlushedColumn.
Context `{HPB : PgBitutils} `{HVE : VarattExternal} `{HBL : BlockCodecLaws} `{HTL : TupMacsLaws} `{HHL : HyperLogLog}.
Context (cfg : settings).

(** What the writer computed from the column's values. *)
Record column_flushed (lens : list nat) (fc : flushed_column) : Prop := {
  cf_column : column_ok (fc_col fc);
  cf_att : att_ok (catt (fc_col fc));
  cf_width : readable_width (catt (fc_col fc));
  cf_lens : length <$> cgroups (fc_col fc) = lens;
  cf_written : mapM (write_values (cdef (fc_col fc)) (catt (fc_col fc)) stats_init) (cgroups (fc_col fc)) = Ok (fc_stats fc);
  cf_zones : flush_zone_rows (cdef (fc_col fc)) (catt (fc_col fc)) (Z.of_nat (sum_list lens))
    (zip (zlen <$> cgroups (fc_col fc)) (fc_stats fc)) = Ok (fc_zones fc, fc_zone fc);
  cf_bloom : flush_bloom_row (cdef (fc_col fc)) (fc_stats fc) = Ok (fc_bloom fc);
  cf_chunk : exists effort ctype level v v', flush_one_column cfg (catt (fc_col fc)) false (column_groups fc) v
    (Z.of_nat (sum_list lens)) ((Z.of_nat (sum_list lens) + 7) / 8) effort ctype level = Ok (Some (fc_result fc), v');
  cf_fits : Forall stream_fits (fc_stats fc);
  cf_compress : compressible (zlen (concat (streams (column_groups fc))))
}.

Context (Hsr : 0 <= encoding_sample_rows cfg < 2 ^ 31) (Hgain : 0 <= fsst_min_gain_percent cfg <= 99).
Context (lens : list nat) (Hmax : Z.of_nat (sum_list lens) < 2 ^ 32) (Hvecs : Z.of_nat (length lens) < 2 ^ 28).
Context (fc : flushed_column) (Hfc : column_flushed lens fc).

Let att := catt (fc_col fc).
Let def := cdef (fc_col fc).

Lemma flushed_written :
  length (fc_stats fc) = length (cgroups (fc_col fc)) /\
  Forall2 (fun values g => stats_ok (cdom (fc_col fc)) (cedom (fc_col fc)) def att values g.2 /\
             Forall (admits (cdom (fc_col fc)) def att) (present values))
    (cgroups (fc_col fc)) (zip (zlen <$> cgroups (fc_col fc)) (fc_stats fc)).
Proof using Hfc.
  destruct (cf_column _ _ Hfc) as [Hlaws Ha]. destruct (write_groups _ _ _ _ Hlaws _ Ha) as (cols & Hm & Hl & Hw).
  rewrite (cf_written _ _ Hfc) in Hm. injection Hm as <-. done.
Qed.

Lemma flushed_cells :
  exists vecs : list (list cell), vec_datums <$> vecs = cgroups (fc_col fc) /\ Forall (Forall (cell_ok att)) vecs /\
    column_groups fc = cell_group <$> vecs /\ Forall (group_ok att) (cell_group <$> vecs) /\ length <$> vecs = lens.
Proof using Hfc Hmax.
  destruct flushed_written as [Hl Hw]. pose proof (cf_lens _ _ Hfc) as Hlens.
  destruct (stats_cells _ _ _ _ _ _ Hl Hw (cf_fits _ _ Hfc)) as (vecs & E1 & E2 & E3 & E4 & E5); [by rewrite Hlens|].
  exists vecs. rewrite E5. done.
Qed.

Lemma flushed_stored sc : sc_att sc = att ->
  exists vecs : list (list cell), vec_datums <$> vecs = cgroups (fc_col fc) /\
    column_stored lens sc (Some (fc_result fc)) (Some vecs).
Proof using Hfc Hmax Hvecs Hsr Hgain HBL.
  intros Esc. destruct flushed_cells as (vecs & E1 & E2 & E3 & E4 & E5). exists vecs. split; [done|].
  unfold column_stored. rewrite Esc. split; [|done].
  assert (Hex : zlen (all_exists (cell_group <$> vecs)) = Z.of_nat (sum_list lens)).
  { rewrite exists_cells. unfold zlen. rewrite length_fmap.
    pose proof (zlen_concat_cells vecs) as E. unfold zlen in E. rewrite E, E5. unfold vstart.
    rewrite take_ge; [done|]. by rewrite <- E5, length_fmap. }
  destruct (cf_chunk _ _ Hfc) as (effort & ctype & level & v & v' & E). rewrite E3 in E.
  pose proof (cf_compress _ _ Hfc) as Hcomp. rewrite E3 in Hcomp.
  destruct (flush_one_column_spec cfg att (cf_att _ _ Hfc) (cf_width _ _ Hfc) Hsr Hgain (cell_group <$> vecs) v
    ((Z.of_nat (sum_list lens) + 7) / 8) effort ctype level E4 Hcomp) as (vbytes & data & desc & codec & region & v1 & E' & F);
    [div_bounds (Z.of_nat (sum_list lens) + 7) 8; lia|rewrite Hex; div_bounds (Z.of_nat (sum_list lens) + 7) 8; lia|].
  rewrite Hex in E'. fold att in E. rewrite E in E'. injection E' as Er _. rewrite Er. unfold chunk_stored. cbv zeta.
  split; [done|]. split; [unfold zlen; rewrite <- (length_fmap length vecs), E5; done|].
  split; [rewrite Hex; unfold MaxAllocSize; lia|]. split; [done|].
  exists vbytes, data, region. cbn [fchunk fdescriptor fblockCodec]. rewrite Hex. done.
Qed.
Lemma vector_zone_counts g z : vector_zone def att g = Ok z ->
  zoneValueCount z = valueCount (streams_of g.2) /\ zoneNullCount z = u64 (g.1 - valueCount (streams_of g.2)).
Proof using.
  unfold vector_zone, make_zone. destruct (zone_bounds _ _); [|done..]. rewrite bind_Ok.
  destruct (zone_upper _ _); [|done..]. rewrite bind_Ok. by intros [= <-].
Qed.

Lemma mapM_lookup {A B} (f : A -> res B) l k i x : mapM f l = Ok k -> l !! i = Some x ->
  exists y, f x = Ok y /\ k !! i = Some y.
Proof using.
  revert k i. induction l as [|a l IH]; intros k i Hm Hi; [done|]. cbn [mapM] in Hm.
  destruct (f a) as [b|?| |] eqn:Ef; [|done..]. rewrite bind_Ok in Hm. destruct (mapM f l) as [k'|?| |] eqn:El; [|done..].
  rewrite bind_Ok in Hm. injection Hm as <-. destruct i as [|i]; [injection Hi as <-; by exists b|]. by apply (IH k' i).
Qed.

(** The zone map of each vector: its row count, and a bound on its values. *)
Lemma flushed_zone v values :
  cgroups (fc_col fc) !! v = Some values ->
  exists z, fc_zones fc !! v = Some z /\ counted z (length values) /\
    zone_for (cdom (fc_col fc)) (cedom (fc_col fc)) def att (stored_values att values) z /\
    Forall (cdom (fc_col fc)) (stored_values att values).
Proof using Hfc Hmax.
  intros Hv. destruct flushed_written as [Hl Hw]. destruct (cf_column _ _ Hfc) as [Hlaws Ha].
  destruct (flush_zone_rows_spec _ _ _ _ Hlaws _ _ (Z.of_nat (sum_list lens)) Hw) as (zs & zc & E & Hzs & _).
  pose proof (cf_zones _ _ Hfc) as Ez. fold att in Ez. rewrite Ez in E. injection E as <- <-.
  destruct (Forall2_lookup_l _ _ _ _ _ Hzs Hv) as (z & Hz & Hfor). exists z. split; [done|].
  destruct (Forall2_lookup_l _ _ _ _ _ Hw Hv) as ([n col] & Hg & Hs & Hadm). cbn [snd] in Hs.
  split; [|split; [done|]; by apply (stored_dom (cdom (fc_col fc)) def att)].
  unfold flush_zone_rows in Ez.
  destruct (mapM (vector_zone _ _) _) as [zs'|?| |] eqn:Em; [|done..]. rewrite bind_Ok in Ez.
  destruct (make_zone _ _ _ _ _ _ _) as [zc'|?| |]; [|done..]. rewrite bind_Ok in Ez. injection Ez as -> _.
  destruct (mapM_lookup _ _ _ _ _ Em Hg) as (z' & Hvz & Hz'). rewrite Hz in Hz'. injection Hz' as <-.
  apply lookup_zip_with_Some in Hg as (n' & col' & [= -> ->] & Hn & _). rewrite list_lookup_fmap, Hv in Hn. injection Hn as <-.
  destruct (vector_zone_counts _ _ Hvz) as [Ec En]. cbn in Ec, En. unfold counted. rewrite En, Ec.
  rewrite (so_count _ _ _ _ _ _ Hs).
  assert (Hlen : Z.of_nat (length values) < 2 ^ 32).
  { pose proof (cf_lens _ _ Hfc) as El. assert (Hin : lens !! v = Some (length values)) by (rewrite <- El, list_lookup_fmap, Hv; done).
    pose proof (vstart_S lens v _ Hin) as Es. pose proof (vstart_nonneg lens v). pose proof (lookup_lt_Some _ _ _ Hin).
    pose proof (vstart_le lens (S v) (length lens) ltac:(lia)) as Hle. unfold vstart at 2 in Hle. rewrite take_ge in Hle by done. lia. }
  pose proof (present_length values). rewrite (u64_small (zlen (present values))) by (unfold zlen; lia).
  rewrite (u64_small (zlen values - _)) by (unfold zlen; lia).
  replace (zlen (present values) + (zlen values - zlen (present values))) with (Z.of_nat (length values)) by (unfold zlen; lia).
  rewrite u64_small by lia. apply u32_small. lia.
Qed.

Lemma flushed_zones_length : length (fc_zones fc) = length lens.
Proof using Hfc.
  destruct flushed_written as [Hl Hw]. destruct (cf_column _ _ Hfc) as [Hlaws Ha].
  destruct (flush_zone_rows_spec _ _ _ _ Hlaws _ _ (Z.of_nat (sum_list lens)) Hw) as (zs & zc & E & Hzs & _).
  pose proof (cf_zones _ _ Hfc) as Ez. fold att in Ez. rewrite Ez in E. injection E as <- <-. rewrite <- (Forall2_length Hzs), <- (cf_lens _ _ Hfc).
  by rewrite length_fmap.
Qed.

Lemma flushed_catalog : catalog_of (Z.of_nat (sum_list lens)) (fc_col fc) (fc_zone fc) (fc_bloom fc).
Proof using Hfc. exists (fc_stats fc), (fc_zones fc). destruct Hfc. done. Qed.
End FlushedColumn.

(** ** A flushed row group *)

Record flushed_group := mkFlushedGroup {
  fg_meta : FreeSpace.NativeRowGroupMetadata;
  fg_columns : list (option flushed_column);
  fg_lens : list nat
}.

Definition fg_results (fg : flushed_group) : list (option FlushColumnResult) :=
  (fun o : option flushed_column => fc_result <$> o) <$> fg_columns fg.

(** The column's part of the group, if it has one. *)
Definition fg_column (fg : flushed_group) (c : nat) : option flushed_column := mjoin (fg_columns fg !! c).

Definition zone_entries (c : nat) (zs : list NativeZoneMapMetadata) : list zone_entry :=
  imap (fun v z => (Z.of_nat c, Z.of_nat v, z)) zs.
Definition fg_entries (fg : flushed_group) (c : nat) : list zone_entry :=
  match fg_column fg c with Some fc => zone_entries c (fc_zones fc) | None => [] end.

Lemma zone_entries_elem c zs e :
  e ∈ zone_entries c zs <-> exists v z, e = (Z.of_nat c, Z.of_nat v, z) /\ zs !! v = Some z.
Proof.
  unfold zone_entries. rewrite list_elem_of_lookup. split.
  - intros (i & Hi). apply list_lookup_imap_Some in Hi as (z & Hz & ->). by exists i, z.
  - intros (v & z & -> & Hz). exists v. by rewrite list_lookup_imap, Hz.
Qed.

Lemma list_choice {A} (P : nat -> A -> Prop) n :
  (forall i, (i < n)%nat -> exists x, P i x) ->
  exists l, length l = n /\ forall i x, l !! i = Some x -> P i x.
Proof.
  revert P. induction n as [|n IH]; intros P HP; [by exists []|]. destruct (HP 0%nat) as [x Hx]; [lia|].
  destruct (IH (fun i => P (S i))) as (l & Hl & Hall); [intros i Hi; apply HP; lia|].
  exists (x :: l). split; [cbn; lia|]. intros [|i] y Hy; [by injection Hy as <-|by apply Hall].
Qed.

Section FlushedGroup.
Context `{HPL : PageLayoutLaws} `{HPB : PgBitutils} `{HVE : VarattExternal} `{HBL : BlockCodecLaws}
  `{HTL : TupMacsLaws} `{HHL : HyperLogLog}.
Context (cfg : settings) (plan : scan_plan) (tables : GroupTables) (rel : list page).

Let sid := p_storageId plan.
Let scs := p_columns plan.

(** The row group's columns were flushed, its bytes are in the file and its rows
    in the catalog. *)
Record group_flushed (fg : flushed_group) : Prop := {
  gf_ncols : length (fg_columns fg) = length scs;
  gf_columns : forall c sc fc, scs !! c = Some sc -> fg_column fg c = Some fc ->
    column_flushed cfg (fg_lens fg) fc /\ sc_att sc = catt (fc_col fc);
  gf_rows : rg_rowCount (fg_meta fg) = Z.of_nat (sum_list (fg_lens fg));
  gf_max : rg_rowCount (fg_meta fg) < 2 ^ 32;
  gf_pos : Forall (fun n => (0 < n)%nat) (fg_lens fg);
  gf_vectors : 0 < Z.of_nat (length (fg_lens fg)) < 2 ^ 28;
  gf_length : rg_byteLength (fg_meta fg) = zlen (group_data (fg_results fg));
  gf_size : zlen (group_data (fg_results fg)) <= MaxAllocSize
}.

Record group_placed (fg : flushed_group) : Prop := {
  gp_offset : 0 <= rg_fileOffset (fg_meta fg);
  gp_end : rg_fileOffset (fg_meta fg) + zlen (group_data (fg_results fg)) <= (2 ^ 32 - 1) * COLUMNAR_BYTES_PER_PAGE;
  gp_file : holds_at rel (rg_fileOffset (fg_meta fg)) (group_data (fg_results fg))
}.

Record group_cataloged (fg : flushed_group) : Prop := {
  gc_chunks : PgColumnarReadColumnChunkList (t_column_chunk tables) sid (rg_groupNumber (fg_meta fg))
    = layout sid (rg_groupNumber (fg_meta fg)) (rg_rowCount (fg_meta fg)) (rg_fileOffset (fg_meta fg)) (fg_results fg);
  gc_vectors : forall c, (c < length scs)%nat ->
    PgColumnarReadZoneMapVectorsForColumn (t_zone_map tables) sid (rg_groupNumber (fg_meta fg)) (Z.of_nat c) = fg_entries fg c;
  gc_all : forall e, e ∈ PgColumnarReadZoneMapVectors (t_zone_map tables) sid (rg_groupNumber (fg_meta fg)) <->
    exists c, e ∈ fg_entries fg c;
  gc_zone : forall c, (c < length scs)%nat ->
    PgColumnarReadZoneMapForColumn (t_zone_map tables) sid (rg_groupNumber (fg_meta fg)) (Z.of_nat c)
    = fc_zone <$> fg_column fg c;
  gc_bloom : forall c, (c < length scs)%nat ->
    PgColumnarReadBloomForColumn (t_bloom tables) sid (rg_groupNumber (fg_meta fg)) (Z.of_nat c)
    = fg_column fg c ≫= fc_bloom
}.

(** The pushed-down predicates are of the columns' types. *)
Definition preds_typed (fg : flushed_group) : Prop :=
  forall p fc, p ∈ p_predicates plan -> fg_column fg (Z.to_nat (attidx p)) = Some fc ->
    pred_for (cdom (fc_col fc)) (cedom (fc_col fc)) (cdef (fc_col fc)) p /\ hash_for (fc_col fc) p.

(** The value of a row of a column. *)
Definition written_value (sc : scan_column) (o : option flushed_column) (v j : nat) : option Datum :=
  if sc_wanted sc then
    match o with
    | None => sc_missing sc
    | Some fc =>
        match cgroups (fc_col fc) !! v ≫= (fun values => values !! j) with
        | Some (Some d) => Some (stored_datum (attlen (sc_att sc)) d)
        | _ => None
        end
    end
  else None.

Definition written_row (fg : flushed_group) (v j : nat) : list (option Datum) :=
  zip_with (fun sc o => written_value sc o v j) scs (fg_columns fg).

(** The image of a column in cells. *)
Definition image_of (o : option flushed_column) (img : image) : Prop :=
  match o, img with
  | Some fc, Some vecs => vec_datums <$> vecs = cgroups (fc_col fc)
  | None, None => True
  | _, _ => False
  end.

Lemma expected_written sc o img v j : image_of o img -> expected v j sc img = written_value sc o v j.
Proof using.
  unfold expected, written_value. destruct (sc_wanted sc); [|done]. destruct o as [fc|], img as [vecs|]; try done.
  cbn. intros <-. unfold cell_at. rewrite list_lookup_fmap. destruct (vecs !! v) as [vec|]; [|done]. cbn.
  unfold vec_datums. rewrite list_lookup_fmap. by destruct (vec !! j) as [[[d b]|]|].
Qed.
Context (Hsr : 0 <= encoding_sample_rows cfg < 2 ^ 31) (Hgain : 0 <= fsst_min_gain_percent cfg <= 99).
Context (Hpreds : forall p, p ∈ p_predicates plan -> 0 <= attidx p < natts plan).
Context (fg : flushed_group) (Hf : group_flushed fg) (Hp : group_placed fg) (Hc : group_cataloged fg) (Ht : preds_typed fg).

Let lens := fg_lens fg.

Lemma group_sum : Z.of_nat (sum_list lens) < 2 ^ 32.
Proof using Hf. unfold lens. rewrite <- (gf_rows _ Hf). apply (gf_max _ Hf). Qed.

Lemma group_column c sc : scs !! c = Some sc -> exists o, fg_columns fg !! c = Some o /\ fg_column fg c = o.
Proof using Hf.
  intros Hsc. destruct (lookup_lt_is_Some_2 (fg_columns fg) c) as [o Ho].
  { rewrite (gf_ncols _ Hf). by eapply lookup_lt_Some. }
  exists o. split; [done|]. unfold fg_column. by rewrite Ho.
Qed.

Lemma group_images :
  exists imgs, length imgs = length scs /\
    forall c sc, scs !! c = Some sc -> exists o img, fg_columns fg !! c = Some o /\ fg_column fg c = o /\
      imgs !! c = Some img /\ image_of o img /\ column_stored lens sc (fc_result <$> o) img.
Proof using Hf Hsr Hgain HBL.
  destruct (list_choice (fun c img => forall sc, scs !! c = Some sc -> exists o, fg_columns fg !! c = Some o /\
    fg_column fg c = o /\ image_of o img /\ column_stored lens sc (fc_result <$> o) img) (length scs)) as (imgs & Hl & Hall).
  { intros c Hlt. destruct (lookup_lt_is_Some_2 scs c Hlt) as [sc Hsc]. destruct (group_column c sc Hsc) as (o & Ho & Hj).
    destruct o as [fc|].
    - destruct (gf_columns _ Hf c sc fc Hsc Hj) as [Hfc Hatt].
      destruct (flushed_stored cfg Hsr Hgain lens group_sum (proj2 (gf_vectors _ Hf)) fc Hfc sc Hatt) as (vecs & E & Hst).
      exists (Some vecs). intros sc' Hsc'. rewrite Hsc in Hsc'. injection Hsc' as <-. by exists (Some fc).
    - exists None. intros sc' Hsc'. by exists None. }
  exists imgs. split; [done|]. intros c sc Hsc. destruct (lookup_lt_is_Some_2 imgs c) as [img Hi].
  { rewrite Hl. by eapply lookup_lt_Some. }
  destruct (Hall c img Hi sc Hsc) as (o & ? & ? & ? & ?). by exists o, img.
Qed.

(** The entries of a column cover the vectors. *)
Lemma entry_covers c sc e : scs !! c = Some sc -> e ∈ fg_entries fg c ->
  exists v n, entry_vector e = Z.of_nat v /\ lens !! v = Some n /\ counted e.2 n.
Proof using Hf.
  intros Hsc. unfold fg_entries. case_eq (fg_column fg c); [intros fc Efc|intros _ He; by apply not_elem_of_nil in He].
  intros (v & z & -> & Hz)%zone_entries_elem. destruct (gf_columns _ Hf c sc fc Hsc Efc) as [Hfc _]. fold lens in Hfc.
  pose proof (flushed_zones_length cfg lens fc Hfc) as Hzl. pose proof (lookup_lt_Some _ _ _ Hz) as Hv.
  destruct (lookup_lt_is_Some_2 (cgroups (fc_col fc)) v) as [values Hvals].
  { rewrite <- (length_fmap length), (cf_lens _ _ _ Hfc). lia. }
  destruct (flushed_zone cfg lens group_sum fc Hfc v values Hvals) as (z' & Hz' & Hcnt & _). rewrite Hz in Hz'. injection Hz' as <-.
  exists v, (length values). split; [done|]. split; [|done]. by rewrite <- (cf_lens _ _ _ Hfc), list_lookup_fmap, Hvals.
Qed.

Lemma entries_total c sc v : scs !! c = Some sc -> fg_entries fg c <> [] -> (v < length lens)%nat ->
  exists e, e ∈ fg_entries fg c /\ entry_vector e = Z.of_nat v.
Proof using Hf.
  intros Hsc. unfold fg_entries. case_eq (fg_column fg c); [intros fc Efc _ Hv|done].
  destruct (gf_columns _ Hf c sc fc Hsc Efc) as [Hfc _]. fold lens in Hfc.
  destruct (lookup_lt_is_Some_2 (fc_zones fc) v) as [z Hz]; [rewrite (flushed_zones_length cfg lens fc Hfc); lia|].
  exists (Z.of_nat c, Z.of_nat v, z). split; [|done]. apply zone_entries_elem. by exists v, z.
Qed.

Lemma group_zones_cover c sc : scs !! c = Some sc -> zones_cover lens (fg_entries fg c).
Proof using Hf. intros Hsc. split; [intros e; by apply (entry_covers c sc)|]. intros Hne v. by apply (entries_total c sc). Qed.

Lemma column_of_entry c e : e ∈ fg_entries fg c -> exists sc, scs !! c = Some sc.
Proof using Hf.
  intros He. apply lookup_lt_is_Some_2. rewrite <- (gf_ncols _ Hf). unfold fg_entries, fg_column in He.
  destruct (fg_columns fg !! c) eqn:E; [by eapply lookup_lt_Some|]. by apply not_elem_of_nil in He.
Qed.

Lemma all_zones_cover :
  zones_cover lens (PgColumnarReadZoneMapVectors (t_zone_map tables) sid (rg_groupNumber (fg_meta fg))).
Proof using Hf Hc.
  split.
  - intros e (c & He)%(gc_all _ Hc). destruct (column_of_entry c e He) as [sc Hsc]. by apply (entry_covers c sc).
  - intros Hne v Hv. destruct (PgColumnarReadZoneMapVectors _ _ _) as [|e0 l] eqn:El; [done|].
    assert (He0 : e0 ∈ e0 :: l) by apply list_elem_of_here. rewrite <- El, (gc_all _ Hc) in He0. destruct He0 as (c & He0).
    destruct (column_of_entry c e0 He0) as [sc Hsc].
    destruct (entries_total c sc v Hsc) as (e & He & Hev); [by intros E; rewrite E in He0; apply not_elem_of_nil in He0|done|].
    exists e. split; [|done]. rewrite <- El, (gc_all _ Hc). by exists c.
Qed.
Lemma pred_column p : p ∈ p_predicates plan -> exists sc, scs !! Z.to_nat (attidx p) = Some sc /\
  (Z.to_nat (attidx p) < length scs)%nat /\ Z.of_nat (Z.to_nat (attidx p)) = attidx p.
Proof using Hpreds.
  intros Hin. destruct (Hpreds p Hin) as [H1 H2]. unfold natts, zlen in H2. fold scs in H2.
  destruct (lookup_lt_is_Some_2 scs (Z.to_nat (attidx p))) as [sc Hsc]; [lia|]. exists sc. split; [done|]. lia.
Qed.

Section Images.
Context (imgs : list image) (Hlen : length imgs = length scs).
Context (Himgs : forall c sc, scs !! c = Some sc -> exists o img, fg_columns fg !! c = Some o /\ fg_column fg c = o /\
  imgs !! c = Some img /\ image_of o img /\ column_stored lens sc (fc_result <$> o) img).

Lemma group_zone_decides p e : p ∈ p_predicates plan -> e ∈ fg_entries fg (Z.to_nat (attidx p)) -> zone_decides plan imgs p e.
Proof using Hf Ht Hpreds Hlen Himgs.
  intros Hin He. destruct (pred_column p Hin) as (sc & Hsc & _). set (c := Z.to_nat (attidx p)) in *.
  unfold fg_entries in He. revert He. case_eq (fg_column fg c); [intros fc Efc|intros _ He; by apply not_elem_of_nil in He].
  intros (v & z & -> & Hz)%zone_entries_elem. destruct (gf_columns _ Hf c sc fc Hsc Efc) as [Hfc Hatt]. fold lens in Hfc.
  destruct (Himgs c sc Hsc) as (o & img & _ & Eo & Hi & Him & _). rewrite Efc in Eo. subst o.
  destruct img as [vecs|]; [|done]. cbn in Him.
  pose proof (lookup_lt_Some _ _ _ Hz) as Hv. rewrite (flushed_zones_length cfg lens fc Hfc) in Hv.
  destruct (lookup_lt_is_Some_2 vecs v) as [vec Hvec].
  { rewrite <- (length_fmap vec_datums), Him, <- (length_fmap length), (cf_lens _ _ _ Hfc). done. }
  assert (Hvals : cgroups (fc_col fc) !! v = Some (vec_datums vec)) by (rewrite <- Him, list_lookup_fmap, Hvec; done).
  destruct (flushed_zone cfg lens group_sum fc Hfc v _ Hvals) as (z' & Hz' & _ & Hfor & Hdom). rewrite Hz in Hz'. injection Hz' as <-.
  destruct (cf_column _ _ _ Hfc) as [Hlaws _]. destruct (Ht p fc Hin Efc) as [Hpf _].
  destruct (zone_excludes_spec _ _ _ _ Hlaws p Hpf _ _ Hfor Hdom) as (b & Eb & Hb).
  exists sc, vecs, vec, b. split; [done|]. split; [done|]. split; [cbn; by rewrite Nat2Z.id|].
  rewrite Hatt. split; [done|]. rewrite vec_values_stored. done.
Qed.

Lemma group_flushed_stored : group_stored plan tables rel (fg_meta fg) (fg_results fg) imgs lens.
Proof using Hf Hp Hc Ht Hpreds Himgs Hlen.
  split; try apply Hf; try apply Hp.
  - unfold fg_results. rewrite length_fmap. apply (gf_ncols _ Hf).
  - done.
  - intros c sc Hsc. destruct (Himgs c sc Hsc) as (o & img & Ho & _ & Hi & _ & Hst). exists (fc_result <$> o), img.
    split; [unfold fg_results; by rewrite list_lookup_fmap, Ho|done].
  - unfold vstart. rewrite take_ge by done. symmetry. apply (gf_rows _ Hf).
  - apply (gc_chunks _ Hc).
  - intros p Hin. destruct (pred_column p Hin) as (sc & Hsc & Hlt & E).
    pose proof (gc_vectors _ Hc _ Hlt) as Ev. rewrite E in Ev. fold sid. rewrite Ev. by apply (group_zones_cover _ sc).
  - apply all_zones_cover.
  - intros p e Hin He. destruct (pred_column p Hin) as (sc & Hsc & Hlt & E).
    pose proof (gc_vectors _ Hc _ Hlt) as Ev. rewrite E in Ev. fold sid in He. rewrite Ev in He.
    by apply group_zone_decides.
Qed.

(** The group's test of the predicates. *)
Lemma group_flushed_decided : group_decided plan tables (mkTableGroup (fg_meta fg) (fg_results fg) imgs lens).
Proof using Hf Hc Ht Hpreds Hlen Himgs.
  intros p Hin. destruct (pred_column p Hin) as (sc & Hsc & Hlt & E). cbn [tg_meta tg_images tg_lens].
  set (zone_of := PgColumnarReadZoneMapForColumn _ _ _). set (bloom_of := PgColumnarReadBloomForColumn _ _ _).
  pose proof (gc_zone _ Hc _ Hlt) as Ez. pose proof (gc_bloom _ Hc _ Hlt) as Eb. rewrite E in Ez, Eb.
  destruct (Himgs _ sc Hsc) as (o & img & Ho & Eo & Hi & Him & Hst). rewrite Eo in Ez, Eb.
  destruct o as [fc|].
  2:{ exists false. split; [|done]. unfold predicate_excludes. fold scs. rewrite list_lookup_fmap, Hsc. cbn [fmap option_fmap option_map].
      fold sid in zone_of, bloom_of. fold (zone_of (attidx p)) in Ez. fold (bloom_of (attidx p)) in Eb. rewrite Ez, Eb.
      assert (En : native_zone_excludes p (sc_att sc) None = Ok false) by (unfold native_zone_excludes; by destruct (rangePred p)).
      cbn [fmap option_fmap option_map mbind option_bind]. rewrite En, bind_Ok. by destruct (_ && _). }
  destruct (gf_columns _ Hf _ sc fc Hsc Eo) as [Hfc Hatt]. fold lens in Hfc. destruct (Ht p fc Hin Eo) as [Hpf Hhf].
  set (dummy sc := mkColumn (cdef (fc_col fc)) (sc_att sc) (cdom (fc_col fc)) (cedom (fc_col fc)) []).
  set (columns := <[Z.to_nat (attidx p) := fc_col fc]> (dummy <$> scs)).
  assert (Ecols : catt <$> columns = sc_att <$> scs).
  { unfold columns. rewrite list_fmap_insert, <- list_fmap_compose. rewrite <- Hatt. apply list_insert_id.
    change (catt ∘ dummy) with sc_att. by rewrite list_lookup_fmap, Hsc. }
  destruct (predicate_excludes_spec (p_enable_bloom_filter plan) columns zone_of bloom_of (Z.of_nat (sum_list lens)) (fc_col fc) p
    (fc_zone fc) (fc_bloom fc)) as (b & Hb & Hno).
  { apply (cf_column _ _ _ Hfc). }
  { by apply (flushed_catalog cfg). }
  { unfold columns. apply list_lookup_insert_eq. rewrite length_fmap. done. }
  { done. }
  { done. }
  { right. exact Ez. }
  { right. exact Eb. }
  rewrite Ecols in Hb. exists b. split; [exact Hb|]. intros Hbt v j n Hn Hj. specialize (Hno Hbt).
  destruct img as [vecs|]; [|done]. cbn in Him. destruct Hst as (_ & _ & Hl). unfold row_sat. fold scs. rewrite Hsc.
  unfold image in *. rewrite Hi. unfold cell_at.
  rewrite <- Hl, list_lookup_fmap_Some in Hn. destruct Hn as (vec & -> & Hvec). rewrite Hvec. cbn.
  destruct (lookup_lt_is_Some_2 vec j Hj) as [c Hcj]. rewrite Hcj. destruct c as [[d bs]|]; [|done].
  unfold holds_nowhere in Hno. rewrite Forall_fmap in Hno.
  assert (Hvals : cgroups (fc_col fc) !! v = Some (vec_datums vec)) by (rewrite <- Him, list_lookup_fmap, Hvec; done).
  pose proof (Forall_lookup_1 _ _ _ _ Hno Hvals) as Hvec'. cbn in Hvec'. rewrite <- vec_values_stored, list.Forall_forall in Hvec'.
  rewrite Hatt. apply Hvec', list_elem_of_omap. exists (Some (d, bs)). split; [by eapply list_elem_of_lookup_2|done].
Qed.
End Images.
End FlushedGroup.

(** ** The table *)

(** What the scan may return of the row [r] of a group: nothing when the row is
    deleted or fails the qual, else its number and values. *)
Definition row_visible (plan : scan_plan) (tables : GroupTables) (rg : FreeSpace.NativeRowGroupMetadata) (r : Z)
    (row : list (option Datum)) : option (Z * list (option Datum)) :=
  let deleted := dv_row_deleted (group_deletes plan tables rg) r in
  let dropped := match p_filter plan with
                 | Some f => deleted || negb (qual f (masked (qualCols f) row))
                 | None => deleted && (negb (p_emitDeleted plan) || dv_row_deleted (group_dead plan tables rg) r)
                 end in
  if dropped then None else Some (u64 (rg_firstRowNumber rg + r), row).

Definition visible_row `{TupMacs} (plan : scan_plan) (tables : GroupTables) (fg : flushed_group) (v j : nat)
    : option (Z * list (option Datum)) :=
  row_visible plan tables (fg_meta fg) (vstart (fg_lens fg) v + Z.of_nat j) (written_row plan fg v j).

Definition visible_rows `{TupMacs} (plan : scan_plan) (tables : GroupTables) (fg : flushed_group)
    : list (Z * list (option Datum)) :=
  concat ((fun v => omap (visible_row plan tables fg v) (seq 0 (fg_lens fg !!! v))) <$> seq 0 (length (fg_lens fg))).

Definition group_admitted (plan : scan_plan) (fg : flushed_group) : bool :=
  match p_restrictGroups plan with
  | Some groups => bool_decide (rg_groupNumber (fg_meta fg) ∈ groups)
  | None => true
  end.

Definition visible_table `{TupMacs} (plan : scan_plan) (tables : GroupTables) (fgs : list flushed_group)
    : list (Z * list (option Datum)) :=
  concat ((fun fg => if group_admitted plan fg then visible_rows plan tables fg else []) <$> fgs).

Definition stored_rows (fgs : list flushed_group) : nat := sum_list ((fun fg => sum_list (fg_lens fg)) <$> fgs).

Section WholeTable.
Context `{HPL : PageLayoutLaws} `{HPB : PgBitutils} `{HVE : VarattExternal} `{HBL : BlockCodecLaws}
  `{HTL : TupMacsLaws} `{HHL : HyperLogLog}.
Context (cfg : settings) (plan : scan_plan) (tables : GroupTables) (rel : list page).

Definition group_ready (fg : flushed_group) : Prop :=
  group_flushed cfg plan fg /\ group_placed rel fg /\ group_cataloged plan tables fg /\ preds_typed plan fg.

Context (Hsr : 0 <= encoding_sample_rows cfg < 2 ^ 31) (Hgain : 0 <= fsst_min_gain_percent cfg <= 99).
Context (Hplan : plan_ok plan).

(** The group as the scan's lemmas describe it. *)
Lemma ready_group fg : group_ready fg -> exists tg,
  tg_meta tg = fg_meta fg /\ tg_lens tg = fg_lens fg /\
  group_stored plan tables rel (tg_meta tg) (tg_results tg) (tg_images tg) (tg_lens tg) /\ group_decided plan tables tg /\
  group_rows plan tables tg = visible_rows plan tables fg.
Proof using Hsr Hgain Hplan HBL.
  intros (Hf & Hp & Hc & Ht). destruct (group_images cfg plan Hsr Hgain fg Hf) as (imgs & Hl & Hall).
  exists (mkTableGroup (fg_meta fg) (fg_results fg) imgs (fg_lens fg)). split; [done|]. split; [done|].
  split; [by apply (group_flushed_stored cfg plan tables rel (po_preds _ Hplan) fg Hf Hp Hc Ht imgs Hl)|].
  split; [by apply (group_flushed_decided cfg plan tables (po_preds _ Hplan) fg Hf Hc Ht imgs Hl)|].
  assert (Hrow : forall v j, expected_row v j (p_columns plan) imgs = written_row plan fg v j).
  { intros v j. unfold expected_row, written_row. apply list_eq. intros c. rewrite !lookup_zip_with.
    destruct (p_columns plan !! c) as [sc|] eqn:Hsc; [|done]. destruct (Hall c sc Hsc) as (o & img & Ho & _ & Hi & Him & _).
    cbn. rewrite Ho, Hi. cbn. f_equal. by apply expected_written. }
  unfold group_rows, visible_rows, group_row, row_out, visible_row. cbn [tg_lens tg_meta tg_images]. f_equal.
  apply list_fmap_ext. intros _ v _. apply list_omap_ext, Forall_Forall2_diag, Forall_true. intros j. by rewrite Hrow.
Qed.

Lemma ready_groups fgs : Forall group_ready fgs -> exists tgs, tg_meta <$> tgs = fg_meta <$> fgs /\
  Forall (fun tg => group_stored plan tables rel (tg_meta tg) (tg_results tg) (tg_images tg) (tg_lens tg)) tgs /\
  Forall (group_decided plan tables) tgs /\ table_rows plan tables tgs = visible_table plan tables fgs /\
  total_rows tgs = stored_rows fgs.
Proof using Hsr Hgain Hplan HBL.
  induction 1 as [|fg fgs Hfg _ (tgs & E1 & E2 & E3 & E4 & E5)]; [by exists []|].
  destruct (ready_group fg Hfg) as (tg & M & L & S & D & R). exists (tg :: tgs). cbn [fmap list_fmap]. rewrite E1, M.
  split; [done|]. split; [by constructor|]. split; [by constructor|].
  unfold table_rows, visible_table, total_rows, stored_rows in *. cbn [fmap list_fmap concat sum_list]. rewrite E4. split.
  - f_equal. unfold admitted, group_admitted. by rewrite M, R.
  - cbn. rewrite E5. f_equal. rewrite M. destruct Hfg as (Hf & _). rewrite (gf_rows _ _ _ Hf). apply Nat2Z.id.
Qed.

Context (Hproj : forall p sc, p ∈ p_predicates plan -> p_columns plan !! Z.to_nat (attidx p) = Some sc -> sc_wanted sc = true).
Context (Hrestrict : match p_restrictGroups plan with Some groups => StronglySorted Z.le groups | None => True end).

Lemma scan_written fgs rs fuel turns :
  Forall group_ready fgs -> zlen fgs < 2 ^ 31 - 1 ->
  rs_rowGroupList rs = fg_meta <$> fgs -> counter_index (rs_counter rs) = 0 -> order_ok (p_predicates plan) (rs_order rs) ->
  rs_group rs = None -> rs_exhausted rs = false -> (stored_rows fgs < turns)%nat ->
  (length (visible_table plan tables fgs) < fuel)%nat ->
  exists out rs', scan_rows plan tables rel fuel turns rs = Ok (out, rs') /\ rs_exhausted rs' = true /\
    keeps plan out (visible_table plan tables fgs).
Proof using Hsr Hgain Hplan Hproj Hrestrict HPL HBL.
  intros Hready Hn Hl Hc Ho Hg Hx Hturns Hfuel.
  destruct (ready_groups fgs Hready) as (tgs & E1 & E2 & E3 & E4 & E5). rewrite <- E4 in *. rewrite <- E5 in Hturns.
  apply (scan_rows_spec plan tables rel Hplan Hproj Hrestrict tgs E3); try done.
  - assert (length tgs = length fgs) as El by (by rewrite <- (length_fmap tg_meta), E1, length_fmap). unfold zlen in *. lia.
  - split; try done. by rewrite E1.
  - unfold needs_group. by rewrite Hg.
Qed.
End WholeTable.
