(* ===== verification/WriteRows.v ===== *)
(** * What the writer's buffers hold

    The rows of a stripe, chunk group by chunk group: every buffer is the one
    obtained by writing its column's values in order, and a flush turns them
    into the chunks, zone maps and bloom filters of the columns. *)

From stdpp Require Import sorting.
From S2P Require Import Prelude BitPack BitStream Codec Varlena BitSet Bloom Compress Encdesc Chunk Fsst Flush NativeRead.
From S2P Require Import Value ZoneMap Catalog GroupSkip Storage FreeSpace RowGroup.
From S2P Require Import Scan ScanRows ScanLoad ScanSkip ScanGroup ScanTable ScanWritten.

(** ** Rows and columns *)

Definition row : Type := list (option Datum).

(** The values of column [c]. *)
Definition column_of (c : nat) (rows : list row) : list (option Datum) := (fun r : row => mjoin (r !! c)) <$> rows.

Lemma column_of_snoc c rows r : column_of c (rows ++ [r]) = column_of c rows ++ [mjoin (r !! c)].
Proof. unfold column_of. by rewrite fmap_app. Qed.

Lemma length_column_of c rows : length (column_of c rows) = length rows.
Proof. apply length_fmap. Qed.

Section WriteValues.
Context `{TupMacs} `{VarattExternal}.

Lemma write_values_app def att col vs us :
  write_values def att col (vs ++ us) = (col ← write_values def att col vs; write_values def att col us).
Proof.
  revert col. induction vs as [|v vs IH]; intros col; [done|]. cbn. destruct (write_value def att col v); cbn; [apply IH|done..].
Qed.

Lemma write_columns_spec wcs : forall bufs values,
  length bufs = length wcs -> length values = length wcs ->
  (forall i wc col v, wcs !! i = Some wc -> bufs !! i = Some col -> values !! i = Some v ->
     exists col', write_value (wc_def wc) (wc_att wc) col v = Ok col') ->
  exists bufs', write_columns wcs bufs values = Ok bufs' /\ length bufs' = length wcs /\
    forall i wc col v, wcs !! i = Some wc -> bufs !! i = Some col -> values !! i = Some v ->
      exists col', bufs' !! i = Some col' /\ write_value (wc_def wc) (wc_att wc) col v = Ok col'.
Proof.
  induction wcs as [|wc wcs IH]; intros [|col bufs] [|v values] [=] [=] Hok; cbn [write_columns]; [by exists []|].
  destruct (Hok 0%nat wc col v) as (col' & Hw); [done..|]. rewrite Hw, bind_Ok.
  destruct (IH bufs values) as (bufs' & -> & Hl & Hall); [done..|intros i; apply (Hok (S i))|]. rewrite bind_Ok.
  exists (col' :: bufs'). split; [done|]. split; [cbn; by rewrite Hl|]. intros [|i] wc' col0 v' E1 E2 E3; cbn in *.
  - injection E1 as <-. injection E2 as <-. injection E3 as <-. by exists col'.
  - by eapply Hall.
Qed.
End WriteValues.

(** The bytes a value takes in the stream. *)
Definition datum_size `{TupMacs} (att : Form_pg_attribute) (v : Datum) : Z :=
  if 0 <? attlen att then attlen att
  else match stored_datum (attlen att) v with ByRef p => zlen p | ByVal _ => 0 end.

Lemma encodes_size `{TupMacs} `{VarattExternal} att v b :
  att_ok att -> encodes att v b -> zlen b = datum_size att v.
Proof.
  intros (Hby & _ & _ & _) [[_ Hl] Hd]. unfold datum_size. destruct (Z.ltb_spec 0 (attlen att)) as [|Hneg]; [done|].
  destruct (Hd []) as [Hdec _]. rewrite app_nil_r in Hdec. unfold PgColumnarDecodeValue, PgColumnarDecodeValueByLen in Hdec.
  destruct (attbyval att) eqn:Eb.
  { specialize (Hby eq_refl). destruct Hl as [El _]. by rewrite El in Hby. }
  rewrite (proj2 (Z.ltb_ge 0 (attlen att))) in Hdec by lia.
  destruct (PgColumnarVarSizeAnyUnalignedBounded b) as [n|?| |]; [|done..]. rewrite bind_Ok in Hdec.
  destruct (MemoryContextAlloc n); [|done..]. rewrite bind_Ok in Hdec.
  destruct (rd b 0 n) as [b'|?| |] eqn:Er; [|done..]. rewrite bind_Ok in Hdec. injection Hdec as <- Hn.
  unfold rd in Er. destruct (_ && _) eqn:Ec; [|done]. injection Er as <-. subst n.
  rewrite drop_0, take_ge; [done|]. unfold zlen. lia.
Qed.

(** ** The buffers of a stripe *)

(** The values a column's type admits, and those of its range's elements. *)
Record coltype := mkType { ct_dom : Datum -> Prop; ct_edom : Datum -> Prop }.

Section Buffers.
Context `{HVE : VarattExternal} `{HTL : TupMacsLaws}.
Context (w : writer) (types : list coltype) (B : Z).

Let ncols := length (w_columns w).

Record writer_ok : Prop := {
  wo_types : length types = ncols;
  wo_columns : Z.of_nat ncols < 2 ^ 15;
  wo_laws : forall c wc ct, w_columns w !! c = Some wc -> types !! c = Some ct ->
    def_laws (ct_dom ct) (ct_edom ct) (wc_def wc) /\ att_ok (wc_att wc) /\ readable_width (wc_att wc);
  wo_stripe : 0 < w_stripeRowLimit w < 2 ^ 27;
  wo_chunk : 0 < w_chunkGroupRowLimit w;
  wo_size : 0 <= B;
  wo_bytes : Z.of_nat ncols * (w_stripeRowLimit w * (B + 1)) <= 2 ^ 29
}.

(** A row of the table, each of its values at most [B] bytes long. *)
Definition row_ok (r : row) : Prop :=
  length r = ncols /\
  forall c wc ct d, w_columns w !! c = Some wc -> types !! c = Some ct -> r !! c = Some (Some d) ->
    admits (ct_dom ct) (wc_def wc) (wc_att wc) d /\ datum_size (wc_att wc) d <= B.

Definition group_buffered (g : ChunkGroup) (rows : list row) : Prop :=
  cg_rowCount g = zlen rows /\ length (cg_columns g) = ncols /\
  forall c wc, w_columns w !! c = Some wc -> exists col, cg_columns g !! c = Some col /\
    write_values (wc_def wc) (wc_att wc) stats_init (column_of c rows) = Ok col.

Context (Hw : writer_ok).

Lemma column_type c wc : w_columns w !! c = Some wc -> exists ct, types !! c = Some ct.
Proof using Hw HVE.
  intros Hc. apply lookup_lt_is_Some_2. rewrite (wo_types Hw). by eapply lookup_lt_Some.
Qed.

Lemma column_admits rows c wc ct :
  Forall row_ok rows -> w_columns w !! c = Some wc -> types !! c = Some ct ->
  Forall (admits (ct_dom ct) (wc_def wc) (wc_att wc)) (present (column_of c rows)).
Proof using.
  intros Hr Hc Ht. apply list.Forall_forall. intros d (o & Ho & Hd)%list_elem_of_omap. unfold id in Hd. subst o.
  apply list_elem_of_fmap_1 in Ho as (r & Er & Hin). rewrite list.Forall_forall in Hr. destruct (Hr r Hin) as [_ Hall].
  destruct (r !! c) as [v|] eqn:Ev; [|done]. cbn in Er. subst v. by apply (Hall c wc ct d).
Qed.

Lemma column_written rows c wc ct :
  Forall row_ok rows -> w_columns w !! c = Some wc -> types !! c = Some ct ->
  exists col, write_values (wc_def wc) (wc_att wc) stats_init (column_of c rows) = Ok col /\
    stats_ok (ct_dom ct) (ct_edom ct) (wc_def wc) (wc_att wc) (column_of c rows) col.
Proof using Hw HVE.
  intros Hr Hc Ht. destruct (wo_laws Hw c wc ct Hc Ht) as [Hlaws _].
  apply (write_values_spec _ _ _ _ Hlaws (column_of c rows) stats_init []); [apply stats_init_ok|].
  by apply column_admits.
Qed.

(** Appending one row to a chunk group. *)
Lemma write_columns_buffered g rows r :
  group_buffered g rows -> Forall row_ok rows -> row_ok r ->
  exists cols, write_columns (w_columns w) (cg_columns g) r = Ok cols /\
    group_buffered (mkChunkGroup (zlen rows + 1) cols) (rows ++ [r]).
Proof using Hw HVE.
  intros (Hn & Hl & Hcols) Hrows Hr. pose proof Hr as [Hlen _].
  assert (Hstep : forall c wc col v, w_columns w !! c = Some wc -> cg_columns g !! c = Some col -> r !! c = Some v ->
    exists col', write_value (wc_def wc) (wc_att wc) col v = Ok col' /\
      write_values (wc_def wc) (wc_att wc) stats_init (column_of c (rows ++ [r])) = Ok col').
  { intros c wc col v Hc Hcol Hv. destruct (column_type c wc Hc) as [ct Ht].
    destruct (column_written (rows ++ [r]) c wc ct) as (col' & E & _); [by apply Forall_app_2; [|constructor]|done|done|].
    destruct (Hcols c wc Hc) as (col0 & Hcol0 & E0). rewrite Hcol in Hcol0. injection Hcol0 as <-.
    exists col'. split; [|done]. rewrite column_of_snoc, write_values_app, E0, bind_Ok in E. cbn [write_values] in E.
    rewrite Hv in E. cbn in E. destruct (write_value (wc_def wc) (wc_att wc) col v); [|done..]. by rewrite bind_Ok in E. }
  destruct (write_columns_spec (w_columns w) (cg_columns g) r) as (bufs & -> & Hlb & Hall); [done|done| |].
  { intros c wc col v Hc Hcol Hv. destruct (Hstep c wc col v Hc Hcol Hv) as (col' & ? & _). by exists col'. }
  exists bufs. split; [done|]. split; [cbn; rewrite zlen_app; done|]. split; [done|]. intros c wc Hc. cbn [cg_columns].
  destruct (lookup_lt_is_Some_2 (cg_columns g) c) as [col Hcol]; [rewrite Hl; by eapply lookup_lt_Some|].
  destruct (lookup_lt_is_Some_2 r c) as [v Hv]; [rewrite Hlen; by eapply lookup_lt_Some|].
  destruct (Hall c wc col v Hc Hcol Hv) as (col1 & Hb & E1). destruct (Hstep c wc col v Hc Hcol Hv) as (col2 & E2 & E3).
  exists col1. split; [done|]. rewrite E1 in E2. by injection E2 as ->.
Qed.

(** ** A row added to the stripe *)

Definition add_row (cur : list (list row)) (r : row) : list (list row) :=
  match list.last cur with
  | Some rows => if w_chunkGroupRowLimit w <=? zlen rows then cur ++ [[r]] else removelast cur ++ [rows ++ [r]]
  | None => [[r]]
  end.

Lemma last_split {A} (l : list A) x : list.last l = Some x -> l = removelast l ++ [x].
Proof using.
  intros Hl. apply last_Some in Hl as (l' & ->). by rewrite removelast_last.
Qed.

Lemma concat_add_row cur r : concat (add_row cur r) = concat cur ++ [r].
Proof using.
  unfold add_row. destruct (list.last cur) as [rows|] eqn:El.
  - destruct (_ <=? _); [by rewrite concat_app|]. rewrite (last_split _ _ El) at 2. rewrite !concat_app. cbn. by rewrite !app_nil_r, app_assoc.
  - by apply last_None in El as ->.
Qed.

Lemma fresh_group_buffered : group_buffered (mkChunkGroup 0 (replicate ncols stats_init)) [].
Proof using.
  split; [done|]. split; [apply length_replicate|]. intros c wc Hc. exists stats_init. split; [|done].
  apply lookup_replicate_2. by eapply lookup_lt_Some.
Qed.

Record groups_hold (groups : list ChunkGroup) (cur : list (list row)) : Prop := {
  gh_groups : Forall2 group_buffered groups cur;
  gh_rows : Forall (Forall row_ok) cur;
  gh_nonempty : Forall (fun rows => rows <> []) cur
}.

Lemma append_row_spec groups cur r :
  groups_hold groups cur -> row_ok r -> zlen (concat cur) < 2 ^ 64 - 1 ->
  exists groups', append_row w (open_group w groups) r = Ok groups' /\ groups_hold groups' (add_row cur r).
Proof using Hw HVE.
  intros [Hg Hr Hne] Hrow Hmax.
  assert (Hone : forall pre precur g rows, Forall2 group_buffered pre precur -> Forall (Forall row_ok) precur ->
    Forall (fun rows => rows <> []) precur -> group_buffered g rows -> Forall row_ok rows -> zlen rows < 2 ^ 64 - 1 ->
    exists groups', append_row w (pre ++ [g]) r = Ok groups' /\ groups_hold groups' (precur ++ [rows ++ [r]])).
  { intros pre precur g rows Hpre Hprer Hpren Hgb Hrows Hlen. unfold append_row. rewrite last_snoc, removelast_last.
    destruct (write_columns_buffered g rows r Hgb Hrows Hrow) as (cols & -> & Hnew). rewrite bind_Ok.
    pose proof Hgb as (Hn & _ & _). rewrite Hn, u64_small by (pose proof (zlen_nonneg rows); lia).
    eexists. split; [done|]. split.
    - apply Forall2_app; [done|]. by apply Forall2_cons; [|apply Forall2_nil].
    - apply Forall_app_2; [done|]. apply Forall_singleton. apply Forall_app_2; [done|by constructor].
    - apply Forall_app_2; [done|]. apply Forall_singleton. by destruct rows. }
  unfold open_group, add_row, pgcolumnar_start_chunk_group. fold ncols.
  destruct (list.last groups) as [g|] eqn:Elg.
  - apply last_Some in Elg as (pre & ->). apply Forall2_app_inv_l in Hg as (precur & cur' & Hpre & Hlast & ->).
    apply Forall2_cons_inv_l in Hlast as (rows & nil' & Hgb & Hnil & ->). apply Forall2_nil_inv_l in Hnil as ->.
    rewrite last_snoc, removelast_last. apply Forall_app in Hr as [Hr1 Hr2]. apply Forall_app in Hne as [Hne1 Hne2].
    apply Forall_inv in Hr2. rewrite concat_app, zlen_app in Hmax. cbn in Hmax. rewrite app_nil_r in Hmax.
    pose proof (zlen_nonneg (concat precur)). pose proof Hgb as (-> & _ & _). destruct (_ <=? _).
    + apply (Hone (pre ++ [g]) (precur ++ [rows]) _ []); try done.
      * apply Forall2_app; [done|]. by apply Forall2_cons; [|apply Forall2_nil].
      * apply Forall_app_2; [done|]. constructor; [done|by constructor].
      * by apply Forall_app_2.
      * apply fresh_group_buffered.
    + apply Hone; try done. lia.
  - apply last_None in Elg as ->. apply Forall2_nil_inv_l in Hg as ->.
    apply (Hone [] [] _ []); try done. apply fresh_group_buffered.
Qed.
End Buffers.

(** ** Flushing a column *)

Lemma streams_zip (ns : list Z) (stats : list ColumnStats) : length stats = length ns ->
  streams (zip_with mkGroup ns (streams_of <$> stats)) = (valueStream ∘ streams_of) <$> stats.
Proof.
  revert stats. induction ns as [|n ns IH]; intros [|s stats] [=]; [done|]. unfold streams in *. cbn. f_equal. by apply IH.
Qed.

Section FlushBuffers.
Context `{HPB : PgBitutils} `{HVE : VarattExternal} `{HBL : BlockCodecLaws} `{HTL : TupMacsLaws} `{HHL : HyperLogLog}.
Context (cfg : settings) (Hsr : 0 <= encoding_sample_rows cfg < 2 ^ 31) (Hgain : 0 <= fsst_min_gain_percent cfg <= 99).
Context (w : writer) (types : list coltype) (B : Z) (Hw : writer_ok w types B).
(** The bytes of a column's stream. *)
Lemma stream_size rows c wc ct col :
  Forall (row_ok w types B) rows -> w_columns w !! c = Some wc -> types !! c = Some ct ->
  stats_ok (ct_dom ct) (ct_edom ct) (wc_def wc) (wc_att wc) (column_of c rows) col ->
  zlen (valueStream (streams_of col)) <= zlen rows * B /\ valueCount (streams_of col) <= zlen rows.
Proof using Hw.
  intros Hr Hc Ht [_ (bs & Hv & Hbs) Hcnt _ _ _ _ _ _]. destruct (wo_laws _ _ _ Hw c wc ct Hc Ht) as (_ & Hatt & _).
  assert (Hd : Forall (fun d => datum_size (wc_att wc) d <= B) (present (column_of c rows))).
  { apply list.Forall_forall. intros d (o & Ho & Hd)%list_elem_of_omap. unfold id in Hd. subst o.
    apply list_elem_of_fmap_1 in Ho as (r & Er & Hin). rewrite list.Forall_forall in Hr. destruct (Hr r Hin) as [_ Hall].
    destruct (r !! c) as [v|] eqn:Ev; [|done]. cbn in Er. subst v. by apply (Hall c wc ct d). }
  pose proof (present_length (column_of c rows)) as Hp. rewrite length_column_of in Hp. pose proof (wo_size _ _ _ Hw). split.
  - assert (Hs : zlen (concat bs) <= zlen (present (column_of c rows)) * B).
    { clear Hv Hcnt Hp. induction Hbs as [|d b ds bs' He Hbs IH]; [done|]. cbn [concat]. rewrite zlen_app, zlen_cons.
      apply Forall_cons_1 in Hd as [Hd1 Hd2]. specialize (IH Hd2). rewrite (encodes_size _ _ _ Hatt He). lia. }
    rewrite Hv. unfold zlen in *. nia.
  - rewrite Hcnt. unfold u64. pose proof (Z.mod_le (zlen (present (column_of c rows))) (2 ^ 64)). unfold zlen in *. lia.
Qed.

Context (groups : list ChunkGroup) (cur : list (list row)) (Hg : groups_hold w types B groups cur).
Context (Hlim : 0 < zlen (concat cur) <= w_stripeRowLimit w).

Let lens : list nat := length <$> cur.

Lemma sum_lens : Z.of_nat (sum_list lens) = zlen (concat cur).
Proof using. unfold lens, zlen. f_equal. clear. induction cur as [|rows l IH]; [done|]. cbn. rewrite length_app. lia. Qed.

(** The column's buffers are its stats, one per chunk group. *)
Lemma column_stats c wc ct :
  w_columns w !! c = Some wc -> types !! c = Some ct ->
  exists stats, mapM (write_values (wc_def wc) (wc_att wc) stats_init) (column_of c <$> cur) = Ok stats /\
    length stats = length cur /\ column_buffers groups c = Ok (zip (zlen <$> (column_of c <$> cur)) stats) /\
    Forall stream_fits stats /\ zlen (concat (valueStream ∘ streams_of <$> stats)) <= zlen (concat cur) * B.
Proof using Hw Hg Hlim HVE.
  intros Hc Ht. pose proof Hg as [Hgb Hrows _]. pose proof (wo_stripe _ _ _ Hw) as Hsl. pose proof (wo_size _ _ _ Hw) as HB.
  assert (Hbytes : w_stripeRowLimit w * (B + 1) <= 2 ^ 29).
  { pose proof (wo_bytes _ _ _ Hw). apply lookup_lt_Some in Hc. nia. }
  assert (Hmax : zlen (concat cur) <= w_stripeRowLimit w) by lia. clear Hg Hlim.
  unfold column_buffers. induction Hgb as [|g rows gs cur' Hgr Hgb IH]; [by exists []|].
  apply Forall_cons_1 in Hrows as [Hr Hrows]. cbn [concat] in Hmax. rewrite zlen_app in Hmax.
  pose proof (zlen_nonneg rows). pose proof (zlen_nonneg (concat cur')).
  destruct (IH Hrows) as (stats & E1 & El & E2 & Hfit & Hsz); [lia|].
  destruct (column_written w types B Hw rows c wc ct Hr Hc Ht) as (col & Ew & Hs).
  destruct Hgr as (Hn & _ & Hcols). destruct (Hcols c wc Hc) as (col' & Hcol & Ew'). rewrite Ew in Ew'. injection Ew' as <-.
  destruct (stream_size rows c wc ct col Hr Hc Ht Hs) as [Hz1 Hz2].
  exists (col :: stats). cbn [fmap list_fmap mapM]. rewrite Ew, bind_Ok, E1, bind_Ok, Hcol, bind_Ok, E2, bind_Ok.
  split; [done|]. split; [cbn; lia|]. split.
  { rewrite Hn. assert (zlen (column_of c rows) = zlen rows) as El' by (unfold zlen; by rewrite length_column_of). by rewrite <- El'. }
  split.
  - constructor; [|done]. unfold stream_fits, FSST_DECODE_SLACK, MaxAllocSize in *. nia.
  - cbn [concat]. rewrite !zlen_app. cbn. nia.
Qed.
(** The column as the scan's lemmas describe it. *)
Definition flushed_of (c : nat) (wc : write_column) (ct : coltype) (stats : list ColumnStats) (f : flushed) : flushed_column :=
  mkFlushed (mkColumn (wc_def wc) (wc_att wc) (ct_dom ct) (ct_edom ct) (column_of c <$> cur)) stats
    (fl_result f) (fl_zones f) (fl_zone f) (fl_bloom f).

Definition column_done (c : nat) (wc : write_column) (ct : coltype) (f : option flushed) : Prop :=
  if wc_generated wc then f = None
  else exists f' stats, f = Some f' /\ column_flushed cfg lens (flushed_of c wc ct stats f') /\
    zlen (fchunk (fl_result f')) <= w_stripeRowLimit w * (B + 1).

Let R := zlen (concat cur).
Let vb := (R + 7) / 8.

Lemma flush_column_spec c wc ct v :
  w_columns w !! c = Some wc -> types !! c = Some ct ->
  exists f v', flush_column cfg w groups R vb c wc v = Ok (f, v') /\ column_done c wc ct f.
Proof using Hsr Hgain Hw Hg Hlim HBL HVE HPB HHL.
  intros Hc Ht. destruct (column_stats c wc ct Hc Ht) as (stats & Em & Hl & Eb & Hfits & Hsz).
  unfold flush_column, column_done. rewrite Eb, bind_Ok. destruct (wc_generated wc).
  { unfold flush_one_column. rewrite bind_Ok. by exists None, v. }
  destruct (wo_laws _ _ _ Hw c wc ct Hc Ht) as (Hlaws & Hatt & Hwid). pose proof (wo_stripe _ _ _ Hw) as Hsl.
  pose proof (wo_size _ _ _ Hw) as HB. pose proof (wo_bytes _ _ _ Hw) as Hby.
  assert (Hbytes : w_stripeRowLimit w * (B + 1) <= 2 ^ 29) by (apply lookup_lt_Some in Hc; nia).
  set (valuess := column_of c <$> cur) in *.
  assert (Hlens : length <$> valuess = lens).
  { unfold valuess, lens. rewrite <- list_fmap_compose. apply list_fmap_ext. intros i rows _. apply length_column_of. }
  assert (Ha : Forall (Forall (admits (ct_dom ct) (wc_def wc) (wc_att wc))) (present <$> valuess)).
  { rewrite Forall_fmap. unfold valuess. rewrite Forall_fmap. eapply list.Forall_impl; [apply (gh_rows _ _ _ _ _ Hg)|].
    intros rows Hr. cbn. by apply (column_admits w types B). }
  destruct (write_groups _ _ _ _ Hlaws _ Ha) as (stats' & Em' & Hl' & Hwr). rewrite Em in Em'. injection Em' as <-.
  pose proof sum_lens as Hsum. fold R in Hsum, Hsz.
  destruct (stats_cells _ _ _ _ _ _ Hl' Hwr Hfits) as (vecs & V1 & V2 & V3 & V4 & V5); [rewrite Hlens, Hsum; unfold R; lia|].
  assert (Egrp : (fun b : Z * ColumnStats => mkGroup b.1 (streams_of b.2)) <$> zip (zlen <$> valuess) stats = cell_group <$> vecs).
  { rewrite <- V3, zip_with_fmap_r, (zip_with_zip (fun x z => mkGroup x (streams_of z))). apply list_fmap_ext. by intros i [n s] _. }
  rewrite Egrp.
  assert (Hstr : zlen (concat (streams (cell_group <$> vecs))) <= R * B).
  { rewrite <- V3, streams_zip; [done|]. by rewrite length_fmap. }
  assert (Hcomp : compressible (zlen (concat (streams (cell_group <$> vecs))))).
  { pose proof (zlen_nonneg (concat (streams (cell_group <$> vecs)))). split; [done|]. unfold MaxAllocSize.
    assert (R * B <= 2 ^ 29) by (unfold R; nia). div_bounds (zlen (concat (streams (cell_group <$> vecs)))) 255. lia. }
  assert (Hex : zlen (all_exists (cell_group <$> vecs)) = R).
  { rewrite exists_cells. unfold zlen. rewrite length_fmap. pose proof (zlen_concat_cells vecs) as E. unfold zlen in E.
    rewrite E, V5, Hlens. unfold vstart. rewrite take_ge; [done|]. unfold lens. by rewrite <- (length_fmap length vecs), V5, Hlens. }
  assert (HR : 0 <= vb /\ R <= 8 * vb /\ vb <= R) by (unfold vb, R; div_bounds (zlen (concat cur) + 7) 8; lia).
  destruct (flush_one_column_spec cfg (wc_att wc) Hatt Hwid Hsr Hgain (cell_group <$> vecs) v vb (w_encodeEffort w)
    (w_compressionType w) (w_compressionLevel w) V4 Hcomp) as (vbytes & data & desc & codec & region & v1 & E & Hval & _ & _ & Hdl);
    [lia|lia|]. rewrite Hex in E. rewrite E, bind_Ok.
  destruct (flush_zone_rows_spec _ _ _ _ Hlaws _ _ R Hwr) as (zs & z & Ez & _). rewrite Ez, bind_Ok.
  assert (Estats : (zip (zlen <$> valuess) stats).*2 = stats).
  { apply snd_zip. rewrite length_fmap. lia. }
  rewrite Estats. destruct (bloom_build_spec (concat (hashBuf <$> stats))) as (o & Ho & _).
  assert (Hbl : exists bl, flush_bloom_row (wc_def wc) stats = Ok bl).
  { unfold flush_bloom_row. destruct (bloomable (wc_def wc)); [|by eexists]. destruct (0 <? _); by eexists. }
  destruct Hbl as (bl & Ebl). rewrite Ebl, bind_Ok. eexists _, v1. split; [done|].
  set (f := mkFlushedCol (mkFlush (vbytes ++ data) desc codec) zs z bl). exists f, stats. split; [done|].
  assert (Ecg : column_groups (flushed_of c wc ct stats f) = cell_group <$> vecs) by exact V3. split.
  - split; try done.
    + by rewrite Hsum.
    + rewrite Ecg, Hsum. by exists (w_encodeEffort w), (w_compressionType w), (w_compressionLevel w), v, v1.
    + by rewrite Ecg.
  - change (fchunk (fl_result f)) with (vbytes ++ data). rewrite zlen_app. assert (zlen vbytes <= R).
    { unfold validity_stored in Hval. destruct (_ =? _); [subst vbytes; rewrite zlen_nil; lia|]. destruct Hval as (_ & -> & _). lia. }
    unfold R in *. nia.
Qed.

Lemma flush_columns_spec wcs : forall c verdicts,
  (forall i wc, wcs !! i = Some wc -> w_columns w !! (c + i)%nat = Some wc) -> length verdicts = length wcs ->
  exists fs verdicts', flush_columns cfg w groups R vb c wcs verdicts = Ok (fs, verdicts') /\
    length fs = length wcs /\ length verdicts' = length wcs /\
    forall i wc ct f, wcs !! i = Some wc -> types !! (c + i)%nat = Some ct -> fs !! i = Some f -> column_done (c + i) wc ct f.
Proof using Hsr Hgain Hw Hg Hlim HBL HVE HPB HHL.
  induction wcs as [|wc wcs IH]; intros c [|v verdicts] Hwc [=]; cbn [flush_columns].
  { exists [], []. done. }
  assert (Hc : w_columns w !! c = Some wc) by (rewrite <- (Nat.add_0_r c); by apply Hwc).
  destruct (column_type w types B Hw c wc Hc) as [ct Ht].
  destruct (flush_column_spec c wc ct v Hc Ht) as (f & v' & -> & Hf). rewrite bind_Ok.
  destruct (IH (S c) verdicts) as (fs & verdicts' & -> & Hl & Hl' & Hall); [|done|].
  { intros i wc' Hi. replace (S c + i)%nat with (c + S i)%nat by lia. by apply Hwc. }
  rewrite bind_Ok. exists (f :: fs), (v' :: verdicts'). split; [done|]. split; [cbn; lia|]. split; [cbn; lia|].
  intros [|i] wc' ct' f' E1 E2 E3; cbn in E1, E3.
  - injection E1 as <-. injection E3 as <-. rewrite Nat.add_0_r in *. rewrite Ht in E2. by injection E2 as <-.
  - replace (c + S i)%nat with (S c + i)%nat in * by lia. by eapply Hall.
Qed.

(** The bytes of the row group. *)
Lemma chunk_bytes_size fs : length fs = length (w_columns w) ->
  (forall c wc ct f, w_columns w !! c = Some wc -> types !! c = Some ct -> fs !! c = Some f -> column_done c wc ct f) ->
  zlen (concat (chunk_bytes <$> fs)) <= Z.of_nat (length (w_columns w)) * (w_stripeRowLimit w * (B + 1)).
Proof using Hw.
  intros Hl Hall. rewrite <- Hl.
  pose proof (wo_size _ _ _ Hw). pose proof (wo_stripe _ _ _ Hw).
  assert (Hone : Forall (fun f => zlen (chunk_bytes f) <= w_stripeRowLimit w * (B + 1)) fs).
  { apply Forall_lookup_2. intros c f Hf. destruct (lookup_lt_is_Some_2 (w_columns w) c) as [wc Hc].
    { rewrite <- Hl. by eapply lookup_lt_Some. }
    destruct (column_type w types B Hw c wc Hc) as [ct Ht]. specialize (Hall c wc ct f Hc Ht Hf). unfold column_done in Hall.
    destruct (wc_generated wc); [subst f; cbn; unfold zlen; cbn; nia|]. by destruct Hall as (f' & stats & -> & _ & ?). }
  clear Hall Hl. induction Hone as [|f fs Hf _ IH]; [done|]. cbn [fmap list_fmap concat length]. rewrite zlen_app. nia.
Qed.
End FlushBuffers.
