(* ===== verification/WriteCatalog.v ===== *)
(** * The catalog rows of a flush, read back

    Inserting the [column_chunk], [zone_map] and [bloom] rows of a row group into
    tables that have none of that group succeeds, and the index scans of the
    reader then return them: the chunks in column order, a column's zone maps
    with the chunk's first, every vector's zone map of the group, and the bloom
    filters. *)

From stdpp Require Import sorting.
From S2P Require Import Prelude BitPack BitStream Codec Varlena BitSet Bloom Compress Encdesc Chunk Fsst Flush NativeRead.
From S2P Require Import Value ZoneMap Catalog GroupSkip Storage FreeSpace RowGroup.
From S2P Require Import Scan ScanRows ScanLoad ScanSkip ScanGroup ScanTable ScanWritten WriteRows.

(** ** Inserting a list of rows *)

Fixpoint insert_all {A K} `{EqDecision K} (key : A -> K) (rows l : list A) : res (list A) :=
  match l with
  | [] => Ok rows
  | x :: l => rows ← table_insert key rows x; insert_all key rows l
  end.

Lemma insert_all_ok {A K} `{EqDecision K} (key : A -> K) l : forall rows,
  NoDup (key <$> l) -> (forall x, x ∈ l -> key x ∉ key <$> rows) -> insert_all key rows l = Ok (rows ++ l).
Proof.
  induction l as [|x l IH]; intros rows Hn Hx; cbn [insert_all]; [by rewrite app_nil_r|].
  rewrite fmap_cons in Hn. apply list.NoDup_cons in Hn as [Hx1 Hn]. unfold table_insert.
  rewrite bool_decide_false by (apply Hx, list_elem_of_here). rewrite bind_Ok, IH, <- app_assoc; [done|done|].
  intros y Hy. rewrite fmap_app, elem_of_app. intros [Hin|Hin%list_elem_of_singleton].
  - by apply (Hx y); [apply list_elem_of_further|].
  - apply Hx1. rewrite <- Hin. by apply list_elem_of_fmap_2.
Qed.

Lemma insert_all_app {A K} `{EqDecision K} (key : A -> K) l k : forall rows,
  insert_all key rows (l ++ k) = (rows ← insert_all key rows l; insert_all key rows k).
Proof.
  induction l as [|x l IH]; intros rows; [done|]. cbn. destruct (table_insert key rows x); cbn; [apply IH|done..].
Qed.

(** Rows of distinct blocks: the ones of a block are found by its key. *)
Lemma filter_block {A B} (blk : B -> list A) (P : A -> Prop) `{!forall x, Decision (P x)} (bs : list B) (b : B) :
  b ∈ bs -> NoDup bs ->
  (forall b' x, b' ∈ bs -> x ∈ blk b' -> P x <-> b' = b) ->
  filter P (concat (blk <$> bs)) = blk b.
Proof.
  intros Hb Hn HP. induction bs as [|b0 bs IH]; [by apply not_elem_of_nil in Hb|].
  apply list.NoDup_cons in Hn as [Hb0 Hn]. cbn [fmap list_fmap concat]. rewrite list.filter_app.
  assert (Hall : forall b', b' ∈ b0 :: bs -> (b' = b -> filter P (blk b') = blk b') /\ (b' <> b -> filter P (blk b') = [])).
  { intros b' Hb'. split; intros E.
    - rewrite <- (app_nil_r (filter P (blk b'))). assert (Forall P (blk b')) as HF.
      { apply list.Forall_forall. intros x Hx. by apply (HP b' x Hb' Hx). }
      rewrite app_nil_r. clear -HF. induction HF as [|x l Hx _ IH]; [done|]. rewrite filter_cons_True by done. by rewrite IH.
    - assert (Forall (fun x => ~ P x) (blk b')) as HF.
      { apply list.Forall_forall. intros x Hx Hp. apply E. by apply (HP b' x Hb' Hx). }
      clear -HF. induction HF as [|x l Hx _ IH]; [done|]. rewrite filter_cons_False by done. done. }
  assert (Hrest : forall bs', (forall b', b' ∈ bs' -> b' ∈ b0 :: bs) -> b ∉ bs' -> filter P (concat (blk <$> bs')) = []).
  { induction bs' as [|b1 bs' IH']; intros Hin Hni; [done|]. cbn. rewrite list.filter_app.
    destruct (Hall b1) as [_ H2]; [apply Hin, list_elem_of_here|].
    rewrite H2 by (intros ->; apply Hni, list_elem_of_here). apply IH'.
    - intros b' Hb'. apply Hin. by apply list_elem_of_further.
    - intros Hx. apply Hni. by apply list_elem_of_further. }
  apply elem_of_cons in Hb as [->|Hb].
  - destruct (Hall b0) as [H1 _]; [apply list_elem_of_here|]. rewrite H1, Hrest by (done || intros; by apply list_elem_of_further).
    apply app_nil_r.
  - destruct (Hall b0) as [_ H2]; [apply list_elem_of_here|]. rewrite H2 by (intros ->; done). cbn. apply IH; [done|done|].
    intros b' x Hb' Hx. apply HP; [by apply list_elem_of_further|done].
Qed.


(** ** The rows of a group *)

Section GroupRows.
Context (sid : Z).

Definition fg_gn (fg : flushed_group) : Z := rg_groupNumber (fg_meta fg).

Definition fg_chunk_rows (fg : flushed_group) : list ColumnChunkRow :=
  layout sid (fg_gn fg) (rg_rowCount (fg_meta fg)) (rg_fileOffset (fg_meta fg)) (fg_results fg).

Definition column_tuples (gn : Z) (c : nat) (fc : flushed_column) : list ZoneMapTuple :=
  imap (fun v z => zone_tuple sid gn (Z.of_nat c) (Z.of_nat v) z) (fc_zones fc)
  ++ [zone_tuple sid gn (Z.of_nat c) (-1) (fc_zone fc)].
Definition zone_block (gn : Z) (c : nat) (o : option flushed_column) : list ZoneMapTuple :=
  match o with Some fc => column_tuples gn c fc | None => [] end.
Definition fg_zone_rows (fg : flushed_group) : list ZoneMapTuple := concat (imap (zone_block (fg_gn fg)) (fg_columns fg)).

Definition bloom_block (gn : Z) (c : nat) (o : option flushed_column) : list BloomRow :=
  match o ≫= fc_bloom with Some b => [mkBloomRow sid gn (Z.of_nat c) b] | None => [] end.
Definition fg_bloom_rows (fg : flushed_group) : list BloomRow := concat (imap (bloom_block (fg_gn fg)) (fg_columns fg)).

Lemma elem_of_blocks {A B} (f : nat -> A -> list B) (l : list A) x :
  x ∈ concat (imap f l) <-> exists c o, l !! c = Some o /\ x ∈ f c o.
Proof using.
  rewrite list_elem_of_In, in_concat. split.
  - intros (b & Hb%list_elem_of_In & Hx%list_elem_of_In). apply list_elem_of_lookup in Hb as (c & Hc).
    apply list_lookup_imap_Some in Hc as (o & Ho & ->). by exists c, o.
  - intros (c & o & Ho & Hx). exists (f c o). split; [|by apply list_elem_of_In]. apply list_elem_of_In.
    apply list_elem_of_lookup. exists c. by rewrite list_lookup_imap, Ho.
Qed.

Lemma chunk_rows_elem fg r : r ∈ fg_chunk_rows fg ->
  cr_storageId r = sid /\ cr_groupNumber r = fg_gn fg.
Proof using.
  unfold fg_chunk_rows, layout. rewrite list_elem_of_In, in_concat. intros (b & Hb%list_elem_of_In & Hx%list_elem_of_In).
  apply list_elem_of_fmap_1 in Hb as (c & -> & _). unfold rows_at in Hx. destruct (_ !! c) as [[fr|]|]; [|by apply not_elem_of_nil in Hx..].
  apply list_elem_of_singleton in Hx as ->. done.
Qed.

Lemma column_tuples_elem gn c fc t : t ∈ column_tuples gn c fc ->
  exists v z, t = zone_tuple sid gn (Z.of_nat c) v z /\
    ((exists i, v = Z.of_nat i /\ fc_zones fc !! i = Some z) \/ (v = -1 /\ z = fc_zone fc)).
Proof using.
  unfold column_tuples. rewrite elem_of_app, list_elem_of_singleton. intros [Ht| ->].
  - apply list_elem_of_lookup in Ht as (i & Hi). apply list_lookup_imap_Some in Hi as (z & Hz & ->).
    exists (Z.of_nat i), z. split; [done|]. left. by exists i.
  - exists (-1), (fc_zone fc). split; [done|]. by right.
Qed.

Lemma zone_rows_elem fg t : t ∈ fg_zone_rows fg -> zt_storageId t = sid /\ zt_groupNumber t = fg_gn fg.
Proof using.
  intros (c & o & _ & Ht)%elem_of_blocks. unfold zone_block in Ht. destruct o as [fc|]; [|by apply not_elem_of_nil in Ht].
  apply column_tuples_elem in Ht as (v & z & -> & _). done.
Qed.

Lemma bloom_rows_elem fg b : b ∈ fg_bloom_rows fg -> bl_storageId b = sid /\ bl_groupNumber b = fg_gn fg.
Proof using.
  intros (c & o & _ & Hb)%elem_of_blocks. unfold bloom_block in Hb. destruct (o ≫= fc_bloom); [|by apply not_elem_of_nil in Hb].
  by apply list_elem_of_singleton in Hb as ->.
Qed.
End GroupRows.

Lemma filter_imap {A B} (f : nat -> A -> list B) (P : B -> Prop) `{!forall x, Decision (P x)} (l : list A) c :
  (forall c' o x, l !! c' = Some o -> x ∈ f c' o -> P x <-> c' = c) ->
  filter P (concat (imap f l)) = match l !! c with Some o => f c o | None => [] end.
Proof.
  intros HP. destruct (l !! c) as [o|] eqn:Hc.
  - assert (E : imap f l = (fun p => f p.1 p.2) <$> imap pair l) by (by rewrite fmap_imap).
    rewrite E. apply (filter_block (fun p : nat * A => f p.1 p.2) P (imap pair l) (c, o)).
    + apply list_elem_of_lookup. exists c. by rewrite list_lookup_imap, Hc.
    + apply NoDup_alt. intros i j [c' o'] Hi Hj. apply list_lookup_imap_Some in Hi as (? & _ & [= -> _]).
      by apply list_lookup_imap_Some in Hj as (? & _ & [= ->]).
    + intros [c' o'] x Hin Hx. apply list_elem_of_lookup in Hin as (i & Hi). apply list_lookup_imap_Some in Hi as (o1 & Ho1 & [= -> ->]).
      rewrite (HP i o1 x Ho1 Hx). split; [|by intros [= -> _]]. intros ->. rewrite Hc in Ho1. by injection Ho1 as ->.
  - assert (HF : Forall (fun x => ~ P x) (concat (imap f l))).
    { apply list.Forall_forall. intros x (c' & o & Ho & Hx)%elem_of_blocks Hp. apply (HP c' o x Ho Hx) in Hp as ->. congruence. }
    clear -HF. induction HF as [|x k Hx _ IH]; [done|]. rewrite filter_cons_False by done. done.
Qed.

(** ** Reading them back *)

(** A zone map a catalog tuple represents faithfully: an upper bound has bytes. *)
Definition zone_clean (z : NativeZoneMapMetadata) : Prop :=
  match zoneMaxUpper z with Upper b => 0 < zlen b | _ => True end.

Lemma zone_tuple_roundtrip sid gn c v z : zone_clean z -> zonemap_from_tuple (zone_tuple sid gn c v z) = z.
Proof.
  unfold zone_clean, zonemap_from_tuple, zone_tuple. destruct z as [mm s vc nc mu]. cbn. intros Hc.
  destruct mm as [[a b]|], mu as [|u|]; cbn; try done; by rewrite (proj2 (Z.ltb_lt _ _)) by done.
Qed.

Section Reads.
Context `{HTM : TupMacs} (sid : Z) (tables : GroupTables) (fgs : list flushed_group).

Record tables_hold : Prop := {
  th_chunks : t_column_chunk tables = concat (fg_chunk_rows sid <$> fgs);
  th_zones : t_zone_map tables = concat (fg_zone_rows sid <$> fgs);
  th_blooms : t_bloom tables = concat (fg_bloom_rows sid <$> fgs);
  th_keys : NoDup (fg_gn <$> fgs)
}.

(** The group's rows fit the columns' types. *)
Record rows_clean (fg : flushed_group) : Prop := {
  rc_columns : Z.of_nat (length (fg_columns fg)) < 2 ^ 15;
  rc_zones : forall c fc, fg_columns fg !! c = Some (Some fc) ->
    Z.of_nat (length (fc_zones fc)) < 2 ^ 31 /\ Forall zone_clean (fc_zones fc) /\ zone_clean (fc_zone fc)
}.

Context (Ht : tables_hold) (fg : flushed_group) (Hin : fg ∈ fgs) (Hc : rows_clean fg).

Lemma groups_nodup : NoDup fgs.
Proof using Ht. apply (NoDup_fmap_1 fg_gn), (th_keys Ht). Qed.

Lemma same_group fg' : fg' ∈ fgs -> fg_gn fg' = fg_gn fg <-> fg' = fg.
Proof using Ht Hin.
  intros Hin'. split; [|by intros ->]. intros E. pose proof (th_keys Ht) as Hk.
  apply list_elem_of_lookup in Hin as (i & Hi). apply list_elem_of_lookup in Hin' as (j & Hj).
  assert (i = j) as ->; [|congruence].
  apply (NoDup_lookup (fg_gn <$> fgs) i j (fg_gn fg) Hk); rewrite list_lookup_fmap; [by rewrite Hi|by rewrite Hj, <- E].
Qed.

Lemma column_small c : (c < length (fg_columns fg))%nat -> s16 (Z.of_nat c) = Z.of_nat c.
Proof using Hc. intros Hlt. clear -Hc Hlt. pose proof (rc_columns _ Hc). unfold s16. rewrite Z.mod_small; lia. Qed.

Lemma layout_sorted gn rows fo results n : forall c,
  StronglySorted Z.lt (cr_columnIndex <$> concat (rows_at sid gn rows fo results <$> seq c n)) /\
  Forall (fun i => Z.of_nat c <= i) (cr_columnIndex <$> concat (rows_at sid gn rows fo results <$> seq c n)).
Proof using.
  induction n as [|n IH]; intros c; [by split; constructor|]. cbn [seq fmap list_fmap concat]. rewrite fmap_app.
  destruct (IH (S c)) as [Hs Hf].
  assert (Hf' : Forall (fun i => Z.of_nat c <= i) (cr_columnIndex <$> concat (rows_at sid gn rows fo results <$> seq (S c) n)))
    by (eapply list.Forall_impl; [exact Hf|intros i; cbn; lia]).
  unfold rows_at at 1 3. destruct (results !! c) as [[r|]|]; cbn [fmap list_fmap app]; [|done..]. split.
  - constructor; [done|]. eapply list.Forall_impl; [exact Hf|]. intros i. cbn. lia.
  - constructor; [cbn; lia|done].
Qed.

Lemma read_chunks : PgColumnarReadColumnChunkList (t_column_chunk tables) sid (fg_gn fg) = fg_chunk_rows sid fg.
Proof using Ht Hin.
  unfold PgColumnarReadColumnChunkList. rewrite (th_chunks Ht). apply index_scan_run.
  - rewrite (filter_block (fg_chunk_rows sid) _ fgs fg); [done|done|apply groups_nodup|].
    intros fg' r Hfg' Hr. destruct (chunk_rows_elem sid fg' r Hr) as [-> ->]. rewrite <- (same_group fg' Hfg'). tauto.
  - apply layout_sorted.
Qed.

Lemma zone_rows_found : 
  filter (fun t => zt_storageId t = sid /\ zt_groupNumber t = fg_gn fg) (t_zone_map tables) = fg_zone_rows sid fg.
Proof using Ht Hin.
  rewrite (th_zones Ht). apply filter_block; [done|apply groups_nodup|].
  intros fg' t Hfg' Hrow. destruct (zone_rows_elem sid fg' t Hrow) as [-> ->]. rewrite <- (same_group fg' Hfg'). tauto.
Qed.

Lemma column_tuples_found c : (c < length (fg_columns fg))%nat ->
  filter (fun t => zt_storageId t = sid /\ zt_groupNumber t = fg_gn fg /\ zt_columnIndex t = s16 (Z.of_nat c)) (t_zone_map tables)
  = zone_block sid (fg_gn fg) c (fg_column fg c).
Proof using Ht Hin Hc.
  intros Hlt. transitivity (filter (fun t => zt_columnIndex t = s16 (Z.of_nat c)) (fg_zone_rows sid fg)).
  { rewrite <- zone_rows_found, list_filter_filter. apply list_filter_iff. tauto. }
  unfold fg_zone_rows, fg_column. rewrite (filter_imap _ _ _ c); [by destruct (fg_columns fg !! c)|].
  intros c' o t Ho Hx. unfold zone_block in Hx. destruct o as [fc|]; [|by apply not_elem_of_nil in Hx].
  apply column_tuples_elem in Hx as (v & z & -> & _). cbn. pose proof (lookup_lt_Some _ _ _ Ho).
  rewrite !column_small by lia. lia.
Qed.
(** A column's zone maps in key order: the chunk's, then the vectors'. *)
Definition column_run (gn : Z) (c : nat) (fc : flushed_column) : list ZoneMapTuple :=
  zone_tuple sid gn (Z.of_nat c) (-1) (fc_zone fc)
  :: imap (fun v z => zone_tuple sid gn (Z.of_nat c) (Z.of_nat v) z) (fc_zones fc).

Lemma column_run_sorted gn c fc : Z.of_nat (length (fc_zones fc)) < 2 ^ 31 ->
  StronglySorted Z.lt (zt_order <$> column_run gn c fc).
Proof using.
  intros Hl. unfold column_run. rewrite fmap_cons, fmap_imap.
  assert (Hgen : forall zs a, Z.of_nat a + Z.of_nat (length zs) < 2 ^ 31 ->
    StronglySorted Z.lt (imap (fun v z => zt_order (zone_tuple sid gn (Z.of_nat c) (Z.of_nat (a + v)) z)) zs) /\
    Forall (fun k => s16 (Z.of_nat c) * 2 ^ 33 + Z.of_nat a <= k)
      (imap (fun v z => zt_order (zone_tuple sid gn (Z.of_nat c) (Z.of_nat (a + v)) z)) zs)).
  { induction zs as [|z zs IH]; intros a Ha; [split; constructor|]. cbn [length] in Ha. rewrite imap_cons.
    destruct (IH (S a)) as [Hs Hf]; [lia|].
    assert (E : imap ((fun v z => zt_order (zone_tuple sid gn (Z.of_nat c) (Z.of_nat (a + v)) z)) ∘ S) zs
      = imap (fun v z => zt_order (zone_tuple sid gn (Z.of_nat c) (Z.of_nat (S a + v)) z)) zs).
    { apply imap_ext. intros i x _. cbn. by replace (a + S i)%nat with (S (a + i)) by lia. }
    rewrite E. unfold zt_order at 1 3. cbn [zone_tuple zt_columnIndex zt_vectorIndex]. rewrite Nat.add_0_r, s32_small by lia.
    split; (constructor; [|]); try done; try lia; (eapply list.Forall_impl; [exact Hf|]); intros k; cbn; lia. }
  destruct (Hgen (fc_zones fc) 0%nat ltac:(lia)) as [Hs Hf]. constructor; [exact Hs|].
  eapply list.Forall_impl; [exact Hf|]. intros k Hk. unfold zt_order. cbn. change (s32 (-1)) with (-1). cbn in Hk. lia.
Qed.

Lemma column_scan c : (c < length (fg_columns fg))%nat ->
  index_scan zt_order (fun t => zt_storageId t = sid /\ zt_groupNumber t = fg_gn fg /\ zt_columnIndex t = s16 (Z.of_nat c))
    (t_zone_map tables)
  = match fg_column fg c with Some fc => column_run (fg_gn fg) c fc | None => [] end.
Proof using Ht Hin Hc.
  intros Hlt. apply index_scan_run.
  - rewrite column_tuples_found by done. unfold zone_block. destruct (fg_column fg c) as [fc|]; [|done].
    unfold column_tuples, column_run. by rewrite Permutation_app_comm.
  - case_eq (fg_column fg c); [intros fc Efc|intros _; constructor]. apply column_run_sorted.
    unfold fg_column in Efc. destruct (fg_columns fg !! c) as [o|] eqn:Eo; [|done]. cbn in Efc. subst o.
    apply (rc_zones _ Hc c fc Eo).
Qed.

Lemma column_clean c fc : fg_column fg c = Some fc ->
  (c < length (fg_columns fg))%nat /\ Z.of_nat (length (fc_zones fc)) < 2 ^ 31 /\ Forall zone_clean (fc_zones fc) /\ zone_clean (fc_zone fc).
Proof using Hc.
  unfold fg_column. destruct (fg_columns fg !! c) as [o|] eqn:Eo; [|done]. cbn. intros ->.
  split; [by eapply lookup_lt_Some|]. by apply (rc_zones _ Hc c).
Qed.

Lemma tuple_entry gn c v z : s16 (Z.of_nat c) = Z.of_nat c -> 0 <= v < 2 ^ 31 -> zone_clean z ->
  zone_entry_of (zone_tuple sid gn (Z.of_nat c) v z) = (Z.of_nat c, v, z).
Proof using.
  intros Ec Hv Hz. unfold zone_entry_of. rewrite zone_tuple_roundtrip by done. cbn. by rewrite Ec, s32_small by lia.
Qed.

(** The vectors' zone maps among the tuples of a column. *)
Lemma vectors_of_column c fc : fg_column fg c = Some fc ->
  zone_entry_of <$> filter (fun t => 0 <= zt_vectorIndex t) (column_run (fg_gn fg) c fc) = zone_entries c (fc_zones fc).
Proof using Hc.
  intros Efc. destruct (column_clean c fc Efc) as (Hlt & Hl & Hz & _). pose proof (column_small c Hlt) as Ec.
  unfold column_run. rewrite filter_cons_False by (cbn; change (s32 (-1)) with (-1); lia).
  assert (Hall : Forall (fun t => 0 <= zt_vectorIndex t) (imap (fun v z => zone_tuple sid (fg_gn fg) (Z.of_nat c) (Z.of_nat v) z) (fc_zones fc))).
  { apply Forall_lookup_2. intros i t Hi. apply list_lookup_imap_Some in Hi as (z & Hz' & ->). apply lookup_lt_Some in Hz'.
    cbn. rewrite s32_small by lia. lia. }
  assert (Ef : forall l, Forall (fun t => 0 <= zt_vectorIndex t) l -> filter (fun t => 0 <= zt_vectorIndex t) l = l).
  { induction 1 as [|t l Hh _ IH]; [done|]. rewrite filter_cons_True by done. by rewrite IH. }
  rewrite Ef by done. rewrite fmap_imap. unfold zone_entries. apply imap_ext. intros i z Hi. cbn.
  apply tuple_entry; [done|apply lookup_lt_Some in Hi; lia|]. exact (Forall_lookup_1 _ _ _ _ Hz Hi).
Qed.

Context (plan : scan_plan) (Hsid : p_storageId plan = sid) (Hn : length (fg_columns fg) = length (p_columns plan)).

Lemma group_read_back : group_cataloged plan tables fg.
Proof using Ht Hin Hc Hn Hsid.
  split; fold (fg_gn fg).
  - rewrite Hsid. apply read_chunks.
  - intros c Hlt. rewrite Hsid. rewrite <- Hn in Hlt. unfold PgColumnarReadZoneMapVectorsForColumn, fg_entries. rewrite column_scan by done.
    case_eq (fg_column fg c); [|done]. intros fc Efc. by apply vectors_of_column.
  - intros e. rewrite Hsid. unfold PgColumnarReadZoneMapVectors. split.
    + intros (t & -> & Ht')%list_elem_of_fmap_1. apply list_elem_of_filter in Ht' as [Hv Ht'].
      unfold index_scan in Ht'. rewrite merge_sort_Permutation, zone_rows_found in Ht'.
      apply elem_of_blocks in Ht' as (c & o & Ho & Ht'). unfold zone_block in Ht'. destruct o as [fc|]; [|by apply not_elem_of_nil in Ht'].
      exists c. assert (Efc : fg_column fg c = Some fc) by (unfold fg_column; by rewrite Ho). unfold fg_entries. rewrite Efc.
      rewrite <- (vectors_of_column c fc Efc). apply list_elem_of_fmap_2, list_elem_of_filter. split; [done|].
      unfold column_run. rewrite Permutation_cons_append. exact Ht'.
    + intros (c & He). unfold fg_entries in He. case_eq (fg_column fg c); [intros fc Efc|intros E; rewrite E in He; by apply not_elem_of_nil in He].
      rewrite Efc, <- (vectors_of_column c fc Efc) in He. apply list_elem_of_fmap_1 in He as (t & -> & Ht').
      apply list_elem_of_fmap_2. apply list_elem_of_filter in Ht' as [Hv Ht']. apply list_elem_of_filter. split; [done|].
      unfold index_scan. rewrite merge_sort_Permutation, zone_rows_found. apply elem_of_blocks.
      unfold fg_column in Efc. destruct (fg_columns fg !! c) as [o|] eqn:Eo; [|done]. cbn in Efc. subst o.
      exists c, (Some fc). split; [done|]. unfold zone_block, column_tuples. unfold column_run in Ht'.
      by rewrite Permutation_cons_append in Ht'.
  - intros c Hlt. rewrite Hsid. rewrite <- Hn in Hlt. unfold PgColumnarReadZoneMapForColumn. rewrite column_scan by done.
    case_eq (fg_column fg c); [|done]. intros fc Efc. unfold column_run. rewrite filter_cons_True by done. cbn. f_equal.
    apply zone_tuple_roundtrip. by destruct (column_clean c fc Efc) as (_ & _ & _ & ?).
  - intros c Hlt. rewrite Hsid. rewrite <- Hn in Hlt. unfold PgColumnarReadBloomForColumn.
    assert (E : filter (fun r => bl_storageId r = sid /\ bl_groupNumber r = fg_gn fg /\ bl_columnIndex r = s16 (Z.of_nat c)) (t_bloom tables)
      = bloom_block sid (fg_gn fg) c (fg_column fg c)).
    { transitivity (filter (fun r => bl_columnIndex r = s16 (Z.of_nat c)) (fg_bloom_rows sid fg)).
      - assert (E' : filter (fun r => bl_storageId r = sid /\ bl_groupNumber r = fg_gn fg) (t_bloom tables) = fg_bloom_rows sid fg).
        { rewrite (th_blooms Ht). apply filter_block; [done|apply groups_nodup|].
          intros fg' b Hfg' Hb. destruct (bloom_rows_elem sid fg' b Hb) as [-> ->]. rewrite <- (same_group fg' Hfg'). tauto. }
        rewrite <- E', list_filter_filter. apply list_filter_iff. tauto.
      - unfold fg_bloom_rows, fg_column. rewrite (filter_imap _ _ _ c); [by destruct (fg_columns fg !! c)|].
        intros c' o b Ho Hb. unfold bloom_block in Hb. destruct (o ≫= fc_bloom); [|by apply not_elem_of_nil in Hb].
        apply list_elem_of_singleton in Hb as ->. cbn. rewrite column_small by done. lia. }
    rewrite E. unfold bloom_block. by destruct (fg_column fg c ≫= fc_bloom).
Qed.
End Reads.

(** ** The inserts of a flush *)

(** What the writer computed for a column, and the column as the scan knows it. *)
Definition same_flush (f : option flushed) (o : option flushed_column) : Prop :=
  match f, o with
  | Some f, Some fc => fc_result fc = fl_result f /\ fc_zones fc = fl_zones f /\ fc_zone fc = fl_zone f /\ fc_bloom fc = fl_bloom f
  | None, None => True
  | _, _ => False
  end.

(** Keys of blocks told apart by a tag. *)
Lemma NoDup_blocks {A B K} (key : B -> K) (tag : K -> Z) (l : list A) : forall (f : nat -> A -> list B) (a : Z),
  (forall c o x, l !! c = Some o -> x ∈ f c o -> tag (key x) = a + Z.of_nat c) ->
  (forall c o, l !! c = Some o -> NoDup (key <$> f c o)) -> NoDup (key <$> concat (imap f l)).
Proof.
  induction l as [|o l IH]; intros f a Htag Hnd; [constructor|]. rewrite imap_cons. cbn [concat]. rewrite fmap_app.
  apply list.NoDup_app. split; [by apply (Hnd 0%nat)|]. split.
  - intros k (x & -> & Hx)%list_elem_of_fmap_1 (y & E & Hy)%list_elem_of_fmap_1.
    apply elem_of_blocks in Hy as (c & o' & Ho' & Hy). pose proof (Htag 0%nat o x eq_refl Hx) as T1.
    pose proof (Htag (S c) o' y Ho' Hy) as T2. rewrite E in T1. lia.
  - apply (IH (f ∘ S) (a + 1)); [|intros c o' Ho'; by apply (Hnd (S c))].
    intros c o' x Ho' Hx. rewrite (Htag (S c) o' x Ho' Hx). lia.
Qed.

Section Inserts.
Context (w : writer) (fs : list (option flushed)) (fg : flushed_group).

Let sid := w_storageId w.
Let gn := fg_gn fg.
Let rc := rg_rowCount (fg_meta fg).
Let fo := rg_fileOffset (fg_meta fg).

Context (Hsame : Forall2 same_flush fs (fg_columns fg)) (Hclean : rows_clean fg).
Context (Hfo : 0 <= fo) (Hend : fo + zlen (group_data (fg_results fg)) < 2 ^ 64).

Lemma same_lookup c f : fs !! c = Some f -> exists o, fg_columns fg !! c = Some o /\ same_flush f o /\
  s16 (Z.of_nat c) = Z.of_nat c.
Proof using Hsame Hclean.
  intros Hf. destruct (Forall2_lookup_l _ _ _ _ _ Hsame Hf) as (o & Ho & Hs). exists o. split; [done|]. split; [done|].
  apply (column_small fg Hclean). by eapply lookup_lt_Some.
Qed.

Lemma flush_data : concat (chunk_bytes <$> fs) = group_data (fg_results fg).
Proof using Hsame.
  unfold group_data, fg_results. rewrite <- list_fmap_compose. clear -Hsame.
  induction Hsame as [|f o fs' cols Hs Hr IH]; [done|]. cbn. rewrite (IH Hr). f_equal.
  destruct f as [f|], o as [fc|]; try done. cbn. by destruct Hs as (-> & _).
Qed.

Lemma insert_chunks_all n : forall c rows, (c + n = length fs)%nat ->
  insert_chunks w rows gn rc fo c (chunk_offset (fg_results fg) c) (drop c fs)
  = insert_all cr_key rows (concat (rows_at sid gn rc fo (fg_results fg) <$> seq c n)).
Proof using Hsame Hclean Hfo Hend.
  induction n as [|n IH]; intros c rows Hc; [by rewrite drop_ge by lia|].
  destruct (lookup_lt_is_Some_2 fs c) as [f Hf]; [lia|]. rewrite (drop_S fs f c Hf). cbn [insert_chunks seq fmap list_fmap concat].
  destruct (same_lookup c f Hf) as (o & Ho & Hs & Es).
  assert (Hr : fg_results fg !! c = Some (fc_result <$> o)) by (unfold fg_results; by rewrite list_lookup_fmap, Ho).
  assert (Eoff : chunk_offset (fg_results fg) c + zlen (chunk_bytes f) = chunk_offset (fg_results fg) (S c)).
  { rewrite (chunk_offset_S _ _ _ Hr). do 2 f_equal. destruct f as [f|], o as [fc|]; try done. cbn. by destruct Hs as (-> & _). }
  rewrite insert_all_app, Eoff. unfold rows_at at 2. rewrite Hr.
  destruct f as [f|], o as [fc|]; try done; cbn [fmap option_fmap option_map].
  2:{ cbn [insert_all]. rewrite !bind_Ok. apply IH. lia. }
  destruct Hs as (E1 & _). cbn [insert_all]. unfold PgColumnarInsertColumnChunkRow, chunk_row. rewrite <- E1, Es.
  pose proof (chunk_offset_end _ _ _ Hr) as He. cbn in He. pose proof (chunk_offset_nonneg (fg_results fg) c).
  pose proof (zlen_nonneg (fchunk (fc_result fc))). rewrite u64_small by lia. fold sid.
  destruct (table_insert cr_key rows _); cbn; [apply IH; lia|done..].
Qed.

Lemma insert_zone_list_all c zs : s16 (Z.of_nat c) = Z.of_nat c -> forall rows,
  insert_zone_list w rows gn c zs = insert_all zt_key rows ((fun p => zone_tuple sid gn (Z.of_nat c) p.1 p.2) <$> zs).
Proof using.
  intros Es. induction zs as [|[v z] zs IH]; intros rows; [done|]. cbn [insert_zone_list fmap list_fmap insert_all].
  unfold PgColumnarInsertZoneMapRow. fold sid. destruct (table_insert zt_key rows _); cbn; [apply IH|done..].
Qed.

Lemma insert_zones_all n : forall c rows, (c + n = length fs)%nat ->
  insert_zones w rows gn c (drop c fs)
  = insert_all zt_key rows (concat (imap (fun i => zone_block sid gn (c + i)) (drop c (fg_columns fg)))).
Proof using Hsame Hclean.
  induction n as [|n IH]; intros c rows Hc.
  { pose proof (Forall2_length Hsame). by rewrite !drop_ge by lia. }
  destruct (lookup_lt_is_Some_2 fs c) as [f Hf]; [lia|]. destruct (same_lookup c f Hf) as (o & Ho & Hs & Es).
  rewrite (drop_S fs f c Hf), (drop_S _ o c Ho), imap_cons. cbn [insert_zones concat]. rewrite insert_all_app, Nat.add_0_r.
  rewrite insert_zone_list_all by done.
  assert (E : (fun p : Z * NativeZoneMapMetadata => zone_tuple sid gn (Z.of_nat c) p.1 p.2) <$> (match f with Some f => zone_list f | None => [] end)
    = zone_block sid gn c o).
  { destruct f as [f|], o as [fc|]; try done. cbn. destruct Hs as (_ & E2 & E3 & _). unfold zone_list, column_tuples.
    rewrite fmap_app, fmap_imap, E2, E3. done. }
  rewrite E. destruct (insert_all zt_key rows _) as [rows'|?| |]; [|done..]. cbn. rewrite IH by lia. f_equal. f_equal.
  apply imap_ext. intros i x _. cbn. f_equal. lia.
Qed.

Lemma insert_blooms_all n : forall c rows, (c + n = length fs)%nat ->
  insert_blooms w rows gn c (drop c fs)
  = insert_all bl_key rows (concat (imap (fun i => bloom_block sid gn (c + i)) (drop c (fg_columns fg)))).
Proof using Hsame Hclean.
  induction n as [|n IH]; intros c rows Hc.
  { pose proof (Forall2_length Hsame). by rewrite !drop_ge by lia. }
  destruct (lookup_lt_is_Some_2 fs c) as [f Hf]; [lia|]. destruct (same_lookup c f Hf) as (o & Ho & Hs & Es).
  rewrite (drop_S fs f c Hf), (drop_S _ o c Ho), imap_cons. cbn [insert_blooms concat]. rewrite insert_all_app, Nat.add_0_r.
  assert (E : (f ≫= fl_bloom) = (o ≫= fc_bloom)) by (destruct f as [f|], o as [fc|]; try done; cbn; by destruct Hs as (_ & _ & _ & ->)).
  rewrite E. unfold bloom_block at 2.
  assert (Erest : imap ((fun i => bloom_block sid gn (c + i)) ∘ S) (drop (S c) (fg_columns fg))
    = imap (fun i => bloom_block sid gn (S c + i)) (drop (S c) (fg_columns fg))).
  { apply imap_ext. intros i x _. cbn. f_equal. lia. }
  rewrite Erest. destruct (o ≫= fc_bloom) as [b|].
  - cbn [insert_all]. unfold PgColumnarInsertBloomRow. rewrite Es. fold sid.
    destruct (table_insert bl_key rows _); cbn; [apply IH; lia|done..].
  - cbn [insert_all]. rewrite !bind_Ok. apply IH. lia.
Qed.
Lemma chunk_keys : NoDup (cr_key <$> fg_chunk_rows sid fg).
Proof using.
  destruct (layout_sorted sid (fg_gn fg) (rg_rowCount (fg_meta fg))
    (rg_fileOffset (fg_meta fg)) (fg_results fg) (length (fg_results fg)) 0) as [Hs _].
  unfold fg_chunk_rows, layout. revert Hs.
  generalize (concat (rows_at sid (fg_gn fg) (rg_rowCount (fg_meta fg)) (rg_fileOffset (fg_meta fg)) (fg_results fg)
    <$> seq 0 (length (fg_results fg)))) as l.
  induction l as [|r l IH]; [constructor|].
  rewrite !fmap_cons. intros [Hs Hf]%StronglySorted_inv. constructor; [|by apply IH].
  intros (r' & E & Hr')%list_elem_of_fmap_1. injection E as _ _ E. rewrite Forall_fmap, list.Forall_forall in Hf.
  specialize (Hf r' Hr'). cbn in Hf. lia.
Qed.

Lemma zone_keys : NoDup (zt_key <$> fg_zone_rows sid fg).
Proof using Hclean.
  apply (NoDup_blocks zt_key (fun k => k.1.2) _ _ 0).
  - intros c o t Ho Hx. unfold zone_block in Hx. destruct o as [fc|]; [|by apply not_elem_of_nil in Hx].
    apply column_tuples_elem in Hx as (v & z & -> & _). cbn. rewrite (column_small fg Hclean) by (by eapply lookup_lt_Some). lia.
  - intros c [fc|] Ho; [|constructor]. destruct (rc_zones _ Hclean c fc Ho) as (Hl & _). cbn [zone_block].
    unfold column_tuples. rewrite fmap_app, fmap_imap. apply list.NoDup_app. split; [|split].
    + apply NoDup_alt. intros i j k Hi Hj. apply list_lookup_imap_Some in Hi as (z & Hz & ->).
      apply list_lookup_imap_Some in Hj as (z' & Hz' & E). apply lookup_lt_Some in Hz, Hz'.
      cbn in E. injection E as E. rewrite !s32_small in E by lia. lia.
    + intros k Hk. apply list_elem_of_lookup in Hk as (i & Hi). apply list_lookup_imap_Some in Hi as (z & Hz & ->).
      intros Hin. apply list_elem_of_singleton in Hin. cbn in Hin. injection Hin as E. apply lookup_lt_Some in Hz.
      rewrite s32_small in E by lia. change (s32 (-1)) with (-1) in E. lia.
    + apply NoDup_singleton.
Qed.

Lemma bloom_keys : NoDup (bl_key <$> fg_bloom_rows sid fg).
Proof using.
  apply (NoDup_blocks bl_key (fun k => k.2) _ _ 0).
  - intros c o b Ho Hx. unfold bloom_block in Hx. destruct (o ≫= fc_bloom); [|by apply not_elem_of_nil in Hx].
    by apply list_elem_of_singleton in Hx as ->.
  - intros c o _. unfold bloom_block. destruct (o ≫= fc_bloom); [apply NoDup_singleton|constructor].
Qed.

(** Tables that hold other groups take the rows of this one. *)
Context (fgs : list flushed_group) (Hfresh : gn ∉ fg_gn <$> fgs).

Lemma not_there {A} (blk : flushed_group -> list A) (key : A -> Z * Z) :
  (forall g r, r ∈ blk g -> key r = (sid, fg_gn g)) ->
  forall r r', r ∈ blk fg -> r' ∈ concat (blk <$> fgs) -> key r <> key r'.
Proof using Hfresh.
  intros Hk r r' Hr Hr' E. apply list_elem_of_In, in_concat in Hr' as (b & Hb & Hr'). apply list_elem_of_In in Hb, Hr'.
  apply list_elem_of_fmap_1 in Hb as (g & -> & Hg). rewrite (Hk fg r Hr), (Hk g r' Hr') in E. injection E as E.
  apply Hfresh. unfold gn. rewrite E. by apply list_elem_of_fmap_2.
Qed.

Lemma insert_chunks_ok :
  insert_chunks w (concat (fg_chunk_rows sid <$> fgs)) gn rc fo 0 0 fs = Ok (concat (fg_chunk_rows sid <$> (fgs ++ [fg]))).
Proof using Hsame Hclean Hfo Hend Hfresh.
  pose proof (insert_chunks_all (length fs) 0 (concat (fg_chunk_rows sid <$> fgs)) eq_refl) as E.
  rewrite drop_0, chunk_offset_0 in E. rewrite E, fmap_app, concat_app. cbn [fmap list_fmap concat]. rewrite app_nil_r.
  assert (El : length fs = length (fg_results fg)) by (unfold fg_results; rewrite length_fmap; apply (Forall2_length Hsame)).
  rewrite El. apply insert_all_ok; [apply chunk_keys|]. intros r Hr (r' & Ek & Hr')%list_elem_of_fmap_1.
  apply (not_there (fg_chunk_rows sid) (fun r => (cr_storageId r, cr_groupNumber r))) with (r := r) (r' := r'); try done.
  - intros g x Hx. by destruct (chunk_rows_elem sid g x Hx) as [-> ->].
  - unfold cr_key in Ek. congruence.
Qed.

Lemma insert_zones_ok :
  insert_zones w (concat (fg_zone_rows sid <$> fgs)) gn 0 fs = Ok (concat (fg_zone_rows sid <$> (fgs ++ [fg]))).
Proof using Hsame Hclean Hfresh.
  pose proof (insert_zones_all (length fs) 0 (concat (fg_zone_rows sid <$> fgs)) eq_refl) as E.
  rewrite !drop_0 in E. rewrite E, fmap_app, concat_app. cbn [fmap list_fmap concat]. rewrite app_nil_r.
  apply insert_all_ok; [apply zone_keys|]. intros r Hr (r' & Ek & Hr')%list_elem_of_fmap_1.
  apply (not_there (fg_zone_rows sid) (fun r => (zt_storageId r, zt_groupNumber r))) with (r := r) (r' := r'); try done.
  - intros g x Hx. by destruct (zone_rows_elem sid g x Hx) as [-> ->].
  - unfold zt_key in Ek. congruence.
Qed.

Lemma insert_blooms_ok :
  insert_blooms w (concat (fg_bloom_rows sid <$> fgs)) gn 0 fs = Ok (concat (fg_bloom_rows sid <$> (fgs ++ [fg]))).
Proof using Hsame Hclean Hfresh.
  pose proof (insert_blooms_all (length fs) 0 (concat (fg_bloom_rows sid <$> fgs)) eq_refl) as E.
  rewrite !drop_0 in E. rewrite E, fmap_app, concat_app. cbn [fmap list_fmap concat]. rewrite app_nil_r.
  apply insert_all_ok; [apply bloom_keys|]. intros r Hr (r' & Ek & Hr')%list_elem_of_fmap_1.
  apply (not_there (fg_bloom_rows sid) (fun r => (bl_storageId r, bl_groupNumber r))) with (r := r) (r' := r'); try done.
  - intros g x Hx. by destruct (bloom_rows_elem sid g x Hx) as [-> ->].
  - unfold bl_key in Ek. congruence.
Qed.
End Inserts.
