(* ===== verification/Insert.v ===== *)
(** * Inserting rows and reading them back

    A fresh table, any sequence of rows and flushes: every write succeeds, the
    rows get consecutive numbers from their stripe's first one, and a scan of
    what was flushed returns the rows with their numbers. *)

From stdpp Require Import sorting.
From S2P Require Import Prelude BitPack BitStream Codec Varlena BitSet Bloom Compress Encdesc Chunk Fsst Flush NativeRead.
From S2P Require Import Value ZoneMap Catalog GroupSkip Storage FreeSpace Reclaim RowGroup.
From S2P Require Import Scan ScanRows ScanLoad ScanSkip ScanGroup ScanTable ScanWritten WriteRows WriteCatalog.

(** ** Lists *)

Lemma imap_lookup_eq {X Y Z'} (f : X -> Z') (g : nat -> Y -> Z') (l : list X) (l' : list Y) :
  length l = length l' -> (forall k x y, l !! k = Some x -> l' !! k = Some y -> f x = g k y) -> f <$> l = imap g l'.
Proof.
  intros Hl Hfg. apply list_eq. intros k. rewrite list_lookup_fmap, list_lookup_imap.
  destruct (l !! k) as [x|] eqn:Ex, (l' !! k) as [y|] eqn:Ey; cbn; [by f_equal; eapply Hfg| | |done].
  - apply lookup_lt_Some in Ex. apply lookup_ge_None in Ey. lia.
  - apply lookup_lt_Some in Ey. apply lookup_ge_None in Ex. lia.
Qed.

Lemma seqZ_sorted a n : StronglySorted Z.lt (seqZ a (Z.of_nat n)).
Proof.
  revert a. induction n as [|n IH]; intros a; [constructor|]. rewrite seqZ_cons by lia.
  replace (Z.pred (Z.of_nat (S n))) with (Z.of_nat n) by lia. constructor; [apply IH|].
  apply list.Forall_forall. intros x Hx%elem_of_seqZ. lia.
Qed.

(** ** The zone maps of a flush have a faithful tuple *)

Lemma zone_for_clean `{TupMacsLaws} `{VarattExternal} dom edom def att vs z :
  zone_for dom edom def att vs z -> zone_clean z.
Proof.
  intros [_ Hu Hn]. unfold zone_clean. destruct (isRange def).
  - specialize (Hu eq_refl). destruct (zoneMaxUpper z); [done|by destruct Hu|done].
  - by rewrite Hn.
Qed.

Lemma flushed_clean `{PgBitutils} `{VarattExternal} `{BlockCodecs} `{TupMacsLaws} `{HyperLogLog} cfg lens fc :
  column_flushed cfg lens fc ->
  length (fc_zones fc) = length lens /\ Forall zone_clean (fc_zones fc) /\ zone_clean (fc_zone fc).
Proof.
  intros Hfc. split; [by eapply flushed_zones_length|]. destruct (flushed_written cfg lens fc Hfc) as [_ Hw].
  destruct (cf_column _ _ _ Hfc) as [Hlaws _].
  destruct (flush_zone_rows_spec _ _ _ _ Hlaws _ _ (Z.of_nat (sum_list lens)) Hw) as (zs & z & E & Hzs & Hz).
  rewrite (cf_zones _ _ _ Hfc) in E. injection E as <- <-. split; [|by eapply zone_for_clean].
  clear -Hzs. induction Hzs as [|values z vs zs Hz _ IH]; constructor; [by eapply zone_for_clean|done].
Qed.

(** ** Appending to the file *)

Section Append.
Context `{HPL : PageLayoutLaws}.
Local Abbreviation bpp := COLUMNAR_BYTES_PER_PAGE.

(** A range of the file that holds [d], below the reserved offset. *)
Record range_holds (rel : list page) (m : PgColumnarMetapage) (off : Z) (d : list Z) : Prop := {
  rh_aligned : aligned off;
  rh_low : 2 * bpp <= off;
  rh_high : off + zlen d <= npg (reservedOffset m) * bpp;
  rh_data : holds_at rel off d
}.

(** With no free space to reuse, a group goes to the page after the reserved
    offset, and what the file held is kept. *)
Lemma flush_place_append coalesce locked rel m ox data :
  fork_ok rel m -> npg (reservedOffset m) * bpp + zlen data <= file_limit ->
  exists rel', let off := npg (reservedOffset m) * bpp in let m' := with_offset m (off + zlen data) in
    flush_place coalesce locked rel [] ox data = Ok (rel', [], off) /\ fork_ok rel' m' /\
    range_holds rel' m' off data /\ forall o d, range_holds rel m o d -> range_holds rel' m' o d.
Proof.
  intros Hfork Hfit. pose proof Hfork as [F1 F2 F3 F4 F5]. pose proof bpp_bounds. pose proof file_limit_u64.
  pose proof (npg_bound (reservedOffset m)). pose proof (zlen_nonneg data) as Hlen.
  set (off := npg (reservedOffset m) * bpp) in *. set (m' := with_offset m (off + zlen data)).
  assert (Hal : forall sid, PgColumnarAllocateFreeSpace coalesce [] sid (zlen data) ox = Ok ([], None)) by done.
  assert (Hfree : (if (0 <? zlen data) && locked
    then sid ← PgColumnarStorageId rel; PgColumnarAllocateFreeSpace coalesce [] sid (zlen data) ox
    else Ok ([], None)) = Ok ([], None)).
  { destruct (_ && _); [|done]. unfold PgColumnarStorageId, PgColumnarReadMetapage. rewrite F1, bind_Ok, F2.
    cbn [Z.eqb Pos.eqb COLUMNAR_VERSION_MAJOR]. rewrite !bind_Ok. apply Hal. }
  assert (Hres : PgColumnarReserveOffset rel (zlen data) = Ok (set_metapage rel m', off)).
  { unfold PgColumnarReserveOffset. rewrite F1, bind_Ok, (u64_small (_ + bpp - 1)) by lia.
    fold (npg (reservedOffset m)). fold off. cbv zeta. rewrite (u64_small off), u64_small by lia. done. }
  assert (Hf1 : fork_ok (set_metapage rel m') m').
  { split; try done; [by eapply set_metapage_read|by rewrite zlen_set_metapage|cbn; lia]. }
  assert (Hnp : npg (off + zlen data) = npg (reservedOffset m) + npg (zlen data)) by apply npg_add.
  pose proof (npg_nonneg _ Hlen). pose proof (npg_bound (zlen data)).
  assert (Hmove : forall rel' o d, range_holds rel m o d -> holds_at rel' o d -> range_holds rel' m' o d).
  { intros rel' o d [R1 R2 R3 R4] Hh. split; try done. cbn. rewrite Hnp. nia. }
  unfold flush_place. rewrite Hfree, bind_Ok, Hres, bind_Ok. destruct (Z.ltb_spec 0 (zlen data)) as [Hpos|Hz].
  - destruct (place_write (set_metapage rel m') m' data off Hf1) as (rel' & -> & [P1 P2 P3 P4 P5 P6 P7 P8]);
      [by intros ->|apply mul_aligned|lia|cbn; rewrite Hnp; unfold off; lia|].
    rewrite bind_Ok. exists rel'. cbv zeta. split; [done|]. split; [done|]. split.
    + split; try done. change (off + zlen data <= npg (reservedOffset m') * bpp). lia.
    + intros o d Hr. pose proof Hr as [R1 R2 R3 R4]. apply Hmove; [done|]. apply P8; [done|lia|apply set_metapage_keeps; [done|lia|done]|].
      intros k K1 K2. apply elem_of_pgs in K1, K2. pose proof (aligned_mul _ R1) as Eo. unfold off in K2.
      rewrite Z.div_mul in K2 by lia. assert (Hle : npg (o / bpp * bpp + zlen d) <= npg off) by (apply npg_mono; lia).
      unfold off in Hle. rewrite npg_add, npg_mul in Hle. lia.
  - rewrite bind_Ok. exists (set_metapage rel m'). cbv zeta. split; [done|]. split; [done|].
    destruct data as [|b data]; [|rewrite zlen_cons in Hz; pose proof (zlen_nonneg data); lia]. split.
    + split; [apply mul_aligned|lia|cbn; rewrite Hnp; unfold off; lia|]. intros j x Hj. done.
    + intros o d Hr. pose proof Hr as [R1 R2 R3 R4]. apply Hmove; [done|]. apply set_metapage_keeps; [done|lia|done].
Qed.
End Append.

(** ** A stripe on disk *)

Section Stripes.
Context `{HPL : PageLayoutLaws} `{HPB : PgBitutils} `{HVE : VarattExternal} `{HBL : BlockCodecLaws}
  `{HTL : TupMacsLaws} `{HHL : HyperLogLog}.
Context (cfg : settings) (Hsr : 0 <= encoding_sample_rows cfg < 2 ^ 31) (Hgain : 0 <= fsst_min_gain_percent cfg <= 99).
Context (w : writer) (types : list coltype) (B : Z) (Hw : writer_ok w types B).
Local Abbreviation bpp := COLUMNAR_BYTES_PER_PAGE.

Let ncols := length (w_columns w).
Let limit := w_stripeRowLimit w.
Let sid := w_storageId w.

(** The most bytes a stripe takes. *)
Definition stripe_bytes : Z := Z.of_nat (length (w_columns w)) * (w_stripeRowLimit w * (B + 1)).

Definition column_as (cur : list (list row)) (c : nat) (wc : write_column) (ct : coltype) (o : option flushed_column) : Prop :=
  if wc_generated wc then o = None
  else exists f stats, o = Some (flushed_of cur c wc ct stats f) /\
    column_flushed cfg (length <$> cur) (flushed_of cur c wc ct stats f).

(** The stripe [cur], the [k]-th of the table, as the row group [fg]. *)
Record stripe_stored (k : nat) (cur : list (list row)) (fg : flushed_group) : Prop := {
  ss_group : rg_groupNumber (fg_meta fg) = 1 + Z.of_nat k;
  ss_storage : rg_storageId (fg_meta fg) = sid;
  ss_first : rg_firstRowNumber (fg_meta fg) = 1 + Z.of_nat k * limit;
  ss_count : rg_rowCount (fg_meta fg) = zlen (concat cur);
  ss_length : rg_byteLength (fg_meta fg) = zlen (group_data (fg_results fg));
  ss_lens : fg_lens fg = length <$> cur;
  ss_ncols : length (fg_columns fg) = ncols;
  ss_columns : forall c wc ct, w_columns w !! c = Some wc -> types !! c = Some ct ->
    exists o, fg_columns fg !! c = Some o /\ column_as cur c wc ct o;
  ss_rows : 0 < zlen (concat cur) <= limit;
  ss_nonempty : Forall (fun rows => rows <> []) cur;
  ss_bytes : zlen (group_data (fg_results fg)) <= stripe_bytes
}.

Lemma stripe_columns cur fs : length fs = ncols ->
  (forall c wc ct f, w_columns w !! c = Some wc -> types !! c = Some ct -> fs !! c = Some f -> column_done cfg w B cur c wc ct f) ->
  exists cols, Forall2 same_flush fs cols /\
    forall c wc ct, w_columns w !! c = Some wc -> types !! c = Some ct ->
      exists o, cols !! c = Some o /\ column_as cur c wc ct o.
Proof using Hw.
  intros Hl Hall.
  destruct (list_choice (fun c o => forall wc ct f, w_columns w !! c = Some wc -> types !! c = Some ct -> fs !! c = Some f ->
    same_flush f o /\ column_as cur c wc ct o) ncols) as (cols & Hlc & Hcols).
  { intros c Hc. destruct (lookup_lt_is_Some_2 (w_columns w) c Hc) as [wc Hwc].
    destruct (column_type w types B Hw c wc Hwc) as [ct Hct]. destruct (lookup_lt_is_Some_2 fs c) as [f Hf]; [lia|].
    pose proof (Hall c wc ct f Hwc Hct Hf) as Hd. unfold column_done in Hd. unfold column_as.
    destruct (wc_generated wc) eqn:Eg.
    - exists None. intros ??? E1 E2 E3. rewrite Hwc in E1. injection E1 as <-. rewrite Hf in E3. injection E3 as <-.
      rewrite Eg. by subst f.
    - destruct Hd as (f' & stats & -> & Hfl & _). exists (Some (flushed_of cur c wc ct stats f')).
      intros ??? E1 E2 E3. rewrite Hwc in E1. injection E1 as <-. rewrite Hct in E2. injection E2 as <-.
      rewrite Hf in E3. injection E3 as <-. rewrite Eg. split; [done|]. by exists f', stats. }
  exists cols. split.
  - apply Forall2_same_length_lookup_2; [lia|]. intros c f o Hf Ho. pose proof (lookup_lt_Some _ _ _ Hf) as Hlt.
    destruct (lookup_lt_is_Some_2 (w_columns w) c) as [wc Hwc]; [unfold ncols in *; lia|].
    destruct (column_type w types B Hw c wc Hwc) as [ct Hct]. by apply (Hcols c o Ho wc ct f).
  - intros c wc ct Hwc Hct. pose proof (lookup_lt_Some _ _ _ Hwc) as Hlt. destruct (lookup_lt_is_Some_2 fs c) as [f Hf]; [unfold ncols in *; lia|].
    destruct (lookup_lt_is_Some_2 cols c) as [o Ho]; [unfold ncols in *; lia|]. exists o. split; [done|].
    by apply (Hcols c o Ho wc ct f).
Qed.

(** The parts of a stored stripe the reader's lemmas ask for. *)
Lemma stripe_lens k cur fg : stripe_stored k cur fg ->
  Z.of_nat (sum_list (fg_lens fg)) = zlen (concat cur) /\ 0 < Z.of_nat (length (fg_lens fg)) <= limit /\
  Forall (fun n => (0 < n)%nat) (fg_lens fg).
Proof using.
  intros Hs. rewrite (ss_lens _ _ _ Hs). pose proof (ss_rows _ _ _ Hs) as Hr. pose proof (ss_nonempty _ _ _ Hs) as Hne.
  assert (Hp : Forall (fun n => (0 < n)%nat) (length <$> cur)).
  { rewrite Forall_fmap. eapply list.Forall_impl; [exact Hne|]. intros [|x l]; cbn; [done|lia]. }
  split; [apply sum_lens|]. split; [|done]. rewrite length_fmap. split.
  - destruct cur; [unfold zlen in Hr; cbn in Hr; lia|cbn; lia].
  - assert (Hle : Z.of_nat (length cur) <= zlen (concat cur)); [|lia]. clear -Hne. induction Hne as [|rows cur Hr _ IH]; [done|].
    cbn [concat length]. rewrite zlen_app. destruct rows; [done|]. rewrite zlen_cons. pose proof (zlen_nonneg rows). lia.
Qed.

(** The columns of the stripe. *)
Lemma stripe_column k cur fg c fc : stripe_stored k cur fg -> fg_columns fg !! c = Some (Some fc) ->
  exists wc ct f stats, w_columns w !! c = Some wc /\ types !! c = Some ct /\ wc_generated wc = false /\
    fc = flushed_of cur c wc ct stats f /\ column_flushed cfg (fg_lens fg) fc.
Proof using Hw.
  intros Hs Hfc. destruct (lookup_lt_is_Some_2 (w_columns w) c) as [wc Hwc].
  { fold ncols. rewrite <- (ss_ncols _ _ _ Hs). by eapply lookup_lt_Some. }
  destruct (column_type w types B Hw c wc Hwc) as [ct Hct]. destruct (ss_columns _ _ _ Hs c wc ct Hwc Hct) as (o & Ho & Ha).
  rewrite Hfc in Ho. injection Ho as <-. unfold column_as in Ha. destruct (wc_generated wc) eqn:Eg; [done|].
  destruct Ha as (f & stats & [= ->] & Hfl). exists wc, ct, f, stats. by rewrite (ss_lens _ _ _ Hs).
Qed.

Lemma stripe_clean k cur fg : stripe_stored k cur fg -> rows_clean fg.
Proof using Hw.
  intros Hs. split.
  - rewrite (ss_ncols _ _ _ Hs). apply (wo_columns _ _ _ Hw).
  - intros c fc Hfc. destruct (stripe_column _ _ _ _ _ Hs Hfc) as (wc & ct & f & stats & _ & _ & _ & _ & Hfl).
    destruct (flushed_clean _ _ _ Hfl) as (-> & Hz). split; [|done].
    destruct (stripe_lens _ _ _ Hs) as (_ & Hl & _). pose proof (wo_stripe _ _ _ Hw). unfold limit in *. lia.
Qed.

(** A plan over the writer's table. *)
Record plan_of (plan : scan_plan) : Prop := {
  pf_storage : p_storageId plan = sid;
  pf_ncols : length (p_columns plan) = ncols;
  pf_atts : forall c sc wc, p_columns plan !! c = Some sc -> w_columns w !! c = Some wc -> sc_att sc = wc_att wc;
  pf_preds : forall p wc ct, p ∈ p_predicates plan -> w_columns w !! Z.to_nat (attidx p) = Some wc ->
    types !! Z.to_nat (attidx p) = Some ct ->
    pred_for (ct_dom ct) (ct_edom ct) (wc_def wc) p /\
    hash_for (mkColumn (wc_def wc) (wc_att wc) (ct_dom ct) (ct_edom ct) []) p
}.

Lemma stripe_flushed plan k cur fg : plan_of plan -> stripe_stored k cur fg ->
  group_flushed cfg plan fg /\ preds_typed plan fg.
Proof using Hw.
  intros Hp Hs. destruct (stripe_lens _ _ _ Hs) as (Hsum & Hl & Hpos). pose proof (wo_stripe _ _ _ Hw) as Hsl.
  pose proof (wo_bytes _ _ _ Hw) as Hby. pose proof (ss_bytes _ _ _ Hs) as Hb. pose proof (ss_rows _ _ _ Hs) as Hr.
  assert (Hcol : forall c fc, fg_column fg c = Some fc -> fg_columns fg !! c = Some (Some fc)).
  { intros c fc. unfold fg_column. destruct (fg_columns fg !! c) as [o|]; [|done]. cbn. by intros ->. }
  unfold limit, stripe_bytes, ncols in *. split.
  - split.
    + by rewrite (ss_ncols _ _ _ Hs), (pf_ncols _ Hp).
    + intros c sc fc Hsc Hfc%Hcol. destruct (stripe_column _ _ _ _ _ Hs Hfc) as (wc & ct & f & stats & Hwc & _ & _ & -> & Hfl).
      split; [done|]. by apply (pf_atts _ Hp c).
    + by rewrite (ss_count _ _ _ Hs), Hsum.
    + rewrite (ss_count _ _ _ Hs). lia.
    + done.
    + lia.
    + apply (ss_length _ _ _ Hs).
    + unfold MaxAllocSize. lia.
  - intros p fc Hin Hfc%Hcol. destruct (stripe_column _ _ _ _ _ Hs Hfc) as (wc & ct & f & stats & Hwc & Hct & _ & -> & _).
    by apply (pf_preds _ Hp p wc ct).
Qed.

(** ** The table and its writer *)

Context (locked coalesce : bool) (ox : Z).

(** The stripes [stripes] are on disk as the groups [fgs], the rows of [cur] in
    the buffers. *)
Record table_inv (ws : write_state) (db : database) (stripes : list (list (list row))) (cur : list (list row))
    (fgs : list flushed_group) (m : PgColumnarMetapage) : Prop := {
  ti_fork : fork_ok (db_rel db) m;
  ti_offset : reservedOffset m <= 2 * bpp + zlen stripes * (stripe_bytes + bpp);
  ti_ids : reservedStripeId m = 1 + zlen stripes + Z.b2z (ws_haveReservation ws);
  ti_numbers : reservedRowNumber m = 1 + (zlen stripes + Z.b2z (ws_haveReservation ws)) * limit;
  ti_reserved : if ws_haveReservation ws
    then ws_stripeId ws = 1 + zlen stripes /\ ws_stripeFirstRowNumber ws = 1 + zlen stripes * limit
    else cur = [];
  ti_groups : groups_hold w types B (ws_chunkGroups ws) cur;
  ti_count : ws_stripeRowCount ws = zlen (concat cur);
  ti_verdicts : length (ws_verdicts ws) = ncols;
  ti_length : length fgs = length stripes;
  ti_stored : forall k st fg, stripes !! k = Some st -> fgs !! k = Some fg -> stripe_stored k st fg;
  ti_placed : Forall (fun fg => range_holds (db_rel db) m (rg_fileOffset (fg_meta fg)) (group_data (fg_results fg))) fgs;
  ti_row_groups : db_row_group db = fg_meta <$> fgs;
  ti_free : db_free_space db = [];
  ti_tables : tables_hold sid (db_tables db) fgs
}.

Lemma stripe_numbers ws db stripes cur fgs m k fg :
  table_inv ws db stripes cur fgs m -> fgs !! k = Some fg -> (k < length stripes)%nat /\ fg_gn fg = 1 + Z.of_nat k /\ rg_storageId (fg_meta fg) = sid.
Proof using.
  intros Hi Hk. pose proof (lookup_lt_Some _ _ _ Hk) as Hlt. rewrite (ti_length _ _ _ _ _ _ Hi) in Hlt. split; [done|].
  destruct (lookup_lt_is_Some_2 stripes k Hlt) as [st Hst]. pose proof (ti_stored _ _ _ _ _ _ Hi k st fg Hst Hk) as Hs.
  split; [apply (ss_group _ _ _ Hs)|apply (ss_storage _ _ _ Hs)].
Qed.

Lemma stripe_fresh ws db stripes cur fgs m : table_inv ws db stripes cur fgs m -> 1 + zlen stripes ∉ fg_gn <$> fgs.
Proof using.
  intros Hi (fg & E & Hin)%list_elem_of_fmap_1. apply list_elem_of_lookup in Hin as (k & Hk).
  destruct (stripe_numbers _ _ _ _ _ _ _ _ Hi Hk) as (Hlt & Hg & _). unfold zlen in E. lia.
Qed.

Lemma stripe_flush_inv ws db stripes cur fgs m :
  table_inv ws db stripes cur fgs m -> 0 < zlen (concat cur) <= limit ->
  2 * bpp + (zlen stripes + 1) * (stripe_bytes + bpp) <= file_limit ->
  exists ws' db' fg m', flush_row_group cfg w locked coalesce ox false ws db = Ok (ws', db') /\
    table_inv ws' db' (stripes ++ [cur]) [] (fgs ++ [fg]) m' /\ t_delete_vector (db_tables db') = t_delete_vector (db_tables db).
Proof using Hsr Hgain Hw HPL HBL.
  intros Hi Hcur Hfit. pose proof (stripe_fresh _ _ _ _ _ _ Hi) as Hfresh.
  pose proof Hi as [I1 I2 I3 I4 I5 I6 I7 I8 I9 I10 I11 I12 I13 I14]. pose proof (wo_stripe _ _ _ Hw) as Hsl.
  pose proof bpp_bounds. pose proof file_limit_u64. pose proof (npg_bound (reservedOffset m)).
  destruct (ws_haveReservation ws) eqn:Ehr; [|subst cur; unfold zlen in Hcur; cbn in Hcur; lia]. destruct I5 as [I5a I5b].
  unfold flush_row_group. rewrite I7, (proj2 (Z.eqb_neq _ 0)) by lia.
  assert (Evb : s32 (u64 (zlen (concat cur) + 7) / 8) = (zlen (concat cur) + 7) / 8).
  { unfold limit in *. rewrite u64_small by lia. apply s32_small. div_bounds (zlen (concat cur) + 7) 8. lia. }
  rewrite Evb.
  destruct (flush_columns_spec cfg Hsr Hgain w types B Hw _ cur I6 Hcur (w_columns w) 0 (ws_verdicts ws)) as (fs & vs' & -> & Hlf & Hlv & Hdone);
    [done|done|]. rewrite bind_Ok. cbn [Nat.add] in Hdone.
  assert (Hsz : zlen (concat (chunk_bytes <$> fs)) <= stripe_bytes) by (by apply (chunk_bytes_size cfg w types B Hw cur)).
  destruct (stripe_columns cur fs Hlf) as (cols & Hsame & Hcols); [intros c wc ct f E1 E2 E3; by apply (Hdone c)|].
  rewrite I13. destruct (flush_place_append coalesce locked (db_rel db) m ox (concat (chunk_bytes <$> fs)) I1) as (rel' & E & Hf' & Hr' & Hkeep); [lia|].
  cbv zeta in E. rewrite E, bind_Ok. clear E.
  set (off := npg (reservedOffset m) * bpp) in *. set (data := concat (chunk_bytes <$> fs)) in *.
  set (rg := FreeSpace.mkRowGroup (w_storageId w) (ws_stripeId ws) off (zlen (concat cur)) (zlen data) (ws_stripeFirstRowNumber ws)).
  set (fg := mkFlushedGroup rg cols (length <$> cur)).
  assert (Ed : data = group_data (fg_results fg)) by (by apply (flush_data fs fg)).
  assert (Egn : fg_gn fg = ws_stripeId ws) by done.
  assert (Hstored : stripe_stored (length stripes) cur fg).
  { split; try done; try (cbn; by rewrite ?I5a, ?I5b).
    - cbn. by rewrite Ed.
    - cbn. rewrite <- (Forall2_length Hsame). done.
    - apply (gh_nonempty _ _ _ _ _ I6).
    - by rewrite <- Ed. }
  assert (Hclean : rows_clean fg) by (by eapply stripe_clean).
  assert (Hnew : fg_gn fg ∉ fg_gn <$> fgs) by (rewrite Egn, I5a; done).
  assert (Hoff : 0 <= rg_fileOffset (fg_meta fg)) by (cbn; unfold off; destruct I1; lia).
  assert (Hend : rg_fileOffset (fg_meta fg) + zlen (group_data (fg_results fg)) < 2 ^ 64).
  { rewrite <- Ed. cbn. unfold off. lia. }
  unfold PgColumnarInsertRowGroupRow. rewrite I12, bool_decide_false.
  2:{ intros (x & Ex & Hx)%list_elem_of_fmap_1. apply list_elem_of_fmap_1 in Hx as (fg' & -> & Hin). injection Ex as _ Ex.
      apply Hnew. rewrite Egn, Ex. by apply (list_elem_of_fmap_2 fg_gn). }
  rewrite bind_Ok. pose proof I14 as [T1 T2 T3 T4]. rewrite T1, T2, T3.
  pose proof (insert_chunks_ok w fs fg Hsame Hclean Hoff Hend fgs Hnew) as Ec.
  pose proof (insert_zones_ok w fs fg Hsame Hclean fgs Hnew) as Ez.
  pose proof (insert_blooms_ok w fs fg Hsame Hclean fgs Hnew) as Eb.
  cbn [fg_gn fg fg_meta rg rg_groupNumber rg_rowCount rg_fileOffset] in Ec, Ez, Eb.
  unfold sid. rewrite Ec, bind_Ok, Ez, bind_Ok, Eb, bind_Ok.
  eexists _, _, fg, _. split; [done|]. split; [|done].
  assert (Ezl : zlen (stripes ++ [cur]) = zlen stripes + 1) by (by rewrite zlen_app).
  split; cbn [db_rel db_row_group db_free_space db_tables ws_haveReservation ws_chunkGroups ws_stripeRowCount ws_verdicts reset_stripe Z.b2z];
    rewrite ?Ezl; try done.
  - cbn. unfold off. lia.
  - cbn. rewrite I3. cbn. lia.
  - cbn. rewrite I4. cbn. lia.
  - by rewrite !length_app, I9.
  - intros k st fg' Hst Hfg. destruct (decide (k < length stripes)%nat) as [Hlt|Hge].
    + rewrite lookup_app_l in Hst by done. rewrite lookup_app_l in Hfg by lia. by apply I10.
    + assert (k = length stripes) as -> by (apply lookup_lt_Some in Hst; rewrite length_app in Hst; cbn in Hst; lia).
      rewrite list_lookup_middle in Hst by done. injection Hst as <-. rewrite <- I9, list_lookup_middle in Hfg by done. by injection Hfg as <-.
  - apply Forall_app_2; [|apply Forall_singleton; by rewrite <- Ed].
    eapply list.Forall_impl; [exact I11|]. intros fg' Hr. by apply Hkeep.
  - by rewrite fmap_app.
  - split; try done. rewrite fmap_app. apply list.NoDup_app. split; [done|]. split; [|apply NoDup_singleton].
    intros x Hx Hx'%list_elem_of_singleton. subst x. done.
Qed.

(** There is room for another stripe: blocks in the file, and a number an [int]
    counter of row groups can take. *)
Definition has_room (stripes : Z) : Prop :=
  stripes + 1 < 2 ^ 31 /\ 2 * bpp + (stripes + 1) * (stripe_bytes + bpp) <= file_limit.

Lemma stripe_bytes_nonneg : 0 <= stripe_bytes.
Proof using Hw. pose proof (wo_size _ _ _ Hw). pose proof (wo_stripe _ _ _ Hw). unfold stripe_bytes. nia. Qed.

Lemma room_numbers stripes : 0 <= stripes -> has_room stripes -> stripes < 2 ^ 31 - 1 /\ 1 + (stripes + 1) * limit < 2 ^ 62.
Proof using Hw HPL.
  intros H0' [Hr _]. pose proof (wo_stripe _ _ _ Hw). unfold limit. split; [lia|nia].
Qed.

Lemma stripe_reserve_inv ws db stripes cur fgs m :
  table_inv ws db stripes cur fgs m -> has_room (zlen stripes) ->
  exists ws' rel' m', reserve_stripe w ws (db_rel db) = Ok (ws', rel') /\ ws_haveReservation ws' = true /\
    table_inv ws' (mkDb rel' (db_row_group db) (db_free_space db) (db_tables db)) stripes cur fgs m'.
Proof using Hw HPL.
  intros Hi Hroom. destruct (room_numbers _ (zlen_nonneg stripes) Hroom) as [Hst Hnum]. pose proof (zlen_nonneg stripes).
  pose proof Hi as [I1 I2 I3 I4 I5 I6 I7 I8 I9 I10 I11 I12 I13 I14]. unfold reserve_stripe.
  destruct (ws_haveReservation ws) eqn:Ehr.
  { exists ws, (db_rel db), m. split; [done|]. split; [done|]. split; rewrite ?Ehr; done. }
  pose proof I1 as [F1 F2 F3 F4 F5]. unfold PgColumnarReserveRowNumbers. rewrite F1, !bind_Ok. cbn [Z.b2z] in I3, I4.
  pose proof (wo_stripe _ _ _ Hw). unfold limit in *. rewrite !u64_small by lia.
  set (m' := mkMeta _ _ _ _ _ _ _). eexists _, _, m'. split; [done|]. split; [done|].
  split; cbn [db_rel db_row_group db_free_space db_tables ws_haveReservation ws_chunkGroups ws_stripeRowCount ws_verdicts
    ws_stripeId ws_stripeFirstRowNumber Z.b2z reservedOffset reservedStripeId reservedRowNumber m']; try done.
  - split; try done; [by eapply set_metapage_read|by rewrite zlen_set_metapage].
  - lia.
  - unfold limit. lia.
  - unfold limit. lia.
  - eapply list.Forall_impl; [exact I11|]. intros fg [R1 R2 R3 R4]. split; try done. pose proof bpp_bounds.
    apply set_metapage_keeps; [done|lia|done].
Qed.

(** The row's number, and what the table holds after it. *)
Definition row_number (stripes : list (list (list row))) (cur : list (list row)) : Z :=
  1 + zlen stripes * w_stripeRowLimit w + zlen (concat cur).

Lemma write_inv ws db stripes cur fgs m r :
  table_inv ws db stripes cur fgs m -> has_room (zlen stripes) -> zlen (concat cur) < limit -> row_ok w types B r ->
  let cur' := add_row w cur r in
  exists ws' db', PgColumnarWriteRow cfg w locked coalesce ox ws db r = Ok (row_number stripes cur, ws', db') /\
    t_delete_vector (db_tables db') = t_delete_vector (db_tables db) /\
    if limit <=? zlen (concat cur') then exists fg m', table_inv ws' db' (stripes ++ [cur']) [] (fgs ++ [fg]) m'
    else exists m', table_inv ws' db' stripes cur' fgs m'.
Proof using Hsr Hgain Hw HPL HBL.
  intros Hi Hroom Hlt Hr cur'. destruct (room_numbers _ (zlen_nonneg stripes) Hroom) as [Hst Hnum].
  pose proof (wo_stripe _ _ _ Hw) as Hsl. pose proof (zlen_nonneg stripes). pose proof (zlen_nonneg (concat cur)).
  destruct (stripe_reserve_inv _ _ _ _ _ _ Hi Hroom) as (ws1 & rel1 & m1 & Eres & Ehr & Hi1).
  pose proof Hi1 as [I1 I2 I3 I4 I5 I6 I7 I8 I9 I10 I11 I12 I13 I14]. rewrite Ehr in I3, I4, I5. destruct I5 as [I5a I5b].
  unfold PgColumnarWriteRow. rewrite Eres, bind_Ok. unfold limit in *.
  destruct (append_row_spec w types B Hw _ _ r I6 Hr) as (groups & -> & Hg); [lia|]. rewrite bind_Ok. fold cur' in Hg.
  assert (Ecur : zlen (concat cur') = zlen (concat cur) + 1) by (unfold cur'; by rewrite concat_add_row, zlen_app).
  rewrite I7, I5b, (u64_small (zlen (concat cur) + 1)), u64_small by nia. cbn [ws_stripeRowCount].
  set (ws2 := mkWriteState _ _ _ _ _ _ _).
  assert (Hi2 : table_inv ws2 (mkDb rel1 (db_row_group db) (db_free_space db) (db_tables db)) stripes cur' fgs m1).
  { split; rewrite ?Ehr; try done; [rewrite ?Ecur; unfold ws2; cbn; rewrite ?Ehr; done..]. }
  rewrite <- Ecur. destruct (Z.leb_spec (w_stripeRowLimit w) (zlen (concat cur'))) as [Hfull|Hmore].
  - destruct (stripe_flush_inv _ _ _ _ _ _ Hi2) as (ws' & db' & fg & m' & E & Hi' & Hdv); [unfold limit; lia|apply Hroom|].
    rewrite E, bind_Ok. exists ws', db'. split; [done|]. split; [done|]. by exists fg, m'.
  - eexists _, _. split; [done|]. split; [done|]. by exists m1.
Qed.

(** ** Sequences of writes *)

Inductive write_op := WriteRow (r : row) | FlushRows.

Definition write_step (ws : write_state) (db : database) (o : write_op) : res (list Z * write_state * database) :=
  match o with
  | WriteRow r => ' (n, ws, db) ← PgColumnarWriteRow cfg w locked coalesce ox ws db r; Ok ([n], ws, db)
  | FlushRows => ' (ws, db) ← flush_row_group cfg w locked coalesce ox false ws db; Ok ([], ws, db)
  end.

(** The numbers of the rows written, and the state after. *)
Fixpoint write_ops (ws : write_state) (db : database) (ops : list write_op) : res (list Z * write_state * database) :=
  match ops with
  | [] => Ok ([], ws, db)
  | o :: ops =>
      ' (ns, ws, db) ← write_step ws db o;
      ' (ns', ws, db) ← write_ops ws db ops;
      Ok (ns ++ ns', ws, db)
  end.

(** What they mean: the stripes written out and the rows not yet written out. *)
Definition spec_step (st : list (list row) * list row) (o : write_op) : list (list row) * list row :=
  match o with
  | WriteRow r => let cur := st.2 ++ [r] in
                  if w_stripeRowLimit w <=? zlen cur then (st.1 ++ [cur], []) else (st.1, cur)
  | FlushRows => match st.2 with [] => st | cur => (st.1 ++ [cur], []) end
  end.
Definition spec_numbers (st : list (list row) * list row) (o : write_op) : list Z :=
  match o with WriteRow _ => [1 + zlen st.1 * w_stripeRowLimit w + zlen st.2] | FlushRows => [] end.
Fixpoint spec_ops (st : list (list row) * list row) (ops : list write_op) : list Z * (list (list row) * list row) :=
  match ops with
  | [] => ([], st)
  | o :: ops => let '(ns, st') := spec_ops (spec_step st o) ops in (spec_numbers st o ++ ns, st')
  end.

Lemma spec_grows ops : forall st, zlen st.1 <= zlen (spec_ops st ops).2.1.
Proof using.
  induction ops as [|o ops IH]; intros st; [done|]. cbn [spec_ops]. specialize (IH (spec_step st o)).
  destruct (spec_ops (spec_step st o) ops) as [ns st']. cbn in *. etrans; [|exact IH].
  destruct o as [r|]; cbn.
  - destruct (_ <=? _); cbn; rewrite ?zlen_app; unfold zlen; cbn; lia.
  - destruct st.2; [done|]. cbn. rewrite zlen_app. unfold zlen; cbn; lia.
Qed.

Definition op_ok (o : write_op) : Prop := match o with WriteRow r => row_ok w types B r | FlushRows => True end.

Definition stripe_rows (stripes : list (list (list row))) : list (list row) := @concat row <$> stripes.

Lemma stripe_rows_snoc stripes cur : stripe_rows (stripes ++ [cur]) = stripe_rows stripes ++ [concat cur].
Proof using. unfold stripe_rows. by rewrite fmap_app. Qed.

(** The table after some writes. *)
Definition table_after (ws : write_state) (db : database) (st : list (list row) * list row) : Prop :=
  exists stripes cur fgs m, table_inv ws db stripes cur fgs m /\ zlen (concat cur) < limit /\
    st = (stripe_rows stripes, concat cur).

Lemma has_room_le a b : a <= b -> has_room b -> has_room a.
Proof using Hw HPL. intros Hab. unfold has_room. pose proof stripe_bytes_nonneg. pose proof bpp_bounds. nia. Qed.

Lemma step_after ws db st o :
  table_after ws db st -> has_room (zlen st.1) -> op_ok o ->
  exists ws' db', write_step ws db o = Ok (spec_numbers st o, ws', db') /\ table_after ws' db' (spec_step st o) /\
    t_delete_vector (db_tables db') = t_delete_vector (db_tables db).
Proof using Hsr Hgain Hw HPL HBL.
  intros (stripes & cur & fgs & m & Hi & Hlt & ->) Hroom Ho. cbn [fst] in Hroom.
  assert (El : forall l : list (list (list row)), zlen (stripe_rows l) = zlen l) by (intros l; unfold zlen, stripe_rows; by rewrite length_fmap).
  rewrite El in Hroom. pose proof (wo_stripe _ _ _ Hw) as Hsl.
  assert (Hz : zlen (concat (@nil (list row))) < limit) by (unfold zlen, limit; cbn; lia).
  destruct o as [r|]; cbn [write_step spec_step spec_numbers fst snd].
  - destruct (write_inv _ _ _ _ _ _ r Hi Hroom Hlt Ho) as (ws' & db' & -> & Hdv & Hinv). rewrite bind_Ok, El.
    exists ws', db'. split; [done|]. split; [|done]. rewrite concat_add_row in Hinv. unfold limit in Hinv.
    destruct (Z.leb_spec (w_stripeRowLimit w) (zlen (concat cur ++ [r]))) as [Hfull|Hmore].
    + destruct Hinv as (fg & m' & Hi'). exists (stripes ++ [add_row w cur r]), [], (fgs ++ [fg]), m'.
      by rewrite stripe_rows_snoc, concat_add_row.
    + destruct Hinv as (m' & Hi'). exists stripes, (add_row w cur r), fgs, m'. rewrite concat_add_row. done.
  - destruct (concat cur) as [|r rows] eqn:Ec.
    + exists ws, db. pose proof (ti_count _ _ _ _ _ _ Hi) as Ecnt. rewrite Ec in Ecnt. unfold flush_row_group. rewrite Ecnt. cbn.
      split; [done|]. split; [|done]. exists stripes, cur, fgs, m. by rewrite Ec.
    + destruct (stripe_flush_inv _ _ _ _ _ _ Hi) as (ws' & db' & fg & m' & -> & Hi' & Hdv); [|apply Hroom|].
      { rewrite Ec in *. rewrite zlen_cons in *. pose proof (zlen_nonneg rows). lia. }
      rewrite bind_Ok. exists ws', db'. split; [done|]. split; [|done].
      exists (stripes ++ [cur]), [], (fgs ++ [fg]), m'. by rewrite stripe_rows_snoc, Ec.
Qed.

Lemma ops_after ops : forall ws db st,
  table_after ws db st -> has_room (zlen (spec_ops st ops).2.1) -> Forall op_ok ops ->
  exists ws' db', write_ops ws db ops = Ok ((spec_ops st ops).1, ws', db') /\ table_after ws' db' (spec_ops st ops).2 /\
    t_delete_vector (db_tables db') = t_delete_vector (db_tables db).
Proof using Hsr Hgain Hw HPL HBL.
  induction ops as [|o ops IH]; intros ws db st Ha Hroom Hok; [by exists ws, db|].
  apply Forall_cons_1 in Hok as [Ho Hok]. cbn [write_ops].
  destruct (step_after ws db st o Ha) as (ws1 & db1 & -> & Ha1 & Hdv1); [|done|].
  { eapply has_room_le; [|exact Hroom]. apply spec_grows. }
  rewrite bind_Ok. cbn [spec_ops] in *. specialize (IH ws1 db1 (spec_step st o) Ha1).
  destruct (spec_ops (spec_step st o) ops) as [ns st']. destruct IH as (ws' & db' & -> & Ha' & Hdv); [done|done|].
  rewrite bind_Ok. exists ws', db'. split; [done|]. split; [done|]. congruence.
Qed.

(** A table just created, and a write state just begun. *)
Definition new_table (dvs : list DeleteVectorRow) : database :=
  mkDb (PgColumnarWriteNewMetapage (w_storageId w)) [] [] (Catalog.mkTables [] [] [] dvs).
Definition begin_write (verdicts : list verdict) : write_state := mkWriteState verdicts [] 0 false 0 0 [].

Lemma new_table_after verdicts dvs : length verdicts = ncols ->
  table_after (begin_write verdicts) (new_table dvs) ([], []).
Proof using Hw HPL.
  intros Hv. pose proof (wo_stripe _ _ _ Hw). pose proof bpp_bounds.
  exists [], [], [], (mkMeta COLUMNAR_VERSION_MAJOR COLUMNAR_VERSION_MINOR sid 1 COLUMNAR_FIRST_ROW_NUMBER COLUMNAR_FIRST_LOGICAL_OFFSET false).
  split; [|split; [unfold limit, zlen; cbn; lia|done]]. unfold COLUMNAR_FIRST_LOGICAL_OFFSET.
  split; cbn; try done.
  - split; cbn; try done. unfold file_limit. nia.
  - unfold zlen; cbn. lia.
  - split; try done. by apply NoDup_nil_2.
Qed.

(** ** What a scan of the table returns *)

(** A value as the scan returns it. *)
Definition read_value (sc : scan_column) (wc : write_column) (v : option Datum) : option Datum :=
  if sc_wanted sc then if wc_generated wc then sc_missing sc else stored_datum (attlen (wc_att wc)) <$> v else None.
Definition read_row (plan : scan_plan) (r : row) : row :=
  imap (fun c sc => w_columns w !! c ≫= fun wc => read_value sc wc (mjoin (r !! c))) (p_columns plan).

(** The visible rows of a stripe, from its row [i] on. *)
Fixpoint visible_from (plan : scan_plan) (tables : GroupTables) (rg : FreeSpace.NativeRowGroupMetadata) (i : Z)
    (rows : list row) : list (Z * row) :=
  match rows with
  | [] => []
  | r :: rows =>
      let rest := visible_from plan tables rg (i + 1) rows in
      match row_visible plan tables rg i (read_row plan r) with Some x => x :: rest | None => rest end
  end.

(** The [k]-th stripe's row group; where its bytes are plays no part in what is
    visible. *)
Definition stripe_group (k : nat) (rows : list row) : FreeSpace.NativeRowGroupMetadata :=
  FreeSpace.mkRowGroup (w_storageId w) (1 + Z.of_nat k) 0 (zlen rows) 0 (1 + Z.of_nat k * w_stripeRowLimit w).

Definition stripe_admitted (plan : scan_plan) (k : nat) : bool :=
  match p_restrictGroups plan with
  | Some groups => bool_decide (1 + Z.of_nat k ∈ groups)
  | None => true
  end.

Definition visible_stripes (plan : scan_plan) (tables : GroupTables) (stripes : list (list row)) : list (Z * row) :=
  concat (imap (fun k rows => if stripe_admitted plan k then visible_from plan tables (stripe_group k rows) 0 rows else []) stripes).

Lemma visible_from_app plan tables rg rows rows' : forall i,
  visible_from plan tables rg i (rows ++ rows') = visible_from plan tables rg i rows ++ visible_from plan tables rg (i + zlen rows) rows'.
Proof using.
  induction rows as [|r rows IH]; intros i; cbn [visible_from app]; [by rewrite zlen_nil, Z.add_0_r|].
  rewrite IH, zlen_cons. replace (i + (1 + zlen rows)) with (i + 1 + zlen rows) by lia. by destruct (row_visible _ _ _ _ _).
Qed.

Lemma visible_from_seq plan tables rg i f rows : forall a,
  (forall j r, rows !! j = Some r -> f (a + j)%nat = row_visible plan tables rg (i + Z.of_nat j) (read_row plan r)) ->
  omap f (seq a (length rows)) = visible_from plan tables rg i rows.
Proof using.
  revert i. induction rows as [|r rows IH]; intros i a Hf; [done|]. cbn [length seq visible_from].
  pose proof (Hf 0%nat r eq_refl) as E0. rewrite Nat.add_0_r, Z.add_0_r in E0. cbn. rewrite E0.
  rewrite (IH (i + 1) (S a)); [done|]. intros j r' Hj. replace (S a + j)%nat with (a + S j)%nat by lia.
  rewrite (Hf (S j) r' Hj). f_equal. lia.
Qed.

Lemma read_written plan k cur fg v j rows r : plan_of plan -> stripe_stored k cur fg ->
  cur !! v = Some rows -> rows !! j = Some r -> written_row plan fg v j = read_row plan r.
Proof using Hw.
  intros Hp Hs Hv Hj. apply list_eq. intros c. unfold written_row, read_row. rewrite lookup_zip_with, list_lookup_imap.
  destruct (p_columns plan !! c) as [sc|] eqn:Hsc; [|done]. cbn.
  destruct (lookup_lt_is_Some_2 (w_columns w) c) as [wc Hwc].
  { fold ncols. rewrite <- (pf_ncols _ Hp). by eapply lookup_lt_Some. }
  destruct (column_type w types B Hw c wc Hwc) as [ct Hct]. destruct (ss_columns _ _ _ Hs c wc ct Hwc Hct) as (o & Ho & Ha).
  rewrite Ho, Hwc. cbn. f_equal. unfold written_value, read_value. destruct (sc_wanted sc); [|done]. unfold column_as in Ha.
  destruct (wc_generated wc); [by subst o|]. destruct Ha as (f & stats & -> & _). cbn.
  rewrite list_lookup_fmap, Hv. cbn. unfold column_of. rewrite list_lookup_fmap, Hj. cbn.
  rewrite (pf_atts _ Hp c sc wc Hsc Hwc). by destruct (mjoin (r !! c)).
Qed.

Lemma stripe_visible plan tables k cur fg : plan_of plan -> stripe_stored k cur fg ->
  visible_rows plan tables fg = visible_from plan tables (stripe_group k (concat cur)) 0 (concat cur).
Proof using Hw.
  intros Hp Hs. unfold visible_rows. rewrite (ss_lens _ _ _ Hs), length_fmap.
  assert (Hgen : forall pre suf, cur = pre ++ suf ->
    concat ((fun v => omap (visible_row plan tables fg v) (seq 0 ((length <$> cur) !!! v))) <$> seq (length pre) (length suf))
    = visible_from plan tables (stripe_group k (concat cur)) (zlen (concat pre)) (concat suf)).
  { intros pre suf. revert pre. induction suf as [|rows suf IH]; intros pre Ecur; [done|]. cbn [length seq fmap list_fmap concat].
    rewrite visible_from_app. f_equal.
    - assert (Hrows : cur !! length pre = Some rows) by (rewrite Ecur; by apply list_lookup_middle).
      rewrite (list_lookup_total_correct _ _ (length rows)) by (by rewrite list_lookup_fmap, Hrows).
      apply visible_from_seq. intros j r Hj. cbn [Nat.add]. unfold visible_row. rewrite (read_written _ _ _ _ _ _ _ _ Hp Hs Hrows Hj).
      assert (Est : vstart (fg_lens fg) (length pre) = zlen (concat pre)).
      { unfold vstart. rewrite (ss_lens _ _ _ Hs), <- fmap_take, Ecur, take_app_length. apply sum_lens. }
      rewrite Est. unfold row_visible, group_deletes, group_dead, group_deletes. cbn.
      by rewrite (ss_group _ _ _ Hs), (ss_count _ _ _ Hs), (ss_first _ _ _ Hs).
    - specialize (IH (pre ++ [rows])). rewrite length_app, Nat.add_1_r in IH. rewrite IH by (by rewrite <- app_assoc).
      f_equal. rewrite concat_app, zlen_app. cbn. by rewrite app_nil_r. }
  apply (Hgen [] cur eq_refl).
Qed.

Lemma visible_from_length plan tables rg rows : forall i, (length (visible_from plan tables rg i rows) <= length rows)%nat.
Proof using.
  induction rows as [|r rows IH]; intros i; cbn [visible_from length]; [lia|]. specialize (IH (i + 1)).
  destruct (row_visible _ _ _ _ _); cbn [length]; lia.
Qed.

Lemma visible_stripes_length plan tables stripes :
  (length (visible_stripes plan tables stripes) <= length (concat stripes))%nat.
Proof using.
  unfold visible_stripes. generalize (stripe_admitted plan) as f. generalize stripe_group as g.
  induction stripes as [|rows stripes IH]; intros g f; [done|]. rewrite imap_cons. cbn [concat]. rewrite !length_app.
  specialize (IH (g ∘ S) (f ∘ S)). pose proof (visible_from_length plan tables (g 0%nat rows) rows 0).
  cbn in *. unfold compose in *. destruct (f 0%nat); cbn [length] in *; lia.
Qed.

Section After.
Context (ws : write_state) (db : database) (stripes : list (list (list row))) (cur : list (list row))
  (fgs : list flushed_group) (m : PgColumnarMetapage).
Context (Hi : table_inv ws db stripes cur fgs m).

Lemma groups_in_order : PgColumnarReadRowGroupList (db_row_group db) sid = fg_meta <$> fgs.
Proof using Hi.
  apply (index_scan_run rg_groupNumber (fun rg => rg_storageId rg = sid)).
  - rewrite (ti_row_groups _ _ _ _ _ _ Hi).
    rewrite filter_all; [done|]. intros rg (fg & -> & Hin)%list_elem_of_fmap_1. apply list_elem_of_lookup in Hin as (k & Hk).
    by destruct (stripe_numbers _ _ _ _ _ _ _ _ Hi Hk) as (_ & _ & ?).
  - assert (E : rg_groupNumber <$> (fg_meta <$> fgs) = seqZ 1 (zlen fgs)).
    { rewrite <- list_fmap_compose. apply list_eq. intros k. rewrite list_lookup_fmap.
      destruct (fgs !! k) as [fg|] eqn:Hk.
      - destruct (stripe_numbers _ _ _ _ _ _ _ _ Hi Hk) as (_ & Hg & _). apply lookup_lt_Some in Hk.
        rewrite lookup_seqZ_lt by (unfold zlen; lia). cbn. by rewrite <- Hg.
      - apply lookup_ge_None in Hk. by rewrite lookup_seqZ_ge by (unfold zlen; lia). }
    rewrite E. apply seqZ_sorted.
Qed.

Context (plan : scan_plan) (Hp : plan_of plan) (tables : GroupTables) (Ht : tables_hold sid tables fgs).

Lemma table_ready : Forall (group_ready cfg plan tables (db_rel db)) fgs.
Proof using Hi Hp Ht Hw HPL.
  apply Forall_lookup_2. intros k fg Hk. destruct (stripe_numbers _ _ _ _ _ _ _ _ Hi Hk) as (Hlt & _).
  destruct (lookup_lt_is_Some_2 stripes k Hlt) as [st Hst]. pose proof (ti_stored _ _ _ _ _ _ Hi k st fg Hst Hk) as Hs.
  destruct (stripe_flushed plan k st fg Hp Hs) as [Hf Hpt].
  pose proof (Forall_lookup_1 _ _ _ _ (ti_placed _ _ _ _ _ _ Hi) Hk) as [R1 R2 R3 R4]. pose proof bpp_bounds.
  pose proof (npg_limit _ (fo_high _ _ (ti_fork _ _ _ _ _ _ Hi))). unfold file_limit in *.
  split; [done|]. split; [|split; [|done]].
  - split; [lia|lia|done].
  - apply (group_read_back sid tables fgs Ht fg); [by eapply list_elem_of_lookup_2|by eapply stripe_clean|apply (pf_storage _ Hp)|].
    by rewrite (ss_ncols _ _ _ Hs), (pf_ncols _ Hp).
Qed.

Lemma table_visible : visible_table plan tables fgs = visible_stripes plan tables (stripe_rows stripes).
Proof using Hi Hp Hw.
  unfold visible_table, visible_stripes, stripe_rows. rewrite imap_fmap. f_equal.
  apply imap_lookup_eq; [apply (ti_length _ _ _ _ _ _ Hi)|]. intros k fg st Hk Hst.
  pose proof (ti_stored _ _ _ _ _ _ Hi k st fg Hst Hk) as Hs. cbn. rewrite (stripe_visible plan tables k st fg Hp Hs).
  unfold group_admitted, stripe_admitted. by rewrite (ss_group _ _ _ Hs).
Qed.

Lemma table_row_count : stored_rows fgs = length (concat (stripe_rows stripes)).
Proof using Hi.
  pose proof (ti_length _ _ _ _ _ _ Hi) as Hl. pose proof (ti_stored _ _ _ _ _ _ Hi) as Hall. unfold stored_rows, stripe_rows.
  assert (E : (fun fg => sum_list (fg_lens fg)) <$> fgs = imap (fun _ st => length (concat st)) stripes).
  { apply imap_lookup_eq; [done|]. intros k fg st Hk Hst. destruct (stripe_lens _ _ _ (Hall k st fg Hst Hk)) as (Hs & _).
    unfold zlen in Hs. lia. }
  rewrite E. clear. induction stripes as [|st l IH]; [done|]. cbn. rewrite length_app. by f_equal.
Qed.
End After.
End Stripes.
