(* ===== verification/InsertScan.v ===== *)
(** * The table as its users see it

    The writer and the reader together: what a scan returns is what was written,
    whatever encodings, compression, zone maps, bloom filters and skipping were
    involved in between. *)

From stdpp Require Import sorting.
From S2P Require Import Prelude BitPack BitStream Codec Varlena BitSet Bloom Compress Encdesc Chunk Fsst Flush NativeRead.
From S2P Require Import Value ZoneMap Catalog GroupSkip Storage FreeSpace Reclaim RowGroup.
From S2P Require Import Scan ScanRows ScanLoad ScanSkip ScanGroup ScanTable ScanWritten WriteRows WriteCatalog Insert.

(** ** Numbered rows *)

Lemma fmap_concat {A B} (f : A -> B) (l : list (list A)) : fmap (M:=list) f (concat l) = concat (fmap (M:=list) (fun x : list A => fmap (M:=list) f x) l).
Proof. induction l as [|x l IH]; [done|]. cbn. by rewrite fmap_app, IH. Qed.

Section Numbers.
Context (w : writer).

Definition stripes_of (ops : list write_op) : list (list row) := (spec_ops w ([], []) ops).2.1.
Definition numbers_of (ops : list write_op) : list Z := (spec_ops w ([], []) ops).1.
Definition rows_of (ops : list write_op) : list row :=
  omap (fun o => match o with WriteRow r => Some r | FlushRows => None end) ops.

Definition numbered_stripe (k : nat) (rows : list row) : list (Z * row) :=
  imap (fun i r => (1 + Z.of_nat k * w_stripeRowLimit w + Z.of_nat i, r)) rows.
Definition numbered (st : list (list row) * list row) : list (Z * row) :=
  concat (imap numbered_stripe st.1) ++ numbered_stripe (length st.1) st.2.

Lemma numbered_stripe_snoc k rows r :
  numbered_stripe k (rows ++ [r]) = numbered_stripe k rows ++ [(1 + Z.of_nat k * w_stripeRowLimit w + zlen rows, r)].
Proof. unfold numbered_stripe. rewrite imap_app. cbn. by rewrite Nat.add_0_r. Qed.

Lemma numbered_flush stripes cur : numbered (stripes ++ [cur], []) = numbered (stripes, cur).
Proof. unfold numbered. cbn [fst snd]. rewrite imap_app, concat_app. cbn. by rewrite Nat.add_0_r, !app_nil_r. Qed.

Lemma numbered_step st o : numbered (spec_step w st o) = numbered st ++ zip (spec_numbers w st o) (rows_of [o]).
Proof.
  destruct st as [stripes cur], o as [r|]; cbn [spec_step spec_numbers fst snd].
  - assert (E : numbered (stripes, cur ++ [r]) = numbered (stripes, cur) ++ [(1 + zlen stripes * w_stripeRowLimit w + zlen cur, r)]).
    { unfold numbered. cbn [fst snd]. by rewrite numbered_stripe_snoc, app_assoc. }
    destruct (_ <=? _); [by rewrite numbered_flush|done].
  - rewrite app_nil_r. destruct cur as [|r cur]; [done|]. by rewrite numbered_flush.
Qed.

Lemma zip_app_l {A B} (l1 l2 : list A) (k1 k2 : list B) : length l1 = length k1 ->
  zip (l1 ++ l2) (k1 ++ k2) = zip l1 k1 ++ zip l2 k2.
Proof. intros Hl. by rewrite zip_with_app. Qed.

(** The rows written, in order, with the numbers they were given. *)
Lemma numbered_ops ops : forall st,
  numbered (spec_ops w st ops).2 = numbered st ++ zip (spec_ops w st ops).1 (rows_of ops).
Proof.
  induction ops as [|o ops IH]; intros st; [by rewrite app_nil_r|]. cbn [spec_ops]. specialize (IH (spec_step w st o)).
  destruct (spec_ops w (spec_step w st o) ops) as [ns st']. cbn [fst snd] in *. rewrite IH, numbered_step, <- app_assoc.
  f_equal. rewrite <- zip_app_l by (by destruct o). by destruct o.
Qed.

Lemma spec_ops_snoc ops o : forall st,
  spec_ops w st (ops ++ [o]) = ((spec_ops w st ops).1 ++ spec_numbers w (spec_ops w st ops).2 o, spec_step w (spec_ops w st ops).2 o).
Proof.
  induction ops as [|o' ops IH]; intros st; cbn [spec_ops app].
  - cbn. by rewrite app_nil_r.
  - rewrite IH. destruct (spec_ops w (spec_step w st o') ops) as [ns st']. cbn. by rewrite app_assoc.
Qed.

Lemma numbers_length ops : forall st, length (spec_ops w st ops).1 = length (rows_of ops).
Proof.
  induction ops as [|o ops IH]; intros st; [done|]. cbn [spec_ops]. specialize (IH (spec_step w st o)).
  destruct (spec_ops w (spec_step w st o) ops) as [ns st']. cbn [fst] in *. rewrite length_app, IH. by destruct o.
Qed.

Lemma rows_of_flush ops : rows_of (ops ++ [FlushRows]) = rows_of ops.
Proof. unfold rows_of. rewrite omap_app. cbn. apply app_nil_r. Qed.

Lemma numbered_length stripes : length (concat (imap numbered_stripe stripes)) = length (concat stripes).
Proof.
  assert (Hgen : forall a, length (concat (imap (fun k => numbered_stripe (a + k)) stripes)) = length (concat stripes)).
  { induction stripes as [|rows l IH]; intros a; [done|]. rewrite imap_cons. cbn [concat]. rewrite !length_app. f_equal.
    - apply length_imap.
    - rewrite <- (IH (S a)). do 2 f_equal. apply imap_ext. intros i x _. cbn. f_equal. lia. }
  apply (Hgen 0%nat).
Qed.

(** After a flush everything written is in a stripe. *)
Lemma flushed_numbered ops :
  concat (imap numbered_stripe (stripes_of (ops ++ [FlushRows]))) = zip (numbers_of (ops ++ [FlushRows])) (rows_of ops).
Proof.
  pose proof (numbered_ops (ops ++ [FlushRows]) ([], [])) as E. unfold stripes_of, numbers_of.
  rewrite rows_of_flush in E. cbn in E. rewrite <- E. unfold numbered. rewrite spec_ops_snoc. cbn [snd].
  destruct (spec_ops w ([], []) ops).2 as [stripes [|r cur]]; cbn; by rewrite app_nil_r.
Qed.
End Numbers.

(** ** The theorems *)

(** A scan that has just begun over these row groups. *)
Record scan_begun (plan : scan_plan) (groups : list FreeSpace.NativeRowGroupMetadata) (rs : read_state) : Prop := {
  sb_groups : rs_rowGroupList rs = groups;
  sb_counter : counter_index (rs_counter rs) = 0;
  sb_order : order_ok (p_predicates plan) (rs_order rs);
  sb_group : rs_group rs = None;
  sb_more : rs_exhausted rs = false
}.

(** The row groups' tables with the deletes made since. *)
Definition with_deletes (t : GroupTables) (dvs : list DeleteVectorRow) : GroupTables :=
  Catalog.mkTables (t_column_chunk t) (t_zone_map t) (t_bloom t) dvs.

Section Table.
Context `{HPL : PageLayoutLaws} `{HPB : PgBitutils} `{HVE : VarattExternal} `{HBL : BlockCodecLaws}
  `{HTL : TupMacsLaws} `{HHL : HyperLogLog}.
Context (cfg : settings) (Hsr : 0 <= encoding_sample_rows cfg < 2 ^ 31) (Hgain : 0 <= fsst_min_gain_percent cfg <= 99).
Context (w : writer) (types : list coltype) (B : Z) (Hw : writer_ok w types B).
Context (locked coalesce : bool) (ox : Z).

(** A scan plan over the table: its predicates are of its columns' types and on
    columns it reads, and the groups it is restricted to are in order. *)
Record plan_usable (plan : scan_plan) : Prop := {
  pu_of : plan_of w types plan;
  pu_ok : plan_ok plan;
  pu_wanted : forall p sc, p ∈ p_predicates plan -> p_columns plan !! Z.to_nat (attidx p) = Some sc -> sc_wanted sc = true;
  pu_restrict : match p_restrictGroups plan with Some groups => StronglySorted Z.le groups | None => True end
}.

Lemma scan_after ws db st plan dvs rs fuel turns :
  table_after cfg w types B ws db st -> has_room w B (zlen st.1) -> plan_usable plan ->
  scan_begun plan (PgColumnarReadRowGroupList (db_row_group db) (w_storageId w)) rs ->
  (length (concat st.1) < turns)%nat -> (length (concat st.1) < fuel)%nat ->
  let tables := with_deletes (db_tables db) dvs in
  exists out rs', scan_rows plan tables (db_rel db) fuel turns rs = Ok (out, rs') /\ rs_exhausted rs' = true /\
    keeps plan out (visible_stripes w plan tables st.1).
Proof using Hsr Hgain Hw HPL HBL.
  intros (stripes & cur & fgs & m & Hi & _ & ->) Hroom [Hp Hok Hwant Hres] [B1 B2 B3 B4 B5] Hturns Hfuel tables. cbn [fst] in *.
  assert (Ht : tables_hold (w_storageId w) tables fgs) by (destruct (ti_tables _ _ _ _ _ _ _ _ _ _ Hi); by split).
  rewrite <- (table_visible cfg w types B Hw ws db stripes cur fgs m Hi plan Hp tables).
  apply (scan_written cfg plan tables (db_rel db) Hsr Hgain Hok Hwant Hres fgs); try done.
  - by apply (table_ready cfg w types B Hw ws db stripes cur fgs m).
  - destruct (room_numbers w types B Hw _ (zlen_nonneg _) Hroom) as [Hn _].
    pose proof (ti_length _ _ _ _ _ _ _ _ _ _ Hi). unfold zlen, stripe_rows in *. rewrite length_fmap in Hn. lia.
  - by rewrite B1, (groups_in_order cfg w types B ws db stripes cur fgs m Hi).
  - by rewrite (table_row_count cfg w types B ws db stripes cur fgs m Hi).
  - rewrite (table_visible cfg w types B Hw ws db stripes cur fgs m Hi plan Hp tables).
    eapply Nat.le_lt_trans; [apply visible_stripes_length|done].
Qed.

Lemma keeps_all plan out full : p_predicates plan = [] -> keeps plan out full -> out = full.
Proof using.
  intros Hn [_ E]. assert (Hf : forall l : list (Z * list (option Datum)), filter (fun r => row_passes plan r = true) l = l).
  { intros l. apply filter_all. intros r _. unfold row_passes. by rewrite Hn. }
  by rewrite !Hf in E.
Qed.

(** With nothing deleted, no filter and no restriction every row is visible. *)
Lemma visible_everything plan tables stripes :
  p_filter plan = None -> p_restrictGroups plan = None -> t_delete_vector tables = [] ->
  (forall k rows, stripes !! k = Some rows -> 1 + Z.of_nat k * w_stripeRowLimit w + zlen rows < 2 ^ 64) ->
  visible_stripes w plan tables stripes
  = (fun p => (p.1, read_row w plan p.2)) <$> concat (imap (numbered_stripe w) stripes).
Proof using Hw.
  intros Hf Hr Hd Hn. pose proof (wo_stripe _ _ _ Hw) as Hsl. unfold visible_stripes. rewrite fmap_concat, fmap_imap. f_equal.
  apply imap_ext. intros k rows Hk. cbn. unfold stripe_admitted. rewrite Hr.
  assert (Hgen : forall pre suf, rows = pre ++ suf ->
    visible_from w plan tables (stripe_group w k rows) (zlen pre) suf
    = (fun p => (p.1, read_row w plan p.2)) <$> imap (fun i r => (1 + Z.of_nat k * w_stripeRowLimit w + Z.of_nat (length pre + i), r)) suf).
  { intros pre suf. revert pre. induction suf as [|r suf IH]; intros pre E; [done|]. cbn [visible_from].
    rewrite imap_cons, Nat.add_0_r. cbn [fmap list_fmap].
    specialize (IH (pre ++ [r])). rewrite zlen_app in IH. change (zlen [r]) with 1 in IH. rewrite IH by (by rewrite <- app_assoc).
    unfold row_visible, group_deletes, PgColumnarReadDeleteVectorList. rewrite Hf, Hd. cbn.
    specialize (Hn k rows Hk). rewrite E, zlen_app, zlen_cons in Hn. pose proof (zlen_nonneg pre). pose proof (zlen_nonneg suf).
    rewrite u64_small by nia. f_equal. rewrite !fmap_imap. apply imap_ext. intros i x _. cbn. rewrite length_app. do 3 f_equal. cbn. lia. }
  apply (Hgen [] rows eq_refl).
Qed.

(** The numbers of the stored rows fit. *)
Lemma after_numbers ws db st k rows : table_after cfg w types B ws db st -> has_room w B (zlen st.1) ->
  st.1 !! k = Some rows -> 1 + Z.of_nat k * w_stripeRowLimit w + zlen rows < 2 ^ 64.
Proof using Hw HPL.
  intros (stripes & cur & fgs & m & Hi & _ & ->) Hroom Hk. cbn [fst] in *. pose proof (wo_stripe _ _ _ Hw).
  destruct (room_numbers w types B Hw _ (zlen_nonneg _) Hroom) as [_ Hn]. unfold stripe_rows in Hk.
  pose proof (lookup_lt_Some _ _ _ Hk) as Hlt. apply list_lookup_fmap_Some in Hk as (st & -> & Hst).
  destruct (lookup_lt_is_Some_2 fgs k) as [fg Hfg]; [rewrite (ti_length _ _ _ _ _ _ _ _ _ _ Hi); by eapply lookup_lt_Some|].
  pose proof (ss_rows _ _ _ _ _ _ _ (ti_stored _ _ _ _ _ _ _ _ _ _ Hi k st fg Hst Hfg)). unfold zlen, stripe_rows in *. nia.
Qed.

(** C2.  Writing rows and scanning them: on a new table whose columns have a width
    that the run-length decoder reads (variable, 1, 2, 4 or 8 bytes; a column of 16
    bytes may not read back), for rows of valid values of at most [B] bytes where a
    full stripe, of at most [ncols * stripeRowLimit * (B + 1)] bytes, stays within
    2^29, and while the file has blocks left, every sequence of row
    inserts and flushes succeeds and returns the row numbers of the
    specification ([spec_ops]: stripes of at most the row limit, numbered from
    their reservation on).  A scan of what was flushed, with any projection,
    pushed-down predicates, filter, row group restriction and deletes made since,
    then ends, and returns rows of the flushed stripes, in order and with their
    numbers, that are not deleted and pass the filter; among them is every such
    row that satisfies the pushed-down predicates. *)
Theorem insert_then_scan verdicts dvs0 ops :
  length verdicts = length (w_columns w) -> Forall (op_ok w types B) ops -> has_room w B (zlen (stripes_of w ops)) ->
  exists ws db,
    write_ops cfg w locked coalesce ox (begin_write verdicts) (new_table w dvs0) ops = Ok (numbers_of w ops, ws, db) /\
    forall plan dvs rs fuel turns, plan_usable plan ->
      scan_begun plan (PgColumnarReadRowGroupList (db_row_group db) (w_storageId w)) rs ->
      (length (concat (stripes_of w ops)) < turns)%nat -> (length (concat (stripes_of w ops)) < fuel)%nat ->
      exists out rs', scan_rows plan (with_deletes (db_tables db) dvs) (db_rel db) fuel turns rs = Ok (out, rs') /\
        rs_exhausted rs' = true /\
        keeps plan out (visible_stripes w plan (with_deletes (db_tables db) dvs) (stripes_of w ops)).
Proof using Hsr Hgain Hw HPL HBL.
  intros Hv Hok Hroom.
  destruct (ops_after cfg Hsr Hgain w types B Hw locked coalesce ox ops _ _ _ (new_table_after cfg w types B Hw verdicts dvs0 Hv) Hroom Hok)
    as (ws & db & E & Ha & _).
  exists ws, db. split; [exact E|]. intros plan dvs rs fuel turns Hp Hb Ht Hf. by apply (scan_after ws db).
Qed.

(** C1.  What is written is read back, under the conditions of [insert_then_scan]
    (columns of a width that the run-length decoder reads, valid values whose full
    stripes stay within 2^29 bytes, blocks left in the file): insert any rows into a
    new table, with flushes anywhere in between and one at the end; then a scan without
    predicates, filter or restriction returns every row, in the order of the
    inserts, each with the number its insert returned. *)
Theorem insert_scan_roundtrip verdicts ops :
  length verdicts = length (w_columns w) -> Forall (op_ok w types B) ops ->
  has_room w B (zlen (stripes_of w (ops ++ [FlushRows]))) ->
  exists ns ws db,
    write_ops cfg w locked coalesce ox (begin_write verdicts) (new_table w []) (ops ++ [FlushRows]) = Ok (ns, ws, db) /\
    length ns = length (rows_of ops) /\
    forall plan rs fuel turns, plan_usable plan ->
      p_predicates plan = [] -> p_filter plan = None -> p_restrictGroups plan = None ->
      scan_begun plan (PgColumnarReadRowGroupList (db_row_group db) (w_storageId w)) rs ->
      (length (rows_of ops) < turns)%nat -> (length (rows_of ops) < fuel)%nat ->
      exists rs', scan_rows plan (db_tables db) (db_rel db) fuel turns rs
          = Ok (zip ns (read_row w plan <$> rows_of ops), rs') /\ rs_exhausted rs' = true.
Proof using Hsr Hgain Hw HPL HBL.
  intros Hv Hok Hroom.
  destruct (ops_after cfg Hsr Hgain w types B Hw locked coalesce ox (ops ++ [FlushRows]) _ _ _ (new_table_after cfg w types B Hw verdicts [] Hv))
    as (ws & db & E & Ha & Hd); [done|by apply Forall_app_2; [|constructor]|].
  exists (numbers_of w (ops ++ [FlushRows])), ws, db. split; [exact E|].
  pose proof (flushed_numbered w ops) as Hnum. pose proof (numbers_length w (ops ++ [FlushRows]) ([], [])) as Hl.
  rewrite rows_of_flush in Hl. split; [exact Hl|]. intros plan rs fuel turns Hp Hpr Hf Hr Hb Ht Hfu.
  assert (Hcnt : length (concat (stripes_of w (ops ++ [FlushRows]))) = length (rows_of ops)).
  { rewrite <- (numbered_length w), Hnum, length_zip_with. fold (numbers_of w (ops ++ [FlushRows])) in Hl. lia. }
  destruct (scan_after ws db _ plan [] rs fuel turns Ha Hroom Hp Hb) as (out & rs' & Es & Hx & Hk);
    [fold (stripes_of w (ops ++ [FlushRows])); lia..|].
  assert (Et : with_deletes (db_tables db) [] = db_tables db) by (unfold with_deletes; cbn in Hd; rewrite <- Hd; by destruct (db_tables db)).
  rewrite Et in Es, Hk. exists rs'. split; [|done]. rewrite Es. do 2 f_equal. apply (keeps_all plan) in Hk as ->; [|done].
  fold (stripes_of w (ops ++ [FlushRows])). rewrite visible_everything by (done || intros k rows; by apply (after_numbers ws db _ k rows Ha Hroom)).
  rewrite Hnum, zip_with_fmap_r, (zip_with_zip (fun n r => (n, read_row w plan r))). apply list_fmap_ext. by intros i [n r] _.
Qed.
End Table.

(** ** A table of two integer columns, the second generated *)

Section Witness.
#[local] Existing Instance small_pages.
#[local] Existing Instance small_pages_laws.
#[local] Existing Instance pg_bitutils_scan.
#[local] Existing Instance varatt_external_none.
#[local] Existing Instance run_codecs.
#[local] Existing Instance run_codecs_laws.
#[local] Existing Instance tupmacs_le.
#[local] Existing Instance tupmacs_le_laws.
#[local] Existing Instance exact_count.

Definition sample_cfg : settings := mkSettings 16 5 2048 true.
Definition sample_writer : writer :=
  mkWriter [mkWriteColumn int4_att false int4_def; mkWriteColumn int4_att true int4_def] 7 3 2 0 1 0.
Definition sample_types : list coltype := replicate 2 (mkType int4_dom (fun _ => False)).
Definition sample_verdicts : list verdict := replicate 2 (mkVerdict 0 0).

Definition int4 (s : Z) : option Datum := Some (ByVal (u64 s)).
Definition sample_ops : list write_op :=
  [WriteRow [int4 5; None]; WriteRow [None; None]; WriteRow [int4 (-12); None]; WriteRow [int4 40; None]; FlushRows;
   WriteRow [int4 7; None]].

Definition sample_plan (preds : list SkipPredicate) : scan_plan :=
  mkPlan 7 [mkScanColumn int4_att true None; mkScanColumn int4_att true (int4 9)] preds None None false None true true 1.
Definition sample_begin (plan : scan_plan) (db : database) : read_state :=
  mkReadState (PgColumnarReadRowGroupList (db_row_group db) 7) (RowGroupIndex 0)
    (mkOrder (seqZ 0 (zlen (p_predicates plan))) (replicate (length (p_predicates plan)) 0) 0) [] None false false no_stats.

Definition sample_run (preds : list SkipPredicate) (dvs : list DeleteVectorRow) : res (list Z * list (Z * row)) :=
  ' (ns, _, db) ← write_ops sample_cfg sample_writer false true 0 (begin_write sample_verdicts) (new_table sample_writer [])
                    (sample_ops ++ [FlushRows]);
  ' (out, _) ← scan_rows (sample_plan preds) (with_deletes (db_tables db) dvs) (db_rel db) 10 10
                 (sample_begin (sample_plan preds) db);
  Ok (ns, out).

(** The first row of the second group is deleted; the pushed-down predicate skips
    a vector of the first. *)
Definition sample_deletes : list DeleteVectorRow := [mkDvRow 7 2 (Some [1]) 1].

Example sample_scan :
  sample_run [] [] = Ok ([1; 2; 3; 4; 7],
    [(1, [int4 5; int4 9]); (2, [None; int4 9]); (3, [int4 (-12); int4 9]); (4, [int4 40; int4 9]); (7, [int4 7; int4 9])]).
Proof. vm_compute. reflexivity. Qed.

Example sample_scan_skips :
  sample_run [int4_pred BTGreaterStrategyNumber 6] sample_deletes = Ok ([1; 2; 3; 4; 7], [(7, [int4 7; int4 9])]).
Proof. vm_compute. reflexivity. Qed.

Lemma sample_writer_ok : writer_ok sample_writer sample_types 4.
Proof.
  split; [done|done| |done|done|done|done].
  intros [|[|c]] wc ct [= <-] [= <-]; (split; [exact int4_laws|]); (split; [by split; [|split; [|split; [|left]]]|by right]).
Qed.

Lemma sample_row_ok s : - 2 ^ 31 <= s < 2 ^ 31 -> row_ok sample_writer sample_types 4 [int4 s; None].
Proof.
  intros Hs. split; [done|]. intros [|[|c]] wc ct d [= <-] [= <-] [= <-]. split; [by apply int4_admits|done].
Qed.

Lemma sample_ops_ok : Forall (op_ok sample_writer sample_types 4) sample_ops.
Proof.
  repeat apply Forall_cons_2; try apply Forall_nil_2; cbn [op_ok];
    try (apply (sample_row_ok 5) || apply (sample_row_ok (-12)) || apply (sample_row_ok 40) || apply (sample_row_ok 7)); try lia; try done.
  split; [done|]. by intros [|[|c]] wc ct d [= <-] [= <-] Hd.
Qed.

Lemma sample_plan_usable preds :
  Forall (fun p => exists op c, p = int4_pred op c) preds -> plan_usable sample_writer sample_types (sample_plan preds).
Proof.
  intros Hp. rewrite list.Forall_forall in Hp. split.
  - split; [done|done| |].
    + by intros [|[|c]] sc wc [= <-] [= <-].
    + intros p wc ct Hin Hwc Hct. destruct (Hp p Hin) as (op & c & ->). cbn in Hwc, Hct. injection Hwc as <-. injection Hct as <-.
      split; [apply int4_pred_for|]. intros _. split; [done|]. intros v x (s & Hs & ->) E. destruct x as [x|]; [|done].
      cbn. by rewrite (int4_hash_eq _ _ E).
  - split; [|done]. intros p Hin. destruct (Hp p Hin) as (op & c & ->). done.
  - intros p sc Hin. destruct (Hp p Hin) as (op & c & ->). cbn. by intros [= <-].
  - done.
Qed.

Lemma sample_begun plan db : p_storageId plan = 7 ->
  scan_begun plan (PgColumnarReadRowGroupList (db_row_group db) 7) (sample_begin plan db).
Proof. intros _. split; try done. split; [done|]. unfold zlen. cbn. by rewrite length_replicate. Qed.

Lemma insert_then_scan_witness :
  exists ws db,
    write_ops sample_cfg sample_writer false true 0 (begin_write sample_verdicts) (new_table sample_writer []) sample_ops
      = Ok ([1; 2; 3; 4; 7], ws, db) /\
    exists out rs', scan_rows (sample_plan [int4_pred BTGreaterStrategyNumber 6]) (with_deletes (db_tables db) sample_deletes)
        (db_rel db) 10 10 (sample_begin (sample_plan [int4_pred BTGreaterStrategyNumber 6]) db) = Ok (out, rs') /\
      rs_exhausted rs' = true /\
      keeps (sample_plan [int4_pred BTGreaterStrategyNumber 6]) out
        (visible_stripes sample_writer (sample_plan [int4_pred BTGreaterStrategyNumber 6])
           (with_deletes (db_tables db) sample_deletes)
           [[[int4 5; None]; [None; None]; [int4 (-12); None]]; [[int4 40; None]]]).
Proof.
  assert (Hsr : 0 <= encoding_sample_rows sample_cfg < 2 ^ 31) by (split; [discriminate|reflexivity]).
  assert (Hgain : 0 <= fsst_min_gain_percent sample_cfg <= 99) by (split; discriminate).
  destruct (insert_then_scan sample_cfg Hsr Hgain sample_writer sample_types 4 sample_writer_ok false true 0
    sample_verdicts [] sample_ops eq_refl sample_ops_ok) as (ws & db & E & Hscan); [split; [reflexivity|discriminate]|].
  exists ws, db. split; [exact E|].
  apply (Hscan (sample_plan [int4_pred BTGreaterStrategyNumber 6]) sample_deletes
    (sample_begin (sample_plan [int4_pred BTGreaterStrategyNumber 6]) db) 10%nat 10%nat).
  - apply sample_plan_usable. constructor; [by eexists _, _|constructor].
  - by apply sample_begun.
  - vm_compute. lia.
  - vm_compute. lia.
Defined.

Lemma insert_scan_roundtrip_witness :
  exists ns ws db,
    write_ops sample_cfg sample_writer false true 0 (begin_write sample_verdicts) (new_table sample_writer [])
      (sample_ops ++ [FlushRows]) = Ok (ns, ws, db) /\
    exists rs', scan_rows (sample_plan []) (db_tables db) (db_rel db) 10 10 (sample_begin (sample_plan []) db)
      = Ok (zip ns [[int4 5; int4 9]; [None; int4 9]; [int4 (-12); int4 9]; [int4 40; int4 9]; [int4 7; int4 9]], rs').
Proof.
  assert (Hsr : 0 <= encoding_sample_rows sample_cfg < 2 ^ 31) by (split; [discriminate|reflexivity]).
  assert (Hgain : 0 <= fsst_min_gain_percent sample_cfg <= 99) by (split; discriminate).
  destruct (insert_scan_roundtrip sample_cfg Hsr Hgain sample_writer sample_types 4 sample_writer_ok false true 0
    sample_verdicts sample_ops eq_refl sample_ops_ok) as (ns & ws & db & E & _ & Hscan); [split; [reflexivity|discriminate]|].
  exists ns, ws, db. split; [exact E|].
  destruct (Hscan (sample_plan []) (sample_begin (sample_plan []) db) 10%nat 10%nat) as (rs' & Es & _).
  - apply sample_plan_usable. constructor.
  - reflexivity.
  - reflexivity.
  - reflexivity.
  - by apply sample_begun.
  - vm_compute. lia.
  - vm_compute. lia.
  - exists rs'. rewrite Es. reflexivity.
Defined.
End Witness.
