(* ===== verification/DeleteVector.v ===== *)
(** * Delete vectors

    [columnar_delete_vector.c] and the upsert of [columnar_metadata.c]: a delete
    sets a bit in a buffer of the current subtransaction; a scan start, the end
    of a statement and the commit write the buffers to the [delete_vector]
    catalog table.  A read inside a subtransaction writes out the marks of the
    statements around it and keeps them, since the subtransaction may abort.

    The transaction runs alone: the chunk group and row locks and the check for
    concurrent deletes of a row are not modelled, nor is the visibility map.  A
    subtransaction's abort restores the table as it was when it began. *)

From stdpp Require Import sorting gmap.
From S2P Require Import Prelude BitSet Catalog Storage FreeSpace Scan.

Definition InvalidSubTransactionId : Z := 0.
Definition TopSubTransactionId : Z := 1.

(** ** State *)

Record DeleteVectorChunkBuffer := mkChunkBuffer {
  dc_stripeId : Z; dc_chunkId : Z; dc_startRowNumber : Z; dc_endRowNumber : Z; dc_rowCount : Z;
  dc_mask : list Z
}.

Definition dc_key (c : DeleteVectorChunkBuffer) : Z * Z * Z := (dc_stripeId c, dc_chunkId c, dc_startRowNumber c).

(** [lastChunk] points at the chunk with that key. *)
Record DeleteVectorBuffer := mkBuffer {
  dv_relid : Z; dv_storage : Z; dv_subid : Z; dv_flushedUnder : Z;
  dv_chunks : list DeleteVectorChunkBuffer;
  dv_rowGroupCache : list FreeSpace.NativeRowGroupMetadata;
  dv_lastGroup : option FreeSpace.NativeRowGroupMetadata;
  dv_lastChunk : option (Z * Z * Z)
}.

Definition with_groups (b : DeleteVectorBuffer) cache last : DeleteVectorBuffer :=
  mkBuffer (dv_relid b) (dv_storage b) (dv_subid b) (dv_flushedUnder b) (dv_chunks b) cache last (dv_lastChunk b).
Definition with_chunks (b : DeleteVectorBuffer) chunks last : DeleteVectorBuffer :=
  mkBuffer (dv_relid b) (dv_storage b) (dv_subid b) (dv_flushedUnder b) chunks (dv_rowGroupCache b) (dv_lastGroup b) last.
Definition with_subxact (b : DeleteVectorBuffer) (subid flushedUnder : Z) : DeleteVectorBuffer :=
  mkBuffer (dv_relid b) (dv_storage b) subid flushedUnder (dv_chunks b) (dv_rowGroupCache b) (dv_lastGroup b) (dv_lastChunk b).

(** ** Marking *)

(** The list with its buffer for the storage and subtransaction, and its index. *)
Definition delete_vector_get_buffer (bufs : list DeleteVectorBuffer) (relid storageId subid : Z)
    : list DeleteVectorBuffer * nat :=
  match list_find (fun b => dv_storage b = storageId /\ dv_subid b = subid) bufs with
  | Some (i, _) => (bufs, i)
  | None => (bufs ++ [mkBuffer relid storageId subid InvalidSubTransactionId [] [] None None], length bufs)
  end.

Definition group_covers (rowNumber : Z) (g : FreeSpace.NativeRowGroupMetadata) : Prop :=
  rg_firstRowNumber g <= rowNumber < u64 (rg_firstRowNumber g + rg_rowCount g).

#[export] Instance group_covers_dec n g : Decision (group_covers n g).
Proof. unfold group_covers. apply _. Defined.

Definition find_covering (rowNumber : Z) (groups : list FreeSpace.NativeRowGroupMetadata)
    : option FreeSpace.NativeRowGroupMetadata :=
  snd <$> list_find (group_covers rowNumber) groups.

Section Marks.
Context (rgs : list FreeSpace.NativeRowGroupMetadata).

Definition delete_vector_find_row_group (b : DeleteVectorBuffer) (rowNumber : Z)
    : DeleteVectorBuffer * option FreeSpace.NativeRowGroupMetadata :=
  let search :=
    match find_covering rowNumber (dv_rowGroupCache b) with
    | Some g => (with_groups b (dv_rowGroupCache b) (Some g), Some g)
    | None =>
        let cache := PgColumnarReadRowGroupList rgs (dv_storage b) in
        let g := find_covering rowNumber cache in (with_groups b cache g, g)
    end in
  match dv_lastGroup b with
  | Some g => if decide (group_covers rowNumber g) then (b, Some g) else search
  | None => search
  end.

(** The buffer with its chunk for the group, and the chunk's index.  Chunks have
    keys of their own, so [lastChunk] is the chunk the search finds. *)
Definition delete_vector_get_chunk (b : DeleteVectorBuffer) (stripeId chunkId startRowNumber endRowNumber rowCount : Z)
    : res (DeleteVectorBuffer * nat) :=
  let key := (stripeId, chunkId, startRowNumber) in
  match list_find (fun c => dc_key c = key) (dv_chunks b) with
  | Some (i, _) => Ok (with_chunks b (dv_chunks b) (Some key), i)
  | None =>
      let maskLen := u32 (u64 (rowCount + 7) / 8) in
      if MaxAllocSize <? maskLen then Err "invalid memory alloc request size"
      else
        let c := mkChunkBuffer stripeId chunkId startRowNumber endRowNumber rowCount (replicate (Z.to_nat maskLen) 0) in
        Ok (with_chunks b (dv_chunks b ++ [c]) (Some key), length (dv_chunks b))
  end.

Definition with_mask (c : DeleteVectorChunkBuffer) (mask : list Z) : DeleteVectorChunkBuffer :=
  mkChunkBuffer (dc_stripeId c) (dc_chunkId c) (dc_startRowNumber c) (dc_endRowNumber c) (dc_rowCount c) mask.

(** [PgColumnarMarkRowDeleted] for a buffer. *)
Definition mark_in_buffer (b : DeleteVectorBuffer) (rowNumber : Z) : res DeleteVectorBuffer :=
  let '(b, rg) := delete_vector_find_row_group b rowNumber in
  match rg with
  | None => Err "columnar: cannot delete row: no row group covers it"
  | Some rg =>
      let startRowNumber := rg_firstRowNumber rg in
      let endRowNumber := u64 (startRowNumber + rg_rowCount rg - 1) in
      ' (b, i) ← delete_vector_get_chunk b (rg_groupNumber rg) 0 startRowNumber endRowNumber (rg_rowCount rg);
      match dv_chunks b !! i with
      | None => Oob
      | Some c =>
          mask ← set_bit (dc_mask c) (u64 (rowNumber - startRowNumber));
          Ok (with_chunks b (<[i := with_mask c mask]> (dv_chunks b)) (dv_lastChunk b))
      end
  end.

Definition PgColumnarMarkRowDeleted (bufs : list DeleteVectorBuffer) (relid storageId subid rowNumber : Z)
    : res (list DeleteVectorBuffer) :=
  let '(bufs, i) := delete_vector_get_buffer bufs relid storageId subid in
  match bufs !! i with
  | None => Oob
  | Some b => b ← mark_in_buffer b rowNumber; Ok (<[i := b]> bufs)
  end.

(** Whether a mark of the row is still only buffered. *)
Definition PgColumnarDeleteVectorBufferedDeleted (bufs : list DeleteVectorBuffer) (relid rowNumber : Z) : bool :=
  existsb (fun b => (dv_relid b =? relid) &&
    existsb (fun c => negb ((rowNumber <? dc_startRowNumber c) || (dc_endRowNumber c <? rowNumber))
                      && dv_row_deleted (Some (dc_mask c)) (u64 (rowNumber - dc_startRowNumber c)))
      (dv_chunks b)) bufs.

(** ** Writing the marks *)

(** The set bits of a bitmap. *)
Definition bits_of_byte (x : Z) : Z := zlen (filter (fun bit => Z.land x (Z.shiftl 1 bit) <> 0) (seqZ 0 8)).
Definition count_bits (bitmap : list Z) : Z := foldr Z.add 0 (bits_of_byte <$> bitmap).

Definition row_group_exists (storageId groupNumber : Z) : bool :=
  bool_decide ((storageId, groupNumber) ∈ rg_key <$> rgs).

Definition dv_key (r : DeleteVectorRow) : Z * Z := (dv_storageId r, dv_groupNumber r).

Definition PgColumnarUpsertDeleteVector (rows : list DeleteVectorRow) (storageId groupNumber deletedCount : Z)
    (bitmap : list Z) : res (list DeleteVectorRow) :=
  if negb (row_group_exists storageId groupNumber) then Err "row group was compacted concurrently"
  else
    match list_find (fun r => dv_key r = (storageId, groupNumber)) rows with
    | Some (i, existing) =>
        let '(bitmap, deletedCount) :=
          match dv_bitmap existing with
          | Some eb => let merged := or_bytes bitmap eb in (merged, s32 (count_bits merged))
          | None => (bitmap, deletedCount)
          end in
        Ok (<[i := mkDvRow storageId groupNumber (Some bitmap) deletedCount]> rows)
    | None => Ok (rows ++ [mkDvRow storageId groupNumber (Some bitmap) deletedCount])
    end.

Definition delete_vector_chunk_le (a b : DeleteVectorChunkBuffer) : Prop :=
  dc_stripeId a < dc_stripeId b \/ (dc_stripeId a = dc_stripeId b /\
    (dc_chunkId a < dc_chunkId b \/ (dc_chunkId a = dc_chunkId b /\ dc_startRowNumber a <= dc_startRowNumber b))).

#[export] Instance delete_vector_chunk_le_dec a b : Decision (delete_vector_chunk_le a b).
Proof. unfold delete_vector_chunk_le. apply _. Defined.

Definition delete_vector_reset_buffer (b : DeleteVectorBuffer) : DeleteVectorBuffer :=
  mkBuffer (dv_relid b) (dv_storage b) (dv_subid b) (dv_flushedUnder b) [] [] None None.

Fixpoint upsert_chunks (storageId : Z) (rows : list DeleteVectorRow) (chunks : list DeleteVectorChunkBuffer)
    : res (list DeleteVectorRow) :=
  match chunks with
  | [] => Ok rows
  | c :: chunks =>
      rows ← PgColumnarUpsertDeleteVector rows storageId (dc_stripeId c) (s32 (count_bits (dc_mask c))) (dc_mask c);
      upsert_chunks storageId rows chunks
  end.

Definition delete_vector_flush_buffer (b : DeleteVectorBuffer) (keep : bool) (rows : list DeleteVectorRow)
    : res (DeleteVectorBuffer * list DeleteVectorRow) :=
  match dv_chunks b with
  | [] => Ok (b, rows)
  | chunks =>
      let sorted := merge_sort delete_vector_chunk_le chunks in
      rows ← upsert_chunks (dv_storage b) rows sorted;
      Ok (if keep then with_chunks b sorted (dv_lastChunk b) else delete_vector_reset_buffer b, rows)
  end.

(** A loop over the buffers. *)
Fixpoint foreach_buffer (step : DeleteVectorBuffer -> list DeleteVectorRow -> res (DeleteVectorBuffer * list DeleteVectorRow))
    (bufs : list DeleteVectorBuffer) (rows : list DeleteVectorRow) : res (list DeleteVectorBuffer * list DeleteVectorRow) :=
  match bufs with
  | [] => Ok ([], rows)
  | b :: bufs => ' (b, rows) ← step b rows; ' (bufs, rows) ← foreach_buffer step bufs rows; Ok (b :: bufs, rows)
  end.

Definition flush_for_relation (relid current : Z) (b : DeleteVectorBuffer) (rows : list DeleteVectorRow)
    : res (DeleteVectorBuffer * list DeleteVectorRow) :=
  let keep := negb (dv_subid b =? current) in
  if negb (dv_relid b =? relid) then Ok (b, rows)
  else if negb (dv_flushedUnder b =? InvalidSubTransactionId) then Ok (b, rows)
  else
    ' (b, rows) ← delete_vector_flush_buffer b keep rows;
    Ok (match dv_chunks b with
        | [] => b
        | _ => if keep then with_subxact b (dv_subid b) current else b
        end, rows).
Definition PgColumnarFlushDeleteVectorForRelation (relid current : Z)
    : list DeleteVectorBuffer -> list DeleteVectorRow -> res (list DeleteVectorBuffer * list DeleteVectorRow) :=
  foreach_buffer (flush_for_relation relid current).

Definition PgColumnarFlushAllDeleteVectors
    : list DeleteVectorBuffer -> list DeleteVectorRow -> res (list DeleteVectorBuffer * list DeleteVectorRow) :=
  foreach_buffer (fun b => delete_vector_flush_buffer b false).

Definition flush_of_subxact (subid : Z) (b : DeleteVectorBuffer) (rows : list DeleteVectorRow)
    : res (DeleteVectorBuffer * list DeleteVectorRow) :=
  if dv_subid b =? subid then delete_vector_flush_buffer b false rows else Ok (b, rows).
Definition PgColumnarFlushDeleteVectorsOfSubXact (subid : Z)
    : list DeleteVectorBuffer -> list DeleteVectorRow -> res (list DeleteVectorBuffer * list DeleteVectorRow) :=
  foreach_buffer (flush_of_subxact subid).

(** ** Ends of subtransactions *)

Definition PgColumnarDeleteVectorDiscardSubXact (subid : Z) (bufs : list DeleteVectorBuffer) : list DeleteVectorBuffer :=
  omap (fun b => if dv_subid b =? subid then None
                 else Some (if dv_flushedUnder b =? subid then with_subxact b (dv_subid b) InvalidSubTransactionId else b)) bufs.

Definition promote_buffer (subid parent : Z) (b : DeleteVectorBuffer) : DeleteVectorBuffer :=
  let b := if dv_subid b =? subid then with_subxact b parent (dv_flushedUnder b) else b in
  if dv_flushedUnder b =? subid then
    if parent =? dv_subid b
    then with_subxact (delete_vector_reset_buffer b) (dv_subid b) InvalidSubTransactionId
    else with_subxact b (dv_subid b) parent
  else b.
Definition PgColumnarDeleteVectorPromoteSubXact (subid parent : Z) (bufs : list DeleteVectorBuffer)
    : list DeleteVectorBuffer := promote_buffer subid parent <$> bufs.

(** ** Counts *)

Definition PgColumnarGroupDeletedCount (rows : list DeleteVectorRow) (storageId : Z)
    (rg : FreeSpace.NativeRowGroupMetadata) : Z :=
  let want := u32 (u64 (rg_rowCount rg + 7) / 8) in
  match PgColumnarReadDeleteVectorList rows storageId (rg_groupNumber rg) with
  | [] => 0
  | rml =>
      let mask := match pgcolumnar_merge_delete_vectors rml want with
                  | Some m => m
                  | None => replicate (Z.to_nat want) 0
                  end in
      zlen (filter (fun p => p < rg_rowCount rg /\ bit_set mask p = true) (seqZ 0 (8 * want)))
  end.

Definition PgColumnarStorageDeletedCount (rows : list DeleteVectorRow) (storageId : Z) : Z :=
  foldl (fun total r => if 0 <? dv_deletedCount r then u64 (total + dv_deletedCount r) else total) 0
    (filter (fun r => dv_storageId r = storageId) rows).

Definition PgColumnarStorageHasDeleteVector (rows : list DeleteVectorRow) (storageId : Z) : bool :=
  match filter (fun r => dv_storageId r = storageId) rows with [] => false | _ => true end.
End Marks.

(** ** Bitmaps *)

Lemma deleted_bit m i : 0 <= i < 8 * zlen m -> dv_row_deleted (Some m) i = bit_set m i.
Proof.
  intros Hi. pose proof (pos_byte i _ _ Hi ltac:(reflexivity)) as Hb. pose proof (pos_bit i). unfold dv_row_deleted, bit_set.
  rewrite (proj2 (Z.ltb_lt _ _)), land_bit, negb_involutive by lia. done.
Qed.

Lemma length_or_bytes a : forall b, length (or_bytes a b) = length a.
Proof. induction a as [|x a IH]; intros [|y b]; cbn; by rewrite ?IH. Qed.

Lemma or_bytes_ok a : forall b, bytes_ok a -> bytes_ok b -> bytes_ok (or_bytes a b).
Proof.
  induction a as [|x a IH]; intros [|y b] Ha Hb; try done. apply Forall_cons_1 in Ha as [Hx Ha]. apply Forall_cons_1 in Hb as [Hy Hb].
  constructor; [by apply (lor_bound x y 8)|by apply IH].
Qed.

Lemma bit_set_or a : forall b p, length a = length b -> 0 <= p -> bit_set (or_bytes a b) p = bit_set a p || bit_set b p.
Proof.
  intros b p Hl Hp. unfold bit_set, nthZ. rewrite <- Z.lor_spec. f_equal. generalize (Z.to_nat (Z.shiftr p 3)) as k. revert b Hl.
  induction a as [|x a IH]; intros [|y b] [=] k; destruct k as [|k]; cbn; try done. by apply IH.
Qed.

Lemma count_bits_bound m : 0 <= count_bits m <= 8 * zlen m.
Proof.
  unfold count_bits. induction m as [|x m IH]; [done|]. cbn [fmap list_fmap foldr]. rewrite zlen_cons.
  assert (0 <= bits_of_byte x <= 8); [|lia]. unfold bits_of_byte, zlen. split; [lia|].
  pose proof (length_filter (fun bit => Z.land x (Z.shiftl 1 bit) <> 0) (seqZ 0 8)) as Hl. rewrite length_seqZ in Hl. lia.
Qed.

(** ** The table and the marks *)

Section Table.
Context (rgs : list FreeSpace.NativeRowGroupMetadata).

(** The row groups of the catalog, with row ranges of their own. *)
Record groups_ok : Prop := {
  go_keys : NoDup (rg_key <$> rgs);
  go_size : forall rg, rg ∈ rgs -> 0 < rg_rowCount rg < 2 ^ 30 /\ 0 <= rg_firstRowNumber rg /\
    rg_firstRowNumber rg + rg_rowCount rg < 2 ^ 64;
  go_apart : forall rg rg' n, rg ∈ rgs -> rg' ∈ rgs -> rg_storageId rg = rg_storageId rg' ->
    group_covers n rg -> group_covers n rg' -> rg = rg'
}.

Definition want (rg : FreeSpace.NativeRowGroupMetadata) : Z := u32 (u64 (rg_rowCount rg + 7) / 8).

(** A bitmap of the group's rows. *)
Record mask_ok (rg : FreeSpace.NativeRowGroupMetadata) (m : list Z) : Prop := {
  mo_bytes : bytes_ok m;
  mo_length : zlen m = want rg;
  mo_tail : forall p, rg_rowCount rg <= p -> bit_set m p = false
}.

Definition row_wf (r : DeleteVectorRow) : Prop :=
  exists rg m, rg ∈ rgs /\ dv_key r = rg_key rg /\ dv_bitmap r = Some m /\ mask_ok rg m /\ dv_deletedCount r = count_bits m.

Record table_wf (rows : list DeleteVectorRow) : Prop := {
  tw_keys : NoDup (dv_key <$> rows);
  tw_rows : Forall row_wf rows
}.

(** Row [p] of the group is marked in the table. *)
Definition row_mark (rows : list DeleteVectorRow) (rg : FreeSpace.NativeRowGroupMetadata) (p : Z) : Prop :=
  exists r m, r ∈ rows /\ dv_key r = rg_key rg /\ dv_bitmap r = Some m /\ bit_set m p = true.

Context (Hgo : groups_ok).

Lemma want_bounds rg : rg ∈ rgs -> 0 < want rg < 2 ^ 28 /\ want rg = (rg_rowCount rg + 7) / 8 /\ rg_rowCount rg <= 8 * want rg.
Proof using Hgo.
  intros Hin. destruct (go_size Hgo rg Hin) as (Hr & _). unfold want. rewrite u64_small by lia.
  div_bounds (rg_rowCount rg + 7) 8. rewrite u32_small by lia. lia.
Qed.

Lemma group_key_inj rg rg' : rg ∈ rgs -> rg' ∈ rgs -> rg_key rg = rg_key rg' -> rg = rg'.
Proof using Hgo.
  intros H1 H2 E. apply list_elem_of_lookup in H1 as (i & Hi). apply list_elem_of_lookup in H2 as (j & Hj).
  assert (i = j) as ->; [|congruence]. apply (NoDup_lookup (rg_key <$> rgs) i j (rg_key rg) (go_keys Hgo)); rewrite list_lookup_fmap;
    [by rewrite Hi|by rewrite Hj, E].
Qed.

Lemma row_key_inj rows r r' : table_wf rows -> r ∈ rows -> r' ∈ rows -> dv_key r = dv_key r' -> r = r'.
Proof using.
  intros Hw H1 H2 E. apply list_elem_of_lookup in H1 as (i & Hi). apply list_elem_of_lookup in H2 as (j & Hj).
  assert (i = j) as ->; [|congruence]. apply (NoDup_lookup (dv_key <$> rows) i j (dv_key r) (tw_keys _ Hw)); rewrite list_lookup_fmap;
    [by rewrite Hi|by rewrite Hj, E].
Qed.

Lemma count_small rg m : rg ∈ rgs -> mask_ok rg m -> s32 (count_bits m) = count_bits m.
Proof using Hgo.
  intros Hin [_ Hl _]. destruct (want_bounds rg Hin) as (Hb & _). pose proof (count_bits_bound m). apply s32_small. lia.
Qed.

Lemma upsert_spec rows rg m : table_wf rows -> rg ∈ rgs -> mask_ok rg m ->
  exists rows', PgColumnarUpsertDeleteVector rgs rows (rg_storageId rg) (rg_groupNumber rg) (s32 (count_bits m)) m = Ok rows' /\
    table_wf rows' /\ forall rg' p, rg' ∈ rgs -> 0 <= p ->
      row_mark rows' rg' p <-> row_mark rows rg' p \/ (rg' = rg /\ bit_set m p = true).
Proof using Hgo.
  intros Hw Hin Hm. pose proof Hw as [Hk Hr]. unfold PgColumnarUpsertDeleteVector, row_group_exists.
  rewrite bool_decide_true by (change (rg_key rg ∈ rg_key <$> rgs); by apply list_elem_of_fmap_2). cbn [negb].
  destruct (list_find _ rows) as [[i r]|] eqn:Ef.
  - apply list_find_Some in Ef as (Hi & Ekey & _). change (dv_key r = rg_key rg) in Ekey.
    pose proof (Forall_lookup_1 _ _ _ _ Hr Hi) as (rg0 & eb & Hin0 & Ek0 & Eb & Hm0 & _).
    assert (rg0 = rg) as -> by (apply group_key_inj; congruence). rewrite Eb.
    assert (Hl : length m = length eb) by (destruct Hm, Hm0; unfold zlen in *; lia).
    assert (Hor : mask_ok rg (or_bytes m eb)).
    { split; [by apply or_bytes_ok; [apply Hm|apply Hm0]|unfold zlen; rewrite length_or_bytes; apply Hm|].
      intros p Hp. destruct (go_size Hgo rg Hin) as (Hc & _). rewrite bit_set_or by lia.
      by rewrite (mo_tail _ _ Hm), (mo_tail _ _ Hm0) by done. }
    set (new := mkDvRow _ _ _ _). exists (<[i := new]> rows). split; [done|]. split.
    + split.
      * rewrite list_fmap_insert, list_insert_id; [done|]. rewrite list_lookup_fmap, Hi. cbn. by rewrite Ekey.
      * apply Forall_insert; [done|]. exists rg, (or_bytes m eb). split; [done|]. split; [done|]. split; [done|]. split; [done|].
        cbn. by apply (count_small rg).
    + intros rg' p Hin' Hp. unfold row_mark. split.
      * intros (r' & m' & Hr' & Ek' & Em' & Hb). apply list_elem_of_lookup in Hr' as (j & Hj).
        destruct (decide (i = j)) as [<-|Hne].
        -- rewrite list_lookup_insert_eq in Hj by (by eapply lookup_lt_Some). injection Hj as <-. cbn in Ek', Em'. injection Em' as <-.
           rewrite bit_set_or in Hb by done. assert (rg' = rg) as -> by (apply group_key_inj; [done|done|]; by rewrite <- Ek').
           apply orb_true_iff in Hb as [Hb|Hb]; [by right|left]. exists r, eb. split; [by eapply list_elem_of_lookup_2|done].
        -- rewrite list_lookup_insert_ne in Hj by done. left. exists r', m'. split; [by eapply list_elem_of_lookup_2|done].
      * intros [(r' & m' & Hr' & Ek' & Em' & Hb)|[-> Hb]].
        -- destruct (decide (rg_key rg' = rg_key rg)) as [Ekk|Hne].
           ++ apply group_key_inj in Ekk as ->; [|done|done]. assert (r' = r) as -> by (eapply row_key_inj; [done|done|by eapply list_elem_of_lookup_2|congruence]).
              rewrite Eb in Em'. injection Em' as <-. exists new, (or_bytes m eb). split.
              { apply list_elem_of_lookup. exists i. apply list_lookup_insert_eq. by eapply lookup_lt_Some. }
              split; [done|]. split; [done|]. rewrite bit_set_or, Hb by done. apply orb_true_r.
           ++ apply list_elem_of_lookup in Hr' as (j & Hj). exists r', m'. split; [|done]. apply list_elem_of_lookup. exists j.
              rewrite list_lookup_insert_ne; [done|]. intros <-. rewrite Hi in Hj. injection Hj as <-.
              apply Hne. congruence.
        -- exists new, (or_bytes m eb). split.
           { apply list_elem_of_lookup. exists i. apply list_lookup_insert_eq. by eapply lookup_lt_Some. }
           split; [done|]. split; [done|]. by rewrite bit_set_or, Hb by done.
  - apply list_find_None in Ef. rewrite list.Forall_forall in Ef. eexists. split; [done|]. split.
    + split.
      * rewrite fmap_app. apply list.NoDup_app. split; [done|]. split; [|apply NoDup_singleton].
        intros k (r & -> & Hrin)%list_elem_of_fmap_1 Hs%list_elem_of_singleton. by apply (Ef r).
      * apply Forall_app_2; [done|]. apply Forall_singleton. exists rg, m. split; [done|]. split; [done|]. split; [done|]. split; [done|].
        cbn. by apply (count_small rg).
    + intros rg' p Hin' Hp. unfold row_mark. split.
      * intros (r' & m' & Hr' & Ek' & Em' & Hb). apply elem_of_app in Hr' as [Hr'| ->%list_elem_of_singleton].
        -- left. by exists r', m'.
        -- right. cbn in Ek', Em'. injection Em' as <-. split; [|done]. apply group_key_inj; [done|done|]. by rewrite <- Ek'.
      * intros [(r' & m' & Hr' & Ek' & Em' & Hb)|[-> Hb]].
        -- exists r', m'. split; [apply elem_of_app; by left|done].
        -- eexists _, m. split; [apply elem_of_app; right; by apply list_elem_of_singleton|done].
Qed.

(** ** The buffers *)

Definition chunk_for (rg : FreeSpace.NativeRowGroupMetadata) (c : DeleteVectorChunkBuffer) : Prop :=
  dc_key c = (rg_groupNumber rg, 0, rg_firstRowNumber rg) /\
  dc_endRowNumber c = rg_firstRowNumber rg + rg_rowCount rg - 1 /\ mask_ok rg (dc_mask c).

Definition in_storage (sid : Z) (rg : FreeSpace.NativeRowGroupMetadata) : Prop := rg ∈ rgs /\ rg_storageId rg = sid.

Record buffer_wf (b : DeleteVectorBuffer) : Prop := {
  bw_keys : NoDup (dc_key <$> dv_chunks b);
  bw_chunks : Forall (fun c => exists rg, in_storage (dv_storage b) rg /\ chunk_for rg c) (dv_chunks b);
  bw_cache : Forall (in_storage (dv_storage b)) (dv_rowGroupCache b);
  bw_last : match dv_lastGroup b with Some rg => in_storage (dv_storage b) rg | None => True end
}.

(** Row [p] of the group is marked in the buffer. *)
Definition buffer_mark (b : DeleteVectorBuffer) (rg : FreeSpace.NativeRowGroupMetadata) (p : Z) : Prop :=
  rg_storageId rg = dv_storage b /\
  exists c, c ∈ dv_chunks b /\ dc_stripeId c = rg_groupNumber rg /\ bit_set (dc_mask c) p = true.

(** The fields a mark and a flush leave alone. *)
Definition same_owner (b b' : DeleteVectorBuffer) : Prop :=
  dv_relid b' = dv_relid b /\ dv_storage b' = dv_storage b /\ dv_subid b' = dv_subid b /\ dv_flushedUnder b' = dv_flushedUnder b.

Lemma covers_small rg n : rg ∈ rgs -> group_covers n rg <-> rg_firstRowNumber rg <= n < rg_firstRowNumber rg + rg_rowCount rg.
Proof using Hgo.
  intros Hin. destruct (go_size Hgo rg Hin) as (Hc & Hf & Hm). unfold group_covers. by rewrite u64_small by lia.
Qed.

Lemma find_covering_spec sid rg n l : in_storage sid rg -> group_covers n rg -> Forall (in_storage sid) l ->
  match find_covering n l with Some g => g = rg | None => rg ∉ l end.
Proof using Hgo.
  intros [Hin Hs] Hc Hl. unfold find_covering. destruct (list_find _ l) as [[i g]|] eqn:Ef; cbn.
  - apply list_find_Some in Ef as (Hi & Hg & _). destruct (Forall_lookup_1 _ _ _ _ Hl Hi) as [Hgin Hgs].
    eapply (go_apart Hgo); try done. congruence.
  - apply list_find_None in Ef. rewrite list.Forall_forall in Ef. intros Hrg. by apply (Ef rg Hrg).
Qed.

Lemma storage_list sid : Forall (in_storage sid) (PgColumnarReadRowGroupList rgs sid) /\
  forall rg, in_storage sid rg -> rg ∈ PgColumnarReadRowGroupList rgs sid.
Proof using.
  unfold PgColumnarReadRowGroupList. split.
  - apply list.Forall_forall. intros rg Hrg. rewrite merge_sort_Permutation, list_elem_of_filter in Hrg. by destruct Hrg.
  - intros rg [H1 H2]. rewrite merge_sort_Permutation, list_elem_of_filter. done.
Qed.

Lemma find_row_group_spec b rg n : buffer_wf b -> in_storage (dv_storage b) rg -> group_covers n rg ->
  exists b', delete_vector_find_row_group rgs b n = (b', Some rg) /\ buffer_wf b' /\ same_owner b b' /\
    dv_chunks b' = dv_chunks b /\ dv_lastChunk b' = dv_lastChunk b.
Proof using Hgo.
  intros Hwf Hrg Hc. pose proof Hwf as [W1 W2 W3 W4]. destruct (storage_list (dv_storage b)) as [Hall Hmem]. unfold delete_vector_find_row_group.
  assert (Hsearch : exists b',
    match find_covering n (dv_rowGroupCache b) with
    | Some g => (with_groups b (dv_rowGroupCache b) (Some g), Some g)
    | None => let cache := PgColumnarReadRowGroupList rgs (dv_storage b) in
              let g := find_covering n cache in (with_groups b cache g, g)
    end = (b', Some rg) /\ buffer_wf b' /\ same_owner b b' /\ dv_chunks b' = dv_chunks b /\ dv_lastChunk b' = dv_lastChunk b).
  { pose proof (find_covering_spec _ rg n (dv_rowGroupCache b) Hrg Hc W3) as H1.
    destruct (find_covering n (dv_rowGroupCache b)) as [g|]; [subst g|].
    - eexists. split; [done|]. split; [by split|done].
    - cbv zeta. pose proof (find_covering_spec _ rg n _ Hrg Hc Hall) as H2.
      destruct (find_covering n (PgColumnarReadRowGroupList _ _)) as [g|]; [subst g|by destruct (H2 (Hmem rg Hrg))].
      eexists. split; [done|]. split; [by split|done]. }
  destruct (dv_lastGroup b) as [g|]; [|done]. destruct (decide (group_covers n g)) as [Hg|]; [|done].
  destruct W4 as [Hgin Hgs]. destruct Hrg as [Hin Hs].
  assert (g = rg) as -> by (eapply (go_apart Hgo); try done; congruence). by exists b.
Qed.

Lemma chunk_lookup b c : buffer_wf b -> c ∈ dv_chunks b -> exists rg, in_storage (dv_storage b) rg /\ chunk_for rg c.
Proof using. intros [_ W _ _] Hc. rewrite list.Forall_forall in W. by apply W. Qed.

(** A chunk of the buffer is the one of its group. *)
Lemma chunk_of_group b c rg : buffer_wf b -> c ∈ dv_chunks b -> in_storage (dv_storage b) rg ->
  dc_stripeId c = rg_groupNumber rg -> chunk_for rg c.
Proof using Hgo.
  intros Hw Hc [Hin Hs] Hg. destruct (chunk_lookup b c Hw Hc) as (rg' & [Hin' Hs'] & Hf). pose proof Hf as (Hk & _).
  assert (rg' = rg) as <-; [|done]. apply group_key_inj; [done|done|]. unfold dc_key in Hk. unfold rg_key. congruence.
Qed.

Lemma zeros_mask rg : rg ∈ rgs -> mask_ok rg (replicate (Z.to_nat (want rg)) 0).
Proof using Hgo.
  intros Hin. destruct (want_bounds rg Hin) as (Hb & _). split.
  - apply Forall_replicate. done.
  - unfold zlen. rewrite length_replicate. lia.
  - intros p _. apply bit_set_zeros.
Qed.

(** The chunk of a group: an old one, or a new one without marks. *)
Lemma get_chunk_spec b rg : buffer_wf b -> in_storage (dv_storage b) rg ->
  exists b' i c, delete_vector_get_chunk b (rg_groupNumber rg) 0 (rg_firstRowNumber rg)
      (rg_firstRowNumber rg + rg_rowCount rg - 1) (rg_rowCount rg) = Ok (b', i) /\
    dv_chunks b' !! i = Some c /\ chunk_for rg c /\ buffer_wf b' /\ same_owner b b' /\
    forall rg' p, buffer_mark b' rg' p <-> buffer_mark b rg' p.
Proof using Hgo.
  intros Hw Hrg. pose proof Hw as [W1 W2 W3 W4]. pose proof Hrg as [Hin Hs]. unfold delete_vector_get_chunk.
  destruct (list_find _ (dv_chunks b)) as [[i c]|] eqn:Ef.
  - apply list_find_Some in Ef as (Hi & Hk & _). eexists _, i, c. split; [done|]. split; [done|]. split.
    { apply (chunk_of_group b); [done|by eapply list_elem_of_lookup_2|done|]. unfold dc_key in Hk. congruence. }
    split; [by split|]. done.
  - apply list_find_None in Ef. rewrite list.Forall_forall in Ef. destruct (want_bounds rg Hin) as (Hb & _).
    fold (want rg). rewrite (proj2 (Z.ltb_ge _ _)) by (unfold MaxAllocSize; lia).
    set (c := mkChunkBuffer _ _ _ _ _ _). eexists _, (length (dv_chunks b)), c. split; [done|]. cbn [dv_chunks with_chunks].
    assert (Hc : chunk_for rg c) by (split; [done|]; split; [done|by apply zeros_mask]).
    split; [by apply list_lookup_middle|]. split; [done|]. split; [|split; [done|]].
    + split; cbn [dv_chunks dv_storage dv_rowGroupCache dv_lastGroup with_chunks]; try done.
      * rewrite fmap_app. apply list.NoDup_app. split; [done|]. split; [|apply NoDup_singleton].
        intros k (c' & -> & Hc')%list_elem_of_fmap_1 Hx%list_elem_of_singleton. by apply (Ef c' Hc').
      * apply Forall_app_2; [done|]. apply Forall_singleton. by exists rg.
    + intros rg' p. unfold buffer_mark. cbn [dv_chunks dv_storage with_chunks]. split; intros (Es & c' & Hc' & Hg & Hbit); (split; [done|]).
      * apply elem_of_app in Hc' as [Hc'|Hc'%list_elem_of_singleton]; [by exists c'|]. subst c'. cbn in Hbit. by rewrite bit_set_zeros in Hbit.
      * exists c'. split; [apply elem_of_app; by left|done].
Qed.

Lemma mark_in_buffer_spec b rg n : buffer_wf b -> in_storage (dv_storage b) rg -> group_covers n rg ->
  exists b', mark_in_buffer rgs b n = Ok b' /\ buffer_wf b' /\ same_owner b b' /\
    forall rg' p, in_storage (dv_storage b) rg' -> 0 <= p ->
      buffer_mark b' rg' p <-> buffer_mark b rg' p \/ (rg' = rg /\ p = n - rg_firstRowNumber rg).
Proof using Hgo.
  intros Hw Hrg Hcov. pose proof Hrg as [Hin Hs]. destruct (go_size Hgo rg Hin) as (Hcnt & Hf & Hm).
  pose proof (proj1 (covers_small rg n Hin) Hcov) as Hn. destruct (want_bounds rg Hin) as (Hwb & _ & Hwn).
  destruct (find_row_group_spec b rg n Hw Hrg Hcov) as (b1 & E1 & Hw1 & So1 & Ech1 & _). unfold mark_in_buffer. rewrite E1.
  cbv zeta. rewrite (u64_small (_ + _ - 1)) by lia. pose proof So1 as (So1a & So1b & So1c & So1d).
  destruct (get_chunk_spec b1 rg Hw1) as (b2 & i & c & -> & Hi & Hc & Hw2 & So2 & Hm2); [by rewrite So1b|]. rewrite bind_Ok, Hi.
  pose proof So2 as (So2a & So2b & So2c & So2d). destruct Hc as (Hk & He & Hmk). pose proof Hmk as [Hmb Hml Hmt].
  rewrite u64_small by lia. destruct (set_bit_spec (dc_mask c) (n - rg_firstRowNumber rg) Hmb) as (mask & -> & Hb' & Hl' & Hbits); [lia|].
  rewrite bind_Ok. eexists. split; [done|]. pose proof (lookup_lt_Some _ _ _ Hi) as Hlt. pose proof Hw2 as [W1 W2 W3 W4].
  split; [|split].
  - split; cbn [dv_chunks dv_storage dv_rowGroupCache dv_lastGroup with_chunks]; try done.
    + rewrite list_fmap_insert, list_insert_id; [done|]. by rewrite list_lookup_fmap, Hi.
    + apply Forall_insert; [done|]. exists rg. split; [rewrite So2b, So1b; done|]. split; [done|]. split; [done|]. cbn. split; [done|lia|].
      intros p Hp. rewrite Hbits by lia. rewrite Hmt by done. cbn. apply Z.eqb_neq. lia.
  - unfold same_owner. cbn. repeat split; congruence.
  - intros rg' p Hrg' Hp. transitivity (buffer_mark b2 rg' p \/ (rg' = rg /\ p = n - rg_firstRowNumber rg)).
    2:{ rewrite Hm2. unfold buffer_mark. by rewrite Ech1, So1b. }
    unfold buffer_mark. cbn [dv_chunks dv_storage with_chunks]. split.
    + intros (Es & c' & Hc' & Hg & Hbit). apply list_elem_of_lookup in Hc' as (j & Hj). destruct (decide (i = j)) as [<-|Hne].
      * rewrite list_lookup_insert_eq in Hj by done. injection Hj as <-. cbn in Hg, Hbit. rewrite Hbits in Hbit by done.
        apply orb_true_iff in Hbit as [Hbit| ->%Z.eqb_eq].
        -- left. split; [done|]. exists c. split; [by eapply list_elem_of_lookup_2|done].
        -- right. split; [|done]. destruct Hrg' as [Hin' Hs']. apply group_key_inj; [done|done|]. unfold dc_key in Hk. unfold rg_key. congruence.
      * rewrite list_lookup_insert_ne in Hj by done. left. split; [done|]. exists c'. split; [by eapply list_elem_of_lookup_2|done].
    + intros [(Es & c' & Hc' & Hg & Hbit)|[-> ->]].
      * split; [done|]. apply list_elem_of_lookup in Hc' as (j & Hj). destruct (decide (i = j)) as [<-|Hne].
        -- rewrite Hi in Hj. injection Hj as <-. exists (with_mask c mask). split; [|cbn; split; [done|]; by rewrite Hbits, Hbit].
           apply list_elem_of_lookup. exists i. by apply list_lookup_insert_eq.
        -- exists c'. split; [|done]. apply list_elem_of_lookup. exists j. by rewrite list_lookup_insert_ne.
      * split; [congruence|]. exists (with_mask c mask). split; [apply list_elem_of_lookup; exists i; by apply list_lookup_insert_eq|].
        cbn. split; [unfold dc_key in Hk; congruence|]. rewrite Hbits, Z.eqb_refl by lia. apply orb_true_r.
Qed.

(** ** Flushing a buffer *)

Lemma upsert_chunks_spec sid chunks : forall rows, table_wf rows ->
  Forall (fun c => exists rg, in_storage sid rg /\ chunk_for rg c) chunks ->
  exists rows', upsert_chunks rgs sid rows chunks = Ok rows' /\ table_wf rows' /\
    forall rg p, rg ∈ rgs -> 0 <= p -> row_mark rows' rg p <-> row_mark rows rg p \/
      (rg_storageId rg = sid /\ exists c, c ∈ chunks /\ dc_stripeId c = rg_groupNumber rg /\ bit_set (dc_mask c) p = true).
Proof using Hgo.
  induction chunks as [|c chunks IH]; intros rows Hw Hc.
  { exists rows. split; [done|]. split; [done|]. intros rg p _ _. split; [by left|]. intros [?|(_ & c & Hc' & _)]; [done|].
    by apply not_elem_of_nil in Hc'. }
  apply Forall_cons_1 in Hc as [(rg0 & [Hin0 <-] & Hk & _ & Hm) Hc]. cbn [upsert_chunks].
  assert (Eg : dc_stripeId c = rg_groupNumber rg0) by (unfold dc_key in Hk; congruence). rewrite Eg.
  destruct (upsert_spec rows rg0 (dc_mask c) Hw Hin0 Hm) as (rows1 & -> & Hw1 & Hm1). rewrite bind_Ok.
  destruct (IH rows1 Hw1 Hc) as (rows' & -> & Hw' & Hm'). exists rows'. split; [done|]. split; [done|].
  intros rg p Hin Hp. rewrite (Hm' rg p Hin Hp), (Hm1 rg p Hin Hp). split.
  - intros [[H1|[-> H1]]|(Es & c' & Hc' & H1)]; [by left|right..].
    + split; [done|]. exists c. split; [apply list_elem_of_here|done].
    + split; [done|]. exists c'. split; [by apply list_elem_of_further|done].
  - intros [H1|(Es & c' & Hc' & H1 & H2)]; [by left; left|]. apply elem_of_cons in Hc' as [->|Hc'].
    + left. right. split; [|done]. apply group_key_inj; [done|done|]. unfold rg_key. congruence.
    + right. split; [done|]. by exists c'.
Qed.

Lemma flush_buffer_spec b keep rows : buffer_wf b -> table_wf rows ->
  exists b' rows', delete_vector_flush_buffer rgs b keep rows = Ok (b', rows') /\ table_wf rows' /\ buffer_wf b' /\ same_owner b b' /\
    (forall rg p, rg ∈ rgs -> 0 <= p -> row_mark rows' rg p <-> row_mark rows rg p \/ buffer_mark b rg p) /\
    (dv_chunks b' = [] <-> keep = false \/ dv_chunks b = []) /\
    (keep = true -> forall rg p, buffer_mark b' rg p <-> buffer_mark b rg p).
Proof using Hgo.
  intros Hb Hw. pose proof Hb as [W1 W2 W3 W4]. unfold delete_vector_flush_buffer.
  destruct (dv_chunks b) as [|c0 chunks] eqn:Ec.
  { exists b, rows. split; [done|]. split; [done|]. split; [done|]. split; [done|]. split; [|rewrite Ec; by split; [tauto|]].
    intros rg p _ _. unfold buffer_mark. rewrite Ec. split; [by left|]. intros [?|(_ & c & Hc & _)]; [done|]. by apply not_elem_of_nil in Hc. }
  rewrite <- Ec in *. assert (Hne : dv_chunks b <> []) by (by rewrite Ec). clear Ec.
  set (sorted := merge_sort delete_vector_chunk_le (dv_chunks b)).
  assert (Hp : sorted ≡ₚ dv_chunks b) by apply merge_sort_Permutation.
  destruct (upsert_chunks_spec (dv_storage b) sorted rows Hw) as (rows' & -> & Hw' & Hm); [by rewrite Hp|]. rewrite bind_Ok.
  assert (Hmark : forall rg p, rg ∈ rgs -> 0 <= p -> row_mark rows' rg p <-> row_mark rows rg p \/ buffer_mark b rg p).
  { intros rg p Hin Hp0. rewrite (Hm rg p Hin Hp0). unfold buffer_mark. by setoid_rewrite Hp. }
  eexists _, rows'. split; [done|]. split; [done|]. destruct keep.
  - split; [split; cbn [dv_chunks dv_storage dv_rowGroupCache dv_lastGroup with_chunks]; try done; by rewrite Hp|].
    split; [done|]. split; [done|]. split.
    + cbn. split; [|by intros [?|?]]. intros E. rewrite E in Hp. by apply Permutation_nil_l in Hp.
    + intros _ rg p. unfold buffer_mark. cbn [dv_chunks dv_storage with_chunks]. by setoid_rewrite Hp.
  - split; [split; cbn; try done; constructor|]. split; [done|]. split; [done|]. split; [|done]. cbn. tauto.
Qed.

(** ** Reading the marks *)

Lemma group_rows_found rows rg : table_wf rows -> rg ∈ rgs ->
  match PgColumnarReadDeleteVectorList rows (rg_storageId rg) (rg_groupNumber rg) with
  | [] => forall r, r ∈ rows -> dv_key r <> rg_key rg
  | [r] => r ∈ rows /\ dv_key r = rg_key rg
  | _ => False
  end.
Proof using.
  intros Hw Hin. unfold PgColumnarReadDeleteVectorList.
  assert (Hf : forall r, r ∈ filter (fun r => dv_storageId r = rg_storageId rg /\ dv_groupNumber r = rg_groupNumber rg) rows
    <-> r ∈ rows /\ dv_key r = rg_key rg).
  { intros r. rewrite list_elem_of_filter. unfold dv_key, rg_key. split.
    - intros [[-> ->] Hr]. done.
    - intros [Hr [= -> ->]]. done. }
  assert (Hnd : NoDup (filter (fun r => dv_storageId r = rg_storageId rg /\ dv_groupNumber r = rg_groupNumber rg) rows))
    by (apply list.NoDup_filter, (NoDup_fmap_1 dv_key), Hw).
  destruct (filter _ rows) as [|r [|r' l]].
  - intros r Hr E. assert (Hx : r ∈ (@nil DeleteVectorRow)) by (by apply Hf). by apply not_elem_of_nil in Hx.
  - apply Hf, list_elem_of_here.
  - destruct (proj1 (Hf r)) as [H1 K1]; [apply list_elem_of_here|].
    destruct (proj1 (Hf r')) as [H2 K2]; [apply list_elem_of_further, list_elem_of_here|].
    assert (r = r') as <- by (eapply row_key_inj; [done..|congruence]). apply list.NoDup_cons in Hnd as [Hn _].
    apply Hn, list_elem_of_here.
Qed.

(** The scan's mask of a group. *)
Lemma scan_mask rows rg : table_wf rows -> rg ∈ rgs ->
  match pgcolumnar_merge_delete_vectors (PgColumnarReadDeleteVectorList rows (rg_storageId rg) (rg_groupNumber rg)) (want rg) with
  | Some m => zlen m = want rg /\ forall p, 0 <= p -> bit_set m p = true <-> row_mark rows rg p
  | None => forall p, ~ row_mark rows rg p
  end.
Proof using Hgo.
  intros Hw Hin. pose proof (group_rows_found rows rg Hw Hin) as Hf. unfold pgcolumnar_merge_delete_vectors.
  destruct (PgColumnarReadDeleteVectorList _ _ _) as [|r [|r' l]]; [|destruct Hf as [Hr Hk]|done]; cbn [foldl].
  - intros p (r & m & Hr & Hk & _). by apply (Hf r).
  - pose proof (tw_rows _ Hw) as Hall. rewrite list.Forall_forall in Hall. destruct (Hall r Hr) as (rg' & m & Hin' & Hk' & Hm & Hmk & _).
    assert (rg' = rg) as -> by (apply group_key_inj; congruence). destruct (want_bounds rg Hin) as (Hwb & _). pose proof Hmk as [_ Hl _].
    unfold merge_mask_step. rewrite Hm. destruct m as [|x m]; [unfold zlen in Hl; cbn in Hl; lia|]. set (m0 := x :: m) in *.
    assert (El : length (replicate (Z.to_nat (want rg)) 0) = length m0) by (rewrite length_replicate; unfold zlen in Hl; lia).
    split; [unfold zlen; rewrite length_or_bytes, length_replicate; lia|]. intros p Hp. rewrite bit_set_or by done.
    rewrite bit_set_zeros. cbn [orb]. split.
    + intros Hb. by exists r, m0.
    + intros (r1 & m1 & Hr1 & Hk1 & Hm1 & Hb). assert (r1 = r) as -> by (eapply row_key_inj; [done..|congruence]).
      rewrite Hm in Hm1. by injection Hm1 as <-.
Qed.

Lemma scan_deleted rows rg p : table_wf rows -> rg ∈ rgs -> 0 <= p < rg_rowCount rg ->
  dv_row_deleted (pgcolumnar_merge_delete_vectors
    (PgColumnarReadDeleteVectorList rows (rg_storageId rg) (rg_groupNumber rg)) (want rg)) p = true <-> row_mark rows rg p.
Proof using Hgo.
  intros Hw Hin Hp. pose proof (scan_mask rows rg Hw Hin) as Hm. destruct (want_bounds rg Hin) as (_ & _ & Hwn).
  destruct (pgcolumnar_merge_delete_vectors _ _) as [m|]; [|split; [done|by intros ?%Hm]].
  destruct Hm as [Hl Hb]. rewrite deleted_bit by lia. apply Hb. lia.
Qed.

Lemma buffered_deleted bufs relid rg n : Forall buffer_wf bufs -> rg ∈ rgs -> group_covers n rg ->
  (forall b, b ∈ bufs -> dv_relid b = relid <-> dv_storage b = rg_storageId rg) ->
  PgColumnarDeleteVectorBufferedDeleted bufs relid n = true <->
  exists b, b ∈ bufs /\ buffer_mark b rg (n - rg_firstRowNumber rg).
Proof using Hgo.
  intros Hw Hin Hcov Hrel. pose proof (proj1 (covers_small rg n Hin) Hcov) as Hn. destruct (go_size Hgo rg Hin) as (Hcnt & Hf0 & Hmax).
  destruct (want_bounds rg Hin) as (_ & _ & Hwn). unfold PgColumnarDeleteVectorBufferedDeleted. rewrite existsb_exists.
  setoid_rewrite <- list_elem_of_In. rewrite list.Forall_forall in Hw. split.
  - intros (b & Hb & [Hr%Z.eqb_eq Hex]%andb_true_iff). exists b. split; [done|]. apply (Hrel b Hb) in Hr. split; [done|].
    apply existsb_exists in Hex as (c & Hc%list_elem_of_In & [Hrange Hbit]%andb_true_iff).
    apply negb_true_iff, orb_false_iff in Hrange as [R1%Z.ltb_ge R2%Z.ltb_ge].
    destruct (chunk_lookup b c (Hw b Hb) Hc) as (rg' & [Hin' Hs'] & Hk & He & Hm). unfold dc_key in Hk. injection Hk as Hg _ Hst.
    destruct (go_size Hgo rg' Hin') as (Hcnt' & Hf' & Hmax').
    assert (rg' = rg) as ->.
    { eapply (go_apart Hgo); try done; [congruence|]. apply covers_small; [done|]. lia. }
    exists c. split; [done|]. split; [done|]. rewrite Hst, u64_small, deleted_bit in Hbit by (rewrite ?(mo_length _ _ Hm); lia). done.
  - intros (b & Hb & Hs & c & Hc & Hg & Hbit). exists b. split; [done|]. apply andb_true_iff.
    split; [apply Z.eqb_eq; by apply (Hrel b Hb)|]. apply existsb_exists. exists c. split; [by apply list_elem_of_In|].
    destruct (chunk_of_group b c rg (Hw b Hb) Hc) as (Hk & He & Hm); [by split|done|]. unfold dc_key in Hk. injection Hk as _ _ Hst.
    rewrite He, Hst. apply andb_true_iff. split.
    + apply negb_true_iff, orb_false_iff. split; apply Z.ltb_ge; lia.
    + rewrite u64_small, deleted_bit by (rewrite ?(mo_length _ _ Hm); lia). done.
Qed.
End Table.
