(* ===== verification/DeleteXact.v ===== *)
(** * Deletes in a transaction

    The delete vectors under subtransactions: the callbacks of
    [columnar_tableam.c] (end of a statement, commit and abort of a
    subtransaction, pre-commit) over the buffers and table of DeleteVector, the
    set of deleted rows they implement, and the proof.

    A statement may run inside another one, in a subtransaction of its own (an
    exception block), while the outer statement's marks are buffered.  An abort
    takes the catalog back to the table at the subtransaction's start, and so
    undoes the marks of outer statements that were written inside it; the
    buffers keep those marks to write them again. *)

From stdpp Require Import sorting gmap.
From S2P Require Import Prelude BitSet Catalog Storage FreeSpace Scan DeleteVector.

(** The current subtransaction, and the enclosing ones, each with the table as
    it was when the next one began. *)
Record Xact := mkXact {
  x_rows : list DeleteVectorRow;
  x_bufs : list DeleteVectorBuffer;
  x_current : Z;
  x_parents : list (Z * list DeleteVectorRow);
  x_next : Z
}.

Inductive xact_op :=
| MarkDeleted (relid rowNumber : Z)
| ScanStart (relid : Z)
| StatementEnd
| SubBegin
| SubCommit
| SubAbort.

Definition begin_xact (rows : list DeleteVectorRow) : Xact :=
  mkXact rows [] TopSubTransactionId [] (TopSubTransactionId + 1).

Section Xact.
Context (rgs : list FreeSpace.NativeRowGroupMetadata) (storage : Z -> Z).

Definition with_marks (x : Xact) (br : list DeleteVectorBuffer * list DeleteVectorRow) : Xact :=
  mkXact (snd br) (fst br) (x_current x) (x_parents x) (x_next x).

Definition scan_start (relid : Z) (x : Xact) : res Xact :=
  br ← PgColumnarFlushDeleteVectorForRelation rgs relid (x_current x) (x_bufs x) (x_rows x);
  Ok (with_marks x br).

(** The delete vectors' part of the executor's end hook. *)
Definition pgcolumnar_executor_end (x : Xact) : res Xact :=
  br ← PgColumnarFlushDeleteVectorsOfSubXact rgs (x_current x) (x_bufs x) (x_rows x);
  Ok (with_marks x br).

(** The delete vectors' part of the subtransaction callback. *)
Definition pgcolumnar_subxact_callback (commit : bool) (x : Xact) : res Xact :=
  match x_parents x with
  | [] => Err "no subtransaction"
  | (parent, saved) :: parents =>
      Ok (if commit
          then mkXact (x_rows x) (PgColumnarDeleteVectorPromoteSubXact (x_current x) parent (x_bufs x))
                 parent parents (x_next x)
          else mkXact saved (PgColumnarDeleteVectorDiscardSubXact (x_current x) (x_bufs x))
                 parent parents (x_next x))
  end.

(** The delete vectors' part of the transaction callback: pre-commit, then commit. *)
Definition pgcolumnar_xact_callback (x : Xact) : res (list DeleteVectorRow) :=
  br ← PgColumnarFlushAllDeleteVectors rgs (x_bufs x) (x_rows x); Ok (snd br).

Definition xact_step (o : xact_op) (x : Xact) : res Xact :=
  match o with
  | MarkDeleted relid rowNumber =>
      bufs ← PgColumnarMarkRowDeleted rgs (x_bufs x) relid (storage relid) (x_current x) rowNumber;
      Ok (with_marks x (bufs, x_rows x))
  | ScanStart relid => scan_start relid x
  | StatementEnd => pgcolumnar_executor_end x
  | SubBegin => Ok (mkXact (x_rows x) (x_bufs x) (x_next x) ((x_current x, x_rows x) :: x_parents x) (x_next x + 1))
  | SubCommit => pgcolumnar_subxact_callback true x
  | SubAbort => pgcolumnar_subxact_callback false x
  end.

Fixpoint xact_steps (ops : list xact_op) (x : Xact) : res Xact :=
  match ops with
  | [] => Ok x
  | o :: ops => x ← xact_step o x; xact_steps ops x
  end.

(** ** The set of deleted rows *)

(** The deleted rows a scan of the table sees: storage and row number. *)
Definition deleted_rows (rows : list DeleteVectorRow) : gset (Z * Z) :=
  list_to_set (rgs ≫= fun rg => (fun p => (rg_storageId rg, rg_firstRowNumber rg + p)) <$>
    filter (fun p => dv_row_deleted (pgcolumnar_merge_delete_vectors
      (PgColumnarReadDeleteVectorList rows (rg_storageId rg) (rg_groupNumber rg)) (want rg)) p = true)
      (seqZ 0 (rg_rowCount rg))).

(** The specification: the deleted rows, and those at the start of each open subtransaction. *)
Record Deleted := mkDeleted { d_rows : gset (Z * Z); d_saved : list (gset (Z * Z)) }.

Definition row_exists (sid n : Z) : Prop := Exists (fun rg => rg_storageId rg = sid /\ group_covers n rg) rgs.

Definition spec_step (o : xact_op) (d : Deleted) : option Deleted :=
  match o with
  | MarkDeleted relid n =>
      if decide (row_exists (storage relid) n) then Some (mkDeleted ({[ (storage relid, n) ]} ∪ d_rows d) (d_saved d)) else None
  | ScanStart _ | StatementEnd => Some d
  | SubBegin => Some (mkDeleted (d_rows d) (d_rows d :: d_saved d))
  | SubCommit => match d_saved d with [] => None | _ :: saved => Some (mkDeleted (d_rows d) saved) end
  | SubAbort => match d_saved d with [] => None | old :: saved => Some (mkDeleted old saved) end
  end.

Fixpoint spec_steps (ops : list xact_op) (d : Deleted) : option Deleted :=
  match ops with
  | [] => Some d
  | o :: ops => d ← spec_step o d; spec_steps ops d
  end.
End Xact.

(** ** The invariant *)

Section Inv.
Context (rgs : list FreeSpace.NativeRowGroupMetadata) (storage : Z -> Z).

(** The marks buffered for a level: its own and those of enclosing ones. *)
Definition held (bufs : list DeleteVectorBuffer) (s : Z) (rg : FreeSpace.NativeRowGroupMetadata) (p : Z) : Prop :=
  exists b, b ∈ bufs /\ dv_subid b <= s /\ buffer_mark b rg p.

(** A level with its table and its set. *)
Record level_ok (bufs : list DeleteVectorBuffer) (l : Z * list DeleteVectorRow) (A : gset (Z * Z)) : Prop := {
  lo_table : table_wf rgs (snd l);
  lo_set : forall sid n, (sid, n) ∈ A <-> exists rg, in_storage rgs sid rg /\ group_covers n rg /\
    (row_mark (snd l) rg (n - rg_firstRowNumber rg) \/ held bufs (fst l) rg (n - rg_firstRowNumber rg));
  lo_kept : forall b rg p, b ∈ bufs -> dv_flushedUnder b <> InvalidSubTransactionId -> dv_flushedUnder b <= fst l ->
    rg ∈ rgs -> 0 <= p -> buffer_mark b rg p -> row_mark (snd l) rg p
}.

Definition levels (x : Xact) : list (Z * list DeleteVectorRow) := (x_current x, x_rows x) :: x_parents x.

(** A buffer of one of the open levels [ids]. *)
Record buffer_ok (ids : list Z) (b : DeleteVectorBuffer) : Prop := {
  bo_wf : buffer_wf rgs b;
  bo_storage : dv_storage b = storage (dv_relid b);
  bo_subid : dv_subid b ∈ ids;
  bo_flushed : dv_flushedUnder b = InvalidSubTransactionId \/ (dv_flushedUnder b ∈ ids /\ dv_subid b < dv_flushedUnder b)
}.

Record xact_inv (x : Xact) (d : Deleted) : Prop := {
  xi_levels : Forall2 (level_ok (x_bufs x)) (levels x) (d_rows d :: d_saved d);
  xi_bufs : Forall (buffer_ok (fst <$> levels x)) (x_bufs x);
  xi_ids : StronglySorted (fun a b => b < a) (x_next x :: (fst <$> levels x));
  xi_pos : Forall (fun s => 0 < s) (fst <$> levels x)
}.
End Inv.

Section Proofs.
Context (rgs : list FreeSpace.NativeRowGroupMetadata) (Hgo : groups_ok rgs) (storage : Z -> Z) (Hinj : Inj (=) (=) storage).

Lemma elem_of_deleted_rows rows sid n : table_wf rgs rows ->
  (sid, n) ∈ deleted_rows rgs rows <-> exists rg, in_storage rgs sid rg /\ group_covers n rg /\ row_mark rows rg (n - rg_firstRowNumber rg).
Proof using Hgo.
  intros Hw. unfold deleted_rows. rewrite elem_of_list_to_set, list_elem_of_bind. split.
  - intros (rg & (p & [= -> ->] & Hp)%list_elem_of_fmap_1 & Hin). apply list_elem_of_filter in Hp as [Hd Hp%elem_of_seqZ].
    exists rg. split; [done|]. rewrite covers_small by done. replace (_ + p - _) with p by lia.
    split; [lia|]. apply (scan_deleted rgs Hgo); [done|done|lia|done].
  - intros (rg & [Hin <-] & Hc & Hm). rewrite covers_small in Hc by done. exists rg. split; [|done].
    apply list_elem_of_fmap. exists (n - rg_firstRowNumber rg). split; [f_equal; lia|]. apply list_elem_of_filter.
    rewrite elem_of_seqZ. split; [|lia]. apply (scan_deleted rgs Hgo); [done|done|lia|done].
Qed.

(** Levels stay right when each keeps its table and what is held for it. *)
Lemma level_ok_bufs bufs bufs' l A : level_ok rgs bufs l A ->
  (forall b rg p, b ∈ bufs -> dv_subid b <= fst l -> buffer_mark b rg p -> exists b', b' ∈ bufs' /\ dv_subid b' <= fst l /\ buffer_mark b' rg p) ->
  (forall b' rg p, b' ∈ bufs' -> dv_subid b' <= fst l -> buffer_mark b' rg p -> exists b, b ∈ bufs /\ dv_subid b <= fst l /\ buffer_mark b rg p) ->
  (forall b' rg p, b' ∈ bufs' -> dv_flushedUnder b' <> InvalidSubTransactionId -> dv_flushedUnder b' <= fst l -> buffer_mark b' rg p ->
     exists b, b ∈ bufs /\ dv_flushedUnder b <> InvalidSubTransactionId /\ dv_flushedUnder b <= fst l /\ buffer_mark b rg p) ->
  level_ok rgs bufs' l A.
Proof using.
  intros [H1 H2 H3] F1 F2 F3. split; [done|..].
  - intros sid n. rewrite H2. split; intros (rg & Hs & Hc & [Hm|(b & Hb & Hle & Hm)]); (exists rg; split; [done|]; split; [done|]); (by left) || right.
    + by eapply F1.
    + by eapply F2.
  - intros b' rg p Hb Hf Hle Hin Hp Hm. destruct (F3 b' rg p) as (b & ? & ? & ? & ?); try done. by apply (H3 b).
Qed.

(** ** The flush loops *)

(** What a flush of the buffers with [P] does to one buffer. *)
Record flushed (cur : Z) (P : DeleteVectorBuffer -> Prop) (b b' : DeleteVectorBuffer) : Prop := {
  fl_wf : buffer_wf rgs b';
  fl_relid : dv_relid b' = dv_relid b;
  fl_storage : dv_storage b' = dv_storage b;
  fl_subid : dv_subid b' = dv_subid b;
  fl_other : ~ P b -> b' = b;
  fl_marks : dv_subid b <> cur -> forall rg p, buffer_mark b' rg p <-> buffer_mark b rg p;
  fl_sub : forall rg p, buffer_mark b' rg p -> buffer_mark b rg p;
  fl_flag : dv_flushedUnder b' = dv_flushedUnder b \/ (P b /\ dv_flushedUnder b' = cur /\ dv_subid b <> cur)
}.

Definition flush_step cur P (step : DeleteVectorBuffer -> list DeleteVectorRow -> res (DeleteVectorBuffer * list DeleteVectorRow)) : Prop :=
  forall b rows, buffer_wf rgs b -> table_wf rgs rows -> exists b' rows', step b rows = Ok (b', rows') /\ table_wf rgs rows' /\
    flushed cur P b b' /\
    forall rg p, rg ∈ rgs -> 0 <= p -> row_mark rows' rg p <-> row_mark rows rg p \/ (P b /\ buffer_mark b rg p).

Lemma foreach_spec cur P step bufs : flush_step cur P step -> forall rows, Forall (buffer_wf rgs) bufs -> table_wf rgs rows ->
  exists bufs' rows', foreach_buffer step bufs rows = Ok (bufs', rows') /\ table_wf rgs rows' /\ Forall2 (flushed cur P) bufs bufs' /\
    forall rg p, rg ∈ rgs -> 0 <= p -> row_mark rows' rg p <-> row_mark rows rg p \/ exists b, b ∈ bufs /\ P b /\ buffer_mark b rg p.
Proof using.
  intros Hstep. induction bufs as [|b bufs IH]; intros rows Hb Hw.
  - exists [], rows. split; [done|]. split; [done|]. split; [constructor|]. intros rg p _ _. split; [by left|].
    intros [?|(b & Hx & _)]; [done|]. by apply not_elem_of_nil in Hx.
  - apply Forall_cons_1 in Hb as [Hb Hbs]. cbn [foreach_buffer]. destruct (Hstep b rows Hb Hw) as (b1 & rows1 & -> & Hw1 & Hf & Hm).
    rewrite bind_Ok. destruct (IH rows1 Hbs Hw1) as (bufs' & rows' & -> & Hw' & Hfs & Hms). rewrite bind_Ok.
    exists (b1 :: bufs'), rows'. split; [done|]. split; [done|]. split; [by constructor|]. intros rg p Hin Hp.
    rewrite (Hms rg p Hin Hp), (Hm rg p Hin Hp). split.
    + intros [[?|[? ?]]|(b0 & ? & ?)]; [by left|right; exists b|right; exists b0]; (split; [first [apply list_elem_of_here | by apply list_elem_of_further]|done]).
    + intros [?|(b0 & Hb0 & ?)]; [by left; left|]. apply elem_of_cons in Hb0 as [->|Hb0]; [by left; right|right; by exists b0].
Qed.

Lemma same_flushed cur P b b' : same_owner b b' -> buffer_wf rgs b' -> P b ->
  (dv_subid b <> cur -> forall rg p, buffer_mark b' rg p <-> buffer_mark b rg p) ->
  (forall rg p, buffer_mark b' rg p -> buffer_mark b rg p) -> flushed cur P b b'.
Proof using. intros (S1 & S2 & S3 & S4) Hw HP Hm Hs. split; try done. by left. Qed.

Lemma flushed_refl cur (P : DeleteVectorBuffer -> Prop) b : buffer_wf rgs b -> flushed cur P b b.
Proof using. intros Hw. split; try done. by left. Qed.

(** A buffer's marks and its subtransaction's are the same when only the owner fields move. *)
Lemma no_chunks_marks b rg p : dv_chunks b = [] -> ~ buffer_mark b rg p.
Proof using. intros E (_ & c & Hc & _). rewrite E in Hc. by apply not_elem_of_nil in Hc. Qed.

Lemma subxact_step subid : flush_step subid (fun b => dv_subid b = subid) (flush_of_subxact rgs subid).
Proof using Hgo.
  intros b rows Hb Hw. unfold flush_of_subxact. destruct (Z.eqb_spec (dv_subid b) subid) as [E|Hne].
  - destruct (flush_buffer_spec rgs Hgo b false rows Hb Hw) as (b' & rows' & -> & Hw' & Hb' & So & Hm & He & _).
    exists b', rows'. split; [done|]. split; [done|]. assert (Hnil : dv_chunks b' = []) by (apply He; by left). split.
    + apply same_flushed; try done. intros rg p Hx. by apply no_chunks_marks in Hx.
    + intros rg p Hin Hp. rewrite (Hm rg p Hin Hp). tauto.
  - exists b, rows. split; [done|]. split; [done|]. split; [by apply flushed_refl|]. tauto.
Qed.

Lemma relation_step relid cur :
  flush_step cur (fun b => dv_relid b = relid /\ dv_flushedUnder b = InvalidSubTransactionId) (flush_for_relation rgs relid cur).
Proof using Hgo.
  intros b rows Hb Hw. unfold flush_for_relation. cbv zeta.
  destruct (Z.eqb_spec (dv_relid b) relid) as [Er|Hne]; cbn [negb].
  2:{ exists b, rows. split; [done|]. split; [done|]. split; [by apply flushed_refl|]. tauto. }
  destruct (Z.eqb_spec (dv_flushedUnder b) InvalidSubTransactionId) as [Ef|Hne]; cbn [negb].
  2:{ exists b, rows. split; [done|]. split; [done|]. split; [by apply flushed_refl|]. tauto. }
  destruct (flush_buffer_spec rgs Hgo b (negb (dv_subid b =? cur)) rows Hb Hw) as (b' & rows' & -> & Hw' & Hb' & So & Hm & He & Hk).
  rewrite bind_Ok. eexists _, rows'. split; [done|]. split; [done|]. split.
  2:{ intros rg p Hin Hp. rewrite (Hm rg p Hin Hp). tauto. }
  destruct (Z.eqb_spec (dv_subid b) cur) as [Es|Hne]; cbn [negb] in *.
  - assert (dv_chunks b' = []) as Hnil by (apply He; by left). rewrite Hnil. apply same_flushed; try done.
    intros rg p Hx. by apply no_chunks_marks in Hx.
  - destruct (dv_chunks b') as [|c l] eqn:Ec.
    + apply same_flushed; try done; [by intros _; apply Hk|]. intros rg p. by apply Hk.
    + destruct So as (S1 & S2 & S3 & S4). destruct Hb' as [W1 W2 W3 W4]. split; try done.
      * intros HP. by destruct HP.
      * intros _. by apply Hk.
      * intros rg p. by apply Hk.
      * right. done.
Qed.

(** With no open subtransaction, every buffer is the current level's. *)
Lemma flush_all_current cur bufs : Forall (fun b => dv_subid b = cur) bufs -> forall rows,
  PgColumnarFlushAllDeleteVectors rgs bufs rows = PgColumnarFlushDeleteVectorsOfSubXact rgs cur bufs rows.
Proof using.
  unfold PgColumnarFlushAllDeleteVectors, PgColumnarFlushDeleteVectorsOfSubXact.
  induction 1 as [|b bufs Hb Hbs IH]; intros rows; [done|]. cbn [foreach_buffer].
  assert (flush_of_subxact rgs cur b rows = delete_vector_flush_buffer rgs b false rows) as ->
    by (unfold flush_of_subxact; by rewrite Hb, Z.eqb_refl).
  destruct (delete_vector_flush_buffer _ _ _ _) as [[b' rows']| | |]; [|done..]. rewrite !bind_Ok. by rewrite IH.
Qed.

(** ** Levels *)

Lemma levels_move bufs bufs' ls As : Forall2 (level_ok rgs bufs) ls As ->
  (forall l A, l ∈ ls -> level_ok rgs bufs l A -> level_ok rgs bufs' l A) -> Forall2 (level_ok rgs bufs') ls As.
Proof using.
  induction 1 as [|l A ls As H1 H2 IH]; intros Hf; [done|]. constructor.
  - apply Hf; [apply list_elem_of_here|done].
  - apply IH. intros l' A' Hl. apply Hf. by apply list_elem_of_further.
Qed.

Lemma parent_below x d l : xact_inv rgs storage x d -> l ∈ x_parents x -> fst l < x_current x.
Proof using.
  intros Hi Hl. pose proof (xi_ids _ _ _ _ Hi) as Hs. cbn in Hs. apply StronglySorted_inv in Hs as [Hs _].
  apply StronglySorted_inv in Hs as [_ Hf]. rewrite list.Forall_forall in Hf. by apply Hf, list_elem_of_fmap_2.
Qed.

Lemma id_below x d s : xact_inv rgs storage x d -> s ∈ fst <$> levels x -> s = x_current x \/ s < x_current x.
Proof using.
  intros Hi Hs. cbn in Hs. apply elem_of_cons in Hs as [->|Hs]; [by left|right].
  apply list_elem_of_fmap in Hs as (l & -> & Hl). by eapply parent_below.
Qed.

Lemma buffer_at x d b : xact_inv rgs storage x d -> b ∈ x_bufs x -> buffer_ok rgs storage (fst <$> levels x) b.
Proof using. intros Hi. pose proof (xi_bufs _ _ _ _ Hi) as Hf. rewrite list.Forall_forall in Hf. apply Hf. Qed.

Lemma bufs_wf x d : xact_inv rgs storage x d -> Forall (buffer_wf rgs) (x_bufs x).
Proof using. intros Hi. eapply list.Forall_impl; [apply (xi_bufs _ _ _ _ Hi)|]. by intros b []. Qed.

Lemma current_level x d : xact_inv rgs storage x d -> level_ok rgs (x_bufs x) (x_current x, x_rows x) (d_rows d) /\
  Forall2 (level_ok rgs (x_bufs x)) (x_parents x) (d_saved d).
Proof using. intros Hi. pose proof (xi_levels _ _ _ _ Hi) as Hl. by apply Forall2_cons_1 in Hl. Qed.

(** The current level's buffers have nothing kept under a deeper one. *)
Lemma current_unflushed x d b : xact_inv rgs storage x d -> b ∈ x_bufs x -> dv_subid b = x_current x ->
  dv_flushedUnder b = InvalidSubTransactionId.
Proof using.
  intros Hi Hb Es. destruct (buffer_at x d b Hi Hb) as [_ _ _ [?|[Hin Hlt]]]; [done|].
  destruct (id_below x d _ Hi Hin); lia.
Qed.

(** ** Flushes keep the set *)

Section Flushed.
Context (x : Xact) (d : Deleted) (P : DeleteVectorBuffer -> Prop) (bufs' : list DeleteVectorBuffer).
Context (Hi : xact_inv rgs storage x d) (Hfl : Forall2 (flushed (x_current x) P) (x_bufs x) bufs').

Lemma flushed_fwd b : b ∈ x_bufs x -> exists b', b' ∈ bufs' /\ flushed (x_current x) P b b'.
Proof using Hfl.
  intros (i & Hl)%list_elem_of_lookup. destruct (Forall2_lookup_l _ _ _ _ _ Hfl Hl) as (b' & Hl' & Hf).
  exists b'. split; [by eapply list_elem_of_lookup_2|done].
Qed.

Lemma flushed_bwd b' : b' ∈ bufs' -> exists b, b ∈ x_bufs x /\ flushed (x_current x) P b b'.
Proof using Hfl.
  intros (i & Hl)%list_elem_of_lookup. destruct (Forall2_lookup_r _ _ _ _ _ Hfl Hl) as (b & Hl' & Hf).
  exists b. split; [by eapply list_elem_of_lookup_2|done].
Qed.

Lemma flush_current rows' : (forall b, Decision (P b)) -> table_wf rgs rows' ->
  (forall rg p, rg ∈ rgs -> 0 <= p -> row_mark rows' rg p <-> row_mark (x_rows x) rg p \/ exists b, b ∈ x_bufs x /\ P b /\ buffer_mark b rg p) ->
  level_ok rgs bufs' (x_current x, rows') (d_rows d).
Proof using Hgo Hi Hfl.
  intros Pdec Hw' Hm. destruct (current_level x d Hi) as [[T1 T2 T3] _]. split; cbn [fst snd] in *; [done|..].
  - intros sid n. rewrite T2. split; intros (rg & Hs & Hc & Hx); (exists rg; split; [done|]; split; [done|]); pose proof Hs as [Hin _];
      pose proof (proj1 (covers_small rgs Hgo rg n Hin) Hc) as Hn; rewrite Hm in * by (done || lia).
    + destruct Hx as [Hx|(b & Hb & Hle & Hx)]; [by left; left|]. destruct (Pdec b) as [HP|HP]; [left; right; by exists b|].
      right. destruct (flushed_fwd b Hb) as (b' & Hb' & Hf). rewrite (fl_other _ _ _ _ Hf HP) in Hb'. by exists b.
    + destruct Hx as [[Hx|(b & Hb & HP & Hx)]|(b' & Hb' & Hle & Hx)]; [by left|right; exists b; split; [done|]; split; [|done]|right].
      * destruct (id_below x d (dv_subid b) Hi); [apply (buffer_at x d b Hi Hb)|lia..].
      * destruct (flushed_bwd b' Hb') as (b & Hb & Hf). exists b. split; [done|]. rewrite <- (fl_subid _ _ _ _ Hf). split; [done|].
        by apply (fl_sub _ _ _ _ Hf).
  - intros b' rg p Hb' Hne Hle Hin Hp Hx. apply Hm; [done..|]. destruct (flushed_bwd b' Hb') as (b & Hb & Hf).
    destruct (fl_flag _ _ _ _ Hf) as [Ef|(HP & _)].
    + left. rewrite Ef in *. apply (T3 b); try done. by apply (fl_sub _ _ _ _ Hf).
    + right. exists b. split; [done|]. split; [done|]. by apply (fl_sub _ _ _ _ Hf).
Qed.

Lemma flush_below l A : fst l < x_current x -> level_ok rgs (x_bufs x) l A -> level_ok rgs bufs' l A.
Proof using Hfl.
  intros Hlt Hlo. eapply level_ok_bufs; [exact Hlo|..].
  - intros b rg p Hb Hle Hx. destruct (flushed_fwd b Hb) as (b' & Hb' & Hf). exists b'. split; [done|]. rewrite (fl_subid _ _ _ _ Hf).
    split; [done|]. apply (fl_marks _ _ _ _ Hf); [lia|done].
  - intros b' rg p Hb' Hle Hx. destruct (flushed_bwd b' Hb') as (b & Hb & Hf). exists b. rewrite <- (fl_subid _ _ _ _ Hf).
    split; [done|]. split; [done|]. by apply (fl_sub _ _ _ _ Hf).
  - intros b' rg p Hb' Hne Hle Hx. destruct (flushed_bwd b' Hb') as (b & Hb & Hf). destruct (fl_flag _ _ _ _ Hf) as [Ef|(_ & Ef & _)]; [|lia].
    exists b. rewrite Ef in *. split; [done|]. split; [done|]. split; [done|]. by apply (fl_sub _ _ _ _ Hf).
Qed.
End Flushed.

Lemma flush_keeps x d P step : xact_inv rgs storage x d -> flush_step (x_current x) P step -> (forall b, Decision (P b)) ->
  exists br, foreach_buffer step (x_bufs x) (x_rows x) = Ok br /\ xact_inv rgs storage (with_marks x br) d /\
    (forall rg p, rg ∈ rgs -> 0 <= p -> row_mark (snd br) rg p <-> row_mark (x_rows x) rg p \/ exists b, b ∈ x_bufs x /\ P b /\ buffer_mark b rg p).
Proof using Hgo.
  intros Hi Hstep Pdec. destruct (current_level x d Hi) as [[T1 _ _] Hps].
  destruct (foreach_spec (x_current x) P step (x_bufs x) Hstep (x_rows x)) as (bufs' & rows' & E & Hw' & Hfl & Hm);
    [by eapply bufs_wf|done|]. exists (bufs', rows'). split; [done|]. split; [|done]. split.
  - constructor; [exact (flush_current x d P bufs' Hi Hfl rows' Pdec Hw' Hm)|]. eapply levels_move; [exact Hps|]. intros l A Hl Hlo.
    eapply flush_below; [exact Hfl|by eapply parent_below|done].
  - apply list.Forall_forall. intros b' Hb'. destruct (flushed_bwd x P bufs' Hfl b' Hb') as (b & Hb & Hf).
    destruct (buffer_at x d b Hi Hb) as [B1 B2 B3 B4].
    split; [apply Hf|by rewrite (fl_storage _ _ _ _ Hf), (fl_relid _ _ _ _ Hf)|by rewrite (fl_subid _ _ _ _ Hf)|].
    rewrite (fl_subid _ _ _ _ Hf). destruct (fl_flag _ _ _ _ Hf) as [->|(_ & -> & Hne)]; [done|]. right.
    split; [apply list_elem_of_here|]. destruct (id_below x d _ Hi B3); [done|lia].
  - apply (xi_ids _ _ _ _ Hi).
  - apply (xi_pos _ _ _ _ Hi).
Qed.

(** ** Marks *)

Lemma elem_of_update (bufs : list DeleteVectorBuffer) i b b' : bufs !! i = Some b ->
  b' ∈ <[i := b']> bufs /\ (forall c, c ∈ <[i := b']> bufs -> c = b' \/ c ∈ bufs) /\ (forall c, c ∈ bufs -> c = b \/ c ∈ <[i := b']> bufs).
Proof using.
  intros Hi. pose proof (lookup_lt_Some _ _ _ Hi) as Hlt. split; [|split].
  - apply list_elem_of_lookup. exists i. by apply list_lookup_insert_eq.
  - intros c (j & Hj)%list_elem_of_lookup. destruct (decide (i = j)) as [<-|Hne].
    + rewrite list_lookup_insert_eq in Hj by done. left. congruence.
    + rewrite list_lookup_insert_ne in Hj by done. right. by eapply list_elem_of_lookup_2.
  - intros c (j & Hj)%list_elem_of_lookup. destruct (decide (i = j)) as [<-|Hne]; [left; congruence|right].
    apply list_elem_of_lookup. exists j. by rewrite list_lookup_insert_ne.
Qed.

Lemma mark_level bufs i b b' rg n cur rows A : bufs !! i = Some b -> in_storage rgs (dv_storage b) rg -> group_covers n rg ->
  dv_subid b = cur -> same_owner b b' -> dv_flushedUnder b = InvalidSubTransactionId ->
  (forall rg' p, in_storage rgs (dv_storage b) rg' -> 0 <= p ->
     buffer_mark b' rg' p <-> buffer_mark b rg' p \/ (rg' = rg /\ p = n - rg_firstRowNumber rg)) ->
  level_ok rgs bufs (cur, rows) A -> level_ok rgs (<[i := b']> bufs) (cur, rows) ({[(dv_storage b, n)]} ∪ A).
Proof using Hgo.
  intros Hi Hrg Hc Es (S1 & S2 & S3 & S4) Ef Hm [H1 H2 H3]. destruct (elem_of_update bufs i b b' Hi) as (U1 & U2 & U3). cbn [fst snd] in *.
  assert (Hst : forall rg' p, buffer_mark b' rg' p -> rg' ∈ rgs -> in_storage rgs (dv_storage b) rg').
  { intros rg' p (E & _) Hin. split; [done|congruence]. }
  split; [done|..]; cbn [fst snd].
  - intros sid m. rewrite elem_of_union, elem_of_singleton, H2. split.
    + intros [[= -> ->]|(rg' & Hs & Hc' & Hx)].
      * exists rg. split; [done|]. split; [done|]. right. exists b'. split; [done|]. split; [lia|].
        apply Hm; [done| |by right]. apply (covers_small rgs Hgo) in Hc; [lia|apply Hrg].
      * exists rg'. split; [done|]. split; [done|]. destruct Hx as [Hx|(c & Hcin & Hle & Hx)]; [by left|right].
        destruct (U3 c Hcin) as [->|Hin]; [|by exists c]. exists b'. split; [done|]. split; [lia|]. apply Hm; [|..|by left].
        -- destruct Hs as [Hs1 Hs2]. split; [done|]. by destruct Hx.
        -- apply (covers_small rgs Hgo) in Hc'; [lia|apply Hs].
    + intros (rg' & Hs & Hc' & [Hx|(c & Hcin & Hle & Hx)]); [right; exists rg'; by auto|].
      destruct (U2 c Hcin) as [->|Hin]; [|right; exists rg'; split; [done|]; split; [done|]; right; by exists c].
      pose proof Hs as [Hs1 Hs2]. pose proof (proj1 (covers_small rgs Hgo rg' m Hs1) Hc').
      apply Hm in Hx as [Hx|[-> Hx]]; [|left|by eapply Hst|lia].
      * right. exists rg'. split; [done|]. split; [done|]. right. exists b. split; [by eapply list_elem_of_lookup_2|]. split; [lia|done].
      * f_equal; [destruct Hrg; congruence|lia].
  - intros c rg' p Hcin Hne Hle Hin Hp Hx. destruct (U2 c Hcin) as [->|Hin']; [by rewrite S4 in Hne|by apply (H3 c)].
Qed.

Lemma mark_keeps x d i b b' rg n : xact_inv rgs storage x d -> x_bufs x !! i = Some b -> dv_subid b = x_current x ->
  in_storage rgs (dv_storage b) rg -> group_covers n rg -> buffer_wf rgs b' -> same_owner b b' ->
  (forall rg' p, in_storage rgs (dv_storage b) rg' -> 0 <= p ->
     buffer_mark b' rg' p <-> buffer_mark b rg' p \/ (rg' = rg /\ p = n - rg_firstRowNumber rg)) ->
  xact_inv rgs storage (with_marks x (<[i := b']> (x_bufs x), x_rows x)) (mkDeleted ({[(dv_storage b, n)]} ∪ d_rows d) (d_saved d)).
Proof using Hgo.
  intros Hi Hl Es Hrg Hc Hw' So Hm. destruct (current_level x d Hi) as [Ht Hps]. pose proof (list_elem_of_lookup_2 _ _ _ Hl) as Hb.
  pose proof (current_unflushed x d b Hi Hb Es) as Ef. pose proof So as (S1 & S2 & S3 & S4).
  destruct (elem_of_update (x_bufs x) i b b' Hl) as (U1 & U2 & U3). split.
  - constructor; cbn [x_bufs with_marks fst snd x_current x_rows d_rows d_saved]; [by eapply mark_level|].
    eapply levels_move; [exact Hps|]. intros l A Hlin Hlo. pose proof (parent_below x d l Hi Hlin) as Hlt.
    eapply level_ok_bufs; [exact Hlo|..].
    + intros c rg' p Hcin Hle Hx. destruct (U3 c Hcin) as [->|]; [lia|by exists c].
    + intros c rg' p Hcin Hle Hx. destruct (U2 c Hcin) as [->|]; [lia|by exists c].
    + intros c rg' p Hcin Hne Hle Hx. destruct (U2 c Hcin) as [->|]; [by rewrite S4 in Hne|by exists c].
  - apply list.Forall_forall. intros c Hcin. cbn in Hcin. change (fst <$> levels (with_marks _ _)) with (fst <$> levels x).
    destruct (U2 c Hcin) as [->|]; [|by eapply buffer_at]. destruct (buffer_at x d b Hi Hb) as [B1 B2 B3 B4].
    split; [done|congruence|by rewrite S3|]. rewrite S4. by left.
  - apply (xi_ids _ _ _ _ Hi).
  - apply (xi_pos _ _ _ _ Hi).
Qed.

(** A new buffer holds no marks. *)
Lemma new_buffer_keeps x d relid : xact_inv rgs storage x d ->
  xact_inv rgs storage (with_marks x (x_bufs x ++ [mkBuffer relid (storage relid) (x_current x) InvalidSubTransactionId [] [] None None], x_rows x)) d.
Proof using.
  intros Hi. set (b := mkBuffer _ _ _ _ _ _ _ _). split.
  - change (levels (with_marks _ _)) with (levels x). eapply levels_move; [apply (xi_levels _ _ _ _ Hi)|]. intros l A Hl Hlo.
    eapply level_ok_bufs; [exact Hlo|..]; cbn [x_bufs with_marks fst].
    + intros c rg p Hc Hle Hx. exists c. split; [apply elem_of_app; by left|done].
    + intros c rg p [Hc|Hc%list_elem_of_singleton]%elem_of_app Hle Hx; [by exists c|]. subst c. by apply no_chunks_marks in Hx.
    + intros c rg p [Hc|Hc%list_elem_of_singleton]%elem_of_app Hne Hle Hx; [by exists c|]. subst c. by apply no_chunks_marks in Hx.
  - apply Forall_app_2; [apply (xi_bufs _ _ _ _ Hi)|]. apply Forall_singleton.
    split; [split; cbn; by constructor|done|apply list_elem_of_here|by left].
  - apply (xi_ids _ _ _ _ Hi).
  - apply (xi_pos _ _ _ _ Hi).
Qed.

(** The buffer of the storage in the current subtransaction. *)
Lemma get_buffer_spec x d relid : xact_inv rgs storage x d ->
  exists bufs i b, delete_vector_get_buffer (x_bufs x) relid (storage relid) (x_current x) = (bufs, i) /\
    xact_inv rgs storage (with_marks x (bufs, x_rows x)) d /\ bufs !! i = Some b /\ dv_storage b = storage relid /\ dv_subid b = x_current x.
Proof using.
  intros Hi. unfold delete_vector_get_buffer. destruct (list_find _ (x_bufs x)) as [[i b]|] eqn:Ef.
  - apply list_find_Some in Ef as (Hl & [? ?] & _). exists (x_bufs x), i, b. split; [done|]. split; [|done]. by destruct x.
  - eexists _, _, _. split; [done|]. split; [by apply new_buffer_keeps|]. split; [by apply list_lookup_middle|done].
Qed.

Lemma find_covering_none sid n l : ~ row_exists rgs sid n -> Forall (in_storage rgs sid) l -> find_covering n l = None.
Proof using.
  intros Hno Hl. unfold find_covering. destruct (list_find _ l) as [[i g]|] eqn:Ef; [|done].
  apply list_find_Some in Ef as (Hi & Hg & _). destruct (Forall_lookup_1 _ _ _ _ Hl Hi) as [Hgin Hgs]. destruct Hno.
  apply Exists_exists. exists g. split; [by apply list_elem_of_In|done].
Qed.

Lemma mark_no_group b n : buffer_wf rgs b -> ~ row_exists rgs (dv_storage b) n ->
  mark_in_buffer rgs b n = Err "columnar: cannot delete row: no row group covers it".
Proof using.
  intros [_ _ W3 W4] Hno. unfold mark_in_buffer, delete_vector_find_row_group.
  rewrite (find_covering_none (dv_storage b)) by done.
  rewrite (find_covering_none (dv_storage b)) by (done || apply storage_list).
  destruct (dv_lastGroup b) as [g|]; [|done]. destruct (decide (group_covers n g)) as [Hg|]; [|done]. destruct W4 as [Hgin Hgs].
  destruct Hno. apply Exists_exists. exists g. split; [by apply list_elem_of_In|done].
Qed.

(** One step of the code and of the specification. *)
Definition step_ok (r : res Xact) (o : option Deleted) : Prop :=
  match o with
  | Some d => exists x, r = Ok x /\ xact_inv rgs storage x d
  | None => exists msg, r = Err msg
  end.

Lemma mark_step x d relid n : xact_inv rgs storage x d ->
  step_ok (xact_step rgs storage (MarkDeleted relid n) x) (spec_step rgs storage (MarkDeleted relid n) d).
Proof using Hgo.
  intros Hi. cbn [xact_step spec_step]. unfold PgColumnarMarkRowDeleted.
  destruct (get_buffer_spec x d relid Hi) as (bufs & i & b & -> & Hi' & Hl & Es & Ec). rewrite Hl.
  assert (Hb : buffer_wf rgs b).
  { eapply (list.Forall_lookup_1 _ _ _ _ (bufs_wf _ _ Hi')). exact Hl. }
  destruct (decide _) as [Hex|Hno]; rewrite <- Es in *; cbn [step_ok].
  - apply Exists_exists in Hex as (rg & Hin%list_elem_of_In & Hs & Hc).
    destruct (mark_in_buffer_spec rgs Hgo b rg n Hb) as (b' & -> & Hw' & So & Hm); [done|done|]. rewrite !bind_Ok.
    eexists. split; [done|]. exact (mark_keeps _ _ i b b' rg n Hi' Hl Ec (conj Hin Hs) Hc Hw' So Hm).
  - rewrite mark_no_group by done. by eexists.
Qed.

Lemma begin_step x d : xact_inv rgs storage x d ->
  step_ok (xact_step rgs storage SubBegin x) (spec_step rgs storage SubBegin d).
Proof using.
  intros Hi. cbn [xact_step spec_step step_ok]. eexists. split; [done|]. destruct (current_level x d Hi) as [Ht _].
  pose proof (xi_ids _ _ _ _ Hi) as Hs. pose proof (StronglySorted_inv Hs) as [_ Hnext]. rewrite list.Forall_forall in Hnext.
  assert (Hlt : forall b, b ∈ x_bufs x -> dv_subid b <= x_current x /\ (dv_flushedUnder b <> InvalidSubTransactionId -> dv_flushedUnder b <= x_current x)).
  { intros b Hb. destruct (buffer_at x d b Hi Hb) as [_ _ B3 B4]. split; [destruct (id_below x d _ Hi B3); lia|].
    intros Hne. destruct B4 as [?|[B4 _]]; [done|]. destruct (id_below x d _ Hi B4); lia. }
  assert (Hc : x_current x < x_next x) by apply Hnext, list_elem_of_here.
  split; unfold levels; cbn [x_bufs x_current x_rows x_parents d_rows d_saved x_next].
  - constructor; [|apply (xi_levels _ _ _ _ Hi)]. destruct Ht as [T1 T2 T3]. split; cbn [fst snd] in *; [done|..].
    + intros sid n. rewrite T2. unfold held. split; intros (rg & Hrg & Hcov & [Hx|(b & Hb & Hle & Hx)]);
        (exists rg; split; [done|]; split; [done|]); (by left) || (right; exists b; split; [done|]; split; [|done]).
      * lia.
      * by apply Hlt.
    + intros b rg p Hb Hne Hle. apply T3; [done|done|]. by apply Hlt.
  - eapply list.Forall_impl; [apply (xi_bufs _ _ _ _ Hi)|]. intros b [B1 B2 B3 B4].
    split; [done|done|by apply list_elem_of_further|]. destruct B4 as [?|[? ?]]; [by left|right; split; [by apply list_elem_of_further|done]].
  - cbn [fmap list_fmap]. constructor; [exact Hs|]. apply list.Forall_forall. intros s Hin.
    apply elem_of_cons in Hin as [->|Hin]; [cbn; lia|]. specialize (Hnext s Hin). lia.
  - cbn. constructor; [|apply (xi_pos _ _ _ _ Hi)]. pose proof (xi_pos _ _ _ _ Hi) as Hp. apply Forall_cons_1 in Hp as [Hp _]. cbn in *. lia.
Qed.

(** ** Ends of subtransactions *)

(** What promotion does to a buffer of an open level. *)
Lemma promote_spec ids cur parent b : buffer_ok rgs storage ids b -> parent < cur -> 0 < parent ->
  (forall s, s ∈ ids -> s = cur \/ s <= parent) ->
  let b' := promote_buffer cur parent b in
  buffer_wf rgs b' /\ dv_storage b' = dv_storage b /\ dv_relid b' = dv_relid b /\
  dv_subid b' = (if dv_subid b =? cur then parent else dv_subid b) /\
  (dv_flushedUnder b' = InvalidSubTransactionId \/
   dv_subid b' < dv_flushedUnder b' /\ dv_flushedUnder b' = (if dv_flushedUnder b =? cur then parent else dv_flushedUnder b)) /\
  (forall rg p, buffer_mark b' rg p -> buffer_mark b rg p) /\
  (forall rg p, buffer_mark b rg p -> buffer_mark b' rg p \/ (dv_flushedUnder b = cur /\ dv_subid b = parent)).
Proof using.
  intros [B1 B2 B3 B4] Hlt Hpos Hids. unfold promote_buffer. destruct (Z.eqb_spec (dv_subid b) cur) as [Es|Hs].
  - assert (Ef : dv_flushedUnder b = InvalidSubTransactionId) by (destruct B4 as [?|[Hf ?]]; [done|destruct (Hids _ Hf); lia]).
    cbn [dv_flushedUnder dv_subid with_subxact]. rewrite Ef. unfold InvalidSubTransactionId. rewrite (proj2 (Z.eqb_neq 0 cur)) by lia.
    cbn. destruct B1. split; [by split|]. split; [done|]. split; [done|]. split; [done|]. split; [by left|]. split; [done|]. by left.
  - destruct (Z.eqb_spec (dv_flushedUnder b) cur) as [Ef|Hf].
    + destruct (Z.eqb_spec parent (dv_subid b)) as [Ep|Hp].
      * cbn. split; [split; cbn; by constructor|]. split; [done|]. split; [done|]. split; [done|]. split; [by left|]. split; [|by right].
        intros rg p Hx. by apply no_chunks_marks in Hx.
      * cbn. destruct (Hids _ B3); [done|]. destruct B1. split; [by split|]. split; [done|]. split; [done|]. split; [done|]. split; [right; split; [lia|done]|].
        split; [done|]. by left.
    + split; [done|]. split; [done|]. split; [done|]. split; [done|]. split; [|split; [done|by left]]. destruct B4 as [?|[? ?]]; [by left|by right].
Qed.

Lemma ids_split x d parent saved parents : xact_inv rgs storage x d -> x_parents x = (parent, saved) :: parents ->
  parent < x_current x /\ 0 < parent /\ (forall s, s ∈ fst <$> levels x -> s = x_current x \/ s ∈ parent :: (fst <$> parents)) /\
  (forall s, s ∈ fst <$> levels x -> s = x_current x \/ s <= parent) /\
  (forall s, s ∈ fst <$> parents -> s < parent) /\
  StronglySorted (fun a b => b < a) (x_next x :: parent :: (fst <$> parents)) /\ Forall (fun s => 0 < s) (parent :: (fst <$> parents)).
Proof using.
  intros Hi E. pose proof (xi_ids _ _ _ _ Hi) as Hs. pose proof (xi_pos _ _ _ _ Hi) as Hp. unfold levels in *. rewrite E in *.
  cbn [fmap list_fmap fst] in *. apply StronglySorted_inv in Hs as [Hs Hn]. apply StronglySorted_inv in Hs as [Hs Hc].
  apply Forall_cons_1 in Hp as [_ Hp]. pose proof Hs as Hs'. apply StronglySorted_inv in Hs' as [_ Hpar].
  rewrite list.Forall_forall in Hpar. split; [by apply Forall_cons_1 in Hc as [? _]|]. split; [by apply Forall_cons_1 in Hp as [? _]|].
  split; [by intros s Hin%elem_of_cons|]. split.
  { intros s Hin. apply elem_of_cons in Hin as [->|Hin]; [by left|right]. apply elem_of_cons in Hin as [->|Hin]; [lia|].
    specialize (Hpar s Hin). lia. }
  split; [done|]. split; [|done]. constructor; [done|]. by apply Forall_cons_1 in Hn as [_ ?].
Qed.

(** The parent's level after the commit of its child, and the levels below. *)
Lemma commit_level x d parent bufs' : xact_inv rgs storage x d -> parent < x_current x -> 0 < parent ->
  (forall s, s ∈ fst <$> levels x -> s = x_current x \/ s <= parent) ->
  bufs' = PgColumnarDeleteVectorPromoteSubXact (x_current x) parent (x_bufs x) ->
  level_ok rgs bufs' (parent, x_rows x) (d_rows d).
Proof using Hgo.
  intros Hi Hlt Hpos Hids ->. destruct (current_level x d Hi) as [[T1 T2 T3] _]. cbn [fst snd] in *.
  assert (Hpr : forall b, b ∈ x_bufs x -> _) by (intros b Hb; exact (promote_spec _ _ parent b (buffer_at x d b Hi Hb) Hlt Hpos Hids)).
  cbv zeta in Hpr. unfold PgColumnarDeleteVectorPromoteSubXact.
  assert (Hsub : forall b, b ∈ x_bufs x -> dv_subid b <= x_current x /\ dv_subid (promote_buffer (x_current x) parent b) <= parent).
  { intros b Hb. destruct (Hpr b Hb) as (_ & _ & _ & -> & _). destruct (Hids (dv_subid b)); [apply (buffer_at x d b Hi Hb)|..];
      destruct (Z.eqb_spec (dv_subid b) (x_current x)); lia. }
  split; cbn [fst snd]; [done|..].
  - intros sid n. rewrite T2. split; intros (rg & Hrg & Hc & [Hx|(b & Hb & Hle & Hx)]); (exists rg; split; [done|]; split; [done|]); try (by left).
    + pose proof (Hpr b Hb) as (_ & _ & _ & _ & _ & _ & Hfw). destruct (Hfw _ _ Hx) as [Hy|[Ef Es]].
      * right. eexists. split; [by apply list_elem_of_fmap_2|]. split; [by apply Hsub|done].
      * left. destruct Hrg as [Hin _]. apply (covers_small rgs Hgo) in Hc; [|done].
        apply (T3 b); try done; unfold InvalidSubTransactionId; lia.
    + apply list_elem_of_fmap in Hb as (b0 & -> & Hb0). right. exists b0. split; [done|]. split; [by apply Hsub|]. by apply (Hpr b0 Hb0).
  - intros b' rg p (b & -> & Hb)%list_elem_of_fmap_1 Hne Hle Hin Hp Hx. pose proof (Hpr b Hb) as (_ & _ & _ & _ & Hf & Hm & _).
    destruct Hf as [?|[_ Ef]]; [done|]. rewrite Ef in *. unfold InvalidSubTransactionId in *.
    apply (T3 b); [done|destruct (Z.eqb_spec (dv_flushedUnder b) (x_current x)); unfold InvalidSubTransactionId; lia..|done|done|by apply Hm].
Qed.

Lemma commit_below x d parent bufs' l A : xact_inv rgs storage x d -> parent < x_current x -> 0 < parent ->
  (forall s, s ∈ fst <$> levels x -> s = x_current x \/ s <= parent) ->
  bufs' = PgColumnarDeleteVectorPromoteSubXact (x_current x) parent (x_bufs x) -> fst l < parent ->
  level_ok rgs (x_bufs x) l A -> level_ok rgs bufs' l A.
Proof using.
  intros Hi Hlt Hpos Hids -> Hl Hlo.
  assert (Hpr : forall b, b ∈ x_bufs x -> _) by (intros b Hb; exact (promote_spec _ _ parent b (buffer_at x d b Hi Hb) Hlt Hpos Hids)).
  cbv zeta in Hpr. unfold PgColumnarDeleteVectorPromoteSubXact. eapply level_ok_bufs; [exact Hlo|..].
  - intros b rg p Hb Hle Hx. exists (promote_buffer (x_current x) parent b). split; [by apply list_elem_of_fmap_2|].
    destruct (Hpr b Hb) as (_ & _ & _ & -> & _ & _ & Hm). rewrite (proj2 (Z.eqb_neq _ _)) by lia. split; [done|].
    destruct (Hm _ _ Hx) as [?|[_ ?]]; [done|lia].
  - intros b' rg p (b & -> & Hb)%list_elem_of_fmap_1 Hle Hx. exists b. split; [done|].
    destruct (Hpr b Hb) as (_ & _ & _ & E & _ & Hm & _). split; [|by apply Hm].
    rewrite E in Hle. destruct (Z.eqb_spec (dv_subid b) (x_current x)); lia.
  - intros b' rg p (b & -> & Hb)%list_elem_of_fmap_1 Hne Hle Hx. exists b. split; [done|].
    destruct (Hpr b Hb) as (_ & _ & _ & _ & [?|[_ Ef]] & Hm & _); [done|]. rewrite Ef in *.
    destruct (Z.eqb_spec (dv_flushedUnder b) (x_current x)); [lia|]. split; [done|]. split; [done|by apply Hm].
Qed.

Lemma commit_step x d : xact_inv rgs storage x d ->
  step_ok (xact_step rgs storage SubCommit x) (spec_step rgs storage SubCommit d).
Proof using Hgo.
  intros Hi. cbn [xact_step spec_step]. unfold pgcolumnar_subxact_callback. destruct (current_level x d Hi) as [_ Hps].
  destruct (x_parents x) as [|[parent saved] parents] eqn:Ep; [inv Hps; by eexists|].
  apply Forall2_cons_inv_l in Hps as (A & As & Hpar & Hps & ->). cbn [step_ok]. eexists. split; [done|].
  destruct (ids_split x d parent saved parents Hi Ep) as (Hlt & Hpos & Hids & Hids' & Hbelow & Hsort & Hallpos).
  split; unfold levels; cbn [x_bufs x_current x_rows x_parents d_rows d_saved x_next]; [|..|done|done].
  - constructor; [by eapply commit_level|]. eapply levels_move; [exact Hps|]. intros l B Hl Hlo.
    eapply commit_below; try done. by apply Hbelow, list_elem_of_fmap_2.
  - apply list.Forall_forall. intros b' (b & -> & Hb)%list_elem_of_fmap_1. pose proof (buffer_at x d b Hi Hb) as Hbo.
    destruct (promote_spec _ _ parent b Hbo Hlt Hpos Hids') as (P1 & P2 & P3 & P4 & P5 & _). destruct Hbo as [B1 B2 B3 B4].
    split; [done|congruence|..]; cbn [fmap list_fmap fst].
    + rewrite P4. destruct (Z.eqb_spec (dv_subid b) (x_current x)); [apply list_elem_of_here|]. by destruct (Hids _ B3).
    + destruct P5 as [?|[P5 P6]]; [by left|right]. split; [|done]. rewrite P6 in *.
      destruct (Z.eqb_spec (dv_flushedUnder b) (x_current x)); [apply list_elem_of_here|]. destruct B4 as [B4|[B4 _]].
      * rewrite B4, P4 in P5. unfold InvalidSubTransactionId in P5. exfalso.
        assert (0 < dv_subid b) by (pose proof (xi_pos _ _ _ _ Hi) as Hp; rewrite list.Forall_forall in Hp; by apply Hp).
        destruct (Z.eqb_spec (dv_subid b) (x_current x)); lia.
      * by destruct (Hids _ B4).
Qed.

Lemma abort_step x d : xact_inv rgs storage x d ->
  step_ok (xact_step rgs storage SubAbort x) (spec_step rgs storage SubAbort d).
Proof using.
  intros Hi. cbn [xact_step spec_step]. unfold pgcolumnar_subxact_callback. destruct (current_level x d Hi) as [_ Hps].
  destruct (x_parents x) as [|[parent saved] parents] eqn:Ep; [inv Hps; by eexists|].
  destruct (d_saved d) as [|A As] eqn:Ed; [inv Hps|]. cbn [step_ok]. eexists. split; [done|].
  destruct (ids_split x d parent saved parents Hi Ep) as (Hlt & Hpos & Hids & Hids' & Hbelow & Hsort & Hallpos).
  set (drop := fun b => if dv_subid b =? x_current x then None
    else Some (if dv_flushedUnder b =? x_current x then with_subxact b (dv_subid b) InvalidSubTransactionId else b)).
  change (PgColumnarDeleteVectorDiscardSubXact (x_current x) (x_bufs x)) with (omap drop (x_bufs x)).
  assert (Hd : forall b', b' ∈ omap drop (x_bufs x) <-> exists b, b ∈ x_bufs x /\ dv_subid b <> x_current x /\
      b' = if dv_flushedUnder b =? x_current x then with_subxact b (dv_subid b) InvalidSubTransactionId else b).
  { intros b'. rewrite list_elem_of_omap. unfold drop. split.
    - intros (b & Hb & E). exists b. destruct (Z.eqb_spec (dv_subid b) (x_current x)); [done|]. by injection E as <-.
    - intros (b & Hb & Hne & ->). exists b. split; [done|]. by rewrite (proj2 (Z.eqb_neq _ _)). }
  split; unfold levels; cbn [x_bufs x_current x_rows x_parents d_rows d_saved x_next]; [|..|done|done].
  - eapply levels_move; [exact Hps|]. intros l B Hl Hlo.
    assert (Hll : fst l <= parent) by (apply elem_of_cons in Hl as [->|Hl]; [done|]; apply Z.lt_le_incl, Hbelow; by apply list_elem_of_fmap_2).
    eapply level_ok_bufs; [exact Hlo|..].
    + intros b rg p Hb Hle Hx. eexists. split; [apply Hd; exists b; split; [done|]; split; [lia|done]|]. by destruct (_ =? _).
    + intros b' rg p (b & Hb & Hne & ->)%Hd Hle Hx. exists b. split; [done|]. by destruct (_ =? _).
    + intros b' rg p (b & Hb & Hne & ->)%Hd Hf Hle Hx. exists b. by destruct (_ =? _).
  - apply list.Forall_forall. intros b' (b & Hb & Hne & ->)%Hd. destruct (buffer_at x d b Hi Hb) as [B1 B2 B3 B4].
    destruct (Hids _ B3) as [?|B3']; [done|]. destruct (Z.eqb_spec (dv_flushedUnder b) (x_current x)) as [Ef|Hf].
    + destruct B1. split; cbn; [by split|done|done|by left].
    + split; [done|done|done|]. destruct B4 as [?|[B4 ?]]; [by left|right]. by destruct (Hids _ B4).
Qed.

(** ** Runs *)

#[local] Instance relation_dec relid b : Decision (dv_relid b = relid /\ dv_flushedUnder b = InvalidSubTransactionId) := _.

Lemma scan_start_spec x d relid : xact_inv rgs storage x d ->
  exists x', scan_start rgs relid x = Ok x' /\ xact_inv rgs storage x' d /\
    forall n, (storage relid, n) ∈ deleted_rows rgs (x_rows x') <-> (storage relid, n) ∈ d_rows d.
Proof using Hgo Hinj.
  intros Hi. unfold scan_start, PgColumnarFlushDeleteVectorForRelation. destruct (current_level x d Hi) as [[T1 T2 T3] _]. cbn [fst snd] in *.
  destruct (flush_keeps x d _ _ Hi (relation_step relid (x_current x)) _) as (br & -> & Hi' & Hm).
  rewrite bind_Ok. eexists. split; [done|]. split; [done|]. intros n.
  destruct (current_level _ d Hi') as [[T1' _ _] _]. cbn [x_rows with_marks snd] in *.
  rewrite (elem_of_deleted_rows (snd br) _ _ T1'), T2.
  split; intros (rg & Hrg & Hc & Hx); (exists rg; split; [done|]; split; [done|]); pose proof Hrg as [Hin Hs];
    pose proof (proj1 (covers_small rgs Hgo rg n Hin) Hc); rewrite Hm in * by (done || lia).
  - destruct Hx as [Hx|(b & Hb & _ & Hx)]; [by left|right]. exists b. split; [done|]. split; [|done].
    destruct (id_below x d (dv_subid b) Hi); [apply (buffer_at x d b Hi Hb)|lia..].
  - destruct Hx as [Hx|(b & Hb & Hle & Hx)]; [by left|]. destruct (buffer_at x d b Hi Hb) as [_ B2 _ B4].
    destruct (decide (dv_flushedUnder b = InvalidSubTransactionId)) as [Ef|Hne].
    + right. exists b. split; [done|]. split; [|done]. split; [|done]. apply Hinj. destruct Hx as [Hx _]. congruence.
    + left. apply (T3 b); try done; [|lia]. destruct B4 as [?|[B4 _]]; [done|]. destruct (id_below x d _ Hi B4); lia.
Qed.

Lemma step_spec o x d : xact_inv rgs storage x d -> step_ok (xact_step rgs storage o x) (spec_step rgs storage o d).
Proof using Hgo Hinj.
  intros Hi. destruct o as [relid n|relid| | | |].
  - by apply mark_step.
  - destruct (scan_start_spec x d relid Hi) as (x' & E & Hi' & _). by exists x'.
  - cbn [xact_step spec_step step_ok]. unfold pgcolumnar_executor_end, PgColumnarFlushDeleteVectorsOfSubXact.
    destruct (flush_keeps x d _ _ Hi (subxact_step (x_current x)) _) as (br & -> & Hi' & _). rewrite bind_Ok. by eexists.
  - by apply begin_step.
  - by apply commit_step.
  - by apply abort_step.
Qed.

Lemma steps_spec ops : forall x d, xact_inv rgs storage x d ->
  step_ok (xact_steps rgs storage ops x) (spec_steps rgs storage ops d).
Proof using Hgo Hinj.
  induction ops as [|o ops IH]; intros x d Hi; [by exists x|]. cbn [xact_steps spec_steps]. pose proof (step_spec o x d Hi) as Hs.
  destruct (spec_step rgs storage o d) as [d'|]; cbn [step_ok mbind option_bind] in *.
  - destruct Hs as (x' & -> & Hi'). rewrite bind_Ok. by apply IH.
  - destruct Hs as (msg & ->). by exists msg.
Qed.

Lemma begin_inv rows : table_wf rgs rows -> xact_inv rgs storage (begin_xact rows) (mkDeleted (deleted_rows rgs rows) []).
Proof using Hgo.
  intros Hw. split; cbn.
  - constructor; [|constructor]. split; cbn; [done|..].
    + intros sid n. rewrite elem_of_deleted_rows by done. split; intros (rg & ? & ? & Hx); exists rg; (split; [done|]; split; [done|]).
      * by left.
      * destruct Hx as [?|(b & Hb & _)]; [done|]. by apply not_elem_of_nil in Hb.
    + intros b rg p Hb. by apply not_elem_of_nil in Hb.
  - constructor.
  - repeat constructor.
  - repeat constructor.
Qed.

Lemma buffered_spec x d relid n : xact_inv rgs storage x d -> row_exists rgs (storage relid) n ->
  (storage relid, n) ∈ d_rows d <->
  (storage relid, n) ∈ deleted_rows rgs (x_rows x) \/ PgColumnarDeleteVectorBufferedDeleted (x_bufs x) relid n = true.
Proof using Hgo Hinj.
  intros Hi Hex. apply Exists_exists in Hex as (rg & Hin%list_elem_of_In & Hs & Hc). destruct (current_level x d Hi) as [[T1 T2 T3] _].
  cbn [fst snd] in *. rewrite elem_of_deleted_rows, T2 by done.
  rewrite (buffered_deleted rgs Hgo (x_bufs x) relid rg n); [|by eapply bufs_wf|done|done|].
  2:{ intros b Hb. rewrite (bo_storage _ _ _ _ (buffer_at x d b Hi Hb)), Hs. split; [by intros ->|by intros ?%Hinj]. }
  assert (Hone : forall rg', in_storage rgs (storage relid) rg' -> group_covers n rg' -> rg' = rg).
  { intros rg' [Hin' Hs'] Hc'. eapply (go_apart _ Hgo); try done. congruence. }
  split.
  - intros (rg' & Hrg & Hc' & Hx). rewrite (Hone rg' Hrg Hc') in *. destruct Hx as [Hx|(b & Hb & _ & Hx)]; [left; by exists rg|right; by exists b].
  - intros [(rg' & Hrg & Hc' & Hx)|(b & Hb & Hx)].
    + exists rg'. auto.
    + exists rg. split; [done|]. split; [done|]. right. exists b. split; [done|]. split; [|done].
      destruct (id_below x d (dv_subid b) Hi); [apply (buffer_at x d b Hi Hb)|lia..].
Qed.

(** ** Commit *)

(** The rows of a group in a set. *)
Definition group_rows (rg : FreeSpace.NativeRowGroupMetadata) (A : gset (Z * Z)) : gset (Z * Z) :=
  filter (fun k => fst k = rg_storageId rg /\ group_covers (snd k) rg) A.

Lemma deleted_count rows rg : table_wf rgs rows -> rg ∈ rgs ->
  PgColumnarGroupDeletedCount rows (rg_storageId rg) rg = Z.of_nat (size (group_rows rg (deleted_rows rgs rows))).
Proof using Hgo.
  intros Hw Hin. destruct (want_bounds rgs Hgo rg Hin) as (Hwb & _ & Hwn). pose proof (scan_mask rgs Hgo rows rg Hw Hin) as Hm.
  pose proof (group_rows_found rgs rows rg Hw Hin) as Hfound. unfold PgColumnarGroupDeletedCount. fold (want rg).
  assert (Hset : forall ps : list Z, NoDup ps -> (forall p, p ∈ ps <-> 0 <= p < rg_rowCount rg /\ row_mark rows rg p) ->
    Z.of_nat (size (group_rows rg (deleted_rows rgs rows))) = zlen ps).
  { intros ps Hnd Hps. assert (E : group_rows rg (deleted_rows rgs rows) = list_to_set ((fun p => (rg_storageId rg, rg_firstRowNumber rg + p)) <$> ps)).
    { apply set_eq. intros [sid n]. unfold group_rows. rewrite elem_of_filter, elem_of_deleted_rows, elem_of_list_to_set, list_elem_of_fmap by done.
      cbn [fst snd]. split.
      - intros [[-> Hc] (rg' & [Hin' Hs'] & Hc' & Hx)]. assert (rg' = rg) as -> by (by eapply (go_apart _ Hgo)).
        apply (covers_small rgs Hgo) in Hc; [|done]. exists (n - rg_firstRowNumber rg). split; [f_equal; lia|]. apply Hps. split; [lia|done].
      - intros (p & [= -> ->] & [Hp Hx]%Hps). rewrite covers_small by done. split; [split; [done|lia]|]. exists rg. split; [done|].
        rewrite covers_small by done. split; [lia|]. by replace (_ + p - _) with p by lia. }
    rewrite E, size_list_to_set, length_fmap; [done|]. apply NoDup_fmap_2; [|done]. intros p q [= Hpq]. lia. }
  destruct (PgColumnarReadDeleteVectorList rows (rg_storageId rg) (rg_groupNumber rg)) as [|r rml] eqn:E.
  { rewrite (Hset []); [done|constructor|]. intros p. split; [by intros ?%not_elem_of_nil|].
    intros [_ (r & m & Hr & Hk & _)]. by apply (Hfound r) in Hr. }
  rewrite <- E in *. clear E. symmetry. apply Hset; [apply list.NoDup_filter, NoDup_seqZ|]. intros p.
  rewrite list_elem_of_filter, elem_of_seqZ. destruct (pgcolumnar_merge_delete_vectors _ _) as [m|].
  - destruct Hm as [Hl Hb]. split; [intros [[H1 H2] H3]; split; [lia|]; apply Hb; [lia|done]|].
    intros [H1 H2]. split; [split; [lia|]; apply Hb; [lia|done]|lia].
  - split; [intros [[_ H2] _]; by rewrite bit_set_zeros in H2|]. intros [_ H2]. by apply Hm in H2.
Qed.

(** With every subtransaction ended, no buffer is a kept copy and the flush writes every mark. *)
Lemma commit_spec x d : xact_inv rgs storage x d -> d_saved d = [] ->
  Forall (fun b => dv_flushedUnder b = InvalidSubTransactionId) (x_bufs x) /\
  exists rows, pgcolumnar_xact_callback rgs x = Ok rows /\ table_wf rgs rows /\ deleted_rows rgs rows = d_rows d.
Proof using Hgo.
  intros Hi Ed. destruct (current_level x d Hi) as [[T1 T2 T3] Hps]. rewrite Ed in Hps. apply Forall2_nil_inv_r in Hps as Ep. cbn [fst snd] in *.
  assert (Hcur : Forall (fun b => dv_subid b = x_current x) (x_bufs x)).
  { eapply list.Forall_impl; [apply (xi_bufs _ _ _ _ Hi)|]. intros b [_ _ B3 _]. unfold levels in B3. rewrite Ep in B3.
    by apply list_elem_of_singleton in B3. }
  split.
  { apply list.Forall_forall. intros b Hb. rewrite list.Forall_forall in Hcur. by apply (current_unflushed x d b Hi Hb), Hcur. }
  unfold pgcolumnar_xact_callback. rewrite (flush_all_current (x_current x)) by done.
  destruct (flush_keeps x d _ _ Hi (subxact_step (x_current x)) _) as (br & E & Hi' & Hm).
  unfold PgColumnarFlushDeleteVectorsOfSubXact. rewrite E, bind_Ok. exists (snd br). split; [done|].
  destruct (current_level _ d Hi') as [[T1' _ _] _]. split; [done|]. apply set_eq. intros [sid n].
  rewrite (elem_of_deleted_rows (snd br) sid n T1'), T2. rewrite list.Forall_forall in Hcur.
  split; intros (rg & [Hin Hs] & Hc & Hx); (exists rg; split; [done|]; split; [done|]);
    pose proof (proj1 (covers_small rgs Hgo rg n Hin) Hc); rewrite Hm in * by (done || lia).
  - destruct Hx as [Hx|(b & Hb & Es & Hx)]; [by left|right]. exists b. split; [done|]. split; [lia|done].
  - destruct Hx as [Hx|(b & Hb & _ & Hx)]; [by left|right]. exists b. split; [done|]. split; [by apply Hcur|done].
Qed.
End Proofs.

(** ** The claims *)

(** C4.  Deletes in a transaction are the rows of a set with savepoints: any
    sequence of deletes, scans, ends of statements and beginnings, commits and
    aborts of subtransactions runs as the specification does, failing only
    where a row is in no row group or no subtransaction is open.  At every point
    the catalog's bitmaps and the pending buffers together have the set's rows,
    and a scan that starts there reads from the catalog alone exactly the set's
    rows of its table: an aborted subtransaction's deletes are gone, and those
    of the statements around it are not lost. *)
Theorem deletes_refine_savepoints rgs storage rows ops :
  groups_ok rgs -> Inj (=) (=) storage -> table_wf rgs rows ->
  match spec_steps rgs storage ops (mkDeleted (deleted_rows rgs rows) []) with
  | Some d => exists x, xact_steps rgs storage ops (begin_xact rows) = Ok x /\
      (forall relid n, row_exists rgs (storage relid) n ->
         (storage relid, n) ∈ d_rows d <->
         (storage relid, n) ∈ deleted_rows rgs (x_rows x) \/ PgColumnarDeleteVectorBufferedDeleted (x_bufs x) relid n = true) /\
      forall relid, exists x', scan_start rgs relid x = Ok x' /\
        forall n, (storage relid, n) ∈ deleted_rows rgs (x_rows x') <-> (storage relid, n) ∈ d_rows d
  | None => exists msg, xact_steps rgs storage ops (begin_xact rows) = Err msg
  end.
Proof.
  intros Hgo Hinj Hw. pose proof (steps_spec rgs Hgo storage Hinj ops _ _ (begin_inv rgs Hgo storage rows Hw)) as Hs.
  destruct (spec_steps _ _ _ _) as [d|]; [|done]. destruct Hs as (x & -> & Hi). exists x. split; [done|]. split.
  - intros relid n Hex. by apply (buffered_spec rgs Hgo storage Hinj).
  - intros relid. destruct (scan_start_spec rgs Hgo storage Hinj x d relid Hi) as (x' & ? & _ & ?). by exists x'.
Qed.

(** C5.  A commit writes every delete of the transaction that no abort undid:
    with every subtransaction ended, no buffer is left as a kept copy, the
    pre-commit flush succeeds, the catalog's bitmaps are the specification's
    set, and the count of deleted rows of each row group is the number of its
    rows in the set. *)
Theorem commit_writes_deletes rgs storage rows ops d :
  groups_ok rgs -> Inj (=) (=) storage -> table_wf rgs rows ->
  spec_steps rgs storage ops (mkDeleted (deleted_rows rgs rows) []) = Some d -> d_saved d = [] ->
  exists x rows', xact_steps rgs storage ops (begin_xact rows) = Ok x /\
    Forall (fun b => dv_flushedUnder b = InvalidSubTransactionId) (x_bufs x) /\
    pgcolumnar_xact_callback rgs x = Ok rows' /\ table_wf rgs rows' /\ deleted_rows rgs rows' = d_rows d /\
    forall rg, rg ∈ rgs -> PgColumnarGroupDeletedCount rows' (rg_storageId rg) rg = Z.of_nat (size (group_rows rg (d_rows d))).
Proof.
  intros Hgo Hinj Hw E Ed. pose proof (steps_spec rgs Hgo storage Hinj ops _ _ (begin_inv rgs Hgo storage rows Hw)) as Hs.
  rewrite E in Hs. destruct Hs as (x & -> & Hi). destruct (commit_spec rgs Hgo storage x d Hi Ed) as (Hf & rows' & Hc & Hw' & Hd).
  exists x, rows'. split; [done|]. split; [done|]. split; [done|]. split; [done|]. split; [done|]. intros rg Hin. rewrite <- Hd.
  by apply (deleted_count rgs Hgo).
Qed.

(** ** A transaction with savepoints *)

Definition sample_groups : list FreeSpace.NativeRowGroupMetadata :=
  [FreeSpace.mkRowGroup 10 1 0 12 100 1; FreeSpace.mkRowGroup 10 2 100 5 40 13; FreeSpace.mkRowGroup 20 1 0 3 30 1].
Definition sample_table : list DeleteVectorRow := [mkDvRow 10 1 (Some [2; 0]) 1].

(** A delete of relation 1, then two nested blocks that delete and read: the
    inner one is undone after its read wrote the outer marks. *)
Definition sample_ops : list xact_op :=
  [MarkDeleted 1 4; SubBegin; MarkDeleted 1 13; SubBegin; MarkDeleted 1 5; MarkDeleted 2 3; ScanStart 1; SubAbort;
   MarkDeleted 1 17; ScanStart 1; SubCommit; StatementEnd; SubBegin; MarkDeleted 2 1; StatementEnd; SubAbort; MarkDeleted 2 2].

Definition sample_storage (relid : Z) : Z := 10 * relid.

#[local] Instance sample_storage_inj : Inj (=) (=) sample_storage.
Proof. intros a b. unfold sample_storage. lia. Qed.

Lemma sample_groups_ok : groups_ok sample_groups.
Proof.
  split.
  - by apply (bool_decide_unpack _).
  - intros rg Hin. unfold sample_groups in Hin. repeat (apply elem_of_cons in Hin as [->|Hin]; [cbn; lia|]). by apply not_elem_of_nil in Hin.
  - intros rg rg' n H1 H2 E C1 C2. unfold sample_groups in H1, H2.
    repeat (apply elem_of_cons in H1 as [->|H1]; [repeat (apply elem_of_cons in H2 as [->|H2];
      [first [done | discriminate E | unfold group_covers in C1, C2; cbn in C1, C2; rewrite !u64_small in * by lia; lia]|]); by apply not_elem_of_nil in H2|]).
    by apply not_elem_of_nil in H1.
Qed.

Lemma sample_table_wf : table_wf sample_groups sample_table.
Proof.
  split; [by apply (bool_decide_unpack _)|]. apply Forall_singleton. exists (FreeSpace.mkRowGroup 10 1 0 12 100 1), [2; 0].
  split; [apply list_elem_of_here|]. split; [done|]. split; [done|]. split; [|done]. split; [by repeat constructor|done|].
  intros p Hp. cbn in Hp. unfold bit_set, nthZ. assert (1 <= Z.shiftr p 3) by (rewrite Z.shiftr_div_pow2 by lia; div_bounds p (2 ^ 3); lia).
  destruct (Z.to_nat (Z.shiftr p 3)) as [|[|[|k]]] eqn:Ek; [lia|cbn; apply Z.testbit_0_l..].
Qed.

Definition sample_deleted : Deleted := mkDeleted {[(10, 2); (10, 4); (10, 13); (10, 17); (20, 2)]} [].

Lemma sample_spec : spec_steps sample_groups sample_storage sample_ops (mkDeleted (deleted_rows sample_groups sample_table) []) = Some sample_deleted.
Proof. vm_compute. reflexivity. Qed.

Lemma deletes_refine_savepoints_witness :
  exists x, xact_steps sample_groups sample_storage sample_ops (begin_xact sample_table) = Ok x /\
    exists x', scan_start sample_groups 1 x = Ok x' /\ (10, 17) ∈ deleted_rows sample_groups (x_rows x') /\ (10, 5) ∉ deleted_rows sample_groups (x_rows x').
Proof.
  pose proof (deletes_refine_savepoints sample_groups sample_storage sample_table sample_ops sample_groups_ok _ sample_table_wf) as H.
  rewrite sample_spec in H. destruct H as (x & E & _ & Hs). exists x. split; [exact E|]. destruct (Hs 1) as (x' & E' & Hd). exists x'.
  split; [exact E'|]. split; [apply (Hd 17)|rewrite (Hd 5)]; by apply (bool_decide_unpack _).
Defined.

Lemma commit_writes_deletes_witness :
  exists x rows', xact_steps sample_groups sample_storage sample_ops (begin_xact sample_table) = Ok x /\
    pgcolumnar_xact_callback sample_groups x = Ok rows' /\ deleted_rows sample_groups rows' = d_rows sample_deleted.
Proof.
  destruct (commit_writes_deletes sample_groups sample_storage sample_table sample_ops sample_deleted
    sample_groups_ok _ sample_table_wf sample_spec eq_refl) as (x & rows' & H1 & _ & H2 & _ & H3 & _). exists x, rows'. exact (conj H1 (conj H2 H3)).
Defined.

(** The tables the code computes: marks of the inner block that was undone are
    gone, those it wrote for the outer statement are there. *)
Example sample_commit :
  (x ← xact_steps sample_groups sample_storage sample_ops (begin_xact sample_table); pgcolumnar_xact_callback sample_groups x)
  = Ok [mkDvRow 10 1 (Some [10; 0]) 2; mkDvRow 10 2 (Some [17]) 2; mkDvRow 20 1 (Some [2]) 1].
Proof. vm_compute. reflexivity. Qed.
