(* ===== verification/Thrift.v ===== *)
(** * Thrift compact protocol

    [columnar_thrift.c]: the reader over a buffer, the skip of values nobody asks
    for, and the writer.  The reader never raises: it sets its error flag, which
    every caller checks.  The recursive skip calls [check_stack_depth]; the number
    of nested calls that fit on the stack is a parameter. *)

From S2P Require Import Prelude BitPack.

(** ** Field types *)

Definition TC_STOP : Z := 0.
Definition TC_BOOL_TRUE : Z := 1.
Definition TC_BOOL_FALSE : Z := 2.
Definition TC_BYTE : Z := 3.
Definition TC_I16 : Z := 4.
Definition TC_I32 : Z := 5.
Definition TC_I64 : Z := 6.
Definition TC_DOUBLE : Z := 7.
Definition TC_BINARY : Z := 8.
Definition TC_LIST : Z := 9.
Definition TC_SET : Z := 10.
Definition TC_MAP : Z := 11.
Definition TC_STRUCT : Z := 12.
Definition TC_UUID : Z := 13.

(** ** Reader *)

Record TCReader := mkReader { tc_buf : list Z; tc_pos : Z; tc_error : bool }.

Definition tc_len (r : TCReader) : Z := zlen (tc_buf r).
Definition adv (r : TCReader) (n : Z) : TCReader := mkReader (tc_buf r) (tc_pos r + n) (tc_error r).
Definition fail (r : TCReader) : TCReader := mkReader (tc_buf r) (tc_pos r) true.
(** [r->len - r->pos] *)
Definition tc_left (r : TCReader) : Z := u64 (tc_len r - tc_pos r).

Fixpoint varint_loop (fuel : nat) (r : TCReader) (v shift : Z) : res (Z * TCReader) :=
  match fuel with
  | O => Fuel
  | S fuel =>
      if tc_pos r <? tc_len r then
        b ← rd1 (tc_buf r) (tc_pos r);
        let r := adv r 1 in
        let v := Z.lor v (u64 (Z.shiftl (Z.land b 127) shift)) in
        if Z.land b 128 =? 0 then Ok (v, r)
        else
          let shift := shift + 7 in
          if 63 <? shift then Ok (v, fail r) else varint_loop fuel r v shift
      else Ok (v, fail r)
  end.

(** The shift reaches 70 after ten bytes. *)
Definition PgColumnarThriftVarint (r : TCReader) : res (Z * TCReader) := varint_loop 10 r 0 0.

Definition PgColumnarThriftZigzag (r : TCReader) : res (Z * TCReader) :=
  ' (u, r) ← PgColumnarThriftVarint r;
  Ok (Z.lxor (s64 (Z.shiftr u 1)) (- s64 (Z.land u 1)), r).

(** The bytes the returned pointer and length denote, [None] for a null pointer. *)
Definition PgColumnarThriftBytes (r : TCReader) : res (option (list Z) * TCReader) :=
  ' (n, r) ← PgColumnarThriftVarint r;
  if tc_error r || (tc_left r <? n) then Ok (None, fail r)
  else
    bs ← rd (tc_buf r) (tc_pos r) (u32 n);
    Ok (Some bs, adv r n).

(** Field type, field id and the new last id; the id is not set at a stop. *)
Definition PgColumnarThriftField (r : TCReader) (lastId : Z) : res (Z * Z * Z * TCReader) :=
  if tc_len r <=? tc_pos r then Ok (TC_STOP, 0, lastId, fail r)
  else
    b ← rd1 (tc_buf r) (tc_pos r);
    let r := adv r 1 in
    if b =? 0 then Ok (TC_STOP, 0, lastId, r)
    else
      let ftype := Z.land b 15 in
      if (TC_UUID <? ftype) || (ftype =? TC_STOP) then Ok (TC_STOP, 0, lastId, fail r)
      else if negb (Z.shiftr b 4 =? 0) then
        let fid := s32 (lastId + Z.shiftr b 4) in Ok (ftype, fid, fid, r)
      else
        ' (z, r) ← PgColumnarThriftZigzag r;
        let fid := s32 z in Ok (ftype, fid, fid, r).

Definition PgColumnarThriftListHeader (r : TCReader) : res (Z * Z * TCReader) :=
  if tc_len r <=? tc_pos r then Ok (0, 0, fail r)
  else
    b ← rd1 (tc_buf r) (tc_pos r);
    let r := adv r 1 in
    let size := Z.land (Z.shiftr b 4) 15 in
    let etype := Z.land b 15 in
    if size =? 15 then ' (n, r) ← PgColumnarThriftVarint r; Ok (u32 n, etype, r)
    else Ok (size, etype, r).

(** Moving over [n] bytes, or failing. *)
Definition skip_bytes (r : TCReader) (n : Z) : TCReader := if tc_left r <? n then fail r else adv r n.

(** [for (i = 0; i < size && !r->error; i++) body] *)
Fixpoint skip_times (fuel : nat) (body : TCReader -> res TCReader) (size : Z) (r : TCReader) : res TCReader :=
  if (0 <? size) && negb (tc_error r) then
    match fuel with
    | O => Fuel
    | S fuel => r ← body r; skip_times fuel body (size - 1) r
    end
  else Ok r.

(** The loop over the fields of a struct. *)
Fixpoint skip_fields (fuel : nat) (skip : TCReader -> Z -> res TCReader) (r : TCReader) (lastId : Z) : res TCReader :=
  match fuel with
  | O => Fuel
  | S fuel =>
      ' (ft, _, lastId, r) ← PgColumnarThriftField r lastId;
      if (ft =? TC_STOP) || tc_error r then Ok r
      else r ← skip r ft; skip_fields fuel skip r lastId
  end.

Definition pq_thrift_skip_element (skip : TCReader -> Z -> res TCReader) (r : TCReader) (etype : Z) : res TCReader :=
  if (etype =? TC_BOOL_TRUE) || (etype =? TC_BOOL_FALSE)
  then Ok (if tc_len r <=? tc_pos r then fail r else adv r 1)
  else skip r etype.

(** [stack] is the number of nested calls [check_stack_depth] allows.  Every turn
    of a loop moves on by a byte or fails, so the bytes left bound the turns. *)
Fixpoint PgColumnarThriftSkip (stack : nat) (r : TCReader) (ftype : Z) : res TCReader :=
  match stack with
  | O => Err "stack depth limit exceeded"
  | S stack =>
      let skip := PgColumnarThriftSkip stack in
      let turns := S (Z.to_nat (tc_len r - tc_pos r)) in
      if (ftype =? TC_BOOL_TRUE) || (ftype =? TC_BOOL_FALSE) then Ok r
      else if ftype =? TC_BYTE then Ok (if tc_len r <=? tc_pos r then fail r else adv r 1)
      else if (ftype =? TC_I16) || (ftype =? TC_I32) || (ftype =? TC_I64) then
        ' (_, r) ← PgColumnarThriftZigzag r; Ok r
      else if ftype =? TC_DOUBLE then Ok (skip_bytes r 8)
      else if ftype =? TC_UUID then Ok (skip_bytes r 16)
      else if ftype =? TC_BINARY then ' (_, r) ← PgColumnarThriftBytes r; Ok r
      else if (ftype =? TC_LIST) || (ftype =? TC_SET) then
        if tc_len r <=? tc_pos r then Ok (fail r)
        else
          sizeType ← rd1 (tc_buf r) (tc_pos r);
          let r := adv r 1 in
          let size := Z.land (Z.shiftr sizeType 4) 15 in
          let et := Z.land sizeType 15 in
          ' (size, r) ← (if size =? 15 then ' (n, r) ← PgColumnarThriftVarint r; Ok (u32 n, r) else Ok (size, r));
          skip_times turns (fun r => pq_thrift_skip_element skip r et) size r
      else if ftype =? TC_MAP then
        ' (n, r) ← PgColumnarThriftVarint r;
        let size := u32 n in
        if tc_error r || (size =? 0) then Ok r
        else if tc_len r <=? tc_pos r then Ok (fail r)
        else
          b ← rd1 (tc_buf r) (tc_pos r);
          let kt := Z.land (Z.shiftr b 4) 15 in
          let vt := Z.land b 15 in
          let r := adv r 1 in
          skip_times turns (fun r => r ← pq_thrift_skip_element skip r kt; pq_thrift_skip_element skip r vt) size r
      else if ftype =? TC_STRUCT then skip_fields turns skip r 0
      else Ok (fail r)
  end.

(** ** Writer: the bytes each function appends *)

(** [while (v >= 0x80)]: nine turns leave less than a byte of a 64-bit value. *)
Fixpoint put_varint_loop (n : nat) (v : Z) : list Z :=
  match n with
  | O => [u8 v]
  | S n => if 128 <=? v then Z.lor (Z.land v 127) 128 :: put_varint_loop n (Z.shiftr v 7) else [u8 v]
  end.

Definition PgColumnarThriftPutVarint (v : Z) : list Z := put_varint_loop 9 v.

Definition PgColumnarThriftPutZigzag32 (v : Z) : list Z :=
  PgColumnarThriftPutVarint (u32 (Z.lxor (s32 (Z.shiftl v 1)) (Z.shiftr v 31))).

Definition PgColumnarThriftPutZigzag64 (v : Z) : list Z :=
  PgColumnarThriftPutVarint (u64 (Z.lxor (s64 (Z.shiftl v 1)) (Z.shiftr v 63))).

(** The last id becomes [id]; callers pass it on. *)
Definition PgColumnarThriftPutField (lastId id type : Z) : list Z :=
  let delta := id - lastId in
  if (0 <? delta) && (delta <=? 15) then [u8 (Z.lor (Z.shiftl delta 4) type)]
  else u8 type :: PgColumnarThriftPutZigzag32 id.

Definition PgColumnarThriftPutI32Field (lastId id v : Z) : list Z :=
  PgColumnarThriftPutField lastId id TC_I32 ++ PgColumnarThriftPutZigzag32 v.

Definition PgColumnarThriftPutI64Field (lastId id v : Z) : list Z :=
  PgColumnarThriftPutField lastId id TC_I64 ++ PgColumnarThriftPutZigzag64 v.

Definition PgColumnarThriftPutStringField (lastId id : Z) (s : list Z) : list Z :=
  PgColumnarThriftPutField lastId id TC_BINARY ++ PgColumnarThriftPutVarint (u64 (zlen s)) ++ s.

Definition PgColumnarThriftPutListHeader (size elemType : Z) : list Z :=
  if size <? 15 then [u8 (Z.lor (Z.shiftl size 4) elemType)]
  else u8 (Z.lor 240 elemType) :: PgColumnarThriftPutVarint (u64 size).

Definition PgColumnarThriftPutStop : list Z := [TC_STOP].

(** ** Reading what is there *)

(** The reader stands before the bytes [s], the rest of its buffer. *)
Definition here (r : TCReader) (s : list Z) : Prop :=
  tc_error r = false /\ bytes_ok s /\ zlen (tc_buf r) < 2 ^ 62 /\ exists pre, tc_buf r = pre ++ s /\ tc_pos r = zlen pre.

Lemma here_adv r bs s n : here r (bs ++ s) -> n = zlen bs -> here (adv r n) s.
Proof.
  intros (He & Hb & Hl & pre & E & P) ->. apply Forall_app in Hb as [_ Hb]. split; [done|]. split; [done|]. split; [done|].
  exists (pre ++ bs). cbn. rewrite zlen_app, <- P, <- app_assoc. done.
Qed.

Lemma here_left r s : here r s -> tc_left r = zlen s /\ tc_len r = tc_pos r + zlen s /\ 0 <= tc_pos r /\ zlen s < 2 ^ 62 /\ tc_len r < 2 ^ 62.
Proof.
  intros (He & Hb & Hl & pre & E & P). unfold tc_left, tc_len. rewrite E, P in *. rewrite zlen_app in *.
  pose proof (zlen_nonneg pre). pose proof (zlen_nonneg s). rewrite u64_small by lia. lia.
Qed.

Lemma here_error r s : here r s -> tc_error r = false.
Proof. by intros (He & _). Qed.

Lemma here_bytes r s : here r s -> bytes_ok s.
Proof. by intros (_ & Hb & _). Qed.

Lemma here_rd r bs s : here r (bs ++ s) -> rd (tc_buf r) (tc_pos r) (zlen bs) = Ok bs.
Proof. intros (_ & _ & _ & pre & -> & ->). apply rd_middle. Qed.

Lemma rd1_middle pre (x : Z) post : rd1 (pre ++ x :: post) (zlen pre) = Ok x.
Proof.
  pose proof (zlen_nonneg pre). pose proof (zlen_nonneg post). rewrite rd1_Ok by (rewrite zlen_app, zlen_cons; lia).
  unfold nthZ, zlen. rewrite Nat2Z.id, nth_lookup, list_lookup_middle; done.
Qed.

Lemma here_rd1 r x s : here r (x :: s) -> rd1 (tc_buf r) (tc_pos r) = Ok x /\ (tc_pos r <? tc_len r) = true /\ here (adv r 1) s.
Proof.
  intros Hr. pose proof (here_left r _ Hr) as (_ & Hl & _). rewrite zlen_cons in Hl. pose proof (zlen_nonneg s). split; [|split].
  - destruct Hr as (_ & _ & _ & pre & -> & ->). apply rd1_middle.
  - apply Z.ltb_lt. lia.
  - by apply (here_adv r [x] s).
Qed.

Lemma adv_adv r a b : adv (adv r a) b = adv r (a + b).
Proof. unfold adv. cbn. by rewrite Z.add_assoc. Qed.

(** ** Varints *)

Lemma put_varint_bytes n : forall v, 0 <= v -> bytes_ok (put_varint_loop n v) /\ 1 <= zlen (put_varint_loop n v) <= Z.of_nat n + 1.
Proof.
  induction n as [|n IH]; intros v Hv; cbn [put_varint_loop].
  - split; [constructor; [|constructor]; by apply mod_pow2_bound|]. done.
  - destruct (Z.leb_spec 128 v) as [Hge|Hlt].
    + destruct (IH (Z.shiftr v 7)) as [H1 H2]; [by apply Z.shiftr_nonneg|]. split.
      * constructor; [|done]. change 127 with (Z.ones 7). rewrite Z.land_ones by lia. pose proof (mod_pow2_bound v 7).
        apply (lor_bound (v mod 2 ^ 7) 128 8); lia.
      * rewrite zlen_cons. lia.
    + split; [constructor; [|constructor]; by apply mod_pow2_bound|]. unfold zlen. cbn. lia.
Qed.

(** A byte of a varint put over the lower ones. *)
Lemma varint_step v w shift b : 0 <= shift <= 63 -> 0 <= v < 2 ^ shift -> 0 <= w -> w * 2 ^ shift < 2 ^ 64 ->
  Z.land b 127 = w mod 2 ^ 7 ->
  Z.lor v (u64 (Z.shiftl (Z.land b 127) shift)) = v + (w mod 2 ^ 7) * 2 ^ shift /\ 0 <= v + (w mod 2 ^ 7) * 2 ^ shift < 2 ^ (shift + 7).
Proof.
  intros Hs Hv Hw Hb ->. pose proof (mod_pow2_bound w 7 ltac:(lia)) as Hm. pose proof (pow2_pos shift ltac:(lia)).
  pose proof (Z.mod_le w (2 ^ 7) ltac:(lia) ltac:(lia)). rewrite Z.shiftl_mul_pow2 by lia. rewrite u64_small by nia.
  rewrite lor_add by lia. split; [done|]. rewrite Z.pow_add_r by lia. nia.
Qed.

(** The last byte of a varint. *)
Lemma varint_last k v w shift r s : 0 <= shift <= 63 -> 0 <= v < 2 ^ shift -> 0 <= w < 2 ^ 7 -> w * 2 ^ shift < 2 ^ 64 ->
  here r (u8 w :: s) -> varint_loop (S k) r v shift = Ok (v + w * 2 ^ shift, adv r 1).
Proof.
  intros Hs Hv Hw Hb Hr. cbn [varint_loop]. apply here_rd1 in Hr as (-> & -> & _). rewrite bind_Ok. cbv zeta. unfold u8. rewrite Z.mod_small by lia.
  replace (Z.land w 128) with 0.
  2:{ symmetry. apply Z.bits_inj'. intros i Hi. rewrite Z.land_spec, Z.bits_0. change 128 with (2 ^ 7). rewrite Z.pow2_bits_eqb by lia.
      destruct (Z.eqb_spec 7 i) as [<-|]; [|by rewrite andb_false_r]. rewrite (testbit_small w 7) by lia. done. }
  cbn [Z.eqb]. destruct (varint_step v w shift w) as [-> _]; try lia.
  - change 127 with (Z.ones 7). by rewrite Z.land_ones by lia.
  - rewrite Z.mod_small by lia. done.
Qed.

Lemma varint_loop_spec n : forall k v w shift r s,
  (n < k)%nat -> 0 <= shift -> shift + 7 * Z.of_nat n <= 63 -> 0 <= v < 2 ^ shift -> 0 <= w < 2 ^ (7 * Z.of_nat n + 7) -> w * 2 ^ shift < 2 ^ 64 ->
  here r (put_varint_loop n w ++ s) ->
  varint_loop k r v shift = Ok (v + w * 2 ^ shift, adv r (zlen (put_varint_loop n w))).
Proof.
  induction n as [|n IH]; intros k v w shift r s Hk Hs0 Hs Hv Hw Hbnd Hr; (destruct k as [|k]; [lia|]).
  - apply (varint_last k v w shift r s); [lia|done|cbn in Hw; lia|done|exact Hr].
  - cbn [put_varint_loop] in *. destruct (Z.leb_spec 128 w) as [Hge|Hlt].
    + cbn [app varint_loop] in *. apply here_rd1 in Hr as (-> & -> & Hr). rewrite bind_Ok. cbv zeta.
      assert (Hland : Z.land (Z.lor (Z.land w 127) 128) 127 = w mod 2 ^ 7).
      { change 127 with (Z.ones 7). change 128 with (1 * 2 ^ 7). rewrite Z.land_ones, Z.land_ones by lia.
        rewrite lor_add by (try lia; apply mod_pow2_bound; lia). rewrite Z.mod_add, Z.mod_mod by lia. done. }
      assert (Hbit : (Z.land (Z.lor (Z.land w 127) 128) 128 =? 0) = false).
      { apply Z.eqb_neq. intros H0. assert (Ht : Z.testbit (Z.land (Z.lor (Z.land w 127) 128) 128) 7 = false) by (by rewrite H0, Z.bits_0).
        rewrite Z.land_spec, Z.lor_spec in Ht. change (Z.testbit 128 7) with true in Ht. by rewrite orb_true_r in Ht. }
      rewrite Hbit. destruct (varint_step v w shift _ ltac:(lia) Hv ltac:(lia) Hbnd Hland) as [-> Hv'].
      rewrite (proj2 (Z.ltb_ge 63 (shift + 7))) by lia. rewrite Z.shiftr_div_pow2 in * by lia. div_bounds w (2 ^ 7).
      assert (Ep : 2 ^ (shift + 7) = 2 ^ shift * 2 ^ 7) by (by rewrite Z.pow_add_r by lia). pose proof (pow2_pos shift ltac:(lia)).
      assert (E2 : 2 ^ (7 * Z.of_nat (S n) + 7) = 2 ^ (7 * Z.of_nat n + 7) * 2 ^ 7) by (rewrite <- Z.pow_add_r by lia; f_equal; lia).
      rewrite (IH k _ (w / 2 ^ 7) (shift + 7) (adv r 1) s); try done; try lia.
      rewrite zlen_cons, adv_adv. do 2 f_equal. rewrite Ep. nia.
    + apply (varint_last k v w shift r s); [lia|done|lia|done|exact Hr].
Qed.

Lemma varint_read v r s : 0 <= v < 2 ^ 64 -> here r (PgColumnarThriftPutVarint v ++ s) ->
  PgColumnarThriftVarint r = Ok (v, adv r (zlen (PgColumnarThriftPutVarint v))) /\ here (adv r (zlen (PgColumnarThriftPutVarint v))) s.
Proof.
  intros Hv Hr. split; [|by apply (here_adv r (PgColumnarThriftPutVarint v))]. unfold PgColumnarThriftVarint, PgColumnarThriftPutVarint.
  rewrite (varint_loop_spec 9 10 0 v 0 r s); try done; try lia. do 2 f_equal. lia.
Qed.

(** ** Zigzag integers *)

Definition zz (v : Z) : Z := if v <? 0 then - 2 * v - 1 else 2 * v.

Lemma zigzag_put w v : 0 < w -> - 2 ^ (w - 1) <= v < 2 ^ (w - 1) ->
  Z.lxor ((Z.shiftl v 1 + 2 ^ (w - 1)) mod 2 ^ w - 2 ^ (w - 1)) (Z.shiftr v (w - 1)) mod 2 ^ w = zz v.
Proof.
  intros Hw Hv. pose proof (pow2_pos (w - 1) ltac:(lia)). assert (Ew : 2 ^ w = 2 * 2 ^ (w - 1)) by (rewrite <- Z.pow_succ_r by lia; f_equal; lia).
  rewrite Z.shiftl_mul_pow2, Z.shiftr_div_pow2 by lia. change (2 ^ 1) with 2. unfold zz. destruct (Z.ltb_spec v 0).
  - assert (v / 2 ^ (w - 1) = -1) as -> by (symmetry; apply (Z.div_unique v _ _ (v + 2 ^ (w - 1))); lia).
    rewrite Z.lxor_m1_r. unfold Z.lnot.
    div_bounds (v * 2 + 2 ^ (w - 1)) (2 ^ w). set (q := (v * 2 + 2 ^ (w - 1)) / 2 ^ w) in *.
    symmetry. apply (Z.mod_unique _ _ q); lia.
  - rewrite (Z.div_small v) by lia. rewrite Z.lxor_0_r. div_bounds (v * 2 + 2 ^ (w - 1)) (2 ^ w). set (q := (v * 2 + 2 ^ (w - 1)) / 2 ^ w) in *.
    symmetry. apply (Z.mod_unique _ _ (- q)); lia.
Qed.

Lemma put_zigzag32 v : - 2 ^ 31 <= v < 2 ^ 31 -> PgColumnarThriftPutZigzag32 v = PgColumnarThriftPutVarint (zz v).
Proof. intros Hv. unfold PgColumnarThriftPutZigzag32, s32, u32. by rewrite (zigzag_put 32). Qed.

Lemma put_zigzag64 v : - 2 ^ 63 <= v < 2 ^ 63 -> PgColumnarThriftPutZigzag64 v = PgColumnarThriftPutVarint (zz v).
Proof. intros Hv. unfold PgColumnarThriftPutZigzag64, s64, u64. by rewrite (zigzag_put 64). Qed.

Lemma zz_range v n : - 2 ^ n <= v < 2 ^ n -> 0 <= zz v < 2 * 2 ^ n.
Proof. unfold zz. destruct (Z.ltb_spec v 0); lia. Qed.

Lemma unzigzag_zz v : - 2 ^ 63 <= v < 2 ^ 63 -> unzigzag (zz v) = v.
Proof.
  intros Hv. pose proof (zz_range v 63 Hv). rewrite unzigzag_arith by lia. unfold zz. destruct (Z.ltb_spec v 0).
  - replace (- 2 * v - 1) with (1 + 2 * (- v - 1)) by lia. rewrite Z.odd_add_mul_2. cbn [Z.odd]. div_bounds (1 + 2 * (- v - 1)) 2. lia.
  - rewrite Z.odd_mul. cbn [Z.odd andb]. div_bounds (2 * v) 2. lia.
Qed.

(** [reads bs f v]: the read function takes [bs] off the buffer and returns [v]. *)
Definition reads {A} (bs : list Z) (f : TCReader -> res (A * TCReader)) (v : A) : Prop :=
  forall r s, here r (bs ++ s) -> f r = Ok (v, adv r (zlen bs)) /\ here (adv r (zlen bs)) s.

Lemma reads_varint v : 0 <= v < 2 ^ 64 -> reads (PgColumnarThriftPutVarint v) PgColumnarThriftVarint v.
Proof. intros Hv r s. by apply varint_read. Qed.

Lemma reads_zz v : - 2 ^ 63 <= v < 2 ^ 63 -> reads (PgColumnarThriftPutVarint (zz v)) PgColumnarThriftZigzag v.
Proof.
  intros Hv r s Hr. pose proof (zz_range v 63 Hv). destruct (varint_read (zz v) r s ltac:(lia) Hr) as [E Hr'].
  split; [|done]. unfold PgColumnarThriftZigzag. rewrite E, bind_Ok. change (Z.lxor _ _) with (unzigzag (zz v)). by rewrite unzigzag_zz.
Qed.

Lemma reads_zigzag32 v : - 2 ^ 31 <= v < 2 ^ 31 -> reads (PgColumnarThriftPutZigzag32 v) PgColumnarThriftZigzag v.
Proof. intros Hv. rewrite put_zigzag32 by done. apply reads_zz. lia. Qed.

Lemma reads_zigzag64 v : - 2 ^ 63 <= v < 2 ^ 63 -> reads (PgColumnarThriftPutZigzag64 v) PgColumnarThriftZigzag v.
Proof. intros Hv. rewrite put_zigzag64 by done. by apply reads_zz. Qed.

Lemma reads_bytes bs : zlen bs < 2 ^ 32 -> reads (PgColumnarThriftPutVarint (u64 (zlen bs)) ++ bs) PgColumnarThriftBytes (Some bs).
Proof.
  intros Hl r s Hr. pose proof (zlen_nonneg bs). rewrite u64_small in * by lia. split; [|by eapply here_adv].
  rewrite <- app_assoc in Hr. destruct (varint_read (zlen bs) r _ ltac:(lia) Hr) as [E Hr']. unfold PgColumnarThriftBytes. rewrite E, bind_Ok.
  rewrite (here_error _ _ Hr'). cbn [orb]. destruct (here_left _ _ Hr') as (-> & _). rewrite zlen_app. pose proof (zlen_nonneg s).
  rewrite (proj2 (Z.ltb_ge _ _)) by lia. rewrite u32_small by lia. rewrite (here_rd _ bs s Hr'), bind_Ok, adv_adv, zlen_app. done.
Qed.

(** ** Field and list headers *)

Lemma nibbles a b : 0 <= a < 16 -> 0 <= b < 16 ->
  u8 (Z.lor (Z.shiftl a 4) b) = 16 * a + b /\ Z.land (16 * a + b) 15 = b /\ Z.shiftr (16 * a + b) 4 = a /\ Z.land (Z.shiftr (16 * a + b) 4) 15 = a.
Proof.
  intros Ha Hb. rewrite Z.shiftl_mul_pow2, Z.lor_comm by lia. rewrite lor_add by lia. change (2 ^ 4) with 16. unfold u8.
  rewrite Z.mod_small by lia. change 15 with (Z.ones 4). rewrite !Z.land_ones, !Z.shiftr_div_pow2 by lia. change (2 ^ 4) with 16.
  replace (b + a * 16) with (16 * a + b) by lia. div_bounds (16 * a + b) 16. assert ((16 * a + b) / 16 = a) by nia.
  rewrite H1. rewrite (Z.mod_small a) by lia. lia.
Qed.

(** A header the writer made is read back: type, id and the new last id. *)
Lemma reads_field lastId id type : - 2 ^ 15 <= lastId < 2 ^ 15 -> - 2 ^ 15 <= id < 2 ^ 15 -> TC_STOP < type <= TC_UUID ->
  reads (PgColumnarThriftPutField lastId id type) (fun r => PgColumnarThriftField r lastId) (type, id, id).
Proof.
  unfold TC_STOP, TC_UUID. intros Hlast Hid Ht r s Hr. split; [|by eapply here_adv]. revert Hr. unfold PgColumnarThriftPutField.
  unfold PgColumnarThriftField. destruct (_ && _) eqn:Ed; intros Hr.
  - apply andb_true_iff in Ed as [D1%Z.ltb_lt D2%Z.leb_le]. destruct (nibbles (id - lastId) type ltac:(lia) ltac:(lia)) as (E1 & E2 & E3 & _).
    rewrite E1 in *. apply here_rd1 in Hr as (-> & Hlt & _). apply Z.ltb_lt in Hlt. rewrite (proj2 (Z.leb_gt _ _)) by lia. rewrite bind_Ok.
    rewrite (proj2 (Z.eqb_neq (16 * (id - lastId) + type) 0)), E2 by lia.
    unfold TC_STOP, TC_UUID. rewrite (proj2 (Z.ltb_ge 13 type)), (proj2 (Z.eqb_neq type 0)) by lia. cbn [orb]. rewrite E3.
    rewrite (proj2 (Z.eqb_neq (id - lastId) 0)) by lia. cbn [negb]. cbv zeta. replace (lastId + (id - lastId)) with id by lia.
    assert (s32 id = id) as -> by (unfold s32; rewrite Z.mod_small; lia). done.
  - cbn [app] in Hr. unfold u8 in *. rewrite (Z.mod_small type) in * by lia. apply here_rd1 in Hr as (-> & Hlt & Hr).
    apply Z.ltb_lt in Hlt. rewrite (proj2 (Z.leb_gt _ _)) by lia. rewrite bind_Ok.
    destruct (nibbles 0 type ltac:(lia) ltac:(lia)) as (_ & E2 & E3 & _). rewrite Z.mul_0_r, Z.add_0_l in *.
    rewrite (proj2 (Z.eqb_neq type 0)), E2 by lia. unfold TC_STOP, TC_UUID. rewrite (proj2 (Z.ltb_ge 13 type)), (proj2 (Z.eqb_neq type 0)) by lia.
    cbn [orb]. rewrite E3. cbn [Z.eqb negb]. destruct (reads_zigzag32 id ltac:(lia) _ s Hr) as [-> _]. rewrite bind_Ok, adv_adv, zlen_cons.
    assert (s32 id = id) as -> by (unfold s32; rewrite Z.mod_small; lia). done.
Qed.

Lemma reads_stop lastId : reads PgColumnarThriftPutStop (fun r => PgColumnarThriftField r lastId) (TC_STOP, 0, lastId).
Proof.
  intros r s Hr. split; [|by eapply here_adv]. apply here_rd1 in Hr as (E & Hlt & _). unfold PgColumnarThriftField.
  apply Z.ltb_lt in Hlt. rewrite (proj2 (Z.leb_gt _ _)), E by lia. done.
Qed.

Lemma reads_list_header size et : 0 <= size < 2 ^ 31 -> 0 <= et < 16 ->
  reads (PgColumnarThriftPutListHeader size et) PgColumnarThriftListHeader (size, et).
Proof.
  intros Hs He r s Hr. split; [|by eapply here_adv]. revert Hr. unfold PgColumnarThriftPutListHeader, PgColumnarThriftListHeader.
  destruct (Z.ltb_spec size 15); intros Hr.
  - destruct (nibbles size et ltac:(lia) He) as (E1 & E2 & _ & E4). rewrite E1 in *. apply here_rd1 in Hr as (-> & Hlt & _).
    apply Z.ltb_lt in Hlt. rewrite (proj2 (Z.leb_gt _ _)) by lia. rewrite bind_Ok, E2, E4, (proj2 (Z.eqb_neq size 15)) by lia. done.
  - destruct (nibbles 15 et ltac:(lia) He) as (E1 & E2 & _ & E4). change (Z.shiftl 15 4) with 240 in E1. rewrite E1 in *. cbn [app] in Hr.
    apply here_rd1 in Hr as (-> & Hlt & Hr). apply Z.ltb_lt in Hlt. rewrite (proj2 (Z.leb_gt _ _)) by lia.
    rewrite bind_Ok, E2, E4, Z.eqb_refl. rewrite u64_small in * by lia. destruct (varint_read size _ s ltac:(lia) Hr) as [-> _].
    rewrite bind_Ok, adv_adv, zlen_cons, u32_small by lia. done.
Qed.

(** ** Values of any type *)

(** The compact protocol's values, as a writer of any schema may nest them. *)
#[warnings="-register-all"]
Inductive tval :=
| VBool (b : bool)
| VByte (x : Z)
| VInt (type v : Z)
| VDouble (bs : list Z)
| VUuid (bs : list Z)
| VBinary (bs : list Z)
| VList (type et : Z) (l : list tval)
| VMap (kt vt : Z) (l : list (tval * tval))
| VStruct (fs : list (Z * tval)).

Definition ttype (v : tval) : Z :=
  match v with
  | VBool b => if b then TC_BOOL_TRUE else TC_BOOL_FALSE
  | VByte _ => TC_BYTE
  | VInt type _ => type
  | VDouble _ => TC_DOUBLE
  | VUuid _ => TC_UUID
  | VBinary _ => TC_BINARY
  | VList type _ _ => type
  | VMap _ _ _ => TC_MAP
  | VStruct _ => TC_STRUCT
  end.

(** A value as a field's content; an element is the same except for a bool. *)
Fixpoint put_val (v : tval) : list Z :=
  let put_elem v := match v with VBool b => [if b then TC_BOOL_TRUE else TC_BOOL_FALSE] | _ => put_val v end in
  match v with
  | VBool _ => []
  | VByte x => [x]
  | VInt _ v => PgColumnarThriftPutZigzag64 v
  | VDouble bs | VUuid bs => bs
  | VBinary bs => PgColumnarThriftPutVarint (u64 (zlen bs)) ++ bs
  | VList _ et l => PgColumnarThriftPutListHeader (zlen l) et ++ concat (map put_elem l)
  | VMap kt vt l =>
      PgColumnarThriftPutVarint (zlen l) ++
      match l with [] => [] | _ => [16 * kt + vt] end ++ concat (map (fun kv => put_elem kv.1 ++ put_elem kv.2) l)
  | VStruct fs =>
      (fix put_fields (lastId : Z) (fs : list (Z * tval)) : list Z :=
         match fs with
         | [] => PgColumnarThriftPutStop
         | (id, v) :: fs => PgColumnarThriftPutField lastId id (ttype v) ++ put_val v ++ put_fields id fs
         end) 0 fs
  end.

Definition put_elem (v : tval) : list Z :=
  match v with VBool b => [if b then TC_BOOL_TRUE else TC_BOOL_FALSE] | _ => put_val v end.

Fixpoint put_fields (lastId : Z) (fs : list (Z * tval)) : list Z :=
  match fs with
  | [] => PgColumnarThriftPutStop
  | (id, v) :: fs => PgColumnarThriftPutField lastId id (ttype v) ++ put_val v ++ put_fields id fs
  end.

Definition is_bool (type : Z) : bool := (type =? TC_BOOL_TRUE) || (type =? TC_BOOL_FALSE).

(** An element of a container of type [et]: bools of either type code. *)
Definition of_type (et : Z) (v : tval) : Prop := match v with VBool _ => is_bool et = true | _ => ttype v = et end.

(** Well-formed values that nest at most [k] deep. *)
Fixpoint fits (k : nat) (v : tval) : Prop :=
  match k with
  | O => False
  | S k =>
      let elem et v := of_type et v /\ match v with VBool _ => True | _ => fits k v end in
      match v with
      | VBool _ => True
      | VByte x => byte_ok x
      | VInt type v => (type = TC_I16 \/ type = TC_I32 \/ type = TC_I64) /\ - 2 ^ 63 <= v < 2 ^ 63
      | VDouble bs => zlen bs = 8
      | VUuid bs => zlen bs = 16
      | VBinary bs => zlen bs < 2 ^ 32
      | VList type et l => (type = TC_LIST \/ type = TC_SET) /\ zlen l < 2 ^ 31 /\ 0 <= et < 16 /\ Forall (elem et) l
      | VMap kt vt l => zlen l < 2 ^ 31 /\ 0 <= kt < 16 /\ 0 <= vt < 16 /\ Forall (fun kv => elem kt kv.1 /\ elem vt kv.2) l
      | VStruct fs => Forall (fun f => - 2 ^ 15 <= f.1 < 2 ^ 15 /\ fits k f.2) fs
      end
  end.

(** ** Skipping *)

Lemma adv_0 r : adv r 0 = r.
Proof. destruct r. unfold adv. cbn. by rewrite Z.add_0_r. Qed.

(** [passes bs f]: the skip function moves over exactly [bs]. *)
Definition passes (bs : list Z) (f : TCReader -> res TCReader) : Prop :=
  forall r s, here r (bs ++ s) -> f r = Ok (adv r (zlen bs)).

Lemma passes_seq bs1 bs2 f g : passes bs1 f -> passes bs2 g -> passes (bs1 ++ bs2) (fun r => r ← f r; g r).
Proof.
  intros H1 H2 r s Hr. rewrite <- app_assoc in Hr. rewrite (H1 r _ Hr), bind_Ok, zlen_app, <- adv_adv. apply (H2 _ s).
  by eapply here_adv.
Qed.

Lemma skip_times_passes body bss : forall fuel r s, Forall (fun bs => passes bs body) bss -> (length bss <= fuel)%nat ->
  here r (concat bss ++ s) -> skip_times fuel body (zlen bss) r = Ok (adv r (zlen (concat bss))).
Proof.
  induction bss as [|bs bss IH]; intros fuel r s Hall Hf Hr.
  - destruct fuel; cbn; by rewrite adv_0.
  - destruct fuel as [|fuel]; [cbn in Hf; lia|]. cbn [skip_times]. rewrite (here_error _ _ Hr). rewrite zlen_cons.
    pose proof (zlen_nonneg bss). rewrite (proj2 (Z.ltb_lt 0 _)) by lia. cbn [andb negb]. apply Forall_cons_1 in Hall as [Hb Hall].
    cbn [concat] in *. rewrite <- app_assoc in Hr. rewrite (Hb r _ Hr), bind_Ok. replace (1 + zlen bss - 1) with (zlen bss) by lia.
    rewrite (IH fuel (adv r (zlen bs)) s); [by rewrite adv_adv, zlen_app|done|cbn in Hf; lia|by eapply here_adv].
Qed.

Lemma length_concat_ge (bss : list (list Z)) : Forall (fun bs => 1 <= zlen bs) bss -> zlen bss <= zlen (concat bss).
Proof. induction 1 as [|bs bss Hb _ IH]; [done|]. cbn [concat]. rewrite zlen_cons, zlen_app. lia. Qed.

Lemma put_varint_pos v : 0 <= v -> 1 <= zlen (PgColumnarThriftPutVarint v).
Proof. intros Hv. destruct (put_varint_bytes 9 v Hv) as [_ [? _]]. done. Qed.

Lemma put_field_pos lastId id type : 1 <= zlen (PgColumnarThriftPutField lastId id type).
Proof. unfold PgColumnarThriftPutField. destruct (_ && _); [done|]. rewrite zlen_cons. pose proof (zlen_nonneg (PgColumnarThriftPutZigzag32 id)). lia. Qed.

Lemma put_fields_pos fs : forall lastId, zlen fs + 1 <= zlen (put_fields lastId fs).
Proof.
  induction fs as [|[id v] fs IH]; intros lastId; cbn [put_fields]; [done|]. rewrite zlen_cons, !zlen_app.
  pose proof (put_field_pos lastId id (ttype v)). specialize (IH id). pose proof (zlen_nonneg (put_val v)). lia.
Qed.

Lemma put_val_struct fs : put_val (VStruct fs) = put_fields 0 fs.
Proof. cbn [put_val]. generalize 0 as lastId. induction fs as [|[id v] fs IH]; intros lastId; [done|]. cbn [put_fields]. by rewrite IH. Qed.

Lemma put_val_list type et l : put_val (VList type et l) = PgColumnarThriftPutListHeader (zlen l) et ++ concat (map put_elem l).
Proof. done. Qed.

Lemma put_val_map kt vt l : put_val (VMap kt vt l) = PgColumnarThriftPutVarint (zlen l) ++
  match l with [] => [] | _ => [16 * kt + vt] end ++ concat (map (fun kv => put_elem kv.1 ++ put_elem kv.2) l).
Proof. done. Qed.

(** Everything but a bool takes a byte. *)
Lemma put_elem_pos k v : match v with VBool _ => True | _ => fits k v end -> 1 <= zlen (put_elem v).
Proof.
  destruct v as [b|x|type v|bs|bs|bs|type et l|kt vt l|fs]; intros Hf; [done|done|..];
    (destruct k as [|k]; [done|]); cbn [fits] in Hf; unfold put_elem.
  - destruct Hf as [_ Hv]. cbn [put_val]. rewrite put_zigzag64 by done. pose proof (zz_range v 63 Hv). apply put_varint_pos. lia.
  - cbn [put_val]. lia.
  - cbn [put_val]. lia.
  - cbn [put_val]. rewrite zlen_app. pose proof (zlen_nonneg bs). pose proof (put_varint_pos (u64 (zlen bs))) as Hp.
    rewrite u64_small in * by lia. lia.
  - rewrite put_val_list, zlen_app. pose proof (zlen_nonneg (concat (map put_elem l))). unfold PgColumnarThriftPutListHeader.
    destruct (_ <? _); [change (zlen [_]) with 1; lia|]. rewrite zlen_cons.
    pose proof (zlen_nonneg (PgColumnarThriftPutVarint (u64 (zlen l)))). lia.
  - rewrite put_val_map, zlen_app. pose proof (put_varint_pos (zlen l) (zlen_nonneg l)).
    match goal with |- _ <= _ + zlen ?x => pose proof (zlen_nonneg x) end. lia.
  - rewrite put_val_struct. pose proof (put_fields_pos fs 0). pose proof (zlen_nonneg fs). lia.
Qed.

Lemma passes_reads {A} bs (f : TCReader -> res (A * TCReader)) v : reads bs f v -> passes bs (fun r => ' (_, r) ← f r; Ok r).
Proof. intros Hf r s Hr. destruct (Hf r s Hr) as [-> _]. done. Qed.

Lemma passes_bytes bs r s : here r (bs ++ s) -> skip_bytes r (zlen bs) = adv r (zlen bs).
Proof.
  intros Hr. unfold skip_bytes. destruct (here_left r _ Hr) as (-> & _). rewrite zlen_app. pose proof (zlen_nonneg s).
  by rewrite (proj2 (Z.ltb_ge _ _)) by lia.
Qed.

Lemma passes_byte x r s : here r (x :: s) -> (if tc_len r <=? tc_pos r then fail r else adv r 1) = adv r 1.
Proof. intros Hr. apply here_rd1 in Hr as (_ & Hlt%Z.ltb_lt & _). by rewrite (proj2 (Z.leb_gt _ _)) by lia. Qed.

(** An element, given how the values below are skipped. *)
Lemma passes_elem k et v (skip : TCReader -> Z -> res TCReader) : (forall v, fits k v -> passes (put_val v) (fun r => skip r (ttype v))) ->
  of_type et v -> match v with VBool _ => True | _ => fits k v end -> passes (put_elem v) (fun r => pq_thrift_skip_element skip r et).
Proof.
  intros IH Ht Hf r s Hr. unfold pq_thrift_skip_element. fold (is_bool et).
  destruct (is_bool et) eqn:Eb.
  - assert (exists b, v = VBool b) as [b ->]; [|cbn [put_elem app] in *; by rewrite (passes_byte _ r s Hr)].
    destruct v as [b|x|type v|bs|bs|bs|type e l|kt vt l|fs]; [by exists b|..]; exfalso; cbn in Ht; subst et; try discriminate Eb;
      (destruct k as [|k]; [done|]); cbn [fits] in Hf.
    + by destruct Hf as [[->|[->| ->]] _].
    + by destruct Hf as [[->| ->] _].
  - destruct v; [cbn in Ht; congruence|..]; cbn in Ht; subst et; by apply (IH _ Hf r s).
Qed.

Lemma skip_fields_passes k skip fs : (forall v, fits k v -> passes (put_val v) (fun r => skip r (ttype v))) ->
  (forall v, fits k v -> TC_STOP < ttype v <= TC_UUID) ->
  forall fuel lastId r s, Forall (fun f => - 2 ^ 15 <= f.1 < 2 ^ 15 /\ fits k f.2) fs -> - 2 ^ 15 <= lastId < 2 ^ 15 ->
  (length fs < fuel)%nat -> here r (put_fields lastId fs ++ s) -> skip_fields fuel skip r lastId = Ok (adv r (zlen (put_fields lastId fs))).
Proof.
  intros IH Htype. induction fs as [|[id v] fs IHfs]; intros fuel lastId r s Hall Hlast Hfuel Hr; (destruct fuel as [|fuel]; [cbn in Hfuel; lia|]).
  - cbn [skip_fields put_fields] in *. destruct (reads_stop lastId r s Hr) as [-> _]. done.
  - apply Forall_cons_1 in Hall as [[Hid Hv] Hall]. cbn [fst snd] in *. cbn [skip_fields put_fields] in *. pose proof (Htype v Hv) as Hty.
    rewrite <- !app_assoc in Hr. destruct (reads_field lastId id (ttype v) Hlast Hid Hty r _ Hr) as [-> Hr1]. rewrite bind_Ok.
    rewrite (proj2 (Z.eqb_neq _ _)) by lia. rewrite (here_error _ _ Hr1). cbn [orb]. rewrite (IH v Hv _ _ Hr1), bind_Ok.
    assert (Hr2 : here (adv (adv r (zlen (PgColumnarThriftPutField lastId id (ttype v)))) (zlen (put_val v))) (put_fields id fs ++ s))
      by (by eapply here_adv). rewrite (IHfs fuel id _ s Hall Hid); [|cbn in Hfuel; lia|done]. by rewrite !adv_adv, !zlen_app, Z.add_assoc.
Qed.

Lemma fits_type k v : fits k v -> TC_STOP < ttype v <= TC_UUID.
Proof.
  destruct k as [|k]; [done|]. unfold TC_STOP, TC_UUID. destruct v as [[]|x|type v|bs|bs|bs|type e l|kt vt l|fs]; cbn [fits]; intros Hf; try done.
  - by destruct Hf as [[->|[->| ->]] _].
  - by destruct Hf as [[->| ->] _].
Qed.

Lemma turns_enough r s n : here r s -> n <= zlen s -> (Z.to_nat n <= S (Z.to_nat (tc_len r - tc_pos r)))%nat.
Proof. intros Hr Hn. destruct (here_left r s Hr) as (_ & E & _). lia. Qed.

(** The skip reads a list's header as [PgColumnarThriftListHeader] does. *)
Lemma skip_list_eq skip turns r :
  (if tc_len r <=? tc_pos r then Ok (fail r)
   else
     sizeType ← rd1 (tc_buf r) (tc_pos r);
     let r := adv r 1 in
     let size := Z.land (Z.shiftr sizeType 4) 15 in
     let et := Z.land sizeType 15 in
     ' (size, r) ← (if size =? 15 then ' (n, r) ← PgColumnarThriftVarint r; Ok (u32 n, r) else Ok (size, r));
     skip_times turns (fun r => pq_thrift_skip_element skip r et) size r)
  = ' (size, et, r) ← PgColumnarThriftListHeader r; skip_times turns (fun r => pq_thrift_skip_element skip r et) size r.
Proof.
  unfold PgColumnarThriftListHeader. destruct (tc_len r <=? tc_pos r); [by destruct turns|].
  destruct (rd1 _ _) as [b| | |]; [|done..]. rewrite !bind_Ok. cbv zeta. destruct (_ =? 15); [|done].
  by destruct (PgColumnarThriftVarint (adv r 1)) as [[n r1]| | |].
Qed.

(** A list: the header, then the elements. *)
Lemma skip_list_passes k et l (skip : TCReader -> Z -> res TCReader) r s :
  (forall v, fits k v -> passes (put_val v) (fun r => skip r (ttype v))) -> zlen l < 2 ^ 31 -> 0 <= et < 16 ->
  Forall (fun v => of_type et v /\ match v with VBool _ => True | _ => fits k v end) l ->
  here r (PgColumnarThriftPutListHeader (zlen l) et ++ concat (map put_elem l) ++ s) ->
  (' (size, et, r1) ← PgColumnarThriftListHeader r;
   skip_times (S (Z.to_nat (tc_len r - tc_pos r))) (fun r => pq_thrift_skip_element skip r et) size r1)
  = Ok (adv r (zlen (PgColumnarThriftPutListHeader (zlen l) et ++ concat (map put_elem l)))).
Proof.
  intros IH Hl He Hall Hr. pose proof (zlen_nonneg l). destruct (reads_list_header (zlen l) et ltac:(lia) He r _ Hr) as [-> Hr1].
  rewrite bind_Ok. set (hdr := PgColumnarThriftPutListHeader (zlen l) et) in *.
  assert (Hpos : Forall (fun bs => 1 <= zlen bs) (map put_elem l)).
  { apply Forall_map. eapply list.Forall_impl; [exact Hall|]. intros v [_ Hv]. by eapply put_elem_pos. }
  assert (El : zlen (map put_elem l) = zlen l) by (unfold zlen; by rewrite length_map). rewrite <- El.
  rewrite (skip_times_passes _ (map put_elem l) _ _ s); [by rewrite adv_adv, zlen_app|..|done].
  - apply Forall_map. eapply list.Forall_impl; [exact Hall|]. intros v [Ht Hv]. by eapply passes_elem.
  - pose proof (length_concat_ge _ Hpos) as Hge.
    pose proof (turns_enough r _ (zlen (map put_elem l)) Hr) as Ht. rewrite !zlen_app in Ht. pose proof (zlen_nonneg hdr). pose proof (zlen_nonneg s).
    unfold zlen in *. lia.
Qed.

(** A map: the size, the type byte when there is an entry, the entries. *)
Lemma skip_map_passes k kt vt l (skip : TCReader -> Z -> res TCReader) r s :
  (forall v, fits k v -> passes (put_val v) (fun r => skip r (ttype v))) -> zlen l < 2 ^ 31 -> 0 <= kt < 16 -> 0 <= vt < 16 ->
  Forall (fun kv => (of_type kt kv.1 /\ match kv.1 with VBool _ => True | _ => fits k kv.1 end) /\
                    (of_type vt kv.2 /\ match kv.2 with VBool _ => True | _ => fits k kv.2 end)) l ->
  here r (put_val (VMap kt vt l) ++ s) ->
  (' (n, r1) ← PgColumnarThriftVarint r;
   let size := u32 n in
   if tc_error r1 || (size =? 0) then Ok r1
   else if tc_len r1 <=? tc_pos r1 then Ok (fail r1)
   else
     b ← rd1 (tc_buf r1) (tc_pos r1);
     let kt := Z.land (Z.shiftr b 4) 15 in
     let vt := Z.land b 15 in
     let r1 := adv r1 1 in
     skip_times (S (Z.to_nat (tc_len r - tc_pos r))) (fun r => r ← pq_thrift_skip_element skip r kt; pq_thrift_skip_element skip r vt) size r1)
  = Ok (adv r (zlen (put_val (VMap kt vt l)))).
Proof.
  intros IH Hl Hk Hv Hall Hr. rewrite put_val_map in *. rewrite <- !app_assoc in Hr. pose proof (zlen_nonneg l).
  destruct (reads_varint (zlen l) ltac:(lia) r _ Hr) as [-> Hr1]. rewrite bind_Ok. cbv zeta. rewrite u32_small by lia. rewrite (here_error _ _ Hr1).
  destruct l as [|kv l]; [cbn [orb Z.eqb zlen length Z.of_nat map concat app]; by rewrite app_nil_r|]. set (l0 := kv :: l) in *.
  assert (Hpos : 0 < zlen l0) by (unfold l0; rewrite zlen_cons; pose proof (zlen_nonneg l); lia).
  rewrite (proj2 (Z.eqb_neq _ _)) by lia. cbn [orb app] in *. set (ps := map (fun kv => put_elem kv.1 ++ put_elem kv.2) l0) in *.
  destruct (here_rd1 _ _ _ Hr1) as (-> & Hlt%Z.ltb_lt & Hr2). rewrite (proj2 (Z.leb_gt _ _)) by lia. rewrite bind_Ok.
  destruct (nibbles kt vt Hk Hv) as (_ & -> & _ & ->). assert (El : zlen ps = zlen l0) by (unfold ps, zlen; by rewrite length_map). rewrite <- El.
  rewrite (skip_times_passes _ ps _ _ s); [by rewrite !adv_adv, !zlen_app, zlen_cons, Z.add_assoc|..|by rewrite El].
  - apply Forall_map. eapply list.Forall_impl; [exact Hall|]. intros [a b] [[Ha1 Ha2] [Hb1 Hb2]]. cbn [fst snd] in *.
    apply passes_seq; by eapply passes_elem.
  - assert (Hge : zlen ps <= zlen (concat ps)).
    { apply length_concat_ge, Forall_map. eapply list.Forall_impl; [exact Hall|]. intros [a b] [[_ Ha] [_ Hb]]. cbn [fst snd] in *.
      rewrite zlen_app. pose proof (put_elem_pos k a Ha). pose proof (put_elem_pos k b Hb). lia. }
    pose proof (turns_enough r _ (zlen ps) Hr) as Ht. rewrite zlen_app, zlen_cons, zlen_app in Ht.
    pose proof (zlen_nonneg (PgColumnarThriftPutVarint (zlen l0))). pose proof (zlen_nonneg s). unfold zlen in *. lia.
Qed.

Lemma skip_passes k : forall v, fits k v -> passes (put_val v) (fun r => PgColumnarThriftSkip k r (ttype v)).
Proof.
  induction k as [|k IH]; intros v Hf r s Hr; [done|].
  destruct v as [b|x|type v|bs|bs|bs|type et l|kt vt l|fs]; cbn [fits] in Hf; cbn [PgColumnarThriftSkip ttype].
  - cbn [put_val app]. by destruct b; rewrite adv_0.
  - exact (f_equal Ok (passes_byte x r s Hr)).
  - destruct Hf as [Ht Hv]. assert (is_bool type = false /\ (type =? TC_BYTE) = false /\ (type =? TC_I16) || (type =? TC_I32) || (type =? TC_I64) = true)
      as (E1 & -> & ->) by (by destruct Ht as [->|[->| ->]]). fold (is_bool type). rewrite E1.
    cbn [put_val] in *. by rewrite (passes_reads _ _ _ (reads_zigzag64 v Hv) r s Hr).
  - cbn [put_val] in *. pose proof (passes_bytes bs r s Hr) as E. rewrite Hf in *. exact (f_equal Ok E).
  - cbn [put_val] in *. pose proof (passes_bytes bs r s Hr) as E. rewrite Hf in *. exact (f_equal Ok E).
  - cbn [put_val] in *. apply (passes_reads _ _ _ (reads_bytes bs Hf) r s Hr).
  - destruct Hf as (Ht & Hl & He & Hall). assert (Hlist : (type =? TC_LIST) || (type =? TC_SET) = true /\ is_bool type = false /\
      (type =? TC_BYTE) = false /\ (type =? TC_I16) || (type =? TC_I32) || (type =? TC_I64) = false /\ (type =? TC_DOUBLE) = false /\
      (type =? TC_UUID) = false /\ (type =? TC_BINARY) = false) by (by destruct Ht as [->| ->]).
    fold (is_bool type). destruct Hlist as (-> & -> & -> & -> & -> & -> & ->). cbv zeta. rewrite skip_list_eq, put_val_list in *. rewrite <- app_assoc in Hr.
    exact (skip_list_passes k et l _ r s IH Hl He Hall Hr).
  - destruct Hf as (Hl & Hk & Hv & Hall). exact (skip_map_passes k kt vt l _ r s IH Hl Hk Hv Hall Hr).
  - rewrite put_val_struct in *. change (is_bool TC_STRUCT) with false. cbn [orb Z.eqb].
    apply (skip_fields_passes k _ fs IH (fits_type k) _ 0 r s Hf ltac:(lia)); [|done].
    pose proof (put_fields_pos fs 0) as Hp. pose proof (turns_enough r _ (zlen (put_fields 0 fs)) Hr) as Ht. rewrite zlen_app in Ht.
    pose proof (zlen_nonneg s). unfold zlen in *. lia.
Qed.

(** ** Any bytes *)

Definition reader_ok (r : TCReader) : Prop := bytes_ok (tc_buf r) /\ 0 <= tc_pos r <= tc_len r /\ tc_len r < 2 ^ 62.

(** The reader after a call: the same buffer, no step back. *)
Definition moved (r r' : TCReader) : Prop := tc_buf r' = tc_buf r /\ tc_pos r <= tc_pos r' /\ reader_ok r'.

(** It also took a byte, or failed. *)
Definition progress (r r' : TCReader) : Prop := moved r r' /\ (tc_error r' = true \/ tc_pos r < tc_pos r').

Lemma moved_refl r : reader_ok r -> moved r r.
Proof. intros Hr. split; [done|]. split; [lia|done]. Qed.

Lemma moved_trans r1 r2 r3 : moved r1 r2 -> moved r2 r3 -> moved r1 r3.
Proof. intros (E1 & P1 & _) (E2 & P2 & O2). split; [congruence|]. split; [lia|done]. Qed.

Lemma progress_trans r1 r2 r3 : progress r1 r2 -> moved r2 r3 -> (tc_error r2 = true -> tc_error r3 = true) -> progress r1 r3.
Proof.
  intros [M1 P1] M2 He. split; [by eapply moved_trans|]. destruct P1 as [P1|P1]; [left; by apply He|right]. destruct M2 as (_ & ? & _). lia.
Qed.

Lemma fail_progress r : reader_ok r -> progress r (fail r).
Proof. intros Hr. split; [|by left]. split; [done|]. split; [cbn; lia|done]. Qed.

Lemma adv_progress r n : reader_ok r -> 0 < n <= tc_len r - tc_pos r -> progress r (adv r n).
Proof.
  intros (Hb & Hp & Hl) Hn. split; [|right; cbn; lia]. split; [done|]. split; [cbn; lia|]. unfold reader_ok, tc_len in *. cbn. split; [done|lia].
Qed.

Lemma adv_moved r n : reader_ok r -> 0 <= n <= tc_len r - tc_pos r -> moved r (adv r n).
Proof. intros (Hb & Hp & Hl) Hn. split; [done|]. split; [cbn; lia|]. unfold reader_ok, tc_len in *. cbn. split; [done|lia]. Qed.

Lemma left_ok r : reader_ok r -> tc_left r = tc_len r - tc_pos r.
Proof. intros (_ & Hp & Hl). unfold tc_left. apply u64_small. lia. Qed.

Lemma varint_loop_safe fuel : forall r v shift, reader_ok r -> 0 <= v < 2 ^ 64 -> 0 <= shift -> 63 < shift + 7 * Z.of_nat fuel ->
  shift <= 63 -> safe (fun '(w, r') => 0 <= w < 2 ^ 64 /\ progress r r') (varint_loop fuel r v shift).
Proof.
  induction fuel as [|fuel IH]; intros r v shift Hr Hv Hs Hf Hle; cbn [varint_loop]; [cbn in Hf; lia|].
  destruct (Z.ltb_spec (tc_pos r) (tc_len r)) as [Hlt|_]; [|by split; [|by apply fail_progress]]. pose proof Hr as (Hb & Hp & Hl).
  rewrite rd1_Ok by (unfold tc_len in *; lia). rewrite bind_Ok. cbv zeta.
  assert (Hv' : 0 <= Z.lor v (u64 (Z.shiftl (Z.land (nthZ (tc_buf r) (tc_pos r)) 127) shift)) < 2 ^ 64)
    by (apply lor_bound; [lia|done|by apply mod_pow2_bound]).
  pose proof (adv_progress r 1 Hr ltac:(lia)) as Ha. destruct (_ =? 0); [by split|]. pose proof Ha as [(_ & _ & Hok) _].
  destruct (Z.ltb_spec 63 (shift + 7)).
  - split; [done|]. eapply progress_trans; [exact Ha|apply (proj1 (fail_progress _ Hok))|done].
  - eapply safe_mono; [apply IH; try done; lia|]. intros [w r'] [Hw Hpr]. split; [done|].
    split; [eapply moved_trans; [apply Ha|apply Hpr]|]. destruct Hpr as [(_ & Hm & _) _]. right. cbn in Hm. lia.
Qed.

Lemma varint_safe r : reader_ok r -> safe (fun '(w, r') => 0 <= w < 2 ^ 64 /\ progress r r') (PgColumnarThriftVarint r).
Proof. intros Hr. apply varint_loop_safe; try done; lia. Qed.

Lemma zigzag_safe r : reader_ok r -> safe (fun '(w, r') => - 2 ^ 63 <= w < 2 ^ 63 /\ progress r r') (PgColumnarThriftZigzag r).
Proof.
  intros Hr. unfold PgColumnarThriftZigzag. eapply safe_bind; [by apply varint_safe|]. intros [u r'] [Hu Hp]. split; [|done].
  by apply unzigzag_range.
Qed.

Lemma bytes_safe r : reader_ok r ->
  safe (fun '(b, r') => progress r r' /\ match b with Some bs => bytes_ok bs | None => tc_error r' = true end) (PgColumnarThriftBytes r).
Proof.
  intros Hr. unfold PgColumnarThriftBytes. eapply safe_bind; [by apply varint_safe|]. intros [n r1] [Hn Hp]. pose proof Hp as [(_ & _ & Hok) _].
  destruct (tc_error r1 || (tc_left r1 <? n)) eqn:E.
  { split; [|done]. eapply progress_trans; [exact Hp|apply (proj1 (fail_progress _ Hok))|done]. }
  apply orb_false_iff in E as [_ E%Z.ltb_ge]. rewrite left_ok in E by done. pose proof Hok as (Hb & Hpos & Hl).
  assert (Hle : 0 <= u32 n <= n) by (unfold u32; pose proof (Z.mod_pos_bound n (2 ^ 32)); pose proof (Z.mod_le n (2 ^ 32)); lia).
  rewrite rd_Ok by (unfold tc_len in *; lia). rewrite bind_Ok. split; [|by apply bytes_ok_sub].
  eapply progress_trans; [exact Hp|apply adv_moved; [done|lia]|done].
Qed.

Lemma field_safe r lastId : reader_ok r ->
  safe (fun '(ft, fid, lastId', r') => progress r r' /\ 0 <= ft <= TC_UUID) (PgColumnarThriftField r lastId).
Proof.
  intros Hr. unfold PgColumnarThriftField. unfold TC_UUID, TC_STOP. destruct (Z.leb_spec (tc_len r) (tc_pos r)) as [|Hlt]; [by split; [apply fail_progress|]|].
  pose proof Hr as (Hb & Hp & Hl). rewrite rd1_Ok by (unfold tc_len in *; lia). rewrite bind_Ok. set (b := nthZ _ _).
  assert (Hby : byte_ok b) by (by apply nthZ_ok). pose proof (adv_progress r 1 Hr ltac:(lia)) as Ha. pose proof Ha as [(_ & _ & Hok) _].
  destruct (b =? 0); [by split|].
  assert (Hft : 0 <= Z.land b 15 < 16) by (change 15 with (Z.ones 4); rewrite Z.land_ones by lia; by apply mod_pow2_bound).
  destruct (Z.ltb_spec 13 (Z.land b 15)); cbn [orb].
  { split; [|done]. eapply progress_trans; [exact Ha|apply (proj1 (fail_progress _ Hok))|done]. }
  destruct (Z.land b 15 =? 0).
  { split; [|done]. eapply progress_trans; [exact Ha|apply (proj1 (fail_progress _ Hok))|done]. }
  destruct (negb _); [split; [done|lia]|]. eapply safe_bind; [by apply zigzag_safe|]. intros [z r'] [_ Hz]. split; [|lia].
  split; [eapply moved_trans; [apply Ha|apply Hz]|]. destruct Hz as [(_ & Hm & _) _]. right. cbn in Hm. lia.
Qed.

Lemma skip_times_safe body : (forall r, reader_ok r -> safe (progress r) (body r)) -> forall fuel size r, reader_ok r ->
  tc_len r - tc_pos r < Z.of_nat fuel -> safe (moved r) (skip_times fuel body size r).
Proof.
  intros Hb. induction fuel as [|fuel IH]; intros size r Hr Hf; [destruct Hr as (_ & ? & _); lia|]. cbn [skip_times].
  destruct (_ && _); [|by apply moved_refl]. eapply safe_bind; [by apply Hb|]. intros r1 [M1 P1]. pose proof M1 as (E1 & L1 & O1).
  destruct (tc_error r1) eqn:Ee.
  { destruct fuel; cbn [skip_times]; by rewrite Ee, andb_false_r. }
  destruct P1 as [P1|P1]; [congruence|]. eapply safe_mono; [apply IH; [done|]|by intros r2; apply moved_trans].
  unfold tc_len in *. rewrite E1. lia.
Qed.

Lemma skip_fields_safe skip : (forall r ft, reader_ok r -> safe (moved r) (skip r ft)) -> forall fuel r lastId, reader_ok r ->
  tc_len r - tc_pos r < Z.of_nat fuel -> safe (progress r) (skip_fields fuel skip r lastId).
Proof.
  intros Hs. induction fuel as [|fuel IH]; intros r lastId Hr Hf; [destruct Hr as (_ & ? & _); lia|]. cbn [skip_fields].
  eapply safe_bind; [by apply field_safe|]. intros [[[ft fid] lastId'] r1] [[M1 P1] _]. pose proof M1 as (E1 & L1 & O1).
  destruct (_ || _) eqn:Eo; [by split|]. apply orb_false_iff in Eo as [_ Ee]. destruct P1 as [P1|P1]; [congruence|].
  eapply safe_bind; [by apply Hs|]. intros r2 M2. pose proof M2 as (E2 & L2 & O2).
  eapply safe_mono; [apply IH; [done|]|].
  - unfold tc_len in *. rewrite E2, E1. lia.
  - intros r3 [M3 _]. split; [by eapply moved_trans; [|eapply moved_trans]|]. right. destruct M3 as (_ & ? & _). lia.
Qed.

Lemma list_header_safe r : reader_ok r ->
  safe (fun '(size, et, r') => progress r r' /\ 0 <= size < 2 ^ 32 /\ 0 <= et < 16) (PgColumnarThriftListHeader r).
Proof.
  intros Hr. unfold PgColumnarThriftListHeader. destruct (Z.leb_spec (tc_len r) (tc_pos r)) as [|Hlt]; [by split; [apply fail_progress|]|].
  pose proof Hr as (Hb & Hp & Hl). rewrite rd1_Ok by (unfold tc_len in *; lia). rewrite bind_Ok.
  pose proof (adv_progress r 1 Hr ltac:(lia)) as Ha. pose proof Ha as [(_ & _ & Hok) _].
  assert (Hn : forall z, 0 <= Z.land z 15 < 16) by (intros z; change 15 with (Z.ones 4); rewrite Z.land_ones by lia; by apply mod_pow2_bound).
  cbv zeta. destruct (_ =? 15).
  - eapply safe_bind; [by apply varint_safe|]. intros [m r1] [_ Hpr]. split; [|split; [by apply mod_pow2_bound|done]].
    split; [eapply moved_trans; [apply Ha|apply Hpr]|]. destruct Hpr as [(_ & Hm & _) _]. right. cbn in Hm. lia.
  - split; [done|]. split; [|done]. pose proof (Hn (Z.shiftr (nthZ (tc_buf r) (tc_pos r)) 4)). lia.
Qed.

Lemma skip_bytes_progress r n : reader_ok r -> 0 < n -> progress r (skip_bytes r n).
Proof.
  intros Hr Hn. unfold skip_bytes. rewrite left_ok by done. destruct (Z.ltb_spec (tc_len r - tc_pos r) n); [by apply fail_progress|].
  apply adv_progress; [done|lia].
Qed.

Lemma byte_progress r : reader_ok r -> progress r (if tc_len r <=? tc_pos r then fail r else adv r 1).
Proof.
  intros Hr. destruct (Z.leb_spec (tc_len r) (tc_pos r)); [by apply fail_progress|]. apply adv_progress; [done|lia].
Qed.

Definition skip_post (r : TCReader) (ftype : Z) (r' : TCReader) : Prop :=
  moved r r' /\ (is_bool ftype = true \/ tc_error r' = true \/ tc_pos r < tc_pos r').

Lemma element_safe skip r et : (forall r ft, reader_ok r -> safe (skip_post r ft) (skip r ft)) -> reader_ok r ->
  safe (progress r) (pq_thrift_skip_element skip r et).
Proof.
  intros Hs Hr. unfold pq_thrift_skip_element. fold (is_bool et). destruct (is_bool et) eqn:E; [by apply byte_progress|].
  eapply safe_mono; [by apply Hs|]. intros r' [M [P|P]]; [congruence|]. by split.
Qed.

(** A loop over elements that starts later than where its turns were counted. *)
Lemma elements_safe body size r r1 : (forall r, reader_ok r -> safe (progress r) (body r)) -> progress r r1 ->
  safe (moved r1) (skip_times (S (Z.to_nat (tc_len r - tc_pos r))) body size r1).
Proof.
  intros Hb [(E & L & Hok) _]. apply skip_times_safe; [done|done|]. unfold tc_len in *. rewrite E in *. pose proof Hok as (_ & ? & _).
  unfold tc_len in *. rewrite E in *. lia.
Qed.

Lemma skip_times_error body size fuel r : tc_error r = true -> skip_times fuel body size r = Ok r.
Proof. intros E. destruct fuel; cbn [skip_times]; by rewrite E, andb_false_r. Qed.

Lemma skip_safe stack : forall r ftype, reader_ok r -> safe (skip_post r ftype) (PgColumnarThriftSkip stack r ftype).
Proof.
  assert (Hpost : forall r ft r', progress r r' -> skip_post r ft r') by (intros r ft r' [M P]; split; [done|by right]).
  induction stack as [|stack IH]; intros r ftype Hr; cbn [PgColumnarThriftSkip]; [done|]. cbv zeta. fold (is_bool ftype).
  destruct (is_bool ftype) eqn:Eb; [split; [by apply moved_refl|by left]|].
  destruct (ftype =? TC_BYTE); [by apply Hpost, byte_progress|].
  destruct (_ || _ || _); [eapply safe_bind; [by apply zigzag_safe|]; intros [z r'] [_ Hp]; by apply Hpost|].
  destruct (ftype =? TC_DOUBLE); [apply Hpost; by apply skip_bytes_progress|].
  destruct (ftype =? TC_UUID); [apply Hpost; by apply skip_bytes_progress|].
  destruct (ftype =? TC_BINARY); [eapply safe_bind; [by apply bytes_safe|]; intros [z r'] [Hp _]; by apply Hpost|].
  assert (He : forall et r, reader_ok r -> safe (progress r) (pq_thrift_skip_element (PgColumnarThriftSkip stack) r et))
    by (intros et r0 H0; by apply element_safe).
  assert (Hafter : forall r1 r2, progress r r1 -> moved r1 r2 -> (tc_error r1 = true -> r2 = r1) -> skip_post r ftype r2).
  { intros r1 r2 P1 M2 Hx. apply Hpost. eapply progress_trans; [done|done|]. intros E. by rewrite (Hx E). }
  destruct (_ || _).
  { rewrite skip_list_eq. eapply safe_bind; [by apply list_header_safe|]. intros [[size et] r1] [P1 _]. destruct (tc_error r1) eqn:Ee.
    { rewrite skip_times_error by done. by apply Hpost. }
    eapply safe_mono; [apply elements_safe; [apply He|done]|]. intros r2 M2. apply (Hafter r1 r2 P1 M2). congruence. }
  destruct (ftype =? TC_MAP).
  { eapply safe_bind; [by apply varint_safe|]. intros [n r1] [_ P1]. destruct (tc_error r1) eqn:Ee; cbn [orb]; [by apply Hpost|].
    destruct (_ =? 0); [by apply Hpost|]. pose proof P1 as [(E1 & L1 & O1) _]. destruct (Z.leb_spec (tc_len r1) (tc_pos r1)) as [|Hlt].
    { apply (Hafter r1 (fail r1) P1); [apply fail_progress, O1|congruence]. }
    pose proof O1 as (_ & ? & _). rewrite rd1_Ok by (unfold tc_len in *; lia). rewrite bind_Ok.
    pose proof (adv_progress r1 1 O1 ltac:(lia)) as Ha. pose proof P1 as [M1 _].
    assert (P2 : progress r (adv r1 1)) by (split; [eapply moved_trans; [exact M1|apply Ha]|right; cbn; lia]).
    eapply safe_mono; [apply elements_safe; [|exact P2]|].
    - intros r0 H0. eapply safe_bind; [by apply He|]. intros r0' [M0 P0]. pose proof M0 as (_ & L0 & O0).
      eapply safe_mono; [by apply He|]. intros r0'' [M0' P0']. split; [by eapply moved_trans|]. destruct P0' as [?|?]; [by left|right; lia].
    - intros r2 M2. apply (Hafter _ r2 P2 M2). cbn. congruence. }
  destruct (ftype =? TC_STRUCT); [|apply Hpost; by apply fail_progress].
  eapply safe_mono; [apply skip_fields_safe; [intros r0 ft0 H0; eapply safe_mono; [by apply IH|by intros ? []]|done|]|by apply Hpost].
  destruct Hr as (_ & ? & _). lia.
Qed.

(** ** Claims *)

(** Skipping a well-formed value of any type (nested lists, sets, maps and
    structs, booleans with and without a byte of their own) moves the reader to
    the first byte behind the value, whatever follows, when the stack is deep
    enough for the nesting of the value. *)
Theorem thrift_skip_exact k v r s : fits k v -> here r (put_val v ++ s) ->
  PgColumnarThriftSkip k r (ttype v) = Ok (adv r (zlen (put_val v))).
Proof. intros Hf Hr. by apply (skip_passes k v Hf r s). Qed.

Definition sample_struct : tval :=
  VStruct [(1, VBool true); (2, VInt TC_I32 (-7)); (4, VList TC_LIST TC_BOOL_TRUE [VBool true; VBool false]);
           (30, VMap TC_BINARY TC_STRUCT [(VBinary [65; 66], VStruct [(1, VDouble [0; 0; 0; 0; 0; 0; 0; 0])])])].

Lemma thrift_skip_exact_witness : PgColumnarThriftSkip 4 (mkReader (put_val sample_struct ++ [9; 9]) 0 false) TC_STRUCT =
  Ok (mkReader (put_val sample_struct ++ [9; 9]) (zlen (put_val sample_struct)) false).
Proof.
  apply (thrift_skip_exact 4 sample_struct (mkReader (put_val sample_struct ++ [9; 9]) 0 false) [9; 9]).
  - unfold sample_struct, of_type.
    repeat (cbn [fits snd fst of_type]; match goal with |- _ <= _ < _ => fail 1 | |- _ /\ _ => split | |- Forall _ _ => constructor | |- _ => exact I end);
      cbn [snd fst]; try (unfold zlen, byte_ok, TC_BOOL_TRUE, TC_STOP, TC_UUID, TC_LIST, TC_STRUCT, TC_BINARY; cbn; lia); auto.
  - split; [done|]. split; [apply (bool_decide_eq_true_1 (bytes_ok _)); vm_compute; reflexivity|]. split; [done|]. by exists [].
Defined.

(** C19.  Skipping ends on every input: whatever the bytes and the declared type
    and sizes, the skip returns after at most one turn per byte left, having read
    only bytes of the buffer, and has taken a byte or set the error flag unless
    the type is a boolean, which takes none (or the nesting exceeds the stack, which is reported). *)
Theorem thrift_skip_terminates stack r ftype : reader_ok r ->
  safe (fun r' => tc_buf r' = tc_buf r /\ tc_pos r <= tc_pos r' <= tc_len r /\
    (is_bool ftype = true \/ tc_error r' = true \/ tc_pos r < tc_pos r')) (PgColumnarThriftSkip stack r ftype).
Proof.
  intros Hr. eapply safe_mono; [by apply skip_safe|]. intros r' [(E & P & _ & Hl & _) H]. split; [done|]. split; [|done].
  unfold tc_len in *. rewrite E in Hl. lia.
Qed.

Lemma thrift_skip_terminates_witness :
  safe (fun r' => tc_buf r' = [252; 255; 255; 255; 255; 15; 1] /\ 0 <= tc_pos r' <= 7 /\
    (is_bool TC_LIST = true \/ tc_error r' = true \/ 0 < tc_pos r'))
    (PgColumnarThriftSkip 100 (mkReader [252; 255; 255; 255; 255; 15; 1] 0 false) TC_LIST).
Proof.
  apply (thrift_skip_terminates 100 (mkReader [252; 255; 255; 255; 255; 15; 1] 0 false) TC_LIST).
  split; [apply (bool_decide_eq_true_1 (bytes_ok _)); vm_compute; reflexivity|]. split; [vm_compute; split; discriminate|vm_compute; reflexivity].
Defined.
