(* ===== verification/ParquetCodec.v ===== *)
(** * Parquet page codecs

    [columnar_parquet_codec.c]: the Snappy decoder and the codec dispatch.  The
    gzip, zstd and lz4 libraries are parameters. *)

From S2P Require Import Prelude BitPack BitSet Compress Thrift.

Definition PQC_UNCOMPRESSED : Z := 0.
Definition PQC_SNAPPY : Z := 1.
Definition PQC_GZIP : Z := 2.
Definition PQC_ZSTD : Z := 6.
Definition PQC_LZ4_RAW : Z := 7.

(** ** StringInfo: at most [MaxAllocSize - 1] bytes, the terminating zero included *)

Definition enlargeStringInfo (len needed : Z) : res unit :=
  if needed <? 0 then Err "invalid string enlargement request size"
  else if MaxAllocSize - len <=? needed then Err "string buffer exceeds maximum allowed length"
  else Ok tt.

Definition appendBinaryStringInfo (out bs : list Z) : res (list Z) :=
  _ ← enlargeStringInfo (zlen out) (zlen bs);
  Ok (out ++ bs).

(** ** Snappy *)

(** The preamble; [None] for a varint that is too long.  One that the end of the
    input cuts off is taken as it is. *)
Fixpoint snappy_preamble (fuel : nat) (inp : list Z) (pos ulen shift : Z) : res (option (Z * Z)) :=
  match fuel with
  | O => Fuel
  | S fuel =>
      if pos <? zlen inp then
        b ← rd1 inp pos;
        let pos := pos + 1 in
        let ulen := Z.lor ulen (u32 (Z.shiftl (Z.land b 127) shift)) in
        if Z.land b 128 =? 0 then Ok (Some (ulen, pos))
        else
          let shift := shift + 7 in
          if 32 <? shift then Ok None else snappy_preamble fuel inp pos ulen shift
      else Ok (Some (ulen, pos))
  end.

(** A little-endian integer of [nb] bytes. *)
Definition snappy_le (inp : list Z) (pos nb : Z) : res Z :=
  forZ 0 nb (fun i l => b ← rd1 inp (pos + i); Ok (Z.lor l (u32 (Z.shiftl b (8 * i))))) 0.

(** The copy loop: byte by byte from the output so far. *)
Fixpoint snappy_copy (n : nat) (offset : Z) (out : list Z) : res (list Z) :=
  match n with
  | O => Ok out
  | S n =>
      c ← rd1 out (zlen out - offset);
      out ← appendBinaryStringInfo out [c];
      snappy_copy n offset out
  end.

Definition snappy_literal (inp : list Z) (pos tag : Z) (out : list Z) : res (option (Z * list Z)) :=
  let len := Z.shiftr tag 2 + 1 in
  o ← (if 60 <? len then
         let nb := Z.shiftr tag 2 - 59 in
         if zlen inp <? pos + nb then Ok None
         else l ← snappy_le inp pos nb; Ok (Some (u32 (l + 1), pos + nb))
       else Ok (Some (len, pos)));
  match o with
  | None => Ok None
  | Some (len, pos) =>
      if zlen inp <? pos + len then Ok None
      else
        bs ← rd inp pos len;
        out ← appendBinaryStringInfo out bs;
        Ok (Some (pos + len, out))
  end.

(** Length and offset of a copy element, and where the next element starts. *)
Definition snappy_copy_args (inp : list Z) (pos tag : Z) : res (option (Z * Z * Z)) :=
  let type := Z.land tag 3 in
  if type =? 1 then
    if zlen inp <=? pos then Ok None
    else
      b ← rd1 inp pos;
      Ok (Some (Z.land (Z.shiftr tag 2) 7 + 4, Z.lor (Z.shiftl (Z.shiftr tag 5) 8) b, pos + 1))
  else
    let nb := if type =? 2 then 2 else 4 in
    if zlen inp <? pos + nb then Ok None
    else offset ← snappy_le inp pos nb; Ok (Some (Z.shiftr tag 2 + 1, offset, pos + nb)).

(** Every element takes its tag. *)
Fixpoint snappy_elements (fuel : nat) (inp : list Z) (pos : Z) (out : list Z) : res (option (list Z)) :=
  if pos <? zlen inp then
    match fuel with
    | O => Fuel
    | S fuel =>
        tag ← rd1 inp pos;
        let pos := pos + 1 in
        if Z.land tag 3 =? 0 then
          o ← snappy_literal inp pos tag out;
          match o with
          | None => Ok None
          | Some (pos, out) => snappy_elements fuel inp pos out
          end
        else
          o ← snappy_copy_args inp pos tag;
          match o with
          | None => Ok None
          | Some (len, offset, pos) =>
              if (offset =? 0) || (u32 (zlen out) <? offset) then Ok None
              else out ← snappy_copy (Z.to_nat len) offset out; snappy_elements fuel inp pos out
          end
    end
  else Ok (Some out).

Definition snappy_raw_uncompress (inp : list Z) : res (option (list Z)) :=
  o ← snappy_preamble 5 inp 0 0 0;
  match o with
  | None => Ok None
  | Some (ulen, pos) =>
      _ ← enlargeStringInfo 0 (s32 ulen);
      o ← snappy_elements (length inp) inp pos [];
      Ok (match o with Some out => if u32 (zlen out) =? ulen then Some out else None | None => None end)
  end.

(** ** The dispatch *)

(** zlib: whether the build has it, and the bytes [inflate] with [Z_FINISH] writes
    into a buffer of the given size when it reaches the end of the stream. *)
Class Zlib : Type := {
  HAVE_LIBZ : bool;
  inflate_finish : list Z -> Z -> option (list Z)
}.

Section Dispatch.
Context `{BlockCodecs} `{Zlib}.

(** The output of a codec library, accepted when its length is the declared one. *)
Definition sized_output (usize : Z) (o : option (list Z)) : option (list Z) :=
  match o with
  | Some out => if zlen out =? usize then Some out else None
  | None => None
  end.

(** A codec library fills a buffer of the declared size; a declared size of zero
    gives the empty output without calling it. *)
Definition library_output (usize : Z) (o : option (list Z)) : res (option (list Z)) :=
  if usize =? 0 then Ok (Some [])
  else _ ← enlargeStringInfo 0 usize; Ok (sized_output usize o).

(** [usize] is the [size_t] the declared size has become. *)
Definition PgColumnarParquetDecompress (codec : Z) (src : list Z) (usize : Z) : res (option (list Z)) :=
  if (MaxAllocSize <? zlen src) || (MaxAllocSize <? usize) then Ok None
  else if codec =? PQC_UNCOMPRESSED then Ok (Some src)
  else if codec =? PQC_SNAPPY then
    o ← snappy_raw_uncompress src;
    Ok (sized_output usize o)
  else if (codec =? PQC_GZIP) && HAVE_LIBZ then library_output usize (inflate_finish src usize)
  else if (codec =? PQC_ZSTD) && HAVE_LIBZSTD then library_output usize (ZSTD_decompress src (zlen src) usize)
  else if (codec =? PQC_LZ4_RAW) && HAVE_LIBLZ4 then library_output usize (LZ4_decompress_safe src (zlen src) usize)
  else Ok None.

End Dispatch.

(** ** Helpers *)

Lemma append_Ok out bs : zlen out + zlen bs < MaxAllocSize -> appendBinaryStringInfo out bs = Ok (out ++ bs).
Proof.
  intros Hl. unfold appendBinaryStringInfo, enlargeStringInfo. pose proof (zlen_nonneg bs).
  rewrite (proj2 (Z.ltb_ge _ _)), (proj2 (Z.leb_gt _ _)) by lia. done.
Qed.

Lemma append_safe out bs : bytes_ok out -> bytes_ok bs ->
  safe (fun out' => out' = out ++ bs /\ bytes_ok out' /\ zlen out' < MaxAllocSize) (appendBinaryStringInfo out bs).
Proof.
  intros H1 H2. unfold appendBinaryStringInfo, enlargeStringInfo. destruct (_ <? 0); [done|].
  destruct (Z.leb_spec (MaxAllocSize - zlen out) (zlen bs)); [done|]. cbn. split; [done|]. split; [by apply Forall_app_2|].
  rewrite zlen_app. lia.
Qed.

Lemma snappy_le_spec inp pos nb : bytes_ok inp -> 0 <= pos -> 0 <= nb <= 4 -> pos + nb <= zlen inp ->
  snappy_le inp pos nb = Ok (le_uint (take (Z.to_nat nb) (drop (Z.to_nat pos) inp))).
Proof.
  intros Hb Hp Hn Hl. unfold snappy_le. set (bs := drop (Z.to_nat pos) inp). assert (Hbs : bytes_ok bs) by (by apply Forall_drop).
  destruct (forZ_Ok (fun k l => l = le_uint bs mod 2 ^ (8 * k))
    (fun i l => b ← rd1 inp (pos + i); Ok (Z.lor l (u32 (Z.shiftl b (8 * i))))) 0 nb 0) as (l & -> & ->); [lia| |by rewrite Z.mod_1_r|].
  - intros i l Hi ->. rewrite rd1_Ok, bind_Ok by lia. eexists. split; [done|].
    assert (En : nthZ inp (pos + i) = nthZ bs i) by (unfold nthZ, bs; rewrite !nth_lookup, lookup_drop; do 2 f_equal; lia).
    rewrite En, le_uint_byte by (done || lia). unfold u32. zbits.
  - rewrite le_uint_take, Z2Nat.id by (done || lia). done.
Qed.

Lemma snappy_le_at pre bs post : bytes_ok pre -> bytes_ok bs -> bytes_ok post -> zlen bs <= 4 ->
  snappy_le (pre ++ bs ++ post) (zlen pre) (zlen bs) = Ok (le_uint bs).
Proof.
  intros H1 H2 H3 Hl. rewrite snappy_le_spec.
  - unfold zlen. rewrite !Nat2Z.id, drop_app_length, take_app_length. done.
  - by repeat apply Forall_app_2.
  - apply zlen_nonneg.
  - pose proof (zlen_nonneg bs). lia.
  - rewrite !zlen_app. pose proof (zlen_nonneg post). lia.
Qed.

(** ** Any bytes *)

Lemma snappy_preamble_safe inp : bytes_ok inp -> forall fuel pos ulen shift, 0 <= pos <= zlen inp -> 0 <= shift <= 32 -> 32 < shift + 7 * Z.of_nat fuel ->
  0 <= ulen < 2 ^ 32 ->
  safe (fun o => match o with None => True | Some (u, pos') => 0 <= u < 2 ^ 32 /\ pos <= pos' <= zlen inp end) (snappy_preamble fuel inp pos ulen shift).
Proof.
  intros Hb. induction fuel as [|fuel IH]; intros pos ulen shift Hp Hs Hf Hu; cbn [snappy_preamble]; [exfalso; lia|].
  destruct (Z.ltb_spec pos (zlen inp)); [|cbn; lia]. rewrite rd1_Ok, bind_Ok by lia. cbv zeta.
  assert (Hu' : 0 <= Z.lor ulen (u32 (Z.shiftl (Z.land (nthZ inp pos) 127) shift)) < 2 ^ 32)
    by (apply lor_bound; [lia|done|apply mod_pow2_bound; lia]).
  destruct (_ =? 0); [cbn [safe]; split; [exact Hu'|lia]|]. destruct (Z.ltb_spec 32 (shift + 7)); [done|].
  eapply safe_mono; [apply IH; [lia|lia|lia|done]|]. intros [[u pos']|]; [|done]. intros [? ?]. split; [done|lia].
Qed.

Lemma snappy_copy_safe n : forall offset out, bytes_ok out -> 0 < offset <= zlen out -> safe bytes_ok (snappy_copy n offset out).
Proof.
  induction n as [|n IH]; intros offset out Hb Ho; cbn [snappy_copy]; [done|]. rewrite rd1_Ok, bind_Ok by lia.
  eapply safe_bind; [apply append_safe; [done|constructor; [by apply nthZ_ok|constructor]]|].
  intros out' (-> & Hb' & _). apply IH; [done|]. zlens.
Qed.

Lemma tag_range inp pos : bytes_ok inp -> 0 <= nthZ inp pos < 256.
Proof. intros Hb. by apply (nthZ_ok inp pos). Qed.

Lemma snappy_literal_safe inp pos tag out : bytes_ok inp -> bytes_ok out -> 0 <= tag < 256 -> 0 <= pos <= zlen inp ->
  safe (fun o => match o with None => True | Some (pos', out') => pos <= pos' <= zlen inp /\ bytes_ok out' end) (snappy_literal inp pos tag out).
Proof.
  intros Hb Ho Ht Hp. unfold snappy_literal. rewrite Z.shiftr_div_pow2 by lia. change (2 ^ 2) with 4. div_bounds tag 4.
  apply (safe_bind (fun o => match o with None => True | Some (len, pos') => 0 <= len /\ pos <= pos' <= zlen inp end)).
  - destruct (Z.ltb_spec 60 (tag / 4 + 1)); [|cbn; lia]. destruct (Z.ltb_spec (zlen inp) (pos + (tag / 4 - 59))); [done|].
    rewrite snappy_le_spec by (done || lia). cbn [mbind res_bind safe]. pose proof (mod_pow2_bound (le_uint (take (Z.to_nat (tag / 4 - 59)) (drop (Z.to_nat pos) inp)) + 1) 32).
    unfold u32. lia.
  - intros [[len pos']|]; [|done]. intros [Hl Hp']. destruct (Z.ltb_spec (zlen inp) (pos' + len)); [done|].
    rewrite rd_Ok, bind_Ok by lia. eapply safe_bind; [apply append_safe; [done|by apply bytes_ok_sub]|]. intros out' (_ & Hb' & _). cbn. split; [lia|done].
Qed.

Lemma snappy_copy_args_safe inp pos tag : bytes_ok inp -> 0 <= tag < 256 -> 0 <= pos <= zlen inp ->
  safe (fun o => match o with None => True | Some (len, off, pos') => 0 <= len /\ 0 <= off < 2 ^ 32 /\ pos <= pos' <= zlen inp end) (snappy_copy_args inp pos tag).
Proof.
  intros Hb Ht Hp. unfold snappy_copy_args. assert (Hsh : forall k, 0 <= Z.shiftr tag k) by (intros k; apply Z.shiftr_nonneg; lia).
  destruct (_ =? 1).
  - destruct (Z.leb_spec (zlen inp) pos); [done|]. rewrite rd1_Ok, bind_Ok by lia. cbn [safe].
    pose proof (Hsh 2). assert (0 <= Z.land (Z.shiftr tag 2) 7) by (apply Z.land_nonneg; lia).
    split; [lia|]. split; [|lia]. apply lor_bound; [lia| |pose proof (tag_range inp pos Hb); lia].
    rewrite Z.shiftl_mul_pow2, Z.shiftr_div_pow2 by lia. change (2 ^ 5) with 32. div_bounds tag 32. lia.
  - assert (Hnb : 0 <= (if Z.land tag 3 =? 2 then 2 else 4) <= 4) by (destruct (_ =? 2); lia). revert Hnb. generalize (if Z.land tag 3 =? 2 then 2 else 4). intros nb Hnb.
    destruct (Z.ltb_spec (zlen inp) (pos + nb)); [done|]. rewrite snappy_le_spec, bind_Ok by (done || lia). cbn [safe]. pose proof (Hsh 2).
    set (bs := take (Z.to_nat nb) (drop (Z.to_nat pos) inp)). assert (Hbs : bytes_ok bs) by (by apply bytes_ok_sub).
    pose proof (le_uint_bound bs Hbs). assert (8 * zlen bs <= 32) by (unfold bs, zlen; rewrite length_take; lia).
    assert (2 ^ (8 * zlen bs) <= 2 ^ 32) by (apply Z.pow_le_mono_r; lia). lia.
Qed.

Lemma snappy_elements_safe inp : bytes_ok inp -> forall fuel pos out, bytes_ok out -> 0 <= pos <= zlen inp -> zlen inp - pos <= Z.of_nat fuel ->
  safe (fun o => match o with None => True | Some out => bytes_ok out end) (snappy_elements fuel inp pos out).
Proof.
  intros Hb. induction fuel as [|fuel IH]; intros pos out Ho Hp Hf; cbn [snappy_elements]; (destruct (Z.ltb_spec pos (zlen inp)); [|done]); [exfalso; lia|].
  rewrite rd1_Ok, bind_Ok by lia. cbv zeta. pose proof (tag_range inp pos Hb) as Ht. generalize dependent (nthZ inp pos). intros tag Ht.
  destruct (_ =? 0).
  - eapply safe_bind; [by apply snappy_literal_safe; [done|done|done|lia]|]. intros [[pos' out']|]; [|done]. intros [? ?]. apply IH; [done|lia|lia].
  - eapply safe_bind; [by apply snappy_copy_args_safe; [done|done|lia]|]. intros [[[len off] pos']|]; [|done]. intros (? & ? & ?).
    destruct (Z.eqb_spec off 0), (Z.ltb_spec (u32 (zlen out)) off); cbn [orb]; try done.
    pose proof (Z.mod_le (zlen out) (2 ^ 32) (zlen_nonneg out) ltac:(lia)). unfold u32 in *.
    eapply safe_bind; [apply snappy_copy_safe; [done|lia]|]. intros out' Hb'. apply IH; [done|lia|lia].
Qed.

Lemma snappy_safe inp : bytes_ok inp -> safe (fun o => match o with None => True | Some out => bytes_ok out end) (snappy_raw_uncompress inp).
Proof.
  intros Hb. unfold snappy_raw_uncompress. pose proof (zlen_nonneg inp).
  eapply safe_bind; [apply (snappy_preamble_safe inp Hb 5 0 0 0); lia|]. intros [[ulen pos]|]; [|done]. intros [Hu Hp].
  apply (safe_bind (fun _ => True)); [unfold enlargeStringInfo; destruct (_ <? 0); [done|]; by destruct (_ <=? _)|]. intros _ _.
  eapply safe_bind; [apply snappy_elements_safe; [done|constructor|lia|unfold zlen; lia]|]. intros [out|]; [|done]. cbn. by destruct (_ =? _).
Qed.

(** ** The format: a stream of elements and what it stands for *)

Inductive sn_elem :=
| SLit (nb : nat) (bs : list Z)
| SCopy1 (offset len : Z)
| SCopy2 (offset len : Z)
| SCopy4 (offset len : Z).

Definition sn_bytes (e : sn_elem) : list Z :=
  match e with
  | SLit O bs => (4 * (zlen bs - 1)) :: bs
  | SLit nb bs => (4 * (59 + Z.of_nat nb)) :: le_bytes nb (zlen bs - 1) ++ bs
  | SCopy1 offset len => [32 * (offset / 256) + 4 * (len - 4) + 1; offset mod 256]
  | SCopy2 offset len => (4 * (len - 1) + 2) :: le_bytes 2 offset
  | SCopy4 offset len => (4 * (len - 1) + 3) :: le_bytes 4 offset
  end.

(** A copy repeats the last [offset] bytes of the output, over and over when it is
    longer than them. *)
Definition copied (out : list Z) (offset len : Z) : list Z :=
  (fun k => nthZ out (zlen out - offset + k mod offset)) <$> seqZ 0 len.

Definition sn_apply (out : list Z) (e : sn_elem) : list Z :=
  match e with
  | SLit _ bs => out ++ bs
  | SCopy1 offset len | SCopy2 offset len | SCopy4 offset len => out ++ copied out offset len
  end.

Definition sn_ok (out : list Z) (e : sn_elem) : Prop :=
  match e with
  | SLit nb bs => bytes_ok bs /\ 1 <= zlen bs /\ (nb <= 4)%nat /\ zlen bs <= (if decide (nb = O) then 60 else 2 ^ (8 * Z.of_nat nb))
  | SCopy1 offset len => 1 <= offset < 2048 /\ offset <= zlen out /\ 4 <= len <= 11
  | SCopy2 offset len => 1 <= offset < 2 ^ 16 /\ offset <= zlen out /\ 1 <= len <= 64
  | SCopy4 offset len => 1 <= offset < 2 ^ 32 /\ offset <= zlen out /\ 1 <= len <= 64
  end.

Fixpoint sn_all_ok (out : list Z) (es : list sn_elem) : Prop :=
  match es with [] => True | e :: es => sn_ok out e /\ sn_all_ok (sn_apply out e) es end.

Definition sn_value (es : list sn_elem) : list Z := foldl sn_apply [] es.

Definition sn_stream (es : list sn_elem) : list Z :=
  PgColumnarThriftPutVarint (zlen (sn_value es)) ++ concat (map sn_bytes es).

(** *** A copy, byte by byte *)

Lemma copied_snoc out offset n : 0 <= n -> copied out offset (n + 1) = copied out offset n ++ [nthZ out (zlen out - offset + n mod offset)].
Proof. intros Hn. unfold copied. rewrite seqZ_app by lia. rewrite fmap_app. done. Qed.

Lemma zlen_copied out offset n : 0 <= n -> zlen (copied out offset n) = n.
Proof. intros Hn. unfold copied, zlen. rewrite length_fmap, length_seqZ. lia. Qed.

Lemma nthZ_copied out offset n k : 0 <= k < n -> nthZ (copied out offset n) k = nthZ out (zlen out - offset + k mod offset).
Proof.
  intros Hk. unfold copied, nthZ at 1. rewrite nth_lookup, list_lookup_fmap, lookup_seqZ_lt by lia. cbn [from_option option_fmap option_map]. rewrite Z.add_0_l, Z2Nat.id by lia. done.
Qed.

Lemma mod_back n offset : 0 < offset -> (n - offset) mod offset = n mod offset.
Proof. intros Ho. replace (n - offset) with (n + (-1) * offset) by lia. by rewrite Z.mod_add by lia. Qed.

(** The byte [offset] before the end of the output while a copy is under way. *)
Lemma copy_byte out offset k : 0 < offset <= zlen out -> 0 <= k ->
  nthZ (out ++ copied out offset k) (zlen out + k - offset) = nthZ out (zlen out - offset + k mod offset).
Proof.
  intros Ho Hk. rewrite nthZ_app by lia. destruct (Z.ltb_spec (zlen out + k - offset) (zlen out)).
  - rewrite (Z.mod_small k) by lia. f_equal. lia.
  - rewrite nthZ_copied by lia. do 2 f_equal. rewrite <- (mod_back k) by lia. f_equal. lia.
Qed.

Lemma snappy_copy_spec out offset : 0 < offset <= zlen out -> forall n k, 0 <= k -> zlen out + k + Z.of_nat n < MaxAllocSize ->
  snappy_copy n offset (out ++ copied out offset k) = Ok (out ++ copied out offset (k + Z.of_nat n)).
Proof.
  intros Ho. induction n as [|n IH]; intros k Hk Hl; cbn [snappy_copy]; [by rewrite Z.add_0_r|].
  assert (Hz : zlen (out ++ copied out offset k) = zlen out + k) by (by rewrite zlen_app, zlen_copied).
  rewrite rd1_Ok, bind_Ok, Hz, copy_byte by lia. rewrite append_Ok by (rewrite Hz, zlen_cons, zlen_nil; lia). rewrite bind_Ok, <- app_assoc, <- copied_snoc by lia.
  rewrite IH by lia. do 3 f_equal. lia.
Qed.

Lemma snappy_copy_all out offset len : 0 < offset <= zlen out -> 0 <= len -> zlen out + len < MaxAllocSize ->
  snappy_copy (Z.to_nat len) offset out = Ok (out ++ copied out offset len).
Proof.
  intros Ho Hl Hm. pose proof (snappy_copy_spec out offset Ho (Z.to_nat len) 0 ltac:(lia) ltac:(lia)) as E.
  rewrite Z.add_0_l, Z2Nat.id in E by lia. unfold copied in E at 1. cbn in E. by rewrite app_nil_r in E.
Qed.

(** *** One element *)

Lemma tag_fields a b : 0 <= b < 4 -> Z.land (4 * a + b) 3 = b /\ Z.shiftr (4 * a + b) 2 = a.
Proof.
  intros Hb. change 3 with (2 ^ 2 - 1). rewrite land_ones_mod, Z.shiftr_div_pow2 by lia. change (2 ^ 2) with 4.
  rewrite (Z.mul_comm 4), Z.add_comm, Z.mod_add, Z.div_add, Z.mod_small, Z.div_small by lia. lia.
Qed.

Lemma literal_spec pre nb bs post out : bytes_ok (pre ++ sn_bytes (SLit nb bs) ++ post) -> sn_ok out (SLit nb bs) -> zlen out + zlen bs < MaxAllocSize ->
  exists tag rest, sn_bytes (SLit nb bs) = tag :: rest /\ Z.land tag 3 = 0 /\
    snappy_literal (pre ++ (tag :: rest) ++ post) (zlen pre + 1) tag out = Ok (Some (zlen pre + 1 + zlen rest, out ++ bs)).
Proof.
  intros Hb (Hbs & H1 & Hnb & Hsz) Hm. unfold snappy_literal. destruct nb as [|nb]; cbn [sn_bytes] in *.
  - rewrite decide_True in Hsz by done. eexists _, _. split; [done|]. destruct (tag_fields (zlen bs - 1) 0 ltac:(lia)) as [T1 T2]. rewrite Z.add_0_r in T1, T2.
    split; [done|]. rewrite T2. rewrite (proj2 (Z.ltb_ge _ _)) by lia. rewrite bind_Ok.
    rewrite !zlen_app, zlen_cons. pose proof (zlen_nonneg post). rewrite (proj2 (Z.ltb_ge _ _)) by lia.
    replace (zlen bs - 1 + 1) with (zlen bs) by lia.
    replace (pre ++ (4 * (zlen bs - 1) :: bs) ++ post) with ((pre ++ [4 * (zlen bs - 1)]) ++ bs ++ post) by (by rewrite <- app_assoc).
    rewrite rd_at by (try done; rewrite zlen_app; done). rewrite bind_Ok, append_Ok by done. done.
  - rewrite decide_False in Hsz by done. eexists _, _. split; [done|]. destruct (tag_fields (59 + Z.of_nat (S nb)) 0 ltac:(lia)) as [T1 T2]. rewrite Z.add_0_r in T1, T2.
    split; [done|]. rewrite T2. rewrite (proj2 (Z.ltb_lt _ _)) by lia. replace (59 + Z.of_nat (S nb) - 59) with (Z.of_nat (S nb)) by lia.
    set (tag := 4 * (59 + Z.of_nat (S nb))) in *. set (ls := le_bytes (S nb) (zlen bs - 1)) in *. assert (Hls : zlen ls = Z.of_nat (S nb)) by apply zlen_le_bytes.
    assert (Hp1 : zlen pre + 1 = zlen (pre ++ [tag])) by (by rewrite zlen_app).
    pose proof (zlen_nonneg post). pose proof (zlen_nonneg pre).
    replace (pre ++ (tag :: ls ++ bs) ++ post) with ((pre ++ [tag]) ++ ls ++ bs ++ post) in * by (rewrite <- app_assoc; cbn [app]; by rewrite <- app_assoc).
    assert (Htot : zlen ((pre ++ [tag]) ++ ls ++ bs ++ post) = zlen (pre ++ [tag]) + zlen ls + zlen bs + zlen post)
      by (rewrite zlen_app, (zlen_app ls), (zlen_app bs); lia).
    rewrite Hp1, <- Hls. rewrite (proj2 (Z.ltb_ge _ _)) by lia.
    apply Forall_app in Hb as [Hb1 Hb2]. apply Forall_app in Hb2 as [Hb2 Hb3].
    rewrite snappy_le_at by (done || lia). rewrite bind_Ok. replace (le_uint ls) with (zlen bs - 1) by (symmetry; apply le_uint_le_bytes_id; lia).
    assert (Hcap : 2 ^ (8 * Z.of_nat (S nb)) <= 2 ^ 32) by (apply Z.pow_le_mono_r; lia). unfold MaxAllocSize in *. pose proof (zlen_nonneg out).
    replace (zlen bs - 1 + 1) with (zlen bs) by lia. rewrite u32_small, bind_Ok by lia.
    rewrite (proj2 (Z.ltb_ge _ _)) by lia.
    replace ((pre ++ [tag]) ++ ls ++ bs ++ post) with (((pre ++ [tag]) ++ ls) ++ bs ++ post) by (by rewrite <- !app_assoc).
    rewrite rd_at by (try done; by rewrite (zlen_app (pre ++ [tag]))). rewrite bind_Ok, append_Ok by (unfold MaxAllocSize; done). rewrite bind_Ok.
    rewrite (zlen_app ls). do 3 f_equal. lia.
Qed.

(** Length and offset of a copy. *)
Definition sn_copy (e : sn_elem) : option (Z * Z) :=
  match e with
  | SLit _ _ => None
  | SCopy1 offset len | SCopy2 offset len | SCopy4 offset len => Some (len, offset)
  end.

Lemma sn_bytes_ok out e : sn_ok out e -> bytes_ok (sn_bytes e).
Proof.
  destruct e as [nb bs|offset len|offset len|offset len]; cbn [sn_ok sn_bytes]; unfold byte_ok.
  - intros (Hb & H1 & Hnb & Hsz). destruct nb.
    + rewrite decide_True in Hsz by done. constructor; [unfold byte_ok; lia|done].
    + constructor; [unfold byte_ok; lia|]. apply Forall_app_2; [apply le_bytes_ok|done].
  - intros (? & ? & ?). div_bounds offset 256. repeat constructor; unfold byte_ok; lia.
  - intros (? & ? & ?). constructor; [unfold byte_ok; lia|]. apply le_bytes_ok.
  - intros (? & ? & ?). constructor; [unfold byte_ok; lia|]. apply le_bytes_ok.
Qed.

Lemma copy_le_spec pre tag (ls : list Z) post len offset : bytes_ok (pre ++ (tag :: ls) ++ post) -> (Z.land tag 3 = 2 /\ zlen ls = 2) \/ (Z.land tag 3 = 3 /\ zlen ls = 4) ->
  Z.shiftr tag 2 = len - 1 -> le_uint ls = offset ->
  snappy_copy_args (pre ++ (tag :: ls) ++ post) (zlen pre + 1) tag = Ok (Some (len, offset, zlen pre + 1 + zlen ls)).
Proof.
  intros Hb Ht Hs <-. unfold snappy_copy_args. assert (Hp1 : zlen pre + 1 = zlen (pre ++ [tag])) by (by rewrite zlen_app).
  replace (pre ++ (tag :: ls) ++ post) with ((pre ++ [tag]) ++ ls ++ post) in * by (by rewrite <- app_assoc).
  apply Forall_app in Hb as [Hb1 Hb2]. apply Forall_app in Hb2 as [Hb2 Hb3]. pose proof (zlen_nonneg post).
  rewrite Hp1, Hs. replace (if Z.land tag 3 =? 2 then 2 else 4) with (zlen ls) by (destruct Ht as [[-> ->]|[-> ->]]; done).
  rewrite (proj2 (Z.eqb_neq _ 1)) by lia. rewrite (proj2 (Z.ltb_ge _ _)) by (rewrite (zlen_app (pre ++ [tag]) (ls ++ post)), (zlen_app ls); lia).
  rewrite snappy_le_at by (done || lia). rewrite bind_Ok. do 4 f_equal. lia.
Qed.

Lemma copy_args_spec pre e post out len offset : bytes_ok (pre ++ sn_bytes e ++ post) -> sn_ok out e -> sn_copy e = Some (len, offset) ->
  exists tag rest, sn_bytes e = tag :: rest /\ Z.land tag 3 <> 0 /\
    snappy_copy_args (pre ++ (tag :: rest) ++ post) (zlen pre + 1) tag = Ok (Some (len, offset, zlen pre + 1 + zlen rest)).
Proof.
  intros Hb Hok Hc. destruct e as [nb bs|o l|o l|o l]; cbn [sn_copy sn_ok sn_bytes] in *; [done|..]; injection Hc as -> ->; destruct Hok as (Ho & Hlen & Hl).
  - eexists _, _. split; [done|]. div_bounds offset 256.
    replace (32 * (offset / 256) + 4 * (len - 4) + 1) with (4 * (8 * (offset / 256) + (len - 4)) + 1) in * by lia.
    destruct (tag_fields (8 * (offset / 256) + (len - 4)) 1 ltac:(lia)) as [T1 T2]. split; [lia|]. unfold snappy_copy_args. rewrite T1, T2. cbn [Z.eqb].
    pose proof (zlen_nonneg post). rewrite (proj2 (Z.leb_gt _ _)) by zlens.
    assert (E5 : Z.shiftr (4 * (8 * (offset / 256) + (len - 4)) + 1) 5 = offset / 256).
    { rewrite Z.shiftr_div_pow2 by lia. change (2 ^ 5) with 32. symmetry. apply Z.div_unique with (4 * (len - 4) + 1); lia. }
    assert (E7 : Z.land (8 * (offset / 256) + (len - 4)) 7 = len - 4).
    { change 7 with (2 ^ 3 - 1). rewrite land_ones_mod by lia. change (2 ^ 3) with 8. symmetry. apply Z.mod_unique with (offset / 256); lia. }
    rewrite E5, E7. set (tag := 4 * _ + 1). replace (pre ++ [tag; offset mod 256] ++ post) with ((pre ++ [tag]) ++ (offset mod 256) :: post) by (by rewrite <- app_assoc).
    replace (zlen pre + 1) with (zlen (pre ++ [tag])) by (by rewrite zlen_app). rewrite rd1_middle, bind_Ok.
    rewrite Z.shiftl_mul_pow2, Z.lor_comm, lor_add by lia. change (2 ^ 8) with 256. do 3 f_equal. f_equal; lia.
  - eexists _, _. split; [done|]. destruct (tag_fields (len - 1) 2 ltac:(lia)) as [T1 T2]. split; [lia|].
    apply copy_le_spec; [done|left; by rewrite zlen_le_bytes|done|apply le_uint_le_bytes_id; cbn; lia].
  - eexists _, _. split; [done|]. destruct (tag_fields (len - 1) 3 ltac:(lia)) as [T1 T2]. split; [lia|].
    apply copy_le_spec; [done|right; by rewrite zlen_le_bytes|done|apply le_uint_le_bytes_id; cbn; lia].
Qed.

Lemma sn_apply_len out e : zlen out <= zlen (sn_apply out e).
Proof. destruct e; cbn [sn_apply]; rewrite zlen_app; match goal with |- _ <= _ + zlen ?l => pose proof (zlen_nonneg l) end; lia. Qed.

Lemma foldl_apply_len es : forall out, sn_all_ok out es -> zlen out <= zlen (foldl sn_apply out es).
Proof.
  induction es as [|e es IH]; intros out Hok; cbn [foldl]; [lia|]. destruct Hok as [H1 H2]. pose proof (sn_apply_len out e). pose proof (IH _ H2). lia.
Qed.

Lemma sn_bytes_cons e : exists tag rest, sn_bytes e = tag :: rest.
Proof. destruct e as [[|nb] bs|o l|o l|o l]; by eexists _, _. Qed.

(** An element read at its place. *)
Lemma element_spec fuel pre e post out : bytes_ok (pre ++ sn_bytes e ++ post) -> sn_ok out e -> zlen (sn_apply out e) < MaxAllocSize ->
  snappy_elements (S fuel) (pre ++ sn_bytes e ++ post) (zlen pre) out =
  snappy_elements fuel (pre ++ sn_bytes e ++ post) (zlen pre + zlen (sn_bytes e)) (sn_apply out e).
Proof.
  intros Hb Hok Hm. cbn [snappy_elements]. destruct (sn_bytes_cons e) as (tag0 & rest0 & E0).
  rewrite (proj2 (Z.ltb_lt _ _)) by (rewrite E0, !zlen_app, zlen_cons; pose proof (zlen_nonneg rest0); pose proof (zlen_nonneg post); lia).
  replace (rd1 (pre ++ sn_bytes e ++ post) (zlen pre)) with (Ok tag0) by (rewrite E0; cbn [app]; by rewrite rd1_middle). rewrite bind_Ok. cbv zeta.
  destruct (sn_copy e) as [[len offset]|] eqn:Ec.
  - destruct (copy_args_spec pre e post out len offset Hb Hok Ec) as (tag & rest & E & Ht & Ha). rewrite E in E0. injection E0 as <- <-.
    rewrite (proj2 (Z.eqb_neq _ _)) by done. rewrite E, Ha, bind_Ok.
    assert (Hoff : 0 < offset <= zlen out /\ 0 <= len /\ sn_apply out e = out ++ copied out offset len) 
      by (destruct e; cbn [sn_copy] in Ec; [done|..]; injection Ec as -> ->; cbn [sn_ok] in Hok; repeat split; lia || done).
    destruct Hoff as (Ho & Hl & Hap). rewrite Hap, zlen_app, zlen_copied in Hm by lia. unfold MaxAllocSize in Hm.
    rewrite u32_small by lia. rewrite (proj2 (Z.eqb_neq _ _)), (proj2 (Z.ltb_ge _ _)) by lia. cbn [orb].
    rewrite snappy_copy_all by (unfold MaxAllocSize; lia). rewrite bind_Ok, Hap, zlen_cons. f_equal. lia.
  - destruct e as [nb bs| | |]; try done. cbn [sn_apply] in Hm. rewrite zlen_app in Hm.
    destruct (literal_spec pre nb bs post out Hb Hok Hm) as (tag & rest & E & Ht & Ha). rewrite E in E0. injection E0 as <- <-.
    rewrite Ht. cbn [Z.eqb]. rewrite E, Ha, bind_Ok, zlen_cons. f_equal. lia.
Qed.

Lemma elements_spec es : forall fuel pre out, bytes_ok pre -> sn_all_ok out es -> zlen (foldl sn_apply out es) < MaxAllocSize -> (length es <= fuel)%nat ->
  snappy_elements fuel (pre ++ concat (map sn_bytes es)) (zlen pre) out = Ok (Some (foldl sn_apply out es)).
Proof.
  induction es as [|e es IH]; intros fuel pre out Hb Hok Hm Hf; cbn [map concat foldl].
  - rewrite app_nil_r. destruct fuel; cbn [snappy_elements]; by rewrite Z.ltb_irrefl.
  - destruct Hok as [H1 H2]. cbn [foldl] in Hm. destruct fuel as [|fuel]; [cbn in Hf; lia|].
    assert (Hall : forall out es, sn_all_ok out es -> bytes_ok (concat (map sn_bytes es))).
    { intros out0 es0. revert out0. induction es0 as [|e0 es0 IH0]; intros out0; [constructor|]. intros [? ?]. cbn.
      apply Forall_app_2; [by eapply sn_bytes_ok|by eapply IH0]. }
    pose proof (foldl_apply_len es _ H2). pose proof (sn_bytes_ok out e H1).
    rewrite element_spec; [|apply Forall_app_2; [done|apply Forall_app_2; [done|by eapply Hall]]|done|lia].
    rewrite app_assoc, <- zlen_app. apply IH; [by apply Forall_app_2|done|done|cbn in Hf; lia].
Qed.

(** *** The preamble *)

Lemma put_varint_small n : forall m w, 0 <= w < 2 ^ (7 * Z.of_nat n + 7) -> put_varint_loop (n + m) w = put_varint_loop n w.
Proof.
  induction n as [|n IH]; intros m w Hw.
  - destruct m as [|m]; [done|]. cbn [Nat.add put_varint_loop]. change (7 * Z.of_nat 0 + 7) with 7 in Hw. by rewrite (proj2 (Z.leb_gt _ _)) by lia.
  - cbn [Nat.add put_varint_loop]. destruct (128 <=? w); [|done]. f_equal. apply IH. rewrite Z.shiftr_div_pow2 by lia.
    replace (7 * Z.of_nat (S n) + 7) with (7 * Z.of_nat n + 7 + 7) in Hw by lia. rewrite Z.pow_add_r in Hw by lia. div_bounds w (2 ^ 7). lia.
Qed.

Lemma preamble_step v w shift x : 0 <= shift <= 32 -> 0 <= v < 2 ^ shift -> 0 <= w -> w * 2 ^ shift < 2 ^ 32 -> Z.land x 127 = w mod 2 ^ 7 ->
  Z.lor v (u32 (Z.shiftl (Z.land x 127) shift)) = v + (w mod 2 ^ 7) * 2 ^ shift.
Proof.
  intros Hs Hv Hw Hb ->. pose proof (mod_pow2_bound w 7 ltac:(lia)). pose proof (pow2_pos shift ltac:(lia)). pose proof (Z.mod_le w (2 ^ 7) ltac:(lia) ltac:(lia)).
  rewrite Z.shiftl_mul_pow2 by lia. rewrite u32_small by nia. by rewrite lor_add by lia.
Qed.

Lemma preamble_spec n : forall k v w shift pre s, (n < k)%nat -> 0 <= shift -> shift + 7 * Z.of_nat n <= 32 -> 0 <= v < 2 ^ shift ->
  0 <= w < 2 ^ (7 * Z.of_nat n + 7) -> w * 2 ^ shift < 2 ^ 32 ->
  snappy_preamble k (pre ++ put_varint_loop n w ++ s) (zlen pre) v shift = Ok (Some (v + w * 2 ^ shift, zlen pre + zlen (put_varint_loop n w))).
Proof.
  assert (Hlast : forall k v w shift pre s, 0 <= shift <= 32 -> 0 <= v < 2 ^ shift -> 0 <= w < 128 -> w * 2 ^ shift < 2 ^ 32 ->
    snappy_preamble (S k) (pre ++ [u8 w] ++ s) (zlen pre) v shift = Ok (Some (v + w * 2 ^ shift, zlen pre + 1))).
  { intros k v w shift pre s Hs Hv Hw Hb. cbn [snappy_preamble app]. pose proof (zlen_nonneg s). rewrite (proj2 (Z.ltb_lt _ _)) by zlens.
    rewrite rd1_middle, bind_Ok. cbv zeta. unfold u8. rewrite Z.mod_small by lia. change 128 with (Z.shiftl 1 7). rewrite land_bit, (testbit_small w 7) by lia. cbn [negb].
    rewrite (preamble_step v w shift w) by (try lia; change 127 with (Z.ones 7); by rewrite Z.land_ones by lia). by rewrite (Z.mod_small w (2 ^ 7)) by lia. }
  induction n as [|n IH]; intros k v w shift pre s Hk Hs0 Hs Hv Hw Hb; (destruct k as [|k]; [lia|]); cbn [put_varint_loop].
  - change (7 * Z.of_nat 0 + 7) with 7 in Hw. apply Hlast; lia.
  - destruct (Z.leb_spec 128 w) as [Hge|Hlt]; [|apply Hlast; lia].
    set (x := Z.lor (Z.land w 127) 128). set (tl := put_varint_loop n (Z.shiftr w 7)). cbn [snappy_preamble app]. pose proof (zlen_nonneg (tl ++ s)).
    rewrite (proj2 (Z.ltb_lt _ _)) by (rewrite zlen_app, zlen_cons; lia). rewrite rd1_middle, bind_Ok. cbv zeta.
    assert (Hx : Z.land x 127 = w mod 2 ^ 7 /\ Z.testbit x 7 = true).
    { unfold x. change 127 with (Z.ones 7). change 128 with (1 * 2 ^ 7). rewrite !Z.land_ones by lia. split.
      - rewrite lor_add by (try lia; apply mod_pow2_bound; lia). rewrite Z.mod_add, Z.mod_mod by lia. done.
      - rewrite Z.lor_spec. by rewrite (Z.mul_pow2_bits 1 7 7), orb_true_r by lia. }
    destruct Hx as [Hx1 Hx2]. change 128 with (Z.shiftl 1 7). rewrite land_bit, Hx2 by lia. cbn [negb].
    rewrite (proj2 (Z.ltb_ge _ _)) by lia. rewrite (preamble_step v w shift x) by (done || lia).
    replace (pre ++ x :: tl ++ s) with ((pre ++ [x]) ++ tl ++ s) by (by rewrite <- app_assoc).
    replace (zlen pre + 1) with (zlen (pre ++ [x])) by (by rewrite zlen_app). unfold tl. rewrite Z.shiftr_div_pow2 by lia. pose proof (mod_pow2_bound w 7 ltac:(lia)).
    pose proof (pow2_pos shift ltac:(lia)). div_bounds w (2 ^ 7). assert (Ep : 2 ^ (shift + 7) = 2 ^ shift * 2 ^ 7) by (by rewrite Z.pow_add_r by lia).
    replace (7 * Z.of_nat (S n) + 7) with (7 * Z.of_nat n + 7 + 7) in Hw by lia. rewrite Z.pow_add_r in Hw by lia.
    rewrite IH by (try nia; lia). do 3 f_equal; [rewrite Ep; nia|clear H; zlens].
Qed.

Lemma length_stream es : (length es <= length (concat (map sn_bytes es)))%nat.
Proof.
  induction es as [|e es IH]; cbn [map concat]; [done|]. rewrite length_app. destruct (sn_bytes_cons e) as (t & r & ->). cbn [length]. lia.
Qed.

Lemma snappy_decodes es : sn_all_ok [] es -> zlen (sn_value es) < MaxAllocSize -> snappy_raw_uncompress (sn_stream es) = Ok (Some (sn_value es)).
Proof.
  intros Hok Hm. unfold MaxAllocSize in Hm. unfold snappy_raw_uncompress, sn_stream. pose proof (zlen_nonneg (sn_value es)). set (v := zlen (sn_value es)) in *.
  set (hd := PgColumnarThriftPutVarint v). assert (Ehd : hd = put_varint_loop 4 v) by (apply (put_varint_small 4 5); cbn; lia).
  pose proof (preamble_spec 4 5 0 v 0 [] (concat (map sn_bytes es)) ltac:(lia) ltac:(lia) ltac:(lia) ltac:(lia) ltac:(cbn; lia) ltac:(lia)) as Hpre.
  rewrite <- Ehd in Hpre. cbn [app] in Hpre. change (zlen (@nil Z)) with 0 in Hpre. rewrite Hpre, bind_Ok. rewrite Z.add_0_l, Z.mul_1_r. rewrite s32_small by lia.
  unfold enlargeStringInfo, MaxAllocSize. rewrite (proj2 (Z.ltb_ge _ _)), (proj2 (Z.leb_gt _ _)) by lia. rewrite bind_Ok.
  assert (Hhd : bytes_ok hd) by (apply (put_varint_bytes 9); lia). assert (Hlen : (length es <= length (hd ++ concat (map sn_bytes es)))%nat).
  { rewrite length_app. pose proof (length_stream es). lia. }
  rewrite Z.add_0_l. rewrite elements_spec; [|done|done|done|done]. rewrite bind_Ok. fold (sn_value es). fold v. by rewrite u32_small, Z.eqb_refl by lia.
Qed.

(** ** Claims *)

(** C21.  A Snappy stream of any literal and copy elements (each length form, any
    overlap of a copy with its own output) decodes to what the format says it
    stands for: every copy repeats the last bytes of the output. *)
Theorem snappy_decodes_format es : sn_all_ok [] es -> zlen (sn_value es) < MaxAllocSize ->
  snappy_raw_uncompress (sn_stream es) = Ok (Some (sn_value es)).
Proof. apply snappy_decodes. Qed.

Lemma snappy_decodes_format_witness :
  snappy_raw_uncompress (sn_stream [SLit 0 [97; 98; 99]; SCopy1 2 7; SCopy2 3 5; SLit 1 [1; 2]; SCopy4 4 6]) =
  Ok (Some [97; 98; 99; 98; 99; 98; 99; 98; 99; 98; 98; 99; 98; 98; 99; 1; 2; 98; 99; 1; 2; 98; 99]).
Proof.
  apply (snappy_decodes_format [SLit 0 [97; 98; 99]; SCopy1 2 7; SCopy2 3 5; SLit 1 [1; 2]; SCopy4 4 6]); [|done].
  repeat split; try (vm_compute; (discriminate || reflexivity)); try lia; repeat constructor; lia.
Defined.

(** C22.  Whatever bytes a page holds, decompressing it ends, reads and writes only
    its own buffers, and an accepted output is the page itself when the chunk is
    uncompressed and has exactly the declared size otherwise. *)
Theorem parquet_decompress_exact `{BlockCodecs} `{Zlib} codec src usize : bytes_ok src ->
  safe (fun o => match o with
                 | None => True
                 | Some out => if codec =? PQC_UNCOMPRESSED then out = src else zlen out = usize
                 end) (PgColumnarParquetDecompress codec src usize).
Proof.
  intros Hb. unfold PgColumnarParquetDecompress. destruct (_ || _); [done|]. destruct (Z.eqb_spec codec PQC_UNCOMPRESSED); [done|].
  assert (Hs : forall o, match sized_output usize o with None => True | Some out => zlen out = usize end).
  { intros [out|]; [|done]. cbn. by destruct (Z.eqb_spec (zlen out) usize). }
  assert (Hl : forall o, safe (fun o => match o with None => True | Some out => zlen out = usize end) (library_output usize o)).
  { intros o. unfold library_output. destruct (Z.eqb_spec usize 0) as [->|]; [done|]. unfold enlargeStringInfo. destruct (_ <? 0); [done|].
    destruct (_ <=? _); [done|]. apply Hs. }
  destruct (_ =? PQC_SNAPPY); [eapply safe_bind; [by apply snappy_safe|]; intros o _; apply Hs|].
  repeat (destruct (_ && _); [apply Hl|]). done.
Qed.

Definition no_codecs : BlockCodecs :=
  {| HAVE_LIBLZ4 := false; HAVE_LIBZSTD := false; LZ4_MAX_INPUT_SIZE := 2113929216; PGLZ_MAX_OUTPUT n := n + 4;
     pglz_compress _ := None; pglz_decompress _ _ _ := None; LZ4_compressBound n := n; LZ4_compress_default _ _ := None;
     LZ4_decompress_safe _ _ _ := None; ZSTD_compressBound _ := None; ZSTD_compress _ _ _ := None; ZSTD_decompress _ _ _ := None |}.
Definition no_zlib : Zlib := {| HAVE_LIBZ := false; inflate_finish _ _ := None |}.

Lemma parquet_decompress_exact_witness :
  safe (fun o => match o with None => True | Some out => if PQC_SNAPPY =? PQC_UNCOMPRESSED then out = [3; 8; 1; 2; 3] else zlen out = 3 end)
    (@PgColumnarParquetDecompress no_codecs no_zlib PQC_SNAPPY [3; 8; 1; 2; 3] 3).
Proof. apply (@parquet_decompress_exact no_codecs no_zlib PQC_SNAPPY [3; 8; 1; 2; 3] 3). repeat constructor; lia. Defined.
