(* ===== verification/ParquetLevels.v ===== *)
(** * Parquet levels and indices

    The RLE / bit-packed hybrid of Parquet: [build_rle_levels] of
    [columnar_parquet.c], which writes one bit-packed run, and
    [rle_bitpack_decode] of [columnar_parquet_reader.c], which reads any mix of
    runs; [pq_bits_for] of [columnar_parquet_format.h]. *)

From S2P Require Import Prelude BitSet Thrift.

(** [while (b < 31 && (1u << b) <= maxval) b++] *)
Fixpoint bits_for_loop (fuel : nat) (b maxval : Z) : Z :=
  match fuel with
  | O => b
  | S fuel => if (b <? 31) && (Z.shiftl 1 b <=? maxval) then bits_for_loop fuel (b + 1) maxval else b
  end.

Definition pq_bits_for (maxval : Z) : Z := if maxval <=? 0 then 0 else bits_for_loop 31 0 maxval.

(** [if (v & (1u << b)) packed[abs >> 3] |= 1 << (abs & 7)] *)
Definition put_level_bit (bit_width i v b : Z) (packed : list Z) : res (list Z) :=
  if Z.land v (Z.shiftl 1 b) =? 0 then Ok packed else set_bit packed (i * bit_width + b).

Definition build_rle_levels (levels : list Z) (bit_width : Z) : res (list Z) :=
  let n := zlen levels in
  let ngroups := (n + 7) / 8 in
  let nbytes := ngroups * bit_width in
  if MaxAllocSize <? Z.max nbytes 1 then Err "invalid memory alloc request size"
  else
    packed ← forZ 0 n (fun i packed =>
      v ← rd1 levels i;
      forZ 0 bit_width (put_level_bit bit_width i v) packed) (replicate (Z.to_nat (Z.max nbytes 1)) 0);
    bytes ← rd packed 0 nbytes;
    let h := PgColumnarThriftPutVarint (u64 (Z.lor (Z.shiftl ngroups 1) 1)) ++ bytes in
    Ok (le_bytes 4 (zlen h) ++ h).

(** ** Decoding *)

(** The run header; [None] for a varint that is too long.  A header cut off by
    the end of the buffer is taken as it is. *)
Fixpoint run_header (fuel : nat) (buf : list Z) (pos header shift : Z) : res (option (Z * Z)) :=
  match fuel with
  | O => Fuel
  | S fuel =>
      if pos <? zlen buf then
        b ← rd1 buf pos;
        let pos := pos + 1 in
        let header := Z.lor header (u64 (Z.shiftl (Z.land b 127) shift)) in
        if Z.land b 128 =? 0 then Ok (Some (header, pos))
        else
          let shift := shift + 7 in
          if 63 <? shift then Ok None else run_header fuel buf pos header shift
      else Ok (Some (header, pos))
  end.

(** One value of a bit-packed run that starts at [pos]. *)
Definition packed_value (buf : list Z) (pos bit_width v : Z) : res Z :=
  forZ 0 bit_width (fun bit val =>
    let abs := v * bit_width + bit in
    b ← rd1 buf (pos + Z.shiftr abs 3);
    Ok (if Z.land b (Z.shiftl 1 (Z.land abs 7)) =? 0 then val else Z.lor val (Z.shiftl 1 bit))) 0.

(** [for (v = 0; v < nvals && produced < count; v++)]; [want] is what is left of
    the count. *)
Definition packed_run (buf : list Z) (pos bit_width nvals want : Z) : res (list Z) :=
  forZ 0 (Z.min nvals want) (fun v out => val ← packed_value buf pos bit_width v; Ok (out ++ [val])) [].

(** [val |= buf[pos + i] << (8 * i)] *)
Definition rle_value (buf : list Z) (pos nbytes : Z) : res Z :=
  forZ 0 nbytes (fun i val => b ← rd1 buf (pos + i); Ok (Z.lor val (u32 (Z.shiftl b (8 * i))))) 0.

(** [arr[n++] = x] for the [xs] in turn, in an array of [cap] slots whose first
    [n] hold [arr]: a store behind the last slot is an access outside it. *)
Fixpoint store_all {A} (cap : Z) (arr xs : list A) : res (list A) :=
  match xs with
  | [] => Ok arr
  | x :: xs => if zlen arr <? cap then store_all cap (arr ++ [x]) xs else Oob
  end.

(** The values produced so far are [out], an array of [count] slots; [None] is
    the decoder's [false].  Every turn takes a byte or fails. *)
Fixpoint decode_runs (fuel : nat) (buf : list Z) (bit_width count pos : Z) (out : list Z) : res (option (list Z)) :=
  if zlen out <? count then
    match fuel with
    | O => Fuel
    | S fuel =>
        hp ← run_header 10 buf pos 0 0;
        match hp with
        | None => Ok None
        | Some (header, pos) =>
            if negb (Z.land header 1 =? 0) then
              let ngroups := Z.shiftr header 1 in
              if u64 (zlen buf - pos) / bit_width <? ngroups then Ok None
              else
                vs ← packed_run buf pos bit_width (u64 (ngroups * 8)) (count - zlen out);
                out ← store_all count out vs;
                decode_runs fuel buf bit_width count (pos + ngroups * bit_width) out
            else
              let runlen := Z.shiftr header 1 in
              let nbytes := (bit_width + 7) / 8 in
              if u64 (zlen buf - pos) <? nbytes then Ok None
              else
                val ← rle_value buf pos nbytes;
                out ← store_all count out (replicate (Z.to_nat (Z.min runlen (count - zlen out))) val);
                decode_runs fuel buf bit_width count (pos + nbytes) out
        end
    end
  else Ok (Some out).

Definition rle_bitpack_decode (buf : list Z) (bit_width count : Z) : res (option (list Z)) :=
  if bit_width =? 0 then Ok (Some (replicate (Z.to_nat count) 0))
  else if (bit_width <? 0) || (32 <? bit_width) then Ok None
  else decode_runs (S (length buf)) buf bit_width count 0 [].

Lemma store_all_Ok {A} cap (xs : list A) : forall arr, zlen arr + zlen xs <= cap -> store_all cap arr xs = Ok (arr ++ xs).
Proof.
  induction xs as [|x xs IH]; intros arr Hc; cbn [store_all]; [by rewrite app_nil_r|]. rewrite zlen_cons in Hc. pose proof (zlen_nonneg xs).
  rewrite (proj2 (Z.ltb_lt _ _)) by lia. rewrite IH, <- app_assoc; [done|]. rewrite zlen_app. change (zlen [x]) with 1. lia.
Qed.

(** ** Bit widths *)

Lemma bits_for_spec maxval : 0 < maxval < 2 ^ 31 -> 1 <= pq_bits_for maxval <= 31 /\ maxval < 2 ^ pq_bits_for maxval.
Proof.
  intros Hm. unfold pq_bits_for. rewrite (proj2 (Z.leb_gt _ _)) by lia.
  assert (H : forall fuel b, 0 <= b -> b + Z.of_nat fuel = 31 -> 2 ^ (b - 1) <= maxval \/ b = 0 ->
    1 <= bits_for_loop fuel b maxval <= 31 /\ maxval < 2 ^ bits_for_loop fuel b maxval).
  { induction fuel as [|fuel IH]; intros b Hb Hf Hle; cbn [bits_for_loop].
    - assert (b = 31) as -> by lia. split; [lia|]. lia.
    - rewrite (proj2 (Z.ltb_lt b 31)) by lia. rewrite Z.shiftl_1_l. cbn [andb]. destruct (Z.leb_spec (2 ^ b) maxval).
      + apply IH; [lia|lia|left; by rewrite Z.add_simpl_r].
      + split; [|done]. split; [|lia]. destruct (Z.eq_dec b 0) as [->|]; [cbn in *; lia|lia]. }
  apply (H 31%nat 0); [lia|done|by right].
Qed.

(** ** The packed bits *)

Definition level_bit (levels : list Z) (w p : Z) : bool := Z.testbit (nthZ levels (p / w)) (p mod w).

(** The first [k] bits are the levels' bits, the rest zero. *)
Record packed_to (levels : list Z) (w size k : Z) (packed : list Z) : Prop := {
  pk_bytes : bytes_ok packed;
  pk_length : zlen packed = size;
  pk_bits : forall p, 0 <= p -> bit_set packed p = (p <? k) && level_bit levels w p
}.

Lemma divmod_at i w b : 0 <= b < w -> (i * w + b) / w = i /\ (i * w + b) mod w = b.
Proof. intros Hb. rewrite Z.add_comm, Z.div_add, Z.mod_add by lia. rewrite Z.div_small, Z.mod_small by lia. lia. Qed.

Lemma put_level_bit_spec levels w size i v b packed : 0 <= b < w -> 0 <= i -> v = nthZ levels i -> (i + 1) * w <= 8 * size ->
  packed_to levels w size (i * w + b) packed ->
  exists packed', put_level_bit w i v b packed = Ok packed' /\ packed_to levels w size (i * w + (b + 1)) packed'.
Proof.
  intros Hb Hi -> Hsz [P1 P2 P3]. destruct (divmod_at i w b Hb) as [Ed Em]. unfold put_level_bit. rewrite land_bit by lia.
  assert (Hlb : level_bit levels w (i * w + b) = Z.testbit (nthZ levels i) b) by (unfold level_bit; by rewrite Ed, Em).
  assert (Hnext : forall p, (p <? i * w + (b + 1)) = (p <? i * w + b) || (p =? i * w + b)).
  { intros p. destruct (Z.ltb_spec p (i * w + (b + 1))), (Z.ltb_spec p (i * w + b)), (Z.eqb_spec p (i * w + b)); lia || done. }
  destruct (Z.testbit (nthZ levels i) b) eqn:Eb; cbn [negb].
  - destruct (set_bit_spec packed (i * w + b) P1) as (packed' & -> & Q1 & Q2 & Q3); [nia|]. exists packed'. split; [done|].
    split; [done|unfold zlen in *; congruence|]. intros p Hp. rewrite Q3, P3, Hnext by done.
    destruct (Z.eqb_spec p (i * w + b)) as [->|]; [rewrite Hlb; by rewrite !orb_true_r|by rewrite !orb_false_r].
  - exists packed. split; [done|]. split; [done|done|]. intros p Hp. rewrite P3, Hnext by done.
    destruct (Z.eqb_spec p (i * w + b)) as [->|]; [rewrite Hlb; by rewrite !andb_false_r|by rewrite orb_false_r].
Qed.

Lemma build_packed levels w size : 0 < w -> zlen levels * w <= 8 * size -> 0 <= size ->
  exists packed, forZ 0 (zlen levels) (fun i packed => v ← rd1 levels i; forZ 0 w (put_level_bit w i v) packed) (replicate (Z.to_nat size) 0) = Ok packed /\
    packed_to levels w size (zlen levels * w) packed.
Proof.
  intros Hw Hsz Hs0. apply (forZ_Ok (fun i => packed_to levels w size (i * w))); [apply zlen_nonneg|..].
  - intros i packed Hi Hp. rewrite rd1_Ok by done. rewrite bind_Ok. replace ((i + 1) * w) with (i * w + w) by lia.
    destruct (forZ_Ok (fun b => packed_to levels w size (i * w + b)) (put_level_bit w i (nthZ levels i)) 0 w packed) as (packed' & E & Hp').
    + lia.
    + intros b pk Hb Hpk. apply (put_level_bit_spec levels w size i); [done|lia|done|nia|done].
    + by rewrite Z.add_0_r.
    + by exists packed'.
  - split.
    + apply Forall_replicate. done.
    + unfold zlen. rewrite length_replicate. lia.
    + intros p Hp. rewrite bit_set_zeros, (proj2 (Z.ltb_ge _ _)) by lia. done.
Qed.

(** ** The header of a run *)

(** On a varint that ends, the loop over the header reads as the Thrift reader does. *)
Lemma run_header_varint k : forall buf pos v shift w r,
  varint_loop k (mkReader buf pos false) v shift = Ok (w, r) -> tc_error r = false ->
  run_header k buf pos v shift = Ok (Some (w, tc_pos r)).
Proof.
  induction k as [|k IH]; intros buf pos v shift w r; cbn [varint_loop run_header]; [done|].
  unfold tc_len. cbn [tc_pos tc_buf]. destruct (pos <? zlen buf); [|intros [= <- <-]; done].
  destruct (rd1 buf pos) as [b| | |]; cbn [mbind res_bind]; try done.
  destruct (Z.land b 128 =? 0); [intros [= <- <-]; done|].
  destruct (63 <? shift + 7); [intros [= <- <-]; done|]. apply IH.
Qed.

Lemma run_header_safe buf : bytes_ok buf -> forall k pos header shift,
  0 <= pos <= zlen buf -> 0 <= shift <= 63 -> 63 < shift + 7 * Z.of_nat k -> 0 <= header < 2 ^ 64 ->
  safe (fun o => match o with
                 | None => True
                 | Some (h, pos') => 0 <= h < 2 ^ 64 /\ pos' <= zlen buf /\ (pos < pos' \/ pos' = pos /\ zlen buf <= pos /\ h = header)
                 end) (run_header k buf pos header shift).
Proof.
  intros Hb. induction k as [|k IH]; intros pos header shift Hp Hs Hk Hh; cbn [run_header]; [exfalso; lia|].
  destruct (Z.ltb_spec pos (zlen buf)) as [Hlt|Hge]; [|cbn; lia]. rewrite rd1_Ok, bind_Ok by lia. cbv zeta.
  assert (Hh' : 0 <= Z.lor header (u64 (Z.shiftl (Z.land (nthZ buf pos) 127) shift)) < 2 ^ 64)
    by (apply lor_bound; [lia|done|apply mod_pow2_bound; lia]).
  destruct (Z.land (nthZ buf pos) 128 =? 0); [cbn [safe]; split; [exact Hh'|lia]|].
  destruct (Z.ltb_spec 63 (shift + 7)); [done|]. eapply safe_mono; [apply IH; [lia|lia|lia|done]|].
  intros [[h pos']|]; [|done]. intros (? & ? & [?|(? & ? & ?)]); lia.
Qed.

(** ** The values of a run *)

Definition run_bit (buf : list Z) (pos abs : Z) : bool := Z.testbit (nthZ buf (pos + Z.shiftr abs 3)) (Z.land abs 7).

Lemma packed_value_spec buf pos w m v : 0 <= pos -> pos + m <= zlen buf -> 0 <= w <= 32 -> 0 <= v -> (v + 1) * w <= 8 * m ->
  exists x, packed_value buf pos w v = Ok x /\ 0 <= x < 2 ^ 32 /\
    forall b, 0 <= b -> Z.testbit x b = (b <? w) && run_bit buf pos (v * w + b).
Proof.
  intros Hp Hm Hw Hv Hfit. unfold packed_value.
  destruct (forZ_Ok (fun k x => 0 <= x < 2 ^ 32 /\ forall b, 0 <= b -> Z.testbit x b = (b <? k) && run_bit buf pos (v * w + b))
    (fun bit val => b ← rd1 buf (pos + Z.shiftr (v * w + bit) 3);
       Ok (if Z.land b (Z.shiftl 1 (Z.land (v * w + bit) 7)) =? 0 then val else Z.lor val (Z.shiftl 1 bit))) 0 w 0) as (x & -> & Hx).
  - lia.
  - intros k x Hk [Hx1 Hx2]. pose proof (pos_byte (v * w + k) (8 * m) m ltac:(nia) ltac:(reflexivity)) as Hq. pose proof (pos_bit (v * w + k)) as Hbit.
    rewrite rd1_Ok, bind_Ok, land_bit by lia. eexists. split; [done|]. fold (run_bit buf pos (v * w + k)).
    assert (Hp2 : 0 <= 2 ^ k < 2 ^ 32) by (split; [apply Z.pow_nonneg; lia|apply Z.pow_lt_mono_r; lia]). split.
    { destruct (negb _); [done|]. rewrite Z.shiftl_1_l. by apply lor_bound. }
    intros b Hb. destruct (run_bit buf pos (v * w + k)) eqn:Er; cbn [negb].
    + rewrite Z.lor_spec, Hx2, Z.shiftl_1_l, Z.pow2_bits_eqb by lia.
      destruct (Z.eqb_spec k b) as [<-|]; [rewrite Er, orb_true_r; by rewrite (proj2 (Z.ltb_lt _ _)) by lia|]. rewrite orb_false_r. f_equal.
      destruct (Z.ltb_spec b k), (Z.ltb_spec b (k + 1)); lia || done.
    + rewrite Hx2 by done. destruct (Z.eqb_spec k b) as [<-|]; [by rewrite Er, !andb_false_r|]. f_equal.
      destruct (Z.ltb_spec b k), (Z.ltb_spec b (k + 1)); lia || done.
  - split; [done|]. intros b Hb. by rewrite Z.bits_0, (proj2 (Z.ltb_ge _ _)) by lia.
  - by exists x.
Qed.

(** [out] holds [k] values of the run at [pos]. *)
Definition run_holds (buf : list Z) (pos w k : Z) (out : list Z) : Prop :=
  zlen out = k /\ Forall (fun x => 0 <= x < 2 ^ 32) out /\
  forall i b, 0 <= i < k -> 0 <= b -> Z.testbit (nthZ out i) b = (b <? w) && run_bit buf pos (i * w + b).

Lemma packed_run_spec buf pos w m nvals want : 0 <= pos -> pos + m <= zlen buf -> 0 <= w <= 32 ->
  0 <= Z.min nvals want -> Z.min nvals want * w <= 8 * m ->
  exists out, packed_run buf pos w nvals want = Ok out /\ run_holds buf pos w (Z.min nvals want) out.
Proof.
  intros Hp Hm Hw Hn Hfit. unfold packed_run. apply (forZ_Ok (run_holds buf pos w)); [done|..].
  - intros v out Hv (H1 & H2 & H3). assert ((v + 1) * w <= Z.min nvals want * w) by (apply Z.mul_le_mono_nonneg_r; lia).
    destruct (packed_value_spec buf pos w m v) as (x & -> & Hx1 & Hx2); try lia.
    rewrite bind_Ok. eexists. split; [done|]. split; [by rewrite zlen_app, H1|]. split; [by apply Forall_app_2; [|constructor]|].
    intros i b Hi Hb. rewrite nthZ_app by lia. rewrite H1. destruct (Z.ltb_spec i v); [by apply H3; lia|].
    assert (i = v) as -> by lia. rewrite Z.sub_diag. by apply Hx2.
  - split; [done|]. split; [constructor|]. intros i b Hi. lia.
Qed.

Lemma rle_value_safe buf pos n : bytes_ok buf -> 0 <= pos -> 0 <= n -> pos + n <= zlen buf -> safe (fun x => 0 <= x < 2 ^ 32) (rle_value buf pos n).
Proof.
  intros Hb Hp Hn Hl. unfold rle_value. apply (forZ_safe (fun _ x => 0 <= x < 2 ^ 32)); [done| |done].
  intros i x Hi Hx. rewrite rd1_Ok, bind_Ok by lia. cbn [safe]. apply lor_bound; [lia|done|apply mod_pow2_bound; lia].
Qed.

(** ** Any bytes *)

Definition levels_ok (count : Z) (out : list Z) : Prop := zlen out <= Z.max count 0 /\ Forall (fun x => 0 <= x < 2 ^ 32) out.

Lemma decode_runs_safe buf w count : bytes_ok buf -> zlen buf < 2 ^ 60 -> 1 <= w <= 32 -> forall fuel pos out,
  0 <= pos <= zlen buf -> zlen buf - pos < Z.of_nat fuel -> levels_ok count out ->
  safe (fun o => match o with None => True | Some out => levels_ok count out /\ count <= zlen out end) (decode_runs fuel buf w count pos out).
Proof.
  intros Hb Hlen Hw. induction fuel as [|fuel IH]; intros pos out Hp Hf [Ho1 Ho2]; [exfalso; lia|]. cbn [decode_runs].
  destruct (Z.ltb_spec (zlen out) count) as [Hlt|]; [|by cbn].
  eapply safe_bind; [apply (run_header_safe buf Hb 10 pos 0 0); [done|lia|lia|done]|]. intros [[h pos']|]; [|done].
  intros (Hh & Hpos' & Hmove). rewrite u64_small by lia.
  destruct (Z.eqb_spec (Z.land h 1) 0) as [Ez|En]; cbn [negb].
  - cbv zeta. div_bounds (w + 7) 8. destruct (Z.ltb_spec (zlen buf - pos') ((w + 7) / 8)); [done|].
    assert (pos < pos') by lia. eapply safe_bind; [apply rle_value_safe; [done|lia|lia|lia]|]. intros x Hx.
    set (run := replicate _ x). assert (Hrun : zlen out + zlen run <= count) by (unfold run, zlen; rewrite length_replicate; unfold zlen in *; lia).
    rewrite store_all_Ok, bind_Ok by done. apply IH; [lia|lia|]. split.
    + rewrite zlen_app. lia.
    + apply Forall_app_2; [done|]. by apply Forall_replicate.
  - assert (pos < pos') by (destruct Hmove as [|(_ & _ & ->)]; [done|by destruct En]). cbv zeta.
    destruct (Z.ltb_spec ((zlen buf - pos') / w) (Z.shiftr h 1)) as [|Hng]; [done|].
    assert (Hs : 0 <= Z.shiftr h 1) by (apply Z.shiftr_nonneg; lia). div_bounds (zlen buf - pos') w.
    assert (Hfit : Z.shiftr h 1 * w <= zlen buf - pos') by nia. assert (Hs2 : Z.shiftr h 1 <= Z.shiftr h 1 * w) by nia.
    rewrite (u64_small (Z.shiftr h 1 * 8)) by lia.
    destruct (packed_run_spec buf pos' w (Z.shiftr h 1 * w) (Z.shiftr h 1 * 8) (count - zlen out)) as (vs & -> & V1 & V2 & _); [lia|lia|lia|lia|nia|].
    rewrite bind_Ok, store_all_Ok, bind_Ok by lia. apply IH; [nia|nia|]. split; [rewrite zlen_app; lia|by apply Forall_app_2].
Qed.

Lemma rle_decode_safe buf w count : bytes_ok buf -> zlen buf < 2 ^ 60 -> 0 <= count ->
  safe (fun o => match o with None => True | Some out => zlen out = count /\ Forall (fun x => 0 <= x < 2 ^ 32) out end)
    (rle_bitpack_decode buf w count).
Proof.
  intros Hb Hlen Hc. unfold rle_bitpack_decode. destruct (Z.eqb_spec w 0) as [->|Hw0].
  { cbn. split; [unfold zlen; rewrite length_replicate; lia|by apply Forall_replicate]. }
  destruct (Z.ltb_spec w 0), (Z.ltb_spec 32 w); try done. cbn [orb].
  eapply safe_mono; [apply decode_runs_safe; [done|done|lia|pose proof (zlen_nonneg buf); lia|unfold zlen; lia|split; [unfold zlen; cbn; lia|constructor]]|].
  intros [out|]; [|done]. intros [[H1 H2] H3]. split; [lia|done].
Qed.

(** ** What was written comes back *)

Lemma run_bit_tail hd packed p : 0 <= p -> run_bit (hd ++ packed) (zlen hd) p = bit_set packed p.
Proof.
  intros Hp. unfold run_bit, bit_set. pose proof (zlen_nonneg hd). assert (0 <= Z.shiftr p 3) by (by apply Z.shiftr_nonneg).
  rewrite nthZ_app by lia. rewrite (proj2 (Z.ltb_ge _ _)) by lia. do 2 f_equal. lia.
Qed.

Definition run_of (levels : list Z) : Z := 2 * ((zlen levels + 7) / 8) + 1.

Lemma build_rle_spec levels w : 1 <= w <= 32 -> (zlen levels + 7) / 8 * w <= MaxAllocSize ->
  exists packed, build_rle_levels levels w = Ok (let h := PgColumnarThriftPutVarint (run_of levels) ++ packed in le_bytes 4 (zlen h) ++ h) /\
    bytes_ok packed /\ zlen packed = (zlen levels + 7) / 8 * w /\
    forall p, 0 <= p < zlen levels * w -> bit_set packed p = level_bit levels w p.
Proof.
  intros Hw Hmax. unfold MaxAllocSize in Hmax. unfold build_rle_levels, run_of. pose proof (zlen_nonneg levels). div_bounds (zlen levels + 7) 8.
  set (g := (zlen levels + 7) / 8) in *. unfold MaxAllocSize. rewrite (proj2 (Z.ltb_ge _ _)) by lia.
  destruct (build_packed levels w (Z.max (g * w) 1)) as (packed & -> & [P1 P2 P3]); [lia|nia|lia|]. rewrite bind_Ok.
  assert (Hg : Z.lor (Z.shiftl g 1) 1 = 2 * g + 1).
  { rewrite Z.shiftl_mul_pow2 by lia. rewrite Z.lor_comm, lor_add by lia. lia. }
  rewrite Hg, u64_small, rd_Ok by nia. rewrite bind_Ok. change (Z.to_nat 0) with 0%nat. rewrite drop_0.
  exists (take (Z.to_nat (g * w)) packed). split; [done|]. split; [by apply Forall_take|].
  assert (Hz : zlen (take (Z.to_nat (g * w)) packed) = g * w).
  { assert (0 <= g * w) by nia. unfold zlen in *. rewrite length_take. lia. }
  split; [done|]. intros p Hp. transitivity (bit_set packed p).
  - unfold bit_set. pose proof (pos_byte p (8 * (g * w)) (g * w) ltac:(nia) ltac:(reflexivity)). f_equal. unfold nthZ.
    rewrite !nth_lookup, lookup_take_lt by lia. done.
  - rewrite P3 by lia. by rewrite (proj2 (Z.ltb_lt _ _)) by lia.
Qed.

Lemma decode_packed levels w packed : 1 <= w <= 32 -> Forall (fun x => 0 <= x < 2 ^ w) levels -> (zlen levels + 7) / 8 * w <= MaxAllocSize ->
  bytes_ok packed -> zlen packed = (zlen levels + 7) / 8 * w -> (forall p, 0 <= p < zlen levels * w -> bit_set packed p = level_bit levels w p) ->
  rle_bitpack_decode (PgColumnarThriftPutVarint (run_of levels) ++ packed) w (zlen levels) = Ok (Some levels).
Proof.
  intros Hw Hl Hmax Hb Hz Hbits. unfold MaxAllocSize, rle_bitpack_decode in *. pose proof (zlen_nonneg levels). div_bounds (zlen levels + 7) 8.
  rewrite (proj2 (Z.eqb_neq w 0)) by lia. destruct (Z.ltb_spec w 0), (Z.ltb_spec 32 w); try lia. cbn [orb]. unfold run_of.
  set (g := (zlen levels + 7) / 8) in *. set (hd := PgColumnarThriftPutVarint (2 * g + 1)).
  assert (Hhd : bytes_ok hd /\ 1 <= zlen hd <= 10) by (apply (put_varint_bytes 9); lia). destruct Hhd as [Hhd Hhl].
  assert (Hhere : here (mkReader (hd ++ packed) 0 false) (hd ++ packed)).
  { split; [done|]. split; [by apply Forall_app_2|]. split; [cbn [tc_buf]; rewrite zlen_app; lia|]. by exists []. }
  cbn [decode_runs]. destruct (Z.ltb_spec (zlen (@nil Z)) (zlen levels)) as [Hne|He].
  2:{ destruct levels; [done|]. cbn in He. unfold zlen in He. cbn in He. lia. }
  destruct (varint_read (2 * g + 1) _ packed ltac:(nia) Hhere) as [Hv _]. apply run_header_varint in Hv; [|done]. fold hd in Hv.
  rewrite Hv, bind_Ok. cbn [adv tc_pos]. change (0 + zlen hd) with (zlen hd).
  assert (Hodd : Z.land (2 * g + 1) 1 = 1) by (rewrite (land_ones_mod _ 1) by lia; rewrite Z.mul_comm, Z.add_comm, Z.mod_add by lia; done).
  assert (Hhalf : Z.shiftr (2 * g + 1) 1 = g) by (rewrite Z.shiftr_div_pow2 by lia; rewrite Z.mul_comm, Z.add_comm, Z.div_add by lia; done).
  rewrite Hodd, Hhalf. cbn [Z.eqb negb]. rewrite zlen_app, Hz. replace (zlen hd + g * w - zlen hd) with (g * w) by lia.
  rewrite u64_small, Z.div_mul by nia. rewrite Z.ltb_irrefl, u64_small by lia. change (zlen (@nil Z)) with 0. rewrite Z.sub_0_r.
  destruct (packed_run_spec (hd ++ packed) (zlen hd) w (g * w) (g * 8) (zlen levels)) as (vs & -> & V1 & V2 & V3);
    [lia|rewrite zlen_app; lia|lia|lia|nia|]. rewrite bind_Ok. rewrite Z.min_r in * by lia.
  assert (vs = levels) as ->.
  { apply nthZ_eq; [done|]. intros i Hi. assert (Hli : 0 <= nthZ levels i < 2 ^ w).
    { rewrite list.Forall_forall in Hl. apply Hl. unfold nthZ. apply list_elem_of_In, nth_In. unfold zlen in *. lia. }
    apply Z.bits_inj'. intros b Hb0. rewrite V3 by lia. destruct (Z.ltb_spec b w) as [Hbw|Hbw]; [|cbn; symmetry; by apply (testbit_small _ w)].
    cbn [andb]. rewrite run_bit_tail, Hbits by nia. unfold level_bit. destruct (divmod_at i w b ltac:(lia)) as [-> ->]. done. }
  rewrite store_all_Ok, bind_Ok by (change (zlen (@nil Z)) with 0; lia).
  cbn [app]. destruct (length (hd ++ packed)); cbn [decode_runs]; by rewrite Z.ltb_irrefl.
Qed.

Lemma levels_read_back levels w : 1 <= w <= 32 -> Forall (fun x => 0 <= x < 2 ^ w) levels -> (zlen levels + 7) / 8 * w <= MaxAllocSize ->
  exists h, build_rle_levels levels w = Ok (le_bytes 4 (zlen h) ++ h) /\ bytes_ok h /\ zlen h < 2 ^ 31 /\
    rle_bitpack_decode h w (zlen levels) = Ok (Some levels).
Proof.
  intros Hw Hl Hmax. destruct (build_rle_spec levels w Hw Hmax) as (packed & Hb & P1 & P2 & P3). eexists. split; [exact Hb|].
  pose proof (zlen_nonneg levels). div_bounds (zlen levels + 7) 8. destruct (put_varint_bytes 9 (run_of levels)) as [Q1 Q2]; [unfold run_of; lia|].
  split; [by apply Forall_app_2|]. split; [rewrite zlen_app; unfold PgColumnarThriftPutVarint, MaxAllocSize in *; lia|].
  by apply decode_packed.
Qed.

(** ** Claims *)

(** C20.  Writing levels or indices of up to 32 bits with [build_rle_levels]
    yields a length prefix and a run that [rle_bitpack_decode] turns back into
    exactly those values, for every number of values (the packed run stays below
    the allocation limit). *)
Theorem parquet_levels_roundtrip levels w : 1 <= w <= 32 -> Forall (fun x => 0 <= x < 2 ^ w) levels -> (zlen levels + 7) / 8 * w <= MaxAllocSize ->
  exists h, build_rle_levels levels w = Ok (le_bytes 4 (zlen h) ++ h) /\ zlen h < 2 ^ 31 /\
    rle_bitpack_decode h w (zlen levels) = Ok (Some levels).
Proof.
  intros Hw Hl Hm. destruct (levels_read_back levels w Hw Hl Hm) as (h & H1 & _ & H2 & H3). by exists h.
Qed.

Lemma parquet_levels_roundtrip_witness : exists h, build_rle_levels [0; 3; 1; 2; 3; 0; 0; 1; 2] 2 = Ok (le_bytes 4 (zlen h) ++ h) /\ zlen h < 2 ^ 31 /\
    rle_bitpack_decode h 2 (zlen [0; 3; 1; 2; 3; 0; 0; 1; 2]) = Ok (Some [0; 3; 1; 2; 3; 0; 0; 1; 2]).
Proof. apply parquet_levels_roundtrip; [lia|repeat constructor; lia|vm_compute; discriminate]. Defined.

(** Whatever bytes a file holds, [rle_bitpack_decode] ends without reading
    outside its buffer, for any bit width and count, and when it accepts, it has
    produced exactly the values asked for, each of 32 bits. *)
Theorem parquet_levels_decode_total buf w count : bytes_ok buf -> zlen buf < 2 ^ 60 -> 0 <= count ->
  safe (fun o => match o with None => True | Some out => zlen out = count /\ Forall (fun x => 0 <= x < 2 ^ 32) out end)
    (rle_bitpack_decode buf w count).
Proof. apply rle_decode_safe. Qed.

Lemma parquet_levels_decode_total_witness :
  safe (fun o => match o with None => True | Some out => zlen out = 10 /\ Forall (fun x => 0 <= x < 2 ^ 32) out end)
    (rle_bitpack_decode [3; 228; 255; 6; 2] 2 10).
Proof. apply parquet_levels_decode_total; [repeat constructor; lia|vm_compute; reflexivity|lia]. Defined.
