(* ===== verification/ParquetTypes.v ===== *)
(** * Parquet types: from PostgreSQL types to columns and back

    [parquet_kind_for_type], [build_leaf_scalar] and [build_top_column] of
    [columnar_parquet.c]; [pq_want_phys], [pq_want_phys_for],
    [pq_plan_bind_schema], [pq_field_id_widens], [pq_leaf_to_pgtype] and the
    decimal helpers of [columnar_parquet_reader.c]; the constants of
    [columnar_parquet_format.h].  What the catalogs say of a column's type (an
    array and its element, a composite and its fields) is data of the model. *)

From Stdlib Require Import Floats.SpecFloat.
From S2P Require Import Prelude.

(** ** Constants *)

Definition BOOLOID : Z := 16.
Definition BYTEAOID : Z := 17.
Definition INT8OID : Z := 20.
Definition INT2OID : Z := 21.
Definition INT4OID : Z := 23.
Definition TEXTOID : Z := 25.
Definition JSONOID : Z := 114.
Definition FLOAT4OID : Z := 700.
Definition FLOAT8OID : Z := 701.
Definition VARCHAROID : Z := 1043.
Definition DATEOID : Z := 1082.
Definition TIMEOID : Z := 1083.
Definition TIMESTAMPOID : Z := 1114.
Definition TIMESTAMPTZOID : Z := 1184.
Definition NUMERICOID : Z := 1700.
Definition UUIDOID : Z := 2950.
Definition JSONBOID : Z := 3802.

Definition PQ_BOOLEAN : Z := 0.
Definition PQ_INT32 : Z := 1.
Definition PQ_INT64 : Z := 2.
Definition PQ_INT96 : Z := 3.
Definition PQ_FLOAT : Z := 4.
Definition PQ_DOUBLE : Z := 5.
Definition PQ_BYTE_ARRAY : Z := 6.
Definition PQ_FIXED_LEN_BYTE_ARRAY : Z := 7.

Definition PQ_CT_UTF8 : Z := 0.
Definition PQ_CT_LIST : Z := 3.
Definition PQ_CT_ENUM : Z := 4.
Definition PQ_CT_DECIMAL : Z := 5.
Definition PQ_CT_DATE : Z := 6.
Definition PQ_CT_TIME_MILLIS : Z := 7.
Definition PQ_CT_TIME_MICROS : Z := 8.
Definition PQ_CT_TIMESTAMP_MILLIS : Z := 9.
Definition PQ_CT_TIMESTAMP_MICROS : Z := 10.
Definition PQ_CT_UINT_8 : Z := 11.
Definition PQ_CT_UINT_16 : Z := 12.
Definition PQ_CT_UINT_64 : Z := 14.
Definition PQ_CT_INT_8 : Z := 15.
Definition PQ_CT_INT_16 : Z := 16.
Definition PQ_CT_INT_32 : Z := 17.
Definition PQ_CT_JSON : Z := 19.

Definition PQ_TU_NONE : Z := 0.
Definition PQ_TU_MILLIS : Z := 1.
Definition PQ_TU_MICROS : Z := 2.
Definition PQ_TU_NANOS : Z := 3.

Definition PQ_TS_NONE : Z := 0.
Definition PQ_TS_WALL_TO_INSTANT : Z := 1.
Definition PQ_TS_INSTANT_TO_WALL : Z := 2.

Definition PQ_PHYS_NO_MATCH : Z := 2 ^ 31 - 1.
Definition VARHDRSZ : Z := 4.
Definition UUID_LEN : Z := 16.

(** ** The writer's columns *)

Inductive ParquetKind :=
| P_INT16 | P_INT32 | P_INT64 | P_FLOAT | P_DOUBLE | P_BOOL | P_UTF8 | P_BINARY
| P_DATE | P_TIME | P_TIMESTAMP | P_UUID | P_DECIMAL.

#[export] Instance ParquetKind_eq_dec : EqDecision ParquetKind.
Proof. solve_decision. Defined.

Record PqStats := mkStats {
  hasBounds : bool; nulls : Z; nans : Z; iMin : Z; iMax : Z; fMin : spec_float; fMax : spec_float }.

Record PqLeaf := mkLeaf {
  path : list (list Z); kind : ParquetKind; ptype : Z; convType : Z; tsAdjusted : Z; typeLength : Z; precision : Z; scale : Z;
  convertText : bool; max_def : Z; max_rep : Z;
  defs : list Z; reps : list Z; values : list Z; boolbits : list Z; nEntries : Z; st : PqStats }.

Definition pqstats_reset : PqStats := mkStats false 0 0 0 0 (S754_zero false) (S754_zero false).

(** Kind, physical type, converted type, type length, precision and scale. *)
Definition parquet_kind_for_type (typid typmod : Z) : ParquetKind * Z * Z * Z * Z * Z :=
  if typid =? INT2OID then (P_INT16, PQ_INT32, PQ_CT_INT_16, 0, 0, 0)
  else if typid =? INT4OID then (P_INT32, PQ_INT32, -1, 0, 0, 0)
  else if typid =? INT8OID then (P_INT64, PQ_INT64, -1, 0, 0, 0)
  else if typid =? FLOAT4OID then (P_FLOAT, PQ_FLOAT, -1, 0, 0, 0)
  else if typid =? FLOAT8OID then (P_DOUBLE, PQ_DOUBLE, -1, 0, 0, 0)
  else if typid =? BOOLOID then (P_BOOL, PQ_BOOLEAN, -1, 0, 0, 0)
  else if (typid =? TEXTOID) || (typid =? VARCHAROID) || (typid =? JSONOID) || (typid =? JSONBOID) then
    (P_UTF8, PQ_BYTE_ARRAY, PQ_CT_UTF8, 0, 0, 0)
  else if typid =? BYTEAOID then (P_BINARY, PQ_BYTE_ARRAY, -1, 0, 0, 0)
  else if typid =? DATEOID then (P_DATE, PQ_INT32, PQ_CT_DATE, 0, 0, 0)
  else if typid =? TIMEOID then (P_TIME, PQ_INT64, PQ_CT_TIME_MICROS, 0, 0, 0)
  else if typid =? TIMESTAMPOID then (P_TIMESTAMP, PQ_INT64, -1, 0, 0, 0)
  else if typid =? TIMESTAMPTZOID then (P_TIMESTAMP, PQ_INT64, PQ_CT_TIMESTAMP_MICROS, 0, 0, 0)
  else if typid =? UUIDOID then (P_UUID, PQ_FIXED_LEN_BYTE_ARRAY, -1, 16, 0, 0)
  else if typid =? NUMERICOID then
    let tmp := typmod - VARHDRSZ in
    let p := Z.land (Z.shiftr tmp 16) 65535 in
    let s := Z.land tmp 65535 in
    if (VARHDRSZ <=? typmod) && (1 <=? p) && (p <=? 38) && (0 <=? s) && (s <=? p) then
      (P_DECIMAL, PQ_FIXED_LEN_BYTE_ARRAY, PQ_CT_DECIMAL, 16, p, s)
    else (P_UTF8, PQ_BYTE_ARRAY, PQ_CT_UTF8, 0, 0, 0)
  else (P_INT32, -1, -1, 0, 0, 0).

(** [None] for a type the writer does not support. *)
Definition build_leaf_scalar (typid typmod max_def max_rep : Z) (path : list (list Z)) : option PqLeaf :=
  let '(kind, ptype, convType, typeLength, precision, scale) := parquet_kind_for_type typid typmod in
  if ptype <? 0 then None
  else Some (mkLeaf path kind ptype convType
               (if decide (kind = P_TIMESTAMP) then (if typid =? TIMESTAMPTZOID then 1 else 0) else -1)
               typeLength precision scale
               (bool_decide (kind = P_UTF8) && ((typid =? NUMERICOID) || (typid =? JSONBOID)))
               max_def max_rep [] [] [] [] 0 pqstats_reset).

(** What [get_element_type], [get_typtype] and [lookup_rowtype_tupdesc] say of a
    column's type; a dropped field of a composite is [None]. *)
Inductive coltype :=
| CScalar (typid typmod : Z)
| CArray (elemtype typmod : Z)
| CComposite (fields : list (option (list Z * Z * Z))).

Inductive TopColumn :=
| TOP_SCALAR (name : list Z) (firstLeaf : nat)
| TOP_LIST (name : list Z) (firstLeaf : nat)
| TOP_STRUCT (name : list Z) (firstLeaf nleaves : nat) (fieldLeaf : list (option (nat * list Z))).

(** The bytes of the names the writer gives to the nodes of a list. *)
Definition name_list : list Z := [108; 105; 115; 116].
Definition name_element : list Z := [101; 108; 101; 109; 101; 110; 116].

(** The loop over the fields of a composite. *)
Fixpoint build_fields (name : list Z) (fields : list (option (list Z * Z * Z))) (leaves : list PqLeaf) :
    option (list (option (nat * list Z)) * list PqLeaf) :=
  match fields with
  | [] => Some ([], leaves)
  | None :: fields =>
      match build_fields name fields leaves with
      | Some (fl, leaves) => Some (None :: fl, leaves)
      | None => None
      end
  | Some (fname, typid, typmod) :: fields =>
      match build_leaf_scalar typid typmod 2 0 [name; fname] with
      | None => None
      | Some leaf =>
          match build_fields name fields (leaves ++ [leaf]) with
          | Some (fl, leaves') => Some (Some (length leaves, fname) :: fl, leaves')
          | None => None
          end
      end
  end.

(** The column and the leaves with its own appended; [None] when a leaf's type is
    not supported. *)
Definition build_top_column (name : list Z) (ty : coltype) (leaves : list PqLeaf) : option (TopColumn * list PqLeaf) :=
  match ty with
  | CArray elemtype _ =>
      match build_leaf_scalar elemtype (-1) 3 1 [name; name_list; name_element] with
      | Some leaf => Some (TOP_LIST name (length leaves), leaves ++ [leaf])
      | None => None
      end
  | CComposite fields =>
      match build_fields name fields leaves with
      | Some (fl, leaves') => Some (TOP_STRUCT name (length leaves) (length leaves' - length leaves) fl, leaves')
      | None => None
      end
  | CScalar typid typmod =>
      match build_leaf_scalar typid typmod 1 0 [name] with
      | Some leaf => Some (TOP_SCALAR name (length leaves), leaves ++ [leaf])
      | None => None
      end
  end.

(** ** The reader's columns *)

Record PqSchemaCol := mkSchema {
  sc_phys_type : Z; sc_repetition : Z; sc_converted_type : Z; sc_time_unit : Z; sc_is_timestamp : bool; sc_adjusted_utc : bool;
  sc_is_unsigned : bool; sc_type_length : Z; sc_scale : Z; sc_precision : Z; sc_num_children : Z; sc_num_children_stored : Z;
  sc_field_id : Z; sc_name : option (list Z) }.

Definition pq_want_phys (typid : Z) : Z :=
  if (typid =? INT2OID) || (typid =? INT4OID) || (typid =? DATEOID) then PQ_INT32
  else if (typid =? INT8OID) || (typid =? TIMESTAMPOID) || (typid =? TIMESTAMPTZOID) || (typid =? TIMEOID) then PQ_INT64
  else if typid =? FLOAT4OID then PQ_FLOAT
  else if typid =? FLOAT8OID then PQ_DOUBLE
  else if typid =? BOOLOID then PQ_BOOLEAN
  else if (typid =? TEXTOID) || (typid =? VARCHAROID) || (typid =? BYTEAOID) then PQ_BYTE_ARRAY
  else -1.

Definition pq_decimal_bounds_ok (sc : PqSchemaCol) : bool :=
  (1 <=? sc_precision sc) && (sc_precision sc <=? 38) && (0 <=? sc_scale sc) && (sc_scale sc <=? sc_precision sc).

Definition pq_decimal_typmod (sc : PqSchemaCol) : Z :=
  s32 (Z.lor (s32 (Z.shiftl (sc_precision sc) 16)) (Z.land (sc_scale sc) 65535) + VARHDRSZ).

(** [sc] is [None] for a leaf past the file's columns. *)
Definition pq_want_phys_for (typid : Z) (sc : option PqSchemaCol) : Z :=
  match sc with
  | None => pq_want_phys typid
  | Some sc =>
      if (typid =? TIMEOID) && (sc_time_unit sc =? PQ_TU_MILLIS) && negb (sc_is_timestamp sc) then PQ_INT32
      else if ((typid =? TIMESTAMPTZOID) || (typid =? TIMESTAMPOID)) && (sc_phys_type sc =? PQ_INT96) then PQ_INT96
      else if sc_is_unsigned sc && (typid =? INT8OID) && (sc_phys_type sc =? PQ_INT32) then PQ_INT32
      else if sc_is_unsigned sc && (typid =? NUMERICOID) && (sc_phys_type sc =? PQ_INT64) then PQ_INT64
      else if typid =? UUIDOID then
        if (sc_phys_type sc =? PQ_FIXED_LEN_BYTE_ARRAY) && negb (sc_type_length sc =? UUID_LEN) then PQ_PHYS_NO_MATCH
        else PQ_FIXED_LEN_BYTE_ARRAY
      else if (typid =? BYTEAOID) && (sc_phys_type sc =? PQ_FIXED_LEN_BYTE_ARRAY) then PQ_FIXED_LEN_BYTE_ARRAY
      else if (typid =? NUMERICOID) && (sc_converted_type sc =? PQ_CT_DECIMAL) && pq_decimal_bounds_ok sc &&
              ((sc_phys_type sc =? PQ_FIXED_LEN_BYTE_ARRAY) || (sc_phys_type sc =? PQ_BYTE_ARRAY) ||
               (sc_phys_type sc =? PQ_INT32) || (sc_phys_type sc =? PQ_INT64)) then sc_phys_type sc
      else pq_want_phys typid
  end.

Definition pq_field_id_widens (sc : PqSchemaCol) (typid : Z) : bool :=
  if (typid =? INT8OID) && (sc_phys_type sc =? PQ_INT32) then
    (sc_time_unit sc =? PQ_TU_NONE) &&
    ((sc_converted_type sc <? 0) || (sc_converted_type sc =? PQ_CT_INT_8) || (sc_converted_type sc =? PQ_CT_INT_16) ||
     (sc_converted_type sc =? PQ_CT_INT_32))
  else (typid =? FLOAT8OID) && (sc_phys_type sc =? PQ_FLOAT).

Record PqColPlan := mkPlan {
  pl_typid : Z; pl_expect_phys : Z; pl_time_unit : Z; pl_type_length : Z; pl_dec_scale : Z; pl_is_decimal : bool; pl_is_unsigned : bool;
  pl_ts_shift : Z }.

Definition pq_plan_bind_schema (typid expect_phys : Z) (sc : PqSchemaCol) : PqColPlan :=
  mkPlan typid expect_phys (sc_time_unit sc) (sc_type_length sc) (sc_scale sc)
    ((typid =? NUMERICOID) && (sc_converted_type sc =? PQ_CT_DECIMAL))
    (sc_is_unsigned sc && ((sc_phys_type sc =? PQ_INT32) || (sc_phys_type sc =? PQ_INT64)))
    (if sc_is_timestamp sc && negb (sc_adjusted_utc sc) && (typid =? TIMESTAMPTZOID) then PQ_TS_WALL_TO_INSTANT
     else if sc_is_timestamp sc && sc_adjusted_utc sc && (typid =? TIMESTAMPOID) then PQ_TS_INSTANT_TO_WALL
     else if (sc_phys_type sc =? PQ_INT96) && (typid =? TIMESTAMPOID) then PQ_TS_INSTANT_TO_WALL
     else PQ_TS_NONE).

(** Type and type modifier; [None] for a leaf that maps to no supported type. *)
Definition pq_leaf_to_pgtype (sc : PqSchemaCol) : option (Z * Z) :=
  let ct := sc_converted_type sc in
  let ph := sc_phys_type sc in
  let dec := (ct =? PQ_CT_DECIMAL) && pq_decimal_bounds_ok sc in
  if ph =? PQ_BOOLEAN then Some (BOOLOID, -1)
  else if ph =? PQ_INT32 then
    if dec then Some (NUMERICOID, pq_decimal_typmod sc)
    else if ct =? PQ_CT_DATE then Some (DATEOID, -1)
    else if negb (sc_time_unit sc =? PQ_TU_NONE) && negb (sc_is_timestamp sc) then Some (TIMEOID, -1)
    else if (ct =? PQ_CT_INT_8) || (ct =? PQ_CT_INT_16) then Some (INT2OID, -1)
    else if sc_is_unsigned sc && negb (ct =? PQ_CT_UINT_8) && negb (ct =? PQ_CT_UINT_16) then Some (INT8OID, -1)
    else Some (INT4OID, -1)
  else if ph =? PQ_INT64 then
    if dec then Some (NUMERICOID, pq_decimal_typmod sc)
    else if (sc_time_unit sc =? PQ_TU_MILLIS) || (sc_time_unit sc =? PQ_TU_MICROS) then
      Some (if negb (sc_is_timestamp sc) then TIMEOID else if sc_adjusted_utc sc then TIMESTAMPTZOID else TIMESTAMPOID, -1)
    else if sc_is_unsigned sc then Some (NUMERICOID, Z.shiftl 20 16 + VARHDRSZ)
    else Some (INT8OID, -1)
  else if ph =? PQ_INT96 then Some (TIMESTAMPTZOID, -1)
  else if ph =? PQ_FLOAT then Some (FLOAT4OID, -1)
  else if ph =? PQ_DOUBLE then Some (FLOAT8OID, -1)
  else if ph =? PQ_BYTE_ARRAY then
    Some (if (ct =? PQ_CT_UTF8) || (ct =? PQ_CT_ENUM) || (ct =? PQ_CT_JSON) then TEXTOID else BYTEAOID, -1)
  else if ph =? PQ_FIXED_LEN_BYTE_ARRAY then
    if dec then Some (NUMERICOID, pq_decimal_typmod sc)
    else if (ct <? 0) && (sc_type_length sc =? 16) then Some (UUIDOID, -1)
    else Some (BYTEAOID, -1)
  else None.

(** ** What the reader sees of a column the writer wrote *)

(** The reader's view of a leaf: the fields [write_schema_leaf] writes, the time
    unit from the logical type or else from the converted type. *)
Definition schema_of_leaf (c : PqLeaf) (name : list Z) (repetition : Z) : PqSchemaCol :=
  let ts := 0 <=? tsAdjusted c in
  mkSchema (ptype c) repetition (convType c)
    (if ts || (convType c =? PQ_CT_TIME_MICROS) then PQ_TU_MICROS else PQ_TU_NONE) ts (if ts then tsAdjusted c =? 1 else true) false
    (typeLength c) (scale c) (precision c) 0 0 (-1) (Some name).

(** The PostgreSQL type a written column is described as. *)
Definition described_type (typid typmod : Z) : Z * Z :=
  if (typid =? TEXTOID) || (typid =? VARCHAROID) || (typid =? JSONOID) || (typid =? JSONBOID) then (TEXTOID, -1)
  else if typid =? NUMERICOID then
    match (parquet_kind_for_type typid typmod).1.1.1.1.1 with P_DECIMAL => (NUMERICOID, typmod) | _ => (TEXTOID, -1) end
  else (typid, -1).

(** The types the writer supports. *)
Definition exportable (typid : Z) : Prop :=
  typid ∈ [INT2OID; INT4OID; INT8OID; FLOAT4OID; FLOAT8OID; BOOLOID; TEXTOID; VARCHAROID; JSONOID; JSONBOID; BYTEAOID; DATEOID; TIMEOID;
           TIMESTAMPOID; TIMESTAMPTZOID; UUIDOID; NUMERICOID].

(** ... and those it reads back into the same type: not [json] and [jsonb], and
    [numeric] only with a declared precision and scale. *)
Definition reimportable (typid typmod : Z) : bool :=
  negb ((typid =? JSONOID) || (typid =? JSONBOID)) &&
  (negb (typid =? NUMERICOID) || match (parquet_kind_for_type typid typmod).1.1.1.1.1 with P_DECIMAL => true | _ => false end).

Lemma numeric_kind typmod : - 1 <= typmod < 2 ^ 31 ->
  parquet_kind_for_type NUMERICOID typmod = (P_UTF8, PQ_BYTE_ARRAY, PQ_CT_UTF8, 0, 0, 0) \/
  exists p s, parquet_kind_for_type NUMERICOID typmod = (P_DECIMAL, PQ_FIXED_LEN_BYTE_ARRAY, PQ_CT_DECIMAL, 16, p, s) /\
    1 <= p <= 38 /\ 0 <= s <= p /\ typmod = 65536 * p + s + 4.
Proof.
  intros Ht. unfold parquet_kind_for_type. cbn [Z.eqb NUMERICOID INT2OID Pos.eqb].
  change (NUMERICOID =? INT2OID) with false. change (NUMERICOID =? NUMERICOID) with true. cbn -[Z.land Z.shiftr]. unfold VARHDRSZ.
  set (tmp := typmod - 4). change 65535 with (2 ^ 16 - 1). rewrite !land_ones_mod by lia. rewrite Z.shiftr_div_pow2 by lia. change (2 ^ 16) with 65536.
  destruct (Z.leb_spec 4 typmod); cbn [andb]; [|by left].
  assert (Htmp : 0 <= tmp < 2 ^ 31) by lia. div_bounds tmp 65536. rewrite (Z.mod_small (tmp / 65536)) by lia.
  destruct (Z.leb_spec 1 (tmp / 65536)); cbn [andb]; [|by left]. destruct (Z.leb_spec (tmp / 65536) 38); cbn [andb]; [|by left].
  destruct (Z.leb_spec 0 (tmp mod 65536)); cbn [andb]; [|by left]. destruct (Z.leb_spec (tmp mod 65536) (tmp / 65536)); cbn [andb]; [|by left].
  right. eexists _, _. split; [done|]. split; [lia|]. split; [lia|]. lia.
Qed.

Lemma decimal_typmod_back p s sc : 1 <= p <= 38 -> 0 <= s <= p -> sc_precision sc = p -> sc_scale sc = s ->
  pq_decimal_bounds_ok sc = true /\ pq_decimal_typmod sc = 65536 * p + s + 4.
Proof.
  intros Hp Hs Ep Es. unfold pq_decimal_bounds_ok, pq_decimal_typmod. rewrite Ep, Es. split.
  - rewrite !(proj2 (Z.leb_le _ _)) by lia. done.
  - change 65535 with (2 ^ 16 - 1). rewrite land_ones_mod, Z.shiftl_mul_pow2 by lia. rewrite (Z.mod_small s) by lia.
    rewrite (s32_small (p * 2 ^ 16)) by lia. rewrite Z.lor_comm, lor_add by lia. unfold VARHDRSZ. rewrite s32_small by lia. lia.
Qed.

(** Every exportable type has a leaf, is described as its own type or as [text],
    and binds again without a conversion. *)
Lemma leaf_type_back typid typmod md mr path name rep : exportable typid -> - 1 <= typmod < 2 ^ 31 ->
  exists c, build_leaf_scalar typid typmod md mr path = Some c /\
    pq_leaf_to_pgtype (schema_of_leaf c name rep) = Some (described_type typid typmod) /\
    (reimportable typid typmod = true ->
      pq_want_phys_for typid (Some (schema_of_leaf c name rep)) = ptype c /\ pl_ts_shift (pq_plan_bind_schema typid (ptype c) (schema_of_leaf c name rep)) = PQ_TS_NONE).
Proof.
  intros He Ht. apply list_elem_of_In in He. cbn [In] in He.
  repeat (destruct He as [<-|He]); [..|done];
    try (eexists; split; [reflexivity|]; split; [reflexivity|]; intros _; split; reflexivity);
    try (eexists; split; [reflexivity|]; split; [reflexivity|]; intros [=]).
  unfold build_leaf_scalar, described_type, reimportable. destruct (numeric_kind typmod Ht) as [->|(p & s & -> & Hp & Hs & ->)].
  - eexists. split; [reflexivity|]. split; [reflexivity|]. intros [=].
  - set (c := mkLeaf path P_DECIMAL PQ_FIXED_LEN_BYTE_ARRAY PQ_CT_DECIMAL (-1) 16 p s false md mr [] [] [] [] 0 pqstats_reset).
    exists c. split; [reflexivity|]. destruct (decimal_typmod_back p s (schema_of_leaf c name rep) Hp Hs eq_refl eq_refl) as [E1 E2].
    unfold pq_leaf_to_pgtype, pq_want_phys_for. rewrite E1, E2. split; [reflexivity|]. intros _. split; reflexivity.
Qed.

(** ** Finding: arrays of numeric *)

(** The leaf of an array of [numeric] is text whatever precision and scale the
    column declares, and such a leaf does not bind to [numeric] again. *)
Lemma numeric_array_leaf name typmod leaves : exists c, build_top_column name (CArray NUMERICOID typmod) leaves = Some (TOP_LIST name (length leaves), leaves ++ [c]) /\
  kind c = P_UTF8 /\ pq_want_phys_for NUMERICOID (Some (schema_of_leaf c name_element 1)) = -1.
Proof. eexists. split; [reflexivity|]. split; reflexivity. Qed.

(** ** Claims *)

Lemma no_leaf typid typmod md mr path : ~ exportable typid -> build_leaf_scalar typid typmod md mr path = None.
Proof.
  intros Hn. assert (H : forall o, o ∈ [INT2OID; INT4OID; INT8OID; FLOAT4OID; FLOAT8OID; BOOLOID; TEXTOID; VARCHAROID; JSONOID; JSONBOID; BYTEAOID; DATEOID; TIMEOID;
           TIMESTAMPOID; TIMESTAMPTZOID; UUIDOID; NUMERICOID] -> (typid =? o) = false) by (intros o Ho; apply Z.eqb_neq; by intros ->).
  unfold build_leaf_scalar, parquet_kind_for_type. rewrite !H by (rewrite list_elem_of_In; cbn [In]; tauto). done.
Qed.

(** C16.  The types of a written file: a column has a leaf exactly when its type is
    one the writer supports; the leaf's schema element says the type itself, or
    [text] for the types written as text; and it binds to a column of the original
    type, without any conversion of units, exactly when the type is not [json],
    [jsonb] or a [numeric] without a precision that fits. *)
Theorem exported_types_import typid typmod md mr path name rep : - 1 <= typmod < 2 ^ 31 ->
  (build_leaf_scalar typid typmod md mr path <> None <-> exportable typid) /\
  forall c, build_leaf_scalar typid typmod md mr path = Some c ->
    pq_leaf_to_pgtype (schema_of_leaf c name rep) = Some (described_type typid typmod) /\
    (pq_want_phys_for typid (Some (schema_of_leaf c name rep)) = ptype c <-> reimportable typid typmod = true) /\
    (reimportable typid typmod = true -> pl_ts_shift (pq_plan_bind_schema typid (ptype c) (schema_of_leaf c name rep)) = PQ_TS_NONE).
Proof.
  intros Ht. assert (Hd : Decision (exportable typid)) by apply _. destruct (decide (exportable typid)) as [He|Hn].
  - destruct (leaf_type_back typid typmod md mr path name rep He Ht) as (c & E & H1 & H2). rewrite E. split; [by split|]. intros c' [= <-]. split; [done|]. split; [|intros Hr; by apply H2].
    split; [|intros Hr; by apply H2]. intros Hw. destruct (reimportable typid typmod) eqn:Er; [done|]. exfalso.
    apply list_elem_of_In in He. cbn [In] in He. repeat (destruct He as [<-|He]); [..|done]; try done.
    + injection E as <-. done.
    + injection E as <-. done.
    + unfold reimportable in Er. unfold build_leaf_scalar in E. destruct (numeric_kind typmod Ht) as [En|(p & s & En & _)]; rewrite En in *; [|done]. injection E as <-. done.
  - rewrite (no_leaf _ _ _ _ _ Hn). split; [by split|]. done.
Qed.

Lemma exported_types_import_witness : exists c, build_leaf_scalar NUMERICOID 655366 1 0 [[112]] = Some c /\
  pq_leaf_to_pgtype (schema_of_leaf c [112] 1) = Some (NUMERICOID, 655366) /\ pq_want_phys_for NUMERICOID (Some (schema_of_leaf c [112] 1)) = ptype c.
Proof.
  destruct (exported_types_import NUMERICOID 655366 1 0 [[112]] [112] 1 ltac:(lia)) as [_ H].
  destruct (build_leaf_scalar NUMERICOID 655366 1 0 [[112]]) as [c|] eqn:Hc; [|vm_compute in Hc; discriminate].
  exists c. destruct (H c eq_refl) as (H1 & H2 & _). split; [reflexivity|]. split; [exact H1|]. apply H2. vm_compute. reflexivity.
Defined.
