(* ===== verification/ParquetValues.v ===== *)
(** * Parquet values

    One value in PLAIN encoding: [numeric_to_int128], [leaf_value_representable],
    [write_leaf_value], [leaf_entry] and the statistics of [columnar_parquet.c];
    [pq_scale_to_usecs], the decimal conversions, [pq_ts_shift] and
    [plain_value_to_datum] of [columnar_parquet_reader.c].  PostgreSQL's numeric
    and jsonb types, its calendar and its encoding check are parameters. *)

From Stdlib Require Import Floats.SpecFloat.
From S2P Require Import Prelude BitPack Alp ParquetCodec ParquetTypes.

(** ** PostgreSQL *)

(** Numbers and documents with their text forms; the broken-down time of a
    timestamp, with or without the session's time zone; the length of the valid
    prefix of a string in the server encoding. *)
Class PgTypes : Type := {
  numeric : Type;
  numeric_out : numeric -> list Z;
  numeric_in : list Z -> res numeric;
  jsonb : Type;
  jsonb_out : jsonb -> list Z;
  pg_tm : Type;
  timestamp2tm : bool -> Z -> option (pg_tm * Z);
  DetermineTimeZoneOffset : pg_tm -> Z;
  tm2timestamp : pg_tm -> Z -> option Z -> option Z;
  pg_encoding_verifymbstr : list Z -> Z
}.

Definition POSTGRES_EPOCH_JDATE : Z := 2451545.
Definition UNIX_EPOCH_JDATE : Z := 2440588.
Definition DATE_END_JULIAN : Z := 2147483494.
Definition USECS_PER_DAY : Z := 86400000000.
Definition MIN_TIMESTAMP : Z := -211813488000000000.
Definition END_TIMESTAMP : Z := 9223371331200000000.
Definition PG_TO_UNIX_DAYS : Z := POSTGRES_EPOCH_JDATE - UNIX_EPOCH_JDATE.
Definition PG_TO_UNIX_USECS : Z := PG_TO_UNIX_DAYS * USECS_PER_DAY.
Definition PG_INT32_MIN : Z := - 2 ^ 31.
Definition PG_INT32_MAX : Z := 2 ^ 31 - 1.
Definition PG_INT64_MIN : Z := - 2 ^ 63.
Definition PG_INT64_MAX : Z := 2 ^ 63 - 1.

Definition DATE_NOT_FINITE (d : Z) : bool := (d =? PG_INT32_MIN) || (d =? PG_INT32_MAX).
Definition TIMESTAMP_NOT_FINITE (t : Z) : bool := (t =? PG_INT64_MIN) || (t =? PG_INT64_MAX).
Definition IS_VALID_DATE (d : Z) : bool := (0 - POSTGRES_EPOCH_JDATE <=? d) && (d <? DATE_END_JULIAN - POSTGRES_EPOCH_JDATE).
Definition IS_VALID_TIMESTAMP (t : Z) : bool := (MIN_TIMESTAMP <=? t) && (t <? END_TIMESTAMP).

Definition s128 (z : Z) : Z := (z + 2 ^ 127) mod 2 ^ 128 - 2 ^ 127.

(** ** Decimals and their text *)

Definition ch_minus : Z := 45.
Definition ch_plus : Z := 43.
Definition ch_dot : Z := 46.
Definition ch_0 : Z := 48.
Definition ch_9 : Z := 57.

(** The loop over the text: accumulator and digits behind the point. *)
Fixpoint int128_digits (p : list Z) (seenDot : bool) (fracDigits acc : Z) : option (Z * Z) :=
  match p with
  | [] => Some (acc, fracDigits)
  | c :: p =>
      if c =? ch_dot then int128_digits p true fracDigits acc
      else if (c <? ch_0) || (ch_9 <? c) then None
      else int128_digits p seenDot (if seenDot then fracDigits + 1 else fracDigits) (s128 (s128 (acc * 10) + (c - ch_0)))
  end.

(** [n] turns of a loop over the accumulator. *)
Fixpoint times {A} (n : nat) (f : A -> A) (a : A) : A := match n with O => a | S n => times n f (f a) end.

(** [numeric_to_int128] on the value's text. *)
Definition text_to_int128 (s : list Z) (scale : Z) : option Z :=
  let '(neg, p) := match s with
                   | c :: p => if c =? ch_minus then (true, p) else if c =? ch_plus then (false, p) else (false, s)
                   | [] => (false, [])
                   end in
  match int128_digits p false 0 0 with
  | None => None
  | Some (acc, fracDigits) =>
      let acc := times (Z.to_nat (scale - fracDigits)) (fun a => s128 (a * 10)) acc in
      let acc := times (Z.to_nat (fracDigits - scale)) (fun a => Z.quot a 10) acc in
      Some (if neg then s128 (- acc) else acc)
  end.

(** The digits of a magnitude, least significant first. *)
Fixpoint digit_loop (fuel : nat) (a : Z) : list Z :=
  match fuel with
  | O => []
  | S fuel => if 0 <? a then (ch_0 + a mod 10) :: digit_loop fuel (a / 10) else []
  end.

(** 39 digits hold any 128-bit magnitude. *)
Definition digits_of (a : Z) : list Z := if a =? 0 then [ch_0] else digit_loop 39 a.

(** The text of an unscaled integer at a scale. *)
Definition decimal_text (val scale : Z) : list Z :=
  let digits := digits_of (Z.abs val) in
  (if val <? 0 then [ch_minus] else []) ++
  (if scale <=? 0 then rev digits
   else
     let intlen := zlen digits - scale in
     if intlen <=? 0 then [ch_0; ch_dot] ++ replicate (Z.to_nat (- intlen)) ch_0 ++ rev digits
     else rev (drop (Z.to_nat scale) digits) ++ [ch_dot] ++ rev (take (Z.to_nat scale) digits)).

(** [mag = (mag << 8) | be[i]] *)
Definition be_mag (be : list Z) : Z := foldl (fun mag b => Z.lor (Z.shiftl mag 8 mod 2 ^ 128) b) 0 be.

(** The value of big-endian two's-complement bytes. *)
Definition be_value (be : list Z) : Z :=
  let mag := be_mag be in
  let len := zlen be in
  if len =? 16 then s128 mag
  else if negb (Z.land (nthZ be 0) 128 =? 0) then s128 (s128 mag - 2 ^ (8 * len))
  else s128 mag.

Section Values.
Context `{PgTypes}.

(** [None] is the converter's [false]. *)
Definition pq_decimal_to_numeric (be : list Z) (scale : Z) : res (option numeric) :=
  let len := zlen be in
  if (len <? 1) || (16 <? len) then Ok None
  else if (scale <? 0) || (38 <? scale) then Ok None
  else n ← numeric_in (decimal_text (be_value be) scale); Ok (Some n).

Definition pq_int_decimal_to_numeric (v : Z) (width : nat) (scale : Z) : res (option numeric) :=
  pq_decimal_to_numeric (rev (le_bytes width v)) scale.

(** ** Datums *)

(** Integers, dates, times and timestamps by their value; floats by their bits;
    text, bytea and uuid by their bytes. *)
Inductive datum :=
| DInt (v : Z)
| DFloat4 (bits : Z)
| DFloat8 (bits : Z)
| DBool (b : bool)
| DBytes (bs : list Z)
| DNumeric (n : numeric)
| DJsonb (j : jsonb).

(** A datum read as another type than its own touches memory it has no claim to. *)
Definition get_int (d : datum) : res Z := match d with DInt v => Ok v | _ => Oob end.
Definition get_float4 (d : datum) : res Z := match d with DFloat4 b => Ok b | _ => Oob end.
Definition get_float8 (d : datum) : res Z := match d with DFloat8 b => Ok b | _ => Oob end.
Definition get_bool (d : datum) : res bool := match d with DBool b => Ok b | _ => Oob end.
Definition get_bytes (d : datum) : res (list Z) := match d with DBytes bs => Ok bs | _ => Oob end.
Definition get_numeric (d : datum) : res numeric := match d with DNumeric n => Ok n | _ => Oob end.

(** The output function of a leaf written as text. *)
Definition OutputFunctionCall (d : datum) : res (list Z) :=
  match d with DNumeric n => Ok (numeric_out n) | DJsonb j => Ok (jsonb_out j) | _ => Oob end.

Definition numeric_to_int128 (n : numeric) (scale : Z) : option Z := text_to_int128 (numeric_out n) scale.

(** ** Statistics *)

Definition sf_isnan (x : spec_float) : bool := match x with S754_nan => true | _ => false end.

Definition pqstats_int (s : PqStats) (v : Z) : PqStats :=
  if negb (hasBounds s) then mkStats true (nulls s) (nans s) v v (fMin s) (fMax s)
  else mkStats true (nulls s) (nans s) (if v <? iMin s then v else iMin s) (if iMax s <? v then v else iMax s) (fMin s) (fMax s).

Definition pqstats_float (s : PqStats) (v : spec_float) : PqStats :=
  if sf_isnan v then mkStats (hasBounds s) (nulls s) (nans s + 1) (iMin s) (iMax s) (fMin s) (fMax s)
  else if negb (hasBounds s) then mkStats true (nulls s) (nans s) (iMin s) (iMax s) v v
  else mkStats true (nulls s) (nans s) (iMin s) (iMax s) (if dlt v (fMin s) then v else fMin s) (if dlt (fMax s) v then v else fMax s).

Definition pqstats_null (s : PqStats) : PqStats :=
  mkStats (hasBounds s) (nulls s + 1) (nans s) (iMin s) (iMax s) (fMin s) (fMax s).

(** ** Writing *)

(** A leaf with other buffers. *)
Definition with_data (c : PqLeaf) (defs reps values boolbits : list Z) (nEntries : Z) (st : PqStats) : PqLeaf :=
  mkLeaf (path c) (kind c) (ptype c) (convType c) (tsAdjusted c) (typeLength c) (precision c) (scale c) (convertText c) (max_def c) (max_rep c)
    defs reps values boolbits nEntries st.

Definition pqleaf_reset (c : PqLeaf) : PqLeaf := with_data c [] [] [] [] 0 pqstats_reset.

Definition leaf_value_representable (c : PqLeaf) (d : datum) : res (bool * Z) :=
  match kind c with
  | P_DATE => v ← get_int d; Ok (negb (DATE_NOT_FINITE v), 0)
  | P_TIMESTAMP => v ← get_int d; Ok (negb (TIMESTAMP_NOT_FINITE v), 0)
  | P_DECIMAL => n ← get_numeric d; Ok (match numeric_to_int128 n (scale c) with Some dec => (true, dec) | None => (false, 0) end)
  | _ => Ok (true, 0)
  end.

(** Appending the bytes of a value and taking it into the statistics. *)
Definition put_value (c : PqLeaf) (bs : list Z) (st : PqStats) : res PqLeaf :=
  values ← appendBinaryStringInfo (values c) bs;
  Ok (with_data c (defs c) (reps c) values (boolbits c) (nEntries c) st).

(** A length and as many bytes. *)
Definition put_sized (c : PqLeaf) (bs : list Z) : res PqLeaf :=
  c ← put_value c (le_bytes 4 (zlen bs)) (st c);
  put_value c bs (st c).

Definition write_leaf_value (c : PqLeaf) (d : datum) (dec : Z) : res PqLeaf :=
  match kind c with
  | P_INT16 | P_INT32 => v ← get_int d; put_value c (le_bytes 4 v) (pqstats_int (st c) v)
  | P_INT64 => v ← get_int d; put_value c (le_bytes 8 v) (pqstats_int (st c) v)
  | P_FLOAT => b ← get_float4 d; put_value c (le_bytes 4 b) (pqstats_float (st c) (d_load 4 (le_bytes 4 b)))
  | P_DOUBLE => b ← get_float8 d; put_value c (le_bytes 8 b) (pqstats_float (st c) (d_load 8 (le_bytes 8 b)))
  | P_DATE => v ← get_int d; let v := s32 (v + PG_TO_UNIX_DAYS) in put_value c (le_bytes 4 v) (pqstats_int (st c) v)
  | P_TIME => v ← get_int d; put_value c (le_bytes 8 v) (pqstats_int (st c) v)
  | P_TIMESTAMP => v ← get_int d; let v := s64 (v + PG_TO_UNIX_USECS) in put_value c (le_bytes 8 v) (pqstats_int (st c) v)
  | P_UUID => bs ← get_bytes d; put_value c bs (st c)
  | P_DECIMAL => put_value c (rev (le_bytes 16 dec)) (st c)
  | P_BOOL =>
      b ← get_bool d;
      bits ← appendBinaryStringInfo (boolbits c) [if b : bool then 1 else 0];
      Ok (with_data c (defs c) (reps c) (values c) bits (nEntries c) (st c))
  | P_UTF8 | P_BINARY =>
      if convertText c then s ← OutputFunctionCall d; put_sized c s
      else bs ← get_bytes d; put_sized c bs
  end.

(** One entry: the levels, and the value when there is one that Parquet can hold. *)
Definition leaf_entry (c : PqLeaf) (def rep : Z) (d : option datum) : res PqLeaf :=
  ' (def, d, dec) ←
    match d with
    | None => Ok (def, None, 0)
    | Some d => ' (ok, dec) ← leaf_value_representable c d; Ok (if ok : bool then (def, Some d, dec) else (max_def c - 1, None, dec))
    end;
  defs ← appendBinaryStringInfo (defs c) [u8 def];
  reps ← (if 0 <? max_rep c then appendBinaryStringInfo (reps c) [u8 rep] else Ok (reps c));
  let c := with_data c defs reps (values c) (boolbits c) (nEntries c + 1) (st c) in
  match d with
  | Some d => write_leaf_value c d dec
  | None => Ok (with_data c (ParquetTypes.defs c) (ParquetTypes.reps c) (values c) (boolbits c) (nEntries c) (pqstats_null (st c)))
  end.

(** ** Reading *)

(** [None] when the product does not fit. *)
Definition pq_scale_to_usecs (unit v : Z) : option Z :=
  if unit =? PQ_TU_MILLIS then (if (PG_INT64_MIN <=? v * 1000) && (v * 1000 <=? PG_INT64_MAX) then Some (v * 1000) else None)
  else if unit =? PQ_TU_NANOS then Some (Z.quot v 1000)
  else Some v.

Definition pq_ts_shift (shift t : Z) : option Z :=
  if TIMESTAMP_NOT_FINITE t then Some t
  else
    let valid o := match o with Some t => if IS_VALID_TIMESTAMP t then Some t else None | None => None end in
    if shift =? PQ_TS_WALL_TO_INSTANT then
      match timestamp2tm false t with
      | Some (tm, fsec) => valid (tm2timestamp tm fsec (Some (DetermineTimeZoneOffset tm)))
      | None => None
      end
    else
      match timestamp2tm true t with
      | Some (tm, fsec) => valid (tm2timestamp tm fsec None)
      | None => None
      end.

(** [None] is the converter's [*ok = false]; a strict caller gets the error. *)
Definition out_of_range {A} (strict : bool) : res (option A) :=
  if strict then Err "value out of range for type" else Ok None.

Definition pq_text_cell_ok (s : list Z) (strict : bool) : res bool :=
  if forallb (fun b => negb (b =? 0) && (b <? 128)) s then Ok true
  else if pg_encoding_verifymbstr s =? zlen s then Ok true
  else if strict then Err "invalid byte sequence for encoding"
  else Ok false.

(** A fresh varlena. *)
Definition make_varlena (bs : list Z) : res datum :=
  if MaxAllocSize <? zlen bs + VARHDRSZ then Err "invalid memory alloc request size" else Ok (DBytes bs).

Definition to_numeric (r : res (option numeric)) (p : Z) : res (option (datum * Z)) :=
  o ← r; Ok (match o with Some n => Some (DNumeric n, p) | None => None end).

Definition int32_to_datum (plan : PqColPlan) (v p : Z) (strict : bool) : res (option (datum * Z)) :=
  let typid := pl_typid plan in
  if pl_is_decimal plan then to_numeric (pq_int_decimal_to_numeric v 4 (pl_dec_scale plan)) p
  else
    let int_target := (typid =? INT8OID) || (typid =? INT4OID) || (typid =? INT2OID) in
    if pl_is_unsigned plan && int_target && (typid =? INT8OID) then Ok (Some (DInt (u32 v), p))
    else if pl_is_unsigned plan && int_target && (PG_INT32_MAX <? u32 v) then out_of_range strict
    else if typid =? INT2OID then
      if (v <? - 2 ^ 15) || (2 ^ 15 - 1 <? v) then out_of_range strict else Ok (Some (DInt v, p))
    else if typid =? TIMEOID then
      match pq_scale_to_usecs (pl_time_unit plan) v with
      | Some us => if (us <? 0) || (USECS_PER_DAY <? us) then out_of_range strict else Ok (Some (DInt us, p))
      | None => out_of_range strict
      end
    else if typid =? DATEOID then
      let d := v - PG_TO_UNIX_DAYS in
      if (d <? PG_INT32_MIN) || (PG_INT32_MAX <? d) || negb (IS_VALID_DATE d) then out_of_range strict else Ok (Some (DInt d, p))
    else Ok (Some (DInt v, p)).

(** A timestamp in microseconds from the PostgreSQL epoch, shifted when the plan
    asks for it. *)
Definition shifted_timestamp (plan : PqColPlan) (t p : Z) (strict : bool) : res (option (datum * Z)) :=
  if negb (IS_VALID_TIMESTAMP t) then out_of_range strict
  else if pl_ts_shift plan =? PQ_TS_NONE then Ok (Some (DInt t, p))
  else match pq_ts_shift (pl_ts_shift plan) t with Some t => Ok (Some (DInt t, p)) | None => out_of_range strict end.

Definition int64_to_datum (plan : PqColPlan) (v p : Z) (strict : bool) : res (option (datum * Z)) :=
  let typid := pl_typid plan in
  if pl_is_decimal plan then to_numeric (pq_int_decimal_to_numeric v 8 (pl_dec_scale plan)) p
  else if pl_is_unsigned plan && (typid =? NUMERICOID) then n ← numeric_in (decimal_text (u64 v) 0); Ok (Some (DNumeric n, p))
  else if pl_is_unsigned plan && (typid =? INT8OID) && (v <? 0) then out_of_range strict
  else if (typid =? TIMESTAMPOID) || (typid =? TIMESTAMPTZOID) then
    match pq_scale_to_usecs (pl_time_unit plan) v with
    | Some us =>
        let t := us - PG_TO_UNIX_USECS in
        if (t <? PG_INT64_MIN) || (PG_INT64_MAX <? t) then out_of_range strict else shifted_timestamp plan t p strict
    | None => out_of_range strict
    end
  else if typid =? TIMEOID then
    match pq_scale_to_usecs (pl_time_unit plan) v with
    | Some us => if (us <? 0) || (USECS_PER_DAY <? us) then out_of_range strict else Ok (Some (DInt us, p))
    | None => out_of_range strict
    end
  else Ok (Some (DInt v, p)).

Definition int96_to_datum (plan : PqColPlan) (nanos jday p : Z) (strict : bool) : res (option (datum * Z)) :=
  let t := (jday - POSTGRES_EPOCH_JDATE) * USECS_PER_DAY in
  let us := t + Z.quot nanos 1000 in
  if (nanos <? 0) || (USECS_PER_DAY * 1000 <=? nanos) || (t <? PG_INT64_MIN) || (PG_INT64_MAX <? t) || (us <? PG_INT64_MIN) || (PG_INT64_MAX <? us)
  then out_of_range strict
  else shifted_timestamp plan us p strict.

(** The value at [p] of the buffer and the position behind it. *)
Definition plain_value_to_datum (plan : PqColPlan) (buf : list Z) (p : Z) (strict : bool) : res (option (datum * Z)) :=
  let phys := pl_expect_phys plan in
  let endp := zlen buf in
  if phys =? PQ_INT32 then
    if endp <? p + 4 then Ok None
    else bs ← rd buf p 4; int32_to_datum plan (s32 (le_uint bs)) (p + 4) strict
  else if phys =? PQ_INT64 then
    if endp <? p + 8 then Ok None
    else bs ← rd buf p 8; int64_to_datum plan (s64 (le_uint bs)) (p + 8) strict
  else if phys =? PQ_INT96 then
    if endp <? p + 12 then Ok None
    else
      nanos ← rd buf p 8;
      jday ← rd buf (p + 8) 4;
      int96_to_datum plan (s64 (le_uint nanos)) (s32 (le_uint jday)) (p + 12) strict
  else if phys =? PQ_FLOAT then
    if endp <? p + 4 then Ok None
    else
      bs ← rd buf p 4;
      Ok (Some (if pl_typid plan =? FLOAT8OID then DFloat8 (bits_of_sf 52 11 (d_load 4 bs)) else DFloat4 (le_uint bs), p + 4))
  else if phys =? PQ_DOUBLE then
    if endp <? p + 8 then Ok None else bs ← rd buf p 8; Ok (Some (DFloat8 (le_uint bs), p + 8))
  else if phys =? PQ_BYTE_ARRAY then
    if endp <? p + 4 then Ok None
    else
      lb ← rd buf p 4;
      let blen := le_uint lb in
      let cur := p + 4 in
      if endp <? cur + blen then Ok None
      else
        bs ← rd buf cur blen;
        if pl_is_decimal plan then to_numeric (pq_decimal_to_numeric bs (pl_dec_scale plan)) (cur + blen)
        else if pl_typid plan =? BYTEAOID then d ← make_varlena bs; Ok (Some (d, cur + blen))
        else
          ok ← pq_text_cell_ok bs strict;
          if ok : bool then d ← make_varlena bs; Ok (Some (d, cur + blen)) else Ok None
  else if phys =? PQ_FIXED_LEN_BYTE_ARRAY then
    let flen := pl_type_length plan in
    if (flen <=? 0) || (endp <? p + flen) then Ok None
    else
      bs ← rd buf p flen;
      if pl_is_decimal plan then to_numeric (pq_decimal_to_numeric bs (pl_dec_scale plan)) (p + flen)
      else if pl_typid plan =? UUIDOID then
        if flen =? UUID_LEN then Ok (Some (DBytes bs, p + flen)) else Ok None
      else d ← make_varlena bs; Ok (Some (d, p + flen))
  else Ok None.

End Values.

(** ** Decimal text *)

Definition is_digit (c : Z) : Prop := ch_0 <= c <= ch_9.
(** The value of digits, most significant first, behind [acc]. *)
Definition mval (acc : Z) (p : list Z) : Z := foldl (fun a c => a * 10 + (c - ch_0)) acc p.

Lemma mval_app acc p q : mval acc (p ++ q) = mval (mval acc p) q.
Proof. apply foldl_app. Qed.

Lemma mval_ge p : forall acc, 0 <= acc -> Forall is_digit p -> acc <= mval acc p.
Proof.
  induction p as [|c p IH]; intros acc Ha Hp; [done|]. apply Forall_cons_1 in Hp as [Hc Hp]. unfold is_digit, ch_0, ch_9 in Hc.
  pose proof (IH (acc * 10 + (c - ch_0)) ltac:(unfold ch_0; lia) Hp) as E. unfold mval in *. cbn [foldl]. unfold ch_0 in *. lia.
Qed.

Lemma mval_zeros n : mval 0 (replicate n ch_0) = 0.
Proof. induction n as [|n IH]; [done|]. cbn. exact IH. Qed.

Lemma s128_small z : - 2 ^ 127 <= z < 2 ^ 127 -> s128 z = z.
Proof. intros Hz. unfold s128. rewrite Z.mod_small; lia. Qed.

Lemma digits_run p : forall rest sd fd acc, Forall is_digit p -> 0 <= acc -> mval acc p < 2 ^ 127 ->
  int128_digits (p ++ rest) sd fd acc = int128_digits rest sd (fd + (if sd then zlen p else 0)) (mval acc p).
Proof.
  induction p as [|c p IH]; intros rest sd fd acc Hp Ha Hm; cbn [app int128_digits].
  - change (mval acc []) with acc. rewrite zlen_nil. replace (fd + (if sd then 0 else 0)) with fd by (destruct sd; lia). done.
  - apply Forall_cons_1 in Hp as [Hc Hp]. unfold is_digit, ch_0, ch_9 in Hc. unfold ch_dot, ch_0, ch_9.
    assert (Hnn : 0 <= acc * 10 + (c - ch_0)) by (unfold ch_0; lia). pose proof (mval_ge p _ Hnn Hp) as Hge. change (mval acc (c :: p)) with (mval (acc * 10 + (c - ch_0)) p) in *.
    unfold ch_0 in *. rewrite (proj2 (Z.eqb_neq c 46)) by lia. rewrite (proj2 (Z.ltb_ge c 48)), (proj2 (Z.ltb_ge 57 c)) by lia. cbn [orb].
    rewrite (s128_small (acc * 10)), s128_small by lia. rewrite IH by (done || lia). f_equal. rewrite zlen_cons. destruct sd; lia.
Qed.

Lemma digit_loop_spec n : forall a, 0 <= a < 10 ^ Z.of_nat n ->
  Forall is_digit (digit_loop n a) /\ mval 0 (rev (digit_loop n a)) = a /\ (0 < a -> 1 <= zlen (digit_loop n a)) /\ zlen (digit_loop n a) <= Z.of_nat n.
Proof.
  induction n as [|n IH]; intros a Ha; cbn [digit_loop]; [cbn in Ha; split; [constructor|]; split; [cbn; lia|]; split; [lia|done]|].
  rewrite Nat2Z.inj_succ, Z.pow_succ_r in Ha by lia. destruct (Z.ltb_spec 0 a); [|split; [constructor|]; split; [cbn; lia|]; split; [lia|unfold zlen; cbn; lia]].
  div_bounds a 10. destruct (IH (a / 10)) as (H1' & H2' & _ & H4'); [lia|]. split; [constructor; [unfold is_digit, ch_0, ch_9; lia|done]|].
  split; [|rewrite zlen_cons; pose proof (zlen_nonneg (digit_loop n (a / 10))); lia].
  cbn [rev]. rewrite mval_app, H2'. unfold mval, ch_0. cbn [foldl]. lia.
Qed.

Lemma digits_spec a : 0 <= a < 2 ^ 127 ->
  Forall is_digit (digits_of a) /\ mval 0 (rev (digits_of a)) = a /\ 1 <= zlen (digits_of a) <= 39.
Proof.
  intros Ha. unfold digits_of. destruct (Z.eqb_spec a 0) as [->|Hne].
  - split; [constructor; [unfold is_digit, ch_0, ch_9; lia|constructor]|]. split; [done|]. done.
  - destruct (digit_loop_spec 39 a) as (D1 & D2 & D3 & D4); [change (10 ^ Z.of_nat 39) with 1000000000000000000000000000000000000000; lia|].
    split; [done|]. split; [done|]. specialize (D3 ltac:(lia)). lia.
Qed.

(** The digits of a text, its sign taken off. *)
Lemma text_sign val body : body <> [] -> Forall (fun c => is_digit c \/ c = ch_dot) body ->
  forall scale, text_to_int128 ((if val <? 0 then [ch_minus] else []) ++ body) scale =
    match int128_digits body false 0 0 with
    | None => None
    | Some (acc, fd) =>
        let acc := times (Z.to_nat (scale - fd)) (fun a => s128 (a * 10)) acc in
        let acc := times (Z.to_nat (fd - scale)) (fun a => Z.quot a 10) acc in
        Some (if val <? 0 then s128 (- acc) else acc)
    end.
Proof.
  intros Hne Hb scale. destruct (val <? 0); [done|]. cbn [app]. destruct body as [|c body]; [done|]. unfold text_to_int128.
  apply Forall_cons_1 in Hb as [Hc _]. unfold is_digit, ch_0, ch_9, ch_dot in Hc. unfold ch_minus, ch_plus.
  rewrite (proj2 (Z.eqb_neq c 45)), (proj2 (Z.eqb_neq c 43)) by lia. done.
Qed.

(** The body of a text reads as its magnitude, with [scale] digits behind the point. *)
Lemma body_digits ds scale : Forall is_digit ds -> 1 <= zlen ds -> mval 0 (rev ds) < 2 ^ 127 -> 0 <= scale ->
  int128_digits (if scale <=? 0 then rev ds
   else if zlen ds - scale <=? 0 then [ch_0; ch_dot] ++ replicate (Z.to_nat (- (zlen ds - scale))) ch_0 ++ rev ds
        else rev (drop (Z.to_nat scale) ds) ++ [ch_dot] ++ rev (take (Z.to_nat scale) ds)) false 0 0 = Some (mval 0 (rev ds), scale).
Proof.
  intros Hd H1' Hm Hs. assert (Hr : forall l, Forall is_digit l -> Forall is_digit (rev l)) by (intros l; apply Forall_rev).
  destruct (Z.leb_spec scale 0).
  - assert (scale = 0) as -> by lia. pose proof (digits_run (rev ds) [] false 0 0 (Hr ds Hd) ltac:(lia) Hm) as E. by rewrite app_nil_r in E.
  - destruct (Z.leb_spec (zlen ds - scale) 0) as [Hle|Hgt].
    + transitivity (int128_digits (replicate (Z.to_nat (- (zlen ds - scale))) ch_0 ++ rev ds) true 0 0); [reflexivity|].
      rewrite (digits_run (replicate (Z.to_nat (- (zlen ds - scale))) ch_0)).
      * rewrite mval_zeros. pose proof (digits_run (rev ds) [] true (0 + zlen (replicate (Z.to_nat (- (zlen ds - scale))) ch_0)) 0 (Hr ds Hd) ltac:(lia) Hm) as E.
        rewrite app_nil_r in E. rewrite E. cbn [int128_digits]. do 2 f_equal. unfold zlen in *. rewrite length_replicate, length_rev. lia.
      * apply Forall_replicate. unfold is_digit, ch_0, ch_9. lia.
      * lia.
      * rewrite mval_zeros. lia.
    + assert (Hsp : rev ds = rev (drop (Z.to_nat scale) ds) ++ rev (take (Z.to_nat scale) ds)) by (rewrite <- rev_app_distr, take_drop; done).
      rewrite Hsp, mval_app in Hm. set (hi := rev (drop (Z.to_nat scale) ds)) in *. set (lo := rev (take (Z.to_nat scale) ds)) in *.
      assert (Hhi : Forall is_digit hi) by (by apply Hr, Forall_drop). assert (Hlo : Forall is_digit lo) by (by apply Hr, Forall_take).
      assert (H0 : 0 <= mval 0 hi) by (by apply mval_ge). pose proof (mval_ge lo _ H0 Hlo).
      rewrite digits_run by (done || lia). cbn [app int128_digits]. change (ch_dot =? ch_dot) with true. cbn iota.
      pose proof (digits_run lo [] true (0 + 0) (mval 0 hi) Hlo H0 Hm) as E. rewrite app_nil_r in E. rewrite E. cbn [int128_digits].
      rewrite Hsp, mval_app. do 2 f_equal. unfold lo, zlen. rewrite length_rev, length_take. unfold zlen in *. lia.
Qed.

Lemma decimal_text_back v scale : - 2 ^ 127 < v < 2 ^ 127 -> 0 <= scale -> text_to_int128 (decimal_text v scale) scale = Some v.
Proof.
  intros Hv Hs. unfold decimal_text. destruct (digits_spec (Z.abs v) ltac:(lia)) as (D1 & D2 & D3). set (ds := digits_of (Z.abs v)) in *.
  pose proof (body_digits ds scale D1 ltac:(lia) ltac:(lia) Hs) as E. rewrite D2 in E.
  assert (Hd : forall l, Forall is_digit l -> Forall (fun c => is_digit c \/ c = ch_dot) (rev l)).
  { intros l Hl. apply Forall_rev. eapply list.Forall_impl; [exact Hl|]. by left. }
  assert (Hz : is_digit ch_0) by (unfold is_digit, ch_0, ch_9; lia).
  rewrite text_sign; [rewrite E| |].
  - cbv zeta. rewrite Z.sub_diag. change (Z.to_nat 0) with 0%nat. cbn [times]. destruct (Z.ltb_spec v 0); [rewrite s128_small by lia|]; f_equal; lia.
  - destruct (scale <=? 0); [|destruct (_ <=? 0); [done|]]; intros En.
    + apply (f_equal length) in En. rewrite length_rev in En. unfold zlen in D3. cbn in En. lia.
    + apply app_eq_nil in En as [_ En]. done.
  - destruct (scale <=? 0); [by apply Hd|]. destruct (_ <=? 0).
    + constructor; [by left|]. constructor; [by right|]. apply Forall_app_2; [apply Forall_replicate; by left|by apply Hd].
    + apply Forall_app_2; [apply Hd; by apply Forall_drop|]. constructor; [by right|]. apply Hd. by apply Forall_take.
Qed.

(** The converter's buffers, 40 digits and 64 characters with the final zero, are
    never exceeded. *)
Lemma decimal_text_fits v scale : - 2 ^ 127 <= v < 2 ^ 127 -> 0 <= scale <= 38 -> zlen (digits_of (Z.abs v)) <= 40 /\ zlen (decimal_text v scale) + 1 <= 64.
Proof.
  intros Hv Hs. unfold decimal_text.
  assert (Hl : zlen (digits_of (Z.abs v)) <= 39).
  { unfold digits_of. destruct (_ =? 0); [done|].
    destruct (digit_loop_spec 39 (Z.abs v)) as (_ & _ & _ & D4); [change (10 ^ Z.of_nat 39) with 1000000000000000000000000000000000000000; lia|]. lia. }
  set (ds := digits_of (Z.abs v)) in *. split; [lia|]. rewrite zlen_app. assert (zlen (if v <? 0 then [ch_minus] else []) <= 1) by (by destruct (_ <? 0)).
  destruct (scale <=? 0); [unfold zlen in *; rewrite length_rev; lia|]. destruct (Z.leb_spec (zlen ds - scale) 0).
  - unfold zlen in *. rewrite !length_app, length_replicate, length_rev. cbn [length]. lia.
  - unfold zlen in *. rewrite !length_app, !length_rev, length_take, length_drop. cbn [length]. lia.
Qed.

Lemma be_mag_rev l : bytes_ok l -> zlen l <= 16 -> be_mag (rev l) = le_uint l.
Proof.
  intros Hb Hl. induction l as [|b l IH]; [done|]. apply Forall_cons_1 in Hb as [Hb0 Hb]. rewrite zlen_cons in Hl. unfold be_mag in *. cbn [rev].
  rewrite foldl_app. cbn [foldl]. rewrite IH by (done || lia). cbn [le_uint]. pose proof (le_uint_bound l Hb).
  assert (2 ^ (8 * zlen l) <= 2 ^ 120) by (apply Z.pow_le_mono_r; lia). rewrite Z.shiftl_mul_pow2 by lia. rewrite Z.mod_small by lia.
  unfold byte_ok in Hb0. rewrite Z.lor_comm, lor_add by lia. lia.
Qed.

Lemma be_value_16 v : - 2 ^ 127 <= v < 2 ^ 127 -> be_value (rev (le_bytes 16 v)) = v.
Proof.
  intros Hv. unfold be_value. assert (El : zlen (rev (le_bytes 16 v)) = 16) by (unfold zlen; by rewrite length_rev, length_le_bytes).
  rewrite El. cbn [Z.eqb Pos.eqb]. rewrite be_mag_rev by (apply le_bytes_ok || by rewrite zlen_le_bytes). rewrite le_uint_le_bytes.
  change (8 * Z.of_nat 16) with 128. unfold s128. rewrite Zplus_mod_idemp_l, Z.mod_small; lia.
Qed.

(** ** A value written and read *)

Section Roundtrip.
Context `{T : PgTypes}.

(** What PostgreSQL documents of [numeric]: the text form reads back, and any other
    text gives a number or an error. *)
Class PgTypesLaws : Prop := {
  numeric_in_out : forall n, numeric_in (numeric_out n) = Ok n;
  numeric_in_ends : forall s, safe (fun _ => True) (numeric_in s)
}.

Definition text_valid (bs : list Z) : Prop :=
  forallb (fun b => negb (b =? 0) && (b <? 128)) bs = true \/ pg_encoding_verifymbstr bs = zlen bs.

(** A value of the leaf's type that Parquet can hold. *)
Definition value_ok (c : PqLeaf) (d : datum) : Prop :=
  match kind c, d with
  | P_INT16, DInt v => - 2 ^ 15 <= v < 2 ^ 15
  | P_INT32, DInt v => - 2 ^ 31 <= v < 2 ^ 31
  | P_INT64, DInt v => - 2 ^ 63 <= v < 2 ^ 63
  | P_FLOAT, DFloat4 b => 0 <= b < 2 ^ 32
  | P_DOUBLE, DFloat8 b => 0 <= b < 2 ^ 64
  | P_BOOL, DBool _ => True
  | P_DATE, DInt v => IS_VALID_DATE v = true
  | P_TIME, DInt v => 0 <= v <= USECS_PER_DAY
  | P_TIMESTAMP, DInt v => IS_VALID_TIMESTAMP v = true /\ v + PG_TO_UNIX_USECS <= PG_INT64_MAX
  | P_UUID, DBytes bs => bytes_ok bs /\ zlen bs = 16
  | P_DECIMAL, DNumeric n => 0 <= scale c <= 38 /\ exists v, numeric_out n = decimal_text v (scale c) /\ - 10 ^ 38 < v < 10 ^ 38
  | P_UTF8, DBytes bs => convertText c = false /\ bytes_ok bs /\ zlen bs + VARHDRSZ <= MaxAllocSize /\ text_valid bs
  | P_UTF8, DNumeric n => convertText c = true /\ bytes_ok (numeric_out n)
  | P_UTF8, DJsonb j => convertText c = true /\ bytes_ok (jsonb_out j)
  | P_BINARY, DBytes bs => convertText c = false /\ bytes_ok bs /\ zlen bs + VARHDRSZ <= MaxAllocSize
  | _, _ => False
  end.

(** The bytes of a value that is not a boolean. *)
Definition plain_bytes (c : PqLeaf) (d : datum) : list Z :=
  match kind c, d with
  | (P_INT16 | P_INT32), DInt v => le_bytes 4 v
  | (P_INT64 | P_TIME), DInt v => le_bytes 8 v
  | P_FLOAT, DFloat4 b => le_bytes 4 b
  | P_DOUBLE, DFloat8 b => le_bytes 8 b
  | P_DATE, DInt v => le_bytes 4 (v + PG_TO_UNIX_DAYS)
  | P_TIMESTAMP, DInt v => le_bytes 8 (v + PG_TO_UNIX_USECS)
  | P_UUID, DBytes bs => bs
  | P_DECIMAL, DNumeric n => match text_to_int128 (numeric_out n) (scale c) with Some v => rev (le_bytes 16 v) | None => [] end
  | (P_UTF8 | P_BINARY), DBytes bs => le_bytes 4 (zlen bs) ++ bs
  | P_UTF8, DNumeric n => le_bytes 4 (zlen (numeric_out n)) ++ numeric_out n
  | P_UTF8, DJsonb j => le_bytes 4 (zlen (jsonb_out j)) ++ jsonb_out j
  | _, _ => []
  end.

Lemma le4_back v : - 2 ^ 31 <= v < 2 ^ 31 -> s32 (le_uint (le_bytes 4 v)) = v.
Proof. intros Hv. rewrite le_uint_le_bytes. change (8 * Z.of_nat 4) with 32. unfold s32. rewrite Zplus_mod_idemp_l, Z.mod_small; lia. Qed.

Lemma le8_back v : - 2 ^ 63 <= v < 2 ^ 63 -> s64 (le_uint (le_bytes 8 v)) = v.
Proof. intros Hv. rewrite le_uint_le_bytes. change (8 * Z.of_nat 8) with 64. unfold s64. rewrite Zplus_mod_idemp_l, Z.mod_small; lia. Qed.

Lemma rd_here pre bs post n : n = zlen bs -> (zlen (pre ++ bs ++ post) <? zlen pre + n) = false /\ rd (pre ++ bs ++ post) (zlen pre) n = Ok bs.
Proof.
  intros ->. split; [|apply rd_middle]. apply Z.ltb_ge. rewrite !zlen_app. pose proof (zlen_nonneg post). lia.
Qed.

Lemma text_cell_valid bs strict : text_valid bs -> pq_text_cell_ok bs strict = Ok true.
Proof. intros Hv. unfold pq_text_cell_ok. destruct (forallb _ _) eqn:E; [done|]. destruct Hv as [Hv|Hv]; [congruence|]. by rewrite Hv, Z.eqb_refl. Qed.

Section Read.
Context (pre post : list Z).

(** Reading the value at its place, by physical type. *)
Lemma read_int32 plan v : - 2 ^ 31 <= v < 2 ^ 31 -> pl_expect_phys plan = PQ_INT32 ->
  plain_value_to_datum plan (pre ++ le_bytes 4 v ++ post) (zlen pre) true = int32_to_datum plan v (zlen pre + zlen (le_bytes 4 v)) true.
Proof.
  intros Hv Hp. unfold plain_value_to_datum. rewrite Hp. cbv zeta. change (PQ_INT32 =? PQ_INT32) with true. cbv iota.
  destruct (rd_here pre (le_bytes 4 v) post 4 eq_refl) as [-> ->]. by rewrite bind_Ok, le4_back.
Qed.

Lemma read_int64 plan v : - 2 ^ 63 <= v < 2 ^ 63 -> pl_expect_phys plan = PQ_INT64 ->
  plain_value_to_datum plan (pre ++ le_bytes 8 v ++ post) (zlen pre) true = int64_to_datum plan v (zlen pre + zlen (le_bytes 8 v)) true.
Proof.
  intros Hv Hp. unfold plain_value_to_datum. rewrite Hp. cbv zeta. change (PQ_INT64 =? PQ_INT32) with false. change (PQ_INT64 =? PQ_INT64) with true. cbv iota.
  destruct (rd_here pre (le_bytes 8 v) post 8 eq_refl) as [-> ->]. by rewrite bind_Ok, le8_back.
Qed.

Lemma read_float plan v : 0 <= v < 2 ^ 32 -> pl_expect_phys plan = PQ_FLOAT -> pl_typid plan = FLOAT4OID ->
  plain_value_to_datum plan (pre ++ le_bytes 4 v ++ post) (zlen pre) true = Ok (Some (DFloat4 v, zlen pre + zlen (le_bytes 4 v))).
Proof.
  intros Hv Hp Ht. unfold plain_value_to_datum. rewrite Hp, Ht. cbv zeta. change (PQ_FLOAT =? PQ_INT32) with false. change (PQ_FLOAT =? PQ_INT64) with false.
  change (PQ_FLOAT =? PQ_INT96) with false. change (PQ_FLOAT =? PQ_FLOAT) with true. cbv iota.
  destruct (rd_here pre (le_bytes 4 v) post 4 eq_refl) as [-> ->]. rewrite bind_Ok. change (FLOAT4OID =? FLOAT8OID) with false. cbv iota.
  by rewrite le_uint_le_bytes_id by (cbn; lia).
Qed.

Lemma read_double plan v : 0 <= v < 2 ^ 64 -> pl_expect_phys plan = PQ_DOUBLE ->
  plain_value_to_datum plan (pre ++ le_bytes 8 v ++ post) (zlen pre) true = Ok (Some (DFloat8 v, zlen pre + zlen (le_bytes 8 v))).
Proof.
  intros Hv Hp. unfold plain_value_to_datum. rewrite Hp. cbv zeta. change (PQ_DOUBLE =? PQ_INT32) with false. change (PQ_DOUBLE =? PQ_INT64) with false.
  change (PQ_DOUBLE =? PQ_INT96) with false. change (PQ_DOUBLE =? PQ_FLOAT) with false. change (PQ_DOUBLE =? PQ_DOUBLE) with true. cbv iota.
  destruct (rd_here pre (le_bytes 8 v) post 8 eq_refl) as [-> ->]. rewrite bind_Ok. by rewrite le_uint_le_bytes_id by (cbn; lia).
Qed.

Lemma read_bytes plan bs : bytes_ok bs -> zlen bs + VARHDRSZ <= MaxAllocSize -> pl_expect_phys plan = PQ_BYTE_ARRAY -> pl_is_decimal plan = false ->
  (pl_typid plan = BYTEAOID \/ text_valid bs) ->
  plain_value_to_datum plan (pre ++ (le_bytes 4 (zlen bs) ++ bs) ++ post) (zlen pre) true =
  Ok (Some (DBytes bs, zlen pre + zlen (le_bytes 4 (zlen bs) ++ bs))).
Proof.
  intros Hb Hl Hp Hd Ht. unfold MaxAllocSize, VARHDRSZ in Hl. pose proof (zlen_nonneg bs). unfold plain_value_to_datum. rewrite Hp, Hd. cbv zeta.
  change (PQ_BYTE_ARRAY =? PQ_INT32) with false. change (PQ_BYTE_ARRAY =? PQ_INT64) with false. change (PQ_BYTE_ARRAY =? PQ_INT96) with false.
  change (PQ_BYTE_ARRAY =? PQ_FLOAT) with false. change (PQ_BYTE_ARRAY =? PQ_DOUBLE) with false. change (PQ_BYTE_ARRAY =? PQ_BYTE_ARRAY) with true. cbv iota.
  rewrite <- app_assoc. destruct (rd_here pre (le_bytes 4 (zlen bs)) (bs ++ post) 4 eq_refl) as [-> ->]. rewrite bind_Ok.
  rewrite le_uint_le_bytes_id by (cbn; lia). replace (zlen pre + 4) with (zlen (pre ++ le_bytes 4 (zlen bs))) by (by rewrite zlen_app, zlen_le_bytes).
  rewrite app_assoc. destruct (rd_here (pre ++ le_bytes 4 (zlen bs)) bs post (zlen bs) eq_refl) as [-> ->]. rewrite bind_Ok.
  unfold make_varlena, MaxAllocSize, VARHDRSZ. rewrite (proj2 (Z.ltb_ge _ _)) by lia. rewrite !zlen_app.
  destruct (Z.eqb_spec (pl_typid plan) BYTEAOID); [|destruct Ht as [|Ht]; [done|]; rewrite text_cell_valid by done]; rewrite !bind_Ok; do 3 f_equal; lia.
Qed.

(** A fixed-length value. *)
Lemma read_fixed plan bs : 0 < zlen bs -> pl_expect_phys plan = PQ_FIXED_LEN_BYTE_ARRAY -> pl_type_length plan = zlen bs ->
  plain_value_to_datum plan (pre ++ bs ++ post) (zlen pre) true =
    if pl_is_decimal plan then to_numeric (pq_decimal_to_numeric bs (pl_dec_scale plan)) (zlen pre + zlen bs)
    else if pl_typid plan =? UUIDOID then (if zlen bs =? UUID_LEN then Ok (Some (DBytes bs, zlen pre + zlen bs)) else Ok None)
    else d ← make_varlena bs; Ok (Some (d, zlen pre + zlen bs)).
Proof.
  intros Hl Hp Ht. unfold plain_value_to_datum. rewrite Hp, Ht. cbv zeta.
  change (PQ_FIXED_LEN_BYTE_ARRAY =? PQ_INT32) with false. change (PQ_FIXED_LEN_BYTE_ARRAY =? PQ_INT64) with false.
  change (PQ_FIXED_LEN_BYTE_ARRAY =? PQ_INT96) with false. change (PQ_FIXED_LEN_BYTE_ARRAY =? PQ_FLOAT) with false.
  change (PQ_FIXED_LEN_BYTE_ARRAY =? PQ_DOUBLE) with false. change (PQ_FIXED_LEN_BYTE_ARRAY =? PQ_BYTE_ARRAY) with false.
  change (PQ_FIXED_LEN_BYTE_ARRAY =? PQ_FIXED_LEN_BYTE_ARRAY) with true. cbv iota.
  destruct (rd_here pre bs post (zlen bs) eq_refl) as [-> ->]. rewrite (proj2 (Z.leb_gt _ _)) by lia. done.
Qed.
End Read.

(** The plan a leaf's own schema column binds to. *)
Definition leaf_plan (typid : Z) (c : PqLeaf) (name : list Z) (rep : Z) : PqColPlan :=
  pq_plan_bind_schema typid (ptype c) (schema_of_leaf c name rep).

(** The integer read back, by target type. *)
Lemma date_back plan v p : pl_typid plan = DATEOID -> pl_is_decimal plan = false -> pl_is_unsigned plan = false -> IS_VALID_DATE v = true ->
  int32_to_datum plan (v + PG_TO_UNIX_DAYS) p true = Ok (Some (DInt v, p)).
Proof.
  intros Ht Hd Hu Hv. unfold int32_to_datum. rewrite Ht, Hd, Hu. cbn [andb]. change (DATEOID =? INT2OID) with false. change (DATEOID =? TIMEOID) with false.
  change (DATEOID =? DATEOID) with true. cbv iota zeta. rewrite Z.add_simpl_r, Hv. unfold IS_VALID_DATE, POSTGRES_EPOCH_JDATE, DATE_END_JULIAN in Hv.
  apply andb_true_iff in Hv as [Hv1%Z.leb_le Hv2%Z.ltb_lt]. unfold PG_INT32_MIN, PG_INT32_MAX. rewrite !(proj2 (Z.ltb_ge _ _)) by lia. done.
Qed.

Lemma timestamp_back plan v p : pl_typid plan = TIMESTAMPOID \/ pl_typid plan = TIMESTAMPTZOID -> pl_is_decimal plan = false -> pl_is_unsigned plan = false ->
  pl_time_unit plan = PQ_TU_MICROS -> pl_ts_shift plan = PQ_TS_NONE -> IS_VALID_TIMESTAMP v = true ->
  int64_to_datum plan (v + PG_TO_UNIX_USECS) p true = Ok (Some (DInt v, p)).
Proof.
  intros Ht Hd Hu Hm Hs Hv. unfold int64_to_datum, shifted_timestamp. rewrite Hd, Hu, Hm, Hs. cbn [andb]. cbv zeta.
  replace ((pl_typid plan =? TIMESTAMPOID) || (pl_typid plan =? TIMESTAMPTZOID)) with true by (destruct Ht as [-> | ->]; done).
  change (pq_scale_to_usecs PQ_TU_MICROS (v + PG_TO_UNIX_USECS)) with (Some (v + PG_TO_UNIX_USECS)). cbv iota. rewrite Z.add_simpl_r, Hv.
  unfold IS_VALID_TIMESTAMP, MIN_TIMESTAMP, END_TIMESTAMP in Hv. apply andb_true_iff in Hv as [Hv1%Z.leb_le Hv2%Z.ltb_lt].
  unfold PG_INT64_MIN, PG_INT64_MAX. rewrite !(proj2 (Z.ltb_ge _ _)) by lia. done.
Qed.

Lemma time_back plan v p : pl_typid plan = TIMEOID -> pl_is_decimal plan = false -> pl_is_unsigned plan = false -> pl_time_unit plan = PQ_TU_MICROS ->
  0 <= v <= USECS_PER_DAY -> int64_to_datum plan v p true = Ok (Some (DInt v, p)).
Proof.
  intros Ht Hd Hu Hm Hv. unfold int64_to_datum. rewrite Ht, Hd, Hu, Hm. cbn [andb]. change (TIMEOID =? TIMESTAMPOID) with false.
  change (TIMEOID =? TIMESTAMPTZOID) with false. change (TIMEOID =? TIMEOID) with true. cbn [orb]. cbv iota zeta.
  change (pq_scale_to_usecs PQ_TU_MICROS v) with (Some v). cbv iota. rewrite !(proj2 (Z.ltb_ge _ _)) by lia. done.
Qed.

Lemma int16_back plan v p : pl_typid plan = INT2OID -> pl_is_decimal plan = false -> pl_is_unsigned plan = false -> - 2 ^ 15 <= v < 2 ^ 15 ->
  int32_to_datum plan v p true = Ok (Some (DInt v, p)).
Proof.
  intros Ht Hd Hu Hv. unfold int32_to_datum. rewrite Ht, Hd, Hu. cbn [andb]. change (INT2OID =? INT2OID) with true. cbv iota zeta.
  rewrite !(proj2 (Z.ltb_ge _ _)) by lia. done.
Qed.

Lemma decimal_back `{!PgTypesLaws} n v s p : 0 <= s <= 38 -> numeric_out n = decimal_text v s -> - 10 ^ 38 < v < 10 ^ 38 ->
  to_numeric (pq_decimal_to_numeric (rev (le_bytes 16 v)) s) p = Ok (Some (DNumeric n, p)).
Proof.
  intros Hs Hn Hv. change (10 ^ 38) with 100000000000000000000000000000000000000 in Hv. unfold pq_decimal_to_numeric, to_numeric.
  assert (El : zlen (rev (le_bytes 16 v)) = 16) by (unfold zlen; by rewrite length_rev, length_le_bytes). rewrite El. cbv zeta.
  change ((16 <? 1) || (16 <? 16)) with false. rewrite !(proj2 (Z.ltb_ge _ _)) by lia. cbn [orb]. rewrite be_value_16 by lia. rewrite <- Hn, numeric_in_out. done.
Qed.

Lemma read_value `{!PgTypesLaws} typid typmod md mr path c d name rep pre post :
  exportable typid -> - 1 <= typmod < 2 ^ 31 -> reimportable typid typmod = true -> build_leaf_scalar typid typmod md mr path = Some c ->
  value_ok c d -> kind c <> P_BOOL ->
  plain_value_to_datum (leaf_plan typid c name rep) (pre ++ plain_bytes c d ++ post) (zlen pre) true =
  Ok (Some (d, zlen pre + zlen (plain_bytes c d))).
Proof.
  intros He Hm Hr Hb Hv Hk. apply list_elem_of_In in He. cbn [In] in He.
  repeat (destruct He as [<-|He]); [..|done];
    try (injection Hb as <-; unfold value_ok, plain_bytes in *; cbn [kind convertText scale] in *; destruct d; try done; try (by destruct Hv)).
  - rewrite read_int32 by (done || lia). by rewrite int16_back.
  - by rewrite read_int32 by (done || lia).
  - by rewrite read_int64 by (done || lia).
  - by rewrite read_float.
  - by rewrite read_double.
  - destruct Hv as (_ & ? & ? & ?). apply read_bytes; auto.
  - destruct Hv as (_ & ? & ? & ?). apply read_bytes; auto.
  - destruct Hv as (_ & ? & ?). apply read_bytes; auto.
  - assert (Hd := Hv). unfold IS_VALID_DATE, POSTGRES_EPOCH_JDATE, DATE_END_JULIAN in Hd. apply andb_true_iff in Hd as [Hd1%Z.leb_le Hd2%Z.ltb_lt].
    rewrite read_int32 by (done || (unfold PG_TO_UNIX_DAYS, POSTGRES_EPOCH_JDATE, UNIX_EPOCH_JDATE; lia)). by rewrite date_back.
  - unfold USECS_PER_DAY in Hv. rewrite read_int64 by (done || lia). rewrite time_back; done.
  - destruct Hv as [Hv Hv']. assert (Hd := Hv). unfold IS_VALID_TIMESTAMP, MIN_TIMESTAMP, END_TIMESTAMP in Hd. apply andb_true_iff in Hd as [Hd1%Z.leb_le Hd2%Z.ltb_lt].
    unfold PG_TO_UNIX_USECS, PG_TO_UNIX_DAYS, POSTGRES_EPOCH_JDATE, UNIX_EPOCH_JDATE, USECS_PER_DAY, PG_INT64_MAX in Hv'.
    rewrite read_int64 by (done || (unfold PG_TO_UNIX_USECS, PG_TO_UNIX_DAYS, POSTGRES_EPOCH_JDATE, UNIX_EPOCH_JDATE, USECS_PER_DAY; lia)).
    rewrite timestamp_back; auto.
  - destruct Hv as [Hv Hv']. assert (Hd := Hv). unfold IS_VALID_TIMESTAMP, MIN_TIMESTAMP, END_TIMESTAMP in Hd. apply andb_true_iff in Hd as [Hd1%Z.leb_le Hd2%Z.ltb_lt].
    unfold PG_TO_UNIX_USECS, PG_TO_UNIX_DAYS, POSTGRES_EPOCH_JDATE, UNIX_EPOCH_JDATE, USECS_PER_DAY, PG_INT64_MAX in Hv'.
    rewrite read_int64 by (done || (unfold PG_TO_UNIX_USECS, PG_TO_UNIX_DAYS, POSTGRES_EPOCH_JDATE, UNIX_EPOCH_JDATE, USECS_PER_DAY; lia)).
    rewrite timestamp_back; auto.
  - destruct Hv as [Hv1 Hv2]. rewrite read_fixed by (done || lia). change (pl_is_decimal _) with false. change (pl_typid _ =? UUIDOID) with true. by rewrite Hv2.
  - unfold build_leaf_scalar in Hb. unfold reimportable in Hr. destruct (numeric_kind typmod Hm) as [E|(p & s & E & Hp & Hs & ->)]; rewrite E in Hb, Hr; [done|].
    injection Hb as <-. unfold value_ok, plain_bytes in *. cbn [kind scale] in *. destruct d; try done. destruct Hv as (Hs' & v & Hn & Hv).
    change (10 ^ 38) with 100000000000000000000000000000000000000 in Hv. rewrite Hn, decimal_text_back by lia.
    rewrite read_fixed; [|unfold zlen; rewrite length_rev, length_le_bytes; lia|done|unfold zlen; by rewrite length_rev, length_le_bytes].
    change (pl_is_decimal _) with true. cbv iota. by apply decimal_back.
Qed.

(** ** Entries of a leaf *)

(** A value Parquet cannot hold: an infinity, or a number that is none. *)
Definition unrepresentable (c : PqLeaf) (d : datum) : bool :=
  match kind c, d with
  | P_DATE, DInt v => DATE_NOT_FINITE v
  | P_TIMESTAMP, DInt v => TIMESTAMP_NOT_FINITE v
  | P_DECIMAL, DNumeric n => match text_to_int128 (numeric_out n) (scale c) with Some _ => false | None => true end
  | _, _ => false
  end.

(** A datum of the leaf's type. *)
Definition datum_ok (c : PqLeaf) (d : datum) : Prop := value_ok c d \/ unrepresentable c d = true.

Definition bool_bytes (c : PqLeaf) (d : datum) : list Z :=
  match kind c, d with P_BOOL, DBool b => [if b then 1 else 0] | _, _ => [] end.

Definition value_stats (c : PqLeaf) (s : PqStats) (d : datum) : PqStats :=
  match kind c, d with
  | (P_INT16 | P_INT32 | P_INT64 | P_TIME), DInt v => pqstats_int s v
  | P_DATE, DInt v => pqstats_int s (s32 (v + PG_TO_UNIX_DAYS))
  | P_TIMESTAMP, DInt v => pqstats_int s (s64 (v + PG_TO_UNIX_USECS))
  | P_FLOAT, DFloat4 b => pqstats_float s (d_load 4 (le_bytes 4 b))
  | P_DOUBLE, DFloat8 b => pqstats_float s (d_load 8 (le_bytes 8 b))
  | _, _ => s
  end.

(** What is left of an optional value, and the level it is stored at. *)
Definition kept (c : PqLeaf) (o : option datum) : option datum :=
  match o with Some d => if unrepresentable c d then None else Some d | None => None end.
Definition kept_def (c : PqLeaf) (def : Z) (o : option datum) : Z :=
  match o with Some d => if unrepresentable c d then max_def c - 1 else def | None => def end.

(** The leaf with one entry more. *)
Definition leaf_put (c : PqLeaf) (def rep : Z) (o : option datum) : PqLeaf :=
  with_data c (defs c ++ [kept_def c def o]) (if 0 <? max_rep c then reps c ++ [rep] else reps c)
    (match kept c o with Some d => values c ++ plain_bytes c d | None => values c end)
    (match kept c o with Some d => boolbits c ++ bool_bytes c d | None => boolbits c end)
    (nEntries c + 1)
    (match kept c o with Some d => value_stats c (st c) d | None => pqstats_null (st c) end).

(** The buffers of a leaf stay below the limit of an allocation. *)
Definition leaf_fits (c : PqLeaf) : Prop :=
  zlen (defs c) < MaxAllocSize /\ zlen (reps c) < MaxAllocSize /\ zlen (values c) < MaxAllocSize /\ zlen (boolbits c) < MaxAllocSize.

Lemma value_representable c d : value_ok c d -> unrepresentable c d = false.
Proof.
  unfold value_ok, unrepresentable. destruct (kind c), d; try done.
  - unfold IS_VALID_DATE, DATE_NOT_FINITE, PG_INT32_MIN, PG_INT32_MAX, POSTGRES_EPOCH_JDATE, DATE_END_JULIAN. intros [H1%Z.leb_le H2%Z.ltb_lt]%andb_true_iff.
    rewrite !(proj2 (Z.eqb_neq _ _)) by lia. done.
  - unfold IS_VALID_TIMESTAMP, TIMESTAMP_NOT_FINITE, PG_INT64_MIN, PG_INT64_MAX, MIN_TIMESTAMP, END_TIMESTAMP. intros [[H1%Z.leb_le H2%Z.ltb_lt]%andb_true_iff _].
    rewrite !(proj2 (Z.eqb_neq _ _)) by lia. done.
  - change (10 ^ 38) with 100000000000000000000000000000000000000. intros (Hs & v & -> & Hv). by rewrite decimal_text_back by lia.
Qed.

Lemma put_value_Ok c bs s : zlen (values c ++ bs) < MaxAllocSize ->
  put_value c bs s = Ok (with_data c (defs c) (reps c) (values c ++ bs) (boolbits c) (nEntries c) s).
Proof. intros Hl. unfold put_value. rewrite append_Ok by (by rewrite <- zlen_app). done. Qed.

Lemma put_sized_Ok c bs : zlen (values c ++ le_bytes 4 (zlen bs) ++ bs) < MaxAllocSize ->
  put_sized c bs = Ok (with_data c (defs c) (reps c) (values c ++ le_bytes 4 (zlen bs) ++ bs) (boolbits c) (nEntries c) (st c)).
Proof.
  intros Hl. unfold put_sized. pose proof (zlen_nonneg bs). rewrite !zlen_app in Hl. rewrite put_value_Ok by (rewrite zlen_app; lia). rewrite bind_Ok.
  rewrite put_value_Ok by (cbn [values with_data]; rewrite !zlen_app; lia). cbn [values with_data]. by rewrite <- app_assoc.
Qed.

Lemma s32_date v : IS_VALID_DATE v = true -> s32 (v + PG_TO_UNIX_DAYS) = v + PG_TO_UNIX_DAYS.
Proof.
  unfold IS_VALID_DATE, POSTGRES_EPOCH_JDATE, DATE_END_JULIAN. intros [H1%Z.leb_le H2%Z.ltb_lt]%andb_true_iff.
  unfold s32, PG_TO_UNIX_DAYS, POSTGRES_EPOCH_JDATE, UNIX_EPOCH_JDATE. rewrite Z.mod_small; lia.
Qed.

Lemma s64_timestamp v : IS_VALID_TIMESTAMP v = true -> v + PG_TO_UNIX_USECS <= PG_INT64_MAX -> s64 (v + PG_TO_UNIX_USECS) = v + PG_TO_UNIX_USECS.
Proof.
  unfold IS_VALID_TIMESTAMP, MIN_TIMESTAMP, END_TIMESTAMP. intros [H1%Z.leb_le H2%Z.ltb_lt]%andb_true_iff.
  unfold s64, PG_INT64_MAX, PG_TO_UNIX_USECS, PG_TO_UNIX_DAYS, POSTGRES_EPOCH_JDATE, UNIX_EPOCH_JDATE, USECS_PER_DAY. intros H3. rewrite Z.mod_small; lia.
Qed.

(** A value of the leaf's type is written whole. *)
Lemma write_value c d : value_ok c d -> zlen (values c ++ plain_bytes c d) < MaxAllocSize -> zlen (boolbits c ++ bool_bytes c d) < MaxAllocSize ->
  exists dec, leaf_value_representable c d = Ok (true, dec) /\
    write_leaf_value c d dec = Ok (with_data c (defs c) (reps c) (values c ++ plain_bytes c d) (boolbits c ++ bool_bytes c d) (nEntries c) (value_stats c (st c) d)).
Proof.
  intros Hv. pose proof (value_representable c d Hv) as Hu.
  unfold value_ok, unrepresentable, plain_bytes, bool_bytes, value_stats, leaf_value_representable, write_leaf_value, numeric_to_int128 in *.
  destruct (kind c), d; try done; intros Hl Hl2; cbn [get_int get_float4 get_float8 get_bool get_bytes get_numeric] in *; rewrite ?bind_Ok, ?app_nil_r in *;
    try (eexists; split; [reflexivity|]; rewrite ?put_value_Ok by done; reflexivity).
  - eexists. split; [reflexivity|]. by rewrite append_Ok by (by rewrite <- zlen_app).
  - destruct Hv as (-> & _). eexists. split; [reflexivity|]. by rewrite put_sized_Ok.
  - destruct Hv as (-> & _). eexists. split; [reflexivity|]. cbn [OutputFunctionCall]. rewrite bind_Ok. by rewrite put_sized_Ok.
  - destruct Hv as (-> & _). eexists. split; [reflexivity|]. cbn [OutputFunctionCall]. rewrite bind_Ok. by rewrite put_sized_Ok.
  - destruct Hv as (-> & _). eexists. split; [reflexivity|]. by rewrite put_sized_Ok.
  - eexists. split; [by rewrite Hu|]. cbv zeta. rewrite s32_date by done. by rewrite put_value_Ok.
  - destruct Hv as [Hv Hv']. eexists. split; [by rewrite Hu|]. cbv zeta. rewrite s64_timestamp by done. by rewrite put_value_Ok.
  - destruct (text_to_int128 _ _) as [v|] eqn:E; [|done]. eexists. split; [done|]. by rewrite put_value_Ok.
Qed.

Lemma leaf_entry_spec c def rep o : match o with Some d => datum_ok c d | None => True end -> 0 <= def < 256 -> 0 <= rep < 256 -> 1 <= max_def c <= 255 ->
  leaf_fits (leaf_put c def rep o) -> leaf_entry c def rep o = Ok (leaf_put c def rep o).
Proof.
  intros Ho Hd Hr Hmd (F1 & F2 & F3 & F4). unfold leaf_put in *. cbn [defs reps values boolbits with_data] in F1, F2, F3, F4.
  assert (Hu : u8 (kept_def c def o) = kept_def c def o)
    by (unfold u8; apply Z.mod_small; unfold kept_def; destruct o as [d|]; [destruct (unrepresentable c d)|]; lia).
  assert (Hreps' : (if 0 <? max_rep c then appendBinaryStringInfo (reps c) [u8 rep] else Ok (reps c)) =
    Ok (if 0 <? max_rep c then reps c ++ [rep] else reps c)).
  { destruct (0 <? max_rep c); [|done]. unfold u8. rewrite Z.mod_small by lia. by rewrite append_Ok by (by rewrite <- zlen_app). }
  rewrite zlen_app in F1.
  unfold leaf_entry. destruct o as [d|].
  - unfold kept, kept_def in *. destruct (unrepresentable c d) eqn:Eu.
    + assert (exists dec, leaf_value_representable c d = Ok (false, dec)) as [dec ->].
      { unfold unrepresentable in Eu. unfold leaf_value_representable, numeric_to_int128. destruct (kind c), d; try done; cbn [get_int get_numeric]; rewrite bind_Ok.
        - rewrite Eu. by eexists.
        - rewrite Eu. by eexists.
        - destruct (text_to_int128 _ _); [done|]. by eexists. }
      rewrite !bind_Ok. cbv iota beta. rewrite Hu. rewrite (append_Ok (defs c)), bind_Ok by done. rewrite Hreps', bind_Ok. done.
    + destruct Ho as [Ho|]; [|congruence].
      destruct (write_value (with_data c (defs c ++ [def]) (if 0 <? max_rep c then reps c ++ [rep] else reps c) (values c) (boolbits c) (nEntries c + 1) (st c)) d Ho F3 F4)
        as (dec & E1 & E2). change (leaf_value_representable (with_data _ _ _ _ _ _ _) d) with (leaf_value_representable c d) in E1. rewrite E1, !bind_Ok. cbv iota beta.
      rewrite Hu. rewrite (append_Ok (defs c)), bind_Ok by done. rewrite Hreps', bind_Ok. cbv zeta. exact E2.
  - rewrite bind_Ok. cbv iota beta. cbn [kept_def] in *. rewrite Hu. rewrite (append_Ok (defs c)), bind_Ok by done. rewrite Hreps', bind_Ok. done.
Qed.
End Roundtrip.

(** ** Order of floats *)

(** Sign class, exponent and mantissa: the lexicographic order of floats. *)
Definition sf_key (x : spec_float) : Z * Z * Z :=
  match x with
  | S754_infinity true => (-2, 0, 0)
  | S754_finite true m e => (-1, - e, - Zpos m)
  | S754_zero _ => (0, 0, 0)
  | S754_finite false m e => (1, e, Zpos m)
  | S754_infinity false => (2, 0, 0)
  | S754_nan => (3, 0, 0)
  end.

Definition key_lt (a b : Z * Z * Z) : Prop :=
  let '(s, e, m) := a in let '(s', e', m') := b in s < s' \/ s = s' /\ (e < e' \/ e = e' /\ m < m').

Lemma dlt_key x y : sf_isnan x = false -> sf_isnan y = false -> dlt x y = true <-> key_lt (sf_key x) (sf_key y).
Proof.
  destruct x as [sx|sx| |sx mx ex], y as [sy|sy| |sy my ey]; try done; intros _ _; unfold dlt; cbn [SFcompare]; try destruct sx; try destruct sy; cbn [sf_key key_lt];
    try (split; [done|lia]); try (split; [lia|done]); rewrite ?Pos.compare_cont_spec.
  - destruct (Z.compare_spec ex ey); [|split; [done|lia]|split; [lia|done]]. change (Pos.compare_cont Eq mx my) with (mx ?= my)%positive.
    destruct (Pos.compare_spec mx my); cbn; split; lia || done.
  - destruct (Z.compare_spec ex ey); [|split; [lia|done]|split; [done|lia]]. change (Pos.compare_cont Eq mx my) with (mx ?= my)%positive.
    destruct (Pos.compare_spec mx my); cbn; split; lia || done.
Qed.

(** ** Statistics *)

Section Statistics.
Context `{T : PgTypes}.

Definition leaf_puts (c : PqLeaf) (es : list (Z * Z * option datum)) : PqLeaf := foldl (fun c '(def, rep, o) => leaf_put c def rep o) c es.

(** The bounds are numbers. *)
Definition stats_ok (s : PqStats) : Prop := hasBounds s = true -> sf_isnan (fMin s) = false /\ sf_isnan (fMax s) = false.

Lemma dlt_false_trans x y z : sf_isnan x = false -> sf_isnan y = false -> sf_isnan z = false -> dlt x y = false -> dlt z y = true -> dlt x z = false.
Proof.
  intros Hx Hy Hz H1 H2. destruct (dlt x z) eqn:E; [|done]. apply (dlt_key x z Hx Hz) in E. apply (dlt_key z y Hz Hy) in H2. exfalso.
  assert (Hk : key_lt (sf_key x) (sf_key y)) by (destruct (sf_key x) as [[? ?] ?], (sf_key y) as [[? ?] ?], (sf_key z) as [[? ?] ?]; cbn in *; lia).
  apply (dlt_key x y Hx Hy) in Hk. congruence.
Qed.

Lemma dlt_irrefl x : dlt x x = false.
Proof.
  destruct (sf_isnan x) eqn:E; [by destruct x|]. destruct (dlt x x) eqn:Ed; [|done]. apply (dlt_key x x E E) in Ed.
  destruct (sf_key x) as [[? ?] ?]; cbn in Ed; lia.
Qed.

Lemma dlt_false_trans' x y z : sf_isnan x = false -> sf_isnan y = false -> sf_isnan z = false -> dlt y x = false -> dlt y z = true -> dlt z x = false.
Proof.
  intros Hx Hy Hz H1 H2. destruct (dlt z x) eqn:E; [|done]. apply (dlt_key z x Hz Hx) in E. apply (dlt_key y z Hy Hz) in H2. exfalso.
  assert (Hk : key_lt (sf_key y) (sf_key x)) by (destruct (sf_key x) as [[? ?] ?], (sf_key y) as [[? ?] ?], (sf_key z) as [[? ?] ?]; cbn in *; lia).
  apply (dlt_key y x Hy Hx) in Hk. congruence.
Qed.

(** Entries written one after the other. *)
Fixpoint put_entries (c : PqLeaf) (es : list (Z * Z * option datum)) : res PqLeaf :=
  match es with
  | [] => Ok c
  | (def, rep, o) :: es => c' ← leaf_entry c def rep o; put_entries c' es
  end.

(** The bytes of an integer or a float of a leaf. *)
Definition int_width (k : ParquetKind) : option nat :=
  match k with P_INT16 | P_INT32 | P_DATE => Some 4%nat | P_INT64 | P_TIME | P_TIMESTAMP => Some 8%nat | _ => None end.
Definition float_width (k : ParquetKind) : option nat := match k with P_FLOAT => Some 4%nat | P_DOUBLE => Some 8%nat | _ => None end.

Definition signed (w : nat) (v : Z) : Prop := - 2 ^ (8 * Z.of_nat w - 1) <= v < 2 ^ (8 * Z.of_nat w - 1).

(** A datum of an integer type has the bits of its type. *)
Definition datum_bits (c : PqLeaf) (d : datum) : Prop := match int_width (kind c), d with Some w, DInt v => signed w v | _, _ => True end.

(** The statistics of a leaf against the bytes of its values: as signed integers
    [vs], all within the bounds, which are two of them. *)
Record int_stats (w : nat) (s : PqStats) (bytes vs : list Z) : Prop := mkIntStats {
  is_bytes : bytes = concat (map (le_bytes w) vs);
  is_signed : Forall (signed w) vs;
  is_within : Forall (fun v => iMin s <= v <= iMax s) vs;
  is_tight : hasBounds s = true -> iMin s ∈ vs /\ iMax s ∈ vs;
  is_some : hasBounds s = false -> vs = []
}.

(** As floats [map (d_load w) xs]: numbers lie within the bounds, which are two of
    them, and the others are counted. *)
Record float_stats (w : nat) (s : PqStats) (bytes : list Z) (xs : list (list Z)) : Prop := mkFloatStats {
  fs_bytes : bytes = concat xs;
  fs_width : Forall (fun x => length x = w) xs;
  fs_within : Forall (fun x => sf_isnan x = false -> hasBounds s = true /\ dlt x (fMin s) = false /\ dlt (fMax s) x = false) (map (d_load (Z.of_nat w)) xs);
  fs_tight : hasBounds s = true -> fMin s ∈ map (d_load (Z.of_nat w)) xs /\ fMax s ∈ map (d_load (Z.of_nat w)) xs /\ stats_ok s;
  fs_nans : nans s = zlen (List.filter sf_isnan (map (d_load (Z.of_nat w)) xs))
}.

(** What the entries of a leaf leave of the values and statistics, besides the
    count of entries without a value. *)
Definition leaf_stats (c' : PqLeaf) (n : Z) : Prop :=
  match int_width (kind c'), float_width (kind c') with
  | Some w, _ => exists vs, int_stats w (st c') (values c') vs /\ nulls (st c') = n - zlen vs
  | None, Some w => exists xs, float_stats w (st c') (values c') xs /\ nulls (st c') = n - zlen xs
  | None, None => hasBounds (st c') = false
  end.

Lemma int_stats_add w s bytes vs v : int_stats w s bytes vs -> signed w v -> int_stats w (pqstats_int s v) (bytes ++ le_bytes w v) (vs ++ [v]).
Proof.
  intros [-> Hs Hw Ht Hn] Hv. assert (Hb : hasBounds (pqstats_int s v) = true) by (unfold pqstats_int; by destruct (negb _)). split.
  - rewrite map_app, concat_app. cbn [map concat]. by rewrite app_nil_r.
  - apply Forall_app_2; [done|constructor; [done|constructor]].
  - unfold pqstats_int. destruct (hasBounds s); cbn [negb iMin iMax]; [|rewrite Hn by done; repeat constructor; lia].
    apply Forall_app_2; [eapply Forall_weaken; [exact Hw|]; cbn; intros x Hx|constructor; [|constructor]]; destruct (Z.ltb_spec v (iMin s)), (Z.ltb_spec (iMax s) v); lia.
  - intros _. unfold pqstats_int. destruct (hasBounds s); cbn [negb iMin iMax]; rewrite !elem_of_app, !elem_of_cons; [|tauto]. destruct (Ht eq_refl). destruct (v <? iMin s), (iMax s <? v); tauto.
  - congruence.
Qed.

Lemma float_stats_add w s bytes xs b : float_stats w s bytes xs -> length b = w -> float_stats w (pqstats_float s (d_load (Z.of_nat w) b)) (bytes ++ b) (xs ++ [b]).
Proof.
  intros [-> Hw Hin Ht Hn] Hb. set (v := d_load (Z.of_nat w) b). assert (Em : map (d_load (Z.of_nat w)) (xs ++ [b]) = map (d_load (Z.of_nat w)) xs ++ [v]) by (by rewrite map_app).
  split; rewrite ?Em; [rewrite concat_app; cbn [concat]; by rewrite app_nil_r|apply Forall_app_2; [done|constructor; [done|constructor]]|..]; unfold pqstats_float; (destruct (sf_isnan v) eqn:Ev; [|destruct (hasBounds s) eqn:Eb; cbn [negb]]); cbn [hasBounds fMin fMax nans].
  - apply Forall_app_2; [done|]. constructor; [congruence|constructor].
  - destruct (Ht eq_refl) as (_ & _ & [N1 N2]%(fun H => H Eb)). apply Forall_app_2; [eapply Forall_weaken; [exact Hin|]; cbn; intros x Hx Hxn; destruct (Hx Hxn) as (_ & H1 & H2)|constructor; [intros _|constructor]]; (split; [done|]; split).
    + destruct (dlt v (fMin s)) eqn:E; [|done]. by apply (dlt_false_trans x (fMin s) v).
    + destruct (dlt (fMax s) v) eqn:E; [|done]. by apply (dlt_false_trans' x (fMax s) v).
    + destruct (dlt v (fMin s)) eqn:E; [apply dlt_irrefl|done].
    + destruct (dlt (fMax s) v) eqn:E; [apply dlt_irrefl|done].
  - apply Forall_app_2; [eapply Forall_weaken; [exact Hin|]; cbn; intros x Hx Hxn; by destruct (Hx Hxn)|]. constructor; [|constructor]. intros _. split; [done|]. split; apply dlt_irrefl.
  - intros E. destruct (Ht E) as (H1 & H2 & H3). rewrite !elem_of_app. tauto.
  - intros _. destruct (Ht eq_refl) as (H1 & H2 & H3). destruct (H3 Eb) as [N1 N2]. rewrite !elem_of_app, !elem_of_cons. split; [destruct (dlt v (fMin s)); tauto|]. split; [destruct (dlt (fMax s) v); tauto|].
    intros _. cbn [fMin fMax]. destruct (dlt v (fMin s)), (dlt (fMax s) v); done.
  - intros _. rewrite !elem_of_app, !elem_of_cons. split; [tauto|]. split; [tauto|]. intros _. done.
  - rewrite List.filter_app, zlen_app. cbn [List.filter]. rewrite Ev. change (zlen [v]) with 1. change (zlen (@nil spec_float)) with 0. lia.
  - rewrite List.filter_app, zlen_app. cbn [List.filter]. rewrite Ev. change (zlen [v]) with 1. change (zlen (@nil spec_float)) with 0. lia.
  - rewrite List.filter_app, zlen_app. cbn [List.filter]. rewrite Ev. change (zlen [v]) with 1. change (zlen (@nil spec_float)) with 0. lia.
Qed.

(** The count of nulls leaves the rest as it is. *)
Lemma leaf_stats_null c n : leaf_stats c n -> forall defs reps ne, leaf_stats (with_data c defs reps (values c) (boolbits c) ne (pqstats_null (st c))) (n + 1).
Proof.
  intros H defs reps ne. unfold leaf_stats in *. cbn [kind with_data st values pqstats_null nulls]. destruct (int_width (kind c)) as [w|]; [|destruct (float_width (kind c)) as [w|]; [|done]].
  - destruct H as (vs & [H1 H2 H3 H4 H5] & Hn). exists vs. split; [by split|lia].
  - destruct H as (xs & [H1 H2 H3 H4 H5] & Hn). exists xs. split; [by split|lia].
Qed.

Lemma append_inv out bs out' : appendBinaryStringInfo out bs = Ok out' -> out' = out ++ bs.
Proof. unfold appendBinaryStringInfo. destruct (enlargeStringInfo _ _) as [[]| | |]; try done. rewrite bind_Ok. by intros [= <-]. Qed.

Lemma put_value_inv c bs s c' : put_value c bs s = Ok c' -> c' = with_data c (defs c) (reps c) (values c ++ bs) (boolbits c) (nEntries c) s.
Proof. unfold put_value. destruct (appendBinaryStringInfo _ _) as [v| | |] eqn:E; try done. rewrite bind_Ok. intros [= <-]. by rewrite (append_inv _ _ _ E). Qed.

Lemma s32_signed v : signed 4 (s32 v).
Proof. unfold signed, s32. pose proof (Z.mod_pos_bound (v + 2 ^ 31) (2 ^ 32) ltac:(lia)). cbn -[Z.pow]. lia. Qed.

Lemma s64_signed v : signed 8 (s64 v).
Proof. unfold signed, s64. pose proof (Z.mod_pos_bound (v + 2 ^ 63) (2 ^ 64) ltac:(lia)). cbn -[Z.pow]. lia. Qed.

Lemma write_kind c d dec c' : write_leaf_value c d dec = Ok c' -> kind c' = kind c.
Proof.
  assert (Hp : forall c bs s c', put_value c bs s = Ok c' -> kind c' = kind c) by (by intros ???? ->%put_value_inv).
  assert (Hs : forall bs, put_sized c bs = Ok c' -> kind c' = kind c). { intros bs. unfold put_sized. destruct (put_value c _ _) as [c1| | |] eqn:E; try done. rewrite bind_Ok. intros E2%Hp. apply Hp in E. congruence. }
  assert (Hi : forall w, (v ← get_int d; put_value c (le_bytes w v) (pqstats_int (st c) v)) = Ok c' -> kind c' = kind c) by (intros w; destruct (get_int d); try done; rewrite bind_Ok; apply Hp).
  assert (Hb : (if convertText c then s ← OutputFunctionCall d; put_sized c s else bs ← get_bytes d; put_sized c bs) = Ok c' -> kind c' = kind c).
  { destruct (convertText c); [destruct (OutputFunctionCall d); try done|destruct (get_bytes d); try done]; rewrite bind_Ok; by apply Hs. }
  unfold write_leaf_value. destruct (kind c) eqn:Ek; try apply Hi; try apply Hb.
  - destruct (get_float4 d); try done. rewrite bind_Ok, <- Ek. apply Hp.
  - destruct (get_float8 d); try done. rewrite bind_Ok, <- Ek. apply Hp.
  - destruct (get_bool d); try done. rewrite bind_Ok. destruct (appendBinaryStringInfo _ _) as [bits| | |]; try done. rewrite bind_Ok. by intros [= <-].
  - destruct (get_int d); try done. rewrite bind_Ok, <- Ek. apply Hp.
  - destruct (get_int d); try done. rewrite bind_Ok, <- Ek. apply Hp.
  - destruct (get_bytes d); try done. rewrite bind_Ok, <- Ek. apply Hp.
  - rewrite <- Ek. apply Hp.
Qed.

Lemma write_stats c d dec c' n : leaf_stats c n -> datum_bits c d -> write_leaf_value c d dec = Ok c' -> leaf_stats c' (n + 1).
Proof.
  intros H Hd. unfold write_leaf_value.
  assert (Hint : forall w v, int_width (kind c) = Some w -> signed w v -> put_value c (le_bytes w v) (pqstats_int (st c) v) = Ok c' -> leaf_stats c' (n + 1)).
  { intros w v Ew Hv ->%put_value_inv. unfold leaf_stats in *. cbn [kind with_data st values]. rewrite Ew in *. destruct H as (vs & Hi & Hn). exists (vs ++ [v]). split; [by apply int_stats_add|].
    rewrite zlen_app. change (zlen [v]) with 1. unfold pqstats_int. destruct (negb _); cbn [nulls]; lia. }
  assert (Hflt : forall w b, int_width (kind c) = None -> float_width (kind c) = Some w -> length b = w -> put_value c b (pqstats_float (st c) (d_load (Z.of_nat w) b)) = Ok c' -> leaf_stats c' (n + 1)).
  { intros w b E0 Ew Hb ->%put_value_inv. unfold leaf_stats in *. cbn [kind with_data st values]. rewrite E0, Ew in *. destruct H as (xs & Hi & Hn). exists (xs ++ [b]). split; [by apply float_stats_add|].
    rewrite zlen_app. change (zlen [b]) with 1. unfold pqstats_float. destruct (sf_isnan _); [cbn [nulls]; lia|]. destruct (negb _); cbn [nulls]; lia. }
  assert (Hoth : int_width (kind c) = None -> float_width (kind c) = None -> kind c' = kind c -> st c' = st c -> leaf_stats c' (n + 1)).
  { intros E1 E2 E3 E4. unfold leaf_stats in *. rewrite E3, E4. by rewrite E1, E2 in *. }
  assert (Hsz : forall bs, int_width (kind c) = None -> float_width (kind c) = None -> put_sized c bs = Ok c' -> leaf_stats c' (n + 1)).
  { intros bs E1 E2. unfold put_sized. destruct (put_value c _ _) as [c1| | |] eqn:E; try done. rewrite bind_Ok. apply put_value_inv in E as ->. intros ->%put_value_inv. by apply Hoth. }
  assert (Hi : forall w, int_width (kind c) = Some w -> (v ← get_int d; put_value c (le_bytes w v) (pqstats_int (st c) v)) = Ok c' -> leaf_stats c' (n + 1)).
  { intros w Ew. unfold datum_bits in Hd. rewrite Ew in Hd. destruct d; try done. cbn [get_int]. rewrite bind_Ok. by apply Hint. }
  assert (Hb : int_width (kind c) = None -> float_width (kind c) = None -> (if convertText c then s ← OutputFunctionCall d; put_sized c s else bs ← get_bytes d; put_sized c bs) = Ok c' -> leaf_stats c' (n + 1)).
  { intros E1 E2. destruct (convertText c); [destruct (OutputFunctionCall d); try done|destruct (get_bytes d); try done]; rewrite bind_Ok; by apply Hsz. }
  destruct (kind c) eqn:Ek.
  - by apply (Hi 4%nat).
  - by apply (Hi 4%nat).
  - by apply (Hi 8%nat).
  - destruct (get_float4 d) as [b| | |]; try done. rewrite bind_Ok. apply (Hflt 4%nat); [done|done|apply length_le_bytes].
  - destruct (get_float8 d) as [b| | |]; try done. rewrite bind_Ok. apply (Hflt 8%nat); [done|done|apply length_le_bytes].
  - destruct (get_bool d) as [b| | |]; try done. rewrite bind_Ok. destruct (appendBinaryStringInfo _ _) as [bits| | |]; try done. rewrite bind_Ok. intros [= <-]. by apply Hoth.
  - by apply Hb.
  - by apply Hb.
  - destruct (get_int d) as [v| | |]; try done. rewrite bind_Ok. apply (Hint 4%nat); [done|apply s32_signed].
  - by apply (Hi 8%nat).
  - destruct (get_int d) as [v| | |]; try done. rewrite bind_Ok. apply (Hint 8%nat); [done|apply s64_signed].
  - destruct (get_bytes d) as [b| | |]; try done. rewrite bind_Ok. intros E%put_value_inv. apply Hoth; [done|done|by rewrite E|by rewrite E].
  - intros E%put_value_inv. apply Hoth; [done|done|by rewrite E|by rewrite E].
Qed.

Lemma entry_stats c def rep o c' n : leaf_stats c n -> match o with Some d => datum_bits c d | None => True end -> leaf_entry c def rep o = Ok c' -> leaf_stats c' (n + 1) /\ kind c' = kind c.
Proof.
  intros H Hd. unfold leaf_entry.
  assert (Hgo : forall od dec def', match od with Some d => datum_bits c d | None => True end ->
    (defs0 ← appendBinaryStringInfo (defs c) [u8 def']; reps0 ← (if 0 <? max_rep c then appendBinaryStringInfo (reps c) [u8 rep] else Ok (reps c));
     let c0 := with_data c defs0 reps0 (values c) (boolbits c) (nEntries c + 1) (st c) in
     match od with Some d => write_leaf_value c0 d dec | None => Ok (with_data c0 (ParquetTypes.defs c0) (ParquetTypes.reps c0) (values c0) (boolbits c0) (nEntries c0) (pqstats_null (st c0))) end) = Ok c' -> leaf_stats c' (n + 1) /\ kind c' = kind c).
  { intros od dec def' Hod. destruct (appendBinaryStringInfo (defs c) _) as [ds| | |]; try done. rewrite bind_Ok. destruct (if 0 <? max_rep c then _ else _) as [rs| | |]; try done. rewrite bind_Ok. cbv zeta. destruct od as [d|].
    - intros Hw. split; [|by apply write_kind in Hw]. by apply (write_stats (with_data c ds rs (values c) (boolbits c) (nEntries c + 1) (st c)) d dec).
    - intros [= <-]. split; [|done]. by apply (leaf_stats_null c). }
  destruct o as [d|]; [|rewrite bind_Ok; exact (Hgo None 0 def I)]. destruct (leaf_value_representable c d) as [[ok dec]| | |]; try done. rewrite !bind_Ok. destruct ok; [exact (Hgo (Some d) dec def Hd)|exact (Hgo None dec (max_def c - 1) I)].
Qed.

Lemma entries_stats es : forall c c' n, leaf_stats c n -> Forall (fun e => match e.2 with Some d => datum_bits c d | None => True end) es -> put_entries c es = Ok c' -> leaf_stats c' (n + zlen es).
Proof.
  induction es as [|[[def rep] o] es IH]; intros c c' n H Hes; cbn [put_entries]; [intros [= <-]; by rewrite zlen_nil, Z.add_0_r|]. apply Forall_cons_1 in Hes as [Ho Hes]. cbn [snd] in Ho.
  destruct (leaf_entry c def rep o) as [c1| | |] eqn:E; try done. rewrite bind_Ok. destruct (entry_stats _ _ _ _ _ _ H Ho E) as [H1 Hk]. intros Hp. rewrite zlen_cons, Z.add_assoc. apply (IH c1); [done| |done].
  eapply Forall_weaken; [exact Hes|]. intros [[? ?] [d|]]; [|done]. unfold datum_bits. cbn [snd]. by rewrite Hk.
Qed.

Lemma entries_kind es : forall c c', put_entries c es = Ok c' -> kind c' = kind c.
Proof.
  induction es as [|[[def rep] o] es IH]; intros c c'; cbn [put_entries]; [by intros [= <-]|]. destruct (leaf_entry c def rep o) as [c1| | |] eqn:E; try done. rewrite bind_Ok. intros Hp%IH. rewrite Hp. revert E. unfold leaf_entry.
  destruct (match o with None => _ | Some d => _ end) as [[[def' od] dec]| | |]; try done. rewrite bind_Ok. destruct (appendBinaryStringInfo (defs c) _) as [ds| | |]; try done. rewrite bind_Ok. destruct (if 0 <? max_rep c then _ else _) as [rs| | |]; try done.
  rewrite bind_Ok. cbv zeta. destruct od as [d|]; [by intros Hw%write_kind|by intros [= <-]].
Qed.

(** Present values and absent ones among entries. *)
Definition present (c : PqLeaf) (es : list (Z * Z * option datum)) : list datum := omap (fun e => kept c e.2) es.

Lemma leaf_puts_static c es : exists d r v b n s, leaf_puts c es = with_data c d r v b n s.
Proof.
  revert c. induction es as [|[[def rep] o] es IH]; intros c; cbn [leaf_puts foldl].
  - exists (defs c), (reps c), (values c), (boolbits c), (nEntries c), (st c). by destruct c.
  - destruct (IH (leaf_put c def rep o)) as (d & r & v & b & n & s & E). exists d, r, v, b, n, s. exact E.
Qed.

Lemma present_cons c def rep o es : present c ((def, rep, o) :: es) = match kept c o with Some d => d :: present c es | None => present c es end.
Proof. done. Qed.

Lemma value_stats_nulls c s d : nulls (value_stats c s d) = nulls s.
Proof.
  assert (Hi : forall v, nulls (pqstats_int s v) = nulls s) by (intros v; unfold pqstats_int; by destruct (negb _)).
  assert (Hf : forall x, nulls (pqstats_float s x) = nulls s) by (intros x; unfold pqstats_float; destruct (sf_isnan x); [done|]; by destruct (negb _)).
  unfold value_stats. destruct (kind c), d; done || apply Hi || apply Hf.
Qed.

Lemma leaf_puts_nulls es : forall c, nulls (st (leaf_puts c es)) = nulls (st c) + (zlen es - zlen (present c es)).
Proof.
  induction es as [|[[def rep] o] es IH]; intros c; [unfold zlen; cbn; lia|].
  change (leaf_puts c ((def, rep, o) :: es)) with (leaf_puts (leaf_put c def rep o) es). rewrite present_cons, zlen_cons, IH. change (present (leaf_put c def rep o) es) with (present c es).
  assert (Est : st (leaf_put c def rep o) = match kept c o with Some d => value_stats c (st c) d | None => pqstats_null (st c) end) by done. rewrite Est.
  destruct (kept c o) as [d|]; [rewrite value_stats_nulls, zlen_cons; lia|]. cbn [pqstats_null nulls]. lia.
Qed.
End Statistics.

(** ** Any bytes *)

Section Safety.
Context `{T : PgTypes} `{L : !PgTypesLaws}.

(** The position moves on, within the buffer. *)
Definition moves (buf : list Z) (p : Z) (o : option (datum * Z)) : Prop :=
  match o with None => True | Some (_, p') => p < p' <= zlen buf end.

Lemma out_of_range_safe {A} (P : option A -> Prop) strict : P None -> safe P (out_of_range strict).
Proof using. intros HP. by destruct strict. Qed.

Lemma to_numeric_safe buf p p' be s : p < p' <= zlen buf -> safe (moves buf p) (to_numeric (pq_decimal_to_numeric be s) p').
Proof using L.
  intros Hp. unfold to_numeric, pq_decimal_to_numeric. cbv zeta. destruct (_ || _); [done|]. destruct (_ || _); [done|].
  pose proof (numeric_in_ends (decimal_text (be_value be) s)) as Hn. destruct (numeric_in _); done.
Qed.

Lemma int32_safe buf plan v p p' strict : p < p' <= zlen buf -> safe (moves buf p) (int32_to_datum plan v p' strict).
Proof using L.
  intros Hp. unfold int32_to_datum, pq_int_decimal_to_numeric. cbv zeta. destruct (pl_is_decimal plan); [by apply to_numeric_safe|].
  repeat match goal with |- safe _ (if ?b then _ else _) => destruct b end; try (by apply out_of_range_safe); try exact Hp.
  destruct (pq_scale_to_usecs _ _); [|by apply out_of_range_safe]. destruct (_ || _); [by apply out_of_range_safe|exact Hp].
Qed.

Lemma shifted_safe buf plan t p p' strict : p < p' <= zlen buf -> safe (moves buf p) (shifted_timestamp plan t p' strict).
Proof using.
  intros Hp. unfold shifted_timestamp. destruct (negb _); [by apply out_of_range_safe|]. destruct (_ =? _); [exact Hp|].
  destruct (pq_ts_shift _ _); [exact Hp|by apply out_of_range_safe].
Qed.

Lemma int64_safe buf plan v p p' strict : p < p' <= zlen buf -> safe (moves buf p) (int64_to_datum plan v p' strict).
Proof using L.
  intros Hp. unfold int64_to_datum, pq_int_decimal_to_numeric. cbv zeta. destruct (pl_is_decimal plan); [by apply to_numeric_safe|].
  destruct (pl_is_unsigned plan && (pl_typid plan =? NUMERICOID)).
  { pose proof (numeric_in_ends (decimal_text (u64 v) 0)) as Hn. destruct (numeric_in _); done. }
  destruct (_ && _); [by apply out_of_range_safe|]. destruct (_ || _).
  { destruct (pq_scale_to_usecs _ _); [|by apply out_of_range_safe]. destruct (_ || _); [by apply out_of_range_safe|by apply shifted_safe]. }
  destruct (_ =? TIMEOID); [|exact Hp]. destruct (pq_scale_to_usecs _ _); [|by apply out_of_range_safe]. destruct (_ || _); [by apply out_of_range_safe|exact Hp].
Qed.

Lemma int96_safe buf plan n j p p' strict : p < p' <= zlen buf -> safe (moves buf p) (int96_to_datum plan n j p' strict).
Proof using. intros Hp. unfold int96_to_datum. cbv zeta. destruct (_ || _); [by apply out_of_range_safe|by apply shifted_safe]. Qed.

Lemma varlena_safe buf bs p p' : p < p' <= zlen buf -> safe (moves buf p) (d ← make_varlena bs; Ok (Some (d, p'))).
Proof using. intros Hp. unfold make_varlena. by destruct (_ <? _). Qed.

Lemma plain_value_safe plan buf p strict : bytes_ok buf -> 0 <= p <= zlen buf -> safe (moves buf p) (plain_value_to_datum plan buf p strict).
Proof using L.
  intros Hb Hp. unfold plain_value_to_datum. cbv zeta.
  destruct (_ =? PQ_INT32). { destruct (Z.ltb_spec (zlen buf) (p + 4)); [done|]. rewrite rd_Ok, bind_Ok by lia. apply int32_safe. lia. }
  destruct (_ =? PQ_INT64). { destruct (Z.ltb_spec (zlen buf) (p + 8)); [done|]. rewrite rd_Ok, bind_Ok by lia. apply int64_safe. lia. }
  destruct (_ =? PQ_INT96). { destruct (Z.ltb_spec (zlen buf) (p + 12)); [done|]. rewrite !rd_Ok, !bind_Ok by lia. apply int96_safe. lia. }
  destruct (_ =? PQ_FLOAT). { destruct (Z.ltb_spec (zlen buf) (p + 4)); [done|]. rewrite rd_Ok, bind_Ok by lia. cbn [safe moves]. lia. }
  destruct (_ =? PQ_DOUBLE). { destruct (Z.ltb_spec (zlen buf) (p + 8)); [done|]. rewrite rd_Ok, bind_Ok by lia. cbn [safe moves]. lia. }
  destruct (_ =? PQ_BYTE_ARRAY).
  { destruct (Z.ltb_spec (zlen buf) (p + 4)); [done|]. rewrite rd_Ok, bind_Ok by lia. set (lb := take _ _). assert (Hlb : bytes_ok lb) by (by apply bytes_ok_sub).
    pose proof (le_uint_bound lb Hlb) as [Hl _]. destruct (Z.ltb_spec (zlen buf) (p + 4 + le_uint lb)); [done|]. rewrite rd_Ok, bind_Ok by lia.
    destruct (pl_is_decimal plan); [apply to_numeric_safe; lia|]. destruct (_ =? BYTEAOID); [apply varlena_safe; lia|].
    eapply (safe_bind (fun _ => True)); [unfold pq_text_cell_ok; destruct (forallb _ _); [done|]; destruct (_ =? _); [done|]; by destruct strict|].
    intros [] _; [apply varlena_safe; lia|done]. }
  destruct (_ =? PQ_FIXED_LEN_BYTE_ARRAY); [|done].
  destruct (Z.leb_spec (pl_type_length plan) 0); [done|]. destruct (Z.ltb_spec (zlen buf) (p + pl_type_length plan)); [done|]. cbn [orb].
  rewrite rd_Ok, bind_Ok by lia. destruct (pl_is_decimal plan); [apply to_numeric_safe; lia|].
  destruct (_ =? UUIDOID); [|apply varlena_safe; lia]. destruct (_ =? UUID_LEN); [cbn [safe moves]; lia|done].
Qed.
End Safety.

(** ** Claims *)

(** C17.  A value of any type the importer reads but boolean, whose bits are packed
    per page (integers, floats, bytea, dates, times, uuid, text valid in the
    database encoding, numeric with precision and scale, timestamps whose shift to
    the Unix epoch does not overflow 64 bits), below the size of an allocation,
    written
    by the exporter and read with the plan its own schema column binds to, comes
    back unchanged, and the reader stops behind its last byte. *)
Theorem parquet_value_roundtrip `{T : PgTypes} `{!PgTypesLaws} typid typmod md mr path c d name rep pre post :
  exportable typid -> - 1 <= typmod < 2 ^ 31 -> reimportable typid typmod = true -> build_leaf_scalar typid typmod md mr path = Some c ->
  value_ok c d -> kind c <> P_BOOL -> zlen (plain_bytes c d) < MaxAllocSize ->
  exists dec st', leaf_value_representable c d = Ok (true, dec) /\
    write_leaf_value c d dec = Ok (with_data c [] [] (plain_bytes c d) [] 0 st') /\
    plain_value_to_datum (pq_plan_bind_schema typid (ptype c) (schema_of_leaf c name rep)) (pre ++ plain_bytes c d ++ post) (zlen pre) true =
    Ok (Some (d, zlen pre + zlen (plain_bytes c d))).
Proof.
  intros He Hm Hr Hb Hv Hk Hl.
  assert (Hempty : defs c = [] /\ reps c = [] /\ values c = [] /\ boolbits c = [] /\ nEntries c = 0 /\ bool_bytes c d = []).
  { unfold build_leaf_scalar in Hb. destruct (parquet_kind_for_type typid typmod) as [[[[[k' ph] ct] tl] pr] sc]. destruct (ph <? 0); [done|]. injection Hb as <-.
    unfold bool_bytes. cbn [kind] in *. by destruct k'. }
  destruct Hempty as (E1 & E2 & E3 & E4 & E5 & E6). destruct (write_value c d Hv) as (dec & W1 & W2); [by rewrite E3|by rewrite E4, E6|].
  rewrite E1, E2, E3, E4, E5, E6 in W2. eexists _, _. split; [exact W1|]. split; [exact W2|]. by apply (read_value typid typmod md mr path).
Qed.

(** A PostgreSQL with two numbers, for the examples. *)
Definition two_numbers : PgTypes :=
  {| numeric := bool; numeric_out b := decimal_text (if b then -12345 else 7) 2;
     numeric_in s := match text_to_int128 s 2 with
                     | Some v => if v =? -12345 then Ok true else if v =? 7 then Ok false else Err "out of range"
                     | None => Err "invalid input syntax"
                     end;
     jsonb := list Z; jsonb_out s := s; pg_tm := Z; timestamp2tm _ t := Some (t, 0); DetermineTimeZoneOffset _ := 0;
     tm2timestamp t _ _ := Some t; pg_encoding_verifymbstr s := zlen s |}.

Lemma two_numbers_laws : @PgTypesLaws two_numbers.
Proof.
  split; [by intros []|]. intros s. cbn. destruct (text_to_int128 s 2) as [v|]; [|done]. destruct (v =? -12345); [done|]. by destruct (v =? 7).
Qed.

Definition cents_leaf : PqLeaf :=
  mkLeaf [[112]] P_DECIMAL PQ_FIXED_LEN_BYTE_ARRAY PQ_CT_DECIMAL (-1) 16 10 2 false 1 0 [] [] [] [] 0 pqstats_reset.

Definition instant_leaf : PqLeaf :=
  mkLeaf [[116]] P_TIMESTAMP PQ_INT64 (-1) 0 0 0 0 false 1 0 [] [] [] [] 0 pqstats_reset.

Lemma parquet_value_roundtrip_witness : exists dec st', @leaf_value_representable two_numbers cents_leaf (@DNumeric two_numbers true) = Ok (true, dec) /\
  @write_leaf_value two_numbers cents_leaf (@DNumeric two_numbers true) dec =
    Ok (with_data cents_leaf [] [] (@plain_bytes two_numbers cents_leaf (@DNumeric two_numbers true)) [] 0 st') /\
  @plain_value_to_datum two_numbers (pq_plan_bind_schema NUMERICOID (ptype cents_leaf) (schema_of_leaf cents_leaf [112] 1))
    ([1; 2] ++ @plain_bytes two_numbers cents_leaf (@DNumeric two_numbers true) ++ [3]) (zlen [1; 2]) true =
  Ok (Some (@DNumeric two_numbers true, zlen [1; 2] + zlen (@plain_bytes two_numbers cents_leaf (@DNumeric two_numbers true)))).
Proof.
  apply (@parquet_value_roundtrip two_numbers two_numbers_laws NUMERICOID 655366 1 0 [[112]]).
  - apply list_elem_of_In. cbn. tauto.
  - lia.
  - reflexivity.
  - reflexivity.
  - split; [cbn; lia|]. exists (-12345). split; [reflexivity|lia].
  - discriminate.
  - vm_compute. reflexivity.
Defined.



(** A decimal's text form and its unscaled integer determine each other: the
    reader's text of a 16-byte value, read by the writer at the same scale, is that
    value, for every value below 2^127 in magnitude and every scale. *)
Theorem decimal_text_roundtrip v scale : - 2 ^ 127 < v < 2 ^ 127 -> 0 <= scale <= 38 ->
  be_value (rev (le_bytes 16 v)) = v /\ text_to_int128 (decimal_text v scale) scale = Some v /\ zlen (decimal_text v scale) + 1 <= 64.
Proof.
  intros Hv Hs. split; [apply be_value_16; lia|]. split; [apply decimal_text_back; lia|]. apply decimal_text_fits; lia.
Qed.

Lemma decimal_text_roundtrip_witness :
  be_value (rev (le_bytes 16 (-12345))) = -12345 /\ text_to_int128 (decimal_text (-12345) 7) 7 = Some (-12345) /\ zlen (decimal_text (-12345) 7) + 1 <= 64.
Proof. apply decimal_text_roundtrip; lia. Defined.

(** C23.  Timestamps at the end of the range wrap: a valid, finite timestamp within
    [PG_TO_UNIX_USECS] of the largest 64-bit integer is written as a negative
    number, which the reader then refuses as out of range. *)
Theorem parquet_timestamp_wraps `{T : PgTypes} c v plan : kind c = P_TIMESTAMP -> values c = [] -> IS_VALID_TIMESTAMP v = true -> PG_INT64_MAX < v + PG_TO_UNIX_USECS ->
  pl_expect_phys plan = PQ_INT64 -> pl_typid plan = TIMESTAMPOID -> pl_time_unit plan = PQ_TU_MICROS -> pl_is_decimal plan = false -> pl_is_unsigned plan = false ->
  exists c', leaf_value_representable c (DInt v) = Ok (true, 0) /\ write_leaf_value c (DInt v) 0 = Ok c' /\
    values c' = le_bytes 8 (v + PG_TO_UNIX_USECS - 2 ^ 64) /\ v + PG_TO_UNIX_USECS - 2 ^ 64 < 0 /\
    plain_value_to_datum plan (values c') 0 true = Err "value out of range for type".
Proof.
  intros Hk He Hv Ho P1 P2 P3 P4 P5. assert (Hd := Hv). unfold IS_VALID_TIMESTAMP, MIN_TIMESTAMP, END_TIMESTAMP in Hd. apply andb_true_iff in Hd as [Hd1%Z.leb_le Hd2%Z.ltb_lt].
  unfold PG_INT64_MAX, PG_TO_UNIX_USECS, PG_TO_UNIX_DAYS, POSTGRES_EPOCH_JDATE, UNIX_EPOCH_JDATE, USECS_PER_DAY in Ho.
  assert (Ew : s64 (v + PG_TO_UNIX_USECS) = v + PG_TO_UNIX_USECS - 2 ^ 64).
  { unfold s64, PG_TO_UNIX_USECS, PG_TO_UNIX_DAYS, POSTGRES_EPOCH_JDATE, UNIX_EPOCH_JDATE, USECS_PER_DAY. rewrite <- (Z.mod_unique _ (2 ^ 64) 1 (v + 946684800000000 + 2 ^ 63 - 2 ^ 64)); lia. }
  unfold leaf_value_representable, write_leaf_value. rewrite Hk. cbn [get_int]. rewrite !bind_Ok. cbv zeta. rewrite Ew.
  rewrite put_value_Ok by (rewrite He; vm_compute; reflexivity). eexists. split; [|split; [reflexivity|]].
  - unfold TIMESTAMP_NOT_FINITE, PG_INT64_MIN, PG_INT64_MAX. rewrite !(proj2 (Z.eqb_neq _ _)) by lia. done.
  - cbn [values with_data]. rewrite He. cbn [app]. split; [done|]. split; [unfold PG_TO_UNIX_USECS, PG_TO_UNIX_DAYS, POSTGRES_EPOCH_JDATE, UNIX_EPOCH_JDATE, USECS_PER_DAY; lia|].
    set (w := v + PG_TO_UNIX_USECS - 2 ^ 64). assert (Hw : - 2 ^ 63 <= w < - 2 ^ 63 + 2 ^ 50) by (unfold w, PG_TO_UNIX_USECS, PG_TO_UNIX_DAYS, POSTGRES_EPOCH_JDATE, UNIX_EPOCH_JDATE, USECS_PER_DAY; lia).
    pose proof (read_int64 [] [] plan w ltac:(lia) P1) as E. cbn [app] in E. rewrite app_nil_r in E. change (zlen (@nil Z)) with 0 in E. rewrite E.
    unfold int64_to_datum. rewrite P2, P3, P4, P5. cbn [andb]. change (TIMESTAMPOID =? TIMESTAMPOID) with true. cbn [orb]. cbv zeta iota.
    change (pq_scale_to_usecs PQ_TU_MICROS w) with (Some w). cbv iota.
    rewrite (proj2 (Z.ltb_lt (w - PG_TO_UNIX_USECS) PG_INT64_MIN)); [done|]. unfold PG_INT64_MIN, PG_TO_UNIX_USECS, PG_TO_UNIX_DAYS, POSTGRES_EPOCH_JDATE, UNIX_EPOCH_JDATE, USECS_PER_DAY in *. lia.
Qed.

Lemma parquet_timestamp_wraps_witness : exists c', @leaf_value_representable two_numbers instant_leaf (@DInt two_numbers 9223371331199999999) = Ok (true, 0) /\
  @write_leaf_value two_numbers instant_leaf (@DInt two_numbers 9223371331199999999) 0 = Ok c' /\
  values c' = le_bytes 8 (9223371331199999999 + PG_TO_UNIX_USECS - 2 ^ 64) /\ 9223371331199999999 + PG_TO_UNIX_USECS - 2 ^ 64 < 0 /\
  @plain_value_to_datum two_numbers (mkPlan TIMESTAMPOID PQ_INT64 PQ_TU_MICROS 0 0 false false PQ_TS_NONE) (values c') 0 true = Err "value out of range for type".
Proof. apply (@parquet_timestamp_wraps two_numbers instant_leaf 9223371331199999999); reflexivity. Defined.
