(* ===== verification/ParquetPage.v ===== *)
(** * Parquet pages

    Page headers and column chunks: [build_values], [build_leaf_body] and
    [write_page_header] of [columnar_parquet.c]; the page header parser, the byte
    source with its prefetch window, [pq_read_page_header] and
    [decode_leaf_entries] of [columnar_parquet_reader.c].  The bytes of the file
    or remote object are data; an I/O error is not modelled. *)

From S2P Require Import Prelude BitSet Compress Thrift ParquetCodec ParquetLevels ParquetTypes ParquetValues.

Definition PQ_ENC_PLAIN : Z := 0.
Definition PQ_ENC_RLE : Z := 3.
Definition PQE_PLAIN : Z := 0.
Definition PQE_PLAIN_DICTIONARY : Z := 2.
Definition PQE_RLE : Z := 3.
Definition PQE_RLE_DICTIONARY : Z := 8.
Definition PQ_PAGE_DICTIONARY : Z := 2.

(** ** Writing a page *)

(** [bits[i >> 3] |= 1 << (i & 7)] for the booleans that are set. *)
Definition build_bools (boolbits : list Z) : res (list Z) :=
  let n := zlen boolbits in
  forZ 0 n (fun i bits => b ← rd1 boolbits i; if b =? 0 then Ok bits else set_bit bits i) (replicate (Z.to_nat ((n + 7) / 8)) 0).

Definition build_values (c : PqLeaf) : res (list Z) :=
  if decide (kind c = P_BOOL) then build_bools (boolbits c) else Ok (values c).

(** The body of a page; each part is appended to one buffer. *)
Definition build_leaf_body (c : PqLeaf) : res (list Z) :=
  reps ← (if 0 <? max_rep c then build_rle_levels (reps c) (pq_bits_for (max_rep c)) else Ok []);
  body ← appendBinaryStringInfo [] reps;
  defs ← build_rle_levels (defs c) (pq_bits_for (max_def c));
  body ← appendBinaryStringInfo body defs;
  vals ← build_values c;
  appendBinaryStringInfo body vals.

Definition write_page_header (nrows body_size : Z) : list Z :=
  PgColumnarThriftPutI32Field 0 1 0 ++
  PgColumnarThriftPutI32Field 1 2 body_size ++
  PgColumnarThriftPutI32Field 2 3 body_size ++
  PgColumnarThriftPutField 3 5 TC_STRUCT ++
  PgColumnarThriftPutI32Field 0 1 (s32 nrows) ++
  PgColumnarThriftPutI32Field 1 2 PQ_ENC_PLAIN ++
  PgColumnarThriftPutI32Field 2 3 PQ_ENC_RLE ++
  PgColumnarThriftPutI32Field 3 4 PQ_ENC_RLE ++
  PgColumnarThriftPutStop ++ PgColumnarThriftPutStop.

(** ** Reading a struct *)

(** The loop over the fields of a struct: [body] takes the field's id and type.
    Every turn takes a byte or fails. *)
Fixpoint parse_fields {A} (fuel : nat) (body : TCReader -> A -> Z -> Z -> res (TCReader * A)) (r : TCReader) (a : A) (lastId : Z) : res (TCReader * A) :=
  match fuel with
  | O => Fuel
  | S fuel =>
      ' (ft, fid, lastId, r) ← PgColumnarThriftField r lastId;
      if (ft =? TC_STOP) || tc_error r then Ok (r, a)
      else ' (r, a) ← body r a fid ft; parse_fields fuel body r a lastId
  end.

Definition parse_struct {A} (body : TCReader -> A -> Z -> Z -> res (TCReader * A)) (r : TCReader) (a : A) : res (TCReader * A) :=
  parse_fields (S (Z.to_nat (tc_len r - tc_pos r))) body r a 0.

(** ** Page headers *)

Record PqPageHeader := mkPage {
  ph_type : Z; ph_uncompressed_size : Z; ph_compressed_size : Z; ph_num_values : Z; ph_encoding : Z; ph_def_levels_len : Z; ph_rep_levels_len : Z;
  ph_is_compressed : bool; ph_is_v2 : bool; ph_bad_type : bool }.

(** [memset(h, 0, sizeof *h); h->is_compressed = true] *)
Definition page0 : PqPageHeader := mkPage 0 0 0 0 0 0 0 true false false.

Definition set_type (h : PqPageHeader) (v : Z) := mkPage v (ph_uncompressed_size h) (ph_compressed_size h) (ph_num_values h) (ph_encoding h) (ph_def_levels_len h) (ph_rep_levels_len h) (ph_is_compressed h) (ph_is_v2 h) (ph_bad_type h).
Definition set_usize (h : PqPageHeader) (v : Z) := mkPage (ph_type h) v (ph_compressed_size h) (ph_num_values h) (ph_encoding h) (ph_def_levels_len h) (ph_rep_levels_len h) (ph_is_compressed h) (ph_is_v2 h) (ph_bad_type h).
Definition set_csize (h : PqPageHeader) (v : Z) := mkPage (ph_type h) (ph_uncompressed_size h) v (ph_num_values h) (ph_encoding h) (ph_def_levels_len h) (ph_rep_levels_len h) (ph_is_compressed h) (ph_is_v2 h) (ph_bad_type h).
Definition set_num (h : PqPageHeader) (v : Z) := mkPage (ph_type h) (ph_uncompressed_size h) (ph_compressed_size h) v (ph_encoding h) (ph_def_levels_len h) (ph_rep_levels_len h) (ph_is_compressed h) (ph_is_v2 h) (ph_bad_type h).
Definition set_enc (h : PqPageHeader) (v : Z) := mkPage (ph_type h) (ph_uncompressed_size h) (ph_compressed_size h) (ph_num_values h) v (ph_def_levels_len h) (ph_rep_levels_len h) (ph_is_compressed h) (ph_is_v2 h) (ph_bad_type h).
Definition set_deflen (h : PqPageHeader) (v : Z) := mkPage (ph_type h) (ph_uncompressed_size h) (ph_compressed_size h) (ph_num_values h) (ph_encoding h) v (ph_rep_levels_len h) (ph_is_compressed h) (ph_is_v2 h) (ph_bad_type h).
Definition set_replen (h : PqPageHeader) (v : Z) := mkPage (ph_type h) (ph_uncompressed_size h) (ph_compressed_size h) (ph_num_values h) (ph_encoding h) (ph_def_levels_len h) v (ph_is_compressed h) (ph_is_v2 h) (ph_bad_type h).
Definition set_compressed (h : PqPageHeader) (b : bool) := mkPage (ph_type h) (ph_uncompressed_size h) (ph_compressed_size h) (ph_num_values h) (ph_encoding h) (ph_def_levels_len h) (ph_rep_levels_len h) b (ph_is_v2 h) (ph_bad_type h).
Definition set_v2 (h : PqPageHeader) (b : bool) := mkPage (ph_type h) (ph_uncompressed_size h) (ph_compressed_size h) (ph_num_values h) (ph_encoding h) (ph_def_levels_len h) (ph_rep_levels_len h) true b (ph_bad_type h).
Definition set_bad (h : PqPageHeader) := mkPage (ph_type h) (ph_uncompressed_size h) (ph_compressed_size h) (ph_num_values h) (ph_encoding h) (ph_def_levels_len h) (ph_rep_levels_len h) (ph_is_compressed h) (ph_is_v2 h) true.
Definition no_set (h : PqPageHeader) (v : Z) := h.

(** [h->field = pq_page_i32(r, h, ft)] *)
Definition pq_page_i32 (set : PqPageHeader -> Z -> PqPageHeader) (r : TCReader) (h : PqPageHeader) (ft : Z) : res (TCReader * PqPageHeader) :=
  if negb (ft =? TC_I32) then Ok (fail r, set (set_bad h) 0)
  else ' (z, r) ← PgColumnarThriftZigzag r; Ok (r, set h (s32 z)).

(** [if (pq_page_struct(r, h, ft)) body] *)
Definition pq_page_struct (body : TCReader -> PqPageHeader -> res (TCReader * PqPageHeader)) (r : TCReader) (h : PqPageHeader) (ft : Z) : res (TCReader * PqPageHeader) :=
  if negb (ft =? TC_STRUCT) then Ok (fail r, set_bad h) else body r h.

Section Reader.
(** How deep the skip of an unknown field may nest. *)
Context (stack : nat).

Definition skip_field {A} (r : TCReader) (a : A) (ft : Z) : res (TCReader * A) := r ← PgColumnarThriftSkip stack r ft; Ok (r, a).

Definition data_page_field (v2 : bool) (r : TCReader) (h : PqPageHeader) (fid ft : Z) : res (TCReader * PqPageHeader) :=
  if negb v2 then
    if fid =? 1 then pq_page_i32 set_num r h ft
    else if fid =? 2 then pq_page_i32 set_enc r h ft
    else if (fid =? 3) || (fid =? 4) then pq_page_i32 no_set r h ft
    else skip_field r h ft
  else
    if fid =? 1 then pq_page_i32 set_num r h ft
    else if (fid =? 2) || (fid =? 3) then pq_page_i32 no_set r h ft
    else if fid =? 4 then pq_page_i32 set_enc r h ft
    else if fid =? 5 then pq_page_i32 set_deflen r h ft
    else if fid =? 6 then pq_page_i32 set_replen r h ft
    else if fid =? 7 then
      if (ft =? TC_BOOL_TRUE) || (ft =? TC_BOOL_FALSE) then Ok (r, set_compressed h (ft =? TC_BOOL_TRUE)) else skip_field r h ft
    else skip_field r h ft.

Definition parse_data_page_header (v2 : bool) (r : TCReader) (h : PqPageHeader) : res (TCReader * PqPageHeader) :=
  parse_struct (data_page_field v2) r (set_v2 h v2).

Definition dict_page_field (r : TCReader) (h : PqPageHeader) (fid ft : Z) : res (TCReader * PqPageHeader) :=
  if fid =? 1 then pq_page_i32 set_num r h ft
  else if fid =? 2 then pq_page_i32 no_set r h ft
  else skip_field r h ft.

Definition page_field (r : TCReader) (h : PqPageHeader) (fid ft : Z) : res (TCReader * PqPageHeader) :=
  if fid =? 1 then pq_page_i32 set_type r h ft
  else if fid =? 2 then pq_page_i32 set_usize r h ft
  else if fid =? 3 then pq_page_i32 set_csize r h ft
  else if fid =? 5 then pq_page_struct (parse_data_page_header false) r h ft
  else if fid =? 7 then pq_page_struct (parse_struct dict_page_field) r h ft
  else if fid =? 8 then pq_page_struct (parse_data_page_header true) r h ft
  else skip_field r h ft.

Definition parse_page_header (r : TCReader) : res (TCReader * PqPageHeader) := parse_struct page_field r page0.

(** ** The byte source *)

(** The bytes of the file or object, whether it is remote, and the window that
    holds bytes of it from an offset on. *)
Record PqSource := mkSource { src_bytes : list Z; src_remote : bool; src_win : option (Z * list Z) }.

Definition src_len (src : PqSource) : Z := zlen (src_bytes src).

Definition pq_source_read (src : PqSource) (off n : Z) : res (list Z) :=
  match src_win src with
  | Some (winOff, win) =>
      if (winOff <=? off) && (off + n <=? winOff + zlen win) then rd win (off - winOff) n else rd (src_bytes src) off n
  | None => rd (src_bytes src) off n
  end.

(** [buffered] is the setting [pgcolumnar.objstore_buffered]. *)
Definition pq_source_prefetch (buffered : bool) (src : PqSource) (off n : Z) : res PqSource :=
  if negb (src_remote src) || negb buffered then Ok src
  else if (off <? 0) || (src_len src <=? off) then Ok src
  else
    let n := Z.min n (src_len src - off) in
    if (n <=? 0) || (MaxAllocSize <? n) then Ok src
    else win ← rd (src_bytes src) off n; Ok (mkSource (src_bytes src) (src_remote src) (Some (off, win))).

Definition PQ_PAGE_HDR_WIN_MIN : Z := 4096.
Definition PQ_PAGE_HDR_WIN_MAX : Z := 16777216.

(** The growing window: it doubles from 4096 bytes to 16 MB in twelve turns. *)
Fixpoint header_windows (fuel : nat) (src : PqSource) (off avail win : Z) : res (option (PqPageHeader * Z)) :=
  match fuel with
  | O => Fuel
  | S fuel =>
      let n := Z.min win avail in
      buf ← pq_source_read src off n;
      ' (hr, h) ← parse_page_header (mkReader buf 0 false);
      if negb (tc_error hr) then Ok (Some (h, tc_pos hr))
      else if ph_bad_type h || (avail <=? n) || (PQ_PAGE_HDR_WIN_MAX <=? win) then Ok None
      else header_windows fuel src off avail (win * 2)
  end.

(** The header at [off] and its length. *)
Definition pq_read_page_header (src : PqSource) (off : Z) : res (option (PqPageHeader * Z)) :=
  if (off <? 0) || (src_len src <=? off) then Ok None
  else header_windows 13 src off (src_len src - off) PQ_PAGE_HDR_WIN_MIN.
End Reader.

(** ** Column chunks *)

(** The chunk's entry in the footer; [None] statistics are absent ones. *)
Record PqChunk := mkChunk {
  ch_codec : Z; ch_num_values : Z; ch_data_page_offset : Z; ch_dict_page_offset : Z; ch_total_compressed_size : Z;
  ch_stat_min : option (list Z); ch_stat_max : option (list Z); ch_rep_hist_len : Z; ch_def_hist_len : Z }.

Definition palloc_ok (sz : Z) : res unit := if MaxAllocSize <? sz then Err "invalid memory alloc request size" else Ok tt.

Section Decode.
Context `{PgTypes} `{BlockCodecs} `{Zlib} (stack : nat) (buffered : bool).

(** [None] is the function's [false], here and below. *)
Definition decode_plain_bools (buf : list Z) (n : Z) : res (option (list datum)) :=
  if (n <? 0) || (zlen buf <? (n + 7) / 8) then Ok None
  else
    out ← forZ 0 n (fun i out =>
      b ← rd1 buf (Z.shiftr i 3);
      Ok (out ++ [DBool (negb (Z.land (Z.shiftr b (Z.land i 7)) 1 =? 0))])) [];
    Ok (Some out).

(** [n] values in a row. *)
Fixpoint decode_plain_values (n : nat) (plan : PqColPlan) (buf : list Z) (p : Z) : res (option (list datum)) :=
  match n with
  | O => Ok (Some [])
  | S n =>
      o ← plain_value_to_datum plan buf p true;
      match o with
      | None => Ok None
      | Some (d, p) =>
          rest ← decode_plain_values n plan buf p;
          Ok (match rest with Some ds => Some (d :: ds) | None => None end)
      end
  end.

Definition decode_plain (plan : PqColPlan) (buf : list Z) (n : Z) : res (option (list datum)) :=
  if pl_expect_phys plan =? PQ_BOOLEAN then decode_plain_bools buf n else decode_plain_values (Z.to_nat n) plan buf 0.

(** A v1 level section at [off], and the offset behind it. *)
Definition level_section (pb : list Z) (off bit_width npage : Z) : res (option (list Z * Z)) :=
  if zlen pb <? off + 4 then Ok None
  else
    lb ← rd pb off 4;
    let llen := le_uint lb in
    let off := off + 4 in
    if zlen pb <? off + llen then Ok None
    else
      _ ← palloc_ok (4 * npage);
      sec ← rd pb off llen;
      o ← rle_bitpack_decode sec bit_width npage;
      Ok (match o with Some ls => Some (ls, off + llen) | None => None end).

(** Levels of a column that has them; zeros otherwise. *)
Definition optional_levels (max npage : Z) (decode : res (option (list Z * Z))) (off : Z) : res (option (list Z * Z)) :=
  if 0 <? max then decode else Ok (Some (replicate (Z.to_nat npage) 0, off)).

(** Repetition levels, definition levels and the values of a page. *)
Definition page_sections (codec max_def max_rep : Z) (h : PqPageHeader) (praw : list Z) : res (option (list Z * list Z * list Z)) :=
  let npage := ph_num_values h in
  if ph_is_v2 h then
    let levLen := ph_def_levels_len h + ph_rep_levels_len h in
    let section off len width := (_ ← palloc_ok (4 * npage); sec ← rd praw off len; o ← rle_bitpack_decode sec width npage;
                                  Ok (match o with Some ls => Some (ls, off + len) | None => None end)) in
    reps ← optional_levels max_rep npage (section 0 (ph_rep_levels_len h) (pq_bits_for max_rep)) 0;
    match reps with
    | None => Ok None
    | Some (preps, _) =>
        defs ← optional_levels max_def npage (section (ph_rep_levels_len h) (ph_def_levels_len h) (pq_bits_for max_def)) 0;
        match defs with
        | None => Ok None
        | Some (pdefs, _) =>
            vraw ← rd praw levLen (ph_compressed_size h - levLen);
            if ph_is_compressed h then
              o ← PgColumnarParquetDecompress codec vraw (if levLen <? ph_uncompressed_size h then ph_uncompressed_size h - levLen else 0);
              Ok (match o with Some v => Some (preps, pdefs, v) | None => None end)
            else Ok (Some (preps, pdefs, vraw))
        end
    end
  else
    o ← PgColumnarParquetDecompress codec praw (u64 (ph_uncompressed_size h));
    match o with
    | None => Ok None
    | Some pb =>
        reps ← optional_levels max_rep npage (level_section pb 0 (pq_bits_for max_rep) npage) 0;
        match reps with
        | None => Ok None
        | Some (preps, off) =>
            defs ← optional_levels max_def npage (level_section pb off (pq_bits_for max_def) npage) off;
            match defs with
            | None => Ok None
            | Some (pdefs, off) => vals ← rd pb off (zlen pb - off); Ok (Some (preps, pdefs, vals))
            end
        end
    end.

(** [pv[i] = dict[idx[i]]] *)
Fixpoint dict_values (dict : list datum) (idx : list Z) : option (list datum) :=
  match idx with
  | [] => Some []
  | i :: idx =>
      if zlen dict <=? i then None
      else match dict !! Z.to_nat i, dict_values dict idx with Some d, Some ds => Some (d :: ds) | _, _ => None end
  end.

(** The [nnn] values of a page. *)
Definition page_values (plan : PqColPlan) (encoding : Z) (dict : option (list datum)) (valbuf : list Z) (nnn : Z) : res (option (list datum)) :=
  _ ← palloc_ok (8 * Z.max nnn 1);
  if (encoding =? PQE_RLE_DICTIONARY) || (encoding =? PQE_PLAIN_DICTIONARY) then
    if 0 <? nnn then
      match dict with
      | None => Ok None
      | Some dict =>
          if (zlen valbuf <? 1) || (zlen dict <? 1) then Ok None
          else
            bw ← rd1 valbuf 0;
            _ ← palloc_ok (4 * nnn);
            rest ← rd valbuf 1 (zlen valbuf - 1);
            o ← rle_bitpack_decode rest bw nnn;
            Ok (match o with Some idx => dict_values dict idx | None => None end)
      end
    else Ok (Some [])
  else if encoding =? PQE_PLAIN then decode_plain plan valbuf nnn
  else if (encoding =? PQE_RLE) && (pl_expect_phys plan =? PQ_BOOLEAN) then
    if zlen valbuf <? 4 then Ok None
    else
      lb ← rd valbuf 0 4;
      let rlen := le_uint lb in
      if zlen valbuf <? rlen + 4 then Ok None
      else
        _ ← palloc_ok (4 * Z.max nnn 1);
        sec ← rd valbuf 4 rlen;
        o ← rle_bitpack_decode sec 1 nnn;
        Ok (match o with Some bits => Some (map (fun b => DBool (negb (b =? 0))) bits) | None => None end)
  else Ok None.

(** How many definition levels say that a value is there. *)
Definition count_present (max_def npage : Z) (pdefs : list Z) : Z :=
  if 0 <? max_def then zlen (filter (fun d => d = max_def) pdefs) else npage.

Definition decode_data_page (codec : Z) (plan : PqColPlan) (max_def max_rep : Z) (h : PqPageHeader) (praw : list Z) (dict : option (list datum)) :
    res (option (list Z * list Z * list datum)) :=
  o ← page_sections codec max_def max_rep h praw;
  match o with
  | None => Ok None
  | Some (preps, pdefs, valbuf) =>
      pv ← page_values plan (ph_encoding h) dict valbuf (count_present max_def (ph_num_values h) pdefs);
      Ok (match pv with Some pv => Some (pdefs, preps, pv) | None => None end)
  end.

(** The dictionary page. *)
Definition decode_dict_page (codec : Z) (plan : PqColPlan) (h : PqPageHeader) (praw : list Z) : res (option (list datum)) :=
  o ← PgColumnarParquetDecompress codec praw (u64 (ph_uncompressed_size h));
  match o with
  | None => Ok None
  | Some db => _ ← palloc_ok (8 * Z.max (ph_num_values h) 1); decode_plain plan db (ph_num_values h)
  end.

(** The guards on a page before its bytes are read. *)
Definition page_guards (src : PqSource) (pos hdrlen : Z) (h : PqPageHeader) (haveDict : bool) : bool :=
  (if ph_type h =? PQ_PAGE_DICTIONARY then negb haveDict else 0 <? ph_num_values h) &&
  negb (ph_is_v2 h && ((ph_def_levels_len h <? 0) || (ph_rep_levels_len h <? 0) ||
                       (ph_compressed_size h <? ph_def_levels_len h + ph_rep_levels_len h))) &&
  (0 <=? ph_compressed_size h) && (ph_compressed_size h <=? src_len src - pos - hdrlen).

(** The page loop.  [dict] is also whether a dictionary page was seen; [defs] and
    [reps] are what is written of arrays of [lcap] slots, [vals] of one of
    [vcap].  A page takes at least one byte of the file. *)
Fixpoint decode_pages (fuel : nat) (src : PqSource) (ch : PqChunk) (plan : PqColPlan) (max_def max_rep lcap vcap pos : Z) (dict : option (list datum))
    (defs reps : list Z) (vals : list datum) : res (option (list Z * list Z * list datum)) :=
  if (zlen defs <? ch_num_values ch) && (pos <? src_len src) then
    match fuel with
    | O => Fuel
    | S fuel =>
        oh ← pq_read_page_header stack src pos;
        match oh with
        | None => Ok None
        | Some (h, hdrlen) =>
            if negb (page_guards src pos hdrlen h (bool_decide (dict <> None))) then Ok None
            else
              _ ← palloc_ok (Z.max (ph_compressed_size h) 1);
              praw ← pq_source_read src (pos + hdrlen) (ph_compressed_size h);
              let next := pos + (hdrlen + ph_compressed_size h) in
              if ph_type h =? PQ_PAGE_DICTIONARY then
                od ← decode_dict_page (ch_codec ch) plan h praw;
                match od with
                | None => Ok None
                | Some d => decode_pages fuel src ch plan max_def max_rep lcap vcap next (Some d) defs reps vals
                end
              else
                op ← decode_data_page (ch_codec ch) plan max_def max_rep h praw dict;
                match op with
                | None => Ok None
                | Some (pdefs, preps, pv) =>
                    if ch_num_values ch <? zlen defs + ph_num_values h then Ok None
                    else
                      defs ← store_all lcap defs pdefs;
                      reps ← store_all lcap reps preps;
                      vals ← store_all vcap vals pv;
                      decode_pages fuel src ch plan max_def max_rep lcap vcap next dict defs reps vals
                end
        end
    end
  else Ok (if zlen defs =? ch_num_values ch then Some (defs, reps, vals) else None).

(** The entries and present values of a chunk, written to the arrays of the
    caller, and the source with its window. *)
Definition decode_leaf_entries (src : PqSource) (ch : PqChunk) (plan : PqColPlan) (max_def max_rep lcap vcap : Z) :
    res (PqSource * option (list Z * list Z * list datum)) :=
  let pos := if ch_dict_page_offset ch =? 0 then ch_data_page_offset ch else ch_dict_page_offset ch in
  src ← (if 0 <? ch_total_compressed_size ch then pq_source_prefetch buffered src pos (s64 (ch_total_compressed_size ch + PQ_PAGE_HDR_WIN_MIN)) else Ok src);
  o ← decode_pages (S (length (src_bytes src))) src ch plan max_def max_rep lcap vcap pos None [] [] [];
  Ok (src, o).
End Decode.

(** ** Any bytes: headers *)

Section StructSafety.
Context {A : Type} (body : TCReader -> A -> Z -> Z -> res (TCReader * A)).

Lemma parse_fields_safe : (forall r a fid ft, reader_ok r -> safe (fun '(r', _) => moved r r') (body r a fid ft)) ->
  forall fuel r a lastId, reader_ok r -> tc_len r - tc_pos r < Z.of_nat fuel ->
  safe (fun '(r', _) => moved r r' /\ (tc_error r' = true \/ tc_pos r < tc_pos r')) (parse_fields fuel body r a lastId).
Proof.
  intros Hbody. induction fuel as [|fuel IH]; intros r a lastId Hr Hf; cbn [parse_fields]; [destruct Hr as (_ & ? & _); exfalso; lia|].
  eapply safe_bind; [by apply field_safe|]. intros [[[ft fid] last] r1] [Hp1 _]. pose proof Hp1 as [M1 P1]. pose proof M1 as (E1 & L1 & O1).
  destruct ((ft =? TC_STOP) || tc_error r1) eqn:E; [split; done|]. apply orb_false_iff in E as [_ E]. destruct P1 as [P1|P1]; [congruence|].
  eapply safe_bind; [by apply Hbody|]. intros [r2 a2] M2. pose proof M2 as (E2 & L2 & O2).
  eapply safe_mono; [apply IH; [done|unfold tc_len in *; rewrite E2, E1; lia]|]. intros [r3 a3] [M3 _].
  split; [eapply moved_trans; [|exact M3]; by eapply moved_trans|]. right. destruct M3 as (_ & ? & _). lia.
Qed.

Lemma parse_struct_safe r a : (forall r a fid ft, reader_ok r -> safe (fun '(r', _) => moved r r') (body r a fid ft)) -> reader_ok r ->
  safe (fun '(r', _) => moved r r' /\ (tc_error r' = true \/ tc_pos r < tc_pos r')) (parse_struct body r a).
Proof. intros Hb Hr. apply parse_fields_safe; [done|done|]. lia. Qed.
End StructSafety.

Lemma page_i32_safe set r h ft : reader_ok r -> safe (fun '(r', _) => moved r r') (pq_page_i32 set r h ft).
Proof.
  intros Hr. unfold pq_page_i32. destruct (negb _); [by apply fail_progress|]. eapply safe_bind; [by apply zigzag_safe|]. intros [z r'] [_ [M _]]. exact M.
Qed.

Lemma skip_field_safe {A} stack r (a : A) ft : reader_ok r -> safe (fun '(r', _) => moved r r') (skip_field stack r a ft).
Proof. intros Hr. unfold skip_field. eapply safe_bind; [by apply skip_safe|]. intros r' [M _]. exact M. Qed.

Lemma data_page_field_safe stack v2 r h fid ft : reader_ok r -> safe (fun '(r', _) => moved r r') (data_page_field stack v2 r h fid ft).
Proof.
  intros Hr. unfold data_page_field.
  repeat match goal with |- safe _ (if ?b then _ else _) => destruct b end; try (by apply page_i32_safe); try (by apply skip_field_safe). by apply moved_refl.
Qed.

Lemma page_field_safe stack r h fid ft : reader_ok r -> safe (fun '(r', _) => moved r r') (page_field stack r h fid ft).
Proof.
  intros Hr. assert (Hs : forall body, (safe (fun '(r', _) => moved r r') (body r h)) -> safe (fun '(r', _) => moved r r') (pq_page_struct body r h ft)).
  { intros body Hb. unfold pq_page_struct. destruct (negb _); [by apply fail_progress|done]. }
  assert (Hd : forall v2, safe (fun '(r', _) => moved r r') (parse_data_page_header stack v2 r h)).
  { intros v2. eapply safe_mono; [apply parse_struct_safe; [intros; by apply data_page_field_safe|done]|]. by intros [r' h'] [M _]. }
  unfold page_field.
  destruct (fid =? 1); [by apply page_i32_safe|]. destruct (fid =? 2); [by apply page_i32_safe|]. destruct (fid =? 3); [by apply page_i32_safe|].
  destruct (fid =? 5); [by apply Hs|]. destruct (fid =? 7).
  - apply Hs. eapply safe_mono; [apply parse_struct_safe; [|done]|by intros [r' h'] [M _]].
    intros r0 a0 fid0 ft0 Hr0. unfold dict_page_field. repeat match goal with |- safe _ (if ?b then _ else _) => destruct b end; try (by apply page_i32_safe). by apply skip_field_safe.
  - destruct (fid =? 8); [by apply Hs|by apply skip_field_safe].
Qed.

Lemma parse_page_header_safe stack r : reader_ok r -> safe (fun '(r', _) => moved r r' /\ (tc_error r' = true \/ tc_pos r < tc_pos r')) (parse_page_header stack r).
Proof. intros Hr. apply parse_struct_safe; [intros; by apply page_field_safe|done]. Qed.

(** ** The byte source *)

(** The window holds bytes of the source. *)
Definition src_ok (src : PqSource) : Prop :=
  bytes_ok (src_bytes src) /\ zlen (src_bytes src) < 2 ^ 60 /\
  match src_win src with
  | None => True
  | Some (winOff, win) => 0 <= winOff /\ winOff + zlen win <= src_len src /\ win = take (length win) (drop (Z.to_nat winOff) (src_bytes src))
  end.

Lemma source_read src off n : src_ok src -> 0 <= off -> 0 <= n -> off + n <= src_len src -> pq_source_read src off n = rd (src_bytes src) off n.
Proof.
  intros (Hb & Hl & Hw) Ho Hn Hle. unfold pq_source_read. destruct (src_win src) as [[wo win]|]; [|done]. destruct Hw as (W1 & W2 & W3).
  destruct (Z.leb_spec wo off); [|done]. destruct (Z.leb_spec (off + n) (wo + zlen win)); [|done]. cbn [andb]. unfold src_len in *.
  rewrite !rd_Ok by lia. f_equal. rewrite W3, skipn_firstn_comm, take_take, drop_drop.
  replace (Z.to_nat wo + Z.to_nat (off - wo))%nat with (Z.to_nat off) by lia. f_equal. unfold zlen in *. lia.
Qed.

Lemma prefetch_ok buffered src off n : src_ok src ->
  exists src', pq_source_prefetch buffered src off n = Ok src' /\ src_ok src' /\ src_bytes src' = src_bytes src.
Proof.
  intros Hs. unfold pq_source_prefetch. destruct (_ || negb buffered); [by exists src|]. destruct (Z.ltb_spec off 0), (Z.leb_spec (src_len src) off); cbn [orb]; try (by exists src).
  set (n' := Z.min n (src_len src - off)). destruct (Z.leb_spec n' 0), (Z.ltb_spec MaxAllocSize n'); cbn [orb]; try (by exists src).
  assert (n' <= src_len src - off) by lia. unfold src_len in *. rewrite rd_Ok, bind_Ok by lia. eexists. split; [done|]. destruct Hs as (Hb & Hl & _). split; [|done].
  split; [done|]. split; [done|]. cbn [src_win src_len src_bytes]. assert (Hz : zlen (take (Z.to_nat n') (drop (Z.to_nat off) (src_bytes src))) = n') by (apply zlen_sub; lia).
  split; [lia|]. split; [unfold src_len; cbn [src_bytes]; lia|]. unfold zlen in Hz. f_equal. lia.
Qed.

(** ** Any bytes: chunks *)

(** What zlib documents: it writes bytes, and no more than the buffer takes. *)
Class ZlibLaws (ZL : Zlib) : Prop := {
  inflate_capacity : forall src cap out, inflate_finish src cap = Some out -> bytes_ok out /\ zlen out <= cap }.

Section DecodeSafety.
Context `{T : PgTypes} `{L : !PgTypesLaws} `{C : BlockCodecs} `{CL : !BlockCodecLaws C} `{ZL : Zlib} `{ZLL : !ZlibLaws ZL} (stack : nat) (buffered : bool).

Definition small_bytes (bs : list Z) : Prop := bytes_ok bs /\ zlen bs <= MaxAllocSize.

Lemma decompress_bytes codec src usize : small_bytes src -> safe (fun o => match o with None => True | Some out => small_bytes out end) (PgColumnarParquetDecompress codec src usize).
Proof using CL ZLL.
  intros Hs. unfold PgColumnarParquetDecompress. destruct (Z.ltb_spec MaxAllocSize (zlen src)); [done|]. destruct (Z.ltb_spec MaxAllocSize usize) as [|Hu]; [done|]. cbn [orb].
  destruct (_ =? PQC_UNCOMPRESSED); [done|]. 
  assert (Hlib : forall o, (forall out, o = Some out -> bytes_ok out) -> safe (fun o => match o with None => True | Some out => small_bytes out end) (library_output usize o)).
  { intros o Ho. unfold library_output. destruct (_ =? 0); [split; [constructor|done]|]. unfold enlargeStringInfo. destruct (_ <? 0); [done|]. destruct (_ <=? _); [done|].
    destruct o as [out|]; [|done]. cbn. destruct (Z.eqb_spec (zlen out) usize); [|done]. split; [by apply Ho|lia]. }
  destruct (_ =? PQC_SNAPPY).
  { eapply safe_bind; [apply snappy_safe, Hs|]. intros [out|] Ho; [|done]. cbn. destruct (Z.eqb_spec (zlen out) usize); [|done]. split; [done|lia]. }
  destruct (_ && HAVE_LIBZ); [apply Hlib; intros out E; by apply inflate_capacity in E as []|].
  destruct (_ && HAVE_LIBZSTD); [apply Hlib; intros out E; by apply zstd_capacity in E as []|].
  destruct (_ && HAVE_LIBLZ4); [apply Hlib; intros out E; by apply lz4_capacity in E as []|]. done.
Qed.

Lemma palloc_safe (P : Prop) sz : P -> safe (fun _ => P /\ sz <= MaxAllocSize) (palloc_ok sz).
Proof using. intros HP. unfold palloc_ok. destruct (Z.ltb_spec MaxAllocSize sz); done. Qed.

Lemma rle_small_safe sec w n : small_bytes sec -> 0 <= n -> safe (fun o => match o with None => True | Some ls => zlen ls = n end) (rle_bitpack_decode sec w n).
Proof using.
  intros [Hb Hl] Hn. unfold MaxAllocSize in Hl. eapply safe_mono; [apply rle_decode_safe; [done|lia|done]|]. intros [ls|]; [|done]. by intros [? _].
Qed.

Lemma small_sub bs off n : small_bytes bs -> small_bytes (take n (drop off bs)).
Proof using. intros [Hb Hl]. split; [by apply bytes_ok_sub|]. unfold zlen in *. rewrite length_take, length_drop. lia. Qed.

Lemma level_section_safe pb off w npage : small_bytes pb -> 0 <= off <= zlen pb -> 0 <= npage ->
  safe (fun o => match o with None => True | Some (ls, off') => zlen ls = npage /\ off <= off' <= zlen pb end) (level_section pb off w npage).
Proof using.
  intros Hb Ho Hn. unfold level_section. destruct (Z.ltb_spec (zlen pb) (off + 4)); [done|]. rewrite rd_Ok, bind_Ok by lia. cbv zeta.
  set (lb := take _ _). assert (Hlb : bytes_ok lb) by (apply (bytes_ok_sub pb), Hb). pose proof (le_uint_bound lb Hlb) as [Hl _].
  destruct (Z.ltb_spec (zlen pb) (off + 4 + le_uint lb)); [done|]. eapply safe_bind; [by apply (palloc_safe True)|]. intros _ _.
  rewrite rd_Ok, bind_Ok by lia. eapply safe_bind; [apply rle_small_safe; [by apply small_sub|done]|]. intros [ls|] Hls; [|done]. cbn. split; [done|lia].
Qed.

Lemma optional_levels_safe P max npage decode off : (P (replicate (Z.to_nat npage) 0, off) : Prop) ->
  safe (fun o => match o with None => True | Some x => P x end) decode -> safe (fun o => match o with None => True | Some x => P x end) (optional_levels max npage decode off).
Proof using. intros H1 H2. unfold optional_levels. by destruct (0 <? max). Qed.

Lemma zlen_replicate {A} (x : A) n : 0 <= n -> zlen (replicate (Z.to_nat n) x) = n.
Proof using. intros Hn. unfold zlen. rewrite length_replicate. lia. Qed.

Lemma page_sections_safe codec max_def max_rep h praw : small_bytes praw -> 0 <= ph_num_values h ->
  (ph_is_v2 h = true -> 0 <= ph_def_levels_len h /\ 0 <= ph_rep_levels_len h /\ ph_def_levels_len h + ph_rep_levels_len h <= ph_compressed_size h) ->
  zlen praw = ph_compressed_size h ->
  safe (fun o => match o with None => True | Some (preps, pdefs, v) => zlen preps = ph_num_values h /\ zlen pdefs = ph_num_values h /\ small_bytes v end)
    (page_sections codec max_def max_rep h praw).
Proof using CL ZLL.
  intros Hb Hn Hv2 Hl. unfold page_sections. cbv zeta. destruct (ph_is_v2 h) eqn:Ev.
  - destruct (Hv2 eq_refl) as (V1 & V2 & V3).
    assert (Hsec : forall off len w, 0 <= off -> 0 <= len -> off + len <= zlen praw ->
      safe (fun o => match o with None => True | Some (ls, _) => zlen ls = ph_num_values h end)
        (_ ← palloc_ok (4 * ph_num_values h); sec ← rd praw off len; o ← rle_bitpack_decode sec w (ph_num_values h);
         Ok (match o with Some ls => Some (ls, off + len) | None => None end))).
    { intros off len w H1 H2 H3. eapply safe_bind; [by apply (palloc_safe True)|]. intros _ _. rewrite rd_Ok, bind_Ok by lia.
      eapply safe_bind; [apply rle_small_safe; [by apply small_sub|done]|]. by intros [ls|]. }
    eapply (safe_bind (fun o => match o with None => True | Some (ls, _) => zlen ls = ph_num_values h end)).
    { apply (optional_levels_safe (fun '(ls, _) => zlen ls = ph_num_values h)); [by apply zlen_replicate|]. eapply safe_mono; [apply Hsec; lia|]. by intros [[? ?]|]. }
    intros [[preps o1]|] Hreps; [|done]. eapply (safe_bind (fun o => match o with None => True | Some (ls, _) => zlen ls = ph_num_values h end)).
    { apply (optional_levels_safe (fun '(ls, _) => zlen ls = ph_num_values h)); [by apply zlen_replicate|]. eapply safe_mono; [apply Hsec; lia|]. by intros [[? ?]|]. }
    intros [[pdefs o2]|] Hdefs; [|done]. rewrite rd_Ok, bind_Ok by lia. destruct (ph_is_compressed h); [|cbn; split; [done|]; split; [done|by apply small_sub]].
    eapply safe_bind; [apply decompress_bytes; by apply small_sub|]. intros [v|] Hv; [|done]. cbn. done.
  - eapply safe_bind; [by apply decompress_bytes|]. intros [pb|] Hpb; [|done]. pose proof (zlen_nonneg pb).
    eapply (safe_bind (fun o => match o with None => True | Some (ls, off) => zlen ls = ph_num_values h /\ 0 <= off <= zlen pb end)).
    { apply (optional_levels_safe (fun '(ls, off) => zlen ls = ph_num_values h /\ 0 <= off <= zlen pb)); [split; [by apply zlen_replicate|lia]|].
      eapply safe_mono; [apply level_section_safe; [done|lia|done]|]. by intros [[? ?]|]. }
    intros [[preps off]|] Hreps; [|done]. destruct Hreps as [Hreps Hoff].
    eapply (safe_bind (fun o => match o with None => True | Some (ls, off) => zlen ls = ph_num_values h /\ 0 <= off <= zlen pb end)).
    { apply (optional_levels_safe (fun '(ls, off) => zlen ls = ph_num_values h /\ 0 <= off <= zlen pb)); [split; [by apply zlen_replicate|lia]|].
      eapply safe_mono; [apply level_section_safe; [done|lia|done]|]. intros [[? ?]|]; [|done]. intros [? ?]. split; [done|lia]. }
    intros [[pdefs off2]|] Hdefs; [|done]. destruct Hdefs as [Hdefs Hoff2]. rewrite rd_Ok, bind_Ok by lia. cbn. split; [done|]. split; [done|by apply small_sub].
Qed.

Lemma plain_values_safe plan buf n : forall p, bytes_ok buf -> 0 <= p <= zlen buf ->
  safe (fun o => match o with None => True | Some ds => length ds = n end) (decode_plain_values n plan buf p).
Proof using L.
  induction n as [|n IH]; intros p Hb Hp; cbn [decode_plain_values]; [done|]. eapply safe_bind; [by apply plain_value_safe|]. intros [[d p']|]; [|done]. cbn [moves].
  intros Hp'. eapply safe_bind; [apply IH; [done|lia]|]. intros [ds|] Hds; [|done]. cbn in *. lia.
Qed.

Lemma plain_bools_safe buf n : safe (fun o => match o with None => True | Some ds => zlen ds = n end) (decode_plain_bools buf n).
Proof using.
  unfold decode_plain_bools. destruct (Z.ltb_spec n 0); [done|]. destruct (Z.ltb_spec (zlen buf) ((n + 7) / 8)) as [|Hl]; [done|]. cbn [orb]. div_bounds (n + 7) 8.
  eapply safe_bind; [apply (forZ_safe (fun i (out : list datum) => zlen out = i)); [lia| |done]|].
  - intros i out Hi Ho. pose proof (pos_byte i (8 * zlen buf) (zlen buf) ltac:(lia) ltac:(reflexivity)). rewrite rd1_Ok, bind_Ok by lia. cbn [safe]. rewrite zlen_app, Ho. done.
  - intros out Ho. exact Ho.
Qed.

Lemma decode_plain_safe plan buf n : bytes_ok buf -> 0 <= n -> safe (fun o => match o with None => True | Some ds => zlen ds = n end) (decode_plain plan buf n).
Proof using L.
  intros Hb Hn. unfold decode_plain. destruct (_ =? _); [apply plain_bools_safe|]. eapply safe_mono; [apply plain_values_safe; [done|pose proof (zlen_nonneg buf); lia]|].
  intros [ds|]; [|done]. unfold zlen. lia.
Qed.

Lemma dict_values_len dict idx ds : dict_values dict idx = Some ds -> zlen ds = zlen idx.
Proof using.
  revert ds. induction idx as [|i idx IH]; intros ds; cbn [dict_values]; [by intros [= <-]|]. destruct (_ <=? _); [done|]. destruct (dict !! _); [|done].
  destruct (dict_values dict idx); [|done]. intros [= <-]. rewrite !zlen_cons. by rewrite IH.
Qed.

Lemma page_values_safe plan enc dict valbuf nnn : small_bytes valbuf -> 0 <= nnn ->
  safe (fun o => match o with None => True | Some ds => zlen ds = nnn end) (page_values plan enc dict valbuf nnn).
Proof using L.
  intros Hb Hn. unfold page_values. pose proof (zlen_nonneg valbuf). eapply safe_bind; [by apply (palloc_safe True)|]. intros _ _. destruct (_ || _).
  { destruct (Z.ltb_spec 0 nnn); [|cbn; change (zlen (@nil datum)) with 0; lia]. destruct dict as [dict|]; [|done]. destruct (Z.ltb_spec (zlen valbuf) 1); [done|]. cbn [orb].
    destruct (_ <? 1); [done|]. rewrite rd1_Ok, bind_Ok by lia. eapply safe_bind; [by apply (palloc_safe True)|]. intros _ _. rewrite rd_Ok, bind_Ok by lia.
    eapply safe_bind; [apply rle_small_safe; [by apply small_sub|done]|]. intros [idx|] Hidx; [|done]. cbn [safe]. destruct (dict_values dict idx) as [ds|] eqn:E; [|done].
    by rewrite (dict_values_len _ _ _ E). }
  destruct (_ =? PQE_PLAIN); [apply decode_plain_safe; [apply Hb|done]|]. destruct (_ && _); [|done]. destruct (Z.ltb_spec (zlen valbuf) 4); [done|].
  rewrite rd_Ok, bind_Ok by lia. cbv zeta. set (lb := take _ _). assert (Hlb : bytes_ok lb) by (apply (bytes_ok_sub valbuf), Hb). pose proof (le_uint_bound lb Hlb) as [Hl _].
  destruct (Z.ltb_spec (zlen valbuf) (le_uint lb + 4)); [done|]. eapply safe_bind; [by apply (palloc_safe True)|]. intros _ _. rewrite rd_Ok, bind_Ok by lia.
  eapply safe_bind; [apply rle_small_safe; [by apply small_sub|done]|]. intros [bits|] Hbits; [|done]. cbn [safe]. unfold zlen in *. by rewrite length_map.
Qed.

Lemma count_present_range max_def npage pdefs : 0 <= npage -> zlen pdefs = npage -> 0 <= count_present max_def npage pdefs <= npage.
Proof using.
  intros Hn Hl. unfold count_present. destruct (0 <? max_def); [|lia]. unfold zlen in *. pose proof (length_filter (fun d => d = max_def) pdefs). lia.
Qed.

Lemma header_windows_safe src off avail : src_ok src -> 0 <= off -> 0 < avail -> off + avail <= src_len src -> forall fuel win, 0 < win -> PQ_PAGE_HDR_WIN_MAX <= win * 2 ^ (Z.of_nat fuel - 1) -> (0 < fuel)%nat ->
  safe (fun o => match o with None => True | Some (h, n) => 0 < n <= avail end) (header_windows stack fuel src off avail win).
Proof using.
  intros Hs Ho Ha Hl. induction fuel as [|fuel IH]; intros win Hw Hmax Hf; [lia|]. cbn [header_windows]. cbv zeta.
  set (n := Z.min win avail). assert (Hn : 0 < n <= avail) by lia. rewrite source_read by (done || lia). unfold src_len in *. rewrite rd_Ok, bind_Ok by lia.
  set (buf := take _ _). assert (Hz : zlen buf = n) by (apply zlen_sub; lia). destruct Hs as (Hb & Hlen & _).
  assert (Hr : reader_ok (mkReader buf 0 false)) by (split; [by apply bytes_ok_sub|]; unfold tc_len; cbn [tc_buf tc_pos]; lia).
  eapply safe_bind; [by apply parse_page_header_safe|]. intros [hr h] [(E & _ & _ & Hpos & _) Hp]. destruct (tc_error hr) eqn:Ee; cbn [negb].
  - destruct (ph_bad_type h); [done|]. cbn [orb]. destruct (Z.leb_spec avail n); [done|]. cbn [orb]. destruct (Z.leb_spec PQ_PAGE_HDR_WIN_MAX win); [done|].
    destruct fuel as [|fuel]; [cbn in Hmax; lia|]. apply IH; [lia| |lia]. replace (Z.of_nat (S (S fuel)) - 1) with (Z.of_nat (S fuel) - 1 + 1) in Hmax by lia.
    rewrite Z.pow_add_r in Hmax by lia. lia.
  - cbn [safe]. destruct Hp as [|Hp]; [done|]. unfold tc_len in Hpos. rewrite E in Hpos. cbn [tc_buf tc_pos] in *. lia.
Qed.

Lemma read_page_header_safe src off : src_ok src ->
  safe (fun o => match o with None => True | Some (h, n) => 0 <= off /\ 0 < n <= src_len src - off end) (pq_read_page_header stack src off).
Proof using.
  intros Hs. unfold pq_read_page_header. destruct (Z.ltb_spec off 0); [done|]. destruct (Z.leb_spec (src_len src) off); [done|]. cbn [orb].
  eapply safe_mono; [apply header_windows_safe; [done|lia|lia|lia|done|vm_compute; discriminate|lia]|]. intros [[h n]|]; [|done]. lia.
Qed.

(** The entries decoded so far. *)
Record entries_ok (max_def num : Z) (defs reps : list Z) (vals : list datum) : Prop := {
  en_reps : zlen reps = zlen defs;
  en_vals : zlen vals = count_present max_def (zlen defs) defs;
  en_num : zlen defs <= num
}.

Lemma count_present_app max_def a b : count_present max_def (zlen (a ++ b)) (a ++ b) = count_present max_def (zlen a) a + count_present max_def (zlen b) b.
Proof using. unfold count_present. rewrite list.filter_app, !zlen_app. by destruct (0 <? max_def). Qed.

Lemma data_page_safe codec plan max_def max_rep h praw dict : small_bytes praw -> 0 <= ph_num_values h ->
  (ph_is_v2 h = true -> 0 <= ph_def_levels_len h /\ 0 <= ph_rep_levels_len h /\ ph_def_levels_len h + ph_rep_levels_len h <= ph_compressed_size h) ->
  zlen praw = ph_compressed_size h ->
  safe (fun o => match o with None => True | Some (pdefs, preps, pv) => zlen pdefs = ph_num_values h /\ zlen preps = zlen pdefs /\ zlen pv = count_present max_def (zlen pdefs) pdefs end)
    (decode_data_page codec plan max_def max_rep h praw dict).
Proof using L CL ZLL.
  intros Hb Hn Hv Hl. unfold decode_data_page. eapply safe_bind; [by apply page_sections_safe|]. intros [[[preps pdefs] v]|]; [|done]. intros (S1 & S2 & S3).
  eapply safe_bind; [apply page_values_safe; [done|by apply count_present_range]|]. intros [pv|] Hpv; [|done]. cbn [safe]. rewrite S2. split; [done|]. split; [lia|done].
Qed.

Lemma decode_pages_safe src ch plan max_def max_rep lcap vcap : src_ok src -> ch_num_values ch <= lcap -> ch_num_values ch <= vcap -> forall fuel pos dict defs reps vals,
  src_len src - pos <= Z.of_nat fuel -> entries_ok max_def (Z.max (ch_num_values ch) 0) defs reps vals ->
  safe (fun o => match o with None => True | Some (defs, reps, vals) => zlen defs = ch_num_values ch /\ entries_ok max_def (Z.max (ch_num_values ch) 0) defs reps vals end)
    (decode_pages stack fuel src ch plan max_def max_rep lcap vcap pos dict defs reps vals).
Proof using L CL ZLL.
  intros Hs Hlc Hvc. induction fuel as [|fuel IH]; intros pos dict defs reps vals Hf He; cbn [decode_pages].
  { destruct (Z.ltb_spec pos (src_len src)); [exfalso; lia|]. rewrite andb_false_r. cbn [safe]. by destruct (Z.eqb_spec (zlen defs) (ch_num_values ch)). }
  destruct ((zlen defs <? ch_num_values ch) && (pos <? src_len src)) eqn:Ec; [|cbn [safe]; by destruct (Z.eqb_spec (zlen defs) (ch_num_values ch))].
  eapply safe_bind; [by apply read_page_header_safe|]. intros [[h hdrlen]|]; [|done]. intros [Hpos Hh].
  destruct (page_guards _ _ _ _ _) eqn:Eg; cbn [negb]; [|done]. unfold page_guards in Eg. rewrite !andb_true_iff in Eg. destruct Eg as [[[G1 G2] G3%Z.leb_le] G4%Z.leb_le].
  eapply safe_bind; [by apply (palloc_safe True)|]. intros [] [_ Hmax]. rewrite source_read by (done || lia). unfold src_len in *. rewrite rd_Ok, bind_Ok by lia. cbv zeta.
  set (praw := take _ _). assert (Hz : zlen praw = ph_compressed_size h) by (apply zlen_sub; lia).
  assert (Hsm : small_bytes praw) by (split; [apply bytes_ok_sub, Hs|lia]). destruct (_ =? PQ_PAGE_DICTIONARY) eqn:Et.
  - eapply (safe_bind (fun _ => True)).
    { unfold decode_dict_page. eapply safe_bind; [by apply decompress_bytes|]. intros [db|] Hdb; [|done]. eapply safe_bind; [by apply (palloc_safe True)|]. intros _ _.
      unfold decode_plain. destruct (_ =? PQ_BOOLEAN); [by eapply safe_mono; [apply plain_bools_safe|]|].
      eapply safe_mono; [apply plain_values_safe; [apply Hdb|pose proof (zlen_nonneg db); lia]|done]. }
    intros [d|] _; [|done]. apply IH; [lia|done].
  - apply Z.ltb_lt in G1. eapply safe_bind; [apply data_page_safe; [done|lia| |done]|].
    { intros Ev. rewrite Ev in G2. cbn [andb] in G2. apply negb_true_iff in G2. rewrite !orb_false_iff in G2. destruct G2 as [[?%Z.ltb_ge ?%Z.ltb_ge] ?%Z.ltb_ge]. lia. }
    intros [[[pdefs preps] pv]|]; [|done]. intros (D1 & D2 & D3). destruct (Z.ltb_spec (ch_num_values ch) (zlen defs + ph_num_values h)); [done|].
    destruct He as [E1 E2 E3]. pose proof (count_present_range max_def _ pdefs (zlen_nonneg pdefs) eq_refl). pose proof (count_present_range max_def _ defs (zlen_nonneg defs) eq_refl).
    rewrite !store_all_Ok, !bind_Ok by lia. apply IH; [lia|]. split; [rewrite !zlen_app; lia|rewrite count_present_app, zlen_app; lia|rewrite zlen_app; lia].
Qed.

Lemma decode_leaf_safe src ch plan max_def max_rep lcap vcap : src_ok src -> ch_num_values ch <= lcap -> ch_num_values ch <= vcap ->
  safe (fun '(src', o) => src_ok src' /\ src_bytes src' = src_bytes src /\
      match o with None => True | Some (defs, reps, vals) => zlen defs = ch_num_values ch /\ entries_ok max_def (Z.max (ch_num_values ch) 0) defs reps vals end)
    (decode_leaf_entries stack buffered src ch plan max_def max_rep lcap vcap).
Proof using L CL ZLL.
  intros Hs Hlc Hvc. unfold decode_leaf_entries. cbv zeta. set (pos := if _ =? 0 then _ else _).
  assert (Hpre : exists src', (if 0 <? ch_total_compressed_size ch then pq_source_prefetch buffered src pos (s64 (ch_total_compressed_size ch + PQ_PAGE_HDR_WIN_MIN)) else Ok src) = Ok src' /\
    src_ok src' /\ src_bytes src' = src_bytes src) by (destruct (0 <? _); [by apply prefetch_ok|by exists src]).
  destruct Hpre as (src' & -> & Hs' & Eb). rewrite bind_Ok.
  destruct (Z.ltb_spec pos 0) as [Hneg|Hpos].
  - (* a negative offset is refused by the header *)
    cbn [decode_pages]. destruct (_ && _); [|].
    + unfold pq_read_page_header. rewrite (proj2 (Z.ltb_lt pos 0)) by lia. cbn [orb]. rewrite !bind_Ok. done.
    + rewrite bind_Ok. cbn [safe]. split; [done|]. split; [done|]. destruct (Z.eqb_spec (zlen (@nil Z)) (ch_num_values ch)) as [E|]; [|done].
      split; [done|]. split; [done|unfold count_present; by destruct (0 <? max_def)|change (zlen (@nil Z)) with 0 in *; lia].
  - eapply safe_bind; [apply decode_pages_safe; [done|done|done|unfold src_len, zlen; lia|]|].
    + split; [done|unfold count_present; by destruct (0 <? max_def)|change (zlen (@nil Z)) with 0; lia].
    + intros o Ho. cbn [safe]. done.
Qed.
End DecodeSafety.

(** ** Reading a struct that was written *)

(** Id, type and payload of the fields of a struct. *)
Fixpoint struct_bytes (lastId : Z) (fs : list (Z * Z * list Z)) : list Z :=
  match fs with
  | [] => PgColumnarThriftPutStop
  | (id, type, payload) :: fs => PgColumnarThriftPutField lastId id type ++ payload ++ struct_bytes id fs
  end.

Definition field_ok (id type : Z) : Prop := - 2 ^ 15 <= id < 2 ^ 15 /\ TC_STOP < type <= TC_UUID.

(** The body of the loop takes the payload of each field and turns [a] into [a']. *)
Inductive consumes {A} (body : TCReader -> A -> Z -> Z -> res (TCReader * A)) : list (Z * Z * list Z) -> A -> A -> Prop :=
| consumes_nil a : consumes body [] a a
| consumes_cons id type payload fs a a1 a2 : field_ok id type ->
    (forall r s, here r (payload ++ s) -> body r a id type = Ok (adv r (zlen payload), a1)) ->
    consumes body fs a1 a2 -> consumes body ((id, type, payload) :: fs) a a2.

Lemma struct_bytes_pos fs : forall lastId, zlen fs < zlen (struct_bytes lastId fs).
Proof.
  induction fs as [|[[id type] payload] fs IH]; intros lastId; cbn [struct_bytes]; [done|]. rewrite zlen_cons, !zlen_app.
  pose proof (put_field_pos lastId id type). pose proof (zlen_nonneg payload). pose proof (IH id). lia.
Qed.

Lemma parse_fields_reads {A} body fs (a a' : A) : consumes body fs a a' -> forall fuel r lastId s, - 2 ^ 15 <= lastId < 2 ^ 15 ->
  here r (struct_bytes lastId fs ++ s) -> (length fs < fuel)%nat ->
  parse_fields fuel body r a lastId = Ok (adv r (zlen (struct_bytes lastId fs)), a').
Proof.
  induction 1 as [a|id type payload fs a a1 a2 [Hid Hty] Hb Hc IH]; intros fuel r lastId s Hl Hr Hf; (destruct fuel as [|fuel]; [cbn in Hf; lia|]); cbn [parse_fields struct_bytes] in *.
  - destruct (reads_stop lastId r s Hr) as [-> _]. done.
  - rewrite <- !app_assoc in Hr. destruct (reads_field lastId id type Hl Hid Hty r _ Hr) as [-> Hr1]. rewrite bind_Ok.
    unfold TC_STOP in Hty. rewrite (proj2 (Z.eqb_neq type TC_STOP)) by (unfold TC_STOP; lia). rewrite (here_error _ _ Hr1). cbn [orb].
    rewrite (Hb _ _ Hr1), bind_Ok. rewrite (IH fuel _ id s Hid); [|by eapply here_adv|cbn in Hf; lia]. rewrite !adv_adv, !zlen_app. by rewrite Z.add_assoc.
Qed.

Lemma parse_struct_reads {A} body fs (a a' : A) r s : consumes body fs a a' -> here r (struct_bytes 0 fs ++ s) ->
  parse_struct body r a = Ok (adv r (zlen (struct_bytes 0 fs)), a').
Proof.
  intros Hc Hr. unfold parse_struct. apply (parse_fields_reads body fs a a' Hc _ r 0 s); [lia|done|]. destruct (here_left r _ Hr) as (_ & Hl & Hp & _).
  rewrite zlen_app in Hl. pose proof (struct_bytes_pos fs 0). pose proof (zlen_nonneg s). unfold zlen in *. lia.
Qed.

(** One field that is a 32-bit integer. *)
Lemma page_i32_reads set h v r s : - 2 ^ 31 <= v < 2 ^ 31 -> here r (PgColumnarThriftPutZigzag32 v ++ s) ->
  pq_page_i32 set r h TC_I32 = Ok (adv r (zlen (PgColumnarThriftPutZigzag32 v)), set h v).
Proof.
  intros Hv Hr. unfold pq_page_i32. change (TC_I32 =? TC_I32) with true. cbn [negb]. destruct (reads_zigzag32 v Hv r s Hr) as [-> _]. rewrite bind_Ok.
  assert (Es : s32 v = v) by (unfold s32; rewrite Z.mod_small; lia). by rewrite Es.
Qed.

Ltac field_ids := split; unfold TC_STOP, TC_UUID, TC_I32, TC_I64, TC_STRUCT, TC_LIST, TC_BINARY, TC_BOOL_TRUE, TC_BOOL_FALSE; lia.

Definition data_header_fields (n : Z) : list (Z * Z * list Z) :=
  [(1, TC_I32, PgColumnarThriftPutZigzag32 n); (2, TC_I32, PgColumnarThriftPutZigzag32 PQ_ENC_PLAIN); (3, TC_I32, PgColumnarThriftPutZigzag32 PQ_ENC_RLE);
   (4, TC_I32, PgColumnarThriftPutZigzag32 PQ_ENC_RLE)].

Definition page_header_fields (n size : Z) : list (Z * Z * list Z) :=
  [(1, TC_I32, PgColumnarThriftPutZigzag32 0); (2, TC_I32, PgColumnarThriftPutZigzag32 size); (3, TC_I32, PgColumnarThriftPutZigzag32 size);
   (5, TC_STRUCT, struct_bytes 0 (data_header_fields n))].

Lemma page_header_bytes n size : 0 <= n < 2 ^ 31 -> write_page_header n size = struct_bytes 0 (page_header_fields n size).
Proof.
  intros Hn. unfold write_page_header, page_header_fields, data_header_fields, PgColumnarThriftPutI32Field. cbn [struct_bytes]. rewrite (s32_small n) by lia.
  rewrite <- !app_assoc. done.
Qed.

(** The header the reader sees of a page the writer wrote. *)
Definition written_header (n size : Z) : PqPageHeader := mkPage 0 size size n PQ_ENC_PLAIN 0 0 true false false.

Lemma page_header_read stack n size r s : 0 <= n < 2 ^ 31 -> 0 <= size < 2 ^ 31 -> here r (write_page_header n size ++ s) ->
  parse_page_header stack r = Ok (adv r (zlen (write_page_header n size)), written_header n size).
Proof.
  intros Hn Hsz. rewrite page_header_bytes by done. intros Hr. apply (parse_struct_reads _ _ _ _ r s); [|done]. unfold page_header_fields.
  eapply consumes_cons; [field_ids|intros r0 s0 H0; apply (page_i32_reads set_type page0 0 r0 s0); [lia|done]|].
  eapply consumes_cons; [field_ids|intros r0 s0 H0; apply (page_i32_reads set_usize _ size r0 s0); [lia|done]|].
  eapply consumes_cons; [field_ids|intros r0 s0 H0; apply (page_i32_reads set_csize _ size r0 s0); [lia|done]|].
  eapply consumes_cons; [field_ids| |apply consumes_nil]. intros r0 s0 H0. unfold page_field, pq_page_struct. cbn [Z.eqb Pos.eqb negb]. change (TC_STRUCT =? TC_STRUCT) with true. cbn [negb].
  apply (parse_struct_reads _ _ _ _ r0 s0); [|done]. unfold data_header_fields.
  eapply consumes_cons; [field_ids|intros r1 s1 H1; apply (page_i32_reads set_num _ n r1 s1); [lia|done]|].
  eapply consumes_cons; [field_ids|intros r1 s1 H1; apply (page_i32_reads set_enc _ PQ_ENC_PLAIN r1 s1); [unfold PQ_ENC_PLAIN; lia|done]|].
  eapply consumes_cons; [field_ids|intros r1 s1 H1; apply (page_i32_reads no_set _ PQ_ENC_RLE r1 s1); [unfold PQ_ENC_RLE; lia|done]|].
  eapply consumes_cons; [field_ids|intros r1 s1 H1; apply (page_i32_reads no_set _ PQ_ENC_RLE r1 s1); [unfold PQ_ENC_RLE; lia|done]|].
  apply consumes_nil.
Qed.

(** ** A page that was written *)

Lemma put_zigzag32_len v : 1 <= zlen (PgColumnarThriftPutZigzag32 v) <= 10.
Proof. unfold PgColumnarThriftPutZigzag32. apply (put_varint_bytes 9). apply mod_pow2_bound. lia. Qed.

Lemma page_header_len n size : 0 < zlen (write_page_header n size) < 128.
Proof.
  unfold write_page_header, PgColumnarThriftPutI32Field. rewrite !zlen_app.
  repeat match goal with |- context [zlen (PgColumnarThriftPutZigzag32 ?v)] => pose proof (put_zigzag32_len v); generalize dependent (zlen (PgColumnarThriftPutZigzag32 v)); intros end.
  change (zlen (PgColumnarThriftPutField 0 1 TC_I32)) with 1. change (zlen (PgColumnarThriftPutField 1 2 TC_I32)) with 1. change (zlen (PgColumnarThriftPutField 2 3 TC_I32)) with 1.
  change (zlen (PgColumnarThriftPutField 3 5 TC_STRUCT)) with 1. change (zlen (PgColumnarThriftPutField 3 4 TC_I32)) with 1. change (zlen PgColumnarThriftPutStop) with 1. lia.
Qed.

Lemma header_at stack src pre n size post : src_ok src -> src_bytes src = pre ++ write_page_header n size ++ post -> 0 <= n < 2 ^ 31 -> 0 <= size < 2 ^ 31 ->
  pq_read_page_header stack src (zlen pre) = Ok (Some (written_header n size, zlen (write_page_header n size))).
Proof.
  intros Hs E Hn Hsz. pose proof (page_header_len n size) as Hl. pose proof (zlen_nonneg pre). pose proof (zlen_nonneg post).
  assert (Hlen : src_len src = zlen pre + zlen (write_page_header n size) + zlen post) by (unfold src_len; rewrite E, !zlen_app; lia).
  unfold pq_read_page_header. rewrite (proj2 (Z.ltb_ge _ _)), (proj2 (Z.leb_gt _ _)) by lia. cbn [orb].
  generalize 12%nat as fuel. intros fuel. cbn [header_windows]. cbv zeta. unfold PQ_PAGE_HDR_WIN_MIN.
  set (k := Z.min 4096 (src_len src - zlen pre)). rewrite source_read by (done || lia). pose proof Hs as (Hb & Hb2 & _).
  assert (Hrd : rd (src_bytes src) (zlen pre) k = Ok (write_page_header n size ++ take (Z.to_nat (k - zlen (write_page_header n size))) post)).
  { rewrite rd_Ok by (fold (src_len src); lia). f_equal. rewrite E. unfold zlen at 1. rewrite Nat2Z.id, drop_app_length. rewrite take_app_ge by (unfold zlen in *; lia).
    do 2 f_equal. unfold zlen. lia. }
  rewrite Hrd, bind_Ok. rewrite (page_header_read stack n size _ (take (Z.to_nat (k - zlen (write_page_header n size))) post)); [| done | done |].
  - rewrite bind_Ok. done.
  - split; [done|]. rewrite E in Hb. apply Forall_app in Hb as [_ Hb]. apply Forall_app in Hb as [Hb0 Hb1]. split; [apply Forall_app_2; [done|by apply Forall_take]|].
    split; [|by exists []]. cbn [tc_buf]. rewrite zlen_app. unfold zlen at 2. rewrite length_take. unfold src_len in *. unfold zlen in *. lia.
Qed.

Lemma palloc_ok_Ok sz : sz <= MaxAllocSize -> palloc_ok sz = Ok tt.
Proof. intros Hs. unfold palloc_ok. by rewrite (proj2 (Z.ltb_ge _ _)) by done. Qed.

(** A v1 level section at its place. *)
Lemma level_section_at pre h post w n ls : bytes_ok h -> zlen h < 2 ^ 31 -> rle_bitpack_decode h w n = Ok (Some ls) -> 4 * n <= MaxAllocSize ->
  level_section (pre ++ (le_bytes 4 (zlen h) ++ h) ++ post) (zlen pre) w n = Ok (Some (ls, zlen pre + zlen (le_bytes 4 (zlen h) ++ h))).
Proof.
  intros Hb Hl Hd Hn. unfold level_section. pose proof (zlen_nonneg h). rewrite <- app_assoc. destruct (rd_here pre (le_bytes 4 (zlen h)) (h ++ post) 4 eq_refl) as [-> ->].
  rewrite bind_Ok. cbv zeta. rewrite le_uint_le_bytes_id by (cbn; lia). rewrite app_assoc.
  replace (zlen pre + 4) with (zlen (pre ++ le_bytes 4 (zlen h))) by (by rewrite zlen_app, zlen_le_bytes).
  destruct (rd_here (pre ++ le_bytes 4 (zlen h)) h post (zlen h) eq_refl) as [-> ->]. unfold palloc_ok. rewrite (proj2 (Z.ltb_ge _ _)) by done. rewrite !bind_Ok, Hd, bind_Ok.
  do 3 f_equal. rewrite !zlen_app. lia.
Qed.

Section Values.
Context `{T : PgTypes}.

(** Values in a row. *)
Lemma plain_values_at plan (enc : datum -> list Z) ds : (forall d pre post, d ∈ ds -> plain_value_to_datum plan (pre ++ enc d ++ post) (zlen pre) true = Ok (Some (d, zlen pre + zlen (enc d)))) ->
  forall pre post, decode_plain_values (length ds) plan (pre ++ concat (map enc ds) ++ post) (zlen pre) = Ok (Some ds).
Proof using.
  intros Hr. induction ds as [|d ds IH]; intros pre post; cbn [length decode_plain_values map concat]; [done|]. rewrite <- app_assoc, Hr by apply list_elem_of_here.
  rewrite bind_Ok, <- zlen_app, app_assoc, IH; [done|]. intros d' pre' post' Hd'. apply Hr. by apply list_elem_of_further.
Qed.

(** Booleans as bits. *)
Lemma bools_back bs : exists bits, build_bools (map (fun b : bool => if b then 1 else 0) bs) = Ok bits /\ bytes_ok bits /\ zlen bits = (zlen bs + 7) / 8 /\
  decode_plain_bools bits (zlen bs) = Ok (Some (map DBool bs)).
Proof using.
  set (l := map (fun b : bool => if b then 1 else 0) bs). assert (Hl : zlen l = zlen bs) by (unfold l, zlen; by rewrite length_map).
  pose proof (zlen_nonneg bs). div_bounds (zlen bs + 7) 8. set (m := (zlen bs + 7) / 8) in *.
  assert (Hnth : forall i, 0 <= i < zlen bs -> nthZ l i = if nth (Z.to_nat i) bs false then 1 else 0).
  { intros i Hi. exact (map_nth (fun b : bool => if b then 1 else 0) bs false (Z.to_nat i)). }
  assert (Hb : exists bits, build_bools l = Ok bits /\ bytes_ok bits /\ zlen bits = m /\ forall p, 0 <= p -> bit_set bits p = (p <? zlen bs) && nth (Z.to_nat p) bs false).
  { unfold build_bools. rewrite Hl. fold m.
    destruct (forZ_Ok (fun i bits => bytes_ok bits /\ zlen bits = m /\ forall p, 0 <= p -> bit_set bits p = (p <? i) && nth (Z.to_nat p) bs false)
      (fun i bits => b ← rd1 l i; if b =? 0 then Ok bits else set_bit bits i) 0 (zlen bs) (replicate (Z.to_nat m) 0)) as (bits & -> & Hbits).
    - lia.
    - intros i bits Hi (B1 & B2 & B3). rewrite rd1_Ok, bind_Ok by lia. rewrite Hnth by lia.
      assert (Hnext : forall p, (p <? i + 1) = (p <? i) || (p =? i)) by (intros p; destruct (Z.ltb_spec p (i + 1)), (Z.ltb_spec p i), (Z.eqb_spec p i); lia || done).
      destruct (nth (Z.to_nat i) bs false) eqn:Ei; cbn [Z.eqb].
      + destruct (set_bit_spec bits i B1) as (bits' & -> & Q1 & Q2 & Q3); [lia|]. exists bits'. split; [done|]. split; [done|]. split; [lia|].
        intros p Hp. rewrite Q3, B3, Hnext by done. destruct (Z.eqb_spec p i) as [->|]; [by rewrite Ei, !orb_true_r|by rewrite !orb_false_r].
      + exists bits. split; [done|]. split; [done|]. split; [done|]. intros p Hp. rewrite B3, Hnext by done.
        destruct (Z.eqb_spec p i) as [->|]; [by rewrite Ei, !andb_false_r|by rewrite orb_false_r].
    - split; [apply Forall_replicate; done|]. split; [unfold zlen; rewrite length_replicate; lia|]. intros p Hp. rewrite bit_set_zeros, (proj2 (Z.ltb_ge _ _)) by lia. done.
    - by exists bits. }
  destruct Hb as (bits & -> & B1 & B2 & B3). exists bits. split; [done|]. split; [done|]. split; [done|]. unfold decode_plain_bools.
  rewrite (proj2 (Z.ltb_ge _ _)), (proj2 (Z.ltb_ge _ _)) by lia. cbn [orb].
  destruct (forZ_Ok (fun i (out : list datum) => out = map DBool (take (Z.to_nat i) bs))
    (fun i out => b ← rd1 bits (Z.shiftr i 3); Ok (out ++ [DBool (negb (Z.land (Z.shiftr b (Z.land i 7)) 1 =? 0))])) 0 (zlen bs) []) as (out & -> & ->); [lia| |done|].
  - intros i out Hi ->. pose proof (get_bit_Ok bits i ltac:(lia)) as Hg. unfold get_bit in Hg. pose proof (pos_byte i (8 * zlen bits) (zlen bits) ltac:(lia) ltac:(reflexivity)).
    rewrite rd1_Ok, bind_Ok in * by lia. injection Hg as ->. eexists. split; [done|]. rewrite B3, (proj2 (Z.ltb_lt _ _)) by lia. cbn [andb].
    replace (Z.to_nat (i + 1)) with (S (Z.to_nat i)) by lia. destruct (lookup_lt_is_Some_2 bs (Z.to_nat i)) as [b Hb]; [unfold zlen in *; lia|].
    rewrite (take_S_r _ _ _ Hb), map_app, (nth_lookup_Some _ _ _ _ Hb). done.
  - rewrite bind_Ok. unfold zlen. rewrite Nat2Z.id. by rewrite firstn_all.
Qed.
End Values.

(** ** A column chunk that was written *)

Section Chunk.
Context `{T : PgTypes} `{L : !PgTypesLaws} `{C : BlockCodecs} `{ZL : Zlib} (stack : nat) (buffered : bool).

Abbreviation entry := (Z * Z * option datum)%type.

Definition entry_defs (c : PqLeaf) (es : list entry) : list Z := map (fun e => kept_def c e.1.1 e.2) es.
Definition entry_reps (es : list entry) : list Z := map (fun e => e.1.2) es.

Lemma leaf_puts_data es : forall c,
  leaf_puts c es = with_data c (defs c ++ entry_defs c es) (if 0 <? max_rep c then reps c ++ entry_reps es else reps c)
    (values c ++ concat (map (plain_bytes c) (present c es))) (boolbits c ++ concat (map (bool_bytes c) (present c es))) (nEntries c + zlen es) (st (leaf_puts c es)).
Proof using.
  induction es as [|[[def rep] o] es IH]; intros c.
  - unfold with_data. change (entry_defs c []) with (@nil Z). change (entry_reps []) with (@nil Z). change (present c []) with (@nil datum).
    cbn [map concat leaf_puts foldl]. rewrite !app_nil_r, Z.add_0_r. destruct (0 <? max_rep c); by destruct c.
  - change (leaf_puts c ((def, rep, o) :: es)) with (leaf_puts (leaf_put c def rep o) es). rewrite present_cons. pose proof (IH (leaf_put c def rep o)) as E.
    rewrite E at 1. unfold leaf_put at 1 2 3 4 5 6 7 8. cbn [with_data path kind ptype convType tsAdjusted typeLength precision scale convertText max_def max_rep defs reps values boolbits nEntries].
    unfold with_data. f_equal.
    + by rewrite <- app_assoc.
    + destruct (0 <? max_rep c); [by rewrite <- app_assoc|done].
    + change (present (leaf_put c def rep o) es) with (present c es). destruct (kept c o) as [d|]; [cbn [map concat]; by rewrite <- app_assoc|done].
    + change (present (leaf_put c def rep o) es) with (present c es). unfold leaf_put. cbn [with_data boolbits]. change (map (bool_bytes _)) with (map (bool_bytes c)). destruct (kept c o) as [d|]; [cbn [map concat]; by rewrite <- app_assoc|done].
    + unfold leaf_put. cbn [with_data nEntries]. rewrite zlen_cons. lia.
Qed.

(** An entry of a leaf: its levels within bounds, a value exactly at the top level. *)
Definition entry_ok (c : PqLeaf) (e : entry) : Prop :=
  0 <= e.1.1 <= max_def c /\ 0 <= e.1.2 <= max_rep c /\
  match e.2 with Some d => e.1.1 = max_def c /\ datum_ok c d | None => e.1.1 < max_def c end.

Lemma kept_def_range c e : 1 <= max_def c -> entry_ok c e ->
  0 <= kept_def c e.1.1 e.2 <= max_def c /\ (kept_def c e.1.1 e.2 = max_def c <-> kept c e.2 <> None).
Proof using.
  intros Hm (Hd & _ & Ho). unfold kept_def, kept. destruct (e.2) as [d|]; [destruct (unrepresentable c d)|]; split; try lia; split; try lia; done.
Qed.

Lemma count_entries c es : 1 <= max_def c -> Forall (entry_ok c) es -> count_present (max_def c) (zlen es) (entry_defs c es) = zlen (present c es).
Proof using.
  intros Hm. unfold count_present. rewrite (proj2 (Z.ltb_lt _ _)) by lia. induction 1 as [|[[def rep] o] es He Hes IH]; [done|].
  destruct (kept_def_range c _ Hm He) as [_ Hiff]. cbn [fst snd] in Hiff. rewrite present_cons. unfold entry_defs. cbn [map fst snd].
  rewrite filter_cons. destruct (decide (kept_def c def o = max_def c)) as [E|E]; destruct (kept c o) as [d|].
  - rewrite !zlen_cons. f_equal. exact IH.
  - by apply Hiff in E.
  - destruct E. by apply Hiff.
  - exact IH.
Qed.

Lemma bits_1_3 m : 1 <= m <= 3 -> 1 <= pq_bits_for m <= 2 /\ m < 2 ^ pq_bits_for m.
Proof using. intros Hm. assert (m = 1 \/ m = 2 \/ m = 3) as [-> | [-> | ->]] by lia; vm_compute; split; split; discriminate || reflexivity. Qed.

(** A level section of the body and how it reads back. *)
Lemma level_bytes m ls : 1 <= m <= 3 -> Forall (fun x => 0 <= x <= m) ls -> 8 * zlen ls <= MaxAllocSize ->
  exists h, build_rle_levels ls (pq_bits_for m) = Ok (le_bytes 4 (zlen h) ++ h) /\ bytes_ok h /\ 4 * zlen h <= zlen ls + 48 /\
    rle_bitpack_decode h (pq_bits_for m) (zlen ls) = Ok (Some ls).
Proof using.
  intros Hm Hls Hl. destruct (bits_1_3 m Hm) as [Hw Hb]. unfold MaxAllocSize in *. pose proof (zlen_nonneg ls). div_bounds (zlen ls + 7) 8.
  destruct (build_rle_spec ls (pq_bits_for m)) as (packed & E & P1 & P2 & P3); [lia|unfold MaxAllocSize; nia|].
  eexists. split; [exact E|]. destruct (put_varint_bytes 9 (run_of ls)) as [V1 V2]; [unfold run_of; lia|].
  split; [by apply Forall_app_2|]. split; [rewrite zlen_app; unfold PgColumnarThriftPutVarint; nia|].
  apply decode_packed; [lia| |unfold MaxAllocSize; nia|done|done|done]. eapply list.Forall_impl; [exact Hls|]. cbn. lia.
Qed.

Lemma uncompressed pb : zlen pb <= MaxAllocSize -> PgColumnarParquetDecompress PQC_UNCOMPRESSED pb (u64 (zlen pb)) = Ok (Some pb).
Proof using.
  intros Hl. unfold PgColumnarParquetDecompress, MaxAllocSize in *. pose proof (zlen_nonneg pb). rewrite u64_small, !(proj2 (Z.ltb_ge _ _)) by lia. done.
Qed.

(** The values of a page in PLAIN encoding read back. *)
Definition vals_back (c : PqLeaf) (plan : PqColPlan) (vals : list Z) (ds : list datum) : Prop := decode_plain plan vals (zlen ds) = Ok (Some ds).

(** The body of a leaf's page reads back as its entries and values. *)
Lemma body_back c es vals : 1 <= max_def c <= 3 -> 0 <= max_rep c <= 1 -> Forall (entry_ok c) es -> 8 * zlen es <= MaxAllocSize -> zlen es + zlen vals + 64 <= MaxAllocSize ->
  ((0 <? max_rep c) = false -> entry_reps es = replicate (Z.to_nat (zlen es)) 0) -> bytes_ok vals ->
  build_values (leaf_puts (pqleaf_reset c) es) = Ok vals ->
  exists body, build_leaf_body (leaf_puts (pqleaf_reset c) es) = Ok body /\ bytes_ok body /\ zlen body < MaxAllocSize /\
    forall plan, vals_back c plan vals (present c es) -> decode_data_page PQC_UNCOMPRESSED plan (max_def c) (max_rep c) (written_header (zlen es) (zlen body)) body None =
    Ok (Some (entry_defs c es, entry_reps es, present c es)).
Proof using.
  intros Hmd Hmr Hes Hn8 Hsz Hr0 Hvb Hv. unfold MaxAllocSize in Hsz, Hn8. pose proof (zlen_nonneg es). pose proof (zlen_nonneg vals). rewrite leaf_puts_data in *.
  set (c' := with_data _ _ _ _ _ _ _) in *. unfold build_leaf_body. change (max_rep c') with (max_rep c). change (max_def c') with (max_def c). change (defs c') with (entry_defs c es).
  assert (Hdl : zlen (entry_defs c es) = zlen es) by (unfold entry_defs, zlen; by rewrite length_map). assert (Hrl : zlen (entry_reps es) = zlen es) by (unfold entry_reps, zlen; by rewrite length_map).
  destruct (level_bytes (max_def c) (entry_defs c es)) as (hd & D1 & D2 & D3 & D4); [lia| |unfold MaxAllocSize; lia|].
  { apply List.Forall_map. eapply list.Forall_impl; [exact Hes|]. intros e He. by apply (kept_def_range c e); [lia|]. }
  assert (Hreps : exists sec, (if 0 <? max_rep c then build_rle_levels (reps c') (pq_bits_for (max_rep c)) else Ok []) = Ok sec /\ bytes_ok sec /\ 4 * zlen sec <= zlen es + 64 /\
    forall post, optional_levels (max_rep c) (zlen es) (level_section (sec ++ post) 0 (pq_bits_for (max_rep c)) (zlen es)) 0 = Ok (Some (entry_reps es, zlen sec))).
  { unfold optional_levels. destruct (Z.ltb_spec 0 (max_rep c)) as [Hp|Hp].
    - assert (Er : reps c' = entry_reps es) by (cbn; by rewrite (proj2 (Z.ltb_lt _ _)) by done).
      destruct (level_bytes (max_rep c) (entry_reps es)) as (hr & R1 & R2 & R3 & R4); [lia| |unfold MaxAllocSize; lia|].
      { apply List.Forall_map. eapply list.Forall_impl; [exact Hes|]. intros e (_ & He & _). exact He. }
      rewrite Er. eexists. split; [exact R1|]. split; [apply Forall_app_2; [apply le_bytes_ok|done]|]. split; [rewrite zlen_app, zlen_le_bytes; lia|]. intros post.
      rewrite Hrl in R4. apply (level_section_at [] hr post); [done|lia|done|unfold MaxAllocSize; lia].
    - exists []. split; [done|]. split; [constructor|]. split; [change (zlen (@nil Z)) with 0; lia|]. intros post. change (zlen (@nil Z)) with 0. by rewrite Hr0. }
  destruct Hreps as (sec & -> & R1 & R2 & R3). set (dsec := le_bytes 4 (zlen hd) ++ hd) in *. assert (Hds : zlen dsec = 4 + zlen hd) by (unfold dsec; rewrite zlen_app, zlen_le_bytes; lia).
  assert (Hdb : bytes_ok dsec) by (apply Forall_app_2; [apply le_bytes_ok|done]).
  exists (sec ++ dsec ++ vals). rewrite bind_Ok, append_Ok by (unfold MaxAllocSize; change (zlen (@nil Z)) with 0; lia). cbn [app]. rewrite !bind_Ok. rewrite D1, bind_Ok.
  rewrite append_Ok, bind_Ok by (unfold MaxAllocSize; lia). rewrite Hv, bind_Ok. rewrite append_Ok by (unfold MaxAllocSize; rewrite zlen_app; lia). rewrite <- app_assoc.
  split; [done|]. assert (Hbl : zlen (sec ++ dsec ++ vals) < MaxAllocSize) by (rewrite !zlen_app; unfold MaxAllocSize; lia).
  split; [apply Forall_app_2; [done|by apply Forall_app_2]|]. split; [done|]. intros plan Hback. unfold decode_data_page, page_sections. cbn [ph_is_v2 ph_num_values ph_uncompressed_size ph_encoding written_header].
  rewrite uncompressed by lia. rewrite bind_Ok, R3, bind_Ok. unfold optional_levels at 1. rewrite (proj2 (Z.ltb_lt _ _)) by lia.
  rewrite Hdl in D4. pose proof (level_section_at sec hd vals _ _ _ D2 ltac:(lia) D4 ltac:(unfold MaxAllocSize; lia)) as Els. fold dsec in Els. rewrite Els, bind_Ok. clear Els.
  assert (Erd : rd (sec ++ dsec ++ vals) (zlen sec + zlen dsec) (zlen (sec ++ dsec ++ vals) - (zlen sec + zlen dsec)) = Ok vals).
  { pose proof (rd_middle (sec ++ dsec) vals []) as E. rewrite app_nil_r, <- app_assoc in E. rewrite <- E. f_equal; rewrite !zlen_app; lia. }
  rewrite Erd, !bind_Ok. rewrite count_entries by (done || lia). unfold page_values. 
  assert (Hpl : zlen (present c es) <= zlen es) by (rewrite <- (count_entries c es) by (done || lia); pose proof (count_present_range (max_def c) (zlen es) (entry_defs c es) ltac:(lia) Hdl); lia).
  rewrite (palloc_ok_Ok (8 * Z.max (zlen (present c es)) 1)), bind_Ok by (unfold MaxAllocSize; lia).
  change ((PQ_ENC_PLAIN =? PQE_RLE_DICTIONARY) || (PQ_ENC_PLAIN =? PQE_PLAIN_DICTIONARY)) with false.
  change (PQ_ENC_PLAIN =? PQE_PLAIN) with true. cbv iota. unfold vals_back in Hback. rewrite Hback, bind_Ok. done.
Qed.

(** The bytes of the values of [es]. *)
Definition value_bytes (c : PqLeaf) (es : list entry) : list Z := concat (map (plain_bytes c) (present c es)).

(** Room for the entries of a page: the reader's arrays of eight bytes per entry
    and the writer's body, with its levels and at most a byte per boolean. *)
Definition page_room (c : PqLeaf) (es : list entry) : Prop := 8 * zlen es <= MaxAllocSize /\ 2 * zlen es + zlen (value_bytes c es) + 64 <= MaxAllocSize.

Lemma value_bytes_cons c def rep o es : value_bytes c ((def, rep, o) :: es) = match kept c o with Some d => plain_bytes c d | None => [] end ++ value_bytes c es.
Proof using. unfold value_bytes. rewrite present_cons. by destruct (kept c o). Qed.

Lemma bool_bytes_le c d : zlen (bool_bytes c d) <= 1.
Proof using. unfold bool_bytes. destruct (kind c), d; unfold zlen; cbn [length]; lia. Qed.

Lemma put_entries_Ok es : forall c, 1 <= max_def c <= 255 -> 0 <= max_rep c <= 255 -> Forall (entry_ok c) es ->
  zlen (defs c) + zlen es < MaxAllocSize -> zlen (reps c) + zlen es < MaxAllocSize -> zlen (boolbits c) + zlen es < MaxAllocSize ->
  zlen (values c) + zlen (value_bytes c es) < MaxAllocSize -> put_entries c es = Ok (leaf_puts c es).
Proof using.
  induction es as [|[[def rep] o] es IH]; intros c Hmd Hmr Hes H1 H2 H3 H4; [done|]. apply Forall_cons_1 in Hes as [(Hd & Hr & Ho) Hes]. cbn [fst snd] in *.
  rewrite value_bytes_cons, zlen_app in H4. rewrite zlen_cons in *. pose proof (zlen_nonneg es). pose proof (zlen_nonneg (value_bytes c es)). cbn [put_entries].
  assert (Hv : zlen (values (leaf_put c def rep o)) + zlen (value_bytes c es) < MaxAllocSize)
    by (unfold leaf_put; cbn [with_data values]; destruct (kept c o); [rewrite zlen_app; lia|change (zlen (@nil Z)) with 0 in H4; lia]).
  assert (Hb : zlen (boolbits (leaf_put c def rep o)) <= zlen (boolbits c) + 1)
    by (unfold leaf_put; cbn [with_data boolbits]; destruct (kept c o) as [d|]; [rewrite zlen_app; pose proof (bool_bytes_le c d)|]; lia).
  assert (Hdl : zlen (defs (leaf_put c def rep o)) = zlen (defs c) + 1) by (unfold leaf_put; cbn [with_data defs]; rewrite zlen_app; done).
  assert (Hrl : zlen (reps (leaf_put c def rep o)) <= zlen (reps c) + 1)
    by (unfold leaf_put; cbn [with_data reps]; destruct (0 <? max_rep c); [rewrite zlen_app; change (zlen [rep]) with 1|]; lia).
  rewrite leaf_entry_spec; [|by destruct o; [destruct Ho|]|lia|lia|lia|unfold leaf_fits; lia]. rewrite bind_Ok. apply IH; try done; try lia.
Qed.

Lemma present_ok c es : Forall (entry_ok c) es -> Forall (value_ok c) (present c es).
Proof using.
  induction 1 as [|[[def rep] o] es (_ & _ & Ho) Hes IH]; [constructor|]. rewrite present_cons. unfold kept. destruct o as [d|]; [|done].
  cbn [fst snd] in Ho. destruct Ho as [_ [Ho|Ho]]; [|by rewrite Ho]. rewrite value_representable by done. by constructor.
Qed.

Lemma present_le c es : zlen (present c es) <= zlen es.
Proof using. induction es as [|[[def rep] o] es IH]; [done|]. rewrite present_cons. destruct (kept c o); rewrite ?zlen_cons; lia. Qed.

Lemma plain_bytes_ok c d : value_ok c d -> bytes_ok (plain_bytes c d).
Proof using.
  unfold value_ok, plain_bytes. destruct (kind c), d; try done; intros Hv; try apply le_bytes_ok; try (by constructor).
  all: try (apply Forall_app_2; [apply le_bytes_ok|tauto]); try tauto.
  destruct (text_to_int128 _ _); [|constructor]. apply Forall_rev, le_bytes_ok.
Qed.

(** Only booleans have the physical type BOOLEAN. *)
Lemma leaf_phys typid typmod md mr path c : build_leaf_scalar typid typmod md mr path = Some c -> (ptype c =? PQ_BOOLEAN) = bool_decide (kind c = P_BOOL).
Proof using.
  intros Hb. unfold build_leaf_scalar, parquet_kind_for_type in Hb. cbv zeta in Hb.
  repeat match type of Hb with context [if ?b then _ else _] => destruct b; try (injection Hb as <-; done); try done end.
Qed.

(** The value section of a page, and its reading. *)
Lemma values_back typid typmod md mr path c es : exportable typid -> - 1 <= typmod < 2 ^ 31 ->
  build_leaf_scalar typid typmod md mr path = Some c -> Forall (entry_ok c) es ->
  exists vals, build_values (leaf_puts (pqleaf_reset c) es) = Ok vals /\ bytes_ok vals /\ zlen vals <= zlen (value_bytes c es) + zlen es /\
    forall name rep, reimportable typid typmod = true -> vals_back c (leaf_plan typid c name rep) vals (present c es).
Proof using L.
  intros He Hm Hb Hes. pose proof (present_ok c es Hes) as Hp. pose proof (present_le c es). pose proof (zlen_nonneg es). unfold build_values, vals_back, decode_plain.
  rewrite leaf_puts_data. set (c' := with_data _ _ _ _ _ _ _). change (kind c') with (kind c). change (boolbits c') with (concat (map (bool_bytes c) (present c es))).
  change (values c') with (value_bytes c es). pose proof (zlen_nonneg (value_bytes c es)). destruct (decide (kind c = P_BOOL)) as [Ek|Ek].
  - assert (exists bs, present c es = map DBool bs) as [bs Ebs].
    { clear -Hp Ek. induction Hp as [|d ds Hd _ [bs ->]]; [by exists []|]. unfold value_ok in Hd. rewrite Ek in Hd. destruct d as [| | |b| | |]; try done. by exists (b :: bs). }
    destruct (bools_back bs) as (bits & B1 & B2 & B3 & B4). exists bits. rewrite Ebs in *. assert (El : zlen (map DBool bs) = zlen bs) by (unfold zlen; by rewrite length_map).
    replace (concat (map (bool_bytes c) (map DBool bs))) with (map (fun b : bool => if b then 1 else 0) bs).
    2:{ unfold bool_bytes. rewrite Ek. clear. induction bs as [|b bs IH]; [done|]. cbn [map concat app]. by rewrite <- IH. }
    split; [done|]. split; [done|]. split; [rewrite B3; div_bounds (zlen bs + 7) 8; lia|]. intros name rep _.
    unfold leaf_plan, pq_plan_bind_schema. cbn [pl_expect_phys]. rewrite (leaf_phys _ _ _ _ _ _ Hb), bool_decide_eq_true_2, El by done. done.
  - exists (value_bytes c es). split; [done|]. split; [|split; [lia|]].
    + unfold value_bytes. apply Forall_concat, List.Forall_map. eapply list.Forall_impl; [exact Hp|]. intros d. apply plain_bytes_ok.
    + intros name rep Hr. assert (Et : (pl_expect_phys (leaf_plan typid c name rep) =? PQ_BOOLEAN) = false)
        by (unfold leaf_plan, pq_plan_bind_schema; cbn [pl_expect_phys]; rewrite (leaf_phys _ _ _ _ _ _ Hb); by apply bool_decide_eq_false).
      rewrite Et. unfold zlen. rewrite Nat2Z.id. pose proof (plain_values_at (leaf_plan typid c name rep) (plain_bytes c) (present c es)) as E.
      specialize (E ltac:(intros d pre post Hd; eapply read_value; [done..| |done]; by eapply list.Forall_forall in Hp) [] []). rewrite app_nil_r in E. exact E.
Qed.

(** The entry of the footer for a page that starts at [off]. *)
Definition one_page (n off total : Z) : PqChunk := mkChunk PQC_UNCOMPRESSED n off 0 total None None 0 0.

Definition page_chunk (ch : PqChunk) (n off : Z) : Prop :=
  ch_codec ch = PQC_UNCOMPRESSED /\ ch_num_values ch = n /\ ch_dict_page_offset ch = 0 /\ ch_data_page_offset ch = off.

Lemma page_back src pre post n body plan md mr lcap vcap ds rs vs ch : n <= lcap -> n <= vcap -> zlen rs = n -> zlen vs <= n -> src_ok src -> src_bytes src = pre ++ write_page_header n (zlen body) ++ body ++ post ->
  0 < n < 2 ^ 31 -> zlen body < MaxAllocSize -> zlen ds = n -> page_chunk ch n (zlen pre) ->
  decode_data_page PQC_UNCOMPRESSED plan md mr (written_header n (zlen body)) body None = Ok (Some (ds, rs, vs)) ->
  exists src', decode_leaf_entries stack buffered src ch plan md mr lcap vcap = Ok (src', Some (ds, rs, vs)) /\ src_ok src' /\ src_bytes src' = src_bytes src.
Proof using.
  intros Hlc Hvc Hrl Hvl Hs E Hn Hbl Hl (C1 & C2 & C3 & C4) Hd. unfold decode_leaf_entries. rewrite C3, C4, Z.eqb_refl. cbv zeta. set (total := ch_total_compressed_size ch).
  assert (Hpre : exists src', (if 0 <? total then pq_source_prefetch buffered src (zlen pre) (s64 (total + PQ_PAGE_HDR_WIN_MIN)) else Ok src) = Ok src' /\
    src_ok src' /\ src_bytes src' = src_bytes src) by (destruct (0 <? _); [by apply prefetch_ok|by exists src]).
  destruct Hpre as (src' & -> & Hs' & Eb). rewrite bind_Ok. exists src'. split; [|done]. rewrite <- Eb in E.
  pose proof (zlen_nonneg pre). pose proof (zlen_nonneg post). pose proof (zlen_nonneg body). pose proof (page_header_len n (zlen body)) as Hh. unfold MaxAllocSize in *.
  assert (Hlen : src_len src' = zlen pre + zlen (write_page_header n (zlen body)) + zlen body + zlen post) by (unfold src_len; rewrite E, !zlen_app; lia).
  cbn [decode_pages]. change (zlen (@nil Z)) with 0. rewrite C2. rewrite !(proj2 (Z.ltb_lt _ _)) by lia. cbn [andb].
  rewrite (header_at stack src' pre n (zlen body) (body ++ post)) by (done || lia). rewrite bind_Ok.
  assert (Eg : forall seen, page_guards src' (zlen pre) (zlen (write_page_header n (zlen body))) (written_header n (zlen body)) seen = true).
  { intros seen. unfold page_guards. cbn [written_header ph_type ph_num_values ph_is_v2 ph_compressed_size]. change (0 =? PQ_PAGE_DICTIONARY) with false. cbv iota. cbn [andb negb].
    rewrite (proj2 (Z.ltb_lt _ _)), !(proj2 (Z.leb_le _ _)) by lia. done. }
  rewrite Eg. cbn [negb]. cbn [written_header ph_compressed_size ph_type ph_num_values]. rewrite (palloc_ok_Ok (Z.max (zlen body) 1)), bind_Ok by (unfold MaxAllocSize; lia).
  rewrite source_read by (done || lia).
  assert (Erd : rd (src_bytes src') (zlen pre + zlen (write_page_header n (zlen body))) (zlen body) = Ok body)
    by (rewrite E, app_assoc, <- zlen_app; apply rd_middle).
  rewrite Erd, bind_Ok. change (0 =? PQ_PAGE_DICTIONARY) with false. cbv iota. rewrite C1.
  fold (written_header n (zlen body)). rewrite Hd, bind_Ok. rewrite (proj2 (Z.ltb_ge _ _)) by lia.
  rewrite (store_all_Ok lcap ds []), (store_all_Ok lcap rs []), (store_all_Ok vcap vs []), !bind_Ok by (cbn [length]; unfold zlen at 1; cbn [length]; lia). cbn [app].
  assert (Estop : forall fuel pos, decode_pages stack fuel src' ch plan md mr lcap vcap pos None ds rs vs = Ok (Some (ds, rs, vs))).
  { intros fuel pos. destruct fuel; cbn [decode_pages]; rewrite C2, Hl, Z.ltb_irrefl, Z.eqb_refl; done. }
  rewrite Estop, bind_Ok. done.
Qed.

(** The page of a leaf's entries: writing it succeeds, and it reads back from its
    place in a file. *)
Lemma chunk_back typid typmod md mr pa c es :
  exportable typid -> - 1 <= typmod < 2 ^ 31 -> build_leaf_scalar typid typmod md mr pa = Some c ->
  1 <= md <= 3 -> 0 <= mr <= 1 -> es <> [] -> Forall (entry_ok c) es -> page_room c es ->
  exists body, put_entries (pqleaf_reset c) es = Ok (leaf_puts (pqleaf_reset c) es) /\ build_leaf_body (leaf_puts (pqleaf_reset c) es) = Ok body /\ bytes_ok body /\ zlen body < MaxAllocSize /\
    forall name rep src pre post ch lcap vcap, reimportable typid typmod = true -> zlen es <= lcap -> zlen es <= vcap -> src_ok src -> src_bytes src = pre ++ write_page_header (zlen es) (zlen body) ++ body ++ post -> page_chunk ch (zlen es) (zlen pre) ->
    exists src', decode_leaf_entries stack buffered src ch (leaf_plan typid c name rep) md mr lcap vcap = Ok (src', Some (entry_defs c es, entry_reps es, present c es)) /\
      src_ok src' /\ src_bytes src' = src_bytes src.
Proof using L.
  intros He Hm Hb Hmd Hmr Hne Hes [Hn8 Hsz]. pose proof (zlen_nonneg (value_bytes c es)). assert (Hmax : max_def c = md /\ max_rep c = mr).
  { unfold build_leaf_scalar in Hb. destruct (parquet_kind_for_type typid typmod) as [[[[[? ph] ?] ?] ?] ?]. destruct (ph <? 0); [done|]. by injection Hb as <-. }
  destruct Hmax as [<- <-]. assert (0 < zlen es) by (destruct es; [done|rewrite zlen_cons; pose proof (zlen_nonneg es); lia]).
  destruct (values_back typid typmod _ _ pa c es He Hm Hb Hes) as (vals & V1 & V2 & V3 & V4).
  destruct (body_back c es vals) as (body & B1 & B2 & B3 & B4); [lia|lia|done|done|unfold MaxAllocSize in *; lia| |done|done|].
  { intros Hz%Z.ltb_ge. clear -Hes Hz. unfold zlen. rewrite Nat2Z.id. induction Hes as [|e es (_ & He & _) _ IH]; [done|]. cbn [entry_reps map length replicate]. f_equal; [lia|done]. }
  exists body. split; [|split; [done|]; split; [done|]; split; [done|]].
  - apply put_entries_Ok; try done; cbn [pqleaf_reset with_data defs reps boolbits values max_def max_rep]; change (zlen (@nil Z)) with 0; try lia.
    change (value_bytes (pqleaf_reset c) es) with (value_bytes c es). lia.
  - intros name rep src pre post ch lcap vcap Hr Hlc Hvc Hs E Hch. unfold MaxAllocSize in *.
    apply (page_back src pre post (zlen es) body (leaf_plan typid c name rep) (max_def c) (max_rep c) lcap vcap (entry_defs c es) (entry_reps es) (present c es) ch Hlc Hvc);
      [unfold entry_reps, zlen; by rewrite length_map|apply present_le|done|done|lia|unfold MaxAllocSize; lia|unfold entry_defs, zlen; by rewrite length_map|done|apply B4, V4, Hr].
Qed.
End Chunk.

(** ** Claims *)

(** The page of a leaf, written by the exporter for any entries (values,
    nulls, levels of lists and structs), is read back from its place in the file
    as the same levels and the same values.  A value Parquet cannot hold (an
    infinite date or timestamp, a number that is none) is a null of its column. *)
Theorem parquet_chunk_roundtrip `{T : PgTypes} `{L : !PgTypesLaws} `{C : BlockCodecs} `{ZL : Zlib} stack buffered typid typmod md mr path c name rep es :
  exportable typid -> - 1 <= typmod < 2 ^ 31 -> reimportable typid typmod = true -> build_leaf_scalar typid typmod md mr path = Some c ->
  1 <= md <= 3 -> 0 <= mr <= 1 -> es <> [] -> Forall (entry_ok c) es -> page_room c es ->
  exists c' body, put_entries (pqleaf_reset c) es = Ok c' /\ build_leaf_body c' = Ok body /\
    forall src pre post total, src_ok src -> src_bytes src = pre ++ write_page_header (zlen es) (zlen body) ++ body ++ post ->
    exists src', decode_leaf_entries stack buffered src (one_page (zlen es) (zlen pre) total) (pq_plan_bind_schema typid (ptype c) (schema_of_leaf c name rep)) md mr (zlen es) (zlen es) =
      Ok (src', Some (entry_defs c es, entry_reps es, present c es)).
Proof.
  intros He Hm Hr Hb Hmd Hmr Hne Hes Hsz.
  destruct (chunk_back stack buffered typid typmod md mr path c es He Hm Hb Hmd Hmr Hne Hes Hsz) as (body & P1 & P2 & _ & _ & P5).
  exists (leaf_puts (pqleaf_reset c) es), body. split; [done|]. split; [done|]. intros src pre post total Hs E.
  destruct (P5 name rep src pre post (one_page (zlen es) (zlen pre) total) (zlen es) (zlen es) Hr ltac:(done) ltac:(done) Hs E) as (src' & R & _); [done|]. by exists src'.
Qed.

(** A list of two numbers, a null element and an empty list: levels of a repeated leaf. *)
Definition amounts : list (Z * Z * option (@datum two_numbers)) :=
  [(3, 0, Some (@DInt two_numbers 5)); (2, 1, None); (3, 1, Some (@DInt two_numbers (-7))); (1, 0, None); (0, 0, None)].

Definition amounts_leaf : PqLeaf := mkLeaf [[120]; [108]; [101]] P_INT32 PQ_INT32 (-1) (-1) 0 0 0 false 3 1 [] [] [] [] 0 pqstats_reset.

Lemma amounts_ok : Forall (@entry_ok two_numbers amounts_leaf) amounts.
Proof. repeat constructor; cbn; try lia; left; cbn; lia. Qed.

Lemma parquet_chunk_roundtrip_witness : exists c' body, put_entries (T := two_numbers) (pqleaf_reset amounts_leaf) amounts = Ok c' /\ build_leaf_body c' = Ok body /\
  forall src pre post total, src_ok src -> src_bytes src = pre ++ write_page_header 5 (zlen body) ++ body ++ post ->
  exists src', @decode_leaf_entries two_numbers no_codecs no_zlib 1 true src (one_page 5 (zlen pre) total)
      (pq_plan_bind_schema INT4OID PQ_INT32 (schema_of_leaf amounts_leaf [120] 1)) 3 1 5 5 =
    Ok (src', Some ([3; 2; 3; 1; 0], [0; 1; 1; 0; 0], [@DInt two_numbers 5; @DInt two_numbers (-7)])).
Proof.
  apply (@parquet_chunk_roundtrip two_numbers two_numbers_laws no_codecs no_zlib 1 true INT4OID (-1) 3 1 [[120]; [108]; [101]] amounts_leaf [120] 1 amounts);
    [..|exact amounts_ok|]; try done; try lia. apply list_elem_of_In. right. by left.
Defined.

(** Reading a column chunk of any file, whatever its pages, headers, levels,
    dictionaries and compressed bytes hold, ends with an error, a refusal or
    exactly the number of entries the footer names, with as many values as there
    are entries at the top definition level; no byte outside a buffer is read or
    written. *)
Theorem parquet_chunk_decode_safe `{T : PgTypes} `{L : !PgTypesLaws} `{C : BlockCodecs} `{CL : !BlockCodecLaws C} `{ZL : Zlib} `{ZLL : !ZlibLaws ZL} stack buffered src ch plan max_def max_rep :
  src_ok src ->
  safe (fun '(src', o) => src_bytes src' = src_bytes src /\
      match o with None => True | Some (defs, reps, vals) => zlen defs = ch_num_values ch /\ entries_ok max_def (Z.max (ch_num_values ch) 0) defs reps vals end)
    (decode_leaf_entries stack buffered src ch plan max_def max_rep (Z.max (ch_num_values ch) 1) (Z.max (ch_num_values ch) 1)).
Proof.
  intros Hs. eapply safe_mono; [apply decode_leaf_safe; [done|lia|lia]|]. intros [src' o] (_ & H). exact H.
Qed.

Lemma no_codecs_laws : BlockCodecLaws no_codecs.
Proof. split; try done. - cbn. intros n Hn. div_bounds n 255. lia. - cbn. intros n Hn. div_bounds n 255. lia. Qed.

Lemma no_zlib_laws : ZlibLaws no_zlib.
Proof. split; done. Qed.

(** A file whose only page announces four entries and ends behind its header. *)
Definition cut_file : PqSource := mkSource (write_page_header 4 9) false None.

Lemma parquet_chunk_decode_safe_witness :
  safe (fun '((src', o) : PqSource * option (list Z * list Z * list (@datum two_numbers))) => src_bytes src' = src_bytes cut_file /\
      match o with None => True | Some (defs, reps, vals) => zlen defs = 4 /\ @entries_ok two_numbers 1 4 defs reps vals end)
    (@decode_leaf_entries two_numbers no_codecs no_zlib 4 true cut_file (one_page 4 0 64) (pq_plan_bind_schema INT4OID PQ_INT32 (schema_of_leaf amounts_leaf [120] 1)) 1 0 4 4).
Proof.
  apply (@parquet_chunk_decode_safe two_numbers two_numbers_laws no_codecs no_codecs_laws no_zlib no_zlib_laws 4 true cut_file (one_page 4 0 64)
    (pq_plan_bind_schema INT4OID PQ_INT32 (schema_of_leaf amounts_leaf [120] 1)) 1 0). split; [|split; [|done]].
  - apply (bool_decide_eq_true_1 (bytes_ok _)). vm_compute. reflexivity.
  - vm_compute. reflexivity.
Defined.
