(* ===== verification/ParquetRows.v ===== *)
(** * Parquet rows

    From rows to leaf entries and back: [shred_top] of [columnar_parquet.c], and
    the row assembly of [pq_read_rows] with [pq_require_entry], [pq_take_value]
    and [pq_plan_set_typmod] of [columnar_parquet_reader.c].  A column is a
    scalar, a one-dimensional array or a composite of scalars. *)

From S2P Require Import Prelude ParquetTypes ParquetValues ParquetPage.

(** The length coercion of a type: [has_coercion] is whether
    [find_typmod_coercion_function] finds one, [coerce_typmod] its call as an
    implicit cast. *)
Class TypmodCoercion `{PgTypes} : Type := {
  has_coercion : Z -> bool;
  coerce_typmod : Z -> Z -> datum -> res datum }.

(** ** Rows *)

Section Rows.
Context `{T : PgTypes}.

(** A value of a column: a scalar, an array with its number of dimensions and
    lower bound, a composite with the values of its attributes. *)
Inductive coldatum :=
| AScalar (d : datum)
| AArray (ndim lbound : Z) (elems : list (option datum))
| ARow (fields : list (option datum)).

(** ** Shredding *)

(** [f(&leaves[i])] *)
Definition on_leaf (leaves : list PqLeaf) (i : nat) (f : PqLeaf -> res PqLeaf) : res (list PqLeaf) :=
  match leaves !! i with Some c => c' ← f c; Ok (<[i := c']> leaves) | None => Oob end.

(** The loop over the elements of an array; [k] is the index of the first one. *)
Fixpoint shred_elems (k : nat) (elems : list (option datum)) (c : PqLeaf) : res PqLeaf :=
  match elems with
  | [] => Ok c
  | e :: elems => c' ← leaf_entry c (match e with None => 2 | Some _ => 3 end) (match k with O => 0 | S _ => 1 end) e; shred_elems (S k) elems c'
  end.

(** The loop over the attributes of a composite; no [fields] when it is null. *)
Fixpoint shred_fields (fl : list (option (nat * list Z))) (fields : option (list (option datum))) (leaves : list PqLeaf) : res (list PqLeaf) :=
  match fl with
  | [] => Ok leaves
  | li :: fl =>
      ' (f, rest) ← match fields with None => Ok (None, None) | Some [] => Oob | Some (f :: fs) => Ok (f, Some fs) end;
      leaves' ← match li with
                | None => Ok leaves
                | Some (i, _) =>
                    on_leaf leaves i (fun c => match fields with
                                               | None => leaf_entry c 0 0 None
                                               | Some _ => match f with None => leaf_entry c 1 0 None | Some d => leaf_entry c 2 0 (Some d) end
                                               end)
                end;
      shred_fields fl rest leaves'
  end.

Definition shred_top (tc : TopColumn) (leaves : list PqLeaf) (v : option coldatum) : res (list PqLeaf) :=
  match tc with
  | TOP_SCALAR _ first =>
      match v with
      | None => on_leaf leaves first (fun c => leaf_entry c 0 0 None)
      | Some (AScalar d) => on_leaf leaves first (fun c => leaf_entry c 1 0 (Some d))
      | Some _ => Oob
      end
  | TOP_LIST _ first =>
      match v with
      | None => on_leaf leaves first (fun c => leaf_entry c 0 0 None)
      | Some (AArray ndim _ elems) =>
          if 1 <? ndim then Err "columnar.export_parquet does not support multi-dimensional arrays"
          else
            on_leaf leaves first (fun c => match elems with [] => leaf_entry c 1 0 None | _ => shred_elems 0 elems c end)
      | Some _ => Oob
      end
  | TOP_STRUCT _ _ _ fl =>
      match v with
      | None => shred_fields fl None leaves
      | Some (ARow fields) => shred_fields fl (Some fields) leaves
      | Some _ => Oob
      end
  end.

(** The loop over the columns of a row. *)
Fixpoint shred_row (tops : list TopColumn) (leaves : list PqLeaf) (row : list (option coldatum)) : res (list PqLeaf) :=
  match tops, row with
  | [], _ => Ok leaves
  | tc :: tops, v :: row => leaves' ← shred_top tc leaves v; shred_row tops leaves' row
  | _ :: _, [] => Oob
  end.

(** ** Assembling *)

Record ImpLeaf := mkImp {
  im_plan : PqColPlan; im_coerce : option Z; im_max_def : Z; im_max_rep : Z;
  im_defs : list Z; im_reps : list Z; im_vals : list datum; im_ei : Z; im_vi : Z }.

Definition im_nEntries (l : ImpLeaf) : Z := zlen (im_defs l).

Definition with_cursors (l : ImpLeaf) (ei vi : Z) : ImpLeaf :=
  mkImp (im_plan l) (im_coerce l) (im_max_def l) (im_max_rep l) (im_defs l) (im_reps l) (im_vals l) ei vi.

Definition next_entry (l : ImpLeaf) : ImpLeaf := with_cursors l (im_ei l + 1) (im_vi l).

Inductive ImpTop :=
| IMP_SCALAR (attno firstLeaf : nat)
| IMP_LIST (attno firstLeaf : nat)
| IMP_STRUCT (attno firstLeaf nleaves : nat) (fieldLeaf : list (option nat)).

Definition it_attno (t : ImpTop) : nat := match t with IMP_SCALAR a _ | IMP_LIST a _ | IMP_STRUCT a _ _ _ => a end.
Definition it_firstLeaf (t : ImpTop) : nat := match t with IMP_SCALAR _ i | IMP_LIST _ i | IMP_STRUCT _ i _ _ => i end.
Definition it_nleaves (t : ImpTop) : nat := match t with IMP_SCALAR _ _ | IMP_LIST _ _ => 1 | IMP_STRUCT _ _ n _ => n end.

Definition MAX_TIMESTAMP_PRECISION : Z := 6.

(** The type modifier to apply to each value, if any. *)
Definition pq_plan_set_typmod `{!TypmodCoercion} (plan : PqColPlan) (typmod : Z) (sc : PqSchemaCol) : option Z :=
  if typmod <? 0 then None
  else
    let tm := typmod - VARHDRSZ in
    let precision := Z.land (Z.shiftr tm 16) 65535 in
    let scale := Z.lxor (Z.land tm 2047) 1024 - 1024 in
    if pl_is_decimal plan && pq_decimal_bounds_ok sc && (VARHDRSZ <=? typmod) && (sc_scale sc =? scale) && (sc_precision sc <=? precision) then None
    else if ((pl_typid plan =? TIMESTAMPOID) || (pl_typid plan =? TIMESTAMPTZOID) || (pl_typid plan =? TIMEOID)) && (MAX_TIMESTAMP_PRECISION <=? typmod) then None
    else if has_coercion (pl_typid plan) then Some typmod
    else None.

Definition pq_require_entry (l : ImpLeaf) : res unit :=
  if im_nEntries l <=? im_ei l then Err "Parquet file has a malformed row group" else Ok tt.

Definition pq_take_value `{!TypmodCoercion} (l : ImpLeaf) (coerce : bool) : res (datum * ImpLeaf) :=
  if (0 <=? im_vi l) && (im_vi l <? zlen (im_vals l)) then
    match im_vals l !! Z.to_nat (im_vi l) with
    | None => Oob
    | Some d =>
        let l' := with_cursors l (im_ei l) (im_vi l + 1) in
        match im_coerce l with
        | Some typmod => if coerce then d' ← coerce_typmod (pl_typid (im_plan l)) typmod d; Ok (d', l') else Ok (d, l')
        | None => Ok (d, l')
        end
    end
  else Oob.

Section Assemble.
Context `{TC : !TypmodCoercion}.

(** The value of the current entry, with the cursor behind it. *)
Definition entry_value (l : ImpLeaf) (d : Z) (deleted : bool) : res (option datum * ImpLeaf) :=
  if d =? im_max_def l then ' (v, l') ← pq_take_value l (negb deleted); Ok (Some v, next_entry l')
  else Ok (None, next_entry l).

Definition assemble_scalar (l : ImpLeaf) (deleted : bool) : res (option datum * ImpLeaf) :=
  _ ← pq_require_entry l;
  d ← rd1 (im_defs l) (im_ei l);
  entry_value l d deleted.

(** The elements of a list, until an entry with repetition level 0. *)
Fixpoint assemble_elems (fuel : nat) (l : ImpLeaf) (deleted : bool) : res (list (option datum) * ImpLeaf) :=
  match fuel with
  | O => Fuel
  | S fuel =>
      d ← rd1 (im_defs l) (im_ei l);
      ' (e, l) ← entry_value l d deleted;
      more ← (if im_ei l <? im_nEntries l then r ← rd1 (im_reps l) (im_ei l); Ok (negb (r =? 0)) else Ok false);
      if more : bool then ' (es, l) ← assemble_elems fuel l deleted; Ok (e :: es, l) else Ok ([e], l)
  end.

Definition assemble_list (l : ImpLeaf) (deleted : bool) : res (option coldatum * ImpLeaf) :=
  _ ← pq_require_entry l;
  def0 ← rd1 (im_defs l) (im_ei l);
  if def0 =? 0 then Ok (None, next_entry l)
  else if def0 =? 1 then Ok (Some (AArray 0 1 []), next_entry l)
  else ' (es, l) ← assemble_elems (length (im_defs l)) l deleted; Ok (Some (AArray 1 1 es), l).

(** The attributes of a composite, and whether one of them says it is null. *)
Fixpoint assemble_fields (fl : list (option nat)) (leaves : list ImpLeaf) (deleted : bool) : res (bool * list (option datum) * list ImpLeaf) :=
  match fl with
  | [] => Ok (false, [], leaves)
  | None :: fl => ' (n, fs, leaves) ← assemble_fields fl leaves deleted; Ok (n, None :: fs, leaves)
  | Some i :: fl =>
      match leaves !! i with
      | None => Oob
      | Some l =>
          _ ← pq_require_entry l;
          d ← rd1 (im_defs l) (im_ei l);
          ' (f, l') ← entry_value l d deleted;
          ' (n, fs, leaves) ← assemble_fields fl (<[i := l']> leaves) deleted;
          Ok ((d =? 0) || n, f :: fs, leaves)
      end
  end.

(** The value of a column for the next row. *)
Definition assemble_top (t : ImpTop) (leaves : list ImpLeaf) (deleted : bool) : res (option coldatum * list ImpLeaf) :=
  match t with
  | IMP_SCALAR _ i =>
      match leaves !! i with
      | None => Oob
      | Some l => ' (o, l') ← assemble_scalar l deleted; Ok (match o with Some d => Some (AScalar d) | None => None end, <[i := l']> leaves)
      end
  | IMP_LIST _ i =>
      match leaves !! i with
      | None => Oob
      | Some l => ' (o, l') ← assemble_list l deleted; Ok (o, <[i := l']> leaves)
      end
  | IMP_STRUCT _ _ _ fl =>
      ' (structNull, fs, leaves') ← assemble_fields fl leaves deleted;
      Ok (if structNull : bool then None else Some (ARow fs), leaves')
  end.

(** The columns of a row into the slot; a column that is projected out keeps the
    value it has. *)
Fixpoint assemble_row (tops : list ImpTop) (needTop : option (list bool)) (leaves : list ImpLeaf) (slot : list (option coldatum)) (deleted : bool) :
    res (list (option coldatum) * list ImpLeaf) :=
  match tops with
  | [] => Ok (slot, leaves)
  | t :: tops =>
      ' (need, rest) ← match needTop with None => Ok (true, None) | Some [] => Oob | Some (b :: bs) => Ok (b, Some bs) end;
      if need : bool then
        ' (v, leaves') ← assemble_top t leaves deleted;
        if decide (it_attno t < length slot)%nat then assemble_row tops rest leaves' (<[it_attno t := v]> slot) deleted else Oob
      else assemble_row tops rest leaves slot deleted
  end.
End Assemble.
End Rows.

(** ** The entries of a row *)

Section Entries.
Context `{T : PgTypes}.
Abbreviation entry := (Z * Z * option datum)%type.

Fixpoint elem_entries (k : nat) (elems : list (option datum)) : list entry :=
  match elems with
  | [] => []
  | e :: elems => (match e with None => 2 | Some _ => 3 end, match k with O => 0 | S _ => 1 end, e) :: elem_entries (S k) elems
  end.

Definition field_entry (fields : option (option datum)) : entry :=
  match fields with None => (0, 0, None) | Some None => (1, 0, None) | Some (Some d) => (2, 0, Some d) end.

Fixpoint field_entries (fl : list (option (nat * list Z))) (fields : option (list (option datum))) : list (list entry) :=
  match fl with
  | [] => []
  | li :: fl =>
      let f := match fields with None => None | Some fs => Some (hd None fs) end in
      let rest := match fields with None => None | Some fs => Some (tl fs) end in
      match li with None => field_entries fl rest | Some _ => [field_entry f] :: field_entries fl rest end
  end.

(** The entries a column's value adds to each of its leaves. *)
Definition top_entries (tc : TopColumn) (v : option coldatum) : list (list entry) :=
  match tc, v with
  | TOP_SCALAR _ _, Some (AScalar d) => [[(1, 0, Some d)]]
  | TOP_SCALAR _ _, _ => [[(0, 0, None)]]
  | TOP_LIST _ _, Some (AArray _ _ []) => [[(1, 0, None)]]
  | TOP_LIST _ _, Some (AArray _ _ elems) => [elem_entries 0 elems]
  | TOP_LIST _ _, _ => [[(0, 0, None)]]
  | TOP_STRUCT _ _ _ fl, Some (ARow fields) => field_entries fl (Some fields)
  | TOP_STRUCT _ _ _ fl, _ => field_entries fl None
  end.

Definition row_entries (tops : list TopColumn) (row : list (option coldatum)) : list (list entry) := concat (zip_with top_entries tops row).

(** The shape of a value fits its column. *)
Definition shaped (tc : TopColumn) (v : option coldatum) : Prop :=
  match tc, v with
  | _, None => True
  | TOP_SCALAR _ _, Some (AScalar _) => True
  | TOP_LIST _ _, Some (AArray ndim _ _) => ndim <= 1
  | TOP_STRUCT _ _ _ fl, Some (ARow fields) => length fields = length fl
  | _, _ => False
  end.

(** ** The leaves of a column *)

Fixpoint live_fields (fl : list (option (nat * list Z))) : nat :=
  match fl with [] => 0 | None :: fl => live_fields fl | Some _ :: fl => S (live_fields fl) end.

(** The fields name the leaves from [k] on, in order. *)
Fixpoint fields_from (k : nat) (fl : list (option (nat * list Z))) : Prop :=
  match fl with [] => True | None :: fl => fields_from k fl | Some (i, _) :: fl => i = k /\ fields_from (S k) fl end.

Definition top_leaves (tc : TopColumn) : nat := match tc with TOP_SCALAR _ _ | TOP_LIST _ _ => 1 | TOP_STRUCT _ _ n _ => n end.

Definition top_from (k : nat) (tc : TopColumn) : Prop :=
  match tc with
  | TOP_SCALAR _ i | TOP_LIST _ i => i = k
  | TOP_STRUCT _ i n fl => i = k /\ n = live_fields fl /\ fields_from k fl
  end.

Fixpoint tops_from (k : nat) (tops : list TopColumn) : Prop :=
  match tops with [] => True | tc :: tops => top_from k tc /\ tops_from (k + top_leaves tc) tops end.

Fixpoint tops_leaves (tops : list TopColumn) : nat := match tops with [] => 0 | tc :: tops => top_leaves tc + tops_leaves tops end.

Lemma length_field_entries fl : forall fields, length (field_entries fl fields) = live_fields fl.
Proof using. induction fl as [|[li|] fl IH]; intros fields; cbn [field_entries live_fields length]; [done|by rewrite IH|by rewrite IH]. Qed.

Lemma length_top_entries k tc v : top_from k tc -> length (top_entries tc v) = top_leaves tc.
Proof using.
  destruct tc as [| |n i m fl]; cbn [top_from top_leaves top_entries]; [by destruct v as [[]|]|by destruct v as [[|? ? []|]|]|].
  intros (_ & -> & _). destruct v as [[]|]; apply length_field_entries.
Qed.

Lemma length_row_entries tops : forall k row, tops_from k tops -> length row = length tops -> length (row_entries tops row) = tops_leaves tops.
Proof using.
  unfold row_entries. induction tops as [|tc tops IH]; intros k [|v row] Hf Hl; try done. destruct Hf as [H1 H2]. cbn [zip_with concat tops_leaves].
  rewrite length_app, (length_top_entries k) by done. f_equal. eapply IH; [exact H2|]. cbn in Hl. lia.
Qed.

(** The columns the exporter builds number their leaves in order. *)
Lemma build_fields_from name fields : forall leaves fl leaves', build_fields name fields leaves = Some (fl, leaves') ->
  fields_from (length leaves) fl /\ length leaves' = (length leaves + live_fields fl)%nat /\ take (length leaves) leaves' = leaves.
Proof using.
  induction fields as [|[[[fname typid] typmod]|] fields IH]; intros leaves fl leaves' E; cbn [build_fields] in E.
  - injection E as <- <-. cbn. split; [done|]. split; [lia|by rewrite firstn_all].
  - destruct (build_leaf_scalar _ _ _ _ _) as [leaf|]; [|done]. destruct (build_fields name fields _) as [[fl1 l1]|] eqn:E1; [|done]. injection E as <- <-.
    destruct (IH _ _ _ E1) as (H1 & H2 & H3). rewrite length_app in *. cbn [length fields_from live_fields] in *. split; [split; [done|]; by rewrite Nat.add_1_r in H1|].
    split; [lia|].
    assert (E2 : take (length leaves) (take (length leaves + 1) l1) = leaves) by (rewrite H3; apply take_app_length).
    by rewrite take_take, Nat.min_l in E2 by lia.
  - destruct (build_fields name fields leaves) as [[fl1 l1]|] eqn:E1; [|done]. injection E as <- <-. exact (IH _ _ _ E1).
Qed.

Lemma build_top_from name ty leaves tc leaves' : build_top_column name ty leaves = Some (tc, leaves') ->
  top_from (length leaves) tc /\ length leaves' = (length leaves + top_leaves tc)%nat /\ take (length leaves) leaves' = leaves.
Proof using.
  unfold build_top_column. destruct ty as [typid typmod|et tm|fields].
  - destruct (build_leaf_scalar _ _ _ _ _); [|done]. intros [= <- <-]. cbn. rewrite length_app. split; [done|]. split; [done|apply take_app_length].
  - destruct (build_leaf_scalar _ _ _ _ _); [|done]. intros [= <- <-]. cbn. rewrite length_app. split; [done|]. split; [done|apply take_app_length].
  - destruct (build_fields _ _ _) as [[fl l1]|] eqn:E; [|done]. intros [= <- <-]. destruct (build_fields_from _ _ _ _ _ E) as (H1 & H2 & H3).
    cbn [top_from top_leaves]. rewrite H2. split; [split; [done|]; split; [lia|done]|]. split; [lia|done].
Qed.

(** ** Shredding writes the entries *)

(** Entries a leaf can take: its buffers stay below the limit of an allocation. *)
Record writable (c : PqLeaf) (es : list entry) : Prop := {
  wr_def : 1 <= max_def c <= 255;
  wr_rep : 0 <= max_rep c <= 255;
  wr_ok : Forall (entry_ok c) es;
  wr_defs : zlen (defs c) + zlen es < MaxAllocSize;
  wr_reps : zlen (reps c) + zlen es < MaxAllocSize;
  wr_bits : zlen (boolbits c) + zlen es < MaxAllocSize;
  wr_vals : zlen (values c) + zlen (value_bytes c es) < MaxAllocSize }.

Lemma writable_puts c es : writable c es -> put_entries c es = Ok (leaf_puts c es).
Proof using. intros []. by apply put_entries_Ok. Qed.

Lemma value_bytes_app c a b : value_bytes c (a ++ b) = value_bytes c a ++ value_bytes c b.
Proof using. unfold value_bytes, present. by rewrite omap_app, map_app, concat_app. Qed.

Lemma leaf_puts_app c a b : leaf_puts c (a ++ b) = leaf_puts (leaf_puts c a) b.
Proof using. unfold leaf_puts. apply foldl_app. Qed.

Lemma bools_le c ds : zlen (concat (map (bool_bytes c) ds)) <= zlen ds.
Proof using. induction ds as [|d ds IH]; [done|]. cbn [map concat]. rewrite zlen_app, zlen_cons. pose proof (bool_bytes_le c d). lia. Qed.

Lemma writable_app c a b : writable c (a ++ b) -> writable c a /\ writable (leaf_puts c a) b.
Proof using.
  intros [W1 W2 W3 W4 W5 W6 W7]. apply Forall_app in W3 as [W3a W3b]. rewrite zlen_app in *. rewrite value_bytes_app, zlen_app in W7.
  pose proof (zlen_nonneg a). pose proof (zlen_nonneg b). pose proof (zlen_nonneg (value_bytes c a)). pose proof (zlen_nonneg (value_bytes c b)).
  split; [split; (done || lia)|]. rewrite leaf_puts_data. pose proof (present_le c a). pose proof (bools_le c (present c a)).
  split; cbn [with_data max_def max_rep defs reps boolbits values]; try done.
  - rewrite zlen_app. unfold entry_defs, zlen at 2. rewrite length_map. fold (zlen a). lia.
  - destruct (0 <? max_rep c); [|lia]. rewrite zlen_app. unfold entry_reps, zlen at 2. rewrite length_map. fold (zlen a). lia.
  - rewrite zlen_app. lia.
  - rewrite zlen_app. fold (value_bytes c a). set (c' := with_data _ _ _ _ _ _ _). change (value_bytes c' b) with (value_bytes c b). lia.
Qed.

Lemma on_leaf_at pre c post f : on_leaf (pre ++ c :: post) (length pre) f = (c' ← f c; Ok (pre ++ c' :: post)).
Proof using. unfold on_leaf. rewrite list_lookup_middle by done. destruct (f c) as [c'| | |]; [|done..]. cbn. by rewrite insert_app_r_alt, Nat.sub_diag by done. Qed.

Lemma shred_elems_puts elems : forall k c, shred_elems k elems c = put_entries c (elem_entries k elems).
Proof using.
  induction elems as [|e elems IH]; intros k c; cbn [shred_elems elem_entries put_entries]; [done|]. destruct (leaf_entry _ _ _ _) as [c'| | |]; [|done..]. cbn. apply IH.
Qed.

Lemma shred_one c def rep o : writable c [(def, rep, o)] -> leaf_entry c def rep o = Ok (leaf_puts c [(def, rep, o)]).
Proof using. intros Hw%writable_puts. cbn [put_entries] in Hw. destruct (leaf_entry c def rep o) as [c'| | |]; [|done..]. exact Hw. Qed.

Lemma shred_fields_Ok fl : forall fields pre seg post, fields_from (length pre) fl -> length seg = live_fields fl ->
  match fields with None => True | Some fs => length fs = length fl end -> Forall2 writable seg (field_entries fl fields) ->
  shred_fields fl fields (pre ++ seg ++ post) = Ok (pre ++ zip_with leaf_puts seg (field_entries fl fields) ++ post).
Proof using.
  induction fl as [|[[i name]|] fl IH]; intros fields pre seg post Hf Hl Hs Hw; cbn [shred_fields field_entries live_fields fields_from] in *.
  - destruct seg; done.
  - destruct Hf as [-> Hf]. destruct seg as [|c seg]; [done|]. apply Forall2_cons_1 in Hw as [Hc Hw]. cbn [zip_with app].
    set (f := match fields with None => None | Some fs => Some (hd None fs) end) in *. set (rest := match fields with None => None | Some fs => Some (tl fs) end) in *.
    assert (Eb : match fields with None => Ok (None, None) | Some [] => Oob | Some (f :: fs) => Ok (f, Some fs) end = Ok (match f with Some o => o | None => None end, rest))
      by (destruct fields as [[|]|]; done).
    rewrite Eb, bind_Ok, on_leaf_at.
    assert (El : match fields with
       | None => leaf_entry c 0 0 None
       | Some _ => match match f with Some o => o | None => None end with None => leaf_entry c 1 0 None | Some d => leaf_entry c 2 0 (Some d) end
       end = Ok (leaf_puts c [field_entry f])).
    { destruct fields as [[|[d|] fs]|]; [done|..]; cbn in Hc; by apply shred_one in Hc. }
    rewrite El, bind_Ok. specialize (IH rest (pre ++ [leaf_puts c [field_entry f]]) seg post). rewrite length_app, Nat.add_1_r in IH. rewrite <- !app_assoc in IH. cbn [app] in IH.
    apply IH; [done|cbn in Hl; lia|destruct fields as [[|]|]; cbn in *; congruence|done].
  - assert (Eb : exists f, match fields with None => Ok (None, None) | Some [] => Oob | Some (f :: fs) => Ok (f, Some fs) end =
      Ok (f, match fields with None => None | Some fs => Some (tl fs) end)) by (destruct fields as [[|]|]; [done|by eexists..]).
    destruct Eb as [f ->]. rewrite !bind_Ok. apply IH; [done|done|destruct fields as [[|]|]; cbn in *; congruence|done].
Qed.

Lemma shred_top_Ok tc v pre seg post : top_from (length pre) tc -> length seg = top_leaves tc -> shaped tc v -> Forall2 writable seg (top_entries tc v) ->
  shred_top tc (pre ++ seg ++ post) v = Ok (pre ++ zip_with leaf_puts seg (top_entries tc v) ++ post).
Proof using.
  intros Hf Hl Hs Hw. destruct tc as [name i|name i|name i n fl]; cbn [top_from top_leaves] in Hf, Hl.
  - subst i. destruct seg as [|c [|]]; try done. cbn [app]. unfold shred_top. destruct v as [[d| |]|]; cbn [top_entries shaped] in *; try done;
      apply Forall2_cons_1 in Hw as [Hw _]; rewrite on_leaf_at; [rewrite (shred_one c 1 0 (Some d))|rewrite (shred_one c 0 0 None)]; done.
  - subst i. destruct seg as [|c [|]]; try done. cbn [app]. unfold shred_top. destruct v as [[|ndim lb elems|]|]; cbn [shaped] in Hs; try done.
    + rewrite (proj2 (Z.ltb_ge _ _)) by done. rewrite on_leaf_at. cbn [top_entries] in *. destruct elems as [|e elems]; cbv iota in Hw |- *; apply Forall2_cons_1 in Hw as [Hw _].
      * by rewrite (shred_one c 1 0 None).
      * rewrite shred_elems_puts, writable_puts by done. done.
    + cbn [top_entries] in *. apply Forall2_cons_1 in Hw as [Hw _]. rewrite on_leaf_at. by rewrite (shred_one c 0 0 None).
  - destruct Hf as (-> & -> & Hf). unfold shred_top. destruct v as [[| |fields]|]; cbn [shaped] in Hs; try done; apply shred_fields_Ok; done.
Qed.

Lemma shred_row_Ok tops : forall row pre seg, tops_from (length pre) tops -> length seg = tops_leaves tops -> Forall2 shaped tops row ->
  Forall2 writable seg (row_entries tops row) -> shred_row tops (pre ++ seg) row = Ok (pre ++ zip_with leaf_puts seg (row_entries tops row)).
Proof using.
  induction tops as [|tc tops IH]; intros row pre seg Hf Hl Hs Hw; cbn [shred_row].
  - destruct seg; [|done]. apply Forall2_nil_inv_l in Hs as ->. done.
  - apply Forall2_cons_inv_l in Hs as (v & row' & Hv & Hs & ->). destruct Hf as [Hf1 Hf2]. cbn [tops_leaves] in Hl. unfold row_entries in *. cbn [zip_with concat] in *.
    pose proof (length_top_entries _ _ v Hf1) as Hle. apply Forall2_app_inv_r in Hw as (s1 & s2 & Hw1 & Hw2 & ->). pose proof (Forall2_length Hw1) as Hl1. rewrite length_app in Hl.
    rewrite shred_top_Ok by (done || congruence). rewrite bind_Ok, zip_with_app by done. rewrite !app_assoc. apply IH; [|lia|done|done].
    rewrite length_app, length_zip_with_l_eq by done. by rewrite Hl1, Hle.
Qed.
End Entries.

(** ** Assembling reads the entries *)

Section Reading.
Context `{T : PgTypes} `{TC : !TypmodCoercion}.
Abbreviation entry := (Z * Z * option datum)%type.

(** The length coercion of a leaf leaves the values of [es] as they are. *)
Definition typed (c : PqLeaf) (l : ImpLeaf) (es : list entry) : Prop :=
  Forall (fun e => match kept c e.2, im_coerce l with Some d, Some tm => coerce_typmod (pl_typid (im_plan l)) tm d = Ok d | _, _ => True end) es.

(** The entries [es] of the writer's leaf [c] are the ones [l] has yet to read. *)
Record at_entries (c : PqLeaf) (l : ImpLeaf) (es : list entry) : Prop := {
  at_def : im_max_def l = max_def c;
  at_ei : 0 <= im_ei l;
  at_vi : 0 <= im_vi l;
  at_defs : drop (Z.to_nat (im_ei l)) (im_defs l) = entry_defs c es;
  at_reps : drop (Z.to_nat (im_ei l)) (im_reps l) = entry_reps es;
  at_vals : drop (Z.to_nat (im_vi l)) (im_vals l) = present c es;
  at_typed : typed c l es }.

(** An entry begins a row. *)
Definition starts (es : list entry) : Prop := match es with [] => True | e :: _ => e.1.2 = 0 end.

Lemma drop_cons_at {A} (l : list A) i x xs : 0 <= i -> drop (Z.to_nat i) l = x :: xs ->
  i < zlen l /\ l !! Z.to_nat i = Some x /\ drop (Z.to_nat (i + 1)) l = xs.
Proof using.
  intros Hi E. assert (Hl : (Z.to_nat i < length l)%nat) by (apply Nat.nle_gt; intros Hge; by rewrite drop_ge in E).
  destruct (lookup_lt_is_Some_2 l _ Hl) as [y Hy]. rewrite (drop_S _ _ _ Hy) in E. injection E as -> <-. split; [unfold zlen; lia|]. split; [done|]. f_equal. lia.
Qed.

Lemma rd1_drop (l : list Z) i x xs : 0 <= i -> drop (Z.to_nat i) l = x :: xs -> rd1 l i = Ok x.
Proof using. intros Hi E. destruct (drop_cons_at l i x xs Hi E) as (H1 & H2 & _). rewrite rd1_Ok by lia. f_equal. unfold nthZ. by apply nth_lookup_Some. Qed.

Lemma take_value_Ok c l def rep d es deleted : at_entries c l ((def, rep, Some d) :: es) -> kept c (Some d) = Some d ->
  pq_take_value l (negb deleted) = Ok (d, with_cursors l (im_ei l) (im_vi l + 1)).
Proof using.
  intros [? ? Hv _ _ Hvals Ht] Hk. rewrite present_cons, Hk in Hvals. destruct (drop_cons_at _ _ _ _ Hv Hvals) as (H1 & H2 & _).
  unfold pq_take_value. rewrite (proj2 (Z.leb_le _ _)), (proj2 (Z.ltb_lt _ _)) by lia. cbn [andb]. rewrite H2. cbv zeta.
  apply Forall_cons_1 in Ht as [Ht _]. cbn [snd] in Ht. rewrite Hk in Ht. destruct (im_coerce l) as [tm|]; [|done]. destruct deleted; [done|]. cbn [negb]. by rewrite Ht.
Qed.

Lemma kept_same c o d : kept c o = Some d -> o = Some d.
Proof using. unfold kept. destruct o as [d'|]; [|done]. by destruct (unrepresentable c d'). Qed.

(** One entry. *)
Lemma read_entry c l e es deleted : 1 <= max_def c -> entry_ok c e -> at_entries c l (e :: es) ->
  pq_require_entry l = Ok tt /\ rd1 (im_defs l) (im_ei l) = Ok (kept_def c e.1.1 e.2) /\
  exists l', entry_value l (kept_def c e.1.1 e.2) deleted = Ok (kept c e.2, l') /\ at_entries c l' es /\
    im_defs l' = im_defs l /\ im_reps l' = im_reps l /\ im_ei l' = im_ei l + 1.
Proof using.
  intros Hm He Hat. pose proof Hat as [A1 A2 A3 A4 A5 A6 A7]. destruct e as [[def rep] o]. cbn [fst snd] in *.
  destruct (drop_cons_at _ _ _ _ A2 A4) as (D1 & D2 & D3). destruct (drop_cons_at _ _ _ _ A2 A5) as (R1 & R2 & R3). rewrite present_cons in A6.
  apply Forall_cons_1 in A7 as [_ A7]. destruct (kept_def_range c _ Hm He) as [_ Hiff]. cbn [fst snd] in Hiff.
  split; [unfold pq_require_entry, im_nEntries; by rewrite (proj2 (Z.leb_gt _ _)) by done|]. split; [by apply (rd1_drop _ _ _ _ A2 A4)|].
  unfold entry_value. rewrite A1. destruct (Z.eqb_spec (kept_def c def o) (max_def c)) as [E|E].
  - destruct (kept c o) as [d|] eqn:Ek; [|by apply Hiff in E]. pose proof (kept_same _ _ _ Ek) as ->.
    rewrite (take_value_Ok c l def rep d es) by done. rewrite bind_Ok. eexists. split; [done|]. split; [|done].
    split; cbn [next_entry with_cursors im_max_def im_ei im_vi im_defs im_reps im_vals im_coerce im_plan]; try done; try lia.
    by destruct (drop_cons_at _ _ _ _ A3 A6) as (_ & _ & ?).
  - destruct (kept c o) as [d|] eqn:Ek; [by destruct E; apply Hiff|]. eexists. split; [done|]. split; [|done].
    split; cbn [next_entry with_cursors im_max_def im_ei im_vi im_defs im_reps im_vals im_coerce im_plan]; try done; lia.
Qed.

(** The elements of a list. *)
Lemma read_elems c deleted : 1 <= max_def c -> forall elems k l e rest fuel, Forall (entry_ok c) (e :: elem_entries (S k) elems) ->
  at_entries c l (e :: elem_entries (S k) elems ++ rest) -> starts rest -> (length elems < fuel)%nat ->
  exists l', assemble_elems fuel l deleted = Ok (kept c e.2 :: map (kept c) elems, l') /\ at_entries c l' rest.
Proof using.
  intros Hm. induction elems as [|e' elems IH]; intros k l e rest fuel Hok Hat Hst Hf; (destruct fuel as [|fuel]; [lia|]);
    apply Forall_cons_1 in Hok as [He Hok]; cbn [elem_entries app] in *;
    destruct (read_entry c l e _ deleted Hm He Hat) as (_ & E2 & l' & E3 & Hat' & E4 & E5 & E6); cbn [assemble_elems]; rewrite E2, bind_Ok, E3, bind_Ok.
  - exists l'. split; [|done]. pose proof Hat' as [_ A2 _ A4 A5 _ _]. unfold im_nEntries. destruct rest as [|[[d r] o] rest].
    + assert (Hge : zlen (im_defs l') <= im_ei l') by (apply (f_equal length) in A4; rewrite length_drop in A4; cbn in A4; unfold zlen; lia).
      by rewrite (proj2 (Z.ltb_ge _ _)), !bind_Ok by done.
    + destruct (drop_cons_at _ _ _ _ A2 A4) as (D1 & _ & _). rewrite (proj2 (Z.ltb_lt _ _)) by done. cbn [starts fst snd] in Hst. rewrite (rd1_drop _ _ _ _ A2 A5), !bind_Ok. cbn [fst snd].
      rewrite Hst. done.
  - pose proof Hat' as [_ A2 _ A4 A5 _ _]. destruct (drop_cons_at _ _ _ _ A2 A4) as (D1 & _ & _). unfold im_nEntries. rewrite (proj2 (Z.ltb_lt _ _)) by done.
    rewrite (rd1_drop _ _ _ _ A2 A5), !bind_Ok. cbn [fst snd]. cbn [Z.eqb negb].
    destruct (IH (S k) l' _ rest fuel Hok Hat' Hst ltac:(cbn in Hf; lia)) as (l'' & -> & Hat''). rewrite bind_Ok. exists l''. split; [|done]. done.
Qed.

(** ** What a reader sees of a value *)

(** Values Parquet cannot hold are nulls; an array has one dimension and the lower
    bound 1, an empty one no dimension. *)
Definition seen_scalar (c : PqLeaf) (v : option coldatum) : option coldatum :=
  match v with Some (AScalar d) => match kept c (Some d) with Some d => Some (AScalar d) | None => None end | _ => None end.

Definition seen_list (c : PqLeaf) (v : option coldatum) : option coldatum :=
  match v with
  | Some (AArray _ _ []) => Some (AArray 0 1 [])
  | Some (AArray _ _ elems) => Some (AArray 1 1 (map (kept c) elems))
  | _ => None
  end.

Fixpoint seen_fields (cs : list PqLeaf) (fl : list (option (nat * list Z))) (fields : option (list (option datum))) : list (option datum) :=
  match fl with
  | [] => []
  | li :: fl =>
      let f := match fields with None => None | Some fs => hd None fs end in
      let rest := match fields with None => None | Some fs => Some (tl fs) end in
      match li, cs with
      | Some _, c :: cs => kept c f :: seen_fields cs fl rest
      | _, _ => None :: seen_fields cs fl rest
      end
  end.

Definition seen_top (cs : list PqLeaf) (tc : TopColumn) (v : option coldatum) : option coldatum :=
  match tc, cs with
  | TOP_SCALAR _ _, c :: _ => seen_scalar c v
  | TOP_LIST _ _, c :: _ => seen_list c v
  | TOP_STRUCT _ _ _ fl, _ => match v with Some (ARow fields) => Some (ARow (seen_fields cs fl (Some fields))) | _ => None end
  | _, _ => None
  end.

Fixpoint seen_row (cs : list PqLeaf) (tops : list TopColumn) (row : list (option coldatum)) : list (option coldatum) :=
  match tops, row with
  | tc :: tops, v :: row => seen_top (take (top_leaves tc) cs) tc v :: seen_row (drop (top_leaves tc) cs) tops row
  | _, _ => []
  end.

(** The reader's column for a column of the writer. *)
Definition imp_top (attno : nat) (tc : TopColumn) : ImpTop :=
  match tc with
  | TOP_SCALAR _ i => IMP_SCALAR attno i
  | TOP_LIST _ i => IMP_LIST attno i
  | TOP_STRUCT _ i n fl => IMP_STRUCT attno i n (map (fun li => match li with Some (i, _) => Some i | None => None end) fl)
  end.

(** The levels a column's leaves have; a composite has a leaf. *)
Definition top_levels (cs : list PqLeaf) (tc : TopColumn) : Prop :=
  match tc with
  | TOP_SCALAR _ _ => Forall (fun c => max_def c = 1) cs
  | TOP_LIST _ _ => Forall (fun c => max_def c = 3) cs
  | TOP_STRUCT _ _ n _ => (0 < n)%nat /\ Forall (fun c => max_def c = 2) cs
  end.

Definition entries_fit (c : PqLeaf) (es : list entry) : Prop := Forall (entry_ok c) es.

Lemma read_scalar c l v rest deleted : max_def c = 1 -> match v with Some (AScalar _) | None => True | _ => False end ->
  let e := match v with Some (AScalar d) => (1, 0, Some d) | _ => (0, 0, None) end in entry_ok c e -> at_entries c l (e :: rest) ->
  exists o l', assemble_scalar l deleted = Ok (o, l') /\ match o with Some d => Some (AScalar d) | None => None end = seen_scalar c v /\ at_entries c l' rest.
Proof using.
  intros Hm Hv e He Hat. destruct (read_entry c l e rest deleted ltac:(lia) He Hat) as (E1 & E2 & l' & E3 & Hat' & _).
  exists (kept c e.2), l'. split; [unfold assemble_scalar; by rewrite E1, bind_Ok, E2, bind_Ok, E3|]. split; [|done]. destruct v as [[]|]; done.
Qed.

Lemma read_list c l v rest deleted : max_def c = 3 -> match v with Some (AArray _ _ _) | None => True | _ => False end ->
  let es := match v with Some (AArray _ _ []) => [(1, 0, None)] | Some (AArray _ _ elems) => elem_entries 0 elems | _ => [(0, 0, None)] end in
  entries_fit c es -> at_entries c l (es ++ rest) -> starts rest ->
  exists l', assemble_list l deleted = Ok (seen_list c v, l') /\ at_entries c l' rest.
Proof using.
  intros Hm Hv es He Hat Hst. unfold assemble_list. assert (Hm1 : 1 <= max_def c) by lia.
  destruct v as [[|ndim lb [|e elems]|]|]; try done; subst es; cbn [elem_entries app] in *; apply Forall_cons_1 in He as [He Hes];
    destruct (read_entry c l _ _ deleted Hm1 He Hat) as (E1 & E2 & l' & E3 & Hat' & E4 & E5 & E6); rewrite E1, bind_Ok, E2, bind_Ok; cbn [fst snd kept_def kept] in *.
  - exists l'. split; [|done]. unfold entry_value in E3. pose proof Hat as [Hd _ _ _ _ _ _]. rewrite Hd, Hm in E3. cbn in E3. injection E3 as <-. done.
  - assert (Hd : 1 < kept_def c (match e with None => 2 | Some _ => 3 end) e) by (unfold kept_def; destruct e as [d|]; [destruct (unrepresentable c d)|]; lia).
    rewrite !(proj2 (Z.eqb_neq _ _)) by lia.
    pose proof Hat as [_ A2 _ A4 _ _ _]. destruct (read_elems c deleted Hm1 elems 0 l _ rest (length (im_defs l)) (Forall_cons_2 _ _ _ He Hes) Hat Hst) as (l'' & -> & Hat'').
    { apply (f_equal length) in A4. rewrite length_drop in A4. unfold entry_defs in A4. rewrite length_map in A4. cbn [length] in A4. rewrite length_app in A4.
      assert (Hl : forall k, length (elem_entries k elems) = length elems) by (clear; induction elems; intros k; cbn [elem_entries length]; congruence).
      rewrite Hl in A4. lia. }
    rewrite bind_Ok. exists l''. done.
  - exists l'. split; [|done]. unfold entry_value in E3. pose proof Hat as [Hd _ _ _ _ _ _]. rewrite Hd, Hm in E3. cbn in E3. injection E3 as <-. done.
Qed.

Lemma read_fields deleted fl : forall fields pre cs seg post E, fields_from (length pre) fl -> length E = live_fields fl ->
  Forall (fun c => max_def c = 2) cs -> Forall2 entries_fit cs (field_entries fl fields) ->
  Forall3 at_entries cs seg (zip_with app (field_entries fl fields) E) ->
  exists seg', assemble_fields (map (fun li => match li with Some (i, _) => Some i | None => None end) fl) (pre ++ seg ++ post) deleted =
      Ok (match fields with None => bool_decide (live_fields fl <> O) | Some _ => false end, seen_fields cs fl fields, pre ++ seg' ++ post) /\
    Forall3 at_entries cs seg' E.
Proof using.
  induction fl as [|[[i name]|] fl IH]; intros fields pre cs seg post E Hf Hl Hm Hfit Hat; cbn [map assemble_fields field_entries live_fields fields_from seen_fields] in *.
  - destruct E; [|done]. cbn in Hat. inversion Hat; subst. exists []. split; [|done]. by destruct fields.
  - destruct Hf as [-> Hf]. destruct E as [|es E]; [done|]. set (f := match fields with None => None | Some fs => Some (hd None fs) end) in *.
    set (rest := match fields with None => None | Some fs => Some (tl fs) end) in *. cbn [zip_with] in Hat.
    inversion Hat as [|c l a cs' seg0 E0 Hc Hat' Ec Es Ee]; subst cs seg; clear Hat Ee. apply Forall2_cons_1 in Hfit as [Hfit1 Hfit]. apply Forall_cons_1 in Hm as [Hm1 Hm].
    cbn [app] in Hc |- *. rewrite list_lookup_middle by done. apply Forall_cons_1 in Hfit1 as [He _].
    destruct (read_entry c l (field_entry f) es deleted ltac:(lia) He Hc) as (R1 & R2 & l' & R3 & Hl' & _). rewrite R1, bind_Ok, R2, bind_Ok, R3, bind_Ok.
    rewrite insert_app_r_alt, Nat.sub_diag by done. cbn [list_insert].
    destruct (IH rest (pre ++ [l']) cs' seg0 post E) as (seg' & I1 & I2); [by rewrite length_app, Nat.add_1_r|cbn in Hl; lia|done|done|done|].
    rewrite <- !app_assoc in I1. cbn [app] in I1. change (<[O:=l']> (l :: seg0 ++ post)) with (l' :: seg0 ++ post). rewrite I1, bind_Ok. exists (l' :: seg'). split; [|by constructor].
    f_equal. f_equal. f_equal. 
    + subst f rest. destruct fields as [[|[d|] fs]|]; cbn [hd tl field_entry fst snd kept_def]; try done.
      destruct (unrepresentable c d); rewrite ?Hm1; done.
    + by subst f; destruct fields as [[|[d|] fs]|].
  - destruct (IH (match fields with None => None | Some fs => Some (tl fs) end) pre cs seg post E) as (seg' & I1 & I2); try done.
    rewrite I1, bind_Ok. exists seg'. split; [|done]. destruct cs; by destruct fields.
Qed.

Lemma read_top deleted tc v attno pre cs seg post E : top_from (length pre) tc -> length E = top_leaves tc -> shaped tc v -> top_levels cs tc ->
  Forall2 entries_fit cs (top_entries tc v) -> Forall3 at_entries cs seg (zip_with app (top_entries tc v) E) -> Forall starts E ->
  exists seg', assemble_top (imp_top attno tc) (pre ++ seg ++ post) deleted = Ok (seen_top cs tc v, pre ++ seg' ++ post) /\ Forall3 at_entries cs seg' E.
Proof using.
  intros Hf Hl Hs Hm Hfit Hat Hst. destruct tc as [name i|name i|name i n fl]; cbn [top_from top_leaves imp_top assemble_top top_levels] in *.
  - subst i. destruct E as [|es [|]]; try done. assert (Htop : exists e, top_entries (TOP_SCALAR name (length pre)) v = [[e]] /\ e = match v with Some (AScalar d) => (1, 0, Some d) | _ => (0, 0, None) end)
      by (eexists; split; [|reflexivity]; by destruct v as [[]|]). destruct Htop as (e & Et & Ee). rewrite Et in *. cbn [zip_with] in Hat.
    inversion Hat as [|c l a cs' seg0 E0 Hc Hat' Ec Es E1]; subst cs seg. inversion Hat'; subst. cbn [app]. rewrite list_lookup_middle by done.
    apply Forall2_cons_1 in Hfit as [Hfit _]. apply Forall_cons_1 in Hfit as [He _]. apply Forall_cons_1 in Hm as [Hm _].
    destruct (read_scalar c l v es deleted Hm) as (o & l' & -> & Ho & Hl'); [by destruct v as [[]|]|done|done|]. rewrite bind_Ok, Ho. exists [l'].
    rewrite insert_app_r_alt, Nat.sub_diag by done. split; [done|]. apply Forall3_cons; [done|apply Forall3_nil].
  - subst i. destruct E as [|es [|]]; try done. cbn [zip_with] in Hat.
    assert (Htop : exists a, top_entries (TOP_LIST name (length pre)) v = [a] /\
      a = match v with Some (AArray _ _ []) => [(1, 0, None)] | Some (AArray _ _ elems) => elem_entries 0 elems | _ => [(0, 0, None)] end)
      by (eexists; split; [|reflexivity]; by destruct v as [[|? ? []|]|]). destruct Htop as (a & Et & Ee). rewrite Et in *. cbn [zip_with] in Hat.
    inversion Hat as [|c l a' cs' seg0 E0 Hc Hat' Ec Es E1]; subst cs seg. inversion Hat'; subst cs' seg0. cbn [app]. rewrite list_lookup_middle by done.
    apply Forall2_cons_1 in Hfit as [Hfit _]. apply Forall_cons_1 in Hm as [Hm _]. apply Forall_cons_1 in Hst as [Hst _]. subst a.
    destruct (read_list c l v es deleted Hm) as (l' & -> & Hl'); [by destruct v as [[]|]|done|done|done|]. rewrite bind_Ok. exists [l'].
    rewrite insert_app_r_alt, Nat.sub_diag by done. split; [done|]. apply Forall3_cons; [done|apply Forall3_nil].
  - destruct Hf as (-> & -> & Hf). destruct Hm as [Hn Hm].
    assert (Htop : exists fields, top_entries (TOP_STRUCT name (length pre) (live_fields fl) fl) v = field_entries fl fields /\
      fields = match v with Some (ARow fs) => Some fs | _ => None end) by (eexists; split; [|reflexivity]; by destruct v as [[]|]). destruct Htop as (fields & Et & Ef). rewrite Et in *.
    destruct (read_fields deleted fl fields pre cs seg post E Hf Hl Hm Hfit Hat) as (seg' & -> & Hat'). rewrite bind_Ok. exists seg'. split; [|done].
    unfold seen_top. destruct v as [[]|]; subst fields; try done. rewrite bool_decide_eq_true_2 by lia. by destruct cs.
Qed.

(** ** A row *)

Fixpoint imp_tops (attno : nat) (tops : list TopColumn) : list ImpTop :=
  match tops with [] => [] | tc :: tops => imp_top attno tc :: imp_tops (S attno) tops end.

Fixpoint levels_ok (cs : list PqLeaf) (tops : list TopColumn) : Prop :=
  match tops with [] => True | tc :: tops => top_levels (take (top_leaves tc) cs) tc /\ levels_ok (drop (top_leaves tc) cs) tops end.

Lemma it_attno_top attno tc : it_attno (imp_top attno tc) = attno.
Proof using. by destruct tc. Qed.

Lemma Forall3_length {A B C} (P : A -> B -> C -> Prop) l k m : Forall3 P l k m -> length l = length k /\ length k = length m.
Proof using. induction 1 as [|x y z l k m _ _ [IH1 IH2]]; cbn; [done|]. lia. Qed.

Lemma Forall3_app_split {A B C} (P : A -> B -> C -> Prop) l k m1 m2 : Forall3 P l k (m1 ++ m2) ->
  Forall3 P (take (length m1) l) (take (length m1) k) m1 /\ Forall3 P (drop (length m1) l) (drop (length m1) k) m2.
Proof using.
  revert l k. induction m1 as [|z m1 IH]; intros l k H; cbn [length take drop app] in *; [split; [apply Forall3_nil|]; by rewrite !drop_0|].
  inversion H as [|x y z' l' k' m' Hp Ht E1 E2 E3]; subst. cbn [take drop]. destruct (IH _ _ Ht) as [H1 H2]. split; [by apply Forall3_cons|done].
Qed.

Lemma zip_with_app_split {A B C} (f : A -> B -> C) (a1 a2 : list A) (b : list B) : (length a1 <= length b)%nat ->
  zip_with f (a1 ++ a2) b = zip_with f a1 (take (length a1) b) ++ zip_with f a2 (drop (length a1) b).
Proof using.
  intros Hl. rewrite <- (take_drop (length a1) b) at 1. apply zip_with_app. rewrite length_take. lia.
Qed.

Lemma read_row deleted tops : forall row left_ rest pre cs seg E, tops_from (length pre) tops -> length E = tops_leaves tops -> length cs = tops_leaves tops ->
  Forall2 shaped tops row -> levels_ok cs tops -> Forall2 entries_fit cs (row_entries tops row) ->
  Forall3 at_entries cs seg (zip_with app (row_entries tops row) E) -> Forall starts E -> length rest = length tops ->
  exists seg', assemble_row (imp_tops (length left_) tops) None (pre ++ seg) (left_ ++ rest) deleted = Ok (left_ ++ seen_row cs tops row, pre ++ seg') /\
    Forall3 at_entries cs seg' E.
Proof using.
  induction tops as [|tc tops IH]; intros row left_ rest pre cs seg E Hf Hl Hlc Hs Hm Hfit Hat Hst Hr; cbn [imp_tops assemble_row].
  - destruct rest; [|done]. destruct E; [|done]. destruct cs; [|done]. exists seg. split; [done|]. inversion Hat. apply Forall3_nil.
  - apply Forall2_cons_inv_l in Hs as (v & row' & Hv & Hs & ->). destruct Hf as [Hf1 Hf2]. destruct Hm as [Hm1 Hm2]. cbn [tops_leaves] in Hl, Hlc.
    unfold row_entries in Hfit, Hat. cbn [zip_with concat] in Hfit, Hat. fold (row_entries tops row') in Hfit, Hat. pose proof (length_top_entries _ _ v Hf1) as Hte.
    rewrite zip_with_app_split in Hat by lia. rewrite Hte in Hat. set (n := top_leaves tc) in *.
    assert (Hz : length (zip_with app (top_entries tc v) (take n E)) = n) by (rewrite length_zip_with_l_eq by (rewrite length_take; lia); done).
    apply Forall3_app_split in Hat as [Hat1 Hat2]. rewrite Hz in Hat1, Hat2. pose proof (Forall3_length _ _ _ _ Hat1) as [L1 L2]. rewrite Hz in L2.
    assert (Hfit' : Forall2 entries_fit (take n cs) (top_entries tc v) /\ Forall2 entries_fit (drop n cs) (row_entries tops row')).
    { apply Forall2_app_inv_r in Hfit as (c1 & c2 & F1 & F2 & ->). pose proof (Forall2_length F1) as Hc1. rewrite Hte in Hc1.
      rewrite take_app_length', drop_app_length' by done. done. }
    destruct Hfit' as [Hfit1 Hfit2]. destruct rest as [|r rest]; [done|]. rewrite bind_Ok. cbv iota.
    destruct (read_top deleted tc v (length left_) pre (take n cs) (take n seg) (drop n seg) (take n E)) as (seg1 & T1 & T2);
      [done|rewrite length_take; lia|done|done|done|done|by apply Forall_take|].
    rewrite take_drop in T1. rewrite T1, bind_Ok, it_attno_top. rewrite decide_True by (rewrite length_app; cbn; lia).
    rewrite insert_app_r_alt, Nat.sub_diag by done. cbn [list_insert].
    destruct (Forall3_length _ _ _ _ T2) as [K1 K2]. rewrite length_take in K2.
    destruct (IH row' (left_ ++ [seen_top (take n cs) tc v]) rest (pre ++ seg1) (drop n cs) (drop n seg) (drop n E)) as (seg2 & I1 & I2);
      [rewrite length_app; replace (length seg1) with n by lia; done|rewrite length_drop; lia|rewrite length_drop; lia|done|done|done|done|by apply Forall_drop|cbn in Hr; lia|].
    rewrite length_app, Nat.add_1_r, <- !app_assoc in I1. cbn [app] in I1. cbn [seen_row]. fold n. exists (seg1 ++ seg2). split; [exact I1|].
    rewrite <- (take_drop n E), <- (take_drop n cs). by apply Forall3_app.
Qed.

(** ** Rows *)

(** The entries of each leaf for the rows of a group. *)
Definition rows_entries (tops : list TopColumn) (rows : list (list (option coldatum))) : list (list entry) :=
  foldr (fun row E => zip_with app (row_entries tops row) E) (replicate (tops_leaves tops) []) rows.

Lemma length_rows_entries tops k rows : tops_from k tops -> Forall (fun row => length row = length tops) rows -> length (rows_entries tops rows) = tops_leaves tops.
Proof using.
  intros Hf. induction 1 as [|row rows Hrow Hrows IH]; cbn [rows_entries foldr]; [by rewrite length_replicate|].
  rewrite length_zip_with_l_eq; [by eapply length_row_entries|]. fold (rows_entries tops rows). rewrite IH. by eapply length_row_entries.
Qed.

Definition begins (es : list entry) : Prop := match es with [] => False | e :: _ => e.1.2 = 0 end.

Lemma field_entries_begin fl : forall fields, Forall begins (field_entries fl fields).
Proof using.
  induction fl as [|[li|] fl IH]; intros fields; cbn [field_entries]; [constructor| |apply IH]. constructor; [|apply IH]. by destruct fields as [[|[] ]|].
Qed.

Lemma row_entries_begin tops row : Forall begins (row_entries tops row).
Proof using.
  unfold row_entries. revert row. induction tops as [|tc tops IH]; intros [|v row]; cbn [zip_with concat]; try constructor. apply Forall_app_2; [|apply IH].
  destruct tc; cbn [top_entries].
  - destruct v as [[]|]; by repeat constructor.
  - destruct v as [[|? ? []|]|]; by repeat constructor.
  - destruct v as [[]|]; apply field_entries_begin.
Qed.

Lemma rows_entries_start tops rows : Forall starts (rows_entries tops rows).
Proof using.
  induction rows as [|row rows IH]; cbn [rows_entries foldr]; [apply Forall_replicate; done|]. fold (rows_entries tops rows).
  generalize (row_entries_begin tops row). generalize (row_entries tops row) as R. generalize dependent (rows_entries tops rows). intros E HE R HR.
  revert E HE. induction HR as [|es R Hes HR IHR]; intros [|e E] HE; cbn [zip_with]; try constructor; [by destruct es|]. apply IHR. by apply Forall_cons_1 in HE as [_ ?].
Qed.
End Reading.

(** ** Any entries *)

Class TypmodCoercionLaws `(TC : TypmodCoercion) : Prop := {
  coerce_safe : forall typid typmod d, safe (fun _ => True) (coerce_typmod typid typmod d) }.

Section RowSafety.
Context `{T : PgTypes} `{TC : !TypmodCoercion} `{TCL : !TypmodCoercionLaws TC}.

(** The cursors stay in the arrays: the entries to come hold no more values than
    the array of values has left. *)
Record imp_ok (l : ImpLeaf) : Prop := {
  io_ei : 0 <= im_ei l;
  io_vi : 0 <= im_vi l;
  io_reps : zlen (im_reps l) = zlen (im_defs l);
  io_vals : im_vi l + zlen (filter (fun d => d = im_max_def l) (drop (Z.to_nat (im_ei l)) (im_defs l))) <= zlen (im_vals l) }.

Lemma entry_step l d rest : 0 <= im_ei l -> drop (Z.to_nat (im_ei l)) (im_defs l) = d :: rest -> imp_ok l ->
  safe (fun '(_, l') => imp_ok l' /\ im_defs l' = im_defs l /\ im_ei l' = im_ei l + 1) (entry_value l d false) /\
  safe (fun '(_, l') => imp_ok l' /\ im_defs l' = im_defs l /\ im_ei l' = im_ei l + 1) (entry_value l d true).
Proof using TCL.
  intros He Ed [H1 H2 H3 H4]. destruct (drop_cons_at _ _ _ _ He Ed) as (L1 & L2 & L3). rewrite Ed, filter_cons in H4. unfold entry_value, pq_take_value.
  pose proof (zlen_nonneg (filter (fun d => d = im_max_def l) rest)).
  destruct (Z.eqb_spec d (im_max_def l)) as [->|Hd].
  - rewrite decide_True in H4 by done. rewrite zlen_cons in H4. rewrite (proj2 (Z.leb_le _ _)), (proj2 (Z.ltb_lt _ _)) by lia. cbn [andb].
    destruct (lookup_lt_is_Some_2 (im_vals l) (Z.to_nat (im_vi l))) as [v ->]; [unfold zlen in *; lia|]. cbv zeta.
    assert (Hok : imp_ok (next_entry (with_cursors l (im_ei l) (im_vi l + 1)))) by (split; cbn [next_entry with_cursors im_ei im_vi im_reps im_defs im_max_def im_vals]; [lia|lia|done|rewrite L3; lia]).
    split; destruct (im_coerce l) as [tm|]; cbn [negb]; try done.
    pose proof (coerce_safe (pl_typid (im_plan l)) tm v) as Hc. by destruct (coerce_typmod _ _ _).
  - rewrite decide_False in H4 by done. assert (Hok : imp_ok (next_entry l)) by (split; cbn [next_entry with_cursors im_ei im_vi im_reps im_defs im_max_def im_vals]; [lia|lia|done|rewrite L3; lia]).
    split; done.
Qed.

Lemma entry_safe l deleted : imp_ok l -> im_ei l < im_nEntries l -> exists d rest, rd1 (im_defs l) (im_ei l) = Ok d /\ drop (Z.to_nat (im_ei l)) (im_defs l) = d :: rest /\
  safe (fun '(_, l') => imp_ok l' /\ im_defs l' = im_defs l /\ im_ei l' = im_ei l + 1) (entry_value l d deleted).
Proof using TCL.
  intros Hok Hlt. pose proof (io_ei l Hok). unfold im_nEntries in Hlt. destruct (lookup_lt_is_Some_2 (im_defs l) (Z.to_nat (im_ei l))) as [d Hd]; [unfold zlen in *; lia|].
  pose proof (drop_S _ _ _ Hd) as Ed. exists d, (drop (S (Z.to_nat (im_ei l))) (im_defs l)). split; [by eapply rd1_drop|]. split; [done|].
  destruct (entry_step l d _ ltac:(lia) Ed Hok). by destruct deleted.
Qed.

Lemma require_entry_safe {A} (P : A -> Prop) l (k : res A) : (im_ei l < im_nEntries l -> safe P k) -> safe P (_ ← pq_require_entry l; k).
Proof using. unfold pq_require_entry. destruct (Z.leb_spec (im_nEntries l) (im_ei l)); [done|]. rewrite bind_Ok. auto. Qed.

Lemma assemble_scalar_safe l deleted : imp_ok l -> safe (fun '(_, l') => imp_ok l') (assemble_scalar l deleted).
Proof using TCL.
  intros Hok. apply require_entry_safe. intros Hlt. destruct (entry_safe l deleted Hok Hlt) as (d & rest & -> & _ & Hs). rewrite bind_Ok.
  eapply safe_mono; [exact Hs|]. intros [o l']. tauto.
Qed.

Lemma assemble_elems_safe deleted fuel : forall l, imp_ok l -> im_ei l < im_nEntries l -> im_nEntries l - im_ei l <= Z.of_nat fuel ->
  safe (fun '(_, l') => imp_ok l') (assemble_elems fuel l deleted).
Proof using TCL.
  induction fuel as [|fuel IH]; intros l Hok Hlt Hf; [lia|]. cbn [assemble_elems]. destruct (entry_safe l deleted Hok Hlt) as (d & rest & -> & _ & Hs). rewrite bind_Ok.
  eapply safe_bind; [exact Hs|]. intros [e l'] (Hok' & Ed & Ee). unfold im_nEntries in *. destruct (Z.ltb_spec (im_ei l') (zlen (im_defs l'))) as [Hm|Hm].
  - pose proof (io_ei _ Hok'). pose proof (io_reps _ Hok'). rewrite rd1_Ok, !bind_Ok by lia. destruct (negb _); [|done]. eapply safe_bind; [apply IH; [done|unfold im_nEntries; lia|]|].
    + rewrite Ed, Ee. lia.
    + intros [es l'']. done.
  - rewrite bind_Ok. done.
Qed.

Lemma next_entry_ok l : imp_ok l -> im_ei l < im_nEntries l -> imp_ok (next_entry l).
Proof using.
  intros [H1 H2 H3 H4] Hlt. unfold im_nEntries in Hlt. destruct (lookup_lt_is_Some_2 (im_defs l) (Z.to_nat (im_ei l))) as [d Hd]; [unfold zlen in *; lia|].
  rewrite (drop_S _ _ _ Hd), filter_cons in H4. split; cbn [next_entry with_cursors im_ei im_vi im_reps im_defs im_max_def im_vals]; [lia|lia|done|].
  replace (Z.to_nat (im_ei l + 1)) with (S (Z.to_nat (im_ei l))) by lia. case_decide; [rewrite zlen_cons in H4|]; lia.
Qed.

Lemma assemble_list_safe l deleted : imp_ok l -> safe (fun '(_, l') => imp_ok l') (assemble_list l deleted).
Proof using TCL.
  intros Hok. apply require_entry_safe. intros Hlt. pose proof (io_ei _ Hok). unfold im_nEntries in Hlt. rewrite rd1_Ok, bind_Ok by lia. destruct (_ =? 0); [by apply next_entry_ok|].
  destruct (_ =? 1); [by apply next_entry_ok|]. eapply safe_bind; [apply assemble_elems_safe; [done|done|unfold im_nEntries, zlen; lia]|]. intros [es l']. done.
Qed.

Lemma assemble_fields_safe deleted fl : forall leaves, Forall imp_ok leaves -> Forall (fun li => match li with Some i => (i < length leaves)%nat | None => True end) fl ->
  safe (fun '(_, _, leaves') => Forall imp_ok leaves' /\ length leaves' = length leaves) (assemble_fields fl leaves deleted).
Proof using TCL.
  induction fl as [|[i|] fl IH]; intros leaves Hok Hfl; cbn [assemble_fields]; [done| |]; apply Forall_cons_1 in Hfl as [Hi Hfl].
  - destruct (lookup_lt_is_Some_2 _ _ Hi) as [l Hl]. rewrite Hl. assert (Hlok : imp_ok l) by (by eapply Forall_lookup_1 in Hok). apply require_entry_safe. intros Hlt.
    destruct (entry_safe l deleted Hlok Hlt) as (d & rest & -> & _ & Hs). rewrite bind_Ok. eapply safe_bind; [exact Hs|]. intros [f l'] (Hl' & _ & _).
    eapply safe_bind; [apply IH; [by apply Forall_insert|by rewrite length_insert]|]. intros [[n fs] leaves'] [H1 H2]. cbn [safe]. by rewrite length_insert in H2.
  - eapply safe_bind; [by apply IH|]. intros [[n fs] leaves']. done.
Qed.

(** The leaves and attribute a column names exist. *)
Definition top_in (nleaves natts : nat) (t : ImpTop) : Prop :=
  (it_attno t < natts)%nat /\
  match t with
  | IMP_SCALAR _ i | IMP_LIST _ i => (i < nleaves)%nat
  | IMP_STRUCT _ _ _ fl => Forall (fun li => match li with Some i => (i < nleaves)%nat | None => True end) fl
  end.

Lemma assemble_top_safe t leaves natts deleted : Forall imp_ok leaves -> top_in (length leaves) natts t ->
  safe (fun '(_, leaves') => Forall imp_ok leaves' /\ length leaves' = length leaves) (assemble_top t leaves deleted).
Proof using TCL.
  intros Hok [_ Ht]. destruct t as [a i|a i|a i n fl]; cbn [assemble_top].
  - destruct (lookup_lt_is_Some_2 _ _ Ht) as [l Hl]. rewrite Hl. eapply safe_bind; [apply assemble_scalar_safe; by eapply Forall_lookup_1 in Hok|]. intros [o l'] Hl'. cbn [safe].
    split; [by apply Forall_insert|apply length_insert].
  - destruct (lookup_lt_is_Some_2 _ _ Ht) as [l Hl]. rewrite Hl. eapply safe_bind; [apply assemble_list_safe; by eapply Forall_lookup_1 in Hok|]. intros [o l'] Hl'. cbn [safe].
    split; [by apply Forall_insert|apply length_insert].
  - eapply safe_bind; [by apply assemble_fields_safe|]. intros [[sn fs] leaves']. done.
Qed.

Lemma assemble_row_safe deleted tops : forall needTop leaves slot, Forall imp_ok leaves -> Forall (top_in (length leaves) (length slot)) tops ->
  match needTop with None => True | Some bs => (length tops <= length bs)%nat end ->
  safe (fun '(slot', leaves') => length slot' = length slot /\ Forall imp_ok leaves' /\ length leaves' = length leaves) (assemble_row tops needTop leaves slot deleted).
Proof using TCL.
  induction tops as [|t tops IH]; intros needTop leaves slot Hok Ht Hn; cbn [assemble_row]; [done|]. apply Forall_cons_1 in Ht as [Ht Hts].
  assert (Hb : exists need rest, match needTop with None => Ok (true, None) | Some [] => Oob | Some (b :: bs) => Ok (b, Some bs) end = Ok (need, rest) /\
    match rest with None => True | Some bs => (length tops <= length bs)%nat end)
    by (destruct needTop as [[|b bs]|]; [cbn in Hn; lia|cbn in Hn; exists b, (Some bs); split; [done|lia]|by exists true, None]).
  destruct Hb as (need & rest & -> & Hrest). rewrite bind_Ok. destruct need; [|by apply IH].
  eapply safe_bind; [by eapply assemble_top_safe|]. intros [v leaves'] [Hok' Hl']. rewrite decide_True by (by destruct Ht).
  eapply safe_mono; [apply IH; [done|by rewrite Hl', length_insert|done]|]. intros [slot' leaves'']. rewrite length_insert, Hl'. done.
Qed.
End RowSafety.
