(* ===== verification/ParquetMeta.v ===== *)
(** * The Parquet footer

    The schema, the column chunks and the row groups of [FileMetaData]: the
    writers of [columnar_parquet.c] ([write_schema_leaf], [write_top_schema],
    [write_statistics], [write_column_chunk], [write_row_group]) and the parsers
    and checks of [columnar_parquet_reader.c] ([parse_statistics] to
    [parse_file_metadata], [walk_schema], [pq_bad_repetition] and
    [pq_check_row_groups]). *)

From Stdlib Require Import Floats.SpecFloat.
From S2P Require Import Prelude Alp Thrift ParquetCodec ParquetTypes ParquetValues ParquetPage.

Definition PQ_LT_TIME : Z := 7.
Definition PQ_LT_TIMESTAMP : Z := 8.
Definition PQ_LT_INTEGER : Z := 10.
Definition PQ_TUNIT_MILLIS : Z := 1.
Definition PQ_TUNIT_MICROS : Z := 2.
Definition PQ_TUNIT_NANOS : Z := 3.

(** ** Writing *)

(** A field of a struct: the id, the type and the bytes behind the header.  The
    functions below list the fields one put after the other into a struct that
    [struct_bytes] closes with its stop. *)
Definition i32_field (id v : Z) : Z * Z * list Z := (id, TC_I32, PgColumnarThriftPutZigzag32 v).
Definition i64_field (id v : Z) : Z * Z * list Z := (id, TC_I64, PgColumnarThriftPutZigzag64 v).
Definition string_field (id : Z) (s : list Z) : Z * Z * list Z := (id, TC_BINARY, PgColumnarThriftPutVarint (u64 (zlen s)) ++ s).
Definition struct_field (id : Z) (fs : list (Z * Z * list Z)) : Z * Z * list Z := (id, TC_STRUCT, struct_bytes 0 fs).
Definition list_field (id etype : Z) (elems : list (list Z)) : Z * Z * list Z := (id, TC_LIST, PgColumnarThriftPutListHeader (zlen elems) etype ++ concat elems).

Definition name_schema : list Z := [115; 99; 104; 101; 109; 97].

Definition write_schema_element_root (ncols : Z) : list Z := struct_bytes 0 [string_field 4 name_schema; i32_field 5 ncols].

Definition write_schema_leaf (name : list Z) (leaf : PqLeaf) (repetition : Z) : list Z :=
  struct_bytes 0
    ([i32_field 1 (ptype leaf)] ++
     (if ptype leaf =? PQ_FIXED_LEN_BYTE_ARRAY then [i32_field 2 (typeLength leaf)] else []) ++
     [i32_field 3 repetition; string_field 4 name] ++
     (if 0 <=? convType leaf then [i32_field 6 (convType leaf)] else []) ++
     (if convType leaf =? PQ_CT_DECIMAL then [i32_field 7 (scale leaf); i32_field 8 (precision leaf)] else []) ++
     (if 0 <=? tsAdjusted leaf then
        [struct_field 10
           [struct_field PQ_LT_TIMESTAMP
              [(1, if tsAdjusted leaf =? 0 then TC_BOOL_FALSE else TC_BOOL_TRUE, []);
               struct_field 2 [struct_field PQ_TUNIT_MICROS []]]]]
      else [])).

Definition write_schema_group (name : list Z) (repetition num_children convType : Z) : list Z :=
  struct_bytes 0 ([i32_field 3 repetition; string_field 4 name; i32_field 5 num_children] ++ (if 0 <=? convType then [i32_field 6 convType] else [])).

Definition schema_count_for_top (tc : TopColumn) : Z :=
  match tc with TOP_SCALAR _ _ => 1 | TOP_LIST _ _ => 3 | TOP_STRUCT _ _ n _ => 1 + Z.of_nat n end.

Definition leaf_of (leaves : list PqLeaf) (i : nat) (f : PqLeaf -> list Z) : res (list Z) :=
  match leaves !! i with Some c => Ok (f c) | None => Oob end.

(** The leaves of the fields of a composite; a dropped field has none. *)
Fixpoint write_fields_schema (fl : list (option (nat * list Z))) (leaves : list PqLeaf) : res (list (list Z)) :=
  match fl with
  | [] => Ok []
  | None :: fl => write_fields_schema fl leaves
  | Some (i, fname) :: fl => e ← leaf_of leaves i (fun c => write_schema_leaf fname c 1); es ← write_fields_schema fl leaves; Ok (e :: es)
  end.

(** The schema elements of a column, in order. *)
Definition write_top_schema (tc : TopColumn) (leaves : list PqLeaf) : res (list (list Z)) :=
  match tc with
  | TOP_SCALAR name i => e ← leaf_of leaves i (fun c => write_schema_leaf name c 1); Ok [e]
  | TOP_LIST name i =>
      e ← leaf_of leaves i (fun c => write_schema_leaf name_element c 1);
      Ok [write_schema_group name 1 1 3; write_schema_group name_list 2 1 (-1); e]
  | TOP_STRUCT name _ n fl => es ← write_fields_schema fl leaves; Ok (write_schema_group name 1 (Z.of_nat n) (-1) :: es)
  end.

Record PqColMeta := mkColMeta { m_dataPageOffset : Z; m_totalSize : Z; m_numValues : Z; m_st : PqStats }.

Definition sf_is_zero (x : spec_float) : bool := match x with S754_zero _ => true | _ => false end.

(** Lower and upper bound as they are written. *)
Definition stat_bounds (c : PqLeaf) (s : PqStats) : list Z * list Z :=
  let isFloat := (ptype c =? PQ_FLOAT) || (ptype c =? PQ_DOUBLE) in
  let wide := (ptype c =? PQ_INT64) || (ptype c =? PQ_DOUBLE) in
  if isFloat then
    let fmin := if sf_is_zero (fMin s) then S754_zero true else fMin s in
    let fmax := if sf_is_zero (fMax s) then S754_zero false else fMax s in
    (d_store (if wide then 8 else 4) fmin, d_store (if wide then 8 else 4) fmax)
  else if wide then (le_bytes 8 (iMin s), le_bytes 8 (iMax s))
  else (le_bytes 4 (iMin s), le_bytes 4 (iMax s)).

Definition statistics_fields (c : PqLeaf) (m : PqColMeta) : list (Z * Z * list Z) :=
  let isFloat := (ptype c =? PQ_FLOAT) || (ptype c =? PQ_DOUBLE) in
  let ordered := (ptype c =? PQ_INT32) || (ptype c =? PQ_INT64) || isFloat in
  [i64_field 3 (nulls (m_st m))] ++
  (if ordered && hasBounds (m_st m) then
     let '(lo, hi) := stat_bounds c (m_st m) in [string_field 5 hi; string_field 6 lo]
   else []) ++
  (if isFloat then [i64_field 9 (nans (m_st m))] else []).

Definition write_statistics (c : PqLeaf) (m : PqColMeta) : list Z := struct_bytes 0 (statistics_fields c m).

Definition column_meta_fields (c : PqLeaf) (m : PqColMeta) : list (Z * Z * list Z) :=
  [i32_field 1 (ptype c);
   list_field 2 TC_I32 [PgColumnarThriftPutZigzag32 PQ_ENC_PLAIN; PgColumnarThriftPutZigzag32 PQ_ENC_RLE];
   list_field 3 TC_BINARY (map (fun p => PgColumnarThriftPutVarint (u64 (zlen p)) ++ p) (path c));
   i32_field 4 0;
   i64_field 5 (m_numValues m);
   i64_field 6 (m_totalSize m);
   i64_field 7 (m_totalSize m);
   i64_field 9 (m_dataPageOffset m);
   (12, TC_STRUCT, write_statistics c m)].

Definition write_column_chunk (c : PqLeaf) (m : PqColMeta) : list Z :=
  struct_bytes 0 [i64_field 2 (m_dataPageOffset m); struct_field 3 (column_meta_fields c m)].

(** A row group of the writer: rows, bytes and the columns. *)
Record PqWriteGroup := mkWriteGroup { wg_numRows : Z; wg_totalByteSize : Z; wg_cols : list PqColMeta }.

Definition write_row_group (leaves : list PqLeaf) (rg : PqWriteGroup) : list Z :=
  struct_bytes 0 [list_field 1 TC_STRUCT (zip_with write_column_chunk leaves (wg_cols rg)); i64_field 2 (wg_totalByteSize rg); i64_field 3 (wg_numRows rg)].

(** One element of [column_orders]: an empty [TypeDefinedOrder]. *)
Definition column_order : list Z := struct_bytes 0 [struct_field 1 []].

Definition created_by : list Z := [112; 103; 67; 111; 108; 117; 109; 110; 97; 114].

(** The schema elements of the columns, in order. *)
Fixpoint write_schema (tops : list TopColumn) (leaves : list PqLeaf) : res (list (list Z)) :=
  match tops with
  | [] => Ok []
  | tc :: tops => es ← write_top_schema tc leaves; rest ← write_schema tops leaves; Ok (es ++ rest)
  end.

(** [FileMetaData] for the columns [tops]. *)
Definition write_footer (tops : list TopColumn) (leaves : list PqLeaf) (total : Z) (rgs : list PqWriteGroup) : res (list Z) :=
  let nschema := 1 + foldr Z.add 0 (map schema_count_for_top tops) in
  elems ← write_schema tops leaves;
  Ok (struct_bytes 0
        [i32_field 1 1;
         (2, TC_LIST, PgColumnarThriftPutListHeader nschema TC_STRUCT ++ write_schema_element_root (zlen tops) ++ concat elems);
         i64_field 3 total;
         list_field 4 TC_STRUCT (map (write_row_group leaves) rgs);
         string_field 6 created_by;
         list_field 7 TC_STRUCT (map (fun _ => column_order) leaves)]).

(** The columns of a table and their leaves; a type the writer does not support is
    refused. *)
Fixpoint build_columns (cols : list (list Z * coltype)) (leaves : list PqLeaf) : res (list TopColumn * list PqLeaf) :=
  match cols with
  | [] => Ok ([], leaves)
  | (name, ty) :: cols =>
      match build_top_column name ty leaves with
      | None => Err "column has a type which columnar parquet export does not support"
      | Some (tc, leaves) => ' (tops, leaves) ← build_columns cols leaves; Ok (tc :: tops, leaves)
      end
  end.

(** ** Reading a column chunk *)

Definition set_min (ch : PqChunk) (v : option (list Z)) := mkChunk (ch_codec ch) (ch_num_values ch) (ch_data_page_offset ch) (ch_dict_page_offset ch) (ch_total_compressed_size ch) v (ch_stat_max ch) (ch_rep_hist_len ch) (ch_def_hist_len ch).
Definition set_max (ch : PqChunk) (v : option (list Z)) := mkChunk (ch_codec ch) (ch_num_values ch) (ch_data_page_offset ch) (ch_dict_page_offset ch) (ch_total_compressed_size ch) (ch_stat_min ch) v (ch_rep_hist_len ch) (ch_def_hist_len ch).
Definition set_hist (rep : bool) (ch : PqChunk) (n : Z) := mkChunk (ch_codec ch) (ch_num_values ch) (ch_data_page_offset ch) (ch_dict_page_offset ch) (ch_total_compressed_size ch) (ch_stat_min ch) (ch_stat_max ch) (if rep then n else ch_rep_hist_len ch) (if rep then ch_def_hist_len ch else n).
Definition set_codec (ch : PqChunk) (v : Z) := mkChunk (s32 v) (ch_num_values ch) (ch_data_page_offset ch) (ch_dict_page_offset ch) (ch_total_compressed_size ch) (ch_stat_min ch) (ch_stat_max ch) (ch_rep_hist_len ch) (ch_def_hist_len ch).
Definition set_values (ch : PqChunk) (v : Z) := mkChunk (ch_codec ch) v (ch_data_page_offset ch) (ch_dict_page_offset ch) (ch_total_compressed_size ch) (ch_stat_min ch) (ch_stat_max ch) (ch_rep_hist_len ch) (ch_def_hist_len ch).
Definition set_total (ch : PqChunk) (v : Z) := mkChunk (ch_codec ch) (ch_num_values ch) (ch_data_page_offset ch) (ch_dict_page_offset ch) v (ch_stat_min ch) (ch_stat_max ch) (ch_rep_hist_len ch) (ch_def_hist_len ch).
Definition set_data (ch : PqChunk) (v : Z) := mkChunk (ch_codec ch) (ch_num_values ch) v (ch_dict_page_offset ch) (ch_total_compressed_size ch) (ch_stat_min ch) (ch_stat_max ch) (ch_rep_hist_len ch) (ch_def_hist_len ch).
Definition set_dict (ch : PqChunk) (v : Z) := mkChunk (ch_codec ch) (ch_num_values ch) (ch_data_page_offset ch) v (ch_total_compressed_size ch) (ch_stat_min ch) (ch_stat_max ch) (ch_rep_hist_len ch) (ch_def_hist_len ch).

(** What [parse_column_meta] starts from, and what [palloc0] gives. *)
Definition chunk_reset : PqChunk := mkChunk PQC_UNCOMPRESSED 0 0 0 0 None None (-1) (-1).
Definition chunk0 : PqChunk := mkChunk 0 0 0 0 0 None None 0 0.


Section Parsers.
Context (stack : nat).

(** [x = PgColumnarThriftZigzag(r)] *)
Definition int_field {A} (set : A -> Z -> A) (r : TCReader) (a : A) : res (TCReader * A) := ' (z, r) ← PgColumnarThriftZigzag r; Ok (r, set a z).

Definition stats_field (r : TCReader) (ch : PqChunk) (fid ft : Z) : res (TCReader * PqChunk) :=
  if (fid =? 1) || (fid =? 5) then
    ' (p, r) ← PgColumnarThriftBytes r;
    Ok (r, match p with
           | Some bs => if (fid =? 5) || match ch_stat_max ch with None => true | Some _ => false end then set_max ch (Some bs) else ch
           | None => ch
           end)
  else if (fid =? 2) || (fid =? 6) then
    ' (p, r) ← PgColumnarThriftBytes r;
    Ok (r, match p with
           | Some bs => if (fid =? 6) || match ch_stat_min ch with None => true | Some _ => false end then set_min ch (Some bs) else ch
           | None => ch
           end)
  else skip_field stack r ch ft.

Definition parse_statistics (r : TCReader) (ch : PqChunk) : res (TCReader * PqChunk) := parse_struct stats_field r ch.

(** A list of booleans takes no turn forward: the loop runs [n] times. *)
Definition size_field (r : TCReader) (ch : PqChunk) (fid ft : Z) : res (TCReader * PqChunk) :=
  if ((fid =? 2) || (fid =? 3)) && (ft =? TC_LIST) then
    ' (n, etype, r) ← PgColumnarThriftListHeader r;
    r ← skip_times (Z.to_nat n) (fun r => PgColumnarThriftSkip stack r etype) n r;
    Ok (r, if 0 <? n then set_hist (fid =? 2) ch n else ch)
  else skip_field stack r ch ft.

Definition parse_size_statistics (r : TCReader) (ch : PqChunk) : res (TCReader * PqChunk) := parse_struct size_field r ch.

Definition meta_field (r : TCReader) (ch : PqChunk) (fid ft : Z) : res (TCReader * PqChunk) :=
  if fid =? 4 then int_field set_codec r ch
  else if fid =? 5 then int_field set_values r ch
  else if fid =? 7 then int_field set_total r ch
  else if fid =? 9 then int_field set_data r ch
  else if fid =? 11 then int_field set_dict r ch
  else if fid =? 12 then if ft =? TC_STRUCT then parse_statistics r ch else skip_field stack r ch ft
  else if fid =? 16 then if ft =? TC_STRUCT then parse_size_statistics r ch else skip_field stack r ch ft
  else skip_field stack r ch ft.

Definition parse_column_meta (r : TCReader) (ch : PqChunk) : res (TCReader * PqChunk) := parse_struct meta_field r chunk_reset.

Definition chunk_field (r : TCReader) (ch : PqChunk) (fid ft : Z) : res (TCReader * PqChunk) :=
  if (fid =? 3) && (ft =? TC_STRUCT) then parse_column_meta r ch else skip_field stack r ch ft.

Definition parse_column_chunk (r : TCReader) (ch : PqChunk) : res (TCReader * PqChunk) := parse_struct chunk_field r ch.

(** ** Reading the schema *)

Definition sc_set_unit (sc : PqSchemaCol) (unit : Z) (ts : bool) := mkSchema (sc_phys_type sc) (sc_repetition sc) (sc_converted_type sc) unit ts (sc_adjusted_utc sc) (sc_is_unsigned sc) (sc_type_length sc) (sc_scale sc) (sc_precision sc) (sc_num_children sc) (sc_num_children_stored sc) (sc_field_id sc) (sc_name sc).
Definition sc_set_utc (sc : PqSchemaCol) (b : bool) := mkSchema (sc_phys_type sc) (sc_repetition sc) (sc_converted_type sc) (sc_time_unit sc) (sc_is_timestamp sc) b (sc_is_unsigned sc) (sc_type_length sc) (sc_scale sc) (sc_precision sc) (sc_num_children sc) (sc_num_children_stored sc) (sc_field_id sc) (sc_name sc).
Definition sc_set_unsigned (sc : PqSchemaCol) (b : bool) := mkSchema (sc_phys_type sc) (sc_repetition sc) (sc_converted_type sc) (sc_time_unit sc) (sc_is_timestamp sc) (sc_adjusted_utc sc) b (sc_type_length sc) (sc_scale sc) (sc_precision sc) (sc_num_children sc) (sc_num_children_stored sc) (sc_field_id sc) (sc_name sc).
Definition sc_set_phys (sc : PqSchemaCol) (v : Z) := mkSchema (s32 v) (sc_repetition sc) (sc_converted_type sc) (sc_time_unit sc) (sc_is_timestamp sc) (sc_adjusted_utc sc) (sc_is_unsigned sc) (sc_type_length sc) (sc_scale sc) (sc_precision sc) (sc_num_children sc) (sc_num_children_stored sc) (sc_field_id sc) (sc_name sc).
Definition sc_set_length (sc : PqSchemaCol) (v : Z) := mkSchema (sc_phys_type sc) (sc_repetition sc) (sc_converted_type sc) (sc_time_unit sc) (sc_is_timestamp sc) (sc_adjusted_utc sc) (sc_is_unsigned sc) (s32 v) (sc_scale sc) (sc_precision sc) (sc_num_children sc) (sc_num_children_stored sc) (sc_field_id sc) (sc_name sc).
Definition sc_set_repetition (sc : PqSchemaCol) (v : Z) := mkSchema (sc_phys_type sc) v (sc_converted_type sc) (sc_time_unit sc) (sc_is_timestamp sc) (sc_adjusted_utc sc) (sc_is_unsigned sc) (sc_type_length sc) (sc_scale sc) (sc_precision sc) (sc_num_children sc) (sc_num_children_stored sc) (sc_field_id sc) (sc_name sc).
Definition sc_set_name (sc : PqSchemaCol) (v : list Z) := mkSchema (sc_phys_type sc) (sc_repetition sc) (sc_converted_type sc) (sc_time_unit sc) (sc_is_timestamp sc) (sc_adjusted_utc sc) (sc_is_unsigned sc) (sc_type_length sc) (sc_scale sc) (sc_precision sc) (sc_num_children sc) (sc_num_children_stored sc) (sc_field_id sc) (Some v).
Definition sc_set_children (sc : PqSchemaCol) (v : Z) := mkSchema (sc_phys_type sc) (sc_repetition sc) (sc_converted_type sc) (sc_time_unit sc) (sc_is_timestamp sc) (sc_adjusted_utc sc) (sc_is_unsigned sc) (sc_type_length sc) (sc_scale sc) (sc_precision sc) (if (v <? 0) || (PG_INT32_MAX <? v) then -1 else v) v (sc_field_id sc) (sc_name sc).
Definition sc_set_converted (sc : PqSchemaCol) (v : Z) := mkSchema (sc_phys_type sc) (sc_repetition sc) (s32 v) (sc_time_unit sc) (sc_is_timestamp sc) (sc_adjusted_utc sc) (sc_is_unsigned sc) (sc_type_length sc) (sc_scale sc) (sc_precision sc) (sc_num_children sc) (sc_num_children_stored sc) (sc_field_id sc) (sc_name sc).
Definition sc_set_scale (sc : PqSchemaCol) (v : Z) := mkSchema (sc_phys_type sc) (sc_repetition sc) (sc_converted_type sc) (sc_time_unit sc) (sc_is_timestamp sc) (sc_adjusted_utc sc) (sc_is_unsigned sc) (sc_type_length sc) (s32 v) (sc_precision sc) (sc_num_children sc) (sc_num_children_stored sc) (sc_field_id sc) (sc_name sc).
Definition sc_set_precision (sc : PqSchemaCol) (v : Z) := mkSchema (sc_phys_type sc) (sc_repetition sc) (sc_converted_type sc) (sc_time_unit sc) (sc_is_timestamp sc) (sc_adjusted_utc sc) (sc_is_unsigned sc) (sc_type_length sc) (sc_scale sc) (s32 v) (sc_num_children sc) (sc_num_children_stored sc) (sc_field_id sc) (sc_name sc).
Definition sc_set_field_id (sc : PqSchemaCol) (v : Z) := mkSchema (sc_phys_type sc) (sc_repetition sc) (sc_converted_type sc) (sc_time_unit sc) (sc_is_timestamp sc) (sc_adjusted_utc sc) (sc_is_unsigned sc) (sc_type_length sc) (sc_scale sc) (sc_precision sc) (sc_num_children sc) (sc_num_children_stored sc) (s32 v) (sc_name sc).

Definition element0 : PqSchemaCol := mkSchema (-1) 0 (-1) PQ_TU_NONE false true false 0 0 0 0 0 (-1) None.

(** The fields of [TimeType] and [TimestampType]. *)
Definition time_field (isTs : bool) (r : TCReader) (sc : PqSchemaCol) (ifid ift : Z) : res (TCReader * PqSchemaCol) :=
  if (ifid =? 2) && (ift =? TC_STRUCT) then
    ' (uft, ufid, uLast, r) ← PgColumnarThriftField r 0;
    if negb (uft =? TC_STOP) && negb (tc_error r) then
      let unit := if ufid =? PQ_TUNIT_MILLIS then PQ_TU_MILLIS else if ufid =? PQ_TUNIT_MICROS then PQ_TU_MICROS
                  else if ufid =? PQ_TUNIT_NANOS then PQ_TU_NANOS else sc_time_unit sc in
      r ← PgColumnarThriftSkip stack r uft;
      ' (_, _, _, r) ← PgColumnarThriftField r uLast;
      Ok (r, sc_set_unit sc unit isTs)
    else Ok (r, sc)
  else if (ifid =? 1) && isTs && ((ift =? TC_BOOL_TRUE) || (ift =? TC_BOOL_FALSE)) then Ok (r, sc_set_utc sc (ift =? TC_BOOL_TRUE))
  else skip_field stack r sc ift.

Definition integer_field (r : TCReader) (sc : PqSchemaCol) (ifid ift : Z) : res (TCReader * PqSchemaCol) :=
  if (ifid =? 2) && ((ift =? TC_BOOL_TRUE) || (ift =? TC_BOOL_FALSE)) then Ok (r, sc_set_unsigned sc (ift =? TC_BOOL_FALSE))
  else skip_field stack r sc ift.

Definition logical_field (r : TCReader) (sc : PqSchemaCol) (fid ft : Z) : res (TCReader * PqSchemaCol) :=
  if ((fid =? PQ_LT_TIME) || (fid =? PQ_LT_TIMESTAMP)) && (ft =? TC_STRUCT) then parse_struct (time_field (fid =? PQ_LT_TIMESTAMP)) r sc
  else if (fid =? PQ_LT_INTEGER) && (ft =? TC_STRUCT) then parse_struct integer_field r sc
  else skip_field stack r sc ft.

Definition parse_logical_type (r : TCReader) (sc : PqSchemaCol) : res (TCReader * PqSchemaCol) := parse_struct logical_field r sc.

Definition element_field (r : TCReader) (sc : PqSchemaCol) (fid ft : Z) : res (TCReader * PqSchemaCol) :=
  if fid =? 1 then int_field sc_set_phys r sc
  else if fid =? 2 then int_field sc_set_length r sc
  else if fid =? 3 then int_field sc_set_repetition r sc
  else if fid =? 4 then ' (p, r) ← PgColumnarThriftBytes r; Ok (r, match p with Some bs => sc_set_name sc (pnstrdup bs) | None => sc end)
  else if fid =? 5 then int_field sc_set_children r sc
  else if fid =? 6 then int_field sc_set_converted r sc
  else if fid =? 7 then int_field sc_set_scale r sc
  else if fid =? 8 then int_field sc_set_precision r sc
  else if fid =? 9 then int_field sc_set_field_id r sc
  else if fid =? 10 then parse_logical_type r sc
  else skip_field stack r sc ft.

(** The deprecated converted type stands in for a logical type that is absent. *)
Definition element_defaults (sc : PqSchemaCol) : PqSchemaCol :=
  let ct := sc_converted_type sc in
  let sc := if sc_time_unit sc =? PQ_TU_NONE then
              if ct =? PQ_CT_TIMESTAMP_MILLIS then sc_set_unit sc PQ_TU_MILLIS true
              else if ct =? PQ_CT_TIMESTAMP_MICROS then sc_set_unit sc PQ_TU_MICROS true
              else if ct =? PQ_CT_TIME_MILLIS then sc_set_unit sc PQ_TU_MILLIS (sc_is_timestamp sc)
              else if ct =? PQ_CT_TIME_MICROS then sc_set_unit sc PQ_TU_MICROS (sc_is_timestamp sc)
              else sc
            else sc in
  if (PQ_CT_UINT_8 <=? ct) && (ct <=? PQ_CT_UINT_64) then sc_set_unsigned sc true else sc.

Definition parse_schema_element (r : TCReader) : res (TCReader * PqSchemaCol) :=
  ' (r, sc) ← parse_struct element_field r element0; Ok (r, element_defaults sc).

(** ** The schema tree *)

Record PqLeafInfo := mkLeafInfo { li_sc : PqSchemaCol; li_max_def : Z; li_max_rep : Z; li_depth : Z }.

(** [for (c = 0; c < num_children; c++)]: a child takes an element or the walk
    fails. *)
Fixpoint walk_children (fuel : nat) (walk : nat -> list PqLeafInfo -> res (option (nat * list PqLeafInfo))) (c n : Z) (cursor : nat) (leaves : list PqLeafInfo) :
    res (option (nat * list PqLeafInfo)) :=
  if c <? n then
    match fuel with
    | O => Fuel
    | S fuel =>
        o ← walk cursor leaves;
        match o with
        | None => Ok None
        | Some (cursor, leaves) => walk_children fuel walk (c + 1) n cursor leaves
        end
    end
  else Ok (Some (cursor, leaves)).

Fixpoint walk_schema (depthLeft : nat) (elems : list PqSchemaCol) (def rep depth : Z) (cursor : nat) (leaves : list PqLeafInfo) : res (option (nat * list PqLeafInfo)) :=
  match depthLeft with
  | O => Err "stack depth limit exceeded"
  | S depthLeft =>
      match elems !! cursor with
      | None => Ok None
      | Some e =>
          let d := def + (if sc_repetition e =? 1 then 1 else 0) + (if sc_repetition e =? 2 then 1 else 0) in
          let rp := rep + (if sc_repetition e =? 2 then 1 else 0) in
          if sc_num_children e =? 0 then Ok (Some (S cursor, leaves ++ [mkLeafInfo e d rp depth]))
          else walk_children (S (length elems - cursor)) (walk_schema depthLeft elems d rp (depth + 1)) 0 (sc_num_children e) (S cursor) leaves
      end
  end.

(** ** The file metadata *)

Record PqRowGroup := mkRowGroup { rg_num_rows : Z; rg_has_num_rows : bool; rg_chunks : option (list PqChunk) }.

Definition rg_nchunks (g : PqRowGroup) : Z := match rg_chunks g with Some l => zlen l | None => 0 end.

(** [pf_bad_children] is the schema element with a number of children no schema
    can have. *)
Record PqFile := mkFile {
  pf_elems : list PqSchemaCol; pf_leaves : list PqLeafInfo; pf_ntop : Z; pf_rgs : list PqRowGroup; pf_has_row_groups : bool; pf_has_num_rows : bool;
  pf_num_rows : Z; pf_bad_children : option PqSchemaCol }.

Definition pf_ncols (pf : PqFile) : Z := zlen (pf_leaves pf).

Definition pf_set_elems (pf : PqFile) (l : list PqSchemaCol) := mkFile l (pf_leaves pf) (pf_ntop pf) (pf_rgs pf) (pf_has_row_groups pf) (pf_has_num_rows pf) (pf_num_rows pf) (pf_bad_children pf).
Definition pf_set_rgs (pf : PqFile) (l : list PqRowGroup) := mkFile (pf_elems pf) (pf_leaves pf) (pf_ntop pf) l true (pf_has_num_rows pf) (pf_num_rows pf) (pf_bad_children pf).
Definition pf_set_rows (pf : PqFile) (v : Z) := mkFile (pf_elems pf) (pf_leaves pf) (pf_ntop pf) (pf_rgs pf) (pf_has_row_groups pf) true v (pf_bad_children pf).
Definition pf_set_bad (pf : PqFile) (e : PqSchemaCol) := mkFile (pf_elems pf) (pf_leaves pf) (pf_ntop pf) (pf_rgs pf) (pf_has_row_groups pf) (pf_has_num_rows pf) (pf_num_rows pf) (Some e).
Definition pf_set_leaves (pf : PqFile) (ntop : Z) (l : list PqLeafInfo) := mkFile (pf_elems pf) l ntop (pf_rgs pf) (pf_has_row_groups pf) (pf_has_num_rows pf) (pf_num_rows pf) (pf_bad_children pf).

Definition file0 : PqFile := mkFile [] [] 0 [] false false 0 None.

(** [for (i = 0; i < n && !r.error; i++) body] over an array that [palloc0]
    cleared: the entries read, an element takes a byte or fails. *)
Fixpoint parse_elems {A} (fuel : nat) (body : TCReader -> res (TCReader * A)) (n : Z) (r : TCReader) : res (TCReader * list A) :=
  if (0 <? n) && negb (tc_error r) then
    match fuel with
    | O => Fuel
    | S fuel => ' (r, a) ← body r; ' (r, l) ← parse_elems fuel body (n - 1) r; Ok (r, a :: l)
    end
  else Ok (r, []).

(** The header of a list, its array of elements of [width] bytes (as laid out on
    a 64-bit machine), and the elements. *)
Definition parse_list {A} (width : Z) (body : TCReader -> res (TCReader * A)) (r : TCReader) : res (TCReader * list A) :=
  ' (n, _, r) ← PgColumnarThriftListHeader r;
  _ ← palloc_ok (width * Z.max n 1);
  parse_elems (S (Z.to_nat (tc_len r - tc_pos r))) body n r.

Definition group_field (r : TCReader) (g : PqRowGroup) (fid ft : Z) : res (TCReader * PqRowGroup) :=
  if (fid =? 1) && (ft =? TC_LIST) then
    ' (r, l) ← parse_list 88 (fun r => parse_column_chunk r chunk0) r; Ok (r, mkRowGroup (rg_num_rows g) (rg_has_num_rows g) (Some l))
  else if fid =? 3 then int_field (fun g v => mkRowGroup v true (rg_chunks g)) r g
  else skip_field stack r g ft.

Definition file_field (r : TCReader) (pf : PqFile) (fid ft : Z) : res (TCReader * PqFile) :=
  if (fid =? 2) && (ft =? TC_LIST) then ' (r, l) ← parse_list 72 parse_schema_element r; Ok (r, pf_set_elems pf l)
  else if (fid =? 4) && (ft =? TC_LIST) then
    ' (r, l) ← parse_list 32 (fun r => parse_struct group_field r (mkRowGroup 0 false None)) r; Ok (r, pf_set_rgs pf l)
  else if (fid =? 3) && ((ft =? TC_I64) || (ft =? TC_I32) || (ft =? TC_I16)) then int_field pf_set_rows r pf
  else skip_field stack r pf ft.

(** The parsed file, and whether it is one the reader supports. *)
Definition parse_file_metadata (buf : list Z) : res (PqFile * bool) :=
  ' (r, pf) ← parse_struct file_field (mkReader buf 0 false) file0;
  match pf_elems pf with
  | [] => Ok (pf, false)
  | root :: _ =>
      if tc_error r then Ok (pf, false)
      else if existsb (fun e => match sc_name e with None => true | Some _ => false end) (pf_elems pf) then Ok (pf, false)
      else
        match List.find (fun e => sc_num_children e <? 0) (pf_elems pf) with
        | Some e => Ok (pf_set_bad pf e, false)
        | None =>
            _ ← palloc_ok (24 * Z.max (zlen (pf_elems pf)) 1);
            o ← walk_children (S (length (pf_elems pf))) (walk_schema stack (pf_elems pf) 0 0 1) 0 (sc_num_children root) 1 [];
            match o with
            | None => Ok (pf, false)
            | Some (_, leaves) => Ok (pf_set_leaves pf (sc_num_children root) leaves, 0 <? zlen leaves)
            end
        end
  end.
End Parsers.

(** ** Checks *)

Definition pq_bad_repetition (pf : PqFile) : option PqSchemaCol := List.find (fun e => (sc_repetition e <? 0) || (2 <? sc_repetition e)) (tl (pf_elems pf)).

(** The column chunks of a row group against the leaves of the schema. *)
Fixpoint check_chunks (num_rows : Z) (chunks : list PqChunk) (leaves : list PqLeafInfo) : bool :=
  match chunks, leaves with
  | ch :: chunks, lf :: leaves =>
      let nv := ch_num_values ch in
      negb ((nv <? 0) || (MaxAllocSize / 8 <? nv)) && negb (nv <? num_rows) &&
      negb ((0 <? ch_def_hist_len ch) && negb (ch_def_hist_len ch =? li_max_def lf + 1)) &&
      negb ((0 <? ch_rep_hist_len ch) && negb (ch_rep_hist_len ch =? li_max_rep lf + 1)) &&
      check_chunks num_rows chunks leaves
  | _, _ => true
  end.

Definition group_ok (pf : PqFile) (g : PqRowGroup) : bool :=
  rg_has_num_rows g &&
  match rg_chunks g with
  | None => false
  | Some chunks => (zlen chunks =? pf_ncols pf) && (0 <=? rg_num_rows g) && check_chunks (rg_num_rows g) chunks (pf_leaves pf)
  end.

Definition pq_check_row_groups (pf : PqFile) : res unit :=
  if negb (pf_has_row_groups pf) || negb (pf_has_num_rows pf) then Err "Parquet file has a malformed footer"
  else if negb (forallb (group_ok pf) (pf_rgs pf)) then Err "Parquet file has a malformed row group"
  else if negb (foldr Z.add 0 (map rg_num_rows (pf_rgs pf)) =? pf_num_rows pf) then Err "Parquet file has a malformed footer"
  else Ok tt.

(** ** Any footer *)

Section MetaSafety.
Context (stack : nat).

Lemma int_field_safe {A} (set : A -> Z -> A) r a : reader_ok r -> safe (fun '(r', _) => moved r r') (int_field set r a).
Proof using. intros Hr. unfold int_field. eapply safe_bind; [by apply zigzag_safe|]. intros [z r'] [_ [M _]]. exact M. Qed.

Lemma bytes_field_safe {A} (f : option (list Z) -> A) r : reader_ok r -> safe (fun '(r', _) => moved r r') (' (p, r) ← PgColumnarThriftBytes r; Ok (r, f p)).
Proof using. intros Hr. eapply safe_bind; [by apply bytes_safe|]. intros [p r'] [[M _] _]. exact M. Qed.

(** A struct is left behind it. *)
Lemma struct_moved {A} (body : TCReader -> A -> Z -> Z -> res (TCReader * A)) r a : (forall r a fid ft, reader_ok r -> safe (fun '(r', _) => moved r r') (body r a fid ft)) ->
  reader_ok r -> safe (fun '(r', _) => moved r r') (parse_struct body r a).
Proof using. intros Hb Hr. eapply safe_mono; [by apply parse_struct_safe|]. by intros [r' a'] [M _]. Qed.

Ltac branches := repeat match goal with |- safe _ (if ?b then _ else _) => destruct b end;
  try (by apply int_field_safe); try (by apply skip_field_safe); try (by apply bytes_field_safe); try (by apply moved_refl).

Lemma stats_field_safe r ch fid ft : reader_ok r -> safe (fun '(r', _) => moved r r') (stats_field stack r ch fid ft).
Proof using.
  intros Hr. unfold stats_field. destruct (_ || _); [apply (bytes_field_safe (fun p => match p with Some bs => _ | None => ch end)); done|].
  destruct (_ || _); [apply (bytes_field_safe (fun p => match p with Some bs => _ | None => ch end)); done|by apply skip_field_safe].
Qed.

(** A loop with a turn for each element ends, whatever its body takes. *)
Lemma skip_count_safe body : (forall r, reader_ok r -> safe (moved r) (body r)) -> forall fuel size r, reader_ok r -> (Z.to_nat size <= fuel)%nat ->
  safe (moved r) (skip_times fuel body size r).
Proof using.
  intros Hb. induction fuel as [|fuel IH]; intros size r Hr Hf; cbn [skip_times]; destruct (Z.ltb_spec 0 size); cbn [andb]; try (by apply moved_refl); [lia|].
  destruct (negb _); [|by apply moved_refl]. eapply safe_bind; [by apply Hb|]. intros r1 M1. eapply safe_mono; [apply IH; [by destruct M1 as (_ & _ & ?)|lia]|]. intros r2. by apply moved_trans.
Qed.

Lemma size_field_safe r ch fid ft : reader_ok r -> safe (fun '(r', _) => moved r r') (size_field stack r ch fid ft).
Proof using.
  intros Hr. unfold size_field. destruct (_ && _); [|by apply skip_field_safe]. eapply safe_bind; [by apply list_header_safe|]. intros [[n et] r1] [[M1 _] Hn].
  eapply safe_bind; [apply skip_count_safe; [|by destruct M1 as (_ & _ & ?)|done]|].
  - intros r0 H0. eapply safe_mono; [by apply skip_safe|]. by intros r' [M _].
  - intros r2 M2. cbn [safe]. by eapply moved_trans.
Qed.

Lemma meta_field_safe r ch fid ft : reader_ok r -> safe (fun '(r', _) => moved r r') (meta_field stack r ch fid ft).
Proof using.
  intros Hr. unfold meta_field. branches; apply struct_moved; try done; intros; [by apply stats_field_safe|by apply size_field_safe].
Qed.

Lemma column_chunk_safe r ch : reader_ok r -> safe (fun '(r', _) => progress r r') (parse_column_chunk stack r ch).
Proof using.
  intros Hr. eapply safe_mono; [apply parse_struct_safe; [|done]|by intros [r' a'] ?]. intros r0 a0 fid ft H0. unfold chunk_field. branches.
  apply struct_moved; [|done]. intros; by apply meta_field_safe.
Qed.

Lemma time_field_safe isTs r sc fid ft : reader_ok r -> safe (fun '(r', _) => moved r r') (time_field stack isTs r sc fid ft).
Proof using.
  intros Hr. unfold time_field. destruct (_ && _); [|branches]. eapply safe_bind; [by apply field_safe|]. intros [[[uft ufid] uLast] r1] [[M1 _] _].
  destruct (_ && _); [|exact M1]. eapply safe_bind; [apply skip_safe; by destruct M1 as (_ & _ & ?)|]. intros r2 [M2 _].
  eapply safe_bind; [apply field_safe; by destruct M2 as (_ & _ & ?)|]. intros [[[a b] c] r3] [[M3 _] _]. cbn [safe]. eapply moved_trans; [exact M1|]. by eapply moved_trans.
Qed.

Lemma element_field_safe r sc fid ft : reader_ok r -> safe (fun '(r', _) => moved r r') (element_field stack r sc fid ft).
Proof using.
  intros Hr. unfold element_field. branches.
  apply struct_moved; [|done]. clear. intros r sc fid ft Hr. unfold logical_field. branches; apply struct_moved; try done; clear -stack; intros r sc fid0 ft0 Hr.
  - by apply time_field_safe.
  - unfold integer_field. branches.
Qed.

Lemma schema_element_safe r : reader_ok r -> safe (fun '(r', _) => progress r r') (parse_schema_element stack r).
Proof using.
  intros Hr. unfold parse_schema_element. eapply safe_bind; [apply parse_struct_safe; [intros; by apply element_field_safe|done]|]. intros [r' sc] H. exact H.
Qed.

Lemma parse_elems_safe {A} (body : TCReader -> res (TCReader * A)) : (forall r, reader_ok r -> safe (fun '(r', _) => progress r r') (body r)) -> forall fuel n r, reader_ok r ->
  tc_len r - tc_pos r < Z.of_nat fuel -> 0 <= n -> safe (fun '(r', l) => moved r r' /\ (tc_error r' = false -> zlen l = n)) (parse_elems fuel body n r).
Proof using.
  intros Hb. induction fuel as [|fuel IH]; intros n r Hr Hf Hn; [destruct Hr as (_ & ? & _); lia|]. cbn [parse_elems].
  destruct (Z.ltb_spec 0 n) as [Hp|Hp]; cbn [andb].
  - destruct (negb (tc_error r)) eqn:Ee; [|split; [by apply moved_refl|]; by rewrite (proj1 (negb_false_iff _) Ee)].
    eapply safe_bind; [by apply Hb|]. intros [r1 a] [M1 P1]. pose proof M1 as (E1 & L1 & O1).
    destruct (tc_error r1) eqn:Er1.
    + assert (Hstop : parse_elems fuel body (n - 1) r1 = Ok (r1, [])) by (destruct fuel; cbn [parse_elems]; by rewrite Er1, andb_false_r).
      rewrite Hstop, bind_Ok. cbn [safe]. split; [done|]. by rewrite Er1.
    + destruct P1 as [P1|P1]; [done|]. eapply safe_bind; [apply IH; [done|unfold tc_len in *; rewrite E1; lia|lia]|]. intros [r2 l] [M2 Hl]. cbn [safe].
      split; [by eapply moved_trans|]. intros Hr2. rewrite zlen_cons, Hl by done. lia.
  - split; [by apply moved_refl|]. intros _. change (zlen (@nil A)) with 0. lia.
Qed.

Lemma parse_list_safe {A} width (body : TCReader -> res (TCReader * A)) r : (forall r, reader_ok r -> safe (fun '(r', _) => progress r r') (body r)) -> reader_ok r ->
  safe (fun '(r', l) => moved r r' /\ (tc_error r' = false -> width * zlen l <= MaxAllocSize)) (parse_list width body r).
Proof using.
  intros Hb Hr. unfold parse_list. eapply safe_bind; [by apply list_header_safe|]. intros [[n et] r1] [[M1 _] [Hn _]]. unfold palloc_ok.
  destruct (Z.ltb_spec MaxAllocSize (width * Z.max n 1)); [done|]. rewrite bind_Ok.
  eapply safe_mono; [apply parse_elems_safe; [done|by destruct M1 as (_ & _ & ?)|lia|lia]|]. intros [r2 l] [M2 Hl]. split; [by eapply moved_trans|]. intros E. rewrite Hl by done.
  unfold MaxAllocSize in *. destruct (Z.le_gt_cases 0 width); [|pose proof (zlen_nonneg l); rewrite Hl in * by done]; nia.
Qed.

Lemma group_safe r g : reader_ok r -> safe (fun '(r', _) => progress r r') (parse_struct (group_field stack) r g).
Proof using.
  intros Hr. eapply safe_mono; [apply parse_struct_safe; [|done]|by intros [r' a'] ?]. intros r0 a0 fid ft H0. unfold group_field. branches.
  eapply safe_bind; [apply parse_list_safe; [|done]|intros [r' l] [M _]; exact M]. intros; by apply column_chunk_safe.
Qed.

Lemma file_field_safe r pf fid ft : reader_ok r -> safe (fun '(r', _) => moved r r') (file_field stack r pf fid ft).
Proof using.
  intros Hr. unfold file_field. branches.
  - eapply safe_bind; [apply parse_list_safe; [|done]|intros [r' l] [M _]; exact M]. apply schema_element_safe.
  - eapply safe_bind; [apply parse_list_safe; [|done]|intros [r' l] [M _]; exact M]. intros; by apply group_safe.
Qed.
End MetaSafety.

(** ** The walk over the schema *)

Definition walked (elems : list PqSchemaCol) (cursor : nat) (leaves : list PqLeafInfo) (o : option (nat * list PqLeafInfo)) : Prop :=
  match o with None => True | Some (c', leaves') => (cursor < c' <= length elems)%nat /\ (length leaves' <= length leaves + (c' - cursor))%nat end.

Lemma walk_children_safe elems walk : (forall cursor leaves, safe (walked elems cursor leaves) (walk cursor leaves)) -> forall fuel c n cursor leaves,
  (length elems - cursor < fuel)%nat ->
  safe (fun o => match o with None => True | Some (c', leaves') => (cursor <= c' <= length elems \/ c' = cursor)%nat /\ (length leaves' <= length leaves + (c' - cursor))%nat end)
    (walk_children fuel walk c n cursor leaves).
Proof.
  intros Hw. induction fuel as [|fuel IH]; intros c n cursor leaves Hf; cbn [walk_children]; destruct (c <? n); try (cbn [safe]; lia).
  eapply safe_bind; [apply Hw|]. intros [[c1 l1]|] H1; [|done]. destruct H1 as [H1 H2]. eapply safe_mono; [apply IH; lia|]. intros [[c2 l2]|]; [|done]. lia.
Qed.

Lemma walk_schema_safe elems stack : forall def rep depth cursor leaves, safe (walked elems cursor leaves) (walk_schema stack elems def rep depth cursor leaves).
Proof.
  induction stack as [|stack IH]; intros def rep depth cursor leaves; cbn [walk_schema]; [done|]. destruct (elems !! cursor) as [e|] eqn:E; [|done].
  pose proof (lookup_lt_Some _ _ _ E) as Hl. destruct (_ =? 0).
  - cbn [safe walked]. rewrite length_app. cbn [length]. lia.
  - eapply safe_mono; [apply walk_children_safe; [intros; apply IH|lia]|]. intros [[c' l']|]; [|done]. unfold walked. lia.
Qed.

(** Only the checks behind the fields name a bad element. *)
Lemma file_fields_bad stack fuel : forall r a lastId r' a', pf_bad_children a = None -> parse_fields fuel (file_field stack) r a lastId = Ok (r', a') -> pf_bad_children a' = None.
Proof.
  induction fuel as [|fuel IH]; intros r a lastId r' a' Ha; cbn [parse_fields]; [done|].
  destruct (PgColumnarThriftField r lastId) as [[[[ft fid] last] r1]| | |]; [|done..]. rewrite bind_Ok. destruct (_ || _); [by intros [= <- <-]|].
  destruct (file_field stack r1 a fid ft) as [[r2 a2]| | |] eqn:Ef; [|done..]. rewrite bind_Ok. apply IH. clear -Ef Ha. unfold file_field, int_field, skip_field in Ef.
  repeat match type of Ef with (if ?b then _ else _) = _ => destruct b end.
  - destruct (parse_list _ _ _) as [[? ?]| | |]; [|done..]. by injection Ef as <- <-.
  - destruct (parse_list _ _ _) as [[? ?]| | |]; [|done..]. by injection Ef as <- <-.
  - destruct (PgColumnarThriftZigzag r1) as [[? ?]| | |]; [|done..]. by injection Ef as <- <-.
  - destruct (PgColumnarThriftSkip stack r1 ft); [|done..]. by injection Ef as <- <-.
Qed.

(** Parsing the footer of any file ends; a file that is accepted has leaf columns. *)
Lemma parse_file_metadata_safe stack buf : bytes_ok buf -> zlen buf < 2 ^ 62 ->
  safe (fun '(pf, ok) => ok = true -> 0 < pf_ncols pf /\ pf_bad_children pf = None) (parse_file_metadata stack buf).
Proof.
  intros Hb Hl. unfold parse_file_metadata. assert (Hr : reader_ok (mkReader buf 0 false)) by (split; [done|]; unfold tc_len; cbn; pose proof (zlen_nonneg buf); lia).
  pose proof (struct_moved (file_field stack) _ file0 (file_field_safe stack) Hr) as Hs.
  destruct (parse_struct (file_field stack) (mkReader buf 0 false) file0) as [[r pf]| | |] eqn:E; [|done..]. rewrite bind_Ok.
  pose proof (file_fields_bad stack _ _ file0 0 _ _ eq_refl E) as Hpf. destruct (pf_elems pf) as [|root rest] eqn:Ee; [done|]. destruct (tc_error r); [done|].
  destruct (existsb _ _); [done|]. destruct (List.find _ _); [done|]. unfold palloc_ok. destruct (_ <? _); [done|]. rewrite bind_Ok.
  eapply safe_bind; [apply (walk_children_safe (root :: rest)); [intros; apply walk_schema_safe|lia]|]. intros [[c' leaves]|] _; [|done].
  cbn [safe]. intros Hp%Z.ltb_lt. done.
Qed.

(** ** Reading fields that were written *)

Lemma consumes_app {A} (body : TCReader -> A -> Z -> Z -> res (TCReader * A)) fs1 fs2 a b c : consumes body fs1 a b -> consumes body fs2 b c -> consumes body (fs1 ++ fs2) a c.
Proof. induction 1 as [|id type payload fs a a1 a2 H1 H2 H3 IH]; [done|]. intros Hc. cbn [app]. econstructor; [done|done|by apply IH]. Qed.

Lemma consumes_one {A} (body : TCReader -> A -> Z -> Z -> res (TCReader * A)) id type payload a a1 : field_ok id type ->
  (forall r s, here r (payload ++ s) -> body r a id type = Ok (adv r (zlen payload), a1)) -> consumes body [(id, type, payload)] a a1.
Proof. intros H1 H2. econstructor; [done|done|constructor]. Qed.

Lemma consumes_if {A} (body : TCReader -> A -> Z -> Z -> res (TCReader * A)) (b : bool) fs a a1 : (b = true -> consumes body fs a a1) -> consumes body (if b then fs else []) a (if b then a1 else a).
Proof. destruct b; [auto|constructor]. Qed.

Lemma int32_reads {A} (set : A -> Z -> A) a v r s : - 2 ^ 31 <= v < 2 ^ 31 -> here r (PgColumnarThriftPutZigzag32 v ++ s) ->
  int_field set r a = Ok (adv r (zlen (PgColumnarThriftPutZigzag32 v)), set a v).
Proof. intros Hv Hr. unfold int_field. destruct (reads_zigzag32 v Hv r s Hr) as [-> _]. done. Qed.

Lemma int64_reads {A} (set : A -> Z -> A) a v r s : - 2 ^ 63 <= v < 2 ^ 63 -> here r (PgColumnarThriftPutZigzag64 v ++ s) ->
  int_field set r a = Ok (adv r (zlen (PgColumnarThriftPutZigzag64 v)), set a v).
Proof. intros Hv Hr. unfold int_field. destruct (reads_zigzag64 v Hv r s Hr) as [-> _]. done. Qed.

Lemma skip_reads {A} stack v (a : A) r s : fits stack v -> here r (put_val v ++ s) -> skip_field stack r a (ttype v) = Ok (adv r (zlen (put_val v)), a).
Proof. intros Hf Hr. unfold skip_field. by rewrite (skip_passes stack v Hf r s Hr). Qed.

Lemma skip_i32 {A} k v (a : A) r s : - 2 ^ 31 <= v < 2 ^ 31 -> here r (PgColumnarThriftPutZigzag32 v ++ s) -> skip_field (S k) r a TC_I32 = Ok (adv r (zlen (PgColumnarThriftPutZigzag32 v)), a).
Proof.
  intros Hv. rewrite put_zigzag32, <- put_zigzag64 by lia. intros Hr. apply (skip_reads (S k) (VInt TC_I32 v) a r s); [|done]. cbn [fits]. split; [auto|lia].
Qed.

Lemma skip_i64 {A} k v (a : A) r s : - 2 ^ 63 <= v < 2 ^ 63 -> here r (PgColumnarThriftPutZigzag64 v ++ s) -> skip_field (S k) r a TC_I64 = Ok (adv r (zlen (PgColumnarThriftPutZigzag64 v)), a).
Proof. intros Hv Hr. apply (skip_reads (S k) (VInt TC_I64 v) a r s); [|done]. cbn [fits]. split; [auto|lia]. Qed.

(** [elem_reads body bs a]: the parser of an element takes [bs] and returns [a]. *)
Definition elem_reads {A} (body : TCReader -> res (TCReader * A)) (bs : list Z) (a : A) : Prop := forall r s, here r (bs ++ s) -> body r = Ok (adv r (zlen bs), a).

Lemma parse_elems_reads {A} (body : TCReader -> res (TCReader * A)) bss l : Forall2 (elem_reads body) bss l -> forall fuel r s, here r (concat bss ++ s) -> (length l < fuel)%nat ->
  parse_elems fuel body (zlen l) r = Ok (adv r (zlen (concat bss)), l).
Proof.
  induction 1 as [|bs a bss l Hb Hl IH]; intros fuel r s Hr Hf; (destruct fuel as [|fuel]; [lia|]); cbn [parse_elems concat] in *.
  - change (zlen (@nil A)) with 0. change (zlen (@nil Z)) with 0. by rewrite adv_0.
  - rewrite zlen_cons. pose proof (zlen_nonneg l). rewrite (proj2 (Z.ltb_lt _ _)), (here_error _ _ Hr) by lia. cbn [andb negb]. rewrite <- app_assoc in Hr.
    rewrite (Hb r _ Hr), bind_Ok. replace (1 + zlen l - 1) with (zlen l) by lia. rewrite (IH fuel _ s); [|by eapply here_adv|cbn in Hf; lia].
    rewrite bind_Ok, adv_adv, zlen_app. done.
Qed.

Lemma parse_list_reads {A} width et (body : TCReader -> res (TCReader * A)) bss l r s : Forall2 (elem_reads body) bss l -> Forall (fun bs => 1 <= zlen bs) bss ->
  0 <= et < 16 -> 1 <= width -> width * Z.max (zlen l) 1 <= MaxAllocSize -> here r ((PgColumnarThriftPutListHeader (zlen l) et ++ concat bss) ++ s) ->
  parse_list width body r = Ok (adv r (zlen (PgColumnarThriftPutListHeader (zlen l) et ++ concat bss)), l).
Proof.
  intros Hf Hpos He Hw Hm Hr. pose proof (zlen_nonneg l). assert (zlen l < 2 ^ 31) by (unfold MaxAllocSize in Hm; nia). rewrite <- app_assoc in Hr. unfold parse_list.
  destruct (reads_list_header (zlen l) et ltac:(lia) He r _ Hr) as [-> Hr']. rewrite bind_Ok, palloc_ok_Ok, bind_Ok by done.
  rewrite (parse_elems_reads body bss l Hf _ _ s Hr'); [by rewrite adv_adv, zlen_app|]. destruct (here_left _ _ Hr') as (_ & Hl & _). rewrite zlen_app in Hl.
  pose proof (length_concat_ge bss Hpos). pose proof (Forall2_length Hf). pose proof (zlen_nonneg s). unfold zlen in *. lia.
Qed.

Lemma struct_reads {A} (body : TCReader -> A -> Z -> Z -> res (TCReader * A)) fs a a' : consumes body fs a a' -> elem_reads (fun r => parse_struct body r a) (struct_bytes 0 fs) a'.
Proof. intros Hc r s Hr. by eapply parse_struct_reads. Qed.

(** ** Column chunks that were written *)

Definition has_stats (c : PqLeaf) (s : PqStats) : bool :=
  ((ptype c =? PQ_INT32) || (ptype c =? PQ_INT64) || ((ptype c =? PQ_FLOAT) || (ptype c =? PQ_DOUBLE))) && hasBounds s.

(** The reader's view of a column chunk. *)
Definition chunk_of (c : PqLeaf) (m : PqColMeta) : PqChunk :=
  mkChunk PQC_UNCOMPRESSED (m_numValues m) (m_dataPageOffset m) 0 (m_totalSize m)
    (if has_stats c (m_st m) then Some (stat_bounds c (m_st m)).1 else None)
    (if has_stats c (m_st m) then Some (stat_bounds c (m_st m)).2 else None) (-1) (-1).

(** Counters that fit, names of a length PostgreSQL has. *)
Record meta_ok (c : PqLeaf) (m : PqColMeta) : Prop := {
  mo_offset : - 2 ^ 63 <= m_dataPageOffset m < 2 ^ 63;
  mo_size : - 2 ^ 63 <= m_totalSize m < 2 ^ 63;
  mo_values : - 2 ^ 63 <= m_numValues m < 2 ^ 63;
  mo_nulls : - 2 ^ 63 <= nulls (m_st m) < 2 ^ 63;
  mo_nans : - 2 ^ 63 <= nans (m_st m) < 2 ^ 63;
  mo_type : - 2 ^ 31 <= ptype c < 2 ^ 31;
  mo_path : zlen (path c) < 2 ^ 31 /\ Forall (fun p => zlen p < 2 ^ 32) (path c) }.

Lemma zlen_stat_bounds c s : zlen (stat_bounds c s).1 <= 8 /\ zlen (stat_bounds c s).2 <= 8.
Proof.
  unfold stat_bounds, d_store. destruct (_ || _), (_ || _); cbn [fst snd]; rewrite ?zlen_le_bytes;
    repeat match goal with |- context [if ?b then _ else _] => destruct b end; rewrite ?zlen_le_bytes; lia.
Qed.

Ltac field_id := split; unfold TC_STOP, TC_UUID, TC_I32, TC_I64, TC_STRUCT, TC_LIST, TC_BINARY, TC_BOOL_TRUE, TC_BOOL_FALSE, PQ_LT_TIMESTAMP, PQ_TUNIT_MICROS; lia.

(** The encodings and the path of a column chunk are skipped. *)
Lemma skip_encodings {A} k (a : A) r s : here r (snd (list_field 2 TC_I32 [PgColumnarThriftPutZigzag32 PQ_ENC_PLAIN; PgColumnarThriftPutZigzag32 PQ_ENC_RLE]) ++ s) ->
  skip_field (S (S k)) r a TC_LIST =
  Ok (adv r (zlen (snd (list_field 2 TC_I32 [PgColumnarThriftPutZigzag32 PQ_ENC_PLAIN; PgColumnarThriftPutZigzag32 PQ_ENC_RLE]))), a).
Proof.
  apply (skip_reads (S (S k)) (VList TC_LIST TC_I32 [VInt TC_I32 PQ_ENC_PLAIN; VInt TC_I32 PQ_ENC_RLE]) a r s). cbn [fits]. split; [auto|]. split; [done|]. split; [unfold TC_I32; lia|].
  repeat apply Forall_cons_2; [..|apply Forall_nil_2]; (split; [done|]); (split; [auto|unfold PQ_ENC_PLAIN, PQ_ENC_RLE; lia]).
Qed.

Lemma skip_names {A} k (names : list (list Z)) (a : A) r s : zlen names < 2 ^ 31 -> Forall (fun p => zlen p < 2 ^ 32) names ->
  here r (snd (list_field 3 TC_BINARY (map (fun p => PgColumnarThriftPutVarint (u64 (zlen p)) ++ p) names)) ++ s) ->
  skip_field (S (S k)) r a TC_LIST = Ok (adv r (zlen (snd (list_field 3 TC_BINARY (map (fun p => PgColumnarThriftPutVarint (u64 (zlen p)) ++ p) names)))), a).
Proof.
  intros Hn Hp Hr. assert (E : snd (list_field 3 TC_BINARY (map (fun p => PgColumnarThriftPutVarint (u64 (zlen p)) ++ p) names)) = put_val (VList TC_LIST TC_BINARY (map VBinary names))).
  { rewrite put_val_list. cbn [list_field snd]. rewrite map_map. assert (El : forall (B : Type) (f : list Z -> B), zlen (map f names) = zlen names) by (intros; unfold zlen; by rewrite length_map). by rewrite !El. }
  rewrite E in *. apply (skip_reads (S (S k)) (VList TC_LIST TC_BINARY (map VBinary names)) a r s); [|done]. cbn [fits]. split; [auto|].
  split; [unfold zlen; by rewrite length_map|]. split; [unfold TC_BINARY; lia|]. apply List.Forall_map. eapply list.Forall_impl; [exact Hp|]. intros p Hlp. by split.
Qed.

Lemma fits_struct j fs : Forall (fun f => - 2 ^ 15 <= f.1 < 2 ^ 15 /\ fits j f.2) fs -> fits (S j) (VStruct fs).
Proof. intros Hf. cbn [fits]. exact Hf. Qed.

Lemma fits_list j et l : zlen l < 2 ^ 31 -> 0 <= et < 16 -> Forall (fun v => ttype v = et /\ fits j v) l -> fits (S j) (VList TC_LIST et l).
Proof.
  intros Hl He Hf. cbn [fits]. split; [auto|]. split; [done|]. split; [done|]. eapply list.Forall_impl; [exact Hf|]. intros v [<- Hv]. destruct v as [b| | | | | | | |]; try done. by destruct b.
Qed.

Lemma fits_empty j : fits (S j) (VStruct []).
Proof. cbn [fits]. constructor. Qed.

Section Written.
Context (k : nat).
Local Definition stk : nat := S (S (S (S (S k)))).

Lemma statistics_read c m ch : meta_ok c m -> ch_stat_min ch = None -> ch_stat_max ch = None ->
  elem_reads (fun r => parse_statistics stk r ch) (write_statistics c m)
    (if has_stats c (m_st m) then set_min (set_max ch (Some (stat_bounds c (m_st m)).2)) (Some (stat_bounds c (m_st m)).1) else ch).
Proof using.
  intros Hm Hmin Hmax. apply struct_reads. unfold statistics_fields. cbv zeta. destruct (zlen_stat_bounds c (m_st m)) as [L1 L2]. destruct (stat_bounds c (m_st m)) as [lo hi]. cbn [fst snd] in *.
  eapply consumes_app; [apply consumes_one; [field_id|]|].
  { intros r s Hr. apply (skip_i64 (S (S (S (S k)))) (nulls (m_st m)) ch r s); [apply Hm|done]. }
  eapply consumes_app; [apply (consumes_if _ _ _ ch (set_min (set_max ch (Some hi)) (Some lo)))|].
  { intros _. eapply (consumes_cons _ 5); [field_id| |apply consumes_one; [field_id|]].
    - intros r s Hr. destruct (reads_bytes hi ltac:(lia) r s Hr) as [E _]. unfold stats_field. cbn [Z.eqb Pos.eqb orb]. rewrite E, bind_Ok. reflexivity.
    - intros r s Hr. destruct (reads_bytes lo ltac:(lia) r s Hr) as [E _]. unfold stats_field. cbn [Z.eqb Pos.eqb orb]. rewrite E, bind_Ok. reflexivity. }
  fold (has_stats c (m_st m)). set (ch' := if has_stats c (m_st m) then _ else _). replace ch' with (if (ptype c =? PQ_FLOAT) || (ptype c =? PQ_DOUBLE) then ch' else ch') at 2 by (by destruct (_ || _)).
  apply (consumes_if _ _ _ ch' ch'). intros _. apply consumes_one; [field_id|]. intros r s Hr. apply (skip_i64 (S (S (S (S k)))) (nans (m_st m)) ch' r s); [apply Hm|done].
Qed.

Lemma column_meta_read c m ch : meta_ok c m -> elem_reads (fun r => parse_column_meta stk r ch) (struct_bytes 0 (column_meta_fields c m)) (chunk_of c m).
Proof using.
  intros Hm. apply struct_reads. unfold column_meta_fields. pose proof Hm as [M1 M2 M3 M4 M5 M6 [M7 M8]].
  eapply consumes_cons; [field_id|intros r s Hr; apply (skip_i32 (S (S (S (S k)))) (ptype c) chunk_reset r s); done|].
  eapply consumes_cons; [field_id|intros r s Hr; apply (skip_encodings (S (S (S k))) chunk_reset r s Hr)|].
  eapply consumes_cons; [field_id|intros r s Hr; apply (skip_names (S (S (S k))) (path c) chunk_reset r s M7 M8 Hr)|].
  eapply consumes_cons; [field_id|intros r s Hr; apply (int32_reads set_codec chunk_reset 0 r s); [lia|done]|].
  eapply consumes_cons; [field_id|intros r s Hr; apply (int64_reads set_values _ (m_numValues m) r s); done|].
  eapply consumes_cons; [field_id|intros r s Hr; apply (skip_i64 (S (S (S (S k)))) (m_totalSize m) _ r s); done|].
  eapply consumes_cons; [field_id|intros r s Hr; apply (int64_reads set_total _ (m_totalSize m) r s); done|].
  eapply consumes_cons; [field_id|intros r s Hr; apply (int64_reads set_data _ (m_dataPageOffset m) r s); done|].
  apply consumes_one; [field_id|]. intros r s Hr. unfold meta_field. cbn [Z.eqb Pos.eqb]. change (TC_STRUCT =? TC_STRUCT) with true. cbv iota.
  rewrite (statistics_read c m (set_data (set_total (set_values (set_codec chunk_reset 0) (m_numValues m)) (m_totalSize m)) (m_dataPageOffset m)) Hm eq_refl eq_refl r s Hr). unfold chunk_of. by destruct (has_stats c (m_st m)).
Qed.

Lemma column_chunk_read c m : meta_ok c m -> elem_reads (fun r => parse_column_chunk stk r chunk0) (write_column_chunk c m) (chunk_of c m).
Proof using.
  intros Hm. apply struct_reads. eapply consumes_cons; [field_id|intros r s Hr; apply (skip_i64 (S (S (S (S k)))) (m_dataPageOffset m) chunk0 r s); [apply Hm|done]|].
  apply consumes_one; [field_id|]. intros r s Hr. unfold chunk_field. cbn [Z.eqb Pos.eqb]. change (TC_STRUCT =? TC_STRUCT) with true. cbn [andb]. cbv iota.
  exact (column_meta_read c m chunk0 Hm r s Hr).
Qed.

(** The reader's view of a row group. *)
Definition group_of (leaves : list PqLeaf) (g : PqWriteGroup) : PqRowGroup := mkRowGroup (wg_numRows g) true (Some (zip_with chunk_of leaves (wg_cols g))).

Record group_wf (leaves : list PqLeaf) (g : PqWriteGroup) : Prop := {
  gw_cols : Forall2 meta_ok leaves (wg_cols g);
  gw_count : 88 * zlen leaves <= MaxAllocSize - 88;
  gw_rows : - 2 ^ 63 <= wg_numRows g < 2 ^ 63;
  gw_size : - 2 ^ 63 <= wg_totalByteSize g < 2 ^ 63 }.

Lemma struct_bytes_ge1 fs : 1 <= zlen (struct_bytes 0 fs).
Proof using. pose proof (struct_bytes_pos fs 0). pose proof (zlen_nonneg fs). lia. Qed.

Lemma row_group_read leaves g : group_wf leaves g -> elem_reads (fun r => parse_struct (group_field stk) r (mkRowGroup 0 false None)) (write_row_group leaves g) (group_of leaves g).
Proof using.
  intros [G1 G2 G3 G4]. apply struct_reads. pose proof (Forall2_length G1) as Hlen.
  assert (Hz : length (zip_with chunk_of leaves (wg_cols g)) = length leaves) by (by apply length_zip_with_l_eq).
  assert (Hz' : length (zip_with write_column_chunk leaves (wg_cols g)) = length leaves) by (by apply length_zip_with_l_eq).
  eapply consumes_cons; [field_id| |].
  { intros r s Hr. unfold group_field. cbn [Z.eqb Pos.eqb]. change (TC_LIST =? TC_LIST) with true. cbn [andb]. cbv iota.
    assert (El : zlen (zip_with write_column_chunk leaves (wg_cols g)) = zlen (zip_with chunk_of leaves (wg_cols g))) by (unfold zlen; congruence). rewrite El in *.
    rewrite (parse_list_reads 88 TC_STRUCT (fun r => parse_column_chunk stk r chunk0) (zip_with write_column_chunk leaves (wg_cols g)) (zip_with chunk_of leaves (wg_cols g)) r s); [rewrite bind_Ok; reflexivity| | |unfold TC_STRUCT; lia|lia| |exact Hr].
    - clear -G1. induction G1 as [|c m cs ms Hm Hms IH]; constructor; [by apply column_chunk_read|done].
    - clear. generalize (wg_cols g) as ms. induction leaves as [|c cs IH]; intros [|m ms]; constructor; [apply struct_bytes_ge1|apply IH].
    - assert (zlen (zip_with chunk_of leaves (wg_cols g)) = zlen leaves) as -> by (unfold zlen; congruence). unfold MaxAllocSize in *. lia. }
  eapply consumes_cons; [field_id|intros r s Hr; apply (skip_i64 (S (S (S (S k)))) (wg_totalByteSize g) _ r s); done|].
  apply consumes_one; [field_id|]. intros r s Hr. exact (int64_reads (fun g v => mkRowGroup v true (rg_chunks g)) _ (wg_numRows g) r s G3 Hr).
Qed.

(** ** Schema elements that were written *)

(** A C string of a length PostgreSQL has. *)
Definition name_ok (name : list Z) : Prop := zlen name < 2 ^ 32 /\ pnstrdup name = name.

Lemma name_read sc name r s : name_ok name -> here r ((PgColumnarThriftPutVarint (u64 (zlen name)) ++ name) ++ s) ->
  element_field stk r sc 4 TC_BINARY = Ok (adv r (zlen (PgColumnarThriftPutVarint (u64 (zlen name)) ++ name)), sc_set_name sc name).
Proof using. intros [Hn Hz] Hr. unfold element_field. cbn [Z.eqb Pos.eqb]. destruct (reads_bytes name Hn r s Hr) as [-> _]. by rewrite bind_Ok, Hz. Qed.

(** The unit MICROS: a struct with one empty struct. *)
Lemma micros_read isTs sc r s : here r (struct_bytes 0 [struct_field PQ_TUNIT_MICROS []] ++ s) ->
  time_field stk isTs r sc 2 TC_STRUCT = Ok (adv r (zlen (struct_bytes 0 [struct_field PQ_TUNIT_MICROS []])), sc_set_unit sc PQ_TU_MICROS isTs).
Proof using.
  intros Hr. unfold time_field. change (TC_STRUCT =? TC_STRUCT) with true. cbn [Z.eqb Pos.eqb andb].
  change (struct_bytes 0 [struct_field PQ_TUNIT_MICROS []] ++ s) with (PgColumnarThriftPutField 0 2 TC_STRUCT ++ put_val (VStruct []) ++ PgColumnarThriftPutStop ++ s) in Hr.
  destruct (reads_field 0 2 TC_STRUCT ltac:(lia) ltac:(lia) ltac:(unfold TC_STOP, TC_STRUCT, TC_UUID; lia) r _ Hr) as [-> Hr1]. rewrite bind_Ok. rewrite (here_error _ _ Hr1).
  change (TC_STRUCT =? TC_STOP) with false. cbn [negb andb]. cbn [Z.eqb Pos.eqb]. cbv zeta.
  pose proof (skip_passes stk _ (fits_empty _) _ _ Hr1) as Es. cbn [ttype] in Es. rewrite Es, bind_Ok. clear Es.
  pose proof (here_adv _ _ _ _ Hr1 eq_refl) as Hr2. destruct (reads_stop 2 _ _ Hr2) as [-> _]. rewrite bind_Ok, !adv_adv. done.
Qed.

Lemma timestamp_read sc utc : elem_reads (fun r => parse_logical_type stk r sc)
    (struct_bytes 0 [struct_field PQ_LT_TIMESTAMP [(1, if utc =? 0 then TC_BOOL_FALSE else TC_BOOL_TRUE, []); struct_field 2 [struct_field PQ_TUNIT_MICROS []]]])
    (sc_set_unit (sc_set_utc sc (negb (utc =? 0))) PQ_TU_MICROS true).
Proof using.
  apply struct_reads. apply consumes_one; [field_id|]. intros r s Hr. unfold logical_field. change (TC_STRUCT =? TC_STRUCT) with true. unfold PQ_LT_TIMESTAMP at 1 2 3 4. cbn [Z.eqb Pos.eqb orb andb PQ_LT_TIME].
  eapply (parse_struct_reads _ _ _ _ r s); [|exact Hr]. eapply consumes_cons; [destruct (utc =? 0); field_id| |apply consumes_one; [field_id|]].
  - intros r0 s0 Hr0. instantiate (1 := sc_set_utc sc (negb (utc =? 0))). change (zlen (@nil Z)) with 0. rewrite adv_0. destruct (utc =? 0); reflexivity.
  - intros r0 s0 Hr0. exact (micros_read true _ r0 s0 Hr0).
Qed.

Lemma build_leaf_cases typid typmod md mr pa c : exportable typid -> - 1 <= typmod < 2 ^ 31 -> build_leaf_scalar typid typmod md mr pa = Some c ->
  exists kd ph ct ts tl pr sc conv, c = mkLeaf pa kd ph ct ts tl pr sc conv md mr [] [] [] [] 0 pqstats_reset /\
    ((ph, ct, ts, tl, pr, sc) ∈ [(PQ_INT32, PQ_CT_INT_16, -1, 0, 0, 0); (PQ_INT32, -1, -1, 0, 0, 0); (PQ_INT64, -1, -1, 0, 0, 0); (PQ_FLOAT, -1, -1, 0, 0, 0); (PQ_DOUBLE, -1, -1, 0, 0, 0);
       (PQ_BOOLEAN, -1, -1, 0, 0, 0); (PQ_BYTE_ARRAY, PQ_CT_UTF8, -1, 0, 0, 0); (PQ_BYTE_ARRAY, -1, -1, 0, 0, 0); (PQ_INT32, PQ_CT_DATE, -1, 0, 0, 0);
       (PQ_INT64, PQ_CT_TIME_MICROS, -1, 0, 0, 0); (PQ_INT64, -1, 0, 0, 0, 0); (PQ_INT64, PQ_CT_TIMESTAMP_MICROS, 1, 0, 0, 0); (PQ_FIXED_LEN_BYTE_ARRAY, -1, -1, 16, 0, 0)] \/
     (ph, ct, ts, tl) = (PQ_FIXED_LEN_BYTE_ARRAY, PQ_CT_DECIMAL, -1, 16) /\ 1 <= pr <= 38 /\ 0 <= sc <= 38).
Proof using.
  intros He Hm Hb. apply list_elem_of_In in He. cbn [In] in He. repeat (destruct He as [<-|He]); [..|done];
    try (injection Hb as <-; eexists _, _, _, _, _, _, _, _; (split; [reflexivity|]); left; repeat (apply list_elem_of_here || apply list_elem_of_further)).
  unfold build_leaf_scalar in Hb. destruct (numeric_kind typmod Hm) as [E|(p & s & E & Hp & Hs & _)]; rewrite E in Hb; injection Hb as <-; eexists _, _, _, _, _, _, _, _; (split; [reflexivity|]).
  - left. repeat (apply list_elem_of_here || apply list_elem_of_further).
  - right. split; [done|]. lia.
Qed.

(** A leaf of the schema as the reader sees it. *)
Lemma schema_leaf_read typid typmod md mr pa c name : exportable typid -> - 1 <= typmod < 2 ^ 31 -> build_leaf_scalar typid typmod md mr pa = Some c -> name_ok name ->
  elem_reads (parse_schema_element stk) (write_schema_leaf name c 1) (schema_of_leaf c name 1).
Proof using.
  intros He Hm Hb Hn r s Hr. destruct (build_leaf_cases _ _ _ _ _ _ He Hm Hb) as (kd & ph & ct & ts & tl & pr & sc & conv & -> & Hc).
  assert (Hrange : 0 <= ph < 8 /\ -1 <= ct < 20 /\ 0 <= tl < 17 /\ 0 <= pr < 39 /\ 0 <= sc < 39).
  { destruct Hc as [Hc|([= -> -> -> ->] & Hp & Hs)]; [|unfold PQ_FIXED_LEN_BYTE_ARRAY, PQ_CT_DECIMAL; lia].
    apply list_elem_of_In in Hc. cbn [In] in Hc. repeat (destruct Hc as [[= <- <- <- <- <- <-]|Hc]); [vm_compute; intuition discriminate..|done]. }
  unfold parse_schema_element.
  set (a1 := sc_set_phys element0 ph). set (a2 := if ph =? PQ_FIXED_LEN_BYTE_ARRAY then sc_set_length a1 tl else a1). set (a3 := sc_set_name (sc_set_repetition a2 1) name).
  set (a4 := if 0 <=? ct then sc_set_converted a3 ct else a3). set (a5 := if ct =? PQ_CT_DECIMAL then sc_set_precision (sc_set_scale a4 sc) pr else a4).
  set (a6 := if 0 <=? ts then sc_set_unit (sc_set_utc a5 (negb (ts =? 0))) PQ_TU_MICROS true else a5).
  assert (Hcons : parse_struct (element_field stk) r element0 = Ok (adv r (zlen (write_schema_leaf name (mkLeaf pa kd ph ct ts tl pr sc conv md mr [] [] [] [] 0 pqstats_reset) 1)), a6)).
  { apply (parse_struct_reads _ _ element0 a6 r s); [|exact Hr]. cbn [ptype typeLength convType scale precision tsAdjusted].
    eapply consumes_app; [apply consumes_one; [field_id|intros r0 s0 H0; apply (int32_reads sc_set_phys element0 ph r0 s0); [lia|done]]|].
    eapply consumes_app; [apply (consumes_if _ _ _ a1 (sc_set_length a1 tl)); intros _; apply consumes_one; [field_id|intros r0 s0 H0; apply (int32_reads sc_set_length a1 tl r0 s0); [lia|done]]|].
    eapply (consumes_app _ _ _ a2 a3); [eapply consumes_cons; [field_id|intros r0 s0 H0; apply (int32_reads sc_set_repetition a2 1 r0 s0); [lia|done]|apply consumes_one; [field_id|intros r0 s0 H0; by apply (name_read _ _ _ s0)]]|].
    eapply consumes_app; [apply (consumes_if _ _ _ a3 (sc_set_converted a3 ct)); intros _; apply consumes_one; [field_id|intros r0 s0 H0; apply (int32_reads sc_set_converted a3 ct r0 s0); [lia|done]]|].
    eapply consumes_app; [apply (consumes_if _ _ _ a4 (sc_set_precision (sc_set_scale a4 sc) pr)); intros _; eapply consumes_cons;
      [field_id|intros r0 s0 H0; apply (int32_reads sc_set_scale a4 sc r0 s0); [lia|done]|apply consumes_one; [field_id|intros r0 s0 H0; apply (int32_reads sc_set_precision _ pr r0 s0); [lia|done]]]|].
    apply (consumes_if _ _ _ a5 _). intros _. apply consumes_one; [field_id|]. intros r0 s0 H0. exact (timestamp_read a5 ts r0 s0 H0). }
  rewrite Hcons, bind_Ok. do 2 f_equal. subst a1 a2 a3 a4 a5 a6. destruct Hc as [Hc|([= -> -> -> ->] & Hp & Hs)].
  - apply list_elem_of_In in Hc. cbn [In] in Hc. repeat (destruct Hc as [[= <- <- <- <- <- <-]|Hc]); [reflexivity..|done].
  - assert (Ep : s32 pr = pr) by (apply s32_small; lia). assert (Es : s32 sc = sc) by (apply s32_small; lia).
    cbv -[s32]. rewrite Ep, Es. reflexivity.
Qed.

(** A group of the schema as the reader sees it. *)
Definition schema_group (name : list Z) (repetition num_children convType : Z) : PqSchemaCol :=
  mkSchema (-1) repetition convType PQ_TU_NONE false true false 0 0 0 num_children num_children (-1) (Some name).

Lemma children_set sc n : 0 <= n < 2 ^ 31 -> sc_set_children sc n =
  mkSchema (sc_phys_type sc) (sc_repetition sc) (sc_converted_type sc) (sc_time_unit sc) (sc_is_timestamp sc) (sc_adjusted_utc sc) (sc_is_unsigned sc) (sc_type_length sc) (sc_scale sc) (sc_precision sc) n n (sc_field_id sc) (sc_name sc).
Proof using. intros Hn. unfold sc_set_children, PG_INT32_MAX. by rewrite !(proj2 (Z.ltb_ge _ _)) by lia. Qed.

Lemma schema_group_read name rep n ct : name_ok name -> 0 <= rep < 3 -> 0 <= n < 2 ^ 31 -> ct = -1 \/ ct = 3 ->
  elem_reads (parse_schema_element stk) (write_schema_group name rep n ct) (schema_group name rep n ct).
Proof using.
  intros Hn Hr Hc Hct r s Hh. unfold parse_schema_element.
  set (a1 := sc_set_children (sc_set_name (sc_set_repetition element0 rep) name) n). set (a2 := if 0 <=? ct then sc_set_converted a1 ct else a1).
  assert (Hcons : parse_struct (element_field stk) r element0 = Ok (adv r (zlen (write_schema_group name rep n ct)), a2)).
  { apply (parse_struct_reads _ _ element0 a2 r s); [|exact Hh]. eapply (consumes_app _ _ _ element0 a1).
    - eapply consumes_cons; [field_id|intros r0 s0 H0; apply (int32_reads sc_set_repetition element0 rep r0 s0); [lia|done]|].
      eapply consumes_cons; [field_id|intros r0 s0 H0; by apply (name_read _ _ _ s0)|].
      apply consumes_one; [field_id|intros r0 s0 H0; apply (int32_reads sc_set_children _ n r0 s0); [lia|done]].
    - apply (consumes_if _ _ _ a1 _). intros _. apply consumes_one; [field_id|intros r0 s0 H0; apply (int32_reads sc_set_converted a1 ct r0 s0); [lia|done]]. }
  rewrite Hcons, bind_Ok. do 2 f_equal. subst a1 a2. rewrite children_set by done. by destruct Hct as [-> | ->].
Qed.

Lemma schema_root_read n : 0 <= n < 2 ^ 31 -> elem_reads (parse_schema_element stk) (write_schema_element_root n) (schema_group name_schema 0 n (-1)).
Proof using.
  intros Hn r s Hh. unfold parse_schema_element. set (a1 := sc_set_children (sc_set_name element0 name_schema) n).
  assert (Hcons : parse_struct (element_field stk) r element0 = Ok (adv r (zlen (write_schema_element_root n)), a1)).
  { apply (parse_struct_reads _ _ element0 a1 r s); [|exact Hh]. eapply consumes_cons; [field_id|intros r0 s0 H0; by apply (name_read _ _ _ s0)|].
    apply consumes_one; [field_id|intros r0 s0 H0; apply (int32_reads sc_set_children _ n r0 s0); [lia|done]]. }
  rewrite Hcons, bind_Ok. do 2 f_equal. subst a1. by rewrite children_set by done.
Qed.

(** ** Columns *)

Definition leaf_name (c : PqLeaf) : list Z := List.last (path c) [].
Definition leaf_schema (c : PqLeaf) : PqSchemaCol := schema_of_leaf c (leaf_name c) 1.
Definition info_of (c : PqLeaf) : PqLeafInfo := mkLeafInfo (leaf_schema c) (max_def c) (max_rep c) (zlen (path c)).

(** The schema elements of a column with the leaves [seg]. *)
Definition top_schema (tc : TopColumn) (seg : list PqLeaf) : list PqSchemaCol :=
  match tc with
  | TOP_SCALAR _ _ => map leaf_schema seg
  | TOP_LIST name _ => schema_group name 1 1 3 :: schema_group name_list 2 1 (-1) :: map leaf_schema seg
  | TOP_STRUCT name _ n _ => schema_group name 1 (Z.of_nat n) (-1) :: map leaf_schema seg
  end.

(** A leaf of a given type, with levels and path. *)
Definition scalar_ok (typid typmod : Z) (name : list Z) : Prop := exportable typid /\ - 1 <= typmod < 2 ^ 31 /\ name_ok name.

Definition column_ok (name : list Z) (ty : coltype) : Prop :=
  name_ok name /\
  match ty with
  | CScalar typid typmod => scalar_ok typid typmod name
  | CArray elemtype _ => exportable elemtype
  | CComposite fields => (exists f, Some f ∈ fields) /\ zlen fields < 2 ^ 31 /\ Forall (fun f => match f with Some (fname, typid, typmod) => scalar_ok typid typmod fname | None => True end) fields
  end.

Definition leaf_at (def rep : Z) (pa : list (list Z)) (c : PqLeaf) : Prop := max_def c = def /\ max_rep c = rep /\ path c = pa.

Lemma build_leaf_at typid typmod md mr pa c : build_leaf_scalar typid typmod md mr pa = Some c -> leaf_at md mr pa c.
Proof using.
  unfold build_leaf_scalar. destruct (parquet_kind_for_type typid typmod) as [[[[[? ph] ?] ?] ?] ?]. destruct (ph <? 0); [done|]. by intros [= <-].
Qed.

(** A piece of the schema: what is written for a column and how it reads. *)
Record schema_piece (bss : list (list Z)) (els : list PqSchemaCol) : Prop := {
  sp_reads : Forall2 (elem_reads (parse_schema_element stk)) bss els;
  sp_pos : Forall (fun bs => 1 <= zlen bs) bss }.

Lemma schema_piece_cons bs fs e bss els : bs = struct_bytes 0 fs -> elem_reads (parse_schema_element stk) bs e -> schema_piece bss els -> schema_piece (bs :: bss) (e :: els).
Proof using. intros -> He [H1 H2]. split; constructor; try done. apply struct_bytes_ge1. Qed.

Lemma schema_piece_nil : schema_piece [] [].
Proof using. split; constructor. Qed.

Lemma schema_piece_app b1 b2 e1 e2 : schema_piece b1 e1 -> schema_piece b2 e2 -> schema_piece (b1 ++ b2) (e1 ++ e2).
Proof using. intros [H1 H2] [H3 H4]. split; [by apply Forall2_app|by apply Forall_app_2]. Qed.

Lemma fields_schema name fields : forall leaves fl leaves' post, build_fields name fields leaves = Some (fl, leaves') ->
  Forall (fun f => match f with Some (fname, typid, typmod) => scalar_ok typid typmod fname | None => True end) fields ->
  exists seg bss, leaves' = leaves ++ seg /\ write_fields_schema fl (leaves' ++ post) = Ok bss /\ schema_piece bss (map leaf_schema seg) /\
    Forall (fun c => max_def c = 2 /\ max_rep c = 0 /\ zlen (path c) = 2) seg /\ (length seg <= length fields)%nat /\ ((exists f, Some f ∈ fields) -> seg <> []).
Proof using.
  induction fields as [|[[[fname typid] typmod]|] fields IH]; intros leaves fl leaves' post E Hok; cbn [build_fields] in E.
  - injection E as <- <-. exists [], []. rewrite app_nil_r. split; [done|]. split; [done|]. split; [apply schema_piece_nil|]. split; [constructor|]. split; [done|]. intros [f Hf]. by apply not_elem_of_nil in Hf.
  - apply Forall_cons_1 in Hok as [(O1 & O2 & O3) Hok]. destruct (build_leaf_scalar typid typmod 2 0 _) as [leaf|] eqn:El; [|done]. destruct (build_fields name fields _) as [[fl1 l1]|] eqn:E1; [|done].
    injection E as <- <-. destruct (IH _ _ _ post E1 Hok) as (seg & bss & -> & H2 & H3 & H4 & H5 & _). rewrite <- !app_assoc in *. cbn [app] in *.
    pose proof (build_leaf_at _ _ _ _ _ _ El) as (A1 & A2 & A3). exists (leaf :: seg), (write_schema_leaf fname leaf 1 :: bss). split; [done|]. cbn [write_fields_schema]. unfold leaf_of.
    rewrite list_lookup_middle by done. rewrite bind_Ok, H2, bind_Ok. split; [done|]. split.
    + cbn [map]. eapply schema_piece_cons; [reflexivity| |done]. unfold leaf_schema, leaf_name. rewrite A3. cbn [List.last]. by eapply schema_leaf_read.
    + split; [constructor; [by rewrite A3|done]|]. split; [cbn; lia|done].
  - apply Forall_cons_1 in Hok as [_ Hok]. destruct (build_fields name fields leaves) as [[fl1 l1]|] eqn:E1; [|done]. injection E as <- <-.
    destruct (IH _ _ _ post E1 Hok) as (seg & bss & H1 & H2 & H3 & H4 & H5 & H6). exists seg, bss. split; [done|]. split; [done|]. split; [done|]. split; [done|]. split; [cbn; lia|].
    intros [f Hf]. apply elem_of_cons in Hf as [Hf|Hf]; [done|]. apply H6. by exists f.
Qed.

(** The leaves of a column by its kind, with their levels and depth. *)
Definition seg_ok (tc : TopColumn) (seg : list PqLeaf) : Prop :=
  match tc with
  | TOP_SCALAR _ _ => exists c, seg = [c] /\ max_def c = 1 /\ max_rep c = 0 /\ zlen (path c) = 1
  | TOP_LIST _ _ => exists c, seg = [c] /\ max_def c = 3 /\ max_rep c = 1 /\ zlen (path c) = 3
  | TOP_STRUCT _ _ n _ => n = length seg /\ Forall (fun c => max_def c = 2 /\ max_rep c = 0 /\ zlen (path c) = 2) seg
  end.

Lemma column_schema name ty leaves tc leaves' post : column_ok name ty -> build_top_column name ty leaves = Some (tc, leaves') ->
  exists seg bss, leaves' = leaves ++ seg /\ seg <> [] /\ write_top_schema tc (leaves' ++ post) = Ok bss /\ schema_piece bss (top_schema tc seg) /\ zlen bss = schema_count_for_top tc /\
    seg_ok tc seg.
Proof using.
  intros [Hn Hty] E. unfold build_top_column in E. destruct ty as [typid typmod|et tm|fields].
  - destruct Hty as (H1 & H2 & _). destruct (build_leaf_scalar _ _ _ _ _) as [leaf|] eqn:El; [|done]. injection E as <- <-. pose proof (build_leaf_at _ _ _ _ _ _ El) as (A1 & A2 & A3).
    exists [leaf], [write_schema_leaf name leaf 1]. split; [done|]. split; [done|]. cbn [write_top_schema]. unfold leaf_of. rewrite <- app_assoc. cbn [app]. rewrite list_lookup_middle by done.
    split; [done|]. split; [|split; [done|]; exists leaf; by rewrite A3]. cbn [top_schema map]. eapply schema_piece_cons; [reflexivity| |apply schema_piece_nil].
    unfold leaf_schema, leaf_name. rewrite A3. cbn [List.last]. by eapply schema_leaf_read.
  - destruct (build_leaf_scalar _ _ _ _ _) as [leaf|] eqn:El; [|done]. injection E as <- <-. pose proof (build_leaf_at _ _ _ _ _ _ El) as (A1 & A2 & A3).
    eexists [leaf], _. split; [done|]. split; [done|]. cbn [write_top_schema]. unfold leaf_of. rewrite <- app_assoc. cbn [app]. rewrite list_lookup_middle by done.
    split; [done|]. split; [|split; [done|]; exists leaf; by rewrite A3]. cbn [top_schema map]. eapply schema_piece_cons; [reflexivity|by apply schema_group_read; try lia; auto|].
    eapply schema_piece_cons; [reflexivity|apply schema_group_read; [by split; vm_compute|lia|lia|auto]|]. eapply schema_piece_cons; [reflexivity| |apply schema_piece_nil].
    unfold leaf_schema, leaf_name. rewrite A3. cbn [List.last]. eapply schema_leaf_read; [done| |exact El|by split; vm_compute]. lia.
  - destruct Hty as (Hlive & Hfl & Hok). destruct (build_fields name fields leaves) as [[fl l1]|] eqn:E1; [|done]. injection E as <- <-.
    destruct (fields_schema name fields leaves fl l1 post E1 Hok) as (seg & bss & -> & H2 & H3 & H4 & H5 & H6). exists seg, (write_schema_group name 1 (Z.of_nat (length seg)) (-1) :: bss). split; [done|].
    split; [by apply H6|]. cbn [write_top_schema top_schema schema_count_for_top]. replace (length (leaves ++ seg) - length leaves)%nat with (length seg) by (rewrite length_app; lia).
    rewrite H2, bind_Ok. split; [done|]. split; [|split; [|done]].
    + eapply schema_piece_cons; [reflexivity| |done]. apply schema_group_read; [done|lia|unfold zlen in Hfl; lia|auto].
    + rewrite zlen_cons. destruct H3 as [H3 _]. pose proof (Forall2_length H3) as Hl. rewrite length_map in Hl. unfold zlen. lia.
Qed.

(** ** The walk over a schema that was written *)

Lemma walk_leaf j elems def rep depth cursor ls c : elems !! cursor = Some (leaf_schema c) ->
  walk_schema (S j) elems def rep depth cursor ls = Ok (Some (S cursor, ls ++ [mkLeafInfo (leaf_schema c) (def + 1) rep depth])).
Proof using. intros E. cbn [walk_schema]. rewrite E. cbn. by rewrite !Z.add_0_r. Qed.

Lemma walk_leaves j pre seg post : Forall (fun c => max_def c = 2 /\ max_rep c = 0 /\ zlen (path c) = 2) seg -> forall fuel c ls pre', pre' ++ map leaf_schema seg ++ post = pre ->
  (length seg <= fuel)%nat ->
  walk_children fuel (walk_schema (S j) pre 1 0 2) c (c + zlen seg) (length pre') ls = Ok (Some ((length pre' + length seg)%nat, ls ++ map info_of seg)).
Proof using.
  induction 1 as [|x seg (H1 & H2 & H3) Hseg IH]; intros fuel c ls pre' E Hf.
  - change (zlen (@nil PqLeaf)) with 0. cbn [length map]. rewrite Z.add_0_r, Nat.add_0_r, app_nil_r. destruct fuel; cbn [walk_children]; by rewrite Z.ltb_irrefl.
  - destruct fuel as [|fuel]; [cbn in Hf; lia|]. pose proof (zlen_nonneg seg). rewrite zlen_cons. cbn [walk_children]. rewrite (proj2 (Z.ltb_lt _ _)) by lia.
    rewrite (walk_leaf j pre 1 0 2 (length pre') ls x), bind_Ok by (rewrite <- E; by apply list_lookup_middle).
    replace (c + (1 + zlen seg)) with (c + 1 + zlen seg) by lia. specialize (IH fuel (c + 1) (ls ++ [mkLeafInfo (leaf_schema x) (1 + 1) 0 2]) (pre' ++ [leaf_schema x])).
    rewrite length_app in IH. cbn [length] in IH. rewrite Nat.add_1_r in IH. rewrite IH; [|by rewrite <- app_assoc|cbn in Hf; lia]. cbn [length map]. rewrite <- app_assoc. cbn [app].
    replace (S (length pre') + length seg)%nat with (length pre' + S (length seg))%nat by lia. unfold info_of at 2. by rewrite H1, H2, H3.
Qed.

Lemma walk_only_child walk fuel cursor ls r : walk cursor ls = Ok (Some r) -> walk_children (S fuel) walk 0 1 cursor ls = Ok (Some r).
Proof using. intros E. cbn [walk_children]. change (0 <? 1) with true. cbv iota. rewrite E, bind_Ok. destruct r as [c l]. by destruct fuel. Qed.

Lemma walk_group j elems def rep depth cursor ls name rp n ct : elems !! cursor = Some (schema_group name rp n ct) -> n <> 0 ->
  walk_schema (S j) elems def rep depth cursor ls =
  walk_children (S (length elems - cursor)) (walk_schema j elems (def + (if rp =? 1 then 1 else 0) + (if rp =? 2 then 1 else 0)) (rep + (if rp =? 2 then 1 else 0)) (depth + 1)) 0 n (S cursor) ls.
Proof using. intros E Hn. cbn [walk_schema]. rewrite E. cbn [schema_group sc_num_children sc_repetition]. by rewrite (proj2 (Z.eqb_neq n 0)). Qed.

Lemma walk_top j tc seg pre post ls : seg <> [] -> seg_ok tc seg ->
  walk_schema (S (S (S j))) (pre ++ top_schema tc seg ++ post) 0 0 1 (length pre) ls = Ok (Some ((length pre + length (top_schema tc seg))%nat, ls ++ map info_of seg)).
Proof using.
  intros Hne Hseg. destruct tc as [name i|name i|name i n fl]; cbn [seg_ok top_schema] in *.
  - destruct Hseg as (c & -> & H1 & H2 & H3). cbn [map app length]. rewrite (walk_leaf _ _ 0 0 1 (length pre) ls c) by (by apply list_lookup_middle).
    rewrite Nat.add_1_r. unfold info_of. by rewrite H1, H2, H3.
  - destruct Hseg as (c & -> & H1 & H2 & H3). cbn [map app length]. set (elems := pre ++ _).
    assert (E0 : elems !! length pre = Some (schema_group name 1 1 3)) by (by apply list_lookup_middle).
    assert (E1 : elems !! S (length pre) = Some (schema_group name_list 2 1 (-1)))
      by (unfold elems; rewrite lookup_app_r by lia; by replace (S (length pre) - length pre)%nat with 1%nat by lia).
    assert (E2 : elems !! S (S (length pre)) = Some (leaf_schema c))
      by (unfold elems; rewrite lookup_app_r by lia; by replace (S (S (length pre)) - length pre)%nat with 2%nat by lia).
    rewrite (walk_group _ _ _ _ _ _ _ _ _ _ _ E0) by lia. apply walk_only_child. rewrite (walk_group _ _ _ _ _ _ _ _ _ _ _ E1) by lia. apply walk_only_child.
    rewrite (walk_leaf _ _ _ _ _ _ _ c E2). do 3 f_equal; [lia|]. unfold info_of. rewrite H1, H2, H3. done.
  - destruct Hseg as [-> Hseg]. set (elems := pre ++ _). assert (E0 : elems !! length pre = Some (schema_group name 1 (Z.of_nat (length seg)) (-1))) by (by apply list_lookup_middle).
    rewrite (walk_group _ _ _ _ _ _ _ _ _ _ _ E0) by (destruct seg; [done|cbn; lia]).
    assert (El : (length elems >= length pre + 1 + length seg)%nat) by (unfold elems; rewrite !length_app; cbn [length]; rewrite length_map; lia).
    pose proof (walk_leaves (S j) elems seg post Hseg (S (length elems - length pre)) 0 ls (pre ++ [schema_group name 1 (Z.of_nat (length seg)) (-1)])) as W.
    rewrite length_app, Z.add_0_l in W. cbn [length] in W. rewrite Nat.add_1_r in W. change (zlen seg) with (Z.of_nat (length seg)) in W. cbn [Z.add] in W.
    etransitivity; [apply W; [unfold elems; rewrite <- app_assoc; done|lia]|]. cbn [length]. rewrite length_map. do 3 f_equal. lia.
Qed.

(** ** The footer that was written *)

Lemma columns_schema cols : forall leaves tops leaves' post, build_columns cols leaves = Ok (tops, leaves') -> Forall (fun '(name, ty) => column_ok name ty) cols ->
  exists segs bss, leaves' = leaves ++ concat segs /\ Forall2 (fun tc seg => seg <> [] /\ seg_ok tc seg) tops segs /\ write_schema tops (leaves' ++ post) = Ok bss /\
    schema_piece bss (concat (zip_with top_schema tops segs)) /\ zlen bss = foldr Z.add 0 (map schema_count_for_top tops).
Proof using.
  induction cols as [|[name ty] cols IH]; intros leaves tops leaves' post E Hok; cbn [build_columns] in E.
  - injection E as <- <-. exists [], []. rewrite app_nil_r. split; [done|]. split; [constructor|]. split; [done|]. split; [apply schema_piece_nil|done].
  - apply Forall_cons_1 in Hok as [Hc Hok]. destruct (build_top_column name ty leaves) as [[tc l1]|] eqn:E1; [|done].
    destruct (build_columns cols l1) as [[tops1 l2]| | |] eqn:E2; [|done..]. rewrite bind_Ok in E. injection E as <- <-.
    destruct (IH _ _ _ post E2 Hok) as (segs & bss & -> & H2 & H3 & H4 & H5).
    destruct (column_schema name ty leaves tc l1 (concat segs ++ post) Hc E1) as (seg & bss1 & -> & C1 & C2 & C3 & C4 & C5).
    exists (seg :: segs), (bss1 ++ bss). cbn [concat zip_with map foldr]. split; [by rewrite <- app_assoc|]. split; [by constructor|]. cbn [write_schema].
    rewrite <- app_assoc in H3 |- *. rewrite <- app_assoc in C2. rewrite <- app_assoc in H3 |- *. rewrite C2, bind_Ok, H3, bind_Ok. split; [done|]. split; [by apply schema_piece_app|].
    rewrite zlen_app. lia.
Qed.

Lemma walk_tops j tops segs : Forall2 (fun tc seg => seg <> [] /\ seg_ok tc seg) tops segs -> forall elems pre fuel c ls, pre ++ concat (zip_with top_schema tops segs) = elems -> (length tops <= fuel)%nat ->
  exists cur, walk_children fuel (walk_schema (S (S (S j))) elems 0 0 1) c (c + zlen tops) (length pre) ls = Ok (Some (cur, ls ++ map info_of (concat segs))).
Proof using.
  induction 1 as [|tc seg tops segs [H1 H2] Ht IH]; intros elems pre fuel c ls E Hf.
  - exists (length pre). change (zlen (@nil TopColumn)) with 0. rewrite Z.add_0_r, app_nil_r. destruct fuel; cbn [walk_children]; by rewrite Z.ltb_irrefl.
  - destruct fuel as [|fuel]; [cbn in Hf; lia|]. pose proof (zlen_nonneg tops). rewrite zlen_cons. cbn [walk_children]. rewrite (proj2 (Z.ltb_lt _ _)) by lia. cbn [zip_with concat] in E.
    destruct (IH elems (pre ++ top_schema tc seg) fuel (c + 1) (ls ++ map info_of seg)) as [cur Ecur]; [by rewrite <- app_assoc|cbn in Hf; lia|].
    exists cur. pose proof (walk_top j tc seg pre (concat (zip_with top_schema tops segs)) ls H1 H2) as W. rewrite E in W. rewrite W, bind_Ok.
    replace (c + (1 + zlen tops)) with (c + 1 + zlen tops) by lia. rewrite <- length_app, Ecur. cbn [concat]. by rewrite map_app, app_assoc.
Qed.

(** The reader's view of a file of the writer. *)
Definition file_of (tops : list TopColumn) (els : list PqSchemaCol) (leaves : list PqLeaf) (total : Z) (rgs : list PqWriteGroup) : PqFile :=
  mkFile (schema_group name_schema 0 (zlen tops) (-1) :: els) (map info_of leaves) (zlen tops) (map (group_of leaves) rgs) true true total None.

Lemma skip_orders {A B} j (a : A) (l : list B) r s : zlen l < 2 ^ 31 -> here r (snd (list_field 7 TC_STRUCT (map (fun _ => column_order) l)) ++ s) ->
  skip_field (S (S (S (S j)))) r a TC_LIST = Ok (adv r (zlen (snd (list_field 7 TC_STRUCT (map (fun _ => column_order) l)))), a).
Proof using.
  intros Hl Hr. set (v := VList TC_LIST TC_STRUCT (map (fun _ => VStruct [(1, VStruct [])]) l)).
  assert (E : snd (list_field 7 TC_STRUCT (map (fun _ => column_order) l)) = put_val v).
  { unfold v. rewrite put_val_list. cbn [list_field snd]. rewrite map_map.
    assert (El : forall (C : Type) (f : B -> C), zlen (map f l) = zlen l) by (intros; unfold zlen; by rewrite length_map). by rewrite !El. }
  rewrite E in *. apply (skip_reads _ v a r s); [|done]. unfold v. apply fits_list; [unfold zlen; by rewrite length_map|unfold TC_STRUCT; lia|].
  apply List.Forall_map, list.Forall_forall. intros x _. split; [done|]. apply fits_struct. apply Forall_cons_2; [|apply Forall_nil_2]. split; [cbn [fst]; lia|apply fits_empty].
Qed.

Record footer_fits (tops : list TopColumn) (leaves : list PqLeaf) (total : Z) (rgs : list PqWriteGroup) : Prop := {
  ff_tops : 0 < zlen tops < 2 ^ 31;
  ff_leaves : zlen leaves < 2 ^ 31;
  ff_elems : 72 * (1 + foldr Z.add 0 (map schema_count_for_top tops)) <= MaxAllocSize;
  ff_total : - 2 ^ 63 <= total < 2 ^ 63;
  ff_groups : 32 * Z.max (zlen rgs) 1 <= MaxAllocSize;
  ff_group : Forall (group_wf leaves) rgs }.

Lemma named els : Forall (fun e => sc_name e <> None /\ 0 <= sc_num_children e /\ 0 <= sc_repetition e <= 2) els ->
  existsb (fun e => match sc_name e with None => true | Some _ => false end) els = false /\ List.find (fun e => sc_num_children e <? 0) els = None.
Proof using.
  induction 1 as [|e els (H1 & H2 & _) Hels [IH1 IH2]]; [done|]. cbn [existsb List.find]. rewrite (proj2 (Z.ltb_ge _ _)) by done. by destruct (sc_name e).
Qed.

Lemma top_schema_named tc seg : Forall (fun e => sc_name e <> None /\ 0 <= sc_num_children e /\ 0 <= sc_repetition e <= 2) (top_schema tc seg).
Proof using.
  assert (Hs : Forall (fun e => sc_name e <> None /\ 0 <= sc_num_children e /\ 0 <= sc_repetition e <= 2) (map leaf_schema seg)) by (apply List.Forall_map, list.Forall_forall; intros c _; split; [done|]; cbn; lia).
  destruct tc; cbn [top_schema]; repeat (apply Forall_cons_2; [split; [done|]; cbn; lia|]); done.
Qed.

Lemma footer_read cols tops leaves total rgs : Forall (fun '(name, ty) => column_ok name ty) cols -> build_columns cols [] = Ok (tops, leaves) -> footer_fits tops leaves total rgs ->
  exists bs els, write_footer tops leaves total rgs = Ok bs /\ (bytes_ok bs -> zlen bs < 2 ^ 62 -> parse_file_metadata stk bs = Ok (file_of tops els leaves total rgs, true)) /\
    Forall (fun e => sc_name e <> None /\ 0 <= sc_num_children e /\ 0 <= sc_repetition e <= 2) els.
Proof using.
  intros Hok Hb [F1 F2 F3 F4 F5 F6]. destruct (columns_schema cols [] tops leaves [] Hb Hok) as (segs & bss & -> & H2 & H3 & [H4 H4'] & H5). rewrite app_nil_r in H3. cbn [app] in *.
  set (leaves := concat segs) in *. set (els := concat (zip_with top_schema tops segs)) in *. unfold write_footer. cbv zeta. rewrite H3, bind_Ok. eexists _, els. split; [reflexivity|].
  assert (Hels : Forall (fun e => sc_name e <> None /\ 0 <= sc_num_children e /\ 0 <= sc_repetition e <= 2) els).
  { unfold els. apply Forall_concat. apply list.Forall_forall. intros x Hx. apply elem_of_zip_with in Hx as (tc & seg & -> & _). apply top_schema_named. }
  split; [|done]. intros Hbs Hlen. set (bs := struct_bytes 0 _) in *. unfold parse_file_metadata. set (root := schema_group name_schema 0 (zlen tops) (-1)).
  assert (Hz : 1 + foldr Z.add 0 (map schema_count_for_top tops) = zlen (root :: els)) by (rewrite zlen_cons, <- H5; unfold zlen; by rewrite (Forall2_length H4)).
  assert (Hr : here (mkReader bs 0 false) (bs ++ [])) by (rewrite app_nil_r; split; [done|]; split; [done|]; split; [done|]; by exists []).
  set (pf := mkFile (root :: els) [] 0 (map (group_of leaves) rgs) true true total None).
  rewrite (parse_struct_reads _ _ file0 pf _ [] ) with (2 := Hr).
  2:{ eapply consumes_cons; [field_id|intros r s Hh; apply (skip_i32 (S (S (S (S k)))) 1 file0 r s); [lia|done]|].
      eapply consumes_cons; [field_id| |].
      { intros r s Hh. unfold file_field. cbn [Z.eqb Pos.eqb]. change (TC_LIST =? TC_LIST) with true. cbn [andb]. cbv iota. rewrite Hz in *.
        change (write_schema_element_root (zlen tops) ++ concat bss) with (concat (write_schema_element_root (zlen tops) :: bss)) in *.
        rewrite (parse_list_reads 72 TC_STRUCT (parse_schema_element stk) (write_schema_element_root (zlen tops) :: bss) (root :: els) r s); [rewrite bind_Ok; reflexivity| | |unfold TC_STRUCT; lia|lia| |exact Hh].
        - constructor; [apply schema_root_read; lia|done].
        - constructor; [apply struct_bytes_ge1|done].
        - pose proof (zlen_nonneg els). rewrite Z.max_l by (rewrite zlen_cons; lia). done. }
      eapply consumes_cons; [field_id|intros r s Hh; apply (int64_reads pf_set_rows _ total r s); done|].
      eapply consumes_cons; [field_id| |].
      { intros r s Hh. unfold file_field. cbn [Z.eqb Pos.eqb]. change (TC_LIST =? TC_LIST) with true. cbn [andb]. cbv iota.
        assert (El : zlen (map (write_row_group leaves) rgs) = zlen (map (group_of leaves) rgs)) by (unfold zlen; by rewrite !length_map). rewrite El in *.
        rewrite (parse_list_reads 32 TC_STRUCT (fun r => parse_struct (group_field stk) r (mkRowGroup 0 false None)) (map (write_row_group leaves) rgs) (map (group_of leaves) rgs) r s);
          [rewrite bind_Ok; reflexivity| | |unfold TC_STRUCT; lia|lia| |exact Hh].
        - clear -F6. induction F6 as [|g rgs Hg _ IH]; constructor; [by apply row_group_read|done].
        - apply List.Forall_map, list.Forall_forall. intros g _. apply struct_bytes_ge1.
        - replace (zlen (map (group_of leaves) rgs)) with (zlen rgs) by (unfold zlen; by rewrite length_map). done. }
      eapply consumes_cons; [field_id|intros r s Hh; apply (skip_reads stk (VBinary created_by) _ r s); [vm_compute; reflexivity|exact Hh]|].
      apply consumes_one; [field_id|]. intros r s Hh. exact (skip_orders (S k) pf leaves r s F2 Hh). }
  rewrite bind_Ok. change (pf_elems pf) with (root :: els). cbv iota beta. change (tc_error (adv (mkReader bs 0 false) (zlen bs))) with false. cbv iota.
  destruct (named (root :: els)) as [N1 N2]; [apply Forall_cons_2; [split; [done|]; cbn; lia|done]|]. rewrite N1, N2.
  pose proof (zlen_nonneg els). rewrite palloc_ok_Ok, bind_Ok by (rewrite Z.max_l by (rewrite zlen_cons; lia); rewrite Hz in F3; unfold MaxAllocSize in *; lia).
  destruct (walk_tops (S (S k)) tops segs H2 (root :: els) [root] (S (length (root :: els))) 0 []) as [cur Ew]; [done| |].
  { assert (zlen tops <= zlen els); [|unfold zlen in *; cbn [length]; lia]. unfold els. clear -H2. induction H2 as [|tc seg tops segs [Hne _] _ IH]; [done|].
    cbn [zip_with concat]. rewrite zlen_cons, zlen_app. assert (1 <= zlen (top_schema tc seg)); [|lia]. destruct tc, seg; try done; cbn [top_schema map]; rewrite zlen_cons; pose proof (zlen_nonneg (map leaf_schema seg)); rewrite ?zlen_cons; lia. }
  rewrite Z.add_0_l in Ew. change (length [root]) with 1%nat in Ew. change (sc_num_children root) with (zlen tops). change stk with (S (S (S (S (S k))))). rewrite Ew, bind_Ok. cbn [app]. unfold file_of. fold root. fold leaves.
  rewrite (proj2 (Z.ltb_lt _ _)); [done|]. assert (zlen tops <= zlen leaves); [|unfold zlen; rewrite length_map; unfold zlen in *; lia].
  unfold leaves. clear -H2. induction H2 as [|tc seg tops segs [Hne _] _ IH]; [done|]. cbn [concat]. rewrite zlen_cons, zlen_app.
  destruct seg; [done|]. rewrite zlen_cons. pose proof (zlen_nonneg seg). lia.
Qed.
End Written.
