(* ===== verification/ParquetFile.v ===== *)
(** * Parquet files

    Writing a table's rows as a file and reading a file's rows: [pq_entry_bytes],
    [pq_row_bytes], [pq_group_bytes], [pq_flush_row_group] and
    [PgColumnarWriteParquetFileWith] of [columnar_parquet.c];
    [pq_source_open_cfg], [build_imp_targets], [build_imp_targets_by_field_id],
    [pq_read_rows] and [pq_read_file_into] of [columnar_parquet_reader.c].  The
    rows to write come from the table's scan, the rows read go to a sink; the
    writes to the sink and the reads of the source move bytes and cannot fail. *)

From S2P Require Import Prelude Compress Thrift ParquetCodec ParquetLevels ParquetTypes ParquetValues ParquetPage ParquetRows ParquetMeta.

(** The size of an array value, [ARR_SIZE]. *)
Class PgArrays `{PgTypes} : Type := { ARR_SIZE : list (option datum) -> Z }.

(** ** Row group sizes *)

Definition PARQUET_ROWGROUP_ROWS : Z := 65536.

Definition pq_value_width (c : PqLeaf) : Z :=
  match kind c with
  | P_BOOL => 1
  | P_INT16 | P_INT32 | P_FLOAT | P_DATE => 4
  | P_INT64 | P_DOUBLE | P_TIME | P_TIMESTAMP => 8
  | P_UUID => UUID_LEN
  | P_DECIMAL => 16
  | P_UTF8 | P_BINARY => 0
  end.

Section Writer.
Context `{T : PgTypes} `{A : !PgArrays}.

Definition pq_entry_bytes (c : PqLeaf) (o : option datum) : res Z :=
  let bytes := if 0 <? max_rep c then 2 else 1 in
  match o with
  | None => Ok bytes
  | Some d =>
      if 0 <? pq_value_width c then Ok (bytes + pq_value_width c)
      else if convertText c then str ← OutputFunctionCall d; Ok (bytes + (4 + zlen str))
      else bs ← get_bytes d; Ok (bytes + (4 + (zlen bs + VARHDRSZ) - VARHDRSZ))
  end.

Fixpoint entries_bytes (c : PqLeaf) (elems : list (option datum)) : res Z :=
  match elems with
  | [] => Ok 0
  | e :: elems => b ← pq_entry_bytes c e; rest ← entries_bytes c elems; Ok (b + rest)
  end.

Fixpoint fields_bytes (leaves : list PqLeaf) (fl : list (option (nat * list Z))) (fields : option (list (option datum))) : res Z :=
  match fl with
  | [] => Ok 0
  | li :: fl =>
      ' (f, rest) ← match fields with None => Ok (None, None) | Some [] => Oob | Some (f :: fs) => Ok (f, Some fs) end;
      b ← match li with
          | None => Ok 0
          | Some (i, _) => match leaves !! i with Some c => pq_entry_bytes c f | None => Oob end
          end;
      bs ← fields_bytes leaves fl rest;
      Ok (b + bs)
  end.

Definition top_bytes (leaves : list PqLeaf) (tc : TopColumn) (v : option coldatum) : res Z :=
  match tc with
  | TOP_SCALAR _ i =>
      match leaves !! i, v with
      | Some c, None => pq_entry_bytes c None
      | Some c, Some (AScalar d) => pq_entry_bytes c (Some d)
      | _, _ => Oob
      end
  | TOP_LIST _ i =>
      match leaves !! i, v with
      | Some c, None => Ok 2
      | Some c, Some (AArray _ _ elems) =>
          let n := zlen elems in
          if n =? 0 then Ok 2
          else if 0 <? pq_value_width c then Ok (n * (2 + pq_value_width c))
          else if negb (convertText c) then Ok (n * (2 + 4) + ARR_SIZE elems)
          else entries_bytes c elems
      | _, _ => Oob
      end
  | TOP_STRUCT _ _ _ fl =>
      match v with
      | None => fields_bytes leaves fl None
      | Some (ARow fields) => fields_bytes leaves fl (Some fields)
      | Some _ => Oob
      end
  end.

Fixpoint pq_row_bytes (tops : list TopColumn) (leaves : list PqLeaf) (row : list (option coldatum)) : res Z :=
  match tops, row with
  | [], _ => Ok 0
  | tc :: tops, v :: row => b ← top_bytes leaves tc v; bs ← pq_row_bytes tops leaves row; Ok (b + bs)
  | _ :: _, [] => Oob
  end.

Definition leaf_bytes (c : PqLeaf) : Z := zlen (defs c) + zlen (reps c) + zlen (values c) + zlen (boolbits c).
Definition pq_group_bytes (leaves : list PqLeaf) : Z := foldr Z.add 0 (map leaf_bytes leaves).

(** ** Writing a file *)

(** The bytes handed to the sink, the offset, the leaves, the rows of the open
    group, the groups written and the rows written. *)
Record WriteState := mkWrite { ws_out : list Z; ws_offset : Z; ws_leaves : list PqLeaf; ws_groupRows : Z; ws_rgs : list PqWriteGroup; ws_total : Z }.

(** The pages of the leaves: bytes, columns of the group and their size. *)
Fixpoint flush_leaves (leaves : list PqLeaf) (offset : Z) : res (list Z * list PqColMeta * Z) :=
  match leaves with
  | [] => Ok ([], [], 0)
  | c :: leaves =>
      body ← build_leaf_body c;
      let ph := write_page_header (nEntries c) (s32 (zlen body)) in
      let size := zlen ph + zlen body in
      ' (out, cols, total) ← flush_leaves leaves (offset + size);
      Ok (ph ++ body ++ out, mkColMeta offset size (nEntries c) (st c) :: cols, size + total)
  end.

Definition pq_flush_row_group (ws : WriteState) : res WriteState :=
  ' (out, cols, total) ← flush_leaves (ws_leaves ws) (ws_offset ws);
  Ok (mkWrite (ws_out ws ++ out) (ws_offset ws + total) (map pqleaf_reset (ws_leaves ws)) 0 (ws_rgs ws ++ [mkWriteGroup (ws_groupRows ws) total cols]) (ws_total ws)).

(** A row: cut before it by bytes, shred it, flush when the group is full. *)
Definition write_row (cap : Z) (tops : list TopColumn) (ws : WriteState) (row : list (option coldatum)) : res WriteState :=
  cut ← (if 0 <? ws_groupRows ws then b ← pq_row_bytes tops (ws_leaves ws) row; Ok (cap <? pq_group_bytes (ws_leaves ws) + b) else Ok false);
  ws ← (if cut : bool then pq_flush_row_group ws else Ok ws);
  leaves ← shred_row tops (ws_leaves ws) row;
  let ws := mkWrite (ws_out ws) (ws_offset ws) leaves (ws_groupRows ws + 1) (ws_rgs ws) (ws_total ws + 1) in
  if ws_groupRows ws =? PARQUET_ROWGROUP_ROWS then pq_flush_row_group ws else Ok ws.

Fixpoint write_rows (cap : Z) (tops : list TopColumn) (ws : WriteState) (rows : list (list (option coldatum))) : res WriteState :=
  match rows with
  | [] => if 0 <? ws_groupRows ws then pq_flush_row_group ws else Ok ws
  | row :: rows => ws ← write_row cap tops ws row; write_rows cap tops ws rows
  end.

Definition PAR1 : list Z := [80; 65; 82; 49].

(** The attributes of a tuple descriptor: name and type, [None] when dropped. *)
Fixpoint live_columns (atts : list (option (list Z * coltype))) : res (list (list Z * coltype)) :=
  match atts with
  | [] => Ok []
  | None :: _ => Err "columnar parquet export does not support dropped columns"
  | Some a :: atts => l ← live_columns atts; Ok (a :: l)
  end.

(** The bytes of the file and the number of rows; [cap] is the setting
    [pgcolumnar.export_group_bytes]. *)
Definition PgColumnarWriteParquetFileWith (cap : Z) (atts : list (option (list Z * coltype))) (rows : list (list (option coldatum))) : res (list Z * Z) :=
  cols ← live_columns atts;
  ' (tops, leaves) ← build_columns cols [];
  ws ← write_rows cap tops (mkWrite PAR1 4 leaves 0 [] 0) rows;
  fmd ← write_footer tops (ws_leaves ws) (ws_total ws) (ws_rgs ws);
  fmd ← appendBinaryStringInfo [] fmd;
  Ok (ws_out ws ++ fmd ++ le_bytes 4 (zlen fmd) ++ PAR1, ws_total ws).
End Writer.

(** ** Opening a file *)

(** The source and its parsed footer. *)
Definition pq_source_open_cfg (stack : nat) (src : PqSource) : res PqFile :=
  if src_len src <? 12 then Err "is not a Parquet file"
  else
    head ← pq_source_read src 0 4;
    tail ← pq_source_read src (src_len src - 8) 8;
    if negb (bool_decide (head = PAR1)) || negb (bool_decide (drop 4 tail = PAR1)) then Err "is not a Parquet file (bad magic)"
    else
      let metalen := le_uint (take 4 tail) in
      if (src_len src <? metalen + 8) || (MaxAllocSize <? metalen) then Err "has a corrupt Parquet footer"
      else
        meta ← pq_source_read src (src_len src - 8 - metalen) metalen;
        ' (pf, ok) ← parse_file_metadata stack meta;
        if negb ok then
          match pf_bad_children pf with
          | Some _ => Err "Parquet file has a malformed schema"
          | None => Err "could not parse (unsupported or corrupt Parquet metadata)"
          end
        else
          match pq_bad_repetition pf with
          | Some _ => Err "Parquet file has a malformed schema"
          | None => Ok pf
          end.

(** ** Binding columns *)

Section Bind.
Context `{T : PgTypes} `{TC : !TypmodCoercion}.

Definition pq_leaf_sc (pf : PqFile) (lf : nat) : option PqSchemaCol := match pf_leaves pf !! lf with Some li => Some (li_sc li) | None => None end.

(** A leaf of the reader before it is decoded. *)
Definition bound_leaf (typid typmod want : Z) (li : PqLeafInfo) : ImpLeaf :=
  let plan := pq_plan_bind_schema typid want (li_sc li) in
  mkImp plan (pq_plan_set_typmod plan typmod (li_sc li)) (li_max_def li) (li_max_rep li) [] [] [] 0 0.

(** The checks every leaf has, in their order; [rep_ok] is the check of its
    repetition levels. *)
Definition bind_leaf (pf : PqFile) (lf : nat) (typid typmod : Z) (rep_ok : Z -> bool) : res ImpLeaf :=
  let want := pq_want_phys_for typid (pq_leaf_sc pf lf) in
  if want <? 0 then Err "column has a type which is not supported"
  else
    match pf_leaves pf !! lf with
    | None => Err "Parquet file has fewer columns than the target table"
    | Some li =>
        if negb (rep_ok (li_max_rep li)) then Err "Parquet column does not have the repetition of the target column"
        else if negb (sc_phys_type (li_sc li) =? want) then Err "Parquet column has an incompatible physical type"
        else Ok (bound_leaf typid typmod want li)
    end.

Fixpoint bind_fields (pf : PqFile) (fields : list (option (list Z * Z * Z))) (lf : nat) : res (list (option nat) * list ImpLeaf) :=
  match fields with
  | [] => Ok ([], [])
  | None :: fields => ' (fl, ls) ← bind_fields pf fields lf; Ok (None :: fl, ls)
  | Some (_, typid, typmod) :: fields =>
      l ← bind_leaf pf lf typid typmod (fun r => r =? 0);
      ' (fl, ls) ← bind_fields pf fields (S lf);
      Ok (Some lf :: fl, l :: ls)
  end.

(** One attribute: its column and its leaves, from leaf [lf] on. *)
Definition bind_column (pf : PqFile) (i lf : nat) (ty : coltype) : res (ImpTop * list ImpLeaf) :=
  match ty with
  | CArray elemtype typmod => l ← bind_leaf pf lf elemtype typmod (fun r => r =? 1); Ok (IMP_LIST i lf, [l])
  | CComposite fields => ' (fl, ls) ← bind_fields pf fields lf; Ok (IMP_STRUCT i lf (length ls) fl, ls)
  | CScalar typid typmod => l ← bind_leaf pf lf typid typmod (fun r => r =? 0); Ok (IMP_SCALAR i lf, [l])
  end.

(** The loop over the attributes; [skipAtt] are the columns the file does not
    carry. *)
Fixpoint bind_columns (pf : PqFile) (atts : list (option (list Z * coltype))) (skipAtt : option (list bool)) (i lf : nat) : res (list ImpTop * list ImpLeaf) :=
  match atts with
  | [] => Ok ([], [])
  | att :: atts =>
      ' (skip, rest) ← match skipAtt with None => Ok (false, None) | Some [] => Oob | Some (b :: bs) => Ok (b, Some bs) end;
      match att with
      | Some (_, ty) =>
          if skip : bool then bind_columns pf atts rest (S i) lf
          else
            ' (t, ls) ← bind_column pf i lf ty;
            ' (ts, ls') ← bind_columns pf atts rest (S i) (lf + length ls);
            Ok (t :: ts, ls ++ ls')
      | None => bind_columns pf atts rest (S i) lf
      end
  end.

Definition build_imp_targets (pf : PqFile) (atts : list (option (list Z * coltype))) (skipAtt : option (list bool)) : res (list ImpTop * list ImpLeaf) :=
  ' (tops, leaves) ← bind_columns pf atts skipAtt 0 0;
  if negb (length leaves =? length (pf_leaves pf))%nat then Err "Parquet file has another number of leaf columns than the target table"
  else Ok (tops, leaves).

(** ** Binding by field id *)

(** The id of a leaf: its own, or for a top-level leaf without one the id the name
    mapping [nm] gives its name, unless another leaf carries that id itself. *)
Definition eff_id (pf : PqFile) (nm : list (list Z * Z)) (li : PqLeafInfo) : Z :=
  let own := sc_field_id (li_sc li) in
  if (0 <=? own) || negb (li_depth li =? 1) then own
  else
    match sc_name (li_sc li) with
    | None => own
    | Some name =>
        match List.find (fun kv => bool_decide (kv.1 = name)) nm with
        | None => own
        | Some (_, id) => if existsb (fun lj => sc_field_id (li_sc lj) =? id) (pf_leaves pf) then own else id
        end
    end.

(** The indexes of the leaves with id [req]. *)
Fixpoint leaves_with (ids : list Z) (req : Z) (j : nat) : list nat :=
  match ids with [] => [] | id :: ids => if id =? req then j :: leaves_with ids req (S j) else leaves_with ids req (S j) end.

Definition imp0 : ImpLeaf := mkImp (mkPlan 0 0 0 0 0 false false 0) None 0 0 [] [] [] 0 0.

(** One attribute with the id [req]: [None] when it reads as null. *)
Definition bind_field_id (pf : PqFile) (ids : list Z) (missing_as_null : bool) (used : list nat) (i : nat) (req : Z) (ty : coltype) : res (option (ImpTop * ImpLeaf)) :=
  match ty with
  | CScalar typid typmod =>
      match leaves_with ids req 0 with
      | [] =>
          if existsb (fun g => (0 <? sc_num_children g) && (0 <=? sc_field_id g) && (sc_field_id g =? req)) (tl (pf_elems pf)) then Err "field id is a nested column"
          else if missing_as_null then Ok None
          else Err "no Parquet column has the field id"
      | [found] =>
          if existsb (Nat.eqb found) used then Err "field id is requested more than once"
          else
            match pf_leaves pf !! found with
            | None => Oob
            | Some li =>
                if negb (li_max_rep li =? 0) then Err "Parquet column with the field id is repeated"
                else
                  let want := pq_want_phys_for typid (Some (li_sc li)) in
                  if want <? 0 then Err "output column has a type which is not supported"
                  else
                    let want := if pq_field_id_widens (li_sc li) typid then sc_phys_type (li_sc li) else want in
                    if negb (sc_phys_type (li_sc li) =? want) then Err "Parquet column with the field id has an incompatible physical type"
                    else Ok (Some (IMP_SCALAR i found, bound_leaf typid typmod want li))
            end
      | _ => Err "field id is not unique among the Parquet file's columns"
      end
  | _ => Err "field-id projection supports only scalar columns"
  end.

Fixpoint bind_field_ids (pf : PqFile) (ids : list Z) (missing_as_null : bool) (atts : list (option (list Z * coltype))) (field_ids : list Z) (i : nat) (tops : list ImpTop) (leaves : list ImpLeaf) :
    res (list ImpTop * list ImpLeaf) :=
  match atts with
  | [] => Ok (tops, leaves)
  | None :: atts => bind_field_ids pf ids missing_as_null atts field_ids (S i) tops leaves
  | Some (_, ty) :: atts =>
      match field_ids with
      | [] => Oob
      | req :: field_ids =>
          o ← bind_field_id pf ids missing_as_null (map it_firstLeaf tops) i req ty;
          match o with
          | None => bind_field_ids pf ids missing_as_null atts field_ids (S i) tops leaves
          | Some (t, l) => bind_field_ids pf ids missing_as_null atts field_ids (S i) (tops ++ [t]) (<[it_firstLeaf t := l]> leaves)
          end
      end
  end.

Definition build_imp_targets_by_field_id (pf : PqFile) (atts : list (option (list Z * coltype))) (field_ids : list Z) (nm : list (list Z * Z)) (missing_as_null : bool) :
    res (list ImpTop * list ImpLeaf) :=
  let ids := map (eff_id pf nm) (pf_leaves pf) in
  if negb (existsb (fun id => 0 <=? id) ids) then Err "the Parquet file carries no field ids; it cannot be read by field id"
  else if negb (length (filter (fun a => a <> None) atts) =? length field_ids)%nat then Err "field_ids and the column definition list have another number of elements"
  else bind_field_ids pf ids missing_as_null atts field_ids 0 [] (replicate (length (pf_leaves pf)) imp0).

(** ** Reading rows *)

Definition nth_need (needTop : option (list bool)) (t : nat) : bool := match needTop with None => true | Some bs => nth t bs false end.

(** A leaf is decoded when a column that is needed reads it. *)
Definition need_leaf (tops : list ImpTop) (needTop : option (list bool)) (i : nat) : bool :=
  existsb (fun '(t, top) => nth_need needTop t && (it_firstLeaf top <=? i)%nat && (i <? it_firstLeaf top + it_nleaves top)%nat) (imap pair tops).

Definition with_entries (l : ImpLeaf) (defs reps : list Z) (vals : list datum) : ImpLeaf :=
  mkImp (im_plan l) (im_coerce l) (im_max_def l) (im_max_rep l) defs reps vals 0 0.

(** Position deletes: whether the row is deleted, and the positions yet to come. *)
Fixpoint skip_to (skipPos : list Z) (ord : Z) : bool * list Z :=
  match skipPos with
  | [] => (false, [])
  | p :: rest => if p <? ord then skip_to rest ord else if p =? ord then (true, rest) else (false, p :: rest)
  end.

(** Values that are the same for every row of the file, over an empty slot. *)
Definition fresh_slot (natts : nat) (consts : option (list (option (option coldatum)))) : list (option coldatum) :=
  match consts with
  | None => replicate natts None
  | Some cs => map (fun c => match c with Some v => v | None => None end) cs
  end.

Section ReadRows.
Context `{C : BlockCodecs} `{ZL : Zlib} (stack : nat) (buffered : bool).
Context {S : Type} (sink : S -> list (option coldatum) -> res S).

(** [palloc(sizeof(T) * n)] in [size_t]: how many slots of [width] bytes the
    allocation holds. *)
Definition palloc_slots (width n : Z) : res Z :=
  let sz := u64 (width * n) in
  _ ← palloc_ok sz;
  Ok (sz / width).

(** The chunks of a row group that are needed. *)
Fixpoint decode_group (src : PqSource) (tops : list ImpTop) (needTop : option (list bool)) (i : nat) (leaves : list ImpLeaf) (chunks : list PqChunk) : res (PqSource * list ImpLeaf) :=
  match leaves with
  | [] => Ok (src, [])
  | l :: leaves =>
      match chunks with
      | [] => Oob
      | ch :: chunks =>
          ' (src, l) ← (if need_leaf tops needTop i then
                          let cap := Z.max (ch_num_values ch) 1 in
                          lcap ← palloc_slots 4 cap;
                          vcap ← palloc_slots 8 cap;
                          ' (src, o) ← decode_leaf_entries stack buffered src ch (im_plan l) (im_max_def l) (im_max_rep l) lcap vcap;
                          match o with
                          | None => Err "could not decode Parquet column in row group"
                          | Some (defs, reps, vals) => Ok (src, with_entries l defs reps vals)
                          end
                        else Ok (src, l));
          ' (src, ls) ← decode_group src tops needTop (Datatypes.S i) leaves chunks;
          Ok (src, l :: ls)
      end
  end.

(** The rows of a group, [n] of them from file ordinal [ord] on. *)
Fixpoint group_rows (n : nat) (tops : list ImpTop) (needTop : option (list bool)) (natts : nat) (consts : option (list (option (option coldatum)))) (ord : Z) (leaves : list ImpLeaf)
    (skipPos : option (list Z)) (s : S) (total : Z) : res (option (list Z) * S * Z) :=
  match n with
  | O => Ok (skipPos, s, total)
  | Datatypes.S n =>
      let '(deleted, rest) := match skipPos with None => (false, None) | Some l => let '(d, l) := skip_to l ord in (d, Some l) end in
      ' (slot, leaves) ← assemble_row tops needTop leaves (fresh_slot natts consts) deleted;
      ' (s, total) ← (if deleted : bool then Ok (s, total) else s ← sink s slot; Ok (s, total + 1));
      group_rows n tops needTop natts consts (ord + 1) leaves rest s total
  end.

(** The row groups [rgs], the first of them at file ordinal [grpBase]. *)
Fixpoint read_groups (src : PqSource) (rgs : list PqRowGroup) (skipGroup : option (list bool)) (tops : list ImpTop) (leaves : list ImpLeaf) (needTop : option (list bool)) (natts : nat)
    (consts : option (list (option (option coldatum)))) (grpBase : Z) (skipPos : option (list Z)) (s : S) (total : Z) : res (S * Z) :=
  match rgs with
  | [] => Ok (s, total)
  | g :: rgs =>
      let skip := match skipGroup with Some (true :: _) => true | _ => false end in
      let rest := match skipGroup with Some l => Some (tl l) | None => None end in
      if skip : bool then read_groups src rgs rest tops leaves needTop natts consts (grpBase + rg_num_rows g) skipPos s total
      else
        ' (src, ls) ← match rg_chunks g with Some chunks => decode_group src tops needTop 0 leaves chunks | None => Oob end;
        ' (skipPos, s, total) ← group_rows (Z.to_nat (rg_num_rows g)) tops needTop natts consts grpBase ls skipPos s total;
        read_groups src rgs rest tops leaves needTop natts consts (grpBase + rg_num_rows g) skipPos s total
  end.

Definition pq_read_rows (pf : PqFile) (src : PqSource) (tops : list ImpTop) (leaves : list ImpLeaf) (natts : nat) (skipGroup : option (list bool)) (needTop : option (list bool))
    (consts : option (list (option (option coldatum)))) (rgFrom rgTo : nat) (skipPos : option (list Z)) (s : S) : res (S * Z) :=
  read_groups src (take (rgTo - rgFrom) (drop rgFrom (pf_rgs pf))) (match skipGroup with Some l => Some (drop rgFrom l) | None => None end) tops leaves needTop natts consts 0 skipPos s 0.

(** [field_ids] for a read by field id, with the name mapping and whether an id
    the file lacks reads as null. *)
Definition pq_read_file_into (src : PqSource) (atts : list (option (list Z * coltype))) (field_ids : option (list Z * list (list Z * Z) * bool)) (needTop : option (list bool))
    (skipPos : option (list Z)) (s : S) : res (S * Z) :=
  pf ← pq_source_open_cfg stack src;
  _ ← pq_check_row_groups pf;
  ' (tops, leaves) ← match field_ids with
                     | Some (ids, nm, missing_as_null) => build_imp_targets_by_field_id pf atts ids nm missing_as_null
                     | None => build_imp_targets pf atts None
                     end;
  pq_read_rows pf src tops leaves (length atts) None needTop None 0 (length (pf_rgs pf)) skipPos s.
End ReadRows.
End Bind.

(** A count that an allocation can hold does not wrap. *)
Lemma palloc_slots_Ok width n : 0 < width <= 8 -> 0 <= n <= MaxAllocSize / 8 -> palloc_slots width n = Ok n.
Proof.
  intros Hw Hn. unfold palloc_slots. change (MaxAllocSize / 8) with 134217727 in Hn. rewrite u64_small by nia. rewrite palloc_ok_Ok by (unfold MaxAllocSize; nia).
  rewrite bind_Ok, Z.mul_comm, Z.div_mul by lia. done.
Qed.

(** ** The estimate of a row bounds what it adds *)

(** The stored elements of an array are not compressed: their bytes are part of
    its size. *)
Definition datum_len {T : PgTypes} (o : option datum) : Z := match o with Some (DBytes bs) => zlen bs | _ => 0 end.

Class PgArraysLaws `(A : PgArrays) : Prop := { arr_size_ge : forall elems, foldr Z.add 0 (map datum_len elems) <= ARR_SIZE elems }.

Section Estimate.
Context `{T : PgTypes} `{A : !PgArrays} `{AL : !PgArraysLaws A}.
Abbreviation entry := (Z * Z * option datum)%type.

Definition sum (l : list Z) : Z := foldr Z.add 0 l.

Lemma sum_costs_app l1 l2 : sum (l1 ++ l2) = sum l1 + sum l2.
Proof using. unfold sum. induction l1 as [|x l1 IH]; cbn [app foldr]; lia. Qed.

(** What an entry adds to the buffers of its leaf. *)
Definition entry_cost (c : PqLeaf) (e : entry) : Z :=
  (if 0 <? max_rep c then 2 else 1) + match kept c e.2 with Some d => zlen (plain_bytes c d) + zlen (bool_bytes c d) | None => 0 end.

Lemma leaf_puts_bytes es : forall c, leaf_bytes (leaf_puts c es) = leaf_bytes c + sum (map (entry_cost c) es).
Proof using.
  induction es as [|[[def rep] o] es IH]; intros c; [cbn; lia|]. change (leaf_puts c ((def, rep, o) :: es)) with (leaf_puts (leaf_put c def rep o) es). rewrite IH.
  change (map (entry_cost (leaf_put c def rep o)) es) with (map (entry_cost c) es). cbn [map sum foldr]. fold (sum (map (entry_cost c) es)).
  unfold leaf_bytes, leaf_put, entry_cost. cbn [with_data defs reps values boolbits fst snd]. rewrite zlen_app. change (zlen [kept_def c def o]) with 1.
  destruct (0 <? max_rep c); [rewrite zlen_app; change (zlen [rep]) with 1|]; (destruct (kept c o) as [d|]; [rewrite !zlen_app|]; lia).
Qed.

Lemma value_cost c d : value_ok c d ->
  (0 < pq_value_width c /\ zlen (plain_bytes c d) + zlen (bool_bytes c d) <= pq_value_width c) \/
  (pq_value_width c = 0 /\ convertText c = false /\ exists bs, d = DBytes bs /\ zlen (plain_bytes c d) + zlen (bool_bytes c d) = 4 + zlen bs) \/
  (pq_value_width c = 0 /\ convertText c = true /\ exists str, OutputFunctionCall d = Ok str /\ zlen (plain_bytes c d) + zlen (bool_bytes c d) = 4 + zlen str).
Proof using.
  unfold value_ok, pq_value_width, plain_bytes, bool_bytes, UUID_LEN. destruct (kind c); destruct d as [v|b|b|b|bs|n|j]; try done; intros Hv;
    try (left; split; [lia|]; rewrite zlen_le_bytes; change (zlen (@nil Z)) with 0; lia).
  - left. split; [lia|]. change (zlen (@nil Z)) with 0. unfold zlen. cbn [length]. lia.
  - right. left. split; [done|]. split; [tauto|]. exists bs. split; [done|]. rewrite zlen_app, zlen_le_bytes. change (zlen (@nil Z)) with 0. lia.
  - right. right. split; [done|]. split; [tauto|]. eexists. split; [reflexivity|]. rewrite zlen_app, zlen_le_bytes. change (zlen (@nil Z)) with 0. lia.
  - right. right. split; [done|]. split; [tauto|]. eexists. split; [reflexivity|]. rewrite zlen_app, zlen_le_bytes. change (zlen (@nil Z)) with 0. lia.
  - right. left. split; [done|]. split; [tauto|]. exists bs. split; [done|]. rewrite zlen_app, zlen_le_bytes. change (zlen (@nil Z)) with 0. lia.
  - left. split; [lia|]. destruct Hv as [_ ->]. change (zlen (@nil Z)) with 0. lia.
  - left. split; [lia|]. change (zlen (@nil Z)) with 0. destruct (text_to_int128 _ _); [unfold zlen; rewrite length_rev, length_le_bytes; lia|change (zlen (@nil Z)) with 0; lia].
Qed.

Lemma kept_value c o d : match o with Some d => datum_ok c d | None => True end -> kept c o = Some d -> o = Some d /\ value_ok c d.
Proof using.
  intros Ho Hk. pose proof (kept_same _ _ _ Hk) as ->. split; [done|]. destruct Ho as [Ho|Ho]; [done|]. unfold kept in Hk. by rewrite Ho in Hk.
Qed.

Lemma unrepresentable_width c d : unrepresentable c d = true -> 0 < pq_value_width c.
Proof using. unfold unrepresentable, pq_value_width. by destruct (kind c). Qed.

Lemma entry_bytes_bound c def rep o : match o with Some d => datum_ok c d | None => True end ->
  exists b, pq_entry_bytes c o = Ok b /\ entry_cost c (def, rep, o) <= b.
Proof using.
  intros Ho. unfold pq_entry_bytes, entry_cost. cbn [snd]. cbv zeta. set (base := if 0 <? max_rep c then 2 else 1). destruct o as [d|]; [|exists base; split; [done|]; cbn; lia].
  destruct (kept c (Some d)) as [d'|] eqn:Ek.
  - destruct (kept_value c (Some d) _ Ho Ek) as [[= <-] Hv]. destruct (value_cost c d Hv) as [[Hw Hc]|[(Hw & Hct & bs & -> & Hc)|(Hw & Hct & str & Ho' & Hc)]].
    + rewrite (proj2 (Z.ltb_lt _ _)) by done. eexists. split; [done|]. lia.
    + rewrite (proj2 (Z.ltb_ge _ _)), Hct by lia. cbn [get_bytes]. rewrite bind_Ok. eexists. split; [done|]. lia.
    + rewrite (proj2 (Z.ltb_ge _ _)), Hct, Ho', bind_Ok by lia. eexists. split; [done|]. lia.
  - assert (Hu : unrepresentable c d = true) by (unfold kept in Ek; by destruct (unrepresentable c d)). pose proof (unrepresentable_width c d Hu).
    rewrite (proj2 (Z.ltb_lt _ _)) by done. eexists. split; [done|]. lia.
Qed.

(** The values of a list are all written by their text, all by their width or all by
    their length. *)
Lemma list_bytes_bound c k elems : Forall (fun o => match o with Some d => datum_ok c d | None => True end) elems ->
  let b := if 0 <? pq_value_width c then Ok (zlen elems * (2 + pq_value_width c)) else if negb (convertText c) then Ok (zlen elems * (2 + 4) + ARR_SIZE elems) else entries_bytes c elems in
  exists n, b = Ok n /\ sum (map (entry_cost c) (elem_entries k elems)) <= n.
Proof using AL.
  intros Hel. cbv zeta. assert (Hbase : (if 0 <? max_rep c then 2 else 1) <= 2) by (destruct (0 <? max_rep c); lia). destruct (Z.ltb_spec 0 (pq_value_width c)) as [Hw|Hw]; [|destruct (convertText c) eqn:Ec; cbn [negb]].
  - eexists. split; [done|]. revert k. induction Hel as [|o elems Ho Hel IH]; intros k; [unfold sum; cbn [elem_entries map foldr]; change (zlen (@nil (option datum))) with 0; lia|]. cbn [elem_entries map sum foldr]. fold (sum (map (entry_cost c) (elem_entries (S k) elems))).
    specialize (IH (S k)). rewrite zlen_cons. unfold entry_cost at 1. cbn [snd]. destruct (kept c o) as [d|] eqn:Ek; [|nia].
    destruct (kept_value c _ _ Ho Ek) as [_ Hv]. destruct (value_cost c d Hv) as [[_ Hc]|[(Hw0 & _)|(Hw0 & _)]]; [nia|lia|lia].
  - revert k. induction Hel as [|o elems Ho Hel IH]; intros k; cbn [entries_bytes elem_entries map sum foldr]; [exists 0; by split|].
    destruct (entry_bytes_bound c (match o with None => 2 | Some _ => 3 end) (match k with O => 0 | S _ => 1 end) o Ho) as (b & -> & Hb). rewrite bind_Ok.
    destruct (IH (S k)) as (n & -> & Hn). rewrite bind_Ok. eexists. split; [done|]. unfold sum in *. lia.
  - eexists. split; [done|]. pose proof (arr_size_ge elems) as Ha. assert (sum (map (entry_cost c) (elem_entries k elems)) <= zlen elems * 6 + sum (map datum_len elems)); [|unfold sum in *; lia].
    clear Ha. revert k. induction Hel as [|o elems Ho Hel IH]; intros k; [unfold sum; cbn [elem_entries map foldr]; change (zlen (@nil (option datum))) with 0; lia|]. cbn [elem_entries map sum foldr]. fold (sum (map (entry_cost c) (elem_entries (S k) elems))) (sum (map datum_len elems)).
    specialize (IH (S k)). rewrite zlen_cons. unfold entry_cost at 1. cbn [snd]. assert (0 <= datum_len o) by (destruct o as [[]|]; cbn; try lia; apply zlen_nonneg).
    destruct (kept c o) as [d|] eqn:Ek; [|lia]. destruct (kept_value c _ _ Ho Ek) as [-> Hv]. destruct (value_cost c d Hv) as [[Hw0 _]|[(_ & _ & bs & -> & Hc)|(_ & Hct & _)]]; [lia| |congruence]. cbn [datum_len] in *. lia.
Qed.

Definition costs (cs : list PqLeaf) (E : list (list entry)) : Z := sum (zip_with (fun c es => sum (map (entry_cost c) es)) cs E).

Lemma costs_cons c cs es E : costs (c :: cs) (es :: E) = sum (map (entry_cost c) es) + costs cs E.
Proof using. done. Qed.

Lemma costs_app c1 c2 e1 e2 : length c1 = length e1 -> costs (c1 ++ c2) (e1 ++ e2) = costs c1 e1 + costs c2 e2.
Proof using. intros Hl. unfold costs. by rewrite zip_with_app, sum_costs_app. Qed.

Lemma entry_datum c e : entry_ok c e -> match e.2 with Some d => datum_ok c d | None => True end.
Proof using. intros (_ & _ & Ho). destruct (e.2); [by destruct Ho|done]. Qed.

Lemma one_bytes c e : entry_ok c e -> exists b, pq_entry_bytes c e.2 = Ok b /\ sum (map (entry_cost c) [e]) <= b.
Proof using.
  intros He. destruct e as [[def rep] o]. destruct (entry_bytes_bound c def rep o (entry_datum _ _ He)) as (b & E & Hb). exists b. split; [done|]. cbn [map]. unfold sum. cbn [foldr]. lia.
Qed.

Lemma fields_bytes_bound fl : forall fields pre seg post, fields_from (length pre) fl -> match fields with None => True | Some fs => length fs = length fl end ->
  Forall2 entries_fit seg (field_entries fl fields) -> exists b, fields_bytes (pre ++ seg ++ post) fl fields = Ok b /\ costs seg (field_entries fl fields) <= b.
Proof using.
  induction fl as [|[[i name]|] fl IH]; intros fields pre seg post Hf Hs Hfit; cbn [fields_bytes field_entries fields_from] in *.
  - apply Forall2_nil_inv_r in Hfit as ->. by exists 0.
  - destruct Hf as [-> Hf]. set (f := match fields with None => None | Some fs => Some (hd None fs) end) in *. set (rest := match fields with None => None | Some fs => Some (tl fs) end) in *.
    apply Forall2_cons_inv_r in Hfit as (c & seg' & Hc & Hfit & ->). cbn [app].
    assert (Eb : match fields with None => Ok (None, None) | Some [] => Oob | Some (f :: fs) => Ok (f, Some fs) end = Ok ((field_entry f).2, rest)) by (destruct fields as [[|[] ]|]; done).
    rewrite Eb, bind_Ok. rewrite list_lookup_middle by done. apply Forall_cons_1 in Hc as [He _]. destruct (one_bytes c _ He) as (b & -> & Hb). rewrite bind_Ok.
    destruct (IH rest (pre ++ [c]) seg' post) as (b' & E' & Hb'); [by rewrite length_app, Nat.add_1_r|destruct fields as [[|]|]; cbn in *; congruence|done|].
    rewrite <- app_assoc in E'. cbn [app] in E'. rewrite E', bind_Ok. eexists. split; [done|]. rewrite costs_cons. lia.
  - assert (Eb : exists f, match fields with None => Ok (None, None) | Some [] => Oob | Some (f :: fs) => Ok (f, Some fs) end =
      Ok (f, match fields with None => None | Some fs => Some (tl fs) end)) by (destruct fields as [[|]|]; [done|by eexists..]).
    destruct Eb as [f ->]. rewrite !bind_Ok. destruct (IH (match fields with None => None | Some fs => Some (tl fs) end) pre seg post) as (b & -> & Hb);
      [done|destruct fields as [[|]|]; cbn in *; congruence|done|]. rewrite bind_Ok. exists b. by split.
Qed.

Lemma elems_datum c k elems : entries_fit c (elem_entries k elems) -> Forall (fun o => match o with Some d => datum_ok c d | None => True end) elems.
Proof using.
  revert k. induction elems as [|o elems IH]; intros k Hf; [constructor|]. cbn [elem_entries] in Hf. apply Forall_cons_1 in Hf as [He Hf]. constructor; [exact (entry_datum _ _ He)|by eapply IH].
Qed.

Lemma null_cost c def : sum (map (entry_cost c) [(def, 0, None)]) <= 2.
Proof using. cbn [map]. unfold sum, entry_cost. cbn [foldr snd kept]. destruct (0 <? max_rep c); lia. Qed.

Lemma top_bytes_bound tc v pre seg post : top_from (length pre) tc -> shaped tc v -> Forall2 entries_fit seg (top_entries tc v) ->
  exists b, top_bytes (pre ++ seg ++ post) tc v = Ok b /\ costs seg (top_entries tc v) <= b.
Proof using AL.
  intros Hf Hs Hfit. destruct tc as [name i|name i|name i n fl]; cbn [top_from top_bytes] in *.
  - subst i. destruct v as [[d| |]|]; try done; cbn [top_entries] in *; apply Forall2_cons_inv_r in Hfit as (c & seg' & Hc & Hfit & ->); apply Forall2_nil_inv_r in Hfit as ->; cbn [app];
      rewrite list_lookup_middle by done; apply Forall_cons_1 in Hc as [He _]; destruct (one_bytes c _ He) as (b & E & Hb); exists b; (split; [exact E|]); unfold costs; cbn [zip_with]; unfold sum at 1; cbn [foldr]; lia.
  - subst i. assert (Hnull : forall def, top_entries (TOP_LIST name (length pre)) v = [[(def, 0, None)]] -> exists c, seg = [c] /\ costs seg (top_entries (TOP_LIST name (length pre)) v) <= 2).
    { intros def Et. rewrite Et in *. apply Forall2_cons_inv_r in Hfit as (c & seg' & Hc & Hfit & ->). apply Forall2_nil_inv_r in Hfit as ->. exists c. split; [done|].
      unfold costs. cbn [zip_with]. unfold sum at 1. cbn [foldr]. pose proof (null_cost c def). lia. }
    destruct v as [[|ndim lb [|e elems]|]|]; try done.
    + destruct (Hnull 1 eq_refl) as (c & -> & Hc). cbn [app]. rewrite list_lookup_middle by done. exists 2. by split.
    + cbn [top_entries] in *. apply Forall2_cons_inv_r in Hfit as (c & seg' & Hc & Hfit & ->). apply Forall2_nil_inv_r in Hfit as ->. cbn [app]. rewrite list_lookup_middle by done.
      destruct (list_bytes_bound c 0 (e :: elems) (elems_datum _ _ _ Hc)) as (b & Eb & Hb). exists b. cbv zeta in Eb.
      assert (Hz : (zlen (e :: elems) =? 0) = false) by (apply Z.eqb_neq; rewrite zlen_cons; pose proof (zlen_nonneg elems); lia). rewrite Hz. split; [exact Eb|].
      unfold costs. cbn [zip_with]. unfold sum at 1. cbn [foldr]. lia.
    + destruct (Hnull 0 eq_refl) as (c & -> & Hc). cbn [app]. rewrite list_lookup_middle by done. exists 2. by split.
  - destruct Hf as (-> & _ & Hf). destruct v as [[| |fields]|]; try done; cbn [top_entries] in *; by apply fields_bytes_bound.
Qed.

Lemma row_bytes_bound tops : forall row pre seg, tops_from (length pre) tops -> Forall2 shaped tops row -> Forall2 entries_fit seg (row_entries tops row) ->
  exists b, pq_row_bytes tops (pre ++ seg) row = Ok b /\ costs seg (row_entries tops row) <= b.
Proof using AL.
  induction tops as [|tc tops IH]; intros row pre seg Hf Hs Hfit; cbn [pq_row_bytes].
  - apply Forall2_nil_inv_l in Hs as ->. cbn in Hfit. apply Forall2_nil_inv_r in Hfit as ->. by exists 0.
  - apply Forall2_cons_inv_l in Hs as (v & row' & Hv & Hs & ->). destruct Hf as [Hf1 Hf2]. unfold row_entries in *. cbn [zip_with concat] in *.
    apply Forall2_app_inv_r in Hfit as (s1 & s2 & H1 & H2 & ->). destruct (top_bytes_bound tc v pre s1 s2 Hf1 Hv H1) as (b & -> & Hb). rewrite bind_Ok.
    destruct (IH row' (pre ++ s1) s2) as (b' & E' & Hb'); [|done|done|].
    + rewrite length_app, (Forall2_length H1), (length_top_entries _ _ _ Hf1). done.
    + rewrite <- app_assoc in E'. rewrite E', bind_Ok. eexists. split; [done|]. rewrite costs_app by (apply (Forall2_length H1)). lia.
Qed.

Lemma group_bytes_puts cs : forall E, length cs = length E -> pq_group_bytes (zip_with leaf_puts cs E) = pq_group_bytes cs + costs cs E.
Proof using.
  unfold pq_group_bytes. induction cs as [|c cs IH]; intros [|es E] Hl; try done. cbn [zip_with map foldr]. rewrite costs_cons, leaf_puts_bytes, IH by (cbn in Hl; lia). lia.
Qed.
End Estimate.
