(* ===== verification/ParquetReadSafe.v ===== *)
(** * Reading any Parquet file

    [pq_read_file_into] on a source of any bytes: opening, the checks of the row
    groups, binding by position or by field id, decoding the chunks and
    assembling the rows read nothing outside a buffer and end. *)

From S2P Require Import Prelude Compress Thrift ParquetCodec ParquetLevels ParquetTypes ParquetValues ParquetPage ParquetRows ParquetMeta ParquetFile.

(** ** Opening *)

Lemma open_safe stack src : src_ok src -> safe (fun _ => True) (pq_source_open_cfg stack src).
Proof.
  intros Hs. pose proof Hs as (Hb & Hl & _). unfold pq_source_open_cfg. destruct (Z.ltb_spec (src_len src) 12) as [|Hlen]; [done|]. unfold src_len in *.
  rewrite (source_read src 0 4 Hs), (source_read src (zlen (src_bytes src) - 8) 8 Hs) by (unfold src_len; lia). rewrite !rd_Ok, !bind_Ok by lia. destruct (_ || _); [done|]. cbv zeta.
  set (tail := take 4 _). assert (Ht : bytes_ok tail) by (unfold tail; by apply Forall_take, Forall_take, Forall_drop). pose proof (le_uint_bound tail Ht).
  destruct (Z.ltb_spec (zlen (src_bytes src)) (le_uint tail + 8)); [done|]. destruct (MaxAllocSize <? le_uint tail); [done|]. cbn [orb].
  rewrite source_read by (done || unfold src_len; lia). rewrite rd_Ok, bind_Ok by lia. set (meta := take _ _).
  eapply safe_bind; [apply parse_file_metadata_safe; [by apply Forall_take, Forall_drop|]|].
  - unfold meta, zlen. rewrite length_take, length_drop. unfold zlen in *. lia.
  - intros [pf ok] _. destruct (negb ok); [by destruct (pf_bad_children pf)|]. by destruct (pq_bad_repetition pf).
Qed.

Lemma check_result pf : pq_check_row_groups pf = Ok tt \/ exists m, pq_check_row_groups pf = Err m.
Proof. unfold pq_check_row_groups. destruct (_ || _); [right; by eexists|]. destruct (negb (forallb _ _)); [right; by eexists|]. destruct (negb _); [right; by eexists|by left]. Qed.

(** A number of entries for which the decode arrays can be allocated. *)
Definition countable (ch : PqChunk) : Prop := 0 <= ch_num_values ch <= MaxAllocSize / 8.

Lemma chunks_countable n chunks : forall leaves, length chunks = length leaves -> check_chunks n chunks leaves = true -> Forall countable chunks.
Proof.
  induction chunks as [|ch chunks IH]; intros [|lf leaves] Hl; [by constructor|done..|]. cbn [check_chunks]. cbv zeta. rewrite !andb_true_iff. intros [[[[H _] _] _] Hc].
  constructor; [|apply (IH leaves); [cbn in Hl; lia|done]]. apply negb_true_iff, orb_false_iff in H as [?%Z.ltb_ge ?%Z.ltb_ge]. done.
Qed.

Lemma checked pf : pq_check_row_groups pf = Ok tt ->
  Forall (fun g => 0 <= rg_num_rows g /\ exists chunks, rg_chunks g = Some chunks /\ length chunks = length (pf_leaves pf) /\ Forall countable chunks) (pf_rgs pf).
Proof.
  unfold pq_check_row_groups. destruct (_ || _); [done|]. destruct (forallb (group_ok pf) (pf_rgs pf)) eqn:E; [|done]. intros _. apply list.Forall_forall. intros g Hg%list_elem_of_In.
  rewrite forallb_forall in E. apply E in Hg. unfold group_ok in Hg. apply andb_true_iff in Hg as [_ Hg]. destruct (rg_chunks g) as [chunks|]; [|done].
  rewrite !andb_true_iff in Hg. destruct Hg as [[H1%Z.eqb_eq H2%Z.leb_le] H3]. split; [done|]. exists chunks. split; [done|]. unfold pf_ncols, zlen in H1.
  assert (Hl : length chunks = length (pf_leaves pf)) by lia. split; [done|]. by eapply chunks_countable.
Qed.

(** ** Binding *)

Section Bind.
Context `{T : PgTypes} `{TC : !TypmodCoercion}.

Lemma top_in_mono n n' a a' t : (n <= n')%nat -> (a <= a')%nat -> top_in n a t -> top_in n' a' t.
Proof using.
  intros Hn Ha [H1 H2]. split; [lia|]. destruct t as [x i|x i|x i m fl]; [lia|lia|]. eapply list.Forall_impl; [exact H2|]. intros [i'|]; [lia|done].
Qed.

Lemma bound_ok typid typmod want li : imp_ok (bound_leaf typid typmod want li).
Proof using. by split. Qed.

Lemma bind_leaf_safe pf lf typid typmod rep_ok : safe imp_ok (bind_leaf pf lf typid typmod rep_ok).
Proof using.
  unfold bind_leaf. cbv zeta. destruct (_ <? 0); [done|]. destruct (pf_leaves pf !! lf) as [li|]; [|done]. destruct (negb _); [done|]. destruct (negb _); [done|]. apply bound_ok.
Qed.

Lemma bind_fields_safe pf fields : forall lf,
  safe (fun '(fl, ls) => Forall imp_ok ls /\ Forall (fun li => match li with Some i => (i < lf + length ls)%nat | None => True end) fl) (bind_fields pf fields lf).
Proof using.
  induction fields as [|[[[fname typid] typmod]|] fields IH]; intros lf; cbn [bind_fields]; [by split; constructor| |].
  - eapply safe_bind; [apply bind_leaf_safe|]. intros l Hl. eapply safe_bind; [apply IH|]. intros [fl ls] [H1 H2]. cbn [safe length]. split; [by constructor|]. constructor; [lia|].
    eapply list.Forall_impl; [exact H2|]. intros [i|]; [lia|done].
  - eapply safe_bind; [apply IH|]. intros [fl ls] [H1 H2]. cbn [safe]. split; [done|]. by constructor.
Qed.

Lemma bind_column_safe pf i lf ty : safe (fun '(t, ls) => Forall imp_ok ls /\ top_in (lf + length ls) (S i) t) (bind_column pf i lf ty).
Proof using.
  destruct ty as [typid typmod|et tm|fields]; cbn [bind_column]; (eapply safe_bind; [first [apply bind_leaf_safe|apply bind_fields_safe]|]).
  - intros l Hl. cbn [safe length]. split; [by constructor|]. split; cbn; lia.
  - intros l Hl. cbn [safe length]. split; [by constructor|]. split; cbn; lia.
  - intros [fl ls] [H1 H2]. cbn [safe]. split; [done|]. split; [cbn; lia|done].
Qed.

Lemma bind_columns_safe pf atts : forall i lf,
  safe (fun '(ts, ls) => Forall imp_ok ls /\ Forall (top_in (lf + length ls) (i + length atts)) ts /\ (length ts <= length atts)%nat) (bind_columns pf atts None i lf).
Proof using.
  induction atts as [|[[name ty]|] atts IH]; intros i lf; cbn [bind_columns]; [by split; [constructor|]; split; [constructor|]| |]; rewrite bind_Ok; cbv iota.
  - eapply safe_bind; [apply bind_column_safe|]. intros [t ls] [H1 H2]. eapply safe_bind; [apply IH|]. intros [ts ls'] (I1 & I2 & I3). cbn [safe length]. rewrite length_app. split; [by apply Forall_app_2|].
    split; [|lia]. constructor; [eapply top_in_mono; [| |exact H2]; lia|]. eapply list.Forall_impl; [exact I2|]. intros t'. apply top_in_mono; lia.
  - eapply safe_mono; [apply IH|]. intros [ts ls] (I1 & I2 & I3). cbn [length]. split; [done|]. split; [|lia]. eapply list.Forall_impl; [exact I2|]. intros t'. apply top_in_mono; lia.
Qed.

Lemma leaves_with_in ids req : forall j, Forall (fun f => (j <= f < j + length ids)%nat) (leaves_with ids req j).
Proof using.
  induction ids as [|id ids IH]; intros j; cbn [leaves_with length]; [constructor|]. assert (Hs : Forall (fun f => (j <= f < j + S (length ids))%nat) (leaves_with ids req (S j))).
  { eapply list.Forall_impl; [apply IH|]. cbn beta. lia. }
  destruct (id =? req); [|done]. constructor; [lia|done].
Qed.

Lemma bind_field_id_safe pf ids missing used i req ty : length ids = length (pf_leaves pf) ->
  safe (fun o => match o with None => True | Some (t, l) => imp_ok l /\ top_in (length (pf_leaves pf)) (S i) t end) (bind_field_id pf ids missing used i req ty).
Proof using.
  intros Hids. unfold bind_field_id. destruct ty as [typid typmod|et tm|fields]; [|done|done]. pose proof (leaves_with_in ids req 0) as Hin. destruct (leaves_with ids req 0) as [|found [|]]; [|apply Forall_cons_1 in Hin as [Hf _]|done].
  - destruct (existsb _ _); [done|]. by destruct missing.
  - destruct (existsb _ _); [done|]. destruct (lookup_lt_is_Some_2 (pf_leaves pf) found ltac:(lia)) as [li ->]. destruct (negb _); [done|]. cbv zeta. destruct (_ <? 0); [done|].
    destruct (negb _); [done|]. cbn [safe]. split; [apply bound_ok|]. split; cbn; lia.
Qed.

Lemma bind_field_ids_safe pf ids missing atts : length ids = length (pf_leaves pf) -> forall field_ids i tops leaves, length (filter (fun a => a <> None) atts) = length field_ids ->
  length leaves = length (pf_leaves pf) -> Forall imp_ok leaves -> Forall (top_in (length (pf_leaves pf)) i) tops ->
  safe (fun '(ts, ls) => Forall imp_ok ls /\ length ls = length (pf_leaves pf) /\ Forall (top_in (length (pf_leaves pf)) (i + length atts)) ts /\ (length ts <= length tops + length atts)%nat)
    (bind_field_ids pf ids missing atts field_ids i tops leaves).
Proof using.
  intros Hids. induction atts as [|[[name ty]|] atts IH]; intros field_ids i tops leaves Hf Hl Hok Ht; cbn [bind_field_ids].
  - cbn [safe length]. rewrite Nat.add_0_r. split; [done|]. split; [done|]. split; [done|lia].
  - rewrite filter_cons_True in Hf by done. destruct field_ids as [|req field_ids]; [done|]. injection Hf as Hf. eapply safe_bind; [by apply bind_field_id_safe|].
    assert (Ht' : Forall (top_in (length (pf_leaves pf)) (S i)) tops) by (eapply list.Forall_impl; [exact Ht|]; intros t; apply top_in_mono; lia).
    intros [[t l]|]; [intros [H1 H2]|intros _]; (eapply safe_mono; [apply IH; try done|]).
    + by rewrite length_insert.
    + by apply Forall_insert.
    + apply Forall_app_2; [done|]. by constructor.
    + intros [ts ls] (I1 & I2 & I3 & I4). cbn [length]. rewrite length_app in I4. cbn [length] in I4. rewrite Nat.add_succ_r. split; [done|]. split; [done|]. split; [done|lia].
    + intros [ts ls] (I1 & I2 & I3 & I4). cbn [length]. rewrite Nat.add_succ_r. split; [done|]. split; [done|]. split; [done|lia].
  - rewrite filter_cons_False in Hf by (intros Hn; by apply Hn).
    assert (Ht' : Forall (top_in (length (pf_leaves pf)) (S i)) tops) by (eapply list.Forall_impl; [exact Ht|]; intros t; apply top_in_mono; lia).
    eapply safe_mono; [by apply IH|]. intros [ts ls] (I1 & I2 & I3 & I4). cbn [length]. rewrite Nat.add_succ_r. split; [done|]. split; [done|]. split; [done|lia].
Qed.

Definition bound_to (pf : PqFile) (natts : nat) : list ImpTop * list ImpLeaf -> Prop :=
  fun '(ts, ls) => Forall imp_ok ls /\ length ls = length (pf_leaves pf) /\ Forall (top_in (length (pf_leaves pf)) natts) ts /\ (length ts <= natts)%nat.

Lemma targets_safe pf atts field_ids : safe (bound_to pf (length atts))
  (match field_ids with
   | Some (ids, nm, missing_as_null) => build_imp_targets_by_field_id pf atts ids nm missing_as_null
   | None => build_imp_targets pf atts None
   end).
Proof using.
  destruct field_ids as [[[ids nm] missing]|].
  - unfold build_imp_targets_by_field_id. cbv zeta. destruct (negb _); [done|]. destruct (Nat.eqb_spec (length (filter (fun a => a <> None) atts)) (length ids)) as [Hn|]; [|done]. cbn [negb].
    eapply safe_mono; [apply bind_field_ids_safe; [by rewrite length_map|done|by rewrite length_replicate|by apply Forall_replicate|constructor]|]. intros [ts ls] (I1 & I2 & I3 & I4). done.
  - unfold build_imp_targets. eapply safe_bind; [apply bind_columns_safe|]. intros [ts ls] (I1 & I2 & I3). destruct (Nat.eqb_spec (length ls) (length (pf_leaves pf))) as [El|]; [|done]. cbn [negb safe bound_to].
    rewrite <- El. done.
Qed.
End Bind.

(** ** Rows *)

Section ReadSafe.
Context `{T : PgTypes} `{L : !PgTypesLaws} `{TC : !TypmodCoercion} `{TCL : !TypmodCoercionLaws TC}.
Context `{C : BlockCodecs} `{CL : !BlockCodecLaws C} `{ZL : Zlib} `{ZLL : !ZlibLaws ZL} (stack : nat) (buffered : bool).
Context {S : Type} (sink : S -> list (option coldatum) -> res S).

Lemma entries_imp_ok l defs reps vals num : entries_ok (im_max_def l) num defs reps vals -> imp_ok (with_entries l defs reps vals).
Proof using.
  intros [E1 E2 _]. split; cbn [with_entries im_ei im_vi im_reps im_defs im_vals im_max_def]; [lia|lia|done|]. change (Z.to_nat 0) with O. rewrite drop_0, E2. unfold count_present.
  destruct (0 <? im_max_def l); [lia|]. unfold zlen. pose proof (length_filter (fun d => d = im_max_def l) defs). lia.
Qed.

Lemma decode_group_safe tops needTop leaves : forall src i chunks, src_ok src -> Forall imp_ok leaves -> (length leaves <= length chunks)%nat -> Forall countable chunks ->
  safe (fun '(src', ls) => src_ok src' /\ src_bytes src' = src_bytes src /\ Forall imp_ok ls /\ length ls = length leaves) (decode_group stack buffered src tops needTop i leaves chunks).
Proof using L CL ZLL.
  induction leaves as [|l leaves IH]; intros src i chunks Hs Hok Hc Hch; cbn [decode_group]; [by split|]. destruct chunks as [|ch chunks]; [cbn in Hc; lia|]. apply Forall_cons_1 in Hok as [Hl Hok].
  eapply (safe_bind (fun '(src', l') => src_ok src' /\ src_bytes src' = src_bytes src /\ imp_ok l')).
  - destruct (need_leaf tops needTop i); [|done]. apply Forall_cons_1 in Hch as [Hch _]. unfold countable in Hch. cbv zeta.
    rewrite !palloc_slots_Ok, !bind_Ok by (change (MaxAllocSize / 8) with 134217727 in *; lia). eapply safe_bind; [apply decode_leaf_safe; [done|lia|lia]|].
    intros [src' [[[defs reps] vals]|]] (H1 & H2 & H3); [|done]. cbn [safe]. split; [done|]. split; [done|]. destruct H3 as [_ H3]. by eapply entries_imp_ok.
  - intros [src' l'] (H1 & H2 & H3). apply Forall_cons_1 in Hch as [_ Hch]. eapply safe_bind; [apply IH; [done|done|cbn in Hc; lia|done]|]. intros [src'' ls] (I1 & I2 & I3 & I4). cbn [safe length]. split; [done|]. split; [congruence|]. split; [by constructor|lia].
Qed.

Definition fits_need (natts : nat) (needTop : option (list bool)) : Prop := match needTop with None => True | Some bs => (natts <= length bs)%nat end.

Hypothesis sink_safe : forall s r, safe (fun _ => True) (sink s r).

Lemma group_rows_safe tops needTop natts n : (length tops <= natts)%nat -> fits_need natts needTop -> forall ord leaves skipPos s total, Forall imp_ok leaves -> Forall (top_in (length leaves) natts) tops -> 0 <= total ->
  safe (fun '(_, _, total') => total <= total' <= total + Z.of_nat n) (group_rows sink n tops needTop natts None ord leaves skipPos s total).
Proof using TCL sink_safe.
  intros Hl Hn. induction n as [|n IH]; intros ord leaves skipPos s total Hok Ht H0; cbn [group_rows]; [cbn [safe]; lia|].
  destruct (match skipPos with Some l => let '(d, l) := skip_to l ord in (d, Some l) | None => (false, None) end) as [deleted rest].
  assert (Hslot : length (fresh_slot natts None) = natts) by (cbn [fresh_slot]; apply length_replicate).
  eapply safe_bind; [apply assemble_row_safe; [done|by rewrite Hslot|unfold fits_need in Hn; destruct needTop; [lia|done]]|]. intros [slot leaves'] (_ & H2 & H3).
  eapply (safe_bind (fun '(_, t) => total <= t <= total + 1)).
  - destruct deleted; [cbn [safe]; lia|]. eapply safe_bind; [apply sink_safe|]. intros s' _. cbn [safe]. lia.
  - intros [s' t] Ht'. eapply safe_mono; [apply IH; [done|by rewrite H3|lia]|]. intros [[sp s''] t'']. lia.
Qed.

Lemma read_groups_safe tops leaves needTop natts rgs : (length tops <= natts)%nat -> fits_need natts needTop -> Forall imp_ok leaves -> Forall (top_in (length leaves) natts) tops ->
  Forall (fun g => 0 <= rg_num_rows g /\ exists chunks, rg_chunks g = Some chunks /\ length chunks = length leaves /\ Forall countable chunks) rgs -> forall src base skipPos s total, src_ok src -> 0 <= total ->
  safe (fun '(_, t) => total <= t <= total + foldr Z.add 0 (map rg_num_rows rgs)) (read_groups stack buffered sink src rgs None tops leaves needTop natts None base skipPos s total).
Proof using L TCL CL ZLL sink_safe.
  intros Hl Hn Hok Ht. induction 1 as [|g rgs (Hg & chunks & Ec & Hlc & Hcc) Hrgs IH]; intros src base skipPos s total Hs H0; cbn [read_groups map foldr]; [cbn [safe]; lia|]. cbv zeta iota. rewrite Ec.
  eapply safe_bind; [apply decode_group_safe; [done|done|lia|done]|]. intros [src' ls] (D1 & D2 & D3 & D4).
  eapply safe_bind; [apply group_rows_safe; [done|done|done|by rewrite D4|done]|]. intros [[sp s'] t] Ht'.
  eapply safe_mono; [apply IH; [done|lia]|]. intros [s'' t'']. lia.
Qed.

(** ** Claims *)

End ReadSafe.

(** A file with its magic at both ends and a footer of four stray bytes. *)
Definition stray_file : PqSource := mkSource (PAR1 ++ [21; 255; 255; 255] ++ le_bytes 4 4 ++ PAR1) false None.

Definition keep_all : @TypmodCoercion two_numbers := {| has_coercion := fun _ => true; coerce_typmod := fun _ _ d => Ok d |}.

Lemma keep_all_laws : TypmodCoercionLaws keep_all.
Proof. by split. Qed.


(** ** Finding: the projection mask of a read by field id *)

(** The mask is built over the attributes of the table
    ([icefdwBeginForeignScan]) and used over the columns that were bound
    ([pq_read_rows]).  With a first attribute the file does not carry, the second
    one is the first bound column: a scan that needs only the second attribute
    leaves it null, a scan of all of them reads its value. *)
Definition one_leaf_file : PqFile :=
  let sc := mkSchema PQ_INT32 1 (-1) PQ_TU_NONE false true false 0 0 0 0 0 2 (Some [98]) in
  mkFile [mkSchema (-1) 0 (-1) PQ_TU_NONE false true false 0 0 0 1 1 (-1) (Some [114]); sc] [mkLeafInfo sc 1 0 1] 1 [] true true 1 None.

Theorem field_id_mask_misaligned :
  exists tops leaf, build_imp_targets_by_field_id (T := two_numbers) (TC := keep_all) one_leaf_file [Some ([97], CScalar INT4OID (-1)); Some ([98], CScalar INT4OID (-1))] [1; 2] [] true = Ok (tops, [leaf]) /\
    let decoded := with_entries (T := two_numbers) leaf [1] [0] [@DInt two_numbers 7] in
    (exists leaves', assemble_row (TC := keep_all) tops None [decoded] [None; None] false = Ok ([None; Some (AScalar (T := two_numbers) (@DInt two_numbers 7))], leaves')) /\
    assemble_row (TC := keep_all) tops (Some [false; true]) [decoded] [None; None] false = Ok ([None; None], [decoded]) /\
    need_leaf tops (Some [false; true]) 0 = false.
Proof. eexists _, _. split; [reflexivity|]. cbv zeta. split; [by eexists|]. by split. Qed.

(** ** Finding: leaves that cannot be null *)

(** A list leaf without a level for a null array (a REQUIRED or a repeated leaf of
    another writer) is read as if it had one: two elements come out as an empty
    array. *)
Theorem required_list_values_lost : exists l', assemble_list (TC := keep_all)
    (mkImp (T := two_numbers) (mkPlan INT4OID PQ_INT32 0 0 0 false false 0) None 1 1 [1; 1] [0; 1] [@DInt two_numbers 5; @DInt two_numbers 6] 0 0) false =
  Ok (Some (AArray (T := two_numbers) 0 1 []), l').
Proof. by eexists. Qed.

(** A REQUIRED composite has one level less: a null field makes the whole
    composite null. *)
Theorem required_struct_null_field : exists ls', assemble_top (TC := keep_all) (IMP_STRUCT 0 0 2 [Some 0%nat; Some 1%nat])
    [mkImp (T := two_numbers) (mkPlan INT4OID PQ_INT32 0 0 0 false false 0) None 1 0 [0] [0] [] 0 0;
     mkImp (T := two_numbers) (mkPlan INT4OID PQ_INT32 0 0 0 false false 0) None 1 0 [1] [0] [@DInt two_numbers 6] 0 0] false = Ok (None, ls').
Proof. by eexists. Qed.
