(* ===== verification/ParquetSkip.v ===== *)
(** * Parquet reads that leave out rows

    [pq_read_file_into] of [columnar_parquet_reader.c] with the ordinals an
    Iceberg scan leaves out, and [PgColumnarReadParquetByFieldId] and
    [PgColumnarReadParquetByFieldIdNM] over it.  A deleted row is assembled
    without the coercion of its values, so that the cursors of the columns stay
    where they belong; the rows that are left are those of a read without
    deletes. *)

From stdpp Require Import sorting.
From S2P Require Import Prelude Compress Thrift ParquetCodec ParquetLevels ParquetTypes ParquetValues ParquetPage ParquetRows ParquetMeta ParquetFile ParquetReadSafe.

(** Opening a path: the file or the object behind it. *)
Class ParquetObjects : Type := { pq_open : list Z -> res PqSource }.

Section Reads.
Context `{T : PgTypes} `{TC : !TypmodCoercion} `{C : BlockCodecs} `{ZL : Zlib} `{PO : ParquetObjects} (stack : nat) (buffered : bool).
Abbreviation row := (list (option coldatum)).

Definition pq_tuplestore_sink (rows : list row) (r : row) : res (list row) := Ok (rows ++ [r]).

Definition PgColumnarReadParquetByFieldId (path : list Z) (atts : list (option (list Z * coltype))) (ids : list Z) (skip : option (list Z)) : res (list row) :=
  src ← pq_open path;
  ' (rows, _) ← pq_read_file_into stack buffered pq_tuplestore_sink src atts (Some (ids, [], false)) None skip [];
  Ok rows.

Definition PgColumnarReadParquetByFieldIdNM (path : list Z) (atts : list (option (list Z * coltype))) (ids : list Z) (nm : list (list Z * Z)) (skip : option (list Z)) (needTop : option (list bool)) : res (list row) :=
  src ← pq_open path;
  ' (rows, _) ← pq_read_file_into stack buffered pq_tuplestore_sink src atts (Some (ids, nm, true)) needTop skip [];
  Ok rows.

End Reads.

(** ** The cursor over the ordinals *)

(** The rows, from ordinal [ord] on, that are not in the skip set. *)
Fixpoint keep_from {A} (ord : Z) (skip : list Z) (rows : list A) : list A :=
  match rows with
  | [] => []
  | r :: rows => (if decide (ord ∈ skip) then [] else [r]) ++ keep_from (ord + 1) skip rows
  end.

Lemma keep_from_app {A} skip (a b : list A) : forall ord, keep_from ord skip (a ++ b) = keep_from ord skip a ++ keep_from (ord + zlen a) skip b.
Proof.
  induction a as [|r a IH]; intros ord; cbn [app keep_from]; [by rewrite zlen_nil, Z.add_0_r|]. rewrite IH, zlen_cons, <- app_assoc. do 2 f_equal. f_equal. lia.
Qed.

(** Only the ordinals from [ord] on matter. *)
Lemma keep_from_ext {A} skip skip' (rows : list A) : forall ord, (forall x, ord <= x -> x ∈ skip <-> x ∈ skip') -> keep_from ord skip rows = keep_from ord skip' rows.
Proof.
  induction rows as [|r rows IH]; intros ord H; cbn [keep_from]; [done|]. rewrite (IH (ord + 1)) by (intros x Hx; apply H; lia). f_equal. specialize (H ord ltac:(lia)).
  destruct (decide (ord ∈ skip)), (decide (ord ∈ skip')); tauto.
Qed.

Lemma skip_to_spec skip ord : StronglySorted Z.lt skip ->
  exists rest, skip_to skip ord = (bool_decide (ord ∈ skip), rest) /\ StronglySorted Z.lt rest /\ forall x, ord < x -> x ∈ rest <-> x ∈ skip.
Proof.
  induction 1 as [|p skip Hs IH Hp]; cbn [skip_to].
  - exists []. split; [|split; [constructor|done]]. rewrite bool_decide_eq_false_2; [done|apply not_elem_of_nil].
  - destruct (Z.ltb_spec p ord) as [Hlt|Hge].
    + destruct IH as (rest & E & H1 & H2). exists rest. rewrite E. split; [f_equal; apply bool_decide_ext; rewrite elem_of_cons; intuition lia|]. split; [done|]. intros x Hx. rewrite H2, elem_of_cons by done. intuition lia.
    + destruct (Z.eqb_spec p ord) as [->|Hne].
      * exists skip. split; [by rewrite bool_decide_eq_true_2 by (by left)|]. split; [done|]. intros x Hx. rewrite elem_of_cons. intuition lia.
      * exists (p :: skip). split; [|split; [by constructor|done]]. rewrite bool_decide_eq_false_2; [done|]. rewrite elem_of_cons. intros [->|Hin]; [done|].
        pose proof (proj1 (list.Forall_forall _ _) Hp ord Hin). lia.
Qed.

(** ** Rows that are dropped *)

Section Skip.
Context `{T : PgTypes} `{TC : !TypmodCoercion} `{C : BlockCodecs} `{ZL : Zlib} (stack : nat) (buffered : bool).
Abbreviation row := (list (option coldatum)).

(** A dropped row moves the cursors as a kept one does. *)
Lemma entry_value_dropped l d v l' : entry_value l d false = Ok (v, l') -> exists v', entry_value l d true = Ok (v', l').
Proof using.
  unfold entry_value, pq_take_value. destruct (d =? im_max_def l); [|intros [= <- <-]; by eexists]. destruct (_ && _); [|done]. destruct (im_vals l !! _) as [x|]; [|done]. cbn [negb].
  destruct (im_coerce l) as [tm|].
  - destruct (coerce_typmod _ _ x) as [x'| | |]; try done. rewrite !bind_Ok. intros [= <- <-]. by eexists.
  - rewrite !bind_Ok. intros [= <- <-]. by eexists.
Qed.

Lemma elems_dropped fuel : forall l es l', assemble_elems fuel l false = Ok (es, l') -> exists es', assemble_elems fuel l true = Ok (es', l').
Proof using.
  induction fuel as [|fuel IH]; intros l es l' E; cbn [assemble_elems] in *; [done|]. destruct (rd1 (im_defs l) (im_ei l)) as [d| | |]; try done. rewrite bind_Ok in *.
  destruct (entry_value l d false) as [[e l1]| | |] eqn:Ee; try done. rewrite bind_Ok in E. destruct (entry_value_dropped _ _ _ _ Ee) as [v' ->]. rewrite bind_Ok.
  destruct (if im_ei l1 <? im_nEntries l1 then _ else _) as [more| | |]; try done. rewrite bind_Ok in *. destruct more; [|injection E as <- <-; by eexists].
  destruct (assemble_elems fuel l1 false) as [[es1 l2]| | |] eqn:E1; try done. rewrite bind_Ok in E. injection E as <- <-. destruct (IH _ _ _ E1) as [es' ->]. rewrite bind_Ok. by eexists.
Qed.

Lemma fields_dropped fl : forall leaves n fs leaves', assemble_fields fl leaves false = Ok (n, fs, leaves') -> exists n' fs', assemble_fields fl leaves true = Ok (n', fs', leaves').
Proof using.
  induction fl as [|[i|] fl IH]; intros leaves n fs leaves' E; cbn [assemble_fields] in *.
  - injection E as <- <- <-. by eexists _, _.
  - destruct (leaves !! i) as [l|]; [|done]. destruct (pq_require_entry l) as [[]| | |]; try done. rewrite bind_Ok in *. destruct (rd1 _ _) as [d| | |]; try done. rewrite bind_Ok in *.
    destruct (entry_value l d false) as [[f l']| | |] eqn:Ee; try done. rewrite bind_Ok in E. destruct (entry_value_dropped _ _ _ _ Ee) as [v' ->]. rewrite bind_Ok.
    destruct (assemble_fields fl (<[i:=l']> leaves) false) as [[[n1 fs1] ls1]| | |] eqn:E1; try done. rewrite bind_Ok in E. injection E as <- <- <-. destruct (IH _ _ _ _ E1) as (n' & fs' & ->). rewrite bind_Ok. by eexists _, _.
  - destruct (assemble_fields fl leaves false) as [[[n1 fs1] ls1]| | |] eqn:E1; try done. rewrite bind_Ok in E. injection E as <- <- <-. destruct (IH _ _ _ _ E1) as (n' & fs' & ->). rewrite bind_Ok. by eexists _, _.
Qed.

Lemma top_dropped t leaves v leaves' : assemble_top t leaves false = Ok (v, leaves') -> exists v', assemble_top t leaves true = Ok (v', leaves').
Proof using.
  unfold assemble_top, assemble_scalar, assemble_list. destruct t as [a i|a i|a i n fl]; intros E.
  - destruct (leaves !! i) as [l|]; [|done]. destruct (pq_require_entry l) as [[]| | |]; try done. rewrite bind_Ok in *. destruct (rd1 _ _) as [d| | |]; try done. rewrite bind_Ok in *.
    destruct (entry_value l d false) as [[o l']| | |] eqn:Ee; try done. rewrite bind_Ok in E. injection E as <- <-. destruct (entry_value_dropped _ _ _ _ Ee) as [v' ->]. rewrite bind_Ok. by eexists.
  - destruct (leaves !! i) as [l|]; [|done]. destruct (pq_require_entry l) as [[]| | |]; try done. rewrite bind_Ok in *. destruct (rd1 _ _) as [d| | |]; try done. rewrite bind_Ok in *.
    destruct (d =? 0); [rewrite bind_Ok in *; injection E as <- <-; by eexists|]. destruct (d =? 1); [rewrite bind_Ok in *; injection E as <- <-; by eexists|].
    destruct (assemble_elems _ l false) as [[es l']| | |] eqn:Ee; try done. rewrite !bind_Ok in E. injection E as <- <-. destruct (elems_dropped _ _ _ _ Ee) as [es' ->]. rewrite !bind_Ok. by eexists.
  - destruct (assemble_fields fl leaves false) as [[[n1 fs1] ls1]| | |] eqn:E1; try done. rewrite bind_Ok in E. injection E as <- <-. destruct (fields_dropped _ _ _ _ _ E1) as (n' & fs' & ->). rewrite bind_Ok. by eexists.
Qed.

Lemma row_dropped tops : forall needTop leaves slot slot2 out leaves', assemble_row tops needTop leaves slot false = Ok (out, leaves') -> length slot2 = length slot ->
  length out = length slot /\ exists out2, assemble_row tops needTop leaves slot2 true = Ok (out2, leaves').
Proof using.
  induction tops as [|t tops IH]; intros needTop leaves slot slot2 out leaves' E Hl; cbn [assemble_row] in *; [injection E as <- <-; split; [done|by eexists]|].
  destruct (match needTop with None => Ok (true, None) | Some [] => Oob | Some (b :: bs) => Ok (b, Some bs) end) as [[need rest]| | |]; try done. rewrite bind_Ok in *. destruct need; [|by eapply IH].
  destruct (assemble_top t leaves false) as [[v ls]| | |] eqn:Et; try done. rewrite bind_Ok in E. destruct (top_dropped _ _ _ _ Et) as [v' ->]. rewrite bind_Ok, Hl. case_decide; [|done].
  destruct (IH _ _ _ (<[it_attno t:=v']> slot2) _ _ E) as [H1 H2]; [by rewrite !length_insert|]. rewrite length_insert in H1. by split.
Qed.

(** ** The rows of a file *)

(** The rows of a group, and what a read with ordinals to leave out makes of
    them. *)
Lemma group_skips tops needTop natts n : forall ord leaves s total sp s' t', group_rows pq_tuplestore_sink n tops needTop natts None ord leaves (Some []) s total = Ok (sp, s', t') ->
  exists rows, sp = Some [] /\ s' = s ++ rows /\ length rows = n /\ Forall (fun r => length r = natts) rows /\
    forall skip s2 t2, StronglySorted Z.lt skip -> exists rest t3, group_rows pq_tuplestore_sink n tops needTop natts None ord leaves (Some skip) s2 t2 = Ok (Some rest, s2 ++ keep_from ord skip rows, t3) /\
      StronglySorted Z.lt rest /\ forall x, ord + Z.of_nat n <= x -> x ∈ rest <-> x ∈ skip.
Proof using.
  induction n as [|n IH]; intros ord leaves s total sp s' t' E; cbn [group_rows skip_to] in E.
  - injection E as <- <- <-. exists []. rewrite app_nil_r. split; [done|]. split; [done|]. split; [done|]. split; [constructor|]. intros skip s2 t2 Hs. exists skip, t2. cbn [group_rows keep_from]. rewrite app_nil_r. done.
  - destruct (assemble_row tops needTop leaves (fresh_slot natts None) false) as [[slot ls]| | |] eqn:Ea; try done. rewrite bind_Ok in E. cbv iota in E. change (pq_tuplestore_sink s slot) with (Ok (s ++ [slot])) in E. rewrite !bind_Ok in E.
    destruct (IH _ _ _ _ _ _ _ E) as (rows & -> & -> & Hlen & Hw & Hskip). destruct (row_dropped _ _ _ _ (fresh_slot natts None) _ _ Ea eq_refl) as [Hl [slot2 Ed]].
    exists (slot :: rows). rewrite <- app_assoc. split; [done|]. split; [done|]. split; [cbn; lia|]. split; [constructor; [|done]; rewrite Hl; apply length_replicate|].
    intros skip s2 t2 Hs. cbn [group_rows]. destruct (skip_to_spec skip ord Hs) as (rest & -> & Hr & Hm). cbn [keep_from]. destruct (bool_decide_reflect (ord ∈ skip)) as [Hin|Hin].
    + rewrite Ed, !bind_Ok. destruct (Hskip rest s2 t2 Hr) as (rest' & t3 & E3 & Hr' & Hm'). exists rest', t3. rewrite E3, decide_True by done. cbn [app]. split; [|split; [done|]].
      * by rewrite (keep_from_ext rest skip) by (intros x Hx; apply Hm; lia).
      * intros x Hx. rewrite Hm' by lia. apply Hm. lia.
    + rewrite Ea, !bind_Ok. cbv iota. change (pq_tuplestore_sink s2 slot) with (Ok (s2 ++ [slot])). rewrite !bind_Ok. destruct (Hskip rest (s2 ++ [slot]) (t2 + 1) Hr) as (rest' & t3 & E3 & Hr' & Hm'). exists rest', t3. rewrite E3, decide_False by done. split; [|split; [done|]].
      * rewrite <- app_assoc. by rewrite (keep_from_ext rest skip) by (intros x Hx; apply Hm; lia).
      * intros x Hx. rewrite Hm' by lia. apply Hm. lia.
Qed.

Lemma groups_skip tops needTop natts leaves rgs : Forall (fun g => 0 <= rg_num_rows g) rgs -> forall src base s total s' t',
  read_groups stack buffered pq_tuplestore_sink src rgs None tops leaves needTop natts None base (Some []) s total = Ok (s', t') ->
  exists rows, s' = s ++ rows /\ Forall (fun r => length r = natts) rows /\
    forall skip s2 t2, StronglySorted Z.lt skip -> exists t3, read_groups stack buffered pq_tuplestore_sink src rgs None tops leaves needTop natts None base (Some skip) s2 t2 = Ok (s2 ++ keep_from base skip rows, t3).
Proof using.
  induction 1 as [|g rgs Hg _ IH]; intros src base s total s' t' E; cbn [read_groups] in E.
  - injection E as <- <-. exists []. rewrite app_nil_r. split; [done|]. split; [constructor|]. intros skip s2 t2 _. exists t2. cbn [read_groups keep_from]. by rewrite app_nil_r.
  - cbv zeta iota in E. destruct (match rg_chunks g with Some chunks => decode_group stack buffered src tops needTop 0 leaves chunks | None => Oob end) as [[src' ls]| | |] eqn:Ed; try done. rewrite bind_Ok in E.
    destruct (group_rows _ _ _ _ _ _ base ls (Some []) s total) as [[[sp s1] t1]| | |] eqn:Eg; try done. rewrite bind_Ok in E. destruct (group_skips _ _ _ _ _ _ _ _ _ _ _ Eg) as (rows & -> & -> & Hlen & Hw & Hskip).
    destruct (IH _ _ _ _ _ _ E) as (rest & -> & Hw2 & Hrest). exists (rows ++ rest). rewrite app_assoc. split; [done|]. split; [by apply Forall_app_2|]. intros skip s2 t2 Hs. cbn [read_groups]. cbv zeta iota. rewrite Ed, bind_Ok.
    destruct (Hskip skip s2 t2 Hs) as (skip' & t3 & -> & Hs' & Hm). rewrite bind_Ok. destruct (Hrest skip' (s2 ++ keep_from base skip rows) t3 Hs') as (t4 & ->). exists t4. do 2 f_equal.
    rewrite keep_from_app, app_assoc. f_equal. assert (Ez : zlen rows = rg_num_rows g) by (unfold zlen; lia). rewrite Ez. apply keep_from_ext. intros x Hx. apply Hm. lia.
Qed.

(** No ordinals and no list of ordinals are the same. *)
Lemma group_rows_none tops needTop natts n : forall ord leaves s total,
  group_rows pq_tuplestore_sink n tops needTop natts None ord leaves None s total = ('(_, s', t) ← group_rows pq_tuplestore_sink n tops needTop natts None ord leaves (Some []) s total; Ok (None, s', t)).
Proof using.
  induction n as [|n IH]; intros ord leaves s total; cbn [group_rows skip_to]; [done|]. destruct (assemble_row _ _ _ _ _) as [[slot ls]| | |]; try done. rewrite !bind_Ok. cbv iota. change (pq_tuplestore_sink s slot) with (Ok (s ++ [slot])). rewrite !bind_Ok. apply IH.
Qed.

Lemma groups_none tops needTop natts leaves rgs : forall src base s total,
  read_groups stack buffered pq_tuplestore_sink src rgs None tops leaves needTop natts None base None s total = read_groups stack buffered pq_tuplestore_sink src rgs None tops leaves needTop natts None base (Some []) s total.
Proof using.
  induction rgs as [|g rgs IH]; intros src base s total; cbn [read_groups]; [done|]. cbv zeta iota. destruct (match rg_chunks g with Some chunks => _ | None => Oob end) as [[src' ls]| | |]; try done. rewrite !bind_Ok, group_rows_none.
  destruct (group_rows _ _ _ _ _ _ base ls (Some []) s total) as [[[sp s1] t1]| | |] eqn:Eg; try done. rewrite !bind_Ok. destruct (group_skips _ _ _ _ _ _ _ _ _ _ _ Eg) as (rows & -> & _). apply IH.
Qed.

Lemma file_none src atts ids needTop : pq_read_file_into stack buffered pq_tuplestore_sink src atts (Some ids) needTop None [] = pq_read_file_into stack buffered pq_tuplestore_sink src atts (Some ids) needTop (Some []) [].
Proof using.
  unfold pq_read_file_into. destruct (pq_source_open_cfg stack src) as [pf| | |]; try done. rewrite !bind_Ok. destruct (pq_check_row_groups pf) as [[]| | |]; try done. rewrite !bind_Ok. destruct ids as [[ids nm] miss].
  destruct (build_imp_targets_by_field_id _ _ _ _ _) as [[tops leaves]| | |]; try done. rewrite !bind_Ok. unfold pq_read_rows. by rewrite groups_none.
Qed.

Lemma file_skips src atts ids needTop rows t : pq_read_file_into stack buffered pq_tuplestore_sink src atts (Some ids) needTop (Some []) [] = Ok (rows, t) ->
  Forall (fun r => length r = length atts) rows /\
  forall skip, StronglySorted Z.lt skip -> exists t', pq_read_file_into stack buffered pq_tuplestore_sink src atts (Some ids) needTop (Some skip) [] = Ok (keep_from 0 skip rows, t').
Proof using.
  unfold pq_read_file_into. destruct (pq_source_open_cfg stack src) as [pf| | |]; try done. rewrite !bind_Ok. destruct (check_result pf) as [Ec|[m Em]]; [|by rewrite Em]. rewrite Ec, !bind_Ok.
  assert (Hg : Forall (fun g => 0 <= rg_num_rows g) (pf_rgs pf)) by (eapply list.Forall_impl; [exact (checked pf Ec)|]; tauto). destruct ids as [[ids nm] miss].
  destruct (build_imp_targets_by_field_id _ _ _ _ _) as [[tops leaves]| | |] eqn:Eb; try done. rewrite !bind_Ok. unfold pq_read_rows. rewrite Nat.sub_0_r, drop_0, firstn_all. intros E.
  destruct (groups_skip _ _ _ _ _ Hg _ _ _ _ _ _ E) as (rows' & Er & Hw & Hs). cbn [app] in Er. subst rows'. split; [done|]. intros skip Hsk. destruct (Hs skip [] 0 Hsk) as (t' & Et).
  exists t'. rewrite ?bind_Ok, Ec, bind_Ok, Eb, bind_Ok, Nat.sub_0_r, drop_0, firstn_all. exact Et.
Qed.

(** ** The reads of a scan *)

Context `{PO : ParquetObjects}.

(** A row has a value for every output column. *)
Lemma read_width path atts ids rows : PgColumnarReadParquetByFieldId stack buffered path atts ids None = Ok rows -> Forall (fun r => length r = length atts) rows.
Proof using.
  unfold PgColumnarReadParquetByFieldId. destruct (pq_open path) as [src| | |]; try done. rewrite bind_Ok, file_none.
  destruct (pq_read_file_into _ _ _ _ _ _ _ _ _) as [[rs t]| | |] eqn:E; try done. rewrite bind_Ok. intros [= <-]. by apply file_skips in E as [H _].
Qed.

Lemma keep_nothing {A} (rows : list A) : forall ord, keep_from ord [] rows = rows.
Proof using. induction rows as [|r rows IH]; intros ord; cbn [keep_from]; [done|]. by rewrite decide_False, IH by apply not_elem_of_nil. Qed.

(** A read with ordinals to leave out delivers the rows of the read without
    them, less those. *)
Lemma read_skips path atts ids nm needTop skip rows : PgColumnarReadParquetByFieldIdNM stack buffered path atts ids nm None needTop = Ok rows -> StronglySorted Z.lt skip ->
  PgColumnarReadParquetByFieldIdNM stack buffered path atts ids nm (match skip with [] => None | _ => Some skip end) needTop = Ok (keep_from 0 skip rows).
Proof using.
  intros E Hs. destruct skip as [|x skip]; [by rewrite keep_nothing|]. unfold PgColumnarReadParquetByFieldIdNM in *. destruct (pq_open path) as [src| | |]; try done. rewrite bind_Ok in *. rewrite file_none in E.
  destruct (pq_read_file_into _ _ _ _ _ _ _ (Some []) _) as [[rs t]| | |] eqn:E1; try done. rewrite bind_Ok in E. injection E as <-. apply file_skips in E1 as [_ H]. destruct (H _ Hs) as (t' & ->). by rewrite bind_Ok.
Qed.
End Skip.
