(* ===== verification/ParquetWrite.v ===== *)
(** * The rows of a Parquet file as they are written

    The loop of [PgColumnarWriteParquetFileWith]: it cuts the rows into groups, and
    every group fits its pages.  What is written are bytes, and the groups lie
    where the footer says. *)

From Stdlib Require Import Floats.SpecFloat.
From S2P Require Import Prelude Compress Thrift ParquetCodec ParquetLevels ParquetTypes ParquetValues ParquetPage ParquetRows ParquetMeta ParquetFile.

(** ** What is written are bytes *)

Lemma varint_ok v : 0 <= v -> bytes_ok (PgColumnarThriftPutVarint v).
Proof. intros Hv. by apply (put_varint_bytes 9). Qed.

Lemma zigzag32_ok v : bytes_ok (PgColumnarThriftPutZigzag32 v).
Proof. apply varint_ok. by apply mod_pow2_bound. Qed.

Lemma zigzag64_ok v : bytes_ok (PgColumnarThriftPutZigzag64 v).
Proof. apply varint_ok. by apply mod_pow2_bound. Qed.

Lemma u8_ok v : byte_ok (u8 v).
Proof. unfold u8, byte_ok. pose proof (Z.mod_pos_bound v (2 ^ 8)). lia. Qed.

Lemma field_header_ok lastId id type : bytes_ok (PgColumnarThriftPutField lastId id type).
Proof. unfold PgColumnarThriftPutField. destruct (_ && _); (constructor; [apply u8_ok|]); [constructor|apply zigzag32_ok]. Qed.

Lemma list_header_ok size et : bytes_ok (PgColumnarThriftPutListHeader size et).
Proof.
  unfold PgColumnarThriftPutListHeader. destruct (_ <? _); (constructor; [apply u8_ok|]); [constructor|]. apply varint_ok. by apply mod_pow2_bound.
Qed.

Lemma struct_ok fs : Forall (fun f => bytes_ok f.2) fs -> forall lastId, bytes_ok (struct_bytes lastId fs).
Proof.
  induction 1 as [|[[id type] payload] fs Hp _ IH]; intros lastId; cbn [struct_bytes]; [apply Forall_cons_2; [unfold byte_ok, TC_STOP; lia|constructor]|].
  apply Forall_app_2; [apply field_header_ok|]. apply Forall_app_2; [done|apply IH].
Qed.

Lemma string_field_ok id s : bytes_ok s -> bytes_ok (string_field id s).2.
Proof. intros Hs. cbn [string_field snd]. apply Forall_app_2; [|done]. apply varint_ok. by apply mod_pow2_bound. Qed.

Lemma list_field_ok id et elems : Forall bytes_ok elems -> bytes_ok (list_field id et elems).2.
Proof. intros He. cbn [list_field snd]. apply Forall_app_2; [apply list_header_ok|]. by apply Forall_concat. Qed.

Lemma page_header_ok n size : 0 <= n < 2 ^ 31 -> bytes_ok (write_page_header n size).
Proof.
  intros Hn. rewrite page_header_bytes by done. apply struct_ok. unfold page_header_fields. repeat (apply Forall_cons_2; [apply zigzag32_ok|]). apply Forall_cons_2; [|constructor].
  apply struct_ok. unfold data_header_fields. repeat (apply Forall_cons_2; [apply zigzag32_ok|]). constructor.
Qed.

(** ** Groups of rows *)

Section Groups.
Context `{T : PgTypes} `{L : !PgTypesLaws} `{A : !PgArrays} `{AL : !PgArraysLaws A}.
Abbreviation entry := (Z * Z * option datum)%type.
Abbreviation row := (list (option coldatum)).

(** A leaf as [build_leaf_scalar] makes it. *)
Record leaf_src (typid typmod : Z) (c : PqLeaf) : Prop := {
  ls_export : exportable typid;
  ls_typmod : - 1 <= typmod < 2 ^ 31;
  ls_build : build_leaf_scalar typid typmod (max_def c) (max_rep c) (path c) = Some c;
  ls_def : 1 <= max_def c <= 3;
  ls_rep : 0 <= max_rep c <= 1 }.

Definition sourced (c : PqLeaf) : Prop := exists typid typmod, leaf_src typid typmod c.

(** The setting [pgcolumnar.export_group_bytes] for rows of at most [M] entries a
    leaf: at its maximum, which is its default, the elements of the arrays of a
    group must not pass what the reader allocates for; any smaller setting sees to
    that itself. *)
Definition PGC_EXPORT_GROUP_BYTES_MAX : Z := 256 * 1024 * 1024.

Definition cap_ok (M cap : Z) : Prop :=
  cap < PGC_EXPORT_GROUP_BYTES_MAX \/ (cap = PGC_EXPORT_GROUP_BYTES_MAX /\ PARQUET_ROWGROUP_ROWS * M <= MaxAllocSize / 8).

(** Entries a page can hold. *)
Record page_fits (c : PqLeaf) (es : list entry) : Prop := {
  pg_some : es <> [];
  pg_ok : Forall (entry_ok c) es;
  pg_size : page_room c es }.

Lemma leaf_reset c : sourced c -> pqleaf_reset c = c.
Proof using.
  intros (typid & typmod & [_ _ Hb _ _]). unfold build_leaf_scalar in Hb. destruct (parquet_kind_for_type typid typmod) as [[[[[? ph] ?] ?] ?] ?]. destruct (ph <? 0); [done|].
  by injection Hb as <-.
Qed.

Lemma reset_puts c es : sourced c -> pqleaf_reset (leaf_puts c es) = c.
Proof using. intros Hc. destruct (leaf_puts_static c es) as (? & ? & ? & ? & ? & ? & ->). transitivity (pqleaf_reset c); [done|by apply leaf_reset]. Qed.

(** The page of a leaf of a group. *)
Lemma flush_leaf c es : sourced c -> page_fits c es -> exists body, build_leaf_body (leaf_puts c es) = Ok body /\ bytes_ok body /\ zlen body < MaxAllocSize.
Proof using L.
  intros Hc [P1 P2 P3]. pose proof (leaf_reset c Hc) as Er. destruct Hc as (typid & typmod & [S1 S2 S4 S5 S6]).
  assert (Hno : exists C : BlockCodecs, True) by (exists no_codecs; done). assert (Hnz : exists Z' : Zlib, True) by (exists no_zlib; done). destruct Hno as [C _], Hnz as [ZL _].
  destruct (chunk_back 0 false typid typmod _ _ (path c) c es S1 S2 S4 S5 S6 P1 P2 P3) as (body & _ & B1 & B2 & B3 & _). rewrite Er in B1. by exists body.
Qed.

Lemma puts_entries c es : sourced c -> nEntries (leaf_puts c es) = zlen es.
Proof using. intros Hc. rewrite leaf_puts_data. cbn [with_data nEntries]. rewrite <- (leaf_reset c Hc) at 1. cbn. lia. Qed.

Lemma flush_leaves_Ok cs : forall E off, Forall sourced cs -> Forall2 page_fits cs E ->
  exists out cols total, flush_leaves (zip_with leaf_puts cs E) off = Ok (out, cols, total) /\ zlen out = total /\ bytes_ok out /\ length cols = length cs.
Proof using L.
  induction cs as [|c cs IH]; intros E off Hs Hf.
  - apply Forall2_nil_inv_l in Hf as ->. exists [], [], 0. split; [done|]. split; [done|]. split; [constructor|done].
  - apply Forall2_cons_inv_l in Hf as (es & E' & Hp & Hf & ->). apply Forall_cons_1 in Hs as [Hc Hs]. cbn [zip_with flush_leaves]. destruct (flush_leaf c es Hc Hp) as (body & -> & B1 & B2). rewrite bind_Ok.
    cbv zeta. pose proof (zlen_nonneg body). unfold MaxAllocSize in B2. rewrite s32_small by lia.
    pose proof (puts_entries c es Hc) as Hn. destruct Hp as [P1 P2 P3]. pose proof (zlen_nonneg es). pose proof (zlen_nonneg (value_bytes c es)). unfold page_room, MaxAllocSize in P3.
    set (ph := write_page_header _ _). destruct (IH E' (off + (zlen ph + zlen body)) Hs Hf) as (out & cols & total & -> & I1 & I2 & I3). rewrite bind_Ok. eexists _, _, _. split; [reflexivity|].
    split; [rewrite !zlen_app; lia|]. split; [|cbn; lia]. apply Forall_app_2; [|by apply Forall_app_2]. apply page_header_ok. lia.
Qed.

(** ** The entries of rows that are added *)

Lemma zip_app_assoc (a b c : list (list entry)) : zip_with app a (zip_with app b c) = zip_with app (zip_with app a b) c.
Proof using. revert b c. induction a as [|x a IH]; intros [|y b] [|z c]; cbn; try done. by rewrite IH, app_assoc. Qed.

Lemma zip_app_nil_r n (a : list (list entry)) : length a = n -> zip_with app a (replicate n []) = a.
Proof using. intros <-. induction a as [|x a IH]; cbn; [done|]. by rewrite IH, app_nil_r. Qed.

Lemma zip_app_nil_l n (a : list (list entry)) : length a = n -> zip_with app (replicate n []) a = a.
Proof using. intros <-. induction a as [|x a IH]; cbn; [done|]. by rewrite IH. Qed.

Lemma cost_ge c es : (if 0 <? max_rep c then 2 else 1) * zlen es + zlen (value_bytes c es) <= sum (map (entry_cost c) es).
Proof using.
  induction es as [|[[def rep] o] es IH]; [by destruct (0 <? max_rep c)|]. rewrite zlen_cons, value_bytes_cons, zlen_app. unfold sum in *. cbn [map foldr]. unfold entry_cost at 1. cbn [snd].
  set (w := if 0 <? max_rep c then 2 else 1) in *. clearbody w.
  destruct (kept c o) as [d|]; [pose proof (zlen_nonneg (bool_bytes c d))|change (zlen (@nil Z)) with 0]; lia.
Qed.

Lemma costs_each cs E B : length E = length cs -> costs cs E <= B -> Forall2 (fun c es => (if 0 <? max_rep c then 2 else 1) * zlen es + zlen (value_bytes c es) <= B) cs E.
Proof using.
  revert E. assert (Hpos : forall c es, 0 <= sum (map (entry_cost c) es)) by (intros c es; pose proof (cost_ge c es); pose proof (zlen_nonneg es); pose proof (zlen_nonneg (value_bytes c es)); destruct (0 <? max_rep c); lia).
  assert (Hall : forall cs E, 0 <= costs cs E) by (intros cs0; induction cs0 as [|c cs0 IH]; intros [|es E]; try done; rewrite costs_cons; pose proof (Hpos c es); pose proof (IH E); lia).
  induction cs as [|c cs' IH]; intros [|es E] Hl Hc; try done. rewrite costs_cons in Hc. pose proof (Hpos c es). pose proof (Hall cs' E). pose proof (cost_ge c es).
  constructor; [lia|]. apply IH; [cbn in Hl; lia|lia].
Qed.

Variable tops : list TopColumn.
Variable cs : list PqLeaf.
Hypothesis Htops : tops_from 0 tops.
Hypothesis Hcs : length cs = tops_leaves tops.
Hypothesis Hsrc : Forall sourced cs.

Lemma rows_entries_snoc rows r : Forall (fun r => length r = length tops) (rows ++ [r]) -> rows_entries tops (rows ++ [r]) = zip_with app (rows_entries tops rows) (row_entries tops r).
Proof using Htops.
  intros Hl. apply Forall_app in Hl as [Hl Hr]. apply Forall_cons_1 in Hr as [Hr _]. pose proof (length_row_entries tops 0 r Htops Hr) as Hlen.
  induction Hl as [|r0 rows H0 Hl IH]; cbn [app rows_entries foldr].
  - rewrite zip_app_nil_r by done. by rewrite zip_app_nil_l.
  - fold (rows_entries tops (rows ++ [r])) (rows_entries tops rows). by rewrite IH, zip_app_assoc.
Qed.

Lemma puts_puts (E R : list (list entry)) : length E = length cs -> length R = length cs ->
  zip_with leaf_puts (zip_with leaf_puts cs E) R = zip_with leaf_puts cs (zip_with app E R).
Proof using.
  revert E R. clear. induction cs as [|c cs' IH]; intros [|es E] [|r R] H1 H2; try done. cbn [zip_with]. cbn in H1, H2. rewrite IH by lia. by rewrite leaf_puts_app.
Qed.

(** The entries of a value behind its first one repeat. *)
Lemma later_repeat ts' r : Forall (fun es : list entry => Forall (fun e => e.1.2 = 1) (tl es)) (row_entries ts' r).
Proof using.
  clear. assert (Hel : forall elems k, Forall (fun e : entry => e.1.2 = 1) (elem_entries (S k) elems)) by (induction elems as [|o elems IH]; intros k; [constructor|by constructor]).
  assert (Hfl : forall fl fields, Forall (fun es : list entry => Forall (fun e => e.1.2 = 1) (tl es)) (field_entries fl fields)).
  { induction fl as [|[li|] fl IH]; intros fields; cbn [field_entries]; [constructor| |apply IH]. constructor; [constructor|apply IH]. }
  unfold row_entries. apply Forall_concat. revert r. induction ts' as [|tc ts' IH]; intros [|v r]; cbn [zip_with]; [constructor..|]. constructor; [|apply IH].
  destruct tc; destruct v as [[d|ndim lb [|o elems]|fields]|]; cbn [top_entries elem_entries]; try apply Hfl; (constructor; [|constructor]); cbn [tl]; try constructor; apply Hel.
Qed.

(** ** Rows that fit *)

Variable M : Z.

Record row_ok (r : row) : Prop := {
  ro_shaped : Forall2 shaped tops r;
  ro_fits : Forall2 page_fits cs (row_entries tops r);
  ro_max : Forall (fun es => zlen es <= M) (row_entries tops r) }.

(** A leaf that does not repeat has one entry per row. *)
Lemma one_entry r : row_ok r -> Forall2 (fun c es => max_rep c <= 0 -> zlen es <= 1) cs (row_entries tops r).
Proof using.
  intros [_ Hf _]. pose proof (later_repeat tops r) as Hl. revert Hl Hf. generalize (row_entries tops r) as R. clear. intros R Hl Hf.
  induction Hf as [|c es cs' R [_ P _] _ IH]; [constructor|]. apply Forall_cons_1 in Hl as [H1 H2]. constructor; [|by apply IH]. intros Hm.
  destruct es as [|e [|e' es]]; [done|done|]. cbn [tl] in H1. apply Forall_cons_1 in H1 as [H1 _]. apply Forall_cons_1 in P as [_ P]. apply Forall_cons_1 in P as [(_ & P & _) _]. lia.
Qed.

Lemma row_length r : row_ok r -> length r = length tops.
Proof using. intros [H _ _]. symmetry. by eapply Forall2_length. Qed.

(** A group is one row or is within the cap. *)
Variable cap : Z.
Hypothesis Hcap : cap_ok M cap.
Hypothesis HM : 0 <= M.

Definition capped (g : list row) : Prop := (exists r, g = [r]) \/ pq_group_bytes (zip_with leaf_puts cs (rows_entries tops g)) <= cap.

Lemma group_bytes_0 : pq_group_bytes cs = 0.
Proof using Hsrc.
  unfold pq_group_bytes. revert Hsrc. clear. intros Hsrc. induction Hsrc as [|c cs' Hc _ IH]; [done|]. cbn [map foldr]. rewrite IH, <- (leaf_reset c Hc). done.
Qed.

Lemma group_entries g : Forall row_ok g -> g <> [] ->
  Forall2 (fun c es => es <> [] /\ Forall (entry_ok c) es /\ zlen g <= zlen es <= zlen g * M /\ (max_rep c <= 0 -> zlen es <= zlen g)) cs (rows_entries tops g).
Proof using Htops Hcs HM.
  intros Hg Hne. induction Hg as [|r g Hr Hg IH]; [done|]. cbn [rows_entries foldr]. fold (rows_entries tops g). pose proof Hr as [R1 R2 R3].
  pose proof (one_entry r Hr) as R4.
  assert (Hbase : Forall2 (fun c es => Forall (entry_ok c) es /\ zlen g <= zlen es <= zlen g * M /\ (max_rep c <= 0 -> zlen es <= zlen g)) cs (rows_entries tops g)).
  { destruct g as [|r' g].
    - cbn [rows_entries foldr]. clear -Hcs. revert Hcs. generalize (tops_leaves tops) as n. induction cs as [|c cs' IH]; intros [|n] Hl; try done; constructor; [|by apply IH; cbn in Hl; lia].
      split; [constructor|]. change (zlen (@nil entry)) with 0. change (zlen (@nil row)) with 0. lia.
    - specialize (IH ltac:(done)). eapply Forall2_impl; [|exact IH]. cbn beta. tauto. }
  rewrite zlen_cons. clear -R2 R3 R4 Hbase. revert R2 R3 R4 Hbase. generalize (row_entries tops r) as R. generalize (rows_entries tops g) as E. intros E R R2. revert E.
  induction R2 as [|c es cs' R [P1 P2 P3] _ IH]; intros E R3 R4 Hb; [apply Forall2_nil_inv_l in Hb as ->; constructor|].
  apply Forall2_cons_inv_l in Hb as (es' & E' & (B1 & B2 & B3) & Hb & ->). apply Forall_cons_1 in R3 as [M1 R3]. apply Forall2_cons_1 in R4 as [O1 R4]. cbn [zip_with]. constructor; [|by apply IH].
  split; [by destruct es|]. split; [by apply Forall_app_2|]. rewrite zlen_app. assert (1 <= zlen es) by (destruct es; [done|rewrite zlen_cons; pose proof (zlen_nonneg es); lia]). lia.
Qed.

(** The entries of a leaf in a group within the cap. *)
Lemma capped_room c es n : 0 <= n <= PARQUET_ROWGROUP_ROWS -> zlen es <= n * M -> (max_rep c <= 0 -> zlen es <= n) ->
  (if 0 <? max_rep c then 2 else 1) * zlen es + zlen (value_bytes c es) <= cap -> page_room c es.
Proof using HM Hcap.
  clear Hcs. intros Hn Hm H1 Hc. pose proof (zlen_nonneg (value_bytes c es)). pose proof (zlen_nonneg es). unfold page_room, cap_ok, PGC_EXPORT_GROUP_BYTES_MAX, PARQUET_ROWGROUP_ROWS, MaxAllocSize in *.
  change (1073741823 / 8) with 134217727 in Hcap. destruct (Z.ltb_spec 0 (max_rep c)); [|lia]. destruct Hcap as [Hlt|[-> HM']]; [lia|]. assert (zlen es <= 65536 * M) by nia. lia.
Qed.

Lemma group_fits g : Forall row_ok g -> g <> [] -> zlen g <= PARQUET_ROWGROUP_ROWS -> capped g -> Forall2 page_fits cs (rows_entries tops g).
Proof using Htops Hcs Hsrc HM Hcap.
  intros Hg Hne Hlen Hc. pose proof (group_entries g Hg Hne) as He. destruct Hc as [[r ->]|Hc].
  - apply Forall_cons_1 in Hg as [[_ R2 _] _]. cbn [rows_entries foldr]. rewrite zip_app_nil_r; [done|]. rewrite <- Hcs. symmetry. by eapply Forall2_length.
  - pose proof (Forall2_length He) as Hl. rewrite group_bytes_puts, group_bytes_0 in Hc by done. pose proof (costs_each cs (rows_entries tops g) cap ltac:(done) ltac:(lia)) as Hcost.
    pose proof (zlen_nonneg g) as Hzg. clear -He Hcost Hlen Hcap HM Hzg. revert He Hcost. generalize (rows_entries tops g) as E. intros E He. induction He as [|c es cs' E (H1 & H2 & H3 & H4) _ IH]; intros Hcost; [constructor|].
    apply Forall2_cons_1 in Hcost as [C1 C2]. constructor; [|by apply IH]. split; [done|done|]. apply (capped_room c es (zlen g)); [lia|lia|done|done].
Qed.

(** ** The writer's loop *)

Definition group_puts (g : list row) : list PqLeaf := zip_with leaf_puts cs (rows_entries tops g).

Record good_group (g : list row) : Prop := {
  gg_rows : Forall row_ok g;
  gg_some : g <> [];
  gg_len : zlen g <= PARQUET_ROWGROUP_ROWS;
  gg_cap : capped g }.

(** The groups [gs] lie in [out] behind the magic, as the footer's groups say. *)
Inductive laid : list (list row) -> list PqWriteGroup -> list Z -> Prop :=
| laid_nil : laid [] [] PAR1
| laid_snoc gs rgs out g o cols total : laid gs rgs out -> good_group g -> flush_leaves (group_puts g) (zlen out) = Ok (o, cols, total) -> total = zlen o ->
    bytes_ok o -> laid (gs ++ [g]) (rgs ++ [mkWriteGroup (zlen g) total cols]) (out ++ o).

(** The groups written so far are [gs], the open group holds [grp]. *)
Record writing (gs : list (list row)) (grp : list row) (ws : WriteState) : Prop := {
  wi_laid : laid gs (ws_rgs ws) (ws_out ws);
  wi_offset : ws_offset ws = zlen (ws_out ws);
  wi_leaves : ws_leaves ws = group_puts grp;
  wi_count : ws_groupRows ws = zlen grp;
  wi_len : zlen grp < PARQUET_ROWGROUP_ROWS;
  wi_rows : Forall row_ok grp;
  wi_cap : grp = [] \/ capped grp;
  wi_total : ws_total ws = zlen (concat gs) + zlen grp }.

Lemma group_puts_nil : group_puts [] = cs.
Proof using Hcs.
  unfold group_puts. cbn [rows_entries foldr]. rewrite <- Hcs. clear. induction cs as [|c cs' IH]; [done|]. cbn [length replicate zip_with]. by rewrite IH.
Qed.

Lemma rows_length g : Forall row_ok g -> Forall (fun r => length r = length tops) g.
Proof using. intros Hg. eapply list.Forall_impl; [exact Hg|]. apply row_length. Qed.

Lemma length_group g : Forall row_ok g -> length (rows_entries tops g) = length cs.
Proof using Htops Hcs. intros Hg. rewrite (length_rows_entries tops 0 g Htops (rows_length g Hg)). done. Qed.

Lemma reset_group g : Forall row_ok g -> map pqleaf_reset (group_puts g) = cs.
Proof using Htops Hcs Hsrc.
  intros Hg%length_group. unfold group_puts. revert Hg. generalize (rows_entries tops g) as E. revert Hsrc. clear. induction 1 as [|c cs' Hc _ IH]; intros [|es E] Hl; try done.
  cbn [zip_with map]. rewrite reset_puts by done. f_equal. apply IH. cbn in Hl. lia.
Qed.

Lemma flush_writing gs grp ws : good_group grp -> laid gs (ws_rgs ws) (ws_out ws) -> ws_offset ws = zlen (ws_out ws) -> ws_leaves ws = group_puts grp -> ws_groupRows ws = zlen grp ->
  ws_total ws = zlen (concat gs) + zlen grp -> exists ws', pq_flush_row_group ws = Ok ws' /\ writing (gs ++ [grp]) [] ws'.
Proof using Htops Hcs Hsrc HM Hcap L.
  intros Hg Hl Ho Hlv Hn Ht. pose proof Hg as [G1 G2 G3 G4]. destruct (flush_leaves_Ok cs (rows_entries tops grp) (zlen (ws_out ws)) Hsrc (group_fits grp G1 G2 G3 G4)) as (o & cols & total & E & F1 & F2 & F3).
  unfold pq_flush_row_group. rewrite Ho, Hlv. fold (group_puts grp) in E. rewrite E, bind_Ok. eexists. split; [reflexivity|]. split; cbn [ws_rgs ws_out ws_offset ws_leaves ws_groupRows ws_total]; try done.
  - rewrite Hn. by eapply laid_snoc.
  - rewrite zlen_app. lia.
  - by rewrite group_puts_nil, reset_group.
  - by left.
  - rewrite concat_app, zlen_app. cbn [concat]. rewrite app_nil_r. change (zlen (@nil row)) with 0. lia.
Qed.

Lemma fits_writable c es rs : sourced c -> page_fits c (es ++ rs) -> writable (leaf_puts c es) rs.
Proof using.
  clear. intros Hc [P1 P2 [P3 P4]]. apply writable_app. pose proof (leaf_reset c Hc) as Er. destruct Hc as (? & ? & [? ? ? S5 S6]).
  pose proof (zlen_nonneg (es ++ rs)). pose proof (zlen_nonneg (value_bytes c (es ++ rs))).
  assert (Hz : defs c = [] /\ reps c = [] /\ boolbits c = [] /\ values c = []) by (rewrite <- Er; done). destruct Hz as (Z1 & Z2 & Z3 & Z4).
  split; rewrite ?Z1, ?Z2, ?Z3, ?Z4; change (zlen (@nil Z)) with 0; try lia. done.
Qed.

Lemma group_writable g r : Forall row_ok (g ++ [r]) -> Forall2 page_fits cs (rows_entries tops (g ++ [r])) -> Forall2 writable (group_puts g) (row_entries tops r).
Proof using Htops Hcs Hsrc.
  intros Hg Hf. pose proof Hg as Hg'. rewrite rows_entries_snoc in Hf by (by apply rows_length). apply Forall_app in Hg' as [Hg1 Hr]. apply Forall_cons_1 in Hr as [Hr _].
  pose proof (length_group g Hg1) as Hl. assert (Hlr : length (row_entries tops r) = length cs) by (rewrite (length_row_entries tops 0 r Htops (row_length r Hr)); done).
  unfold group_puts. revert Hf Hl Hlr. generalize (rows_entries tops g) as E. generalize (row_entries tops r) as R. revert Hsrc. clear.
  induction 1 as [|c cs' Hc _ IH]; intros [|rs R] [|es E] Hf Hl Hlr; try done. cbn [zip_with] in *. apply Forall2_cons_1 in Hf as [H1 H2].
  constructor; [by apply fits_writable|]. apply IH; [done|cbn in *; lia..].
Qed.

Lemma fit_puts E R : length E = length cs -> Forall2 entries_fit cs R -> Forall2 entries_fit (zip_with leaf_puts cs E) R.
Proof using.
  clear. intros Hl Hf. revert E Hl. induction Hf as [|c rs cs' R H1 _ IH]; intros [|es E] Hl; try done. cbn [zip_with]. constructor; [|apply IH; cbn in Hl; lia].
  rewrite leaf_puts_data. exact H1.
Qed.

Lemma costs_puts E R : length E = length cs -> costs (zip_with leaf_puts cs E) R = costs cs R.
Proof using.
  clear. revert E R. induction cs as [|c cs' IH]; intros [|es E] [|rs R] Hl; try done. cbn [zip_with]. rewrite !costs_cons, IH by (cbn in Hl; lia). f_equal. rewrite leaf_puts_data. done.
Qed.

Lemma row_estimate g r : Forall row_ok g -> row_ok r -> exists b, pq_row_bytes tops (group_puts g) r = Ok b /\
  pq_group_bytes (group_puts (g ++ [r])) <= pq_group_bytes (group_puts g) + b.
Proof using Htops Hcs Hsrc AL.
  clear Hcap HM cap. intros Hg Hr. pose proof Hr as [R1 R2 R3]. pose proof (length_group g Hg) as Hl. assert (Hlr : length (row_entries tops r) = length cs) by (rewrite (length_row_entries tops 0 r Htops (row_length r Hr)); done).
  destruct (row_bytes_bound tops r [] (group_puts g) Htops R1) as (b & E & Hb).
  { apply fit_puts; [done|]. eapply Forall2_impl; [|exact R2]. by intros c es []. }
  exists b. split; [exact E|]. unfold group_puts in *. rewrite costs_puts in Hb by done. rewrite rows_entries_snoc by (apply rows_length, Forall_app_2; [done|]; by constructor).
  rewrite <- puts_puts by done. rewrite group_bytes_puts by (rewrite length_zip_with_l_eq; done). rewrite costs_puts by done. lia.
Qed.

Lemma group_puts_snoc g r : Forall row_ok g -> row_ok r -> zip_with leaf_puts (group_puts g) (row_entries tops r) = group_puts (g ++ [r]).
Proof using Htops Hcs.
  intros Hg Hr. unfold group_puts. rewrite rows_entries_snoc by (apply rows_length, Forall_app_2; [done|]; by constructor). apply puts_puts; [by apply length_group|].
  rewrite (length_row_entries tops 0 r Htops (row_length r Hr)). done.
Qed.

(** A row goes into the open group or, when that group is cut, into the next one. *)
Lemma add_row gs grp ws r : writing gs grp ws -> row_ok r -> capped (grp ++ [r]) ->
  exists ws' gs' grp', (leaves ← shred_row tops (ws_leaves ws) r;
      let ws := mkWrite (ws_out ws) (ws_offset ws) leaves (ws_groupRows ws + 1) (ws_rgs ws) (ws_total ws + 1) in
      if ws_groupRows ws =? PARQUET_ROWGROUP_ROWS then pq_flush_row_group ws else Ok ws) = Ok ws' /\
    writing gs' grp' ws' /\ concat gs' ++ grp' = concat gs ++ grp ++ [r].
Proof using Htops Hcs Hsrc HM Hcap L.
  intros [W1 W2 W3 W4 W5 W6 W7 W8] Hr Hc. assert (Hg : Forall row_ok (grp ++ [r])) by (apply Forall_app_2; [done|]; by constructor).
  assert (Hlen : zlen (grp ++ [r]) = zlen grp + 1) by (rewrite zlen_app; done).
  assert (Hgood : good_group (grp ++ [r])) by (split; [done|by destruct grp|lia|done]).
  pose proof (group_fits _ Hg (gg_some _ Hgood) ltac:(lia) Hc) as Hf. pose proof (group_writable grp r Hg Hf) as Hw.
  pose proof (shred_row_Ok tops r [] (group_puts grp) Htops) as E. cbn [app] in E. rewrite W3, E; [|unfold group_puts; rewrite length_zip_with_l_eq; [done|by rewrite length_group]|apply Hr|done].
  rewrite bind_Ok, group_puts_snoc by done. cbv zeta. cbn [ws_groupRows].
  destruct (Z.eqb_spec (ws_groupRows ws + 1) PARQUET_ROWGROUP_ROWS) as [Hfull|Hfull].
  - destruct (flush_writing gs (grp ++ [r]) (mkWrite (ws_out ws) (ws_offset ws) (group_puts (grp ++ [r])) (ws_groupRows ws + 1) (ws_rgs ws) (ws_total ws + 1))) as (ws' & E' & Hw'); cbn [ws_rgs ws_out ws_offset ws_leaves ws_groupRows ws_total]; try done; try lia.
    exists ws', (gs ++ [grp ++ [r]]), []. split; [done|]. split; [done|]. rewrite concat_app. cbn [concat]. by rewrite !app_nil_r.
  - eexists _, gs, (grp ++ [r]). split; [reflexivity|]. split; [|done]. split; cbn [ws_rgs ws_out ws_offset ws_leaves ws_groupRows ws_total]; try done; try lia. by right.
Qed.

Lemma write_row_Ok gs grp ws r : writing gs grp ws -> row_ok r -> exists ws' gs' grp', write_row cap tops ws r = Ok ws' /\ writing gs' grp' ws' /\ concat gs' ++ grp' = concat gs ++ grp ++ [r].
Proof using Htops Hcs Hsrc HM Hcap L AL.
  intros Hw Hr. pose proof Hw as [W1 W2 W3 W4 W5 W6 W7 W8]. unfold write_row. rewrite W4. destruct grp as [|r0 grp].
  - change (0 <? zlen (@nil row)) with false. cbv iota. rewrite !bind_Ok. apply add_row; [done|done|]. left. by exists r.
  - rewrite zlen_cons. pose proof (zlen_nonneg grp). rewrite (proj2 (Z.ltb_lt 0 (1 + zlen grp))) by lia. rewrite W3. destruct (row_estimate _ r W6 Hr) as (b & -> & Hb). rewrite !bind_Ok.
    destruct W7 as [|W7]; [done|]. destruct (Z.ltb_spec cap (pq_group_bytes (group_puts (r0 :: grp)) + b)) as [Hcut|Hcut].
    + destruct (flush_writing gs (r0 :: grp) ws) as (ws1 & -> & Hw1); [by split; [done|done|lia|done]|done..|]. rewrite bind_Ok.
      destruct (add_row _ _ ws1 r Hw1 Hr) as (ws' & gs' & grp' & E & Hw' & Hcc); [left; by exists r|]. exists ws', gs', grp'. split; [exact E|]. split; [done|].
      rewrite Hcc, concat_app. cbn [concat]. by rewrite app_nil_r, <- app_assoc.
    + rewrite bind_Ok. apply add_row; [done|done|]. right. unfold group_puts in *. lia.
Qed.

Lemma write_rows_Ok rows : forall gs grp ws, writing gs grp ws -> Forall row_ok rows ->
  exists ws' gs', write_rows cap tops ws rows = Ok ws' /\ laid gs' (ws_rgs ws') (ws_out ws') /\ ws_leaves ws' = cs /\ concat gs' = concat gs ++ grp ++ rows /\ ws_total ws' = zlen (concat gs').
Proof using Htops Hcs Hsrc HM Hcap L AL.
  induction rows as [|r rows IH]; intros gs grp ws Hw Hrows; cbn [write_rows].
  - pose proof Hw as [W1 W2 W3 W4 W5 W6 W7 W8]. rewrite W4. destruct grp as [|r0 grp].
    + change (0 <? zlen (@nil row)) with false. cbv iota. exists ws, gs. split; [done|]. split; [done|]. split; [by rewrite W3, group_puts_nil|]. rewrite !app_nil_r. split; [done|]. change (zlen (@nil row)) with 0 in W8. lia.
    + rewrite (proj2 (Z.ltb_lt _ _)) by (rewrite zlen_cons; pose proof (zlen_nonneg grp); lia). destruct W7 as [|W7]; [done|].
      destruct (flush_writing gs (r0 :: grp) ws) as (ws1 & -> & [V1 V2 V3 V4 V5 V6 V7 V8]); [by split; [done|done|lia|done]|done..|]. exists ws1, (gs ++ [r0 :: grp]). split; [done|]. split; [done|].
      split; [by rewrite V3, group_puts_nil|]. rewrite concat_app in *. cbn [concat] in *. rewrite !app_nil_r in *. split; [done|]. change (zlen (@nil row)) with 0 in V8. lia.
  - apply Forall_cons_1 in Hrows as [Hr Hrows]. destruct (write_row_Ok gs grp ws r Hw Hr) as (ws1 & gs1 & grp1 & -> & Hw1 & E1). rewrite bind_Ok.
    destruct (IH gs1 grp1 ws1 Hw1 Hrows) as (ws' & gs' & E & H1 & H2 & H3 & H4). exists ws', gs'. split; [done|]. split; [done|]. split; [done|]. split; [|done].
    rewrite H3, app_assoc, E1, <- !app_assoc. done.
Qed.
End Groups.
