(* ===== verification/ParquetRoundtrip.v ===== *)
(** * A Parquet file that was written, read back

    The reader binds the columns of the table the file was written from, decodes
    the pages of every group where the footer puts them and assembles the rows. *)

From S2P Require Import Prelude Alp Compress Thrift ParquetCodec ParquetLevels ParquetTypes ParquetValues ParquetPage ParquetRows ParquetMeta ParquetFile ParquetWrite.

(** ** The pages of a group *)

Section Back.
Context `{T : PgTypes} `{L : !PgTypesLaws} `{A : !PgArrays} `{AL : !PgArraysLaws A} `{TC : !TypmodCoercion}.
Context `{C : BlockCodecs} `{ZL : Zlib} (stack : nat) (buffered : bool).
Abbreviation entry := (Z * Z * option datum)%type.
Abbreviation row := (list (option coldatum)).

(** The type and type modifier a leaf is read into. *)
Definition target : Type := Z * Z.

Definition leaf_for (t : target) (c : PqLeaf) : Prop := exists typmod, leaf_src t.1 typmod c /\ reimportable t.1 typmod = true.

Definition bound (t : target) (c : PqLeaf) : ImpLeaf := bound_leaf t.1 t.2 (ptype c) (info_of c).

(** The entries of a leaf keep their values under the length coercion of its
    column. *)
Definition conforms (t : target) (c : PqLeaf) (es : list entry) : Prop := typed c (bound t c) es.

Lemma decode_back itops ts cs : Forall2 leaf_for ts cs -> forall E i src pre o post cols total, Forall2 page_fits cs E -> Forall3 conforms ts cs E ->
  flush_leaves (zip_with leaf_puts cs E) (zlen pre) = Ok (o, cols, total) -> src_ok src -> src_bytes src = pre ++ o ++ post ->
  (forall j, (i <= j < i + length cs)%nat -> need_leaf itops None j = true) ->
  exists src' ls, decode_group stack buffered src itops None i (zip_with bound ts cs) (zip_with chunk_of cs cols) = Ok (src', ls) /\ src_ok src' /\ src_bytes src' = src_bytes src /\
    Forall3 at_entries cs ls E.
Proof using L.
  induction 1 as [|t c ts cs Ht Hts IH]; intros E i src pre o post cols total Hf Hc Hfl Hs Eb Hn.
  - apply Forall2_nil_inv_l in Hf as ->. exists src, []. split; [done|]. split; [done|]. split; [done|]. apply Forall3_nil.
  - apply Forall2_cons_inv_l in Hf as (es & E' & Hp & Hf & ->). inversion Hc as [|? ? ? ? ? ? Hc1 Hc2]; subst. cbn [zip_with flush_leaves] in Hfl.
    destruct Ht as (typmod & Hsrc & S3). assert (Hso : sourced c) by (by exists t.1, typmod). pose proof (puts_entries c es Hso) as Hne. pose proof (leaf_reset c Hso) as Er. pose proof Hp as [P1 P2 P3]. pose proof Hsrc as [S1 S2 S4 S5 S6].
    destruct (chunk_back stack buffered t.1 typmod _ _ (path c) c es S1 S2 S4 S5 S6 P1 P2 P3) as (body & _ & B1 & B2 & B3 & B4). rewrite Er in B1.
    rewrite B1, bind_Ok in Hfl. cbv zeta in Hfl. rewrite Hne in Hfl. pose proof (zlen_nonneg body). rewrite s32_small in Hfl by (unfold MaxAllocSize in B3; lia).
    set (ph := write_page_header (zlen es) (zlen body)) in *. clearbody ph. rewrite <- !zlen_app in Hfl. destruct (flush_leaves (zip_with leaf_puts cs E') _) as [[[o' cols'] total']| | |] eqn:Ef; [|done..].
    rewrite bind_Ok in Hfl. injection Hfl as <- <- <-. cbn [zip_with decode_group]. rewrite Hn by (cbn; lia).
    set (ch := chunk_of c _). change (ch_num_values ch) with (zlen es). pose proof (zlen_nonneg es). pose proof (zlen_nonneg (value_bytes c es)).
    assert (1 <= zlen es) by (destruct es; [done|rewrite zlen_cons; pose proof (zlen_nonneg es); lia]). cbv zeta. rewrite Z.max_l by lia.
    rewrite !palloc_slots_Ok, !bind_Ok by (change (MaxAllocSize / 8) with 134217727; unfold page_room, MaxAllocSize in *; lia).
    destruct (B4 (leaf_name c) 1 src pre (o' ++ post) ch (zlen es) (zlen es) S3 ltac:(done) ltac:(done) Hs) as (src1 & D1 & D2 & D3); [by rewrite Eb, <- !app_assoc|done|].
    change (decode_leaf_entries stack buffered src ch (im_plan (bound t c)) (im_max_def (bound t c)) (im_max_rep (bound t c)) (zlen es) (zlen es))
      with (decode_leaf_entries stack buffered src ch (leaf_plan t.1 c (leaf_name c) 1) (max_def c) (max_rep c) (zlen es) (zlen es)). rewrite D1, !bind_Ok.
    destruct (IH E' (S i) src1 (pre ++ ph ++ body) o' post cols' total' Hf Hc2 Ef D2) as (src2 & ls & I1 & I2 & I3 & I4); [by rewrite D3, Eb, <- !app_assoc|intros j Hj; apply Hn; cbn; lia|].
    rewrite I1, bind_Ok. eexists src2, _. split; [reflexivity|]. split; [done|]. split; [congruence|]. apply Forall3_cons; [|done].
    split; cbn; try done; lia.
Qed.

(** ** The rows of a group *)

Lemma top_of_leaf tops : forall k a j, tops_from k tops -> (k <= j < k + tops_leaves tops)%nat ->
  exists t top, imp_tops a tops !! t = Some top /\ (it_firstLeaf top <= j < it_firstLeaf top + it_nleaves top)%nat.
Proof using.
  induction tops as [|tc tops IH]; intros k a j Hf Hj; cbn [tops_leaves] in Hj; [lia|]. destruct Hf as [Hf1 Hf2]. cbn [imp_tops].
  destruct (decide (j < k + top_leaves tc)%nat) as [Hlt|Hge].
  - exists O, (imp_top a tc). split; [done|]. destruct tc; cbn [top_from top_leaves imp_top it_firstLeaf it_nleaves] in *; [lia..|]. destruct Hf1 as (-> & _). lia.
  - destruct (IH (k + top_leaves tc)%nat (S a) j Hf2 ltac:(lia)) as (t & top & H1 & H2). by exists (S t), top.
Qed.

Lemma need_every tops a j : tops_from 0 tops -> (j < tops_leaves tops)%nat -> need_leaf (imp_tops a tops) None j = true.
Proof using.
  intros Hf Hj. destruct (top_of_leaf tops 0 a j Hf ltac:(lia)) as (t & top & H1 & H2). unfold need_leaf. apply existsb_exists. exists (t, top).
  split; [|cbn [nth_need andb]; apply andb_true_iff; split; [apply Nat.leb_le; lia|apply Nat.ltb_lt; lia]].
  apply list_elem_of_In. apply (list_elem_of_lookup_2 _ t). by rewrite list_lookup_imap, H1.
Qed.

Definition collect (s : list row) (r : row) : res (list row) := Ok (s ++ [r]).

Variable tops : list TopColumn.
Variable cs : list PqLeaf.
Variable ts : list target.
Hypothesis Htops : tops_from 0 tops.
Hypothesis Hcs : length cs = tops_leaves tops.
Hypothesis Hlev : levels_ok cs tops.
Hypothesis Hts : Forall2 leaf_for ts cs.
Variable M : Z.

Lemma for_sourced : Forall sourced cs.
Proof using Hts. revert Hts. clear. induction 1 as [|t c ts' cs' (tm & Ht & _) _ IH]; [constructor|]. apply Forall_cons_2; [by exists t.1, tm|done]. Qed.

Definition row_conforms (r : row) : Prop := Forall3 conforms ts cs (row_entries tops r).

Lemma group_conforms g : Forall (row_ok tops cs M) g -> Forall row_conforms g -> Forall3 conforms ts cs (rows_entries tops g).
Proof using Hts Hcs Htops.
  intros Hg Hc. induction Hc as [|r g Hr Hc IH]; cbn [rows_entries foldr].
  - rewrite <- Hcs. revert Hts. clear. induction 1 as [|t c ts' cs' _ _ IH]; [apply Forall3_nil|]. cbn [length replicate]. apply Forall3_cons; [constructor|done].
  - fold (rows_entries tops g). apply Forall_cons_1 in Hg as [_ Hg]. specialize (IH Hg). unfold row_conforms in Hr. revert IH Hr. generalize (rows_entries tops g) as E. generalize (row_entries tops r) as R. clear.
    intros R E HE HR. revert E HE. induction HR as [|t c rs ts cs R H1 _ IH]; intros E HE; inversion HE; subst; cbn [zip_with]; [apply Forall3_nil|]. apply Forall3_cons; [by apply Forall_app_2|by apply IH].
Qed.

Lemma group_rows_back g : forall ls ord s total, Forall (row_ok tops cs M) g -> Forall3 at_entries cs ls (rows_entries tops g) ->
  group_rows collect (length g) (imp_tops 0 tops) None (length tops) None ord ls None s total = Ok (None, s ++ map (seen_row cs tops) g, total + zlen g).
Proof using Htops Hcs Hlev.
  induction g as [|r g IH]; intros ls ord s total Hg Hat; cbn [length group_rows map]; [by rewrite app_nil_r, Z.add_0_r|]. apply Forall_cons_1 in Hg as [Hr Hg]. pose proof Hr as [R1 R2 R3].
  cbn [rows_entries foldr] in Hat. fold (rows_entries tops g) in Hat.
  destruct (read_row false tops r [] (replicate (length tops) None) [] cs ls (rows_entries tops g)) as (ls' & E & Hat'); try done.
  - rewrite (length_group tops cs Htops Hcs M g Hg). done.
  - eapply Forall2_impl; [|exact R2]. by intros c es [].
  - apply rows_entries_start.
  - by rewrite length_replicate.
  - cbn [app length] in E. cbn [fresh_slot]. rewrite E, bind_Ok. change (collect s (seen_row cs tops r)) with (Ok (s ++ [seen_row cs tops r])). rewrite !bind_Ok. rewrite (IH ls' (ord + 1) (s ++ [seen_row cs tops r]) (total + 1) Hg Hat').
    rewrite <- app_assoc. cbn [app]. rewrite zlen_cons. do 2 f_equal. lia.
Qed.

(** ** The groups of a file *)

Variable cap : Z.
Hypothesis HM : 0 <= M.
Hypothesis Hcap : cap_ok M cap.

(** The group [g] lies in [file] where [rg] says. *)
Definition placed (file : list Z) (g : list row) (rg : PqWriteGroup) : Prop :=
  exists pre o post cols, file = pre ++ o ++ post /\ good_group tops cs M cap g /\ flush_leaves (group_puts tops cs g) (zlen pre) = Ok (o, cols, zlen o) /\ rg = mkWriteGroup (zlen g) (zlen o) cols.

Lemma laid_placed gs rgs out : laid tops cs M cap gs rgs out -> bytes_ok out /\ forall post, Forall2 (placed (out ++ post)) gs rgs.
Proof using.
  clear Hcs. induction 1 as [|gs rgs out g o cols total Hl [IH1 IH2] Hg Hf -> Ho]; [split; [|constructor]; repeat (apply Forall_cons_2; [unfold byte_ok; lia|]); constructor|].
  split; [by apply Forall_app_2|]. intros post. apply Forall2_app; [rewrite <- app_assoc; apply IH2|]. constructor; [|constructor]. exists out, o, post, cols. by rewrite <- app_assoc.
Qed.

Lemma read_groups_back gs rgs file : Forall2 (placed file) gs rgs -> Forall row_conforms (concat gs) -> forall src base s total, src_ok src -> src_bytes src = file ->
  read_groups stack buffered collect src (map (group_of cs) rgs) None (imp_tops 0 tops) (zip_with bound ts cs) None (length tops) None base None s total =
    Ok (s ++ map (seen_row cs tops) (concat gs), total + zlen (concat gs)).
Proof using Htops Hcs Hlev Hts HM Hcap L.
  induction 1 as [|g rg gs rgs (pre & o & post & cols & Ef & Hg & Hfl & ->) Hp IH]; intros Hc src base s total Hs Eb; cbn [map read_groups concat]; [by rewrite app_nil_r, Z.add_0_r|].
  cbn [concat] in Hc. apply Forall_app in Hc as [Hc1 Hc2]. pose proof Hg as [G1 G2 G3 G4]. cbv zeta iota. cbn [group_of rg_chunks wg_cols].
  destruct (decode_back (imp_tops 0 tops) ts cs Hts (rows_entries tops g) 0 src pre o post cols (zlen o)) as (src' & ls & -> & D2 & D3 & D4);
    [by apply (group_fits tops cs Htops Hcs for_sourced M cap Hcap HM)|by apply group_conforms|done|done|congruence|intros j Hj; apply need_every; [done|lia]|].
  rewrite bind_Ok. cbn [group_of rg_num_rows wg_numRows]. replace (Z.to_nat (zlen g)) with (length g) by (unfold zlen; lia). rewrite group_rows_back by done. rewrite bind_Ok.
  rewrite IH by (done || congruence). rewrite map_app, app_assoc, zlen_app. do 2 f_equal. lia.
Qed.
End Back.

(** ** Binding the columns of the table *)

Section Columns.
Context `{T : PgTypes} `{TC : !TypmodCoercion}.

Definition field_targets (fields : list (option (list Z * Z * Z))) : list target := omap (fun f => match f with Some (_, typid, typmod) => Some (typid, typmod) | None => None end) fields.

(** The types the leaves of a column are read into. *)
Definition col_targets (ty : coltype) : list target :=
  match ty with
  | CScalar typid typmod | CArray typid typmod => [(typid, typmod)]
  | CComposite fields => field_targets fields
  end.

Definition field_back (f : option (list Z * Z * Z)) : Prop :=
  match f with Some (fname, typid, typmod) => scalar_ok typid typmod fname /\ bytes_ok fname /\ reimportable typid typmod = true | None => True end.

(** A column whose types are all read back into themselves. *)
Definition column_back (name : list Z) (ty : coltype) : Prop :=
  column_ok name ty /\ bytes_ok name /\
  match ty with
  | CScalar typid typmod => reimportable typid typmod = true
  | CArray elemtype _ => reimportable elemtype (-1) = true
  | CComposite fields => Forall field_back fields
  end.

Definition path_ok (c : PqLeaf) : Prop := zlen (path c) < 2 ^ 31 /\ Forall (fun p => zlen p < 2 ^ 32 /\ bytes_ok p) (path c).

Definition top_names (tc : TopColumn) : Prop :=
  match tc with
  | TOP_SCALAR name _ | TOP_LIST name _ => bytes_ok name
  | TOP_STRUCT name _ _ fl => bytes_ok name /\ Forall (fun li => match li with Some (_, fname) => bytes_ok fname | None => True end) fl
  end.

Lemma leaf_phys_range typid typmod md mr pa c : build_leaf_scalar typid typmod md mr pa = Some c -> 0 <= ptype c < 2 ^ 31.
Proof using.
  intros Hb. unfold build_leaf_scalar, parquet_kind_for_type in Hb. cbv zeta in Hb.
  repeat match type of Hb with context [if ?b then _ else _] => destruct b; try (injection Hb as <-; by split; vm_compute); try done end.
Qed.

Lemma leaf_source typid typmod md mr pa c : exportable typid -> - 1 <= typmod < 2 ^ 31 -> build_leaf_scalar typid typmod md mr pa = Some c ->
  1 <= md <= 3 -> 0 <= mr <= 1 -> leaf_src typid typmod c.
Proof using. intros He Ht Hb Hd Hm. destruct (build_leaf_at _ _ _ _ _ _ Hb) as (<- & <- & <-). by split. Qed.

Lemma bind_leaf_back pf lf t c rep_ok : pf_leaves pf !! lf = Some (info_of c) -> leaf_for t c -> rep_ok (max_rep c) = true -> bind_leaf pf lf t.1 t.2 rep_ok = Ok (bound t c).
Proof using.
  intros Hl (wtm & [S1 S2 S4 S5 S6] & S3) Hr. unfold bind_leaf, pq_leaf_sc. rewrite Hl. cbn [info_of li_sc li_max_rep]. rewrite Hr.
  destruct (leaf_type_back t.1 wtm (max_def c) (max_rep c) (path c) (leaf_name c) 1 S1 S2) as (c' & Hb & _ & Hw). rewrite Hb in S4. injection S4 as ->. destruct (Hw S3) as [Ew _].
  fold (leaf_schema c) in Ew. rewrite Ew. pose proof (leaf_phys_range _ _ _ _ _ _ Hb). rewrite (proj2 (Z.ltb_ge _ _)) by lia. cbn [negb].
  change (sc_phys_type (leaf_schema c)) with (ptype c). by rewrite Z.eqb_refl.
Qed.

Lemma fields_built name fields : name_ok name -> bytes_ok name -> forall leaves fl leaves', build_fields name fields leaves = Some (fl, leaves') -> Forall field_back fields ->
  exists seg, leaves' = leaves ++ seg /\ Forall2 leaf_for (field_targets fields) seg /\ Forall (fun c => max_def c = 2) seg /\ Forall path_ok seg /\
    Forall (fun li => match li with Some (_, fname) => bytes_ok fname | None => True end) fl /\
    forall pf post, pf_leaves pf = map info_of leaves' ++ post ->
      bind_fields pf fields (length leaves) = Ok (map (fun li => match li with Some (i, _) => Some i | None => None end) fl, zip_with bound (field_targets fields) seg).
Proof using.
  intros [Hn _] Hnb. induction fields as [|[[[fname typid] typmod]|] fields IH]; intros leaves fl leaves' E Hok; cbn [build_fields] in E.
  - injection E as <- <-. exists []. rewrite app_nil_r. split; [done|]. split; [constructor|]. split; [constructor|]. split; [constructor|]. split; [constructor|]. done.
  - apply Forall_cons_1 in Hok as [((O1 & O2 & O3 & _) & O4 & O5) Hok]. destruct (build_leaf_scalar typid typmod 2 0 _) as [leaf|] eqn:El; [|done]. destruct (build_fields name fields _) as [[fl1 l1]|] eqn:E1; [|done].
    injection E as <- <-. destruct (IH _ _ _ E1 Hok) as (seg & -> & H2 & H3 & H4 & H5 & H6). pose proof (build_leaf_at _ _ _ _ _ _ El) as (A1 & A2 & A3).
    assert (Hfor : leaf_for (typid, typmod) leaf) by (exists typmod; split; [eapply leaf_source; [done|done|exact El|lia|lia]|done]).
    exists (leaf :: seg). rewrite <- app_assoc. cbn [app]. split; [done|]. split; [by constructor|]. split; [by constructor|]. split; [|split; [by constructor|]].
    + constructor; [|done]. unfold path_ok. rewrite A3. split; [done|]. repeat constructor; done.
    + intros pf post Epf. rewrite <- app_assoc in H6. cbn [app] in H6. specialize (H6 pf post Epf). rewrite length_app in H6. cbn [length] in H6. rewrite Nat.add_1_r in H6. cbn [bind_fields].
      pose proof (bind_leaf_back pf (length leaves) (typid, typmod) leaf (fun r => r =? 0)) as Eb. cbn [fst snd] in Eb. rewrite Eb; [|rewrite Epf, map_app, <- app_assoc; cbn [map app]; apply list_lookup_middle; by rewrite length_map|done|by rewrite A2].
      rewrite bind_Ok, H6, bind_Ok. done.
  - apply Forall_cons_1 in Hok as [_ Hok]. destruct (build_fields name fields leaves) as [[fl1 l1]|] eqn:E1; [|done]. injection E as <- <-.
    destruct (IH _ _ _ E1 Hok) as (seg & H1 & H2 & H3 & H4 & H5 & H6). exists seg. split; [done|]. split; [done|]. split; [done|]. split; [done|]. split; [by constructor|].
    intros pf post Epf. cbn [bind_fields]. by rewrite (H6 pf post Epf), bind_Ok.
Qed.

(** What the exporter builds for a column, and how the importer binds it. *)
Record built (name : list Z) (ty : coltype) (tc : TopColumn) (leaves seg : list PqLeaf) : Prop := {
  bu_targets : Forall2 leaf_for (col_targets ty) seg;
  bu_levels : top_levels seg tc;
  bu_length : length seg = top_leaves tc;
  bu_paths : Forall path_ok seg;
  bu_names : top_names tc;
  bu_from : top_from (length leaves) tc;
  bu_bind : forall pf i post, pf_leaves pf = map info_of (leaves ++ seg) ++ post -> bind_column pf i (length leaves) ty = Ok (imp_top i tc, zip_with bound (col_targets ty) seg) }.

Lemma column_built name ty leaves tc leaves' : column_back name ty -> build_top_column name ty leaves = Some (tc, leaves') ->
  exists seg, leaves' = leaves ++ seg /\ built name ty tc leaves seg.
Proof using.
  intros ([Hn Hty] & Hnb & Hre) E. pose proof (proj1 Hn). pose proof (build_top_from _ _ _ _ _ E) as (F1 & F2 & _). unfold build_top_column in E. destruct ty as [typid typmod|et tm|fields].
  - destruct Hty as (H1 & H2 & _). destruct (build_leaf_scalar _ _ _ _ _) as [leaf|] eqn:El; [|done]. injection E as <- <-. pose proof (build_leaf_at _ _ _ _ _ _ El) as (A1 & A2 & A3).
    assert (Hfor : leaf_for (typid, typmod) leaf) by (exists typmod; split; [eapply leaf_source; [done|done|exact El|lia|lia]|done]).
    exists [leaf]. split; [done|]. split; [by repeat constructor|by repeat constructor|done| |done|done|].
    + constructor; [|constructor]. unfold path_ok. rewrite A3. split; [done|]. by repeat constructor.
    + intros pf i post Epf. cbn [bind_column]. pose proof (bind_leaf_back pf (length leaves) (typid, typmod) leaf (fun r => r =? 0)) as Eb. cbn [fst snd] in Eb.
      rewrite Eb; [done|rewrite Epf, map_app, <- app_assoc; cbn [map app]; apply list_lookup_middle; by rewrite length_map|done|by rewrite A2].
  - destruct (build_leaf_scalar _ _ _ _ _) as [leaf|] eqn:El; [|done]. injection E as <- <-. pose proof (build_leaf_at _ _ _ _ _ _ El) as (A1 & A2 & A3).
    assert (Hfor : leaf_for (et, tm) leaf) by (exists (-1); split; [eapply leaf_source; [done|lia|exact El|lia|lia]|done]).
    exists [leaf]. split; [done|]. split; [by repeat constructor|by repeat constructor|done| |done|done|].
    + constructor; [|constructor]. unfold path_ok. rewrite A3. split; [done|]. constructor; [done|]. unfold bytes_ok, byte_ok. repeat constructor; lia.
    + intros pf i post Epf. cbn [bind_column]. pose proof (bind_leaf_back pf (length leaves) (et, tm) leaf (fun r => r =? 1)) as Eb. cbn [fst snd] in Eb.
      rewrite Eb; [done|rewrite Epf, map_app, <- app_assoc; cbn [map app]; apply list_lookup_middle; by rewrite length_map|done|by rewrite A2].
  - destruct Hty as (Hlive & _ & _). destruct (build_fields name fields leaves) as [[fl l1]|] eqn:E1; [|done]. injection E as <- <-.
    destruct (fields_built name fields Hn Hnb leaves fl l1 E1 Hre) as (seg & -> & H2 & H3 & H4 & H5 & H6). exists seg. split; [done|]. cbn [top_leaves] in F2. rewrite length_app in *.
    assert (Hpos : (0 < length seg)%nat).
    { rewrite <- (Forall2_length H2). destruct Hlive as [[[fname typid] typmod] Hin]. destruct (field_targets fields) eqn:Et; [|cbn; lia]. exfalso.
      assert (Hin' : (typid, typmod) ∈ field_targets fields) by (unfold field_targets; apply list_elem_of_omap; by eexists). rewrite Et in Hin'. by apply not_elem_of_nil in Hin'. }
    split; [done|cbn [top_levels]; split; [lia|done]|cbn [top_leaves]; lia|done|by split|done|]. intros pf i post Epf. cbn [bind_column]. rewrite (H6 pf post Epf), bind_Ok.
    cbn [imp_top]. do 4 f_equal. pose proof (Forall2_length H2) as Hl. rewrite length_zip_with_l_eq by done. cbn [top_from] in F1. lia.
Qed.
End Columns.

(** ** The footer *)

Section AllColumns.
Context `{T : PgTypes} `{TC : !TypmodCoercion}.

Definition targets (cols : list (list Z * coltype)) : list target := concat (map (fun col => col_targets col.2) cols).

(** What the exporter builds for a table, and how the importer binds it. *)
Record all_built (cols : list (list Z * coltype)) (tops : list TopColumn) (leaves seg : list PqLeaf) : Prop := {
  ab_targets : Forall2 leaf_for (targets cols) seg;
  ab_levels : levels_ok seg tops;
  ab_length : length seg = tops_leaves tops;
  ab_paths : Forall path_ok seg;
  ab_names : Forall top_names tops;
  ab_from : tops_from (length leaves) tops;
  ab_cols : length tops = length cols;
  ab_bind : forall pf i post, pf_leaves pf = map info_of (leaves ++ seg) ++ post ->
    bind_columns pf (map Some cols) None i (length leaves) = Ok (imp_tops i tops, zip_with bound (targets cols) seg) }.

Lemma columns_built cols : forall leaves tops leaves', Forall (fun col => column_back col.1 col.2) cols -> build_columns cols leaves = Ok (tops, leaves') ->
  exists seg, leaves' = leaves ++ seg /\ all_built cols tops leaves seg.
Proof using.
  induction cols as [|[name ty] cols IH]; intros leaves tops leaves' Hok E; cbn [build_columns] in E.
  - injection E as <- <-. exists []. rewrite app_nil_r. split; [done|]. by split; try constructor.
  - apply Forall_cons_1 in Hok as [Hc Hok]. cbn [fst snd] in Hc. destruct (build_top_column name ty leaves) as [[tc l1]|] eqn:E1; [|done]. destruct (build_columns cols l1) as [[tops1 l2]| | |] eqn:E2; [|done..].
    rewrite bind_Ok in E. injection E as <- <-. destruct (column_built _ _ _ _ _ Hc E1) as (s1 & -> & [B1 B2 B3 B4 B5 B6 B7]). destruct (IH _ _ _ Hok E2) as (s2 & -> & [I1 I2 I3 I4 I5 I6 I7 I8]).
    exists (s1 ++ s2). split; [by rewrite app_assoc|]. rewrite length_app in I6, I8. rewrite B3 in I6. split.
    + by apply Forall2_app.
    + cbn [levels_ok]. rewrite take_app_length', drop_app_length' by done. done.
    + rewrite length_app. cbn [tops_leaves]. lia.
    + by apply Forall_app_2.
    + by constructor.
    + by split.
    + cbn [length]. lia.
    + intros pf i post Epf. cbn [map bind_columns]. rewrite bind_Ok. cbv iota. pose proof (Forall2_length B1) as Hl1.
      rewrite (B7 pf i (map info_of s2 ++ post)) by (by rewrite Epf, !app_assoc, <- !map_app). rewrite bind_Ok, length_zip_with_l_eq by done.
      rewrite Hl1, (I8 pf (S i) post) by (by rewrite Epf, !app_assoc). rewrite bind_Ok. cbn [imp_tops]. unfold targets. cbn [map concat snd]. by rewrite zip_with_app.
Qed.
End AllColumns.

Ltac fields_ok :=
  repeat (cbn [i32_field i64_field struct_field snd];
    lazymatch goal with
    | |- bytes_ok (struct_bytes _ _) => apply struct_ok
    | |- bytes_ok (PgColumnarThriftPutZigzag32 _) => apply zigzag32_ok
    | |- bytes_ok (PgColumnarThriftPutZigzag64 _) => apply zigzag64_ok
    | |- bytes_ok (PgColumnarThriftPutListHeader _ _) => apply list_header_ok
    | |- bytes_ok (string_field _ _).2 => apply string_field_ok
    | |- bytes_ok (list_field _ _ _).2 => apply list_field_ok
    | |- bytes_ok (_ ++ _) => apply Forall_app_2
    | |- bytes_ok [] => constructor
    | |- Forall byte_ok ?l => change (bytes_ok l)
    | |- Forall _ (_ ++ _) => apply Forall_app_2
    | |- Forall _ (_ :: _) => apply Forall_cons_2
    | |- Forall _ [] => constructor
    | |- Forall _ (if ?b then _ else _) => destruct b
    end).

Lemma schema_leaf_ok name c rep : bytes_ok name -> bytes_ok (write_schema_leaf name c rep).
Proof. intros Hn. unfold write_schema_leaf. apply struct_ok. fields_ok; done. Qed.

Lemma schema_group_ok name rep n ct : bytes_ok name -> bytes_ok (write_schema_group name rep n ct).
Proof. intros Hn. unfold write_schema_group. apply struct_ok. fields_ok; done. Qed.

Lemma fields_schema_ok fl leaves : forall bss, Forall (fun li => match li with Some (_, fname) => bytes_ok fname | None => True end) fl -> write_fields_schema fl leaves = Ok bss -> Forall bytes_ok bss.
Proof.
  induction fl as [|[[i fname]|] fl IH]; intros bss Hn E; cbn [write_fields_schema] in E; [injection E as <-; constructor| |apply Forall_cons_1 in Hn as [_ Hn]; by apply IH].
  apply Forall_cons_1 in Hn as [Hf Hn]. unfold leaf_of in E. destruct (leaves !! i); [|done]. rewrite bind_Ok in E. destruct (write_fields_schema fl leaves) as [es| | |]; [|done..]. injection E as <-.
  constructor; [by apply schema_leaf_ok|by apply IH].
Qed.

Lemma ascii_ok (l : list Z) : forallb (fun b => (0 <=? b) && (b <? 256)) l = true -> bytes_ok l.
Proof.
  induction l as [|b l IH]; cbn [forallb]; [constructor|]. intros [H1 H2]%andb_true_iff. apply andb_true_iff in H1 as [H3%Z.leb_le H4%Z.ltb_lt]. constructor; [unfold byte_ok; lia|by apply IH].
Qed.

Lemma top_schema_ok tc leaves bss : top_names tc -> write_top_schema tc leaves = Ok bss -> Forall bytes_ok bss.
Proof.
  destruct tc as [name i|name i|name i n fl]; cbn [write_top_schema top_names]; intros Hn E.
  - unfold leaf_of in E. destruct (leaves !! i); [|done]. injection E as <-. constructor; [by apply schema_leaf_ok|constructor].
  - unfold leaf_of in E. destruct (leaves !! i); [|done]. injection E as <-. apply Forall_cons_2; [by apply schema_group_ok|]. apply Forall_cons_2; [by apply schema_group_ok, ascii_ok|]. apply Forall_cons_2; [by apply schema_leaf_ok, ascii_ok|constructor].
  - destruct Hn as [Hn Hfl]. destruct (write_fields_schema fl leaves) as [es| | |] eqn:Ee; [|done..]. injection E as <-. constructor; [by apply schema_group_ok|by eapply fields_schema_ok].
Qed.

Lemma schema_ok tops leaves : forall bss, Forall top_names tops -> write_schema tops leaves = Ok bss -> Forall bytes_ok bss.
Proof.
  induction tops as [|tc tops IH]; intros bss Hn E; cbn [write_schema] in E; [injection E as <-; constructor|]. apply Forall_cons_1 in Hn as [Ht Hn].
  destruct (write_top_schema tc leaves) as [es| | |] eqn:Ee; [|done..]. rewrite bind_Ok in E. destruct (write_schema tops leaves) as [rest| | |]; [|done..]. injection E as <-.
  apply Forall_app_2; [by eapply top_schema_ok|by apply IH].
Qed.

Lemma stat_bounds_ok c s : bytes_ok (stat_bounds c s).1 /\ bytes_ok (stat_bounds c s).2.
Proof.
  unfold stat_bounds. destruct (_ || _), (_ || _); cbn [fst snd]; (split; first [apply le_bytes_ok|apply d_store_len; auto]).
Qed.

Lemma column_chunk_ok c m : path_ok c -> bytes_ok (write_column_chunk c m).
Proof.
  intros [_ Hp]. unfold write_column_chunk. apply struct_ok. fields_ok. unfold column_meta_fields. fields_ok.
  - apply List.Forall_map. eapply list.Forall_impl; [exact Hp|]. intros p [_ Hb]. apply Forall_app_2; [|done]. apply varint_ok. by apply mod_pow2_bound.
  - unfold write_statistics, statistics_fields. pose proof (stat_bounds_ok c (m_st m)) as [S1 S2]. destruct (stat_bounds c (m_st m)) as [lo hi]. apply struct_ok. fields_ok; done.
Qed.

Lemma Ok_inv {A} (x y : A) : Ok x = Ok y -> x = y.
Proof. congruence. Qed.

Lemma footer_ok tops leaves total rgs bs : Forall top_names tops -> Forall path_ok leaves -> write_footer tops leaves total rgs = Ok bs -> bytes_ok bs.
Proof.
  intros Hn Hp E. unfold write_footer in E. cbv zeta in E. destruct (write_schema tops leaves) as [es| | |] eqn:Ee; [|done..]. rewrite bind_Ok in E. apply Ok_inv in E as <-. apply struct_ok. fields_ok.
  - unfold write_schema_element_root. apply struct_ok. fields_ok. by apply ascii_ok.
  - apply Forall_concat. by eapply schema_ok.
  - apply List.Forall_map, list.Forall_forall. intros rg _. unfold write_row_group. apply struct_ok. fields_ok. apply list.Forall_forall. intros x Hx. apply elem_of_zip_with in Hx as (c & m & -> & Hc & _).
    apply column_chunk_ok. by eapply list.Forall_forall in Hp.
  - by apply ascii_ok.
  - apply List.Forall_map, list.Forall_forall. intros c _. by apply ascii_ok.
Qed.

(** ** The size of a group in the footer *)

Lemma struct_bytes_size fs : forall lastId, 1 + foldr Z.add 0 (map (fun f => 1 + zlen f.2) fs) <= zlen (struct_bytes lastId fs).
Proof.
  induction fs as [|[[id type] payload] fs IH]; intros lastId; cbn [struct_bytes map foldr snd]; [done|]. rewrite !zlen_app. pose proof (put_field_pos lastId id type). pose proof (IH id). lia.
Qed.

Lemma zigzag_pos v : 1 <= zlen (PgColumnarThriftPutZigzag32 v) /\ 1 <= zlen (PgColumnarThriftPutZigzag64 v).
Proof. split; apply put_varint_pos; by apply mod_pow2_bound. Qed.

Lemma list_header_pos n et : 1 <= zlen (PgColumnarThriftPutListHeader n et).
Proof. unfold PgColumnarThriftPutListHeader. destruct (n <? 15); rewrite zlen_cons; match goal with |- context [zlen ?l] => pose proof (zlen_nonneg l) end; lia. Qed.

Lemma column_chunk_size c m : 25 <= zlen (write_column_chunk c m).
Proof.
  pose proof (struct_bytes_size (column_meta_fields c m) 0) as H1. cbn [column_meta_fields map foldr i32_field i64_field list_field snd concat] in H1.
  pose proof (struct_bytes_size (statistics_fields c m) 0) as H2. assert (H2' : 0 <= foldr Z.add 0 (map (fun f => 1 + zlen f.2) (statistics_fields c m))).
  { generalize (statistics_fields c m) as l. induction l as [|f l IH]; [done|]. cbn [map foldr]. pose proof (zlen_nonneg f.2). lia. }
  pose proof (struct_bytes_size [i64_field 2 (m_dataPageOffset m); struct_field 3 (column_meta_fields c m)] 0) as H3. cbn [map foldr i64_field struct_field snd] in H3.
  unfold write_column_chunk. unfold write_statistics in H1. rewrite !zlen_app in H1. change (zlen (@nil Z)) with 0 in H1.
  pose proof (zigzag_pos (ptype c)). pose proof (zigzag_pos 0). pose proof (zigzag_pos (m_numValues m)). pose proof (zigzag_pos (m_totalSize m)). pose proof (zigzag_pos (m_dataPageOffset m)).
  pose proof (zigzag_pos PQ_ENC_PLAIN). pose proof (zigzag_pos PQ_ENC_RLE).
  match type of H1 with context [PgColumnarThriftPutListHeader ?a TC_I32] => pose proof (list_header_pos a TC_I32) end.
  match type of H1 with context [PgColumnarThriftPutListHeader ?a TC_BINARY] => pose proof (list_header_pos a TC_BINARY) end.
  match type of H1 with context [zlen (concat ?l)] => pose proof (zlen_nonneg (concat l)) end. lia.
Qed.

Lemma row_group_size leaves rg : leaves <> [] -> length (wg_cols rg) = length leaves -> 32 <= zlen (write_row_group leaves rg).
Proof.
  intros Hne Hl. unfold write_row_group. match goal with |- context [struct_bytes 0 ?fs] => pose proof (struct_bytes_size fs 0) as H1 end. cbn [map foldr i64_field list_field snd] in H1.
  destruct leaves as [|c leaves]; [done|]. destruct (wg_cols rg) as [|m cols]; [done|]. set (bs := struct_bytes 0 _) in *. clearbody bs. cbn [zip_with concat] in *. rewrite !zlen_app in H1. pose proof (column_chunk_size c m).
  pose proof (zigzag_pos (wg_totalByteSize rg)). pose proof (zigzag_pos (wg_numRows rg)). pose proof (zlen_nonneg (concat (zip_with write_column_chunk leaves cols))).
  match type of H1 with context [PgColumnarThriftPutListHeader ?a TC_STRUCT] => pose proof (list_header_pos a TC_STRUCT) end. lia.
Qed.

Lemma footer_size tops leaves total rgs bs : leaves <> [] -> Forall (fun rg => length (wg_cols rg) = length leaves) rgs -> write_footer tops leaves total rgs = Ok bs -> 32 * zlen rgs <= zlen bs.
Proof.
  intros Hne Hr E. unfold write_footer in E. cbv zeta in E. destruct (write_schema tops leaves) as [es| | |]; [|done..]. rewrite bind_Ok in E. apply Ok_inv in E as <-.
  match goal with |- context [struct_bytes 0 ?fs] => pose proof (struct_bytes_size fs 0) as H1 end. cbn [map foldr i64_field i32_field list_field string_field snd] in H1.
  set (bs := struct_bytes 0 _) in *. clearbody bs. rewrite !zlen_app in H1.
  assert (Hg : 32 * zlen rgs <= zlen (concat (map (write_row_group leaves) rgs))).
  { clear H1. induction Hr as [|rg rgs Hrg _ IH]; [done|]. cbn [map concat]. rewrite zlen_cons, zlen_app. pose proof (row_group_size leaves rg Hne Hrg). lia. }
  repeat match type of H1 with context [zlen ?l] => lazymatch goal with _ : 0 <= zlen l |- _ => fail | _ => pose proof (zlen_nonneg l) end end. lia.
Qed.

(** ** The columns of a group in the footer *)

Section Footer.
Context `{T : PgTypes} `{L : !PgTypesLaws}.
Abbreviation entry := (Z * Z * option datum)%type.

Lemma value_stats_nans c s d : nans s <= nans (value_stats c s d) <= nans s + 1.
Proof using.
  assert (Hi : forall v, nans (pqstats_int s v) = nans s) by (intros v; unfold pqstats_int; by destruct (negb _)).
  assert (Hf : forall x, nans s <= nans (pqstats_float s x) <= nans s + 1) by (intros x; unfold pqstats_float; destruct (sf_isnan x); [cbn; lia|]; destruct (negb _); cbn; lia).
  unfold value_stats. destruct (kind c), d; rewrite ?Hi; try apply Hf; lia.
Qed.

Lemma leaf_puts_nans es : forall c, nans (st c) <= nans (st (leaf_puts c es)) <= nans (st c) + zlen es.
Proof using.
  induction es as [|[[def rep] o] es IH]; intros c; [change (zlen (@nil entry)) with 0; change (leaf_puts c []) with c; lia|]. change (leaf_puts c ((def, rep, o) :: es)) with (leaf_puts (leaf_put c def rep o) es). specialize (IH (leaf_put c def rep o)).
  change (st (leaf_put c def rep o)) with (match kept c o with Some d => value_stats c (st c) d | None => pqstats_null (st c) end) in IH. rewrite zlen_cons.
  destruct (kept c o) as [d|]; [pose proof (value_stats_nans c (st c) d); lia|]. cbn [pqstats_null nans] in IH. lia.
Qed.

Lemma puts_counts c es : sourced c -> 0 <= nulls (st (leaf_puts c es)) <= zlen es /\ 0 <= nans (st (leaf_puts c es)) <= zlen es.
Proof using.
  intros Hc. pose proof (leaf_puts_nans es c) as Hn. pose proof (leaf_puts_nulls es c) as Hu.
  assert (Hz : st c = pqstats_reset) by (by rewrite <- (leaf_reset c Hc)). rewrite Hz in *. cbn [pqstats_reset nans nulls] in *. pose proof (present_le c es). pose proof (zlen_nonneg (present c es)). lia.
Qed.

(** The column of the footer for the page of a leaf, in [lo .. hi]. *)
Record col_at (lo hi : Z) (c : PqLeaf) (es : list entry) (m : PqColMeta) : Prop := {
  ca_offset : lo <= m_dataPageOffset m;
  ca_size : 0 <= m_totalSize m;
  ca_end : m_dataPageOffset m + m_totalSize m <= hi;
  ca_values : m_numValues m = zlen es;
  ca_stats : m_st m = st (leaf_puts c es) }.

Lemma flush_cols cs : forall E off o cols total, Forall sourced cs -> length E = length cs -> flush_leaves (zip_with leaf_puts cs E) off = Ok (o, cols, total) ->
  total = zlen o /\ Forall3 (col_at off (off + zlen o)) cs E cols.
Proof using.
  induction cs as [|c cs IH]; intros [|es E] off o cols total Hs Hl Hf; try done.
  - cbn in Hf. injection Hf as <- <- <-. split; [done|apply Forall3_nil].
  - apply Forall_cons_1 in Hs as [Hc Hs]. cbn [zip_with flush_leaves] in Hf. destruct (build_leaf_body _) as [body| | |]; [|done..]. rewrite bind_Ok in Hf. cbv zeta in Hf. rewrite (puts_entries c es Hc) in Hf.
    set (ph := write_page_header _ _) in *. clearbody ph. destruct (flush_leaves _ _) as [[[o' cols'] total']| | |] eqn:Ef; [|done..]. rewrite bind_Ok in Hf. injection Hf as <- <- <-.
    injection Hl as Hl. destruct (IH _ _ _ _ _ Hs Hl Ef) as [-> I2]. rewrite !zlen_app. split; [lia|]. pose proof (zlen_nonneg o'). pose proof (zlen_nonneg ph). pose proof (zlen_nonneg body).
    apply Forall3_cons; [split; cbn; (done || lia)|]. eapply Forall3_impl; [exact I2|]. intros c' es' m [? ? ? ? ?]. split; (done || lia).
Qed.

Lemma col_meta_ok lo hi c es m : sourced c -> path_ok c -> zlen es < 2 ^ 62 -> 0 <= lo -> hi < 2 ^ 62 -> col_at lo hi c es m -> meta_ok c m.
Proof using.
  intros Hc [Hp1 Hp2] Hl Hlo Hhi [C1 C2 C3 C4 C5]. pose proof (puts_counts c es Hc) as [N1 N2]. rewrite <- C5 in N1, N2. pose proof (zlen_nonneg es).
  destruct Hc as (typid & typmod & [_ _ Hb _ _]). pose proof (leaf_phys_range _ _ _ _ _ _ Hb). split; try lia. split; [done|]. eapply list.Forall_impl; [exact Hp2|]. tauto.
Qed.
End Footer.

(** ** Opening the file *)

Lemma open_written stack src o fmd pf : src_ok src -> src_bytes src = (PAR1 ++ o) ++ fmd ++ le_bytes 4 (zlen fmd) ++ PAR1 -> zlen fmd < MaxAllocSize ->
  parse_file_metadata stack fmd = Ok (pf, true) -> pq_bad_repetition pf = None -> pq_source_open_cfg stack src = Ok pf.
Proof.
  intros Hs Eb Hl Hp Hr. pose proof (zlen_nonneg fmd). pose proof (zlen_nonneg o). unfold MaxAllocSize in Hl.
  assert (Hlen : src_len src = 4 + zlen o + zlen fmd + 8) by (unfold src_len; rewrite Eb, !zlen_app, zlen_le_bytes; change (zlen PAR1) with 4; lia).
  unfold pq_source_open_cfg. rewrite (proj2 (Z.ltb_ge _ _)) by lia.
  rewrite (source_read src 0 4 Hs), (source_read src (src_len src - 8) 8 Hs) by lia.
  assert (E0 : rd (src_bytes src) 0 4 = Ok PAR1) by (rewrite Eb, <- app_assoc; apply (rd_middle [])). rewrite E0, bind_Ok.
  assert (E1 : rd (src_bytes src) (src_len src - 8) 8 = Ok (le_bytes 4 (zlen fmd) ++ PAR1)).
  { replace (src_len src - 8) with (zlen ((PAR1 ++ o) ++ fmd)) by (rewrite !zlen_app; change (zlen PAR1) with 4; lia). rewrite Eb, app_assoc.
    rewrite <- (app_nil_r (le_bytes 4 (zlen fmd) ++ PAR1)) at 1. change 8 with (zlen (le_bytes 4 (zlen fmd) ++ PAR1)). apply rd_middle. }
  rewrite E1, bind_Ok. rewrite drop_app_length' by (by rewrite length_le_bytes). rewrite take_app_length' by (by rewrite length_le_bytes). rewrite !bool_decide_eq_true_2 by done. cbn [negb orb]. cbv zeta.
  rewrite le_uint_le_bytes_id by (change (2 ^ (8 * Z.of_nat 4)) with 4294967296; lia).
  rewrite !(proj2 (Z.ltb_ge _ _)) by (unfold MaxAllocSize; lia). cbn [orb]. rewrite source_read by (done || lia).
  assert (E2 : rd (src_bytes src) (src_len src - 8 - zlen fmd) (zlen fmd) = Ok fmd).
  { replace (src_len src - 8 - zlen fmd) with (zlen (PAR1 ++ o)) by (rewrite zlen_app; change (zlen PAR1) with 4; lia). rewrite Eb. apply rd_middle. }
  rewrite E2, bind_Ok, Hp, bind_Ok. cbn [negb]. by rewrite Hr.
Qed.

Lemma live_all cols : live_columns (map Some cols) = Ok cols.
Proof. induction cols as [|col cols IH]; [done|]. cbn [map live_columns]. by rewrite IH. Qed.

Lemma laid_start `{T : PgTypes} tops cs M cap gs rgs out : laid tops cs M cap gs rgs out -> exists o, out = PAR1 ++ o.
Proof. induction 1 as [|gs rgs out g o cols total _ [o' ->] _ _ _ _]; [by exists []|]. exists (o' ++ o). by rewrite app_assoc. Qed.

(** ** The groups of an export *)

Section Exported.
Context `{T : PgTypes} `{L : !PgTypesLaws} `{A : !PgArrays} `{AL : !PgArraysLaws A}.
Abbreviation row := (list (option coldatum)).

Lemma fields_sourced name fields : forall leaves fl leaves', build_fields name fields leaves = Some (fl, leaves') ->
  Forall (fun f => match f with Some (fname, typid, typmod) => scalar_ok typid typmod fname | None => True end) fields -> Forall sourced leaves -> Forall sourced leaves'.
Proof using.
  induction fields as [|[[[fname typid] typmod]|] fields IH]; intros leaves fl leaves' E Hok Hl; cbn [build_fields] in E; [by injection E as <- <-| |].
  - apply Forall_cons_1 in Hok as [(O1 & O2 & _) Hok]. destruct (build_leaf_scalar typid typmod 2 0 _) as [leaf|] eqn:El; [|done]. destruct (build_fields name fields _) as [[fl1 l1]|] eqn:E1; [|done].
    injection E as <- <-. eapply IH; [exact E1|done|]. apply Forall_app_2; [done|]. constructor; [|constructor]. exists typid, typmod. eapply leaf_source; [done|done|exact El|lia|lia].
  - apply Forall_cons_1 in Hok as [_ Hok]. destruct (build_fields name fields leaves) as [[fl1 l1]|] eqn:E1; [|done]. injection E as <- <-. by eapply IH.
Qed.

(** The leaves of any table the exporter takes, text columns included. *)
Lemma columns_sourced cols : forall leaves tops leaves', Forall (fun '(name, ty) => column_ok name ty) cols -> build_columns cols leaves = Ok (tops, leaves') -> Forall sourced leaves ->
  Forall sourced leaves' /\ tops_from (length leaves) tops /\ length leaves' = (length leaves + tops_leaves tops)%nat.
Proof using.
  induction cols as [|[name ty] cols IH]; intros leaves tops leaves' Hok E Hl; cbn [build_columns] in E; [injection E as <- <-; cbn; by rewrite Nat.add_0_r|].
  apply Forall_cons_1 in Hok as [[_ Hc] Hok]. destruct (build_top_column name ty leaves) as [[tc l1]|] eqn:E1; [|done]. destruct (build_columns cols l1) as [[tops1 l2]| | |] eqn:E2; [|done..].
  rewrite bind_Ok in E. injection E as <- <-. pose proof (build_top_from _ _ _ _ _ E1) as (F1 & F2 & _).
  assert (H1 : Forall sourced l1).
  { unfold build_top_column in E1. destruct ty as [typid typmod|et tm|fields].
    - destruct Hc as (H1 & H2 & _). destruct (build_leaf_scalar _ _ _ _ _) as [leaf|] eqn:El; [|done]. injection E1 as <- <-. apply Forall_app_2; [done|]. constructor; [|constructor].
      exists typid, typmod. eapply leaf_source; [done|done|exact El|lia|lia].
    - destruct (build_leaf_scalar _ _ _ _ _) as [leaf|] eqn:El; [|done]. injection E1 as <- <-. apply Forall_app_2; [done|]. constructor; [|constructor].
      exists et, (-1). eapply leaf_source; [done|lia|exact El|lia|lia].
    - destruct (build_fields name fields leaves) as [[fl l2']|] eqn:Ef; [|done]. injection E1 as <- <-. eapply fields_sourced; [exact Ef|tauto|done]. }
  destruct (IH _ _ _ Hok E2 H1) as (I1 & I2 & I3). split; [done|]. cbn [tops_from tops_leaves]. rewrite <- F2. split; [by split|]. lia.
Qed.

Section Written.
Variable tops : list TopColumn.
Variable leaves : list PqLeaf.
Hypothesis Htops : tops_from 0 tops.
Hypothesis Hlen : length leaves = tops_leaves tops.
Hypothesis Hsrc : Forall sourced leaves.
Variables M cap : Z.
Hypothesis HM : 0 <= M.
Hypothesis Hcap : cap_ok M cap.

Lemma groups_written (rows : list row) : Forall (row_ok tops leaves M) rows ->
  exists ws gs, write_rows cap tops (mkWrite PAR1 4 leaves 0 [] 0) rows = Ok ws /\ laid tops leaves M cap gs (ws_rgs ws) (ws_out ws) /\ ws_leaves ws = leaves /\ concat gs = rows /\ ws_total ws = zlen rows.
Proof using Htops Hlen Hsrc HM Hcap L AL.
  intros Hrows. assert (W0 : writing tops leaves M cap [] [] (mkWrite PAR1 4 leaves 0 [] 0)) by (split; try done; [apply laid_nil|by rewrite group_puts_nil|by left]).
  destruct (write_rows_Ok tops leaves Htops Hlen Hsrc M cap Hcap HM rows [] [] _ W0 Hrows) as (ws & gs & Ews & Hl & Elv & Egs & Et). cbn [concat app] in Egs. rewrite Egs in Et. by exists ws, gs.
Qed.
End Written.

(** C15.  The exporter cuts the rows of any exportable table, jsonb and unconstrained
    numeric columns included, into groups that its buffers and its reader can
    hold.  Where each row has the columns' shape and valid values and fits by
    itself, and the byte cap is below its maximum, or at it with arrays of at most
    2047 elements, the groups are the rows in order, none is empty or longer than 65536
    rows, a group of more than one row stays within [export_group_bytes], and every
    page of a group is below the limit of an allocation. *)
Theorem export_groups_bounded cols tops leaves M cap (rows : list row) : Forall (fun '(name, ty) => column_ok name ty) cols -> build_columns cols [] = Ok (tops, leaves) ->
  0 <= M -> cap_ok M cap -> Forall (row_ok tops leaves M) rows ->
  exists ws gs, write_rows cap tops (mkWrite PAR1 4 leaves 0 [] 0) rows = Ok ws /\ concat gs = rows /\ ws_total ws = zlen rows /\
    Forall2 (fun g rg => wg_numRows rg = zlen g /\ 1 <= zlen g <= PARQUET_ROWGROUP_ROWS /\ (zlen g = 1 \/ pq_group_bytes (group_puts tops leaves g) <= cap) /\
      Forall2 page_fits leaves (rows_entries tops g)) gs (ws_rgs ws).
Proof using L AL.
  intros Hok Hbuild HM Hcap Hrows. destruct (columns_sourced cols [] tops leaves Hok Hbuild) as (B1 & B6 & B3); [constructor|]. cbn [length Nat.add] in B3, B6.
  destruct (groups_written tops leaves B6 B3 B1 M cap HM Hcap rows Hrows) as (ws & gs & E & Hl & _ & Eg & Et). exists ws, gs. split; [done|]. split; [done|]. split; [done|].
  destruct (laid_placed tops leaves M cap _ _ _ Hl) as [_ Hp]. eapply Forall2_impl; [|exact (Hp [])].
  intros g rg (pre & o & post & cs & _ & [G1 G2 G3 G4] & _ & ->). split; [done|]. split; [destruct g; [done|]; rewrite zlen_cons in *; pose proof (zlen_nonneg g); lia|].
  split; [destruct G4 as [[r ->]|G4]; [by left|by right]|]. exact (group_fits tops leaves B6 B3 B1 M cap Hcap HM g G1 G2 G3 G4).
Qed.
End Exported.

(** ** A whole file *)

Section File.
Context `{T : PgTypes} `{L : !PgTypesLaws} `{A : !PgArrays} `{AL : !PgArraysLaws A} `{TC : !TypmodCoercion}.
Context `{C : BlockCodecs} `{ZL : Zlib} (k : nat) (buffered : bool).
Abbreviation row := (list (option coldatum)).

(** The stack a thread has for the nested structs of the footer. *)
Definition deep : nat := S (S (S (S (S k)))).

Variable cols : list (list Z * coltype).
Variable tops : list TopColumn.
Variable leaves : list PqLeaf.
Hypothesis Hback : Forall (fun col => column_back col.1 col.2) cols.
Hypothesis Hbuild : build_columns cols [] = Ok (tops, leaves).
Hypothesis Hcols : cols <> [].

Lemma table_built : all_built cols tops [] leaves.
Proof using Hback Hbuild. destruct (columns_built cols [] tops leaves Hback Hbuild) as (seg & E & H). cbn [app] in E. by subst seg. Qed.

Lemma leaves_some : leaves <> [].
Proof using Hback Hbuild Hcols T TC.
  pose proof table_built as [_ B2 B3 _ _ B6 B7 _]. destruct tops as [|tc tops']; [by destruct cols|]. intros ->. cbn [tops_leaves length] in B3. destruct B2 as [B2 _]. destruct tc; cbn [top_leaves top_levels] in *; lia.
Qed.

Lemma schema_counts : forall tops' cs, levels_ok cs tops' -> foldr Z.add 0 (map schema_count_for_top tops') <= 3 * Z.of_nat (tops_leaves tops') /\ (length tops' <= tops_leaves tops')%nat.
Proof using.
  clear. induction tops' as [|tc tops' IH]; intros cs Hl; [done|]. destruct Hl as [H1 H2]. destruct (IH _ H2) as [I1 I2]. cbn [map foldr tops_leaves length].
  destruct tc; cbn [schema_count_for_top top_leaves top_levels] in *; lia.
Qed.

Hypothesis Hleaves : 216 * (1 + zlen leaves) <= MaxAllocSize.
Variables M cap : Z.
Hypothesis HM : 0 <= M.
Hypothesis Hcap : cap_ok M cap.

(** What the reader checks of a group holds. *)
Lemma placed_group file g rg : placed tops leaves M cap file g rg -> zlen file < 2 ^ 60 ->
  group_wf leaves rg /\ wg_numRows rg = zlen g /\ length (wg_cols rg) = length leaves /\ check_chunks (zlen g) (zip_with chunk_of leaves (wg_cols rg)) (map info_of leaves) = true.
Proof using Hback Hbuild Hleaves HM Hcap TC.
  intros (pre & o & post & cs & Ef & Hg & Hfl & ->) Hlen. pose proof table_built as [B1 B2 B3 B4 B5 B6 B7 B8]. pose proof (for_sourced leaves (targets cols) B1) as Hsrc. pose proof Hg as [G1 G2 G3 G4].
  pose proof (group_fits tops leaves B6 B3 Hsrc M cap Hcap HM g G1 G2 G3 G4) as Hfit. pose proof (group_entries tops leaves B6 B3 M HM g G1 G2) as Hent.
  destruct (flush_cols leaves (rows_entries tops g) (zlen pre) o cs (zlen o) Hsrc (length_group tops leaves B6 B3 M g G1) Hfl) as [_ Hca].
  assert (Hhi : zlen pre + zlen o < 2 ^ 60) by (rewrite Ef, !zlen_app in Hlen; pose proof (zlen_nonneg post); lia). pose proof (zlen_nonneg pre). pose proof (zlen_nonneg o). pose proof (zlen_nonneg g).
  cbn [wg_cols wg_numRows wg_totalByteSize]. split; [|split; [done|]; split; [by destruct (Forall3_length _ _ _ _ Hca); congruence|]].
  - split; cbn [wg_cols wg_numRows wg_totalByteSize]; [|unfold MaxAllocSize in *; lia|unfold PARQUET_ROWGROUP_ROWS in G3; lia|lia].
    revert Hsrc B4 Hfit Hca. generalize (rows_entries tops g) as E. revert Hhi. clear -H. intros Hhi E Hsrc Hp Hfit Hca. induction Hca as [|c es m l1 l2 l3 Hc Hca IH]; [constructor|].
    apply Forall_cons_1 in Hsrc as [S1 S2]. apply Forall_cons_1 in Hp as [P1 P2]. apply Forall2_cons_1 in Hfit as [[F1 F2 F3] F4]. constructor; [|by apply IH].
    pose proof (zlen_nonneg (value_bytes c es)). eapply col_meta_ok; [done|done| | | |exact Hc]; [unfold page_room, MaxAllocSize in *; lia|lia|lia].
  - revert Hfit Hca Hent. generalize (rows_entries tops g) as E. clear. intros E Hfit Hca Hent. induction Hca as [|c es m l1 l2 l3 [C1 C2 C3 C4 C5] Hca IH]; [done|].
    apply Forall2_cons_1 in Hfit as [[F1 F2 F3] F4]. apply Forall2_cons_1 in Hent as [(N1 & N2 & N3 & _) N4]. cbn [zip_with map check_chunks]. rewrite IH by done. cbn [chunk_of ch_num_values ch_def_hist_len ch_rep_hist_len].
    rewrite C4. pose proof (zlen_nonneg es). pose proof (zlen_nonneg (value_bytes c es)). unfold page_room, MaxAllocSize in *. change (1073741823 / 8) with 134217727. rewrite (proj2 (Z.ltb_ge (zlen es) 0)), (proj2 (Z.ltb_ge _ (zlen es))), (proj2 (Z.ltb_ge (zlen es) _)) by lia. done.
Qed.

Lemma groups_total file gs rgs : Forall2 (placed tops leaves M cap file) gs rgs -> foldr Z.add 0 (map rg_num_rows (map (group_of leaves) rgs)) = zlen (concat gs).
Proof using.
  clear. induction 1 as [|g rg gs rgs (pre & o & post & cs & _ & _ & _ & ->) _ IH]; [done|]. cbn [map foldr concat group_of rg_num_rows wg_numRows]. rewrite IH, zlen_app. lia.
Qed.

Lemma rows_written (rows : list row) : Forall (row_ok tops leaves M) rows ->
  exists ws gs, write_rows cap tops (mkWrite PAR1 4 leaves 0 [] 0) rows = Ok ws /\ laid tops leaves M cap gs (ws_rgs ws) (ws_out ws) /\ ws_leaves ws = leaves /\ concat gs = rows /\ ws_total ws = zlen rows.
Proof using Hback Hbuild HM Hcap L AL TC.
  pose proof table_built as [B1 B2 B3 B4 B5 B6 B7 B8]. apply (groups_written tops leaves B6 B3 (for_sourced leaves (targets cols) B1) M cap HM Hcap).
Qed.

Lemma footer_written total rgs : exists fmd, write_footer tops leaves total rgs = Ok fmd /\ bytes_ok fmd.
Proof using Hback Hbuild TC.
  pose proof table_built as [B1 B2 B3 B4 B5 B6 B7 B8].
  assert (Hok : Forall (fun '(name, ty) => column_ok name ty) cols) by (eapply list.Forall_impl; [exact Hback|]; intros [name ty] [? _]; done).
  destruct (columns_schema O cols [] tops leaves [] Hbuild Hok) as (segs & bss & _ & _ & Hws & _). rewrite app_nil_r in Hws.
  assert (Ew : exists fmd, write_footer tops leaves total rgs = Ok fmd) by (unfold write_footer; cbv zeta; rewrite Hws, bind_Ok; by eexists). destruct Ew as [fmd Ew].
  exists fmd. split; [done|]. by eapply footer_ok.
Qed.

Lemma footer_back ws gs post fmd : laid tops leaves M cap gs (ws_rgs ws) (ws_out ws) -> zlen (ws_out ws ++ post) < 2 ^ 60 -> ws_total ws = zlen (concat gs) -> zlen (concat gs) < 2 ^ 62 ->
  write_footer tops leaves (ws_total ws) (ws_rgs ws) = Ok fmd -> bytes_ok fmd -> zlen fmd < MaxAllocSize ->
  exists pf, parse_file_metadata deep fmd = Ok (pf, true) /\ pq_bad_repetition pf = None /\ pq_check_row_groups pf = Ok tt /\
    pf_leaves pf = map info_of leaves /\ pf_rgs pf = map (group_of leaves) (ws_rgs ws).
Proof using Hback Hbuild Hcols Hleaves HM Hcap TC.
  intros Hl Hlen Ht Hrows Ew Hby Hfl. pose proof table_built as [B1 B2 B3 B4 B5 B6 B7 B8]. destruct (laid_placed tops leaves M cap _ _ _ Hl) as [_ Hp]. specialize (Hp post).
  assert (Hok : Forall (fun '(name, ty) => column_ok name ty) cols) by (eapply list.Forall_impl; [exact Hback|]; intros [name ty] [? _]; done).
  assert (Hgw : Forall (fun rg => group_wf leaves rg /\ length (wg_cols rg) = length leaves /\ group_ok (file_of tops [] leaves 0 []) (group_of leaves rg) = true) (ws_rgs ws)).
  { revert Hp. generalize (ws_rgs ws) as rgs. generalize gs as gs0. intros gs0 rgs Hp. induction Hp as [|g rg gs0 rgs Hpl _ IH]; [constructor|]. constructor; [|done].
    destruct (placed_group _ _ _ Hpl Hlen) as (P1 & P2 & P3 & P4). split; [done|]. split; [done|]. unfold group_ok. cbn [group_of rg_has_num_rows rg_chunks rg_num_rows file_of pf_leaves]. unfold pf_ncols. cbn [file_of pf_leaves].
    rewrite P2, P4, (proj2 (Z.leb_le _ _)) by apply zlen_nonneg. rewrite (proj2 (Z.eqb_eq _ _)); [done|]. unfold zlen. by rewrite length_map, length_zip_with_l_eq. }
  pose proof (footer_size _ _ _ _ _ leaves_some ltac:(eapply list.Forall_impl; [exact Hgw|]; cbn beta; tauto) Ew) as Hsz. destruct (schema_counts tops leaves B2) as [K1 K2].
  assert (Htl : 0 < zlen tops <= zlen leaves) by (unfold zlen; rewrite B3; destruct cols; [done|cbn in B7; lia]). rewrite <- B3 in K1. fold (zlen leaves) in K1.
  destruct (footer_read k cols tops leaves (ws_total ws) (ws_rgs ws) Hok Hbuild) as (fmd' & els & E1 & E2 & E3).
  { pose proof (zlen_nonneg (concat gs)). split; unfold MaxAllocSize in *; try lia. eapply list.Forall_impl; [exact Hgw|]. cbn beta. tauto. }
  rewrite Ew in E1. apply Ok_inv in E1 as <-. eexists. split; [apply E2; [done|unfold MaxAllocSize in Hfl; lia]|]. split; [|split; [|done]].
  - unfold pq_bad_repetition. cbn [file_of pf_elems tl]. clear -E3. induction E3 as [|e els (_ & _ & H) _ IH]; [done|]. cbn [List.find]. rewrite !(proj2 (Z.ltb_ge _ _)) by lia. done.
  - unfold pq_check_row_groups. cbn [file_of pf_has_row_groups pf_has_num_rows pf_num_rows pf_rgs negb orb]. rewrite (groups_total _ _ _ Hp), Ht, Z.eqb_refl.
    replace (forallb _ _) with true; [done|]. symmetry. apply forallb_forall. intros g Hg. apply in_map_iff in Hg as (rg & <- & Hin). apply list_elem_of_In in Hin. eapply list.Forall_forall in Hgw as (_ & _ & Hg); [|exact Hin]. exact Hg.
Qed.

(** ** Claims *)

(** C3.  A table of columns the importer reads, written as a Parquet file, reads
    back as its rows.  Each row has the columns' shape and valid values (text in the
    database encoding, timestamps whose shift to the Unix epoch does not overflow)
    and fits a page and an allocation by itself; the byte cap is below its maximum,
    or at it with arrays of at most 2047 elements ([cap_ok]).  Then the rows go into
    groups, the footer is built, and unless the footer outgrows an allocation or the
    file 2^59 bytes the file is complete, its reader binds the columns of the same
    table and delivers every row in order, with values Parquet cannot hold as nulls
    and arrays with the lower bound 1. *)
Theorem parquet_file_roundtrip (rows : list row) : Forall (row_ok tops leaves M) rows -> Forall (row_conforms tops leaves (targets cols)) rows -> zlen rows < 2 ^ 62 ->
  exists ws fmd, write_rows cap tops (mkWrite PAR1 4 leaves 0 [] 0) rows = Ok ws /\ write_footer tops leaves (zlen rows) (ws_rgs ws) = Ok fmd /\
    (zlen (ws_out ws) < 2 ^ 59 -> zlen fmd < MaxAllocSize -> exists bytes, PgColumnarWriteParquetFileWith cap (map Some cols) rows = Ok (bytes, zlen rows) /\ bytes_ok bytes /\
      forall src, src_ok src -> src_bytes src = bytes ->
        pq_read_file_into deep buffered collect src (map Some cols) None None None [] = Ok (map (seen_row leaves tops) rows, zlen rows)).
Proof using Hback Hbuild Hcols Hleaves HM Hcap L AL.
  intros Hrows Hconf Hn. pose proof table_built as [B1 B2 B3 B4 B5 B6 B7 B8]. pose proof (for_sourced leaves (targets cols) B1) as Hsrc.
  destruct (rows_written rows Hrows) as (ws & gs & Ews & Hl & Elv & Egs & Et).
  destruct (footer_written (zlen rows) (ws_rgs ws)) as (fmd & Ew & Hby). exists ws, fmd. split; [done|]. split; [done|]. intros Hout Hfmd.
  set (post := fmd ++ le_bytes 4 (zlen fmd) ++ PAR1). exists (ws_out ws ++ post). destruct (laid_placed tops leaves M cap _ _ _ Hl) as [Hob Hp]. pose proof (zlen_nonneg fmd).
  assert (Hlen : zlen (ws_out ws ++ post) < 2 ^ 60) by (unfold post; rewrite !zlen_app, zlen_le_bytes; change (zlen PAR1) with 4; unfold MaxAllocSize in Hfmd; lia).
  split; [|split].
  - unfold PgColumnarWriteParquetFileWith. rewrite live_all, bind_Ok, Hbuild, bind_Ok, Ews, bind_Ok, Elv, Et, Ew, bind_Ok. rewrite append_Ok by (change (zlen (@nil Z)) with 0; lia). by rewrite bind_Ok.
  - apply Forall_app_2; [done|]. apply Forall_app_2; [done|]. apply Forall_app_2; [apply le_bytes_ok|by apply ascii_ok].
  - intros src Hs Eb. destruct (laid_start _ _ _ _ _ _ _ Hl) as [o Eo]. destruct (footer_back ws gs post fmd Hl Hlen) as (pf & F1 & F2 & F3 & F4 & F5); [congruence|congruence|congruence|done|done|].
    unfold pq_read_file_into. rewrite (open_written deep src o fmd pf) by (done || by rewrite Eb, Eo). rewrite bind_Ok, F3, bind_Ok. unfold build_imp_targets.
    pose proof (B8 pf O []) as Hbind. rewrite app_nil_r in Hbind. cbn [app length] in Hbind. rewrite (Hbind F4), bind_Ok. rewrite F4, !length_map, length_zip_with_l_eq by (by apply Forall2_length in B1).
    rewrite (Forall2_length B1), Nat.eqb_refl. cbn [negb]. rewrite bind_Ok. unfold pq_read_rows. rewrite F5, Nat.sub_0_r, drop_0, firstn_all.
    rewrite <- B7, <- Egs. pose proof (read_groups_back deep buffered tops leaves (targets cols) B6 B3 B2 B1 M cap HM Hcap gs (ws_rgs ws) (src_bytes src)) as R. rewrite R; [by rewrite Z.add_0_l|rewrite Eb; apply Hp|by rewrite Egs|done|done].
Qed.
End File.

(** Two rows: a number with a list that holds a null element, and a null with an
    empty list. *)
Definition no_arrays : @PgArrays two_numbers := {| ARR_SIZE := fun elems => foldr Z.add 0 (map datum_len elems) |}.

Lemma no_arrays_laws : PgArraysLaws no_arrays.
Proof. by split. Qed.

Definition no_coercion : @TypmodCoercion two_numbers := {| has_coercion := fun _ => false; coerce_typmod := fun _ _ d => Ok d |}.

Definition tags_cols : list (list Z * coltype) := [([120], CScalar INT4OID (-1)); ([121], CArray INT4OID (-1))].
Definition tags_tops : list TopColumn := [TOP_SCALAR [120] 0; TOP_LIST [121] 1].
Definition tags_leaves : list PqLeaf :=
  [mkLeaf [[120]] P_INT32 PQ_INT32 (-1) (-1) 0 0 0 false 1 0 [] [] [] [] 0 pqstats_reset; mkLeaf [[121]; name_list; name_element] P_INT32 PQ_INT32 (-1) (-1) 0 0 0 false 3 1 [] [] [] [] 0 pqstats_reset].
Definition tags_rows : list (list (option (@coldatum two_numbers))) :=
  [[Some (AScalar (T := two_numbers) (@DInt two_numbers 7)); Some (AArray (T := two_numbers) 1 5 [Some (@DInt two_numbers 1); None])]; [None; Some (AArray (T := two_numbers) 0 1 [])]].

Lemma int4_exportable : exportable INT4OID.
Proof. apply list_elem_of_In. right. by left. Qed.

Lemma tags_ok : Forall (@row_ok two_numbers tags_tops tags_leaves 2) tags_rows.
Proof.
  assert (He : forall (c : PqLeaf) (e : Z * Z * option (@datum two_numbers)) es, Forall (@entry_ok two_numbers c) (e :: es) -> @page_room two_numbers c (e :: es) -> @page_fits two_numbers c (e :: es))
    by (intros; by split).
  apply Forall_cons_2; [|apply Forall_cons_2; [|apply Forall_nil_2]].
  - split.
    + apply Forall2_cons_2; [done|]. apply Forall2_cons_2; [cbn; lia|constructor].
    + apply Forall2_cons_2; [|apply Forall2_cons_2; [|constructor]]; (apply He; [|split; vm_compute; discriminate]);
        repeat (apply Forall_cons_2; [unfold entry_ok; cbn; try lia; (split; [lia|]; split; [lia|]; split; [lia|]; left; cbn; lia)|]); apply Forall_nil_2.
    + repeat (apply Forall_cons_2; [vm_compute; discriminate|]). apply Forall_nil_2.
  - split.
    + apply Forall2_cons_2; [done|]. apply Forall2_cons_2; [cbn; lia|constructor].
    + apply Forall2_cons_2; [|apply Forall2_cons_2; [|constructor]]; (apply He; [|split; vm_compute; discriminate]);
        repeat (apply Forall_cons_2; [unfold entry_ok; cbn; lia|]); apply Forall_nil_2.
    + repeat (apply Forall_cons_2; [vm_compute; discriminate|]). apply Forall_nil_2.
Qed.

Lemma tags_back : Forall (fun col : list Z * coltype => column_back col.1 col.2) tags_cols.
Proof.
  pose proof int4_exportable. apply Forall_cons_2; [|apply Forall_cons_2; [|apply Forall_nil_2]]; (split; [|split; [by apply ascii_ok|done]]); (split; [done|]); [|done]. split; [done|]. split; [lia|done].
Qed.

Lemma parquet_file_roundtrip_witness : exists bytes, PgColumnarWriteParquetFileWith (T := two_numbers) (A := no_arrays) 268435456 (map Some tags_cols) tags_rows = Ok (bytes, 2) /\
  forall src, src_ok src -> src_bytes src = bytes ->
    pq_read_file_into (T := two_numbers) (TC := no_coercion) (C := no_codecs) (ZL := no_zlib) (deep 3) true (collect (T := two_numbers)) src (map Some tags_cols) None None None [] =
      Ok ([[Some (AScalar (T := two_numbers) (@DInt two_numbers 7)); Some (AArray (T := two_numbers) 1 1 [Some (@DInt two_numbers 1); None])]; [None; Some (AArray (T := two_numbers) 0 1 [])]], 2).
Proof.
  destruct (@parquet_file_roundtrip two_numbers two_numbers_laws no_arrays no_arrays_laws no_coercion no_codecs no_zlib 3 true tags_cols tags_tops tags_leaves) with (M := 2) (cap := 268435456) (rows := tags_rows)
    as (ws & fmd & E1 & E2 & H).
  - exact tags_back.
  - vm_compute. reflexivity.
  - done.
  - vm_compute. discriminate.
  - lia.
  - right. split; [done|]. vm_compute. discriminate.
  - exact tags_ok.
  - apply Forall_cons_2; [|apply Forall_cons_2; [|apply Forall_nil_2]]; repeat (apply Forall3_cons; [unfold conforms, typed; by repeat constructor|]); apply Forall3_nil.
  - vm_compute. reflexivity.
  - vm_compute in E1. apply Ok_inv in E1 as <-. vm_compute in E2. apply Ok_inv in E2 as <-.
    destruct H as (bytes & Eb & _ & Hr); [reflexivity|reflexivity|]. exists bytes. split; [exact Eb|exact Hr].
Defined.

(** Documents, which are written as text, under a cap of ten bytes: a document of
    more is a group of its own. *)
Definition docs_cols : list (list Z * coltype) := [([120], CScalar JSONBOID (-1))].
Definition docs_tops : list TopColumn := [TOP_SCALAR [120] 0].
Definition docs_leaves : list PqLeaf := [mkLeaf [[120]] P_UTF8 PQ_BYTE_ARRAY PQ_CT_UTF8 (-1) 0 0 0 true 1 0 [] [] [] [] 0 pqstats_reset].
Definition doc (bs : list Z) : list (option (@coldatum two_numbers)) := [Some (AScalar (T := two_numbers) (@DJsonb two_numbers bs))].
Definition docs_rows : list (list (option (@coldatum two_numbers))) := [doc [49]; [None]; doc [91; 49; 44; 50; 44; 51; 93]; doc [50]].

Lemma doc_ok (bs : list Z) : bytes_ok bs -> zlen bs < 1000 -> @row_ok two_numbers docs_tops docs_leaves 1 (doc bs).
Proof.
  intros Hb Hl. pose proof (zlen_nonneg bs). split.
  - by constructor.
  - constructor; [|constructor]. split; [done| |].
    + constructor; [|constructor]. split; [cbn; lia|]. split; [cbn; lia|]. split; [cbn; lia|]. by left.
    + change (zlen (row_entries docs_tops (doc bs))) with 1. split; [by vm_compute|].
      change (value_bytes _ _) with ((le_bytes 4 (zlen bs) ++ bs) ++ []). rewrite app_nil_r, zlen_app, zlen_le_bytes. change (zlen [_]) with 1. unfold MaxAllocSize. lia.
  - constructor; [|constructor]. vm_compute. discriminate.
Qed.

Lemma export_groups_bounded_witness : exists ws gs, write_rows (T := two_numbers) (A := no_arrays) 10 docs_tops (mkWrite PAR1 4 docs_leaves 0 [] 0) docs_rows = Ok ws /\ concat gs = docs_rows /\ ws_total ws = 4 /\
  Forall2 (fun g rg => wg_numRows rg = zlen g /\ 1 <= zlen g <= PARQUET_ROWGROUP_ROWS /\ (zlen g = 1 \/ pq_group_bytes (group_puts (T := two_numbers) docs_tops docs_leaves g) <= 10) /\
    Forall2 page_fits docs_leaves (rows_entries docs_tops g)) gs (ws_rgs ws).
Proof.
  apply (@export_groups_bounded two_numbers two_numbers_laws no_arrays no_arrays_laws docs_cols docs_tops docs_leaves 1 10 docs_rows).
  - constructor; [|constructor]. split; [done|]. split; [|by split]. apply (bool_decide_eq_true_1 (exportable JSONBOID)). vm_compute. reflexivity.
  - vm_compute. reflexivity.
  - lia.
  - left. vm_compute. reflexivity.
  - apply Forall_cons_2; [apply doc_ok; [by apply ascii_ok|done]|]. apply Forall_cons_2; [|apply Forall_cons_2; [apply doc_ok; [by apply ascii_ok|done]|]; apply Forall_cons_2; [apply doc_ok; [by apply ascii_ok|done]|apply Forall_nil_2]].
    split; [by constructor| |].
    + constructor; [|constructor]. split; [done| |split; vm_compute; discriminate]. constructor; [|constructor]. unfold entry_ok. cbn. lia.
    + constructor; [|constructor]. vm_compute. discriminate.
Defined.
