(* ===== verification/Jsonb.v ===== *)
(** * JSON values

    What [columnar_puffin.c], [columnar_avro.c] and the Iceberg code see of the
    server's [jsonb]: values as a tree, with the two helpers every reader repeats
    (field by key, equality of a string).  The parser [jsonb_in] and numeric
    values with their conversions belong to the server and are parameters. *)

From Stdlib Require Import Ascii.
From S2P Require Import Prelude.

(** The bytes of a string literal. *)
Definition str (s : string) : list Z := map (fun a => Z.of_N (N_of_ascii a)) (list_ascii_of_string s).

(** Numeric values of the server: conversions to integers round and fail out of
    range; [numeric_is_int8] is [numeric_cmp(n, int64_to_numeric(v)) == 0]. *)
Class Numerics : Type := {
  numeric : Type;
  numeric_int8 : numeric -> option Z;
  numeric_int4 : numeric -> option Z;
  numeric_is_int8 : numeric -> Z -> bool;
  numeric_out : numeric -> list Z
}.

Section Json.
Context `{N : Numerics}.

Inductive json : Type :=
| JNull
| JString (s : list Z)
| JNumeric (n : numeric)
| JBool (b : bool)
| JArray (l : list json)
| JObject (kvs : list (list Z * json)).

Fixpoint json_assoc (key : list Z) (kvs : list (list Z * json)) : option json :=
  match kvs with
  | [] => None
  | (k, v) :: kvs => if decide (k = key) then Some v else json_assoc key kvs
  end.

(** [getKeyJsonValueFromContainer] behind its test for an object. *)
Definition json_field (j : json) (key : list Z) : option json :=
  match j with
  | JObject kvs => json_assoc key kvs
  | _ => None
  end.

(** The root container of a document: a scalar is stored as an array of one. *)
Definition json_root (j : json) : json :=
  match j with
  | JArray _ | JObject _ => j
  | _ => JArray [j]
  end.

Definition json_str_eq (o : option json) (want : list Z) : bool :=
  match o with
  | Some (JString s) => bool_decide (s = want)
  | _ => false
  end.

End Json.

Arguments json : clear implicits.
Arguments json {N}.

(** The parser of documents; [None] is its error. *)
Class JsonbIn `{N : Numerics} : Type := { jsonb_in : list Z -> option json }.

(** Integers as the numeric values, for examples. *)
Definition int_numerics : Numerics := {|
  numeric := Z;
  numeric_int8 n := if (- 2 ^ 63 <=? n) && (n <? 2 ^ 63) then Some n else None;
  numeric_int4 n := if (- 2 ^ 31 <=? n) && (n <? 2 ^ 31) then Some n else None;
  numeric_is_int8 n v := n =? v;
  numeric_out n := [48]
|}.
