(* ===== verification/Puffin.v ===== *)
(** * Deletion vectors in Puffin files

    [columnar_puffin.c]: the container framing of a Puffin file, the footer that
    names its blobs, and the decoder of the portable 64-bit roaring bitmap a
    deletion vector holds.  The JSON parser and [crc32] of zlib are parameters. *)

From Stdlib Require Import Sorted.
From S2P Require Import Prelude Jsonb.

Definition PUFFIN_MAGIC : list Z := str "PFA1".
Definition DV_MAGIC : list Z := [209; 211; 57; 100].
Definition ROARING_COOKIE_NO_RUN : Z := 12346.
Definition ROARING_COOKIE_RUN : Z := 12347.
Definition PUFFIN_MAX_POSITIONS : Z := 16 * 1024 * 1024.

(** ** The cursor over the bytes of the vector *)

(** [pf_end] is the end of the vector, inside the file's bytes. *)
Record PfCur := mkCur { pf_buf : list Z; pf_p : Z; pf_end : Z }.

Definition pf_need (c : PfCur) (n : Z) : res unit :=
  if u64 (pf_end c - pf_p c) <? n then Err "deletion vector is truncated" else Ok tt.

Definition pf_skip (c : PfCur) (n : Z) : PfCur := mkCur (pf_buf c) (pf_p c + n) (pf_end c).

Definition pf_u16 (c : PfCur) : res (Z * PfCur) :=
  _ ← pf_need c 2;
  b0 ← rd1 (pf_buf c) (pf_p c);
  b1 ← rd1 (pf_buf c) (pf_p c + 1);
  Ok (Z.lor b0 (Z.shiftl b1 8), pf_skip c 2).

Definition pf_u32 (c : PfCur) : res (Z * PfCur) :=
  _ ← pf_need c 4;
  b0 ← rd1 (pf_buf c) (pf_p c);
  b1 ← rd1 (pf_buf c) (pf_p c + 1);
  b2 ← rd1 (pf_buf c) (pf_p c + 2);
  b3 ← rd1 (pf_buf c) (pf_p c + 3);
  Ok (Z.lor (Z.lor (Z.lor b0 (Z.shiftl b1 8)) (Z.shiftl b2 16)) (Z.shiftl b3 24), pf_skip c 4).

Definition pf_u64 (c : PfCur) : res (Z * PfCur) :=
  ' (lo, c) ← pf_u32 c;
  ' (hi, c) ← pf_u32 c;
  Ok (Z.lor lo (Z.shiftl hi 32), c).

Definition pf_be32 (buf : list Z) (p : Z) : res Z :=
  b0 ← rd1 buf p;
  b1 ← rd1 buf (p + 1);
  b2 ← rd1 buf (p + 2);
  b3 ← rd1 buf (p + 3);
  Ok (Z.lor (Z.lor (Z.lor (Z.shiftl b0 24) (Z.shiftl b1 16)) (Z.shiftl b2 8)) b3).

(** The positions emitted so far.  The array doubles from 1024 up to the limit, so
    its allocations are at most 128 MB. *)
Definition pf_emit (out : list Z) (v : Z) : res (list Z) :=
  if PUFFIN_MAX_POSITIONS <=? zlen out then Err "deletion vector names more than 16777216 positions" else Ok (out ++ [v]).

(** ** One 32-bit roaring bitmap *)

(** The descriptive header: keys and cardinalities. *)
Fixpoint read_headers (size : nat) (c : PfCur) : res (list (Z * Z) * PfCur) :=
  match size with
  | O => Ok ([], c)
  | S size =>
      ' (key, c) ← pf_u16 c;
      ' (card, c) ← pf_u16 c;
      ' (hs, c) ← read_headers size c;
      Ok ((key, card + 1) :: hs, c)
  end.

(** [for (v = 0; v < rlen; v++) pf_emit(out, kbase | (start + v))] *)
Definition emit_run (kbase start rlen : Z) (out : list Z) : res (list Z) :=
  forZ 0 rlen (fun v out => pf_emit out (Z.lor kbase (start + v))) out.

Fixpoint read_runs (nruns : nat) (kbase : Z) (c : PfCur) (out : list Z) : res (PfCur * list Z) :=
  match nruns with
  | O => Ok (c, out)
  | S nruns =>
      ' (start, c) ← pf_u16 c;
      ' (len, c) ← pf_u16 c;
      let rlen := len + 1 in
      if 65536 <? start + rlen then Err "deletion vector has a run container that overflows its 16-bit range"
      else out ← emit_run kbase start rlen out; read_runs nruns kbase c out
  end.

Fixpoint read_array (card : nat) (kbase : Z) (c : PfCur) (out : list Z) : res (PfCur * list Z) :=
  match card with
  | O => Ok (c, out)
  | S card =>
      ' (v, c) ← pf_u16 c;
      out ← pf_emit out (Z.lor kbase v);
      read_array card kbase c out
  end.

Definition emit_word (kbase w word : Z) (out : list Z) : res (list Z) :=
  if word =? 0 then Ok out
  else forZ 0 64 (fun b out => if Z.land (Z.shiftr word b) 1 =? 0 then Ok out else pf_emit out (Z.lor kbase (w * 64 + b))) out.

Definition read_bitset (kbase : Z) (c : PfCur) (out : list Z) : res (PfCur * list Z) :=
  _ ← pf_need c 8192;
  forZ 0 1024 (fun w '(c, out) => ' (word, c) ← pf_u64 c; out ← emit_word kbase w word out; Ok (c, out)) (c, out).

(** [runbits[i / 8] >> (i % 8) & 1] *)
Definition run_bit (runbits : option (list Z)) (i : Z) : res bool :=
  match runbits with
  | None => Ok false
  | Some bs => b ← rd1 bs (i / 8); Ok (negb (Z.land (Z.shiftr b (i mod 8)) 1 =? 0))
  end.

Definition read_container (base : Z) (runbits : option (list Z)) (i key card : Z) (c : PfCur) (out : list Z) : res (PfCur * list Z) :=
  let kbase := Z.lor base (Z.shiftl key 16) in
  isrun ← run_bit runbits i;
  if isrun : bool then
    ' (nruns, c) ← pf_u16 c;
    read_runs (Z.to_nat nruns) kbase c out
  else if card <=? 4096 then read_array (Z.to_nat card) kbase c out
  else read_bitset kbase c out.

Fixpoint read_containers (base : Z) (runbits : option (list Z)) (i : Z) (hs : list (Z * Z)) (c : PfCur) (out : list Z) : res (PfCur * list Z) :=
  match hs with
  | [] => Ok (c, out)
  | (key, card) :: hs =>
      ' (c, out) ← read_container base runbits i key card c out;
      read_containers base runbits (i + 1) hs c out
  end.

Definition pf_roaring32 (c : PfCur) (base : Z) (out : list Z) : res (PfCur * list Z) :=
  ' (cookie, c) ← pf_u32 c;
  ' (size, runbits, c) ←
    (if cookie =? ROARING_COOKIE_NO_RUN then ' (size, c) ← pf_u32 c; Ok (size, None, c)
     else if Z.land cookie 65535 =? ROARING_COOKIE_RUN then
       let size := Z.shiftr cookie 16 + 1 in
       _ ← pf_need c ((size + 7) / 8);
       bs ← rd (pf_buf c) (pf_p c) ((size + 7) / 8);
       Ok (size, Some bs, pf_skip c ((size + 7) / 8))
     else Err "deletion vector has an unknown roaring cookie");
  if 65536 <? size then Err "deletion vector declares too many containers"
  else
    ' (hs, c) ← read_headers (Z.to_nat size) c;
    c ← (if (cookie =? ROARING_COOKIE_NO_RUN) || ((Z.land cookie 65535 =? ROARING_COOKIE_RUN) && (4 <=? size))
         then _ ← pf_need c (4 * size); Ok (pf_skip c (4 * size))
         else Ok c);
    read_containers base runbits 0 hs c out.

(** ** The 64-bit bitmap *)

(** [for (b = 0; b < nbuckets; b++)]: a bucket takes four bytes or more, so the
    bytes left bound the turns. *)
Fixpoint read_buckets (fuel : nat) (b nbuckets prevkey : Z) (c : PfCur) (out : list Z) : res (PfCur * list Z) :=
  if b <? nbuckets then
    match fuel with
    | O => Fuel
    | S fuel =>
        ' (key, c) ← pf_u32 c;
        if (0 <? b) && (key <=? prevkey) then Err "deletion vector has out-of-order buckets"
        else
          ' (c, out) ← pf_roaring32 c (Z.shiftl key 32) out;
          read_buckets fuel (b + 1) nbuckets key c out
    end
  else Ok (c, out).

Definition UINT32_MAX : Z := 4294967295.

Definition read_vector (buf : list Z) (start stop : Z) : res (list Z) :=
  ' (nbuckets, c) ← pf_u64 (mkCur buf start stop);
  if UINT32_MAX <? nbuckets then Err "deletion vector declares too many buckets"
  else
    ' (c, out) ← read_buckets (S (Z.to_nat (pf_end c - pf_p c))) 0 nbuckets 0 c [];
    if pf_p c =? pf_end c then Ok out else Err "deletion vector has trailing bytes".

(** ** The container *)

(** [crc32(0L, p, n)] of zlib. *)
Class Crc32 : Type := { crc32 : list Z -> Z }.

Definition str_blobs : list Z := str "blobs".
Definition str_offset : list Z := str "offset".
Definition str_length : list Z := str "length".
Definition str_type : list Z := str "type".
Definition str_dv_v1 : list Z := str "deletion-vector-v1".
Definition str_codec : list Z := str "compression-codec".
Definition str_properties : list Z := str "properties".
Definition str_referenced : list Z := str "referenced-data-file".

Section Reader.
Context `{N : Numerics} `{J : !JsonbIn} `{C : Crc32}.

Definition pf_field : json -> list Z -> option json := json_field.
Definition pf_str_eq : option json -> list Z -> bool := json_str_eq.

(** The conversion raises when the number is outside the 64-bit range. *)
Definition pf_num_int64 (o : option json) : res (option Z) :=
  match o with
  | Some (JNumeric n) => match numeric_int8 n with Some v => Ok (Some v) | None => Err "bigint out of range" end
  | _ => Ok None
  end.

(** Whether the footer's entry is the one the manifest addresses. *)
Definition blob_matches (bc : json) (blob_offset blob_size : Z) : res bool :=
  off ← pf_num_int64 (pf_field bc str_offset);
  match off with
  | None => Ok false
  | Some off =>
      blen ← pf_num_int64 (pf_field bc str_length);
      match blen with
      | None => Ok false
      | Some blen => Ok ((off =? blob_offset) && (blen =? blob_size))
      end
  end.

(** [for (k = 0; k < nblobs; k++)] with its [continue]s and its [break]. *)
Fixpoint find_blob (bls : list json) (blob_offset blob_size : Z) (referenced_path : list Z) : res bool :=
  match bls with
  | [] => Ok false
  | bc :: bls =>
      match bc with
      | JObject _ =>
          m ← blob_matches bc blob_offset blob_size;
          if m : bool then
            if negb (pf_str_eq (pf_field bc str_type) str_dv_v1) then Err "blob is not a deletion-vector-v1 blob"
            else match pf_field bc str_codec with
                 | Some _ => Err "deletion vector declares a compression codec"
                 | None =>
                     match pf_field bc str_properties with
                     | Some props => if pf_str_eq (pf_field props str_referenced) referenced_path then Ok true else Err "deletion vector does not reference data file"
                     | None => Err "deletion vector does not reference data file"
                     end
                 end
          else find_blob bls blob_offset blob_size referenced_path
      | _ => find_blob bls blob_offset blob_size referenced_path
      end
  end.

Definition le32_at (buf : list Z) (p : Z) : res Z := bs ← rd buf p 4; Ok (le_uint bs).

Definition PgColumnarPuffinReadDeletionVector (buf : list Z) (blob_offset blob_size : Z) (referenced_path : list Z) : res (list Z) :=
  let len := zlen buf in
  if len <? 20 then Err "not a Puffin file"
  else
    m1 ← rd buf 0 4;
    m2 ← rd buf (len - 4) 4;
    if bool_decide (m1 <> PUFFIN_MAGIC) || bool_decide (m2 <> PUFFIN_MAGIC) then Err "not a Puffin file"
    else
      flags ← le32_at buf (len - 8);
      if negb (Z.land flags 1 =? 0) then Err "compressed Puffin footer is not supported"
      else if negb (flags =? 0) then Err "reserved Puffin flags"
      else
        p ← le32_at buf (len - 12);
        let paysize := s32 p in
        let paystart := len - 12 - paysize in
        if (paysize <? 2) || (paystart <? 8) then Err "malformed Puffin footer"
        else
          m3 ← rd buf (paystart - 4) 4;
          if bool_decide (m3 <> PUFFIN_MAGIC) then Err "malformed Puffin footer"
          else
            payload ← rd buf paystart paysize;
            match jsonb_in (pnstrdup payload) with
            | None => Err "invalid input syntax for type json"
            | Some jb =>
                match pf_field (json_root jb) str_blobs with
                | Some (JArray arr) =>
                    found ← find_blob arr blob_offset blob_size referenced_path;
                    if negb found then Err "Puffin footer has no blob matching the manifest"
                    else if (blob_offset <? 4) || (blob_size <? 12) || (paystart - 4 - 4 <? blob_size) || (paystart - 4 - blob_size <? blob_offset)
                    then Err "deletion vector lies outside the blob region"
                    else
                      veclen ← pf_be32 buf blob_offset;
                      if negb (veclen =? blob_size - 8) then Err "inconsistent length prefix"
                      else
                        m4 ← rd buf (blob_offset + 4) 4;
                        if bool_decide (m4 <> DV_MAGIC) then Err "bad magic sequence"
                        else
                          crc_want ← pf_be32 buf (blob_offset + 4 + veclen);
                          covered ← rd buf (blob_offset + 4) veclen;
                          if negb (crc_want =? u32 (crc32 covered)) then Err "CRC-32 check fails"
                          else read_vector buf (blob_offset + 8) (blob_offset + 4 + veclen)
                | _ => Err "Puffin footer has no blobs array"
                end
            end.

End Reader.

(** ** Arbitrary bytes *)

Definition cur_ok (c : PfCur) : Prop := bytes_ok (pf_buf c) /\ 0 <= pf_p c <= pf_end c /\ pf_end c <= zlen (pf_buf c) < 2 ^ 62.

(** [c'] is [c] went on. *)
Definition went (c c' : PfCur) : Prop := cur_ok c' /\ pf_buf c' = pf_buf c /\ pf_end c' = pf_end c /\ pf_p c <= pf_p c'.

Lemma went_refl c : cur_ok c -> went c c.
Proof. intros H. split; [done|]. split; [done|]. split; [done|]. lia. Qed.

Lemma went_trans c1 c2 c3 : went c1 c2 -> went c2 c3 -> went c1 c3.
Proof. intros (_ & B1 & E1 & P1) (H & B2 & E2 & P2). split; [done|]. split; [congruence|]. split; [congruence|]. lia. Qed.

Lemma need_safe c n : cur_ok c -> 0 <= n -> safe (fun _ => pf_p c + n <= pf_end c) (pf_need c n).
Proof.
  intros (_ & H1 & H2) Hn. unfold pf_need. rewrite u64_small by lia. destruct (Z.ltb_spec (pf_end c - pf_p c) n); cbn; [done|lia].
Qed.

Lemma skip_went c n : cur_ok c -> 0 <= n -> pf_p c + n <= pf_end c -> went c (pf_skip c n).
Proof. intros (Hb & H1 & H2) Hn He. unfold went, cur_ok, pf_skip; cbn. repeat split; try done; lia. Qed.

Lemma rd1_byte b i : bytes_ok b -> 0 <= i < zlen b -> safe byte_ok (rd1 b i).
Proof. intros Hb Hi. rewrite rd1_Ok by done. by apply nthZ_ok. Qed.

Lemma u16_bytes b0 b1 : byte_ok b0 -> byte_ok b1 -> Z.lor b0 (Z.shiftl b1 8) = le_uint [b0; b1] /\ 0 <= le_uint [b0; b1] < 2 ^ 16.
Proof.
  intros H0 H1. split.
  - unfold byte_ok in *. rewrite Z.shiftl_mul_pow2, lor_add by lia. cbn [le_uint]. lia.
  - apply (le_uint_bound [b0; b1]). do 2 (apply Forall_cons_2; [done|]). apply Forall_nil_2.
Qed.

Lemma u32_bytes b0 b1 b2 b3 : byte_ok b0 -> byte_ok b1 -> byte_ok b2 -> byte_ok b3 ->
  Z.lor (Z.lor (Z.lor b0 (Z.shiftl b1 8)) (Z.shiftl b2 16)) (Z.shiftl b3 24) = le_uint [b0; b1; b2; b3] /\ 0 <= le_uint [b0; b1; b2; b3] < 2 ^ 32.
Proof.
  intros H0 H1 H2 H3. split.
  - unfold byte_ok in *. rewrite !Z.shiftl_mul_pow2, (lor_add b0 b1 8), (lor_add _ b2 16), (lor_add _ b3 24) by lia. cbn [le_uint]. lia.
  - apply (le_uint_bound [b0; b1; b2; b3]). do 4 (apply Forall_cons_2; [done|]). apply Forall_nil_2.
Qed.

Lemma u16_safe c : cur_ok c -> safe (fun '(v, c') => 0 <= v < 2 ^ 16 /\ went c c' /\ pf_p c' = pf_p c + 2) (pf_u16 c).
Proof.
  intros Hc. unfold pf_u16. eapply safe_bind; [by apply need_safe|]. intros [] Hn. pose proof Hc as (Hb & H1 & H2).
  eapply safe_bind; [apply rd1_byte; [done|lia]|]. intros b0 H0. eapply safe_bind; [apply rd1_byte; [done|lia]|]. intros b1 Hb1.
  destruct (u16_bytes b0 b1 H0 Hb1) as [-> Hv]. cbn. split; [done|]. split; [|done]. by apply skip_went.
Qed.

Lemma u32_safe c : cur_ok c -> safe (fun '(v, c') => 0 <= v < 2 ^ 32 /\ went c c' /\ pf_p c' = pf_p c + 4) (pf_u32 c).
Proof.
  intros Hc. unfold pf_u32. eapply safe_bind; [by apply need_safe|]. intros [] Hn. pose proof Hc as (Hb & H1 & H2).
  eapply safe_bind; [apply rd1_byte; [done|lia]|]. intros b0 H0. eapply safe_bind; [apply rd1_byte; [done|lia]|]. intros b1 Hb1.
  eapply safe_bind; [apply rd1_byte; [done|lia]|]. intros b2 Hb2. eapply safe_bind; [apply rd1_byte; [done|lia]|]. intros b3 Hb3.
  destruct (u32_bytes b0 b1 b2 b3 H0 Hb1 Hb2 Hb3) as [-> Hv]. cbn. split; [done|]. split; [|done]. by apply skip_went.
Qed.

Lemma u64_safe c : cur_ok c -> safe (fun '(v, c') => 0 <= v < 2 ^ 64 /\ went c c') (pf_u64 c).
Proof.
  intros Hc. unfold pf_u64. eapply safe_bind; [by apply u32_safe|]. intros (lo & c1) (Hlo & M1 & _).
  eapply safe_bind; [apply u32_safe, M1|]. intros (hi & c2) (Hhi & M2 & _). cbn. split; [|by eapply went_trans].
  apply lor_bound; [lia|lia|]. apply (shiftl_bound hi 32 32); lia.
Qed.

(** The positions stay in number and in range. *)
Definition out_ok (out : list Z) : Prop := zlen out <= PUFFIN_MAX_POSITIONS /\ Forall (fun v => 0 <= v < 2 ^ 64) out.

Lemma emit_safe out v : out_ok out -> 0 <= v < 2 ^ 64 -> safe out_ok (pf_emit out v).
Proof.
  intros [Hl Hf] Hv. unfold pf_emit. destruct (Z.leb_spec PUFFIN_MAX_POSITIONS (zlen out)); cbn; [done|]. split.
  - rewrite zlen_app, zlen_cons, zlen_nil. lia.
  - apply Forall_app_2; [done|]. by constructor.
Qed.

Lemma headers_safe n : forall c, cur_ok c ->
  safe (fun '(hs, c') => went c c' /\ zlen hs = Z.of_nat n /\ Forall (fun '(k, d) => 0 <= k < 2 ^ 16 /\ 1 <= d <= 65536) hs) (read_headers n c).
Proof.
  induction n as [|n IH]; intros c Hc; cbn [read_headers]; [cbn; split; [by apply went_refl|by split]|].
  eapply safe_bind; [by apply u16_safe|]. intros (k & c1) (Hk & M1 & _). eapply safe_bind; [apply u16_safe, M1|]. intros (d & c2) (Hd & M2 & _).
  eapply safe_bind; [apply IH, M2|]. intros (hs & c3) (M3 & Hl & Hf). cbn. split; [by eapply went_trans; [|eapply went_trans]|].
  split; [rewrite zlen_cons; lia|]. constructor; [lia|done].
Qed.

Lemma pos_bound kbase v : 0 <= kbase < 2 ^ 64 -> 0 <= v < 2 ^ 64 -> 0 <= Z.lor kbase v < 2 ^ 64.
Proof. intros. apply lor_bound; lia. Qed.

Lemma run_safe kbase start rlen out : out_ok out -> 0 <= kbase < 2 ^ 64 -> 0 <= start -> 0 <= rlen -> start + rlen <= 65536 -> safe out_ok (emit_run kbase start rlen out).
Proof.
  intros Ho Hk Hs Hr Hb. unfold emit_run. apply (forZ_safe (fun _ => out_ok)); [lia| |done].
  intros v o Hv Ho'. apply emit_safe; [done|]. apply pos_bound; [done|lia].
Qed.

Lemma runs_safe kbase : 0 <= kbase < 2 ^ 64 -> forall n c out, cur_ok c -> out_ok out -> safe (fun '(c', out') => went c c' /\ out_ok out') (read_runs n kbase c out).
Proof.
  intros Hk. induction n as [|n IH]; intros c out Hc Ho; cbn [read_runs]; [cbn; split; [by apply went_refl|done]|].
  eapply safe_bind; [by apply u16_safe|]. intros (s & c1) (Hs & M1 & _). eapply safe_bind; [apply u16_safe, M1|]. intros (l & c2) (Hl & M2 & _).
  destruct (Z.ltb_spec 65536 (s + (l + 1))); [done|]. eapply safe_bind; [by apply run_safe; try lia|]. intros out' Ho'.
  eapply safe_mono; [apply IH; [apply M2|done]|]. intros (c3 & o3) (M3 & Ho3). split; [by eapply went_trans; [|eapply went_trans]|done].
Qed.

Lemma array_safe kbase : 0 <= kbase < 2 ^ 64 -> forall n c out, cur_ok c -> out_ok out -> safe (fun '(c', out') => went c c' /\ out_ok out') (read_array n kbase c out).
Proof.
  intros Hk. induction n as [|n IH]; intros c out Hc Ho; cbn [read_array]; [cbn; split; [by apply went_refl|done]|].
  eapply safe_bind; [by apply u16_safe|]. intros (v & c1) (Hv & M1 & _). eapply safe_bind; [apply emit_safe; [done|]; by apply pos_bound; try lia|]. intros out' Ho'.
  eapply safe_mono; [apply IH; [apply M1|done]|]. intros (c3 & o3) (M3 & Ho3). split; [by eapply went_trans|done].
Qed.

Lemma word_safe kbase w word out : out_ok out -> 0 <= kbase < 2 ^ 64 -> 0 <= w < 1024 -> safe out_ok (emit_word kbase w word out).
Proof.
  intros Ho Hk Hw. unfold emit_word. destruct (word =? 0); [done|].
  apply (forZ_safe (fun _ => out_ok)); [lia| |done].
  intros b o Hb Ho'. destruct (Z.land (Z.shiftr word b) 1 =? 0); [done|]. apply emit_safe; [done|]. apply pos_bound; [done|lia].
Qed.

Lemma bitset_safe kbase c out : 0 <= kbase < 2 ^ 64 -> cur_ok c -> out_ok out -> safe (fun '(c', out') => went c c' /\ out_ok out') (read_bitset kbase c out).
Proof.
  intros Hk Hc Ho. unfold read_bitset. eapply safe_bind; [by apply need_safe|]. intros [] _.
  apply (forZ_safe (fun _ '(c', out') => went c c' /\ out_ok out')); [lia| |split; [by apply went_refl|done]].
  intros w (c1 & o1) Hw (M1 & Ho1). eapply safe_bind; [apply u64_safe, M1|]. intros (word & c2) (_ & M2).
  eapply safe_bind; [by apply word_safe|]. intros o2 Ho2. cbn. split; [by eapply went_trans|done].
Qed.

Lemma container_safe base bits i key card c out : 0 <= base < 2 ^ 64 -> 0 <= key < 2 ^ 16 -> 0 <= i -> (forall bs, bits = Some bs -> i / 8 < zlen bs) -> cur_ok c -> out_ok out ->
  safe (fun '(c', out') => went c c' /\ out_ok out') (read_container base bits i key card c out).
Proof.
  intros Hb Hk Hi Hbits Hc Ho. unfold read_container.
  assert (HK : 0 <= Z.lor base (Z.shiftl key 16) < 2 ^ 64).
  { apply lor_bound; [lia|lia|]. pose proof (shiftl_bound key 16 16). lia. }
  eapply (safe_bind (fun _ => True)).
  { unfold run_bit. destruct bits as [bs|]; [|done]. rewrite rd1_Ok; [done|]. specialize (Hbits bs eq_refl). pose proof (Z.div_pos i 8). lia. }
  intros isrun _. destruct isrun.
  - eapply safe_bind; [by apply u16_safe|]. intros (n & c1) (Hn & M1 & _). eapply safe_mono; [apply runs_safe; [done|apply M1|done]|].
    intros (c2 & o2) (M2 & Ho2). split; [by eapply went_trans|done].
  - destruct (card <=? 4096); [by apply array_safe|by apply bitset_safe].
Qed.

Lemma containers_safe base bits : 0 <= base < 2 ^ 64 -> forall hs i c out, 0 <= i -> Forall (fun '(k, d) => 0 <= k < 2 ^ 16 /\ 1 <= d <= 65536) hs ->
  (forall bs, bits = Some bs -> i + zlen hs <= 8 * zlen bs) -> cur_ok c -> out_ok out ->
  safe (fun '(c', out') => went c c' /\ out_ok out') (read_containers base bits i hs c out).
Proof.
  intros Hb. induction hs as [|[k d] hs IH]; intros i c out Hi Hf Hbits Hc Ho; cbn [read_containers]; [cbn; split; [by apply went_refl|done]|].
  apply Forall_cons_1 in Hf as [[Hk _] Hf]. rewrite zlen_cons in Hbits. pose proof (zlen_nonneg hs). eapply safe_bind.
  { apply container_safe; try done. intros bs E. specialize (Hbits bs E). apply Z.div_lt_upper_bound; lia. }
  intros (c1 & o1) (M1 & Ho1). eapply safe_mono; [apply IH; try done; [lia|intros bs E; specialize (Hbits bs E); lia|apply M1]|].
  intros (c2 & o2) (M2 & Ho2). split; [by eapply went_trans|done].
Qed.

Lemma roaring32_safe c base out : 0 <= base < 2 ^ 64 -> cur_ok c -> out_ok out -> safe (fun '(c', out') => went c c' /\ out_ok out') (pf_roaring32 c base out).
Proof.
  intros Hb Hc Ho. unfold pf_roaring32. eapply safe_bind; [by apply u32_safe|]. intros (cookie & c1) (Hk & M1 & _).
  eapply (safe_bind (fun '(size, bits, c2) => 0 <= size /\ went c c2 /\ forall bs : list Z, bits = Some bs -> size <= 8 * zlen bs)).
  { destruct (cookie =? ROARING_COOKIE_NO_RUN).
    - eapply safe_bind; [apply u32_safe, M1|]. intros (size & c2) (Hs & M2 & _). cbn. split; [lia|]. split; [by eapply went_trans|done].
    - destruct (Z.land cookie 65535 =? ROARING_COOKIE_RUN); [|done]. cbv zeta.
      assert (0 <= Z.shiftr cookie 16) by (apply Z.shiftr_nonneg; lia). set (n := (Z.shiftr cookie 16 + 1 + 7) / 8).
      assert (Hn : 0 <= n /\ Z.shiftr cookie 16 + 1 <= 8 * n) by (subst n; div_bounds (Z.shiftr cookie 16 + 1 + 7) 8; lia).
      eapply safe_bind; [apply need_safe; [apply M1|lia]|]. intros [] Hend. pose proof M1 as ((Hb1 & H1 & H2) & _).
      rewrite rd_Ok by lia. rewrite bind_Ok. cbn. split; [lia|]. split; [eapply went_trans; [done|]; apply skip_went; [apply M1|lia|done]|].
      intros bs E. apply (inj Some) in E as <-. rewrite zlen_sub by lia. lia. }
  intros ((size & bits) & c2) (Hs & M2 & Hbits). destruct (Z.ltb_spec 65536 size); [done|].
  eapply safe_bind; [apply headers_safe, M2|]. intros (hs & c3) (M3 & Hl & Hf). rewrite Z2Nat.id in Hl by done.
  eapply (safe_bind (fun c4 => went c c4)).
  { destruct (_ || _); [|cbn; by eapply went_trans]. eapply safe_bind; [apply need_safe; [apply M3|lia]|]. intros [] He. cbn.
    eapply went_trans; [|apply skip_went; [apply M3|lia|done]]. by eapply went_trans. }
  intros c4 M4. eapply safe_mono; [apply containers_safe; try done; [intros bs E; rewrite Hl; by apply Hbits|apply M4]|].
  intros (c5 & o5) (M5 & Ho5). split; [by eapply went_trans|done].
Qed.

Lemma buckets_safe : forall fuel b n prev c out, cur_ok c -> out_ok out -> pf_end c - pf_p c < Z.of_nat fuel ->
  safe (fun '(c', out') => went c c' /\ out_ok out') (read_buckets fuel b n prev c out).
Proof.
  induction fuel as [|fuel IH]; intros b n prev c out Hc Ho Hf; cbn [read_buckets].
  - destruct (b <? n); [|split; [by apply went_refl|done]]. destruct Hc as (_ & H1 & _). lia.
  - destruct (b <? n); [|split; [by apply went_refl|done]]. eapply safe_bind; [by apply u32_safe|]. intros (key & c1) (Hk & M1 & P1).
    destruct (_ && _); [done|]. eapply safe_bind; [apply roaring32_safe; [|apply M1|done]|].
    { pose proof (shiftl_bound key 32 32). lia. }
    intros (c2 & o2) (M2 & Ho2). eapply safe_mono; [apply IH; [apply M2|done|]|].
    { destruct M1 as (_ & _ & E1 & _). destruct M2 as (_ & _ & E2 & Q2). lia. }
    intros (c3 & o3) (M3 & Ho3). split; [|done]. by eapply went_trans; [|eapply went_trans].
Qed.

Lemma vector_safe buf start stop : bytes_ok buf -> 0 <= start <= stop -> stop <= zlen buf < 2 ^ 62 -> safe out_ok (read_vector buf start stop).
Proof.
  intros Hb H1 H2. unfold read_vector. eapply safe_bind; [by apply u64_safe|]. intros (n & c) (Hn & M).
  destruct (UINT32_MAX <? n); [done|]. eapply safe_bind; [apply buckets_safe; [apply M|by split|lia]|].
  intros (c' & out) (_ & Ho). by destruct (pf_p c' =? pf_end c').
Qed.

Lemma be32_safe buf p : bytes_ok buf -> 0 <= p -> p + 4 <= zlen buf -> safe (fun v => 0 <= v < 2 ^ 32) (pf_be32 buf p).
Proof.
  intros Hb Hp Hl. unfold pf_be32. eapply safe_bind; [apply rd1_byte; [done|lia]|]. intros b0 H0. eapply safe_bind; [apply rd1_byte; [done|lia]|]. intros b1 H1.
  eapply safe_bind; [apply rd1_byte; [done|lia]|]. intros b2 H2. eapply safe_bind; [apply rd1_byte; [done|lia]|]. intros b3 H3. cbn [safe].
  unfold byte_ok in *. pose proof (shiftl_bound b0 8 24). pose proof (shiftl_bound b1 8 16). pose proof (shiftl_bound b2 8 8).
  repeat apply lor_bound; lia.
Qed.

Lemma le32_safe buf p : bytes_ok buf -> 0 <= p -> p + 4 <= zlen buf -> safe (fun v => 0 <= v < 2 ^ 32) (le32_at buf p).
Proof.
  intros Hb Hp Hl. unfold le32_at. rewrite rd_Ok by lia. rewrite bind_Ok. cbn [safe]. pose proof (le_uint_bound (take (Z.to_nat 4) (drop (Z.to_nat p) buf)) ltac:(auto with pgc)) as H.
  rewrite zlen_sub in H by lia. done.
Qed.

Section ReaderSafe.
Context `{N : Numerics} `{J : !JsonbIn} `{C : Crc32}.

Lemma num_safe o : safe (fun _ => True) (pf_num_int64 o).
Proof. destruct o as [[]|]; try done. cbn. by destruct (numeric_int8 n). Qed.

Lemma find_blob_safe off size ref bls : safe (fun _ => True) (find_blob bls off size ref).
Proof.
  induction bls as [|bc bls IH]; cbn [find_blob]; [done|]. destruct bc; try done. eapply (safe_bind (fun _ => True)).
  { unfold blob_matches. eapply safe_bind; [apply num_safe|]. intros [o|] _; [|done]. eapply safe_bind; [apply num_safe|]. by intros [l|] _. }
  intros [] _; [|done]. destruct (negb _); [done|]. destruct (pf_field _ str_codec); [done|]. destruct (pf_field _ str_properties); [|done].
  by destruct (pf_str_eq _ _).
Qed.

Lemma read_dv_safe buf off size ref : bytes_ok buf -> zlen buf < 2 ^ 62 ->
  safe (fun ps => zlen ps <= PUFFIN_MAX_POSITIONS /\ Forall (fun v => 0 <= v < 2 ^ 64) ps) (PgColumnarPuffinReadDeletionVector buf off size ref).
Proof.
  intros Hb Hl. unfold PgColumnarPuffinReadDeletionVector. cbv zeta. destruct (Z.ltb_spec (zlen buf) 20); [done|].
  rewrite (rd_Ok buf 0 4), bind_Ok, (rd_Ok buf (zlen buf - 4) 4), bind_Ok by lia. destruct (_ || _); [done|]. eapply safe_bind; [apply le32_safe; [done|lia|lia]|]. intros flags _.
  destruct (negb _); [done|]. destruct (negb _); [done|]. eapply safe_bind; [apply le32_safe; [done|lia|lia]|]. intros p Hp.
  set (paysize := s32 p). destruct (Z.ltb_spec paysize 2); [done|]. destruct (Z.ltb_spec (zlen buf - 12 - paysize) 8); [done|]. cbn [orb].
  rewrite (rd_Ok buf (zlen buf - 12 - paysize - 4) 4), bind_Ok by lia. destruct (bool_decide _); [done|].
  rewrite (rd_Ok buf (zlen buf - 12 - paysize) paysize), bind_Ok by lia.
  destruct (jsonb_in _) as [jb|]; [|done]. destruct (pf_field _ _) as [[]|]; try done. eapply safe_bind; [apply find_blob_safe|]. intros found _.
  destruct (negb found); [done|]. destruct (_ || _) eqn:E; [done|]. repeat (apply Bool.orb_false_iff in E as [E ?]). rewrite !Z.ltb_ge in *.
  eapply safe_bind; [apply be32_safe; [done|lia|lia]|]. intros veclen Hv. destruct (Z.eqb_spec veclen (size - 8)) as [->|]; [|done]. cbn [negb].
  rewrite (rd_Ok buf (off + 4) 4), bind_Ok by lia. destruct (bool_decide _); [done|]. eapply safe_bind; [apply be32_safe; [done|lia|lia]|]. intros crc _.
  rewrite rd_Ok, bind_Ok by lia. destruct (negb _); [done|]. apply vector_safe; [done|lia|lia].
Qed.

(** C29.  Whatever bytes a file holds and whatever blob a manifest names, reading
    the deletion vector ends with an error or with at most 16777216 positions of
    64 bits; no byte outside the file is read, and hostile bucket, container and
    run counts do not make it loop. *)
Theorem puffin_read_safe buf off size ref : bytes_ok buf -> zlen buf < 2 ^ 62 ->
  safe (fun ps => zlen ps <= PUFFIN_MAX_POSITIONS /\ Forall (fun v => 0 <= v < 2 ^ 64) ps) (PgColumnarPuffinReadDeletionVector buf off size ref).
Proof. apply read_dv_safe. Qed.

End ReaderSafe.

(** ** Well-formed bitmaps *)

(** A container: values in array or bitset form by their number, or runs of a
    start and a length less one. *)
Inductive container :=
| CVals (vs : list Z)
| CRuns (rs : list (Z * Z)).

Definition container_values (c : container) : list Z :=
  match c with
  | CVals vs => vs
  | CRuns rs => concat (map (fun '(s, l) => seqZ s (l + 1)) rs)
  end.

Definition is_run (c : container) : bool := match c with CRuns _ => true | CVals _ => false end.

(** The word of a bitset that holds the values from [64 w] on. *)
Definition bit_word (vs : list Z) (w : Z) : Z := foldr (fun v acc => if v / 64 =? w then Z.lor (2 ^ (v mod 64)) acc else acc) 0 vs.

Definition put_container (c : container) : list Z :=
  match c with
  | CVals vs => if zlen vs <=? 4096 then concat (map (le_bytes 2) vs) else concat (map (fun w => le_bytes 8 (bit_word vs w)) (seqZ 0 1024))
  | CRuns rs => le_bytes 2 (zlen rs) ++ concat (map (fun '(s, l) => le_bytes 2 s ++ le_bytes 2 l) rs)
  end.

Definition container_ok (c : container) : Prop :=
  match c with
  | CVals vs => StronglySorted Z.lt vs /\ Forall (fun v => 0 <= v < 65536) vs
  | CRuns rs => zlen rs < 65536 /\ Forall (fun '(s, l) => 0 <= s /\ 0 <= l /\ s + l < 65536) rs
  end.

(** A 32-bit bitmap: containers by key, with the bytes of the offset header, which
    a reader may ignore. *)
Record bitmap32 := mkBitmap { bm_containers : list (Z * container); bm_offsets : list Z }.

Fixpoint flags_value (bs : list bool) : Z := match bs with [] => 0 | b :: bs => Z.b2z b + 2 * flags_value bs end.

Definition put_header (kc : Z * container) : list Z := le_bytes 2 kc.1 ++ le_bytes 2 (zlen (container_values kc.2) - 1).

Definition put_bitmap32 (b : bitmap32) : list Z :=
  let cs := bm_containers b in
  let runs := map (fun kc => is_run kc.2) cs in
  (if existsb id runs
   then le_bytes 4 (ROARING_COOKIE_RUN + (zlen cs - 1) * 65536) ++ le_bytes (Z.to_nat ((zlen cs + 7) / 8)) (flags_value runs)
   else le_bytes 4 ROARING_COOKIE_NO_RUN ++ le_bytes 4 (zlen cs)) ++
  concat (map put_header cs) ++ bm_offsets b ++ concat (map (fun kc => put_container kc.2) cs).

Definition bitmap32_ok (b : bitmap32) : Prop :=
  let cs := bm_containers b in
  let run := existsb id (map (fun kc => is_run kc.2) cs) in
  zlen cs <= 65536 /\ Forall (fun kc => 0 <= kc.1 < 65536 /\ 1 <= zlen (container_values kc.2) <= 65536 /\ container_ok kc.2) cs /\ bytes_ok (bm_offsets b) /\
  zlen (bm_offsets b) = if run && (zlen cs <? 4) then 0 else 4 * zlen cs.

Definition bitmap32_values (b : bitmap32) : list Z := concat (map (fun kc => map (fun v => kc.1 * 2 ^ 16 + v) (container_values kc.2)) (bm_containers b)).

(** A 64-bit bitmap: 32-bit ones by the high half of the position. *)
Definition put_vector (bm : list (Z * bitmap32)) : list Z := le_bytes 8 (zlen bm) ++ concat (map (fun kb => le_bytes 4 kb.1 ++ put_bitmap32 kb.2) bm).

Definition vector_ok (bm : list (Z * bitmap32)) : Prop :=
  zlen bm < 2 ^ 32 /\ StronglySorted Z.lt (map fst bm) /\ Forall (fun kb => 0 <= kb.1 < 2 ^ 32 /\ bitmap32_ok kb.2) bm.

Definition vector_positions (bm : list (Z * bitmap32)) : list Z := concat (map (fun kb => map (fun v => kb.1 * 2 ^ 32 + v) (bitmap32_values kb.2)) bm).

(** ** Reading well-formed bitmaps *)

(** The bytes [s] are what is left of the vector. *)
Definition at_bytes (c : PfCur) (s : list Z) : Prop :=
  bytes_ok s /\ zlen (pf_buf c) < 2 ^ 62 /\ exists pre post, pf_buf c = pre ++ s ++ post /\ pf_p c = zlen pre /\ pf_end c = zlen pre + zlen s.

Lemma at_need c n s : at_bytes c s -> 0 <= n <= zlen s -> pf_need c n = Ok tt.
Proof.
  intros (_ & Hl & pre & post & E & P & Q) Hn. unfold pf_need. pose proof (zlen_nonneg pre). pose proof (zlen_nonneg post).
  rewrite E, !zlen_app in Hl. rewrite u64_small by lia. by rewrite (proj2 (Z.ltb_ge _ _)) by lia.
Qed.

Lemma at_skip c a s n : at_bytes c (a ++ s) -> n = zlen a -> at_bytes (pf_skip c n) s.
Proof.
  intros (Hb & Hl & pre & post & E & P & Q) ->. apply Forall_app in Hb as [_ Hb]. split; [done|]. split; [done|]. exists (pre ++ a), post.
  unfold pf_skip; cbn. rewrite E, !zlen_app in *. split; [by rewrite <- !app_assoc|lia].
Qed.

Lemma at_rd c a s n : at_bytes c (a ++ s) -> n = zlen a -> rd (pf_buf c) (pf_p c) n = Ok a.
Proof. intros (_ & _ & pre & post & -> & -> & _) ->. rewrite <- app_assoc. apply rd_middle. Qed.

Lemma at_rd1 c a s i : at_bytes c (a ++ s) -> 0 <= i < zlen a -> rd1 (pf_buf c) (pf_p c + i) = Ok (nthZ a i).
Proof.
  intros (_ & _ & pre & post & -> & -> & _) Hi. pose proof (zlen_nonneg pre). pose proof (zlen_nonneg s). pose proof (zlen_nonneg post).
  rewrite rd1_Ok by (rewrite !zlen_app; lia). f_equal. rewrite <- app_assoc, nthZ_app by lia. rewrite (proj2 (Z.ltb_ge _ _)) by lia.
  replace (zlen pre + i - zlen pre) with i by lia. rewrite nthZ_app by lia. by rewrite (proj2 (Z.ltb_lt _ _)) by lia.
Qed.

Lemma at_u16 c v s : at_bytes c (le_bytes 2 v ++ s) -> 0 <= v < 2 ^ 16 -> pf_u16 c = Ok (v, pf_skip c 2) /\ at_bytes (pf_skip c 2) s.
Proof.
  intros H Hv. pose proof (zlen_nonneg s). split; [|by eapply at_skip; [|rewrite zlen_le_bytes]]. unfold pf_u16.
  rewrite (at_need c 2 _ H) by (rewrite zlen_app, zlen_le_bytes; lia). rewrite bind_Ok.
  pose proof (at_rd1 c _ _ 0 H) as R0. rewrite Z.add_0_r in R0. rewrite zlen_le_bytes in R0. rewrite R0, bind_Ok by lia.
  rewrite (at_rd1 c _ _ 1 H) by (rewrite zlen_le_bytes; lia). rewrite bind_Ok. do 2 f_equal.
  pose proof (le_bytes_ok 2 v) as Hb. destruct (u16_bytes (nthZ (le_bytes 2 v) 0) (nthZ (le_bytes 2 v) 1)) as [-> _]; [by apply nthZ_ok..|].
  change (le_uint [nthZ (le_bytes 2 v) 0; nthZ (le_bytes 2 v) 1]) with (le_uint (le_bytes 2 v)). by apply le_uint_le_bytes_id.
Qed.

Lemma at_u32 c v s : at_bytes c (le_bytes 4 v ++ s) -> 0 <= v < 2 ^ 32 -> pf_u32 c = Ok (v, pf_skip c 4) /\ at_bytes (pf_skip c 4) s.
Proof.
  intros H Hv. pose proof (zlen_nonneg s). split; [|by eapply at_skip; [|rewrite zlen_le_bytes]]. unfold pf_u32.
  rewrite (at_need c 4 _ H) by (rewrite zlen_app, zlen_le_bytes; lia). rewrite bind_Ok.
  pose proof (at_rd1 c _ _ 0 H) as R0. rewrite Z.add_0_r in R0. rewrite zlen_le_bytes in R0. rewrite R0, bind_Ok by lia.
  rewrite (at_rd1 c _ _ 1 H), bind_Ok, (at_rd1 c _ _ 2 H), bind_Ok, (at_rd1 c _ _ 3 H), bind_Ok by (rewrite zlen_le_bytes; lia). do 2 f_equal.
  pose proof (le_bytes_ok 4 v) as Hb.
  destruct (u32_bytes (nthZ (le_bytes 4 v) 0) (nthZ (le_bytes 4 v) 1) (nthZ (le_bytes 4 v) 2) (nthZ (le_bytes 4 v) 3)) as [-> _]; [by apply nthZ_ok..|].
  change (le_uint [nthZ (le_bytes 4 v) 0; nthZ (le_bytes 4 v) 1; nthZ (le_bytes 4 v) 2; nthZ (le_bytes 4 v) 3]) with (le_uint (le_bytes 4 v)). by apply le_uint_le_bytes_id.
Qed.

Lemma le_bytes_split n m z : le_bytes (n + m) z = le_bytes n z ++ le_bytes m (z / 2 ^ (8 * Z.of_nat n)).
Proof.
  revert z. induction n as [|n IH]; intros z; cbn [Nat.add le_bytes app]; [by rewrite Z.div_1_r|]. f_equal. rewrite IH. do 2 f_equal.
  rewrite Z.div_div by (try apply pow2_pos; lia). f_equal. rewrite <- Z.pow_add_r by lia. f_equal. lia.
Qed.

Lemma at_u64 c v s : at_bytes c (le_bytes 8 v ++ s) -> 0 <= v < 2 ^ 64 -> exists c', pf_u64 c = Ok (v, c') /\ at_bytes c' s.
Proof.
  intros H Hv. rewrite (le_bytes_split 4 4), <- app_assoc in H. change (2 ^ (8 * Z.of_nat 4)) with (2 ^ 32) in H.
  replace (le_bytes 4 v) with (le_bytes 4 (v mod 2 ^ 32)) in H.
  2:{ apply le_uint_inj; [apply le_bytes_ok..|by rewrite !length_le_bytes|]. rewrite !le_uint_le_bytes. by rewrite Z.mod_mod. }
  unfold pf_u64. pose proof (mod_pow2_bound v 32 ltac:(lia)). destruct (at_u32 _ _ _ H ltac:(done)) as [-> H1]. rewrite bind_Ok.
  assert (0 <= v / 2 ^ 32 < 2 ^ 32) by (split; [apply Z.div_pos; lia|apply Z.div_lt_upper_bound; lia]).
  destruct (at_u32 _ _ _ H1 ltac:(done)) as [-> H3]. rewrite bind_Ok. eexists. split; [|done]. do 2 f_equal.
  rewrite Z.shiftl_mul_pow2, lor_add by lia. pose proof (Z.div_mod v (2 ^ 32)). lia.
Qed.

(** Emitting positions below the limit. *)
Lemma emit_Ok out v : zlen out < PUFFIN_MAX_POSITIONS -> pf_emit out v = Ok (out ++ [v]).
Proof. intros H. unfold pf_emit. by rewrite (proj2 (Z.leb_gt _ _)) by done. Qed.

Lemma for_emits (f : Z -> list Z) (body : Z -> list Z -> res (list Z)) n : forall lo out,
  (forall i o, lo <= i < lo + Z.of_nat n -> zlen (o ++ f i) <= PUFFIN_MAX_POSITIONS -> body i o = Ok (o ++ f i)) ->
  zlen (out ++ concat (map f (seqZ lo (Z.of_nat n)))) <= PUFFIN_MAX_POSITIONS ->
  for_loop n lo body out = Ok (out ++ concat (map f (seqZ lo (Z.of_nat n)))).
Proof.
  induction n as [|n IH]; intros lo out Hb Hl; cbn [for_loop]; [cbn; by rewrite app_nil_r|].
  rewrite seqZ_cons in * by lia. replace (Z.pred (Z.of_nat (S n))) with (Z.of_nat n) in * by lia. cbn [map concat] in *. rewrite app_assoc in *.
  rewrite Hb, bind_Ok; [|lia|rewrite zlen_app in Hl; pose proof (zlen_nonneg (concat (map f (seqZ (Z.succ lo) (Z.of_nat n))))); lia].
  change (lo + 1) with (Z.succ lo). apply IH; [|done]. intros i o Hi. apply Hb. lia.
Qed.

Lemma forZ_emits (f : Z -> list Z) (body : Z -> list Z -> res (list Z)) lo hi n out : 0 <= n -> hi = lo + n ->
  (forall i o, lo <= i < lo + n -> zlen (o ++ f i) <= PUFFIN_MAX_POSITIONS -> body i o = Ok (o ++ f i)) ->
  zlen (out ++ concat (map f (seqZ lo n))) <= PUFFIN_MAX_POSITIONS ->
  forZ lo hi body out = Ok (out ++ concat (map f (seqZ lo n))).
Proof.
  intros Hn -> Hb Hl. unfold forZ. replace (lo + n - lo) with n by lia. rewrite <- (Z2Nat.id n) in Hl, Hb |- * by done. rewrite Nat2Z.id. by apply for_emits.
Qed.

(** The high bits of a position and the value below them. *)
Lemma lor_pos kbase v : kbase mod 2 ^ 16 = 0 -> 0 <= v < 2 ^ 16 -> Z.lor kbase v = kbase + v.
Proof.
  intros Hk Hv. rewrite Z.lor_comm. pose proof (Z.div_mod kbase (2 ^ 16) ltac:(lia)) as E. rewrite Hk, Z.add_0_r, Z.mul_comm in E. rewrite E, lor_add by lia. lia.
Qed.

(** The values of a container at their place. *)
Definition placed (kbase : Z) (vs : list Z) : list Z := map (fun v => kbase + v) vs.

Lemma placed_app kbase a b : placed kbase (a ++ b) = placed kbase a ++ placed kbase b.
Proof. apply map_app. Qed.

Lemma emit_run_Ok kbase s l out : kbase mod 2 ^ 16 = 0 -> 0 <= s -> 0 <= l -> s + l < 65536 ->
  zlen (out ++ placed kbase (seqZ s (l + 1))) <= PUFFIN_MAX_POSITIONS ->
  emit_run kbase s (l + 1) out = Ok (out ++ placed kbase (seqZ s (l + 1))).
Proof.
  intros Hk Hs Hl Hb Hz. assert (E : placed kbase (seqZ s (l + 1)) = concat (map (fun v => [kbase + (s + v)]) (seqZ 0 (l + 1)))).
  { unfold placed. rewrite concat_single. rewrite <- (Z.add_0_r s) at 1. rewrite <- fmap_add_seqZ.
    change (Z.add s <$> seqZ 0 (l + 1)) with (map (Z.add s) (seqZ 0 (l + 1))). by rewrite map_map. }
  rewrite E in *. unfold emit_run. apply forZ_emits; [lia|lia| |done].
  intros v o Hv Ho. rewrite zlen_app, zlen_cons, zlen_nil in Ho. rewrite emit_Ok by lia. by rewrite lor_pos by lia.
Qed.

(** ** Containers *)

Definition put_run '((s, l) : Z * Z) : list Z := le_bytes 2 s ++ le_bytes 2 l.

Lemma limit_app (out a b : list Z) : zlen (out ++ a ++ b) <= PUFFIN_MAX_POSITIONS -> zlen (out ++ a) <= PUFFIN_MAX_POSITIONS /\ zlen ((out ++ a) ++ b) <= PUFFIN_MAX_POSITIONS.
Proof. rewrite !zlen_app. pose proof (zlen_nonneg b). lia. Qed.

Lemma runs_Ok kbase s : kbase mod 2 ^ 16 = 0 -> forall rs c out, Forall (fun '(s, l) => 0 <= s /\ 0 <= l /\ s + l < 65536) rs ->
  at_bytes c (concat (map put_run rs) ++ s) -> zlen (out ++ placed kbase (container_values (CRuns rs))) <= PUFFIN_MAX_POSITIONS ->
  exists c', read_runs (length rs) kbase c out = Ok (c', out ++ placed kbase (container_values (CRuns rs))) /\ at_bytes c' s.
Proof.
  intros Hk. induction rs as [|[a l] rs IH]; intros c out Hf Hat Hl; cbn [length read_runs container_values concat map] in *.
  - exists c. cbn. by rewrite app_nil_r.
  - apply Forall_cons_1 in Hf as [(Ha & Hll & Hs) Hf]. unfold put_run in Hat at 1. rewrite <- !app_assoc in Hat.
    destruct (at_u16 _ _ _ Hat ltac:(lia)) as [-> H1]. rewrite bind_Ok. destruct (at_u16 _ _ _ H1 ltac:(lia)) as [-> H2]. rewrite bind_Ok.
    rewrite (proj2 (Z.ltb_ge _ _)) by lia. rewrite placed_app in *. destruct (limit_app _ _ _ Hl) as [L1 L2]. rewrite emit_run_Ok, bind_Ok by done.
    destruct (IH _ _ Hf H2 L2) as (c' & -> & H3). exists c'. by rewrite app_assoc.
Qed.

Lemma array_Ok kbase s : kbase mod 2 ^ 16 = 0 -> forall vs c out, Forall (fun v => 0 <= v < 65536) vs ->
  at_bytes c (concat (map (le_bytes 2) vs) ++ s) -> zlen (out ++ placed kbase vs) <= PUFFIN_MAX_POSITIONS ->
  exists c', read_array (length vs) kbase c out = Ok (c', out ++ placed kbase vs) /\ at_bytes c' s.
Proof.
  intros Hk. induction vs as [|v vs IH]; intros c out Hf Hat Hl; cbn [length read_array concat map] in *.
  - exists c. cbn. by rewrite app_nil_r.
  - apply Forall_cons_1 in Hf as [Hv Hf]. rewrite <- app_assoc in Hat. destruct (at_u16 _ _ _ Hat ltac:(lia)) as [-> H1]. rewrite bind_Ok.
    change (placed kbase (v :: vs)) with ([kbase + v] ++ placed kbase vs) in *. destruct (limit_app _ _ _ Hl) as [L1 L2].
    rewrite zlen_app, zlen_cons, zlen_nil in L1. rewrite emit_Ok, bind_Ok by lia. rewrite lor_pos by lia.
    destruct (IH _ _ Hf H1 L2) as (c' & -> & H3). exists c'. by rewrite app_assoc.
Qed.

Lemma bit_word_testbit vs w b : Forall (fun v => 0 <= v) vs -> 0 <= b < 64 -> Z.testbit (bit_word vs w) b = bool_decide (w * 64 + b ∈ vs).
Proof.
  intros Hf Hb. induction vs as [|v vs IH]; cbn [bit_word foldr]; [by rewrite Z.bits_0|]. apply Forall_cons_1 in Hf as [Hv Hf]. specialize (IH Hf).
  fold (bit_word vs w). pose proof (Z.div_mod v 64 ltac:(lia)) as E. pose proof (Z.mod_pos_bound v 64 ltac:(lia)).
  rewrite (bool_decide_ext _ (w * 64 + b = v \/ w * 64 + b ∈ vs)) by apply elem_of_cons. rewrite bool_decide_or, <- IH.
  destruct (Z.eqb_spec (v / 64) w) as [<-|Hne].
  - rewrite Z.lor_spec, Z.pow2_bits_eqb by lia. f_equal. destruct (Z.eqb_spec (v mod 64) b); [rewrite bool_decide_eq_true_2|rewrite bool_decide_eq_false_2]; lia.
  - rewrite bool_decide_eq_false_2; [done|]. intros Ev. apply Hne. symmetry. apply Z.div_unique with (r := b); lia.
Qed.

Lemma bit_word_bound vs w : Forall (fun v => 0 <= v) vs -> 0 <= bit_word vs w < 2 ^ 64.
Proof.
  induction 1 as [|v vs Hv Hf IH]; [done|]. cbn [bit_word foldr]. fold (bit_word vs w). destruct (v / 64 =? w); [|done].
  apply lor_bound; [lia| |done]. pose proof (Z.mod_pos_bound v 64 ltac:(lia)). split; [lia|]. apply Z.pow_lt_mono_r; lia.
Qed.

(** A sorted list is the numbers of its range that it has. *)
Lemma sorted_filter n : forall lo vs, StronglySorted Z.lt vs -> Forall (fun v => lo <= v < lo + Z.of_nat n) vs ->
  List.filter (fun v => bool_decide (v ∈ vs)) (seqZ lo (Z.of_nat n)) = vs.
Proof.
  induction n as [|n IH]; intros lo vs Hs Hf.
  - cbn. destruct vs as [|v vs]; [done|]. apply Forall_cons_1 in Hf as [? _]. lia.
  - rewrite seqZ_cons by lia. replace (Z.pred (Z.of_nat (S n))) with (Z.of_nat n) by lia. cbn [List.filter].
    assert (Hgt : forall vs, Forall (fun v => lo + 1 <= v) vs -> StronglySorted Z.lt vs -> Forall (fun v => lo <= v < lo + Z.of_nat (S n)) vs ->
      List.filter (fun v => bool_decide (v ∈ vs)) (seqZ (Z.succ lo) (Z.of_nat n)) = vs).
    { intros l H1 H2 H3. apply IH; [done|]. apply list.Forall_forall. intros v Hv.
      rewrite list.Forall_forall in H1, H3. specialize (H1 _ Hv). specialize (H3 _ Hv). cbn beta in *. lia. }
    destruct vs as [|v vs]; [rewrite bool_decide_eq_false_2 by apply not_elem_of_nil; by apply Hgt|]. pose proof Hs as Hs'. apply StronglySorted_inv in Hs' as [Hs1 Hlt].
    pose proof Hf as Hf'. apply Forall_cons_1 in Hf' as [Hv Hf1]. destruct (decide (v = lo)) as [->|Hne].
    + rewrite bool_decide_eq_true_2 by constructor. f_equal. etransitivity; [|apply (Hgt vs); [eapply Forall_weaken; [exact Hlt|]; cbn; lia|done|done]].
      apply filter_ext_in. intros x Hx. apply list_elem_of_In, elem_of_seqZ in Hx. apply bool_decide_ext. rewrite elem_of_cons. split; [intros [->|?]; [lia|done]|by right].
    + rewrite bool_decide_eq_false_2; [|rewrite elem_of_cons; intros [?|Hin]; [lia|]; rewrite list.Forall_forall in Hlt; specialize (Hlt _ Hin); lia].
      apply Hgt; [|done|done]. constructor; [lia|]. eapply Forall_weaken; [exact Hlt|]. cbn. lia.
Qed.

Lemma filter_concat {A} (f : A -> bool) ls : List.filter f (concat ls) = concat (map (List.filter f) ls).
Proof. induction ls as [|l ls IH]; cbn; [done|]. by rewrite filter_app, IH. Qed.

(** The range of a bitset, word by word. *)
Lemma seqZ_words k : seqZ 0 (64 * Z.of_nat k) = concat (map (fun w => map (fun b => w * 64 + b) (seqZ 0 64)) (seqZ 0 (Z.of_nat k))).
Proof.
  induction k as [|k IH]; [done|]. replace (64 * Z.of_nat (S k)) with (64 * Z.of_nat k + 64) by lia. replace (Z.of_nat (S k)) with (Z.of_nat k + 1) by lia.
  rewrite !seqZ_app by lia. rewrite IH, map_app, concat_app. f_equal. rewrite (Z.add_0_l (Z.of_nat k)), (seqZ_cons (Z.of_nat k)) by lia. cbn [map concat]. rewrite app_nil_r.
  replace (0 + 64 * Z.of_nat k) with (Z.of_nat k * 64 + 0) by lia. by rewrite <- (fmap_add_seqZ (Z.of_nat k * 64) 0).
Qed.

Lemma filter_map {A B} (p : B -> bool) (g : A -> B) l : List.filter p (map g l) = map g (List.filter (fun x => p (g x)) l).
Proof. induction l as [|x l IH]; cbn; [done|]. rewrite IH. by destruct (p (g x)). Qed.

(** What a word adds. *)
Definition word_values (vs : list Z) (w : Z) : list Z := map (fun b => w * 64 + b) (List.filter (fun b => Z.testbit (bit_word vs w) b) (seqZ 0 64)).

Lemma words_values vs : StronglySorted Z.lt vs -> Forall (fun v => 0 <= v < 65536) vs -> concat (map (word_values vs) (seqZ 0 1024)) = vs.
Proof.
  intros Hs Hf. etransitivity; [|apply (sorted_filter (64 * 1024) 0 vs); done]. replace (Z.of_nat (64 * 1024)) with (64 * Z.of_nat 1024) by lia.
  rewrite seqZ_words, filter_concat, map_map. f_equal. apply map_ext_in. intros w Hw. rewrite filter_map. unfold word_values. f_equal.
  apply filter_ext_in. intros b Hb. apply list_elem_of_In, elem_of_seqZ in Hb. apply bit_word_testbit; [|lia]. eapply Forall_weaken; [exact Hf|]. cbn. lia.
Qed.

Lemma bit_test word b : 0 <= b -> (Z.land (Z.shiftr word b) 1 =? 0) = negb (Z.testbit word b).
Proof.
  intros Hb. change 1 with (Z.ones 1). rewrite Z.land_ones, Z.shiftr_div_pow2 by lia. change (2 ^ 1) with 2. rewrite <- Z.testbit_spec' by done.
  by destruct (Z.testbit word b).
Qed.

Lemma map_filter_concat {A B} (p : A -> bool) (g : A -> B) l : map g (List.filter p l) = concat (map (fun x => if p x then [g x] else []) l).
Proof. induction l as [|x l IH]; cbn; [done|]. destruct (p x); cbn; by rewrite IH. Qed.

Lemma emit_bits_Ok kbase w word out : kbase mod 2 ^ 16 = 0 -> 0 <= w < 1024 ->
  zlen (out ++ concat (map (fun b => if Z.testbit word b then [kbase + (w * 64 + b)] else []) (seqZ 0 64))) <= PUFFIN_MAX_POSITIONS ->
  emit_word kbase w word out = Ok (out ++ concat (map (fun b => if Z.testbit word b then [kbase + (w * 64 + b)] else []) (seqZ 0 64))).
Proof.
  intros Hk Hw Hl. unfold emit_word. destruct (Z.eqb_spec word 0) as [->|_].
  - rewrite (map_ext _ (fun _ => [])) by (intros b; by rewrite Z.bits_0). by rewrite app_nil_r.
  - apply forZ_emits; [lia|lia| |exact Hl]. intros b o Hb Ho. rewrite bit_test by lia.
    destruct (Z.testbit word b); cbn [negb]; [|by rewrite app_nil_r]. rewrite zlen_app, zlen_cons, zlen_nil in Ho. rewrite emit_Ok by lia. by rewrite lor_pos by lia.
Qed.

Lemma emit_word_Ok kbase vs w out : kbase mod 2 ^ 16 = 0 -> 0 <= w < 1024 -> zlen (out ++ placed kbase (word_values vs w)) <= PUFFIN_MAX_POSITIONS ->
  emit_word kbase w (bit_word vs w) out = Ok (out ++ placed kbase (word_values vs w)).
Proof.
  assert (E : placed kbase (word_values vs w) = concat (map (fun b => if Z.testbit (bit_word vs w) b then [kbase + (w * 64 + b)] else []) (seqZ 0 64))).
  { unfold placed, word_values. rewrite map_map. apply map_filter_concat. }
  rewrite E. apply emit_bits_Ok.
Qed.

(** The loop over the words, for any words and what each adds. *)
Lemma bitset_words_Ok kbase (word : Z -> Z) (vals : Z -> list Z) s : (forall w, 0 <= word w < 2 ^ 64) ->
  (forall w out, 0 <= w < 1024 -> zlen (out ++ placed kbase (vals w)) <= PUFFIN_MAX_POSITIONS -> emit_word kbase w (word w) out = Ok (out ++ placed kbase (vals w))) ->
  forall n lo c out, 0 <= lo -> lo + Z.of_nat n <= 1024 ->
  at_bytes c (concat (map (fun w => le_bytes 8 (word w)) (seqZ lo (Z.of_nat n))) ++ s) ->
  zlen (out ++ placed kbase (concat (map vals (seqZ lo (Z.of_nat n))))) <= PUFFIN_MAX_POSITIONS ->
  exists c', for_loop n lo (fun w '(c, out) => ' (word, c) ← pf_u64 c; out ← emit_word kbase w word out; Ok (c, out)) (c, out) =
    Ok (c', out ++ placed kbase (concat (map vals (seqZ lo (Z.of_nat n))))) /\ at_bytes c' s.
Proof.
  intros Hw He. induction n as [|n IH]; intros lo c out Hlo Hn Hat Hl; [exists c; cbn; by rewrite app_nil_r|].
  cbn [for_loop]. rewrite seqZ_cons in * by lia. replace (Z.pred (Z.of_nat (S n))) with (Z.of_nat n) in * by lia. cbn [map concat] in *.
  rewrite <- app_assoc in Hat. rewrite placed_app in *. destruct (limit_app _ _ _ Hl) as [L1 L2].
  destruct (at_u64 _ _ _ Hat (Hw lo)) as (c1 & -> & H1). rewrite bind_Ok.
  rewrite He, !bind_Ok by (done || lia). change (lo + 1) with (Z.succ lo).
  destruct (IH (Z.succ lo) c1 _ ltac:(lia) ltac:(lia) H1 L2) as (c' & -> & H2). exists c'. by rewrite app_assoc.
Qed.

Lemma zlen_concat_const {A B} (f : A -> list B) n l : (forall x, zlen (f x) = n) -> zlen (concat (map f l)) = n * zlen l.
Proof. intros H. induction l as [|x l IH]; cbn [map concat]; [unfold zlen; cbn; lia|]. rewrite zlen_app, zlen_cons, H, IH. lia. Qed.

Lemma bitset_Ok kbase vs c out s : kbase mod 2 ^ 16 = 0 -> StronglySorted Z.lt vs -> Forall (fun v => 0 <= v < 65536) vs ->
  at_bytes c (concat (map (fun w => le_bytes 8 (bit_word vs w)) (seqZ 0 1024)) ++ s) -> zlen (out ++ placed kbase vs) <= PUFFIN_MAX_POSITIONS ->
  exists c', read_bitset kbase c out = Ok (c', out ++ placed kbase vs) /\ at_bytes c' s.
Proof.
  intros Hk Hs Hf Hat Hl. unfold read_bitset. rewrite (at_need c 8192 _ Hat), bind_Ok.
  2:{ rewrite zlen_app, (zlen_concat_const _ 8) by (intros; by rewrite zlen_le_bytes). change (zlen (seqZ 0 1024)) with 1024. pose proof (zlen_nonneg s). lia. }
  pose proof (words_values vs Hs Hf) as E. cut (exists c', forZ 0 1024 (fun w '(c, out) => ' (word, c) ← pf_u64 c; out ← emit_word kbase w word out; Ok (c, out)) (c, out) =
    Ok (c', out ++ placed kbase (concat (map (word_values vs) (seqZ 0 1024)))) /\ at_bytes c' s); [by rewrite E|].
  apply (bitset_words_Ok kbase (bit_word vs) (word_values vs) s) with (n := 1024%nat); try done.
  - intros w. apply bit_word_bound. eapply Forall_weaken; [exact Hf|]. cbn. lia.
  - intros w o Hw. by apply emit_word_Ok.
  - change (Z.of_nat 1024) with 1024. by rewrite E.
Qed.

Lemma container_Ok base bits i key k c out s : base mod 2 ^ 32 = 0 -> 0 <= key < 65536 -> container_ok k -> run_bit bits i = Ok (is_run k) ->
  at_bytes c (put_container k ++ s) -> zlen (out ++ placed (base + key * 2 ^ 16) (container_values k)) <= PUFFIN_MAX_POSITIONS ->
  exists c', read_container base bits i key (zlen (container_values k)) c out = Ok (c', out ++ placed (base + key * 2 ^ 16) (container_values k)) /\ at_bytes c' s.
Proof.
  intros Hb Hkey Hk Hr Hat Hl. unfold read_container. rewrite Hr, bind_Ok. cbv zeta.
  assert (E : Z.lor base (Z.shiftl key 16) = base + key * 2 ^ 16).
  { rewrite Z.shiftl_mul_pow2 by lia. pose proof (Z.div_mod base (2 ^ 32) ltac:(lia)) as E. rewrite Hb, Z.add_0_r, Z.mul_comm in E.
    rewrite E, Z.lor_comm, lor_add by lia. lia. }
  rewrite E. assert (Hm : (base + key * 2 ^ 16) mod 2 ^ 16 = 0).
  { rewrite Z.mod_add by lia. apply Z.mod_divide; [lia|]. apply Z.mod_divide in Hb; [|lia]. apply Z.divide_trans with (2 ^ 32); [by exists (2 ^ 16)|done]. }
  destruct k as [vs|rs]; cbn [is_run put_container container_values container_ok] in *.
  - destruct Hk as (H2 & H3). destruct (Z.leb_spec (zlen vs) 4096).
    + unfold zlen at 1. rewrite Nat2Z.id. by apply array_Ok.
    + by apply bitset_Ok.
  - destruct Hk as (H1 & H2). rewrite <- app_assoc in Hat. destruct (at_u16 _ _ _ Hat) as [-> H3]; [pose proof (zlen_nonneg rs); lia|].
    rewrite bind_Ok. unfold zlen at 1. rewrite Nat2Z.id. apply runs_Ok; try done.
Qed.

(** ** Bitmaps *)

Lemma headers_Ok s : forall cs c, Forall (fun kc => 0 <= kc.1 < 65536 /\ 1 <= zlen (container_values kc.2) <= 65536) cs -> at_bytes c (concat (map put_header cs) ++ s) ->
  exists c', read_headers (length cs) c = Ok (map (fun kc => (kc.1, zlen (container_values kc.2))) cs, c') /\ at_bytes c' s.
Proof.
  induction cs as [|[k d] cs IH]; intros c Hf Hat; cbn [length read_headers map concat] in *; [by exists c|].
  apply Forall_cons_1 in Hf as [[Hk Hd] Hf]. unfold put_header in Hat at 1. cbn [fst snd] in *. rewrite <- !app_assoc in Hat.
  destruct (at_u16 _ _ _ Hat ltac:(lia)) as [-> H1]. rewrite bind_Ok. destruct (at_u16 _ _ _ H1 ltac:(lia)) as [-> H2]. rewrite bind_Ok.
  destruct (IH _ Hf H2) as (c' & -> & H3). rewrite bind_Ok. exists c'. split; [|done].
  by replace (zlen (container_values d) - 1 + 1) with (zlen (container_values d)) by lia.
Qed.

Lemma flags_bound bs : 0 <= flags_value bs < 2 ^ zlen bs.
Proof.
  induction bs as [|b bs IH]; [done|]. cbn [flags_value]. rewrite zlen_cons, Z.pow_add_r by (pose proof (zlen_nonneg bs); lia). destruct b; cbn [Z.b2z]; lia.
Qed.

Lemma flags_testbit bs : forall i, 0 <= i -> Z.testbit (flags_value bs) i = default false (bs !! Z.to_nat i).
Proof.
  induction bs as [|b bs IH]; intros i Hi; cbn [flags_value]; [by rewrite Z.bits_0|]. rewrite Z.add_comm. destruct (Z.eq_dec i 0) as [->|Hne].
  - rewrite Z.testbit_0_r. done.
  - replace i with (Z.succ (i - 1)) by lia. rewrite Z.testbit_succ_r by lia. rewrite IH by lia.
    replace (Z.to_nat (Z.succ (i - 1))) with (S (Z.to_nat (i - 1))) by lia. done.
Qed.

(** The run markers say what each container is. *)
Lemma run_bit_Ok (cs : list (Z * container)) i kc : 0 <= i -> cs !! Z.to_nat i = Some kc ->
  run_bit (Some (le_bytes (Z.to_nat ((zlen cs + 7) / 8)) (flags_value (map (fun kc => is_run kc.2) cs)))) i = Ok (is_run kc.2).
Proof.
  intros Hi Hc. pose proof (lookup_lt_Some _ _ _ Hc) as Hlt. assert (Hz : i < zlen cs) by (unfold zlen; lia).
  set (runs := map (fun kc => is_run kc.2) cs). set (n := (zlen cs + 7) / 8).
  assert (Hn : zlen cs <= 8 * n < zlen cs + 8) by (subst n; div_bounds (zlen cs + 7) 8; lia).
  assert (Hr : zlen runs = zlen cs) by (unfold zlen, runs; by rewrite length_map).
  cbn [run_bit]. assert (Hd : 0 <= i / 8 < n) by (split; [apply Z.div_pos; lia|apply Z.div_lt_upper_bound; lia]).
  rewrite rd1_Ok, bind_Ok by (rewrite zlen_le_bytes; lia). f_equal. rewrite bit_test, Bool.negb_involutive by (apply Z.mod_pos_bound; lia).
  assert (E : le_uint (le_bytes (Z.to_nat n) (flags_value runs)) = flags_value runs).
  { apply le_uint_le_bytes_id. pose proof (flags_bound runs). split; [lia|]. eapply Z.lt_le_trans; [apply flags_bound|]. apply Z.pow_le_mono_r; lia. }
  pose proof (flags_testbit runs i Hi) as T. unfold runs in T. rewrite list_lookup_fmap, Hc in T. cbn in T. fold runs in T. rewrite <- E in T.
  rewrite <- T. symmetry. apply le_uint_testbit; [apply le_bytes_ok|done].
Qed.

Lemma containers_Ok base bits s : base mod 2 ^ 32 = 0 -> forall cs i c out, 0 <= i ->
  Forall (fun kc => 0 <= kc.1 < 65536 /\ container_ok kc.2) cs -> (forall (j : nat) kc, cs !! j = Some kc -> run_bit bits (i + Z.of_nat j) = Ok (is_run kc.2)) ->
  at_bytes c (concat (map (fun kc => put_container kc.2) cs) ++ s) ->
  zlen (out ++ placed base (bitmap32_values (mkBitmap cs []))) <= PUFFIN_MAX_POSITIONS ->
  exists c', read_containers base bits i (map (fun kc => (kc.1, zlen (container_values kc.2))) cs) c out = Ok (c', out ++ placed base (bitmap32_values (mkBitmap cs []))) /\ at_bytes c' s.
Proof.
  intros Hb. induction cs as [|[k d] cs IH]; intros i c out Hi Hf Hr Hat Hl; cbn [read_containers map concat] in *.
  - exists c. cbn. by rewrite app_nil_r.
  - apply Forall_cons_1 in Hf as [[Hk Hd] Hf]. cbn [fst snd] in *. rewrite <- app_assoc in Hat.
    change (bitmap32_values (mkBitmap ((k, d) :: cs) [])) with (map (fun v => k * 2 ^ 16 + v) (container_values d) ++ bitmap32_values (mkBitmap cs [])) in *.
    rewrite placed_app in *. assert (E : placed base (map (fun v => k * 2 ^ 16 + v) (container_values d)) = placed (base + k * 2 ^ 16) (container_values d)).
    { unfold placed. rewrite map_map. apply map_ext. intros v. lia. }
    rewrite E in *. destruct (limit_app _ _ _ Hl) as [L1 L2]. pose proof (Hr 0%nat _ eq_refl) as Hr0. rewrite Z.add_0_r in Hr0. cbn [snd] in Hr0.
    destruct (container_Ok base bits i k d c out _ Hb Hk Hd Hr0 Hat L1) as (c1 & -> & H1). rewrite bind_Ok. destruct (IH (i + 1) c1 (out ++ placed (base + k * 2 ^ 16) (container_values d)) ltac:(lia) Hf) as (c' & -> & H2).
    { intros j kc Hj. rewrite <- (Hr (S j) kc Hj). f_equal. lia. }
    { exact H1. }
    { exact L2. }
    exists c'. by rewrite app_assoc.
Qed.

Lemma existsb_map_false {A} (p : A -> bool) l : existsb id (map p l) = false -> Forall (fun x => p x = false) l.
Proof. induction l as [|x l IH]; cbn; intros H; [constructor|]. apply Bool.orb_false_iff in H as [H1 H2]. constructor; [done|]. by apply IH. Qed.

Lemma put_header_bytes kc : zlen (put_header kc) = 4.
Proof. unfold put_header. by rewrite zlen_app, !zlen_le_bytes. Qed.

Lemma roaring32_Ok b base c out s : bitmap32_ok b -> base mod 2 ^ 32 = 0 -> at_bytes c (put_bitmap32 b ++ s) -> zlen (out ++ placed base (bitmap32_values b)) <= PUFFIN_MAX_POSITIONS ->
  exists c', pf_roaring32 c base out = Ok (c', out ++ placed base (bitmap32_values b)) /\ at_bytes c' s.
Proof.
  destruct b as [cs offs]. unfold bitmap32_ok, put_bitmap32. cbn [bm_containers bm_offsets]. intros (Hn & Hf & Hob & Hoff) Hbase Hat Hl.
  change (bitmap32_values (mkBitmap cs offs)) with (bitmap32_values (mkBitmap cs [])) in *.
  pose proof (zlen_nonneg cs) as Hz. assert (Hlen : Z.to_nat (zlen cs) = length cs) by (unfold zlen; lia).
  assert (Hf1 : Forall (fun kc => 0 <= kc.1 < 65536 /\ 1 <= zlen (container_values kc.2) <= 65536) cs) by (eapply Forall_weaken; [exact Hf|]; cbn; tauto).
  assert (Hf2 : Forall (fun kc => 0 <= kc.1 < 65536 /\ container_ok kc.2) cs) by (eapply Forall_weaken; [exact Hf|]; cbn; tauto).
  unfold pf_roaring32. rewrite <- !app_assoc in Hat. destruct (existsb id (map (fun kc => is_run kc.2) cs)) eqn:Erun.
  - assert (Hpos : 1 <= zlen cs) by (destruct cs; [done|rewrite zlen_cons; pose proof (zlen_nonneg cs); lia]).
    rewrite <- !app_assoc in Hat. assert (Hck : 0 <= ROARING_COOKIE_RUN + (zlen cs - 1) * 65536 < 2 ^ 32) by (unfold ROARING_COOKIE_RUN; lia).
    destruct (at_u32 _ _ _ Hat Hck) as [-> H1]. rewrite bind_Ok. set (cookie := ROARING_COOKIE_RUN + (zlen cs - 1) * 65536) in *.
    assert (Hlow : Z.land cookie 65535 = ROARING_COOKIE_RUN).
    { change 65535 with (Z.ones 16). rewrite Z.land_ones by lia. subst cookie. change 65536 with (2 ^ 16). rewrite Z.mod_add by lia. done. }
    assert (Hhigh : Z.shiftr cookie 16 + 1 = zlen cs).
    { rewrite Z.shiftr_div_pow2 by lia. subst cookie. change 65536 with (2 ^ 16). rewrite Z.div_add by lia. change (ROARING_COOKIE_RUN / 2 ^ 16) with 0. lia. }
    rewrite Hlow, Hhigh, Z.eqb_refl. assert (Hne : (cookie =? ROARING_COOKIE_NO_RUN) = false) by (apply Z.eqb_neq; subst cookie; unfold ROARING_COOKIE_RUN, ROARING_COOKIE_NO_RUN; lia).
    rewrite Hne. set (n := (zlen cs + 7) / 8) in *. assert (Hn8 : zlen cs <= 8 * n < zlen cs + 8) by (subst n; div_bounds (zlen cs + 7) 8; lia).
    set (bits := le_bytes (Z.to_nat n) _) in *. assert (Hbits : zlen bits = n) by (unfold bits; rewrite zlen_le_bytes; lia).
    rewrite (at_need _ n _ H1) by (rewrite zlen_app; pose proof (zlen_nonneg (concat (map put_header cs) ++ offs ++ concat (map (fun kc => put_container kc.2) cs) ++ s)); lia).
    rewrite bind_Ok, (at_rd _ _ _ n H1) by done. rewrite !bind_Ok, (proj2 (Z.ltb_ge _ _)) by lia. rewrite Hlen.
    destruct (headers_Ok _ cs _ Hf1 (at_skip _ _ _ n H1 (eq_sym Hbits))) as (c2 & -> & H2). rewrite bind_Ok. cbn [orb andb].
    assert (H3 : exists c3, (if 4 <=? zlen cs then _ ← pf_need c2 (4 * zlen cs); Ok (pf_skip c2 (4 * zlen cs)) else Ok c2) = Ok c3 /\ at_bytes c3 (concat (map (fun kc => put_container kc.2) cs) ++ s)).
    { cbn [andb] in Hoff. destruct (Z.leb_spec 4 (zlen cs)) as [H4|H4].
      - rewrite (proj2 (Z.ltb_ge _ _)) in Hoff by lia. rewrite (at_need _ _ _ H2) by (rewrite zlen_app; pose proof (zlen_nonneg (concat (map (fun kc => put_container kc.2) cs) ++ s)); lia).
        rewrite bind_Ok. eexists. split; [done|]. by eapply at_skip.
      - rewrite (proj2 (Z.ltb_lt _ _)) in Hoff by lia. destruct offs as [|o offs]; [by exists c2|]. rewrite zlen_cons in Hoff. pose proof (zlen_nonneg offs). lia. }
    destruct H3 as (c3 & -> & H3). rewrite bind_Ok. apply containers_Ok; try done. intros j kc Hj. unfold bits, n. apply run_bit_Ok; [lia|]. by replace (Z.to_nat (0 + Z.of_nat j)) with j by lia.
  - rewrite <- !app_assoc in Hat. destruct (at_u32 _ _ _ Hat) as [-> H1]; [unfold ROARING_COOKIE_NO_RUN; lia|]. rewrite bind_Ok. rewrite Z.eqb_refl.
    destruct (at_u32 _ _ _ H1) as [-> H2]; [lia|]. rewrite !bind_Ok, (proj2 (Z.ltb_ge _ _)) by lia. rewrite Hlen.
    destruct (headers_Ok _ cs _ Hf1 H2) as (c2 & -> & H3). rewrite bind_Ok. cbn [orb andb] in *.
    rewrite (at_need _ _ _ H3) by (rewrite zlen_app; pose proof (zlen_nonneg (concat (map (fun kc => put_container kc.2) cs) ++ s)); lia). rewrite !bind_Ok.
    apply containers_Ok; try done; [|by eapply at_skip]. intros j kc Hj. cbn. f_equal. pose proof (existsb_map_false _ _ Erun) as Hr. rewrite list.Forall_forall in Hr. symmetry. apply (Hr kc). by eapply list_elem_of_lookup_2.
Qed.

Lemma buckets_Ok n s : forall bm fuel b prev c out, b + zlen bm = n -> 0 <= b -> (length bm <= fuel)%nat ->
  StronglySorted Z.lt (map fst bm) -> (0 < b -> Forall (fun k => prev < k) (map fst bm)) -> Forall (fun kb => 0 <= kb.1 < 2 ^ 32 /\ bitmap32_ok kb.2) bm ->
  at_bytes c (concat (map (fun kb => le_bytes 4 kb.1 ++ put_bitmap32 kb.2) bm) ++ s) -> zlen (out ++ vector_positions bm) <= PUFFIN_MAX_POSITIONS ->
  exists c', read_buckets fuel b n prev c out = Ok (c', out ++ vector_positions bm) /\ at_bytes c' s.
Proof.
  induction bm as [|[k bm0] bm IH]; intros fuel b prev c out Hn Hb Hfuel Hs Hp Hf Hat Hl; unfold vector_positions in *; cbn [map concat fst snd] in *.
  - rewrite zlen_nil in Hn. exists c. split; [|done]. rewrite app_nil_r. destruct fuel; cbn [read_buckets]; by rewrite (proj2 (Z.ltb_ge _ _)) by lia.
  - rewrite zlen_cons in Hn. pose proof (zlen_nonneg bm). destruct fuel as [|fuel]; [cbn in Hfuel; lia|]. cbn [read_buckets]. rewrite (proj2 (Z.ltb_lt _ _)) by lia.
    apply Forall_cons_1 in Hf as [[Hk Hok] Hf]. cbn [fst snd] in *. rewrite <- !app_assoc in Hat. destruct (at_u32 _ _ _ Hat Hk) as [-> H1]. rewrite bind_Ok.
    assert (Hg : (0 <? b) && (k <=? prev) = false).
    { destruct (Z.ltb_spec 0 b) as [Hb0|_]; [|done]. specialize (Hp Hb0). apply Forall_cons_1 in Hp as [Hp _]. cbn. apply Z.leb_gt. lia. }
    rewrite Hg. rewrite Z.shiftl_mul_pow2 by lia. destruct (limit_app _ _ _ Hl) as [L1 L2]. fold (placed (k * 2 ^ 32) (bitmap32_values bm0)) in *.
    destruct (roaring32_Ok bm0 (k * 2 ^ 32) _ out _ Hok ltac:(by apply Z.mod_mul) H1 L1) as (c1 & -> & H2). rewrite bind_Ok.
    apply StronglySorted_inv in Hs as [Hs Hlt].
    destruct (IH fuel (b + 1) k c1 (out ++ placed (k * 2 ^ 32) (bitmap32_values bm0)) ltac:(lia) ltac:(lia) ltac:(cbn in Hfuel; lia) Hs (fun _ => Hlt) Hf H2 L2) as (c' & -> & H3).
    exists c'. by rewrite app_assoc.
Qed.

Lemma put_vector_fuel bm : zlen bm <= zlen (concat (map (fun kb : Z * bitmap32 => le_bytes 4 kb.1 ++ put_bitmap32 kb.2) bm)).
Proof.
  induction bm as [|kb bm IH]; [done|]. cbn [map concat]. rewrite zlen_cons, !zlen_app, zlen_le_bytes. pose proof (zlen_nonneg (put_bitmap32 kb.2)). lia.
Qed.

Lemma vector_Ok buf pre bm post : vector_ok bm -> zlen (vector_positions bm) <= PUFFIN_MAX_POSITIONS -> buf = pre ++ put_vector bm ++ post -> bytes_ok buf -> zlen buf < 2 ^ 62 ->
  read_vector buf (zlen pre) (zlen pre + zlen (put_vector bm)) = Ok (vector_positions bm).
Proof.
  intros (Hn & Hs & Hf) Hl -> Hb Hz. unfold read_vector. set (c := mkCur _ _ _).
  assert (Hat : at_bytes c (put_vector bm)).
  { split; [|split; [done|]]; [unfold bytes_ok in Hb; rewrite !Forall_app in Hb; apply Hb|]. by exists pre, post. }
  pose proof (zlen_nonneg bm). unfold put_vector in Hat. rewrite <- (app_nil_r (concat _)) in Hat.
  destruct (at_u64 _ _ _ Hat) as (c1 & -> & H1); [lia|]. rewrite bind_Ok, (proj2 (Z.ltb_ge _ _)) by (unfold UINT32_MAX; lia).
  destruct (buckets_Ok (zlen bm) [] bm (S (Z.to_nat (pf_end c1 - pf_p c1))) 0 0 c1 [] ltac:(lia) ltac:(lia)) as (c' & -> & H2); try done.
  { pose proof (put_vector_fuel bm). destruct H1 as (_ & _ & p1 & p2 & _ & -> & ->). rewrite app_nil_r. unfold zlen in *. lia. }
  rewrite bind_Ok. destruct H2 as (_ & _ & p1 & p2 & _ & -> & ->). rewrite zlen_nil, Z.add_0_r, Z.eqb_refl. done.
Qed.

(** ** Whole files *)

Definition be_bytes4 (v : Z) : list Z := rev (le_bytes 4 v).

Lemma be32_at buf pre v post : buf = pre ++ be_bytes4 v ++ post -> 0 <= v < 2 ^ 32 -> pf_be32 buf (zlen pre) = Ok v.
Proof.
  intros -> Hv. unfold pf_be32, be_bytes4. pose proof (le_bytes_ok 4 v) as Hb. pose proof (le_uint_le_bytes_id 4 v ltac:(lia)) as E.
  destruct (le_bytes 4 v) as [|b0 [|b1 [|b2 [|b3 [|]]]]] eqn:El; try done. cbn [rev app].
  pose proof (zlen_nonneg pre). pose proof (zlen_nonneg post). assert (G : forall i x, nthZ (b3 :: b2 :: b1 :: b0 :: post) i = x -> 0 <= i < 4 -> rd1 (pre ++ b3 :: b2 :: b1 :: b0 :: post) (zlen pre + i) = Ok x).
  { intros i x <- Hi. rewrite rd1_Ok by (rewrite zlen_app, !zlen_cons; lia). rewrite nthZ_app by lia. rewrite (proj2 (Z.ltb_ge _ _)) by lia. do 2 f_equal. lia. }
  pose proof (G 0 b3 eq_refl ltac:(lia)) as R0. rewrite Z.add_0_r in R0. rewrite R0, bind_Ok, (G 1 b2 eq_refl), bind_Ok, (G 2 b1 eq_refl), bind_Ok, (G 3 b0 eq_refl), bind_Ok by lia.
  f_equal. repeat (apply Forall_cons_1 in Hb as [? Hb]). rewrite <- E. destruct (u32_bytes b0 b1 b2 b3) as [<- _]; [done..|].
  rewrite !(Z.lor_comm _ b0), !(Z.lor_comm (Z.shiftl b3 24)). rewrite (Z.lor_comm (Z.lor (Z.lor b0 _) _) (Z.shiftl b3 24)). zbits.
Qed.

Section Files.
Context `{N : Numerics} `{J : !JsonbIn} `{C : Crc32}.

(** The blob of a deletion vector. *)
Definition dv_blob (bm : list (Z * bitmap32)) : list Z :=
  let v := DV_MAGIC ++ put_vector bm in be_bytes4 (zlen v) ++ v ++ be_bytes4 (u32 (crc32 v)).

Definition puffin_file (before : list Z) (bm : list (Z * bitmap32)) (after payload : list Z) : list Z :=
  PUFFIN_MAGIC ++ before ++ dv_blob bm ++ after ++ PUFFIN_MAGIC ++ payload ++ le_bytes 4 (zlen payload) ++ le_bytes 4 0 ++ PUFFIN_MAGIC.

(** A footer entry for some other blob. *)
Definition other_blob (off size : Z) (j : json) : Prop :=
  match j with
  | JObject kvs => exists a b oa ob, json_assoc str_offset kvs = Some (JNumeric a) /\ numeric_int8 a = Some oa /\
      json_assoc str_length kvs = Some (JNumeric b) /\ numeric_int8 b = Some ob /\ (oa <> off \/ ob <> size)
  | _ => True
  end.

(** The footer entry of the deletion vector. *)
Definition dv_entry (off size : Z) (ref : list Z) (kvs : list (list Z * json)) : Prop :=
  exists a b props, json_assoc str_offset kvs = Some (JNumeric a) /\ numeric_int8 a = Some off /\
    json_assoc str_length kvs = Some (JNumeric b) /\ numeric_int8 b = Some size /\
    json_assoc str_type kvs = Some (JString str_dv_v1) /\ json_assoc str_codec kvs = None /\
    json_assoc str_properties kvs = Some (JObject props) /\ json_assoc str_referenced props = Some (JString ref).

(** The document of a footer that names the deletion vector. *)
Definition names_blob (off size : Z) (ref : list Z) (jb : json) : Prop :=
  exists kvs l1 e l2, jb = JObject kvs /\ json_assoc str_blobs kvs = Some (JArray (l1 ++ JObject e :: l2)) /\ Forall (other_blob off size) l1 /\ dv_entry off size ref e.

Lemma find_blob_Ok off size ref l2 e : dv_entry off size ref e -> forall l1, Forall (other_blob off size) l1 -> find_blob (l1 ++ JObject e :: l2) off size ref = Ok true.
Proof.
  intros (a & b & props & H1 & H2 & H3 & H4 & H5 & H6 & H7 & H8). induction 1 as [|j l1 Hj _ IH]; cbn [app find_blob].
  - unfold blob_matches, pf_field. cbn [json_field]. rewrite H1. cbn [pf_num_int64]. rewrite H2, bind_Ok, H3. cbn [pf_num_int64]. rewrite H4, !bind_Ok, !Z.eqb_refl.
    cbn [andb]. rewrite H5. unfold pf_str_eq. cbn [json_str_eq]. rewrite bool_decide_eq_true_2 by done. cbn [negb]. rewrite H6, H7. cbn [json_field]. rewrite H8.
    cbn [json_str_eq]. by rewrite bool_decide_eq_true_2.
  - destruct j; try done. destruct Hj as (a' & b' & oa & ob & K1 & K2 & K3 & K4 & K5). unfold blob_matches, pf_field. cbn [json_field]. rewrite K1. cbn [pf_num_int64].
    rewrite K2, bind_Ok, K3. cbn [pf_num_int64]. rewrite K4, !bind_Ok. replace ((oa =? off) && (ob =? size)) with false; [done|].
    symmetry. apply Bool.andb_false_iff. destruct K5; [left|right]; by apply Z.eqb_neq.
Qed.

(** A range of a file given by what stands around it. *)
Lemma rd_in (buf a b s : list Z) off n : buf = a ++ s ++ b -> off = zlen a -> n = zlen s -> rd buf off n = Ok s.
Proof. intros -> -> ->. apply rd_middle. Qed.

Lemma le32_in (buf a b : list Z) v off : buf = a ++ le_bytes 4 v ++ b -> off = zlen a -> 0 <= v < 2 ^ 32 -> le32_at buf off = Ok v.
Proof. intros E Ho Hv. unfold le32_at. rewrite (rd_in _ _ _ _ _ _ E Ho) by done. rewrite bind_Ok. f_equal. by apply le_uint_le_bytes_id. Qed.

(** C9.  A deletion vector is read as exactly the positions it holds: for every
    64-bit roaring bitmap (array, bitset and run containers in any number, with any
    offset headers), stored as a blob anywhere in a Puffin file whose footer names
    it among other blobs, the reader returns the bitmap's positions in order. *)
Theorem puffin_reads_positions before bm after payload ref jb : let buf := puffin_file before bm after payload in
  vector_ok bm -> zlen (vector_positions bm) <= PUFFIN_MAX_POSITIONS -> bytes_ok buf -> zlen buf < 2 ^ 62 -> zlen (put_vector bm) < 2 ^ 32 - 4 ->
  2 <= zlen payload < 2 ^ 31 -> jsonb_in (pnstrdup payload) = Some jb -> names_blob (4 + zlen before) (zlen (dv_blob bm)) ref jb ->
  PgColumnarPuffinReadDeletionVector buf (4 + zlen before) (zlen (dv_blob bm)) ref = Ok (vector_positions bm).
Proof.
  intros buf Hok Hmax Hb Hz Hv Hp Hj (kvs & l1 & e & l2 & -> & Hblobs & Hl1 & He).
  set (v := DV_MAGIC ++ put_vector bm). pose proof (zlen_nonneg before). pose proof (zlen_nonneg after). pose proof (zlen_nonneg (put_vector bm)).
  assert (Lv : zlen v = 4 + zlen (put_vector bm)) by (unfold v; by rewrite zlen_app).
  assert (Lb : zlen (dv_blob bm) = 8 + zlen v). { unfold dv_blob. fold v. rewrite !zlen_app. unfold be_bytes4, zlen. rewrite !length_rev, !length_le_bytes. lia. }
  assert (E0 : buf = [] ++ PUFFIN_MAGIC ++ (before ++ dv_blob bm ++ after ++ PUFFIN_MAGIC ++ payload ++ le_bytes 4 (zlen payload) ++ le_bytes 4 0 ++ PUFFIN_MAGIC)) by done.
  set (body := before ++ dv_blob bm ++ after). assert (Lbody : zlen body = zlen before + zlen (dv_blob bm) + zlen after) by (unfold body; rewrite !zlen_app; lia).
  assert (E1 : buf = (PUFFIN_MAGIC ++ body) ++ PUFFIN_MAGIC ++ (payload ++ le_bytes 4 (zlen payload) ++ le_bytes 4 0 ++ PUFFIN_MAGIC)) by (unfold body; rewrite <- !app_assoc; done).
  assert (E2 : buf = (PUFFIN_MAGIC ++ body ++ PUFFIN_MAGIC) ++ payload ++ (le_bytes 4 (zlen payload) ++ le_bytes 4 0 ++ PUFFIN_MAGIC)) by (rewrite E1, <- !app_assoc; done).
  assert (E3 : buf = (PUFFIN_MAGIC ++ body ++ PUFFIN_MAGIC ++ payload) ++ le_bytes 4 (zlen payload) ++ (le_bytes 4 0 ++ PUFFIN_MAGIC)) by (rewrite E1, <- !app_assoc; done).
  assert (E4 : buf = (PUFFIN_MAGIC ++ body ++ PUFFIN_MAGIC ++ payload ++ le_bytes 4 (zlen payload)) ++ le_bytes 4 0 ++ PUFFIN_MAGIC) by (rewrite E1, <- !app_assoc; done).
  assert (E5 : buf = (PUFFIN_MAGIC ++ body ++ PUFFIN_MAGIC ++ payload ++ le_bytes 4 (zlen payload) ++ le_bytes 4 0) ++ PUFFIN_MAGIC ++ []) by (rewrite E1, <- !app_assoc, app_nil_r; done).
  set (rest := after ++ PUFFIN_MAGIC ++ payload ++ le_bytes 4 (zlen payload) ++ le_bytes 4 0 ++ PUFFIN_MAGIC).
  assert (E6 : buf = (PUFFIN_MAGIC ++ before) ++ be_bytes4 (zlen v) ++ (v ++ be_bytes4 (u32 (crc32 v)) ++ rest)) by (rewrite E0; unfold dv_blob; fold v; rewrite <- !app_assoc; done).
  assert (E7 : buf = (PUFFIN_MAGIC ++ before ++ be_bytes4 (zlen v)) ++ v ++ (be_bytes4 (u32 (crc32 v)) ++ rest)) by (rewrite E6, <- !app_assoc; done).
  assert (E8 : buf = (PUFFIN_MAGIC ++ before ++ be_bytes4 (zlen v)) ++ DV_MAGIC ++ (put_vector bm ++ be_bytes4 (u32 (crc32 v)) ++ rest)) by (rewrite E7; unfold v; rewrite <- !app_assoc; done).
  assert (E9 : buf = (PUFFIN_MAGIC ++ before ++ be_bytes4 (zlen v) ++ v) ++ be_bytes4 (u32 (crc32 v)) ++ rest) by (rewrite E6, <- !app_assoc; done).
  assert (E10 : buf = (PUFFIN_MAGIC ++ before ++ be_bytes4 (zlen v) ++ DV_MAGIC) ++ put_vector bm ++ (be_bytes4 (u32 (crc32 v)) ++ rest)) by (rewrite E8, <- !app_assoc; done).
  assert (Lbe : forall x, zlen (be_bytes4 x) = 4) by (intros x; unfold be_bytes4, zlen; by rewrite length_rev, length_le_bytes).
  assert (Lbuf : zlen buf = 20 + zlen body + zlen payload) by (rewrite E1, !zlen_app, !zlen_le_bytes; change (zlen PUFFIN_MAGIC) with 4; lia).
  assert (LM : zlen PUFFIN_MAGIC = 4) by done. assert (LD : zlen DV_MAGIC = 4) by done.
  unfold PgColumnarPuffinReadDeletionVector. cbv zeta. clearbody buf. rewrite (proj2 (Z.ltb_ge _ _)) by lia.
  rewrite (rd_in buf _ _ _ 0 4 E0 eq_refl eq_refl), bind_Ok.
  rewrite (rd_in buf _ _ _ (zlen buf - 4) 4 E5), bind_Ok by (rewrite ?zlen_app, ?zlen_le_bytes; lia). rewrite bool_decide_eq_false_2 by tauto. cbn [orb].
  rewrite (le32_in buf _ _ _ (zlen buf - 8) E4), bind_Ok by (rewrite ?zlen_app, ?zlen_le_bytes; lia). cbn [Z.land Z.eqb negb].
  rewrite (le32_in buf _ _ _ (zlen buf - 12) E3), bind_Ok by (rewrite ?zlen_app, ?zlen_le_bytes; lia). rewrite s32_small by lia.
  rewrite (proj2 (Z.ltb_ge (zlen payload) 2)), (proj2 (Z.ltb_ge _ 8)) by lia. cbn [orb].
  rewrite (rd_in buf _ _ _ (zlen buf - 12 - zlen payload - 4) 4 E1), bind_Ok by (rewrite ?zlen_app; lia). rewrite bool_decide_eq_false_2 by tauto.
  rewrite (rd_in buf _ _ _ (zlen buf - 12 - zlen payload) (zlen payload) E2), bind_Ok by (rewrite ?zlen_app; lia). rewrite Hj. cbn [json_root pf_field json_field]. unfold pf_field. cbn [json_field]. rewrite Hblobs.
  rewrite (find_blob_Ok _ _ _ _ _ He _ Hl1), bind_Ok. cbn [negb]. rewrite !(proj2 (Z.ltb_ge _ _)) by lia. cbn [orb].
  replace (4 + zlen before) with (zlen (PUFFIN_MAGIC ++ before)) by (rewrite zlen_app; lia).
  rewrite (be32_at buf _ _ _ E6), bind_Ok by lia. replace (zlen v =? zlen (dv_blob bm) - 8) with true by (symmetry; apply Z.eqb_eq; lia). cbn [negb].
  rewrite (rd_in buf _ _ _ (zlen (PUFFIN_MAGIC ++ before) + 4) 4 E8), bind_Ok by (rewrite ?zlen_app, ?Lbe; lia). rewrite bool_decide_eq_false_2 by tauto.
  replace (zlen (PUFFIN_MAGIC ++ before) + 4 + zlen v) with (zlen (PUFFIN_MAGIC ++ before ++ be_bytes4 (zlen v) ++ v)) by (rewrite !zlen_app, Lbe; lia).
  rewrite (be32_at buf _ _ _ E9), bind_Ok by (apply mod_pow2_bound; lia).
  rewrite (rd_in buf _ _ _ (zlen (PUFFIN_MAGIC ++ before) + 4) (zlen v) E7), bind_Ok by (rewrite ?zlen_app, ?Lbe; lia). rewrite Z.eqb_refl. cbn [negb].
  pose proof (vector_Ok buf _ bm _ Hok Hmax E10 Hb Hz) as R. rewrite !zlen_app, !Lbe in R. rewrite <- R. rewrite !zlen_app, ?Lbe, ?Z.eqb_refl. cbn [negb]. f_equal; lia.
Qed.

End Files.

(** ** Examples *)

(** A bitmap with an array, a bucket of runs, and the document that names it. *)
Definition sample_bitmap : list (Z * bitmap32) :=
  [(0, mkBitmap [(1, CVals [5; 9])] [16; 0; 0; 0]); (7, mkBitmap [(0, CRuns [(3, 2)]); (2, CVals [0])] [])].

Definition sample_entry (off : Z) : list (list Z * json (N := int_numerics)) :=
  [(str_type, JString str_dv_v1); (str_offset, JNumeric (N := int_numerics) off); (str_length, JNumeric (N := int_numerics) 69);
   (str_properties, JObject [(str_referenced, JString [97])])].

Definition sample_json : JsonbIn (N := int_numerics) :=
  {| jsonb_in bs := if decide (bs = [123; 125]) then Some (JObject [(str_blobs, JArray [JNull; JObject (sample_entry 90); JObject (sample_entry 6)])]) else None |}.

Definition sum_crc : Crc32 := {| crc32 bs := foldr Z.add 0 bs |}.

Definition sample_file : list Z := puffin_file (C := sum_crc) [1; 2] sample_bitmap [3] [123; 125].

Lemma puffin_reads_positions_witness :
  PgColumnarPuffinReadDeletionVector (J := sample_json) (C := sum_crc) sample_file 6 69 [97] = Ok [65541; 65545; 30064771075; 30064771076; 30064771077; 30064902144].
Proof.
  apply (puffin_reads_positions (N := int_numerics) (J := sample_json) (C := sum_crc) [1; 2] sample_bitmap [3] [123; 125] [97]
    (JObject [(str_blobs, JArray [JNull; JObject (sample_entry 90); JObject (sample_entry 6)])])).
  - repeat (cbn [sample_bitmap map fst snd bm_containers bm_offsets container_ok app];
      match goal with
      | |- _ /\ _ => split
      | |- Forall _ [] => apply Forall_nil_2
      | |- Forall _ (_ :: _) => apply Forall_cons_2
      | |- StronglySorted _ [] => apply SSorted_nil
      | |- StronglySorted _ (_ :: _) => apply SSorted_cons
      | |- vector_ok _ => unfold vector_ok, sample_bitmap
      | |- bitmap32_ok _ => unfold bitmap32_ok
      | |- bytes_ok _ => unfold bytes_ok, byte_ok
      | |- Z.lt _ _ => vm_compute; reflexivity
      | |- Z.le _ _ => vm_compute; discriminate
      | |- _ = _ => vm_compute; reflexivity
      end).
  - vm_compute. discriminate.
  - apply (bool_decide_unpack _). vm_compute. exact I.
  - vm_compute. reflexivity.
  - vm_compute. reflexivity.
  - vm_compute. split; [discriminate|reflexivity].
  - reflexivity.
  - exists [(str_blobs, JArray [JNull; JObject (sample_entry 90); JObject (sample_entry 6)])], [JNull; JObject (sample_entry 90)], (sample_entry 6), [].
    split; [reflexivity|]. split; [reflexivity|]. split.
    + constructor; [exact I|]. constructor; [|constructor]. exists 90, 69, 90, 69. repeat split. left. discriminate.
    + exists 6, 69, [(str_referenced, JString [97])]. repeat split.
Defined.

Lemma puffin_read_safe_witness :
  safe (fun ps => zlen ps <= PUFFIN_MAX_POSITIONS /\ Forall (fun v => 0 <= v < 2 ^ 64) ps)
    (PgColumnarPuffinReadDeletionVector (J := sample_json) (C := sum_crc) (take 60 sample_file) 6 69 [97]).
Proof.
  apply (puffin_read_safe (N := int_numerics) (J := sample_json) (C := sum_crc)); [apply (bool_decide_unpack _); vm_compute; exact I|vm_compute; reflexivity].
Defined.
