(* ===== verification/Avro.v ===== *)
(** * Avro object container files

    [columnar_avro.c]: the reader of Iceberg manifests and manifest lists.  A
    bounded reader over the file (the same {buffer, position, error flag} as the
    Thrift reader), the schema tree built from the embedded JSON, the schema-driven
    decoding with its skips, and the container with its blocks.  The JSON parser,
    raw inflate, the check of UTF-8 and the printing of floats are parameters. *)

From S2P Require Import Prelude BitPack Codec Thrift ParquetCodec ParquetValues Jsonb.

Definition AV_MAX_BLOCK : Z := 256 * 1024 * 1024.
Definition AV_MAX_TOTAL : Z := 1024 * 1024 * 1024.
Definition AV_MAX_OBJECTS : Z := 50 * 1000 * 1000.
Definition AV_MAX_SCHEMA : Z := 4 * 1024 * 1024.
Definition AV_SYNC_LEN : Z := 16.
Definition AV_MAX_DECIMAL_BYTES : Z := 64.
Definition AV_MAX_EQUALITY_IDS : Z := 10000.
Definition AV_MAX_BOUNDS : Z := 8192.
Definition AV_MAX_BOUND_LEN : Z := 65536.

(** ** The reader *)

Abbreviation AvReader := TCReader.

Fixpoint av_varint_loop (fuel : nat) (r : AvReader) (v shift : Z) : res (Z * AvReader) :=
  match fuel with
  | O => Fuel
  | S fuel =>
      if tc_pos r <? tc_len r then
        b ← rd1 (tc_buf r) (tc_pos r);
        let r := adv r 1 in
        let v := Z.lor v (u64 (Z.shiftl (Z.land b 127) shift)) in
        if Z.land b 128 =? 0 then Ok (v, r)
        else
          let shift := shift + 7 in
          if 63 <? shift then Ok (0, fail r) else av_varint_loop fuel r v shift
      else Ok (0, fail r)
  end.

Definition av_varint (r : AvReader) : res (Z * AvReader) := av_varint_loop 10 r 0 0.

Definition av_long (r : AvReader) : res (Z * AvReader) :=
  ' (u, r) ← av_varint r;
  Ok (Z.lxor (s64 (Z.shiftr u 1)) (- s64 (Z.land u 1)), r).

(** The bytes the returned pointer denotes, [None] for a null pointer. *)
Definition av_take (r : AvReader) (n : Z) : res (option (list Z) * AvReader) :=
  if tc_error r || (n <? 0) || (tc_len r - tc_pos r <? n) then Ok (None, fail r)
  else bs ← rd (tc_buf r) (tc_pos r) n; Ok (Some bs, adv r n).

Definition av_bytes (r : AvReader) : res (option (list Z) * AvReader) := ' (n, r) ← av_long r; av_take r n.

(** [pnstrdup] into fresh memory. *)
Definition copy_string (bs : list Z) : res (list Z) := _ ← palloc (zlen (pnstrdup bs) + 1); Ok (pnstrdup bs).

Definition av_cstring (r : AvReader) : res (option (list Z) * AvReader) :=
  ' (p, r) ← av_bytes r;
  match p with
  | None => Ok (None, r)
  | Some bs => s ← copy_string bs; Ok (Some s, r)
  end.

(** ** The schema tree *)

(** A fixed or bytes schema carries the scale of its decimal annotation, if any. *)
Inductive AvSchema : Type :=
| AV_NULL | AV_BOOL | AV_INT | AV_LONG | AV_FLOAT | AV_DOUBLE
| AV_BYTES (decimal : option Z)
| AV_STRING
| AV_ENUM
| AV_FIXED (fixedsize : Z) (decimal : option Z)
| AV_RECORD (fields : list (list Z * AvSchema))
| AV_ARRAY (items : AvSchema)
| AV_MAP (items : AvSchema)
| AV_UNION (branch : list AvSchema).

Definition av_prim_kind (name : list Z) : option AvSchema :=
  if decide (name = str "null") then Some AV_NULL
  else if decide (name = str "boolean") then Some AV_BOOL
  else if decide (name = str "int") then Some AV_INT
  else if decide (name = str "long") then Some AV_LONG
  else if decide (name = str "float") then Some AV_FLOAT
  else if decide (name = str "double") then Some AV_DOUBLE
  else if decide (name = str "bytes") then Some (AV_BYTES None)
  else if decide (name = str "string") then Some AV_STRING
  else None.

(** [strtol(txt, &end, 10)]: the number and the rest, [None] when nothing is read. *)
Definition is_space (c : Z) : bool := ((9 <=? c) && (c <=? 13)) || (c =? 32).
Definition is_digit (c : Z) : bool := (48 <=? c) && (c <=? 57).

Fixpoint skip_spaces (t : list Z) : list Z := match t with [] => [] | c :: t' => if is_space c then skip_spaces t' else t end.

Fixpoint read_digits (t : list Z) (v : Z) : Z * list Z :=
  match t with
  | [] => (v, [])
  | c :: t' => if is_digit c then read_digits t' (v * 10 + (c - 48)) else (v, t)
  end.

Definition strtol (t : list Z) : option (Z * list Z) :=
  let t := skip_spaces t in
  let '(neg, t) := match t with 45 :: t => (true, t) | 43 :: t => (false, t) | _ => (false, t) end in
  match t with
  | c :: _ =>
      if is_digit c then
        let '(v, rest) := read_digits t 0 in
        let v := if neg then - v else v in
        Some (Z.max (- 2 ^ 63) (Z.min (2 ^ 63 - 1) v), rest)
      else None
  | [] => None
  end.

Section Schema.
Context `{N : Numerics}.

(** The scale a decimal annotation gives the schema of the object [tv]. *)
Definition av_schema_decimal (tv : json) : option Z :=
  match json_field tv (str "logicalType") with
  | Some (JString lt) =>
      if decide (lt = str "decimal") then
        match json_field tv (str "scale") with
        | None => Some 0
        | Some (JNumeric n) =>
            match strtol (numeric_out n) with
            | Some (v, []) => if (v <? 0) || (1000 <? v) then None else Some v
            | _ => None
            end
        | Some _ => None
        end
      else None
  | _ => None
  end.

Definition av_schema_err {A} : res A := Err "unsupported or malformed Avro schema in manifest".

(** The branches of a union, and the fields of a record. *)
Fixpoint build_branches (build : json -> res AvSchema) (l : list json) : res (list AvSchema) :=
  match l with
  | [] => Ok []
  | e :: l => s ← build e; ss ← build_branches build l; Ok (s :: ss)
  end.

Fixpoint build_record (build : json -> res AvSchema) (l : list json) : res (list (list Z * AvSchema)) :=
  match l with
  | [] => Ok []
  | fe :: l =>
      match json_field fe (str "name"), json_field fe (str "type") with
      | Some (JString nm), Some ty =>
          s ← build ty;
          fs ← build_record build l;
          Ok ((pnstrdup nm, s) :: fs)
      | _, _ => av_schema_err
      end
  end.

(** [stack] is the number of nested calls [check_stack_depth] allows. *)
Fixpoint av_schema_build (stack : nat) (tv : json) : res AvSchema :=
  match stack with
  | O => Err "stack depth limit exceeded"
  | S stack =>
      let build := av_schema_build stack in
      match tv with
      | JString name => match av_prim_kind name with Some s => Ok s | None => av_schema_err end
      | JArray l => ss ← build_branches build l; Ok (AV_UNION ss)
      | JObject _ =>
          match json_field tv (str "type") with
          | Some (JString t) =>
              match av_prim_kind t with
              | Some (AV_BYTES _) => Ok (AV_BYTES (av_schema_decimal tv))
              | Some s => Ok s
              | None =>
                  if decide (t = str "record") then
                    match json_field tv (str "fields") with
                    | Some (JArray l) => fs ← build_record build l; Ok (AV_RECORD fs)
                    | _ => av_schema_err
                    end
                  else if decide (t = str "array") then
                    match json_field tv (str "items") with Some i => s ← build i; Ok (AV_ARRAY s) | None => av_schema_err end
                  else if decide (t = str "map") then
                    match json_field tv (str "values") with Some i => s ← build i; Ok (AV_MAP s) | None => av_schema_err end
                  else if decide (t = str "enum") then Ok AV_ENUM
                  else if decide (t = str "fixed") then
                    match json_field tv (str "size") with
                    | Some (JNumeric n) =>
                        match numeric_int4 n with
                        | Some sz => if sz <? 0 then av_schema_err else Ok (AV_FIXED sz (av_schema_decimal tv))
                        | None => Err "integer out of range"
                        end
                    | _ => av_schema_err
                    end
                  else av_schema_err
              end
          | _ => av_schema_err
          end
      | _ => av_schema_err
      end
  end.

End Schema.

(** ** Blocks of an array or map *)

(** The count of the next block, 0 at the end or on an error: a negative count is
    followed by the byte size of the block; [limit] bounds its magnitude and [room]
    the count. *)
Definition av_block (limit room : Z) (r : AvReader) : res (Z * AvReader) :=
  ' (cnt, r) ← av_long r;
  if cnt =? 0 then Ok (0, r)
  else if cnt <? - limit then Ok (0, fail r)
  else
    ' (cnt, r) ← (if cnt <? 0 then ' (_, r) ← av_long r; Ok (- cnt, r) else Ok (cnt, r));
    if (limit <? cnt) || (room <? cnt) then Ok (0, fail r) else Ok (cnt, r).

(** [for (i = 0; i < cnt && !r->error; i++) body] *)
Fixpoint av_times {A} (n : nat) (body : AvReader -> A -> res (AvReader * A)) (r : AvReader) (a : A) : res (AvReader * A) :=
  match n with
  | O => Ok (r, a)
  | S n => if tc_error r then Ok (r, a) else ' (r, a) ← body r a; av_times n body r a
  end.

(** [while (!r->error)] over the blocks; a turn takes a byte or fails. *)
Fixpoint av_blocks {A} (fuel : nat) (limit : Z) (room : A -> Z) (body : AvReader -> A -> res (AvReader * A)) (r : AvReader) (a : A) : res (AvReader * A) :=
  if tc_error r then Ok (r, a)
  else match fuel with
       | O => Fuel
       | S fuel =>
           ' (cnt, r) ← av_block limit (room a) r;
           if cnt =? 0 then Ok (r, a)
           else ' (r, a) ← av_times (Z.to_nat cnt) body r a; av_blocks fuel limit room body r a
       end.

Definition av_turns (r : AvReader) : nat := S (Z.to_nat (tc_len r - tc_pos r)).

(** ** Skipping *)

Fixpoint skip_record (skip : AvReader -> AvSchema -> res AvReader) (fs : list (list Z * AvSchema)) (r : AvReader) : res AvReader :=
  match fs with
  | [] => Ok r
  | (_, t) :: fs => if tc_error r then Ok r else r ← skip r t; skip_record skip fs r
  end.

Fixpoint av_skip (stack : nat) (r : AvReader) (s : AvSchema) : res AvReader :=
  match stack with
  | O => Err "stack depth limit exceeded"
  | S stack =>
      let skip := av_skip stack in
      if tc_error r then Ok r
      else
        match s with
        | AV_NULL => Ok r
        | AV_BOOL => ' (_, r) ← av_take r 1; Ok r
        | AV_INT | AV_LONG | AV_ENUM => ' (_, r) ← av_long r; Ok r
        | AV_FLOAT => ' (_, r) ← av_take r 4; Ok r
        | AV_DOUBLE => ' (_, r) ← av_take r 8; Ok r
        | AV_BYTES _ | AV_STRING => ' (_, r) ← av_bytes r; Ok r
        | AV_FIXED n _ => ' (_, r) ← av_take r n; Ok r
        | AV_RECORD fs => skip_record skip fs r
        | AV_UNION bs =>
            ' (idx, r) ← av_long r;
            if tc_error r || (idx <? 0) || (zlen bs <=? idx) then Ok (fail r)
            else match bs !! Z.to_nat idx with Some t => skip r t | None => Oob end
        | AV_ARRAY t => ' (r, _) ← av_blocks (av_turns r) AV_MAX_OBJECTS (fun _ => AV_MAX_OBJECTS) (fun r u => r ← skip r t; Ok (r, u)) r tt; Ok r
        | AV_MAP t => ' (r, _) ← av_blocks (av_turns r) AV_MAX_OBJECTS (fun _ => AV_MAX_OBJECTS) (fun r u => ' (_, r) ← av_bytes r; r ← skip r t; Ok (r, u)) r tt; Ok r
        end
  end.

(** The branch a union value takes and whether it is null. *)
Definition av_unwrap_union (r : AvReader) (s : AvSchema) : res (AvSchema * bool * AvReader) :=
  match s with
  | AV_UNION bs =>
      ' (idx, r) ← av_long r;
      if tc_error r || (idx <? 0) || (zlen bs <=? idx) then Ok (s, false, fail r)
      else match bs !! Z.to_nat idx with
           | Some t => Ok (t, match t with AV_NULL => true | _ => false end, r)
           | None => Oob
           end
  | _ => Ok (s, false, r)
  end.

(** ** Partition display *)

(** The database encoding, the server's check of UTF-8 and its printing of
    floats. *)
Class TextEnv : Type := {
  utf8_or_ascii : bool;
  pg_verify_utf8 : list Z -> bool;
  float_to_shortest : Z -> list Z;
  double_to_shortest : Z -> list Z
}.

Definition ch_percent : Z := 37.
Definition ch_comma : Z := 44.
Definition ch_equals : Z := 61.

(** ["%%%02X"] *)
Definition hex_upper (d : Z) : Z := if d <? 10 then 48 + d else 55 + d.
Definition hex_lower (d : Z) : Z := if d <? 10 then 48 + d else 87 + d.

Definition reserved (keep_high : bool) (b : Z) : bool :=
  (b =? ch_percent) || (b =? ch_comma) || (b =? ch_equals) || (b <? 32) || (b =? 127) || ((128 <=? b) && negb keep_high).

Definition escape_byte (keep_high : bool) (b : Z) : list Z :=
  if reserved keep_high b then [ch_percent; hex_upper (Z.shiftr b 4); hex_upper (Z.land b 15)] else [b].

Definition PG_INT32_MAX : Z := 2147483647.

Definition av_append_escaped `{TextEnv} (p : list Z) : list Z :=
  concat (map (escape_byte (utf8_or_ascii && (zlen p <=? PG_INT32_MAX) && pg_verify_utf8 p)) p).

Definition av_append_hex (p : list Z) : list Z := [92; 120] ++ concat (map (fun b => [hex_lower (Z.shiftr b 4); hex_lower (Z.land b 15)]) p).

(** Two's complement negation from the last byte on, least significant first. *)
Fixpoint negate_loop (mag : list Z) (carry : Z) : list Z :=
  match mag with
  | [] => []
  | b :: mag => let v := u8 (Z.lnot b) + carry in u8 v :: negate_loop mag (Z.shiftr v 8)
  end.

(** A pass of the long division by 10, most significant byte first. *)
Fixpoint divide_loop (mag : list Z) (rem : Z) : list Z * Z :=
  match mag with
  | [] => ([], rem)
  | b :: mag =>
      let cur := Z.lor (u32 (Z.shiftl rem 8)) b in
      let '(q, rem) := divide_loop mag (cur mod 10) in
      (u8 (cur / 10) :: q, rem)
  end.

(** [while (start < n && mag[start] == 0) start++] *)
Fixpoint strip_zeros (mag : list Z) : list Z := match mag with [] => [] | b :: mag' => if b =? 0 then strip_zeros mag' else mag end.

(** [while (start < n)]: the digits, least significant first, in a buffer of 193. *)
Fixpoint digits_loop (fuel : nat) (mag digits : list Z) : res (list Z) :=
  match mag with
  | [] => Ok digits
  | _ =>
      match fuel with
      | O => Fuel
      | S fuel =>
          let '(q, rem) := divide_loop mag 0 in
          if AV_MAX_DECIMAL_BYTES * 3 + 1 <=? zlen digits then Oob else digits_loop fuel (strip_zeros q) (digits ++ [48 + rem])
      end
  end.

(** The output of the digits with [scale] of them after the point. *)
Definition put_digits (digits : list Z) (scale : Z) : list Z :=
  let nd := zlen digits in
  if nd <=? scale then [48; 46] ++ replicate (Z.to_nat (scale - nd)) 48 ++ rev digits
  else concat (map (fun i => nthZ digits i :: (if (i =? scale) && (0 <? scale) then [46] else [])) (rev (seqZ 0 nd))).

Definition av_append_decimal (p : list Z) (scale : Z) : res (list Z) :=
  let n := zlen p in
  if AV_MAX_DECIMAL_BYTES <? n then Ok (av_append_hex p)
  else
    let neg := (0 <? n) && negb (Z.land (nthZ p 0) 128 =? 0) in
    let mag := if neg then rev (negate_loop (rev p) 1) else p in
    digits ← digits_loop 200 (strip_zeros mag) [];
    let digits := match digits with [] => [48] | _ => digits end in
    Ok ((if neg then [45] else []) ++ put_digits digits scale).

(** [for (i = n - 1; i >= 0; i--) v = (v << 8) | p[i]] *)
Definition av_le_bits (p : list Z) : Z := foldr (fun b v => Z.lor (u64 (Z.shiftl v 8)) b) 0 p.

Record PgColumnarAvroPartCell := mkCell { pc_isnull : bool; pc_is_bytes : bool; pc_comparable : bool; pc_ival : Z; pc_bytes : list Z }.
Definition cell0 : PgColumnarAvroPartCell := mkCell false false false 0 [].

Section Decode.
Context `{TE : TextEnv} (stack : nat).

(** The cell and the text of a value that is not null. *)
Definition part_value (r : AvReader) (t : AvSchema) : res (AvReader * PgColumnarAvroPartCell * list Z) :=
  match t with
  | AV_INT | AV_LONG => ' (v, r) ← av_long r; Ok (r, mkCell false false true v [], decimal_text v 0)
  | AV_BOOL =>
      ' (p, r) ← av_take r 1;
      let v := match p with Some (b :: _) => negb (b =? 0) | _ => false end in
      Ok (r, mkCell false false true (if v then 1 else 0) [], if v then str "true" else str "false")
  | AV_STRING | AV_BYTES _ =>
      ' (p, r) ← av_bytes r;
      match p with
      | None => Ok (r, cell0, [])
      | Some bs =>
          _ ← palloc (Z.max (zlen bs) 1);
          text ← match t with
                 | AV_STRING => Ok (av_append_escaped bs)
                 | AV_BYTES (Some scale) => av_append_decimal bs scale
                 | _ => Ok (av_append_hex bs)
                 end;
          Ok (r, mkCell false true true 0 bs, text)
      end
  | AV_FIXED n dec =>
      ' (p, r) ← av_take r n;
      match p with
      | None => Ok (r, cell0, [])
      | Some bs =>
          text ← match dec with Some scale => av_append_decimal bs scale | None => Ok (av_append_hex bs) end;
          Ok (r, cell0, text)
      end
  | AV_FLOAT =>
      ' (p, r) ← av_take r 4;
      Ok (r, cell0, match p with Some bs => float_to_shortest (u32 (av_le_bits bs)) | None => [] end)
  | AV_DOUBLE =>
      ' (p, r) ← av_take r 8;
      Ok (r, cell0, match p with Some bs => double_to_shortest (av_le_bits bs) | None => [] end)
  | _ => r ← av_skip stack r t; Ok (r, cell0, [63])
  end.

(** The loop over the fields: [first] until a field was written. *)
Fixpoint part_fields (fs : list (list Z * AvSchema)) (first : bool) (r : AvReader) (out : list Z) (cells : list PgColumnarAvroPartCell) :
    res (AvReader * list Z * list PgColumnarAvroPartCell) :=
  match fs with
  | [] => Ok (r, out, cells)
  | (name, ft) :: fs =>
      if tc_error r then Ok (r, out, cells)
      else
        ' (t, isnull, r) ← av_unwrap_union r ft;
        out ← (if first then Ok out else appendBinaryStringInfo out [ch_comma]);
        if tc_error r then Ok (r, out, cells)
        else if isnull : bool then
          out ← appendBinaryStringInfo out (av_append_escaped name);
          part_fields fs false r out (cells ++ [mkCell true false true 0 []])
        else
          ' (r, c, text) ← part_value r t;
          out ← appendBinaryStringInfo out (av_append_escaped name ++ [ch_equals] ++ text);
          part_fields fs false r out (cells ++ [c])
  end.

(** The text and the cells; neither when the partition is no record. *)
Definition av_decode_partition (r : AvReader) (s : AvSchema) : res (AvReader * option (list Z * list PgColumnarAvroPartCell)) :=
  match s with
  | AV_RECORD fs =>
      ' (r, out, cells) ← part_fields fs true r [] [];
      Ok (r, Some (out, cells ++ replicate (length fs - length cells) cell0))
  | _ => r ← av_skip stack r s; Ok (r, None)
  end.

(** ** Scalar fields *)

Definition av_read_string (r : AvReader) (s : AvSchema) : res (option (list Z) * AvReader) :=
  ' (t, isnull, r) ← av_unwrap_union r s;
  if tc_error r || isnull then Ok (None, r)
  else match t with
       | AV_STRING | AV_BYTES _ => av_cstring r
       | _ => r ← av_skip stack r t; Ok (None, r)
       end.

(** The value and whether there was one. *)
Definition av_read_long (r : AvReader) (s : AvSchema) : res (Z * bool * AvReader) :=
  ' (t, isnull, r) ← av_unwrap_union r s;
  if tc_error r || isnull then Ok (0, false, r)
  else match t with
       | AV_INT | AV_LONG => ' (v, r) ← av_long r; Ok (v, true, r)
       | _ => r ← av_skip stack r t; Ok (0, false, r)
       end.

Definition PG_INT32_MIN : Z := -2147483648.

Definition av_read_int32_field (r : AvReader) (s : AvSchema) : res (Z * bool * AvReader) :=
  ' (v, have, r) ← av_read_long r s;
  if (v <? PG_INT32_MIN) || (PG_INT32_MAX <? v) then Err "iceberg: manifest has an invalid value" else Ok (v, have, r).

Definition av_read_int_array (r : AvReader) (s : AvSchema) : res (list Z * AvReader) :=
  ' (t, isnull, r) ← av_unwrap_union r s;
  if tc_error r || isnull then Ok ([], r)
  else match t with
       | AV_ARRAY (AV_INT | AV_LONG) =>
           ' (r, vals) ← av_blocks (av_turns r) AV_MAX_EQUALITY_IDS (fun vals => AV_MAX_EQUALITY_IDS - zlen vals)
             (fun r vals => ' (v, r) ← av_long r; if (v <? 0) || (PG_INT32_MAX <? v) then Ok (fail r, vals) else Ok (r, vals ++ [v])) r [];
           Ok (if tc_error r then [] else vals, r)
       | _ => r ← av_skip stack r t; Ok ([], r)
       end.

Record PgColumnarAvroBound := mkBound { bd_field_id : Z; bd_bytes : list Z }.

(** One key and value of a bound map: the loop over the fields of its record. *)
Fixpoint bound_record (fs : list (list Z * AvSchema)) (r : AvReader) (key : option Z) (val : option (list Z)) : res (AvReader * option Z * option (list Z)) :=
  match fs with
  | [] => Ok (r, key, val)
  | (fn, fty) :: fs =>
      if tc_error r then Ok (r, key, val)
      else if decide (fn = str "key") then
        ' (k, _, r) ← av_read_long r fty;
        if tc_error r || (k <? PG_INT32_MIN) || (PG_INT32_MAX <? k) then Ok (fail r, key, val)
        else bound_record fs r (Some k) val
      else if decide (fn = str "value") then
        ' (vt, vnull, r) ← av_unwrap_union r fty;
        if tc_error r then Ok (r, key, val)
        else if vnull : bool then bound_record fs r key val
        else match vt with
             | AV_BYTES _ | AV_STRING =>
                 ' (len, r) ← av_long r;
                 if tc_error r || (len <? 0) || (AV_MAX_BOUND_LEN <? len) then Ok (fail r, key, val)
                 else
                   ' (p, r) ← av_take r len;
                   match p with
                   | None => Ok (r, key, val)
                   | Some bs => bound_record fs r key (Some bs)
                   end
             | _ => r ← av_skip stack r vt; bound_record fs r key val
             end
      else r ← av_skip stack r fty; bound_record fs r key val
  end.

Definition av_read_bound_map (r : AvReader) (s : AvSchema) : res (list PgColumnarAvroBound * AvReader) :=
  ' (t, isnull, r) ← av_unwrap_union r s;
  if tc_error r || isnull then Ok ([], r)
  else match t with
       | AV_ARRAY (AV_RECORD fs) =>
           (* [n] counts the bounds kept *)
           ' (r, b) ← av_blocks (av_turns r) AV_MAX_BOUNDS (fun b => AV_MAX_BOUNDS - zlen b)
             (fun r b =>
                ' (r, key, val) ← bound_record fs r None None;
                if tc_error r then Ok (r, b)
                else Ok (r, match key, val with Some k, Some v => b ++ [mkBound k v] | _, _ => b end)) r [];
           Ok (if tc_error r then [] else b, r)
       | _ => r ← av_skip stack r t; Ok ([], r)
       end.

End Decode.

(** ** Manifest entries *)

(** A value that may be absent comes with its [has_] flag. *)
Record PgColumnarAvroManifestEntry := mkEntry {
  me_status : Z;
  me_content : Z;
  me_file_path : option (list Z);
  me_file_format : option (list Z);
  me_record_count : Z;
  me_file_size_in_bytes : Z;
  me_partition : option (list Z);
  me_sequence_number : Z;
  me_has_sequence_number : bool;
  me_has_sequence_field : bool;
  me_equality_ids : list Z;
  me_referenced_data_file : option (list Z);
  me_content_offset : Z * bool;
  me_content_size_in_bytes : Z * bool;
  me_part_cells : list PgColumnarAvroPartCell;
  me_lower_bounds : list PgColumnarAvroBound;
  me_upper_bounds : list PgColumnarAvroBound
}.

Definition set_me_status (e : PgColumnarAvroManifestEntry) (v : Z) : PgColumnarAvroManifestEntry :=
  mkEntry v (me_content e) (me_file_path e) (me_file_format e) (me_record_count e) (me_file_size_in_bytes e) (me_partition e) (me_sequence_number e) (me_has_sequence_number e) (me_has_sequence_field e) (me_equality_ids e) (me_referenced_data_file e) (me_content_offset e) (me_content_size_in_bytes e) (me_part_cells e) (me_lower_bounds e) (me_upper_bounds e).
Definition set_me_content (e : PgColumnarAvroManifestEntry) (v : Z) : PgColumnarAvroManifestEntry :=
  mkEntry (me_status e) v (me_file_path e) (me_file_format e) (me_record_count e) (me_file_size_in_bytes e) (me_partition e) (me_sequence_number e) (me_has_sequence_number e) (me_has_sequence_field e) (me_equality_ids e) (me_referenced_data_file e) (me_content_offset e) (me_content_size_in_bytes e) (me_part_cells e) (me_lower_bounds e) (me_upper_bounds e).
Definition set_me_file_path (e : PgColumnarAvroManifestEntry) (v : option (list Z)) : PgColumnarAvroManifestEntry :=
  mkEntry (me_status e) (me_content e) v (me_file_format e) (me_record_count e) (me_file_size_in_bytes e) (me_partition e) (me_sequence_number e) (me_has_sequence_number e) (me_has_sequence_field e) (me_equality_ids e) (me_referenced_data_file e) (me_content_offset e) (me_content_size_in_bytes e) (me_part_cells e) (me_lower_bounds e) (me_upper_bounds e).
Definition set_me_file_format (e : PgColumnarAvroManifestEntry) (v : option (list Z)) : PgColumnarAvroManifestEntry :=
  mkEntry (me_status e) (me_content e) (me_file_path e) v (me_record_count e) (me_file_size_in_bytes e) (me_partition e) (me_sequence_number e) (me_has_sequence_number e) (me_has_sequence_field e) (me_equality_ids e) (me_referenced_data_file e) (me_content_offset e) (me_content_size_in_bytes e) (me_part_cells e) (me_lower_bounds e) (me_upper_bounds e).
Definition set_me_record_count (e : PgColumnarAvroManifestEntry) (v : Z) : PgColumnarAvroManifestEntry :=
  mkEntry (me_status e) (me_content e) (me_file_path e) (me_file_format e) v (me_file_size_in_bytes e) (me_partition e) (me_sequence_number e) (me_has_sequence_number e) (me_has_sequence_field e) (me_equality_ids e) (me_referenced_data_file e) (me_content_offset e) (me_content_size_in_bytes e) (me_part_cells e) (me_lower_bounds e) (me_upper_bounds e).
Definition set_me_file_size_in_bytes (e : PgColumnarAvroManifestEntry) (v : Z) : PgColumnarAvroManifestEntry :=
  mkEntry (me_status e) (me_content e) (me_file_path e) (me_file_format e) (me_record_count e) v (me_partition e) (me_sequence_number e) (me_has_sequence_number e) (me_has_sequence_field e) (me_equality_ids e) (me_referenced_data_file e) (me_content_offset e) (me_content_size_in_bytes e) (me_part_cells e) (me_lower_bounds e) (me_upper_bounds e).
Definition set_me_partition (e : PgColumnarAvroManifestEntry) (v : option (list Z)) : PgColumnarAvroManifestEntry :=
  mkEntry (me_status e) (me_content e) (me_file_path e) (me_file_format e) (me_record_count e) (me_file_size_in_bytes e) v (me_sequence_number e) (me_has_sequence_number e) (me_has_sequence_field e) (me_equality_ids e) (me_referenced_data_file e) (me_content_offset e) (me_content_size_in_bytes e) (me_part_cells e) (me_lower_bounds e) (me_upper_bounds e).
Definition set_me_sequence_number (e : PgColumnarAvroManifestEntry) (v : Z) : PgColumnarAvroManifestEntry :=
  mkEntry (me_status e) (me_content e) (me_file_path e) (me_file_format e) (me_record_count e) (me_file_size_in_bytes e) (me_partition e) v (me_has_sequence_number e) (me_has_sequence_field e) (me_equality_ids e) (me_referenced_data_file e) (me_content_offset e) (me_content_size_in_bytes e) (me_part_cells e) (me_lower_bounds e) (me_upper_bounds e).
Definition set_me_has_sequence_number (e : PgColumnarAvroManifestEntry) (v : bool) : PgColumnarAvroManifestEntry :=
  mkEntry (me_status e) (me_content e) (me_file_path e) (me_file_format e) (me_record_count e) (me_file_size_in_bytes e) (me_partition e) (me_sequence_number e) v (me_has_sequence_field e) (me_equality_ids e) (me_referenced_data_file e) (me_content_offset e) (me_content_size_in_bytes e) (me_part_cells e) (me_lower_bounds e) (me_upper_bounds e).
Definition set_me_has_sequence_field (e : PgColumnarAvroManifestEntry) (v : bool) : PgColumnarAvroManifestEntry :=
  mkEntry (me_status e) (me_content e) (me_file_path e) (me_file_format e) (me_record_count e) (me_file_size_in_bytes e) (me_partition e) (me_sequence_number e) (me_has_sequence_number e) v (me_equality_ids e) (me_referenced_data_file e) (me_content_offset e) (me_content_size_in_bytes e) (me_part_cells e) (me_lower_bounds e) (me_upper_bounds e).
Definition set_me_equality_ids (e : PgColumnarAvroManifestEntry) (v : list Z) : PgColumnarAvroManifestEntry :=
  mkEntry (me_status e) (me_content e) (me_file_path e) (me_file_format e) (me_record_count e) (me_file_size_in_bytes e) (me_partition e) (me_sequence_number e) (me_has_sequence_number e) (me_has_sequence_field e) v (me_referenced_data_file e) (me_content_offset e) (me_content_size_in_bytes e) (me_part_cells e) (me_lower_bounds e) (me_upper_bounds e).
Definition set_me_referenced_data_file (e : PgColumnarAvroManifestEntry) (v : option (list Z)) : PgColumnarAvroManifestEntry :=
  mkEntry (me_status e) (me_content e) (me_file_path e) (me_file_format e) (me_record_count e) (me_file_size_in_bytes e) (me_partition e) (me_sequence_number e) (me_has_sequence_number e) (me_has_sequence_field e) (me_equality_ids e) v (me_content_offset e) (me_content_size_in_bytes e) (me_part_cells e) (me_lower_bounds e) (me_upper_bounds e).
Definition set_me_content_offset (e : PgColumnarAvroManifestEntry) (v : Z * bool) : PgColumnarAvroManifestEntry :=
  mkEntry (me_status e) (me_content e) (me_file_path e) (me_file_format e) (me_record_count e) (me_file_size_in_bytes e) (me_partition e) (me_sequence_number e) (me_has_sequence_number e) (me_has_sequence_field e) (me_equality_ids e) (me_referenced_data_file e) v (me_content_size_in_bytes e) (me_part_cells e) (me_lower_bounds e) (me_upper_bounds e).
Definition set_me_content_size_in_bytes (e : PgColumnarAvroManifestEntry) (v : Z * bool) : PgColumnarAvroManifestEntry :=
  mkEntry (me_status e) (me_content e) (me_file_path e) (me_file_format e) (me_record_count e) (me_file_size_in_bytes e) (me_partition e) (me_sequence_number e) (me_has_sequence_number e) (me_has_sequence_field e) (me_equality_ids e) (me_referenced_data_file e) (me_content_offset e) v (me_part_cells e) (me_lower_bounds e) (me_upper_bounds e).
Definition set_me_part_cells (e : PgColumnarAvroManifestEntry) (v : list PgColumnarAvroPartCell) : PgColumnarAvroManifestEntry :=
  mkEntry (me_status e) (me_content e) (me_file_path e) (me_file_format e) (me_record_count e) (me_file_size_in_bytes e) (me_partition e) (me_sequence_number e) (me_has_sequence_number e) (me_has_sequence_field e) (me_equality_ids e) (me_referenced_data_file e) (me_content_offset e) (me_content_size_in_bytes e) v (me_lower_bounds e) (me_upper_bounds e).
Definition set_me_lower_bounds (e : PgColumnarAvroManifestEntry) (v : list PgColumnarAvroBound) : PgColumnarAvroManifestEntry :=
  mkEntry (me_status e) (me_content e) (me_file_path e) (me_file_format e) (me_record_count e) (me_file_size_in_bytes e) (me_partition e) (me_sequence_number e) (me_has_sequence_number e) (me_has_sequence_field e) (me_equality_ids e) (me_referenced_data_file e) (me_content_offset e) (me_content_size_in_bytes e) (me_part_cells e) v (me_upper_bounds e).
Definition set_me_upper_bounds (e : PgColumnarAvroManifestEntry) (v : list PgColumnarAvroBound) : PgColumnarAvroManifestEntry :=
  mkEntry (me_status e) (me_content e) (me_file_path e) (me_file_format e) (me_record_count e) (me_file_size_in_bytes e) (me_partition e) (me_sequence_number e) (me_has_sequence_number e) (me_has_sequence_field e) (me_equality_ids e) (me_referenced_data_file e) (me_content_offset e) (me_content_size_in_bytes e) (me_part_cells e) (me_lower_bounds e) v.

Definition entry0 : PgColumnarAvroManifestEntry := mkEntry 0 0 None None 0 0 None 0 false false [] None (0, false) (0, false) [] [] [].

Record PgColumnarAvroManifestFile := mkManifestFile {
  mf_manifest_path : option (list Z);
  mf_manifest_length : Z;
  mf_partition_spec_id : Z * bool;
  mf_content : Z;
  mf_sequence_number : Z * bool;
  mf_min_sequence_number : Z * bool;
  mf_added_snapshot_id : Z;
  mf_added_files_count : Z;
  mf_existing_files_count : Z;
  mf_deleted_files_count : Z;
  mf_added_rows_count : Z;
  mf_existing_rows_count : Z;
  mf_deleted_rows_count : Z
}.

Definition set_mf_manifest_path (e : PgColumnarAvroManifestFile) (v : option (list Z)) : PgColumnarAvroManifestFile :=
  mkManifestFile v (mf_manifest_length e) (mf_partition_spec_id e) (mf_content e) (mf_sequence_number e) (mf_min_sequence_number e) (mf_added_snapshot_id e) (mf_added_files_count e) (mf_existing_files_count e) (mf_deleted_files_count e) (mf_added_rows_count e) (mf_existing_rows_count e) (mf_deleted_rows_count e).
Definition set_mf_manifest_length (e : PgColumnarAvroManifestFile) (v : Z) : PgColumnarAvroManifestFile :=
  mkManifestFile (mf_manifest_path e) v (mf_partition_spec_id e) (mf_content e) (mf_sequence_number e) (mf_min_sequence_number e) (mf_added_snapshot_id e) (mf_added_files_count e) (mf_existing_files_count e) (mf_deleted_files_count e) (mf_added_rows_count e) (mf_existing_rows_count e) (mf_deleted_rows_count e).
Definition set_mf_partition_spec_id (e : PgColumnarAvroManifestFile) (v : Z * bool) : PgColumnarAvroManifestFile :=
  mkManifestFile (mf_manifest_path e) (mf_manifest_length e) v (mf_content e) (mf_sequence_number e) (mf_min_sequence_number e) (mf_added_snapshot_id e) (mf_added_files_count e) (mf_existing_files_count e) (mf_deleted_files_count e) (mf_added_rows_count e) (mf_existing_rows_count e) (mf_deleted_rows_count e).
Definition set_mf_content (e : PgColumnarAvroManifestFile) (v : Z) : PgColumnarAvroManifestFile :=
  mkManifestFile (mf_manifest_path e) (mf_manifest_length e) (mf_partition_spec_id e) v (mf_sequence_number e) (mf_min_sequence_number e) (mf_added_snapshot_id e) (mf_added_files_count e) (mf_existing_files_count e) (mf_deleted_files_count e) (mf_added_rows_count e) (mf_existing_rows_count e) (mf_deleted_rows_count e).
Definition set_mf_sequence_number (e : PgColumnarAvroManifestFile) (v : Z * bool) : PgColumnarAvroManifestFile :=
  mkManifestFile (mf_manifest_path e) (mf_manifest_length e) (mf_partition_spec_id e) (mf_content e) v (mf_min_sequence_number e) (mf_added_snapshot_id e) (mf_added_files_count e) (mf_existing_files_count e) (mf_deleted_files_count e) (mf_added_rows_count e) (mf_existing_rows_count e) (mf_deleted_rows_count e).
Definition set_mf_min_sequence_number (e : PgColumnarAvroManifestFile) (v : Z * bool) : PgColumnarAvroManifestFile :=
  mkManifestFile (mf_manifest_path e) (mf_manifest_length e) (mf_partition_spec_id e) (mf_content e) (mf_sequence_number e) v (mf_added_snapshot_id e) (mf_added_files_count e) (mf_existing_files_count e) (mf_deleted_files_count e) (mf_added_rows_count e) (mf_existing_rows_count e) (mf_deleted_rows_count e).
Definition set_mf_added_snapshot_id (e : PgColumnarAvroManifestFile) (v : Z) : PgColumnarAvroManifestFile :=
  mkManifestFile (mf_manifest_path e) (mf_manifest_length e) (mf_partition_spec_id e) (mf_content e) (mf_sequence_number e) (mf_min_sequence_number e) v (mf_added_files_count e) (mf_existing_files_count e) (mf_deleted_files_count e) (mf_added_rows_count e) (mf_existing_rows_count e) (mf_deleted_rows_count e).
Definition set_mf_added_files_count (e : PgColumnarAvroManifestFile) (v : Z) : PgColumnarAvroManifestFile :=
  mkManifestFile (mf_manifest_path e) (mf_manifest_length e) (mf_partition_spec_id e) (mf_content e) (mf_sequence_number e) (mf_min_sequence_number e) (mf_added_snapshot_id e) v (mf_existing_files_count e) (mf_deleted_files_count e) (mf_added_rows_count e) (mf_existing_rows_count e) (mf_deleted_rows_count e).
Definition set_mf_existing_files_count (e : PgColumnarAvroManifestFile) (v : Z) : PgColumnarAvroManifestFile :=
  mkManifestFile (mf_manifest_path e) (mf_manifest_length e) (mf_partition_spec_id e) (mf_content e) (mf_sequence_number e) (mf_min_sequence_number e) (mf_added_snapshot_id e) (mf_added_files_count e) v (mf_deleted_files_count e) (mf_added_rows_count e) (mf_existing_rows_count e) (mf_deleted_rows_count e).
Definition set_mf_deleted_files_count (e : PgColumnarAvroManifestFile) (v : Z) : PgColumnarAvroManifestFile :=
  mkManifestFile (mf_manifest_path e) (mf_manifest_length e) (mf_partition_spec_id e) (mf_content e) (mf_sequence_number e) (mf_min_sequence_number e) (mf_added_snapshot_id e) (mf_added_files_count e) (mf_existing_files_count e) v (mf_added_rows_count e) (mf_existing_rows_count e) (mf_deleted_rows_count e).
Definition set_mf_added_rows_count (e : PgColumnarAvroManifestFile) (v : Z) : PgColumnarAvroManifestFile :=
  mkManifestFile (mf_manifest_path e) (mf_manifest_length e) (mf_partition_spec_id e) (mf_content e) (mf_sequence_number e) (mf_min_sequence_number e) (mf_added_snapshot_id e) (mf_added_files_count e) (mf_existing_files_count e) (mf_deleted_files_count e) v (mf_existing_rows_count e) (mf_deleted_rows_count e).
Definition set_mf_existing_rows_count (e : PgColumnarAvroManifestFile) (v : Z) : PgColumnarAvroManifestFile :=
  mkManifestFile (mf_manifest_path e) (mf_manifest_length e) (mf_partition_spec_id e) (mf_content e) (mf_sequence_number e) (mf_min_sequence_number e) (mf_added_snapshot_id e) (mf_added_files_count e) (mf_existing_files_count e) (mf_deleted_files_count e) (mf_added_rows_count e) v (mf_deleted_rows_count e).
Definition set_mf_deleted_rows_count (e : PgColumnarAvroManifestFile) (v : Z) : PgColumnarAvroManifestFile :=
  mkManifestFile (mf_manifest_path e) (mf_manifest_length e) (mf_partition_spec_id e) (mf_content e) (mf_sequence_number e) (mf_min_sequence_number e) (mf_added_snapshot_id e) (mf_added_files_count e) (mf_existing_files_count e) (mf_deleted_files_count e) (mf_added_rows_count e) (mf_existing_rows_count e) v.

Definition manifest_file0 : PgColumnarAvroManifestFile := mkManifestFile None 0 (0, false) 0 (0, false) (0, false) 0 0 0 0 0 0 0.

Section Entries.
Context `{TE : TextEnv} (stack : nat).

(** A long field, its flag dropped. *)
Definition long_into {E} (set : E -> Z -> E) (r : AvReader) (ft : AvSchema) (e : E) : res (AvReader * E) :=
  ' (v, _, r) ← av_read_long stack r ft; Ok (r, set e v).

Definition int32_into {E} (set : E -> Z -> E) (r : AvReader) (ft : AvSchema) (e : E) : res (AvReader * E) :=
  ' (v, _, r) ← av_read_int32_field stack r ft; Ok (r, set e v).

Definition string_into {E} (set : E -> option (list Z) -> E) (r : AvReader) (ft : AvSchema) (e : E) : res (AvReader * E) :=
  ' (v, r) ← av_read_string stack r ft; Ok (r, set e v).

(** The loop over the fields of a record, by name. *)
Fixpoint decode_fields {E} (field : list Z -> AvReader -> AvSchema -> E -> res (AvReader * E)) (fs : list (list Z * AvSchema)) (r : AvReader) (e : E) : res (AvReader * E) :=
  match fs with
  | [] => Ok (r, e)
  | (nm, ft) :: fs => if tc_error r then Ok (r, e) else ' (r, e) ← field nm r ft e; decode_fields field fs r e
  end.

Definition data_file_field (nm : list Z) (r : AvReader) (ft : AvSchema) (e : PgColumnarAvroManifestEntry) : res (AvReader * PgColumnarAvroManifestEntry) :=
  if decide (nm = str "file_path") then string_into set_me_file_path r ft e
  else if decide (nm = str "file_format") then string_into set_me_file_format r ft e
  else if decide (nm = str "content") then int32_into set_me_content r ft e
  else if decide (nm = str "record_count") then long_into set_me_record_count r ft e
  else if decide (nm = str "file_size_in_bytes") then long_into set_me_file_size_in_bytes r ft e
  else if decide (nm = str "partition") then
    ' (pt, isnull, r) ← av_unwrap_union r ft;
    if tc_error r || isnull then Ok (r, e)
    else
      ' (r, o) ← av_decode_partition stack r pt;
      Ok (r, match o with
             | Some (text, cells) => set_me_part_cells (set_me_partition e (Some text)) cells
             | None => set_me_partition e None
             end)
  else if decide (nm = str "equality_ids") then ' (v, r) ← av_read_int_array stack r ft; Ok (r, set_me_equality_ids e v)
  else if decide (nm = str "lower_bounds") then ' (v, r) ← av_read_bound_map stack r ft; Ok (r, set_me_lower_bounds e v)
  else if decide (nm = str "upper_bounds") then ' (v, r) ← av_read_bound_map stack r ft; Ok (r, set_me_upper_bounds e v)
  else if decide (nm = str "referenced_data_file") then string_into set_me_referenced_data_file r ft e
  else if decide (nm = str "content_offset") then ' (v, have, r) ← av_read_long stack r ft; Ok (r, set_me_content_offset e (v, have))
  else if decide (nm = str "content_size_in_bytes") then ' (v, have, r) ← av_read_long stack r ft; Ok (r, set_me_content_size_in_bytes e (v, have))
  else r ← av_skip stack r ft; Ok (r, e).

Definition av_decode_data_file (r : AvReader) (s : AvSchema) (e : PgColumnarAvroManifestEntry) : res (AvReader * PgColumnarAvroManifestEntry) :=
  match s with
  | AV_RECORD fs => decode_fields data_file_field fs r e
  | _ => Ok (fail r, e)
  end.

Definition entry_field (nm : list Z) (r : AvReader) (ft : AvSchema) (e : PgColumnarAvroManifestEntry) : res (AvReader * PgColumnarAvroManifestEntry) :=
  if decide (nm = str "status") then int32_into set_me_status r ft e
  else if decide (nm = str "sequence_number" \/ nm = str "data_sequence_number") then
    ' (v, have, r) ← av_read_long stack r ft;
    Ok (r, set_me_has_sequence_number (set_me_sequence_number (set_me_has_sequence_field e true) v) have)
  else if decide (nm = str "data_file") then
    ' (dt, isnull, r) ← av_unwrap_union r ft;
    if tc_error r || isnull then Ok (r, e) else av_decode_data_file r dt e
  else r ← av_skip stack r ft; Ok (r, e).

Definition av_decode_entry (r : AvReader) (s : AvSchema) (e : PgColumnarAvroManifestEntry) : res (AvReader * PgColumnarAvroManifestEntry) :=
  match s with
  | AV_RECORD fs => decode_fields entry_field fs r e
  | _ => Ok (fail r, e)
  end.

(** [(int32) av_read_long(r, ft, &have)] *)
Definition cast32_into {E} (set : E -> Z -> E) (r : AvReader) (ft : AvSchema) (e : E) : res (AvReader * E) :=
  ' (v, _, r) ← av_read_long stack r ft; Ok (r, set e (s32 v)).

Definition flagged_into {E} (set : E -> Z * bool -> E) (r : AvReader) (ft : AvSchema) (e : E) : res (AvReader * E) :=
  ' (v, have, r) ← av_read_long stack r ft; Ok (r, set e (v, have)).

Definition manifest_file_field (nm : list Z) (r : AvReader) (ft : AvSchema) (e : PgColumnarAvroManifestFile) : res (AvReader * PgColumnarAvroManifestFile) :=
  if decide (nm = str "manifest_path") then string_into set_mf_manifest_path r ft e
  else if decide (nm = str "manifest_length") then long_into set_mf_manifest_length r ft e
  else if decide (nm = str "partition_spec_id") then ' (v, have, r) ← av_read_int32_field stack r ft; Ok (r, set_mf_partition_spec_id e (v, have))
  else if decide (nm = str "content") then int32_into set_mf_content r ft e
  else if decide (nm = str "sequence_number") then flagged_into set_mf_sequence_number r ft e
  else if decide (nm = str "min_sequence_number") then flagged_into set_mf_min_sequence_number r ft e
  else if decide (nm = str "added_snapshot_id") then long_into set_mf_added_snapshot_id r ft e
  else if decide (nm = str "added_files_count") then cast32_into set_mf_added_files_count r ft e
  else if decide (nm = str "existing_files_count") then cast32_into set_mf_existing_files_count r ft e
  else if decide (nm = str "deleted_files_count") then cast32_into set_mf_deleted_files_count r ft e
  else if decide (nm = str "added_rows_count") then long_into set_mf_added_rows_count r ft e
  else if decide (nm = str "existing_rows_count") then long_into set_mf_existing_rows_count r ft e
  else if decide (nm = str "deleted_rows_count") then long_into set_mf_deleted_rows_count r ft e
  else r ← av_skip stack r ft; Ok (r, e).

Definition av_decode_manifest_file (r : AvReader) (s : AvSchema) (e : PgColumnarAvroManifestFile) : res (AvReader * PgColumnarAvroManifestFile) :=
  match s with
  | AV_RECORD fs => decode_fields manifest_file_field fs r e
  | _ => Ok (fail r, e)
  end.

End Entries.

(** ** The container *)

(** Raw inflate of zlib as a stream: a call may fill at most [avail_out] bytes. *)
Definition Z_OK : Z := 0.
Definition Z_STREAM_END : Z := 1.
Definition Z_BUF_ERROR : Z := -5.

Class RawInflate : Type := {
  z_stream : Type;
  inflate_init : list Z -> option z_stream;
  inflate : z_stream -> Z -> Z * list Z * z_stream;
  z_avail_in : z_stream -> Z
}.

Section Container.
Context `{N : Numerics} `{J : !JsonbIn} `{RI : RawInflate}.

(** The header's map of strings to bytes: schema and codec. *)
Definition meta_entry (r : AvReader) (a : option (list Z) * option (list Z)) : res (AvReader * (option (list Z) * option (list Z))) :=
  ' (key, r) ← av_cstring r;
  ' (vp, r) ← av_bytes r;
  match key, vp with
  | Some key, Some v =>
      if decide (key = str "avro.schema") then
        if AV_MAX_SCHEMA <? zlen v then Ok (fail r, a)
        else s ← copy_string v; Ok (r, (Some s, a.2))
      else if decide (key = str "avro.codec") then s ← copy_string v; Ok (r, (a.1, Some s))
      else Ok (r, a)
  | _, _ => Ok (r, a)
  end.

Definition av_read_metadata (r : AvReader) : res (AvReader * (option (list Z) * option (list Z))) :=
  av_blocks (av_turns r) AV_MAX_OBJECTS (fun _ => AV_MAX_OBJECTS) meta_entry r (None, None).

(** The loop of [av_inflate].  A turn takes input, gives output or enlarges the
    output buffer. *)
Fixpoint inflate_loop (fuel : nat) (zs : z_stream) (cap : Z) (out : list Z) : res (list Z) :=
  match fuel with
  | O => Fuel
  | S fuel =>
      let '(rc, bs, zs) := inflate zs (cap - zlen out) in
      let out := out ++ bs in
      if rc =? Z_STREAM_END then Ok out
      else if negb (rc =? Z_OK) && negb (rc =? Z_BUF_ERROR) then Err "corrupt Avro deflate block"
      else if cap - zlen out =? 0 then
        if AV_MAX_BLOCK <=? cap then Err "Avro block exceeds the limit"
        else inflate_loop fuel zs (Z.min (cap * 2) AV_MAX_BLOCK) out
      else if rc =? Z_BUF_ERROR then Err "truncated Avro deflate block"
      else inflate_loop fuel zs cap out
  end.

Definition av_inflate (inp : list Z) : res (list Z) :=
  let cap := Z.min (Z.max (zlen inp * 4) 4096) AV_MAX_BLOCK in
  match inflate_init inp with
  | None => Err "could not initialize the Avro deflate codec"
  | Some zs => inflate_loop (Z.to_nat (zlen inp + 2 * AV_MAX_BLOCK + 1)) zs cap []
  end.

Section Ocf.
Context {E : Type} (elemsize : Z) (elem0 : E) (decode : AvReader -> AvSchema -> E -> res (AvReader * E)).

(** [for (i = 0; i < count; i++)]: every element starts from zeroed memory. *)
Fixpoint decode_elems (count : nat) (schema : AvSchema) (br : AvReader) (out : list E) : res (AvReader * list E) :=
  match count with
  | O => Ok (br, out)
  | S count =>
      ' (br, e) ← decode br schema elem0;
      if tc_error br then Err "corrupt Avro manifest entry" else decode_elems count schema br (out ++ [e])
  end.

(** [while (r.pos < r.len && !r.error)]: a block takes its sync marker's bytes. *)
Fixpoint read_blocks (fuel : nat) (schema : AvSchema) (deflate : bool) (syncmark : list Z) (r : AvReader) (total_dec nalloc : Z) (out : list E) : res (list E) :=
  if (tc_pos r <? tc_len r) && negb (tc_error r) then
    match fuel with
    | O => Fuel
    | S fuel =>
        ' (count, r) ← av_long r;
        ' (bsize, r) ← av_long r;
        ' (block, r) ← av_take r bsize;
        match block with
        | None => Err "malformed Avro data block"
        | Some block =>
            if tc_error r || (count <? 0) || (AV_MAX_OBJECTS <? count) then Err "malformed Avro data block"
            else
              ' (data, total_dec) ←
                (if deflate then
                   d ← av_inflate block;
                   if AV_MAX_TOTAL <? total_dec + zlen d then Err "Avro manifest decompresses past the limit" else Ok (d, total_dec + zlen d)
                 else Ok (block, total_dec));
              let n := zlen out in
              if AV_MAX_OBJECTS <? n + count then Err "Avro manifest exceeds the limit of entries"
              else
                nalloc ← (if nalloc <? n + count then let nalloc := Z.max (n + count) 16 in _ ← palloc (elemsize * nalloc); Ok nalloc else Ok nalloc);
                ' (_, out) ← decode_elems (Z.to_nat count) schema (mkReader data 0 false) out;
                ' (bsync, r) ← av_take r AV_SYNC_LEN;
                match bsync with
                | Some s => if decide (s = syncmark) then read_blocks fuel schema deflate syncmark r total_dec nalloc out else Err "Avro block sync marker mismatch"
                | None => Err "Avro block sync marker mismatch"
                end
        end
    end
  else Ok out.

Definition av_read_ocf (stack : nat) (buf : list Z) : res (list E) :=
  ' (m, r) ← av_take (mkReader buf 0 false) 4;
  if decide (m = Some [79; 98; 106; 1]) then
    ' (r, (schema_json, codec)) ← av_read_metadata r;
    ' (sync, r) ← av_take r AV_SYNC_LEN;
    match schema_json, sync with
    | Some schema_json, Some syncmark =>
        if tc_error r then Err "malformed Avro header"
        else if bool_decide (codec <> None /\ codec <> Some (str "null") /\ codec <> Some (str "deflate")) then Err "Avro codec is not supported yet"
        else
          match jsonb_in schema_json with
          | None => Err "invalid input syntax for type json"
          | Some j =>
              schema ← av_schema_build stack (json_root j);
              match schema with
              | AV_RECORD _ => read_blocks (av_turns r) schema (bool_decide (codec = Some (str "deflate"))) syncmark r 0 0 []
              | _ => Err "Avro manifest schema is not a record"
              end
          end
    | _, _ => Err "malformed Avro header"
    end
  else Err "not an Avro object-container file (bad magic)".

End Ocf.

(** [sizeof(PgColumnarAvroManifestEntry)] and [sizeof(PgColumnarAvroManifestFile)] *)
Definition sizeof_entry : Z := 168.
Definition sizeof_manifest_file : Z := 112.

Definition PgColumnarAvroReadManifest `{TE : TextEnv} (stack : nat) (buf : list Z) : res (list PgColumnarAvroManifestEntry) :=
  av_read_ocf sizeof_entry entry0 (av_decode_entry stack) stack buf.

Definition PgColumnarAvroReadManifestList `{TE : TextEnv} (stack : nat) (buf : list Z) : res (list PgColumnarAvroManifestFile) :=
  av_read_ocf sizeof_manifest_file manifest_file0 (av_decode_manifest_file stack) stack buf.

End Container.
