(* ===== verification/AvroSafe.v ===== *)
(** * Reading hostile Avro files

    Every reader of [Avro] on arbitrary bytes: no access outside a buffer, no
    endless loop.  The decimal display is shown to be the text the Parquet reader
    makes of the same bytes. *)

From S2P Require Import Prelude BitPack Codec Thrift ParquetCodec ParquetValues Jsonb Avro.

(** ** The reader *)

Lemma av_varint_loop_safe fuel : forall r v shift, reader_ok r -> 0 <= v < 2 ^ 64 -> 0 <= shift -> 63 < shift + 7 * Z.of_nat fuel ->
  shift <= 63 -> safe (fun '(w, r') => 0 <= w < 2 ^ 64 /\ progress r r') (av_varint_loop fuel r v shift).
Proof.
  induction fuel as [|fuel IH]; intros r v shift Hr Hv Hs Hf Hle; cbn [av_varint_loop]; [cbn in Hf; lia|].
  destruct (Z.ltb_spec (tc_pos r) (tc_len r)) as [Hlt|_]; [|by split; [|by apply fail_progress]]. pose proof Hr as (Hb & Hp & Hl).
  rewrite rd1_Ok by (unfold tc_len in *; lia). rewrite bind_Ok. cbv zeta.
  assert (Hv' : 0 <= Z.lor v (u64 (Z.shiftl (Z.land (nthZ (tc_buf r) (tc_pos r)) 127) shift)) < 2 ^ 64)
    by (apply lor_bound; [lia|done|by apply mod_pow2_bound]).
  pose proof (adv_progress r 1 Hr ltac:(lia)) as Ha. destruct (_ =? 0); [by split|]. pose proof Ha as [(_ & _ & Hok) _].
  destruct (Z.ltb_spec 63 (shift + 7)).
  - split; [done|]. eapply progress_trans; [exact Ha|apply (proj1 (fail_progress _ Hok))|done].
  - eapply safe_mono; [apply IH; try done; lia|]. intros [w r'] [Hw Hpr]. split; [done|].
    split; [eapply moved_trans; [apply Ha|apply Hpr]|]. destruct Hpr as [(_ & Hm & _) _]. right. cbn in Hm. lia.
Qed.

Lemma av_long_safe r : reader_ok r -> safe (fun '(w, r') => - 2 ^ 63 <= w < 2 ^ 63 /\ progress r r') (av_long r).
Proof.
  intros Hr. unfold av_long. eapply safe_bind; [apply av_varint_loop_safe; try done; lia|]. intros [u r'] [Hu Hp]. split; [|done].
  by apply unzigzag_range.
Qed.

(** What a read that may return a null pointer leaves. *)
Definition taken (r : TCReader) (n : Z -> Prop) '((p, r') : option (list Z) * TCReader) : Prop :=
  moved r r' /\ match p with Some bs => bytes_ok bs /\ n (zlen bs) /\ tc_error r = false /\ r' = adv r (zlen bs) | None => tc_error r' = true end.

Lemma fail_moved r : reader_ok r -> moved r (fail r).
Proof. intros Hr. apply (fail_progress r Hr). Qed.

Lemma av_take_safe r n : reader_ok r -> safe (taken r (fun l => l = n)) (av_take r n).
Proof.
  intros Hr. unfold av_take. destruct (_ || _) eqn:E; [split; [by apply fail_moved|done]|].
  apply orb_false_iff in E as [E1 E2%Z.ltb_ge]. apply orb_false_iff in E1 as [E0 E1%Z.ltb_ge]. pose proof Hr as (Hb & Hp & Hl).
  rewrite rd_Ok by (unfold tc_len in *; lia). rewrite bind_Ok. split; [apply adv_moved; [done|lia]|]. split; [by apply bytes_ok_sub|].
  rewrite zlen_sub by (unfold tc_len in *; lia). split; [lia|]. split; done.
Qed.

Lemma av_bytes_safe r : reader_ok r -> safe (fun '(p, r') => moved r r' /\ match p with Some bs => bytes_ok bs | None => tc_error r' = true end) (av_bytes r).
Proof.
  intros Hr. unfold av_bytes. eapply safe_bind; [by apply av_long_safe|]. intros [n r1] [_ [M1 _]]. eapply safe_mono; [apply av_take_safe, M1|].
  intros [[bs|] r2] [M2 H]; (split; [by eapply moved_trans|]); [apply H|done].
Qed.

Lemma alloc_safe sz : safe (fun _ => True) (palloc sz).
Proof. destruct (palloc_cases sz) as [->|[m ->]]; done. Qed.

Lemma copy_string_safe bs : safe (fun _ => True) (copy_string bs).
Proof. unfold copy_string. eapply safe_bind; [apply alloc_safe|]. done. Qed.

Lemma av_cstring_safe r : reader_ok r -> safe (fun '(p, r') => moved r r' /\ (p = None -> tc_error r' = true)) (av_cstring r).
Proof.
  intros Hr. unfold av_cstring. eapply safe_bind; [by apply av_bytes_safe|]. intros [[bs|] r1] [M1 H]; [|by split].
  eapply safe_bind; [apply copy_string_safe|]. intros s _. by split.
Qed.

(** ** Blocks *)

Lemma av_block_safe limit room r : reader_ok r -> safe (fun '(cnt, r') => 0 <= cnt /\ progress r r') (av_block limit room r).
Proof.
  intros Hr. unfold av_block. eapply safe_bind; [by apply av_long_safe|]. intros [cnt r1] [_ P1]. pose proof P1 as [(_ & _ & O1) _].
  destruct (Z.eqb_spec cnt 0) as [->|Hne]; [by split|].
  assert (Hfail : forall r2, progress r r2 -> progress r (fail r2)).
  { intros r2 P2. eapply progress_trans; [exact P2|apply fail_moved; apply P2|done]. }
  destruct (cnt <? - limit); [split; [done|by apply Hfail]|].
  eapply (safe_bind (fun '(c, r2) => 0 <= c /\ progress r r2)).
  - destruct (Z.ltb_spec cnt 0); [|split; [lia|done]]. eapply safe_bind; [by apply av_long_safe|]. intros [w r2] [_ [M2 P2]]. cbn. split; [lia|].
    split; [by eapply moved_trans; [apply P1|]|]. destruct P2 as [?|P2]; [by left|]. right. destruct P1 as [(_ & Q & _) _]. lia.
  - intros [c r2] [Hc P2]. destruct (_ || _); cbn; (split; [lia|]); [by apply Hfail|done].
Qed.

Section Blocks.
Context {A : Type} (I : A -> Prop) (body : TCReader -> A -> res (TCReader * A)).
Context (Hbody : forall r a, reader_ok r -> I a -> safe (fun '(r', a') => moved r r' /\ I a') (body r a)).

Lemma av_times_safe n : forall r a, reader_ok r -> I a -> safe (fun '(r', a') => moved r r' /\ I a') (av_times n body r a).
Proof.
  induction n as [|n IH]; intros r a Hr Ha; cbn [av_times]; [split; [by apply moved_refl|done]|].
  destruct (tc_error r); [split; [by apply moved_refl|done]|]. eapply safe_bind; [by apply Hbody|]. intros [r1 a1] [M1 Ha1].
  eapply safe_mono; [apply IH; [apply M1|done]|]. intros [r2 a2] [M2 Ha2]. split; [by eapply moved_trans|done].
Qed.

Lemma av_times_error n r a : tc_error r = true -> av_times n body r a = Ok (r, a).
Proof. intros E. destruct n; cbn; [done|]. by rewrite E. Qed.

Lemma av_blocks_safe limit room : forall fuel r a, reader_ok r -> I a -> (tc_error r = true \/ tc_len r - tc_pos r < Z.of_nat fuel) ->
  safe (fun '(r', a') => moved r r' /\ I a') (av_blocks fuel limit room body r a).
Proof.
  induction fuel as [|fuel IH]; intros r a Hr Ha Hf; cbn [av_blocks]; (destruct (tc_error r) eqn:Ee; [split; [by apply moved_refl|done]|]).
  { destruct Hf as [?|Hf]; [done|]. destruct Hr as (_ & Hp & _). cbn in Hf. lia. }
  destruct Hf as [?|Hf]; [done|]. eapply safe_bind; [by apply av_block_safe|]. intros [cnt r1] [Hc [M1 P1]]. destruct (cnt =? 0); [by split|].
  destruct P1 as [Er|P1].
  - rewrite av_times_error, bind_Ok by done. eapply safe_mono; [apply IH; [apply M1|done|by left]|]. intros [r3 a3] [M3 Ha3]. split; [by eapply moved_trans|done].
  - eapply safe_bind; [apply av_times_safe; [apply M1|done]|]. intros [r2 a2] [M2 Ha2]. eapply safe_mono; [apply IH; [apply M2|done|right]|].
    { destruct M1 as (E1 & _ & _), M2 as (E2 & Q2 & _). unfold tc_len in *. rewrite E2, E1. lia. }
    intros [r3 a3] [M3 Ha3]. split; [|done]. by eapply moved_trans; [|eapply moved_trans].
Qed.

Lemma av_blocks_turns limit room r a : reader_ok r -> I a -> safe (fun '(r', a') => moved r r' /\ I a') (av_blocks (av_turns r) limit room body r a).
Proof. intros Hr Ha. apply av_blocks_safe; [done|done|]. right. unfold av_turns. lia. Qed.

End Blocks.

(** ** Skipping *)

Lemma skip_record_safe skip fs : (forall r s, reader_ok r -> safe (moved r) (skip r s)) -> forall r, reader_ok r -> safe (moved r) (skip_record skip fs r).
Proof.
  intros Hs. induction fs as [|[nm t] fs IH]; intros r Hr; cbn [skip_record]; [by apply moved_refl|].
  destruct (tc_error r); [by apply moved_refl|]. eapply safe_bind; [by apply Hs|]. intros r1 M1. eapply safe_mono; [apply IH, M1|].
  intros r2 M2. by eapply moved_trans.
Qed.

Lemma branch_at {A} (bs : list A) idx : 0 <= idx < zlen bs -> exists t, bs !! Z.to_nat idx = Some t.
Proof. intros H. apply lookup_lt_is_Some_2. unfold zlen in H. lia. Qed.

Lemma av_skip_safe stack : forall r s, reader_ok r -> safe (moved r) (av_skip stack r s).
Proof.
  induction stack as [|stack IH]; intros r s Hr; cbn [av_skip]; [done|]. destruct (tc_error r) eqn:Ee; [by apply moved_refl|].
  assert (Htake : forall n, safe (moved r) (' (_, r) ← av_take r n; Ok r)).
  { intros n. eapply safe_bind; [by apply av_take_safe|]. intros [p r1] [M1 _]. exact M1. }
  assert (Hlong : safe (moved r) (' (_, r) ← av_long r; Ok r)).
  { eapply safe_bind; [by apply av_long_safe|]. intros [p r1] [_ [M1 _]]. exact M1. }
  assert (Hbytes : safe (moved r) (' (_, r) ← av_bytes r; Ok r)).
  { eapply safe_bind; [by apply av_bytes_safe|]. intros [p r1] [M1 _]. exact M1. }
  destruct s; try done.
  - by apply skip_record_safe.
  - eapply safe_bind; [apply (av_blocks_turns (fun _ => True)); [|done|done]|by intros [r1 u] [M1 _]].
    intros r0 u Hr0 _. eapply safe_bind; [by apply IH|]. intros r1 M1. by split.
  - eapply safe_bind; [apply (av_blocks_turns (fun _ => True)); [|done|done]|by intros [r1 u] [M1 _]].
    intros r0 u Hr0 _. eapply safe_bind; [by apply av_bytes_safe|]. intros [p r1] [M1 _]. eapply safe_bind; [apply IH, M1|].
    intros r2 M2. split; [by eapply moved_trans|done].
  - eapply safe_bind; [by apply av_long_safe|]. intros [idx r1] [_ [M1 _]]. destruct (_ || _) eqn:E.
    { cbn. eapply moved_trans; [exact M1|apply fail_moved, M1]. }
    apply orb_false_iff in E as [E E2%Z.leb_gt]. apply orb_false_iff in E as [_ E1%Z.ltb_ge]. destruct (branch_at branch idx ltac:(lia)) as [t ->].
    eapply safe_mono; [apply IH, M1|]. intros r2 M2. by eapply moved_trans.
Qed.

Lemma av_unwrap_safe r s : reader_ok r -> safe (fun '(_, _, r') => moved r r') (av_unwrap_union r s).
Proof.
  intros Hr. destruct s; cbn; try by apply moved_refl. eapply safe_bind; [by apply av_long_safe|]. intros [idx r1] [_ [M1 _]]. destruct (_ || _) eqn:E.
  { cbn. eapply moved_trans; [exact M1|apply fail_moved, M1]. }
  apply orb_false_iff in E as [E E2%Z.leb_gt]. apply orb_false_iff in E as [_ E1%Z.ltb_ge]. by destruct (branch_at branch idx ltac:(lia)) as [t ->].
Qed.

(** ** Decimals *)

(** The big-endian value of the magnitude. *)
Definition be_nat (mag : list Z) : Z := le_uint (rev mag).

Lemma be_nat_cons b mag : be_nat (b :: mag) = b * 2 ^ (8 * zlen mag) + be_nat mag.
Proof.
  unfold be_nat. cbn [rev]. rewrite le_uint_app. unfold zlen. rewrite length_rev. cbn [le_uint]. lia.
Qed.

Lemma be_nat_bound mag : bytes_ok mag -> 0 <= be_nat mag < 2 ^ (8 * zlen mag).
Proof. intros H. unfold be_nat. replace (zlen mag) with (zlen (rev mag)) by (unfold zlen; by rewrite length_rev). apply le_uint_bound. by apply Forall_rev. Qed.

Lemma divide_loop_spec mag : bytes_ok mag -> forall rem, 0 <= rem < 10 ->
  let '(q, r) := divide_loop mag rem in bytes_ok q /\ zlen q = zlen mag /\ 0 <= r < 10 /\ rem * 2 ^ (8 * zlen mag) + be_nat mag = 10 * be_nat q + r.
Proof.
  induction 1 as [|b mag Hb Hm IH]; intros rem Hr; cbn [divide_loop].
  - split; [constructor|]. split; [done|]. split; [done|]. change (2 ^ (8 * zlen [])) with 1. change (be_nat []) with 0. lia.
  - unfold byte_ok in Hb. assert (Hc : Z.lor (u32 (Z.shiftl rem 8)) b = rem * 256 + b).
    { rewrite Z.shiftl_mul_pow2 by lia. rewrite u32_small by lia. rewrite Z.lor_comm, lor_add by lia. lia. }
    rewrite Hc. set (cur := rem * 256 + b). pose proof (Z.div_mod cur 10 ltac:(lia)) as Hd. pose proof (Z.mod_pos_bound cur 10 ltac:(lia)) as Hmod.
    assert (Hq : 0 <= cur / 10 < 256) by (split; [apply Z.div_pos; lia|apply Z.div_lt_upper_bound; lia]).
    specialize (IH (cur mod 10) Hmod). destruct (divide_loop mag (cur mod 10)) as [q r]. destruct IH as (H1 & H2 & H3 & H4).
    assert (Hu : u8 (cur / 10) = cur / 10) by (apply Z.mod_small; lia). rewrite Hu. split; [constructor; [unfold byte_ok; lia|done]|]. split; [by rewrite !zlen_cons, H2|]. split; [done|].
    rewrite !be_nat_cons, H2, zlen_cons. replace (8 * (1 + zlen mag)) with (8 + 8 * zlen mag) by lia. rewrite Z.pow_add_r by (pose proof (zlen_nonneg mag); lia).
    change (2 ^ 8) with 256. set (P := 2 ^ (8 * zlen mag)) in *. unfold cur in *. nia.
Qed.

Lemma strip_zeros_spec mag : bytes_ok mag -> bytes_ok (strip_zeros mag) /\ be_nat (strip_zeros mag) = be_nat mag /\ (strip_zeros mag <> [] -> 0 < be_nat (strip_zeros mag)).
Proof.
  induction 1 as [|b mag Hb Hm IH]; cbn [strip_zeros]; [by split; [constructor|]|]. destruct (Z.eqb_spec b 0) as [->|Hne].
  - destruct IH as (H1 & H2 & H3). rewrite be_nat_cons. split; [done|]. split; [lia|]. rewrite H2 in *. done.
  - split; [by constructor|]. split; [done|]. intros _. rewrite be_nat_cons. pose proof (be_nat_bound mag Hm). unfold byte_ok in Hb.
    assert (0 < 2 ^ (8 * zlen mag)) by (apply pow2_pos; pose proof (zlen_nonneg mag); lia). nia.
Qed.

Lemma digit_loop_0 k : digit_loop k 0 = [].
Proof. by destruct k. Qed.

(** The long division writes the decimal digits of the magnitude. *)
Lemma digits_loop_spec k : forall fuel mag digits, (k <= fuel)%nat -> bytes_ok mag -> (mag <> [] -> 0 < be_nat mag) -> be_nat mag < 10 ^ Z.of_nat k -> zlen digits + Z.of_nat k <= 193 ->
  digits_loop fuel mag digits = Ok (digits ++ digit_loop k (be_nat mag)).
Proof.
  induction k as [|k IH]; intros fuel mag digits Hk Hm Hpos Hb Hd.
  - destruct mag as [|b mag]; [destruct fuel; cbn; by rewrite app_nil_r|]. specialize (Hpos ltac:(done)). change (10 ^ Z.of_nat 0) with 1 in Hb. lia.
  - destruct mag as [|b mag]; [destruct fuel; cbn; by rewrite app_nil_r|]. specialize (Hpos ltac:(done)). destruct fuel as [|fuel]; [lia|]. cbn [digits_loop].
    pose proof (divide_loop_spec (b :: mag) Hm 0 ltac:(lia)) as H. destruct (divide_loop (b :: mag) 0) as [q r]. destruct H as (H1 & H2 & H3 & H4).
    unfold AV_MAX_DECIMAL_BYTES. rewrite (proj2 (Z.leb_gt _ _)) by lia. destruct (strip_zeros_spec q H1) as (S1 & S2 & S3).
    assert (Hq : be_nat (strip_zeros q) = be_nat (b :: mag) / 10) by (rewrite S2; apply Z.div_unique with (r := r); lia).
    assert (Hr : r = be_nat (b :: mag) mod 10) by (apply Z.mod_unique with (q := be_nat q); lia).
    rewrite IH; [|lia|done|done| |rewrite zlen_app, zlen_cons, zlen_nil; lia].
    + cbn [digit_loop]. rewrite (proj2 (Z.ltb_lt _ _)) by done. rewrite <- app_assoc, Hq, Hr. done.
    + rewrite Hq. apply Z.div_lt_upper_bound; [lia|]. rewrite Nat2Z.inj_succ, Z.pow_succ_r in Hb by lia. lia.
Qed.

Lemma negate_loop_spec l : bytes_ok l -> forall c, 0 <= c <= 1 -> bytes_ok (negate_loop l c) /\ zlen (negate_loop l c) = zlen l /\
  le_uint (negate_loop l c) = (2 ^ (8 * zlen l) - 1 - le_uint l + c) mod 2 ^ (8 * zlen l).
Proof.
  induction 1 as [|b l Hb Hl IH]; intros c Hc; cbn [negate_loop].
  - split; [constructor|]. split; [done|]. cbn. by rewrite Z.mod_1_r.
  - unfold byte_ok in Hb. assert (Hn : u8 (Z.lnot b) = 255 - b) by (unfold u8, Z.lnot; symmetry; apply Z.mod_unique with (q := -1); lia). rewrite Hn.
    set (v := 255 - b + c). assert (Hs : Z.shiftr v 8 = v / 256) by (rewrite Z.shiftr_div_pow2 by lia; done). rewrite Hs.
    assert (Hv : 0 <= v / 256 <= 1) by (split; [apply Z.div_pos; lia|apply Z.lt_succ_r; apply Z.div_lt_upper_bound; lia]).
    destruct (IH (v / 256) Hv) as (H1 & H2 & H3). split; [constructor; [apply mod_pow2_bound; lia|done]|]. split; [by rewrite !zlen_cons, H2|].
    cbn [le_uint]. rewrite H3, zlen_cons. pose proof (zlen_nonneg l). replace (8 * (1 + zlen l)) with (8 + 8 * zlen l) by lia. rewrite Z.pow_add_r by lia. change (2 ^ 8) with 256.
    pose proof (pow2_pos (8 * zlen l) ltac:(lia)) as HP. set (P := 2 ^ (8 * zlen l)) in *. set (X := P - 1 - le_uint l + v / 256).
    pose proof (Z.div_mod v 256 ltac:(lia)) as Hdv. pose proof (Z.mod_pos_bound v 256 ltac:(lia)). pose proof (Z.div_mod X P ltac:(lia)) as HdX. pose proof (Z.mod_pos_bound X P ltac:(lia)).
    unfold u8. change (2 ^ 8) with 256. apply Z.mod_unique with (q := X / P); [nia|]. unfold X, v in *. nia.
Qed.

(** The signed value of the bytes and its magnitude. *)
Definition be_signed (p : list Z) : Z := if (0 <? zlen p) && negb (Z.land (nthZ p 0) 128 =? 0) then be_nat p - 2 ^ (8 * zlen p) else be_nat p.

Lemma sign_bit b : byte_ok b -> negb (Z.land b 128 =? 0) = (128 <=? b).
Proof.
  intros Hb. assert (H : forallb (fun x => Bool.eqb (negb (Z.land x 128 =? 0)) (128 <=? x)) (seqZ 0 256) = true) by (by vm_compute).
  rewrite forallb_forall in H. apply eqb_prop, H, list_elem_of_In, elem_of_seqZ. unfold byte_ok in Hb. lia.
Qed.

Lemma be_signed_bound p : bytes_ok p -> Z.abs (be_signed p) <= 2 ^ (8 * zlen p) /\ (be_signed p <? 0) = (0 <? zlen p) && negb (Z.land (nthZ p 0) 128 =? 0).
Proof.
  intros Hp. pose proof (be_nat_bound p Hp). unfold be_signed. destruct p as [|b p]; [split; [by vm_compute|reflexivity]|].
  apply Forall_cons_1 in Hp as [Hb Hp]. change (nthZ (b :: p) 0) with b. rewrite sign_bit by done. rewrite zlen_cons in *. pose proof (zlen_nonneg p).
  rewrite (proj2 (Z.ltb_lt 0 _)) by lia. cbn [andb]. destruct (Z.leb_spec 128 b); (split; [lia|]); [apply Z.ltb_lt|apply Z.ltb_ge]; lia.
Qed.

Lemma magnitude_spec p : bytes_ok p -> let neg := (0 <? zlen p) && negb (Z.land (nthZ p 0) 128 =? 0) in
  let mag := if neg then rev (negate_loop (rev p) 1) else p in bytes_ok mag /\ be_nat mag = Z.abs (be_signed p).
Proof.
  intros Hp neg mag. pose proof (be_signed_bound p Hp) as [_ Hs]. pose proof (be_nat_bound p Hp) as Hb. unfold be_signed in *. fold neg in Hs |- *. subst mag. destruct neg eqn:En.
  - destruct (negate_loop_spec (rev p) ltac:(by apply Forall_rev) 1 ltac:(lia)) as (H1 & H2 & H3). split; [by apply Forall_rev|].
    unfold be_nat at 1. rewrite rev_involutive, H3. fold (be_nat p). replace (zlen (rev p)) with (zlen p) by (unfold zlen; by rewrite length_rev).
    apply Z.ltb_lt in Hs. apply andb_true_iff in En as [_ En]. destruct p as [|b p]; [done|]. apply Forall_cons_1 in Hp as [Hb0 Hp]. change (nthZ (b :: p) 0) with b in En.
    rewrite sign_bit in En by done. apply Z.leb_le in En. rewrite be_nat_cons in *. rewrite zlen_cons in *. pose proof (be_nat_bound p Hp). pose proof (pow2_pos (8 * zlen p) ltac:(pose proof (zlen_nonneg p); lia)).
    rewrite Z.mod_small; nia.
  - split; [done|]. lia.
Qed.

(** The decimal display ends for up to 64 bytes, without leaving its buffers. *)
Lemma av_append_decimal_safe p scale : bytes_ok p -> safe (fun _ => True) (av_append_decimal p scale).
Proof.
  intros Hp. unfold av_append_decimal. unfold AV_MAX_DECIMAL_BYTES. destruct (Z.ltb_spec 64 (zlen p)); [done|]. cbv zeta.
  destruct (magnitude_spec p Hp) as [H1 H2]. destruct (be_signed_bound p Hp) as [H3 _]. destruct (strip_zeros_spec _ H1) as (S1 & S2 & S3).
  rewrite (digits_loop_spec 155); try done; [lia|]. rewrite S2, H2. eapply Z.le_lt_trans; [exact H3|].
  eapply Z.le_lt_trans; [apply (Z.pow_le_mono_r 2 _ 512); lia|]. vm_compute. reflexivity.
Qed.

(** ** The decimal text *)

Lemma digit_loop_stable k k' a : 0 <= a < 10 ^ Z.of_nat k -> (k <= k')%nat -> digit_loop k' a = digit_loop k a.
Proof.
  revert k' a. induction k as [|k IH]; intros k' a Ha Hk.
  - change (10 ^ Z.of_nat 0) with 1 in Ha. assert (a = 0) as -> by lia. apply digit_loop_0.
  - destruct k' as [|k']; [lia|]. cbn [digit_loop]. destruct (Z.ltb_spec 0 a); [|done]. f_equal. apply IH; [|lia].
    split; [apply Z.div_pos; lia|]. apply Z.div_lt_upper_bound; [lia|]. rewrite Nat2Z.inj_succ, Z.pow_succ_r in Ha by lia. lia.
Qed.

Lemma map_nthZ digits l : forall a, 0 <= a -> (forall j, 0 <= j < zlen l -> nthZ digits (a + j) = nthZ l j) -> map (nthZ digits) (seqZ a (zlen l)) = l.
Proof.
  induction l as [|x l IH]; intros a Ha Hn; [done|]. rewrite zlen_cons in *. pose proof (zlen_nonneg l). rewrite seqZ_cons by lia.
  replace (Z.pred (1 + zlen l)) with (zlen l) by lia. cbn [map]. f_equal; [specialize (Hn 0 ltac:(lia)); by rewrite Z.add_0_r in Hn|].
  apply IH; [lia|]. intros j Hj. replace (Z.succ a + j) with (a + (1 + j)) by lia. rewrite Hn by lia. unfold nthZ. replace (Z.to_nat (1 + j)) with (S (Z.to_nat j)) by lia. done.
Qed.

(** A stretch of digits without the point. *)
Lemma put_plain digits scale l a : 0 <= a -> (forall j, 0 <= j < zlen l -> nthZ digits (a + j) = nthZ l j) -> (scale < a \/ a + zlen l <= scale) ->
  concat (map (fun i => nthZ digits i :: (if (i =? scale) && (0 <? scale) then [46] else [])) (rev (seqZ a (zlen l)))) = rev l.
Proof.
  intros Ha Hn Hs. transitivity (rev (map (nthZ digits) (seqZ a (zlen l)))); [|by rewrite map_nthZ]. rewrite <- map_rev, <- (concat_single (nthZ digits)). f_equal. apply map_ext_in. intros i Hi.
  apply in_rev, list_elem_of_In, elem_of_seqZ in Hi. rewrite (proj2 (Z.eqb_neq _ _)) by lia. done.
Qed.

Lemma put_digits_spec digits scale : 1 <= zlen digits -> 0 <= scale ->
  put_digits digits scale = if scale <=? 0 then rev digits
    else let intlen := zlen digits - scale in
      if intlen <=? 0 then [ch_0; ch_dot] ++ replicate (Z.to_nat (- intlen)) ch_0 ++ rev digits
      else rev (drop (Z.to_nat scale) digits) ++ [ch_dot] ++ rev (take (Z.to_nat scale) digits).
Proof.
  intros Hd Hs. unfold put_digits. cbv zeta. destruct (Z.leb_spec scale 0) as [H0|H0].
  - assert (scale = 0) as -> by lia. rewrite (proj2 (Z.leb_gt _ _)) by lia. transitivity (rev (map (nthZ digits) (seqZ 0 (zlen digits)))); [|by rewrite map_nthZ].
    rewrite <- map_rev, <- (concat_single (nthZ digits)). f_equal. apply map_ext. intros i. by rewrite andb_false_r.
  - destruct (Z.leb_spec (zlen digits) scale) as [H1|H1]; destruct (Z.leb_spec (zlen digits - scale) 0) as [H2|H2]; try lia.
    + replace (- (zlen digits - scale)) with (scale - zlen digits) by lia. done.
    + set (n := Z.to_nat scale). pose proof (take_drop n digits) as E. set (lo := take n digits) in *. set (hi := drop n digits) in *.
      assert (Llo : zlen lo = scale) by (unfold lo, zlen in *; rewrite length_take; lia). assert (Lhi : 0 < zlen hi) by (unfold hi, zlen in *; rewrite length_drop; lia).
      clearbody lo hi. destruct hi as [|d hi]; [by vm_compute in Lhi|]. rewrite <- E. clear E. subst scale. pose proof (zlen_nonneg hi).
      rewrite zlen_app, zlen_cons. rewrite (seqZ_app 0 (zlen lo) (1 + zlen hi)), (seqZ_app _ 1 (zlen hi)) by lia. rewrite !rev_app_distr, !map_app, !concat_app.
      rewrite Z.add_0_l. rewrite (put_plain _ _ hi), (put_plain _ _ lo); try lia.
      * rewrite (seqZ_cons (zlen lo) 1) by lia. change (Z.pred 1) with 0. change (seqZ (Z.succ (zlen lo)) 0) with (@nil Z). cbn [rev app map concat]. rewrite Z.eqb_refl, (proj2 (Z.ltb_lt 0 _)) by lia. cbn [andb app].
        rewrite nthZ_app, Z.ltb_irrefl, Z.sub_diag by lia. change (nthZ (d :: hi) 0) with d. by rewrite <- !app_assoc.
      * intros j Hj. rewrite Z.add_0_l, nthZ_app by lia. by rewrite (proj2 (Z.ltb_lt _ _)) by lia.
      * intros j Hj. rewrite nthZ_app by lia. rewrite (proj2 (Z.ltb_ge _ _)) by lia. unfold nthZ. replace (Z.to_nat (zlen lo + 1 + j - zlen lo)) with (S (Z.to_nat j)) by lia. done.
Qed.

Lemma be_value_signed p : bytes_ok p -> zlen p <= 16 -> be_value p = be_signed p.
Proof.
  intros Hp Hl. unfold be_value. assert (E : be_mag p = be_nat p).
  { rewrite <- (rev_involutive p) at 1. rewrite be_mag_rev; [done|by apply Forall_rev|unfold zlen in *; rewrite length_rev; lia]. }
  rewrite E. pose proof (be_nat_bound p Hp) as Hb. destruct (be_signed_bound p Hp) as [_ Hs]. unfold be_signed in *. destruct p as [|b p]; [done|].
  apply Forall_cons_1 in Hp as [Hb0 Hp]. change (nthZ (b :: p) 0) with b in *. rewrite sign_bit in * by done. rewrite be_nat_cons, zlen_cons in *. pose proof (zlen_nonneg p).
  rewrite (proj2 (Z.ltb_lt 0 _)) in * by lia. cbn [andb] in *. pose proof (be_nat_bound p Hp) as Hbp. unfold byte_ok in Hb0.
  assert (Hpow : 2 ^ (8 * (1 + zlen p)) = 256 * 2 ^ (8 * zlen p)) by (rewrite <- (Z.pow_add_r 2 8) by lia; f_equal; lia).
  destruct (Z.eqb_spec (1 + zlen p) 16) as [E16|N16].
  - rewrite Hpow. replace (8 * zlen p) with 120 in * by lia. destruct (Z.leb_spec 128 b).
    + unfold s128. replace (b * 2 ^ 120 + be_nat p + 2 ^ 127) with (b * 2 ^ 120 + be_nat p - 2 ^ 127 + 1 * 2 ^ 128) by lia. rewrite Z.mod_add, Z.mod_small by lia. lia.
    + apply s128_small. lia.
  - assert (2 ^ (8 * zlen p) <= 2 ^ 112) by (apply Z.pow_le_mono_r; lia). rewrite Hpow in *. set (P := 2 ^ (8 * zlen p)) in *. set (m := b * P + be_nat p) in *.
    assert (0 <= m < 2 ^ 120) by lia. destruct (Z.leb_spec 128 b); cbn [negb]; rewrite (s128_small m) by lia; [rewrite s128_small; lia|done].
Qed.

(** C35.  The display of a decimal partition value is the decimal itself: the
    text that long division of the bytes produces is the one the Parquet reader
    gives the same bytes, sign, leading zeros and point included. *)
Theorem avro_decimal_text p scale : bytes_ok p -> zlen p <= 16 -> 0 <= scale -> av_append_decimal p scale = Ok (decimal_text (be_value p) scale).
Proof.
  intros Hp Hl Hs. rewrite be_value_signed by done. unfold av_append_decimal, AV_MAX_DECIMAL_BYTES. rewrite (proj2 (Z.ltb_ge _ _)) by lia. cbv zeta.
  destruct (magnitude_spec p Hp) as [H1 H2]. destruct (be_signed_bound p Hp) as [H3 H4]. destruct (strip_zeros_spec _ H1) as (S1 & S2 & S3).
  assert (H39 : Z.abs (be_signed p) < 10 ^ Z.of_nat 39).
  { eapply Z.le_lt_trans; [exact H3|]. eapply Z.le_lt_trans; [apply (Z.pow_le_mono_r 2 _ 128); lia|]. by vm_compute. }
  rewrite (digits_loop_spec 39); [|lia|done|done|by rewrite S2, H2|by vm_compute]. rewrite bind_Ok, S2, H2. cbn [app]. unfold decimal_text. cbv zeta. rewrite H4. do 2 f_equal.
  unfold digits_of. pose proof (Z.abs_nonneg (be_signed p)). destruct (Z.eqb_spec (Z.abs (be_signed p)) 0) as [->|Hne].
  - rewrite digit_loop_0. by apply put_digits_spec.
  - assert (Hd : exists d ds, digit_loop 39 (Z.abs (be_signed p)) = d :: ds) by (cbn [digit_loop]; rewrite (proj2 (Z.ltb_lt _ _)) by lia; eauto).
    destruct Hd as (d & ds & ->). apply put_digits_spec; [|done]. rewrite zlen_cons. pose proof (zlen_nonneg ds). lia.
Qed.

Lemma avro_decimal_text_witness : av_append_decimal [255; 133] 2 = Ok (str "-1.23") /\ decimal_text (be_value [255; 133]) 2 = str "-1.23".
Proof.
  assert (E : decimal_text (be_value [255; 133]) 2 = str "-1.23") by (vm_compute; reflexivity). split; [|exact E]. rewrite <- E.
  apply avro_decimal_text; [apply (bool_decide_unpack _); vm_compute; exact I|vm_compute; discriminate|lia].
Defined.

(** ** Fields of a manifest *)

Lemma av_append_safe out bs : safe (fun _ => True) (appendBinaryStringInfo out bs).
Proof. unfold appendBinaryStringInfo, enlargeStringInfo. destruct (_ <? _); [done|]. by destruct (_ <=? _). Qed.

(** A reader of some value: it moves on. *)
Definition reads_on {A} (f : TCReader -> res (TCReader * A)) : Prop := forall r, reader_ok r -> safe (fun '(r', _) => moved r r') (f r).

Ltac step := eapply safe_bind; [first [by apply av_long_safe | by apply av_take_safe | by apply av_bytes_safe | by apply av_unwrap_safe | by apply av_skip_safe | apply alloc_safe]|].

Section Fields.
Context `{TE : TextEnv} (stack : nat).

Lemma part_value_safe r t : reader_ok r -> safe (fun '(r', _, _) => moved r r') (part_value stack r t).
Proof.
  intros Hr. assert (Hskip : safe (fun '(r', _, _) => moved r r') (r ← av_skip stack r t; Ok (r, cell0, [63]))) by (step; by intros r1 M1).
  assert (Hstr : forall dec, safe (fun '(r', _, _) => moved r r')
    (' (p, r) ← av_bytes r; match p with
      | None => Ok (r, cell0, [])
      | Some bs => _ ← palloc (Z.max (zlen bs) 1); text ← (match dec with Some (Some scale) => av_append_decimal bs scale | Some None => Ok (av_append_hex bs) | None => Ok (av_append_escaped bs) end); Ok (r, mkCell false true true 0 bs, text)
      end)).
  { intros dec. step. intros [[bs|] r1] [M1 Hb]; [|exact M1]. step. intros [] _. eapply (safe_bind (fun _ => True)); [|done].
    destruct dec as [[scale|]|]; [by apply av_append_decimal_safe|done|done]. }
  destruct t; cbn [part_value]; try exact Hskip.
  - step. by intros [p r1] [M1 _].
  - step. by intros [v r1] [_ [M1 _]].
  - step. by intros [v r1] [_ [M1 _]].
  - step. by intros [p r1] [M1 _].
  - step. by intros [p r1] [M1 _].
  - apply (Hstr (Some decimal)).
  - apply (Hstr None).
  - step. intros [[bs|] r1] [M1 Hb]; [|exact M1]. eapply (safe_bind (fun _ => True)); [|done]. destruct decimal as [scale|]; [apply av_append_decimal_safe, Hb|done].
Qed.

Lemma part_fields_safe fs : forall first r out cells, reader_ok r -> safe (fun '(r', _, _) => moved r r') (part_fields stack fs first r out cells).
Proof.
  induction fs as [|[name ft] fs IH]; intros first r out cells Hr; cbn [part_fields]; [by apply moved_refl|].
  destruct (tc_error r); [by apply moved_refl|]. step. intros [[t isnull] r1] M1. eapply (safe_bind (fun _ => True)); [destruct first; [done|apply av_append_safe]|].
  intros out1 _. destruct (tc_error r1); [exact M1|]. destruct isnull.
  - eapply safe_bind; [apply av_append_safe|]. intros out2 _. eapply safe_mono; [apply IH, M1|]. intros [[r2 o] c] M2. by eapply moved_trans.
  - eapply safe_bind; [apply part_value_safe, M1|]. intros [[r2 c] text] M2. eapply safe_bind; [apply av_append_safe|]. intros out2 _.
    eapply safe_mono; [apply IH, M2|]. intros [[r3 o] cs] M3. by eapply moved_trans; [|eapply moved_trans].
Qed.

Lemma av_decode_partition_safe s : reads_on (fun r => av_decode_partition stack r s).
Proof.
  intros r Hr. destruct s; cbn [av_decode_partition]; try (step; by intros r1 M1).
  eapply safe_bind; [by apply part_fields_safe|]. by intros [[r1 out] cells] M1.
Qed.

Lemma av_read_string_safe r s : reader_ok r -> safe (fun '(_, r') => moved r r') (av_read_string stack r s).
Proof.
  intros Hr. unfold av_read_string. step. intros [[t isnull] r1] M1. destruct (_ || _); [exact M1|].
  assert (Hs : safe (fun '(_, r') => moved r r') (r2 ← av_skip stack r1 t; Ok (@None (list Z), r2))).
  { eapply safe_bind; [apply av_skip_safe, M1|]. intros r2 M2. by eapply moved_trans. }
  destruct t; try exact Hs; (eapply safe_mono; [apply av_cstring_safe, M1|]); intros [p r2] [M2 _]; by eapply moved_trans.
Qed.

Lemma av_read_long_safe r s : reader_ok r -> safe (fun '(_, _, r') => moved r r') (av_read_long stack r s).
Proof.
  intros Hr. unfold av_read_long. step. intros [[t isnull] r1] M1. destruct (_ || _); [exact M1|].
  assert (Hs : safe (fun '(_, _, r') => moved r r') (r2 ← av_skip stack r1 t; Ok (0, false, r2))).
  { eapply safe_bind; [apply av_skip_safe, M1|]. intros r2 M2. by eapply moved_trans. }
  destruct t; try exact Hs; (eapply safe_bind; [apply av_long_safe, M1|]); intros [v r2] [_ [M2 _]]; by eapply moved_trans.
Qed.

Lemma av_read_int32_safe r s : reader_ok r -> safe (fun '(v, _, r') => PG_INT32_MIN <= v <= PG_INT32_MAX /\ moved r r') (av_read_int32_field stack r s).
Proof.
  intros Hr. unfold av_read_int32_field. eapply safe_bind; [by apply av_read_long_safe|]. intros [[v have] r1] M1.
  destruct (Z.ltb_spec v PG_INT32_MIN); [done|]. destruct (Z.ltb_spec PG_INT32_MAX v); [done|]. cbn. split; [lia|done].
Qed.

Lemma av_read_int_array_safe r s : reader_ok r -> safe (fun '(l, r') => Forall (fun v => 0 <= v <= PG_INT32_MAX) l /\ moved r r') (av_read_int_array stack r s).
Proof.
  intros Hr. unfold av_read_int_array. step. intros [[t isnull] r1] M1. destruct (_ || _); [by split|].
  assert (Hs : safe (fun '(l, r') => Forall (fun v => 0 <= v <= PG_INT32_MAX) l /\ moved r r') (r2 ← av_skip stack r1 t; Ok ([], r2))).
  { eapply safe_bind; [apply av_skip_safe, M1|]. intros r2 M2. split; [constructor|by eapply moved_trans]. }
  destruct t; try exact Hs. destruct t; try exact Hs;
    (eapply safe_bind; [apply (av_blocks_turns (Forall (fun v => 0 <= v <= PG_INT32_MAX))); [|apply M1|constructor]|];
     [|intros [r2 vals] [M2 Hv]; cbn; split; [destruct (tc_error r2); [constructor|done]|by eapply moved_trans]]);
    intros r0 vals Hr0 Hv; step; intros [v r2] [_ [M2 _]];
    (destruct (Z.ltb_spec v 0); [cbn; split; [eapply moved_trans; [exact M2|apply fail_moved, M2]|done]|]);
    (destruct (Z.ltb_spec PG_INT32_MAX v); cbn; [split; [eapply moved_trans; [exact M2|apply fail_moved, M2]|done]|]);
    (split; [done|]); apply Forall_app_2; [done|constructor; [lia|constructor]|done|constructor; [lia|constructor]].
Qed.

Lemma bound_record_safe fs : forall r key val, reader_ok r -> safe (fun '(r', _, _) => moved r r') (bound_record stack fs r key val).
Proof.
  induction fs as [|[fn fty] fs IH]; intros r key val Hr; cbn [bound_record]; [by apply moved_refl|]. destruct (tc_error r); [by apply moved_refl|].
  assert (Hnext : forall r1 k v, moved r r1 -> safe (fun '(r', _, _) => moved r r') (bound_record stack fs r1 k v)).
  { intros r1 k v M1. eapply safe_mono; [apply IH, M1|]. intros [[r2 k2] v2] M2. by eapply moved_trans. }
  assert (Hfail : forall r1, moved r r1 -> moved r (fail r1)) by (intros r1 M1; eapply moved_trans; [exact M1|apply fail_moved, M1]).
  destruct (decide (fn = _)).
  - eapply safe_bind; [by apply av_read_long_safe|]. intros [[k have] r1] M1. destruct (_ || _); [by apply Hfail|by apply Hnext].
  - destruct (decide (fn = _)); [|step; intros r1 M1; by apply Hnext]. step. intros [[vt vnull] r1] M1. destruct (tc_error r1); [exact M1|]. destruct vnull; [by apply Hnext|].
    assert (Hs : safe (fun '(r', _, _) => moved r r') (r2 ← av_skip stack r1 vt; bound_record stack fs r2 key val)).
    { eapply safe_bind; [apply av_skip_safe, M1|]. intros r2 M2. apply Hnext. by eapply moved_trans. }
    destruct vt; try exact Hs; (eapply safe_bind; [apply av_long_safe, M1|]); intros [len r2] [_ [M2 _]];
      (destruct (_ || _); [apply Hfail; by eapply moved_trans|]); (eapply safe_bind; [apply av_take_safe, M2|]); intros [[bs|] r3] [M3 _];
      try (apply Hnext); by eapply moved_trans; [|eapply moved_trans].
Qed.

Lemma av_read_bound_map_safe r s : reader_ok r -> safe (fun '(_, r') => moved r r') (av_read_bound_map stack r s).
Proof.
  intros Hr. unfold av_read_bound_map. step. intros [[t isnull] r1] M1. destruct (_ || _); [exact M1|].
  assert (Hs : safe (fun '(_, r') => moved r r') (r2 ← av_skip stack r1 t; Ok (@nil PgColumnarAvroBound, r2))).
  { eapply safe_bind; [apply av_skip_safe, M1|]. intros r2 M2. by eapply moved_trans. }
  destruct t; try exact Hs. destruct t; try exact Hs. eapply safe_bind; [apply (av_blocks_turns (fun _ => True)); [|apply M1|done]|].
  - intros r0 b Hr0 _. eapply safe_bind; [by apply bound_record_safe|]. intros [[r2 k] v] M2. by destruct (tc_error r2).
  - intros [r2 b] [M2 _]. cbn. by eapply moved_trans.
Qed.

Lemma long_into_safe {E} (set : E -> Z -> E) ft e : reads_on (fun r => long_into stack set r ft e).
Proof. intros r Hr. unfold long_into. eapply safe_bind; [by apply av_read_long_safe|]. by intros [[v h] r1] M1. Qed.

Lemma cast32_into_safe {E} (set : E -> Z -> E) ft e : reads_on (fun r => cast32_into stack set r ft e).
Proof. intros r Hr. unfold cast32_into. eapply safe_bind; [by apply av_read_long_safe|]. by intros [[v h] r1] M1. Qed.

Lemma flagged_into_safe {E} (set : E -> Z * bool -> E) ft e : reads_on (fun r => flagged_into stack set r ft e).
Proof. intros r Hr. unfold flagged_into. eapply safe_bind; [by apply av_read_long_safe|]. by intros [[v h] r1] M1. Qed.

Lemma int32_into_safe {E} (set : E -> Z -> E) ft e : reads_on (fun r => int32_into stack set r ft e).
Proof. intros r Hr. unfold int32_into. eapply safe_bind; [by apply av_read_int32_safe|]. by intros [[v h] r1] [_ M1]. Qed.

Lemma string_into_safe {E} (set : E -> option (list Z) -> E) ft e : reads_on (fun r => string_into stack set r ft e).
Proof. intros r Hr. unfold string_into. eapply safe_bind; [by apply av_read_string_safe|]. by intros [v r1] M1. Qed.

Lemma skip_into_safe {E} ft (e : E) : reads_on (fun r => r ← av_skip stack r ft; Ok (r, e)).
Proof. intros r Hr. step. by intros r1 M1. Qed.

Lemma decode_fields_safe {E} (field : list Z -> TCReader -> AvSchema -> E -> res (TCReader * E)) fs :
  (forall nm ft e, reads_on (fun r => field nm r ft e)) -> forall e, reads_on (fun r => decode_fields field fs r e).
Proof.
  intros Hf. induction fs as [|[nm ft] fs IH]; intros e r Hr; cbn [decode_fields]; [by apply moved_refl|]. destruct (tc_error r); [by apply moved_refl|].
  eapply safe_bind; [by apply Hf|]. intros [r1 e1] M1. eapply safe_mono; [apply IH, M1|]. intros [r2 e2] M2. by eapply moved_trans.
Qed.

Lemma if_safe {A P} (Q : A -> Prop) (b : {P} + {~ P}) x y : safe Q x -> safe Q y -> safe Q (if b then x else y).
Proof. by destruct b. Qed.

Lemma data_file_field_safe nm ft e : reads_on (fun r => data_file_field stack nm r ft e).
Proof.
  intros r Hr. unfold data_file_field. do 2 (apply if_safe; [by apply string_into_safe|]). apply if_safe; [by apply int32_into_safe|].
  do 2 (apply if_safe; [by apply long_into_safe|]). apply if_safe.
  { step. intros [[pt isnull] r1] M1. destruct (_ || _); [exact M1|]. eapply safe_bind; [apply av_decode_partition_safe, M1|]. intros [r2 o] M2. by eapply moved_trans. }
  apply if_safe; [eapply safe_bind; [by apply av_read_int_array_safe|]; by intros [v r1] [_ M1]|].
  do 2 (apply if_safe; [eapply safe_bind; [by apply av_read_bound_map_safe|]; by intros [v r1] M1|]). apply if_safe; [by apply string_into_safe|].
  do 2 (apply if_safe; [eapply safe_bind; [by apply av_read_long_safe|]; by intros [[v h] r1] M1|]). by apply skip_into_safe.
Qed.

Lemma av_decode_data_file_safe s e : reads_on (fun r => av_decode_data_file stack r s e).
Proof.
  intros r Hr. destruct s; cbn [av_decode_data_file]; try (by apply fail_moved). apply decode_fields_safe; [|done]. apply data_file_field_safe.
Qed.

Lemma entry_field_safe nm ft e : reads_on (fun r => entry_field stack nm r ft e).
Proof.
  intros r Hr. unfold entry_field. apply if_safe; [by apply int32_into_safe|]. apply if_safe; [eapply safe_bind; [by apply av_read_long_safe|]; by intros [[v h] r1] M1|].
  apply if_safe; [|by apply skip_into_safe]. step. intros [[dt isnull] r1] M1. destruct (_ || _); [exact M1|].
  eapply safe_mono; [apply av_decode_data_file_safe, M1|]. intros [r2 e2] M2. by eapply moved_trans.
Qed.

Lemma av_decode_entry_safe s e : reads_on (fun r => av_decode_entry stack r s e).
Proof.
  intros r Hr. destruct s; cbn [av_decode_entry]; try (by apply fail_moved). apply decode_fields_safe; [|done]. apply entry_field_safe.
Qed.

Lemma manifest_file_field_safe nm ft e : reads_on (fun r => manifest_file_field stack nm r ft e).
Proof.
  intros r Hr. unfold manifest_file_field. apply if_safe; [by apply string_into_safe|]. apply if_safe; [by apply long_into_safe|].
  apply if_safe; [eapply safe_bind; [by apply av_read_int32_safe|]; by intros [[v h] r1] [_ M1]|]. apply if_safe; [by apply int32_into_safe|].
  do 2 (apply if_safe; [by apply flagged_into_safe|]). apply if_safe; [by apply long_into_safe|]. do 3 (apply if_safe; [by apply cast32_into_safe|]).
  do 3 (apply if_safe; [by apply long_into_safe|]). by apply skip_into_safe.
Qed.

Lemma av_decode_manifest_file_safe s e : reads_on (fun r => av_decode_manifest_file stack r s e).
Proof.
  intros r Hr. destruct s; cbn [av_decode_manifest_file]; try (by apply fail_moved). apply decode_fields_safe; [|done]. apply manifest_file_field_safe.
Qed.

End Fields.

(** ** The container *)

(** What zlib documents of [inflate]: the output fits the space, input is only
    taken, and [Z_OK] means that there was some progress. *)
Class RawInflateLaws (RI : RawInflate) : Prop := {
  inflate_init_in inp zs : inflate_init inp = Some zs -> 0 <= z_avail_in zs <= zlen inp;
  inflate_fits zs n rc bs zs' : inflate zs n = (rc, bs, zs') -> 0 <= n -> zlen bs <= n /\ bytes_ok bs;
  inflate_takes zs n rc bs zs' : inflate zs n = (rc, bs, zs') -> 0 <= z_avail_in zs -> 0 <= z_avail_in zs' <= z_avail_in zs;
  inflate_progress zs n bs zs' : inflate zs n = (Z_OK, bs, zs') -> z_avail_in zs' < z_avail_in zs \/ bs <> []
}.

Section ContainerSafe.
Context `{N : Numerics} `{J : !JsonbIn} `{RI : RawInflate} `{RIL : !RawInflateLaws RI}.

Lemma av_schema_build_safe stack : forall tv, safe (fun _ => True) (av_schema_build stack tv).
Proof.
  induction stack as [|stack IH]; intros tv; cbn [av_schema_build]; [done|].
  assert (Hb : forall l, safe (fun _ => True) (build_branches (av_schema_build stack) l)).
  { induction l as [|e l IHl]; cbn [build_branches]; [done|]. eapply safe_bind; [apply IH|]. intros s _. eapply safe_bind; [exact IHl|]. done. }
  assert (Hr : forall l, safe (fun _ => True) (build_record (av_schema_build stack) l)).
  { induction l as [|e l IHl]; cbn [build_record]; [done|]. destruct (json_field e _) as [[]|]; try done. destruct (json_field e _); [|done].
    eapply safe_bind; [apply IH|]. intros t _. eapply safe_bind; [exact IHl|]. done. }
  assert (Hf : forall (f : AvSchema -> AvSchema) o, safe (fun _ => True) (match o with Some i => s ← av_schema_build stack i; Ok (f s) | None => av_schema_err end)).
  { intros f [i|]; [|done]. eapply safe_bind; [apply IH|]. done. }
  destruct tv; try done.
  - by destruct (av_prim_kind s).
  - eapply safe_bind; [apply Hb|]. done.
  - destruct (json_field _ _) as [[]|]; try done. destruct (av_prim_kind s) as [[]|]; try done.
    apply if_safe; [destruct (json_field _ _) as [[]|]; try done; eapply safe_bind; [apply Hr|]; done|].
    apply if_safe; [apply (Hf AV_ARRAY)|]. apply if_safe; [apply (Hf AV_MAP)|]. apply if_safe; [done|]. apply if_safe; [|done].
    destruct (json_field _ _) as [[]|]; try done. destruct (numeric_int4 n); [|done]. by destruct (_ <? 0).
Qed.

Lemma inflate_loop_safe : forall fuel zs cap out, bytes_ok out -> 0 <= z_avail_in zs -> zlen out <= cap -> 1 <= cap <= AV_MAX_BLOCK ->
  z_avail_in zs + (AV_MAX_BLOCK - zlen out) + (AV_MAX_BLOCK - cap) < Z.of_nat fuel -> safe (fun d => bytes_ok d /\ zlen d <= AV_MAX_BLOCK) (inflate_loop fuel zs cap out).
Proof using RIL.
  induction fuel as [|fuel IH]; intros zs cap out Hb Hin Hl Hc Hm; [lia|]. cbn [inflate_loop].
  destruct (inflate zs (cap - zlen out)) as [[rc bs] zs'] eqn:E. destruct (inflate_fits _ _ _ _ _ E ltac:(lia)) as [F1 F2]. pose proof (inflate_takes _ _ _ _ _ E Hin) as T.
  assert (Hb' : bytes_ok (out ++ bs)) by (by apply Forall_app_2). pose proof (zlen_nonneg bs).
  destruct (rc =? Z_STREAM_END); [cbn; split; [done|rewrite zlen_app; lia]|]. destruct (negb (rc =? Z_OK) && negb (rc =? Z_BUF_ERROR)) eqn:Erc; [done|]. rewrite zlen_app.
  destruct (Z.eqb_spec (cap - (zlen out + zlen bs)) 0) as [H0|H0].
  - destruct (Z.leb_spec AV_MAX_BLOCK cap); [done|]. apply IH; try done; rewrite ?zlen_app; lia.
  - destruct (Z.eqb_spec rc Z_BUF_ERROR); [done|]. destruct (Z.eqb_spec rc Z_OK) as [->|Hne]; [|done].
    apply IH; try done; rewrite ?zlen_app; [lia|lia|]. destruct (inflate_progress _ _ _ _ E) as [Hp|Hp]; [lia|]. destruct bs as [|x bs]; [done|]. rewrite zlen_cons in *. pose proof (zlen_nonneg bs). lia.
Qed.

Lemma av_inflate_safe inp : zlen inp < 2 ^ 62 -> safe (fun d => bytes_ok d /\ zlen d <= AV_MAX_BLOCK) (av_inflate inp).
Proof using RIL.
  intros Hl. unfold av_inflate. destruct (inflate_init inp) as [zs|] eqn:E; [|done]. pose proof (inflate_init_in _ _ E). pose proof (zlen_nonneg inp).
  cbv zeta. apply inflate_loop_safe; [constructor|lia|rewrite zlen_nil; unfold AV_MAX_BLOCK; lia|unfold AV_MAX_BLOCK; lia|]. rewrite zlen_nil, Z2Nat.id by (unfold AV_MAX_BLOCK; lia).
  unfold AV_MAX_BLOCK. lia.
Qed.

Lemma av_read_metadata_safe r : reader_ok r -> safe (fun '(r', _) => moved r r') (av_read_metadata r).
Proof.
  intros Hr. unfold av_read_metadata. eapply safe_mono; [apply (av_blocks_turns (fun _ => True)); [|done|done]|by intros [r1 a] [M1 _]].
  intros r0 a Hr0 _. unfold meta_entry. eapply safe_bind; [by apply av_cstring_safe|]. intros [key r1] [M1 _]. eapply safe_bind; [apply av_bytes_safe, M1|]. intros [vp r2] [M2 _].
  assert (M : moved r0 r2) by (by eapply moved_trans). destruct key as [key|]; [|by split]. destruct vp as [v|]; [|by split]. apply if_safe.
  - destruct (_ <? _); [cbn; split; [eapply moved_trans; [exact M|apply fail_moved, M]|done]|]. eapply safe_bind; [apply copy_string_safe|]. by intros s _.
  - apply if_safe; [|by split]. eapply safe_bind; [apply copy_string_safe|]. by intros s _.
Qed.

Section OcfSafe.
Context {E : Type} (elemsize : Z) (elem0 : E) (decode : TCReader -> AvSchema -> E -> res (TCReader * E)).
Context (Hdec : forall s e, reads_on (fun r => decode r s e)).

Lemma decode_elems_safe schema count : forall br out, reader_ok br -> safe (fun '(_, out') => zlen out' = zlen out + Z.of_nat count) (decode_elems elem0 decode count schema br out).
Proof using Hdec.
  induction count as [|count IH]; intros br out Hr; cbn [decode_elems]; [cbn; lia|]. eapply safe_bind; [by apply Hdec|]. intros [br1 e] M1.
  destruct (tc_error br1); [done|]. eapply safe_mono; [apply IH, M1|]. intros [br2 o] Ho. rewrite zlen_app, zlen_cons, zlen_nil in Ho. lia.
Qed.

Lemma read_blocks_safe schema deflate sync : forall fuel r total nalloc out, reader_ok r -> tc_len r - tc_pos r < Z.of_nat fuel -> zlen out <= AV_MAX_OBJECTS ->
  safe (fun out' => zlen out' <= AV_MAX_OBJECTS) (read_blocks elemsize elem0 decode fuel schema deflate sync r total nalloc out).
Proof using Hdec RIL.
  induction fuel as [|fuel IH]; intros r total nalloc out Hr Hf Ho; cbn [read_blocks]; (destruct (_ && _); [|done]).
  { destruct Hr as (_ & Hp & _). lia. }
  step. intros [count r1] [_ [M1 _]]. eapply safe_bind; [apply av_long_safe, M1|]. intros [bsize r2] [_ [M2 P2]].
  eapply safe_bind; [apply av_take_safe, M2|]. intros [[block|] r3] [M3 H3]; [|done]. destruct H3 as (Hb & Hl & He & ->).
  destruct (Z.ltb_spec count 0); [by rewrite orb_true_r|]. destruct (_ || _); [done|].
  assert (Hz : zlen block < 2 ^ 62). { destruct M3 as (_ & Q & (_ & Hp & Hlen)). cbn in Hp. destruct M2 as (_ & _ & (_ & Hp2 & _)). unfold tc_len in Hlen, Hp. cbn in Hlen, Hp. lia. }
  eapply (safe_bind (fun '(data, _) => bytes_ok data /\ zlen data < 2 ^ 62)).
  { destruct deflate; [|by split]. eapply safe_bind; [by apply av_inflate_safe|]. intros d [Hd Hdl]. destruct (_ <? _); [done|]. cbn. split; [done|]. unfold AV_MAX_BLOCK in Hdl. lia. }
  intros [data total'] [Hd Hdl]. cbv zeta. destruct (Z.ltb_spec AV_MAX_OBJECTS (zlen out + count)); [done|].
  eapply (safe_bind (fun _ => True)). { destruct (_ <? _); [|done]. step. done. }
  intros nalloc' _. eapply safe_bind; [apply decode_elems_safe|]. { split; [done|]. unfold tc_len. cbn. pose proof (zlen_nonneg data). lia. }
  intros [br out'] Hout. eapply safe_bind; [apply av_take_safe, M3|]. intros [[s|] r4] [M4 _]; [|done]. apply if_safe; [|done]. apply IH; [apply M4| |lia].
  destruct P2 as [?|P2]; [congruence|]. destruct M1 as (E1 & Q1 & _), M2 as (E2 & _ & _), M4 as (E4 & Q4 & _). unfold tc_len in *. cbn in E4, Q4. rewrite E4, E2, E1. pose proof (zlen_nonneg block). lia.
Qed.

Lemma av_read_ocf_safe stack buf : bytes_ok buf -> zlen buf < 2 ^ 62 -> safe (fun out => zlen out <= AV_MAX_OBJECTS) (av_read_ocf elemsize elem0 decode stack buf).
Proof using Hdec RIL.
  intros Hb Hl. unfold av_read_ocf. assert (Hr : reader_ok (mkReader buf 0 false)) by (split; [done|]; unfold tc_len; cbn; pose proof (zlen_nonneg buf); lia).
  step. intros [m r1] [M1 _]. apply if_safe; [|done]. eapply safe_bind; [apply av_read_metadata_safe, M1|]. intros [r2 [sj codec]] M2.
  eapply safe_bind; [apply av_take_safe, M2|]. intros [sync r3] [M3 _]. destruct sj as [sj|]; [|done]. destruct sync as [sync|]; [|done]. destruct (tc_error r3); [done|].
  destruct (bool_decide _); [done|]. destruct (jsonb_in sj) as [j|]; [|done]. eapply safe_bind; [apply av_schema_build_safe|]. intros schema _. destruct schema; try done.
  apply read_blocks_safe; [apply M3|unfold av_turns; lia|done].
Qed.

End OcfSafe.

(** C28.  Reading any bytes as an Iceberg manifest or a manifest list ends with an
    error or with at most 50000000 entries: whatever the header, the embedded
    schema, the codec and the blocks claim, no byte outside the file or a
    decompressed block is read and no count makes the reader loop. *)
Theorem avro_read_safe `{TE : TextEnv} stack buf : bytes_ok buf -> zlen buf < 2 ^ 62 ->
  safe (fun es => zlen es <= AV_MAX_OBJECTS) (PgColumnarAvroReadManifest stack buf) /\
  safe (fun fs => zlen fs <= AV_MAX_OBJECTS) (PgColumnarAvroReadManifestList stack buf).
Proof using RIL.
  intros Hb Hl. split; apply av_read_ocf_safe; try done; intros s e; [apply av_decode_entry_safe|apply av_decode_manifest_file_safe].
Qed.

End ContainerSafe.

(** ** An example *)

(** A stream that ends at once. *)
Definition ended_stream : RawInflate := {| z_stream := unit; inflate_init _ := Some tt; inflate _ _ := (Z_STREAM_END, [], tt); z_avail_in _ := 0 |}.

Lemma ended_stream_laws : RawInflateLaws ended_stream.
Proof.
  split; cbn.
  - intros inp zs _. pose proof (zlen_nonneg inp). lia.
  - intros zs n rc bs zs' [= <- <- <-] Hn. split; [done|constructor].
  - intros. lia.
  - intros zs n bs zs' [=].
Qed.

Definition plain_text : TextEnv := {| utf8_or_ascii := true; pg_verify_utf8 _ := true; float_to_shortest _ := [48]; double_to_shortest _ := [48] |}.

Definition no_json : JsonbIn (N := int_numerics) := {| jsonb_in _ := Some (JObject []) |}.

Lemma avro_read_safe_witness :
  safe (fun es => zlen es <= AV_MAX_OBJECTS) (PgColumnarAvroReadManifest (J := no_json) (RI := ended_stream) (TE := plain_text) 9 [79; 98; 106; 1; 255; 255; 255; 255; 255; 255; 255; 255; 255; 1]) /\
  safe (fun es => zlen es <= AV_MAX_OBJECTS) (PgColumnarAvroReadManifestList (J := no_json) (RI := ended_stream) (TE := plain_text) 9 [79; 98; 106; 1; 255; 255; 255; 255; 255; 255; 255; 255; 255; 1]).
Proof.
  apply (avro_read_safe (N := int_numerics) (J := no_json) (RI := ended_stream) (RIL := ended_stream_laws) (TE := plain_text)); [apply (bool_decide_unpack _); vm_compute; exact I|vm_compute; reflexivity].
Defined.
