(* ===== verification/AvroRead.v ===== *)
(** * Reading well-formed Avro files

    Avro values with their encoding (any split of arrays and maps into blocks, with
    or without block sizes), that skipping one passes exactly its bytes, and that a
    manifest is read as the projection of its records. *)

From S2P Require Import Prelude BitPack Codec Thrift ParquetCodec ParquetValues Jsonb Avro AvroSafe.

(** ** Values and their encoding *)

(** Arrays and maps come in blocks; [true] for a block with its byte size. *)
Inductive avval : Type :=
| VNull
| VBool (b : bool)
| VLong (v : Z)
| VFixed (bs : list Z)
| VBytes (bs : list Z)
| VRecord (vs : list avval)
| VArray (blocks : list (bool * list avval))
| VMap (blocks : list (bool * list (list Z * avval)))
| VUnion (idx : nat) (v : avval).

Definition put_long (v : Z) : list Z := PgColumnarThriftPutVarint (zz v).
Definition put_bytes (bs : list Z) : list Z := put_long (zlen bs) ++ bs.

Definition put_block (sized : bool) (items : list (list Z)) : list Z :=
  (if sized then put_long (- zlen items) ++ put_long (zlen (concat items)) else put_long (zlen items)) ++ concat items.

Fixpoint put_av (v : avval) : list Z :=
  match v with
  | VNull => []
  | VBool b => [if b then 1 else 0]
  | VLong v => put_long v
  | VFixed bs => bs
  | VBytes bs => put_bytes bs
  | VRecord vs => concat (map put_av vs)
  | VArray bl => concat (map (fun b => put_block b.1 (map put_av b.2)) bl) ++ put_long 0
  | VMap bl => concat (map (fun b => put_block b.1 (map (fun kv => put_bytes kv.1 ++ put_av kv.2) b.2)) bl) ++ put_long 0
  | VUnion i v => put_long (Z.of_nat i) ++ put_av v
  end.

(** A value of a schema that nests less deep than [k]. *)
Fixpoint fits_av (k : nat) (s : AvSchema) (v : avval) : Prop :=
  match k with
  | O => False
  | S k =>
      match s, v with
      | AV_NULL, VNull => True
      | AV_BOOL, VBool _ => True
      | (AV_INT | AV_LONG | AV_ENUM), VLong v => - 2 ^ 63 <= v < 2 ^ 63
      | AV_FLOAT, VFixed bs => zlen bs = 4
      | AV_DOUBLE, VFixed bs => zlen bs = 8
      | (AV_BYTES _ | AV_STRING), VBytes bs => True
      | AV_FIXED n _, VFixed bs => zlen bs = n
      | AV_RECORD fs, VRecord vs => Forall2 (fun f v => fits_av k f.2 v) fs vs
      | AV_UNION ts, VUnion i v => Z.of_nat i < 2 ^ 63 /\ exists t, ts !! i = Some t /\ fits_av k t v
      | AV_ARRAY t, VArray bl => Forall (fun b => 1 <= zlen b.2 <= AV_MAX_OBJECTS /\ Forall (fits_av k t) b.2) bl
      | AV_MAP t, VMap bl => Forall (fun b => 1 <= zlen b.2 <= AV_MAX_OBJECTS /\ Forall (fun kv => fits_av k t kv.2) b.2) bl
      | _, _ => False
      end
  end.

(** ** Reading the pieces *)

(** [takes bs f a]: the read function moves over exactly [bs] and returns [a]. *)
Definition takes {A} (bs : list Z) (f : TCReader -> res (TCReader * A)) (a : A) : Prop := forall r s, here r (bs ++ s) -> f r = Ok (adv r (zlen bs), a).

Lemma av_varint_eq fuel : forall r v shift w r', varint_loop fuel r v shift = Ok (w, r') -> tc_error r' = false -> av_varint_loop fuel r v shift = Ok (w, r').
Proof.
  induction fuel as [|fuel IH]; intros r v shift w r' H He; cbn [varint_loop av_varint_loop] in *; [done|].
  destruct (tc_pos r <? tc_len r); [|injection H as <- <-; done]. destruct (rd1 _ _) as [b| | |]; try done. rewrite bind_Ok in *. cbv zeta in *.
  destruct (_ =? 0); [done|]. destruct (63 <? _); [injection H as <- <-; done|]. by apply IH.
Qed.

Lemma reads_long v : - 2 ^ 63 <= v < 2 ^ 63 -> reads (put_long v) av_long v.
Proof.
  intros Hv r s Hr. pose proof (zz_range v 63 Hv). destruct (varint_read (zz v) r s ltac:(lia) Hr) as [E Hr']. split; [|done]. unfold av_long, av_varint.
  rewrite (av_varint_eq _ _ _ _ _ _ E) by (by apply here_error in Hr'). rewrite bind_Ok. change (Z.lxor _ _) with (unzigzag (zz v)). by rewrite unzigzag_zz.
Qed.

Lemma reads_take bs n : n = zlen bs -> reads bs (fun r => av_take r n) (Some bs).
Proof.
  intros -> r s Hr. split; [|by eapply here_adv]. unfold av_take. pose proof (here_left _ _ Hr) as (_ & Hl & _). rewrite zlen_app in Hl. pose proof (zlen_nonneg bs). pose proof (zlen_nonneg s).
  rewrite (here_error _ _ Hr), !(proj2 (Z.ltb_ge _ _)) by lia. cbn [orb]. by rewrite (here_rd _ _ _ Hr).
Qed.

Lemma reads_av_bytes bs : reads (put_bytes bs) av_bytes (Some bs).
Proof.
  intros r s Hr. unfold put_bytes in *. rewrite <- app_assoc in Hr. pose proof (here_left _ _ Hr) as (_ & _ & _ & Hl & _). rewrite !zlen_app in Hl.
  pose proof (zlen_nonneg bs). pose proof (zlen_nonneg s). pose proof (zlen_nonneg (put_long (zlen bs))).
  destruct (reads_long (zlen bs) ltac:(lia) r _ Hr) as [E Hr1]. destruct (reads_take bs (zlen bs) eq_refl _ _ Hr1) as [E2 Hr2].
  unfold av_bytes. rewrite E, bind_Ok, E2, adv_adv, zlen_app. split; [done|]. by rewrite adv_adv in Hr2.
Qed.

Lemma put_long_pos v : - 2 ^ 63 <= v < 2 ^ 63 -> 1 <= zlen (put_long v).
Proof. intros Hv. apply put_varint_pos. pose proof (zz_range v 63 Hv). lia. Qed.

(** ** Blocks *)

Section Blocks.
Context {A X : Type} (enc : X -> list Z) (step : A -> X -> A) (P : A -> X -> Prop) (body : TCReader -> A -> res (TCReader * A)).
Context (Hbody : forall a x, P a x -> takes (enc x) (fun r => body r a) (step a x)).

(** Every item may be added to what came before it. *)
Fixpoint steps_ok (a : A) (xs : list X) : Prop := match xs with [] => True | x :: xs => P a x /\ steps_ok (step a x) xs end.

Lemma times_takes xs : forall a r s, steps_ok a xs -> here r (concat (map enc xs) ++ s) ->
  av_times (length xs) body r a = Ok (adv r (zlen (concat (map enc xs))), foldl step a xs).
Proof using Hbody.
  induction xs as [|x xs IH]; intros a r s Hok Hr; cbn [length av_times map concat foldl]; [by rewrite zlen_nil, adv_0|].
  destruct Hok as [Hx Hok]. cbn [map concat] in Hr. rewrite <- app_assoc in Hr. rewrite (here_error _ _ Hr), (Hbody a x Hx r _ Hr), bind_Ok.
  rewrite (IH (step a x) (adv r (zlen (enc x))) s Hok); [by rewrite adv_adv, zlen_app|by eapply here_adv].
Qed.

Context (limit : Z) (room : A -> Z).

Fixpoint blocks_ok (a : A) (bl : list (bool * list X)) : Prop :=
  match bl with
  | [] => True
  | (_, xs) :: bl => 1 <= zlen xs <= limit /\ zlen xs <= room a /\ steps_ok a xs /\ blocks_ok (foldl step a xs) bl
  end.

Definition put_blocks (bl : list (bool * list X)) : list Z := concat (map (fun b => put_block b.1 (map enc b.2)) bl) ++ put_long 0.

Lemma block_count sized xs r s : 1 <= zlen xs <= limit -> limit < 2 ^ 62 -> forall a, zlen xs <= room a -> here r (put_block sized (map enc xs) ++ s) ->
  exists r', av_block limit (room a) r = Ok (zlen xs, r') /\ here r' (concat (map enc xs) ++ s) /\ adv r' (zlen (concat (map enc xs))) = adv r (zlen (put_block sized (map enc xs))) /\ 1 <= zlen (put_block sized (map enc xs)).
Proof using.
  intros Hx Hlim a Hroom Hr. unfold put_block in *. assert (El : zlen (map enc xs) = zlen xs) by (unfold zlen; by rewrite length_map). rewrite El in *.
  pose proof (here_left _ _ Hr) as (_ & _ & _ & Hl & _). rewrite !zlen_app in Hl. set (body0 := concat (map enc xs)) in *. pose proof (zlen_nonneg body0). pose proof (zlen_nonneg s). unfold av_block. destruct sized.
  - pose proof (put_long_pos (- zlen xs) ltac:(lia)). pose proof (zlen_nonneg (put_long (- zlen xs))). rewrite zlen_app in Hl. pose proof (zlen_nonneg (put_long (zlen body0))).
    rewrite <- !app_assoc in Hr. destruct (reads_long (- zlen xs) ltac:(lia) r _ Hr) as [-> R1]. rewrite bind_Ok.
    rewrite (proj2 (Z.eqb_neq _ 0)), (proj2 (Z.ltb_ge _ _)), (proj2 (Z.ltb_lt _ 0)) by lia. destruct (reads_long (zlen body0) ltac:(lia) _ _ R1) as [-> R2]. rewrite !bind_Ok, Z.opp_involutive.
    rewrite !(proj2 (Z.ltb_ge _ _)) by lia. cbn [orb]. eexists. split; [done|]. split; [done|]. rewrite !adv_adv, !zlen_app. split; [f_equal; lia|lia].
  - pose proof (put_long_pos (zlen xs) ltac:(lia)). rewrite <- !app_assoc in Hr. destruct (reads_long (zlen xs) ltac:(lia) r _ Hr) as [-> R1]. rewrite bind_Ok.
    rewrite (proj2 (Z.eqb_neq _ 0)), (proj2 (Z.ltb_ge _ _)), (proj2 (Z.ltb_ge _ 0)), bind_Ok by lia. rewrite !(proj2 (Z.ltb_ge _ _)) by lia. cbn [orb]. eexists. split; [done|]. split; [done|].
    rewrite !adv_adv, !zlen_app. split; [f_equal; lia|lia].
Qed.

Lemma blocks_takes (Hlim : limit < 2 ^ 62) bl : forall fuel a r s, blocks_ok a bl -> zlen (put_blocks bl) <= Z.of_nat fuel -> here r (put_blocks bl ++ s) ->
  av_blocks fuel limit room body r a = Ok (adv r (zlen (put_blocks bl)), foldl (fun a b => foldl step a b.2) a bl).
Proof using Hbody.
  unfold put_blocks. induction bl as [|[sized xs] bl IH]; intros fuel a r s Hok Hf Hr; cbn [map concat app foldl fst snd] in *.
  - pose proof (put_long_pos 0 ltac:(lia)). destruct fuel as [|fuel]; [lia|]. cbn [av_blocks]. rewrite (here_error _ _ Hr). unfold av_block.
    destruct (reads_long 0 ltac:(lia) r _ Hr) as [-> H1]. done.
  - destruct Hok as (H1 & H2 & H3 & H4). rewrite <- !app_assoc in Hr. destruct (block_count sized xs r _ H1 Hlim a H2 Hr) as (r1 & E1 & R1 & E2 & Hpos).
    destruct fuel as [|fuel]; [rewrite !zlen_app in Hf; pose proof (zlen_nonneg (concat (map (fun b => put_block b.1 (map enc b.2)) bl))); pose proof (zlen_nonneg (put_long 0)); lia|].
    cbn [av_blocks]. rewrite (here_error _ _ Hr), E1, bind_Ok, (proj2 (Z.eqb_neq _ _)) by lia. unfold zlen at 1. rewrite Nat2Z.id.
    rewrite (times_takes xs a r1 _ H3 R1), bind_Ok, E2. rewrite (IH fuel _ (adv r (zlen (put_block sized (map enc xs)))) s H4); [| |].
    + by rewrite adv_adv, <- zlen_app, app_assoc.
    + rewrite <- app_assoc, zlen_app in Hf. lia.
    + rewrite <- app_assoc. by eapply here_adv.
Qed.

Lemma turns_takes (Hlim : limit < 2 ^ 62) bl a r s : blocks_ok a bl -> here r (put_blocks bl ++ s) ->
  av_blocks (av_turns r) limit room body r a = Ok (adv r (zlen (put_blocks bl)), foldl (fun a b => foldl step a b.2) a bl).
Proof using Hbody.
  intros Hok Hr. apply (blocks_takes Hlim bl _ _ _ s Hok); [|done]. pose proof (here_left _ _ Hr) as (_ & Hl & Hp & _). rewrite zlen_app in Hl. pose proof (zlen_nonneg s).
  unfold av_turns. lia.
Qed.

End Blocks.

(** ** Skipping *)

(** What a body that keeps no state needs of the items. *)
Lemma steps_ok_unit {X} (P : X -> Prop) xs : Forall P xs -> steps_ok (fun (u : unit) _ => u) (fun _ x => P x) tt xs.
Proof. induction 1; by split. Qed.

Lemma fold_unit {X} (xs : list X) : foldl (fun (u : unit) _ => u) tt xs = tt.
Proof. by induction xs. Qed.

Lemma blocks_ok_unit {X} (P : X -> Prop) limit (bl : list (bool * list X)) :
  Forall (fun b => 1 <= zlen b.2 <= limit /\ Forall P b.2) bl -> blocks_ok (fun (u : unit) _ => u) (fun _ x => P x) limit (fun _ => limit) tt bl.
Proof.
  induction 1 as [|[sized xs] bl [Hl Hx] _ IH]; [done|]. cbn [blocks_ok fst snd] in *. split; [done|]. split; [lia|]. split; [by apply steps_ok_unit|]. by rewrite fold_unit.
Qed.

(** Skipping every item of the blocks passes over all of them. *)
Lemma passes_blocks {X} (enc : X -> list Z) (P : X -> Prop) (body : TCReader -> unit -> res (TCReader * unit)) (bl : list (bool * list X)) :
  (forall x, P x -> takes (enc x) (fun r => body r tt) tt) -> Forall (fun b => 1 <= zlen b.2 <= AV_MAX_OBJECTS /\ Forall P b.2) bl ->
  passes (put_blocks enc bl) (fun r => ' (r, _) ← av_blocks (av_turns r) AV_MAX_OBJECTS (fun _ => AV_MAX_OBJECTS) body r tt; Ok r).
Proof.
  intros Hb Hbl r s Hr.
  assert (Hbody : forall u x, P x -> takes (enc x) (fun r => body r u) ((fun (u : unit) _ => u) u x)) by (intros []; exact Hb).
  rewrite (turns_takes enc _ _ _ Hbody AV_MAX_OBJECTS (fun _ => AV_MAX_OBJECTS) eq_refl bl tt r s); [done|by apply blocks_ok_unit|done].
Qed.

Lemma passes_nil f : (forall r, tc_error r = false -> f r = Ok r) -> passes [] f.
Proof. intros Hf r s Hr. rewrite zlen_nil, adv_0. apply Hf. by apply here_error in Hr. Qed.

Lemma passes_ext bs f g : (forall r, tc_error r = false -> f r = g r) -> passes bs g -> passes bs f.
Proof. intros E Hg r s Hr. rewrite E by (by apply here_error in Hr). by apply (Hg r s). Qed.

Lemma passes_record skip fs vs : Forall2 (fun f v => passes (put_av v) (fun r => skip r f.2)) fs vs -> passes (concat (map put_av vs)) (skip_record skip fs).
Proof.
  induction 1 as [|[nm t] v fs vs Hf _ IH]; cbn [map concat skip_record]; [by apply passes_nil|].
  eapply passes_ext; [|exact (passes_seq _ _ _ _ Hf IH)]. cbn. by intros r ->.
Qed.

Lemma passes_union (skip : AvReader -> AvSchema -> res AvReader) ts i t v : Z.of_nat i < 2 ^ 63 -> ts !! i = Some t -> passes (put_av v) (fun r => skip r t) ->
  passes (put_long (Z.of_nat i) ++ put_av v) (fun r => ' (idx, r) ← av_long r; if tc_error r || (idx <? 0) || (zlen ts <=? idx) then Ok (fail r) else match ts !! Z.to_nat idx with Some t => skip r t | None => Oob end).
Proof.
  intros Hts Ht Hv r s Hr. apply lookup_lt_Some in Ht as Hi. rewrite <- app_assoc in Hr. destruct (reads_long (Z.of_nat i) ltac:(lia) r _ Hr) as [-> R1].
  rewrite bind_Ok, (here_error _ _ R1), (proj2 (Z.ltb_ge _ _)), (proj2 (Z.leb_gt _ _)) by (unfold zlen; lia). cbn [orb]. rewrite Nat2Z.id, Ht, (Hv _ _ R1). by rewrite adv_adv, zlen_app.
Qed.

Lemma av_skip_passes : forall k s v, fits_av k s v -> passes (put_av v) (fun r => av_skip k r s).
Proof.
  induction k as [|k IH]; [done|]. intros s v Hv.
  destruct s, v; try done; cbn [fits_av put_av] in Hv |- *; (eapply passes_ext; [intros r He; cbn [av_skip]; rewrite He; reflexivity|]).
  all: try (eapply passes_reads; first [by apply reads_long|by apply reads_take|by apply reads_av_bytes]).
  - by apply passes_nil.
  - apply passes_record. eapply Forall2_impl; [|exact Hv]. intros f v Hf. by apply IH.
  - apply (passes_blocks put_av (fits_av k s)); [|done]. intros v Hv1 r s1 Hr. by rewrite (IH _ _ Hv1 r s1 Hr).
  - apply (passes_blocks (fun kv => put_bytes kv.1 ++ put_av kv.2) (fun kv => fits_av k s kv.2)); [|done].
    intros [key v] Hkv r s1 Hr. cbn [fst snd] in *. rewrite <- app_assoc in Hr. destruct (reads_av_bytes key r _ Hr) as [-> R1].
    by rewrite bind_Ok, (IH _ _ Hkv _ _ R1), bind_Ok, adv_adv, zlen_app.
  - destruct Hv as (Hi & t & Ht & Hv). eapply passes_union; [done|done|by apply IH].
Qed.

(** ** Fields *)

(** The value behind a union. *)
Definition branch (s : AvSchema) (v : avval) : AvSchema * avval :=
  match s, v with
  | AV_UNION ts, VUnion i w => (default AV_NULL (ts !! i), w)
  | _, _ => (s, v)
  end.

(** An integer and whether there is one; a string. *)
Definition long_val (s : AvSchema) (v : avval) : Z * bool :=
  match branch s v with
  | ((AV_INT | AV_LONG), VLong x) => (x, true)
  | _ => (0, false)
  end.

Definition string_val (s : AvSchema) (v : avval) : option (list Z) :=
  match branch s v with
  | ((AV_STRING | AV_BYTES _), VBytes bs) => Some (pnstrdup bs)
  | _ => None
  end.

Lemma fits_mono : forall k s v, fits_av k s v -> fits_av (S k) s v.
Proof.
  induction k as [|k IH]; [done|]. intros s v Hv. destruct s, v; try done; cbn [fits_av] in Hv |- *.
  - eapply Forall2_impl; [|exact Hv]. intros f v Hf. by apply IH.
  - eapply Forall_weaken; [exact Hv|]. intros b [Hb Hf]. split; [done|]. eapply Forall_weaken; [exact Hf|]. by apply IH.
  - eapply Forall_weaken; [exact Hv|]. intros b [Hb Hf]. split; [done|]. eapply Forall_weaken; [exact Hf|]. intros kv. by apply IH.
  - destruct Hv as (Hi & t & Ht & Hv). split; [done|]. exists t. split; [done|]. by apply IH.
Qed.

(** Whether a union value takes its null branch. *)
Definition null_branch (s : AvSchema) (v : avval) : bool :=
  match s, (branch s v).1 with AV_UNION _, AV_NULL => true | _, _ => false end.

Lemma unwrap_reads k s v r s' : fits_av k s v -> here r (put_av v ++ s') ->
  exists r1, av_unwrap_union r s = Ok ((branch s v).1, null_branch s v, r1) /\ fits_av k (branch s v).1 (branch s v).2 /\
    here r1 (put_av (branch s v).2 ++ s') /\ adv r1 (zlen (put_av (branch s v).2)) = adv r (zlen (put_av v)).
Proof.
  intros Hv Hr. assert (Hk : exists k', k = S k') by (destruct k; [done|by eexists]). destruct Hk as [k' ->].
  destruct s; try (exists r; by destruct v). destruct v; try done. cbn [fits_av] in Hv. destruct Hv as (Hi & t & Ht & Hv). unfold null_branch.
  cbn [branch fst snd put_av av_unwrap_union] in *. rewrite Ht. cbn [default].
  apply lookup_lt_Some in Ht as Hl. rewrite <- app_assoc in Hr. destruct (reads_long (Z.of_nat idx) ltac:(lia) r _ Hr) as [-> R1].
  rewrite bind_Ok, (here_error _ _ R1), (proj2 (Z.ltb_ge _ _)), (proj2 (Z.leb_gt _ _)) by (unfold zlen; lia). cbn [orb]. rewrite Nat2Z.id, Ht. eexists. split; [done|]. split; [by apply fits_mono|].
  split; [done|]. by rewrite adv_adv, zlen_app.
Qed.

Lemma null_branch_inv k s v : fits_av k s v -> null_branch s v = true -> branch s v = (AV_NULL, VNull).
Proof.
  unfold null_branch. destruct k; [done|]. destruct s; try done. destruct v; cbn [branch fits_av]; try done. intros (_ & t & -> & Hv). cbn [default fst]. destruct t; try done.
  intros _. destruct k; [done|]. by destruct v.
Qed.

Lemma reads_read_long k s v : fits_av k s v -> reads (put_av v) (fun r => av_read_long k r s) (long_val s v).
Proof.
  intros Hv r s' Hr. split; [|by eapply here_adv]. destruct (unwrap_reads k s v r s' Hv Hr) as (r1 & E & Hb & R1 & Ea). unfold av_read_long, long_val. rewrite E, bind_Ok, (here_error _ _ R1), <- Ea. cbn [orb].
  destruct (null_branch s v) eqn:En. { apply (null_branch_inv k) in En; [|done]. rewrite En. cbn [fst snd put_av]. change (zlen _) with 0. by rewrite (adv_0 r1). }
  clear E Ea En Hr. destruct (branch s v) as [t w]. cbn [fst snd] in *.
  assert (Hskip : av_skip k r1 t = Ok (adv r1 (zlen (put_av w)))) by (by apply (av_skip_passes k t w Hb r1 s')).
  destruct t; try (rewrite Hskip; by destruct w); destruct k; try done; destruct w; try done; destruct (reads_long v0 Hb r1 s' R1) as [E _]; by rewrite E.
Qed.

Lemma reads_read_string k s v : fits_av k s v -> zlen (default [] (string_val s v)) < MaxAllocSize -> reads (put_av v) (fun r => av_read_string k r s) (string_val s v).
Proof.
  intros Hv Hl r s' Hr. split; [|by eapply here_adv]. revert Hl. destruct (unwrap_reads k s v r s' Hv Hr) as (r1 & E & Hb & R1 & Ea). unfold av_read_string, string_val. rewrite E, bind_Ok, (here_error _ _ R1), <- Ea. cbn [orb].
  destruct (null_branch s v) eqn:En. { apply (null_branch_inv k) in En; [|done]. rewrite En. cbn [fst snd put_av]. change (zlen _) with 0. by rewrite (adv_0 r1). }
  clear E Ea En Hr. destruct (branch s v) as [t w]. cbn [fst snd] in *.
  assert (Hskip : av_skip k r1 t = Ok (adv r1 (zlen (put_av w)))) by (by apply (av_skip_passes k t w Hb r1 s')).
  destruct t; try (rewrite Hskip; by destruct w); destruct k; try done; destruct w; try done; cbn [from_option id]; intros Hl; unfold av_cstring, copy_string; (destruct (reads_av_bytes bs r1 s' R1) as [E _]); rewrite E, !bind_Ok; rewrite palloc_Ok by lia; by rewrite !bind_Ok.
Qed.

(** ** Records *)

(** A field's name, schema and value. *)
Definition avfield : Type := list Z * AvSchema * avval.

Section Fields.
Context {E : Type} (read : list Z -> AvReader -> AvSchema -> E -> res (AvReader * E)) (step : E -> avfield -> E) (P : avfield -> Prop).
Context (Hread : forall e f, P f -> takes (put_av f.2) (fun r => read f.1.1 r f.1.2 e) (step e f)).

Lemma decode_fields_takes fvs : Forall P fvs -> forall e, takes (concat (map (fun f => put_av f.2) fvs)) (fun r => decode_fields read (map fst fvs) r e) (foldl step e fvs).
Proof using Hread.
  induction 1 as [|[[nm t] v] fvs Hf _ IH]; intros e r s Hr; cbn [map concat decode_fields foldl fst snd]; [by rewrite zlen_nil, adv_0|].
  cbn [map concat snd] in Hr. rewrite <- app_assoc in Hr. pose proof (Hread e _ Hf r _ Hr) as E1. cbn [fst snd] in E1. rewrite (here_error _ _ Hr), E1, bind_Ok, zlen_app, <- adv_adv.
  apply (IH _ _ s). by eapply here_adv.
Qed.

(** The field of a name. *)
Definition look (nm : list Z) (fvs : list avfield) : option (AvSchema * avval) := (fun f : avfield => (f.1.2, f.2)) <$> List.find (fun f : avfield => bool_decide (f.1.1 = nm)) fvs.

(** What a name sets stays until the end. *)
Lemma get_fields {V} (get : E -> V) (nm : list Z) (val : AvSchema -> avval -> V) :
  (forall e (f : avfield), get (step e f) = if decide (f.1.1 = nm) then val f.1.2 f.2 else get e) ->
  forall fvs, NoDup (map (fun f : avfield => f.1.1) fvs) -> forall e, get (foldl step e fvs) = match look nm fvs with Some (t, v) => val t v | None => get e end.
Proof using.
  intros Hget. induction fvs as [|[[n t] v] fvs IH]; [done|]. cbn [map fst snd foldl look]. intros [Hn Hd]%list.NoDup_cons e. rewrite IH by done. unfold look. cbn [List.find fst snd].
  case_bool_decide as Heq; cbn [fmap option_fmap option_map fst snd].
  - destruct (List.find _ fvs) as [[[n' t'] v']|] eqn:Ef.
    + apply List.find_some in Ef as [Hin Hb]. apply bool_decide_eq_true in Hb. cbn in Hb. contradict Hn. subst. apply list_elem_of_In. by apply (List.in_map (fun f : avfield => f.1.1)) in Hin.
    + cbn [fmap option_fmap option_map]. by rewrite Hget, decide_True.
  - destruct (List.find _ fvs) as [[[n' t'] v']|] eqn:Ef; cbn [fmap option_fmap option_map fst snd]; [done|]. by rewrite Hget, decide_False.
Qed.

End Fields.

Definition fld_long (fvs : list avfield) (nm : list Z) : Z * bool := match look nm fvs with Some (t, v) => long_val t v | None => (0, false) end.
Definition fld_string (fvs : list avfield) (nm : list Z) : option (list Z) := match look nm fvs with Some (t, v) => string_val t v | None => None end.

(** ** Manifest lists *)

(** The entry of a manifest list that a record's fields say. *)
Definition manifest_file_of (fvs : list avfield) : PgColumnarAvroManifestFile :=
  let long := fld_long fvs in
  mkManifestFile (fld_string fvs (str "manifest_path")) (long (str "manifest_length")).1 (long (str "partition_spec_id")) (long (str "content")).1
    (long (str "sequence_number")) (long (str "min_sequence_number")) (long (str "added_snapshot_id")).1
    (s32 (long (str "added_files_count")).1) (s32 (long (str "existing_files_count")).1) (s32 (long (str "deleted_files_count")).1)
    (long (str "added_rows_count")).1 (long (str "existing_rows_count")).1 (long (str "deleted_rows_count")).1.

Definition manifest_file_step (e : PgColumnarAvroManifestFile) (f : avfield) : PgColumnarAvroManifestFile :=
  let '(nm, t, v) := f in
  if decide (nm = str "manifest_path") then set_mf_manifest_path e (string_val t v)
  else if decide (nm = str "manifest_length") then set_mf_manifest_length e (long_val t v).1
  else if decide (nm = str "partition_spec_id") then set_mf_partition_spec_id e (long_val t v)
  else if decide (nm = str "content") then set_mf_content e (long_val t v).1
  else if decide (nm = str "sequence_number") then set_mf_sequence_number e (long_val t v)
  else if decide (nm = str "min_sequence_number") then set_mf_min_sequence_number e (long_val t v)
  else if decide (nm = str "added_snapshot_id") then set_mf_added_snapshot_id e (long_val t v).1
  else if decide (nm = str "added_files_count") then set_mf_added_files_count e (s32 (long_val t v).1)
  else if decide (nm = str "existing_files_count") then set_mf_existing_files_count e (s32 (long_val t v).1)
  else if decide (nm = str "deleted_files_count") then set_mf_deleted_files_count e (s32 (long_val t v).1)
  else if decide (nm = str "added_rows_count") then set_mf_added_rows_count e (long_val t v).1
  else if decide (nm = str "existing_rows_count") then set_mf_existing_rows_count e (long_val t v).1
  else if decide (nm = str "deleted_rows_count") then set_mf_deleted_rows_count e (long_val t v).1
  else e.

(** What the reader refuses: a path it cannot allocate, an [int] out of range. *)
Definition manifest_file_ok (k : nat) (f : avfield) : Prop :=
  let '(nm, t, v) := f in
  fits_av k t v /\ zlen (default [] (string_val t v)) < MaxAllocSize /\
  (nm = str "partition_spec_id" \/ nm = str "content" -> PG_INT32_MIN <= (long_val t v).1 <= PG_INT32_MAX).

Lemma long_into_takes {E} (set : E -> Z -> E) k t v e : fits_av k t v -> takes (put_av v) (fun r => long_into k set r t e) (set e (long_val t v).1).
Proof. intros Hv r s Hr. unfold long_into. destruct (reads_read_long k t v Hv r s Hr) as [-> _]. by destruct (long_val t v). Qed.

Lemma flagged_into_takes {E} (set : E -> Z * bool -> E) k t v e : fits_av k t v -> takes (put_av v) (fun r => flagged_into k set r t e) (set e (long_val t v)).
Proof. intros Hv r s Hr. unfold flagged_into. destruct (reads_read_long k t v Hv r s Hr) as [-> _]. by destruct (long_val t v). Qed.

Lemma cast32_into_takes {E} (set : E -> Z -> E) k t v e : fits_av k t v -> takes (put_av v) (fun r => cast32_into k set r t e) (set e (s32 (long_val t v).1)).
Proof. intros Hv r s Hr. unfold cast32_into. destruct (reads_read_long k t v Hv r s Hr) as [-> _]. by destruct (long_val t v). Qed.

Lemma string_into_takes {E} (set : E -> option (list Z) -> E) k t v e : fits_av k t v -> zlen (default [] (string_val t v)) < MaxAllocSize ->
  takes (put_av v) (fun r => string_into k set r t e) (set e (string_val t v)).
Proof. intros Hv Hl r s Hr. unfold string_into. by destruct (reads_read_string k t v Hv Hl r s Hr) as [-> _]. Qed.

Lemma reads_int32_field k t v : fits_av k t v -> PG_INT32_MIN <= (long_val t v).1 <= PG_INT32_MAX -> reads (put_av v) (fun r => av_read_int32_field k r t) (long_val t v).
Proof.
  intros Hv Hb r s Hr. unfold av_read_int32_field. destruct (reads_read_long k t v Hv r s Hr) as [-> R]. destruct (long_val t v) as [x have]. cbn [fst] in Hb.
  rewrite bind_Ok, !(proj2 (Z.ltb_ge _ _)) by lia. done.
Qed.

Lemma int32_into_takes {E} (set : E -> Z -> E) k t v e : fits_av k t v -> PG_INT32_MIN <= (long_val t v).1 <= PG_INT32_MAX ->
  takes (put_av v) (fun r => int32_into k set r t e) (set e (long_val t v).1).
Proof. intros Hv Hb r s Hr. unfold int32_into. destruct (reads_int32_field k t v Hv Hb r s Hr) as [-> _]. by destruct (long_val t v). Qed.

Lemma skip_takes {E} k t v (e : E) : fits_av k t v -> takes (put_av v) (fun r => r ← av_skip k r t; Ok (r, e)) e.
Proof. intros Hv r s Hr. by rewrite (av_skip_passes k t v Hv r s Hr). Qed.

Lemma manifest_file_takes k e f : manifest_file_ok k f -> takes (put_av f.2) (fun r => manifest_file_field k f.1.1 r f.1.2 e) (manifest_file_step e f).
Proof.
  destruct f as [[nm t] v]. intros (Hv & Hl & H32). cbn [fst snd]. unfold manifest_file_field, manifest_file_step.
  repeat case_decide; eauto using long_into_takes, flagged_into_takes, cast32_into_takes, string_into_takes, int32_into_takes, skip_takes.
  intros r s Hr. destruct (reads_int32_field k t v Hv ltac:(auto) r s Hr) as [-> _]. by destruct (long_val t v).
Qed.

Ltac by_field Hget name val :=
  rewrite (Hget _ _ name val);
  [unfold fld_long, fld_string; destruct (look _ _) as [[? ?]|]; reflexivity
  |intros e [[nm t] v]; cbv delta [manifest_file_step] beta iota; cbn [fst snd]; repeat case_decide; subst; try done; discriminate].

Lemma manifest_file_fold fvs : NoDup (map (fun f : avfield => f.1.1) fvs) -> foldl manifest_file_step manifest_file0 fvs = manifest_file_of fvs.
Proof.
  intros Hd. assert (Heta : forall m n : PgColumnarAvroManifestFile, mf_manifest_path m = mf_manifest_path n -> mf_manifest_length m = mf_manifest_length n -> mf_partition_spec_id m = mf_partition_spec_id n ->
    mf_content m = mf_content n -> mf_sequence_number m = mf_sequence_number n -> mf_min_sequence_number m = mf_min_sequence_number n -> mf_added_snapshot_id m = mf_added_snapshot_id n ->
    mf_added_files_count m = mf_added_files_count n -> mf_existing_files_count m = mf_existing_files_count n -> mf_deleted_files_count m = mf_deleted_files_count n ->
    mf_added_rows_count m = mf_added_rows_count n -> mf_existing_rows_count m = mf_existing_rows_count n -> mf_deleted_rows_count m = mf_deleted_rows_count n -> m = n).
  { intros [] []. cbn. intros. congruence. }
  assert (Hget : forall V (get : PgColumnarAvroManifestFile -> V) nm val, (forall e f, get (manifest_file_step e f) = if decide (f.1.1 = nm) then val f.1.2 f.2 else get e) ->
    get (foldl manifest_file_step manifest_file0 fvs) = match look nm fvs with Some (t, v) => val t v | None => get manifest_file0 end).
  { intros V get nm val Hs. by apply (get_fields _ get nm val). }
  apply Heta; cbn [manifest_file_of mf_manifest_path mf_manifest_length mf_partition_spec_id mf_content mf_sequence_number mf_min_sequence_number mf_added_snapshot_id mf_added_files_count mf_existing_files_count mf_deleted_files_count mf_added_rows_count mf_existing_rows_count mf_deleted_rows_count].
  - by_field Hget (str "manifest_path") string_val.
  - by_field Hget (str "manifest_length") (fun t v => (long_val t v).1).
  - by_field Hget (str "partition_spec_id") long_val.
  - by_field Hget (str "content") (fun t v => (long_val t v).1).
  - by_field Hget (str "sequence_number") long_val.
  - by_field Hget (str "min_sequence_number") long_val.
  - by_field Hget (str "added_snapshot_id") (fun t v => (long_val t v).1).
  - by_field Hget (str "added_files_count") (fun t v => s32 (long_val t v).1).
  - by_field Hget (str "existing_files_count") (fun t v => s32 (long_val t v).1).
  - by_field Hget (str "deleted_files_count") (fun t v => s32 (long_val t v).1).
  - by_field Hget (str "added_rows_count") (fun t v => (long_val t v).1).
  - by_field Hget (str "existing_rows_count") (fun t v => (long_val t v).1).
  - by_field Hget (str "deleted_rows_count") (fun t v => (long_val t v).1).
Qed.
