(* ===== verification/AvroFile.v ===== *)
(** * Avro container files

    The header, the blocks with or without deflate and their sync markers, and that
    a manifest list comes back as the projection of its records, whatever the split
    into blocks and whatever fields the writer added. *)

From S2P Require Import Prelude BitPack Codec Thrift ParquetCodec ParquetValues Jsonb Avro AvroSafe AvroRead.

(** ** Deflate *)

(** What zlib documents of [inflate] on a complete raw deflate stream (RFC 1951):
    every call with room for output delivers the next bytes of the data and either
    fills the room or reports, with all the data delivered, the end of the
    stream.  [deflated packed data] says that [packed] is such a stream of [data],
    and [inflating zs rest] that [zs] has [rest] left to deliver. *)
Class DeflateStreams (RI : RawInflate) : Type := {
  deflated : list Z -> list Z -> Prop;
  inflating : z_stream -> list Z -> Prop;
  inflate_starts packed data : deflated packed data -> exists zs, inflate_init packed = Some zs /\ inflating zs data;
  inflate_delivers zs n data rc bs zs' : inflating zs data -> 0 < n -> inflate zs n = (rc, bs, zs') ->
    exists rest, data = bs ++ rest /\ ((rc = Z_STREAM_END /\ rest = []) \/ (rc = Z_OK /\ zlen bs = n /\ inflating zs' rest))
}.

Section Deflate.
Context `{RI : RawInflate} `{DS : !DeflateStreams RI}.

Lemma inflate_loop_delivers fuel : forall zs cap out rest, inflating zs rest -> zlen out < cap <= AV_MAX_BLOCK -> zlen out + zlen rest < AV_MAX_BLOCK -> zlen rest < Z.of_nat fuel ->
  inflate_loop fuel zs cap out = Ok (out ++ rest).
Proof using DS.
  induction fuel as [|fuel IH]; intros zs cap out rest Hz Hc Hl Hf; [pose proof (zlen_nonneg rest); lia|]. cbn [inflate_loop]. destruct (inflate zs (cap - zlen out)) as [[rc bs] zs'] eqn:E.
  destruct (inflate_delivers zs (cap - zlen out) rest rc bs zs' Hz ltac:(lia) E) as (rest' & -> & [[-> ->]|(-> & Hbs & Hz')]); [by rewrite app_nil_r|]. rewrite zlen_app in Hl, Hf. pose proof (zlen_nonneg rest'). pose proof (zlen_nonneg out).
  cbn [Z.eqb Z_OK Z_STREAM_END negb andb]. rewrite zlen_app, Hbs. replace (cap - (zlen out + (cap - zlen out))) with 0 by lia. cbn [Z.eqb]. rewrite (proj2 (Z.leb_gt _ _)) by lia.
  rewrite (IH zs' _ (out ++ bs) rest'); [by rewrite app_assoc|done|..]; rewrite ?zlen_app; lia.
Qed.

(** A block that is a deflate stream of less than the limit inflates to its data. *)
Lemma av_inflate_deflated packed data : deflated packed data -> zlen data < AV_MAX_BLOCK -> av_inflate packed = Ok data.
Proof using DS.
  intros Hd Hl. destruct (inflate_starts _ _ Hd) as (zs & E & Hz). unfold av_inflate. rewrite E. pose proof (zlen_nonneg data). pose proof (zlen_nonneg packed).
  apply (inflate_loop_delivers _ zs _ [] data Hz); rewrite ?zlen_nil; [|lia|rewrite Z2Nat.id; unfold AV_MAX_BLOCK in *; lia]. unfold AV_MAX_BLOCK. lia.
Qed.

End Deflate.

(** ** Files *)

Section Container.
Context `{N : Numerics} `{J : !JsonbIn} `{RI : RawInflate} `{DS : !DeflateStreams RI}.

(** The last schema and the last codec of the header count. *)
Definition meta_step (a : option (list Z) * option (list Z)) (kv : list Z * list Z) : option (list Z) * option (list Z) :=
  if decide (pnstrdup kv.1 = str "avro.schema") then (Some (pnstrdup kv.2), a.2)
  else if decide (pnstrdup kv.1 = str "avro.codec") then (a.1, Some (pnstrdup kv.2))
  else a.

Definition put_meta (kv : list Z * list Z) : list Z := put_bytes kv.1 ++ put_bytes kv.2.

Definition meta_ok (kv : list Z * list Z) : Prop := zlen kv.1 < MaxAllocSize /\ zlen kv.2 <= AV_MAX_SCHEMA.

Lemma pnstrdup_le bs : zlen (pnstrdup bs) <= zlen bs.
Proof. induction bs as [|b bs IH]; [done|]. cbn [pnstrdup]. destruct (_ =? _); rewrite ?zlen_cons, ?zlen_nil; pose proof (zlen_nonneg bs); lia. Qed.

Lemma copy_string_Ok bs : zlen bs < MaxAllocSize -> copy_string bs = Ok (pnstrdup bs).
Proof. intros Hl. pose proof (pnstrdup_le bs). unfold copy_string. by rewrite palloc_Ok by lia. Qed.

Lemma meta_takes a kv : meta_ok kv -> takes (put_meta kv) (fun r => meta_entry r a) (meta_step a kv).
Proof using.
  destruct kv as [key v]. intros [Hk Hv] r s Hr. cbn [fst snd] in *. unfold put_meta in *. cbn [fst snd] in *. rewrite <- app_assoc in Hr.
  destruct (reads_av_bytes key r _ Hr) as [E1 R1]. destruct (reads_av_bytes v _ _ R1) as [E2 _]. unfold meta_entry, av_cstring. rewrite E1, bind_Ok, (copy_string_Ok key), !bind_Ok, E2, bind_Ok by done.
  rewrite adv_adv, zlen_app. unfold meta_step. cbn [fst snd]. rewrite (proj2 (Z.ltb_ge _ _) Hv). assert (zlen v < MaxAllocSize) by (revert Hv; unfold AV_MAX_SCHEMA, MaxAllocSize; lia).
  rewrite copy_string_Ok by done. repeat case_decide; done.
Qed.

Lemma meta_blocks_ok metas : Forall (fun b : bool * list (list Z * list Z) => 1 <= zlen b.2 <= AV_MAX_OBJECTS /\ Forall meta_ok b.2) metas ->
  forall a, blocks_ok meta_step (fun _ => meta_ok) AV_MAX_OBJECTS (fun _ => AV_MAX_OBJECTS) a metas.
Proof using.
  induction 1 as [|[sized kvs] metas [Hl Hk] _ IH]; intros a; [done|]. cbn [blocks_ok snd] in *. split; [done|]. split; [lia|]. split; [|apply IH].
  clear Hl. revert a. induction Hk as [|kv kvs Hkv _ IHk]; intros a; [done|]. split; [done|]. apply IHk.
Qed.

(** A block of a file: what is stored of it and its records. *)
Section Ocf.
Context {E : Type} (elemsize : Z) (elem0 : E) (decode : AvReader -> AvSchema -> E -> res (AvReader * E)) (schema : AvSchema) (deflate : bool) (sync : list Z).
Context {X : Type} (enc : X -> list Z) (val : X -> E) (P : X -> Prop) (Hdec : forall x, P x -> takes (enc x) (fun r => decode r schema elem0) (val x)).

Lemma decode_elems_takes xs : Forall P xs -> forall br s out, here br (concat (map enc xs) ++ s) ->
  decode_elems elem0 decode (length xs) schema br out = Ok (adv br (zlen (concat (map enc xs))), out ++ map val xs).
Proof using Hdec.
  induction 1 as [|x xs Hx _ IH]; intros br s out Hr; cbn [length decode_elems map concat]; [by rewrite zlen_nil, adv_0, app_nil_r|].
  cbn [map concat] in Hr. rewrite <- app_assoc in Hr. rewrite (Hdec x Hx br _ Hr), bind_Ok. pose proof (here_adv _ _ _ _ Hr eq_refl) as R1. rewrite (here_error _ _ R1).
  rewrite (IH _ s _ R1), adv_adv, zlen_app, <- app_assoc. done.
Qed.

Definition put_data (b : list Z * list X) : list Z := put_long (zlen b.2) ++ put_long (zlen b.1) ++ b.1 ++ sync.

(** The bytes of a block: the records themselves, or a deflate stream of them. *)
Definition stored (b : list Z * list X) : Prop := if deflate then deflated b.1 (concat (map enc b.2)) /\ zlen (concat (map enc b.2)) < AV_MAX_BLOCK else b.1 = concat (map enc b.2).

Lemma stored_data b total : stored b -> total + zlen (concat (map enc b.2)) <= AV_MAX_TOTAL -> exists total',
  (if deflate then d ← av_inflate b.1; if AV_MAX_TOTAL <? total + zlen d then Err "Avro manifest decompresses past the limit" else Ok (d, total + zlen d) else Ok (b.1, total)) = Ok (concat (map enc b.2), total') /\
  total <= total' <= total + zlen (concat (map enc b.2)).
Proof using.
  unfold stored. intros Hs Ht. pose proof (zlen_nonneg (concat (map enc b.2))). destruct deflate; [rewrite (av_inflate_deflated _ _ (proj1 Hs) (proj2 Hs))|rewrite Hs; eexists; split; [done|lia]]. rewrite bind_Ok, (proj2 (Z.ltb_ge _ _)) by lia. eexists. split; [done|lia].
Qed.

Definition data_size (bl : list (list Z * list X)) : Z := zlen (concat (map (fun b => concat (map enc b.2)) bl)).

Lemma read_blocks_takes bl : zlen sync = AV_SYNC_LEN -> Forall (fun b => stored b /\ bytes_ok (concat (map enc b.2)) /\ Forall P b.2) bl ->
  forall fuel r total nalloc out, here r (concat (map put_data bl)) -> zlen (concat (map put_data bl)) < Z.of_nat fuel -> 0 <= total -> total + data_size bl <= AV_MAX_TOTAL ->
    elemsize * Z.max (zlen out + zlen (concat (map snd bl))) 16 <= MaxAllocSize -> 0 <= elemsize -> zlen out + zlen (concat (map snd bl)) <= AV_MAX_OBJECTS ->
    read_blocks elemsize elem0 decode fuel schema deflate sync r total nalloc out = Ok (out ++ map val (concat (map snd bl))).
Proof using Hdec.
  intros Hsync. induction 1 as [|[packed xs] bl (Hs & Hb & Hx) _ IH]; intros fuel r total nalloc out Hr Hf H0 Ht Ha He Hn.
  { cbn [map concat] in *. pose proof (here_left _ _ Hr) as (_ & Hl & _). rewrite zlen_nil in Hl. rewrite app_nil_r. destruct fuel; cbn [read_blocks]; rewrite (proj2 (Z.ltb_ge _ _)) by lia; done. }
  unfold data_size in *. cbn [map concat snd fst] in *. rewrite map_app, zlen_app in *. unfold put_data at 1 in Hr. unfold put_data at 1 in Hf. cbn [fst snd] in *. rewrite <- !app_assoc in Hr. rewrite !zlen_app in Hf.
  set (rest := concat (map put_data bl)) in *. set (data := concat (map enc xs)) in *. pose proof (zlen_nonneg data). pose proof (zlen_nonneg rest). pose proof (zlen_nonneg packed). pose proof (zlen_nonneg xs).
  pose proof (zlen_nonneg (concat (map snd bl))). pose proof (zlen_nonneg out). pose proof (here_left _ _ Hr) as (_ & Hl & Hp & Hz & _). rewrite !zlen_app in Hz, Hl. rewrite zlen_app in Ht.
  pose proof (zlen_nonneg (put_long (zlen xs))). pose proof (zlen_nonneg (put_long (zlen packed))). pose proof (zlen_nonneg sync). pose proof (zlen_nonneg (concat (map (fun b => concat (map enc b.2)) bl))).
  destruct fuel as [|fuel]; [lia|]. cbn [read_blocks]. rewrite (here_error _ _ Hr), (proj2 (Z.ltb_lt _ _)) by (unfold AV_SYNC_LEN in *; lia). cbn [andb negb].
  destruct (reads_long (zlen xs) ltac:(unfold AV_MAX_OBJECTS in Hn; lia) r _ Hr) as [-> R1]. rewrite bind_Ok. destruct (reads_long (zlen packed) ltac:(lia) _ _ R1) as [-> R2]. rewrite bind_Ok.
  destruct (reads_take packed _ eq_refl _ _ R2) as [-> R3]. rewrite bind_Ok, (here_error _ _ R3), !(proj2 (Z.ltb_ge _ _)) by lia. cbn [orb].
  destruct (stored_data (packed, xs) total Hs ltac:(cbn [snd]; fold data; lia)) as (total' & Ed & Ht'). cbn [fst snd] in Ed, Ht'. fold data in Ht'. rewrite Ed, bind_Ok. cbv zeta.
  assert (Hpal : exists na, (if nalloc <? zlen out + zlen xs then _ ← palloc (elemsize * Z.max (zlen out + zlen xs) 16); Ok (Z.max (zlen out + zlen xs) 16) else Ok nalloc) = Ok na).
  { destruct (_ <? _); [|by eexists]. rewrite palloc_Ok by nia. by eexists. }
  destruct Hpal as [na ->]. rewrite bind_Ok. replace (Z.to_nat (zlen xs)) with (length xs) by (unfold zlen; lia).
  rewrite (decode_elems_takes xs Hx _ [] out) by (rewrite app_nil_r; split; [done|]; split; [done|]; split; [fold data; unfold AV_MAX_TOTAL in Ht; cbn [tc_buf]; lia|]; by exists []). rewrite bind_Ok.
  destruct (reads_take sync _ (eq_sym Hsync) _ _ R3) as [-> R4]. rewrite bind_Ok, decide_True by done.
  assert (Elen : zlen (out ++ map val xs) = zlen out + zlen xs) by (rewrite zlen_app; unfold zlen; by rewrite length_map).
  rewrite (IH fuel _ total' na (out ++ map val xs)); [by rewrite <- app_assoc|done|unfold AV_SYNC_LEN in *; lia|lia|lia| |done|]; rewrite Elen; [|lia].
  by replace (zlen out + zlen xs + zlen (concat (map snd bl))) with (zlen out + (zlen xs + zlen (concat (map snd bl)))) by lia.
Qed.

Definition put_ocf (metas : list (bool * list (list Z * list Z))) (bl : list (list Z * list X)) : list Z :=
  [79; 98; 106; 1] ++ put_blocks put_meta metas ++ sync ++ concat (map put_data bl).

Lemma av_read_ocf_takes stack metas bl sj codec j fs :
  zlen sync = AV_SYNC_LEN -> bytes_ok (put_ocf metas bl) -> zlen (put_ocf metas bl) < 2 ^ 62 ->
  Forall (fun b => 1 <= zlen b.2 <= AV_MAX_OBJECTS /\ Forall meta_ok b.2) metas -> foldl (fun a b => foldl meta_step a b.2) (None, None) metas = (Some sj, codec) ->
  codec = (if deflate then Some (str "deflate") else None) \/ (deflate = false /\ codec = Some (str "null")) ->
  jsonb_in sj = Some j -> av_schema_build stack (json_root j) = Ok schema -> schema = AV_RECORD fs ->
  Forall (fun b => stored b /\ bytes_ok (concat (map enc b.2)) /\ Forall P b.2) bl -> data_size bl <= AV_MAX_TOTAL ->
  elemsize * Z.max (zlen (concat (map snd bl))) 16 <= MaxAllocSize -> 0 <= elemsize -> zlen (concat (map snd bl)) <= AV_MAX_OBJECTS ->
  av_read_ocf elemsize elem0 decode stack (put_ocf metas bl) = Ok (map val (concat (map snd bl))).
Proof using Hdec.
  intros Hsync Hb Hl Hm Hmeta Hc Hj Hsch Hrec Hbl Ht Ha He Hn. unfold av_read_ocf.
  assert (Hr : here (mkReader (put_ocf metas bl) 0 false) (put_ocf metas bl)) by (split; [done|]; split; [done|]; split; [done|]; by exists []).
  revert Hr. generalize (mkReader (put_ocf metas bl) 0 false). clear Hb Hl. unfold put_ocf. intros r Hr.
  destruct (reads_take [79; 98; 106; 1] 4 eq_refl r _ Hr) as [-> R1]. rewrite bind_Ok, decide_True by done. unfold av_read_metadata.
  rewrite (turns_takes put_meta meta_step (fun _ => meta_ok) meta_entry meta_takes AV_MAX_OBJECTS (fun _ => AV_MAX_OBJECTS) eq_refl metas (None, None) _ _ (meta_blocks_ok metas Hm _) R1), bind_Ok, Hmeta.
  pose proof (here_adv _ _ _ _ R1 eq_refl) as R2. destruct (reads_take sync _ (eq_sym Hsync) _ _ R2) as [-> R3]. rewrite bind_Ok, (here_error _ _ R3).
  rewrite bool_decide_eq_false_2 by (destruct Hc as [->|[_ ->]]; [destruct deflate|]; intros (? & ? & ?); done). rewrite Hj, Hsch, bind_Ok, Hrec, <- Hrec.
  replace (bool_decide (codec = Some (str "deflate"))) with deflate by (symmetry; destruct Hc as [->|[-> ->]]; [destruct deflate|]; done).
  apply (read_blocks_takes bl Hsync Hbl); [done| |done|done|done|done|done]. pose proof (here_left _ _ R3) as (_ & Hl & Hp & _). unfold av_turns. lia.
Qed.

End Ocf.

(** The records of a manifest list with the fields [fs] and how they are stored. *)
Definition put_values (vs : list avval) : list Z := put_av (VRecord vs).

Lemma manifest_record_takes stack fs vs : NoDup (map fst fs) -> length fs = length vs /\ Forall (manifest_file_ok stack) (zip fs vs) ->
  takes (put_values vs) (fun r => av_decode_manifest_file stack r (AV_RECORD fs) manifest_file0) (manifest_file_of (zip fs vs)).
Proof using.
  intros Hd [Hl Hok] r s Hr. unfold av_decode_manifest_file, put_values in *. cbn [put_av] in *.
  pose proof (fst_zip fs vs ltac:(lia)) as Ef. pose proof (snd_zip fs vs ltac:(lia)) as Es.
  assert (Ec : concat (map (fun f : list Z * AvSchema * avval => put_av f.2) (zip fs vs)) = concat (map put_av vs)) by (rewrite <- Es at 2; rewrite map_map; done).
  pose proof (decode_fields_takes _ _ _ (manifest_file_takes stack) (zip fs vs) Hok manifest_file0 r s) as H. rewrite Ec, manifest_file_fold in H.
  - change (map fst (zip fs vs)) with ((zip fs vs).*1) in H. rewrite Ef in H. by apply H.
  - replace (map (fun f : avfield => f.1.1) (zip fs vs)) with (map fst fs); [done|]. rewrite <- Ef at 1. by rewrite map_map.
Qed.

(** C8.  Within the reader's limits, an Avro file whose embedded schema is a record
    with distinct field names is read as a manifest list with, for each record in
    order, the manifest the record's fields name: whatever other fields the writer
    added (of any type, nested), however the metadata and arrays are cut into
    blocks, and whether the blocks are plain or raw deflate streams, which zlib's
    [inflate] may deliver in any pieces. *)
Theorem manifest_list_read `{TE : TextEnv} stack sync deflate metas bl sj codec j fs :
  zlen sync = AV_SYNC_LEN -> bytes_ok (put_ocf sync metas bl) -> zlen (put_ocf sync metas bl) < 2 ^ 62 ->
  Forall (fun b => 1 <= zlen b.2 <= AV_MAX_OBJECTS /\ Forall meta_ok b.2) metas -> foldl (fun a b => foldl meta_step a b.2) (None, None) metas = (Some sj, codec) ->
  codec = (if deflate : bool then Some (str "deflate") else None) \/ (deflate = false /\ codec = Some (str "null")) ->
  jsonb_in sj = Some j -> av_schema_build stack (json_root j) = Ok (AV_RECORD fs) -> NoDup (map fst fs) ->
  Forall (fun b => stored deflate put_values b /\ bytes_ok (concat (map put_values b.2)) /\ Forall (fun vs => length fs = length vs /\ Forall (manifest_file_ok stack) (zip fs vs)) b.2) bl ->
  data_size put_values bl <= AV_MAX_TOTAL -> sizeof_manifest_file * Z.max (zlen (concat (map snd bl))) 16 <= MaxAllocSize ->
  PgColumnarAvroReadManifestList stack (put_ocf sync metas bl) = Ok (map (fun vs => manifest_file_of (zip fs vs)) (concat (map snd bl))).
Proof using.
  intros Hsync Hb Hl Hm Hmeta Hc Hj Hs Hd Hbl Ht Ha.
  eapply av_read_ocf_takes with (schema := AV_RECORD fs) (P := fun vs => length fs = length vs /\ Forall (manifest_file_ok stack) (zip fs vs)); try done; [intros vs Hvs; by apply manifest_record_takes|..].
  revert Ha. unfold sizeof_manifest_file, MaxAllocSize, AV_MAX_OBJECTS. lia.
Qed.

End Container.

(** ** An example *)

(** A schema with a field that the reader does not know. *)
Definition list_schema_json : @json int_numerics :=
  let f nm t := JObject [(str "name", JString nm); (str "type", t)] in
  JObject [(str "type", JString (str "record"));
    (str "fields", JArray [f (str "manifest_path") (JString (str "string")); f (str "partitions") (JObject [(str "type", JString (str "array")); (str "items", JString (str "long"))]);
      f (str "content") (JString (str "int")); f (str "sequence_number") (JArray [JString (str "null"); JString (str "long")])])].

Definition list_json : JsonbIn (N := int_numerics) := {| jsonb_in _ := Some list_schema_json |}.

Definition list_fields : list (list Z * AvSchema) :=
  [(str "manifest_path", AV_STRING); (str "partitions", AV_ARRAY AV_LONG); (str "content", AV_INT); (str "sequence_number", AV_UNION [AV_NULL; AV_LONG])].

Definition list_records : list (list avval) :=
  [[VBytes (str "a.avro"); VArray [(true, [VLong 7; VLong (-300)])]; VLong 1; VUnion 1 (VLong 12)]; [VBytes (str "b.avro"); VArray []; VLong 0; VUnion 0 VNull]].

(** The streams of one stored block of RFC 1951, which an inflater reads. *)
Definition put_stored (data : list Z) : list Z := [1; zlen data mod 256; zlen data / 256; 255 - zlen data mod 256; 255 - zlen data / 256] ++ data.

Definition stored_blocks : RawInflate := {|
  z_stream := list Z;
  inflate_init inp := match inp with
    | b :: l0 :: l1 :: n0 :: n1 :: data => if (b =? 1) && (l0 + 256 * l1 =? zlen data) && (n0 =? 255 - l0) && (n1 =? 255 - l1) then Some data else None
    | _ => None
    end;
  inflate zs n := if zlen zs <=? n then (Z_STREAM_END, zs, []) else (Z_OK, take (Z.to_nat n) zs, drop (Z.to_nat n) zs);
  z_avail_in := zlen
|}.

Definition stored_block (packed data : list Z) : Prop := packed = put_stored data /\ zlen data < 65536.

Lemma stored_block_starts packed data : stored_block packed data -> exists zs, @inflate_init stored_blocks packed = Some zs /\ zs = data.
Proof.
  intros [-> Hl]. exists data. split; [|done]. cbn. rewrite !Z.eqb_refl. pose proof (zlen_nonneg data). rewrite (proj2 (Z.eqb_eq (zlen data mod 256 + 256 * (zlen data / 256)) (zlen data))) by (pose proof (Z.div_mod (zlen data) 256); lia). done.
Qed.

Lemma stored_block_delivers (zs : list Z) n (data : list Z) rc bs (zs' : list Z) : zs = data -> 0 < n -> @inflate stored_blocks zs n = (rc, bs, zs') ->
  exists rest, data = bs ++ rest /\ ((rc = Z_STREAM_END /\ rest = []) \/ (rc = Z_OK /\ zlen bs = n /\ zs' = rest)).
Proof.
  intros -> Hn. cbn. destruct (Z.leb_spec (zlen data) n) as [H|H]; intros [= <- <- <-]; [exists []; rewrite app_nil_r; split; [done|by left]|]. exists (drop (Z.to_nat n) data). split; [by rewrite take_drop|]. right.
  split; [done|]. split; [|done]. unfold zlen in *. rewrite length_take. lia.
Qed.

Definition stored_block_streams : DeflateStreams stored_blocks := Build_DeflateStreams stored_blocks stored_block (@eq (list Z)) stored_block_starts stored_block_delivers.

Definition packed_blocks : list (list Z * list (list avval)) := [(put_stored (concat (map put_values list_records)), list_records)].

Definition packed_metas : list (bool * list (list Z * list Z)) := [(false, [(str "avro.schema", str "{}"); (str "avro.codec", str "deflate")])].

Lemma manifest_list_read_witness :
  PgColumnarAvroReadManifestList (J := list_json) (RI := stored_blocks) (TE := plain_text) 9 (put_ocf (replicate 16 5) packed_metas packed_blocks) =
  Ok [mkManifestFile (Some (str "a.avro")) 0 (0, false) 1 (12, true) (0, false) 0 0 0 0 0 0 0; mkManifestFile (Some (str "b.avro")) 0 (0, false) 0 (0, false) (0, false) 0 0 0 0 0 0 0].
Proof.
  refine (eq_trans (manifest_list_read (N := int_numerics) (J := list_json) (RI := stored_blocks) (DS := stored_block_streams) (TE := plain_text) 9 (replicate 16 5) true packed_metas packed_blocks (str "{}") (Some (str "deflate")) list_schema_json list_fields
    eq_refl _ _ _ eq_refl (or_introl eq_refl) eq_refl _ _ _ _ _) _).
  - apply (bool_decide_unpack _). vm_compute. exact I.
  - vm_compute. reflexivity.
  - repeat constructor; vm_compute; try discriminate; reflexivity.
  - vm_compute. reflexivity.
  - apply (bool_decide_unpack _). vm_compute. exact I.
  - constructor; [|constructor]. split; [split; [split; [reflexivity|vm_compute; reflexivity]|vm_compute; reflexivity]|]. split; [apply (bool_decide_unpack _); vm_compute; exact I|].
    repeat constructor; try (vm_compute; discriminate); try (vm_compute; reflexivity); (eexists; split; [reflexivity|cbn; lia || exact I]).
  - vm_compute. discriminate.
  - vm_compute. discriminate.
  - vm_compute. reflexivity.
Defined.
