(* ===== verification/IcebergPath.v ===== *)
(** * Paths of an Iceberg table

    [columnar_objstore.c]'s URL tests and the path functions of
    [columnar_iceberg.c]: schemes, equality of recorded paths, and the boundary that
    keeps a path recorded in untrusted metadata under the table's location
    ([ice_rebase], [ice_open_path]).  [canonicalize_path] of the server and
    [realpath] of the system are parameters.  A string is its bytes without the
    terminating zero. *)

From stdpp Require Import relations.
From S2P Require Import Prelude Jsonb.

Definition ch_slash : Z := 47.
Definition ch_dot : Z := 46.
Definition ch_pct : Z := 37.

(** [strncmp(s, prefix, strlen(prefix)) == 0] and [pg_strncasecmp] on an ASCII
    prefix in lower case. *)
Fixpoint starts (prefix s : list Z) : bool :=
  match prefix, s with
  | [], _ => true
  | p :: prefix, c :: s => (p =? c) && starts prefix s
  | _ :: _, [] => false
  end.

Definition pg_tolower (c : Z) : Z := if (65 <=? c) && (c <=? 90) then c + 32 else c.

Definition starts_nocase (prefix s : list Z) : bool := starts prefix (map pg_tolower s).

(** ** Schemes *)

Definition PgColumnarPathIsRemote (path : list Z) : bool :=
  existsb (fun scheme => starts_nocase scheme path) [str "s3://"; str "gs://"; str "az://"; str "https://"; str "http://"].

Definition PgColumnarPathIsS3Alias (path : list Z) : bool := starts_nocase (str "s3a://") path || starts_nocase (str "s3n://") path.

Definition PgColumnarS3Alias (path : list Z) : list Z := if PgColumnarPathIsS3Alias path then str "s3://" ++ drop 6 path else path.

Definition ice_s3_alias (path : list Z) : list Z := PgColumnarS3Alias path.

Definition ice_strip_scheme (path : list Z) : list Z := if starts (str "file://") path then drop 7 path else ice_s3_alias path.

(** The rest of a path and whether its scheme is one of the names of S3. *)
Definition ice_path_tail (path : list Z) : list Z * bool :=
  if starts (str "file://") path then (drop 7 path, false)
  else if starts_nocase (str "s3a://") path || starts_nocase (str "s3n://") path then (drop 6 path, true)
  else if starts (str "s3://") path then (drop 5 path, true)
  else (path, false).

Definition ice_path_eq (a b : list Z) : bool :=
  let '(at_, as3) := ice_path_tail a in
  let '(bt, bs3) := ice_path_tail b in
  Bool.eqb as3 bs3 && bool_decide (at_ = bt).

(** ** Directories *)

(** What lies before the last slash, [None] without one. *)
Fixpoint before_last_slash (path : list Z) : option (list Z) :=
  match path with
  | [] => None
  | c :: path =>
      match before_last_slash path with
      | Some d => Some (c :: d)
      | None => if c =? ch_slash then Some [] else None
      end
  end.

Definition ice_dirname (path : list Z) : list Z :=
  match before_last_slash path with
  | None => [ch_dot]
  | Some [] => [ch_slash]
  | Some d => d
  end.

Definition ice_actual_location (metadata_path : list Z) : list Z := ice_dirname (ice_dirname (ice_s3_alias metadata_path)).

(** ** Parent segments *)

(** [p[0] == '.' && p[1] == '.' && (p[2] == '\0' || p[2] == '/')] *)
Definition dotdot_at (p : list Z) : bool :=
  match p with
  | [a; b] => (a =? ch_dot) && (b =? ch_dot)
  | a :: b :: d :: _ => (a =? ch_dot) && (b =? ch_dot) && (d =? ch_slash)
  | _ => false
  end.

(** The walk of [ice_has_dotdot]; [at_] is [p == s || p[-1] == '/']. *)
Fixpoint dotdot_from (at_ : bool) (p : list Z) : bool :=
  match p with
  | [] => false
  | c :: rest => (at_ && dotdot_at p) || dotdot_from (c =? ch_slash) rest
  end.

Definition ice_has_dotdot (s : list Z) : bool := dotdot_from true s.

Definition ice_hexval (c : Z) : option Z :=
  if (48 <=? c) && (c <=? 57) then Some (c - 48)
  else if (97 <=? c) && (c <=? 102) then Some (c - 97 + 10)
  else if (65 <=? c) && (c <=? 70) then Some (c - 65 + 10)
  else None.

(** The byte a string starts with an escape of. *)
Definition escape_at (p : list Z) : option Z :=
  match p with
  | c :: h :: l :: _ =>
      if c =? ch_pct then
        match ice_hexval h, ice_hexval l with
        | Some hi, Some lo => Some (Z.lor (Z.shiftl hi 4) lo)
        | _, _ => None
        end
      else None
  | _ => None
  end.

(** The decoded string, [*changed], and whether a zero byte was decoded. *)
Fixpoint decode_loop (skip : nat) (s : list Z) : list Z * bool * bool :=
  match s with
  | [] => ([], false, false)
  | c :: rest =>
      match skip with
      | S skip => decode_loop skip rest
      | O =>
          match escape_at s with
          | Some v => let '(out, _, nul) := decode_loop 2 rest in (v :: out, true, (v =? 0) || nul)
          | None => let '(out, changed, nul) := decode_loop 0 rest in (c :: out, changed, nul)
          end
      end
  end.

Definition ice_percent_decode_once (s : list Z) : list Z * bool * bool := decode_loop 0 s.

(** A pass that changes the string shortens it. *)
Fixpoint encoded_loop (fuel : nat) (cur : list Z) : res bool :=
  match fuel with
  | O => Fuel
  | S fuel =>
      let '(cur, changed, sawnul) := ice_percent_decode_once cur in
      if sawnul then Ok true
      else if negb changed then Ok false
      else if ice_has_dotdot cur then Ok true
      else encoded_loop fuel cur
  end.

Definition ice_has_encoded_dotdot (s : list Z) : res bool := encoded_loop (S (length s)) s.

(** ** The boundary *)

Class PathEnv : Type := { canonicalize_path : list Z -> list Z; realpath : list Z -> option (list Z) }.

(** [while (rlen > 1 && recorded_root[rlen - 1] == '/') rlen--] *)
Fixpoint strip_slashes (rev_root : list Z) : list Z :=
  match rev_root with
  | c :: (_ :: _) as rest => if c =? ch_slash then strip_slashes rest else rev_root
  | _ => rev_root
  end.

(** The test [strncmp(p, root, len) != 0 || (p[len] != '\0' && p[len] != '/')],
    negated. *)
Definition under (root p : list Z) : bool :=
  starts root p && match drop (length root) p with [] => true | c :: _ => c =? ch_slash end.

Section Boundary.
Context `{PE : PathEnv}.

Definition ice_rebase (recorded_root actual_root : list Z) (recorded_path : option (list Z)) : res (list Z) :=
  match recorded_path with
  | None => Err "iceberg: a path is null"
  | Some recorded_path =>
      let p := ice_strip_scheme recorded_path in
      let root := rev (strip_slashes (rev recorded_root)) in
      if negb (under root p) then Err "iceberg: path is not under the table location"
      else
        let rest := drop (length root) p in
        let cand := actual_root ++ rest in
        if PgColumnarPathIsRemote actual_root then
          enc ← (if ice_has_dotdot rest then Ok true else ice_has_encoded_dotdot rest);
          if enc : bool then Err "iceberg: path escapes the table location" else Ok cand
        else
          let cand := canonicalize_path cand in
          if negb (under actual_root cand) then Err "iceberg: path escapes the table location" else Ok cand
  end.

Definition ice_open_path (recorded_root actual_root : list Z) (recorded_path : option (list Z)) : res (list Z) :=
  cand ← ice_rebase recorded_root actual_root recorded_path;
  if PgColumnarPathIsRemote actual_root then Ok cand
  else
    match realpath cand with
    | None => Err "iceberg: could not resolve"
    | Some real => if negb (under actual_root real) then Err "iceberg: path resolves outside the table location" else Ok real
    end.

End Boundary.

(** ** Segments *)

Fixpoint segments (s : list Z) : list (list Z) :=
  match s with
  | [] => [[]]
  | c :: s =>
      if c =? ch_slash then [] :: segments s
      else match segments s with
           | h :: t => (c :: h) :: t
           | [] => [[c]]
           end
  end.

Definition dotdot : list Z := [ch_dot; ch_dot].

Lemma segments_cons s : exists h t, segments s = h :: t.
Proof. induction s as [|c s (h & t & E)]; cbn [segments]; [by eexists _, _|]. destruct (_ =? _); [by eexists _, _|]. rewrite E. by eexists _, _. Qed.

(** The first segment is [".."] exactly when the test at a segment's start says so. *)
Lemma head_dotdot p : dotdot_at p = true <-> hd [] (segments p) = dotdot.
Proof.
  unfold dotdot_at, dotdot, ch_dot. destruct p as [|a [|b [|d p]]]; cbn [segments hd]; [done|by destruct (_ =? _)| |]; rewrite ?andb_true_iff, ?Z.eqb_eq.
  - destruct (Z.eqb_spec a ch_slash) as [->|]; [split; [intros [[=] _]|intros [=]]|]. destruct (Z.eqb_spec b ch_slash) as [->|]; cbn [hd]; split; [intros [_ [=]]|intros [=]|intros [-> ->]; done|intros [= -> ->]; done].
  - destruct (segments_cons p) as (h & t & Ep). destruct (Z.eqb_spec a ch_slash) as [->|]; [split; [intros [[[=] _] _]|intros [=]]|]. destruct (Z.eqb_spec b ch_slash) as [->|]; cbn [hd]; [split; [intros [[_ [=]] _]|intros [=]]|].
    destruct (Z.eqb_spec d ch_slash) as [->|]; rewrite ?Ep; cbn [hd]; split; [intros [[-> ->] _]; done|intros [= -> ->]; done|by intros [_ ?]|by intros [=]].
Qed.

Lemma dotdot_from_spec p : (dotdot_from true p = true <-> dotdot ∈ segments p) /\ (dotdot_from false p = true <-> dotdot ∈ tl (segments p)).
Proof.
  induction p as [|c p [IHt IHf]]; [split; cbn; split; try done; [by intros [[=]|?%not_elem_of_nil]%elem_of_cons|by intros ?%not_elem_of_nil]|].
  assert (Hrec : dotdot_from (c =? ch_slash) p = true <-> dotdot ∈ tl (segments (c :: p))).
  { cbn [segments]. destruct (c =? ch_slash); cbn [tl]; [exact IHt|]. destruct (segments_cons p) as (h & t & E). rewrite E in *. exact IHf. }
  cbn [dotdot_from andb orb]. split; [|exact Hrec]. rewrite orb_true_iff, Hrec, head_dotdot.
  destruct (segments_cons (c :: p)) as (h & t & E). rewrite E. cbn [hd tl]. rewrite elem_of_cons. intuition congruence.
Qed.

Lemma has_dotdot_spec s : ice_has_dotdot s = true <-> dotdot ∈ segments s.
Proof. apply dotdot_from_spec. Qed.

(** ** Decoding *)

(** Percent-decoding as RFC 3986 has it: a percent sign and two hexadecimal
    digits, in either case, stand for a byte; everything else stands for itself. *)
Definition hex_digit (c n : Z) : Prop := exists k, n = Z.of_nat k /\ (str "0123456789ABCDEF" !! k = Some c \/ str "0123456789abcdef" !! k = Some c).

Definition escapes (s : list Z) (v : Z) (rest : list Z) : Prop := exists h l hi lo, hex_digit h hi /\ hex_digit l lo /\ s = 37 :: h :: l :: rest /\ v = 16 * hi + lo.

Inductive pct_decodes : list Z -> list Z -> Prop :=
| pct_nil : pct_decodes [] []
| pct_escape s v rest t : escapes s v rest -> pct_decodes rest t -> pct_decodes s (v :: t)
| pct_plain c s t : (forall v rest, ~ escapes (c :: s) v rest) -> pct_decodes s t -> pct_decodes (c :: s) (c :: t).

(** What a server that decodes any number of times may see: a parent segment or
    a zero byte. *)
Definition unsafe_key (s : list Z) : Prop := exists t, rtc pct_decodes s t /\ (dotdot ∈ segments t \/ 0 ∈ t).

Lemma hexval_digit c n : ice_hexval c = Some n <-> hex_digit c n.
Proof.
  split.
  - unfold ice_hexval. intros E. assert (Hc : exists k, c = Z.of_nat k /\ (k < 103)%nat) by (exists (Z.to_nat c); destruct (_ && _) eqn:E1; [|destruct ((97 <=? c) && _) eqn:E2; [|destruct ((65 <=? c) && _) eqn:E3; [|done]]]; lia).
    destruct Hc as (k & -> & Hk). do 103 (destruct k as [|k]; [vm_compute in E; first [discriminate E|injection E as <-; match goal with |- hex_digit _ ?m => exists (Z.to_nat m) end; split; [reflexivity|vm_compute; first [left; reflexivity|right; reflexivity]]]|]). lia.
  - intros (k & -> & H). do 16 (destruct k as [|k]; [destruct H as [H|H]; vm_compute in H; injection H as <-; reflexivity|]). destruct H as [H|H]; vm_compute in H; by destruct k.
Qed.

Lemma hex_digit_range c n : hex_digit c n -> 0 <= n < 16.
Proof. intros (k & -> & H). assert (k < 16)%nat by (destruct H as [H%lookup_lt_Some|H%lookup_lt_Some]; exact H). lia. Qed.

Lemma escape_at_spec s v : escape_at s = Some v <-> exists rest, escapes s v rest.
Proof.
  assert (Hv : forall hi lo, 0 <= hi < 16 -> 0 <= lo < 16 -> Z.lor (Z.shiftl hi 4) lo = 16 * hi + lo).
  { intros hi lo Hhi Hlo. rewrite Z.shiftl_mul_pow2 by lia. pose proof (Z.add_lor_land (hi * 2 ^ 4) lo) as E. assert (E0 : Z.land (hi * 2 ^ 4) lo = 0); [|lia]. clear E. apply Z.bits_inj'. intros n Hn. rewrite Z.land_spec, Z.bits_0.
    destruct (Z.lt_ge_cases n 4); [by rewrite Z.mul_pow2_bits_low|]. rewrite (Z.bits_above_log2 lo), andb_false_r; [done|lia|]. destruct (Z.eq_dec lo 0) as [->|]; [cbn; lia|]. apply Z.log2_lt_pow2; [lia|]. assert (2 ^ 4 <= 2 ^ n) by (apply Z.pow_le_mono_r; lia). lia. }
  split.
  - destruct s as [|c [|h [|l s]]]; try done. cbn [escape_at]. destruct (Z.eqb_spec c ch_pct) as [->|]; [|done]. destruct (ice_hexval h) as [hi|] eqn:Eh; [|done]. destruct (ice_hexval l) as [lo|] eqn:El; [|done]. intros [= <-].
    apply hexval_digit in Eh, El. exists s, h, l, hi, lo. split; [done|]. split; [done|]. split; [done|]. apply Hv; by eapply hex_digit_range.
  - intros (rest & h & l & hi & lo & Hh & Hl & -> & ->). cbn [escape_at]. rewrite (proj2 (hexval_digit _ _) Hh), (proj2 (hexval_digit _ _) Hl). cbn. f_equal. apply Hv; by eapply hex_digit_range.
Qed.

(** One pass of the code's decoder. *)
Definition decoded (s : list Z) : list Z := (ice_percent_decode_once s).1.1.

Lemma decoded_nil : decoded [] = [].
Proof. done. Qed.

Lemma decode_skip2 a b s : (decode_loop 2 (a :: b :: s)).1.1 = decoded s.
Proof. done. Qed.

Lemma decoded_escape s v rest : escapes s v rest -> decoded s = v :: decoded rest.
Proof.
  intros He. assert (Ea : escape_at s = Some v) by (apply escape_at_spec; by exists rest). destruct He as (h & l & hi & lo & _ & _ & -> & _). unfold decoded at 1, ice_percent_decode_once. cbn [decode_loop]. rewrite Ea.
  pose proof (decode_skip2 h l rest) as E. cbn [decode_loop] in *. destruct (decode_loop 0 rest) as [[o b] n]. cbn [fst] in *. by rewrite <- E.
Qed.

Lemma decoded_plain c s : (forall v rest, ~ escapes (c :: s) v rest) -> decoded (c :: s) = c :: decoded s.
Proof.
  intros Hn. unfold decoded, ice_percent_decode_once. cbn [decode_loop]. destruct (escape_at (c :: s)) as [v|] eqn:E; [apply escape_at_spec in E as [rest E]; by apply Hn in E|]. by destruct (decode_loop 0 s) as [[o b] n].
Qed.

Lemma pct_decodes_spec s t : pct_decodes s t <-> t = decoded s.
Proof.
  split; [induction 1 as [|s v rest t He _ ->|c s t Hn _ ->]; [done|by rewrite (decoded_escape _ _ _ He)|by rewrite decoded_plain]|]. intros ->.
  induction s as [s IH] using (induction_ltof1 _ (@length Z)); unfold ltof in IH. destruct s as [|c s]; [constructor|]. destruct (escape_at (c :: s)) as [v|] eqn:E.
  - apply escape_at_spec in E as [rest E]. rewrite (decoded_escape _ _ _ E). apply (pct_escape _ v rest); [done|]. apply IH. destruct E as (h & l & _ & _ & _ & _ & -> & _). cbn. lia.
  - assert (Hn : forall v rest, ~ escapes (c :: s) v rest). { intros v rest He. assert (escape_at (c :: s) = Some v) by (apply escape_at_spec; by exists rest). congruence. }
    rewrite decoded_plain by done. constructor; [done|]. apply IH. cbn. lia.
Qed.

Lemma decode_loop_spec s : forall skip out changed nul, decode_loop skip s = (out, changed, nul) -> Z.of_nat skip <= zlen s ->
  zlen out + Z.of_nat skip <= zlen s /\ (changed = true -> zlen out + Z.of_nat skip < zlen s) /\ (changed = false -> out = drop skip s /\ nul = false) /\ (nul = true -> 0 ∈ out) /\ (0 ∉ s -> nul = false -> 0 ∉ out).
Proof.
  induction s as [|c s IH]; intros skip out changed nul E Hs.
  { cbn in E. injection E as <- <- <-. rewrite zlen_nil in *. split; [lia|]. split; [done|]. split; [by rewrite drop_nil|]. split; [done|]. intros _ _. apply not_elem_of_nil. }
  pose proof (zlen_nonneg s). rewrite zlen_cons in *. cbn [decode_loop] in E. destruct skip as [|skip].
  - destruct (escape_at (c :: s)) as [v|] eqn:Ev.
    + destruct (decode_loop 2 s) as [[out' ch'] nul'] eqn:E2. injection E as <- <- <-.
      assert (Hl : 2 <= zlen s). { destruct s as [|h [|l s]]; try done. rewrite !zlen_cons. pose proof (zlen_nonneg s). lia. }
      destruct (IH 2%nat _ _ _ E2 ltac:(lia)) as (H1 & H2 & H3 & H4 & H5). rewrite zlen_cons. split; [lia|]. split; [lia|]. split; [done|]. rewrite elem_of_cons. split.
      * intros [Hv|Hn]%orb_true_iff; [left; symmetry; by apply Z.eqb_eq|right; by apply H4].
      * intros H0 [Hv Hn]%orb_false_iff [Hc|Hin]; [by apply Z.eqb_neq in Hv|]. apply H5; [|done|done]. contradict H0. apply elem_of_cons. by right.
    + destruct (decode_loop 0 s) as [[out' ch'] nul'] eqn:E2. injection E as <- <- <-. destruct (IH 0%nat _ _ _ E2 ltac:(lia)) as (H1 & H2 & H3 & H4 & H5). rewrite zlen_cons. cbn [drop].
      split; [lia|]. split; [intros Hc; specialize (H2 Hc); lia|]. split; [intros Hc; destruct (H3 Hc) as [-> ->]; done|]. rewrite elem_of_cons. split; [intros Hn; right; by apply H4|].
      intros H0 Hn [Hc|Hin]; [apply H0, elem_of_cons; by left|]. apply H5; [|done|done]. contradict H0. apply elem_of_cons. by right.
  - destruct (IH skip out changed nul E ltac:(lia)) as (H1 & H2 & H3 & H4 & H5). split; [lia|]. split; [intros Hc; specialize (H2 Hc); lia|]. split; [done|]. split; [done|]. intros H0. apply H5. contradict H0. apply elem_of_cons. by right.
Qed.

Lemma decode_once_spec s out changed nul : ice_percent_decode_once s = (out, changed, nul) ->
  zlen out <= zlen s /\ (changed = true -> zlen out < zlen s) /\ (changed = false -> out = s /\ nul = false) /\ (nul = true -> 0 ∈ out) /\ (0 ∉ s -> nul = false -> 0 ∉ out).
Proof. intros E. pose proof (zlen_nonneg s). destruct (decode_loop_spec s 0 out changed nul E ltac:(lia)) as (H1 & H2 & H3 & H4). rewrite Z.add_0_r in *. done. Qed.

Lemma unsafe_unfold s : unsafe_key s <-> dotdot ∈ segments s \/ 0 ∈ s \/ unsafe_key (decoded s).
Proof.
  split.
  - intros (t & Hr & H). inversion Hr as [|s' x t' Hx%pct_decodes_spec Hr']; subst; [tauto|]. right. right. by exists t.
  - intros [H|[H|(t & Hr & H)]]; [exists s; split; [done|by left]|exists s; split; [done|by right]|]. exists t. split; [|done]. eapply rtc_l; [|exact Hr]. by apply pct_decodes_spec.
Qed.

Lemma encoded_loop_spec fuel : forall s, zlen s < Z.of_nat fuel -> 0 ∉ s -> dotdot ∉ segments s -> exists b, encoded_loop fuel s = Ok b /\ (b = true <-> unsafe_key s).
Proof.
  induction fuel as [|fuel IH]; intros s Hf H0 Hd; [pose proof (zlen_nonneg s); lia|]. cbn [encoded_loop]. destruct (ice_percent_decode_once s) as [[out changed] nul] eqn:E.
  destruct (decode_once_spec _ _ _ _ E) as (Hl & Hc & Hsame & Hn & Hnn). assert (Ed : decoded s = out) by (unfold decoded; by rewrite E).
  assert (Hu : unsafe_key s <-> unsafe_key out) by (rewrite unsafe_unfold, Ed; tauto). destruct nul.
  { exists true. split; [done|]. split; [|done]. intros _. rewrite Hu, unsafe_unfold. right. left. by apply Hn. }
  destruct changed; cbn [negb].
  - destruct (ice_has_dotdot out) eqn:Edd.
    + exists true. split; [done|]. split; [|done]. intros _. rewrite Hu, unsafe_unfold. left. by apply has_dotdot_spec.
    + destruct (IH out) as (b & Eb & Hb); [specialize (Hc eq_refl); lia|by apply Hnn|by rewrite <- has_dotdot_spec, Edd|]. exists b. by rewrite Hu.
  - destruct (Hsame eq_refl) as [-> _]. exists false. split; [done|]. split; [done|]. intros (t & Hr & Ht). exfalso.
    assert (Hi : t = s). { clear Ht. induction Hr as [|a b t Hx%pct_decodes_spec _ IHr]; [done|]. subst b. rewrite Ed in IHr. by apply IHr. }
    subst t. tauto.
Qed.

Lemma encoded_dotdot_spec s : 0 ∉ s -> dotdot ∉ segments s -> exists b, ice_has_encoded_dotdot s = Ok b /\ (b = true <-> unsafe_key s).
Proof. intros. apply encoded_loop_spec; [unfold zlen; lia|done|done]. Qed.

(** ** Recorded paths *)

Lemma starts_spec p s : starts p s = true <-> s = p ++ drop (length p) s.
Proof.
  revert s. induction p as [|a p IH]; intros s; [done|]. destruct s as [|c s]; [done|]. cbn [starts length drop app]. rewrite andb_true_iff, Z.eqb_eq, IH. split; [by intros [-> <-]|intros [= -> E]; done].
Qed.

(** Both readings of a path agree on what is left without its scheme. *)
Lemma strip_tail path : ice_strip_scheme path = (if (ice_path_tail path).2 then str "s3://" else []) ++ (ice_path_tail path).1.
Proof.
  unfold ice_strip_scheme, ice_path_tail, ice_s3_alias, PgColumnarS3Alias, PgColumnarPathIsS3Alias. destruct (starts (str "file://") path); [done|]. destruct (_ || _); [done|].
  destruct (starts (str "s3://") path) eqn:E; [|done]. cbn [fst snd]. by apply starts_spec in E.
Qed.

Lemma path_eq_tail a b : ice_path_eq a b = true <-> ice_path_tail a = ice_path_tail b.
Proof.
  unfold ice_path_eq. destruct (ice_path_tail a) as [ta sa], (ice_path_tail b) as [tb sb]. rewrite andb_true_iff, bool_decide_eq_true, Bool.eqb_true_iff. split; [intros [-> ->]|intros [= -> ->]]; done.
Qed.

Lemma path_eq_refl a : ice_path_eq a a = true.
Proof. by apply path_eq_tail. Qed.

Lemma path_eq_strip a b : ice_path_eq a b = true -> ice_strip_scheme a = ice_strip_scheme b.
Proof. intros E%path_eq_tail. by rewrite !strip_tail, E. Qed.

(** The comment on [ice_path_eq] gives [strcmp] of the stripped paths as its
    answer; a [file://] path with an S3 URL behind it is told apart. *)
Lemma path_eq_not_strip : ice_strip_scheme (str "file://s3://b/k") = ice_strip_scheme (str "s3://b/k") /\ ice_path_eq (str "file://s3://b/k") (str "s3://b/k") = false.
Proof. split; vm_compute; reflexivity. Qed.

(** ** The boundary holds *)

(** A path ends where the root ends or goes on behind a slash. *)
Definition at_boundary (rest : list Z) : Prop := match rest with [] => True | c :: _ => c = ch_slash end.

Definition root_of (recorded_root : list Z) : list Z := rev (strip_slashes (rev recorded_root)).

(** A path without its scheme: [file://] goes, and Hadoop's names of S3, in any
    case, become [s3://]. *)
Inductive unschemed : list Z -> list Z -> Prop :=
| unschemed_file p : unschemed (str "file://" ++ p) p
| unschemed_alias a p : map pg_tolower a = str "s3a://" \/ map pg_tolower a = str "s3n://" -> unschemed (a ++ p) (str "s3://" ++ p)
| unschemed_other p : (forall q, p <> str "file://" ++ q) -> (forall a q, p = a ++ q -> map pg_tolower a <> str "s3a://" /\ map pg_tolower a <> str "s3n://") -> unschemed p p.

(** A recorded location without the slashes at its end; a single slash stays. *)
Definition trimmed (recorded_root root : list Z) : Prop :=
  exists k, recorded_root = root ++ replicate k ch_slash /\ (root = [] -> k = O) /\ ((length root <= 1)%nat \/ forall r, root <> r ++ [ch_slash]).

Lemma starts_nocase_spec p s : starts_nocase p s = true <-> exists a q, s = a ++ q /\ map pg_tolower a = p.
Proof.
  unfold starts_nocase. rewrite starts_spec. split.
  - intros E. exists (take (length p) s), (drop (length p) s). split; [by rewrite take_drop|]. rewrite <- firstn_map, E. apply take_app_length.
  - intros (a & q & -> & <-). rewrite map_app, length_map. f_equal. rewrite <- (length_map pg_tolower a). by rewrite drop_app_length.
Qed.

Lemma alias_not_file a q p : map pg_tolower a = str "s3a://" \/ map pg_tolower a = str "s3n://" -> a ++ q <> str "file://" ++ p.
Proof. intros Ha E. destruct a as [|c a]; [by destruct Ha|]. injection E as -> _. cbn in Ha. destruct Ha as [Ha|Ha]; vm_compute in Ha; discriminate Ha. Qed.

Lemma unschemed_spec path p : unschemed path p <-> p = ice_strip_scheme path.
Proof.
  assert (Hal : forall a q, map pg_tolower a = str "s3a://" \/ map pg_tolower a = str "s3n://" -> PgColumnarPathIsS3Alias (a ++ q) = true /\ length a = 6%nat).
  { intros a q Ha. split; [|destruct Ha as [Ha|Ha]; apply (f_equal length) in Ha; by rewrite length_map in Ha]. unfold PgColumnarPathIsS3Alias. apply orb_true_iff. destruct Ha; [left|right]; apply starts_nocase_spec; by exists a, q. }
  unfold ice_strip_scheme, ice_s3_alias, PgColumnarS3Alias. split.
  - intros [q|a q Ha|q Hf Ha].
    + assert (E : starts (str "file://") (str "file://" ++ q) = true) by (apply starts_spec; by rewrite drop_app_length). by rewrite E.
    + destruct (starts (str "file://") (a ++ q)) eqn:E; [apply starts_spec in E; by apply alias_not_file in E|]. destruct (Hal a q Ha) as [-> Hl]. by rewrite <- Hl, drop_app_length.
    + destruct (starts (str "file://") q) eqn:E; [apply starts_spec in E; by apply Hf in E|]. destruct (PgColumnarPathIsS3Alias q) eqn:Es; [|done]. apply orb_true_iff in Es as [(a & q' & E' & Hq)%starts_nocase_spec|(a & q' & E' & Hq)%starts_nocase_spec]; by apply Ha in E' as [].
  - intros ->. destruct (starts (str "file://") path) eqn:E; [apply starts_spec in E; rewrite E at 1; constructor|]. destruct (PgColumnarPathIsS3Alias path) eqn:Es.
    + assert (Hx : exists a q, path = a ++ q /\ (map pg_tolower a = str "s3a://" \/ map pg_tolower a = str "s3n://")) by (apply orb_true_iff in Es as [(a & q & E' & Hq)%starts_nocase_spec|(a & q & E' & Hq)%starts_nocase_spec]; exists a, q; tauto).
      destruct Hx as (a & q & -> & Ha). destruct (Hal a q Ha) as [_ Hl]. rewrite <- Hl, drop_app_length. by constructor.
    + constructor; [intros q ->|intros a q ->; split; intros Ha]; [|rewrite (proj1 (Hal a q (or_introl Ha))) in Es; done|rewrite (proj1 (Hal a q (or_intror Ha))) in Es; done].
      assert (Ht : starts (str "file://") (str "file://" ++ q) = true) by (apply starts_spec; by rewrite drop_app_length). congruence.
Qed.

(** What a recorded path names: a key of S3 under one of its three schemes, two of
    them in any case, or a local file with or without [file://]. *)
Inductive names_file : list Z -> bool -> list Z -> Prop :=
| names_local p : names_file (str "file://" ++ p) false p
| names_alias a p : map pg_tolower a = str "s3a://" \/ map pg_tolower a = str "s3n://" -> names_file (a ++ p) true p
| names_s3 p : names_file (str "s3://" ++ p) true p
| names_plain p : (forall q, p <> str "file://" ++ q /\ p <> str "s3://" ++ q) -> (forall a q, p = a ++ q -> map pg_tolower a <> str "s3a://" /\ map pg_tolower a <> str "s3n://") -> names_file p false p.

Definition same_file (a b : list Z) : Prop := exists s3 f, names_file a s3 f /\ names_file b s3 f.

Lemma alias_not_s3 a q p : map pg_tolower a = str "s3a://" \/ map pg_tolower a = str "s3n://" -> a ++ q <> str "s3://" ++ p.
Proof.
  intros Ha E. destruct a as [|c [|d [|e a]]]; try (by destruct Ha). injection E as -> -> -> _. cbn in Ha. destruct Ha as [Ha|Ha]; vm_compute in Ha; discriminate Ha.
Qed.

Lemma names_tail p s3 f : names_file p s3 f <-> ice_path_tail p = (f, s3).
Proof.
  assert (Hal : forall a q, map pg_tolower a = str "s3a://" \/ map pg_tolower a = str "s3n://" -> starts_nocase (str "s3a://") (a ++ q) || starts_nocase (str "s3n://") (a ++ q) = true /\ length a = 6%nat).
  { intros a q Ha. split; [|destruct Ha as [Ha|Ha]; apply (f_equal length) in Ha; by rewrite length_map in Ha]. apply orb_true_iff. destruct Ha; [left|right]; apply starts_nocase_spec; by exists a, q. }
  assert (Hst : forall pre q, starts pre (pre ++ q) = true) by (intros pre q; apply starts_spec; by rewrite drop_app_length).
  unfold ice_path_tail. split.
  - intros [q|a q Ha|q|q Hp Ha].
    + by rewrite Hst.
    + destruct (starts (str "file://") (a ++ q)) eqn:E; [apply starts_spec in E; by apply alias_not_file in E|]. destruct (Hal a q Ha) as [-> Hl]. by rewrite <- Hl, drop_app_length.
    + destruct (starts (str "file://") (str "s3://" ++ q)) eqn:E; [apply starts_spec in E; done|]. destruct (_ || _) eqn:Es; [|by rewrite Hst].
      apply orb_true_iff in Es as [(a & q' & E' & Hq)%starts_nocase_spec|(a & q' & E' & Hq)%starts_nocase_spec]; symmetry in E'; apply alias_not_s3 in E'; tauto.
    + destruct (starts (str "file://") q) eqn:E; [apply starts_spec in E; by apply Hp in E|]. destruct (_ || _) eqn:Es.
      { apply orb_true_iff in Es as [(a & q' & E' & Hq)%starts_nocase_spec|(a & q' & E' & Hq)%starts_nocase_spec]; by apply Ha in E' as []. }
      destruct (starts (str "s3://") q) eqn:E3; [apply starts_spec in E3; by apply Hp in E3|done].
  - destruct (starts (str "file://") p) eqn:E; [intros [= <- <-]; apply starts_spec in E; rewrite E at 1; constructor|]. destruct (_ || _) eqn:Es.
    + intros [= <- <-]. assert (Hx : exists a q, p = a ++ q /\ (map pg_tolower a = str "s3a://" \/ map pg_tolower a = str "s3n://")) by (apply orb_true_iff in Es as [(a & q & E' & Hq)%starts_nocase_spec|(a & q & E' & Hq)%starts_nocase_spec]; exists a, q; tauto).
      destruct Hx as (a & q & -> & Ha). destruct (Hal a q Ha) as [_ Hl]. rewrite <- Hl, drop_app_length. by constructor.
    + destruct (starts (str "s3://") p) eqn:E3; intros [= <- <-]; [apply starts_spec in E3; rewrite E3 at 1; apply names_s3|].
      apply names_plain; [intros q; split; intros ->; [by rewrite Hst in E|by rewrite Hst in E3]|]. intros a q ->. split; intros Ha; [rewrite (proj1 (Hal a q (or_introl Ha))) in Es|rewrite (proj1 (Hal a q (or_intror Ha))) in Es]; done.
Qed.

Lemma same_file_spec a b : ice_path_eq a b = true <-> same_file a b.
Proof.
  rewrite path_eq_tail. unfold same_file. split.
  - intros E. destruct (ice_path_tail a) as [f s3] eqn:Ea. exists s3, f. split; by apply names_tail.
  - intros (s3 & f & Ha%names_tail & Hb%names_tail). congruence.
Qed.

Lemma strip_slashes_trims r : exists k, r = replicate k ch_slash ++ strip_slashes r /\ (strip_slashes r = [] -> k = O) /\ ((length (strip_slashes r) <= 1)%nat \/ hd_error (strip_slashes r) <> Some ch_slash).
Proof.
  induction r as [|c [|d r] IH]; [exists O; cbn; split; [done|]; split; [done|left; lia]|exists O; cbn; split; [done|]; split; [done|left; lia]|]. cbn [strip_slashes] in *. destruct (Z.eqb_spec c ch_slash) as [->|Hc].
  - destruct IH as (k & E & H1 & H2). exists (S k). cbn [replicate app]. split; [by f_equal|]. split; [|done]. intros E0. rewrite E0 in E. rewrite (H1 E0) in E. done.
  - exists O. split; [done|]. split; [done|]. right. cbn. congruence.
Qed.

Lemma strip_slashes_app k r : (r = [] -> k = O) -> ((length r <= 1)%nat \/ hd_error r <> Some ch_slash) -> strip_slashes (replicate k ch_slash ++ r) = r.
Proof.
  intros H1 H2. induction k as [|k IH]; cbn [replicate app].
  - destruct r as [|c [|d r]]; [done|done|]. cbn [strip_slashes]. destruct (Z.eqb_spec c ch_slash) as [->|]; [|done]. destruct H2 as [H2|H2]; [cbn in H2; lia|done].
  - destruct (replicate k ch_slash ++ r) as [|d l] eqn:E; [apply app_eq_nil in E as [_ ->]; by specialize (H1 eq_refl)|]. cbn [strip_slashes]. rewrite Z.eqb_refl. apply IH. intros ->. by specialize (H1 eq_refl).
Qed.

Lemma ends_rev (l : list Z) x : (forall r, l <> r ++ [x]) <-> hd_error (rev l) <> Some x.
Proof.
  split.
  - intros H E. destruct (rev l) as [|y r] eqn:Er; [done|]. injection E as ->. apply (H (rev r)). by rewrite <- (rev_involutive l), Er.
  - intros H r ->. apply H. by rewrite rev_unit.
Qed.

Lemma rev_replicate {A} k (x : A) : rev (replicate k x) = replicate k x.
Proof. induction k as [|k IH]; [done|]. cbn [replicate rev]. rewrite IH. symmetry. apply (replicate_S_end k x). Qed.

Lemma trimmed_spec rr root : trimmed rr root <-> root = root_of rr.
Proof.
  unfold trimmed, root_of. split.
  - intros (k & -> & H1 & H2). rewrite rev_app_distr. rewrite rev_replicate, strip_slashes_app; [by rewrite rev_involutive|..].
    + intros E. apply H1. apply (f_equal (@rev Z)) in E. by rewrite rev_involutive in E.
    + rewrite length_rev, <- ends_rev. done.
  - intros ->. destruct (strip_slashes_trims (rev rr)) as (k & E & H1 & H2). exists k. split; [|split].
    + apply (f_equal (@rev Z)) in E. rewrite rev_involutive, rev_app_distr in E. rewrite E at 1. f_equal. apply rev_replicate.
    + intros E0. apply H1. apply (f_equal (@rev Z)) in E0. by rewrite rev_involutive in E0.
    + rewrite ends_rev, rev_involutive, length_rev. done.
Qed.

Lemma under_spec root p : under root p = true <-> exists rest, p = root ++ rest /\ at_boundary rest.
Proof.
  unfold under. rewrite andb_true_iff, starts_spec. split.
  - intros [E H]. exists (drop (length root) p). split; [done|]. destruct (drop _ p); [done|]. by apply Z.eqb_eq.
  - intros (rest & -> & H). rewrite drop_app_length. split; [done|]. destruct rest; [done|]. by apply Z.eqb_eq.
Qed.

Lemma no_zero_drop n (s : list Z) : 0 ∉ s -> 0 ∉ drop n s.
Proof. intros H Hin. apply H. rewrite <- (take_drop n s). apply elem_of_app. by right. Qed.

Lemma no_zero_strip path : 0 ∉ path -> 0 ∉ ice_strip_scheme path.
Proof.
  intros H. unfold ice_strip_scheme, ice_s3_alias, PgColumnarS3Alias. destruct (starts _ _); [by apply no_zero_drop|]. destruct (PgColumnarPathIsS3Alias path); [|done].
  rewrite elem_of_app. intros [Hin|Hin]; [|by apply no_zero_drop in Hin]. revert Hin. apply (bool_decide_unpack (0 ∉ str "s3://")). by vm_compute.
Qed.

Section Contained.
Context `{PE : PathEnv}.

Lemma rebase_remote rr ar path : PgColumnarPathIsRemote ar = true -> 0 ∉ path ->
  (exists rest, ice_strip_scheme path = root_of rr ++ rest /\ at_boundary rest /\ ~ unsafe_key rest /\ ice_rebase rr ar (Some path) = Ok (ar ++ rest)) \/
  (~ (exists rest, ice_strip_scheme path = root_of rr ++ rest /\ at_boundary rest /\ ~ unsafe_key rest) /\ exists msg, ice_rebase rr ar (Some path) = Err msg).
Proof.
  intros Har H0. unfold ice_rebase. fold (root_of rr). set (p := ice_strip_scheme path). assert (Hp : 0 ∉ p) by (by apply no_zero_strip). cbv zeta. rewrite Har.
  destruct (under (root_of rr) p) eqn:Eu; cbn [negb].
  - apply under_spec in Eu as (rest & E & Hb). rewrite E, drop_app_length.
    assert (Hr : 0 ∉ rest) by (rewrite E in Hp; contradict Hp; apply elem_of_app; by right).
    assert (Hone : forall rest', root_of rr ++ rest = root_of rr ++ rest' -> rest' = rest) by (by intros rest' ->%(inj _)).
    destruct (ice_has_dotdot rest) eqn:Ed.
    + apply has_dotdot_spec in Ed. right. rewrite bind_Ok. split; [|by eexists]. intros (rest' & ->%Hone & _ & Hu). apply Hu, unsafe_unfold. by left.
    + destruct (encoded_dotdot_spec rest Hr) as (b & -> & Hub); [by rewrite <- has_dotdot_spec, Ed|]. rewrite bind_Ok. destruct b.
      * right. split; [|by eexists]. intros (rest' & ->%Hone & _ & Hu). apply Hu. by apply Hub.
      * left. exists rest. split; [done|]. split; [done|]. split; [|done]. intros Hu%Hub. done.
  - right. split; [|by eexists]. intros (rest & E & Hb & _). assert (Ht : under (root_of rr) p = true) by (apply under_spec; by eexists). congruence.
Qed.

Lemma remote_open_inv rr ar path cand : PgColumnarPathIsRemote ar = true -> 0 ∉ path -> ice_open_path rr ar (Some path) = Ok cand ->
  exists rest, ice_strip_scheme path = root_of rr ++ rest /\ at_boundary rest /\ ~ unsafe_key rest /\ cand = ar ++ rest.
Proof.
  intros Har H0. unfold ice_open_path. rewrite Har. destruct (rebase_remote rr ar path Har H0) as [(rest & E & Hb & Hu & ->)|(Hno & msg & ->)]; [|by intros [=]].
  rewrite bind_Ok. intros [= <-]. by exists rest.
Qed.

(** C26.  A file of a table in object storage is opened exactly when its recorded
    path, without its scheme, continues the table's recorded location at a path
    boundary with a key in which no number of percent-decodings, by whatever server
    stands in between, yields a parent segment or a zero byte; it is then opened
    at that key under the table's actual location. *)
Theorem remote_open_iff rr ar path cand : PgColumnarPathIsRemote ar = true -> 0 ∉ path ->
  ice_open_path rr ar (Some path) = Ok cand <->
  exists p root rest, unschemed path p /\ trimmed rr root /\ p = root ++ rest /\ at_boundary rest /\ ~ unsafe_key rest /\ cand = ar ++ rest.
Proof.
  intros Har H0. split.
  - intros E. apply remote_open_inv in E as (rest & E & Hb & Hu & ->); [|done|done]. exists (ice_strip_scheme path), (root_of rr), rest. by rewrite unschemed_spec, trimmed_spec.
  - intros (p & root & rest' & ->%unschemed_spec & ->%trimmed_spec & E' & Hb' & Hu' & ->). unfold ice_open_path. rewrite Har.
    destruct (rebase_remote rr ar path Har H0) as [(rest & E & _ & _ & ->)|[Hno _]]; [|exfalso; apply Hno; by exists rest']. rewrite E in E'. by apply (inj _) in E' as ->.
Qed.

(** C27.  Whatever metadata records, a file that is opened lies under the table's
    actual location, at a path boundary; for a local table that is the path with
    every link resolved, and in object storage no server that decodes the key sees
    it leave. *)
Theorem open_path_contained rr ar path f : ice_open_path rr ar path = Ok f -> (forall p, path = Some p -> 0 ∉ p) ->
  exists rest, f = ar ++ rest /\ at_boundary rest /\ (if PgColumnarPathIsRemote ar then ~ unsafe_key rest else exists cand, realpath cand = Some f).
Proof.
  destruct path as [path|]; [|done]. intros E H0. specialize (H0 path eq_refl). destruct (PgColumnarPathIsRemote ar) eqn:Har.
  - apply remote_open_inv in E as (rest & _ & Hb & Hu & ->); [|done|done]. by exists rest.
  - unfold ice_open_path in E. destruct (ice_rebase rr ar (Some path)) as [cand| | |]; try done. rewrite bind_Ok, Har in E. destruct (realpath cand) as [real|] eqn:Er; [|done].
    destruct (under ar real) eqn:Eu; [|done]. injection E as <-. apply under_spec in Eu as (rest & -> & Hb). exists rest. split; [done|]. split; [done|]. by exists cand.
Qed.

End Contained.

(** ** Examples *)

(** Paths that are as they should be. *)
Definition plain_paths : PathEnv := {| canonicalize_path p := p; realpath p := Some p |}.

Lemma remote_open_iff_witness : exists p root rest, unschemed (str "S3A://old/t/data/a%2520b.parquet") p /\ trimmed (str "s3://old/t/") root /\ p = root ++ rest /\ at_boundary rest /\ ~ unsafe_key rest /\ str "s3://b/t/data/a%2520b.parquet" = str "s3://b/t" ++ rest.
Proof.
  apply (remote_open_iff (PE := plain_paths) (str "s3://old/t/") (str "s3://b/t") (str "S3A://old/t/data/a%2520b.parquet")); [vm_compute; reflexivity|apply (bool_decide_unpack _); vm_compute; exact I|vm_compute; reflexivity].
Defined.

Lemma open_path_contained_witness : exists rest, str "s3://b/t/data/f.parquet" = str "s3://b/t" ++ rest /\ at_boundary rest /\
  (if PgColumnarPathIsRemote (str "s3://b/t") then ~ unsafe_key rest else exists cand, @realpath plain_paths cand = Some (str "s3://b/t/data/f.parquet")).
Proof.
  apply (open_path_contained (PE := plain_paths) (str "s3://old/t") (str "s3://b/t") (Some (str "s3n://old/t/data/f.parquet"))); [vm_compute; reflexivity|].
  intros p [= <-]. apply (bool_decide_unpack _). vm_compute. exact I.
Defined.

(** A traversal behind two levels of escapes, and one behind an escaped zero byte,
    are refused. *)
Lemma encoded_traversal_refused :
  ice_open_path (PE := plain_paths) (str "s3://t") (str "s3://t") (Some (str "s3://t/%252e%252e/x")) = Err "iceberg: path escapes the table location" /\
  ice_open_path (PE := plain_paths) (str "s3://t") (str "s3://t") (Some (str "s3://t/%00%2e%2e/x")) = Err "iceberg: path escapes the table location".
Proof. split; vm_compute; reflexivity. Qed.
