(* ===== verification/IcebergMeta.v ===== *)
(** * Iceberg table metadata

    What [columnar_iceberg.c] takes from a table's [metadata.json]: the current
    snapshot, the current schema's fields and their ids, the name mapping and the
    partition specs; and the walk over the snapshot's manifest list and manifests to
    its live entries.  Reads of files are a parameter. *)

From stdpp Require Import sorting.
From S2P Require Import Prelude Codec ParquetTypes ParquetValues Jsonb Avro IcebergPath.

Section Meta.
Context `{N : Numerics}.

Definition ice_field (c : json) (key : list Z) : option json := json_field c key.

Definition is_array (o : option json) : option (list json) := match o with Some (JArray l) => Some l | _ => None end.

Definition ice_num_int64 (v : option json) : res (option Z) :=
  match v with
  | Some (JNumeric n) =>
      match numeric_int8 n with
      | None => Err "bigint out of range"
      | Some out => if numeric_is_int8 n out then Ok (Some out) else Err "iceberg: metadata holds a non-integer number where an integer is required"
      end
  | _ => Ok None
  end.

Definition out_of_int32 (v : Z) : bool := (v <? PG_INT32_MIN) || (PG_INT32_MAX <? v).

Definition ice_default_spec_id (root : json) : res Z :=
  o ← ice_num_int64 (ice_field root (str "default-spec-id"));
  match o with
  | None => Ok 0
  | Some defspec => if out_of_int32 defspec then Err "iceberg: default-spec-id out of range" else Ok defspec
  end.

(** The id of a schema field, -1 when it has none. *)
Definition ice_schema_field_id (f : json) : res Z :=
  o ← ice_num_int64 (ice_field f (str "id"));
  match o with
  | None => Ok (-1)
  | Some fid => if (fid <? 0) || (PG_INT32_MAX <? fid) then Err "iceberg: schema field has a field id out of range" else Ok fid
  end.

Definition ice_str_field (c : json) (key : list Z) : option (list Z) := match ice_field c key with Some (JString s) => Some s | _ => None end.

Definition ice_str_required (c : json) (key : list Z) : res (list Z) :=
  match ice_field c key with
  | Some (JString s) => Ok (pnstrdup s)
  | _ => Err "iceberg: metadata is missing a required field"
  end.

(** ** The current snapshot *)

(** [v->type == jbvBinary] *)
Definition is_container (j : json) : bool := match j with JArray _ | JObject _ => true | _ => false end.

Fixpoint find_snapshot (cur : Z) (l : list json) : res (option json) :=
  match l with
  | [] => Ok None
  | s :: l =>
      if is_container s then
        sid ← ice_num_int64 (ice_field s (str "snapshot-id"));
        if decide (sid = Some cur) then Ok (Some s) else find_snapshot cur l
      else find_snapshot cur l
  end.

(** The snapshot and its id, [None] for a table without one. *)
Definition ice_current_snapshot (root : json) : res (option (json * Z)) :=
  match root with
  | JObject _ =>
      match ice_field root (str "format-version") with
      | None => Err "iceberg: no format-version; not a table metadata file"
      | Some fv =>
          fmtver ← ice_num_int64 (Some fv);
          match fmtver with
          | None => Err "iceberg: non-numeric format-version"
          | Some fmtver =>
              if (fmtver <? 1) || (3 <? fmtver) then Err "iceberg: unsupported format-version"
              else
                match ice_field root (str "current-snapshot-id") with
                | None | Some JNull => Ok None
                | Some csid =>
                    cur ← ice_num_int64 (Some csid);
                    match cur with
                    | None => Err "iceberg: current-snapshot-id is not an integer"
                    | Some cur =>
                        if cur <? 0 then Ok None
                        else
                          match is_array (ice_field root (str "snapshots")) with
                          | None => Err "iceberg: a current snapshot but no snapshots array"
                          | Some arr =>
                              o ← find_snapshot cur arr;
                              match o with
                              | Some sc => Ok (Some (sc, cur))
                              | None => Err "iceberg: current-snapshot-id is not present in the snapshots array"
                              end
                          end
                    end
                end
          end
      end
  | _ => Err "iceberg: metadata is not a JSON object"
  end.

(** The row of [iceberg_current_snapshot]. *)
Record SnapshotRow := mkSnapshotRow { sr_id : Z; sr_parent : option Z; sr_sequence : Z; sr_timestamp : option Z; sr_operation : option (list Z); sr_manifest_list : option (list Z); sr_schema_id : option Z }.

Definition pgcolumnar_iceberg_current_snapshot (root : json) : res (option SnapshotRow) :=
  o ← ice_current_snapshot root;
  match o with
  | None => Ok None
  | Some (sc, cur) =>
      parent ← ice_num_int64 (ice_field sc (str "parent-snapshot-id"));
      sequence ← ice_num_int64 (ice_field sc (str "sequence-number"));
      timestamp ← ice_num_int64 (ice_field sc (str "timestamp-ms"));
      let operation := match ice_field sc (str "summary") with Some s => if is_container s then ice_str_field s (str "operation") else None | None => None end in
      let manifest_list := ice_str_field sc (str "manifest-list") in
      schema ← ice_num_int64 (ice_field sc (str "schema-id"));
      match schema with
      | Some num => if out_of_int32 num then Err "iceberg: snapshot has a schema-id out of range" else Ok (Some (mkSnapshotRow cur parent (default 0 sequence) timestamp operation manifest_list (Some num)))
      | None => Ok (Some (mkSnapshotRow cur parent (default 0 sequence) timestamp operation manifest_list None))
      end
  end.

(** ** The current schema *)

(** The schema with the id, if the array has it. *)
Fixpoint find_schema (want : Z) (l : list json) : res (option json) :=
  match l with
  | [] => Ok None
  | s :: l =>
      if is_container s then
        sid ← ice_num_int64 (ice_field s (str "schema-id"));
        if decide (sid = Some want) then Ok (Some s) else find_schema want l
      else find_schema want l
  end.

Definition ice_current_schema_fields (root : json) : res (list json) :=
  let v1 := match ice_field root (str "schema") with Some sch => if is_container sch then ice_field sch (str "fields") else None | None => None end in
  fields ← match is_array (ice_field root (str "schemas")) with
           | Some arr =>
               want ← ice_num_int64 (ice_field root (str "current-schema-id"));
               match want with
               | Some want =>
                   o ← find_schema want arr;
                   match o with
                   | Some s => Ok (ice_field s (str "fields"))
                   | None => Err "iceberg: current-schema-id is not present in the schemas array"
                   end
               | None => Ok v1
               end
           | None => Ok v1
           end;
  match is_array fields with
  | Some l => Ok l
  | None => Err "iceberg: no current schema fields"
  end.

(** The id of the column of a name, refusing a nested one; -1 when there is none. *)
Fixpoint column_field_id (nm : list Z) (l : list json) : res Z :=
  match l with
  | [] => Ok (-1)
  | f :: l =>
      if is_container f then
        match ice_field f (str "name") with
        | Some (JString fn) =>
            if decide (nm = fn) then
              match ice_field f (str "type") with
              | Some ft => if is_container ft then Err "iceberg: output column is a nested field" else ice_schema_field_id f
              | None => ice_schema_field_id f
              end
            else column_field_id nm l
        | _ => column_field_id nm l
        end
      else column_field_id nm l
  end.

(** One id for every column that is not dropped. *)
Fixpoint columns_field_ids (fields : list json) (atts : list (option (list Z * coltype))) : res (list Z) :=
  match atts with
  | [] => Ok []
  | None :: atts => columns_field_ids fields atts
  | Some (nm, _) :: atts =>
      found ← column_field_id nm fields;
      if found <? 0 then Err "iceberg: output column is not a field in the table's current schema"
      else ids ← columns_field_ids fields atts; Ok (found :: ids)
  end.

Definition ice_field_ids_for_columns (root : json) (atts : list (option (list Z * coltype))) : res (list Z) :=
  fields ← ice_current_schema_fields root;
  columns_field_ids fields atts.

Fixpoint ice_field_id_by_name (nm : list Z) (l : list json) : res Z :=
  match l with
  | [] => Ok (-1)
  | f :: l =>
      if is_container f then
        match ice_field f (str "name") with
        | Some (JString fn) => if decide (nm = fn) then ice_schema_field_id f else ice_field_id_by_name nm l
        | _ => ice_field_id_by_name nm l
        end
      else ice_field_id_by_name nm l
  end.

Fixpoint PgColumnarIcebergColumnFieldIds (fields : list json) (atts : list (option (list Z * coltype))) : res (list Z) :=
  match atts with
  | [] => Ok []
  | None :: atts => ids ← PgColumnarIcebergColumnFieldIds fields atts; Ok (0 :: ids)
  | Some (nm, _) :: atts =>
      fid ← ice_field_id_by_name nm fields;
      ids ← PgColumnarIcebergColumnFieldIds fields atts;
      Ok ((if (0 <? fid) && (fid <=? PG_INT32_MAX) then fid else 0) :: ids)
  end.

(** The type an equality column is read and compared as. *)
Definition eq_type_oid (tname : list Z) : option Z :=
  if decide (tname = str "int") then Some INT4OID
  else if decide (tname = str "long") then Some INT8OID
  else if decide (tname = str "string") then Some TEXTOID
  else if decide (tname = str "boolean") then Some BOOLOID
  else if decide (tname = str "date") then Some DATEOID
  else None.

Fixpoint eq_col_type (fid : Z) (l : list json) : res (Z * list Z) :=
  match l with
  | [] => Err "iceberg: equality delete field id is not a top-level field of the table's current schema"
  | f :: l =>
      if is_container f then
        id ← ice_num_int64 (ice_field f (str "id"));
        if decide (id = Some fid) then
          let fname := match ice_field f (str "name") with Some (JString s) => pnstrdup s | _ => str "field_" ++ decimal_text fid 0 end in
          match ice_field f (str "type") with
          | Some (JString t) => match eq_type_oid (pnstrdup t) with Some oid => Ok (oid, fname) | None => Err "iceberg: equality delete on field of this type is not supported" end
          | _ => Err "iceberg: equality delete on field of a non-primitive type is not supported"
          end
        else eq_col_type fid l
      else eq_col_type fid l
  end.

Definition ice_eq_col_type (root : json) (fid : Z) : res (Z * list Z) := fields ← ice_current_schema_fields root; eq_col_type fid fields.

(** ** Partition specs *)

Fixpoint spec_partitioned (spec_id : Z) (l : list json) : res bool :=
  match l with
  | [] => Err "iceberg: metadata does not define the partition spec"
  | sp :: l =>
      if is_container sp then
        sid ← ice_num_int64 (ice_field sp (str "spec-id"));
        if decide (sid = Some spec_id) then
          match is_array (ice_field sp (str "fields")) with
          | Some fields => Ok (0 <? zlen fields)
          | None => Err "iceberg: partition spec has no fields array"
          end
        else spec_partitioned spec_id l
      else spec_partitioned spec_id l
  end.

Definition ice_spec_is_partitioned (root : json) (spec_id : Z) : res bool :=
  match is_array (ice_field root (str "partition-specs")) with
  | Some l => spec_partitioned spec_id l
  | None => Err "iceberg: metadata does not define the partition spec"
  end.

(** The first partition spec of the metadata with an id, with its fields. *)
Definition spec_fields (root : json) (spec_id : Z) (fields : list json) : Prop :=
  exists pre sp post, is_array (ice_field root (str "partition-specs")) = Some (pre ++ sp :: post) /\
    Forall (fun q => is_container q = true -> exists o, ice_num_int64 (ice_field q (str "spec-id")) = Ok o /\ o <> Some spec_id) pre /\
    is_container sp = true /\ ice_num_int64 (ice_field sp (str "spec-id")) = Ok (Some spec_id) /\ is_array (ice_field sp (str "fields")) = Some fields.

Lemma spec_partitioned_spec spec_id l part : spec_partitioned spec_id l = Ok part <->
  exists pre sp post fields, l = pre ++ sp :: post /\ Forall (fun q => is_container q = true -> exists o, ice_num_int64 (ice_field q (str "spec-id")) = Ok o /\ o <> Some spec_id) pre /\
    is_container sp = true /\ ice_num_int64 (ice_field sp (str "spec-id")) = Ok (Some spec_id) /\ is_array (ice_field sp (str "fields")) = Some fields /\ part = bool_decide (fields <> []).
Proof using.
  induction l as [|sp l IH]; cbn [spec_partitioned].
  { split; [done|]. intros ([|] & ? & ? & ? & ? & _); done. }
  assert (Hskip : (forall o, is_container sp = true -> ice_num_int64 (ice_field sp (str "spec-id")) = Ok o -> o <> Some spec_id) -> (is_container sp = true -> exists o, ice_num_int64 (ice_field sp (str "spec-id")) = Ok o) ->
    spec_partitioned spec_id l = Ok part <-> exists pre s post fields, sp :: l = pre ++ s :: post /\ Forall (fun q => is_container q = true -> exists o, ice_num_int64 (ice_field q (str "spec-id")) = Ok o /\ o <> Some spec_id) pre /\
    is_container s = true /\ ice_num_int64 (ice_field s (str "spec-id")) = Ok (Some spec_id) /\ is_array (ice_field s (str "fields")) = Some fields /\ part = bool_decide (fields <> [])).
  { intros Hne Hok. rewrite IH. split.
    - intros (pre & s & post & fields & -> & Hp & H). exists (sp :: pre), s, post, fields. split; [done|]. split; [|done]. constructor; [|done]. intros Hc. destruct (Hok Hc) as [o Ho]. exists o. split; [done|]. by apply Hne.
    - intros ([|q pre] & s & post & fields & E & Hp & Hc & Hi & H); injection E as -> ->; [exfalso; exact (Hne (Some spec_id) Hc Hi eq_refl)|]. exists pre, s, post, fields. split; [done|]. split; [by apply Forall_cons_1 in Hp as [_ ?]|done]. }
  destruct (is_container sp) eqn:Ec; [|apply Hskip; congruence]. destruct (ice_num_int64 (ice_field sp (str "spec-id"))) as [o| | |] eqn:Ei;
    try (split; [done|]; intros ([|q pre] & s & post & fields & E & Hp & Hc & Hi & _); injection E as <- E; [congruence|]; apply Forall_cons_1 in Hp as [Hq _]; destruct (Hq Ec) as (? & ? & _); congruence).
  rewrite bind_Ok. case_decide as Ho; [|apply Hskip; [congruence|by exists o]]. subst o. split.
  - destruct (is_array (ice_field sp (str "fields"))) as [fields|] eqn:Ef; [|done]. intros [= <-]. exists [], sp, l, fields. split; [done|]. split; [constructor|]. split; [done|]. split; [done|]. split; [done|].
    destruct fields; [done|]. rewrite bool_decide_eq_true_2 by done. apply Z.ltb_lt. rewrite zlen_cons. pose proof (zlen_nonneg fields). lia.
  - intros ([|q pre] & s & post & fields & E & Hp & Hc & Hi & Hf & ->); injection E as <- E; [|apply Forall_cons_1 in Hp as [Hq _]; destruct (Hq Ec) as (? & ? & ?); congruence]. rewrite Hf. f_equal.
    destruct fields; [done|]. rewrite bool_decide_eq_true_2 by done. apply Z.ltb_lt. rewrite zlen_cons. pose proof (zlen_nonneg fields). lia.
Qed.

Lemma is_partitioned_spec root spec_id part : ice_spec_is_partitioned root spec_id = Ok part <-> exists fields, spec_fields root spec_id fields /\ part = bool_decide (fields <> []).
Proof using.
  unfold ice_spec_is_partitioned, spec_fields. destruct (is_array (ice_field root (str "partition-specs"))) as [l|]; [|split; [done|]; intros (? & (? & ? & ? & ? & _) & _); done].
  rewrite spec_partitioned_spec. split.
  - intros (pre & sp & post & fields & -> & H1 & H2 & H3 & H4 & ->). exists fields. split; [|done]. by exists pre, sp, post.
  - intros (fields & (pre & sp & post & [= ->] & H1 & H2 & H3 & H4) & ->). by exists pre, sp, post, fields.
Qed.

(** ** The name mapping *)

Definition ICE_MAX_NAME_MAPPING : Z := 100000.

(** The names of one entry, appended to those before. *)
Fixpoint mapping_names (fid : Z) (l : list json) (nm : list (list Z * Z)) : res (list (list Z * Z)) :=
  match l with
  | [] => Ok nm
  | JString s :: l => if ICE_MAX_NAME_MAPPING <=? zlen nm then Err "iceberg: schema.name-mapping.default has too many names" else mapping_names fid l (nm ++ [(pnstrdup s, fid)])
  | _ :: l => mapping_names fid l nm
  end.

Fixpoint mapping_entries (l : list json) (nm : list (list Z * Z)) : res (list (list Z * Z)) :=
  match l with
  | [] => Ok nm
  | ent :: l =>
      if is_container ent then
        fid ← ice_num_int64 (ice_field ent (str "field-id"));
        match fid with
        | None => mapping_entries l nm
        | Some fid =>
            if (fid <? 0) || (PG_INT32_MAX <? fid) then Err "iceberg: schema.name-mapping.default has a field-id out of range"
            else
              match is_array (ice_field ent (str "names")) with
              | None => mapping_entries l nm
              | Some names => nm ← mapping_names fid names nm; mapping_entries l nm
              end
        end
      else mapping_entries l nm
  end.

(** [strcmp(a, b) <= 0] *)
Fixpoint strle (a b : list Z) : bool :=
  match a, b with
  | [], _ => true
  | _ :: _, [] => false
  | x :: a, y :: b => (x <? y) || ((x =? y) && strle a b)
  end.

Definition name_le (a b : list Z) : Prop := strle a b = true.

#[global] Instance name_le_dec a b : Decision (name_le a b) := bool_eq_dec _ _.

(** A name next to itself. *)
Fixpoint adjacent_equal (l : list (list Z)) : bool :=
  match l with
  | a :: (b :: _) as rest => bool_decide (a = b) || adjacent_equal rest
  | _ => false
  end.

Context `{J : !JsonbIn}.

Definition ice_name_mapping (root : json) : res (list (list Z * Z)) :=
  match ice_field root (str "properties") with
  | Some props =>
      if is_container props then
        match ice_field props (str "schema.name-mapping.default") with
        | Some (JString s) =>
            match jsonb_in (pnstrdup s) with
            | None => Err "invalid input syntax for type json"
            | Some doc =>
                match json_root doc with
                | JArray arr =>
                    nm ← mapping_entries arr [];
                    if adjacent_equal (merge_sort name_le (map fst nm)) then Err "iceberg: a name appears more than once in schema.name-mapping.default" else Ok nm
                | _ => Err "iceberg: schema.name-mapping.default is not a JSON array"
                end
            end
        | _ => Ok []
        end
      else Ok []
  | None => Ok []
  end.

End Meta.
