(* ===== verification/IcebergWalk.v ===== *)
(** * The live entries of an Iceberg snapshot

    [ice_walk_data_files] of [columnar_iceberg.c]: from the current snapshot
    through its manifest list and manifests to the entries, with the checks of
    content and status and the inheritance of sequence numbers; the lister and
    the row estimate.  The theorem says which entries a walk delivers. *)

From S2P Require Import Prelude Codec ParquetTypes ParquetValues Jsonb Avro IcebergPath IcebergMeta.

(** The reads of whole files; a [metadata.json] may be stored compressed. *)
Class IceFiles : Type := { ice_slurp_text : list Z -> res (list Z); ice_slurp_bin : list Z -> res (list Z) }.

Section Walk.
Context `{N : Numerics} `{J : !JsonbIn} `{RI : RawInflate} `{TE : TextEnv} `{PE : PathEnv} `{FS : IceFiles} (stack : nat).
Abbreviation entry := PgColumnarAvroManifestEntry.
Abbreviation manifest := PgColumnarAvroManifestFile.

(** The data sequence number of an entry of a manifest. *)
Definition resolve_sequence (mf : manifest) (e : entry) : res entry :=
  if me_has_sequence_number e then Ok e
  else if negb (me_has_sequence_field e) then Ok (set_me_has_sequence_number (set_me_sequence_number e 0) true)
  else if negb (me_status e =? 1) then Err "iceberg: a manifest entry has no sequence number"
  else if negb (mf_sequence_number mf).2 then Err "iceberg: manifest has a null sequence number that an added entry must inherit"
  else Ok (set_me_has_sequence_number (set_me_sequence_number e (mf_sequence_number mf).1) true).

(** The checks of one entry; [None] for one that is passed over. *)
Definition walk_entry (collect_deletes : bool) (mf : manifest) (e : entry) : res (option entry) :=
  if (me_content e <? 0) || (2 <? me_content e) then Err "iceberg: manifest entry has invalid content"
  else if (me_status e <? 0) || (2 <? me_status e) then Err "iceberg: manifest entry has invalid status"
  else if negb collect_deletes && negb (me_content e =? 0) && negb (me_status e =? 2) then Err "iceberg: snapshot has delete files"
  else if me_status e =? 2 then Ok None
  else if negb collect_deletes && negb (mf_content mf =? 0) then Err "iceberg: delete manifest holds a data file entry"
  else
    match me_file_path e with
    | None => Err "iceberg: a manifest entry has no data file path"
    | Some _ => e ← resolve_sequence mf e; Ok (Some e)
    end.

(** What the callback is told besides the entry. *)
Record WalkRoots := mkRoots { wr_recorded : list Z; wr_actual : list Z }.

Section Callback.
Context {A : Type} (cb : WalkRoots -> manifest -> entry -> A -> res A).

Fixpoint walk_entries (collect_deletes : bool) (roots : WalkRoots) (mf : manifest) (es : list entry) (a : A) : res A :=
  match es with
  | [] => Ok a
  | e :: es =>
      o ← walk_entry collect_deletes mf e;
      a ← match o with Some e => cb roots mf e a | None => Ok a end;
      walk_entries collect_deletes roots mf es a
  end.

Fixpoint walk_manifests (collect_deletes : bool) (roots : WalkRoots) (mfs : list manifest) (a : A) : res A :=
  match mfs with
  | [] => Ok a
  | mf :: mfs =>
      if negb (mf_content mf =? 0) && negb (mf_content mf =? 1) then Err "iceberg: manifest has invalid content"
      else if negb (mf_content mf =? 0) && negb collect_deletes && (0 <? mf_added_files_count mf + mf_existing_files_count mf) then Err "iceberg: snapshot has delete files"
      else
        m_path ← ice_open_path (wr_recorded roots) (wr_actual roots) (mf_manifest_path mf);
        mbuf ← ice_slurp_bin m_path;
        entries ← PgColumnarAvroReadManifest stack mbuf;
        a ← walk_entries collect_deletes roots mf entries a;
        walk_manifests collect_deletes roots mfs a
  end.

(** Where the table says it is and where it is. *)
Definition walk_roots (path : list Z) (root : json) : res WalkRoots :=
  location ← ice_str_required root (str "location");
  let recorded_root := ice_strip_scheme location in
  if PgColumnarPathIsRemote (ice_s3_alias path) then Ok (mkRoots recorded_root (ice_actual_location path))
  else
    match realpath (ice_actual_location path) with
    | Some real => Ok (mkRoots recorded_root real)
    | None => Err "iceberg: could not resolve the table location"
    end.

Definition ice_walk_data_files (path : list Z) (root : json) (collect_deletes : bool) (a : A) : res A :=
  o ← ice_current_snapshot root;
  match o with
  | None => Ok a
  | Some (sc, cur) =>
      roots ← walk_roots path root;
      ml ← ice_str_required sc (str "manifest-list");
      ml_path ← ice_open_path (wr_recorded roots) (wr_actual roots) (Some ml);
      mlbuf ← ice_slurp_bin ml_path;
      mfs ← PgColumnarAvroReadManifestList stack mlbuf;
      walk_manifests collect_deletes roots mfs a
  end.

End Callback.

(** ** The lister and the estimate *)

(** The metadata document. *)
Definition ice_read_metadata (path : list Z) : res json :=
  text ← ice_slurp_text path;
  match jsonb_in text with
  | Some jb => Ok (json_root jb)
  | None => Err "invalid input syntax for type json"
  end.

Record DataFileRow := mkFileRow { fr_path : list Z; fr_format : option (list Z); fr_records : Z; fr_partition : option (list Z) }.

Definition ice_list_cb (roots : WalkRoots) (mf : manifest) (e : entry) (rows : list DataFileRow) : res (list DataFileRow) :=
  p ← ice_rebase (wr_recorded roots) (wr_actual roots) (me_file_path e);
  Ok (rows ++ [mkFileRow p (me_file_format e) (me_record_count e) (me_partition e)]).

Definition pgcolumnar_iceberg_data_files (path : list Z) : res (list DataFileRow) :=
  root ← ice_read_metadata path;
  ice_walk_data_files ice_list_cb path root false [].

Definition ice_estimate_cb (roots : WalkRoots) (mf : manifest) (e : entry) (total : Z) : res Z :=
  Ok (if me_content e =? 0 then s64 (total + me_record_count e) else total).

Definition PgColumnarIcebergEstimateRows (path : list Z) : res Z :=
  root ← ice_read_metadata path;
  ice_walk_data_files ice_estimate_cb path root true 0.

(** ** What a walk delivers *)

(** The data sequence number of an entry: its own, that of its manifest for an
    added entry that leaves it null, and 0 in a manifest of format 1, which has no
    such field. *)
Inductive sequence_of (mf : manifest) (e : entry) : Z -> Prop :=
| seq_own : me_has_sequence_number e = true -> sequence_of mf e (me_sequence_number e)
| seq_first : me_has_sequence_number e = false -> me_has_sequence_field e = false -> sequence_of mf e 0
| seq_inherited n : me_has_sequence_number e = false -> me_has_sequence_field e = true -> me_status e = 1 -> mf_sequence_number mf = (n, true) -> sequence_of mf e n.

Lemma resolve_spec mf e e' : resolve_sequence mf e = Ok e' <-> exists n, sequence_of mf e n /\ e' = set_me_has_sequence_number (set_me_sequence_number e n) true.
Proof using.
  unfold resolve_sequence. destruct (me_has_sequence_number e) eqn:En.
  { split; [intros [= <-]; exists (me_sequence_number e); split; [by constructor|]|intros (n & Hn & ->); f_equal]; [destruct e; cbn in *; by subst|].
    inversion Hn; subst; try congruence. destruct e; cbn in *; by subst. }
  destruct (me_has_sequence_field e) eqn:Ef; cbn [negb].
  2:{ split; [intros [= <-]; exists 0; split; [by constructor|done]|]. intros (n & Hn & ->). by inversion Hn; subst; try congruence. }
  destruct (Z.eqb_spec (me_status e) 1) as [Es|Es]; cbn [negb]; [|split; [done|]; intros (n & Hn & _); inversion Hn; congruence].
  destruct (mf_sequence_number mf) as [n [|]] eqn:Em; cbn [negb fst snd]; [|split; [done|]; intros (n' & Hn & _); inversion Hn; congruence].
  split; [intros [= <-]; exists n; split; [by constructor|done]|]. intros (n' & Hn & ->). inversion Hn; try congruence.
Qed.

(** An entry and its manifest as the metadata means them: not removed, of a known
    kind, with the sequence number it has or inherits. *)
Definition live_entry (mf : manifest) (e e' : entry) : Prop :=
  me_status e <> 2 /\ 0 <= me_content e <= 2 /\ 0 <= me_status e <= 1 /\ me_file_path e <> None /\
  exists n, sequence_of mf e n /\ e' = set_me_has_sequence_number (set_me_sequence_number e n) true.

(** The live entries of a list, in order, and no others. *)
Inductive live_entries (mf : manifest) : list entry -> list entry -> Prop :=
| live_nil : live_entries mf [] []
| live_skip e es out : me_status e = 2 -> 0 <= me_content e <= 2 -> live_entries mf es out -> live_entries mf (e :: es) out
| live_keep e e' es out : live_entry mf e e' -> live_entries mf es out -> live_entries mf (e :: es) (e' :: out).

(** The manifests of a list are opened in order; their live entries, each with
    its manifest. *)
Inductive live_manifests (roots : WalkRoots) : list manifest -> list (manifest * entry) -> Prop :=
| live_none : live_manifests roots [] []
| live_more mf mfs m_path mbuf entries out rest : mf_content mf = 0 \/ mf_content mf = 1 ->
    ice_open_path (wr_recorded roots) (wr_actual roots) (mf_manifest_path mf) = Ok m_path -> ice_slurp_bin m_path = Ok mbuf ->
    PgColumnarAvroReadManifest stack mbuf = Ok entries -> live_entries mf entries out -> live_manifests roots mfs rest ->
    live_manifests roots (mf :: mfs) (map (pair mf) out ++ rest).

(** The callback over entries. *)
Fixpoint cb_all {A} (cb : WalkRoots -> manifest -> entry -> A -> res A) (roots : WalkRoots) (live : list (manifest * entry)) (a : A) : res A :=
  match live with
  | [] => Ok a
  | (mf, e) :: live => a ← cb roots mf e a; cb_all cb roots live a
  end.

Lemma cb_all_app {A} (cb : WalkRoots -> manifest -> entry -> A -> res A) roots l1 l2 a : cb_all cb roots (l1 ++ l2) a = (a ← cb_all cb roots l1 a; cb_all cb roots l2 a).
Proof using. revert a. induction l1 as [|[mf e] l1 IH]; intros a; cbn [app cb_all]; [done|]. destruct (cb roots mf e a); try done. rewrite !bind_Ok. apply IH. Qed.

Lemma walk_entry_spec mf e o : walk_entry true mf e = Ok o <-> match o with None => me_status e = 2 /\ 0 <= me_content e <= 2 | Some e' => live_entry mf e e' end.
Proof using.
  unfold walk_entry, live_entry. cbn [negb andb].
  destruct (Z.ltb_spec (me_content e) 0), (Z.ltb_spec 2 (me_content e)), (Z.ltb_spec (me_status e) 0), (Z.ltb_spec 2 (me_status e)); cbn [orb]; try (split; [done|destruct o; intros; exfalso; intuition lia]).
  destruct (Z.eqb_spec (me_status e) 2) as [Hst|Hst].
  - split; [intros [= <-]; split; [done|lia]|]. destruct o; [|done]. intros (? & _). done.
  - destruct (me_file_path e) as [fp|]; [|split; [done|destruct o; intros; exfalso; intuition]]. split.
    + destruct (resolve_sequence mf e) as [e'| | |] eqn:Er; try done. rewrite bind_Ok. intros [= <-]. repeat (split; [done || lia|]). by apply resolve_spec.
    + destruct o as [e'|]; [|by intros [? _]]. intros (_ & _ & _ & _ & ->%resolve_spec). done.
Qed.

Section Collect.
Context {A : Type} (cb : WalkRoots -> manifest -> entry -> A -> res A) (roots : WalkRoots).

Lemma live_cons_inv mf e es out : live_entries mf (e :: es) out ->
  exists o out', walk_entry true mf e = Ok o /\ live_entries mf es out' /\ out = match o with Some e' => e' :: out' | None => out' end.
Proof using.
  inversion 1 as [|? ? ? Hs Hk Hr|? e' ? out' Hle Hr]; subst.
  - exists None, out. split; [by apply walk_entry_spec|done].
  - exists (Some e'), out'. split; [by apply walk_entry_spec|done].
Qed.

Lemma live_cons mf e es o out : walk_entry true mf e = Ok o -> live_entries mf es out -> live_entries mf (e :: es) (match o with Some e' => e' :: out | None => out end).
Proof using. intros H%walk_entry_spec Hl. destruct o; [by constructor|]. destruct H. by constructor. Qed.

Lemma walk_entries_spec mf es a a' : walk_entries cb true roots mf es a = Ok a' <-> exists out, live_entries mf es out /\ cb_all cb roots (map (pair mf) out) a = Ok a'.
Proof using.
  revert a. induction es as [|e es IH]; intros a; cbn [walk_entries].
  - split; [intros [= <-]; exists []; split; [constructor|done]|]. intros (out & H & E). inversion H; subst. done.
  - split.
    + destruct (walk_entry true mf e) as [o| | |] eqn:Ew; try done. rewrite bind_Ok. destruct (match o with Some e => cb roots mf e a | None => Ok a end) as [a1| | |] eqn:Ec; try done. rewrite bind_Ok.
      intros (out & Hl & E)%IH. exists (match o with Some e' => e' :: out | None => out end). split; [by apply live_cons|]. destruct o as [e'|]; cbn [map cb_all]; [by rewrite Ec, bind_Ok|]. by injection Ec as <-.
    + intros (out & Hl & E). apply live_cons_inv in Hl as (o & out' & -> & Hl & ->). rewrite bind_Ok. destruct o as [e'|]; cbn [map cb_all] in E.
      * destruct (cb roots mf e' a); try done. rewrite bind_Ok in *. apply IH. by exists out'.
      * rewrite bind_Ok. apply IH. by exists out'.
Qed.

Lemma walk_manifests_spec mfs a a' : walk_manifests cb true roots mfs a = Ok a' <-> exists live, live_manifests roots mfs live /\ cb_all cb roots live a = Ok a'.
Proof using.
  revert a. induction mfs as [|mf mfs IH]; intros a; cbn [walk_manifests].
  - split; [intros [= <-]; exists []; split; [constructor|done]|]. intros (out & H & E). inversion H; subst. done.
  - rewrite andb_false_r. cbn [andb]. split.
    + destruct (negb (mf_content mf =? 0) && negb (mf_content mf =? 1)) eqn:Ek; [done|]. apply andb_false_iff in Ek. rewrite !negb_false_iff, !Z.eqb_eq in Ek.
      destruct (ice_open_path _ _ _) as [m_path| | |] eqn:E1; try done. rewrite bind_Ok. destruct (ice_slurp_bin m_path) as [mbuf| | |] eqn:E2; try done. rewrite bind_Ok.
      destruct (PgColumnarAvroReadManifest stack mbuf) as [entries| | |] eqn:E3; try done. rewrite bind_Ok. destruct (walk_entries cb true roots mf entries a) as [a1| | |] eqn:E4; try done. rewrite bind_Ok.
      apply walk_entries_spec in E4 as (out & Hl & E). intros (rest & Hr & Er)%IH. exists (map (pair mf) out ++ rest). split; [by eapply live_more|]. by rewrite cb_all_app, E, bind_Ok.
    + intros (live & Hl & E). inversion Hl as [|? ? m_path mbuf entries out rest Hk H1 H2 H3 H4 Hr]; subst. replace (negb (mf_content mf =? 0) && negb (mf_content mf =? 1)) with false by (destruct Hk as [-> | ->]; done).
      rewrite H1, bind_Ok, H2, bind_Ok, H3, bind_Ok. rewrite cb_all_app in E. destruct (cb_all cb roots (map (pair mf) out) a) as [a1| | |] eqn:E1; try done. rewrite bind_Ok in E.
      rewrite (proj2 (walk_entries_spec mf entries a a1)) by (by exists out). rewrite bind_Ok. apply IH. by exists rest.
Qed.

End Collect.

End Walk.
