(* ===== verification/IcebergScan.v ===== *)
(** * Scanning an Iceberg table

    [PgColumnarIcebergScanCore] of [columnar_iceberg.c] and what it calls: the
    entries a walk collects, position deletes and their index by data file,
    deletion vectors, equality deletes with their hash tables, the probe of a data
    file and the skip set its read is given.  The Parquet files are read by the
    reader of [ParquetFile]; the operators and hash functions of the server's types
    and its hash of bytes are an interface. *)

From stdpp Require Import sorting gmap.
From S2P Require Import Prelude Codec Compress ParquetCodec ParquetTypes ParquetValues ParquetPage ParquetRows ParquetFile ParquetSkip Jsonb Puffin Avro IcebergPath IcebergMeta IcebergWalk.

(** ** Interfaces *)

(** Equality and hash functions of a type, and the server's hash functions. *)
Class HashOps `{T : PgTypes} : Type := {
  has_ops : Z -> bool;
  eq_op : Z -> coldatum -> coldatum -> bool;
  hash_op : Z -> coldatum -> Z;
  hash_combine : Z -> Z -> Z;
  hash_bytes_extended : list Z -> Z -> Z
}.

(** ** Collected entries *)

Record IceEntry := mkIceEntry {
  ie_file_path : list Z;
  ie_file_format : option (list Z);
  ie_seq : Z;
  ie_eq_ids : list Z;
  ie_spec_id : Z * bool;
  ie_ref_data_file : option (list Z);
  ie_content_offset : Z * bool;
  ie_content_size : Z * bool;
  ie_record_count : Z;
  ie_part_cells : list PgColumnarAvroPartCell;
  ie_lower_bounds : list PgColumnarAvroBound;
  ie_upper_bounds : list PgColumnarAvroBound
}.

Record IceScanCtx := mkScanCtx { sc_roots : option WalkRoots; sc_data : list IceEntry; sc_posdel : list IceEntry; sc_eqdel : list IceEntry }.

Definition collected (fp : list Z) (mf : PgColumnarAvroManifestFile) (e : PgColumnarAvroManifestEntry) : IceEntry :=
  mkIceEntry fp (me_file_format e) (me_sequence_number e) (me_equality_ids e) (mf_partition_spec_id mf) (me_referenced_data_file e) (me_content_offset e) (me_content_size_in_bytes e)
    (me_record_count e) (me_part_cells e) (me_lower_bounds e) (me_upper_bounds e).

Definition ice_scan_cb (roots : WalkRoots) (mf : PgColumnarAvroManifestFile) (e : PgColumnarAvroManifestEntry) (c : IceScanCtx) : res IceScanCtx :=
  match me_file_path e with
  | None => Oob
  | Some fp =>
      let r := match sc_roots c with Some r => Some r | None => Some roots end in
      let ie := collected fp mf e in
      if me_content e =? 0 then Ok (mkScanCtx r (sc_data c ++ [ie]) (sc_posdel c) (sc_eqdel c))
      else if me_content e =? 1 then Ok (mkScanCtx r (sc_data c) (sc_posdel c ++ [ie]) (sc_eqdel c))
      else if me_content e =? 2 then Ok (mkScanCtx r (sc_data c) (sc_posdel c) (sc_eqdel c ++ [ie]))
      else Err "iceberg: unexpected content"
  end.

(** [pg_strcasecmp(format, want) == 0] *)
Definition format_is (want : list Z) (format : list Z) : bool := bool_decide (map pg_tolower format = want).

(** [format != NULL && pg_strcasecmp(format, "PARQUET") != 0] *)
Definition other_format (format : option (list Z)) : bool := match format with Some f => negb (format_is (str "parquet") f) | None => false end.
Definition puffin_format (format : option (list Z)) : bool := match format with Some f => format_is (str "puffin") f | None => false end.

(** ** Partition cells *)

Definition cell_equal (a b : PgColumnarAvroPartCell) : bool :=
  pc_comparable a && pc_comparable b && Bool.eqb (pc_isnull a) (pc_isnull b) &&
  (pc_isnull a || (Bool.eqb (pc_is_bytes a) (pc_is_bytes b) && if pc_is_bytes a then bool_decide (pc_bytes a = pc_bytes b) else pc_ival a =? pc_ival b)).

Fixpoint ice_part_cells_equal (a b : list PgColumnarAvroPartCell) : bool :=
  match a, b with
  | [], [] => true
  | x :: a, y :: b => cell_equal x y && ice_part_cells_equal a b
  | _, _ => false
  end.

Definition ice_part_incomparable (cells : list PgColumnarAvroPartCell) : bool := existsb (fun c => negb (pc_comparable c)) cells.

(** ** Position deletes *)

Record IcePosDel := mkPosDel { pd_dpath : list Z; pd_pos : Z; pd_seq : Z }.
Record IcePosGroup := mkPosGroup { pg_path : list Z; pg_rows : list IcePosDel }.

Definition ICE_POSDEL_PATH_ID : Z := 2147483546.
Definition ICE_POSDEL_POS_ID : Z := 2147483545.

Section Scan.
Context `{N : Numerics} `{J : !JsonbIn} `{CR : Crc32} `{RI : RawInflate} `{TE : TextEnv} `{PE : PathEnv} `{FS : IceFiles} `{T : PgTypes} `{TC : !TypmodCoercion} `{C : BlockCodecs} `{ZL : Zlib} `{PO : ParquetObjects} `{HO : !HashOps} (stack : nat) (buffered : bool).

Definition ice_posdel_hash (path : list Z) : Z := let '(tail, s3) := ice_path_tail path in hash_bytes_extended tail (if s3 then 1 else 0).

(** The group of the same file in a bucket. *)
Fixpoint ice_posdel_group (groups : list IcePosGroup) (path : list Z) : option IcePosGroup :=
  match groups with
  | [] => None
  | g :: groups => if ice_path_eq (pg_path g) path then Some g else ice_posdel_group groups path
  end.

(** A row into the bucket of its hash: into the first group of the same file, or
    into a new one at the end. *)
Fixpoint add_to_groups (groups : list IcePosGroup) (pd : IcePosDel) : list IcePosGroup :=
  match groups with
  | [] => [mkPosGroup (pd_dpath pd) [pd]]
  | g :: groups => if ice_path_eq (pg_path g) (pd_dpath pd) then mkPosGroup (pg_path g) (pg_rows g ++ [pd]) :: groups else g :: add_to_groups groups pd
  end.

Definition add_pos_delete (idx : gmap Z (list IcePosGroup)) (pd : IcePosDel) : gmap Z (list IcePosGroup) :=
  let h := ice_posdel_hash (pd_dpath pd) in
  <[h := add_to_groups (default [] (idx !! h)) pd]> idx.

Definition ice_index_pos_deletes (posdels : list IcePosDel) : gmap Z (list IcePosGroup) := foldl add_pos_delete ∅ posdels.

Definition ice_pos_deletes_for (idx : gmap Z (list IcePosGroup)) (dp : list Z) : list IcePosDel :=
  match idx !! ice_posdel_hash dp with
  | None => []
  | Some groups => match ice_posdel_group groups dp with Some g => pg_rows g | None => [] end
  end.

(** A path of the snapshot, opened inside the table's location. *)
Definition open_entry (c : IceScanCtx) (path : list Z) : res (list Z) :=
  match sc_roots c with
  | None => Oob
  | Some roots => ice_open_path (wr_recorded roots) (wr_actual roots) (Some path)
  end.

Definition posdel_atts : list (option (list Z * coltype)) := [Some (str "file_path", CScalar TEXTOID (-1)); Some (str "pos", CScalar INT8OID (-1))].

(** [DatumGetInt64] and [text_to_cstring(DatumGetTextPP(d))] *)
Definition datum_int64 (v : coldatum) : res Z := match v with AScalar d => get_int d | _ => Oob end.
Definition datum_text (v : coldatum) : res (list Z) := match v with AScalar d => get_bytes d | _ => Oob end.

Definition posdel_row (seq : Z) (row : list (option coldatum)) : res IcePosDel :=
  match row with
  | [Some d1; Some d2] =>
      pos ← datum_int64 d2;
      if pos <? 0 then Err "iceberg: position-delete file has a negative pos"
      else dpath ← datum_text d1; Ok (mkPosDel dpath pos seq)
  | [_; _] => Err "iceberg: position-delete file has a null"
  | _ => Oob
  end.

Fixpoint posdel_rows (seq : Z) (rows : list (list (option coldatum))) : res (list IcePosDel) :=
  match rows with
  | [] => Ok []
  | row :: rows => r ← posdel_row seq row; rs ← posdel_rows seq rows; Ok (r :: rs)
  end.

Fixpoint read_pos_deletes (c : IceScanCtx) (l : list IceEntry) : res (list IcePosDel) :=
  match l with
  | [] => Ok []
  | pd :: l =>
      if puffin_format (ie_file_format pd) then read_pos_deletes c l
      else if other_format (ie_file_format pd) then Err "iceberg: only PARQUET position deletes are supported"
      else
        safe ← open_entry c (ie_file_path pd);
        rows ← PgColumnarReadParquetByFieldId stack buffered safe posdel_atts [ICE_POSDEL_PATH_ID; ICE_POSDEL_POS_ID] None;
        rs ← posdel_rows (ie_seq pd) rows;
        rest ← read_pos_deletes c l;
        Ok (rs ++ rest)
  end.

Definition ice_read_pos_deletes (c : IceScanCtx) : res (list IcePosDel) := read_pos_deletes c (sc_posdel c).

(** ** Deletion vectors *)

Record IceDvDel := mkDvDel { dv_dpath : list Z; dv_seq : Z; dv_pos : list Z }.

Fixpoint read_dvs (c : IceScanCtx) (format_version : Z) (l : list IceEntry) (seen : list (list Z)) : res (list IceDvDel) :=
  match l with
  | [] => Ok []
  | pd :: l =>
      if negb (puffin_format (ie_file_format pd)) then read_dvs c format_version l seen
      else if format_version <? 3 then Err "iceberg: deletion vector below format-version 3"
      else
        match ie_ref_data_file pd with
        | None => Err "iceberg: the deletion vector has no referenced_data_file"
        | Some ref =>
            if negb (ie_content_offset pd).2 || negb (ie_content_size pd).2 || ((ie_content_offset pd).1 <? 0) || ((ie_content_size pd).1 <=? 0)
            then Err "iceberg: the deletion vector has no content offset or size"
            else if existsb (fun p => ice_path_eq p ref) seen then Err "iceberg: two deletion vectors reference a data file"
            else
              safe ← open_entry c (ie_file_path pd);
              buf ← ice_slurp_bin safe;
              pos ← PgColumnarPuffinReadDeletionVector buf (ie_content_offset pd).1 (ie_content_size pd).1 ref;
              if negb (zlen pos =? ie_record_count pd) then Err "iceberg: the deletion vector's positions are not those its manifest entry records"
              else rest ← read_dvs c format_version l (seen ++ [ref]); Ok (mkDvDel ref (ie_seq pd) pos :: rest)
        end
  end.

Definition ice_read_dvs (c : IceScanCtx) (format_version : Z) : res (list IceDvDel) := read_dvs c format_version (sc_posdel c) [].

(** ** Equality deletes *)

Record IceEqRow := mkEqRow { er_vals : list (option coldatum); er_hash : Z }.

Record IceEqDel := mkEqDel {
  eq_seq : Z;
  eq_ids : list Z;
  eq_types : list Z;
  eq_buckets : list (list IceEqRow);
  eq_partitioned : bool;
  eq_spec_id : Z;
  eq_part_cells : list PgColumnarAvroPartCell
}.

Definition ICE_EQ_NULL_HASH : Z := 2654435769.

(** The hash of the equality columns' values, one by one. *)
Fixpoint eq_hash_loop (types : list Z) (vals : list (option coldatum)) (h : Z) : Z :=
  match types, vals with
  | t :: types, v :: vals => eq_hash_loop types vals (hash_combine h (match v with None => ICE_EQ_NULL_HASH | Some d => hash_op t d end))
  | _, _ => h
  end.

Definition ice_eq_hash (types : list Z) (vals : list (option coldatum)) : Z := eq_hash_loop types vals 0.

(** [while (nbuckets < nrows && nbuckets < (1U << 30)) nbuckets <<= 1] *)
Fixpoint grow_buckets (fuel : nat) (nbuckets nrows : Z) : Z :=
  match fuel with
  | O => nbuckets
  | S fuel => if (nbuckets <? nrows) && (nbuckets <? 2 ^ 30) then grow_buckets fuel (nbuckets * 2) nrows else nbuckets
  end.

Definition add_eq_row (nbuckets : Z) (buckets : list (list IceEqRow)) (row : IceEqRow) : list (list IceEqRow) :=
  alter (cons row) (Z.to_nat (Z.land (er_hash row) (nbuckets - 1))) buckets.

(** The hash table; no buckets for no rows. *)
Definition eq_table (types : list Z) (rows : list (list (option coldatum))) : list (list IceEqRow) :=
  if zlen rows =? 0 then []
  else
    let nbuckets := grow_buckets 27 16 (zlen rows) in
    foldl (add_eq_row nbuckets) (replicate (Z.to_nat nbuckets) []) (map (fun vals => mkEqRow vals (ice_eq_hash types vals)) rows).

Fixpoint eq_columns (root : json) (ids : list Z) : res (list Z * list (option (list Z * coltype))) :=
  match ids with
  | [] => Ok ([], [])
  | id :: ids =>
      ' (oid, fname) ← ice_eq_col_type root id;
      if negb (has_ops oid) then Err "iceberg: equality delete column has a type with no equality operator or hash function"
      else ' (types, atts) ← eq_columns root ids; Ok (oid :: types, Some (fname, CScalar oid (-1)) :: atts)
  end.

(** One equality-delete file that may apply. *)
Definition read_eq_delete (c : IceScanCtx) (root : json) (ed : IceEntry) : res IceEqDel :=
  if zlen (ie_eq_ids ed) =? 0 then Err "iceberg: equality delete file has no equality_ids"
  else if other_format (ie_file_format ed) then Err "iceberg: only PARQUET equality deletes are supported"
  else if negb (ie_spec_id ed).2 then Err "iceberg: the manifest list carries no partition_spec_id for an equality delete file"
  else
    partitioned ← ice_spec_is_partitioned root (ie_spec_id ed).1;
    if partitioned && ((zlen (ie_part_cells ed) =? 0) || ice_part_incomparable (ie_part_cells ed)) then Err "iceberg: equality delete has a partition tuple this reader cannot compare"
    else
      ' (types, atts) ← eq_columns root (ie_eq_ids ed);
      safe ← open_entry c (ie_file_path ed);
      rows ← PgColumnarReadParquetByFieldId stack buffered safe atts (ie_eq_ids ed) None;
      Ok (mkEqDel (ie_seq ed) (ie_eq_ids ed) types (eq_table types rows) partitioned (ie_spec_id ed).1 (if partitioned then ie_part_cells ed else [])).

Fixpoint read_eq_deletes (c : IceScanCtx) (root : json) (min_data_seq : Z) (l : list IceEntry) : res (list IceEqDel) :=
  match l with
  | [] => Ok []
  | ed :: l =>
      if ie_seq ed <=? min_data_seq then read_eq_deletes c root min_data_seq l
      else e ← read_eq_delete c root ed; es ← read_eq_deletes c root min_data_seq l; Ok (e :: es)
  end.

Definition ice_read_eq_deletes (c : IceScanCtx) (root : json) (min_data_seq : Z) : res (list IceEqDel) := read_eq_deletes c root min_data_seq (sc_eqdel c).

(** ** The probe *)

(** [dv[mape[i]]] for every column of a delete file. *)
Fixpoint gather (mape : list nat) (dv : list (option coldatum)) : res (list (option coldatum)) :=
  match mape with
  | [] => Ok []
  | k :: mape => match dv !! k with None => Oob | Some v => vs ← gather mape dv; Ok (v :: vs) end
  end.

(** Every column is equal, null only to null. *)
Fixpoint all_equal (types : list Z) (vals row : list (option coldatum)) : bool :=
  match types, vals, row with
  | t :: types, v :: vals, r :: row =>
      match v, r with
      | None, None => true
      | Some d, Some e => eq_op t d e
      | _, _ => false
      end && all_equal types vals row
  | _, _, _ => true
  end.

Definition ice_eq_file_matches (E : IceEqDel) (mape : list nat) (dv : list (option coldatum)) : res bool :=
  let nbuckets := zlen (eq_buckets E) in
  if nbuckets =? 0 then Ok false
  else
    vals ← gather mape dv;
    let h := ice_eq_hash (eq_types E) vals in
    match eq_buckets E !! Z.to_nat (Z.land h (nbuckets - 1)) with
    | None => Oob
    | Some chain => Ok (existsb (fun row => (er_hash row =? h) && all_equal (eq_types E) vals (er_vals row)) chain)
    end.

(** The union of the equality columns, with the position of each of a file's. *)
Fixpoint union_pos (uni : list (Z * Z)) (id : Z) : option nat :=
  match uni with
  | [] => None
  | (u, _) :: uni => if u =? id then Some O else S <$> union_pos uni id
  end.

Fixpoint add_columns (cols : list (Z * Z)) (uni : list (Z * Z)) : list (Z * Z) * list nat :=
  match cols with
  | [] => (uni, [])
  | (id, t) :: cols =>
      match union_pos uni id with
      | Some k => let '(uni, m) := add_columns cols uni in (uni, k :: m)
      | None => let '(uni', m) := add_columns cols (uni ++ [(id, t)]) in (uni', length uni :: m)
      end
  end.

Fixpoint union_columns (elig : list IceEqDel) (uni : list (Z * Z)) : list (Z * Z) * list (list nat) :=
  match elig with
  | [] => (uni, [])
  | E :: elig =>
      let '(uni, m) := add_columns (zip (eq_ids E) (eq_types E)) uni in
      let '(uni, ms) := union_columns elig uni in
      (uni, m :: ms)
  end.

Fixpoint any_matches (elig : list IceEqDel) (maps : list (list nat)) (dv : list (option coldatum)) : res bool :=
  match elig, maps with
  | [], _ => Ok false
  | E :: elig, m :: maps => b ← ice_eq_file_matches E m dv; if b : bool then Ok true else any_matches elig maps dv
  | _ :: _, [] => Oob
  end.

(** The ordinals of the rows that an eligible delete file matches. *)
Fixpoint probe_rows (elig : list IceEqDel) (maps : list (list nat)) (ord : Z) (rows : list (list (option coldatum))) : res (list Z) :=
  match rows with
  | [] => Ok []
  | dv :: rows =>
      matched ← any_matches elig maps dv;
      rest ← probe_rows elig maps (ord + 1) rows;
      Ok (if matched : bool then ord :: rest else rest)
  end.

(** ["eq%d"] *)
Definition probe_att (u : Z * Z) : option (list Z * coltype) := Some (str "eq" ++ decimal_text u.1 0, CScalar u.2 (-1)).

(** The ordinals and the number of rows. *)
Definition ice_eq_probe (c : IceScanCtx) (d : IceEntry) (elig : list IceEqDel) : res (list Z * Z) :=
  let '(uni, maps) := union_columns elig [] in
  safe ← open_entry c (ie_file_path d);
  rows ← PgColumnarReadParquetByFieldId stack buffered safe (map probe_att uni) (map fst uni) None;
  skip ← probe_rows elig maps 0 rows;
  Ok (skip, zlen rows).

(** ** The scan *)

Definition dv_applies (d : IceEntry) (dv : IceDvDel) : bool := (ie_seq d <=? dv_seq dv) && ice_path_eq (dv_dpath dv) (ie_file_path d).

(** The positions that deletion vectors and position deletes drop. *)
Definition position_skips (posidx : gmap Z (list IcePosGroup)) (dvdels : list IceDvDel) (d : IceEntry) : list Z :=
  if existsb (dv_applies d) dvdels then concat (map (fun dv => if dv_applies d dv then dv_pos dv else []) dvdels)
  else concat (map (fun pd => if ie_seq d <=? pd_seq pd then [pd_pos pd] else []) (ice_pos_deletes_for posidx (ie_file_path d))).

(** The equality-delete files to probe for. *)
Fixpoint eligible (d : IceEntry) (eqdels : list IceEqDel) : res (list IceEqDel) :=
  match eqdels with
  | [] => Ok []
  | E :: eqdels =>
      if eq_seq E <=? ie_seq d then eligible d eqdels
      else if eq_partitioned E then
        if negb (ie_spec_id d).2 then Err "iceberg: data file carries no partition_spec_id"
        else if negb (eq_spec_id E =? (ie_spec_id d).1) then eligible d eqdels
        else if ice_part_incomparable (ie_part_cells d) then Err "iceberg: data file has a partition tuple this reader cannot compare"
        else if negb (ice_part_cells_equal (eq_part_cells E) (ie_part_cells d)) then eligible d eqdels
        else es ← eligible d eqdels; Ok (E :: es)
      else es ← eligible d eqdels; Ok (E :: es)
  end.

(** Neighbours that are equal are kept once. *)
Fixpoint dedup (l : list Z) : list Z :=
  match l with
  | a :: (b :: _) as rest => if a =? b then dedup rest else a :: dedup rest
  | _ => l
  end.

Definition sorted_skip (skip : list Z) : list Z := if 1 <? zlen skip then dedup (merge_sort Z.le skip) else skip.

Record ScanArgs := mkScanArgs { sa_atts : list (option (list Z * coltype)); sa_field_ids : list Z; sa_nm : list (list Z * Z); sa_needTop : option (list bool); sa_filter : option (IceEntry -> bool) }.

Definition scan_file (c : IceScanCtx) (args : ScanArgs) (posidx : gmap Z (list IcePosGroup)) (dvdels : list IceDvDel) (eqdels : list IceEqDel) (d : IceEntry) : res (list (list (option coldatum))) :=
  if other_format (ie_file_format d) then Err "iceberg: only PARQUET is supported"
  else
    let skip := position_skips posidx dvdels d in
    elig ← eligible d eqdels;
    ' (more, probe) ← match elig with
                      | [] => Ok ([], None)
                      | _ => ' (more, n) ← ice_eq_probe c d elig; Ok (more, Some n)
                      end;
    let skip := sorted_skip (skip ++ more) in
    safe ← open_entry c (ie_file_path d);
    rows ← PgColumnarReadParquetByFieldIdNM stack buffered safe (sa_atts args) (sa_field_ids args) (sa_nm args) (match skip with [] => None | _ => Some skip end) (sa_needTop args);
    match probe with
    | Some n =>
        let expect := n - zlen (filter (fun p => p < n) skip) in
        if negb (zlen rows =? expect) then Err "iceberg: data file returned another number of rows than expected after deletes" else Ok rows
    | None => Ok rows
    end.

(** The rows and the number of files that were pruned. *)
Fixpoint scan_files (c : IceScanCtx) (args : ScanArgs) (posidx : gmap Z (list IcePosGroup)) (dvdels : list IceDvDel) (eqdels : list IceEqDel) (l : list IceEntry) : res (list (list (option coldatum)) * Z) :=
  match l with
  | [] => Ok ([], 0)
  | d :: l =>
      if match sa_filter args with Some f => f d | None => false end then
        ' (rows, pruned) ← scan_files c args posidx dvdels eqdels l; Ok (rows, pruned + 1)
      else
        rows ← scan_file c args posidx dvdels eqdels d;
        ' (rest, pruned) ← scan_files c args posidx dvdels eqdels l;
        Ok (rows ++ rest, pruned)
  end.

Definition PG_INT64_MAX : Z := 2 ^ 63 - 1.

Definition PgColumnarIcebergScanCore (path : list Z) (atts : list (option (list Z * coltype))) (filter_ : option (IceEntry -> bool)) (needTop : option (list bool)) : res (list (list (option coldatum)) * Z) :=
  root ← ice_read_metadata path;
  field_ids ← ice_field_ids_for_columns root atts;
  nm ← ice_name_mapping root;
  c ← ice_walk_data_files stack ice_scan_cb path root true (mkScanCtx None [] [] []);
  posdels ← ice_read_pos_deletes c;
  let posidx := ice_index_pos_deletes posdels in
  fmtver ← ice_num_int64 (ice_field root (str "format-version"));
  match fmtver with
  | None => Err "iceberg: non-numeric format-version"
  | Some fmtver =>
      dvdels ← ice_read_dvs c fmtver;
      let min_data_seq := foldl (fun m d => Z.min m (ie_seq d)) PG_INT64_MAX (sc_data c) in
      eqdels ← ice_read_eq_deletes c root min_data_seq;
      scan_files c (mkScanArgs atts field_ids nm needTop filter_) posidx dvdels eqdels (sc_data c)
  end.

End Scan.
