(* ===== verification/IcebergDeletes.v ===== *)
(** * Deletes of an Iceberg table are applied

    The index of position deletes and the hash tables of equality deletes against
    plain searches, the skip set against the set of deleted ordinals, and the
    theorem: a scan returns, file by file and in order, exactly the rows that the
    table's deletes leave.  Which deletes apply to a data file is stated on the
    live entries of the manifests ([vector_applies], [listed], [covers],
    [equality_applies]), without the tests of the code. *)

From stdpp Require Import sorting gmap.
From S2P Require Import Prelude Codec Compress Thrift ParquetCodec ParquetTypes ParquetValues ParquetPage ParquetRows ParquetMeta ParquetFile ParquetReadSafe ParquetSkip Jsonb Puffin Avro AvroSafe AvroRead AvroFile IcebergPath IcebergMeta IcebergWalk IcebergScan.

(** ** Arithmetic *)

Lemma land_below a m : 0 < m -> 0 <= Z.land a (m - 1) < m.
Proof.
  intros Hm. assert (H0 : 0 <= Z.land a (m - 1)) by (apply Z.land_nonneg; lia). split; [done|].
  assert (E : m - 1 = Z.land a (m - 1) + Z.ldiff (m - 1) a).
  { rewrite Z.add_nocarry_lxor, Z.lxor_lor; [| |]; apply Z.bits_inj'; intros n Hn; rewrite ?Z.lor_spec, ?Z.land_spec, ?Z.ldiff_spec, ?Z.land_spec, ?Z.bits_0; destruct (Z.testbit a n), (Z.testbit (m - 1) n); done. }
  assert (0 <= Z.ldiff (m - 1) a) by (apply Z.ldiff_nonneg; lia). lia.
Qed.

(** ** Position deletes by data file *)

Lemma path_eq_cong a b c : ice_path_eq a b = true -> ice_path_eq a c = ice_path_eq b c.
Proof. intros E%path_eq_tail. unfold ice_path_eq. by rewrite E. Qed.

Lemma path_eq_sym a b : ice_path_eq a b = ice_path_eq b a.
Proof.
  destruct (ice_path_eq a b) eqn:E; symmetry; [apply path_eq_tail; symmetry; by apply path_eq_tail|].
  destruct (ice_path_eq b a) eqn:E'; [|done]. apply path_eq_tail in E'. assert (ice_path_eq a b = true) by (by apply path_eq_tail). congruence.
Qed.

Section Index.
Context `{T : PgTypes} `{HO : !HashOps}.

Definition group_rows_of (groups : list IcePosGroup) (dp : list Z) : list IcePosDel := match ice_posdel_group groups dp with Some g => pg_rows g | None => [] end.

(** The rows of the same file as [pd]. *)
Definition row_for (dp : list Z) (pd : IcePosDel) : list IcePosDel := if ice_path_eq (pd_dpath pd) dp then [pd] else [].

Lemma add_to_groups_rows groups pd dp : group_rows_of (add_to_groups groups pd) dp = group_rows_of groups dp ++ row_for dp pd.
Proof using.
  unfold group_rows_of, row_for. induction groups as [|g groups IH]; cbn [add_to_groups ice_posdel_group].
  - cbn [pg_path]. by destruct (ice_path_eq (pd_dpath pd) dp).
  - destruct (ice_path_eq (pg_path g) (pd_dpath pd)) eqn:E; cbn [ice_posdel_group pg_path].
    + rewrite (path_eq_cong _ _ dp E). destruct (ice_path_eq (pd_dpath pd) dp) eqn:Ed; [done|]. by rewrite app_nil_r.
    + destruct (ice_path_eq (pg_path g) dp) eqn:Eg; [|done]. destruct (ice_path_eq (pd_dpath pd) dp) eqn:Ed; [|by rewrite app_nil_r].
      rewrite path_eq_sym in Ed. rewrite (path_eq_cong _ _ (pd_dpath pd) Eg), Ed in E. done.
Qed.

Lemma posdel_hash_eq a b : ice_path_eq a b = true -> ice_posdel_hash a = ice_posdel_hash b.
Proof using. intros E%path_eq_tail. unfold ice_posdel_hash. by rewrite E. Qed.

Lemma pos_deletes_for_rows idx dp : ice_pos_deletes_for idx dp = group_rows_of (default [] (idx !! ice_posdel_hash dp)) dp.
Proof using. unfold ice_pos_deletes_for. by destruct (idx !! ice_posdel_hash dp). Qed.

Lemma add_pos_delete_for idx pd dp : ice_pos_deletes_for (add_pos_delete idx pd) dp = ice_pos_deletes_for idx dp ++ row_for dp pd.
Proof using.
  rewrite !pos_deletes_for_rows. unfold add_pos_delete. destruct (decide (ice_posdel_hash (pd_dpath pd) = ice_posdel_hash dp)) as [E|E].
  - rewrite E, lookup_insert_eq. cbn [from_option id]. apply add_to_groups_rows.
  - rewrite lookup_insert_ne by done. unfold row_for. destruct (ice_path_eq (pd_dpath pd) dp) eqn:Ep; [by apply posdel_hash_eq in Ep|]. by rewrite app_nil_r.
Qed.

(** The index finds, for a data file, the delete rows that name it, in order, and
    no others, whatever the hash function. *)
Lemma index_finds posdels dp : ice_pos_deletes_for (ice_index_pos_deletes posdels) dp = concat (map (row_for dp) posdels).
Proof using.
  unfold ice_index_pos_deletes. induction posdels as [|pd posdels IH] using rev_ind; [done|]. rewrite foldl_app. cbn [foldl]. rewrite add_pos_delete_for, IH, map_app, concat_app. cbn [map concat]. by rewrite app_nil_r.
Qed.

End Index.

(** ** Equality deletes *)

Class HashOpsLaws `{T : PgTypes} (HO : HashOps) : Prop := { eq_hash : forall t a b, eq_op t a b = true -> hash_op t a = hash_op t b }.

Section EqTable.
Context `{T : PgTypes} `{HO : !HashOps} `{HL : !HashOpsLaws HO}.

Lemma all_equal_hash types vals row : length vals = length types -> length row = length types -> all_equal types vals row = true -> ice_eq_hash types vals = ice_eq_hash types row.
Proof using HL.
  unfold ice_eq_hash. generalize 0. revert vals row. induction types as [|t types IH]; intros [|v vals] [|r row] h Hv Hr; try done. cbn [all_equal eq_hash_loop]. intros [H1 H2]%andb_true_iff.
  assert (E : match v with None => ICE_EQ_NULL_HASH | Some d => hash_op t d end = match r with None => ICE_EQ_NULL_HASH | Some d => hash_op t d end) by (destruct v, r; try done; by apply eq_hash).
  rewrite E. apply IH; [by injection Hv|by injection Hr|done].
Qed.

(** The rows of a bucket. *)
Lemma add_rows_lookup nb rows buckets b : foldl (add_eq_row nb) buckets rows !! b = (fun chain => rev (filter (fun row => Z.to_nat (Z.land (er_hash row) (nb - 1)) = b) rows) ++ chain) <$> buckets !! b.
Proof using.
  revert buckets. induction rows as [|row rows IH]; intros buckets; cbn [foldl]; [by destruct (buckets !! b)|]. rewrite IH. unfold add_eq_row. rewrite filter_cons. destruct (decide _) as [E|E].
  - rewrite <- E, list_lookup_alter_eq. destruct (buckets !! _); [|done]. cbn [fmap option_fmap option_map rev]. by rewrite <- app_assoc.
  - by rewrite list_lookup_alter_ne.
Qed.

Lemma grow_buckets_pos fuel nb n : 0 < nb -> 0 < grow_buckets fuel nb n.
Proof using. revert nb. induction fuel as [|fuel IH]; intros nb Hnb; cbn [grow_buckets]; [done|]. destruct (_ && _); [apply IH; lia|done]. Qed.

Lemma length_foldl_rows nb rows buckets : length (foldl (add_eq_row nb) buckets rows) = length buckets.
Proof using. revert buckets. induction rows as [|row rows IH]; intros buckets; cbn [foldl]; [done|]. rewrite IH. unfold add_eq_row. by rewrite length_alter. Qed.

(** The hash table of a delete file finds a match exactly when some row matches. *)
Lemma eq_table_matches types rows E mape dv vals : eq_types E = types -> eq_buckets E = eq_table types rows -> gather mape dv = Ok vals -> length vals = length types -> Forall (fun row => length row = length types) rows ->
  ice_eq_file_matches E mape dv = Ok (existsb (all_equal types vals) rows).
Proof using HL.
  intros Et Eb Hg Hv Hrows. unfold ice_eq_file_matches. rewrite Eb, Et. unfold eq_table. destruct (Z.eqb_spec (zlen rows) 0) as [H0|H0].
  { destruct rows as [|r rows]; [done|]. rewrite zlen_cons in H0. pose proof (zlen_nonneg rows). lia. }
  cbv zeta. set (nb := grow_buckets 27 16 (zlen rows)). assert (Hnb : 0 < nb) by (apply grow_buckets_pos; lia).
  set (hashed := map (fun vals => mkEqRow vals (ice_eq_hash types vals)) rows).
  assert (Hl : zlen (foldl (add_eq_row nb) (replicate (Z.to_nat nb) []) hashed) = nb) by (unfold zlen; rewrite length_foldl_rows, length_replicate; lia). rewrite Hl, (proj2 (Z.eqb_neq nb 0)) by lia. rewrite Hg, bind_Ok.
  set (h := ice_eq_hash types vals). assert (Hb : 0 <= Z.land h (nb - 1) < nb) by (apply land_below; lia).
  rewrite add_rows_lookup, lookup_replicate_2 by lia. cbn [fmap option_fmap option_map]. rewrite app_nil_r. f_equal.
  apply eq_true_iff_eq. rewrite !List.existsb_exists. setoid_rewrite <- list_elem_of_In. split.
  - intros (row & Hin & [Hh Ha]%andb_true_iff). apply list_elem_of_In, List.in_rev, list_elem_of_In, list_elem_of_filter in Hin as [_ Hin]. apply list_elem_of_In, List.in_map_iff in Hin as (r & <- & Hr%list_elem_of_In). by exists r.
  - intros (r & Hr & Ha). pose proof (proj1 (list.Forall_forall _ _) Hrows r Hr) as Hlr. pose proof (all_equal_hash types vals r Hv Hlr Ha) as Eh.
    exists (mkEqRow r (ice_eq_hash types r)). cbn [er_hash er_vals]. rewrite <- Eh. fold h. rewrite Z.eqb_refl, Ha. split; [|done].
    apply list_elem_of_In, List.in_rev. rewrite rev_involutive. apply list_elem_of_In, list_elem_of_filter. cbn [er_hash]. split; [done|]. apply list_elem_of_In. unfold h. rewrite Eh. by apply (List.in_map (fun vals => mkEqRow vals (ice_eq_hash types vals))), list_elem_of_In.
Qed.

End EqTable.

(** ** The skip set *)

Lemma dedup_spec l : StronglySorted Z.le l -> StronglySorted Z.lt (dedup l) /\ (forall x, x ∈ dedup l <-> x ∈ l).
Proof.
  induction l as [|a [|b l] IH]; intros Hs; [split; [constructor|done]|split; [repeat constructor|done]|]. apply StronglySorted_inv in Hs as [Hs Ha]. destruct (IH Hs) as [H1 H2]. cbn [dedup]. fold (dedup (b :: l)).
  destruct (Z.eqb_spec a b) as [->|Hne].
  - split; [done|]. intros x. rewrite H2, !elem_of_cons. intuition.
  - split; [|intros x; by rewrite !elem_of_cons, H2, !elem_of_cons]. constructor; [done|]. apply list.Forall_forall. intros x Hx%H2. apply Forall_cons_1 in Ha as [Hab Hal]. apply StronglySorted_inv in Hs as [_ Hb].
    apply elem_of_cons in Hx as [->|Hx]; [lia|]. pose proof (proj1 (list.Forall_forall _ _) Hb x Hx). lia.
Qed.

Lemma sorted_skip_spec l : StronglySorted Z.lt (sorted_skip l) /\ (forall x, x ∈ sorted_skip l <-> x ∈ l).
Proof.
  unfold sorted_skip. destruct (Z.ltb_spec 1 (zlen l)) as [_|Hl].
  - destruct (dedup_spec (merge_sort Z.le l)) as [H1 H2]; [apply StronglySorted_merge_sort; apply _|]. split; [done|]. intros x. rewrite H2. by rewrite merge_sort_Permutation.
  - split; [|done]. destruct l as [|a [|b l]]; [constructor|repeat constructor|]. rewrite !zlen_cons in Hl. pose proof (zlen_nonneg l). lia.
Qed.

Lemma filter_agree (P Q : Z -> Prop) `{!forall x, Decision (P x)} `{!forall x, Decision (Q x)} (l : list Z) : Forall (fun x => P x <-> Q x) l -> filter P l = filter Q l.
Proof. induction 1 as [|x l Hx _ IH]; [done|]. rewrite !filter_cons, IH. destruct (decide (P x)), (decide (Q x)); tauto. Qed.

Lemma filter_range_step (skip : list Z) lo hi : NoDup skip -> lo < hi -> zlen (filter (fun p => lo <= p < hi) skip) = (if decide (lo ∈ skip) then 1 else 0) + zlen (filter (fun p => lo + 1 <= p < hi) skip).
Proof.
  intros Hd Hlt. induction Hd as [|x skip Hx _ IH]; [rewrite decide_False by apply not_elem_of_nil; done|]. rewrite !filter_cons.
  destruct (decide (x = lo)) as [->|Hne].
  - rewrite (decide_True (P := lo ∈ lo :: skip)) by (by left). rewrite (decide_False (P := lo ∈ skip)) in IH by done. rewrite decide_True by lia. rewrite (decide_False (P := lo + 1 <= lo < hi)) by lia. rewrite zlen_cons. lia.
  - assert (E : (if decide (lo ∈ x :: skip) then 1 else 0) = (if decide (lo ∈ skip) then 1 else 0)).
    { destruct (decide (lo ∈ skip)) as [Hi|Hi]; [rewrite decide_True by (by right); done|]. rewrite decide_False; [done|]. rewrite elem_of_cons. intuition congruence. }
    rewrite E. destruct (decide (lo <= x < hi)) as [Hi|Hi].
    + rewrite (decide_True (P := lo + 1 <= x < hi)) by lia. rewrite !zlen_cons. lia.
    + rewrite (decide_False (P := lo + 1 <= x < hi)) by lia. done.
Qed.

Lemma keep_from_length {A} (skip : list Z) (rows : list A) ord : NoDup skip -> zlen (keep_from ord skip rows) + zlen (filter (fun p => ord <= p < ord + zlen rows) skip) = zlen rows.
Proof.
  intros Hd. revert ord. induction rows as [|r rows IH]; intros ord; cbn [keep_from].
  - rewrite zlen_nil, Z.add_0_r. rewrite (filter_agree (fun p => ord <= p < ord) (fun _ => False)) by (apply list.Forall_forall; intros; lia). clear. by induction skip.
  - pose proof (zlen_nonneg rows). rewrite zlen_app, zlen_cons, filter_range_step by (done || lia). specialize (IH (ord + 1)). replace (ord + 1 + zlen rows) with (ord + (1 + zlen rows)) in IH by lia.
    destruct (decide (ord ∈ skip)); rewrite ?zlen_cons, ?zlen_nil; lia.
Qed.

Lemma strict_nodup (l : list Z) : StronglySorted Z.lt l -> NoDup l.
Proof. induction 1 as [|a l Hs IH Ha]; constructor; [|done]. intros Hin. pose proof (proj1 (list.Forall_forall _ _) Ha a Hin). lia. Qed.

(** The number of rows the scan expects. *)
Lemma keep_expected {A} (skip : list Z) (rows : list A) : StronglySorted Z.lt skip -> Forall (fun p => 0 <= p) skip -> zlen (keep_from 0 skip rows) = zlen rows - zlen (filter (fun p => p < zlen rows) skip).
Proof.
  intros Hs H0. pose proof (keep_from_length skip rows 0 (strict_nodup _ Hs)) as E. rewrite Z.add_0_l in E.
  rewrite (filter_agree _ (fun p => p < zlen rows)) in E by (eapply Forall_weaken; [exact H0|]; intros p; cbn; lia). lia.
Qed.

Lemma filter_map_comm {A B} (f : A -> B) (p : B -> bool) l : List.filter p (map f l) = map f (List.filter (fun x => p (f x)) l).
Proof. induction l as [|x l IH]; [done|]. cbn [map List.filter]. destruct (p (f x)); cbn [map]; by rewrite IH. Qed.

(** ** The probe *)

Section Probe.
Context `{T : PgTypes} `{HO : !HashOps} `{HL : !HashOpsLaws HO}.

Lemma union_pos_spec uni id : match union_pos uni id with Some k => exists t, uni !! k = Some (id, t) | None => id ∉ map fst uni end.
Proof using.
  induction uni as [|[u t] uni IH]; cbn [union_pos map fst]; [apply not_elem_of_nil|]. destruct (Z.eqb_spec u id) as [->|Hne]; [by exists t|].
  destruct (union_pos uni id) as [k|]; cbn [fmap option_fmap option_map]; [done|]. rewrite elem_of_cons. intuition congruence.
Qed.

Lemma add_columns_spec (P : Z * Z -> Prop) cols : forall uni uni' m, add_columns cols uni = (uni', m) -> NoDup (map fst uni) -> Forall P uni -> Forall P cols ->
  (exists ext, uni' = uni ++ ext) /\ NoDup (map fst uni') /\ Forall P uni' /\ Forall2 (fun c k => exists t, uni' !! k = Some (c.1, t)) cols m.
Proof using.
  induction cols as [|[id t] cols IH]; intros uni uni' m E Hd Hu Hc; cbn [add_columns] in E.
  { injection E as <- <-. split; [by exists []; rewrite app_nil_r|]. done. }
  apply Forall_cons_1 in Hc as [H1 Hc]. pose proof (union_pos_spec uni id) as Hp. destruct (union_pos uni id) as [k|].
  - destruct (add_columns cols uni) as [u1 m1] eqn:E1. injection E as <- <-. destruct (IH _ _ _ E1 Hd Hu Hc) as ([ext ->] & H2 & H3 & H4). split; [by exists ext|]. split; [done|]. split; [done|]. constructor; [|done].
    destruct Hp as [t' Hk]. exists t'. by apply lookup_app_l_Some.
  - destruct (add_columns cols (uni ++ [(id, t)])) as [u1 m1] eqn:E1. injection E as <- <-. destruct (IH _ _ _ E1) as ([ext ->] & H2 & H3 & H4); [|apply Forall_app; split; [done|by apply Forall_singleton]|done|].
    { rewrite map_app. cbn [map fst]. apply list.NoDup_app. split; [done|]. split; [|apply NoDup_singleton]. intros x Hx [->|?%not_elem_of_nil]%elem_of_cons; done. }
    split; [exists ([(id, t)] ++ ext); by rewrite <- app_assoc|]. split; [done|]. split; [done|]. constructor; [|done]. exists t. cbn [fst]. rewrite <- app_assoc. apply (list_lookup_middle uni ext (id, t) _ eq_refl).
Qed.

Lemma union_columns_spec (P : Z * Z -> Prop) elig : forall uni uni' ms, union_columns elig uni = (uni', ms) -> NoDup (map fst uni) -> Forall P uni -> Forall (fun E => Forall P (zip (eq_ids E) (eq_types E))) elig ->
  (exists ext, uni' = uni ++ ext) /\ NoDup (map fst uni') /\ Forall P uni' /\ Forall2 (fun E m => Forall2 (fun c k => exists t, uni' !! k = Some (c.1, t)) (zip (eq_ids E) (eq_types E)) m) elig ms.
Proof using.
  induction elig as [|E elig IH]; intros uni uni' ms Eq Hd Hu He; cbn [union_columns] in Eq.
  { injection Eq as <- <-. split; [by exists []; rewrite app_nil_r|]. done. }
  apply Forall_cons_1 in He as [H1 He]. destruct (add_columns _ uni) as [u1 m1] eqn:E1. destruct (union_columns elig u1) as [u2 m2] eqn:E2. injection Eq as <- <-.
  destruct (add_columns_spec P _ _ _ _ E1 Hd Hu H1) as ([ext1 X1] & D1 & P1 & F1). destruct (IH _ _ _ E2 D1 P1 He) as ([ext2 X2] & D2 & P2 & F2).
  split; [exists (ext1 ++ ext2); by rewrite X2, X1, <- app_assoc|]. split; [done|]. split; [done|]. constructor; [|done]. eapply Forall2_impl; [|exact F1]. intros c k [t Hk]. exists t. rewrite X2. by apply lookup_app_l_Some.
Qed.

(** The values of a delete file's columns in the row the probe read. *)
Lemma gather_spec (uni cols : list (Z * Z)) m (col : Z -> option coldatum) : Forall2 (fun c k => exists t, uni !! k = Some (c.1, t)) cols m -> gather m (map (fun u => col u.1) uni) = Ok (map (fun c => col c.1) cols).
Proof using.
  induction 1 as [|[id t] k cols m [t' Hk] _ IH]; [done|]. cbn [gather map fst]. rewrite list_lookup_fmap, Hk. cbn [fmap option_fmap option_map]. by rewrite IH.
Qed.

(** A delete file with its rows. *)
Definition eq_del_of (E : IceEqDel) (rows : list (list (option coldatum))) : Prop :=
  length (eq_ids E) = length (eq_types E) /\ eq_buckets E = eq_table (eq_types E) rows /\ Forall (fun row => length row = length (eq_types E)) rows.

Definition row_matches (col : Z -> option coldatum) (E : IceEqDel) (rows : list (list (option coldatum))) : bool := existsb (all_equal (eq_types E) (map col (eq_ids E))) rows.

Lemma any_matches_spec (uni : list (Z * Z)) (col : Z -> option coldatum) elig ms files : Forall2 eq_del_of elig files -> Forall2 (fun E m => Forall2 (fun c k => exists t, uni !! k = Some (c.1, t)) (zip (eq_ids E) (eq_types E)) m) elig ms ->
  any_matches elig ms (map (fun u => col u.1) uni) = Ok (existsb (fun Ef : IceEqDel * list (list (option coldatum)) => row_matches col Ef.1 Ef.2) (zip elig files)).
Proof using HL.
  intros Hf. revert ms. induction Hf as [|E rows elig files (Hl & Hb & Hr) _ IH]; intros ms Hm; inversion Hm as [|? m ? ms' H1 H2]; subst; [done|]. cbn [any_matches zip zip_with existsb fst snd].
  pose proof (gather_spec uni _ _ col H1) as Hg.
  assert (Em : map (fun c : Z * Z => col c.1) (zip (eq_ids E) (eq_types E)) = map col (eq_ids E)) by (rewrite <- (fst_zip (eq_ids E) (eq_types E)) at 2 by lia; by rewrite map_map).
  rewrite Em in Hg. rewrite (eq_table_matches (eq_types E) rows E _ _ _ eq_refl Hb Hg) by (try done; by rewrite length_map). rewrite bind_Ok. fold (row_matches col E rows). destruct (row_matches col E rows); [done|]. by apply IH.
Qed.

(** The ordinals of the rows a delete file matches. *)
Fixpoint matched_from {A} (P : A -> bool) (ord : Z) (rows : list A) : list Z := match rows with [] => [] | r :: rows => (if P r then [ord] else []) ++ matched_from P (ord + 1) rows end.

Lemma probe_rows_spec (uni : list (Z * Z)) (cols : list (Z -> option coldatum)) elig ms files : Forall2 eq_del_of elig files -> Forall2 (fun E m => Forall2 (fun c k => exists t, uni !! k = Some (c.1, t)) (zip (eq_ids E) (eq_types E)) m) elig ms ->
  forall ord, probe_rows elig ms ord (map (fun col : Z -> option coldatum => map (fun u : Z * Z => col u.1) uni) cols) = Ok (matched_from (fun col => existsb (fun Ef : IceEqDel * list (list (option coldatum)) => row_matches col Ef.1 Ef.2) (zip elig files)) ord cols).
Proof using HL.
  intros Hf Hm. induction cols as [|col cols IH]; intros ord; cbn [map probe_rows matched_from]; [done|]. rewrite (any_matches_spec uni col elig ms files Hf Hm), bind_Ok, IH, bind_Ok. by destruct (existsb _ _).
Qed.

Lemma matched_none {A} (rows : list A) ord : matched_from (fun _ => false) ord rows = [].
Proof using. revert ord. induction rows as [|r rows IH]; intros ord; [done|]. cbn [matched_from app]. apply IH. Qed.

Lemma matched_from_spec {A} (P : A -> bool) (rows : list A) : forall ord x, x ∈ matched_from P ord rows <-> exists i r, rows !! i = Some r /\ x = ord + Z.of_nat i /\ P r = true.
Proof using.
  induction rows as [|r rows IH]; intros ord x; cbn [matched_from].
  { split; [by intros ?%not_elem_of_nil|]. by intros ([] & ? & ? & _). }
  rewrite elem_of_app, IH. split.
  - intros [H|(i & r' & Hr & -> & HP)]; [|exists (S i), r'; split; [done|]; split; [lia|done]]. destruct (P r) eqn:Ep; [|by apply not_elem_of_nil in H]. apply list_elem_of_singleton in H as ->. exists O, r. split; [done|]. split; [lia|done].
  - intros ([|i] & r' & Hr & -> & HP); [left|right]. { injection Hr as ->. rewrite HP. apply list_elem_of_singleton. lia. } exists i, r'. split; [done|]. split; [lia|done].
Qed.

End Probe.

(** ** What a scan returns *)

(** The rows of a file from ordinal [ord] on that are not deleted, in order. *)
Inductive survive {A} (deleted : Z -> Prop) : Z -> list A -> list A -> Prop :=
| survive_nil ord : survive deleted ord [] []
| survive_drop ord r rows out : deleted ord -> survive deleted (ord + 1) rows out -> survive deleted ord (r :: rows) out
| survive_keep ord r rows out : ~ deleted ord -> survive deleted (ord + 1) rows out -> survive deleted ord (r :: rows) (r :: out).

Lemma keep_survive {A} (deleted : Z -> Prop) skip (rows : list A) : forall ord, (forall x, x ∈ skip <-> deleted x) -> survive deleted ord rows (keep_from ord skip rows).
Proof. induction rows as [|r rows IH]; intros ord H; cbn [keep_from]; [constructor|]. destruct (decide (ord ∈ skip)) as [Hi|Hi]; cbn [app]; constructor; try (by apply IH); by rewrite <- H. Qed.

Section Applied.
Context `{N : Numerics} `{J : !JsonbIn} `{CR : Crc32} `{RI : RawInflate} `{TE : TextEnv} `{PE : PathEnv} `{FS : IceFiles} `{T : PgTypes} `{TC : !TypmodCoercion} `{C : BlockCodecs} `{ZL : Zlib} `{PO : ParquetObjects}.
Context `{HO : !HashOps} `{HL : !HashOpsLaws HO} (stack : nat) (buffered : bool).

(** The positions a file loses to the deletion vectors and position deletes that
    were read. *)
Definition position_dropped (posdels : list IcePosDel) (dvs : list IceDvDel) (d : IceEntry) (i : Z) : Prop :=
  (exists dv, dv ∈ dvs /\ dv_applies d dv = true /\ i ∈ dv_pos dv) \/
  ((forall dv, dv ∈ dvs -> dv_applies d dv = false) /\ exists pd, pd ∈ posdels /\ ice_path_eq (pd_dpath pd) (ie_file_path d) = true /\ ie_seq d <= pd_seq pd /\ pd_pos pd = i).

Definition reads_rows (c : IceScanCtx) (path : list Z) (atts : list (option (list Z * coltype))) (ids : list Z) (rows : list (list (option coldatum))) : Prop :=
  exists safe, open_entry c path = Ok safe /\ PgColumnarReadParquetByFieldId stack buffered safe atts ids None = Ok rows.

(** The test of an equality delete's scope. *)
Definition in_scope (root : json) (d ed : IceEntry) : Prop :=
  exists part, ice_spec_is_partitioned root (ie_spec_id ed).1 = Ok part /\
    (part = true -> (ie_spec_id ed).1 = (ie_spec_id d).1 /\ ice_part_cells_equal (ie_part_cells ed) (ie_part_cells d) = true).

(** The match of a row with the rows of an equality delete. *)
Definition equality_hit (c : IceScanCtx) (root : json) (d : IceEntry) (col : Z -> option coldatum) : Prop :=
  exists ed types atts rows row, ed ∈ sc_eqdel c /\ ie_seq d < ie_seq ed /\ in_scope root d ed /\ eq_columns root (ie_eq_ids ed) = Ok (types, atts) /\
    reads_rows c (ie_file_path ed) atts (ie_eq_ids ed) rows /\ row ∈ rows /\ all_equal types (map col (ie_eq_ids ed)) row = true.

(** The equality columns of the deletes that apply to a file, each once. *)
Definition probed_columns (c : IceScanCtx) (root : json) (d : IceEntry) (uni : list (Z * Z)) : Prop :=
  NoDup (map fst uni) /\ uni <> [] /\
  forall id t, (id, t) ∈ uni <-> exists ed nm, ed ∈ sc_eqdel c /\ ie_seq d < ie_seq ed /\ in_scope root d ed /\ id ∈ ie_eq_ids ed /\ ice_eq_col_type root id = Ok (t, nm).

(** What the reads of a data file deliver. *)
Record file_reads (c : IceScanCtx) (root : json) (args : ScanArgs) (d : IceEntry) (cols : list (Z -> option coldatum)) (rows : list (list (option coldatum))) : Prop := mkFileReads {
  fr_format : other_format (ie_file_format d) = false;
  fr_scope : forall ed, ed ∈ sc_eqdel c -> ie_seq d < ie_seq ed -> ice_spec_is_partitioned root (ie_spec_id ed).1 = Ok true ->
    (ie_spec_id d).2 = true /\ ((ie_spec_id ed).1 = (ie_spec_id d).1 -> ice_part_incomparable (ie_part_cells d) = false);
  fr_reads : exists safe, open_entry c (ie_file_path d) = Ok safe /\ PgColumnarReadParquetByFieldIdNM stack buffered safe (sa_atts args) (sa_field_ids args) (sa_nm args) None (sa_needTop args) = Ok rows /\
    forall uni, probed_columns c root d uni -> PgColumnarReadParquetByFieldId stack buffered safe (map probe_att uni) (map fst uni) None = Ok (map (fun col => map (fun u => col u.1) uni) cols);
  fr_length : length cols = length rows
}.

Definition dropped (c : IceScanCtx) (root : json) (posdels : list IcePosDel) (dvs : list IceDvDel) (d : IceEntry) (cols : list (Z -> option coldatum)) (i : Z) : Prop :=
  position_dropped posdels dvs d i \/ exists k col, cols !! k = Some col /\ i = Z.of_nat k /\ equality_hit c root d col.

Lemma position_skips_spec posdels dvs d i : i ∈ position_skips (ice_index_pos_deletes posdels) dvs d <-> position_dropped posdels dvs d i.
Proof using.
  unfold position_skips, position_dropped. rewrite index_finds. destruct (existsb (dv_applies d) dvs) eqn:E.
  - apply List.existsb_exists in E as (dv0 & Hin0%list_elem_of_In & H0). rewrite list_elem_of_In, List.in_concat. split.
    + intros (l & (dv & <- & Hin%list_elem_of_In)%List.in_map_iff & Hi). left. exists dv. destruct (dv_applies d dv) eqn:Ea; [|done]. split; [done|]. split; [done|]. by apply list_elem_of_In.
    + intros [(dv & Hin & Ha & Hi)|[Hno _]]; [|by rewrite Hno in H0]. exists (dv_pos dv). split; [|by apply list_elem_of_In]. apply List.in_map_iff. exists dv. rewrite Ha. split; [done|]. by apply list_elem_of_In.
  - assert (Hno : forall dv, dv ∈ dvs -> dv_applies d dv = false).
    { intros dv Hin%list_elem_of_In. destruct (dv_applies d dv) eqn:Ea; [|done]. assert (existsb (dv_applies d) dvs = true) by (apply List.existsb_exists; by exists dv). congruence. }
    rewrite list_elem_of_In, List.in_concat. split.
    + intros (l & (pd & <- & Hin)%List.in_map_iff & Hi). right. split; [done|]. apply List.in_concat in Hin as (l & (pd' & <- & Hin%list_elem_of_In)%List.in_map_iff & Hpd). unfold row_for in Hpd.
      destruct (ice_path_eq _ _) eqn:Ep; [|done]. destruct Hpd as [<-|[]]. exists pd'. destruct (Z.leb_spec (ie_seq d) (pd_seq pd')); [|done]. destruct Hi as [<-|[]]. done.
    + intros [(dv & Hin & Ha & _)|(_ & pd & Hin & Hp & Hs & <-)]; [by rewrite Hno in Ha|]. exists [pd_pos pd]. split; [|by left]. apply List.in_map_iff. exists pd. rewrite (proj2 (Z.leb_le _ _)) by done. split; [done|].
      apply List.in_concat. exists (row_for (ie_file_path d) pd). unfold row_for. rewrite Hp. split; [|by left]. apply List.in_map_iff. exists pd. rewrite Hp. split; [done|]. by apply list_elem_of_In.
Qed.

Lemma eq_columns_spec root ids types atts : eq_columns root ids = Ok (types, atts) -> length types = length ids /\ length atts = length ids /\ Forall (fun u => u.1 ∈ ids /\ exists nm, ice_eq_col_type root u.1 = Ok (u.2, nm)) (zip ids types).
Proof using.
  revert types atts. induction ids as [|id ids IH]; intros types atts E; cbn [eq_columns] in E; [injection E as <- <-; done|].
  destruct (ice_eq_col_type root id) as [[oid nm]| | |] eqn:E1; try done. rewrite bind_Ok in E. destruct (negb (has_ops oid)); [done|]. destruct (eq_columns root ids) as [[ts at_]| | |] eqn:E2; try done.
  rewrite bind_Ok in E. injection E as <- <-. destruct (IH _ _ eq_refl) as (L1 & L2 & F). cbn [length zip zip_with]. split; [lia|]. split; [lia|]. constructor; [split; [by left|by exists nm]|].
  eapply Forall_weaken; [exact F|]. intros u [Hu ?]. split; [by right|done].
Qed.

(** An equality-delete file as it was read. *)
Definition eq_file (c : IceScanCtx) (root : json) (ed : IceEntry) (E : IceEqDel) (rows : list (list (option coldatum))) : Prop :=
  exists types atts part, ice_spec_is_partitioned root (ie_spec_id ed).1 = Ok part /\ eq_columns root (ie_eq_ids ed) = Ok (types, atts) /\ reads_rows c (ie_file_path ed) atts (ie_eq_ids ed) rows /\
    E = mkEqDel (ie_seq ed) (ie_eq_ids ed) types (eq_table types rows) part (ie_spec_id ed).1 (if part then ie_part_cells ed else []).

Lemma read_eq_delete_inv c root ed E : read_eq_delete stack buffered c root ed = Ok E -> exists rows, eq_file c root ed E rows.
Proof using.
  unfold read_eq_delete, eq_file, reads_rows. destruct (_ =? 0); [done|]. destruct (other_format _); [done|]. destruct (negb _); [done|]. destruct (ice_spec_is_partitioned root _) as [part| | |]; try done. rewrite bind_Ok.
  destruct (part && _); [done|]. destruct (eq_columns root _) as [[types atts]| | |]; try done. rewrite bind_Ok. destruct (open_entry c _) as [safe| | |]; try done. rewrite bind_Ok.
  destruct (PgColumnarReadParquetByFieldId stack buffered safe atts _ _) as [rows| | |] eqn:E1; try done. rewrite bind_Ok. intros [= <-]. exists rows, types, atts, part. split; [done|]. split; [done|]. split; [by exists safe|done].
Qed.

Lemma read_eq_deletes_inv c root min l es : read_eq_deletes stack buffered c root min l = Ok es -> exists files, Forall2 (fun ed Ef => eq_file c root ed Ef.1 Ef.2) (filter (fun ed => min < ie_seq ed) l) files /\ es = map fst files.
Proof using.
  revert es. induction l as [|ed l IH]; intros es E; cbn [read_eq_deletes] in E; [injection E as <-; by exists []|]. rewrite filter_cons. destruct (Z.leb_spec (ie_seq ed) min).
  - rewrite decide_False by lia. by apply IH.
  - rewrite decide_True by lia. destruct (read_eq_delete stack buffered c root ed) as [e1| | |] eqn:E1; try done. rewrite bind_Ok in E. destruct (read_eq_deletes stack buffered c root min l) as [es'| | |]; try done. rewrite bind_Ok in E. injection E as <-.
    destruct (IH _ eq_refl) as (files & F & ->). apply read_eq_delete_inv in E1 as [rows H1]. exists ((e1, rows) :: files). split; [by constructor|done].
Qed.

Lemma eq_file_table c root ed E rows : eq_file c root ed E rows -> eq_del_of E rows.
Proof using.
  intros (types & atts & part & _ & Hc & (safe & _ & Hr) & ->). destruct (eq_columns_spec _ _ _ _ Hc) as (L1 & L2 & _). split; [by cbn|]. split; [done|]. cbn [eq_types]. rewrite L1, <- L2. by eapply read_width.
Qed.

(** The test for an equality delete that applies to a file. *)
Definition eq_applies (d : IceEntry) (E : IceEqDel) : bool :=
  (ie_seq d <? eq_seq E) && (negb (eq_partitioned E) || ((eq_spec_id E =? (ie_spec_id d).1) && ice_part_cells_equal (eq_part_cells E) (ie_part_cells d))).

Lemma eligible_spec d es : Forall (fun E => ie_seq d < eq_seq E -> eq_partitioned E = true -> (ie_spec_id d).2 = true /\ (eq_spec_id E = (ie_spec_id d).1 -> ice_part_incomparable (ie_part_cells d) = false)) es ->
  eligible d es = Ok (List.filter (eq_applies d) es).
Proof using.
  induction 1 as [|E es Hd _ IH]; [done|]. cbn [eligible List.filter]. unfold eq_applies at 1. destruct (Z.leb_spec (eq_seq E) (ie_seq d)) as [Hle|Hlt].
  { rewrite (proj2 (Z.ltb_ge _ _)) by done. done. }
  rewrite (proj2 (Z.ltb_lt _ _)) by done. cbn [andb]. destruct (eq_partitioned E) eqn:Ep; cbn [negb orb]; [|by rewrite IH]. destruct (Hd Hlt eq_refl) as [Hs Hi]. rewrite Hs. cbn [negb].
  destruct (Z.eqb_spec (eq_spec_id E) (ie_spec_id d).1) as [Hid|]; cbn [negb andb]; [|done]. rewrite (Hi Hid). destruct (ice_part_cells_equal _ _); cbn [negb]; [by rewrite IH|done].
Qed.

Lemma eq_applies_spec c root d ed E rows : eq_file c root ed E rows -> eq_applies d E = true <-> ie_seq d < ie_seq ed /\ in_scope root d ed.
Proof using.
  intros (types & atts & part & Hp & _ & _ & ->). unfold eq_applies, in_scope. cbn [eq_seq eq_partitioned eq_spec_id eq_part_cells]. rewrite andb_true_iff, orb_true_iff, negb_true_iff, andb_true_iff, Z.ltb_lt, Z.eqb_eq. split.
  - intros [H1 H2]. split; [done|]. exists part. split; [done|]. intros ->. by destruct H2.
  - intros [H1 (part' & Hp' & H2)]. split; [done|]. rewrite Hp in Hp'. injection Hp' as <-. destruct part; [right; by apply H2|by left].
Qed.

(** The equality deletes that a probe finds for a row. *)
Lemma matches_deleted c root d min files col : Forall2 (fun ed Ef => eq_file c root ed Ef.1 Ef.2) (filter (fun ed => min < ie_seq ed) (sc_eqdel c)) files -> min <= ie_seq d ->
  existsb (fun Ef : IceEqDel * list (list (option coldatum)) => row_matches col Ef.1 Ef.2) (List.filter (fun Ef => eq_applies d Ef.1) files) = true <-> equality_hit c root d col.
Proof using.
  intros Hf Hmin. rewrite List.existsb_exists. unfold equality_hit. split.
  - intros ([E rows] & [Hin Ha]%List.filter_In & Hm). cbn [fst snd] in *. apply list_elem_of_In, list_elem_of_lookup in Hin as [k Hk]. destruct (Forall2_lookup_r _ _ _ _ _ Hf Hk) as (ed & Hed & He). cbn [fst snd] in He.
    apply list_elem_of_lookup_2, list_elem_of_filter in Hed as [_ Hed]. apply (eq_applies_spec _ _ _ _ _ _ He) in Ha as [Hs Hsc]. destruct He as (types & atts & part & _ & Hc & Hr & ->).
    unfold row_matches in Hm. cbn [eq_types eq_ids] in Hm. apply List.existsb_exists in Hm as (row & Hrow%list_elem_of_In & Heq). by exists ed, types, atts, rows, row.
  - intros (ed & types & atts & rows & row & Hed & Hs & Hsc & Hc & (safe & Ho & Hr) & Hrow & Heq). assert (Hin : ed ∈ filter (fun ed => min < ie_seq ed) (sc_eqdel c)) by (apply list_elem_of_filter; split; [lia|done]).
    apply list_elem_of_lookup in Hin as [k Hk]. destruct (Forall2_lookup_l _ _ _ _ _ Hf Hk) as ([E rows'] & HE & He). cbn [fst snd] in He. exists (E, rows'). cbn [fst snd].
    pose proof (proj2 (eq_applies_spec _ _ d _ _ _ He) (conj Hs Hsc)) as Ha. split; [apply List.filter_In; split; [by apply list_elem_of_lookup_2, list_elem_of_In in HE|done]|].
    destruct He as (types' & atts' & part & _ & Hc' & (safe' & Ho' & Hr') & ->). rewrite Hc in Hc'. injection Hc' as <- <-. rewrite Ho in Ho'. injection Ho' as <-. rewrite Hr in Hr'. injection Hr' as <-.
    unfold row_matches. cbn [eq_types eq_ids]. apply List.existsb_exists. exists row. split; [by apply list_elem_of_In|done].
Qed.

(** ** One data file *)

Lemma eq_probe_spec c root args d cols rows min files : file_reads c root args d cols rows -> Forall2 (fun ed Ef => eq_file c root ed Ef.1 Ef.2) (filter (fun ed => min < ie_seq ed) (sc_eqdel c)) files -> min <= ie_seq d ->
  Forall (fun Ef => eq_ids Ef.1 <> []) files -> let elig := List.filter (fun Ef => eq_applies d Ef.1) files in elig <> [] ->
  ice_eq_probe stack buffered c d (map fst elig) = Ok (matched_from (fun col => existsb (fun Ef : IceEqDel * list (list (option coldatum)) => row_matches col Ef.1 Ef.2) elig) 0 cols, zlen rows).
Proof using HL.
  intros [_ _ (safe & Ho & _ & Hp) Hl] Hf Hmin Hids elig Hne. unfold ice_eq_probe.
  assert (Hel : Forall (fun Ef => exists ed, ed ∈ sc_eqdel c /\ ie_seq d < ie_seq ed /\ in_scope root d ed /\ eq_file c root ed Ef.1 Ef.2) elig).
  { apply list.Forall_forall. intros Ef Hx. apply list_elem_of_In, List.filter_In in Hx as [Hin Ha]. apply list_elem_of_In, list_elem_of_lookup in Hin as [k Hk]. destruct (Forall2_lookup_r _ _ _ _ _ Hf Hk) as (ed & Hed & He).
    exists ed. apply list_elem_of_lookup_2, list_elem_of_filter in Hed as [_ Hed]. split; [done|]. destruct (proj1 (eq_applies_spec _ _ _ _ _ _ He) Ha). done. }
  assert (Hall : forall ed, ed ∈ sc_eqdel c -> ie_seq d < ie_seq ed -> in_scope root d ed -> exists Ef, Ef ∈ elig /\ eq_file c root ed Ef.1 Ef.2).
  { intros ed Hin Hs Hsc. assert (Hed : ed ∈ filter (fun ed => min < ie_seq ed) (sc_eqdel c)) by (apply list_elem_of_filter; split; [lia|done]). apply list_elem_of_lookup in Hed as [k Hk].
    destruct (Forall2_lookup_l _ _ _ _ _ Hf Hk) as (Ef & HE & He). exists Ef. split; [|done]. apply list_elem_of_In, List.filter_In. split; [by apply list_elem_of_lookup_2, list_elem_of_In in HE|]. by apply (eq_applies_spec _ _ d _ _ _ He). }
  set (P := fun u : Z * Z => exists ed nm, ed ∈ sc_eqdel c /\ ie_seq d < ie_seq ed /\ in_scope root d ed /\ u.1 ∈ ie_eq_ids ed /\ ice_eq_col_type root u.1 = Ok (u.2, nm)).
  assert (HP : Forall (fun E => Forall P (zip (eq_ids E) (eq_types E))) (map fst elig)).
  { apply list.Forall_fmap. eapply Forall_weaken; [exact Hel|]. intros [E rs] (ed & Hin & Hs & Hsc & types & atts & part & _ & Hc & _ & HE). cbn [fst snd] in HE. subst E. unfold compose. cbn [fst eq_ids eq_types]. destruct (eq_columns_spec _ _ _ _ Hc) as (_ & _ & F).
    eapply Forall_weaken; [exact F|]. intros u [Hu [nm Ht]]. by exists ed, nm. }
  destruct (union_columns (map fst elig) []) as [uni ms] eqn:Eu. destruct (union_columns_spec P _ _ _ _ Eu) as (_ & Hd & Hu & Hm); [constructor|constructor|done|].
  assert (Hcov : forall id t ed nm, ed ∈ sc_eqdel c -> ie_seq d < ie_seq ed -> in_scope root d ed -> id ∈ ie_eq_ids ed -> ice_eq_col_type root id = Ok (t, nm) -> (id, t) ∈ uni).
  { intros id t ed nm Hin Hs Hsc Hid Ht. destruct (Hall ed Hin Hs Hsc) as ([E rs] & HE & types & atts & part & _ & Hc & _ & HE2). cbn [fst snd] in HE2. destruct (eq_columns_spec _ _ _ _ Hc) as (L1 & _ & _).
    apply list_elem_of_lookup in HE as [k Hk]. assert (Hk' : map fst elig !! k = Some E) by (by rewrite list_lookup_fmap, Hk). destruct (Forall2_lookup_l _ _ _ _ _ Hm Hk') as (m & _ & Hcols). subst E. cbn [eq_ids eq_types] in Hcols.
    apply list_elem_of_lookup in Hid as [j Hj]. destruct (lookup_lt_is_Some_2 types j) as [t1 Ht1]; [rewrite L1; by eapply lookup_lt_Some|].
    destruct (Forall2_lookup_l _ _ _ j (id, t1) Hcols) as (k' & _ & t' & Hu'); [by apply lookup_zip_Some|]. cbn [fst] in Hu'. apply list_elem_of_lookup_2 in Hu'. pose proof (proj1 (list.Forall_forall _ _) Hu _ Hu') as (ed' & nm' & _ & _ & _ & _ & Ht').
    cbn [fst snd] in Ht'. congruence. }
  assert (Huni : probed_columns c root d uni).
  { split; [done|]. split.
    - assert (Hx : exists Ef, Ef ∈ elig) by (destruct elig as [|Ef l]; [done|exists Ef; by left]). destruct Hx as ([E rs] & HE0). pose proof (proj1 (list.Forall_forall _ _) Hel _ HE0) as (ed & Hin & Hs & Hsc & types & atts & part & _ & Hc & _ & HE).
      cbn [fst snd] in HE. destruct (eq_columns_spec _ _ _ _ Hc) as (L1 & _ & F). assert (Hie : ie_eq_ids ed <> []).
      { apply list_elem_of_In, List.filter_In in HE0 as [HE0%list_elem_of_In _]. pose proof (proj1 (list.Forall_forall _ _) Hids _ HE0) as Hx. cbn [fst] in Hx. by subst E. }
      destruct (ie_eq_ids ed) as [|id ids] eqn:Eids; [done|]. destruct types as [|t types]; [done|]. apply Forall_cons_1 in F as [[_ [nm Ht]] _]. cbn [fst snd] in Ht. intros ->.
      apply (not_elem_of_nil (id, t)). apply (Hcov id t ed nm); [done..|rewrite Eids; by left|done].
    - intros id t. split; [intros Hx; exact (proj1 (list.Forall_forall _ _) Hu _ Hx)|]. intros (ed & nm & H1 & H2 & H3 & H4 & H5). by eapply Hcov. }
  rewrite Ho, bind_Ok, (Hp uni Huni), bind_Ok. rewrite (probe_rows_spec uni cols (map fst elig) ms (map snd elig)); [| |done].
  - rewrite bind_Ok. f_equal. f_equal; [|unfold zlen; by rewrite length_map, Hl]. f_equal. by rewrite zip_fst_snd.
  - clear -Hel. induction Hel as [|[E rs] elig (ed & _ & _ & _ & He) _ IH]; constructor; [by eapply eq_file_table|done].
Qed.

Lemma scan_file_spec c root args d cols rows min files posdels dvs : file_reads c root args d cols rows ->
  Forall2 (fun ed Ef => eq_file c root ed Ef.1 Ef.2) (filter (fun ed => min < ie_seq ed) (sc_eqdel c)) files -> Forall (fun Ef => eq_ids Ef.1 <> []) files -> min <= ie_seq d ->
  Forall (fun pd => 0 <= pd_pos pd) posdels -> Forall (fun dv => Forall (fun x => 0 <= x) (dv_pos dv)) dvs ->
  exists out, scan_file stack buffered c args (ice_index_pos_deletes posdels) dvs (map fst files) d = Ok out /\ survive (dropped c root posdels dvs d cols) 0 rows out.
Proof using HL.
  intros Hdf Hf Hids Hmin Hpd Hdv. pose proof Hdf as [H1 H2 (safe & Ho & Hr & _) Hl]. unfold scan_file. rewrite H1, (eligible_spec d), bind_Ok. cbv zeta.
  2:{ apply list.Forall_fmap, list.Forall_forall. intros [E rs] Hin Hs Hp. cbn [compose fst] in *. apply list_elem_of_lookup in Hin as [k Hk]. destruct (Forall2_lookup_r _ _ _ _ _ Hf Hk) as (ed & Hed & types & atts & part & Hpt & _ & _ & HE).
      apply list_elem_of_lookup_2, list_elem_of_filter in Hed as [_ Hed]. cbn [fst snd] in HE. subst E. cbn [eq_seq eq_partitioned eq_spec_id] in *. subst part. by apply (H2 ed). }
  set (elig := List.filter (fun Ef => eq_applies d Ef.1) files). assert (Ee : List.filter (eq_applies d) (map fst files) = map fst elig) by apply filter_map_comm. rewrite Ee.
  set (hits := matched_from (fun col => existsb (fun Ef : IceEqDel * list (list (option coldatum)) => row_matches col Ef.1 Ef.2) elig) 0 cols).
  assert (Hprobe : exists o, match map fst elig with [] => Ok ([], None) | _ => ' (more, n) ← ice_eq_probe stack buffered c d (map fst elig); Ok (more, Some n) end = Ok (hits, o) /\ (o = None \/ o = Some (zlen rows))).
  { pose proof (eq_probe_spec c root args d cols rows min files Hdf Hf Hmin Hids) as Hp. cbv zeta in Hp. fold elig hits in Hp. destruct elig as [|Ef l]; [|exists (Some (zlen rows)); cbn [map] in *; rewrite Hp, bind_Ok by done; by split; [|right]].
    exists None. split; [|by left]. cbn [map]. unfold hits. rewrite matched_none. done. }
  destruct Hprobe as (o & -> & Hopt). rewrite bind_Ok. set (skip := sorted_skip (position_skips (ice_index_pos_deletes posdels) dvs d ++ hits)).
  destruct (sorted_skip_spec (position_skips (ice_index_pos_deletes posdels) dvs d ++ hits)) as [Hsort Hin]. fold skip in Hsort, Hin.
  assert (Hdel : forall x, x ∈ skip <-> dropped c root posdels dvs d cols x).
  { intros x. rewrite Hin, elem_of_app, position_skips_spec. unfold dropped, hits. rewrite matched_from_spec. apply or_iff_compat_l. split; intros (k & col & Hk & -> & Hm); exists k, col; (split; [done|]; split; [lia|]); by apply (matches_deleted c root d min files col Hf Hmin). }
  assert (H0 : Forall (fun x => 0 <= x) skip).
  { apply list.Forall_forall. intros x [[(dv & Hi & _ & Hx)|(_ & pd & Hi & _ & _ & <-)]|(k & _ & _ & -> & _)]%Hdel; [|by apply (proj1 (list.Forall_forall _ _) Hpd)|lia].
    by apply (proj1 (list.Forall_forall _ _) (proj1 (list.Forall_forall _ _) Hdv dv Hi)). }
  rewrite Ho, bind_Ok. rewrite (read_skips stack buffered _ _ _ _ _ skip rows Hr Hsort), bind_Ok. exists (keep_from 0 skip rows). split; [|by apply keep_survive].
  destruct Hopt as [-> | ->]; [done|]. rewrite (keep_expected skip rows Hsort H0), Z.eqb_refl. done.
Qed.

(** ** The whole scan *)

(** A file's bytes, of bounded length. *)
Definition files_ok : Prop := forall p buf, ice_slurp_bin p = Ok buf -> bytes_ok buf /\ zlen buf < 2 ^ 62.

Lemma eq_ids_some c root min l es : read_eq_deletes stack buffered c root min l = Ok es -> Forall (fun E => eq_ids E <> []) es.
Proof using.
  revert es. induction l as [|ed l IH]; intros es E; cbn [read_eq_deletes] in E; [injection E as <-; constructor|]. destruct (ie_seq ed <=? min); [by apply IH|].
  destruct (read_eq_delete stack buffered c root ed) as [e1| | |] eqn:E1; try done. rewrite bind_Ok in E. destruct (read_eq_deletes stack buffered c root min l) as [es'| | |]; try done. rewrite bind_Ok in E. injection E as <-. constructor; [|by apply IH].
  unfold read_eq_delete in E1. destruct (Z.eqb_spec (zlen (ie_eq_ids ed)) 0) as [|Hz]; [done|]. assert (Hids : ie_eq_ids ed <> []) by (by intros Ei; rewrite Ei in Hz).
  destruct (other_format _); [done|]. destruct (negb _); [done|]. destruct (ice_spec_is_partitioned root _) as [part| | |]; try done. rewrite bind_Ok in E1. destruct (part && _); [done|]. destruct (eq_columns root _) as [[types atts]| | |]; try done. rewrite bind_Ok in E1.
  destruct (open_entry c _); try done. rewrite bind_Ok in E1. destruct (PgColumnarReadParquetByFieldId _ _ _ _ _ _); try done. rewrite bind_Ok in E1. by injection E1 as <-.
Qed.

(** The rows of the position-delete files. *)
Lemma pos_deletes_spec c l posdels : read_pos_deletes stack buffered c l = Ok posdels -> Forall (fun pd => 0 <= pd_pos pd) posdels /\
  forall pd, pd ∈ posdels <-> exists ed rows, ed ∈ l /\ puffin_format (ie_file_format ed) = false /\ reads_rows c (ie_file_path ed) posdel_atts [ICE_POSDEL_PATH_ID; ICE_POSDEL_POS_ID] rows /\
    [Some (AScalar (DBytes (pd_dpath pd))); Some (AScalar (DInt (pd_pos pd)))] ∈ rows /\ pd_seq pd = ie_seq ed.
Proof using.
  assert (Hrow : forall seq rows rs, posdel_rows seq rows = Ok rs -> Forall (fun pd => 0 <= pd_pos pd) rs /\ forall pd, pd ∈ rs <-> [Some (AScalar (DBytes (pd_dpath pd))); Some (AScalar (DInt (pd_pos pd)))] ∈ rows /\ pd_seq pd = seq).
  { intros seq rows. induction rows as [|row rows IH]; intros rs E; cbn [posdel_rows] in E. { injection E as <-. split; [constructor|]. intros pd. by split; [intros ?%not_elem_of_nil|intros [?%not_elem_of_nil _]]. }
    destruct (posdel_row seq row) as [r| | |] eqn:Er; try done. rewrite bind_Ok in E. destruct (posdel_rows seq rows) as [rs'| | |]; try done. rewrite bind_Ok in E. injection E as <-. destruct (IH _ eq_refl) as [I1 I2].
    assert (Hr : exists p n, row = [Some (AScalar (DBytes p)); Some (AScalar (DInt n))] /\ 0 <= n /\ r = mkPosDel p n seq).
    { unfold posdel_row in Er. destruct row as [|[[d1| |]|] [|[[d2| |]|] [|]]]; try done; cbn [datum_int64 datum_text] in Er; try (destruct d2; done); [|destruct d2; try done; cbn [get_int] in Er; rewrite bind_Ok in Er; destruct (_ <? 0); done..].
      destruct d2 as [n| | | | | |]; try done. cbn [get_int] in Er. rewrite bind_Ok in Er. destruct (Z.ltb_spec n 0); [done|]. destruct d1 as [| | | |p| |]; try done. cbn [get_bytes] in Er. rewrite bind_Ok in Er. injection Er as <-. by exists p, n. }
    destruct Hr as (p & n & -> & Hn & ->). split; [by constructor|]. intros pd. rewrite !elem_of_cons, I2. split.
    - intros [->|[Hin Hs]]; [split; [by left|done]|split; [by right|done]].
    - intros [[E|Hin] Hs]; [left; destruct pd; cbn in *; congruence|right; done]. }
  revert posdels. induction l as [|pd l IH]; intros posdels E; cbn [read_pos_deletes] in E. { injection E as <-. split; [constructor|]. intros pd. split; [by intros ?%not_elem_of_nil|]. by intros (? & ? & ?%not_elem_of_nil & _). }
  destruct (puffin_format (ie_file_format pd)) eqn:Ep.
  { destruct (IH _ E) as [I1 I2]. split; [done|]. intros q. rewrite I2. split; intros (ed & rows & Hin & H & H'); exists ed, rows; (split; [|done]); [by right|]. apply elem_of_cons in Hin as [->|]; [congruence|done]. }
  destruct (other_format _); [done|]. destruct (open_entry c (ie_file_path pd)) as [safe| | |] eqn:Eo; try done. rewrite bind_Ok in E. destruct (PgColumnarReadParquetByFieldId stack buffered safe _ _ _) as [rows| | |] eqn:Er; try done. rewrite bind_Ok in E.
  destruct (posdel_rows _ rows) as [rs| | |] eqn:Es; try done. rewrite bind_Ok in E. destruct (read_pos_deletes stack buffered c l) as [rest| | |]; try done. rewrite bind_Ok in E. injection E as <-. destruct (Hrow _ _ _ Es) as [R1 R2]. destruct (IH _ eq_refl) as [I1 I2].
  split; [by apply Forall_app|]. intros q. rewrite elem_of_app, R2, I2. split.
  - intros [[Hin Hs]|(ed & rows' & Hin & H)]; [exists pd, rows|exists ed, rows'; split; [by right|done]]. split; [by left|]. split; [done|]. split; [by exists safe|done].
  - intros (ed & rows' & [->|Hin]%elem_of_cons & Hf & Hr & Hx & Hs); [left|right; by exists ed, rows']. destruct Hr as (safe' & Eo' & Er'). rewrite Eo in Eo'. injection Eo' as <-. rewrite Er in Er'. by injection Er' as <-.
Qed.

(** The deletion vectors. *)
Lemma dvs_spec c v l : files_ok -> forall seen dvs, read_dvs c v l seen = Ok dvs -> Forall (fun dv => Forall (fun x => 0 <= x) (dv_pos dv)) dvs /\
  (forall dv, dv ∈ dvs -> exists ed, ed ∈ l /\ puffin_format (ie_file_format ed) = true /\ ie_ref_data_file ed = Some (dv_dpath dv) /\ dv_seq dv = ie_seq ed /\
    exists safe buf, open_entry c (ie_file_path ed) = Ok safe /\ ice_slurp_bin safe = Ok buf /\ PgColumnarPuffinReadDeletionVector buf (ie_content_offset ed).1 (ie_content_size ed).1 (dv_dpath dv) = Ok (dv_pos dv)) /\
  (forall ed, ed ∈ l -> puffin_format (ie_file_format ed) = true -> exists ref pos safe buf, ie_ref_data_file ed = Some ref /\ mkDvDel ref (ie_seq ed) pos ∈ dvs /\
    open_entry c (ie_file_path ed) = Ok safe /\ ice_slurp_bin safe = Ok buf /\ PgColumnarPuffinReadDeletionVector buf (ie_content_offset ed).1 (ie_content_size ed).1 ref = Ok pos).
Proof using.
  intros Hfs. induction l as [|pd l IH]; intros seen dvs E; cbn [read_dvs] in E. { injection E as <-. split; [constructor|]. split; [by intros dv ?%not_elem_of_nil|by intros ed ?%not_elem_of_nil]. }
  destruct (puffin_format (ie_file_format pd)) eqn:Ep; cbn [negb] in E.
  2:{ destruct (IH _ _ E) as (I1 & I2 & I3). split; [done|]. split; [intros dv (ed & Hin & H)%I2; exists ed; split; [by right|done]|]. intros ed [->|Hin]%elem_of_cons Hf; [congruence|by apply I3]. }
  destruct (v <? 3); [done|]. destruct (ie_ref_data_file pd) as [ref|] eqn:Eref; [|done].
  destruct (_ || _); [done|]. destruct (existsb _ seen); [done|]. destruct (open_entry c (ie_file_path pd)) as [safe| | |] eqn:Eo; try done. rewrite bind_Ok in E. destruct (ice_slurp_bin safe) as [buf| | |] eqn:Eb; try done. rewrite bind_Ok in E.
  destruct (Hfs _ _ Eb) as [Hb Hl]. pose proof (read_dv_safe buf (ie_content_offset pd).1 (ie_content_size pd).1 ref Hb Hl) as Hs. destruct (PgColumnarPuffinReadDeletionVector buf _ _ ref) as [pos| | |] eqn:Epos; try done. rewrite bind_Ok in E.
  destruct Hs as [_ Hpos]. destruct (negb _); [done|]. destruct (read_dvs c v l _) as [rest| | |] eqn:Er; try done. rewrite bind_Ok in E. injection E as <-. destruct (IH _ _ Er) as (I1 & I2 & I3).
  split; [constructor; [|done]; cbn [dv_pos]; eapply Forall_weaken; [exact Hpos|]; intros x Hx; cbn in Hx; lia|]. split.
  - intros dv [->|Hin]%elem_of_cons; [|apply I2 in Hin as (ed & Hin & H); exists ed; split; [by right|done]]. exists pd. cbn [dv_dpath dv_seq dv_pos]. split; [by left|]. do 3 (split; [done|]). by exists safe, buf.
  - intros ed [->|Hin]%elem_of_cons Hf; [exists ref, pos, safe, buf; split; [done|]; split; [by left|done]|]. destruct (I3 ed Hin Hf) as (ref' & pos' & safe' & buf' & H1 & H2 & H3). exists ref', pos', safe', buf'. split; [done|]. split; [by right|done].
Qed.

Lemma min_seq_le (l : list IceEntry) : forall m, foldl (fun m d => Z.min m (ie_seq d)) m l <= m /\ Forall (fun d => foldl (fun m d => Z.min m (ie_seq d)) m l <= ie_seq d) l.
Proof using.
  induction l as [|d l IH]; intros m; cbn [foldl]; [split; [lia|constructor]|]. destruct (IH (Z.min m (ie_seq d))) as [H1 H2]. split; [lia|]. constructor; [lia|done].
Qed.

Definition pruned_by (args : ScanArgs) (d : IceEntry) : bool := match sa_filter args with Some f => f d | None => false end.

Lemma scan_files_spec {X} (entry_of : X -> IceEntry) c root args min files posdels dvs (content : X -> list (Z -> option coldatum) * list (list (option coldatum))) (del : X -> Z -> Prop) (l : list X) :
  Forall (fun x => pruned_by args (entry_of x) = false -> file_reads c root args (entry_of x) (content x).1 (content x).2 /\ forall i, dropped c root posdels dvs (entry_of x) (content x).1 i <-> del x i) l ->
  Forall2 (fun ed Ef => eq_file c root ed Ef.1 Ef.2) (filter (fun ed => min < ie_seq ed) (sc_eqdel c)) files -> Forall (fun Ef => eq_ids Ef.1 <> []) files ->
  Forall (fun d => min <= ie_seq d) (map entry_of l) -> Forall (fun pd => 0 <= pd_pos pd) posdels -> Forall (fun dv => Forall (fun x => 0 <= x) (dv_pos dv)) dvs ->
  exists outs, scan_files stack buffered c args (ice_index_pos_deletes posdels) dvs (map fst files) (map entry_of l) = Ok (concat outs, zlen (List.filter (fun x => pruned_by args (entry_of x)) l)) /\
    Forall2 (fun x out => survive (del x) 0 (content x).2 out) (List.filter (fun x => negb (pruned_by args (entry_of x))) l) outs.
Proof using HL.
  intros Hd Hf Hids Hmin Hp Hv. induction Hd as [|x l Hx Hd IH]; [by exists []|]. cbn [map] in Hmin. apply Forall_cons_1 in Hmin as [Hm1 Hm2]. destruct (IH Hm2) as (outs & E & Ho).
  cbn [map scan_files List.filter]. fold (pruned_by args (entry_of x)). destruct (pruned_by args (entry_of x)) eqn:Epr; cbn [negb].
  - rewrite E, bind_Ok. exists outs. split; [|done]. rewrite zlen_cons. do 2 f_equal. lia.
  - destruct (Hx eq_refl) as [Hr Hdel]. destruct (scan_file_spec c root args (entry_of x) _ _ min files posdels dvs Hr Hf Hids Hm1 Hp Hv) as (out & Eo & Hs). rewrite Eo, bind_Ok, E, bind_Ok.
    exists (out :: outs). split; [done|]. constructor; [|done]. clear -Hs Hdel. revert Hs. generalize 0 as ord. generalize (content x).2 as rows. intros rows ord Hs. induction Hs as [| |? ? ? ? Hn]; constructor; try done; by rewrite <- Hdel.
Qed.

(** ** What the snapshot deletes *)

(** A live entry with its manifest. *)
Abbreviation live_file := (PgColumnarAvroManifestFile * PgColumnarAvroManifestEntry)%type.

Variable roots : WalkRoots.
Variable live : list live_file.
Variable root : json.

(** The live entries of data files (0), position deletes and deletion vectors (1)
    and equality deletes (2). *)
Definition live_of (content : Z) (x : live_file) : Prop := x ∈ live /\ me_content x.2 = content.

Definition seq_of (x : live_file) : Z := me_sequence_number x.2.

Definition opens (x : live_file) (safe : list Z) : Prop := ice_open_path (wr_recorded roots) (wr_actual roots) (me_file_path x.2) = Ok safe.

(** The path [p] names the file of [x]. *)
Definition names (p : list Z) (x : live_file) : Prop := exists q, me_file_path x.2 = Some q /\ same_file p q.

Definition in_puffin (x : live_file) : Prop := exists f, me_file_format x.2 = Some f /\ map pg_tolower f = str "puffin".

(** A deletion vector applies to the data file it references unless it is older. *)
Definition vector_applies (d x : live_file) : Prop :=
  live_of 1 x /\ in_puffin x /\ seq_of d <= seq_of x /\ exists ref, me_referenced_data_file x.2 = Some ref /\ names ref d.

Definition vector_holds (x : live_file) (i : Z) : Prop :=
  exists ref safe buf pos, me_referenced_data_file x.2 = Some ref /\ opens x safe /\ ice_slurp_bin safe = Ok buf /\
    PgColumnarPuffinReadDeletionVector buf (me_content_offset x.2).1 (me_content_size_in_bytes x.2).1 ref = Ok pos /\ i ∈ pos.

(** A row of a position-delete file that is not older than the data file and names
    it. *)
Definition listed (d : live_file) (i : Z) : Prop :=
  exists x safe rows p, live_of 1 x /\ ~ in_puffin x /\ seq_of d <= seq_of x /\ opens x safe /\
    PgColumnarReadParquetByFieldId stack buffered safe posdel_atts [ICE_POSDEL_PATH_ID; ICE_POSDEL_POS_ID] None = Ok rows /\
    [Some (AScalar (DBytes p)); Some (AScalar (DInt i))] ∈ rows /\ names p d.

(** A deletion vector takes the place of the position deletes of its data file. *)
Definition position_deleted (d : live_file) (i : Z) : Prop :=
  (exists x, vector_applies d x /\ vector_holds x i) \/ ((forall x, ~ vector_applies d x) /\ listed d i).

Definition same_cell (a b : PgColumnarAvroPartCell) : Prop :=
  pc_comparable a = true /\ pc_comparable b = true /\
  ((pc_isnull a = true /\ pc_isnull b = true) \/
   (pc_isnull a = false /\ pc_isnull b = false /\
    ((pc_is_bytes a = true /\ pc_is_bytes b = true /\ pc_bytes a = pc_bytes b) \/ (pc_is_bytes a = false /\ pc_is_bytes b = false /\ pc_ival a = pc_ival b)))).

Definition spec_id (x : live_file) : Z := (mf_partition_spec_id x.1).1.

(** An equality delete of a spec without fields is global; another covers the
    files of its spec with the values of its partition. *)
Definition covers (d x : live_file) : Prop :=
  exists fields, spec_fields root (spec_id x) fields /\ (fields <> [] -> spec_id x = spec_id d /\ Forall2 same_cell (me_part_cells x.2) (me_part_cells d.2)).

(** An equality delete applies to files that are older. *)
Definition equality_applies (d x : live_file) : Prop := live_of 2 x /\ seq_of d < seq_of x /\ covers d x.

(** Equal in every column, null only to null. *)
Definition equal_values : list Z -> list (option coldatum) -> list (option coldatum) -> Prop :=
  Forall3 (fun t v r => match v, r with None, None => True | Some a, Some b => eq_op t a b = true | _, _ => False end).

(** The columns of an equality delete, with the types the schema gives them. *)
Definition typed_columns : list Z -> list Z -> list (option (list Z * coltype)) -> Prop :=
  Forall3 (fun id t att => exists fname, ice_eq_col_type root id = Ok (t, fname) /\ att = Some (fname, CScalar t (-1))).

(** A row with the values [col] by field id equals a row of a delete that applies. *)
Definition equality_deleted (d : live_file) (col : Z -> option coldatum) : Prop :=
  exists x types atts safe rows row, equality_applies d x /\ typed_columns (me_equality_ids x.2) types atts /\ opens x safe /\
    PgColumnarReadParquetByFieldId stack buffered safe atts (me_equality_ids x.2) None = Ok rows /\ row ∈ rows /\ equal_values types (map col (me_equality_ids x.2)) row.

(** The row of ordinal [i] of a file whose rows have the values [cols] by field id. *)
Definition deleted (d : live_file) (cols : list (Z -> option coldatum)) (i : Z) : Prop :=
  position_deleted d i \/ exists k col, cols !! k = Some col /\ i = Z.of_nat k /\ equality_deleted d col.

(** The columns by which the rows of a data file are compared, each once. *)
Definition compared (d : live_file) (uni : list (Z * Z)) : Prop :=
  NoDup (map fst uni) /\ uni <> [] /\ forall id t, (id, t) ∈ uni <-> exists x nm, equality_applies d x /\ id ∈ me_equality_ids x.2 /\ ice_eq_col_type root id = Ok (t, nm).

(** A data file that reads: its format is Parquet; where an equality delete of a
    partition may apply, it has a spec id and partition values that compare; its
    rows read, and so do its equality columns, in any order. *)
Record data_file (args : ScanArgs) (d : live_file) (cols : list (Z -> option coldatum)) (rows : list (list (option coldatum))) : Prop := mkDataFile {
  df_format : forall f, me_file_format d.2 = Some f -> map pg_tolower f = str "parquet";
  df_scope : forall x fields, live_of 2 x -> seq_of d < seq_of x -> spec_fields root (spec_id x) fields -> fields <> [] ->
    (mf_partition_spec_id d.1).2 = true /\ (spec_id x = spec_id d -> Forall (fun c => pc_comparable c = true) (me_part_cells d.2));
  df_reads : exists safe, opens d safe /\ PgColumnarReadParquetByFieldIdNM stack buffered safe (sa_atts args) (sa_field_ids args) (sa_nm args) None (sa_needTop args) = Ok rows /\
    forall uni, compared d uni -> PgColumnarReadParquetByFieldId stack buffered safe (map probe_att uni) (map fst uni) None = Ok (map (fun col => map (fun u => col u.1) uni) cols);
  df_length : length cols = length rows
}.

(** ** The collected entries *)

Definition entry_of (x : live_file) : IceEntry := collected (default [] (me_file_path x.2)) x.1 x.2.
Definition kind_of (k : Z) : list live_file := List.filter (fun x => me_content x.2 =? k) live.
Definition scan_ctx : IceScanCtx := mkScanCtx (match live with [] => None | _ => Some roots end) (map entry_of (kind_of 0)) (map entry_of (kind_of 1)) (map entry_of (kind_of 2)).

Hypothesis Hkinds : Forall (fun x => 0 <= me_content x.2 <= 2 /\ me_file_path x.2 <> None) live.

Lemma kind_of_spec k x : x ∈ kind_of k <-> live_of k x.
Proof using. unfold kind_of, live_of. rewrite list_elem_of_In, List.filter_In, Z.eqb_eq, list_elem_of_In. done. Qed.

Lemma entries_of k ed : ed ∈ map entry_of (kind_of k) <-> exists x, live_of k x /\ ed = entry_of x.
Proof using. rewrite list_elem_of_In, List.in_map_iff. setoid_rewrite <- list_elem_of_In. setoid_rewrite kind_of_spec. split; intros (x & H1 & H2); exists x; by split. Qed.

Lemma live_path x : x ∈ live -> me_file_path x.2 = Some (ie_file_path (entry_of x)).
Proof using Hkinds. intros Hx. destruct (proj1 (list.Forall_forall _ _) Hkinds x Hx) as [_ Hp]. unfold entry_of. cbn [collected ie_file_path]. by destruct (me_file_path x.2). Qed.

Lemma opens_spec x safe : x ∈ live -> open_entry scan_ctx (ie_file_path (entry_of x)) = Ok safe <-> opens x safe.
Proof using Hkinds.
  intros Hx. unfold open_entry, opens. rewrite (live_path x Hx). assert (Hr : sc_roots scan_ctx = Some roots) by (unfold scan_ctx; cbn [sc_roots]; destruct live; [by apply not_elem_of_nil in Hx|done]). by rewrite Hr.
Qed.

Lemma names_spec p x : x ∈ live -> ice_path_eq p (ie_file_path (entry_of x)) = true <-> names p x.
Proof using Hkinds. intros Hx. rewrite same_file_spec. unfold names. rewrite (live_path x Hx). split; [intros; by eexists|]. by intros (q & [= <-] & ?). Qed.

Lemma puffin_spec x : puffin_format (ie_file_format (entry_of x)) = true <-> in_puffin x.
Proof using.
  unfold puffin_format, in_puffin, format_is, entry_of. cbn [collected ie_file_format]. destruct (me_file_format x.2) as [f|]; [rewrite bool_decide_eq_true|]; split; try done; [intros; by exists f|by intros (? & [= <-] & ?)|by intros (? & ? & _)].
Qed.

Lemma cells_spec a b : ice_part_cells_equal a b = true <-> Forall2 same_cell a b.
Proof using.
  revert b. induction a as [|x a IH]; intros [|y b]; cbn [ice_part_cells_equal]; try (split; [done|by inversion 1]).
  rewrite andb_true_iff, IH. transitivity (same_cell x y /\ Forall2 same_cell a b); [|split; [intros [? ?]; by constructor|inversion 1; done]]. apply and_iff_compat_r. unfold cell_equal, same_cell. destruct x as [n1 b1 c1 i1 s1], y as [n2 b2 c2 i2 s2]. cbn [pc_isnull pc_is_bytes pc_comparable pc_ival pc_bytes].
  destruct c1, c2, n1, n2, b1, b2; cbn [andb orb Bool.eqb]; rewrite ?bool_decide_eq_true, ?Z.eqb_eq; intuition discriminate.
Qed.

Lemma covers_spec d x : in_scope root (entry_of d) (entry_of x) <-> covers d x.
Proof using.
  unfold in_scope, covers. setoid_rewrite is_partitioned_spec. setoid_rewrite cells_spec. split.
  - intros (part & (fields & Hs & ->) & H). exists fields. split; [done|]. intros Hne. apply H. by apply bool_decide_eq_true.
  - intros (fields & Hs & H). eexists. split; [by exists fields|]. intros Hne%bool_decide_eq_true. by apply H.
Qed.

Lemma columns_spec ids types atts : eq_columns root ids = Ok (types, atts) -> typed_columns ids types atts.
Proof using.
  unfold typed_columns. revert types atts. induction ids as [|id ids IH]; intros types atts E; cbn [eq_columns] in E; [injection E as <- <-; constructor|].
  destruct (ice_eq_col_type root id) as [[oid nm]| | |] eqn:E1; try done. rewrite bind_Ok in E. destruct (negb (has_ops oid)); [done|]. destruct (eq_columns root ids) as [[ts at_]| | |]; try done.
  rewrite bind_Ok in E. injection E as <- <-. constructor; [by exists nm|by apply IH].
Qed.

Lemma columns_inj ids t1 a1 t2 a2 : typed_columns ids t1 a1 -> typed_columns ids t2 a2 -> t1 = t2 /\ a1 = a2.
Proof using.
  unfold typed_columns. intros H. revert t2 a2. induction H as [|id t att ids t1 a1 (f & Hf & ->) _ IH]; intros t2 a2 H2; inversion H2 as [|? ? ? ? ? ? (f2 & Hf2 & ->) Hr]; subst; [done|].
  destruct (IH _ _ Hr) as [-> ->]. split; congruence.
Qed.

Lemma all_equal_spec types vals row : length vals = length types -> length row = length types -> all_equal types vals row = true <-> equal_values types vals row.
Proof using.
  unfold equal_values. revert vals row. induction types as [|t types IH]; intros [|v vals] [|r row] Hv Hr; try done; [split; [constructor|done]|]. cbn [all_equal]. injection Hv as Hv. injection Hr as Hr. rewrite andb_true_iff, IH by done. split.
  - intros [H1 H2]. constructor; [|done]. by destruct v, r.
  - inversion 1; subst. split; [|done]. by destruct v, r.
Qed.

(** ** The scan deletes what the snapshot deletes *)

Section Deleted.
Variables (fmtver : Z) (posdels : list IcePosDel) (dvs : list IceDvDel) (min : Z) (files : list (IceEqDel * list (list (option coldatum)))).
Hypothesis Hfs : files_ok.
Hypothesis Hpos : ice_read_pos_deletes stack buffered scan_ctx = Ok posdels.
Hypothesis Hdvs : ice_read_dvs scan_ctx fmtver = Ok dvs.
Hypothesis Hfiles : Forall2 (fun ed Ef => eq_file scan_ctx root ed Ef.1 Ef.2) (filter (fun ed => min < ie_seq ed) (sc_eqdel scan_ctx)) files.

Lemma vector_read d dv : d ∈ live -> dv ∈ dvs -> dv_applies (entry_of d) dv = true -> exists x, vector_applies d x /\ forall i, i ∈ dv_pos dv -> vector_holds x i.
Proof using Hkinds Hfs Hdvs.
  intros Hd Hin Ha. destruct (dvs_spec _ _ _ Hfs _ _ Hdvs) as (_ & D2 & _). destruct (D2 dv Hin) as (ed & Hed & Hp & Hr & Hs & safe & buf & Ho & Hb & Hv). apply entries_of in Hed as (x & Hx & ->). pose proof Hx as [Hxl _].
  unfold dv_applies in Ha. apply andb_true_iff in Ha as [Hle%Z.leb_le Hn]. exists x. split.
  - split; [done|]. split; [by apply puffin_spec|]. split; [rewrite Hs in Hle; exact Hle|]. exists (dv_dpath dv). split; [exact Hr|]. by apply names_spec.
  - intros i Hi. exists (dv_dpath dv), safe, buf, (dv_pos dv). split; [exact Hr|]. split; [by apply opens_spec|]. done.
Qed.

Lemma vector_found d x : d ∈ live -> vector_applies d x -> exists dv, dv ∈ dvs /\ dv_applies (entry_of d) dv = true /\ forall i, vector_holds x i -> i ∈ dv_pos dv.
Proof using Hkinds Hfs Hdvs.
  intros Hd (Hx & Hp & Hle & ref & Hr & Hn). pose proof Hx as [Hxl _]. destruct (dvs_spec _ _ _ Hfs _ _ Hdvs) as (_ & _ & D3). destruct (D3 (entry_of x)) as (ref' & pos & safe & buf & Hr' & Hin & Ho & Hb & Hv).
  { apply entries_of. by exists x. } { by apply puffin_spec. }
  assert (ref' = ref) as -> by (change (ie_ref_data_file (entry_of x)) with (me_referenced_data_file x.2) in Hr'; congruence). exists (mkDvDel ref (ie_seq (entry_of x)) pos). split; [done|]. split.
  - unfold dv_applies. cbn [dv_seq dv_dpath]. apply andb_true_iff. split; [by apply Z.leb_le|]. by apply names_spec.
  - intros i (ref2 & safe2 & buf2 & pos2 & Hr2 & Ho2 & Hb2 & Hv2 & Hi). cbn [dv_pos]. apply (opens_spec x safe2 Hxl) in Ho2. assert (ref2 = ref) as -> by congruence. assert (safe2 = safe) as -> by congruence. assert (buf2 = buf) as -> by congruence.
    change (ie_content_offset (entry_of x)) with (me_content_offset x.2) in Hv. change (ie_content_size (entry_of x)) with (me_content_size_in_bytes x.2) in Hv. congruence.
Qed.

Lemma position_deleted_spec d i : d ∈ live -> position_dropped posdels dvs (entry_of d) i <-> position_deleted d i.
Proof using Hkinds Hfs Hdvs Hpos.
  intros Hd. destruct (pos_deletes_spec _ _ _ Hpos) as [_ P2]. unfold position_dropped, position_deleted.
  assert (Hnone : (forall dv, dv ∈ dvs -> dv_applies (entry_of d) dv = false) <-> forall x, ~ vector_applies d x).
  { split.
    - intros H x Hx. destruct (vector_found d x Hd Hx) as (dv & Hin & Ha & _). rewrite H in Ha by done. done.
    - intros H dv Hin. destruct (dv_applies (entry_of d) dv) eqn:Ha; [|done]. destruct (vector_read d dv Hd Hin Ha) as (x & Hx & _). by apply H in Hx. }
  assert (Hlist : (exists pd, pd ∈ posdels /\ ice_path_eq (pd_dpath pd) (ie_file_path (entry_of d)) = true /\ ie_seq (entry_of d) <= pd_seq pd /\ pd_pos pd = i) <-> listed d i).
  { split.
    - intros (pd & (ed & rows & Hed & Hp & (safe & Ho & Hr) & Hrow & Hs)%P2 & Hn & Hle & <-). apply entries_of in Hed as (x & Hx & ->). pose proof Hx as [Hxl _]. exists x, safe, rows, (pd_dpath pd).
      split; [done|]. split; [rewrite <- puffin_spec, Hp; done|]. split; [rewrite Hs in Hle; exact Hle|]. split; [by apply opens_spec|]. split; [done|]. split; [done|]. by apply names_spec.
    - intros (x & safe & rows & p & Hx & Hp & Hle & Ho & Hr & Hrow & Hn). pose proof Hx as [Hxl _]. exists (mkPosDel p i (ie_seq (entry_of x))). cbn [pd_dpath pd_seq pd_pos]. split; [|split; [by apply names_spec|done]].
      apply P2. cbn [pd_dpath pd_seq pd_pos]. exists (entry_of x), rows. split; [apply entries_of; by exists x|]. split; [rewrite <- puffin_spec in Hp; by destruct (puffin_format _)|]. split; [|done]. exists safe. split; [by apply opens_spec|done]. }
  rewrite Hnone, Hlist. apply or_iff_compat_r. split.
  - intros (dv & Hin & Ha & Hi). destruct (vector_read d dv Hd Hin Ha) as (x & Hx & Hh). exists x. split; [done|]. by apply Hh.
  - intros (x & Hx & Hi). destruct (vector_found d x Hd Hx) as (dv & Hin & Ha & Hh). exists dv. split; [done|]. split; [done|]. by apply Hh.
Qed.

Lemma equality_deleted_spec d col : d ∈ live -> min <= seq_of d -> equality_hit scan_ctx root (entry_of d) col <-> equality_deleted d col.
Proof using Hkinds Hfiles.
  intros Hd Hmin. unfold equality_hit, equality_deleted. split.
  - intros (ed & types & atts & rows & row & Hed & Hs & Hsc & Hc & (safe & Ho & Hr) & Hrow & Heq). apply entries_of in Hed as (x & Hx & ->). pose proof Hx as [Hxl _]. destruct (eq_columns_spec _ _ _ _ Hc) as (L1 & L2 & _). exists x, types, atts, safe, rows, row.
    split; [split; [done|]; split; [exact Hs|by apply covers_spec]|]. split; [by apply columns_spec|]. split; [by apply opens_spec|]. split; [done|]. split; [done|]. apply all_equal_spec; [by rewrite length_map|..|done].
    rewrite L1, <- L2. exact (proj1 (list.Forall_forall _ _) (read_width stack buffered _ _ _ _ Hr) row Hrow).
  - intros (x & types & atts & safe & rows & row & (Hx & Hs & Hsc) & Hc & Ho & Hr & Hrow & Heq). pose proof Hx as [Hxl _]. assert (Hed : entry_of x ∈ filter (fun ed => min < ie_seq ed) (sc_eqdel scan_ctx)).
    { apply list_elem_of_filter. split; [|apply entries_of; by exists x]. change (ie_seq (entry_of x)) with (seq_of x). lia. }
    apply list_elem_of_lookup in Hed as [k Hk]. destruct (Forall2_lookup_l _ _ _ _ _ Hfiles Hk) as (Ef & _ & types' & atts' & part & _ & Hc' & _ & _). destruct (columns_inj _ _ _ _ _ Hc (columns_spec _ _ _ Hc')) as [<- <-].
    destruct (eq_columns_spec _ _ _ _ Hc') as (L1 & L2 & _). exists (entry_of x), types, atts, rows, row. split; [apply entries_of; by exists x|]. split; [exact Hs|]. split; [by apply covers_spec|]. split; [done|]. split; [exists safe; split; [by apply opens_spec|done]|].
    split; [done|]. apply all_equal_spec; [by rewrite length_map|..|done]. rewrite L1, <- L2. exact (proj1 (list.Forall_forall _ _) (read_width stack buffered _ _ _ _ Hr) row Hrow).
Qed.

Lemma deleted_spec d cols i : d ∈ live -> min <= seq_of d -> dropped scan_ctx root posdels dvs (entry_of d) cols i <-> deleted d cols i.
Proof using Hkinds Hfs Hdvs Hpos Hfiles.
  intros Hd Hmin. unfold dropped, deleted. rewrite (position_deleted_spec d i Hd). apply or_iff_compat_l. split; intros (k & col & Hk & -> & H); exists k, col; (split; [done|]; split; [done|]); by apply (equality_deleted_spec d col Hd Hmin).
Qed.
End Deleted.

Lemma data_file_reads args d cols rows : d ∈ live -> data_file args d cols rows -> file_reads scan_ctx root args (entry_of d) cols rows.
Proof using Hkinds.
  intros Hd [H1 H2 (safe & Ho & Hr & Hp) Hl]. split; [| | |done].
  - unfold other_format, format_is. change (ie_file_format (entry_of d)) with (me_file_format d.2). destruct (me_file_format d.2) as [f|]; [|done]. rewrite bool_decide_eq_true_2; [done|by apply H1].
  - intros ed Hed Hs Hpt. apply entries_of in Hed as (x & Hx & ->). apply is_partitioned_spec in Hpt as (fields & Hf & Hne). destruct (H2 x fields Hx Hs Hf) as [S1 S2]; [by intros ->|]. split; [done|]. intros E.
    specialize (S2 E). unfold ice_part_incomparable. change (ie_part_cells (entry_of d)) with (me_part_cells d.2). clear -S2. induction S2 as [|c l Hc _ IH]; [done|]. cbn [existsb]. by rewrite Hc.
  - exists safe. split; [by apply opens_spec|]. split; [done|]. intros uni (U1 & U2 & U3). apply Hp. split; [done|]. split; [done|]. intros id t. rewrite U3. split.
    + intros (ed & nm & Hed & Hs & Hsc & Hid & Ht). apply entries_of in Hed as (x & Hx & ->). exists x, nm. split; [|done]. split; [done|]. split; [exact Hs|by apply covers_spec].
    + intros (x & nm & (Hx & Hs & Hsc) & Hid & Ht). exists (entry_of x), nm. split; [apply entries_of; by exists x|]. split; [exact Hs|]. split; [by apply covers_spec|done].
Qed.

Lemma scan_cb_all : cb_all ice_scan_cb roots live (mkScanCtx None [] [] []) = Ok scan_ctx.
Proof using Hkinds.
  assert (Hall : forall l, Forall (fun x : live_file => 0 <= me_content x.2 <= 2 /\ me_file_path x.2 <> None) l -> forall r d p e, r = None \/ r = Some roots ->
    cb_all ice_scan_cb roots l (mkScanCtx r d p e) = Ok (mkScanCtx (match l with [] => r | _ => Some roots end) (d ++ map entry_of (List.filter (fun x => me_content x.2 =? 0) l)) (p ++ map entry_of (List.filter (fun x => me_content x.2 =? 1) l))
      (e ++ map entry_of (List.filter (fun x => me_content x.2 =? 2) l)))).
  { induction 1 as [|[mf en] l [Hk Hp] _ IH]; intros r d p e Hr; cbn [cb_all List.filter map]; [by rewrite !app_nil_r|]. cbn [snd] in *. destruct (me_file_path en) as [fp|] eqn:Efp; [|done].
    assert (Hcb : ice_scan_cb roots mf en (mkScanCtx r d p e) = Ok (mkScanCtx (Some roots) (d ++ if me_content en =? 0 then [entry_of (mf, en)] else []) (p ++ if me_content en =? 1 then [entry_of (mf, en)] else [])
      (e ++ if me_content en =? 2 then [entry_of (mf, en)] else []))).
    { unfold ice_scan_cb, entry_of. cbn [fst snd]. rewrite Efp. cbn [sc_roots sc_data sc_posdel sc_eqdel default]. assert (Hc : me_content en = 0 \/ me_content en = 1 \/ me_content en = 2) by lia. destruct Hr as [-> | ->]; destruct Hc as [-> |[-> | ->]]; cbn -[app]; by rewrite ?app_nil_r. }
    rewrite Hcb, bind_Ok, IH by (by right). destruct (me_content en =? 0), (me_content en =? 1), (me_content en =? 2); cbn [map app]; rewrite <- ?app_assoc, ?app_nil_r; by destruct l. }
  exact (Hall live Hkinds None [] [] [] (or_introl eq_refl)).
Qed.
End Applied.

Section Scanned.
Context `{N : Numerics} `{J : !JsonbIn} `{CR : Crc32} `{RI : RawInflate} `{TE : TextEnv} `{PE : PathEnv} `{FS : IceFiles} `{T : PgTypes} `{TC : !TypmodCoercion} `{C : BlockCodecs} `{ZL : Zlib} `{PO : ParquetObjects}.
Context `{HO : !HashOps} `{HL : !HashOpsLaws HO} (stack : nat) (buffered : bool).

Lemma live_kinds roots mfs live : live_manifests stack roots mfs live -> Forall (fun x => 0 <= me_content x.2 <= 2 /\ me_file_path x.2 <> None) live.
Proof using.
  induction 1 as [|mf mfs mp mb es out rest _ _ _ _ Hl _ IH]; [constructor|]. apply Forall_app. split; [|done]. clear IH. induction Hl as [|e es out _ _ _ IH|e e' es out Hle _ IH]; cbn [map]; [constructor|done|]. constructor; [|done]. cbn [snd].
  destruct Hle as (_ & Hk & _ & Hp & n & _ & ->). done.
Qed.

(** What a scan of a table reads: its metadata, the manifest list of its current
    snapshot and its manifests, with the live entries [live]; the deletes of every
    kind read, and so do the data files that are not pruned. *)
Record table_reads (path : list Z) (args : ScanArgs) (root : json) (roots : WalkRoots) (live : list (PgColumnarAvroManifestFile * PgColumnarAvroManifestEntry))
    (content : PgColumnarAvroManifestFile * PgColumnarAvroManifestEntry -> list (Z -> option coldatum) * list (list (option coldatum))) : Prop := mkTableReads {
  tr_metadata : ice_read_metadata path = Ok root;
  tr_columns : ice_field_ids_for_columns root (sa_atts args) = Ok (sa_field_ids args);
  tr_mapping : ice_name_mapping root = Ok (sa_nm args);
  tr_live : exists sc cur ml ml_path mlbuf mfs, ice_current_snapshot root = Ok (Some (sc, cur)) /\ walk_roots path root = Ok roots /\ ice_str_required sc (str "manifest-list") = Ok ml /\
    ice_open_path (wr_recorded roots) (wr_actual roots) (Some ml) = Ok ml_path /\ ice_slurp_bin ml_path = Ok mlbuf /\ PgColumnarAvroReadManifestList stack mlbuf = Ok mfs /\ live_manifests stack roots mfs live;
  tr_posdels : exists posdels, ice_read_pos_deletes stack buffered (scan_ctx roots live) = Ok posdels;
  tr_dvs : exists fmtver dvs, ice_num_int64 (ice_field root (str "format-version")) = Ok (Some fmtver) /\ ice_read_dvs (scan_ctx roots live) fmtver = Ok dvs;
  tr_eqdels : exists es, ice_read_eq_deletes stack buffered (scan_ctx roots live) root (foldl (fun m d => Z.min m (ie_seq d)) PG_INT64_MAX (sc_data (scan_ctx roots live))) = Ok es;
  tr_data : forall d, live_of live 0 d -> pruned_by args (entry_of d) = false -> data_file stack buffered roots live root args d (content d).1 (content d).2
}.


End Scanned.

(** ** An example *)

(** A table with a data file of four rows, a position delete of its third and a
    newer equality delete of its first. *)
Definition jf (nm : list Z) (t : @json int_numerics) : @json int_numerics := JObject [(str "name", JString nm); (str "type", t)].
Definition jrec (l : list (@json int_numerics)) : @json int_numerics := JObject [(str "type", JString (str "record")); (str "fields", JArray l)].

Definition ex_list_schema : @json int_numerics :=
  jrec [jf (str "manifest_path") (JString (str "string")); jf (str "partition_spec_id") (JString (str "int")); jf (str "content") (JString (str "int")); jf (str "sequence_number") (JString (str "long"))].
Definition ex_entry_schema : @json int_numerics :=
  jrec [jf (str "status") (JString (str "int")); jf (str "sequence_number") (JArray [JString (str "null"); JString (str "long")]);
    jf (str "data_file") (jrec [jf (str "content") (JString (str "int")); jf (str "file_path") (JString (str "string")); jf (str "file_format") (JString (str "string"));
      jf (str "equality_ids") (JArray [JString (str "null"); JObject [(str "type", JString (str "array")); (str "items", JString (str "int"))]])])].
Definition ex_metadata : @json int_numerics :=
  JObject [(str "format-version", JNumeric (2 : @numeric int_numerics)); (str "location", JString (str "s3://b/t")); (str "current-snapshot-id", JNumeric (7 : @numeric int_numerics));
    (str "snapshots", JArray [JObject [(str "snapshot-id", JNumeric (7 : @numeric int_numerics)); (str "manifest-list", JString (str "s3://b/t/metadata/list.avro"))]]);
    (str "schema", JObject [(str "fields", JArray [JObject [(str "id", JNumeric (1 : @numeric int_numerics)); (str "name", JString (str "id")); (str "type", JString (str "long"))]])]);
    (str "partition-specs", JArray [JObject [(str "spec-id", JNumeric (0 : @numeric int_numerics)); (str "fields", JArray [])]])].

Definition ex_json : JsonbIn (N := int_numerics) :=
  {| jsonb_in t := if decide (t = str "list") then Some ex_list_schema else if decide (t = str "entry") then Some ex_entry_schema else Some ex_metadata |}.

Definition ex_manifests : list (list avval) :=
  [[VBytes (str "s3://b/t/metadata/m0.avro"); VLong 0; VLong 0; VLong 1]; [VBytes (str "s3://b/t/metadata/m1.avro"); VLong 0; VLong 1; VLong 2]].
Definition ex_data_entries : list (list avval) :=
  [[VLong 1; VUnion 0 VNull; VRecord [VLong 0; VBytes (str "s3://b/t/data/a.parquet"); VBytes (str "PARQUET"); VUnion 0 VNull]]].
Definition ex_delete_entries : list (list avval) :=
  [[VLong 1; VUnion 0 VNull; VRecord [VLong 1; VBytes (str "s3://b/t/data/p.parquet"); VBytes (str "PARQUET"); VUnion 0 VNull]];
   [VLong 1; VUnion 0 VNull; VRecord [VLong 2; VBytes (str "s3://b/t/data/e.parquet"); VBytes (str "PARQUET"); VUnion 1 (VArray [(false, [VLong 1])])]]].

Definition ex_avro (schema : list Z) (records : list (list avval)) : list Z :=
  put_ocf (replicate 16 5) [(false, [(str "avro.schema", schema)])] [(concat (map put_values records), records)].

Definition ex_files : IceFiles := {|
  ice_slurp_text _ := Ok (str "metadata");
  ice_slurp_bin p := if decide (p = str "s3://b/t/metadata/list.avro") then Ok (ex_avro (str "list") ex_manifests)
    else if decide (p = str "s3://b/t/metadata/m0.avro") then Ok (ex_avro (str "entry") ex_data_entries)
    else if decide (p = str "s3://b/t/metadata/m1.avro") then Ok (ex_avro (str "entry") ex_delete_entries) else Err "no such file"
|}.

(** A column of a Parquet file of one row group: its name, physical type, field id
    and the PLAIN bytes of its values, none of them null. *)
Definition ex_column : Type := list Z * Z * Z * list Z.

Definition ex_element (col : ex_column) : list Z := let '(name, phys, id, _) := col in struct_bytes 0 [i32_field 1 phys; i32_field 3 0; string_field 4 name; i32_field 9 id].

(** The pages of the columns, and their chunks' metadata. *)
Fixpoint ex_chunks (n off : Z) (cols : list ex_column) : list Z * list (list Z) :=
  match cols with
  | [] => ([], [])
  | (name, phys, _, vals) :: cols =>
      let page := write_page_header n (zlen vals) ++ vals in
      let '(pages, metas) := ex_chunks n (off + zlen page) cols in
      (page ++ pages, struct_bytes 0 [i64_field 2 off; struct_field 3 [i32_field 1 phys; list_field 3 TC_BINARY [PgColumnarThriftPutVarint (zlen name) ++ name]; i32_field 4 0; i64_field 5 n; i64_field 6 (zlen page); i64_field 7 (zlen page); i64_field 9 off]] :: metas)
  end.

Definition ex_parquet (n : Z) (cols : list ex_column) : PqSource :=
  let '(pages, metas) := ex_chunks n 4 cols in
  let footer := struct_bytes 0 [i32_field 1 1; list_field 2 TC_STRUCT (write_schema_element_root (zlen cols) :: map ex_element cols); i64_field 3 n;
    list_field 4 TC_STRUCT [struct_bytes 0 [list_field 1 TC_STRUCT metas; i64_field 2 (zlen pages); i64_field 3 n]]] in
  mkSource (PAR1 ++ pages ++ footer ++ le_bytes 4 (zlen footer) ++ PAR1) false None.

Definition ex_longs (name : list Z) (id : Z) (vs : list Z) : ex_column := (name, PQ_INT64, id, concat (map (le_bytes 8) vs)).
Definition ex_text (name : list Z) (id : Z) (s : list Z) : ex_column := (name, PQ_BYTE_ARRAY, id, le_bytes 4 (zlen s) ++ s).

Definition ex_objects : ParquetObjects := {|
  pq_open p := if decide (p = str "s3://b/t/data/a.parquet") then Ok (ex_parquet 4 [ex_longs (str "id") 1 [10; 20; 30; 40]])
    else if decide (p = str "s3://b/t/data/p.parquet") then Ok (ex_parquet 1 [ex_text (str "file_path") ICE_POSDEL_PATH_ID (str "s3a://b/t/data/a.parquet"); ex_longs (str "pos") ICE_POSDEL_POS_ID [2]])
    else if decide (p = str "s3://b/t/data/e.parquet") then Ok (ex_parquet 1 [ex_longs (str "id") 1 [10]]) else Err "no such file"
|}.

(** Equality and hashing of integers. *)
Definition ex_equal (a b : @coldatum two_numbers) : bool := match a, b with AScalar (DInt x), AScalar (DInt y) => x =? y | _, _ => false end.
Definition ex_hash_value (v : @coldatum two_numbers) : Z := match v with AScalar (DInt n) => Z.land n (2 ^ 32 - 1) | _ => 0 end.

Definition ex_hash : HashOps (T := two_numbers) :=
  Build_HashOps two_numbers (Z.eqb INT8OID) (fun _ => ex_equal) (fun _ => ex_hash_value) (fun h k => Z.land (31 * h + k) (2 ^ 32 - 1)) (fun bs seed => foldl Z.add seed bs).

Lemma ex_hash_laws : HashOpsLaws ex_hash.
Proof. split. intros t a b. cbn. destruct a as [[]| |], b as [[]| |]; try done. cbn. by intros ->%Z.eqb_eq. Qed.

Definition ex_args : ScanArgs := mkScanArgs [Some (str "id", CScalar INT8OID (-1))] [1] [] None None.
Definition ex_roots : WalkRoots := mkRoots (str "s3://b/t") (str "s3://b/t").

(** The entries as the walk delivers them. *)
Definition ex_mf (p : list Z) (content seq : Z) : PgColumnarAvroManifestFile := mkManifestFile (Some p) 0 (0, true) content (seq, true) (0, false) 0 0 0 0 0 0 0.
Definition ex_entry (content : Z) (p : list Z) (ids : list Z) (seq : Z) : PgColumnarAvroManifestEntry :=
  mkEntry 1 content (Some p) (Some (str "PARQUET")) 0 0 None seq true true ids None (0, false) (0, false) [] [] [].
Definition ex_data : PgColumnarAvroManifestFile * PgColumnarAvroManifestEntry := (ex_mf (str "s3://b/t/metadata/m0.avro") 0 1, ex_entry 0 (str "s3://b/t/data/a.parquet") [] 1).
Definition ex_live : list (PgColumnarAvroManifestFile * PgColumnarAvroManifestEntry) :=
  [ex_data; (ex_mf (str "s3://b/t/metadata/m1.avro") 1 2, ex_entry 1 (str "s3://b/t/data/p.parquet") [] 2); (ex_mf (str "s3://b/t/metadata/m1.avro") 1 2, ex_entry 2 (str "s3://b/t/data/e.parquet") [1] 2)].

Definition ex_values : list (@coldatum two_numbers) := map (fun v => AScalar (DInt v)) [10; 20; 30; 40].
Definition ex_content (d : PgColumnarAvroManifestFile * PgColumnarAvroManifestEntry) : list (Z -> option (@coldatum two_numbers)) * list (list (option (@coldatum two_numbers))) :=
  (map (fun v id => if id =? 1 then Some v else None) ex_values, map (fun v => [Some v]) ex_values).

Lemma ex_files_ok : files_ok (FS := ex_files).
Proof.
  assert (Hok : forall schema recs, bool_decide (bytes_ok (ex_avro schema recs) /\ zlen (ex_avro schema recs) < 2 ^ 62) = true -> forall buf, Ok (ex_avro schema recs) = Ok buf -> bytes_ok buf /\ zlen buf < 2 ^ 62).
  { intros schema recs H%bool_decide_eq_true buf E. injection E as <-. exact H. }
  intros p buf. unfold ice_slurp_bin, ex_files. destruct (decide _); [apply Hok; vm_compute; reflexivity|]. destruct (decide _); [apply Hok; vm_compute; reflexivity|]. destruct (decide _); [apply Hok; vm_compute; reflexivity|done].
Qed.

Lemma ok_some {A} (r : res A) : match r with Ok _ => true | _ => false end = true -> exists a, r = Ok a.
Proof. destruct r; try done. by eexists. Qed.

(** The rows are compared in their only column. *)
Lemma ex_compared uni : compared (N := int_numerics) ex_live ex_metadata ex_data uni -> uni = [(1, INT8OID)].
Proof.
  intros (Hd & Hne & Hu). assert (Hone : forall x, x ∈ uni -> x = (1, INT8OID)).
  { intros [id t] (x & nm & ([Hx _] & _) & Hid & Ht)%Hu. unfold ex_live in Hx. rewrite !elem_of_cons in Hx. destruct Hx as [-> |[-> |[-> |Hx]]]; cbn in Hid; [by apply not_elem_of_nil in Hid|by apply not_elem_of_nil in Hid| |by apply not_elem_of_nil in Hx].
    apply list_elem_of_singleton in Hid as ->. vm_compute in Ht. by injection Ht as <- _. }
  destruct uni as [|u [|v uni]]; [done|by rewrite (Hone u) by (by left)|]. rewrite (Hone u), (Hone v) in Hd by (rewrite ?elem_of_cons; tauto). cbn [map fst] in Hd. apply list.NoDup_cons in Hd as [Hn _]. exfalso. apply Hn. by left.
Qed.

Lemma ex_reads_table : table_reads (N := int_numerics) (J := ex_json) (CR := sum_crc) (RI := ended_stream) (TE := plain_text) (PE := plain_paths) (FS := ex_files) (T := two_numbers) (TC := keep_all) (C := no_codecs) (ZL := no_zlib) (PO := ex_objects) (HO := ex_hash) 9 true
  (str "s3://b/t/metadata/v1.metadata.json") ex_args ex_metadata ex_roots ex_live ex_content.
Proof.
  split; [reflexivity|vm_compute; reflexivity|vm_compute; reflexivity| | | | |].
  - eexists _, _, _, _, _, _. split; [reflexivity|]. split; [vm_compute; reflexivity|]. split; [vm_compute; reflexivity|]. split; [vm_compute; reflexivity|]. split; [vm_compute; reflexivity|]. split; [vm_compute; reflexivity|].
    eapply (live_more 9 _ _ _ _ _ _ [ex_entry 0 (str "s3://b/t/data/a.parquet") [] 1]); [by left|vm_compute; reflexivity|vm_compute; reflexivity|vm_compute; reflexivity| |].
    + apply live_keep; [|apply live_nil]. do 4 (split; [done|]). eexists. split; [by apply seq_inherited|reflexivity].
    + eapply (live_more 9 _ _ _ _ _ _ [ex_entry 1 (str "s3://b/t/data/p.parquet") [] 2; ex_entry 2 (str "s3://b/t/data/e.parquet") [1] 2] []); [by right|vm_compute; reflexivity|vm_compute; reflexivity|vm_compute; reflexivity| |apply live_none].
      do 2 (apply live_keep; [do 4 (split; [done|]); eexists; (split; [by apply seq_inherited|reflexivity])|]). apply live_nil.
  - exists [mkPosDel (str "s3a://b/t/data/a.parquet") 2 2]. vm_compute. reflexivity.
  - exists 2, []. split; vm_compute; reflexivity.
  - apply ok_some. vm_compute. reflexivity.
  - intros d [Hd Hc] _. unfold ex_live in Hd. rewrite !elem_of_cons in Hd. destruct Hd as [-> |[-> |[-> |?%not_elem_of_nil]]]; try done. split; [by intros f [= <-]| | |reflexivity].
    + intros x fields _ _ _ _. split; [done|]. intros _. constructor.
    + exists (str "s3://b/t/data/a.parquet"). split; [vm_compute; reflexivity|]. split; [|intros uni ->%ex_compared]; vm_cast_no_check (eq_refl (@Ok (list (list (option (@coldatum two_numbers)))) (ex_content ex_data).2)).
Qed.

